(* ===== verification/_CoqProject ===== *)
-Q . S2P
Prelude.v
IOBufMem.v
IOBuf.v
IOBufChain.v
IOBufInv.v
IOBufWf.v
IOBufPrim.v
IOBufRelease.v
IOBufLife.v
IOBufWindow.v
IOBufShare.v
IOBufClone.v
IOBufPiece.v
IOBufRead.v
IOBufSpec.v
IOBufQueue.v
IOBufQueueRep.v
IOBufQueueOps.v
IOBufQueueSpec.v
Bits.v
Cursor.v
CursorRead.v
CursorInspect.v
CursorText.v
CursorWrite.v
CursorAppend.v
CursorEdit.v
CursorQueue.v
CursorSpec.v
Unicode.v
EvictingCacheMap.v
EvictingCacheMapSpec.v
EvictingCacheMapClaims.v
SpookyHashV2.v
Base64.v
ProducerConsumerQueue.v
RWSpinLock.v
DAG.v
DAGCycle.v
DAGRun.v
DAGSpec.v
Conv.v
ConvParse.v
ConvPrint.v
ConvSpec.v
Hash.v
FBStringMem.v
FBStringCore.v
FBStringInv.v
FBStringStep.v
FBStringLife.v
FBStringInit.v
FBStringGrow.v
FBStringResize.v
FBStringModel.v
FBString.v
FBStringText.v
FBStringReplace.v
FBStringWhole.v
FBStringSearch.v
FBStringSpec.v
FBStringProps.v
StringCase.v
StringHex.v
Range.v
RangeOps.v
StringSplit.v
Dynamic.v
Json.v
JsonSpec.v
JsonProps.v
Gen.v
GenSpec.v
GenString.v
Checksum.v
ChecksumSpec.v
FileUtil.v
RecordIO.v
RecordIOSpec.v
RecordIOWrite.v
