(* ===== verification/Prelude.v ===== *)
(** * Verification of the accelerator C++ library

    accelerator ([src/accelerator/]) is a base library for C++ servers: chained
    I/O buffers and what is built on them, record files, an LRU cache, hashing and
    checksums, text codings and ranges, JSON, lazy sequences, lock-free queues and
    locks, and a scheduler of task graphs. This development translates these parts into executable definitions, file by
    file and function by function, and proves what their users rely on.

    ** The model of C++

    [Prelude] has the conventions that all files share.

    - An unsigned integer of [w] bits is a [Z]; every operation that can leave
      its range is followed by [wrap w] ([u8], [u16], [u32], [u64]); a signed
      value is read out of a pattern by [sext w]. The machine is the one the
      code is written for: 64 bits, little-endian, signed [char].
    - A function that can fail is a computation [M S A] on a state [S]: it
      returns ([Ok]), throws an exception that carries the source's message
      ([Throw]), does something that C++ leaves undefined, such as an access to
      memory that was freed, an access outside of a buffer or a failed
      [assert] ([Fault]), or does not end ([OutOfFuel]).
    - [wp m s Q E] says that [m], started in [s], returns with [Q] or throws with
      [E]. It is false for [Fault] and for [OutOfFuel], so that each theorem of
      this form also states that no undefined behaviour occurs and that the loops
      end. [nothrow] is the exception postcondition that is never met.
    - A loop is [iter fuel round]: a round gives the next state or the result. The
      fuel is computed from the state: a bound on the rounds (see below).
    - Code that runs on several threads is a step relation, one step per access to
      shared memory; the theorems are about every interleaving.

    ** The parts, their files and their theorems

    [io/IOBuf.h], [io/IOBuf.cpp]. [IOBufMem] is the memory: IOBuf objects by
    address, SharedInfo blocks with their reference counts, data allocations
    (live or freed, with their capacity and bytes), and an allocator that may
    refuse. [IOBuf] has every operation of the class. The memory invariant [wf]
    ([IOBufInv], decided on concrete heaps in [IOBufRead]) says that windows lie
    in live memory, that counts count, that an object not flagged as shared is
    the only user of its buffer, and that each buffer is released in the way it
    was obtained; [IOBufWf] shows that each elementary change keeps it,
    [IOBufPrim] has the rules for the primitive accesses and the frame relation
    [keeps]. [IOBufChain] treats the circular chains, [IOBufRelease]
    and [IOBufLife] allocation, reference counting and destruction, [IOBufWindow]
    the data window, [IOBufShare] unsharing, [IOBufClone] clones and moves,
    [IOBufPiece] pieces of a buffer, coalescing and [gather], [IOBufRead] inspection. [IOBufSpec]
    states the contract: chains are circular lists and their operations the list
    operations; a clone has the same bytes and shares them until it is unshared;
    unsharing and coalescing keep the bytes of every object; deleting a chain
    frees all its memory that no one else uses, and nothing else. That nothing
    leaks is [tidy] ([IOBufRelease]): every SharedInfo, buffer and HeapStorage has
    an owner; [leakless] operations keep it, also when they throw. Small buffers
    are allocated without a check ([small_create_unchecked]), so that claims about
    operations that create one assume that the allocator grants its requests.

    [io/IOBufQueue.h], [io/IOBufQueue.cpp]. [IOBufQueue] has the operations, on the
    same memory. [IOBufQueueRep] relates a queue to the byte sequence it
    represents, [IOBufQueueOps] proves the steps and [IOBufQueueSpec] the contract:
    appending, splitting and trimming are the operations on sequences, with the
    cached length exact and each error path.

    [io/Cursor.h], [io/Cursor-inl.h], [io/Cursor.cpp]. [Cursor] has the reading
    cursors, [CursorWrite] the class [Writable] with its three implementations
    [RWCursor], [Appender] and [QueueAppender]. [CursorRead] relates a cursor to the
    bytes before and after it in its chain; [CursorInspect] and [CursorText] prove
    the reading methods, [CursorEdit], [CursorAppend] and
    [CursorQueue] the writing ones, [CursorSpec] the contract: reading is taking
    bytes off a sequence, writing through a cursor replaces bytes and, when the cursor
    unshares, never those of another object that shares the buffer when the cursor
    comes to it (a clone made later is not protected, [later_clone_overwritten]),
    appending extends the sequence, and a value that was written is the value read
    back.

    [io/FileUtil.h], [io/FileUtil.cpp]. [FileUtil] has the wrappers that repeat a
    system call until it is done, [readFile] and [writeFile]. The kernel is a
    parameter, the class [FileKernel] with the documented behaviour of its calls,
    which may move fewer bytes than asked for, be interrupted and fail; the class
    [Transfers] is what the wrappers rely on. The claim: whole files are read and
    written, and the loops end.

    [io/RecordIO.h], [io/RecordIO.cpp]. [RecordIO] has the header of a record, the
    writer on the heap of IOBufs and a kernel, the steps of several writing threads,
    and the reader on the bytes and addresses of a mapped file. [RecordIOSpec] states
    what a record is ([record]) and what a scan of a stream finds ([scan]), and has
    the claim that the reader performs this scan on any bytes, damaged ones too.
    [RecordIOWrite] has the writer: [write] appends exactly the record of a chain of
    IOBufs, unless a call of [pwritev] has failed, and records that threads wrote at the
    same time are all read back, in the order in which they reserved their places.

    [FBString.h], [Malloc.h]. [FBStringMem] is a flat address space of bytes with an
    allocator that places or refuses each request as it likes (class [Platform]) and
    the functions of [Malloc.h]. [FBStringCore] has [fbstring_core] on it, byte by
    byte: the 24 bytes of an object with its three categories, the allocations and
    the reference counts. A ghost map says what each region is; [FBStringInv] has the
    invariant that ties it to the memory, [FBStringStep] the accesses, [FBStringLife], [FBStringInit] construction, copying and
    destruction, [FBStringGrow], [FBStringResize]
    copy-on-write and changes of size. [FBStringModel] states what a core promises to
    its client, the class [fbstring_core_model] (the source documents it under that
    name), and proves that [fbstring_core] keeps it. [FBString] has
    [basic_fbstring] over any core that does; [FBStringText],
    [FBStringReplace], [FBStringWhole] and [FBStringSearch] prove its methods from the
    contract alone. A second pass over the code ([honest], with a rule per construct in
    [FBStringMem], and the class [honest_core]) shows that [bad_alloc] is only thrown
    when the allocator has refused a request. [FBStringSpec] gives each call its
    meaning on texts and
    [FBStringProps] the claims: calls refine their meaning, with sharing, aliasing
    and failing allocations; nothing leaks; the layout of an object; exact searches;
    lexicographic comparisons.

    [Conv.h], [Conv.cpp]. [Conv] has the conversions between integers, bool and text;
    [ConvParse] and [ConvPrint] prove the two directions and [ConvSpec] the claims: a
    text is converted exactly when it is a decimal number in range, what is printed
    is read back, and conversions between integral types lose nothing but for one
    case. [Hash.h]. [Hash] has the functions and the claims: the reversible mixers are, and a single change of the input changes the FNV hashes.

    [dynamic.h], [dynamic-inl.h], [dynamic.cpp]. [Dynamic] has the values of run-time
    type; doubles and the order of a hash map are the classes [Floating] and
    [Unordered]; objects are merged key by key in whatever order. [json.h],
    [json.cpp]. [Json] has the printer, the parser and [stripComments]; [JsonSpec]
    states the grammar of the texts of a value ([denotes]) and proves that the parser
    reads every one of them and that the printer writes one; [JsonProps] has the
    claims: every text of the grammar is parsed, what is printed is parsed back to an
    equal value, the parser ends on every text, and comments are stripped.

    [gen/Core-inl.h], [gen/Base-inl.h], [gen/Combine-inl.h]. [Gen] has the sources,
    operators and sinks: a generator is its two methods [apply] and [foreach], for
    handlers that may keep state, throw and stop. [GenSpec] has pipelines as data,
    with the list of the values that each stands for, and the claims: a well-formed
    pipeline ([well_formed] excludes take(0), a cycle of nothing, a zip with a shorter
    container and sequences past the greatest value of their type, on which the code
    breaks the contract of [apply]) delivers exactly these values, in order and until
    the handler stops, and the sinks return what their names say of them. [gen/String-inl.h]. [GenString] has
    [StreamSplitter], [resplit], [split], [lines] and [unsplit]: what a stream
    splitter delivers does not depend on how the text is cut into chunks.

    [EvictingCacheMap.h]. [EvictingCacheMap] has the cache over two intrusive
    containers, which are Boost's: type classes [NodeList] and [NodeMap] with their
    laws, and the invariant. [EvictingCacheMapSpec] has the
    refinement of a list ordered by recency, [EvictingCacheMapClaims] what clients
    see over any sequence of requests (and containers that satisfy the laws): the
    refinement, the size limit, no leak, and what remains after a prune hook threw.

    [scheduler/DAG.h], [scheduler/DAG.cpp]. [DAG] has the graph, the check for cycles,
    [go] and the steps of a run on an executor. [DAGCycle] proves the check exact
    and what [go] prepares, [DAGRun] the invariant of the interleavings,
    [DAGSpec] the claims: no function starts before its predecessors have returned,
    and every run ends with each function called once and the callback called.

    [thread/ProducerConsumerQueue.h] ([ProducerConsumerQueue]): first in, first out, without races, when one
    thread writes and one reads and each may see an older index of the other.
    [thread/RWSpinLock.h] ([RWSpinLock]): exclusion between writers,
    readers and upgraders for any number of threads, recovery of the word after
    failed attempts, and balanced calls of the holders.

    [SpookyHashV2.h], [SpookyHashV2.cpp] ([SpookyHashV2]): the
    incremental hash equals the hash in one call, and mixing is reversible.
    [Checksum.h], [Checksum.cpp]. [Checksum] has CRC-32C and CRC-32 by
    special instructions and in software, with the table of constants; the
    instructions [crc32] and [pclmulqdq] are defined by their documentation and the
    CRC engine of Boost is a parameter. [ChecksumSpec] proves that all routines
    compute what the shift register of the polynomial does bit by bit.

    [Unicode.cpp] ([Unicode]), [Base64.h] ([Base64]), [Bits.h] ([Bits]), [String-inl.h],
    [String.cpp], [EscapeTables.cpp] ([StringCase], [StringHex], [StringSplit]) and
    [Range.h], [Range.cpp] ([Range], [RangeOps]): the texts are those of the
    documentation, the decoders invert the encoders and accept exactly what they
    should; lower-casing by words is lower-casing by
    characters; searches find the first occurrence; splitting and joining are
    inverse; the bit operations are their arithmetic meaning.

    ** Interaction

    IOBufQueue and the cursors work on the heap of IOBuf through its operations
    ([lift] runs one of them within a larger state), and their proofs use only the
    specifications of these operations, [wf], [keeps] and [chain]. Appenders reach
    the queue by [on_queue]. The generic writers ([push], [writeBE], ...) are defined
    for every instance of [Writable]. [basic_fbstring] is defined and verified for
    every instance of [fbstring_core_model], and [fbstring_core] is one. Cursors and
    SpookyHash use the byte order and
    unaligned accesses of [Bits]. RecordIO composes IOBuf, SpookyHash, the searches of
    [Range] and FileUtil, and its proofs use their specifications.

    ** Bounds and fuel

    A loop over a chain gets [S (size (bufs h))] rounds: a chain has no repetition,
    so that a round per element suffices, and the theorems prove it, as [wp] is
    false when the fuel runs out. The same holds for the other loops: an
    [Appender] gets two rounds more than it has bytes, as each new buffer takes a
    byte at least (a [QueueAppender] likewise, given a positive growth); the loops
    of the searches, of lower-casing, escaping and splitting move by at least one
    character per round and get more rounds than there are characters; the outer
    loop of [hasCycle] takes a key off a list on which each key is put at most
    once. Requests for memory are bounded by [max_alloc]; reference counts below
    2^32 and lengths below 2^64 are hypotheses where the code relies on them.
    RWSpinLock assumes fewer than 2^29 threads, the readers its word can count.
    Strings are shorter than the address space of 2^47 bytes, which is what leaves
    two bits of a capacity for the category; a copy assumes fewer than 2^62 regions,
    and the size classes of the allocator ([nallocx]) are assumed to hold what was
    asked for. The searches of FBString get a round per character. The parser of
    JSON gets more rounds than the text has characters. A sequence of gen gets the
    number of its values and one, a cycle the number of its rounds. The loops around
    system calls get a round per byte and per signal, which the kernel may deliver
    a limited number of times.

    ** Not modelled

    Third-party code ([double-conversion/]) and the floating point conversions of
    Conv and Hash that rest on it; of gen the compile-time glue and the readers of
    files; thread/SharedMutex, MPMCQueue,
    ConcurrentSkipList, AtomicUnorderedMap and the futex-based primitives (weak
    memory and per-processor slots, beyond interleavings); the code on descriptors,
    directories and mappings, event, concurrency, stats, compression and ssl (system calls and
    foreign libraries); Uri (boost::regex); RendezvousHash (floating
    point); TimedHeap and Uuid. Of
    FBString the overloads that only forward, those for input iterators, the stream
    operators and the wrapper of std::string; of String the number formatting, C
    escaping and hex dumps; of Range the constructors and stream operators are left
    out. Of the cursors [cloneAtMost], [insert], [gather] and the copy of a cursor
    into a writer are defined but have no theorem yet. *)

From Stdlib Require Import ZArith Lia List.
From stdpp Require Import base list gmap strings.

#[global] Set Default Goal Selector "!".
Open Scope Z_scope.

(** ** Machine integers

    A [w]-bit unsigned integer is a [Z]; every operation of the source that
    can leave the range [0 <= x < 2^w] is followed by [wrap w]. *)

Definition wrap (w x : Z) : Z := x `mod` 2 ^ w.

Abbreviation u8 := (wrap 8).
Abbreviation u16 := (wrap 16).
Abbreviation u32 := (wrap 32).
Abbreviation u64 := (wrap 64).

(** The value of a [w]-bit pattern read as a two's complement number. *)
Definition sext (w x : Z) : Z :=
  if decide (wrap w x < 2 ^ (w - 1)) then wrap w x else wrap w x - 2 ^ w.

Definition fits (w x : Z) : Prop := 0 <= x < 2 ^ w.

#[global] Instance fits_dec w x : Decision (fits w x).
Proof. unfold fits. apply _. Defined.

Lemma wrap_fits w x : 0 <= w -> fits w (wrap w x).
Proof. intros. unfold fits, wrap. apply Z.mod_pos_bound. apply Z.pow_pos_nonneg; lia. Qed.

Lemma wrap_small w x : fits w x -> wrap w x = x.
Proof. intros. unfold wrap. by apply Z.mod_small. Qed.

Lemma u64_small x : 0 <= x < 18446744073709551616 -> u64 x = x.
Proof. intros. apply wrap_small. unfold fits. lia. Qed.

Lemma u32_small x : 0 <= x < 4294967296 -> u32 x = x.
Proof. intros. apply wrap_small. unfold fits. lia. Qed.

Lemma u16_small x : 0 <= x < 65536 -> u16 x = x.
Proof. intros. apply wrap_small. unfold fits. lia. Qed.

Lemma u8_small x : 0 <= x < 256 -> u8 x = x.
Proof. intros. apply wrap_small. unfold fits. lia. Qed.

Lemma wrap_idemp w x : 0 <= w -> wrap w (wrap w x) = wrap w x.
Proof. intros. apply wrap_small. by apply wrap_fits. Qed.

(** ** Outcomes, exceptions and the state monad with exceptions

    The C++ code threads a mutable state and reports errors by throwing.  A
    computation is a function from the state to an outcome: a normal return, a
    thrown exception together with the state at the throw (so that exception
    safety can be stated), a fault (undefined behaviour of the C++ program: a
    bad dereference, an access outside of an allocation, a failed assertion),
    or the exhaustion of a loop's fuel. *)

Inductive exn :=
  | bad_alloc
  | out_of_range (what : string)
  | overflow_error (what : string)
  | underflow_error (what : string)
  | length_error (what : string)
  | invalid_argument (what : string)
  | range_error (what : string)
  | logic_error (what : string)
  | runtime_error (what : string).

#[global] Instance exn_eq_dec : EqDecision exn.
Proof. solve_decision. Defined.

Inductive res (S A : Type) :=
  | Ok (a : A) (s : S)
  | Throw (e : exn) (s : S)
  | Fault (why : string)
  | OutOfFuel.
Arguments Ok {S A}.
Arguments Throw {S A}.
Arguments Fault {S A}.
Arguments OutOfFuel {S A}.

Definition M (S A : Type) : Type := S -> res S A.

Section Monad.
Context {S : Type}.

Definition ret {A} (a : A) : M S A := fun s => Ok a s.

Definition bind {A B} (m : M S A) (f : A -> M S B) : M S B := fun s =>
  match m s with
  | Ok a s' => f a s'
  | Throw e s' => Throw e s'
  | Fault why => Fault why
  | OutOfFuel => OutOfFuel
  end.

Definition get : M S S := fun s => Ok s s.
Definition put (s : S) : M S unit := fun _ => Ok tt s.
Definition gets {A} (f : S -> A) : M S A := fun s => Ok (f s) s.
Definition modify (f : S -> S) : M S unit := fun s => Ok tt (f s).
Definition throw {A} (e : exn) : M S A := fun s => Throw e s.
Definition fault {A} (why : string) : M S A := fun _ => Fault why.

(** [assert], [DCHECK] and the implicit validity conditions of C++. *)
Definition assert (b : bool) (why : string) : M S unit :=
  if b then ret tt else fault why.

Definition of_option {A} (o : option A) (why : string) : M S A :=
  match o with Some a => ret a | None => fault why end.

(** [try { m } catch (...) { h }]. *)
Definition try_catch {A} (m : M S A) (h : exn -> M S A) : M S A := fun s =>
  match m s with
  | Throw e s' => h e s'
  | r => r
  end.

(** Loops: [body] either continues with a new loop state or leaves. *)
Fixpoint iter {A B} (fuel : nat) (body : A -> M S (A + B)) (a : A) : M S B :=
  match fuel with
  | O => fun _ => OutOfFuel
  | Datatypes.S n =>
      bind (body a) (fun r => match r with inl a' => iter n body a' | inr b => ret b end)
  end.
End Monad.

#[global] Instance M_ret S : MRet (M S) := fun A a => ret a.
#[global] Instance M_bind S : MBind (M S) := fun A B f m => bind m f.

(** Running a sequence whose first part returns. *)
Lemma run_bind {S A B} (m : M S A) (f : A -> M S B) s x s' : m s = Ok x s' -> (m ≫= f) s = f x s'.
Proof. unfold mbind, M_bind, bind. by intros ->. Qed.

Lemma run_bind_inv {S A B} (m : M S A) (f : A -> M S B) s y s' :
  (m ≫= f) s = Ok y s' -> exists x s1, m s = Ok x s1 /\ f x s1 = Ok y s'.
Proof. unfold mbind, M_bind, bind. destruct (m s) eqn:Hm; naive_solver. Qed.

(** ** A weakest-precondition calculus

    [wp m s Q E]: run in state [s], the computation [m] returns a value and a
    state that satisfy [Q], or throws an exception with a state that satisfies
    [E]; it neither faults nor runs out of fuel. *)

Definition wp {S A} (m : M S A) (s : S) (Q : A -> S -> Prop) (E : exn -> S -> Prop) : Prop :=
  match m s with
  | Ok a s' => Q a s'
  | Throw e s' => E e s'
  | Fault _ | OutOfFuel => False
  end.

(** No exception is thrown. *)
Definition nothrow {S} : exn -> S -> Prop := fun _ _ => False.

Section Wp.
Context {S : Type}.
Implicit Types (s : S) (E : exn -> S -> Prop).

Lemma wp_ok {A} (m : M S A) s a s' Q E : m s = Ok a s' -> Q a s' -> wp m s Q E.
Proof. unfold wp. by intros ->. Qed.

Lemma wp_ok_inv {A} (m : M S A) s Q :
  wp m s Q nothrow -> exists a s', m s = Ok a s' /\ Q a s'.
Proof. unfold wp, nothrow. destruct (m s); naive_solver. Qed.

Lemma wp_ret {A} (a : A) s (Q : A -> S -> Prop) E : Q a s -> wp (mret a) s Q E.
Proof. done. Qed.

Lemma wp_bind {A B} (m : M S A) (f : A -> M S B) s Q E :
  wp m s (fun a s' => wp (f a) s' Q E) E -> wp (m ≫= f) s Q E.
Proof. unfold wp, mbind, M_bind, bind. by destruct (m s). Qed.

Lemma wp_bind_inv {A B} (m : M S A) (f : A -> M S B) s Q E :
  wp (m ≫= f) s Q E -> wp m s (fun a s' => wp (f a) s' Q E) E.
Proof. unfold wp, mbind, M_bind, bind. by destruct (m s). Qed.

(** Sequencing is associative. *)
Lemma wp_assoc {A B C} (m : M S A) (f : A -> M S B) (g : B -> M S C) s Q E :
  wp ((m ≫= f) ≫= g) s Q E -> wp (m ≫= (fun a => f a ≫= g)) s Q E.
Proof. unfold wp, mbind, M_bind, bind. by destruct (m s). Qed.

Lemma wp_mono {A} (m : M S A) s (Q Q' : A -> S -> Prop) E E' :
  wp m s Q E -> (forall a s', Q a s' -> Q' a s') -> (forall e s', E e s' -> E' e s') ->
  wp m s Q' E'.
Proof. unfold wp. destruct (m s); naive_solver. Qed.

Lemma wp_wand {A} (m : M S A) s (Q Q' : A -> S -> Prop) E :
  wp m s Q E -> (forall a s', Q a s' -> Q' a s') -> wp m s Q' E.
Proof. intros. by eapply wp_mono. Qed.

(** A computation that cannot throw runs under any exception condition. *)
Lemma wp_nothrow {A} (m : M S A) s (Q Q' : A -> S -> Prop) E :
  wp m s Q nothrow -> (forall a s', Q a s' -> Q' a s') -> wp m s Q' E.
Proof. intros. by eapply wp_mono. Qed.

Lemma wp_throw {A} e s (Q : A -> S -> Prop) E : E e s -> wp (throw e) s Q E.
Proof. done. Qed.

Lemma wp_gets {A} (f : S -> A) s (Q : A -> S -> Prop) E : Q (f s) s -> wp (gets f) s Q E.
Proof. done. Qed.

Lemma wp_get s (Q : S -> S -> Prop) E : Q s s -> wp get s Q E.
Proof. done. Qed.

Lemma wp_put s s' (Q : unit -> S -> Prop) E : Q tt s' -> wp (put s') s Q E.
Proof. done. Qed.

Lemma wp_modify (f : S -> S) s (Q : unit -> S -> Prop) E : Q tt (f s) -> wp (modify f) s Q E.
Proof. done. Qed.

Lemma wp_assert b why s (Q : unit -> S -> Prop) E : b = true -> Q tt s -> wp (assert b why) s Q E.
Proof. by intros ->. Qed.

Lemma wp_of_option {A} (o : option A) a why s (Q : A -> S -> Prop) E :
  o = Some a -> Q a s -> wp (of_option o why) s Q E.
Proof. by intros ->. Qed.

Lemma wp_try_catch {A} (m : M S A) h s Q E :
  wp m s Q (fun e s' => wp (h e) s' Q E) -> wp (try_catch m h) s Q E.
Proof. unfold wp, try_catch. by destruct (m s). Qed.

Lemma wp_iter {A B} (body : A -> M S (A + B)) (I : nat -> A -> S -> Prop) Q E :
  (forall n a s, I n a s ->
    wp (body a) s (fun r s' =>
      match r with inl a' => exists n', (n' < n)%nat /\ I n' a' s' | inr b => Q b s' end) E) ->
  forall fuel n a s, (n < fuel)%nat -> I n a s -> wp (iter fuel body a) s Q E.
Proof.
  intros Hbody fuel. induction fuel as [|fuel IH]; intros n a s Hn HI; [lia|].
  simpl. eapply (wp_bind (body a)), wp_wand; [by eapply Hbody|].
  intros [a'|b] s' H; [|done]. destruct H as (n' & Hn' & H). eapply IH; [|done]. lia.
Qed.
End Wp.

Create HintDb acc.
Create Rewrite HintDb acc.

(** ** Byte ranges

    The contents of an allocation is a list of bytes; [slice] reads the range
    that starts at [off], [overwrite] stores a range there. *)

Definition zlen {A} (l : list A) : Z := Z.of_nat (length l).

Definition slice {A} (off len : Z) (l : list A) : list A :=
  take (Z.to_nat len) (drop (Z.to_nat off) l).

Definition overwrite {A} (off : Z) (bs l : list A) : list A :=
  take (Z.to_nat off) l ++ bs ++ drop (Z.to_nat off + length bs) l.

Section Slices.
Context {A : Type}.
Implicit Types (l bs : list A) (off len : Z).

Lemma zlen_nonneg l : 0 <= zlen l.
Proof. unfold zlen. lia. Qed.

Lemma zlen_app l bs : zlen (l ++ bs) = zlen l + zlen bs.
Proof. unfold zlen. rewrite length_app. lia. Qed.

Lemma zlen_nil : zlen (@nil A) = 0.
Proof. done. Qed.

Lemma zlen_replicate n (x : A) : 0 <= n -> zlen (replicate (Z.to_nat n) x) = n.
Proof. intros. unfold zlen. rewrite length_replicate. lia. Qed.

Lemma zlen_slice off len l :
  0 <= off -> 0 <= len -> off + len <= zlen l -> zlen (slice off len l) = len.
Proof.
  unfold slice, zlen. intros. rewrite length_take, length_drop. lia.
Qed.

Lemma slice_0 off l : slice off 0 l = [].
Proof. done. Qed.

Lemma slice_full l : slice 0 (zlen l) l = l.
Proof.
  unfold slice, zlen. rewrite drop_0, Nat2Z.id. by rewrite firstn_all.
Qed.

Lemma slice_split off a b l :
  0 <= off -> 0 <= a -> 0 <= b ->
  slice off (a + b) l = slice off a l ++ slice (off + a) b l.
Proof.
  intros. unfold slice.
  rewrite (Z2Nat.inj_add off a), (Z2Nat.inj_add a b) by lia.
  rewrite <- drop_drop. generalize (drop (Z.to_nat off) l). intros k.
  rewrite <- (take_drop (Z.to_nat a) k) at 1.
  rewrite take_app. f_equal.
  - rewrite take_ge; [done|]. rewrite length_take. lia.
  - destruct (decide (Z.to_nat a <= length k)%nat) as [Hle|Hgt].
    + f_equal. rewrite length_take. lia.
    + rewrite drop_ge by lia. by rewrite !take_nil.
Qed.

Lemma take_slice off a b l :
  0 <= a <= b -> take (Z.to_nat a) (slice off b l) = slice off a l.
Proof. intros. unfold slice. rewrite take_take. f_equal. lia. Qed.

Lemma drop_slice off a b l :
  0 <= off -> 0 <= a <= b -> drop (Z.to_nat a) (slice off b l) = slice (off + a) (b - a) l.
Proof.
  intros. unfold slice. rewrite skipn_firstn_comm, drop_drop.
  f_equal; [lia|]. f_equal. lia.
Qed.

Lemma length_overwrite off bs l :
  0 <= off -> off + zlen bs <= zlen l -> length (overwrite off bs l) = length l.
Proof.
  unfold overwrite, zlen. intros. rewrite !length_app, length_take, length_drop. lia.
Qed.

Lemma zlen_overwrite off bs l :
  0 <= off -> off + zlen bs <= zlen l -> zlen (overwrite off bs l) = zlen l.
Proof. intros. unfold zlen. by rewrite length_overwrite. Qed.

Lemma overwrite_nil off l : overwrite off [] l = l.
Proof. unfold overwrite. simpl. rewrite Nat.add_0_r. apply take_drop. Qed.

Lemma slice_overwrite off bs l :
  0 <= off -> off + zlen bs <= zlen l -> slice off (zlen bs) (overwrite off bs l) = bs.
Proof.
  unfold slice, overwrite, zlen. intros.
  rewrite drop_app_length' by (rewrite length_take; lia).
  rewrite Nat2Z.id. by rewrite take_app_length.
Qed.

Lemma slice_overwrite_before off bs l off' len :
  0 <= off -> off + zlen bs <= zlen l -> 0 <= off' -> 0 <= len -> off' + len <= off ->
  slice off' len (overwrite off bs l) = slice off' len l.
Proof.
  unfold slice, overwrite, zlen. intros.
  rewrite !firstn_skipn_comm, take_app_le by (rewrite length_take; lia).
  rewrite take_take. do 2 f_equal. lia.
Qed.

Lemma slice_overwrite_after off bs l off' len :
  0 <= off -> off + zlen bs <= zlen l -> 0 <= len -> off + zlen bs <= off' ->
  slice off' len (overwrite off bs l) = slice off' len l.
Proof.
  unfold slice, overwrite, zlen. intros. f_equal.
  rewrite drop_app_ge, drop_app_ge, drop_drop by (rewrite ?length_take; lia).
  f_equal. rewrite length_take. lia.
Qed.

Lemma slice_overwrite_disj off bs l off' len :
  0 <= off -> off + zlen bs <= zlen l -> 0 <= off' -> 0 <= len ->
  off' + len <= off \/ off + zlen bs <= off' ->
  slice off' len (overwrite off bs l) = slice off' len l.
Proof.
  intros ???? [|]; [by apply slice_overwrite_before|by apply slice_overwrite_after].
Qed.
End Slices.

#[export] Hint Rewrite @zlen_app @zlen_nil @slice_0 @overwrite_nil : acc.

(** ** Counting the entries of a finite map *)

Section MapCount.
Context {K V : Type} `{Countable K} (P : K * V -> Prop) `{forall x, Decision (P x)}.
Implicit Types m : gmap K V.

Definition mcount m : nat := size (filter P m).

Lemma mcount_empty : mcount ∅ = 0%nat.
Proof. unfold mcount. by rewrite map_filter_empty, map_size_empty. Qed.

Lemma mcount_insert_new m k v :
  m !! k = None -> mcount (<[k:=v]> m) = (mcount m + if decide (P (k, v)) then 1 else 0)%nat.
Proof.
  intros Hk. unfold mcount. case_decide.
  - rewrite map_filter_insert_True by done.
    rewrite map_size_insert_None; [lia|]. by apply map_lookup_filter_None_2; left.
  - rewrite map_filter_insert_False by done. rewrite delete_id by done. lia.
Qed.

Lemma mcount_delete m k v :
  m !! k = Some v -> mcount m = (mcount (delete k m) + if decide (P (k, v)) then 1 else 0)%nat.
Proof.
  intros Hk. rewrite <- (insert_delete_id m k v Hk) at 1.
  rewrite mcount_insert_new by apply lookup_delete_eq. lia.
Qed.

Lemma mcount_insert_old m k v v' :
  m !! k = Some v ->
  (mcount (<[k:=v']> m) + (if decide (P (k, v)) then 1 else 0) =
   mcount m + (if decide (P (k, v')) then 1 else 0))%nat.
Proof.
  intros Hk. rewrite (mcount_delete m k v Hk), <- insert_delete_eq.
  rewrite mcount_insert_new by apply lookup_delete_eq. lia.
Qed.

Lemma mcount_pos m k v : m !! k = Some v -> P (k, v) -> (1 <= mcount m)%nat.
Proof. intros Hk HP. rewrite (mcount_delete m k v Hk). rewrite decide_True by done. lia. Qed.

Lemma mcount_two m k v k' v' :
  m !! k = Some v -> P (k, v) -> m !! k' = Some v' -> P (k', v') -> k <> k' ->
  (2 <= mcount m)%nat.
Proof.
  intros Hk HP Hk' HP' Hne. rewrite (mcount_delete m k v Hk), decide_True by done.
  assert (1 <= mcount (delete k m))%nat; [|lia].
  eapply mcount_pos; [|done]. by rewrite lookup_delete_ne.
Qed.

Lemma mcount_witness m : (1 <= mcount m)%nat -> exists k v, m !! k = Some v /\ P (k, v).
Proof.
  unfold mcount. intros Hn. destruct (decide (filter P m = ∅)) as [E|E].
  - rewrite E, map_size_empty in Hn. lia.
  - destruct (map_choose _ E) as (k & v & Hk). apply map_lookup_filter_Some in Hk as [? ?]. eauto.
Qed.

Lemma mcount_zero m : (forall k v, m !! k = Some v -> ~ P (k, v)) -> mcount m = 0%nat.
Proof.
  intros Hno. unfold mcount. apply map_size_empty_iff. apply map_empty. intros i.
  apply map_lookup_filter_None. right. intros x Hx. by apply Hno.
Qed.
End MapCount.

(** ** Bit operations as arithmetic *)

(** Linear arithmetic with division and remainder. *)
Ltac euclid := Z.to_euclidean_division_equations; lia.

Lemma land_low x k : 0 <= k -> Z.land x (2 ^ k - 1) = x `mod` 2 ^ k.
Proof. intros. replace (2 ^ k - 1) with (Z.ones k) by (rewrite Z.ones_equiv; lia). by apply Z.land_ones. Qed.

Lemma ldiff_low x k : 0 <= x -> 0 <= k -> Z.ldiff x (2 ^ k - 1) = 0 <-> x < 2 ^ k.
Proof.
  intros Hx Hk. replace (2 ^ k - 1) with (Z.ones k) by (rewrite Z.ones_equiv; lia).
  rewrite Z.ldiff_ones_r, Z.shiftl_mul_pow2, Z.shiftr_div_pow2 by done.
  pose proof (Z.pow_pos_nonneg 2 k). rewrite Z.mul_eq_0, Z.div_small_iff by lia. lia.
Qed.

(** Or-ing into the free low bits is an addition. *)
Lemma lor_low a b k : 0 <= k -> 0 <= b < 2 ^ k -> Z.lor (a * 2 ^ k) b = a * 2 ^ k + b.
Proof.
  intros Hk Hb. symmetry. rewrite <- Z.lxor_lor, Z.add_nocarry_lxor; [done|..].
  all: apply Z.bits_inj'; intros n Hn; rewrite Z.land_spec, Z.bits_0.
  all: destruct (decide (n < k)); [rewrite Z.mul_pow2_bits_low by done; done|].
  all: assert (Z.testbit b n = false) as -> by (apply Z.testbit_false; [done|];
         rewrite Z.div_small; [done|]; split; [lia|];
         apply Z.lt_le_trans with (2 ^ k); [lia|]; apply Z.pow_le_mono_r; lia).
  all: apply andb_false_r.
Qed.

Lemma lxor_fits w x y : 0 <= w -> fits w x -> fits w y -> fits w (Z.lxor x y).
Proof.
  unfold fits. intros Hw Hx Hy. assert (E : Z.lxor x y = Z.lxor x y `mod` 2 ^ w).
  { apply Z.bits_inj'. intros n Hn. destruct (decide (n < w)); [by rewrite Z.mod_pow2_bits_low|].
    rewrite Z.mod_pow2_bits_high by lia. rewrite Z.lxor_spec, <- (Z.mod_small x (2 ^ w)), <- (Z.mod_small y (2 ^ w)) by done.
    by rewrite !Z.mod_pow2_bits_high by lia. }
  rewrite E. apply Z.mod_pos_bound. apply Z.pow_pos_nonneg; lia.
Qed.
