(* ===== verification/IOBufMem.v ===== *)
(** * io/IOBuf: the memory

    The memory that [src/accelerator/io/IOBuf.h] and [IOBuf.cpp] manipulate:
    IOBuf objects, SharedInfo blocks, data allocations and the HeapStorage
    prefixes, with the primitive accesses to it and the allocator. *)

From stdpp Require Import base list gmap strings.
From S2P Require Import Prelude.

(** ** Memory *)

(** A [uint8_t*]: an allocation (none for the null pointer) and an offset. *)
Record addr := Addr { ablk : option positive; aoff : Z }.

#[global] Instance addr_eq_dec : EqDecision addr.
Proof. solve_decision. Defined.

Definition nullptr : addr := Addr None 0.
Definition padd (a : addr) (n : Z) : addr := Addr (ablk a) (aoff a + n).
Definition pdiff (a b : addr) : Z := aoff a - aoff b.

(** The functions a SharedInfo can carry: the library's own [freeInternalBuf]
    or a function supplied by the user of [takeOwnership]. *)
Inductive FreeFunction := freeInternalBuf_fn | user_fn (id : positive).

#[global] Instance FreeFunction_eq_dec : EqDecision FreeFunction.
Proof. solve_decision. Defined.

Record SharedInfo := mkSharedInfo {
  freeFn : option FreeFunction;
  userData : Z;
  refcount : Z;
  externallyShared : bool }.

(** The data members of an IOBuf, its links apart. *)
Record Payload := mkPayload {
  data_ : addr;
  buf_ : addr;
  length_ : Z;
  capacity_ : Z;
  flagsAndSharedInfo_ : Z }.

Record IOBuf := mkIOBuf { next_ : positive; prev_ : positive; body : Payload }.

(** Allocations have an id; the IOBuf object, the SharedInfo, the HeapPrefix
    flags and the data bytes that live in an allocation are filed under it. *)
Record Heap := mkHeap {
  bufs : gmap positive IOBuf;
  infos : gmap positive SharedInfo;
  blocks : gmap positive (list Z);
  storages : gmap positive Z;
  freeLog : list (positive * addr * Z);  (* calls of user free functions *)
  oracle : nat -> bool;                  (* does the n-th malloc succeed? *)
  mallocs : nat }.

Abbreviation Mem := (M Heap).

Definition set_next (n : positive) (b : IOBuf) : IOBuf := mkIOBuf n (prev_ b) (body b).
Definition set_prev (p : positive) (b : IOBuf) : IOBuf := mkIOBuf (next_ b) p (body b).
Definition set_body (f : Payload -> Payload) (b : IOBuf) : IOBuf :=
  mkIOBuf (next_ b) (prev_ b) (f (body b)).

Definition with_data (a : addr) (b : Payload) : Payload :=
  mkPayload a (buf_ b) (length_ b) (capacity_ b) (flagsAndSharedInfo_ b).
Definition with_buf (a : addr) (b : Payload) : Payload :=
  mkPayload (data_ b) a (length_ b) (capacity_ b) (flagsAndSharedInfo_ b).
Definition with_length (n : Z) (b : Payload) : Payload :=
  mkPayload (data_ b) (buf_ b) n (capacity_ b) (flagsAndSharedInfo_ b).
Definition with_capacity (n : Z) (b : Payload) : Payload :=
  mkPayload (data_ b) (buf_ b) (length_ b) n (flagsAndSharedInfo_ b).
Definition with_flags (w : Z) (b : Payload) : Payload :=
  mkPayload (data_ b) (buf_ b) (length_ b) (capacity_ b) w.

Definition with_refcount (n : Z) (i : SharedInfo) : SharedInfo :=
  mkSharedInfo (freeFn i) (userData i) n (externallyShared i).
Definition with_externallyShared (e : bool) (i : SharedInfo) : SharedInfo :=
  mkSharedInfo (freeFn i) (userData i) (refcount i) e.

Definition on_bufs (f : gmap positive IOBuf -> gmap positive IOBuf) (h : Heap) : Heap :=
  mkHeap (f (bufs h)) (infos h) (blocks h) (storages h) (freeLog h) (oracle h) (mallocs h).
Definition on_infos (f : gmap positive SharedInfo -> gmap positive SharedInfo) (h : Heap) : Heap :=
  mkHeap (bufs h) (f (infos h)) (blocks h) (storages h) (freeLog h) (oracle h) (mallocs h).
Definition on_blocks (f : gmap positive (list Z) -> gmap positive (list Z)) (h : Heap) : Heap :=
  mkHeap (bufs h) (infos h) (f (blocks h)) (storages h) (freeLog h) (oracle h) (mallocs h).
Definition on_storages (f : gmap positive Z -> gmap positive Z) (h : Heap) : Heap :=
  mkHeap (bufs h) (infos h) (blocks h) (f (storages h)) (freeLog h) (oracle h) (mallocs h).

(** An operation on IOBufs, as a step of a method of an object that is kept
    beside them. *)
Definition lift {S A} (m : Mem A) : M (Heap * S) A := fun '(h, s) =>
  match m h with
  | Ok a h' => Ok a (h', s)
  | Throw e h' => Throw e (h', s)
  | Fault why => Fault why
  | OutOfFuel => OutOfFuel
  end.

(** *** Dereferences *)

Definition deref (p : positive) : Mem IOBuf :=
  h ← get; of_option (bufs h !! p) "dangling IOBuf pointer".

Definition update (p : positive) (f : IOBuf -> IOBuf) : Mem unit :=
  b ← deref p; modify (on_bufs (insert p (f b))).

Definition load (p : positive) : Mem Payload := b ← deref p; mret (body b).

Definition store (p : positive) (f : Payload -> Payload) : Mem unit := update p (set_body f).

Definition deref_info (s : positive) : Mem SharedInfo :=
  h ← get; of_option (infos h !! s) "dangling SharedInfo pointer".

Definition update_info (s : positive) (f : SharedInfo -> SharedInfo) : Mem unit :=
  i ← deref_info s; modify (on_infos (insert s (f i))).

(** *** Bytes *)

Definition load_bytes (a : addr) (n : Z) : Mem (list Z) :=
  if decide (n = 0) then mret [] else
  k ← of_option (ablk a) "read through a null pointer";
  h ← get;
  bs ← of_option (blocks h !! k) "read of freed memory";
  assert (bool_decide (0 <= aoff a /\ 0 <= n /\ aoff a + n <= zlen bs)) "read out of bounds";;
  mret (slice (aoff a) n bs).

Definition store_bytes (a : addr) (bs : list Z) : Mem unit :=
  if decide (zlen bs = 0) then mret tt else
  k ← of_option (ablk a) "write through a null pointer";
  h ← get;
  old ← of_option (blocks h !! k) "write to freed memory";
  assert (bool_decide (0 <= aoff a /\ aoff a + zlen bs <= zlen old)) "write out of bounds";;
  modify (on_blocks (insert k (overwrite (aoff a) bs old))).

Definition memmove (dst src : addr) (n : Z) : Mem unit :=
  bs ← load_bytes src n; store_bytes dst bs.

(** [memcpy] demands in addition that the two ranges do not overlap. *)
Definition memcpy (dst src : addr) (n : Z) : Mem unit :=
  assert (bool_decide (n = 0 \/ ablk dst <> ablk src \/
                       aoff dst + n <= aoff src \/ aoff src + n <= aoff dst)) "overlapping memcpy";;
  memmove dst src n.

(** *** The allocator *)

Definition used (h : Heap) : gset positive :=
  dom (bufs h) ∪ dom (infos h) ∪ dom (blocks h) ∪ dom (storages h).

Definition fresh_id (h : Heap) : positive := fresh (used h).

Definition count_malloc (h : Heap) : Heap :=
  mkHeap (bufs h) (infos h) (blocks h) (storages h) (freeLog h) (oracle h) (S (mallocs h)).

(** [PTRDIFF_MAX]: no object is larger. *)
Definition max_alloc : Z := 9223372036854775807.

(** One request for [n] bytes to the system allocator: does it succeed? *)
Definition sys_alloc (n : Z) : Mem bool :=
  h ← get; put (count_malloc h);; mret (bool_decide (n <= max_alloc) && oracle h (mallocs h)).

(** [malloc(n)] for a data block; the contents of fresh memory is arbitrary in
    C++, and 0 here. *)
Definition malloc (n : Z) : Mem (option positive) :=
  ok ← sys_alloc n;
  if ok : bool then
    h ← get;
    let a := fresh_id h in
    put (on_blocks (insert a (replicate (Z.to_nat n) 0)) h);; mret (Some a)
  else mret None.

Definition drop_allocation (a : positive) (h : Heap) : Heap :=
  on_storages (delete a) (on_infos (delete a) (on_blocks (delete a) h)).

(** [free(p)]: [p] is the start of a live allocation. *)
Definition free (p : addr) : Mem unit :=
  a ← of_option (ablk p) "free of a null pointer";
  h ← get;
  assert (bool_decide (aoff p = 0)) "free of an interior pointer";;
  assert (bool_decide (is_Some (blocks h !! a))) "double free";;
  put (drop_allocation a h).

(** [realloc(p, n)]: the old contents is kept up to the smaller size. *)
Definition realloc (p : addr) (n : Z) : Mem (option addr) :=
  a ← of_option (ablk p) "realloc of a null pointer";
  h ← get;
  assert (bool_decide (aoff p = 0)) "realloc of an interior pointer";;
  old ← of_option (blocks h !! a) "realloc of freed memory";
  r ← malloc n;
  match r with
  | None => mret None
  | Some b =>
      modify (on_blocks (insert b (take (Z.to_nat n) (old ++ replicate (Z.to_nat n) 0))));;
      modify (drop_allocation a);;
      mret (Some (Addr (Some b) 0))
  end.
