(* ===== verification/IOBuf.v ===== *)
(** * io/IOBuf: the operations

    Every operation of [src/accelerator/io/IOBuf.h] and [IOBuf.cpp] as a
    computation on the memory of [IOBufMem].  Methods take [this] as their
    first argument; [unique_ptr<IOBuf>] is the id of the object, and its
    destruction is an explicit [delete_]. *)

From stdpp Require Import base list gmap strings.
From S2P Require Import Prelude IOBufMem.

(** ** Constants *)

Definition kIOBufInUse : Z := 1.
Definition kDataInUse : Z := 2.
Definition kDefaultCombinedBufSize : Z := 1024.

Definition kFlagFreeSharedInfo : Z := 1.
Definition kFlagMaybeShared : Z := 2.
Definition kFlagMask : Z := Z.lor kFlagFreeSharedInfo kFlagMaybeShared.

(** [sizeof(SharedInfo)], [sizeof(HeapStorage)] and
    [offsetof(HeapFullStorage, align)] on LP64. *)
Definition sizeof_SharedInfo : Z := 24.
Definition sizeof_HeapStorage : Z := 64.
Definition offsetof_align : Z := 96.

(** ** The packed word of flags and SharedInfo pointer *)

(** The address of the SharedInfo of an allocation; a SharedInfo is aligned
    on 8 bytes. *)
Definition info_ptr (info : option positive) : Z :=
  match info with None => 0 | Some s => 8 * Zpos s end.

Definition packFlagsAndSharedInfo (flags : Z) (info : option positive) : Z :=
  Z.lor flags (info_ptr info).

Definition sharedInfo (b : Payload) : option positive :=
  let uinfo := Z.ldiff (flagsAndSharedInfo_ b) kFlagMask in
  if decide (uinfo = 0) then None else Some (Z.to_pos (uinfo `div` 8)).

Definition setSharedInfo (info : option positive) (b : Payload) : Payload :=
  with_flags (Z.lor (Z.land (flagsAndSharedInfo_ b) kFlagMask) (info_ptr info)) b.

Definition flags (b : Payload) : Z := Z.land (flagsAndSharedInfo_ b) kFlagMask.

Definition setFlags (f : Z) (b : Payload) : Payload :=
  with_flags (Z.lor (flagsAndSharedInfo_ b) f) b.

Definition clearFlags (f : Z) (b : Payload) : Payload :=
  with_flags (Z.ldiff (flagsAndSharedInfo_ b) f) b.

Definition setFlagsAndSharedInfo (f : Z) (info : option positive) (b : Payload) : Payload :=
  with_flags (packFlagsAndSharedInfo f info) b.

Definition has_flag (f : Z) (b : Payload) : bool := negb (bool_decide (Z.land (flags b) f = 0)).

(** ** Accessors *)

Definition tail (b : Payload) : addr := padd (data_ b) (length_ b).
Definition bufferEnd (b : Payload) : addr := padd (buf_ b) (capacity_ b).
Definition headroom (b : Payload) : Z := u64 (pdiff (data_ b) (buf_ b)).
Definition tailroom (b : Payload) : Z := u64 (pdiff (bufferEnd b) (tail b)).

(** ** The data window of one IOBuf *)

Definition advance (this : positive) (amount : Z) : Mem unit :=
  b ← load this;
  assert (bool_decide (amount <= tailroom b)) "amount <= tailroom()";;
  (if decide (0 < length_ b) then memmove (padd (data_ b) amount) (data_ b) (length_ b) else mret tt);;
  store this (with_data (padd (data_ b) amount)).

Definition retreat (this : positive) (amount : Z) : Mem unit :=
  b ← load this;
  assert (bool_decide (amount <= headroom b)) "amount <= headroom()";;
  (if decide (0 < length_ b) then memmove (padd (data_ b) (- amount)) (data_ b) (length_ b) else mret tt);;
  store this (with_data (padd (data_ b) (- amount))).

Definition prepend (this : positive) (amount : Z) : Mem unit :=
  b ← load this;
  assert (bool_decide (amount <= headroom b)) "amount <= headroom()";;
  store this (with_data (padd (data_ b) (- amount)));;
  store this (with_length (u64 (length_ b + amount))).

Definition append (this : positive) (amount : Z) : Mem unit :=
  b ← load this;
  assert (bool_decide (amount <= tailroom b)) "amount <= tailroom()";;
  store this (with_length (u64 (length_ b + amount))).

Definition trimStart (this : positive) (amount : Z) : Mem unit :=
  b ← load this;
  assert (bool_decide (amount <= length_ b)) "amount <= length_";;
  store this (with_data (padd (data_ b) amount));;
  store this (with_length (u64 (length_ b - amount))).

Definition trimEnd (this : positive) (amount : Z) : Mem unit :=
  b ← load this;
  assert (bool_decide (amount <= length_ b)) "amount <= length_";;
  store this (with_length (u64 (length_ b - amount))).

Definition clear (this : positive) : Mem unit :=
  b ← load this;
  store this (with_data (buf_ b));;
  store this (with_length 0).

(** ** Links *)

Definition next (p : positive) : Mem positive := b ← deref p; mret (next_ b).
Definition prev (p : positive) : Mem positive := b ← deref p; mret (prev_ b).

Definition isChained (this : positive) : Mem bool :=
  b ← deref this;
  assert (bool_decide (next_ b = this <-> prev_ b = this)) "(next_ == this) == (prev_ == this)";;
  mret (bool_decide (next_ b <> this)).

Definition prependChain (this other : positive) : Mem unit :=
  otherTail ← prev other;
  p ← prev this;
  update p (set_next other);;
  update other (set_prev p);;
  update otherTail (set_next this);;
  update this (set_prev otherTail).

Definition appendChain (this other : positive) : Mem unit :=
  n ← next this; prependChain n other.

(** The four assignments that [unlink] and [pop] share. *)
Definition remove_links (this : positive) : Mem unit :=
  b ← deref this;
  update (next_ b) (set_prev (prev_ b));;
  b ← deref this;
  update (prev_ b) (set_next (next_ b));;
  update this (set_prev this);;
  update this (set_next this).

Definition unlink (this : positive) : Mem positive :=
  remove_links this;;
  mret this.

Definition pop (this : positive) : Mem (option positive) :=
  nxt ← next this;
  remove_links this;;
  mret (if decide (nxt = this) then None else Some nxt).

Definition separateChain (this head tail : positive) : Mem positive :=
  assert (bool_decide (head <> this)) "head != this";;
  assert (bool_decide (tail <> this)) "tail != this";;
  hp ← prev head; tn ← next tail;
  update hp (set_next tn);;
  tn ← next tail; hp ← prev head;
  update tn (set_prev hp);;
  update head (set_prev tail);;
  update tail (set_next head);;
  mret head.

(** ** Traversals

    [for (cur = start; cur != this; cur = cur->next_)] and
    [do { ... cur = cur->next_ } while (cur != this)]; the body may leave the
    loop with a result.  A chain has at most as many elements as there are
    IOBuf objects, which bounds the number of rounds. *)

Definition for_chain {A} (this start : positive) (f : positive -> A -> Mem A) (a : A) : Mem A :=
  h ← get;
  iter (S (size (bufs h)))
    (fun '(cur, a) =>
       if decide (cur = this) then mret (inr a)
       else a' ← f cur a; n ← next cur; mret (inl (n, a'))) (start, a).

Definition do_chain {A B} (start stop : positive) (f : positive -> A -> Mem (A + B)) (a : A)
    : Mem (A + B) :=
  h ← get;
  iter (S (size (bufs h)))
    (fun '(cur, a) =>
       r ← f cur a;
       match r with
       | inr b => mret (inr (inr b))
       | inl a' =>
           n ← next cur;
           if decide (n = stop) then mret (inr (inl a')) else mret (inl (n, a'))
       end) (start, a).

(** The same loop when its body never leaves it. *)
Definition do_chain_all {A} (start stop : positive) (f : positive -> A -> Mem A) (a : A) : Mem A :=
  r ← do_chain (B := Empty_set) start stop (fun cur a => a' ← f cur a; mret (inl a')) a;
  match r with inl a' => mret a' | inr e => match (e : Empty_set) with end end.

Definition countChainElements (this : positive) : Mem Z :=
  n ← next this;
  for_chain this n (fun _ c => mret (u64 (c + 1))) 1.

Definition computeChainDataLength (this : positive) : Mem Z :=
  b ← load this;
  n ← next this;
  for_chain this n (fun cur full => c ← load cur; mret (u64 (full + length_ c))) (length_ b).

Definition empty (this : positive) : Mem bool :=
  r ← do_chain this this
        (fun cur (_ : unit) => b ← load cur;
           mret (if decide (length_ b <> 0) then inr tt else inl tt)) tt;
  mret (match r with inl _ => true | inr _ => false end).

(** ** Storage: operator new and delete, HeapPrefix flags *)

Definition releaseStorage (storage : positive) (freeFlags : Z) : Mem unit :=
  h ← get;
  flags ← of_option (storages h !! storage) "storage->prefix.magic == kHeapMagic";
  assert (bool_decide (Z.land flags freeFlags = freeFlags)) "(flags & freeFlags) == freeFlags";;
  let newFlags := u16 (Z.ldiff flags freeFlags) in
  if decide (newFlags = 0) then modify (drop_allocation storage)
  else modify (on_storages (insert storage newFlags)).

Definition freeInternalBuf (buf : addr) (userData : Z) : Mem unit :=
  releaseStorage (Z.to_pos userData) kDataInUse.

(** A free function of the user is called with the buffer, which is the user's
    again from then on. *)
Definition call_user_fn (fn : positive) (buf : addr) (userData : Z) : Mem unit :=
  modify (fun h => mkHeap (bufs h) (infos h)
                     (match ablk buf with Some k => delete k (blocks h) | None => blocks h end)
                     (storages h) ((fn, buf, userData) :: freeLog h) (oracle h) (mallocs h)).

Definition call_free (fn : FreeFunction) (buf : addr) (userData : Z) : Mem unit :=
  match fn with
  | freeInternalBuf_fn => freeInternalBuf buf userData
  | user_fn f => call_user_fn f buf userData
  end.

Definition operator_new : Mem positive :=
  ok ← sys_alloc sizeof_HeapStorage;
  if ok : bool then
    h ← get;
    let p := fresh_id h in
    put (on_storages (insert p kIOBufInUse) h);; mret p
  else throw bad_alloc.

Definition operator_delete (p : positive) : Mem unit := releaseStorage p kIOBufInUse.

(** The start and the end of the lifetime of an IOBuf object. *)
Definition construct (this : positive) (b : Payload) : Mem unit :=
  modify (on_bufs (insert this (mkIOBuf this this b))).
Definition end_lifetime (this : positive) : Mem unit := modify (on_bufs (delete this)).

(** The address of an IOBuf with automatic storage. *)
Definition stack_address : Mem positive := gets fresh_id.

(** ** External buffers *)

Definition goodExtBufferSize (minCapacity : Z) : Z :=
  let minSize := u64 (minCapacity + sizeof_SharedInfo) in
  Z.ldiff (u64 (minSize + 7)) 7.

Definition new_SharedInfo (fn : option FreeFunction) (arg : Z) : SharedInfo :=
  mkSharedInfo fn arg 1 false.

(** The SharedInfo takes the last [sizeof(SharedInfo)] bytes of the block. *)
Definition initExtBuffer (buf : positive) (mallocSize : Z) : Mem (positive * Z) :=
  let capacity := u64 (mallocSize - sizeof_SharedInfo) in
  assert (bool_decide (sizeof_SharedInfo <= mallocSize)) "SharedInfo outside of the allocation";;
  modify (on_blocks (alter (take (Z.to_nat capacity)) buf));;
  modify (on_infos (insert buf (new_SharedInfo None 0)));;
  mret (buf, capacity).

Definition allocExtBuffer (minCapacity : Z) : Mem (addr * positive * Z) :=
  let mallocSize := goodExtBufferSize minCapacity in
  r ← malloc mallocSize;
  match r with
  | None => throw bad_alloc
  | Some buf =>
      '(info, capacity) ← initExtBuffer buf mallocSize;
      mret (Addr (Some buf) 0, info, capacity)
  end.

Definition freeExtBuffer (this : positive) : Mem unit :=
  b ← load this;
  s ← of_option (sharedInfo b) "DCHECK(info)";
  info ← deref_info s;
  match freeFn info with
  | Some fn => call_free fn (buf_ b) (userData info)
  | None => free (buf_ b)
  end.

Definition delete_info (s : positive) : Mem unit :=
  _ ← deref_info s; modify (on_infos (delete s)).

Definition decrementRefcount (this : positive) : Mem unit :=
  b ← load this;
  match sharedInfo b with
  | None => mret tt
  | Some s =>
      info ← deref_info s;
      let newcnt := refcount info in
      update_info s (with_refcount (u32 (newcnt - 1)));;
      if decide (newcnt > 1) then mret tt
      else
        freeExtBuffer this;;
        (if has_flag kFlagFreeSharedInfo b then delete_info s else mret tt)
  end.

(** ** Destruction

    [~IOBuf] unlinks and deletes the other elements of the chain; each of them
    is alone when it is deleted, so that two levels of destructor calls are
    all there is. *)

Fixpoint destructor (depth : nat) (this : positive) : Mem unit :=
  match depth with
  | O => fun _ => OutOfFuel
  | S depth' =>
      h ← get;
      iter (S (size (bufs h)))
        (fun _ : unit =>
           n ← next this;
           if decide (n = this) then mret (inr tt)
           else q ← unlink n; (destructor depth' q;; operator_delete q);; mret (inl tt)) tt;;
      decrementRefcount this;;
      end_lifetime this
  end.

(** The end of the scope of an IOBuf value, and [delete]. *)
Definition destroy_value (this : positive) : Mem unit := destructor 2 this.
Definition delete_ (this : positive) : Mem unit := destroy_value this;; operator_delete this.

(** [unique_ptr::reset] and assignment of null. *)
Definition delete_opt (p : option positive) : Mem unit :=
  match p with None => mret tt | Some p => delete_ p end.

(** [new IOBuf(...)]: the storage is released when the constructor throws. *)
Definition make_unique (ctor : positive -> Mem unit) : Mem positive :=
  p ← operator_new;
  try_catch (ctor p) (fun e => operator_delete p;; throw e);;
  mret p.

(** A temporary is destroyed at the end of the full expression that uses it,
    also when that throws. *)
Definition with_temporary {A} (tmp : positive) (k : Mem A) : Mem A :=
  r ← try_catch k (fun e => destroy_value tmp;; throw e);
  destroy_value tmp;;
  mret r.

(** ** Constructors *)

Definition null_payload : Payload := mkPayload nullptr nullptr 0 0 0.

(** [IOBuf()]. *)
Definition ctor_default (this : positive) : Mem unit := construct this null_payload.

(** [IOBuf(CREATE, capacity)]: the buffer is allocated first, so that an
    exception leaves no object behind. *)
Definition ctor_create (capacity : Z) (this : positive) : Mem unit :=
  construct this null_payload;;
  '(buf, info, cap) ← try_catch (allocExtBuffer capacity) (fun e => end_lifetime this;; throw e);
  store this (fun b => with_capacity cap (with_buf buf b));;
  store this (setSharedInfo (Some info));;
  store this (with_data buf).

Definition ctor_internal (flagsAndSharedInfo : Z) (buf : addr) (capacity : Z)
    (data : addr) (length : Z) (this : positive) : Mem unit :=
  assert (bool_decide (ablk data = ablk buf /\ aoff buf <= aoff data)) "data >= buf";;
  assert (bool_decide (aoff data + length <= aoff buf + capacity))
    "data + length <= buf + capacity";;
  construct this (mkPayload data buf length capacity flagsAndSharedInfo).

Definition createCombined (capacity : Z) : Mem positive :=
  let mallocSize := u64 (offsetof_align + capacity) in
  ok ← sys_alloc mallocSize;
  assert ok "storage == nullptr";;
  assert (bool_decide (offsetof_align <= mallocSize)) "HeapFullStorage outside of the allocation";;
  h ← get;
  let storage := fresh_id h in
  modify (on_storages (insert storage (Z.lor kIOBufInUse kDataInUse)));;
  modify (on_blocks (insert storage (replicate (Z.to_nat (mallocSize - offsetof_align)) 0)));;
  modify (on_infos (insert storage (new_SharedInfo (Some freeInternalBuf_fn) (Zpos storage))));;
  let bufAddr := Addr (Some storage) 0 in
  let actualCapacity := u64 (mallocSize - offsetof_align) in
  ctor_internal (packFlagsAndSharedInfo 0 (Some storage)) bufAddr actualCapacity bufAddr 0 storage;;
  mret storage.

Definition createSeparate (capacity : Z) : Mem positive := make_unique (ctor_create capacity).

Definition create (capacity : Z) : Mem positive :=
  if decide (capacity <= kDefaultCombinedBufSize) then createCombined capacity
  else createSeparate capacity.

Definition createChain (totalCapacity maxBufCapacity : Z) : Mem positive :=
  out ← create (Z.min totalCapacity maxBufCapacity);
  b ← load out;
  iter (S (Z.to_nat totalCapacity))
    (fun allocatedCapacity =>
       if decide (allocatedCapacity < totalCapacity) then
         newBuf ← try_catch (create (Z.min (u64 (totalCapacity - allocatedCapacity)) maxBufCapacity))
                    (fun e => delete_ out;; throw e);
         nb ← load newBuf;
         prependChain out newBuf;;
         mret (inl (u64 (allocatedCapacity + capacity_ nb)))
       else mret (inr tt)) (capacity_ b);;
  mret out.

(** [IOBuf(TAKE_OWNERSHIP, ...)]: the SharedInfo is an allocation of its own. *)
Definition takeOwnershipError (freeOnError : bool) (buf : addr) (fn : option FreeFunction)
    (userData : Z) : Mem unit :=
  if freeOnError then
    match fn with
    | None => free buf
    | Some f => call_free f buf userData
    end
  else mret tt.

Definition ctor_takeOwnership (buf : addr) (capacity length : Z) (fn : option FreeFunction)
    (userData : Z) (freeOnError : bool) (this : positive) : Mem unit :=
  construct this
    (mkPayload buf buf length capacity (packFlagsAndSharedInfo kFlagFreeSharedInfo None));;
  ok ← sys_alloc sizeof_SharedInfo;
  if ok : bool then
    h ← get;
    let s := fresh_id h in
    put (on_infos (insert s (new_SharedInfo fn userData)) h);;
    store this (setSharedInfo (Some s))
  else
    takeOwnershipError freeOnError buf fn userData;;
    end_lifetime this;;
    throw bad_alloc.

Definition takeOwnership (buf : addr) (capacity length : Z) (fn : option FreeFunction)
    (userData : Z) (freeOnError : bool) : Mem positive :=
  try_catch (make_unique (ctor_takeOwnership buf capacity length fn userData false))
    (fun e => takeOwnershipError freeOnError buf fn userData;; throw e).

(** The buffer stays the user's: no SharedInfo. *)
Definition ctor_wrap (buf : addr) (capacity : Z) : positive -> Mem unit :=
  ctor_internal 0 buf capacity buf capacity.

Definition wrapBuffer (buf : addr) (capacity : Z) : Mem positive :=
  make_unique (ctor_wrap buf capacity).

Definition wrapBufferAsValue (buf : addr) (capacity : Z) : Mem positive :=
  p ← stack_address; ctor_wrap buf capacity p;; mret p.

Definition ctor_copyBuffer (bs : list Z) (headroom minTailroom : Z) (this : positive) : Mem unit :=
  ctor_create (u64 (u64 (headroom + zlen bs) + minTailroom)) this;;
  advance this headroom;;
  if decide (0 < zlen bs) then
    b ← load this;
    store_bytes (data_ b) bs;;
    append this (zlen bs)
  else mret tt.

Definition copyBuffer (bs : list Z) (headroom minTailroom : Z) : Mem positive :=
  let capacity := u64 (u64 (headroom + zlen bs) + minTailroom) in
  buf ← create capacity;
  advance buf headroom;;
  (if decide (zlen bs <> 0) then b ← load buf; store_bytes (data_ b) bs else mret tt);;
  append buf (zlen bs);;
  mret buf.

Definition maybeCopyBuffer (bs : list Z) (headroom minTailroom : Z) : Mem (option positive) :=
  if decide (bs = []) then mret None
  else p ← copyBuffer bs headroom minTailroom; mret (Some p).

(** ** Moves *)

(** The members of [other] go to [this], which also takes its place in its
    chain. *)
Definition move_payload (this other : positive) : Mem unit :=
  o ← load other;
  store this (fun _ => o);;
  store other (fun _ => null_payload).

Definition move_links (this other : positive) : Mem unit :=
  n ← next other;
  (if decide (n <> other) then
     update this (set_next n);;
     update n (set_prev this);;
     update other (set_next other);;
     p ← prev other;
     update this (set_prev p);;
     update p (set_next this);;
     update other (set_prev other)
   else mret tt);;
  b ← deref other;
  assert (bool_decide (prev_ b = other)) "other.prev_ == &other";;
  assert (bool_decide (next_ b = other)) "other.next_ == &other".

Definition ctor_move (other this : positive) : Mem unit :=
  construct this null_payload;;
  move_payload this other;;
  move_links this other.

Definition delete_rest (this : positive) : Mem unit :=
  h ← get;
  iter (S (size (bufs h)))
    (fun _ : unit =>
       n ← next this;
       if decide (n = this) then mret (inr tt)
       else q ← unlink n; delete_ q;; mret (inl tt)) tt.

Definition move_assign (this other : positive) : Mem unit :=
  if decide (this = other) then mret tt
  else
    delete_rest this;;
    decrementRefcount this;;
    move_payload this other;;
    move_links this other.

(** ** Sharing *)

Definition isManagedOne (b : Payload) : bool := bool_decide (is_Some (sharedInfo b)).

Definition isSharedOne (this : positive) : Mem bool :=
  b ← load this;
  match sharedInfo b with
  | None => mret true
  | Some s =>
      info ← deref_info s;
      if externallyShared info then mret true
      else if negb (has_flag kFlagMaybeShared b) then mret false
      else
        let shared := bool_decide (refcount info > 1) in
        (if shared then mret tt else store this (clearFlags kFlagMaybeShared));;
        mret shared
  end.

Definition isShared (this : positive) : Mem bool :=
  r ← do_chain this this
        (fun cur (_ : unit) => s ← isSharedOne cur; mret (if s : bool then inr tt else inl tt)) tt;
  mret (match r with inl _ => false | inr _ => true end).

Definition isManaged (this : positive) : Mem bool :=
  r ← do_chain this this
        (fun cur (_ : unit) => b ← load cur; mret (if isManagedOne b then inl tt else inr tt)) tt;
  mret (match r with inl _ => true | inr _ => false end).

Definition markExternallySharedOne (this : positive) : Mem unit :=
  b ← load this;
  match sharedInfo b with
  | None => mret tt
  | Some s => update_info s (with_externallyShared true)
  end.

Definition markExternallyShared (this : positive) : Mem unit :=
  do_chain_all this this (fun cur (_ : unit) => markExternallySharedOne cur) tt.

Definition unshareOneSlow (this : positive) : Mem unit :=
  b ← load this;
  '(buf, info, actualCapacity) ← allocExtBuffer (capacity_ b);
  let headlen := headroom b in
  (if decide (0 < length_ b) then memcpy (padd buf headlen) (data_ b) (length_ b) else mret tt);;
  decrementRefcount this;;
  store this (setFlagsAndSharedInfo 0 (Some info));;
  store this (with_data (padd buf headlen));;
  store this (with_buf buf).

Definition unshareOne (this : positive) : Mem unit :=
  s ← isSharedOne this;
  if s : bool then unshareOneSlow this else mret tt.

Definition makeManagedOne (this : positive) : Mem unit :=
  b ← load this;
  if isManagedOne b then mret tt else unshareOneSlow this.

Definition makeManagedChained (this : positive) : Mem unit :=
  c ← isChained this;
  assert c "isChained()";;
  do_chain_all this this (fun cur (_ : unit) => makeManagedOne cur) tt.

Definition makeManaged (this : positive) : Mem unit :=
  c ← isChained this;
  if c : bool then makeManagedChained this else makeManagedOne this.

(** ** Coalescing *)

(** The four-argument overload; [stop] is the [end] of the source. *)
Definition coalesceAndReallocate4 (this : positive) (newHeadroom newLength : Z)
    (stop : positive) (newTailroom : Z) : Mem unit :=
  let newCapacity := u64 (u64 (newLength + newHeadroom) + newTailroom) in
  '(newBuf, newInfo, actualCapacity) ← allocExtBuffer newCapacity;
  let newData := padd newBuf newHeadroom in
  '(_, remaining) ← do_chain_all this stop
    (fun cur '(p, remaining) =>
       c ← load cur;
       if decide (0 < length_ c) then
         assert (bool_decide (length_ c <= remaining)) "current->length_ <= remaining";;
         memcpy p (data_ c) (length_ c);;
         mret (padd p (length_ c), u64 (remaining - length_ c))
       else mret (p, remaining)) (newData, newLength);
  let current := stop in
  assert (bool_decide (remaining = 0)) "remaining == 0";;
  decrementRefcount this;;
  store this (setFlagsAndSharedInfo 0 (Some newInfo));;
  store this (with_capacity actualCapacity);;
  store this (with_buf newBuf);;
  store this (with_data newData);;
  store this (with_length newLength);;
  c ← isChained this;
  if c : bool then
    n ← next this;
    cp ← prev current;
    q ← separateChain this n cp;
    delete_ q
  else mret tt.

Definition coalesceAndReallocate (this : positive) (newLength : Z) (stop : positive) : Mem unit :=
  b ← load this;
  ep ← prev stop;
  e ← load ep;
  coalesceAndReallocate4 this (headroom b) newLength stop (tailroom e).

Definition coalesceSlow (this : positive) : Mem unit :=
  c ← isChained this;
  assert c "DCHECK(isChained())";;
  newLength ← do_chain_all this this
    (fun cur newLength => e ← load cur; mret (u64 (newLength + length_ e))) 0;
  coalesceAndReallocate this newLength this;;
  c ← isChained this;
  assert (negb c) "DCHECK(!isChained())".

(** The overload [coalesceSlow(maxLength)]. *)
Definition coalesceSlow_max (this : positive) (maxLength : Z) : Mem unit :=
  c ← isChained this;
  assert c "DCHECK(isChained())";;
  b ← load this;
  assert (bool_decide (length_ b < maxLength)) "DCHECK_LT(length_, maxLength)";;
  h ← get;
  '(newLength, stop) ← iter (S (size (bufs h)))
    (fun '(newLength, cur) =>
       e ← load cur;
       let newLength := u64 (newLength + length_ e) in
       n ← next cur;
       if decide (maxLength <= newLength) then mret (inr (newLength, n))
       else if decide (n = this) then
         throw (overflow_error "attempted to coalesce more data than available")
       else mret (inl (newLength, n))) (0, this);
  coalesceAndReallocate this newLength stop;;
  b ← load this;
  assert (bool_decide (maxLength <= length_ b)) "DCHECK_GE(length_, maxLength)".

Definition coalesce (this : positive) : Mem (addr * Z) :=
  c ← isChained this;
  (if c : bool then coalesceSlow this else mret tt);;
  b ← load this;
  mret (data_ b, length_ b).

Definition gather (this : positive) (maxLength : Z) : Mem unit :=
  c ← isChained this;
  b ← load this;
  if decide (c = false \/ maxLength <= length_ b) then mret tt
  else coalesceSlow_max this maxLength.

Definition unshareChained (this : positive) : Mem unit :=
  c ← isChained this;
  assert c "isChained()";;
  s ← isShared this;
  if s : bool then coalesceSlow this else mret tt.

Definition unshare (this : positive) : Mem unit :=
  c ← isChained this;
  if c : bool then unshareChained this else unshareOne this.

(** ** Clones *)

Definition cloneOneAsValue (this : positive) : Mem positive :=
  b ← load this;
  match sharedInfo b with
  | None => mret tt
  | Some s =>
      store this (setFlags kFlagMaybeShared);;
      info ← deref_info s;
      update_info s (with_refcount (u32 (refcount info + 1)))
  end;;
  b ← load this;
  p ← stack_address;
  ctor_internal (flagsAndSharedInfo_ b) (buf_ b) (capacity_ b) (data_ b) (length_ b) p;;
  mret p.

(** [make_unique<IOBuf>(value)]: the value is moved to the heap. *)
Definition to_heap (tmp : positive) : Mem positive :=
  with_temporary tmp (make_unique (ctor_move tmp)).

Definition cloneOne (this : positive) : Mem positive :=
  tmp ← cloneOneAsValue this; to_heap tmp.

Definition cloneAsValue (this : positive) : Mem positive :=
  tmp ← cloneOneAsValue this;
  n ← next this;
  try_catch
    (for_chain this n (fun cur (_ : unit) => c ← cloneOne cur; prependChain tmp c) tt)
    (fun e => destroy_value tmp;; throw e);;
  mret tmp.

Definition clone (this : positive) : Mem positive :=
  tmp ← cloneAsValue this; to_heap tmp.

Definition cloneCoalescedAsValue (this : positive) : Mem positive :=
  c ← isChained this;
  if negb c then cloneOneAsValue this
  else
    newLength ← computeChainDataLength this;
    b ← load this;
    let newHeadroom := headroom b in
    lp ← prev this;
    l ← load lp;
    let newTailroom := tailroom l in
    let newCapacity := u64 (u64 (newLength + newHeadroom) + newTailroom) in
    newBuf ← stack_address;
    ctor_create newCapacity newBuf;;
    advance newBuf newHeadroom;;
    do_chain_all this this
      (fun cur (_ : unit) =>
         c ← load cur;
         if decide (0 < length_ c) then
           nb ← load newBuf;
           assert (bool_decide (length_ c <= tailroom nb)) "DCHECK_LE(length(), tailroom())";;
           memcpy (tail nb) (data_ c) (length_ c);;
           append newBuf (length_ c)
         else mret tt) tt;;
    nb ← load newBuf;
    assert (bool_decide (newLength = length_ nb)) "DCHECK_EQ(newLength, newBuf.length())";;
    assert (bool_decide (newHeadroom = headroom nb)) "DCHECK_EQ(newHeadroom, newBuf.headroom())";;
    assert (bool_decide (newTailroom <= tailroom nb)) "DCHECK_LE(newTailroom, newBuf.tailroom())";;
    mret newBuf.

Definition cloneCoalesced (this : positive) : Mem positive :=
  tmp ← cloneCoalescedAsValue this; to_heap tmp.

Definition cloneInto (this other : positive) : Mem unit :=
  tmp ← cloneAsValue this; with_temporary tmp (move_assign other tmp).

Definition cloneOneInto (this other : positive) : Mem unit :=
  tmp ← cloneOneAsValue this; with_temporary tmp (move_assign other tmp).

(** [IOBuf(const IOBuf&)] and copy assignment. *)
Definition ctor_copy (other this : positive) : Mem unit :=
  construct this null_payload;;
  tmp ← try_catch (cloneAsValue other) (fun e => end_lifetime this;; throw e);
  with_temporary tmp (move_assign this tmp).

Definition copy_assign (this other : positive) : Mem unit :=
  if decide (this = other) then mret tt
  else
    tmp ← stack_address;
    ctor_copy other tmp;;
    with_temporary tmp (move_assign this tmp).

(** ** Reallocation *)

(** [info && info->freeFn == nullptr]. *)
Definition is_malloced (info : option SharedInfo) : bool :=
  match info with Some i => bool_decide (freeFn i = None) | None => false end.

Definition reserveSlow (this : positive) (minHeadroom minTailroom : Z) : Mem unit :=
  b ← load this;
  let newCapacity := u64 (u64 (length_ b + minHeadroom) + minTailroom) in
  assert (bool_decide (newCapacity < 4294967295)) "DCHECK_LT(newCapacity, UINT32_MAX)";;
  shared ← isSharedOne this;
  assert (negb shared) "DCHECK(!isSharedOne())";;
  if decide (u64 (minHeadroom + minTailroom) <= u64 (headroom b + tailroom b)) then
    let newData := padd (buf_ b) minHeadroom in
    memmove newData (data_ b) (length_ b);;
    store this (with_data newData)
  else
    let oldHeadroom := headroom b in
    info ← match sharedInfo b with
           | None => mret None
           | Some s => i ← deref_info s; mret (Some i)
           end;
    r ← (if is_malloced info && bool_decide (length_ b <> 0) &&
            bool_decide (minHeadroom <= oldHeadroom) then
           let headSlack := u64 (oldHeadroom - minHeadroom) in
           let newAllocatedCapacity := goodExtBufferSize (u64 (newCapacity + headSlack)) in
           let copySlack := u64 (capacity_ b - length_ b) in
           if decide (u64 (copySlack * 2) <= length_ b) then
             p ← realloc (buf_ b) newAllocatedCapacity;
             match p with
             | None => throw bad_alloc
             | Some p => mret (Some (p, newAllocatedCapacity, oldHeadroom))
             end
           else mret None
         else mret None);
    '(newBuffer, newAllocatedCapacity, newHeadroom) ←
      match r with
      | Some x => mret x
      | None =>
          let newAllocatedCapacity := goodExtBufferSize newCapacity in
          p ← malloc newAllocatedCapacity;
          match p with
          | None => throw bad_alloc
          | Some p =>
              let newBuffer := Addr (Some p) 0 in
              (if decide (0 < length_ b)
               then memcpy (padd newBuffer minHeadroom) (data_ b) (length_ b) else mret tt);;
              (if isManagedOne b then freeExtBuffer this else mret tt);;
              mret (newBuffer, newAllocatedCapacity, minHeadroom)
          end
      end;
    nb ← of_option (ablk newBuffer) "null buffer";
    '(newInfo, cap) ← initExtBuffer nb newAllocatedCapacity;
    (if has_flag kFlagFreeSharedInfo b then
       s ← of_option (sharedInfo b) "delete of a null SharedInfo"; delete_info s
     else mret tt);;
    store this (setFlagsAndSharedInfo 0 (Some newInfo));;
    store this (with_capacity cap);;
    store this (with_buf newBuffer);;
    store this (with_data (padd newBuffer newHeadroom)).

Definition reserve (this : positive) (minHeadroom minTailroom : Z) : Mem unit :=
  b ← load this;
  if decide (minHeadroom <= headroom b /\ minTailroom <= tailroom b) then mret tt
  else if decide (length_ b = 0 /\
                  u64 (minHeadroom + minTailroom) <= u64 (headroom b + tailroom b)) then
    store this (with_data (padd (buf_ b) minHeadroom))
  else reserveSlow this minHeadroom minTailroom.

Definition moveToString (this : positive) : Mem (list Z) :=
  b ← load this;
  info ← match sharedInfo b with
         | None => mret None
         | Some s => i ← deref_info s; mret (Some i)
         end;
  realloc_needed ←
    (if negb (bool_decide (is_Some info)) then mret true
     else if negb (is_malloced info) then mret true
     else if decide (headroom b <> 0) then mret true
     else if decide (tailroom b = 0) then mret true
     else sh ← isShared this; if sh : bool then mret true else isChained this);
  (if realloc_needed : bool then
     len ← computeChainDataLength this;
     coalesceAndReallocate4 this 0 len this 1
   else mret tt);;
  b ← load this;
  store_bytes (tail b) [0];;
  str ← load_bytes (data_ b) (length_ b);
  (if has_flag kFlagFreeSharedInfo b then
     s ← of_option (sharedInfo b) "delete of a null SharedInfo"; delete_info s
   else mret tt);;
  store this (with_flags 0);;
  store this (with_buf nullptr);;
  clear this;;
  mret str.

(** ** Reading a chain *)

Definition appendToIov (this : positive) (iov : list (addr * Z)) : Mem (list (addr * Z)) :=
  do_chain_all this this
    (fun cur iov => b ← load cur;
       mret (if decide (0 < length_ b) then iov ++ [(data_ b, length_ b)] else iov)) iov.

Definition getIov (this : positive) : Mem (list (addr * Z)) :=
  _ ← countChainElements this;
  appendToIov this [].

(** Returns the number of entries filled, with the entries. *)
Definition fillIov (this : positive) (len : Z) : Mem (Z * list (addr * Z)) :=
  h ← get;
  iter (S (size (bufs h)))
    (fun '(p, iov) =>
       if decide (zlen iov < len) then
         b ← load p;
         let iov := if decide (0 < length_ b) then iov ++ [(data_ b, length_ b)] else iov in
         n ← next p;
         if decide (n = this) then mret (inr (zlen iov, iov)) else mret (inl (n, iov))
       else mret (inr (0, iov))) (this, []).

(** The iterator over the byte ranges of a chain; [None] is [cend()]. *)
Record Iterator := mkIterator { pos_ : positive; end_ : positive; val_ : addr * Z }.

Definition setVal (p e : positive) : Mem Iterator :=
  b ← load p; mret (mkIterator p e (data_ b, length_ b)).

Definition cbegin (this : positive) : Mem (option Iterator) :=
  it ← setVal this this; mret (Some it).

Definition cend : option Iterator := None.

Definition increment (it : Iterator) : Mem (option Iterator) :=
  p ← next (pos_ it);
  if decide (p = end_ it) then mret cend
  else it' ← setVal p (end_ it); mret (Some it').
