(* ===== verification/IOBufChain.v ===== *)
(** * io/IOBuf: circular chains

    The doubly linked, circular chains that IOBufs form, as lists of objects,
    and what the link operations of [IOBuf] do to them. *)

From stdpp Require Import base list gmap strings.
From S2P Require Import Prelude IOBufMem IOBuf.

Definition nxt (h : Heap) (p : positive) : option positive := next_ <$> bufs h !! p.
Definition prv (h : Heap) (p : positive) : option positive := prev_ <$> bufs h !! p.

(** [y] follows [x], in both directions. *)
Definition adj (h : Heap) (x y : positive) : Prop := nxt h x = Some y /\ prv h y = Some x.

Fixpoint adjs (h : Heap) (l : list positive) : Prop :=
  match l with
  | x :: t => match t with y :: _ => adj h x y /\ adjs h t | [] => True end
  | [] => True
  end.

(** [chain h (x :: l)]: starting at [x] the chain consists of the distinct
    objects [x :: l], the last of which is linked to [x] again. *)
Definition chain (h : Heap) (l : list positive) : Prop :=
  match l with
  | [] => False
  | x :: t => NoDup (x :: t) /\ adjs h (x :: t ++ [x])
  end.

(** The payloads of the objects, whatever their links. *)
Definition payloads (h : Heap) : gmap positive Payload := body <$> bufs h.

(** The two heaps differ in the links of the objects of [S] at most. *)
Record relinked (S : list positive) (h h' : Heap) : Prop := {
  rl_body : payloads h' = payloads h;
  rl_infos : infos h' = infos h;
  rl_blocks : blocks h' = blocks h;
  rl_storages : storages h' = storages h;
  rl_freeLog : freeLog h' = freeLog h;
  rl_oracle : oracle h' = oracle h;
  rl_mallocs : mallocs h' = mallocs h;
  rl_nxt : forall p, p ∉ S -> nxt h' p = nxt h p;
  rl_prv : forall p, p ∉ S -> prv h' p = prv h p }.

(** ** Adjacency *)

Section Adjs.
Implicit Types (h : Heap) (x y p q : positive) (l : list positive).

Lemma adjs_cons h x y l : adjs h (x :: y :: l) <-> adj h x y /\ adjs h (y :: l).
Proof. done. Qed.

Lemma adjs_app h l x l' : adjs h (l ++ x :: l') <-> adjs h (l ++ [x]) /\ adjs h (x :: l').
Proof.
  induction l as [|a l IH]; [simpl; tauto|].
  destruct l as [|b l].
  - change ([a] ++ x :: l') with (a :: x :: l'). change ([a] ++ [x]) with (a :: [x]).
    rewrite !adjs_cons. simpl. tauto.
  - change ((a :: b :: l) ++ x :: l') with (a :: b :: (l ++ x :: l')).
    change ((a :: b :: l) ++ [x]) with (a :: b :: (l ++ [x])).
    rewrite !adjs_cons. change (b :: l ++ x :: l') with ((b :: l) ++ x :: l').
    rewrite IH. simpl. tauto.
Qed.

(** Only the [next_] of the objects before the last and the [prev_] of those
    after the first matter. *)
Lemma adjs_frame h h' l :
  (forall p, p ∈ removelast l -> nxt h' p = nxt h p) ->
  (forall p, p ∈ List.tl l -> prv h' p = prv h p) ->
  adjs h l -> adjs h' l.
Proof.
  induction l as [|a l IH]; [done|]. destruct l as [|b l]; [done|].
  intros Hn Hp [[Ha Hb] Hl]. split.
  - split; [rewrite Hn by set_solver|rewrite Hp by set_solver]; done.
  - apply IH; [| |done]; intros p Hin.
    + apply Hn. simpl in *. set_solver.
    + apply Hp. simpl in *. set_solver.
Qed.

Lemma removelast_snoc l x : removelast (l ++ [x]) = l.
Proof. apply removelast_last. Qed.

Lemma chain_cons_inv h l : chain h l -> exists x t, l = x :: t.
Proof. destruct l; [done|eauto]. Qed.

Lemma chain_NoDup h l : chain h l -> NoDup l.
Proof. destruct l; [done|]. by intros []. Qed.

Lemma chain_adjs h x l : chain h (x :: l) -> adjs h (x :: l ++ [x]).
Proof. by intros []. Qed.

Lemma chain_frame h h' l :
  (forall p, p ∈ l -> nxt h' p = nxt h p) -> (forall p, p ∈ l -> prv h' p = prv h p) ->
  chain h l -> chain h' l.
Proof.
  destruct l as [|x l]; [done|]. intros Hn Hp [Hnd Ha]. split; [done|].
  eapply adjs_frame; [| |done]; intros p Hin.
  - apply Hn. change (x :: l ++ [x]) with ((x :: l) ++ [x]) in Hin.
    by rewrite removelast_snoc in Hin.
  - apply Hp. apply elem_of_app in Hin as [?| ->%list_elem_of_singleton]; set_solver.
Qed.

Lemma chain_relinked S h h' l : relinked S h h' -> l ## S -> chain h l -> chain h' l.
Proof.
  intros Hr Hd. apply chain_frame; intros p Hp.
  - apply (rl_nxt _ _ _ Hr). set_solver.
  - apply (rl_prv _ _ _ Hr). set_solver.
Qed.

Lemma chain_rotate h l l' : l' <> [] -> chain h (l ++ l') -> chain h (l' ++ l).
Proof.
  destruct l' as [|y l']; [done|]. intros _. destruct l as [|x l]; [by rewrite app_nil_r|].
  intros [Hnd Ha]. simpl. split.
  - change (NoDup ((y :: l') ++ x :: l)). by rewrite (Permutation_app_comm (y :: l') (x :: l)).
  - rewrite <- (assoc_L (++) l) in Ha.
    apply (adjs_app h (x :: l) y (l' ++ [x])) in Ha as [H1 H2].
    rewrite <- (assoc_L (++) l').
    by apply (adjs_app h (y :: l') x (l ++ [y])).
Qed.

Lemma chain_rotate1 h x l : l <> [] -> chain h (x :: l) -> chain h (l ++ [x]).
Proof. intros Hl H. by apply (chain_rotate h [x] l). Qed.
End Adjs.

(** ** Single link updates *)

Definition hset_next (p n : positive) (h : Heap) : Heap := on_bufs (alter (set_next n) p) h.
Definition hset_prev (p n : positive) (h : Heap) : Heap := on_bufs (alter (set_prev n) p) h.

Section Links.
Implicit Types (h : Heap) (x y p q n : positive) (S : list positive).

Lemma bufs_of_nxt h p n : nxt h p = Some n -> exists b, bufs h !! p = Some b.
Proof. unfold nxt. destruct (bufs h !! p); [eauto|done]. Qed.

Lemma bufs_of_prv h p n : prv h p = Some n -> exists b, bufs h !! p = Some b.
Proof. unfold prv. destruct (bufs h !! p); [eauto|done]. Qed.

Lemma insert_alter (m : gmap positive IOBuf) p b f :
  m !! p = Some b -> <[p := f b]> m = alter f p m.
Proof.
  intros Hp. apply map_eq. intros i. destruct (decide (i = p)) as [->|].
  - by rewrite lookup_insert_eq, lookup_alter_eq, Hp.
  - by rewrite lookup_insert_ne, lookup_alter_ne by done.
Qed.

Lemma wp_deref h p b Q E : bufs h !! p = Some b -> Q b h -> wp (deref p) h Q E.
Proof. intros Hp HQ. unfold wp, deref, mbind, M_bind, bind, get. simpl. by rewrite Hp. Qed.

Lemma wp_update h p b f Q E :
  bufs h !! p = Some b -> Q tt (on_bufs (alter f p) h) -> wp (update p f) h Q E.
Proof.
  intros Hp HQ. apply wp_bind. eapply wp_deref; [done|]. apply wp_modify.
  unfold on_bufs in *. by rewrite (insert_alter _ _ _ _ Hp).
Qed.

Lemma wp_next h p n Q E : nxt h p = Some n -> Q n h -> wp (next p) h Q E.
Proof.
  unfold nxt. intros Hn HQ. destruct (bufs h !! p) eqn:Hb; simplify_eq/=.
  apply wp_bind. by eapply wp_deref.
Qed.

Lemma wp_prev h p n Q E : prv h p = Some n -> Q n h -> wp (prev p) h Q E.
Proof.
  unfold prv. intros Hn HQ. destruct (bufs h !! p) eqn:Hb; simplify_eq/=.
  apply wp_bind. by eapply wp_deref.
Qed.

Lemma wp_set_next h p n Q E :
  is_Some (nxt h p) -> Q tt (hset_next p n h) -> wp (update p (set_next n)) h Q E.
Proof. intros [? [b Hb]%bufs_of_nxt] HQ. by eapply wp_update. Qed.

Lemma wp_set_prev h p n Q E :
  is_Some (nxt h p) -> Q tt (hset_prev p n h) -> wp (update p (set_prev n)) h Q E.
Proof. intros [? [b Hb]%bufs_of_nxt] HQ. by eapply wp_update. Qed.

Lemma nxt_hset_next h p n q :
  is_Some (nxt h p) -> nxt (hset_next p n h) q = if decide (q = p) then Some n else nxt h q.
Proof.
  intros [? [b Hb]%bufs_of_nxt]. unfold nxt, hset_next. simpl. case_decide; subst.
  - by rewrite lookup_alter_eq, Hb.
  - by rewrite lookup_alter_ne.
Qed.

Lemma prv_hset_next h p n q : prv (hset_next p n h) q = prv h q.
Proof.
  unfold prv, hset_next. simpl. destruct (decide (q = p)) as [->|].
  - rewrite lookup_alter_eq. by destruct (bufs h !! p).
  - by rewrite lookup_alter_ne.
Qed.

Lemma nxt_hset_prev h p n q : nxt (hset_prev p n h) q = nxt h q.
Proof.
  unfold nxt, hset_prev. simpl. destruct (decide (q = p)) as [->|].
  - rewrite lookup_alter_eq. by destruct (bufs h !! p).
  - by rewrite lookup_alter_ne.
Qed.

Lemma prv_hset_prev h p n q :
  is_Some (nxt h p) -> prv (hset_prev p n h) q = if decide (q = p) then Some n else prv h q.
Proof.
  intros [? [b Hb]%bufs_of_nxt]. unfold prv, hset_prev. simpl. case_decide; subst.
  - by rewrite lookup_alter_eq, Hb.
  - by rewrite lookup_alter_ne.
Qed.

Lemma payloads_alter h p f :
  (forall b, body (f b) = body b) -> payloads (on_bufs (alter f p) h) = payloads h.
Proof.
  intros Hf. unfold payloads. simpl. apply map_eq. intros i. rewrite !lookup_fmap.
  destruct (decide (i = p)) as [->|].
  - rewrite lookup_alter_eq. destruct (bufs h !! p); [|done]. simpl. by rewrite Hf.
  - by rewrite lookup_alter_ne.
Qed.

Lemma relinked_refl S h : relinked S h h.
Proof. by split. Qed.

Lemma relinked_trans S h1 h2 h3 : relinked S h1 h2 -> relinked S h2 h3 -> relinked S h1 h3.
Proof.
  intros [] []. split; try congruence; intros p Hp.
  - rewrite rl_nxt1, rl_nxt0 by done. done.
  - rewrite rl_prv1, rl_prv0 by done. done.
Qed.

Lemma relinked_weaken S S' h h' : (forall p, p ∈ S -> p ∈ S') -> relinked S h h' -> relinked S' h h'.
Proof. intros HS []. split; try done; intros p Hp; [apply rl_nxt0|apply rl_prv0]; auto. Qed.

Lemma relinked_hset_next S h p n : p ∈ S -> is_Some (nxt h p) -> relinked S h (hset_next p n h).
Proof.
  intros Hp Ha. split; try done.
  - by apply payloads_alter.
  - intros q Hq. rewrite nxt_hset_next by done. case_decide; [congruence|done].
  - intros q Hq. by rewrite prv_hset_next.
Qed.

Lemma relinked_hset_prev S h p n : p ∈ S -> is_Some (nxt h p) -> relinked S h (hset_prev p n h).
Proof.
  intros Hp Ha. split; try done.
  - by apply payloads_alter.
  - intros q Hq. by rewrite nxt_hset_prev.
  - intros q Hq. rewrite prv_hset_prev by done. case_decide; [congruence|done].
Qed.
End Links.

Create HintDb links.
Create Rewrite HintDb links.
#[export] Hint Rewrite prv_hset_next nxt_hset_prev : links.

(** Computes [nxt] and [prv] after a sequence of link updates, splitting on
    whether the objects coincide. *)
Ltac links_alive :=
  repeat first
    [ eassumption
    | match goal with |- is_Some (Some _) => eexists; reflexivity end
    | match goal with H : ?x = Some _ |- is_Some ?x => rewrite H; eexists; reflexivity end
    | rewrite prv_hset_next | rewrite nxt_hset_prev
    | rewrite nxt_hset_next; [case_decide|] | rewrite prv_hset_prev; [case_decide|] ].

Ltac links_simpl :=
  repeat first
    [ rewrite prv_hset_next | rewrite nxt_hset_prev
    | rewrite nxt_hset_next by links_alive | rewrite prv_hset_prev by links_alive ].

Section Chains.
Implicit Types (h : Heap) (x y p q n o t : positive) (l m S : list positive).

Lemma adjs_alive h l p : adjs h l -> p ∈ removelast l -> is_Some (nxt h p).
Proof.
  induction l as [|a l IH]; [set_solver|]. destruct l as [|b l]; [set_solver|].
  intros [[Ha _] Hl] Hp. change (removelast (a :: b :: l)) with (a :: removelast (b :: l)) in Hp.
  apply elem_of_cons in Hp as [->|Hp]; [eauto|auto].
Qed.

Lemma chain_alive h l p : chain h l -> p ∈ l -> is_Some (nxt h p).
Proof.
  destruct l as [|x l]; [done|]. intros [_ Ha] Hp. eapply adjs_alive; [done|].
  change (x :: l ++ [x]) with ((x :: l) ++ [x]). by rewrite removelast_snoc.
Qed.

Lemma chain_bufs h l p : chain h l -> p ∈ l -> exists b, bufs h !! p = Some b.
Proof. intros Hc Hp. destruct (chain_alive h l p Hc Hp) as [n Hn]. by eapply bufs_of_nxt. Qed.

(** The last element of a chain, which precedes the first one. *)
Lemma chain_last h x l :
  chain h (x :: l) ->
  exists l' p, x :: l = l' ++ [p] /\ adj h p x /\ adjs h (l' ++ [p]).
Proof.
  intros [_ Ha]. destruct (exists_last (l := x :: l)) as (l' & p & Heq); [done|].
  exists l', p. split; [done|]. change (x :: l ++ [x]) with ((x :: l) ++ [x]) in Ha.
  rewrite Heq, <- (assoc_L (++)) in Ha. apply (adjs_app h l' p [x]) in Ha as [H1 [H2 _]]. done.
Qed.

Lemma chain_singleton h x : nxt h x = Some x -> prv h x = Some x -> chain h [x].
Proof. intros. split; [apply NoDup_singleton|]. simpl. repeat split; done. Qed.

Lemma chain_single_inv h x : chain h [x] -> nxt h x = Some x /\ prv h x = Some x.
Proof. by intros [_ [[??] _]]. Qed.

Lemma chain_next h x y l : chain h (x :: y :: l) -> nxt h x = Some y /\ prv h y = Some x.
Proof. by intros [_ [[??] _]]. Qed.

(** Glueing two chains: the result of any heap whose links are those of the
    two chains with the ends crossed. *)
Lemma chain_splice h h' x l o m l1 p m1 t :
  chain h (x :: l) -> chain h (o :: m) -> x :: l ## o :: m ->
  x :: l = l1 ++ [p] -> o :: m = m1 ++ [t] ->
  (forall q, nxt h' q = if decide (q = t) then Some x else if decide (q = p) then Some o else nxt h q) ->
  (forall q, prv h' q = if decide (q = x) then Some t else if decide (q = o) then Some p else prv h q) ->
  chain h' (x :: l ++ o :: m).
Proof.
  intros [Hnd1 Ha1] [Hnd2 Ha2] Hd Hl Hm Hn Hp. split.
  { change (NoDup ((x :: l) ++ o :: m)). apply NoDup_app. set_solver. }
  assert (p ∈ x :: l) by (rewrite Hl; set_solver).
  assert (t ∈ o :: m) by (rewrite Hm; set_solver).
  rewrite <- (assoc_L (++) l). apply (adjs_app h' (x :: l) o (m ++ [x])). split.
  - rewrite Hl, <- (assoc_L (++)). apply (adjs_app h' l1 p [o]). split.
    + apply (adjs_frame h).
      * intros q. rewrite removelast_snoc. intros Hq.
        assert (q ∈ x :: l) by (rewrite Hl; set_solver).
        rewrite Hl in Hnd1. apply NoDup_app in Hnd1 as (_ & Hnd1 & _).
        rewrite Hn, !decide_False; set_solver.
      * rewrite <- Hl. simpl. intros q Hq. apply NoDup_cons in Hnd1 as [Hx _].
        rewrite Hp, !decide_False; set_solver.
      * change (x :: l ++ [x]) with ((x :: l) ++ [x]) in Ha1.
        rewrite Hl, <- (assoc_L (++)) in Ha1. by apply (adjs_app h l1 p [x]) in Ha1 as [? _].
    + split; [|done]. split.
      * rewrite Hn, decide_False, decide_True; set_solver.
      * rewrite Hp, decide_False, decide_True; set_solver.
  - change (o :: m ++ [x]) with ((o :: m) ++ [x]). rewrite Hm, <- (assoc_L (++)).
    apply (adjs_app h' m1 t [x]). split.
    + apply (adjs_frame h).
      * intros q. rewrite removelast_snoc. intros Hq.
        assert (q ∈ o :: m) by (rewrite Hm; set_solver).
        rewrite Hm in Hnd2. apply NoDup_app in Hnd2 as (_ & Hnd2 & _).
        rewrite Hn, !decide_False; set_solver.
      * rewrite <- Hm. simpl. intros q Hq. apply NoDup_cons in Hnd2 as [Hx _].
        rewrite Hp, !decide_False; set_solver.
      * change (o :: m ++ [o]) with ((o :: m) ++ [o]) in Ha2.
        rewrite Hm, <- (assoc_L (++)) in Ha2. by apply (adjs_app h m1 t [o]) in Ha2 as [? _].
    + split; [|done]. split.
      * by rewrite Hn, decide_True.
      * by rewrite Hp, decide_True.
Qed.

Lemma prependChain_wp h x l o m :
  chain h (x :: l) -> chain h (o :: m) -> x :: l ## o :: m ->
  wp (prependChain x o) h
    (fun _ h' => chain h' (x :: l ++ o :: m) /\ relinked ((x :: l) ++ o :: m) h h') nothrow.
Proof.
  intros H1 H2 Hd.
  destruct (chain_last _ _ _ H1) as (l1 & p & Hl & [Hpn Hpp] & _).
  destruct (chain_last _ _ _ H2) as (m1 & t & Hm & [Htn Htp] & _).
  assert (Hpi : p ∈ x :: l) by (rewrite Hl; set_solver).
  assert (Hti : t ∈ o :: m) by (rewrite Hm; set_solver).
  assert (Hp : is_Some (nxt h p)) by eauto. assert (Ht : is_Some (nxt h t)) by eauto.
  assert (Hx : is_Some (nxt h x)) by (eapply chain_alive; [exact H1|set_solver]).
  assert (Ho : is_Some (nxt h o)) by (eapply chain_alive; [exact H2|set_solver]).
  unfold prependChain.
  apply wp_bind. eapply wp_prev; [done|]. apply wp_bind. eapply wp_prev; [done|].
  apply wp_bind. apply wp_set_next; [done|].
  assert (E1 : forall q, nxt (hset_next p o h) q = if decide (q = p) then Some o else nxt h q)
    by (intros; by apply nxt_hset_next).
  set (h1 := hset_next p o h) in *.
  assert (Ho1 : is_Some (nxt h1 o)) by (rewrite E1; case_decide; eauto).
  apply wp_bind. apply wp_set_prev; [done|].
  set (h2 := hset_prev o p h1).
  assert (Ht2 : is_Some (nxt h2 t)) by (unfold h2; rewrite nxt_hset_prev, E1; case_decide; eauto).
  apply wp_bind. apply wp_set_next; [done|].
  set (h3 := hset_next t x h2).
  assert (Hx3 : is_Some (nxt h3 x)).
  { unfold h3, h2. rewrite nxt_hset_next, nxt_hset_prev, E1 by done. repeat case_decide; eauto. }
  apply wp_set_prev; [done|]. split.
  - eapply chain_splice; [exact H1|exact H2|done|exact Hl|exact Hm| |]; intros q.
    + rewrite nxt_hset_prev. unfold h3. rewrite nxt_hset_next by done. unfold h2.
      by rewrite nxt_hset_prev, E1.
    + rewrite prv_hset_prev by done. unfold h3, h2.
      rewrite prv_hset_next, prv_hset_prev by done. unfold h1. by rewrite prv_hset_next.
  - eapply relinked_trans; [apply (relinked_hset_next _ h p o); [set_solver|done]|].
    eapply relinked_trans; [apply (relinked_hset_prev _ h1 o p); [set_solver|done]|].
    eapply relinked_trans; [apply (relinked_hset_next _ h2 t x); [set_solver|done]|].
    apply relinked_hset_prev; [set_solver|done].
Qed.
End Chains.

Section Cut.
Implicit Types (h : Heap) (x y p q n o t a b : positive) (l m r s : list positive).

(** Half of [chain_split]: a segment whose last element is linked back to its
    first one is a chain. *)
Lemma chain_close h h' a s s1 t :
  NoDup (a :: s) -> a :: s = s1 ++ [t] -> adjs h (a :: s) ->
  (forall q, q ∈ s1 -> nxt h' q = nxt h q) -> (forall q, q ∈ s -> prv h' q = prv h q) ->
  nxt h' t = Some a -> prv h' a = Some t -> chain h' (a :: s).
Proof.
  intros Hnd Hs Ha Hn Hp Ht Ha'. split; [done|].
  change (a :: s ++ [a]) with ((a :: s) ++ [a]). rewrite Hs, <- (assoc_L (++)).
  apply (adjs_app h' s1 t [a]). split; [|done].
  apply (adjs_frame h); [by rewrite removelast_snoc| |by rewrite <- Hs].
  by rewrite <- Hs.
Qed.

Lemma chain_split h h' a s b r s1 t r1 p :
  chain h (a :: s ++ b :: r) -> a :: s = s1 ++ [t] -> b :: r = r1 ++ [p] ->
  (forall q, nxt h' q = if decide (q = t) then Some a else if decide (q = p) then Some b else nxt h q) ->
  (forall q, prv h' q = if decide (q = a) then Some t else if decide (q = b) then Some p else prv h q) ->
  chain h' (a :: s) /\ chain h' (b :: r).
Proof.
  intros [Hnd Ha] Hs Hr Hn Hp.
  apply (NoDup_app (a :: s) (b :: r)) in Hnd as (Hnd1 & Hd & Hnd2).
  rewrite <- (assoc_L (++) s) in Ha. apply (adjs_app h (a :: s) b (r ++ [a])) in Ha as [Ha1 Ha2].
  assert (t ∈ a :: s) by (rewrite Hs; set_solver).
  assert (p ∈ b :: r) by (rewrite Hr; set_solver).
  assert (Has : adjs h (a :: s)).
  { rewrite Hs, <- (assoc_L (++)) in Ha1. apply (adjs_app h s1 t [b]) in Ha1. rewrite Hs. tauto. }
  assert (Hbr : adjs h (b :: r)).
  { change (b :: r ++ [a]) with ((b :: r) ++ [a]) in Ha2.
    rewrite Hr, <- (assoc_L (++)) in Ha2. apply (adjs_app h r1 p [a]) in Ha2. rewrite Hr. tauto. }
  split.
  - apply (chain_close h h' a s s1 t); [done..| | | |].
    + intros q Hq. assert (q ∈ a :: s) by (rewrite Hs; set_solver).
      rewrite Hs in Hnd1. apply NoDup_app in Hnd1 as (_ & Hnd1 & _).
      rewrite Hn, !decide_False; set_solver.
    + intros q Hq. apply NoDup_cons in Hnd1 as [? _]. rewrite Hp, !decide_False; set_solver.
    + by rewrite Hn, decide_True.
    + by rewrite Hp, decide_True.
  - apply (chain_close h h' b r r1 p); [done..| | | |].
    + intros q Hq. assert (q ∈ b :: r) by (rewrite Hr; set_solver).
      rewrite Hr in Hnd2. apply NoDup_app in Hnd2 as (_ & Hnd2 & _).
      rewrite Hn, !decide_False; set_solver.
    + intros q Hq. apply NoDup_cons in Hnd2 as [? _]. rewrite Hp, !decide_False; set_solver.
    + rewrite Hn, decide_False, decide_True; set_solver.
    + rewrite Hp, decide_False, decide_True; set_solver.
Qed.

(** The ends of the two parts of a chain are linked to each other. *)
Lemma chain_ends h a s b r s1 t r1 p :
  chain h (a :: s ++ b :: r) -> a :: s = s1 ++ [t] -> b :: r = r1 ++ [p] ->
  adj h t b /\ adj h p a.
Proof.
  intros [_ Ha] Hs Hr.
  rewrite <- (assoc_L (++) s) in Ha. apply (adjs_app h (a :: s) b (r ++ [a])) in Ha as [Ha1 Ha2].
  rewrite Hs, <- (assoc_L (++)) in Ha1. apply (adjs_app h s1 t [b]) in Ha1 as [_ [? _]].
  change (b :: r ++ [a]) with ((b :: r) ++ [a]) in Ha2.
  rewrite Hr, <- (assoc_L (++)) in Ha2. apply (adjs_app h r1 p [a]) in Ha2 as [_ [? _]]. done.
Qed.

Lemma snoc_exists a s : exists s1 t, a :: s = s1 ++ [t].
Proof. destruct (exists_last (l := a :: s)) as (s1 & t & ->); eauto. Qed.

(** [separateChain] on the segment [a :: s] of the chain of [x], where [t] is
    the last object of the segment. *)
Lemma separateChain_wp h x a s s1 t b r :
  chain h (a :: s ++ b :: r) -> a :: s = s1 ++ [t] -> x ∈ b :: r ->
  wp (separateChain x a t) h
    (fun q h' => q = a /\ chain h' (a :: s) /\ chain h' (b :: r) /\
                 relinked ((a :: s) ++ b :: r) h h') nothrow.
Proof.
  intros Hc Hs Hx. destruct (snoc_exists b r) as (r1 & p & Hr).
  destruct (chain_ends _ _ _ _ _ _ _ _ _ Hc Hs Hr) as [[Htn Htp] [Hpn Hpp]].
  assert (Hal : forall q, q ∈ (a :: s) ++ b :: r -> is_Some (nxt h q))
    by (intros q; by apply (chain_alive h _ q Hc)).
  pose proof (chain_NoDup _ _ Hc) as Hnd.
  apply (NoDup_app (a :: s) (b :: r)) in Hnd as (_ & Hd & _).
  assert (Hti : t ∈ a :: s) by (rewrite Hs; set_solver).
  assert (Hpi : p ∈ b :: r) by (rewrite Hr; set_solver).
  assert (Hta : is_Some (nxt h t)) by (apply Hal; set_solver).
  assert (Hpa : is_Some (nxt h p)) by (apply Hal; set_solver).
  assert (Hba : is_Some (nxt h b)) by (apply Hal; set_solver).
  assert (Haa : is_Some (nxt h a)) by (apply Hal; set_solver).
  unfold separateChain.
  apply wp_bind, wp_assert; [apply bool_decide_eq_true; set_solver|].
  apply wp_bind, wp_assert; [apply bool_decide_eq_true; set_solver|].
  apply wp_bind. eapply wp_prev; [done|]. apply wp_bind. eapply wp_next; [done|].
  apply wp_bind. apply wp_set_next; [done|].
  assert (E1 : forall q, nxt (hset_next p b h) q = if decide (q = p) then Some b else nxt h q)
    by (intros; by apply nxt_hset_next).
  set (h1 := hset_next p b h) in *.
  assert (Hal1 : forall q, q ∈ (a :: s) ++ b :: r -> is_Some (nxt h1 q)).
  { intros q Hq. rewrite E1. case_decide; eauto. }
  apply wp_bind. eapply wp_next; [rewrite E1, decide_False by set_solver; done|].
  apply wp_bind. eapply wp_prev; [unfold h1; rewrite prv_hset_next; done|].
  apply wp_bind. apply wp_set_prev; [apply Hal1; set_solver|].
  set (h2 := hset_prev b p h1).
  assert (Hal2 : forall q, q ∈ (a :: s) ++ b :: r -> is_Some (nxt h2 q)).
  { intros q Hq. unfold h2. rewrite nxt_hset_prev. auto. }
  apply wp_bind. apply wp_set_prev; [apply Hal2; set_solver|].
  set (h3 := hset_prev a t h2).
  assert (Hal3 : forall q, q ∈ (a :: s) ++ b :: r -> is_Some (nxt h3 q)).
  { intros q Hq. unfold h3. rewrite nxt_hset_prev. auto. }
  apply wp_bind. apply wp_set_next; [apply Hal3; set_solver|].
  apply wp_ret. split; [done|]. rewrite (assoc and). split.
  - eapply chain_split; [exact Hc|exact Hs|exact Hr| |]; intros q.
    + rewrite nxt_hset_next by (apply Hal3; set_solver). unfold h3, h2.
      by rewrite !nxt_hset_prev, E1.
    + rewrite prv_hset_next. unfold h3. rewrite prv_hset_prev by (apply Hal2; set_solver).
      unfold h2. rewrite prv_hset_prev by (apply Hal1; set_solver). unfold h1.
      by rewrite prv_hset_next.
  - eapply relinked_trans; [apply (relinked_hset_next _ h p b); [set_solver|done]|].
    eapply relinked_trans; [apply (relinked_hset_prev _ h1 b p); [set_solver|apply Hal1; set_solver]|].
    eapply relinked_trans; [apply (relinked_hset_prev _ h2 a t); [set_solver|apply Hal2; set_solver]|].
    apply relinked_hset_next; [set_solver|apply Hal3; set_solver].
Qed.
End Cut.

Section Unlink.
Implicit Types (h : Heap) (x y p q n o t a b : positive) (l m r s : list positive).

Lemma wp_deref_links h x n p Q E :
  nxt h x = Some n -> prv h x = Some p ->
  (forall c : IOBuf, bufs h !! x = Some c -> next_ c = n -> prev_ c = p -> Q c h) -> wp (deref x) h Q E.
Proof.
  unfold nxt, prv. intros Hn Hp HQ. destruct (bufs h !! x) as [b|] eqn:Hb; simplify_eq/=.
  eapply wp_deref; [done|]. by apply HQ.
Qed.

(** The object leaves its chain, of which the rest remains. *)
Definition unlinked (h : Heap) (x : positive) (l : list positive) (h' : Heap) : Prop :=
  chain h' [x] /\ (l <> [] -> chain h' l) /\ relinked (x :: l) h h'.

Lemma remove_links_wp h x l :
  chain h (x :: l) -> wp (remove_links x) h (fun _ h' => unlinked h x l h') nothrow.
Proof.
  intros Hc. assert (Hxa : is_Some (nxt h x)) by (eapply chain_alive; [done|set_solver]).
  unfold remove_links. destruct l as [|b r].
  - destruct (chain_single_inv _ _ Hc) as [Hn Hp].
    apply wp_bind. eapply wp_deref_links; [done..|]. intros b _ -> ->.
    apply wp_bind. apply wp_set_prev; [done|].
    set (h1 := hset_prev x x h).
    assert (Hn1 : nxt h1 x = Some x) by (unfold h1; by rewrite nxt_hset_prev).
    assert (Hp1 : prv h1 x = Some x) by (unfold h1; by rewrite prv_hset_prev, decide_True).
    apply wp_bind. eapply wp_deref_links; [done..|]. intros b1 _ -> ->.
    apply wp_bind. apply wp_set_next; [eauto|].
    set (h2 := hset_next x x h1).
    assert (Hn2 : nxt h2 x = Some x) by (unfold h2; by rewrite nxt_hset_next, decide_True by eauto).
    apply wp_bind. apply wp_set_prev; [eauto|].
    set (h3 := hset_prev x x h2).
    assert (Hn3 : nxt h3 x = Some x) by (unfold h3; by rewrite nxt_hset_prev).
    apply wp_set_next; [eauto|]. unfold unlinked. split_and!; [|by intros Hne; destruct Hne|].
    + apply chain_singleton.
      * by rewrite nxt_hset_next, decide_True by eauto.
      * rewrite prv_hset_next. unfold h3. by rewrite prv_hset_prev, decide_True by eauto.
    + eapply relinked_trans; [apply (relinked_hset_prev _ h x x); [set_solver|done]|].
      eapply relinked_trans; [apply (relinked_hset_next _ h1 x x); [set_solver|eauto]|].
      eapply relinked_trans; [apply (relinked_hset_prev _ h2 x x); [set_solver|eauto]|].
      apply relinked_hset_next; [set_solver|eauto].
  - destruct (snoc_exists b r) as (r1 & p & Hr).
    destruct (chain_ends h x [] b r [] x r1 p Hc eq_refl Hr) as [[Hn Hbp] [Hpn Hp]].
    assert (Hpi : p ∈ b :: r) by (rewrite Hr; set_solver).
    pose proof (chain_NoDup _ _ Hc) as Hnd. apply NoDup_cons in Hnd as [Hx _].
    assert (Hba : is_Some (nxt h b)) by (eapply chain_alive; [done|set_solver]).
    apply wp_bind. eapply wp_deref_links; [done..|]. intros b0 _ -> ->.
    apply wp_bind. apply wp_set_prev; [done|].
    set (h1 := hset_prev b p h).
    assert (Hp1 : prv h1 x = Some p).
    { unfold h1. rewrite prv_hset_prev, decide_False by set_solver. done. }
    assert (Hn1 : forall q, nxt h1 q = nxt h q) by (intros; apply nxt_hset_prev).
    apply wp_bind. eapply wp_deref_links; [by rewrite Hn1|done|]. intros b1 _ -> ->.
    apply wp_bind. apply wp_set_next; [rewrite Hn1; eauto|].
    set (h2 := hset_next p b h1).
    assert (Hn2 : forall q, nxt h2 q = if decide (q = p) then Some b else nxt h q).
    { intros q. unfold h2. rewrite nxt_hset_next, Hn1 by (rewrite Hn1; eauto). done. }
    apply wp_bind. apply wp_set_prev; [rewrite Hn2; case_decide; eauto|].
    set (h3 := hset_prev x x h2).
    assert (Hx3 : is_Some (nxt h3 x)) by (unfold h3; rewrite nxt_hset_prev, Hn2; case_decide; eauto).
    apply wp_set_next; [done|].
    assert (Hcut : chain (hset_next x x h3) [x] /\ chain (hset_next x x h3) (b :: r)).
    { eapply (chain_split h _ x [] b r [] x r1 p); [done..| |]; intros q.
      - rewrite nxt_hset_next by done. unfold h3. by rewrite nxt_hset_prev, Hn2.
      - rewrite prv_hset_next. unfold h3.
        rewrite prv_hset_prev by (rewrite Hn2; case_decide; eauto).
        unfold h2. rewrite prv_hset_next. unfold h1. by rewrite prv_hset_prev by eauto. }
    destruct Hcut as [H1 H2]. unfold unlinked. split_and!; [done|done|].
    eapply relinked_trans; [apply (relinked_hset_prev _ h b p); [set_solver|done]|].
    eapply relinked_trans; [apply (relinked_hset_next _ h1 p b); [set_solver|rewrite Hn1; eauto]|].
    eapply relinked_trans;
      [apply (relinked_hset_prev _ h2 x x); [set_solver|rewrite Hn2; case_decide; eauto]|].
    apply relinked_hset_next; [set_solver|eauto].
Qed.

Lemma unlink_wp h x l :
  chain h (x :: l) -> wp (unlink x) h (fun q h' => q = x /\ unlinked h x l h') nothrow.
Proof.
  intros Hc. apply wp_bind. eapply wp_wand; [by apply remove_links_wp|].
  intros [] h' Hu. by apply wp_ret.
Qed.

Lemma pop_wp h x l :
  chain h (x :: l) -> wp (pop x) h (fun res h' => res = head l /\ unlinked h x l h') nothrow.
Proof.
  intros Hc. unfold pop. apply wp_bind.
  assert (Hn : nxt h x = Some (default x (head l))).
  { destruct l; [by destruct (chain_single_inv _ _ Hc)|by destruct (chain_next _ _ _ _ Hc)]. }
  assert (Hh : (if decide (default x (head l) = x) then None else Some (default x (head l))) = head l).
  { destruct l as [|b r]; simpl; [by rewrite decide_True|]. rewrite decide_False; [done|].
    intros ->. pose proof (chain_NoDup _ _ Hc) as Hnd. apply NoDup_cons in Hnd. set_solver. }
  eapply wp_next; [done|]. apply wp_bind. eapply wp_wand; [by apply remove_links_wp|].
  intros [] h' Hu. by apply wp_ret.
Qed.
End Unlink.

(** * io/IOBuf: traversals of chains

    Rules for the loops over a chain, and the operations that only read it. *)

(** ** Traversals of a chain *)

Section Traversal.
Implicit Types (h : Heap) (x cur : positive) (l seg rest dn todo : list positive).

Lemma chain_succ h x l dn cur todo :
  chain h (x :: l) -> x :: l = dn ++ cur :: todo ->
  nxt h cur = Some (default x (head todo)).
Proof.
  intros [_ Ha] Heq. change (x :: l ++ [x]) with ((x :: l) ++ [x]) in Ha.
  rewrite Heq, <- (assoc_L (++)) in Ha.
  apply (adjs_app h dn cur (todo ++ [x])) in Ha as [_ Ha].
  destruct todo as [|y todo]; simpl in Ha; by destruct Ha as [[? _] _].
Qed.

Lemma chain_pred h x l :
  chain h (x :: l) -> prv h x = Some (default x (last l)).
Proof.
  intros Hc. destruct (chain_last _ _ _ Hc) as (l' & p & Heq & [_ Hp] & _). rewrite Hp. f_equal.
  destruct l as [|y l] using rev_ind.
  - destruct l' as [|? [|]]; simplify_eq/=; done.
  - change (x :: l ++ [y]) with ((x :: l) ++ [y]) in Heq. apply app_inj_tail in Heq as [_ ->].
    by rewrite last_snoc.
Qed.

Lemma chain_size h l : chain h l -> (length l <= size (bufs h))%nat.
Proof.
  intros Hc. rewrite <- (size_list_to_set (C := gset positive) l) by by eapply chain_NoDup.
  rewrite <- (size_dom (bufs h)). apply subseteq_size. intros p Hp%elem_of_list_to_set.
  apply elem_of_dom. destruct (chain_bufs _ _ _ Hc Hp) as [b ->]. eauto.
Qed.

Lemma for_chain_wp {A} (f : positive -> A -> Mem A) x l (I : list positive -> A -> Heap -> Prop)
    (Q : A -> Heap -> Prop) E h a :
  (forall dn a h', I dn a h' -> chain h' (x :: l)) ->
  (forall dn cur todo a h', l = dn ++ cur :: todo -> I dn a h' ->
     wp (f cur a) h' (fun a' h'' => I (dn ++ [cur]) a' h'') E) ->
  (forall a h', I l a h' -> Q a h') ->
  I [] a h ->
  wp (for_chain x (default x (head l)) f a) h Q E.
Proof.
  intros Hch Hf HQ HI. unfold for_chain. apply wp_bind, wp_get.
  pose proof (chain_size _ _ (Hch _ _ _ HI)) as Hsz. simpl in Hsz.
  eapply (wp_iter _ (fun n '(cur, a) h' => exists dn todo, n = length todo /\ l = dn ++ todo /\
            cur = default x (head todo) /\ I dn a h') _ _) with (n := length l); [|lia|].
  - intros n [cur a'] h' (dn & todo & -> & Hl & -> & HI').
    pose proof (Hch _ _ _ HI') as Hc. destruct todo as [|y todo]; simpl.
    + rewrite decide_True by done. apply wp_ret. apply HQ. by rewrite Hl, app_nil_r.
    + rewrite decide_False.
      2:{ intros ->. apply chain_NoDup, NoDup_cons in Hc as [Hx _]. apply Hx. rewrite Hl, elem_of_app. right. by left. }
      apply wp_bind. eapply wp_wand; [by eapply Hf|]. intros a'' h'' HI''.
      pose proof (Hch _ _ _ HI'') as Hc''. apply wp_bind. eapply wp_next.
      { eapply (chain_succ h'' x l (x :: dn)); [done|]. by rewrite Hl. }
      apply wp_ret. exists (length todo). split; [lia|].
      exists (dn ++ [y]), todo. rewrite <- (assoc_L (++)). done.
  - exists [], l. done.
Qed.

Lemma do_chain_wp {A B} (f : positive -> A -> Mem (A + B)) x l seg rest
    (I : list positive -> A -> Heap -> Prop) (J : B -> Heap -> Prop) E h a :
  x :: l = seg ++ rest -> seg <> [] ->
  (forall dn a h', I dn a h' -> chain h' (x :: l)) ->
  (forall dn cur todo a h', seg = dn ++ cur :: todo -> I dn a h' ->
     wp (f cur a) h' (fun r h'' => match r with
                                   | inl a' => I (dn ++ [cur]) a' h''
                                   | inr b => J b h''
                                   end) E) ->
  I [] a h ->
  wp (do_chain x (default x (head rest)) f a) h
    (fun r h' => match r with inl a' => I seg a' h' | inr b => J b h' end) E.
Proof.
  intros Heq Hne Hch Hf HI. unfold do_chain. apply wp_bind, wp_get.
  pose proof (chain_size _ _ (Hch _ _ _ HI)) as Hsz. rewrite Heq, length_app in Hsz.
  eapply (wp_iter _ (fun n '(cur, a) h' => exists dn todo, n = length todo /\
            seg = dn ++ cur :: todo /\ I dn a h') _ _) with (n := (length seg - 1)%nat); [|lia|].
  - intros n [cur a'] h' (dn & todo & -> & Hseg & HI').
    apply wp_bind. eapply wp_wand; [by eapply Hf|]. intros [a''|b] h'' HI''; [|by apply wp_ret].
    pose proof (Hch _ _ _ HI'') as Hc''. apply wp_bind. eapply wp_next.
    { eapply (chain_succ h'' x l dn cur (todo ++ rest)); [done|].
      by rewrite Heq, Hseg, <- (assoc_L (++)). }
    assert (Hnd : NoDup (dn ++ cur :: todo ++ rest)).
    { apply chain_NoDup in Hc''. rewrite Heq, Hseg, <- (assoc_L (++)) in Hc''. done. }
    destruct todo as [|y todo]; simpl.
    + rewrite decide_True by done. apply wp_ret. by rewrite Hseg.
    + rewrite decide_False.
      2:{ destruct rest as [|z rest]; simpl; intros ->.
          - assert (Hx : x ∈ dn ++ [cur]).
            { rewrite Hseg in Heq. destruct dn; simplify_eq/=; by left. }
            rewrite cons_middle, (assoc_L (++) dn [cur]) in Hnd. apply NoDup_app in Hnd as (_ & Hnd & _).
            apply (Hnd x Hx). by left.
          - apply NoDup_app in Hnd as (_ & _ & Hnd). apply NoDup_cons in Hnd as [_ Hnd].
            apply NoDup_cons in Hnd as [Hz _]. apply Hz, elem_of_app. right. by left. }
      apply wp_ret. exists (length todo). split; [simpl; lia|].
      exists (dn ++ [cur]), todo. rewrite <- (assoc_L (++)). done.
  - destruct seg as [|y seg]; [done|]. simplify_eq/=.
    exists [], seg. split; [lia|]. done.
Qed.

Lemma do_chain_all_wp {A} (f : positive -> A -> Mem A) x l seg rest
    (I : list positive -> A -> Heap -> Prop) E h a :
  x :: l = seg ++ rest -> seg <> [] ->
  (forall dn a h', I dn a h' -> chain h' (x :: l)) ->
  (forall dn cur todo a h', seg = dn ++ cur :: todo -> I dn a h' ->
     wp (f cur a) h' (fun a' h'' => I (dn ++ [cur]) a' h'') E) ->
  I [] a h ->
  wp (do_chain_all x (default x (head rest)) f a) h (fun a' h' => I seg a' h') E.
Proof.
  intros Heq Hne Hch Hf HI. unfold do_chain_all. apply wp_bind.
  eapply wp_wand; [eapply (do_chain_wp _ x l seg rest I (fun (_ : Empty_set) _ => False))|].
  - done.
  - done.
  - done.
  - intros dn cur todo a' h' Hs HI'. apply wp_bind. eapply wp_wand; [by eapply Hf|].
    intros a'' h'' HI''. by apply wp_ret.
  - done.
  - intros [a'|[]] h' HI'. by apply wp_ret.
Qed.
End Traversal.
