(* ===== verification/IOBufInv.v ===== *)
(** * io/IOBuf: the memory invariant

    What holds of the buffers between two operations: every data window lies in
    live memory, reference counts count, an IOBuf without [kFlagMaybeShared] is
    the only user of its buffer, and a buffer is released in the way it was
    obtained. *)

From stdpp Require Import base list gmap strings.
From S2P Require Import Prelude IOBufMem IOBuf IOBufChain.

(** ** The packed word *)

#[local] Arguments info_ptr : simpl never.
#[local] Arguments Z.lor : simpl never.
#[local] Arguments Z.ldiff : simpl never.
#[local] Arguments Z.land : simpl never.

Section Word.
Implicit Types (b : Payload) (f w : Z) (s : positive).

Lemma info_ptr_shift s : info_ptr (Some s) = Z.shiftl (Zpos s) 3.
Proof. unfold info_ptr. rewrite Z.shiftl_mul_pow2; lia. Qed.

Lemma ldiff_info_ptr f s :
  0 <= f < 4 -> Z.ldiff (Z.lor f (info_ptr (Some s))) kFlagMask = info_ptr (Some s).
Proof.
  intros Hf. rewrite info_ptr_shift. change kFlagMask with (Z.ones 2).
  assert (Hf0 : Z.ldiff f (Z.ones 2) = 0).
  { rewrite Z.ldiff_ones_r by lia. rewrite Z.shiftr_div_pow2, Z.div_small by (simpl; lia).
    apply Z.shiftl_0_l. }
  apply Z.bits_inj'. intros n Hn.
  assert (Hb : Z.testbit (Z.ldiff f (Z.ones 2)) n = false) by (rewrite Hf0; apply Z.bits_0).
  rewrite Z.ldiff_spec in Hb. rewrite Z.ldiff_spec, Z.lor_spec.
  destruct (decide (n < 2)) as [Hlt|Hge].
  - rewrite Z.ones_spec_low by lia. rewrite Z.shiftl_spec_low by lia. by rewrite andb_false_r.
  - rewrite Z.ones_spec_high in * by lia. rewrite !andb_true_r in *. by rewrite Hb.
Qed.

Lemma sharedInfo_pack f s b :
  0 <= f < 4 -> sharedInfo (setFlagsAndSharedInfo f (Some s) b) = Some s.
Proof.
  intros Hf. unfold sharedInfo, setFlagsAndSharedInfo, packFlagsAndSharedInfo. simpl.
  rewrite (ldiff_info_ptr f s Hf). rewrite decide_False by (unfold info_ptr; lia).
  f_equal. unfold info_ptr. rewrite Z.mul_comm, Z.div_mul by lia. done.
Qed.

Lemma flags_pack f s b : 0 <= f < 4 -> flags (setFlagsAndSharedInfo f (Some s) b) = f.
Proof.
  intros Hf. unfold flags, setFlagsAndSharedInfo, packFlagsAndSharedInfo. simpl.
  rewrite info_ptr_shift. change kFlagMask with (Z.ones 2).
  rewrite Z.land_lor_distr_l, (Z.land_ones f), Z.land_ones, (Z.mod_small f) by (simpl; lia).
  rewrite Z.shiftl_mul_pow2 by lia. change (2 ^ 3) with (2 * 2 ^ 2).
  rewrite Z.mul_assoc, Z.mod_mul by lia. apply Z.lor_0_r.
Qed.

Lemma sharedInfo_setFlags f b : Z.ldiff f kFlagMask = 0 -> sharedInfo (setFlags f b) = sharedInfo b.
Proof.
  intros Hf. unfold sharedInfo, setFlags. simpl.
  assert (Heq : Z.ldiff (Z.lor (flagsAndSharedInfo_ b) f) kFlagMask
                = Z.ldiff (flagsAndSharedInfo_ b) kFlagMask).
  { apply Z.bits_inj'. intros n Hn. rewrite !Z.ldiff_spec, Z.lor_spec.
    assert (Hb : Z.testbit (Z.ldiff f kFlagMask) n = false) by (rewrite Hf; apply Z.bits_0).
    rewrite Z.ldiff_spec in Hb. by rewrite andb_orb_distrib_l, Hb, orb_false_r. }
  by rewrite Heq.
Qed.

Lemma sharedInfo_clearFlags f b :
  Z.ldiff f kFlagMask = 0 -> sharedInfo (clearFlags f b) = sharedInfo b.
Proof.
  intros Hf. unfold sharedInfo, clearFlags. simpl.
  assert (Heq : Z.ldiff (Z.ldiff (flagsAndSharedInfo_ b) f) kFlagMask
                = Z.ldiff (flagsAndSharedInfo_ b) kFlagMask).
  { apply Z.bits_inj'. intros n Hn. rewrite !Z.ldiff_spec.
    assert (Hb : Z.testbit (Z.ldiff f kFlagMask) n = false) by (rewrite Hf; apply Z.bits_0).
    rewrite Z.ldiff_spec in Hb.
    by destruct (Z.testbit f n), (Z.testbit kFlagMask n), (Z.testbit (flagsAndSharedInfo_ b) n). }
  by rewrite Heq.
Qed.

(** The two flags are the two low bits of the word. *)
Lemma has_flag_testbit b i :
  0 <= i < 2 -> has_flag (2 ^ i) b = Z.testbit (flagsAndSharedInfo_ b) i.
Proof.
  intros Hi. unfold has_flag, flags.
  assert (Hm : Z.land (Z.land (flagsAndSharedInfo_ b) kFlagMask) (2 ^ i)
               = Z.land (flagsAndSharedInfo_ b) (2 ^ i)).
  { rewrite <- Z.land_assoc. f_equal.
    assert (i = 0 \/ i = 1) as [->| ->] by lia; reflexivity. }
  rewrite Hm. destruct (Z.testbit (flagsAndSharedInfo_ b) i) eqn:Ht.
  - rewrite bool_decide_eq_false_2; [done|]. intros Hz.
    assert (Hb : Z.testbit (Z.land (flagsAndSharedInfo_ b) (2 ^ i)) i = false)
      by (rewrite Hz; apply Z.bits_0).
    rewrite Z.land_spec, Ht, Z.pow2_bits_true in Hb by lia. done.
  - rewrite bool_decide_eq_true_2; [done|]. apply Z.bits_inj'. intros n Hn.
    rewrite Z.land_spec, Z.bits_0, Z.pow2_bits_eqb by lia.
    destruct (Z.eqb_spec i n) as [<-|]; [by rewrite Ht|apply andb_false_r].
Qed.

Lemma has_free_bit b : has_flag kFlagFreeSharedInfo b = Z.testbit (flagsAndSharedInfo_ b) 0.
Proof. apply (has_flag_testbit b 0). lia. Qed.

Lemma has_shared_bit b : has_flag kFlagMaybeShared b = Z.testbit (flagsAndSharedInfo_ b) 1.
Proof. apply (has_flag_testbit b 1). lia. Qed.
End Word.

(** ** The invariant *)

(** The number of IOBufs that refer to the SharedInfo [s]. *)
Definition refs (P : gmap positive Payload) (s : positive) : nat :=
  mcount (fun pb => sharedInfo pb.2 = Some s) P.

(** [buf_ <= data_], [data_ + length_ <= buf_ + capacity_], in live memory. *)
Definition window (B : gmap positive (list Z)) (b : Payload) : Prop :=
  ablk (data_ b) = ablk (buf_ b) /\ 0 <= length_ b /\ 0 <= capacity_ b <= max_alloc /\
  match ablk (buf_ b) with
  | Some k => exists bs, B !! k = Some bs /\ zlen bs <= max_alloc /\ 0 <= aoff (buf_ b) /\
      aoff (buf_ b) <= aoff (data_ b) /\
      aoff (data_ b) + length_ b <= aoff (buf_ b) + capacity_ b /\
      aoff (buf_ b) + capacity_ b <= zlen bs
  | None => length_ b = 0 /\ aoff (data_ b) = 0 /\ aoff (buf_ b) = 0
  end.

(** How the buffer of [b] and the SharedInfo [i] at [s] were obtained: as one
    external buffer, inside of the HeapFullStorage of a combined IOBuf, or from
    the user of [takeOwnership]. *)
Definition placed (I : gmap positive SharedInfo) (B : gmap positive (list Z))
    (St : gmap positive Z) (b : Payload) (s : positive) (i : SharedInfo) : Prop :=
  (has_flag kFlagFreeSharedInfo b = false /\ buf_ b = Addr (Some s) 0 /\
   (freeFn i = None /\ St !! s = None \/
    freeFn i = Some freeInternalBuf_fn /\ userData i = Zpos s /\
    exists f, St !! s = Some f /\ Z.testbit f 1 = true)) \/
  (has_flag kFlagFreeSharedInfo b = true /\ B !! s = None /\ St !! s = None /\
   exists k, ablk (buf_ b) = Some k /\ I !! k = None /\ St !! k = None /\
     (freeFn i = None /\ aoff (buf_ b) = 0 \/ exists fn, freeFn i = Some (user_fn fn))).

Record wfm (P : gmap positive Payload) (I : gmap positive SharedInfo)
    (B : gmap positive (list Z)) (St : gmap positive Z) : Prop := {
  w_window : forall p b, P !! p = Some b -> window B b;
  w_info : forall p b s, P !! p = Some b -> sharedInfo b = Some s ->
    exists i, I !! s = Some i /\ refcount i = Z.of_nat (refs P s) /\ placed I B St b s i;
  w_flag : forall p b s, P !! p = Some b -> sharedInfo b = Some s ->
    has_flag kFlagMaybeShared b = false -> refs P s = 1%nat;
  w_blk : forall p q b c k, P !! p = Some b -> P !! q = Some c ->
    ablk (buf_ b) = Some k -> ablk (buf_ c) = Some k -> sharedInfo b = sharedInfo c;
  w_shr : forall p q b c s, P !! p = Some b -> P !! q = Some c ->
    sharedInfo b = Some s -> sharedInfo c = Some s -> buf_ b = buf_ c;
  w_user : forall p b k, P !! p = Some b -> sharedInfo b = None -> ablk (buf_ b) = Some k ->
    I !! k = None /\ St !! k = None;
  w_store : forall p f, St !! p = Some f -> f = 1 \/ f = 2 \/ f = 3;
  w_obj : forall p f, St !! p = Some f -> is_Some (P !! p) -> Z.testbit f 0 = true;
  w_cnt : forall s, Z.of_nat (refs P s) < 4294967296 }.

Definition wf (h : Heap) : Prop := wfm (payloads h) (infos h) (blocks h) (storages h).

(** The bytes of one IOBuf and of a list of them. *)
Definition bytes (B : gmap positive (list Z)) (b : Payload) : list Z :=
  match ablk (data_ b) with
  | Some k => slice (aoff (data_ b)) (length_ b) (default [] (B !! k))
  | None => []
  end.

Definition node_bytes (h : Heap) (p : positive) : list Z :=
  match payloads h !! p with Some b => bytes (blocks h) b | None => [] end.

Definition chain_bytes (h : Heap) (l : list positive) : list Z := concat (node_bytes h <$> l).

(** ** Facts about windows and counts *)

Section Facts.
Implicit Types (P : gmap positive Payload) (I : gmap positive SharedInfo)
  (B : gmap positive (list Z)) (St : gmap positive Z) (b c : Payload) (p q s k : positive).

Lemma window_headroom B b : window B b -> headroom b = aoff (data_ b) - aoff (buf_ b).
Proof.
  unfold window, headroom, pdiff, max_alloc. intros (_ & ? & ? & Hm). apply u64_small.
  destruct (ablk (buf_ b)); [destruct Hm as (bs & _ & ?)|]; lia.
Qed.

Lemma window_tailroom B b k :
  window B b -> ablk (buf_ b) = Some k ->
  tailroom b = aoff (buf_ b) + capacity_ b - (aoff (data_ b) + length_ b).
Proof.
  unfold window, tailroom, pdiff, max_alloc. intros (_ & ? & ? & Hm) Hk. rewrite Hk in Hm.
  destruct Hm as (bs & _ & ?). simpl. apply u64_small. lia.
Qed.

Lemma window_bytes_len B b : window B b -> zlen (bytes B b) = length_ b.
Proof.
  unfold window, bytes. intros (Hk & ? & ? & Hm). rewrite Hk.
  destruct (ablk (buf_ b)) as [k|]; [|by destruct Hm as [-> _]].
  destruct Hm as (bs & -> & ?). simpl. apply zlen_slice; lia.
Qed.

Lemma refs_insert_same P p b b' s :
  P !! p = Some b -> sharedInfo b' = sharedInfo b -> refs (<[p:=b']> P) s = refs P s.
Proof.
  intros Hp Hs. unfold refs.
  pose proof (mcount_insert_old (fun pb => sharedInfo pb.2 = Some s) P p b b' Hp) as Hc.
  simpl in Hc. rewrite Hs in Hc. lia.
Qed.

Lemma refs_insert_new P p b s :
  P !! p = None ->
  refs (<[p:=b]> P) s = (refs P s + if decide (sharedInfo b = Some s) then 1 else 0)%nat.
Proof. intros Hp. unfold refs. by rewrite mcount_insert_new. Qed.

Lemma refs_insert_old P p b b' s :
  P !! p = Some b ->
  (refs (<[p:=b']> P) s + (if decide (sharedInfo b = Some s) then 1 else 0) =
   refs P s + (if decide (sharedInfo b' = Some s) then 1 else 0))%nat.
Proof.
  intros Hp. unfold refs.
  exact (mcount_insert_old (fun pb => sharedInfo pb.2 = Some s) P p b b' Hp).
Qed.

Lemma refs_delete P p b s :
  P !! p = Some b ->
  refs P s = (refs (delete p P) s + if decide (sharedInfo b = Some s) then 1 else 0)%nat.
Proof.
  intros Hp. unfold refs. exact (mcount_delete (fun pb => sharedInfo pb.2 = Some s) P p b Hp).
Qed.

Lemma refs_pos P p b s : P !! p = Some b -> sharedInfo b = Some s -> (1 <= refs P s)%nat.
Proof. intros Hp Hs. by apply (mcount_pos (fun pb => sharedInfo pb.2 = Some s) P p b). Qed.

Lemma refs_unique P p q b c s :
  refs P s = 1%nat -> P !! p = Some b -> P !! q = Some c ->
  sharedInfo b = Some s -> sharedInfo c = Some s -> p = q.
Proof.
  intros Hr Hp Hq Hb Hc. destruct (decide (p = q)) as [|Hne]; [done|].
  pose proof (mcount_two (fun pb => sharedInfo pb.2 = Some s) P p b q c Hp Hb Hq Hc Hne) as H2.
  unfold refs in Hr. lia.
Qed.

(** A SharedInfo with several users has one besides [p]. *)
Lemma refs_other P p b s : P !! p = Some b -> sharedInfo b = Some s -> (1 < refs P s)%nat ->
  exists q c, q <> p /\ P !! q = Some c /\ sharedInfo c = Some s.
Proof.
  intros Hp Hs Hr. rewrite (refs_delete P p b s Hp), decide_True in Hr by done. unfold refs in Hr.
  destruct (mcount_witness (fun pb => sharedInfo pb.2 = Some s) (delete p P)) as (q & c & Hq & Hc); [lia|].
  apply lookup_delete_Some in Hq as [Hne Hq]. eauto 10.
Qed.

Lemma refs_zero P s : (forall p b, P !! p = Some b -> sharedInfo b <> Some s) -> refs P s = 0%nat.
Proof. intros H. apply mcount_zero. intros k v Hk. by apply (H k v). Qed.
End Facts.
