(* ===== verification/IOBufWf.v ===== *)
(** * io/IOBuf: preservation of the memory invariant

    One lemma per elementary change of the memory: an object appears or
    disappears, its window moves, a buffer is attached, shared, moved or
    released. *)

From stdpp Require Import base list gmap strings.
From S2P Require Import Prelude IOBufMem IOBuf IOBufChain IOBufInv.

(** Splits the hypotheses about lookups in an updated map. *)
Ltac lookups :=
  repeat match goal with
  | H : <[?p:=_]> _ !! ?q = Some _ |- _ =>
      rewrite lookup_insert in H; destruct (decide (p = q)) as [?|?]; simplify_eq
  | H : delete ?p _ !! ?q = Some _ |- _ =>
      rewrite lookup_delete in H; destruct (decide (p = q)) as [?|?]; simplify_eq
  end.

Section Transitions.
Implicit Types (P : gmap positive Payload) (I : gmap positive SharedInfo)
  (B : gmap positive (list Z)) (St : gmap positive Z) (b c : Payload) (p q s k : positive).

Lemma window_null B : window B null_payload.
Proof. unfold window, max_alloc. simpl. split_and!; done || lia. Qed.

Lemma placed_mono I I' B B' St St' b b' s i i' :
  placed I B St b s i ->
  (forall k, ablk (buf_ b) = Some k -> I !! k = None -> I' !! k = None) ->
  (B !! s = None -> B' !! s = None) -> (St !! s = None -> St' !! s = None) ->
  (forall k, ablk (buf_ b) = Some k -> St !! k = None -> St' !! k = None) ->
  (forall f, St !! s = Some f -> Z.testbit f 1 = true ->
     exists f', St' !! s = Some f' /\ Z.testbit f' 1 = true) ->
  buf_ b' = buf_ b -> has_flag kFlagFreeSharedInfo b' = has_flag kFlagFreeSharedInfo b ->
  freeFn i' = freeFn i -> userData i' = userData i -> placed I' B' St' b' s i'.
Proof.
  intros Hpl HI HB HS0 HS HS1 Hbuf Hfree Hfn Hud. unfold placed in *. rewrite Hbuf, Hfree, Hfn, Hud.
  destruct Hpl as [(? & ? & Hc)|(? & ? & ? & k & ? & ? & ? & Hc)]; [left|right].
  - split_and!; [done..|]. destruct Hc as [[??]|(? & ? & f & Hf & Hb)]; [left; auto|right].
    split_and!; [done..|]. eauto.
  - split_and!; [by auto..|]. exists k. split_and!; auto.
Qed.

(** An object without a buffer appears. *)
Lemma wfm_add_null P I B St p :
  P !! p = None -> (forall f, St !! p = Some f -> Z.testbit f 0 = true) ->
  wfm P I B St -> wfm (<[p:=null_payload]> P) I B St.
Proof.
  intros Hp Hst [Wwin Winfo Wflag Wblk Wshr Wuser Wst Wobj Wcnt].
  assert (Hr : forall s, refs (<[p:=null_payload]> P) s = refs P s).
  { intros s. rewrite refs_insert_new by done. rewrite decide_False by done. lia. }
  split.
  - intros q b Hq. lookups; eauto using window_null.
  - intros q b s Hq Hs. lookups. rewrite Hr. eauto.
  - intros q b s Hq Hs Hf. lookups. rewrite Hr. eauto.
  - intros q r b c k Hq Hr' Hb Hc. lookups; eauto.
  - intros q r b c s Hq Hr' Hb Hc. lookups; eauto.
  - intros q b k Hq Hs Hk. lookups. eauto.
  - done.
  - intros q f Hf Hq. rewrite lookup_insert in Hq.
    destruct (decide (p = q)) as [->|]; eauto.
  - intros s. rewrite Hr. auto.
Qed.

(** An object that owns no reference disappears. *)
Lemma wfm_delete P I B St p b :
  P !! p = Some b -> sharedInfo b = None -> wfm P I B St -> wfm (delete p P) I B St.
Proof.
  intros Hp Hs [Wwin Winfo Wflag Wblk Wshr Wuser Wst Wobj Wcnt].
  assert (Hr : forall s, refs (delete p P) s = refs P s).
  { intros s. rewrite (refs_delete P p b s Hp), decide_False by congruence. lia. }
  split.
  - intros q c Hq. lookups; eauto.
  - intros q c s Hq Hsc. lookups. rewrite Hr. eauto.
  - intros q c s Hq Hsc Hf. lookups. rewrite Hr. eauto.
  - intros q r c d k Hq Hr' Hb Hc. lookups; eauto.
  - intros q r c d s Hq Hr' Hb Hc. lookups; eauto.
  - intros q c k Hq Hsc Hk. lookups. eauto.
  - done.
  - intros q f Hf [c Hq]. lookups. eauto.
  - intros s. rewrite Hr. auto.
Qed.

(** The window of an object moves in its buffer, or its [kFlagMaybeShared] is
    set, or is cleared by the only user. *)
Lemma wfm_replace P I B St p b b' :
  P !! p = Some b -> sharedInfo b' = sharedInfo b -> buf_ b' = buf_ b ->
  has_flag kFlagFreeSharedInfo b' = has_flag kFlagFreeSharedInfo b ->
  (forall s, sharedInfo b' = Some s -> has_flag kFlagMaybeShared b' = false -> refs P s = 1%nat) ->
  window B b' -> wfm P I B St -> wfm (<[p:=b']> P) I B St.
Proof.
  intros Hp Hsi Hbuf Hfree Hflag Hwin [Wwin Winfo Wflag Wblk Wshr Wuser Wst Wobj Wcnt].
  assert (Hr : forall s, refs (<[p:=b']> P) s = refs P s) by (intros; by eapply refs_insert_same).
  split.
  - intros q c Hq. lookups; eauto.
  - intros q c s Hq Hs. rewrite Hr. lookups; [|eauto]. rewrite Hsi in Hs.
    destruct (Winfo _ _ _ Hp Hs) as (i & Hi & Hrc & Hpl). exists i. split_and!; [done..|].
    eapply placed_mono; eauto.
  - intros q c s Hq Hs Hf. rewrite Hr. lookups; eauto.
  - intros q r c d k Hq Hr' Hc Hd. lookups; rewrite ?Hsi, ?Hbuf in *; eauto.
  - intros q r c d s Hq Hr' Hc Hd. lookups; rewrite ?Hsi, ?Hbuf in *; eauto.
  - intros q c k Hq Hs Hk. lookups; rewrite ?Hsi, ?Hbuf in *; eauto.
  - done.
  - intros q f Hf Hq. eapply Wobj; [done|]. rewrite lookup_insert in Hq.
    destruct (decide (p = q)) as [->|]; eauto.
  - intros s. rewrite Hr. auto.
Qed.

(** Bytes are written. *)
Lemma wfm_bytes P I B St k bs bs' :
  B !! k = Some bs -> zlen bs' = zlen bs -> wfm P I B St -> wfm P I (<[k:=bs']> B) St.
Proof.
  intros Hk Hlen [Wwin Winfo Wflag Wblk Wshr Wuser Wst Wobj Wcnt].
  assert (Hnone : forall s, B !! s = None -> <[k:=bs']> B !! s = None).
  { intros s Hs. rewrite lookup_insert_ne; [done|]. congruence. }
  split; try done.
  - intros p b Hp. destruct (Wwin _ _ Hp) as (? & ? & ? & Hm). do 3 (split; [done|]).
    destruct (ablk (buf_ b)) as [k'|]; [|done]. destruct Hm as (bs0 & Hb & ? & ?).
    rewrite lookup_insert. case_decide; simplify_eq; [|eauto].
    exists bs'. rewrite Hlen. eauto.
  - intros p b s Hp Hs. destruct (Winfo _ _ _ Hp Hs) as (i & ? & ? & Hpl).
    exists i. split_and!; [done..|]. eapply placed_mono; eauto.
Qed.

(** The external sharing mark of a SharedInfo changes. *)
Lemma wfm_mark P I B St s i e :
  I !! s = Some i -> wfm P I B St -> wfm P (<[s:=with_externallyShared e i]> I) B St.
Proof.
  intros Hi [Wwin Winfo Wflag Wblk Wshr Wuser Wst Wobj Wcnt].
  assert (Hnone : forall k, I !! k = None -> <[s:=with_externallyShared e i]> I !! k = None).
  { intros k Hk. rewrite lookup_insert_ne; [done|]. congruence. }
  split; try done.
  - intros p b s' Hp Hs. destruct (Winfo _ _ _ Hp Hs) as (i' & Hi' & ? & Hpl).
    rewrite lookup_insert. case_decide; simplify_eq.
    + exists (with_externallyShared e i). split_and!; [done..|].
      eapply placed_mono; eauto.
    + exists i'. split_and!; [done..|]. eapply placed_mono; eauto.
  - intros p b k Hp Hs Hk. destruct (Wuser _ _ _ Hp Hs Hk). auto.
Qed.

(** A fresh buffer, with its SharedInfo in the same allocation [s], is
    attached to an object that has none. *)
Lemma wfm_attach P I B St St' p b s i bs :
  I !! s = None -> B !! s = None -> (forall k, k <> s -> St' !! k = St !! k) ->
  (forall f, St' !! s = Some f -> f = 3) ->
  (forall c, P !! p = Some c -> sharedInfo c = None) ->
  (forall f, St' !! p = Some f -> Z.testbit f 0 = true) ->
  refcount i = 1 -> sharedInfo b = Some s -> buf_ b = Addr (Some s) 0 ->
  placed (<[s:=i]> I) (<[s:=bs]> B) St' b s i ->
  window (<[s:=bs]> B) b -> wfm P I B St ->
  wfm (<[p:=b]> P) (<[s:=i]> I) (<[s:=bs]> B) St'.
Proof.
  intros HI HB HSt HSts Hp Hpst Hrc Hs Hbuf Hpl Hwin [Wwin Winfo Wflag Wblk Wshr Wuser Wst Wobj Wcnt].
  assert (Hnos : forall q c, P !! q = Some c -> sharedInfo c <> Some s).
  { intros q c Hq Hc. destruct (Winfo _ _ _ Hq Hc) as (? & ? & _). congruence. }
  assert (Hnob : forall q c, P !! q = Some c -> ablk (buf_ c) <> Some s).
  { intros q c Hq Hc. destruct (Wwin _ _ Hq) as (_ & _ & _ & Hm). rewrite Hc in Hm.
    destruct Hm as (? & ? & _). congruence. }
  assert (Hr : forall t, refs (<[p:=b]> P) t = (refs P t + if decide (t = s) then 1 else 0)%nat).
  { intros t. destruct (P !! p) as [c|] eqn:Hc.
    - pose proof (refs_insert_old P p c b t Hc) as He. rewrite (Hp c eq_refl), Hs in He.
      repeat case_decide; simplify_eq; lia.
    - rewrite refs_insert_new by done. rewrite Hs. repeat case_decide; simplify_eq; lia. }
  assert (Hr0 : refs P s = 0%nat) by (apply refs_zero; eauto).
  split.
  - intros q c Hq. lookups; [done|]. destruct (Wwin _ _ Hq) as (? & ? & ? & Hm).
    do 3 (split; [done|]). destruct (ablk (buf_ c)) as [k|] eqn:Hk; [|done].
    assert (k <> s) by (intros ->; by apply (Hnob q c)). by rewrite lookup_insert_ne.
  - intros q c t Hq Ht. rewrite Hr. lookups.
    + exists i. rewrite lookup_insert_eq, decide_True by done. rewrite Hr0. done.
    + destruct (Winfo _ _ _ Hq Ht) as (j & Hj & Hjr & Hjp).
      assert (t <> s) by congruence. exists j.
      rewrite lookup_insert_ne, decide_False, Nat.add_0_r by done. split_and!; [done..|].
      eapply placed_mono; [done|..]; rewrite ?HSt by done; try done.
      * intros k Hk Hn. rewrite lookup_insert_ne; [done|]. intros ->. by apply (Hnob q c).
      * intros Hn. by rewrite lookup_insert_ne.
      * intros k Hk Hn. rewrite HSt; [done|]. intros ->. by apply (Hnob q c).
      * eauto.
  - intros q c t Hq Ht Hf. rewrite Hr. lookups.
    + rewrite decide_True by done. by rewrite Hr0.
    + rewrite decide_False by (intros ->; by apply (Hnos q c)). rewrite Nat.add_0_r. eauto.
  - intros q r c d k Hq Hr' Hc Hd. lookups; try done; try (by eauto);
      rewrite Hbuf in *; simplify_eq/=; exfalso; eapply Hnob; eassumption.
  - intros q r c d t Hq Hr' Hc Hd. lookups; try done; try (by eauto);
      exfalso; eapply Hnos; eassumption.
  - intros q c k Hq Hsc Hk. lookups.
    assert (k <> s) by (intros ->; by apply (Hnob q c)).
    rewrite lookup_insert_ne, HSt by done. eauto.
  - intros q f Hf. destruct (decide (q = s)) as [->|]; [right; right; auto|].
    rewrite HSt in Hf by done. eauto.
  - intros q f Hf Hq. rewrite lookup_insert in Hq. destruct (decide (p = q)) as [->|]; [eauto|].
    destruct (decide (q = s)) as [->|].
    + by rewrite (HSts f Hf).
    + rewrite HSt in Hf by done. eauto.
  - intros t. rewrite Hr. case_decide; subst; [rewrite Hr0; lia|]. rewrite Nat.add_0_r. auto.
Qed.

(** An object that has no reference becomes a second user of the buffer of [q]. *)
Lemma wfm_share P I B St p q b s i :
  P !! q = Some b -> sharedInfo b = Some s -> has_flag kFlagMaybeShared b = true ->
  I !! s = Some i -> (forall c, P !! p = Some c -> sharedInfo c = None) ->
  (forall f, St !! p = Some f -> Z.testbit f 0 = true) ->
  Z.of_nat (refs P s) + 1 < 4294967296 -> wfm P I B St ->
  wfm (<[p:=b]> P) (<[s:=with_refcount (refcount i + 1) i]> I) B St.
Proof.
  intros Hq Hs Hm Hi Hp Hpst Hlim [Wwin Winfo Wflag Wblk Wshr Wuser Wst Wobj Wcnt].
  assert (Hpq : p <> q) by (intros ->; rewrite (Hp b Hq) in Hs; done).
  assert (Hr : forall t, refs (<[p:=b]> P) t = (refs P t + if decide (t = s) then 1 else 0)%nat).
  { intros t. destruct (P !! p) as [c|] eqn:Hc.
    - pose proof (refs_insert_old P p c b t Hc) as He. rewrite (Hp c eq_refl), Hs in He.
      repeat case_decide; simplify_eq; lia.
    - rewrite refs_insert_new by done. rewrite Hs. repeat case_decide; simplify_eq; lia. }
  assert (HIk : forall k, I !! k = None -> <[s:=with_refcount (refcount i + 1) i]> I !! k = None).
  { intros k Hk. rewrite lookup_insert_ne; [done|congruence]. }
  assert (Hinfo : forall r c t, P !! r = Some c -> sharedInfo c = Some t ->
    exists j, <[s:=with_refcount (refcount i + 1) i]> I !! t = Some j /\
      refcount j = Z.of_nat (refs (<[p:=b]> P) t) /\
      placed (<[s:=with_refcount (refcount i + 1) i]> I) B St c t j).
  { intros r c t Hrc Ht. rewrite Hr. destruct (Winfo _ _ _ Hrc Ht) as (j & Hj & Hjr & Hjp).
    destruct (decide (t = s)) as [->|].
    - simplify_eq. exists (with_refcount (refcount i + 1) i). rewrite lookup_insert_eq.
      split_and!; [done|simpl; lia|]. eapply placed_mono; eauto.
    - exists j. rewrite lookup_insert_ne, Nat.add_0_r by done. split_and!; [done..|].
      eapply placed_mono; eauto. }
  split.
  - intros r c Hr'. lookups; eauto.
  - intros r c t Hr' Ht. lookups; eauto.
  - intros r c t Hr' Ht Hf. lookups; [congruence|]. rewrite Hr, decide_False; [rewrite Nat.add_0_r; eauto|].
    intros ->. pose proof (Wflag _ _ _ Hr' Ht Hf) as H1.
    assert (r = q) as -> by (by eapply (refs_unique P r q c b s)). congruence.
  - intros r t c d k Hr' Ht Hc Hd. lookups; eauto.
  - intros r t c d k Hr' Ht Hc Hd. lookups; eauto.
  - intros r c k Hr' Hsc Hk. lookups; try congruence. destruct (Wuser _ _ _ Hr' Hsc Hk). auto.
  - done.
  - intros r f Hf Hr'. rewrite lookup_insert in Hr'. destruct (decide (p = r)) as [->|]; eauto.
  - intros t. rewrite Hr. case_decide; subst; [lia|]. rewrite Nat.add_0_r. auto.
Qed.

(** A second IOBuf around memory of the user. *)
Lemma wfm_wrap P I B St p b :
  sharedInfo b = None -> window B b ->
  (forall k, ablk (buf_ b) = Some k -> I !! k = None /\ St !! k = None /\
     forall q c, P !! q = Some c -> ablk (buf_ c) = Some k -> sharedInfo c = None) ->
  (forall c, P !! p = Some c -> sharedInfo c = None) ->
  (forall f, St !! p = Some f -> Z.testbit f 0 = true) -> wfm P I B St ->
  wfm (<[p:=b]> P) I B St.
Proof.
  intros Hs Hwin Huser Hp Hpst [Wwin Winfo Wflag Wblk Wshr Wuser Wst Wobj Wcnt].
  assert (Hr : forall t, refs (<[p:=b]> P) t = refs P t).
  { intros t. destruct (P !! p) as [c|] eqn:Hc.
    - apply (refs_insert_same P p c); [done|]. by rewrite (Hp c).
    - rewrite refs_insert_new by done. rewrite decide_False by congruence. lia. }
  split.
  - intros q c Hq. lookups; eauto.
  - intros q c t Hq Ht. rewrite Hr. lookups; try congruence; eauto.
  - intros q c t Hq Ht Hf. rewrite Hr. lookups; try congruence; eauto.
  - intros q r c d k Hq Hr' Hc Hd. lookups; try done; try (by eauto);
      destruct (Huser k) as (_ & _ & Hu); try done;
      rewrite Hs; first [by eapply Hu|symmetry; by eapply Hu].
  - intros q r c d t Hq Hr' Hc Hd. lookups; try congruence; eauto.
  - intros q c k Hq Hsc Hk. lookups; [|eauto]. destruct (Huser _ Hk) as (? & ? & _). done.
  - done.
  - intros q f Hf Hq. rewrite lookup_insert in Hq. destruct (decide (p = q)) as [->|]; eauto.
  - intros t. rewrite Hr. auto.
Qed.

(** The buffer of [o] goes to [p], which has none. *)
Lemma wfm_move P I B St p o b c :
  P !! o = Some b -> P !! p = Some c -> p <> o -> sharedInfo c = None -> wfm P I B St ->
  wfm (<[o:=null_payload]> (<[p:=b]> P)) I B St.
Proof.
  intros Ho Hp Hne Hc [Wwin Winfo Wflag Wblk Wshr Wuser Wst Wobj Wcnt].
  assert (Hr : forall t, refs (<[o:=null_payload]> (<[p:=b]> P)) t = refs P t).
  { intros t. pose proof (refs_insert_old P p c b t Hp) as H1.
    assert (Ho' : <[p:=b]> P !! o = Some b) by by rewrite lookup_insert_ne.
    pose proof (refs_insert_old _ o b null_payload t Ho') as H2. rewrite Hc in H1.
    change (sharedInfo null_payload) with (@None positive) in H2.
    repeat case_decide; try done; lia. }
  split.
  - intros q d Hq. lookups; eauto using window_null.
  - intros q d t Hq Ht. rewrite Hr. lookups; try done; eauto.
  - intros q d t Hq Ht Hf. rewrite Hr. lookups; try done; eauto.
  - intros q r d e k Hq Hr' Hd He. lookups; try done; eauto.
  - intros q r d e t Hq Hr' Hd He. lookups; try done; eauto.
  - intros q d k Hq Hs Hk. lookups; try done; eauto.
  - done.
  - intros q f Hf Hq. eapply Wobj; [done|]. rewrite !lookup_insert in Hq.
    repeat case_decide; subst; eauto.
  - intros t. rewrite Hr. auto.
Qed.

(** A reference is given up; the count may reach 0. *)
Lemma wfm_unref P I B St p b s i :
  P !! p = Some b -> sharedInfo b = Some s -> I !! s = Some i -> wfm P I B St ->
  wfm (<[p:=null_payload]> P) (<[s:=with_refcount (refcount i - 1) i]> I) B St.
Proof.
  intros Hp Hs Hi [Wwin Winfo Wflag Wblk Wshr Wuser Wst Wobj Wcnt].
  assert (Hr : forall t, refs P t =
    (refs (<[p:=null_payload]> P) t + if decide (t = s) then 1 else 0)%nat).
  { intros t. pose proof (refs_insert_old P p b null_payload t Hp) as H1. rewrite Hs in H1.
    change (sharedInfo null_payload) with (@None positive) in H1.
    repeat case_decide; simplify_eq; lia. }
  assert (HIk : forall k, I !! k = None -> <[s:=with_refcount (refcount i - 1) i]> I !! k = None).
  { intros k Hk. rewrite lookup_insert_ne; [done|congruence]. }
  split.
  - intros q c Hq. lookups; eauto using window_null.
  - intros q c t Hq Ht. lookups. specialize (Hr t).
    destruct (Winfo _ _ _ Hq Ht) as (j & Hj & Hjr & Hjp).
    rewrite lookup_insert. destruct (decide (s = t)) as [->|].
    + rewrite decide_True in Hr by done. simplify_eq. eexists; split_and!; [done|simpl; lia|].
      eapply placed_mono; eauto.
    + rewrite decide_False in Hr by done. exists j. split_and!; [done|lia|].
      eapply placed_mono; eauto.
  - intros q c t Hq Ht Hf. lookups. specialize (Hr t).
    pose proof (Wflag _ _ _ Hq Ht Hf) as H1. case_decide; [|lia]. subst t.
    by destruct (refs_unique P p q b c s H1).
  - intros q r c d k Hq Hr' Hc Hd. lookups; try done; eauto.
  - intros q r c d k Hq Hr' Hc Hd. lookups; try done; eauto.
  - intros q c k Hq Hsc Hk. lookups. destruct (Wuser _ _ _ Hq Hsc Hk). auto.
  - done.
  - intros q f Hf Hq. eapply Wobj; [done|]. rewrite lookup_insert in Hq.
    destruct (decide (p = q)) as [->|]; eauto.
  - intros t. specialize (Wcnt t). specialize (Hr t). lia.
Qed.

(** Memory that no object uses any more is released. *)
Lemma wfm_shrink P I B St I' B' St' :
  wfm P I B St ->
  (forall p b s, P !! p = Some b -> sharedInfo b = Some s ->
     I' !! s = I !! s /\ (B !! s = None -> B' !! s = None) /\
     (St !! s = None -> St' !! s = None) /\
     (forall f, St !! s = Some f -> Z.testbit f 1 = true ->
        exists f', St' !! s = Some f' /\ Z.testbit f' 1 = true)) ->
  (forall p b k, P !! p = Some b -> ablk (buf_ b) = Some k ->
     B' !! k = B !! k /\ (I !! k = None -> I' !! k = None) /\ (St !! k = None -> St' !! k = None)) ->
  (forall p f, St' !! p = Some f -> f = 1 \/ f = 2 \/ f = 3) ->
  (forall p f, St' !! p = Some f -> is_Some (P !! p) -> Z.testbit f 0 = true) ->
  wfm P I' B' St'.
Proof.
  intros [Wwin Winfo Wflag Wblk Wshr Wuser Wst Wobj Wcnt] HI HB H1 H2. split; try done.
  - intros p b Hp. destruct (Wwin _ _ Hp) as (? & ? & ? & Hm). do 3 (split; [done|]).
    destruct (ablk (buf_ b)) as [k|] eqn:Hk; [|done].
    destruct (HB _ _ _ Hp Hk) as (-> & _). done.
  - intros p b s Hp Hs. destruct (Winfo _ _ _ Hp Hs) as (i & Hi & Hr & Hpl).
    destruct (HI _ _ _ Hp Hs) as (HIs & HBs & HSs & HSs1). exists i. rewrite HIs. split_and!; [done..|].
    eapply placed_mono; [done|..]; try done.
    + intros k Hk. by destruct (HB _ _ _ Hp Hk) as (_ & ? & _).
    + intros k Hk. by destruct (HB _ _ _ Hp Hk) as (_ & _ & ?).
  - intros p b k Hp Hs Hk. destruct (Wuser _ _ _ Hp Hs Hk).
    destruct (HB _ _ _ Hp Hk) as (_ & ? & ?). auto.
Qed.
End Transitions.
