(* ===== verification/IOBufPrim.v ===== *)
(** * io/IOBuf: rules for the primitive accesses

    Weakest-precondition rules for the loads, stores and allocations of
    [IOBufMem], and the frame relation [keeps]: what an operation leaves alone. *)

From stdpp Require Import base list gmap strings.
From S2P Require Import Prelude IOBufMem IOBuf IOBufChain IOBufInv IOBufWf.

(** The object was created by [operator new] and may be deleted. *)
Definition on_heap (h : Heap) (p : positive) : Prop :=
  exists f, storages h !! p = Some f /\ Z.testbit f 0 = true.

(** The allocator refuses some request. *)
Definition refused (h : Heap) : Prop := exists n, oracle h n = false.

(** The objects outside of [S] keep their payload, their bytes and their
    storage (on the heap or not); those outside of [L] keep their links. *)
Record keeps (S L : list positive) (h h' : Heap) : Prop := {
  k_pay : forall q b, q ∉ S -> payloads h !! q = Some b -> payloads h' !! q = Some b;
  k_bytes : forall q, q ∉ S -> is_Some (payloads h !! q) -> node_bytes h' q = node_bytes h q;
  k_heap : forall q, q ∉ S -> is_Some (payloads h !! q) -> on_heap h q -> on_heap h' q;
  k_stack : forall q, q ∉ S -> is_Some (payloads h !! q) -> on_heap h' q -> on_heap h q;
  k_nxt : forall q, q ∉ L -> is_Some (nxt h q) -> nxt h' q = nxt h q;
  k_prv : forall q, q ∉ L -> is_Some (prv h q) -> prv h' q = prv h q;
  k_oracle : oracle h' = oracle h }.

Definition hstore (p : positive) (f : Payload -> Payload) (h : Heap) : Heap :=
  on_bufs (alter (set_body f) p) h.

Section Keeps.
Implicit Types (h : Heap) (S L : list positive) (p q : positive).

Lemma keeps_refl S L h : keeps S L h h.
Proof. by split. Qed.

Lemma keeps_weaken S S' L L' h h' :
  (forall p, p ∈ S -> p ∈ S') -> (forall p, p ∈ L -> p ∈ L') -> keeps S L h h' -> keeps S' L' h h'.
Proof. intros HS HL []. split; eauto. Qed.

Lemma keeps_trans S L h1 h2 h3 : keeps S L h1 h2 -> keeps S L h2 h3 -> keeps S L h1 h3.
Proof.
  intros [A1 A2 A3 A3' A4 A5 A6] [B1 B2 B3 B3' B4 B5 B6].
  assert (Hs : forall q, q ∉ S -> is_Some (payloads h1 !! q) -> is_Some (payloads h2 !! q)).
  { intros q Hq [b Hb]. eauto. }
  split.
  - eauto.
  - intros q Hq Hb. rewrite B2, A2; eauto.
  - eauto.
  - eauto.
  - intros q Hq Hb. rewrite B4, A4; rewrite ?A4; eauto.
  - intros q Hq Hb. rewrite B5, A5; rewrite ?A5; eauto.
  - congruence.
Qed.

Lemma keeps_relinked L h h' : relinked L h h' -> keeps [] L h h'.
Proof.
  intros [R1 R2 R3 R4 R5 R6 R7 R8 R9]. split; try by eauto.
  - intros q b Hq Hb. by rewrite R1.
  - intros q Hq Hb. unfold node_bytes. by rewrite R1, R3.
  - intros q Hq Hb (f & Hf & Ht). exists f. by rewrite R4.
  - intros q Hq Hb (f & Hf & Ht). exists f. by rewrite <- R4.
Qed.

Lemma wf_relinked L h h' : relinked L h h' -> wf h -> wf h'.
Proof. intros [R1 R2 R3 R4 _ _ _ _ _]. unfold wf. by rewrite R1, R2, R3, R4. Qed.

Lemma chain_payload h l p : chain h l -> p ∈ l -> exists b, payloads h !! p = Some b.
Proof.
  intros Hc Hp. destruct (chain_bufs _ _ _ Hc Hp) as [b Hb]. exists (body b).
  unfold payloads. by rewrite lookup_fmap, Hb.
Qed.

Lemma keeps_chain S L h h' l : keeps S L h h' -> l ## L -> chain h l -> chain h' l.
Proof.
  intros Hk Hd Hc. eapply chain_frame; [| |exact Hc]; intros p Hp.
  - apply (k_nxt _ _ _ _ Hk); [intros Hin; by apply (Hd p)|]. by eapply chain_alive.
  - apply (k_prv _ _ _ _ Hk); [intros Hin; by apply (Hd p)|].
    destruct (chain_bufs _ _ _ Hc Hp) as [b Hb]. unfold prv. rewrite Hb. eauto.
Qed.

Lemma chain_bytes_ext h h' l :
  (forall p, p ∈ l -> node_bytes h' p = node_bytes h p) -> chain_bytes h' l = chain_bytes h l.
Proof.
  intros Heq. unfold chain_bytes. f_equal. induction l as [|p l IH]; [done|].
  simpl. f_equal; [apply Heq; by left|]. apply IH. intros q Hq. apply Heq. by right.
Qed.

Lemma keeps_chain_bytes S L h h' l :
  keeps S L h h' -> l ## S -> chain h l -> chain_bytes h' l = chain_bytes h l.
Proof.
  intros Hk Hd Hc. apply chain_bytes_ext. intros p Hp.
  destruct (chain_payload _ _ _ Hc Hp) as [b Hb].
  apply (k_bytes _ _ _ _ Hk); [|eauto]. intros Hin. by apply (Hd p).
Qed.

Lemma chain_bytes_app h l l' : chain_bytes h (l ++ l') = chain_bytes h l ++ chain_bytes h l'.
Proof. unfold chain_bytes. by rewrite fmap_app, concat_app. Qed.

Lemma chain_bytes_cons h p l : chain_bytes h (p :: l) = node_bytes h p ++ chain_bytes h l.
Proof. done. Qed.

Lemma chain_bytes_nil h : chain_bytes h [] = [].
Proof. done. Qed.
End Keeps.

(** ** Loads and stores of members *)

Section Members.
Implicit Types (h : Heap) (p q : positive) (b : Payload).

Lemma wp_lift {S A} (m : Mem A) h (s : S) Q E :
  wp m h (fun a h' => Q a (h', s)) (fun e h' => E e (h', s)) -> wp (lift m) (h, s) Q E.
Proof. unfold wp, lift. by destruct (m h). Qed.

Lemma wp_load h p b Q E : payloads h !! p = Some b -> Q b h -> wp (load p) h Q E.
Proof.
  unfold payloads. rewrite lookup_fmap. intros Hp HQ. destruct (bufs h !! p) eqn:Hb; simplify_eq/=.
  apply wp_bind. by eapply wp_deref.
Qed.

Lemma wp_store h p b f Q E :
  payloads h !! p = Some b -> Q tt (hstore p f h) -> wp (store p f) h Q E.
Proof.
  unfold payloads. rewrite lookup_fmap. intros Hp HQ. destruct (bufs h !! p) eqn:Hb; simplify_eq/=.
  by eapply wp_update.
Qed.

Lemma payloads_hstore h p b f :
  payloads h !! p = Some b -> payloads (hstore p f h) = <[p:=f b]> (payloads h).
Proof.
  unfold payloads. rewrite lookup_fmap. intros Hp. apply map_eq. intros i.
  unfold hstore. simpl. rewrite lookup_fmap.
  destruct (decide (i = p)) as [->|].
  - rewrite lookup_alter_eq, lookup_insert_eq. destruct (bufs h !! p); simplify_eq/=. done.
  - rewrite lookup_alter_ne, lookup_insert_ne, lookup_fmap by done. done.
Qed.

Lemma nxt_hstore h p f q : nxt (hstore p f h) q = nxt h q.
Proof.
  unfold nxt, hstore. simpl. destruct (decide (q = p)) as [->|].
  - rewrite lookup_alter_eq. by destruct (bufs h !! p).
  - by rewrite lookup_alter_ne.
Qed.

Lemma prv_hstore h p f q : prv (hstore p f h) q = prv h q.
Proof.
  unfold prv, hstore. simpl. destruct (decide (q = p)) as [->|].
  - rewrite lookup_alter_eq. by destruct (bufs h !! p).
  - by rewrite lookup_alter_ne.
Qed.

Lemma chain_hstore h p f l : chain h l -> chain (hstore p f h) l.
Proof. apply chain_frame; intros; [apply nxt_hstore|apply prv_hstore]. Qed.

Lemma keeps_hstore h p b f : payloads h !! p = Some b -> keeps [p] [] h (hstore p f h).
Proof.
  intros Hp. split; try done.
  - intros q c Hq Hc. rewrite (payloads_hstore h p b f Hp), lookup_insert_ne; [done|].
    intros ->. apply Hq. by left.
  - intros q Hq _. unfold node_bytes. rewrite (payloads_hstore h p b f Hp), lookup_insert_ne; [done|].
    intros ->. apply Hq. by left.
  - intros. apply nxt_hstore.
  - intros. apply prv_hstore.
Qed.

(** Two stores to the same object. *)
Lemma hstore_hstore h p f g : hstore p g (hstore p f h) = hstore p (fun b => g (f b)) h.
Proof.
  unfold hstore, on_bufs. simpl. f_equal. apply map_eq. intros i.
  destruct (decide (i = p)) as [->|].
  - rewrite !lookup_alter_eq. by destruct (bufs h !! p).
  - by rewrite !lookup_alter_ne.
Qed.

Lemma wp_deref_info h s i Q E : infos h !! s = Some i -> Q i h -> wp (deref_info s) h Q E.
Proof. intros Hp HQ. apply wp_bind, wp_get. by eapply wp_of_option. Qed.

Lemma wp_update_info h s i f Q E :
  infos h !! s = Some i -> Q tt (on_infos (insert s (f i)) h) -> wp (update_info s f) h Q E.
Proof. intros Hp HQ. apply wp_bind. eapply wp_deref_info; [done|]. by apply wp_modify. Qed.
End Members.

(** ** Bytes *)

Section Bytes.
Implicit Types (h : Heap) (p q k : positive) (b : Payload) (a : addr).

Lemma on_blocks_id h k bs : blocks h !! k = Some bs -> on_blocks (insert k bs) h = h.
Proof. intros Hk. destruct h. unfold on_blocks. simpl in *. by rewrite insert_id. Qed.

Lemma wp_load_bytes h a n k bs Q E :
  ablk a = Some k -> blocks h !! k = Some bs -> 0 <= aoff a -> 0 <= n -> aoff a + n <= zlen bs ->
  Q (slice (aoff a) n bs) h -> wp (load_bytes a n) h Q E.
Proof.
  intros Ha Hk H1 H2 H3 HQ. unfold load_bytes. case_decide as Hn; [subst n; by apply wp_ret|].
  apply wp_bind. eapply wp_of_option; [done|]. apply wp_bind, wp_get.
  apply wp_bind. eapply wp_of_option; [done|].
  apply wp_bind, wp_assert; [by apply bool_decide_eq_true|]. by apply wp_ret.
Qed.

Lemma wp_load_nothing h a Q E : Q [] h -> wp (load_bytes a 0) h Q E.
Proof. done. Qed.

Lemma wp_store_bytes h a bs k old (Q : unit -> Heap -> Prop) E :
  ablk a = Some k -> blocks h !! k = Some old -> 0 <= aoff a -> aoff a + zlen bs <= zlen old ->
  Q tt (on_blocks (insert k (overwrite (aoff a) bs old)) h) -> wp (store_bytes a bs) h Q E.
Proof.
  intros Ha Hk H1 H2 HQ. unfold store_bytes. case_decide as Hn.
  - apply wp_ret. destruct bs; [|done]. by rewrite overwrite_nil, on_blocks_id in HQ.
  - apply wp_bind. eapply wp_of_option; [done|]. apply wp_bind, wp_get.
    apply wp_bind. eapply wp_of_option; [done|].
    apply wp_bind, wp_assert; [by apply bool_decide_eq_true|]. by apply wp_modify.
Qed.

(** The bytes of a window. *)
Lemma wp_load_window h b Q E :
  window (blocks h) b -> Q (bytes (blocks h) b) h -> wp (load_bytes (data_ b) (length_ b)) h Q E.
Proof.
  intros (Hk & ? & ? & Hm) HQ. unfold bytes in HQ. rewrite Hk in HQ.
  destruct (ablk (buf_ b)) as [k|] eqn:Hb.
  - destruct Hm as (bs & Hbs & ?). rewrite Hbs in HQ. eapply wp_load_bytes; eauto; lia.
  - destruct Hm as [-> _]. by apply wp_load_nothing.
Qed.

Lemma wp_memmove h dst src n kd ks old bs (Q : unit -> Heap -> Prop) E :
  ablk src = Some ks -> blocks h !! ks = Some bs -> 0 <= aoff src -> aoff src + n <= zlen bs ->
  ablk dst = Some kd -> blocks h !! kd = Some old -> 0 <= aoff dst -> aoff dst + n <= zlen old ->
  0 <= n ->
  Q tt (on_blocks (insert kd (overwrite (aoff dst) (slice (aoff src) n bs) old)) h) ->
  wp (memmove dst src n) h Q E.
Proof.
  intros. unfold memmove. apply wp_bind. eapply wp_load_bytes; eauto.
  eapply wp_store_bytes; eauto. rewrite zlen_slice by lia. lia.
Qed.

Lemma wp_memcpy h dst src n kd ks old bs (Q : unit -> Heap -> Prop) E :
  ablk src = Some ks -> blocks h !! ks = Some bs -> 0 <= aoff src -> aoff src + n <= zlen bs ->
  ablk dst = Some kd -> blocks h !! kd = Some old -> 0 <= aoff dst -> aoff dst + n <= zlen old ->
  0 <= n -> kd <> ks ->
  Q tt (on_blocks (insert kd (overwrite (aoff dst) (slice (aoff src) n bs) old)) h) ->
  wp (memcpy dst src n) h Q E.
Proof.
  intros. unfold memcpy. apply wp_bind, wp_assert.
  - apply bool_decide_eq_true. right. left. congruence.
  - by eapply wp_memmove.
Qed.

Lemma node_bytes_block h k bs q b :
  payloads h !! q = Some b -> ablk (data_ b) <> Some k ->
  node_bytes (on_blocks (insert k bs) h) q = node_bytes h q.
Proof.
  intros Hq Hk. unfold node_bytes. change (payloads (on_blocks _ h)) with (payloads h).
  rewrite Hq. unfold bytes. simpl. destruct (ablk (data_ b)) as [k'|]; [|done].
  rewrite lookup_insert_ne; [done|congruence].
Qed.

(** A write to a block that only the objects of [S] use. *)
Lemma keeps_write S h k bs :
  (forall q b, q ∉ S -> payloads h !! q = Some b -> ablk (data_ b) <> Some k) ->
  keeps S [] h (on_blocks (insert k bs) h).
Proof.
  intros HS. split; try done. intros q Hq [b Hb]. eapply node_bytes_block; eauto.
Qed.
End Bytes.

(** ** Allocation *)

Section Alloc.
Implicit Types (h : Heap) (p q k s : positive) (b : Payload).

Lemma fresh_id_spec h :
  bufs h !! fresh_id h = None /\ infos h !! fresh_id h = None /\
  blocks h !! fresh_id h = None /\ storages h !! fresh_id h = None.
Proof.
  pose proof (is_fresh (used h)) as Hf. change (fresh (used h)) with (fresh_id h) in Hf.
  unfold used in Hf. rewrite !not_elem_of_union, !not_elem_of_dom in Hf. tauto.
Qed.

Lemma payloads_none h p : bufs h !! p = None <-> payloads h !! p = None.
Proof. unfold payloads. rewrite lookup_fmap. destruct (bufs h !! p); simpl; split; done. Qed.

(** The state after a request to the allocator: only the counter moved. *)
Lemma keeps_count S L h : keeps S L h (count_malloc h).
Proof. by split. Qed.

Lemma wp_sys_alloc h n (Q : bool -> Heap -> Prop) E :
  n <= max_alloc ->
  Q true (count_malloc h) -> (refused h -> Q false (count_malloc h)) -> wp (sys_alloc n) h Q E.
Proof.
  intros Hn Ht Hf. unfold sys_alloc. apply wp_bind, wp_get. apply wp_bind, wp_put. apply wp_ret.
  rewrite bool_decide_eq_true_2 by done. simpl.
  destruct (oracle h (mallocs h)) eqn:Ho; [done|]. apply Hf. by exists (mallocs h).
Qed.

(** A fresh data block. *)
Definition hmalloc (a : positive) (bs : list Z) (h : Heap) : Heap :=
  on_blocks (insert a bs) (count_malloc h).

Lemma wp_malloc h n (Q : option positive -> Heap -> Prop) E :
  n <= max_alloc ->
  Q (Some (fresh_id h)) (hmalloc (fresh_id h) (replicate (Z.to_nat n) 0) h) ->
  (refused h -> Q None (count_malloc h)) -> wp (malloc n) h Q E.
Proof.
  intros Hn Ht Hf. unfold malloc. apply wp_bind. apply wp_sys_alloc; [done| |].
  - apply wp_bind, wp_get. apply wp_bind, wp_put. by apply wp_ret.
  - intros Hr. apply wp_ret. auto.
Qed.

Lemma good_size n :
  0 <= n -> n + 31 <= max_alloc ->
  n + sizeof_SharedInfo <= goodExtBufferSize n <= n + 31.
Proof.
  unfold max_alloc, goodExtBufferSize, sizeof_SharedInfo. intros Hn Hm.
  rewrite (u64_small (n + 24)), u64_small by lia.
  change 7 with (Z.ones 3). rewrite Z.ldiff_ones_r by lia.
  rewrite Z.shiftr_div_pow2, Z.shiftl_mul_pow2 by lia. change (2 ^ 3) with 8.
  change (Z.ones 3) with 7. Z.div_mod_to_equations. lia.
Qed.
End Alloc.
