(* ===== verification/IOBufRelease.v ===== *)
(** * io/IOBuf: obtaining and releasing buffers

    Specifications of [allocExtBuffer] and [decrementRefcount]: the memory a
    buffer occupies is released with its last user, and no object loses bytes
    it still refers to. *)

From stdpp Require Import base list gmap strings.
From S2P Require Import Prelude IOBufMem IOBuf IOBufChain IOBufInv IOBufWf IOBufPrim.

(** The heap after [allocExtBuffer]. *)
Definition hext (a : positive) (cap : Z) (h : Heap) : Heap :=
  on_infos (insert a (new_SharedInfo None 0))
    (on_blocks (insert a (replicate (Z.to_nat cap) 0)) (count_malloc h)).

Section Ext.
Implicit Types (h : Heap) (p q k s : positive) (b : Payload).

Lemma initExtBuffer_wp h a mallocSize bs (Q : positive * Z -> Heap -> Prop) E :
  blocks h !! a = Some bs -> sizeof_SharedInfo <= mallocSize <= max_alloc ->
  Q (a, mallocSize - sizeof_SharedInfo)
    (on_infos (insert a (new_SharedInfo None 0))
       (on_blocks (insert a (take (Z.to_nat (mallocSize - sizeof_SharedInfo)) bs)) h)) ->
  wp (initExtBuffer a mallocSize) h Q E.
Proof.
  unfold sizeof_SharedInfo, max_alloc. intros Ha Hm HQ. unfold initExtBuffer, sizeof_SharedInfo.
  apply wp_bind, wp_assert; [by apply bool_decide_eq_true; lia|].
  rewrite u64_small by lia.
  apply wp_bind, wp_modify. apply wp_bind, wp_modify. apply wp_ret.
  assert (He : alter (take (Z.to_nat (mallocSize - 24))) a (blocks h) =
               <[a:=take (Z.to_nat (mallocSize - 24)) bs]> (blocks h)).
  { apply map_eq. intros i. destruct (decide (i = a)) as [->|].
    - by rewrite lookup_alter_eq, lookup_insert_eq, Ha.
    - by rewrite lookup_alter_ne, lookup_insert_ne. }
  unfold on_infos, on_blocks in *. simpl in *. by rewrite He.
Qed.

Lemma allocExtBuffer_wp h n (Q : addr * positive * Z -> Heap -> Prop) E :
  0 <= n -> n + 31 <= max_alloc ->
  (forall cap, n <= cap <= n + 7 ->
     Q (Addr (Some (fresh_id h)) 0, fresh_id h, cap) (hext (fresh_id h) cap h)) ->
  (refused h -> E bad_alloc (count_malloc h)) ->
  wp (allocExtBuffer n) h Q E.
Proof.
  intros Hn Hm HQ HE. pose proof (good_size n Hn Hm) as Hg. unfold max_alloc, sizeof_SharedInfo in *.
  unfold allocExtBuffer. apply wp_bind. apply wp_malloc; [unfold max_alloc; lia| |].
  - apply wp_bind. eapply initExtBuffer_wp; [by apply lookup_insert_eq| |].
    { unfold sizeof_SharedInfo, max_alloc. lia. }
    apply wp_ret. unfold sizeof_SharedInfo.
    assert (Ht : take (Z.to_nat (goodExtBufferSize n - 24))
                   (replicate (Z.to_nat (goodExtBufferSize n)) 0) =
                 replicate (Z.to_nat (goodExtBufferSize n - 24)) 0).
    { rewrite take_replicate. f_equal. lia. }
    rewrite Ht. specialize (HQ (goodExtBufferSize n - 24) ltac:(lia)).
    unfold hext, hmalloc, on_infos, on_blocks in *. simpl in *. by rewrite insert_insert_eq.
  - intros Hr. apply wp_throw. auto.
Qed.

(** No object is affected by the new buffer. *)
Lemma keeps_hext h cap : wf h -> keeps [] [] h (hext (fresh_id h) cap h).
Proof.
  intros Hw. destruct (fresh_id_spec h) as (_ & _ & Hb & _). split; try done.
  intros q _ [b Hq]. unfold node_bytes. change (payloads (hext _ _ h)) with (payloads h).
  rewrite Hq. unfold bytes. simpl. destruct (ablk (data_ b)) as [k|] eqn:Hk; [|done].
  rewrite lookup_insert_ne; [done|]. intros <-.
  destruct (w_window _ _ _ _ Hw q b Hq) as (Hd & _ & _ & Hm). rewrite Hk in Hd.
  rewrite <- Hd in Hm. destruct Hm as (? & ? & _). congruence.
Qed.
End Ext.

(** What is filed under [t] is the same in both heaps. *)
Definition same_at (t : positive) (h h' : Heap) : Prop :=
  infos h' !! t = infos h !! t /\ blocks h' !! t = blocks h !! t /\ storages h' !! t = storages h !! t.

(** What remains of an IOBuf whose reference was given up: the invariant holds
    with its payload taken as empty. *)
Definition wf_without (p : positive) (h : Heap) : Prop :=
  wfm (<[p:=null_payload]> (payloads h)) (infos h) (blocks h) (storages h).

(** Nothing is leaked but what is in the hands of somebody else ([C]: the
    client's own buffers).  Every SharedInfo and every block of bytes has a user,
    or it lies in the storage of a live IOBuf object and goes with it; every
    HeapStorage holds what its flags say, a live object (but for those of [X],
    which are under construction or have just ended) and a buffer in use.  Only
    the client's buffers are used unmanaged. *)
Record tidym (X : list positive) (C : gset positive) (P : gmap positive Payload) (I : gmap positive SharedInfo)
    (B : gmap positive (list Z)) (St : gmap positive Z) : Prop := {
  t_info : forall s, is_Some (I !! s) -> s ∈ C \/ (0 < refs P s)%nat \/ St !! s = Some 1;
  t_obj : forall p f, St !! p = Some f -> Z.testbit f 0 = true -> p ∈ X \/ is_Some (P !! p);
  t_data : forall s f, St !! s = Some f -> Z.testbit f 1 = true -> (0 < refs P s)%nat;
  t_block : forall k, is_Some (B !! k) ->
    k ∈ C \/ St !! k = Some 1 \/ exists p b, P !! p = Some b /\ ablk (buf_ b) = Some k;
  t_user : forall p b k, P !! p = Some b -> sharedInfo b = None -> ablk (buf_ b) = Some k -> k ∈ C }.

Definition tidyx (X : list positive) (C : gset positive) (h : Heap) : Prop :=
  tidym X C (payloads h) (infos h) (blocks h) (storages h).

Abbreviation tidy := (tidyx []).

(** The operation leaks nothing. *)
Definition leakless (h h' : Heap) : Prop := forall X C, tidyx X C h -> tidyx X C h'.

Lemma leakless_refl h : leakless h h.
Proof. by intros X C. Qed.

Lemma leakless_trans h1 h2 h3 : leakless h1 h2 -> leakless h2 h3 -> leakless h1 h3.
Proof. intros H1 H2 X C Ht. by apply H2, H1. Qed.

(** With the last IOBuf all the memory is gone but the client's. *)
Lemma tidy_empty C h : wf h -> tidy C h -> payloads h = ∅ ->
  storages h = ∅ /\ (forall k, is_Some (infos h !! k) \/ is_Some (blocks h !! k) -> k ∈ C).
Proof.
  intros Hw [T1 T2 T3 T4 T5] Hp. rewrite Hp in *.
  assert (Hr : forall s, refs ∅ s = 0%nat) by (intros s; by apply refs_zero).
  assert (HSt : storages h = ∅).
  { apply map_eq. intros s. rewrite lookup_empty. destruct (storages h !! s) as [f|] eqn:Hf; [|done].
    destruct (Z.testbit f 0) eqn:H0.
    - destruct (T2 s f Hf H0) as [Hn%elem_of_nil|Hn]; [done|]. rewrite lookup_empty in Hn. by destruct Hn.
    - destruct (Z.testbit f 1) eqn:H1; [pose proof (T3 s f Hf H1); rewrite Hr in *; lia|].
      by destruct (w_store _ _ _ _ Hw s f Hf) as [->|[->| ->]]. }
  rewrite HSt in *. split; [done|]. intros k [Hk|Hk].
  - destruct (T1 k Hk) as [?|[Hs|Hs]]; [done|rewrite Hr in Hs; lia|done].
  - destruct (T4 k Hk) as [?|[Hs|(p & b & Hb & _)]]; [done|done|]. by rewrite lookup_empty in Hb.
Qed.

Section Release.
Implicit Types (h : Heap) (p q k s : positive) (b c : Payload).

(** When one user goes, only its own SharedInfo and block can lose their last
    user. *)
Lemma tidym_drop X C P I I' B B' St St' p b :
  P !! p = Some b ->
  (forall t, is_Some (I' !! t) -> is_Some (I !! t)) ->
  (forall t, is_Some (B' !! t) -> is_Some (B !! t)) ->
  (forall t, St !! t = Some 1 -> St' !! t = Some 1) ->
  (forall t f, St' !! t = Some f -> exists f0, St !! t = Some f0 /\ (f = f0 \/ f0 = 3 /\ f = 1)) ->
  (forall s, sharedInfo b = Some s -> refs P s = 1%nat -> I' !! s = None /\ St' !! s = None \/ St' !! s = Some 1) ->
  (forall k, ablk (buf_ b) = Some k -> sharedInfo b = None \/ B' !! k = None \/ St' !! k = Some 1 \/
     exists q c, q <> p /\ P !! q = Some c /\ ablk (buf_ c) = Some k) ->
  tidym X C P I B St -> tidym X C (<[p:=null_payload]> P) I' B' St'.
Proof.
  intros Hp HI HB HSt HStf Hlast Hblk [T1 T2 T3 T4 T5].
  assert (Hrefs : forall s, (0 < refs P s)%nat -> (0 < refs (<[p:=null_payload]> P) s)%nat \/
            I' !! s = None /\ St' !! s = None \/ St' !! s = Some 1).
  { intros s Hs. pose proof (refs_insert_old P p b null_payload s Hp) as Hc.
    rewrite (decide_False (P := sharedInfo null_payload = Some s)) in Hc by done.
    destruct (decide (sharedInfo b = Some s)) as [Hbs|]; [|left; lia].
    destruct (decide (refs P s = 1%nat)) as [H1|]; [right; by apply Hlast|left; lia]. }
  split.
  - intros s Hs. destruct (T1 s (HI s Hs)) as [?|[Hr|Hr]]; [by left| |right; right; by apply HSt].
    destruct (Hrefs s Hr) as [?|[[Hn _]|?]]; [by right; left| |by right; right]. rewrite Hn in Hs. by destruct Hs.
  - intros q f Hf Hb. destruct (HStf q f Hf) as (f0 & Hf0 & Hc). destruct (T2 q f0 Hf0) as [?|Hq]; [|by left|right].
    { by destruct Hc as [->|[-> _]]. }
    rewrite lookup_insert. case_decide; eauto.
  - intros s f Hf Hb. destruct (HStf s f Hf) as (f0 & Hf0 & [->|[_ ->]]); [|done].
    destruct (Hrefs s (T3 s f0 Hf0 Hb)) as [?|[[_ Hn]|Hn]]; [done|congruence|]. rewrite Hf in Hn. injection Hn as ->. done.
  - intros k Hk. destruct (T4 k (HB k Hk)) as [?|[?|(q & c & Hq & Hc)]]; [by left|right; left; by apply HSt|].
    destruct (decide (q = p)) as [->|Hne].
    + simplify_eq. destruct (Hblk k Hc) as [Hs|[Hn|[?|(r & d & Hne & Hr & Hd)]]].
      * left. by apply (T5 p b k).
      * rewrite Hn in Hk. by destruct Hk.
      * by right; left.
      * right. right. exists r, d. by rewrite lookup_insert_ne.
    + right. right. exists q, c. by rewrite lookup_insert_ne.
  - intros q c k. rewrite lookup_insert. case_decide; [intros [= <-]; done|apply T5].
Qed.

(** The last reference to [s]: nobody else uses the SharedInfo or the block. *)
Lemma last_user h p b s :
  wf h -> payloads h !! p = Some b -> sharedInfo b = Some s -> refs (payloads h) s = 1%nat ->
  forall q c, q <> p -> payloads h !! q = Some c ->
    sharedInfo c <> Some s /\ (forall k, ablk (buf_ b) = Some k -> ablk (buf_ c) <> Some k).
Proof.
  intros Hw Hp Hs Hr q c Hne Hq.
  assert (Hns : sharedInfo c <> Some s).
  { intros Hc. apply Hne. by eapply (refs_unique (payloads h) q p c b s). }
  split; [done|]. intros k Hk Hck. apply Hns.
  rewrite <- (w_blk _ _ _ _ Hw p q b c k); done.
Qed.

(** After the count went to 0, the memory listed may change or vanish. *)
Lemma wf_without_shrink h p b s i I' B' St' log om h' :
  wf h -> payloads h !! p = Some b -> sharedInfo b = Some s -> infos h !! s = Some i ->
  refs (payloads h) s = 1%nat ->
  h' = mkHeap (bufs h) I' B' St' log (oracle h) om ->
  (forall t, t <> s -> ablk (buf_ b) <> Some t -> I' !! t = infos h !! t) ->
  (forall t, infos h !! t = None -> I' !! t = None) ->
  (forall t, ablk (buf_ b) <> Some t -> B' !! t = blocks h !! t) ->
  (forall t, blocks h !! t = None -> B' !! t = None) ->
  (forall t, t <> s -> ablk (buf_ b) <> Some t -> St' !! t = storages h !! t) ->
  (forall t f, St' !! t = Some f -> exists f0, storages h !! t = Some f0 /\
      (f = f0 \/ f0 = 3 /\ f = 1)) ->
  (forall t f, storages h !! t = Some f -> Z.testbit f 0 = true -> is_Some (St' !! t)) ->
  (I' !! s = None /\ St' !! s = None \/ St' !! s = Some 1) ->
  (forall k, ablk (buf_ b) = Some k -> B' !! k = None \/ St' !! k = Some 1) ->
  wf_without p h' /\ keeps [p] [] h h' /\ (forall q, on_heap h q <-> on_heap h' q) /\
  (forall c t, payloads h !! p = Some c -> sharedInfo c <> Some t -> ablk (buf_ c) <> Some t ->
     same_at t h h') /\
  (forall X C, tidyx X C h -> tidym X C (<[p:=null_payload]> (payloads h)) (infos h') (blocks h') (storages h')).
Proof.
  intros Hw Hp Hs Hi Hr -> HI HIn HB HBn HSt HStf HSt0 Hgone Hblk.
  pose proof (last_user h p b s Hw Hp Hs Hr) as Hlast.
  assert (Hun : wfm (<[p:=null_payload]> (payloads h))
                  (<[s:=with_refcount (refcount i - 1) i]> (infos h)) (blocks h) (storages h))
    by (eapply wfm_unref; eauto).
  assert (Hkeepst : forall t, storages h !! t = None -> St' !! t = None).
  { intros t Ht. destruct (St' !! t) eqn:Hs'; [|done]. destruct (HStf _ _ Hs') as (? & ? & _).
    congruence. }
  assert (Hoh : forall q, on_heap h q <->
            on_heap (mkHeap (bufs h) I' B' St' log (oracle h) om) q).
  { intros q. split.
    - intros (f & Hf & Ht). unfold on_heap. simpl.
      destruct (HSt0 _ _ Hf Ht) as [f' Hf']. exists f'. split; [done|].
      destruct (HStf _ _ Hf') as (f0 & Hf0 & Hcc). rewrite Hf in Hf0. simplify_eq.
      by destruct Hcc as [->|[_ ->]].
    - intros (f & Hf & Ht). destruct (HStf _ _ Hf) as (f0 & Hf0 & Hcc). exists f0. split; [done|].
      by destruct Hcc as [<-|[-> _]]. }
  split_and!; [| |done| |].
  4:{ intros X C. eapply (tidym_drop _ _ _ _ _ _ _ _ _ p b Hp); simpl.
      - intros t [j Hj]. destruct (infos h !! t) eqn:Ht; [eauto|]. by rewrite HIn in Hj.
      - intros t [j Hj]. destruct (blocks h !! t) eqn:Ht; [eauto|]. by rewrite HBn in Hj.
      - intros t Ht. destruct (HSt0 _ _ Ht eq_refl) as [f Hf]. rewrite Hf.
        destruct (HStf _ _ Hf) as (f0 & Hf0 & [->|[-> _]]); congruence.
      - exact HStf.
      - intros t Ht _. by simplify_eq.
      - intros k Hk. destruct (Hblk k Hk); auto. }
  3:{ intros c t Hc Hct Hbt. simplify_eq. assert (t <> s) by congruence.
      split_and!; simpl; [by apply HI|by apply HB|by apply HSt]. }
  - eapply wfm_shrink; [exact Hun|..].
    + intros q c t Hq Ht. lookups. destruct (Hlast q c) as [Hns Hnk]; [done..|].
      destruct (w_info _ _ _ _ Hw q c t Hq Ht) as (j & Hj & _ & Hpl).
      assert (t <> s) by congruence.
      assert (ablk (buf_ b) <> Some t).
      { intros Hbt. destruct Hpl as [(_ & Hcb & _)|(_ & Hbn & _)].
        - apply (Hnk t Hbt). by rewrite Hcb.
        - destruct (w_window _ _ _ _ Hw p b Hp) as (_ & _ & _ & Hm). rewrite Hbt in Hm.
          destruct Hm as (? & ? & _). congruence. }
      rewrite lookup_insert_ne by done. simpl. rewrite HSt by done.
      split_and!; [by apply HI|by apply HBn|done|eauto].
    + intros q c k Hq Hk. lookups. destruct (Hlast q c) as [Hns Hnk]; [done..|].
      split_and!; [|intros Hn|by apply Hkeepst].
      * apply HB. intros Hbk. by apply (Hnk k).
      * apply HIn. destruct (decide (k = s)) as [->|]; [by rewrite lookup_insert_eq in Hn|].
        by rewrite lookup_insert_ne in Hn.
    + intros t f Hf. simpl in *. destruct (HStf _ _ Hf) as (f0 & Hf0 & Hc).
      destruct (w_store _ _ _ _ Hw _ _ Hf0); destruct Hc as [->|[-> ->]]; tauto.
    + intros t f Hf Ht. simpl in *. destruct (HStf _ _ Hf) as (f0 & Hf0 & Hc).
      destruct Hc as [->|[-> ->]]; [|done]. eapply (w_obj _ _ _ _ Hun); eauto.
  - split; try done.
    + intros q Hq [c Hc]. unfold node_bytes. change (payloads (mkHeap _ _ _ _ _ _ _)) with (payloads h).
      rewrite Hc. unfold bytes. simpl.
      destruct (w_window _ _ _ _ Hw q c Hc) as (Hd & _). rewrite Hd.
      destruct (ablk (buf_ c)) as [k|] eqn:Hk; [|done].
      destruct (Hlast q c) as [_ Hnk]; [set_solver|done|].
      rewrite HB; [done|]. intros Hbk. by apply (Hnk k).
    + intros q Hq _. apply Hoh.
    + intros q Hq _. apply Hoh.
Qed.

Definition released (p : positive) (h h' : Heap) : Prop :=
  wf_without p h' /\ keeps [p] [] h h' /\ (forall q, on_heap h q <-> on_heap h' q) /\
  bufs h' = bufs h /\
  (forall c t, payloads h !! p = Some c -> sharedInfo c <> Some t -> ablk (buf_ c) <> Some t ->
     same_at t h h') /\
  (forall X C, tidyx X C h -> tidym X C (<[p:=null_payload]> (payloads h)) (infos h') (blocks h') (storages h')).

Lemma released_intro p h h' :
  wf_without p h' /\ keeps [p] [] h h' /\ (forall q, on_heap h q <-> on_heap h' q) /\
  (forall c t, payloads h !! p = Some c -> sharedInfo c <> Some t -> ablk (buf_ c) <> Some t ->
     same_at t h h') /\
  (forall X C, tidyx X C h -> tidym X C (<[p:=null_payload]> (payloads h)) (infos h') (blocks h') (storages h')) ->
  bufs h' = bufs h -> released p h h'.
Proof. unfold released. tauto. Qed.

Lemma payloads_of_bufs h h' : bufs h' = bufs h -> payloads h' = payloads h.
Proof. unfold payloads. by intros ->. Qed.

(** Freeing the buffer of the last user, after the count was set to 0. *)
Lemma freeExtBuffer_wp h p b s i :
  wf h -> payloads h !! p = Some b -> sharedInfo b = Some s -> infos h !! s = Some i ->
  refs (payloads h) s = 1%nat ->
  wp (freeExtBuffer p;; if has_flag kFlagFreeSharedInfo b then delete_info s else mret tt)
    (on_infos (insert s (with_refcount 0 i)) h) (fun _ h' => released p h h') nothrow.
Proof.
  intros Hw Hp Hs Hi Hr.
  destruct (w_info _ _ _ _ Hw p b s Hp Hs) as (i' & Hi' & _ & Hpl). simplify_eq.
  destruct (w_window _ _ _ _ Hw p b Hp) as (_ & _ & _ & Hm).
  unfold freeExtBuffer. apply wp_bind. apply wp_bind. eapply wp_load; [done|].
  apply wp_bind. eapply wp_of_option; [done|]. apply wp_bind.
  eapply wp_deref_info; [by apply lookup_insert_eq|]. simpl.
  destruct Hpl as [(Hfl & Hbuf & Hc)|(Hfl & Hbs & Hss & k & Hk & HIk & Hstk & Hc)]; rewrite Hfl.
  - assert (Hbk : ablk (buf_ b) = Some s) by by rewrite Hbuf. rewrite Hbk in Hm.
    destruct Hm as (bs & Hbs & _). destruct Hc as [[-> Hst]|(-> & -> & f & Hst & Ht)].
    + unfold free. apply wp_bind. eapply wp_of_option; [done|]. apply wp_bind, wp_get.
      apply wp_bind, wp_assert; [apply bool_decide_eq_true; by rewrite Hbuf|].
      apply wp_bind, wp_assert; [apply bool_decide_eq_true; simpl; eauto|].
      apply wp_put. apply wp_ret. apply released_intro; [|done].
      eapply (wf_without_shrink h p b s i); [done..|reflexivity| | | | | | | | |]; simpl.
      * intros t Ht _. by rewrite delete_insert_eq, lookup_delete_ne.
      * intros t Ht. rewrite delete_insert_eq, lookup_delete. by case_decide.
      * intros t Ht. rewrite lookup_delete_ne; congruence.
      * intros t Ht. rewrite lookup_delete. by case_decide.
      * intros t Ht _. by rewrite lookup_delete_ne.
      * intros t f. rewrite lookup_delete. case_decide; [done|]. eauto.
      * intros t f Hf Htt. rewrite lookup_delete_ne; [eauto|]. congruence.
      * left. by rewrite !lookup_delete_eq.
      * intros k Hk. left. rewrite Hbk in Hk. injection Hk as <-. apply lookup_delete_eq.
    + unfold call_free, freeInternalBuf, releaseStorage. simpl.
      apply wp_bind, wp_get. apply wp_bind. eapply wp_of_option; [done|].
      assert (Hf : f = 2 \/ f = 3).
      { destruct (w_store _ _ _ _ Hw _ _ Hst) as [->|[->| ->]]; [done|auto..]. }
      apply wp_bind, wp_assert; [destruct Hf as [->| ->]; reflexivity|].
      destruct Hf as [->| ->]; [change (u16 _) with 0|change (u16 _) with 1]; simpl.
      * apply wp_modify. apply wp_ret. apply released_intro; [|done].
        eapply (wf_without_shrink h p b s i); [done..|reflexivity| | | | | | | | |]; simpl.
        -- intros t Htt _. by rewrite delete_insert_eq, lookup_delete_ne.
        -- intros t Htt. rewrite delete_insert_eq, lookup_delete. by case_decide.
        -- intros t Htt. rewrite lookup_delete_ne; congruence.
        -- intros t Htt. rewrite lookup_delete. by case_decide.
        -- intros t Htt _. by rewrite lookup_delete_ne.
        -- intros t f. rewrite lookup_delete. case_decide; [done|]. eauto.
        -- intros t f Hf Htt. rewrite lookup_delete_ne; [eauto|]. intros <-. by simplify_eq.
        -- left. by rewrite !lookup_delete_eq.
        -- intros k Hk. left. rewrite Hbk in Hk. injection Hk as <-. apply lookup_delete_eq.
      * apply wp_modify. apply wp_ret. apply released_intro; [|done].
        eapply (wf_without_shrink h p b s i); [done..|reflexivity| | | | | | | | |]; simpl.
        -- intros t Htt _. by rewrite lookup_insert_ne.
        -- intros t Htt. rewrite lookup_insert_ne; congruence.
        -- done.
        -- done.
        -- intros t Htt _. by rewrite lookup_insert_ne.
        -- intros t f. rewrite lookup_insert. case_decide; [|eauto]. intros [= <-]. subst. eauto.
        -- intros t f Hf Htt. rewrite lookup_insert. case_decide; eauto.
        -- right. apply lookup_insert_eq.
        -- intros k Hk. right. rewrite Hbk in Hk. injection Hk as <-. apply lookup_insert_eq.
  - rewrite Hk in Hm. destruct Hm as (bs & Hbk & _).
    assert (Hks : k <> s) by congruence.
    assert (Hrel : forall h1, h1 = mkHeap (bufs h) (delete s (infos h)) (delete k (blocks h))
               (storages h) (freeLog h1) (oracle h) (mallocs h) -> released p h h1).
    { intros h1 Hh1. apply released_intro; [|by rewrite Hh1].
      eapply (wf_without_shrink h p b s i); [done..|exact Hh1| | | | | | | | |]; simpl.
      - intros t Ht _. by rewrite lookup_delete_ne.
      - intros t Ht. rewrite lookup_delete. by case_decide.
      - intros t Ht. rewrite lookup_delete_ne; congruence.
      - intros t Ht. rewrite lookup_delete. by case_decide.
      - done.
      - eauto.
      - eauto.
      - left. by rewrite lookup_delete_eq.
      - intros j Hj. left. rewrite Hk in Hj. injection Hj as <-. apply lookup_delete_eq. }
    destruct Hc as [[-> Hoff]|[fn ->]].
    + unfold free. apply wp_bind. eapply wp_of_option; [done|]. apply wp_bind, wp_get.
      apply wp_bind, wp_assert; [by apply bool_decide_eq_true|].
      apply wp_bind, wp_assert; [apply bool_decide_eq_true; simpl; eauto|].
      apply wp_put. unfold delete_info. apply wp_bind. eapply wp_deref_info.
      { simpl. rewrite lookup_delete_ne by done. apply lookup_insert_eq. }
      apply wp_modify. apply Hrel. unfold drop_allocation, on_infos, on_blocks, on_storages. simpl.
      f_equal; [|by rewrite delete_id].
      rewrite delete_insert_ne by done. rewrite delete_insert_eq. by rewrite (delete_id _ k).
    + unfold call_free, call_user_fn. apply wp_modify. unfold delete_info. apply wp_bind.
      eapply wp_deref_info; [by apply lookup_insert_eq|]. apply wp_modify. apply Hrel.
      unfold on_infos. simpl. by rewrite delete_insert_eq, Hk.
Qed.

Lemma decrementRefcount_wp h p b :
  wf h -> payloads h !! p = Some b ->
  wp (decrementRefcount p) h (fun _ h' => released p h h') nothrow.
Proof.
  intros Hw Hp. unfold decrementRefcount. apply wp_bind. eapply wp_load; [done|].
  destruct (sharedInfo b) as [s|] eqn:Hs.
  - destruct (w_info _ _ _ _ Hw p b s Hp Hs) as (i & Hi & Hrc & _).
    pose proof (refs_pos _ _ _ _ Hp Hs) as Hpos. pose proof (w_cnt _ _ _ _ Hw s) as Hcnt.
    apply wp_bind. eapply wp_deref_info; [done|]. apply wp_bind. eapply wp_update_info; [done|].
    rewrite u32_small by lia. case_decide as Hgt.
    + apply wp_ret. split_and!; [|by split|done|done| |].
      3:{ intros X C. eapply (tidym_drop _ _ _ (infos h) _ _ _ _ _ p b Hp); simpl; [|done|done|eauto| |].
          - intros t. rewrite lookup_insert. case_decide; [subst; eauto|done].
          - intros t Ht' Hr. simplify_eq. lia.
          - intros k Hk. do 3 right. destruct (refs_other (payloads h) p b s Hp Hs ltac:(lia)) as (q & c & Hq & Hqc & Hsc).
            exists q, c. split_and!; [done|done|]. by rewrite (w_shr _ _ _ _ Hw q p c b s). }
      2:{ intros c t Hc Hct _. simplify_eq. split_and!; [|done|done]. simpl.
          rewrite lookup_insert_ne; [done|congruence]. }
      pose proof (wfm_unref _ _ _ _ p b s i Hp Hs Hi Hw) as H1. exact H1.
    + replace (refcount i - 1) with 0 by lia. apply freeExtBuffer_wp; try done. lia.
  - apply wp_ret. split_and!; [|by split|done|done|by intros; split_and!|].
    2:{ intros X C. apply (tidym_drop _ _ _ (infos h) _ _ _ _ _ p b Hp); [done|done|done|eauto|congruence|by left]. }
    eapply (wfm_wrap _ _ _ _ p null_payload); [done|apply window_null|done| | |exact Hw].
    + intros c Hc. congruence.
    + intros f Hf. eapply (w_obj _ _ _ _ Hw); eauto.
Qed.
End Release.
