(* ===== verification/IOBufLife.v ===== *)
(** * io/IOBuf: lifetimes

    Destruction and deletion of chains, and the creation of IOBufs. *)

From stdpp Require Import base list gmap strings.
From S2P Require Import Prelude IOBufMem IOBuf IOBufChain IOBufInv IOBufWf IOBufPrim IOBufRelease.

#[local] Opaque chain.

(** The objects of [l] are gone, with the memory that only they used; the
    storage of those of [Y] remains.  The others are as before. *)
Definition destroyed (Y l : list positive) (h h' : Heap) : Prop :=
  wf h' /\ keeps l l h h' /\
  (forall q, payloads h' !! q = if decide (q ∈ l) then None else payloads h !! q) /\
  (forall X C, tidyx X C h -> tidyx (Y ++ X) C h').

Section Destroy.
Implicit Types (h : Heap) (p q x : positive) (l : list positive) (b : Payload).

Lemma payloads_delete h p : payloads (on_bufs (delete p) h) = delete p (payloads h).
Proof. unfold payloads. simpl. by rewrite fmap_delete. Qed.

Lemma keeps_delete h p : keeps [p] [p] h (on_bufs (delete p) h).
Proof.
  split; try done.
  - intros q b Hq Hb. rewrite payloads_delete, lookup_delete_ne; [done|set_solver].
  - intros q Hq _. unfold node_bytes. rewrite payloads_delete, lookup_delete_ne; [done|set_solver].
  - intros q Hq _. unfold nxt. simpl. rewrite lookup_delete_ne; [done|set_solver].
  - intros q Hq _. unfold prv. simpl. rewrite lookup_delete_ne; [done|set_solver].
Qed.

(** The end of the lifetime of an object without a buffer. *)
Lemma tidy_delete X C h p :
  tidym X C (<[p:=null_payload]> (payloads h)) (infos h) (blocks h) (storages h) ->
  tidyx (p :: X) C (on_bufs (delete p) h).
Proof.
  intros [T1 T2 T3 T4 T5]. unfold tidyx. rewrite payloads_delete. simpl.
  assert (Hrefs : forall s, refs (<[p:=null_payload]> (payloads h)) s = refs (delete p (payloads h)) s).
  { intros s. rewrite (refs_delete _ p null_payload) by apply lookup_insert_eq.
    rewrite delete_insert_eq, decide_False by done. lia. }
  split.
  - intros s Hs. rewrite <- Hrefs. by apply T1.
  - intros q f Hf Hb. destruct (decide (q = p)) as [->|Hne]; [left; by left|].
    destruct (T2 q f Hf Hb) as [?|Hq]; [left; by right|right].
    rewrite lookup_insert_ne in Hq by done. by rewrite lookup_delete_ne.
  - intros s f Hf Hb. rewrite <- Hrefs. eauto.
  - intros k Hk. destruct (T4 k Hk) as [?|[?|(q & c & Hq & Hc)]]; [by left|by right; left|right; right].
    exists q, c. rewrite lookup_insert in Hq. case_decide; [by simplify_eq|]. by rewrite lookup_delete_ne.
  - intros q c k Hq. apply lookup_delete_Some in Hq as [Hne Hq]. apply (T5 q c k). by rewrite lookup_insert_ne.
Qed.

Lemma leakless_relinked S h h' : relinked S h h' -> leakless h h'.
Proof. intros [H1 H2 H3 H4 _ _ _ _ _] X C. unfold tidyx. by rewrite H1, H2, H3, H4. Qed.

(** A value has no storage of its own. *)
Lemma tidyx_value X C h p : ~ on_heap h p -> tidyx (p :: X) C h -> tidyx X C h.
Proof.
  intros Hn [T1 T2 T3 T4 T5]. split; try done. intros q f Hf Hb.
  destruct (T2 q f Hf Hb) as [[->|?]%elem_of_cons|?]; [|by left|by right]. destruct Hn. by exists f.
Qed.

(** The object in the storage lives. *)
Lemma tidyx_alive X C h p : is_Some (payloads h !! p) -> tidyx (p :: X) C h -> tidyx X C h.
Proof.
  intros Hn [T1 T2 T3 T4 T5]. split; try done. intros q f Hf Hb.
  destruct (T2 q f Hf Hb) as [[->|?]%elem_of_cons|?]; [by right|by left|by right].
Qed.

(** The destructor of an IOBuf that is alone in its chain. *)
Lemma destructor_one h p d :
  wf h -> chain h [p] ->
  wp (destructor (S d) p) h
    (fun _ h' => destroyed [p] [p] h h' /\ (forall q, on_heap h q <-> on_heap h' q)) nothrow.
Proof.
  intros Hw Hc. destruct (chain_single_inv _ _ Hc) as [Hn _].
  destruct (chain_payload _ _ p Hc) as [b Hb]; [by left|].
  cbn [destructor]. apply wp_bind, wp_get. apply wp_bind.
  eapply (wp_iter _ (fun _ _ h' => h' = h)) with (n := 0%nat); [|lia|done].
  intros ? ? ? ->. apply wp_bind. eapply wp_next; [done|].
  rewrite decide_True by done. apply wp_ret.
  apply wp_bind. eapply wp_wand; [by eapply decrementRefcount_wp|].
  intros [] h1 (Hw1 & Hk1 & Ho1 & Hb1 & _ & Ht1). apply wp_modify.
  pose proof (payloads_of_bufs _ _ Hb1) as Hp1. unfold wf_without in Hw1.
  split; [split_and!|exact Ho1].
  - unfold wf. rewrite payloads_delete. simpl.
    rewrite <- delete_insert_eq with (x := null_payload).
    eapply wfm_delete; [by apply lookup_insert_eq|done|done].
  - eapply keeps_trans; [|apply keeps_delete]. by eapply keeps_weaken; [| |exact Hk1]; set_solver.
  - intros q. rewrite payloads_delete, Hp1, lookup_delete.
    repeat case_decide; try done; set_solver.
  - intros X C Ht. apply tidy_delete. rewrite Hp1. by apply Ht1.
Qed.

(** [operator delete] after the end of the object's lifetime. *)
Lemma operator_delete_wp h p :
  wf h -> on_heap h p -> payloads h !! p = None ->
  wp (operator_delete p) h
    (fun _ h' => wf h' /\ keeps [p] [] h h' /\ bufs h' = bufs h /\
       (forall X C, tidyx (p :: X) C h -> tidyx X C h')) nothrow.
Proof.
  intros Hw (f & Hf & Ht) Hp. unfold operator_delete, releaseStorage.
  apply wp_bind, wp_get. apply wp_bind. eapply wp_of_option; [done|].
  assert (Hcase : f = 1 \/ f = 3).
  { destruct (w_store _ _ _ _ Hw _ _ Hf) as [->|[->| ->]]; auto; done. }
  apply wp_bind, wp_assert; [destruct Hcase as [->| ->]; reflexivity|].
  destruct Hcase as [->| ->]; [change (u16 _) with 0|change (u16 _) with 2]; simpl; apply wp_modify.
  - assert (Hnob : forall q c, payloads h !! q = Some c ->
              sharedInfo c <> Some p /\ ablk (buf_ c) <> Some p).
    { intros q c Hq. destruct (sharedInfo c) as [s|] eqn:Hs.
      - destruct (w_info _ _ _ _ Hw q c s Hq Hs) as (i & _ & _ & Hpl).
        destruct Hpl as [(_ & Hb & [[_ ?]|(_ & _ & f & Hfs & Hft)])|(_ & _ & ? & k & Hk & _ & ? & _)].
        + rewrite Hb. simpl. split; congruence.
        + rewrite Hb. simpl. assert (s <> p) by (intros ->; by simplify_eq). split; congruence.
        + split; [congruence|]. rewrite Hk. congruence.
      - split; [done|]. intros Hk. destruct (w_user _ _ _ _ Hw q c p Hq Hs Hk). congruence. }
    assert (Htd : forall X C, tidyx (p :: X) C h -> tidyx X C (drop_allocation p h)).
    { intros X C [T1 T2 T3 T4 T5]. unfold tidyx.
      change (payloads (drop_allocation p h)) with (payloads h). split; simpl; [..|done].
      - intros s. rewrite !lookup_delete. case_decide; [by intros [? ?]|]. apply T1.
      - intros q g. rewrite lookup_delete. case_decide; [done|]. intros Hq Hb.
        destruct (T2 q g Hq Hb) as [[?|?]%elem_of_cons|?]; [congruence|by left|by right].
      - intros s g. rewrite lookup_delete. case_decide; [done|]. apply T3.
      - intros k. rewrite !lookup_delete. case_decide; [by intros [? ?]|]. apply T4. }
    split_and!; [|split|done|done]; try done.
    + unfold wf. simpl. eapply wfm_shrink; [exact Hw|..].
      * intros q c s Hq Hs. destruct (Hnob q c Hq) as [H1 _].
        assert (s <> p) by congruence. rewrite !lookup_delete_ne by done. split_and!; eauto.
      * intros q c k Hq Hk. destruct (Hnob q c Hq) as [_ H1].
        assert (k <> p) by congruence. rewrite !lookup_delete_ne by done. done.
      * intros q f. rewrite lookup_delete. case_decide; [done|]. apply (w_store _ _ _ _ Hw).
      * intros q f. rewrite lookup_delete. case_decide; [done|]. apply (w_obj _ _ _ _ Hw).
    + intros q Hq [c Hc]. unfold node_bytes. change (payloads (drop_allocation _ _)) with (payloads h).
      rewrite Hc. unfold bytes. simpl. destruct (w_window _ _ _ _ Hw q c Hc) as (-> & _).
      destruct (Hnob q c Hc) as [_ H1]. destruct (ablk (buf_ c)) as [k|]; [|done].
      rewrite lookup_delete_ne; [done|congruence].
    + intros q Hq _ (f & Hf' & Ht'). exists f. simpl. rewrite lookup_delete_ne; [done|set_solver].
    + intros q Hq _ (f & Hf' & Ht'). exists f. revert Hf'. simpl. rewrite lookup_delete_ne; [done|set_solver].
  - assert (Htd : forall X C, tidyx (p :: X) C h -> tidyx X C (on_storages (insert p 2) h)).
    { intros X C [T1 T2 T3 T4 T5]. unfold tidyx.
      change (payloads (on_storages (insert p 2) h)) with (payloads h).
      assert (H1 : forall t, storages h !! t = Some 1 -> <[p:=2]> (storages h) !! t = Some 1).
      { intros t Htt. rewrite lookup_insert_ne; [done|congruence]. }
      split; simpl; [..|done].
      - intros s Hs. destruct (T1 s Hs) as [?|[?|?]]; auto.
      - intros q g. rewrite lookup_insert. case_decide; [by intros [= <-]|]. intros Hq Hb.
        destruct (T2 q g Hq Hb) as [[?|?]%elem_of_cons|?]; [congruence|by left|by right].
      - intros s g. rewrite lookup_insert. case_decide; [subst; intros _ _; by apply (T3 s 3)|]. apply T3.
      - intros k Hk. destruct (T4 k Hk) as [?|[?|?]]; auto. }
    split_and!; [|split|done|done]; try done.
    + unfold wf. simpl. eapply wfm_shrink; [exact Hw|..].
      * intros q c s Hq Hs. split_and!; [done|done| |].
        -- intros Hn. rewrite lookup_insert_ne; [done|congruence].
        -- intros f Hfs Hft. rewrite lookup_insert. case_decide; eauto.
      * intros q c k Hq Hk. split_and!; [done..|]. intros Hn.
        rewrite lookup_insert_ne; [done|congruence].
      * intros q f. rewrite lookup_insert. case_decide; [intros [= <-]; auto|].
        apply (w_store _ _ _ _ Hw).
      * intros q f. rewrite lookup_insert. case_decide; [|apply (w_obj _ _ _ _ Hw)].
        subst. intros _ [c Hc]. change (payloads h !! q = Some c) in Hc. congruence.
    + intros q Hq _ (f & Hf' & Ht'). exists f. simpl. rewrite lookup_insert_ne; [done|set_solver].
    + intros q Hq _ (f & Hf' & Ht'). exists f. revert Hf'. simpl. rewrite lookup_insert_ne; [done|set_solver].
Qed.

(** Deleting an IOBuf that is alone in its chain. *)
Lemma delete_one h p d :
  wf h -> chain h [p] -> on_heap h p ->
  wp (destructor (S d) p;; operator_delete p) h (fun _ h' => destroyed [] [p] h h') nothrow.
Proof.
  intros Hw Hc Hh. apply wp_bind. eapply wp_wand; [by apply destructor_one|].
  intros [] h1 ((Hw1 & Hk1 & Hp1 & Ht1) & Ho1).
  eapply wp_wand; [apply operator_delete_wp; [done|by apply Ho1|]|].
  { rewrite Hp1, decide_True; [done|by left]. }
  intros [] h2 (Hw2 & Hk2 & Hb2 & Ht2). split_and!; [done| | |by intros X C Ht; apply Ht2, (Ht1 X)].
  - eapply keeps_trans; [done|]. eapply keeps_weaken; [| |exact Hk2]; set_solver.
  - intros q. by rewrite (payloads_of_bufs _ _ Hb2).
Qed.

(** What the loop that deletes the other elements of the chain of [x] does. *)
Definition others_deleted (x : positive) (l : list positive) (h h' : Heap) : Prop :=
  wf h' /\ chain h' [x] /\ keeps l (x :: l) h h' /\ leakless h h' /\
  forall q, payloads h' !! q = if decide (q ∈ l) then None else payloads h !! q.

Lemma delete_others_wp h x l d :
  wf h -> chain h (x :: l) -> (forall q, q ∈ l -> on_heap h q) ->
  wp (iter (S (size (bufs h)))
        (fun _ : unit =>
           n ← next x;
           if decide (n = x) then mret (inr tt)
           else q ← unlink n; (destructor (S d) q;; operator_delete q);; mret (inl tt)) tt) h
    (fun _ h' => others_deleted x l h h') nothrow.
Proof.
  intros Hw Hc Hh. pose proof (chain_size _ _ Hc) as Hsz. simpl in Hsz.
  eapply (wp_iter _ (fun n _ h' => exists dn todo, n = length todo /\ l = dn ++ todo /\
            chain h' (x :: todo) /\ (forall q, q ∈ todo -> on_heap h' q) /\ wf h' /\
            keeps dn (x :: l) h h' /\ leakless h h' /\
            forall q, payloads h' !! q = if decide (q ∈ dn) then None else payloads h !! q))
    with (n := length l); [|lia|].
  2:{ exists [], l. split_and!; try done. apply leakless_refl. }
  clear Hw Hsz. intros n [] h1 (dn & todo & -> & Hl & Hc1 & Hh1 & Hw1 & Hk1 & Ht1 & Hp1).
  apply wp_bind. eapply wp_next; [by apply (chain_succ h1 x todo [] x todo)|].
  destruct todo as [|y todo]; simpl.
  { rewrite decide_True by done. apply wp_ret. rewrite app_nil_r in Hl. subst dn. done. }
  pose proof (chain_NoDup _ _ Hc1) as Hnd. apply NoDup_cons in Hnd as [Hx Hnd].
  apply NoDup_cons in Hnd as [Hy Hnd].
  rewrite decide_False by (intros ->; apply Hx; by left).
  apply (chain_rotate1 h1 x (y :: todo)) in Hc1; [|done].
  apply wp_bind. eapply wp_wand; [by eapply (unlink_wp h1 y (todo ++ [x]))|].
  intros ? h2 (-> & Hy2 & Hc2 & Hr2).
  assert (Hcx : chain h2 (x :: todo)).
  { apply (chain_rotate h2 todo [x]); [done|]. apply Hc2. by destruct todo. }
  pose proof (keeps_relinked _ _ _ Hr2) as Hk2.
  assert (Hohy : on_heap h2 y).
  { destruct (Hh1 y) as (f & Hf & Ht); [by left|]. exists f. by rewrite (rl_storages _ _ _ Hr2). }
  apply wp_bind. eapply wp_wand; [apply delete_one; [by eapply wf_relinked|done|done]|].
  intros [] h3 (Hw3 & Hk3 & Hp3 & Ht3). apply wp_ret. exists (length todo). split; [simpl; lia|].
  assert (Hxy : x <> y) by (intros ->; apply Hx; by left).
  exists (dn ++ [y]), todo. split_and!.
  - done.
  - by rewrite <- (assoc_L (++)).
  - eapply keeps_chain; [exact Hk3| |done]. intros q Hq Hqy%list_elem_of_singleton.
    subst q. apply elem_of_cons in Hq as [Hq|Hq]; [by apply Hxy|done].
  - intros q Hq. assert (q <> y) by (intros ->; done).
    eapply (k_heap _ _ _ _ Hk3); [by intros ->%list_elem_of_singleton| |].
    + destruct (chain_payload h2 _ q Hcx) as [b Hb]; [by right|eauto].
    + destruct (Hh1 q) as (f & Hf & Ht); [by right|]. exists f. by rewrite (rl_storages _ _ _ Hr2).
  - done.
  - eapply keeps_trans; [eapply keeps_weaken; [| |exact Hk1]; set_solver|].
    eapply keeps_trans; [eapply keeps_weaken; [| |exact Hk2]|eapply keeps_weaken; [| |exact Hk3]];
      subst l; set_solver.
  - intros X C Ht. apply (Ht3 X). by eapply leakless_relinked, Ht1.
  - intros q. rewrite Hp3, (rl_body _ _ _ Hr2), Hp1.
    destruct (decide (q = y)) as [->|]; [rewrite !decide_True by set_solver; done|].
    rewrite (decide_False (P := q ∈ [y])) by set_solver.
    destruct (decide (q ∈ dn)); [by rewrite decide_True by set_solver|].
    by rewrite decide_False by set_solver.
Qed.

(** [~IOBuf] on the head of a chain whose other elements are heap objects. *)
Lemma destroy_value_wp h x l :
  wf h -> chain h (x :: l) -> (forall q, q ∈ l -> on_heap h q) ->
  wp (destroy_value x) h
    (fun _ h' => destroyed [x] (x :: l) h h' /\ (on_heap h' x <-> on_heap h x)) nothrow.
Proof.
  intros Hw Hc Hh. unfold destroy_value. cbn [destructor].
  apply wp_bind, wp_get. apply wp_bind.
  eapply wp_wand; [by apply (delete_others_wp h x l 0)|].
  intros [] h1 (Hw1 & Hc1 & Hk1 & Ht1 & Hp1).
  pose proof (chain_NoDup _ _ Hc) as Hnd. apply NoDup_cons in Hnd as [Hx _].
  destruct (chain_payload h1 [x] x Hc1) as [b Hb]; [by left|].
  apply wp_bind. eapply wp_wand; [by eapply decrementRefcount_wp|].
  intros [] h2 (Hw2 & Hk2 & Ho2 & Hb2 & _ & Ht2). apply wp_modify.
  pose proof (payloads_of_bufs _ _ Hb2) as Hp2. unfold wf_without in Hw2.
  split; [split_and!|].
  - unfold wf. rewrite payloads_delete. simpl.
    rewrite <- delete_insert_eq with (x := null_payload).
    eapply wfm_delete; [by apply lookup_insert_eq|done|done].
  - eapply keeps_trans; [eapply keeps_weaken; [| |exact Hk1]; set_solver|].
    eapply keeps_trans; [eapply keeps_weaken; [| |exact Hk2]; set_solver|].
    eapply keeps_weaken; [| |apply keeps_delete]; set_solver.
  - intros q. rewrite payloads_delete, Hp2, lookup_delete, Hp1.
    repeat case_decide; try done; set_solver.
  - intros X C Ht. apply tidy_delete. rewrite Hp2. by apply Ht2, Ht1.
  - assert (Hxp : is_Some (payloads h !! x)) by (destruct (chain_payload h (x :: l) x Hc) as [b0 Hb0]; [by left|eauto]).
    etransitivity; [symmetry; apply Ho2|].
    split; [by apply (k_stack _ _ _ _ Hk1)|by apply (k_heap _ _ _ _ Hk1)].
Qed.

Lemma delete_wp h x l :
  wf h -> chain h (x :: l) -> (forall q, q ∈ x :: l -> on_heap h q) ->
  wp (delete_ x) h (fun _ h' => destroyed [] (x :: l) h h') nothrow.
Proof.
  intros Hw Hc Hh. unfold delete_. apply wp_bind.
  eapply wp_wand; [apply (destroy_value_wp h x l); [done..|]|].
  { intros q Hq. apply Hh. by right. }
  intros [] h1 ((Hw1 & Hk1 & Hp1 & Ht1) & Ho1).
  eapply wp_wand; [apply operator_delete_wp; [done|apply Ho1, Hh; by left|]|].
  { rewrite Hp1, decide_True; [done|by left]. }
  intros [] h2 (Hw2 & Hk2 & Hb2 & Ht2). split_and!; [done| | |by intros X C Ht; apply Ht2, (Ht1 X)].
  - eapply keeps_trans; [done|]. eapply keeps_weaken; [| |exact Hk2]; set_solver.
  - intros q. by rewrite (payloads_of_bufs _ _ Hb2).
Qed.
End Destroy.

(** ** Creation *)

(** The allocator never refuses a request. *)
Definition alloc_ok (h : Heap) : Prop := forall n, oracle h n = true.

(** An empty window at the start of a buffer that nobody else uses. *)
Definition fresh_payload (a : positive) (cap : Z) : Payload :=
  mkPayload (Addr (Some a) 0) (Addr (Some a) 0) 0 cap (packFlagsAndSharedInfo 0 (Some a)).

(** [p] is a new IOBuf, alone in its chain, with payload [b]. *)
Definition created (p : positive) (b : Payload) (h h' : Heap) : Prop :=
  wf h' /\ keeps [] [] h h' /\ payloads h !! p = None /\ chain h' [p] /\
  payloads h' = <[p:=b]> (payloads h).

Definition hconstruct (p : positive) (b : Payload) (h : Heap) : Heap :=
  on_bufs (insert p (mkIOBuf p p b)) h.

Section Create.
Implicit Types (h : Heap) (p q x : positive) (l : list positive) (b : Payload).

Lemma alloc_ok_refused h : alloc_ok h -> ~ refused h.
Proof. intros Ha [n Hn]. by rewrite Ha in Hn. Qed.

Lemma keeps_alloc_ok S L h h' : keeps S L h h' -> alloc_ok h -> alloc_ok h'.
Proof. intros Hk Ha n. by rewrite (k_oracle _ _ _ _ Hk). Qed.

Lemma payloads_hconstruct h p b : payloads (hconstruct p b h) = <[p:=b]> (payloads h).
Proof. unfold payloads, hconstruct. simpl. by rewrite fmap_insert. Qed.

Lemma chain_hconstruct h p b : chain (hconstruct p b h) [p].
Proof.
  apply chain_singleton; unfold nxt, prv, hconstruct; simpl; by rewrite lookup_insert_eq.
Qed.

Lemma keeps_hconstruct h p b : payloads h !! p = None -> keeps [] [] h (hconstruct p b h).
Proof.
  intros Hp. assert (Hb : bufs h !! p = None) by by apply payloads_none.
  split; try done.
  - intros q c _ Hc. rewrite payloads_hconstruct, lookup_insert_ne; congruence.
  - intros q _ [c Hc]. unfold node_bytes.
    by rewrite payloads_hconstruct, lookup_insert_ne by congruence.
  - intros q _ [n Hn]. unfold nxt, hconstruct in *. simpl. rewrite lookup_insert_ne; [done|].
    intros <-. by rewrite Hb in Hn.
  - intros q _ [n Hn]. unfold prv, hconstruct in *. simpl. rewrite lookup_insert_ne; [done|].
    intros <-. by rewrite Hb in Hn.
Qed.

(** What happens to a new object does not matter to the old ones. *)
Lemma keeps_new p h h1 h2 :
  keeps [] [] h h1 -> payloads h !! p = None -> keeps [p] [] h1 h2 -> keeps [] [] h h2.
Proof.
  intros Hk1 Hp Hk2. pose proof Hk1 as [A1 A2 A3 A3' A4 A5 A6]. pose proof Hk2 as [B1 B2 B3 B3' B4 B5 B6].
  assert (Hne : forall q, is_Some (payloads h !! q) -> q ∉ [p]).
  { intros q [b Hb] ->%list_elem_of_singleton. congruence. }
  assert (Hs : forall q, is_Some (payloads h !! q) -> is_Some (payloads h1 !! q)).
  { intros q [b Hb]. exists b. apply A1; [set_solver|done]. }
  assert (Hn : forall q : positive, q ∉ []) by set_solver.
  split.
  - intros q b Hq Hb. eauto.
  - intros q Hq Hb. rewrite B2, A2; eauto.
  - intros q Hq Hb Ho. eauto.
  - intros q Hq Hb Ho. eauto.
  - intros q Hq Hb. rewrite B4, A4; rewrite ?A4; eauto.
  - intros q Hq Hb. rewrite B5, A5; rewrite ?A5; eauto.
  - congruence.
Qed.

Lemma sharedInfo_fresh a cap : sharedInfo (fresh_payload a cap) = Some a.
Proof. apply (sharedInfo_pack 0 a (fresh_payload a cap)). lia. Qed.

Lemma flags_fresh a cap : flags (fresh_payload a cap) = 0.
Proof. apply (flags_pack 0 a (fresh_payload a cap)). lia. Qed.

Lemma has_flag_fresh f a cap : has_flag f (fresh_payload a cap) = false.
Proof. unfold has_flag. by rewrite flags_fresh. Qed.

(** A payload that describes a window of a fresh block. *)
Lemma window_fresh B a cap :
  0 <= cap <= max_alloc ->
  window (<[a:=replicate (Z.to_nat cap) 0]> B) (fresh_payload a cap).
Proof.
  intros Hc. unfold window. simpl. split_and!; try done; try lia.
  exists (replicate (Z.to_nat cap) 0). rewrite lookup_insert_eq, zlen_replicate by lia.
  split_and!; try done; lia.
Qed.

(** An object that has no buffer gets a fresh external one. *)
Lemma wf_attach_ext h p c a cap b :
  wf h -> payloads h !! p = Some c -> sharedInfo c = None ->
  infos h !! a = None -> blocks h !! a = None -> storages h !! a = None ->
  sharedInfo b = Some a -> flags b = 0 -> buf_ b = Addr (Some a) 0 ->
  window (<[a:=replicate (Z.to_nat cap) 0]> (blocks h)) b ->
  wfm (<[p:=b]> (payloads h)) (<[a:=new_SharedInfo None 0]> (infos h))
    (<[a:=replicate (Z.to_nat cap) 0]> (blocks h)) (storages h).
Proof.
  intros Hw Hp Hc Hi Hb Hs Hsi Hfl Hbuf Hwin.
  eapply (wfm_attach _ _ _ (storages h)); try done.
  - intros f Hf. congruence.
  - intros c' Hc'. congruence.
  - intros f Hf. eapply (w_obj _ _ _ _ Hw); eauto.
  - left. unfold has_flag. rewrite Hfl. split_and!; [done|done|]. left. done.
Qed.

(** A new object with a new buffer. *)
Lemma tidym_add X C P I B St St' p b a i bs :
  tidym X C P I B St -> P !! p = None -> sharedInfo b = Some a -> ablk (buf_ b) = Some a ->
  (forall t, t <> a -> St' !! t = St !! t) ->
  (forall f, St' !! a = Some f -> a = p) ->
  tidym X C (<[p:=b]> P) (<[a:=i]> I) (<[a:=bs]> B) St'.
Proof.
  intros [T1 T2 T3 T4 T5] Hp Hs Hb HSt Ha.
  assert (Hrefs : forall s, (refs P s <= refs (<[p:=b]> P) s)%nat) by (intros s; rewrite refs_insert_new by done; lia).
  assert (Hra : (0 < refs (<[p:=b]> P) a)%nat) by (rewrite refs_insert_new, decide_True by done; lia).
  split.
  - intros s Hi. destruct (decide (s = a)) as [->|Hne]; [by right; left|]. rewrite lookup_insert_ne in Hi by done.
    rewrite HSt by done. specialize (Hrefs s). destruct (T1 s Hi) as [?|[?|?]]; [by left|right; left; lia|by right; right].
  - intros q f Hf Hbit. rewrite lookup_insert. destruct (decide (q = a)) as [->|Hne].
    + right. rewrite decide_True; [eauto|]. symmetry. by eapply Ha.
    + rewrite HSt in Hf by done. destruct (T2 q f Hf Hbit); [by left|right]. case_decide; eauto.
  - intros s f Hf Hbit. destruct (decide (s = a)) as [->|Hne]; [done|]. rewrite HSt in Hf by done.
    specialize (Hrefs s). specialize (T3 s f Hf Hbit). lia.
  - intros k Hk. destruct (decide (k = a)) as [->|Hne]; [right; right; exists p, b; by rewrite lookup_insert_eq|].
    rewrite lookup_insert_ne in Hk by done. rewrite HSt by done.
    destruct (T4 k Hk) as [?|[?|(q & c & Hq & Hc)]]; [by left|by right; left|right; right].
    exists q, c. rewrite lookup_insert_ne; [done|congruence].
  - intros q c k. rewrite lookup_insert. case_decide; [intros [= <-]; congruence|apply T5].
Qed.

Lemma ctor_create_wp h p n :
  wf h -> payloads h !! p = None -> (forall f, storages h !! p = Some f -> Z.testbit f 0 = true) ->
  infos h !! p = None -> blocks h !! p = None ->
  0 <= n -> n + 31 <= max_alloc ->
  wp (ctor_create n p) h
    (fun _ h' => exists a cap, n <= cap <= n + 7 /\ created p (fresh_payload a cap) h h' /\
                   blocks h' !! a = Some (replicate (Z.to_nat cap) 0) /\
                   storages h' = storages h /\ leakless h h')
    (fun e h' => e = bad_alloc /\ refused h /\ h' = count_malloc h).
Proof.
  intros Hw Hp Hst Hip Hbp Hn Hm. unfold ctor_create. apply wp_bind, wp_modify.
  change (on_bufs _ h) with (hconstruct p null_payload h).
  set (h1 := hconstruct p null_payload h).
  assert (Hw1 : wf h1).
  { unfold wf, h1. rewrite payloads_hconstruct. by apply wfm_add_null. }
  assert (Hk1 : keeps [] [] h h1) by by apply keeps_hconstruct.
  assert (Hp1 : payloads h1 !! p = Some null_payload).
  { unfold h1. by rewrite payloads_hconstruct, lookup_insert_eq. }
  apply wp_bind, wp_try_catch. apply allocExtBuffer_wp; [done..| |].
  - intros cap Hcap. destruct (fresh_id_spec h1) as (Hf1 & Hf2 & Hf3 & Hf4).
    set (a := fresh_id h1) in *.
    pose proof (keeps_hext h1 cap Hw1) as Hk2. fold a in Hk2.
    set (h2 := hext a cap h1) in *.
    assert (Hp2 : payloads h2 !! p = Some null_payload) by done.
    apply wp_bind. eapply wp_store; [done|].
    assert (Hp3 := payloads_hstore h2 p _ (fun b => with_capacity cap (with_buf (Addr (Some a) 0) b)) Hp2).
    apply wp_bind. eapply wp_store; [rewrite Hp3; apply lookup_insert_eq|]. rewrite hstore_hstore.
    eapply wp_store; [erewrite payloads_hstore by done; apply lookup_insert_eq|].
    rewrite hstore_hstore. exists a, cap. split; [done|].
    match goal with |- created _ _ _ ?H /\ _ => set (h3 := H) end.
    assert (He : payloads h3 = <[p:=fresh_payload a cap]> (payloads h2)).
    { unfold h3. erewrite payloads_hstore by done. done. }
    unfold created. split_and!.
    + unfold wf. rewrite He. simpl. eapply (wf_attach_ext h1 p null_payload a cap); try done.
      * apply sharedInfo_fresh.
      * apply window_fresh. unfold max_alloc in *. lia.
    + apply (keeps_new p h h2); [by eapply keeps_trans|done|].
      assert (Hk3 : keeps [p] [] h2 h3) by (by eapply keeps_hstore).
      exact Hk3.
    + done.
    + unfold h3. apply chain_hstore. eapply keeps_chain; [exact Hk2| |apply chain_hconstruct].
      set_solver.
    + rewrite He. change (payloads h2) with (payloads h1). unfold h1.
      by rewrite payloads_hconstruct, insert_insert_eq.
    + simpl. by rewrite lookup_insert_eq.
    + done.
    + intros X C Ht. unfold tidyx. rewrite He. change (payloads h2) with (payloads h1). unfold h1 at 1.
      rewrite payloads_hconstruct, insert_insert_eq. eapply (tidym_add _ _ _ _ _ _ _ _ (fresh_payload a cap)); try done.
      * apply sharedInfo_fresh.
      * intros f Hf. simpl in *. congruence.
  - intros Hr. apply wp_bind. apply wp_modify. apply wp_throw.
    split_and!; [done|done|].
    unfold h1, hconstruct, count_malloc, on_bufs. simpl. f_equal.
    rewrite delete_insert_id; [done|]. by apply payloads_none.
Qed.

(** Nothing happened to any object, and no memory was lost. *)
Definition unchanged (h h' : Heap) : Prop :=
  wf h' /\ keeps [] [] h h' /\ payloads h' = payloads h /\ leakless h h'.

Lemma unchanged_count h : wf h -> unchanged h (count_malloc h).
Proof. intros Hw. split_and!; [done|apply keeps_count|done|by intros X C [T1 T2 T3 T4 T5]]. Qed.

(** The storage of a new IOBuf. *)
Definition hstorage (p : positive) (f : Z) (h : Heap) : Heap :=
  on_storages (insert p f) (count_malloc h).

Lemma unused_block h k :
  wf h -> blocks h !! k = None -> infos h !! k = None ->
  forall q c, payloads h !! q = Some c -> ablk (buf_ c) <> Some k /\ sharedInfo c <> Some k.
Proof.
  intros Hw Hb Hi q c Hq. split.
  - intros Hc. destruct (w_window _ _ _ _ Hw q c Hq) as (_ & _ & _ & Hm). rewrite Hc in Hm.
    destruct Hm as (? & ? & _). congruence.
  - intros Hs. destruct (w_info _ _ _ _ Hw q c k Hq Hs) as (? & ? & _). congruence.
Qed.

Lemma operator_new_wp h (Q : positive -> Heap -> Prop) E :
  wf h ->
  (forall p h1, payloads h !! p = None -> storages h1 !! p = Some 1 -> infos h1 !! p = None ->
     blocks h1 !! p = None -> wf h1 -> keeps [] [] h h1 -> payloads h1 = payloads h ->
     (forall X C, tidyx X C h -> tidyx (p :: X) C h1) -> Q p h1) ->
  (refused h -> E bad_alloc (count_malloc h)) -> wp operator_new h Q E.
Proof.
  intros Hw HQ HE. unfold operator_new. apply wp_bind.
  apply wp_sys_alloc; [unfold max_alloc, sizeof_HeapStorage; lia| |intros; apply wp_throw; auto].
  apply wp_bind, wp_get. apply wp_bind, wp_put. apply wp_ret.
  destruct (fresh_id_spec (count_malloc h)) as (Hf1 & Hf2 & Hf3 & Hf4). simpl in *.
  assert (Hf1' : payloads h !! fresh_id (count_malloc h) = None) by by apply payloads_none.
  pose proof (unused_block h _ Hw Hf3 Hf2) as Hu.
  apply HQ; simpl; try done.
  - by rewrite lookup_insert_eq.
  - unfold wf. simpl. change (payloads (on_storages _ _)) with (payloads h).
    eapply wfm_shrink; [exact Hw|..].
    + intros q c s Hq Hs. destruct (Hu q c Hq) as [_ Hn].
      rewrite lookup_insert_ne by congruence. split_and!; eauto.
    + intros q c k Hq Hk. destruct (Hu q c Hq) as [Hn _].
      rewrite lookup_insert_ne by congruence. done.
    + intros q f. rewrite lookup_insert. case_decide; [intros [= <-]; auto|].
      apply (w_store _ _ _ _ Hw).
    + intros q f. rewrite lookup_insert. case_decide; [by intros [= <-]|].
      apply (w_obj _ _ _ _ Hw).
  - split; try done.
    + intros q _ _ (f & Hf & Ht). unfold on_heap. simpl. rewrite lookup_insert. case_decide; eauto.
    + intros q _ [c Hq] (f & Hf & Ht). exists f. revert Hf. simpl. rewrite lookup_insert_ne; [done|congruence].
  - intros X C [T1 T2 T3 T4 T5]. split; simpl; try done.
    + intros s Hs. destruct (T1 s Hs) as [?|[?|?]]; [by left|by right; left|right; right].
      rewrite lookup_insert_ne; [done|congruence].
    + intros q f. rewrite lookup_insert. case_decide; [subst; intros _ _; left; by apply list_elem_of_here|].
      intros Hq Hb. destruct (T2 q f Hq Hb); [left; by right|by right].
    + intros s f. rewrite lookup_insert. case_decide; [by intros [= <-]|apply T3].
    + intros k Hk. destruct (T4 k Hk) as [?|[?|?]]; [by left|right; left|by right; right].
      rewrite lookup_insert_ne; [done|congruence].
Qed.

(** [make_unique]: the constructor runs in fresh storage, which is released
    when it throws. *)
Lemma make_unique_wp h ctor (Q : positive -> Heap -> Prop) (E : exn -> Heap -> Prop) :
  wf h ->
  (forall p h1, payloads h !! p = None -> storages h1 !! p = Some 1 -> infos h1 !! p = None ->
     blocks h1 !! p = None -> wf h1 -> keeps [] [] h h1 -> payloads h1 = payloads h ->
     (forall X C, tidyx X C h -> tidyx (p :: X) C h1) ->
     wp (ctor p) h1 (fun _ h2 => Q p h2)
       (fun e h2 => unchanged h1 h2 /\ on_heap h2 p /\
          forall h3, unchanged h h3 -> E e h3)) ->
  (refused h -> E bad_alloc (count_malloc h)) -> wp (make_unique ctor) h Q E.
Proof.
  intros Hw Hctor HE. unfold make_unique. apply wp_bind.
  apply operator_new_wp; [done| |done]. intros p h1 Hp Hst Hi Hb Hw1 Hk1 Hp1 Ht1.
  apply wp_bind, wp_try_catch.
  eapply wp_mono; [by eapply Hctor| |].
  - intros [] h2 HQ. by apply wp_ret.
  - intros e h2 ((Hw2 & Hk2 & Hp2 & Ht2) & Ho2 & HE2). apply wp_bind.
    eapply wp_nothrow; [apply operator_delete_wp; [done|done|]|].
    { by rewrite Hp2, Hp1. }
    intros [] h3 (Hw3 & Hk3 & Hb3 & Ht3). apply wp_throw. apply HE2. split_and!; [done| | |].
    + apply (keeps_new p h h2); [by eapply keeps_trans|done|done].
    + rewrite (payloads_of_bufs _ _ Hb3), Hp2. done.
    + intros X C Ht. by apply Ht3, Ht2, Ht1.
Qed.

Lemma createSeparate_wp h n :
  wf h -> 0 <= n -> n + 31 <= max_alloc ->
  wp (createSeparate n) h
    (fun p h' => on_heap h' p /\ exists a cap, n <= cap <= n + 7 /\
       created p (fresh_payload a cap) h h' /\ blocks h' !! a = Some (replicate (Z.to_nat cap) 0) /\
       leakless h h')
    (fun e h' => e = bad_alloc /\ refused h /\ unchanged h h').
Proof.
  intros Hw Hn Hm. unfold createSeparate. apply make_unique_wp; [done| |].
  - intros p h1 Hp Hst Hi Hb Hw1 Hk1 Hp1 Ht1.
    eapply wp_mono; [apply ctor_create_wp; try done|..].
    + by rewrite Hp1.
    + intros f Hf. rewrite Hst in Hf. by simplify_eq.
    + intros [] h2 (a & cap & Hcap & (Hw2 & Hk2 & _ & Hc2 & Hp2) & Hb2 & Hst2 & Ht2).
      split; [exists 1; by rewrite Hst2|]. exists a, cap. split; [done|]. split_and!; [|done|].
      { split_and!; [done|by eapply keeps_trans|done|done|]. by rewrite Hp2, Hp1. }
      intros X C Ht. apply (tidyx_alive _ _ _ p); [rewrite Hp2, lookup_insert_eq; eauto|]. by apply Ht2, Ht1.
    + intros e h2 (-> & Hr & ->). split_and!.
      * by apply unchanged_count.
      * by exists 1.
      * intros h3 Hu. split_and!; [done| |done]. destruct Hr as [k Hk]. exists k.
        by rewrite <- (k_oracle _ _ _ _ Hk1).
  - intros Hr. split_and!; [done..|]. by apply unchanged_count.
Qed.

Lemma createCombined_wp h n :
  wf h -> alloc_ok h -> 0 <= n -> n + offsetof_align <= max_alloc ->
  wp (createCombined n) h
    (fun p h' => on_heap h' p /\ created p (fresh_payload p n) h h' /\
                 blocks h' !! p = Some (replicate (Z.to_nat n) 0) /\ leakless h h') nothrow.
Proof.
  unfold offsetof_align, max_alloc. intros Hw Ha Hn Hm. unfold createCombined, offsetof_align.
  cbv zeta. rewrite (u64_small (96 + n)), (u64_small (96 + n - 96)) by lia. apply wp_bind.
  apply wp_sys_alloc; [unfold max_alloc; lia| |by intros []%alloc_ok_refused].
  apply wp_bind, wp_assert; [done|].
  apply wp_bind, wp_assert; [apply bool_decide_eq_true; lia|].
  apply wp_bind, wp_get. do 3 (apply wp_bind, wp_modify).
  set (p := fresh_id (count_malloc h)).
  destruct (fresh_id_spec (count_malloc h)) as (Hf1 & Hf2 & Hf3 & Hf4). fold p in Hf1, Hf2, Hf3, Hf4.
  simpl in *. replace (96 + n - 96) with n by lia.
  apply wp_bind. unfold ctor_internal.
  apply wp_bind, wp_assert; [apply bool_decide_eq_true; simpl; split; [done|lia]|].
  apply wp_bind, wp_assert; [apply bool_decide_eq_true; simpl; lia|].
  apply wp_modify. apply wp_ret.
  change (mkPayload _ _ _ _ _) with (fresh_payload p n).
  match goal with |- context [on_heap ?H _] => set (h' := H) end.
  assert (Hp0 : payloads h !! p = None) by by apply payloads_none.
  assert (Hpay : payloads h' = <[p:=fresh_payload p n]> (payloads h)).
  { unfold h', payloads. simpl. by rewrite fmap_insert. }
  split_and!; [|unfold created; split_and!| |].
  - exists 3. simpl. by rewrite lookup_insert_eq.
  - unfold wf. rewrite Hpay. simpl. eapply (wfm_attach _ _ _ (storages h)); try done.
    + intros k Hk. by rewrite lookup_insert_ne.
    + intros f. rewrite lookup_insert_eq. by intros [= <-].
    + intros c Hc. congruence.
    + intros f. rewrite lookup_insert_eq. by intros [= <-].
    + apply sharedInfo_fresh.
    + left. rewrite has_flag_fresh. split_and!; [done|done|]. right.
      split_and!; [done|done|]. exists 3. by rewrite lookup_insert_eq.
    + apply window_fresh. unfold max_alloc. lia.
  - split; try done.
    + intros q c _ Hc. rewrite Hpay, lookup_insert_ne; congruence.
    + intros q _ [c Hc]. unfold node_bytes. rewrite Hpay, lookup_insert_ne, Hc by congruence.
      unfold bytes. simpl. destruct (w_window _ _ _ _ Hw q c Hc) as (-> & _).
      destruct (unused_block h p Hw Hf3 Hf2 q c Hc) as [Hn0 _].
      destruct (ablk (buf_ c)); [|done]. rewrite lookup_insert_ne; congruence.
    + intros q _ _ (f & Hf & Ht). unfold on_heap. simpl. rewrite lookup_insert. case_decide; eauto.
    + intros q _ [c Hq] (f & Hf & Ht). exists f. revert Hf. simpl. rewrite lookup_insert_ne; [done|congruence].
    + intros q _ [m Hq]. unfold nxt in *. simpl. rewrite lookup_insert_ne; [done|].
      intros <-. by rewrite Hf1 in Hq.
    + intros q _ [m Hq]. unfold prv in *. simpl. rewrite lookup_insert_ne; [done|].
      intros <-. by rewrite Hf1 in Hq.
  - done.
  - unfold h'. apply chain_hconstruct.
  - done.
  - simpl. by rewrite lookup_insert_eq.
  - intros X C Ht. unfold tidyx. rewrite Hpay.
    eapply (tidym_add _ _ _ _ _ _ _ _ (fresh_payload p n)); try done; [apply sharedInfo_fresh|].
    intros t Htp. simpl. by rewrite lookup_insert_ne.
Qed.

(** [create]: an empty IOBuf with the requested capacity, whose buffer nobody
    else uses. *)
Lemma create_wp h n :
  wf h -> alloc_ok h -> 0 <= n -> n + offsetof_align <= max_alloc ->
  wp (create n) h
    (fun p h' => on_heap h' p /\ exists a cap, n <= cap <= n + 7 /\
       created p (fresh_payload a cap) h h' /\ blocks h' !! a = Some (replicate (Z.to_nat cap) 0) /\
       leakless h h')
    nothrow.
Proof.
  intros Hw Ha Hn Hm. unfold create. case_decide.
  - eapply wp_wand; [by apply createCombined_wp|]. intros p h' (Ho & Hc & Hb & Ht).
    split; [done|]. exists p, n. split_and!; [lia|lia|done|done|done].
  - eapply wp_mono; [apply createSeparate_wp; [done..|]| |].
    + unfold offsetof_align, max_alloc in *. lia.
    + done.
    + intros e h' (_ & Hr & _). by apply alloc_ok_refused in Hr.
Qed.
End Create.
