(* ===== verification/IOBufWindow.v ===== *)
(** * io/IOBuf: moving and filling the data window

    [append], [prepend], [trimStart], [trimEnd], [clear], [advance], [retreat]
    and the constructors that copy data. *)

From stdpp Require Import base list gmap strings.
From S2P Require Import Prelude IOBufMem IOBuf IOBufChain IOBufInv IOBufWf IOBufPrim IOBufRelease IOBufLife.

#[local] Opaque chain.

(** The object [p] now has payload [b]; nothing else changed. *)
Definition rewindowed (p : positive) (b : Payload) (h h' : Heap) : Prop :=
  wf h' /\ keeps [p] [] h h' /\ payloads h' = <[p:=b]> (payloads h) /\
  blocks h' = blocks h /\ infos h' = infos h /\ storages h' = storages h.

Section Window.
Implicit Types (h : Heap) (p q : positive) (b : Payload) (n : Z).

Lemma wf_window h p b : wf h -> payloads h !! p = Some b -> window (blocks h) b.
Proof. intros Hw. apply (w_window _ _ _ _ Hw). Qed.

Lemma has_flag_word f b b' :
  flagsAndSharedInfo_ b' = flagsAndSharedInfo_ b -> has_flag f b' = has_flag f b.
Proof. unfold has_flag, flags. by intros ->. Qed.

Lemma sharedInfo_word b b' :
  flagsAndSharedInfo_ b' = flagsAndSharedInfo_ b -> sharedInfo b' = sharedInfo b.
Proof. unfold sharedInfo. by intros ->. Qed.

Lemma rewindow h p b b' f :
  wf h -> payloads h !! p = Some b -> f b = b' -> buf_ b' = buf_ b ->
  flagsAndSharedInfo_ b' = flagsAndSharedInfo_ b -> window (blocks h) b' ->
  rewindowed p b' h (hstore p f h).
Proof.
  intros Hw Hp <- Hbuf Hword Hwin. unfold rewindowed. split_and!; try done.
  - unfold wf. rewrite (payloads_hstore h p b f Hp). simpl.
    eapply wfm_replace; try done.
    + by apply sharedInfo_word.
    + by apply has_flag_word.
    + intros s Hs Hm. rewrite (sharedInfo_word b) in Hs by done.
      rewrite (has_flag_word _ b) in Hm by done. by eapply (w_flag _ _ _ _ Hw).
  - by eapply keeps_hstore.
  - by apply payloads_hstore.
Qed.

(** An object keeps its buffer. *)
Lemma tidym_replace X C P I B St p b b' :
  P !! p = Some b -> sharedInfo b' = sharedInfo b -> buf_ b' = buf_ b ->
  tidym X C P I B St -> tidym X C (<[p:=b']> P) I B St.
Proof.
  intros Hp Hs Hb [T1 T2 T3 T4 T5].
  assert (Hrefs : forall s, refs (<[p:=b']> P) s = refs P s) by (intros s; by apply (refs_insert_same P p b)).
  split.
  - intros s Hi. rewrite Hrefs. by apply T1.
  - intros q f Hf Hbit. destruct (T2 q f Hf Hbit); [by left|right]. rewrite lookup_insert. case_decide; eauto.
  - intros s f Hf Hbit. rewrite Hrefs. eauto.
  - intros k Hk. destruct (T4 k Hk) as [?|[?|(q & c & Hq & Hc)]]; [by left|by right; left|right; right].
    destruct (decide (q = p)) as [->|]; [exists p, b'|exists q, c].
    + rewrite lookup_insert_eq. simplify_eq. by rewrite Hb.
    + by rewrite lookup_insert_ne.
  - intros q c k. rewrite lookup_insert. case_decide; [intros [= <-]|apply T5]. rewrite Hs, Hb. by apply (T5 p).
Qed.

Lemma leakless_rewindowed h h' p b b' :
  payloads h !! p = Some b -> sharedInfo b' = sharedInfo b -> buf_ b' = buf_ b -> rewindowed p b' h h' -> leakless h h'.
Proof.
  intros Hp Hs Hb (_ & _ & Hpay & Hbl & Hin & Hst) X C Ht. unfold tidyx. rewrite Hpay, Hbl, Hin, Hst.
  by eapply tidym_replace.
Qed.

Lemma node_bytes_pay h p b : payloads h !! p = Some b -> node_bytes h p = bytes (blocks h) b.
Proof. unfold node_bytes. by intros ->. Qed.

Lemma length_bytes h p b : wf h -> payloads h !! p = Some b -> zlen (node_bytes h p) = length_ b.
Proof.
  intros Hw Hp. rewrite (node_bytes_pay _ _ _ Hp). by apply window_bytes_len, (wf_window _ p).
Qed.

Lemma rewindowed_pay h h' p b : rewindowed p b h h' -> payloads h' !! p = Some b.
Proof. intros (_ & _ & -> & _). apply lookup_insert_eq. Qed.

Lemma rewindowed_chain h h' p b l : rewindowed p b h h' -> chain h l -> chain h' l.
Proof. intros (_ & Hk & _). eapply keeps_chain; [done|set_solver]. Qed.

(** The part of a window that [trimStart] and [trimEnd] leave. *)
Definition trimmed (b : Payload) (s e : Z) : Payload :=
  with_length (length_ b - s - e) (with_data (padd (data_ b) s) b).

Lemma window_trimmed B b s e :
  window B b -> 0 <= s -> 0 <= e -> s + e <= length_ b -> window B (trimmed b s e).
Proof.
  intros (Hk & H1 & H2 & Hm) Hs He Hse. unfold window. simpl. split_and!; try done; try lia.
  destruct (ablk (buf_ b)) as [k|]; [|lia]. destruct Hm as (bs & ? & ? & ? & ? & ? & ?).
  exists bs. split_and!; try done; lia.
Qed.

Lemma bytes_trimmed B b s e :
  window B b -> 0 <= s -> 0 <= e -> s + e <= length_ b ->
  bytes B (trimmed b s e) = slice s (length_ b - s - e) (bytes B b).
Proof.
  intros (Hk & H1 & H2 & Hm) Hs He Hse. unfold bytes. simpl. rewrite Hk.
  destruct (ablk (buf_ b)) as [k|]; [|unfold slice; by rewrite drop_nil, take_nil].
  destruct Hm as (bs & -> & ? & ? & ? & ? & ?). simpl.
  unfold slice at 2. rewrite drop_slice by lia. by rewrite take_slice by lia.
Qed.

Lemma trimStart_wp h p b n :
  wf h -> payloads h !! p = Some b -> 0 <= n <= length_ b ->
  wp (trimStart p n) h (fun _ h' => rewindowed p (trimmed b n 0) h h') nothrow.
Proof.
  intros Hw Hp Hn. pose proof (wf_window _ _ _ Hw Hp) as Hwin.
  assert (Hlen : length_ b <= max_alloc).
  { destruct Hwin as (_ & _ & ? & Hm). destruct (ablk (buf_ b)); [destruct Hm as (? & _ & ?)|]; lia. }
  unfold trimStart, max_alloc in *. apply wp_bind. eapply wp_load; [done|].
  apply wp_bind, wp_assert; [apply bool_decide_eq_true; lia|].
  apply wp_bind. eapply wp_store; [done|].
  eapply wp_store; [rewrite (payloads_hstore h p b _ Hp); apply lookup_insert_eq|].
  rewrite hstore_hstore, u64_small by lia.
  replace (length_ b - n) with (length_ b - n - 0) by lia.
  eapply rewindow; [done|done|reflexivity|done|done|]. apply window_trimmed; done || lia.
Qed.

Lemma length_bound h p b : wf h -> payloads h !! p = Some b -> 0 <= length_ b <= max_alloc.
Proof.
  intros Hw Hp. destruct (wf_window _ _ _ Hw Hp) as (_ & ? & ? & Hm).
  destruct (ablk (buf_ b)); [destruct Hm as (? & _ & ?)|]; lia.
Qed.

Lemma trimEnd_wp h p b n :
  wf h -> payloads h !! p = Some b -> 0 <= n <= length_ b ->
  wp (trimEnd p n) h (fun _ h' => rewindowed p (trimmed b 0 n) h h') nothrow.
Proof.
  intros Hw Hp Hn. pose proof (wf_window _ _ _ Hw Hp) as Hwin.
  pose proof (length_bound _ _ _ Hw Hp). unfold trimEnd, max_alloc in *.
  apply wp_bind. eapply wp_load; [done|].
  apply wp_bind, wp_assert; [apply bool_decide_eq_true; lia|].
  eapply wp_store; [done|]. rewrite u64_small by lia.
  replace (length_ b - n) with (length_ b - 0 - n) by lia.
  assert (He : with_length (length_ b - 0 - n) b = trimmed b 0 n).
  { unfold trimmed, with_length, with_data, padd. simpl. rewrite Z.add_0_r. by destruct (data_ b). }
  eapply rewindow; [done|done|exact He|done|done|].
  apply window_trimmed; done || lia.
Qed.

(** [append]: the window grows into the tailroom. *)
Lemma append_wp h p b n k :
  wf h -> payloads h !! p = Some b -> ablk (buf_ b) = Some k -> 0 <= n <= tailroom b ->
  wp (append p n) h (fun _ h' => rewindowed p (with_length (length_ b + n) b) h h') nothrow.
Proof.
  intros Hw Hp Hk Hn. pose proof (wf_window _ _ _ Hw Hp) as Hwin.
  rewrite (window_tailroom _ _ _ Hwin Hk) in Hn.
  destruct Hwin as (Hd & H1 & H2 & Hm). rewrite Hk in Hm. destruct Hm as (bs & ? & ? & ? & ? & ? & ?).
  unfold append, max_alloc in *. apply wp_bind. eapply wp_load; [done|].
  apply wp_bind, wp_assert.
  { apply bool_decide_eq_true. rewrite (window_tailroom (blocks h) b k); [lia| |done].
    by eapply wf_window. }
  eapply wp_store; [done|]. rewrite u64_small by lia.
  eapply rewindow; [done|done|reflexivity|done|done|].
  unfold window, max_alloc. simpl. rewrite Hk. split_and!; try done; try lia; [by rewrite Hd|].
  exists bs. split_and!; try done; lia.
Qed.

(** [prepend]: the window grows into the headroom. *)
Lemma prepend_wp h p b n k :
  wf h -> payloads h !! p = Some b -> ablk (buf_ b) = Some k -> 0 <= n <= headroom b ->
  wp (prepend p n) h
    (fun _ h' => rewindowed p (with_length (length_ b + n) (with_data (padd (data_ b) (- n)) b)) h h')
    nothrow.
Proof.
  intros Hw Hp Hk Hn. pose proof (wf_window _ _ _ Hw Hp) as Hwin.
  rewrite (window_headroom _ _ Hwin) in Hn.
  destruct Hwin as (Hd & H1 & H2 & Hm). rewrite Hk in Hm. destruct Hm as (bs & ? & ? & ? & ? & ? & ?).
  unfold prepend, max_alloc in *. apply wp_bind. eapply wp_load; [done|].
  apply wp_bind, wp_assert.
  { apply bool_decide_eq_true. rewrite (window_headroom (blocks h) b); [lia|]. by eapply wf_window. }
  apply wp_bind. eapply wp_store; [done|].
  eapply wp_store; [rewrite (payloads_hstore h p b _ Hp); apply lookup_insert_eq|].
  rewrite hstore_hstore, u64_small by lia.
  eapply rewindow; [done|done|reflexivity|done|done|].
  unfold window, max_alloc. simpl. rewrite Hk. split_and!; try done; try lia; [by rewrite Hd|].
  exists bs. split_and!; try done; lia.
Qed.

Lemma clear_wp h p b :
  wf h -> payloads h !! p = Some b ->
  wp (clear p) h (fun _ h' => rewindowed p (with_length 0 (with_data (buf_ b) b)) h h') nothrow.
Proof.
  intros Hw Hp. destruct (wf_window _ _ _ Hw Hp) as (Hd & H1 & H2 & Hm).
  unfold clear. apply wp_bind. eapply wp_load; [done|]. apply wp_bind. eapply wp_store; [done|].
  eapply wp_store; [rewrite (payloads_hstore h p b _ Hp); apply lookup_insert_eq|].
  rewrite hstore_hstore. eapply rewindow; [done|done|reflexivity|done|done|].
  unfold window. simpl. split_and!; try done; try lia.
  destruct (ablk (buf_ b)); [|lia]. destruct Hm as (bs & ? & ? & ? & ? & ? & ?).
  exists bs. split_and!; try done; lia.
Qed.

(** [advance] on an empty window, as after [create]. *)
Lemma advance_empty_wp h p b n k :
  wf h -> payloads h !! p = Some b -> ablk (buf_ b) = Some k -> length_ b = 0 ->
  0 <= n <= tailroom b ->
  wp (advance p n) h (fun _ h' => rewindowed p (with_data (padd (data_ b) n) b) h h') nothrow.
Proof.
  intros Hw Hp Hk Hl Hn. pose proof (wf_window _ _ _ Hw Hp) as Hwin.
  assert (Ht := window_tailroom _ _ _ Hwin Hk).
  destruct Hwin as (Hd & H1 & H2 & Hm). rewrite Hk in Hm. destruct Hm as (bs & ? & ? & ? & ? & ? & ?).
  unfold advance. apply wp_bind. eapply wp_load; [done|].
  apply wp_bind, wp_assert; [apply bool_decide_eq_true; lia|].
  rewrite decide_False by lia. apply wp_bind, wp_ret. eapply wp_store; [done|].
  eapply rewindow; [done|done|reflexivity|done|done|].
  unfold window. simpl. rewrite Hk. split_and!; try done; try lia; [by rewrite Hd|].
  exists bs. split_and!; try done; lia.
Qed.

(** Nobody but [p] has a window on its block. *)
Definition sole (h : Heap) (p : positive) (k : positive) : Prop :=
  forall q c, q <> p -> payloads h !! q = Some c -> ablk (buf_ c) <> Some k.

(** Bytes written to the tailroom of [p] are seen by nobody. *)
Lemma store_tail_wp h p b k bs :
  wf h -> payloads h !! p = Some b -> ablk (buf_ b) = Some k -> sole h p k ->
  zlen bs <= tailroom b ->
  wp (store_bytes (tail b) bs) h
    (fun _ h' => wf h' /\ keeps [] [] h h' /\ bufs h' = bufs h /\
       infos h' = infos h /\ storages h' = storages h /\
       bytes (blocks h') (with_length (length_ b + zlen bs) b) = bytes (blocks h) b ++ bs)
    nothrow.
Proof.
  intros Hw Hp Hk Hsole Hn. pose proof (wf_window _ _ _ Hw Hp) as Hwin.
  rewrite (window_tailroom _ _ _ Hwin Hk) in Hn. pose proof (zlen_nonneg bs) as Hnn.
  destruct Hwin as (Hd & H1 & H2 & Hm). rewrite Hk in Hm, Hd.
  destruct Hm as (old & Hold & ? & ? & ? & ? & ?).
  eapply (wp_store_bytes h (tail b) bs k old); [done|done|simpl; lia|simpl; lia|]. simpl.
  split_and!; try done.
  - unfold wf. simpl. eapply wfm_bytes; [done| |exact Hw]. apply zlen_overwrite; lia.
  - split; try done. intros q _ [c Hc]. destruct (decide (q = p)) as [->|Hne].
    + simplify_eq. unfold node_bytes. change (payloads (on_blocks _ h)) with (payloads h).
      rewrite Hp. unfold bytes. rewrite Hd. simpl. rewrite lookup_insert_eq, Hold. simpl.
      apply slice_overwrite_before; lia.
    + eapply node_bytes_block; [done|].
      destruct (wf_window _ _ _ Hw Hc) as (-> & _). by apply (Hsole q).
  - unfold bytes. simpl. rewrite Hd. simpl. rewrite lookup_insert_eq, Hold. simpl.
    rewrite slice_split by lia. f_equal.
    + apply slice_overwrite_before; lia.
    + apply slice_overwrite; lia.
Qed.
End Window.

(** ** Copies of user data *)

Section Copy.
Implicit Types (h : Heap) (p q : positive) (b : Payload).

(** An IOBuf that is not marked as shared is the only user of its block. *)
Lemma sole_unflagged h p b s k :
  wf h -> payloads h !! p = Some b -> sharedInfo b = Some s ->
  has_flag kFlagMaybeShared b = false -> ablk (buf_ b) = Some k -> sole h p k.
Proof.
  intros Hw Hp Hs Hf Hk q c Hne Hc.
  destruct (last_user h p b s Hw Hp Hs (w_flag _ _ _ _ Hw _ _ _ Hp Hs Hf) q c Hne Hc) as [_ H].
  by apply H.
Qed.

Lemma padd_0 a : padd a 0 = a.
Proof. destruct a. unfold padd. simpl. by rewrite Z.add_0_r. Qed.

Lemma rewindowed_on_heap h h' p b q : rewindowed p b h h' -> on_heap h q -> on_heap h' q.
Proof. intros (_ & _ & _ & _ & _ & Hs) (f & Hf & Ht). exists f. by rewrite Hs. Qed.

(** [p] is a new IOBuf that holds [bs]. *)
Definition copied (p : positive) (bs : list Z) (hr tr : Z) (h h' : Heap) : Prop :=
  exists b, created p b h h' /\ node_bytes h' p = bs /\ isManagedOne b = true /\
    flags b = 0 /\ headroom b = hr /\ tr <= tailroom b.

(** The end of [copyBuffer]: an empty buffer is filled after [hr] bytes of
    headroom. *)
Lemma fill_wp {A} h h0 p a cap bs hr tr (k : Mem A) Q E :
  created p (fresh_payload a cap) h0 h -> 0 <= hr -> 0 <= tr -> hr + zlen bs + tr <= cap ->
  (forall h', copied p bs hr tr h0 h' -> (on_heap h p -> on_heap h' p) -> wp k h' Q E) ->
  wp (advance p hr;;
      (if decide (zlen bs <> 0) then b ← load p; store_bytes (data_ b) bs else mret tt);;
      append p (zlen bs);; k) h Q E.
Proof.
  intros (Hw & Hk & Hp0 & Hc & Hpay) Hhr Htr Hcap Hcont. pose proof (zlen_nonneg bs) as Hz.
  assert (Hp : payloads h !! p = Some (fresh_payload a cap)) by (rewrite Hpay; apply lookup_insert_eq).
  pose proof (window_tailroom _ _ a (wf_window _ _ _ Hw Hp) eq_refl) as Ht. simpl in Ht.
  apply wp_bind. eapply wp_nothrow; [eapply advance_empty_wp; [done|done|done|done|lia]|].
  set (b1 := with_data _ _). intros [] h1 Hr1. pose proof (rewindowed_pay _ _ _ _ Hr1) as Hp1.
  pose proof (rewindowed_chain _ _ _ _ _ Hr1 Hc) as Hc1.
  pose proof (fun q => rewindowed_on_heap _ _ _ _ q Hr1) as Ho1.
  destruct Hr1 as (Hw1 & Hk1 & Hpay1 & _).
  assert (Hs1 : sharedInfo b1 = Some a) by apply (sharedInfo_fresh a cap).
  assert (Hf1 : has_flag kFlagMaybeShared b1 = false) by apply (has_flag_fresh kFlagMaybeShared a cap).
  pose proof (window_tailroom _ _ a (wf_window _ _ _ Hw1 Hp1) eq_refl) as Ht1. simpl in Ht1.
  apply wp_bind. eapply wp_nothrow with (Q := fun _ h2 => wf h2 /\ keeps [] [] h1 h2 /\
    bufs h2 = bufs h1 /\ storages h2 = storages h1 /\ bytes (blocks h2) (with_length (zlen bs) b1) = bs).
  { case_decide as Hd.
    - apply wp_bind. eapply wp_load; [done|]. rewrite <- (padd_0 (data_ b1)).
      change (padd (data_ b1) 0) with (tail b1).
      eapply wp_wand; [eapply (store_tail_wp h1 p b1 a); [done|done|done| |lia]|].
      { by eapply sole_unflagged. }
      intros [] h2 (Hw2 & Hk2 & Hb2 & _ & Hst2 & Hby2). simpl in Hby2. split_and!; try done.
    - apply wp_ret. split_and!; try done; try apply keeps_refl.
      assert (zlen bs = 0) as -> by lia. destruct bs; [done|unfold zlen in *; simpl in *; lia]. }
  intros [] h2 (Hw2 & Hk2 & Hb2 & Hst2 & Hby2).
  assert (Hp2 : payloads h2 !! p = Some b1) by by rewrite (payloads_of_bufs _ _ Hb2).
  apply wp_bind. eapply wp_nothrow; [eapply append_wp; [done|done|done|lia]|].
  intros [] h3 Hr3. pose proof (rewindowed_pay _ _ _ _ Hr3) as Hp3.
  assert (Hc3 : chain h3 [p]).
  { eapply rewindowed_chain; [done|]. eapply keeps_chain; [done|set_solver|done]. }
  pose proof (fun q => rewindowed_on_heap _ _ _ _ q Hr3) as Ho3.
  destruct Hr3 as (Hw3 & Hk3 & Hpay3 & Hbl3 & _). apply Hcont.
  2:{ intros Ho. apply Ho3. destruct (Ho1 _ Ho) as (f & Hf & Hft). exists f. by rewrite Hst2. }
  eexists. unfold created. split_and!; try done.
  - eapply keeps_new; [exact Hk|done|]. eapply keeps_trans; [done|].
    eapply keeps_trans; [|done]. eapply keeps_weaken; [| |done]; set_solver.
  - rewrite Hpay3, (payloads_of_bufs _ _ Hb2), Hpay1, Hpay. by rewrite !insert_insert_eq.
  - rewrite (node_bytes_pay _ _ _ Hp3), Hbl3. done.
  - unfold isManagedOne. apply bool_decide_eq_true. by exists a.
  - apply (flags_fresh a cap).
  - rewrite (window_headroom _ _ (wf_window _ _ _ Hw3 Hp3)). simpl. lia.
  - rewrite (window_tailroom _ _ a (wf_window _ _ _ Hw3 Hp3)) by done. simpl. lia.
Qed.

Lemma copyBuffer_wp h bs hr tr :
  wf h -> alloc_ok h -> 0 <= hr -> 0 <= tr -> hr + zlen bs + tr + offsetof_align <= max_alloc ->
  wp (copyBuffer bs hr tr) h (fun p h' => on_heap h' p /\ copied p bs hr tr h h') nothrow.
Proof.
  intros Hw Ha Hhr Htr Hm. pose proof (zlen_nonneg bs). unfold copyBuffer. cbv zeta.
  unfold offsetof_align, max_alloc in Hm.
  rewrite (u64_small (hr + zlen bs)), (u64_small (hr + zlen bs + tr)) by lia.
  apply wp_bind. eapply wp_wand; [apply create_wp; [done|done|lia|]|].
  { unfold offsetof_align, max_alloc. lia. }
  intros p h1 (Ho & a & cap & Hcap & Hc & Hbl).
  eapply (fill_wp _ _ _ _ _ _ _ tr); [exact Hc|lia|done|lia|]. intros h2 Hc2 Ho2. apply wp_ret. split; [by apply Ho2|done].
Qed.
End Copy.
