(* ===== verification/IOBufShare.v ===== *)
(** * io/IOBuf: sharing

    [isSharedOne], [unshareOne] and the replacement of a buffer by a private
    one: nobody loses bytes, and afterwards the IOBuf is the only user of its
    buffer. *)

From stdpp Require Import base list gmap strings.
From S2P Require Import Prelude IOBufMem IOBuf IOBufChain IOBufInv IOBufWf IOBufPrim IOBufRelease IOBufLife IOBufWindow.

#[local] Opaque chain.

(** A buffer that was obtained from [allocExtBuffer] and that no IOBuf uses yet. *)
Record orphan (a : positive) (bs : list Z) (h : Heap) : Prop := {
  o_info : infos h !! a = Some (new_SharedInfo None 0);
  o_block : blocks h !! a = Some bs;
  o_store : storages h !! a = None;
  o_unused : forall q c, payloads h !! q = Some c -> ablk (buf_ c) <> Some a /\ sharedInfo c <> Some a }.

(** The object [p] has payload [b] now, and no other object is affected. *)
Definition replaced (p : positive) (b : Payload) (h h' : Heap) : Prop :=
  wf h' /\ keeps [p] [] h h' /\ payloads h' = <[p:=b]> (payloads h) /\
  (forall q, on_heap h q -> on_heap h' q).

(** A payload on the private external buffer [a]. *)
Definition private (a : positive) (b : Payload) : Prop :=
  sharedInfo b = Some a /\ flags b = 0 /\ buf_ b = Addr (Some a) 0.

Section Private.
Implicit Types (h : Heap) (p q a : positive) (b c : Payload) (bs : list Z).

Lemma orphan_hext h cap :
  wf h -> orphan (fresh_id h) (replicate (Z.to_nat cap) 0) (hext (fresh_id h) cap h).
Proof.
  intros Hw. destruct (fresh_id_spec h) as (_ & Hi & Hb & Hs).
  split; simpl; [by rewrite lookup_insert_eq..|done|].
  intros q c Hq. by eapply unused_block.
Qed.

Lemma wf_hext h cap : wf h -> wf (hext (fresh_id h) cap h).
Proof.
  intros Hw. destruct (fresh_id_spec h) as (_ & Hi & Hb & Hs).
  pose proof (unused_block h (fresh_id h) Hw Hb Hi) as Hun.
  unfold wf. simpl. eapply wfm_shrink; [exact Hw| | | |].
  - intros q c s Hq Hsi. destruct (Hun q c Hq) as [_ Hne].
    rewrite !lookup_insert_ne by congruence. split_and!; eauto.
  - intros q c k Hq Hk. destruct (Hun q c Hq) as [Hne _].
    rewrite !lookup_insert_ne by congruence. by split_and!.
  - apply (w_store _ _ _ _ Hw).
  - apply (w_obj _ _ _ _ Hw).
Qed.

(** Writing to a buffer that nobody uses. *)
Lemma orphan_write a bs bs' h :
  orphan a bs h -> wf h -> zlen bs' = zlen bs ->
  orphan a bs' (on_blocks (insert a bs') h) /\ wf (on_blocks (insert a bs') h) /\
  keeps [] [] h (on_blocks (insert a bs') h).
Proof.
  intros [Hi Hb Hs Hu] Hw Hz. split_and!.
  - split; try done. simpl. by rewrite lookup_insert_eq.
  - unfold wf. simpl. by eapply wfm_bytes.
  - apply keeps_write. intros q c _ Hq. destruct (wf_window _ _ _ Hw Hq) as (-> & _).
    by apply (Hu q).
Qed.

(** The new buffer belongs to the running function, ... *)
Lemma tidyx_hext X C h cap : tidyx X C h -> tidyx X ({[fresh_id h]} ∪ C) (hext (fresh_id h) cap h).
Proof.
  intros [T1 T2 T3 T4 T5]. split; simpl; try done.
  - intros s. rewrite lookup_insert. case_decide; [subst; intros _; left; set_solver|].
    intros Hs. destruct (T1 s Hs) as [?|?]; [left; set_solver|by right].
  - intros k. rewrite lookup_insert. case_decide; [subst; intros _; left; set_solver|].
    intros Hk. destruct (T4 k Hk) as [?|?]; [left; set_solver|by right].
  - intros q c k Hq Hs Hk. specialize (T5 q c k Hq Hs Hk). set_solver.
Qed.

(** ... which writes to it, ... *)
Lemma tidyx_write X C h k bs : k ∈ C -> tidyx X C h -> tidyx X C (on_blocks (insert k bs) h).
Proof.
  intros Hk [T1 T2 T3 T4 T5]. split; simpl; try done.
  intros j. rewrite lookup_insert. case_decide; [subst; by left|apply T4].
Qed.

(** ... until it is given to an IOBuf. *)
Lemma tidym_attach X C P I B St p a b :
  tidym X ({[a]} ∪ C) (<[p:=null_payload]> P) I B St ->
  (forall q c, P !! q = Some c -> ablk (buf_ c) <> Some a /\ sharedInfo c <> Some a) ->
  sharedInfo b = Some a -> ablk (buf_ b) = Some a ->
  tidym X C (<[p:=b]> P) I B St.
Proof.
  intros [T1 T2 T3 T4 T5] Hu Hs Hb.
  assert (Hrefs : forall s, (refs (<[p:=null_payload]> P) s <= refs (<[p:=b]> P) s)%nat).
  { intros s. rewrite <- (insert_insert_eq P p b null_payload).
    pose proof (refs_insert_old (<[p:=null_payload]> P) p null_payload b s (lookup_insert_eq _ _ _)) as Hc.
    rewrite decide_False in Hc by done. lia. }
  assert (Hra : (0 < refs (<[p:=b]> P) a)%nat) by (eapply refs_pos; [apply lookup_insert_eq|done]).
  split.
  - intros s Hi. specialize (Hrefs s). destruct (T1 s Hi) as [[->%elem_of_singleton|?]%elem_of_union|[?|?]];
      [by right; left|by left|right; left; lia|by right; right].
  - intros q f Hf Hbit. destruct (T2 q f Hf Hbit) as [?|Hq]; [by left|right]. rewrite lookup_insert in *. case_decide; eauto.
  - intros s f Hf Hbit. specialize (Hrefs s). specialize (T3 s f Hf Hbit). lia.
  - intros k Hk. destruct (T4 k Hk) as [[->%elem_of_singleton|?]%elem_of_union|[?|(q & c & Hq & Hc)]].
    + right. right. exists p, b. by rewrite lookup_insert_eq.
    + by left.
    + by right; left.
    + right. right. exists q, c. rewrite lookup_insert in *. case_decide; [by simplify_eq|done].
  - intros q c k. rewrite lookup_insert. case_decide; [intros [= <-]; congruence|]. intros Hq Hsc Hk.
    destruct (Hu q c Hq) as [Hne _]. assert (k ∈ {[a]} ∪ C); [|set_solver].
    apply (T5 q c k); [by rewrite lookup_insert_ne|done|done].
Qed.

(** The old buffer is given up and the orphan takes its place. *)
Lemma reattach h1 h2 p b a bs b' f :
  wf h1 -> payloads h1 !! p = Some b -> orphan a bs h1 -> released p h1 h2 ->
  f b = b' -> private a b' -> window {[a := bs]} b' ->
  replaced p b' h1 (hstore p f h2) /\ blocks (hstore p f h2) !! a = Some bs /\
  infos (hstore p f h2) !! a = Some (new_SharedInfo None 0) /\
  (forall X C, tidyx X ({[a]} ∪ C) h1 -> tidyx X C (hstore p f h2)).
Proof.
  intros Hw Hp [Hi Hb Hs Hu] (Hw2 & Hk2 & Ho2 & Hb2 & Hsame & Ht2) Hf (Hsi & Hfl & Hbuf) Hwin.
  destruct (Hu p b Hp) as [Hua Hus]. destruct (Hsame b a Hp Hus Hua) as (Hi2 & Hbl2 & Hst2).
  rewrite Hi in Hi2. rewrite Hb in Hbl2. rewrite Hs in Hst2.
  pose proof (payloads_of_bufs _ _ Hb2) as Hpay2.
  assert (Hp2 : payloads h2 !! p = Some b) by by rewrite Hpay2.
  split_and!; [|done|done|].
  2:{ intros X C Ht. unfold tidyx. rewrite (payloads_hstore h2 p b f Hp2), Hf, Hpay2.
      apply (tidym_attach _ _ _ _ _ _ _ a); [by apply Ht2|done|done|by rewrite Hbuf]. }
  unfold replaced. rewrite (payloads_hstore h2 p b f Hp2), Hf, Hpay2. split_and!.
  - unfold wf. rewrite (payloads_hstore h2 p b f Hp2), Hf, Hpay2. simpl.
    unfold wf_without in Hw2. rewrite Hpay2 in Hw2.
    rewrite <- (insert_delete_id (infos h2) a _ Hi2), <- (insert_delete_id (blocks h2) a _ Hbl2).
    rewrite <- (insert_insert_eq (payloads h1) p b' null_payload).
    eapply (wfm_attach _ _ _ (storages h2)); try done; try (by rewrite lookup_delete_eq).
    + intros fl Hfa. congruence.
    + intros c. rewrite lookup_insert_eq. by intros [= <-].
    + intros fl Hfa. eapply (w_obj _ _ _ _ Hw2); [done|]. rewrite lookup_insert_eq. eauto.
    + left. unfold has_flag. rewrite Hfl. split_and!; [done|done|]. by left.
    + rewrite insert_delete_id by done. unfold window in *. rewrite Hbuf in *. simpl in *.
      rewrite lookup_singleton_eq in Hwin. by rewrite Hbl2.
    + eapply wfm_shrink; [exact Hw2| | |apply (w_store _ _ _ _ Hw2)|apply (w_obj _ _ _ _ Hw2)].
      * intros q c s Hq Hsc. lookups. destruct (Hu q c) as [_ Hne]; [done|].
        rewrite !lookup_delete_ne by congruence. split_and!; eauto.
      * intros q c k Hq Hk. lookups. destruct (Hu q c) as [Hne _]; [done|].
        rewrite !lookup_delete_ne by congruence. by split_and!.
  - eapply keeps_trans; [done|by eapply keeps_hstore].
  - done.
  - intros q Hq. apply Ho2 in Hq. exact Hq.
Qed.
End Private.

(** ** [isSharedOne] and [unshareOne] *)

(** Somebody else may hold the buffer of [b]: it is not managed, it was marked
    as externally shared, or there is another IOBuf on it. *)
Definition one_shared (h : Heap) (b : Payload) : Prop :=
  match sharedInfo b with
  | None => True
  | Some s => (exists i, infos h !! s = Some i /\ externallyShared i = true) \/
              (1 < refs (payloads h) s)%nat
  end.

Section Unshare.
Implicit Types (h : Heap) (p q a : positive) (b c : Payload) (bs : list Z).

Lemma rewindowed_refl h p b : wf h -> payloads h !! p = Some b -> rewindowed p b h h.
Proof.
  intros Hw Hp. unfold rewindowed. split_and!; try done. by rewrite insert_id.
Qed.

Lemma clearFlags_word f b :
  flagsAndSharedInfo_ (clearFlags f b) = Z.ldiff (flagsAndSharedInfo_ b) f.
Proof. done. Qed.

(** The answer is exact, and a stale [kFlagMaybeShared] is cleared. *)
Lemma isSharedOne_wp h p b :
  wf h -> payloads h !! p = Some b ->
  wp (isSharedOne p) h
    (fun r h' => (r = true <-> one_shared h b) /\ (r = true -> h' = h) /\
       exists b', rewindowed p b' h h' /\
         (b' = b \/ b' = clearFlags kFlagMaybeShared b) /\
         (r = false -> has_flag kFlagMaybeShared b' = false)) nothrow.
Proof.
  intros Hw Hp. pose proof (rewindowed_refl _ _ _ Hw Hp) as Hrefl. unfold isSharedOne, one_shared.
  apply wp_bind. eapply wp_load; [done|]. destruct (sharedInfo b) as [s|] eqn:Hs.
  2:{ apply wp_ret. split_and!; [done|done|]. exists b. by split_and!; [|left|]. }
  destruct (w_info _ _ _ _ Hw p b s Hp Hs) as (i & Hi & Hrc & _).
  apply wp_bind. eapply wp_deref_info; [done|]. destruct (externallyShared i) eqn:He.
  { apply wp_ret. split_and!; [split; [|done]; intros _; left; eauto|done|]. exists b. by split_and!; [|left|]. }
  destruct (has_flag kFlagMaybeShared b) eqn:Hf; simpl.
  2:{ apply wp_ret. split_and!; [|done|exists b; by split_and!; [|left|]].
      rewrite (w_flag _ _ _ _ Hw p b s Hp Hs Hf). split; [done|].
      intros [(j & Hj & Hje)|]; [congruence|lia]. }
  apply wp_bind. case_bool_decide as Hgt.
  - apply wp_ret, wp_ret. split_and!; [split; [|done]; intros _; right; lia|done|].
    exists b. by split_and!; [|left|].
  - eapply wp_store; [done|]. apply wp_ret. split_and!; [|done|].
    { split; [done|]. intros [(j & Hj & Hje)|]; [congruence|lia]. }
    pose proof (refs_pos _ _ _ _ Hp Hs) as Hpos.
    assert (Hs' : sharedInfo (clearFlags kFlagMaybeShared b) = sharedInfo b) by by apply sharedInfo_clearFlags.
    assert (Hf' : has_flag kFlagMaybeShared (clearFlags kFlagMaybeShared b) = false).
    { by rewrite has_shared_bit, clearFlags_word, Z.ldiff_spec, andb_false_r. }
    exists (clearFlags kFlagMaybeShared b). split_and!; [|by right|done].
    unfold rewindowed. split_and!; try done.
    + unfold wf. rewrite (payloads_hstore h p b _ Hp). simpl. eapply wfm_replace; try done.
      * by rewrite !has_free_bit, clearFlags_word, Z.ldiff_spec, andb_true_r.
      * intros t. rewrite Hs', Hs. intros [= <-] _. lia.
      * exact (wf_window _ _ _ Hw Hp).
    + by eapply keeps_hstore.
    + by apply payloads_hstore.
Qed.

(** A payload with the window of [b] in the private buffer [a]. *)
Definition rehomed (a : positive) (b : Payload) : Payload :=
  mkPayload (Addr (Some a) (headroom b)) (Addr (Some a) 0) (length_ b) (capacity_ b)
    (packFlagsAndSharedInfo 0 (Some a)).

Lemma window_room B b : window B b -> 0 <= headroom b /\ headroom b + length_ b <= capacity_ b.
Proof.
  intros Hwin. rewrite (window_headroom _ _ Hwin). destruct Hwin as (Hd & H1 & H2 & Hm).
  destruct (ablk (buf_ b)); [destruct Hm as (? & ? & ? & ? & ? & ? & ?)|]; lia.
Qed.

Lemma window_rehomed B b a bs :
  window B b -> capacity_ b <= zlen bs <= max_alloc -> window {[a := bs]} (rehomed a b).
Proof.
  intros Hwin Hz. pose proof (window_room _ _ Hwin). destruct Hwin as (Hd & H1 & H2 & _).
  unfold window. simpl. rewrite lookup_singleton_eq. split_and!; try done; try lia.
  exists bs. split_and!; try done; lia.
Qed.

Lemma private_rehomed a b : private a (rehomed a b).
Proof.
  split_and!; [|exact (flags_fresh a 0)|done]. exact (sharedInfo_fresh a 0).
Qed.

(** The copy of the window of an IOBuf to the orphan. *)
Lemma copy_to_orphan h p b a old off :
  wf h -> payloads h !! p = Some b -> orphan a old h -> 0 <= off -> off + length_ b <= zlen old ->
  wp (if decide (0 < length_ b) then memcpy (Addr (Some a) off) (data_ b) (length_ b) else mret tt) h
    (fun _ h' => h' = on_blocks (insert a (overwrite off (node_bytes h p) old)) h) nothrow.
Proof.
  intros Hw Hp Ho Hoff Hz. pose proof (wf_window _ _ _ Hw Hp) as Hwin.
  pose proof (window_bytes_len _ _ Hwin) as Hlen. rewrite (node_bytes_pay _ _ _ Hp).
  destruct (o_unused _ _ _ Ho p b Hp) as [Hne _]. case_decide as Hd.
  - destruct Hwin as (Hk & H1 & H2 & Hm). destruct (ablk (buf_ b)) as [k|] eqn:Hbk; [|lia].
    destruct Hm as (bs & Hbs & ? & ? & ? & ? & ?).
    eapply (wp_memcpy h (Addr (Some a) off) (data_ b) (length_ b) a k old bs);
      [done|done|lia|lia|done|by apply (o_block _ _ _ Ho)|done|done|lia|congruence|].
    unfold bytes. by rewrite Hk, Hbs.
  - apply wp_ret. assert (bytes (blocks h) b = []) as ->.
    { apply nil_length_inv. unfold zlen in Hlen. lia. }
    rewrite overwrite_nil. symmetry. apply on_blocks_id. by apply (o_block _ _ _ Ho).
Qed.

Lemma unshareOneSlow_wp h p b :
  wf h -> payloads h !! p = Some b -> capacity_ b + 31 <= max_alloc ->
  wp (unshareOneSlow p) h
    (fun _ h' => exists a, replaced p (rehomed a b) h h' /\ node_bytes h' p = node_bytes h p /\
       infos h' !! a = Some (new_SharedInfo None 0))
    (fun e h' => e = bad_alloc /\ refused h /\ unchanged h h').
Proof.
  intros Hw Hp Hcap. pose proof (wf_window _ _ _ Hw Hp) as Hwin.
  pose proof (window_room _ _ Hwin) as Hroom. assert (0 <= length_ b) by apply Hwin.
  assert (0 <= capacity_ b) by apply Hwin.
  pose proof (window_bytes_len _ _ Hwin) as Hlen. rewrite <- (node_bytes_pay _ _ _ Hp) in Hlen.
  unfold unshareOneSlow. apply wp_bind. eapply wp_load; [done|]. apply wp_bind.
  apply allocExtBuffer_wp; [done|done| |].
  2:{ intros Hr. split_and!; [done|done|by apply unchanged_count]. }
  intros cap Hc. simpl. set (a := fresh_id h). set (h1 := hext a cap h).
  pose proof (keeps_hext h cap Hw) as Hk1. pose proof (wf_hext h cap Hw) as Hw1.
  pose proof (orphan_hext h cap Hw) as Ho1. fold a h1 in Hk1, Hw1, Ho1.
  assert (Hzc : zlen (replicate (Z.to_nat cap) 0) = cap) by (apply zlen_replicate; lia).
  apply wp_bind. eapply wp_nothrow; [eapply (copy_to_orphan h1 p b a _ (headroom b)); [done..|lia|]|].
  { rewrite Hzc. lia. }
  intros [] h2 ->. rewrite (k_bytes _ _ _ _ Hk1 p); [|set_solver|eauto].
  set (bs := overwrite _ _ _).
  assert (Hzb : zlen bs = cap) by (unfold bs; rewrite zlen_overwrite; rewrite ?Hlen, ?Hzc; lia).
  destruct (orphan_write a _ bs h1 Ho1 Hw1) as (Ho2 & Hw2 & Hk2); [by rewrite Hzb, Hzc|].
  set (h2 := on_blocks _ h1) in *.
  assert (Hp2 : payloads h2 !! p = Some b) by done.
  apply wp_bind. eapply wp_nothrow; [by eapply (decrementRefcount_wp h2 p b)|]. intros [] h3 Hrel.
  assert (Hp3 : payloads h3 !! p = Some b).
  { destruct Hrel as (_ & _ & _ & Hb3 & _). by rewrite (payloads_of_bufs _ _ Hb3). }
  apply wp_bind. eapply wp_store; [done|].
  apply wp_bind. eapply wp_store; [rewrite (payloads_hstore h3 p b _ Hp3); apply lookup_insert_eq|].
  rewrite hstore_hstore.
  eapply wp_store; [rewrite (payloads_hstore h3 p b _ Hp3); apply lookup_insert_eq|].
  rewrite hstore_hstore.
  destruct (reattach h2 h3 p b a bs (rehomed a b)
    (fun x => with_buf (Addr (Some a) 0) (with_data (padd (Addr (Some a) 0) (headroom b))
       (setFlagsAndSharedInfo 0 (Some a) x)))) as (Hrep & Hbl & Hin & _); [done..| |apply private_rehomed| |].
  { unfold rehomed, with_buf, with_data, setFlagsAndSharedInfo, with_flags, padd. simpl. done. }
  { eapply window_rehomed; [done|]. lia. }
  exists a. destruct Hrep as (Hwr & Hkr & Hpr & Hor). unfold replaced. split_and!; try done.
  - eapply keeps_trans; [eapply keeps_weaken; [| |exact Hk1]; set_solver|].
    eapply keeps_trans; [eapply keeps_weaken; [| |exact Hk2]; set_solver|done].
  - rewrite (node_bytes_pay _ p (rehomed a b)) by (rewrite Hpr; apply lookup_insert_eq).
    unfold bytes. simpl in *. rewrite Hbl. simpl. rewrite <- Hlen. unfold bs.
    apply slice_overwrite; [lia|]. rewrite Hlen, Hzc. lia.
Qed.

(** A payload on a private buffer that was not marked is not shared. *)
Lemma private_not_shared h p b a i :
  wf h -> payloads h !! p = Some b -> private a b -> infos h !! a = Some i ->
  externallyShared i = false -> ~ one_shared h b.
Proof.
  intros Hw Hp (Hs & Hf & _) Hi He. unfold one_shared. rewrite Hs.
  assert (Hms : has_flag kFlagMaybeShared b = false) by (unfold has_flag; by rewrite Hf).
  rewrite (w_flag _ _ _ _ Hw p b a Hp Hs Hms). intros [(j & Hj & Hje)|]; [congruence|lia].
Qed.

(** The window has the same place in its buffer. *)
Definition same_window (b b' : Payload) : Prop :=
  length_ b' = length_ b /\ capacity_ b' = capacity_ b /\ headroom b' = headroom b.

Lemma headroom_rehomed B a b : window B b -> headroom (rehomed a b) = headroom b.
Proof.
  intros Hwin. pose proof (window_room _ _ Hwin). assert (capacity_ b <= max_alloc) by apply Hwin.
  assert (0 <= length_ b) by apply Hwin.
  unfold headroom at 1, pdiff. simpl. unfold max_alloc in *. rewrite u64_small; lia.
Qed.

Lemma rewindowed_replaced p b h h' : rewindowed p b h h' -> replaced p b h h'.
Proof.
  intros Hr. pose proof (fun q => rewindowed_on_heap _ _ _ _ q Hr) as Ho.
  destruct Hr as (Hw & Hk & Hp & _). by split_and!.
Qed.

Lemma unshareOne_wp h p b :
  wf h -> payloads h !! p = Some b -> capacity_ b + 31 <= max_alloc ->
  wp (unshareOne p) h
    (fun _ h' => exists b', replaced p b' h h' /\ node_bytes h' p = node_bytes h p /\
       same_window b b' /\ ~ one_shared h' b')
    (fun e h' => e = bad_alloc /\ refused h /\ unchanged h h').
Proof.
  intros Hw Hp Hcap. pose proof (wf_window _ _ _ Hw Hp) as Hwin. unfold unshareOne. apply wp_bind.
  eapply wp_nothrow; [by eapply isSharedOne_wp|]. intros r h1 (Hr & Hid & b1 & Hrw & Hcase & Hfl).
  assert (Hsw : same_window b b1) by by destruct Hcase as [->| ->].
  destruct r.
  - rewrite (Hid eq_refl). eapply wp_wand; [by eapply unshareOneSlow_wp|].
    intros [] h2 (a & Hrep & Hby & Hin). exists (rehomed a b). split_and!; try done.
    + split_and!; [done|done|by eapply headroom_rehomed].
    + destruct Hrep as (Hw2 & _ & Hp2 & _). eapply private_not_shared; [done| |apply private_rehomed|done|done].
      rewrite Hp2. apply lookup_insert_eq.
  - apply wp_ret. exists b1. pose proof (rewindowed_pay _ _ _ _ Hrw) as Hp1.
    assert (Hs1 : sharedInfo b1 = sharedInfo b) by (destruct Hcase as [->| ->]; [|apply sharedInfo_clearFlags]; done).
    split_and!; [by apply rewindowed_replaced| |done|].
    + destruct Hrw as (_ & _ & _ & Hbl & _). rewrite (node_bytes_pay _ _ _ Hp1), (node_bytes_pay _ _ _ Hp), Hbl.
      by destruct Hcase as [->| ->].
    + destruct Hrw as (_ & _ & Hpay & _ & Hin & _). intros Hsh.
      enough (false = true) by done. apply Hr. revert Hsh. unfold one_shared.
      rewrite Hs1, Hin, Hpay. destruct (sharedInfo b) as [s|] eqn:Hsb; [|done].
      by rewrite (refs_insert_same _ p b) by congruence.
Qed.
End Unshare.
