(* ===== verification/IOBufClone.v ===== *)
(** * io/IOBuf: clones and moves

    A clone has the bytes of the original and shares its buffers; moving a
    value to the heap keeps its chain. *)

From stdpp Require Import base list gmap strings.
From S2P Require Import Prelude IOBufMem IOBuf IOBufChain IOBufInv IOBufWf IOBufPrim IOBufRelease IOBufLife IOBufWindow IOBufShare.

#[local] Opaque chain.

(** The payload of an IOBuf that was cloned, and of its clone. *)
Definition marked (b : Payload) : Payload :=
  match sharedInfo b with Some _ => setFlags kFlagMaybeShared b | None => b end.

(** [q] is a new IOBuf on the buffer of [p]. *)
Definition cloned (p q : positive) (b : Payload) (h h' : Heap) : Prop :=
  wf h' /\ keeps [p] [] h h' /\ payloads h !! q = None /\ chain h' [q] /\
  payloads h' = <[q:=b]> (<[p:=b]> (payloads h)) /\
  node_bytes h' q = node_bytes h p /\ node_bytes h' p = node_bytes h p /\
  (on_heap h p -> on_heap h' p) /\ leakless h h'.

Section CloneOne.
Implicit Types (h : Heap) (p q s : positive) (b c : Payload).

Lemma sharedInfo_marked b : sharedInfo (marked b) = sharedInfo b.
Proof.
  unfold marked. destruct (sharedInfo b) eqn:Hs; [|done]. by rewrite sharedInfo_setFlags.
Qed.

Lemma marked_fields b :
  data_ (marked b) = data_ b /\ buf_ (marked b) = buf_ b /\ length_ (marked b) = length_ b /\
  capacity_ (marked b) = capacity_ b.
Proof. unfold marked. by destruct (sharedInfo b). Qed.

Lemma marked_flag b s :
  sharedInfo b = Some s -> has_flag kFlagMaybeShared (marked b) = true.
Proof.
  intros Hs. unfold marked. rewrite Hs, has_shared_bit.
  change (flagsAndSharedInfo_ _) with (Z.lor (flagsAndSharedInfo_ b) kFlagMaybeShared).
  by rewrite Z.lor_spec, orb_true_r.
Qed.

Lemma marked_free b : has_flag kFlagFreeSharedInfo (marked b) = has_flag kFlagFreeSharedInfo b.
Proof.
  unfold marked. destruct (sharedInfo b); [|done]. rewrite !has_free_bit.
  change (flagsAndSharedInfo_ (setFlags _ _)) with (Z.lor (flagsAndSharedInfo_ b) kFlagMaybeShared).
  by rewrite Z.lor_spec, orb_false_r.
Qed.

Lemma bytes_marked B b : bytes B (marked b) = bytes B b.
Proof. destruct (marked_fields b) as (H1 & _ & H2 & _). unfold bytes. by rewrite H1, H2. Qed.

Lemma window_marked B b : window B b -> window B (marked b).
Proof.
  destruct (marked_fields b) as (H1 & H2 & H3 & H4). unfold window. by rewrite H1, H2, H3, H4.
Qed.

Lemma wfm_marked P I B St p b :
  P !! p = Some b -> wfm P I B St -> wfm (<[p:=marked b]> P) I B St.
Proof.
  intros Hp Hw. destruct (marked_fields b) as (_ & Hb & _).
  eapply wfm_replace; [done|apply sharedInfo_marked|done|apply marked_free| | |done].
  - intros s. rewrite sharedInfo_marked. intros Hs. by rewrite (marked_flag b s Hs).
  - by eapply window_marked, (w_window _ _ _ _ Hw).
Qed.

(** The memory after the reference count of a clone was taken. *)
Definition counted (o : option positive) (I : gmap positive SharedInfo) : gmap positive SharedInfo :=
  match o with Some s => alter (fun i => with_refcount (refcount i + 1) i) s I | None => I end.

Lemma wfm_cloned P I B St p q b :
  P !! p = Some b -> P !! q = None -> St !! q = None ->
  (forall s, sharedInfo b = Some s -> Z.of_nat (refs P s) + 1 < 4294967296) -> wfm P I B St ->
  wfm (<[q:=marked b]> (<[p:=marked b]> P)) (counted (sharedInfo b) I) B St.
Proof.
  intros Hp Hq HSt Hcnt Hw. pose proof (wfm_marked _ _ _ _ _ _ Hp Hw) as Hw1.
  assert (Hpq : p <> q) by congruence.
  assert (Hq1 : <[p:=marked b]> P !! q = None) by by rewrite lookup_insert_ne.
  pose proof (sharedInfo_marked b) as Hsm. destruct (sharedInfo b) as [s|] eqn:Hs; simpl.
  - destruct (w_info _ _ _ _ Hw p b s Hp Hs) as (i & Hi & _).
    assert (alter (fun i => with_refcount (refcount i + 1) i) s I =
            <[s:=with_refcount (refcount i + 1) i]> I) as ->.
    { apply map_eq. intros t. rewrite lookup_alter, lookup_insert. case_decide; [|done].
      subst. by rewrite Hi. }
    eapply (wfm_share _ _ _ _ q p (marked b) s i); try done.
    + apply lookup_insert_eq.
    + by eapply marked_flag.
    + congruence.
    + congruence.
    + rewrite (refs_insert_same P p b); [by apply Hcnt|done|congruence].
  - assert (marked b = b) as Hm by (unfold marked; by rewrite Hs). rewrite Hm in *.
    eapply wfm_wrap; [congruence|by apply (w_window _ _ _ _ Hw p)| | | |done].
    + intros k Hk. destruct (w_user _ _ _ _ Hw p b k Hp Hs Hk) as [? ?]. split_and!; [done..|].
      intros r c Hc Hck. rewrite insert_id in Hc by done.
      by rewrite <- (w_blk _ _ _ _ Hw p r b c k).
    + congruence.
    + congruence.
Qed.

Lemma counted_dom o I t : is_Some (counted o I !! t) <-> is_Some (I !! t).
Proof.
  destruct o as [s|]; [|done]. unfold counted. rewrite lookup_alter. case_decide; [subst|done].
  by rewrite fmap_is_Some.
Qed.

Lemma refs_shared P p q b b' s :
  P !! p = Some b -> P !! q = None -> sharedInfo b' = sharedInfo b ->
  (refs P s <= refs (<[q:=b']> (<[p:=b']> P)) s)%nat.
Proof.
  intros Hp Hq Hs. assert (p <> q) by congruence. rewrite refs_insert_new by by rewrite lookup_insert_ne.
  rewrite (refs_insert_same P p b) by done. lia.
Qed.

(** Another user of a buffer. *)
Lemma tidym_share X C P I I' B St p q b b' :
  P !! p = Some b -> P !! q = None -> sharedInfo b' = sharedInfo b -> buf_ b' = buf_ b ->
  (forall t, is_Some (I' !! t) <-> is_Some (I !! t)) ->
  tidym X C P I B St -> tidym X C (<[q:=b']> (<[p:=b']> P)) I' B St.
Proof.
  intros Hp Hq Hs Hb HI [T1 T2 T3 T4 T5]. assert (Hpq : q <> p) by congruence.
  pose proof (fun s => refs_shared P p q b b' s Hp Hq Hs) as Hrefs. split.
  - intros s Hi%HI. specialize (Hrefs s). destruct (T1 s Hi) as [?|[?|?]]; [by left|right; left; lia|by right; right].
  - intros r f Hf Hbit. destruct (T2 r f Hf Hbit); [by left|right]. rewrite !lookup_insert. repeat case_decide; eauto.
  - intros s f Hf Hbit. specialize (Hrefs s). specialize (T3 s f Hf Hbit). lia.
  - intros k Hk. destruct (T4 k Hk) as [?|[?|(r & c & Hr & Hc)]]; [by left|by right; left|right; right].
    destruct (decide (r = p)) as [->|]; [exists p, b'|exists r, c].
    + rewrite lookup_insert_ne, lookup_insert_eq by done. simplify_eq. by rewrite Hb.
    + by rewrite !lookup_insert_ne by congruence.
  - intros r c k. rewrite !lookup_insert. repeat case_decide; [intros [= <-]..|apply T5]; rewrite Hs, Hb; by apply (T5 p).
Qed.

Lemma cloneOneAsValue_wp h p b :
  wf h -> payloads h !! p = Some b ->
  (forall s, sharedInfo b = Some s -> Z.of_nat (refs (payloads h) s) + 1 < 4294967296) ->
  wp (cloneOneAsValue p) h
    (fun q h' => cloned p q (marked b) h h' /\ storages h' = storages h /\
                 infos h' !! q = None /\ blocks h' !! q = None /\ storages h' !! q = None) nothrow.
Proof.
  intros Hw Hp Hcnt. unfold cloneOneAsValue. apply wp_bind. eapply wp_load; [done|]. apply wp_bind.
  pose proof (wf_window _ _ _ Hw Hp) as Hwin.
  eapply wp_wand with (Q := fun _ h1 => h1 = on_infos (counted (sharedInfo b)) (hstore p (fun _ => marked b) h)).
  { unfold marked. destruct (sharedInfo b) as [s|] eqn:Hs.
    - destruct (w_info _ _ _ _ Hw p b s Hp Hs) as (i & Hi & Hrc & _).
      specialize (Hcnt s eq_refl). pose proof (refs_pos _ _ _ _ Hp Hs).
      apply wp_bind. eapply wp_store; [done|]. apply wp_bind. eapply wp_deref_info; [done|].
      eapply wp_update_info; [done|]. rewrite u32_small by lia.
      unfold hstore, on_bufs, on_infos, counted. simpl. f_equal.
      + apply map_eq. intros t. rewrite !lookup_alter. case_decide; [|done]. subst.
        unfold payloads in Hp. rewrite lookup_fmap in Hp. destruct (bufs h !! t); [|done].
        simpl in *. by simplify_eq.
      + apply map_eq. intros t. rewrite lookup_insert, lookup_alter. case_decide; [|done].
        subst. by rewrite Hi.
    - apply wp_ret. destruct h. unfold hstore, on_bufs, on_infos. simpl. f_equal.
      apply map_eq. intros t. rewrite lookup_alter. case_decide; [|done]. subst.
      unfold payloads in Hp. simpl in Hp. rewrite lookup_fmap in Hp. destruct (bufs !! t) as [[]|]; [|done].
      simpl in *. by simplify_eq. }
  intros [] h1 ->. set (h1 := on_infos _ _).
  assert (Hpay1 : payloads h1 = <[p:=marked b]> (payloads h)) by exact (payloads_hstore h p b (fun _ => marked b) Hp).
  assert (Hp1 : payloads h1 !! p = Some (marked b)) by (rewrite Hpay1; apply lookup_insert_eq).
  apply wp_bind. eapply wp_load; [done|]. apply wp_bind, wp_gets.
  set (q := fresh_id h1). destruct (fresh_id_spec h1) as (Hq & Hqi & Hqb & Hqs). fold q in Hq, Hqi, Hqb, Hqs.
  apply payloads_none in Hq. pose proof (window_marked _ _ Hwin) as Hwm.
  apply wp_bind. unfold ctor_internal.
  apply wp_bind, wp_assert; [|apply wp_bind, wp_assert].
  1,2: destruct Hwm as (Hd & H1 & H2 & Hm); apply bool_decide_eq_true;
    destruct (ablk (buf_ (marked b))); [destruct Hm as (? & ? & ? & ? & ? & ? & ?)|];
    try (split; [done|]); lia.
  apply wp_modify. apply wp_ret.
  assert (Hne : q <> p) by congruence.
  assert (Hq0 : payloads h !! q = None) by by rewrite Hpay1, lookup_insert_ne in Hq.
  change (on_bufs (insert q _) h1) with (hconstruct q (mkPayload (data_ (marked b)) (buf_ (marked b))
    (length_ (marked b)) (capacity_ (marked b)) (flagsAndSharedInfo_ (marked b))) h1).
  replace (mkPayload _ _ _ _ _) with (marked b) by by destruct (marked b).
  split_and!; try done. unfold cloned.
  assert (Hpay2 : payloads (hconstruct q (marked b) h1) = <[q:=marked b]> (<[p:=marked b]> (payloads h)))
    by by rewrite payloads_hconstruct, Hpay1.
  split_and!; try done.
  - unfold wf. rewrite Hpay2. simpl. by apply wfm_cloned.
  - assert (Hk1 : keeps [p] [] h h1) by by destruct (keeps_hstore h p b (fun _ => marked b) Hp).
    eapply keeps_trans; [exact Hk1|].
    eapply keeps_weaken; [| |by apply (keeps_hconstruct h1 q (marked b))]; set_solver.
  - apply chain_hconstruct.
  - unfold node_bytes. rewrite Hpay2, lookup_insert_eq, Hp. by rewrite bytes_marked.
  - unfold node_bytes. rewrite Hpay2, lookup_insert_ne, lookup_insert_eq, Hp by done.
    by rewrite bytes_marked.
  - intros X C. unfold tidyx. rewrite Hpay2. apply (tidym_share _ _ _ _ _ _ _ p q b); [done|done|..].
    + apply sharedInfo_marked.
    + apply marked_fields.
    + intros t. apply counted_dom.
Qed.
End CloneOne.

(** ** Moves *)

Section Move.
Implicit Types (h : Heap) (p q t x y z : positive) (b c : Payload) (l : list positive).

(** An object takes the place of the head of a chain. *)
Lemma chain_subst h h' t p y l2 l1 z :
  chain h (t :: y :: l2) -> y :: l2 = l1 ++ [z] -> p ∉ t :: y :: l2 ->
  (forall q, nxt h' q = if decide (q = z) then Some p else if decide (q = t) then Some t else
                        if decide (q = p) then Some y else nxt h q) ->
  (forall q, prv h' q = if decide (q = t) then Some t else if decide (q = p) then Some z else
                        if decide (q = y) then Some p else prv h q) ->
  chain h' (p :: y :: l2) /\ chain h' [t].
Proof.
  intros Hc Hl Hp Hn Hv. pose proof (chain_NoDup _ _ Hc) as Hnd.
  apply NoDup_cons in Hnd as [Ht Hnd]. apply not_elem_of_cons in Hp as [Hpt Hp].
  assert (Hz : z ∈ y :: l2) by (rewrite Hl; apply elem_of_app; right; by left).
  assert (Hy : y ∈ y :: l2) by by left.
  assert (Hzt : z <> t) by (intros ->; done). assert (Hyt : y <> t) by (intros ->; done).
  assert (Hyp : y <> p) by (intros ->; done). assert (Hzp : z <> p) by (intros ->; done).
  split.
  2:{ apply chain_singleton; [rewrite Hn|rewrite Hv]; by repeat (case_decide; try done; subst). }
  apply chain_adjs in Hc. rewrite Hl in Hc.
  replace (t :: (l1 ++ [z]) ++ [t]) with ((t :: l1) ++ z :: [t]) in Hc
    by by rewrite <- (assoc_L (++)).
  apply adjs_app in Hc as [Hc _]. change ((t :: l1) ++ [z]) with (t :: (l1 ++ [z])) in Hc.
  rewrite <- Hl in Hc. apply adjs_cons in Hc as [_ Hseg].
  assert (Hadj : adjs h' (p :: (y :: l2) ++ [p])).
  { rewrite Hl, <- (assoc_L (++)). change (p :: l1 ++ [z] ++ [p]) with ((p :: l1) ++ z :: [p]).
    apply adjs_app. change ((p :: l1) ++ [z]) with (p :: (l1 ++ [z])). rewrite <- Hl. split.
    - apply adjs_cons. split.
      + split; [rewrite Hn|rewrite Hv]; by repeat (case_decide; try done; subst).
      + eapply adjs_frame; [| |exact Hseg].
        * intros q Hq. rewrite Hl, removelast_snoc in Hq. rewrite Hn.
          assert (Hql : q ∈ y :: l2) by (rewrite Hl; apply elem_of_app; by left).
          repeat case_decide; subst; try done.
          rewrite Hl in Hnd. apply NoDup_app in Hnd as (_ & Hd & _).
          exfalso. apply (Hd z Hq). by left.
        * intros q Hq. simpl in Hq. rewrite Hv. apply NoDup_cons in Hnd as [Hyl _].
          assert (Hql : q ∈ y :: l2) by by right.
          repeat case_decide; subst; done.
    - split; [|done]. split; [rewrite Hn|rewrite Hv]; by repeat (case_decide; try done; subst). }
  Transparent chain. split; [|exact Hadj]. apply NoDup_cons. done.
Qed.
Opaque chain.

Lemma move_links_wp h t l p :
  chain h (t :: l) -> chain h [p] -> p ∉ t :: l ->
  wp (move_links p t) h
    (fun _ h' => chain h' (p :: l) /\ chain h' [t] /\ relinked (p :: t :: l) h h') nothrow.
Proof.
  intros Hc Hp Hpl. destruct (chain_single_inv _ _ Hp) as [Hnp Hvp].
  destruct (chain_alive h (t :: l) t Hc) as [n Hn]; [by left|].
  unfold move_links. apply wp_bind. destruct l as [|y l2].
  - destruct (chain_single_inv _ _ Hc) as [Hnt Hvt]. eapply wp_next; [done|].
    rewrite decide_False by (intros H; by apply H). apply wp_bind, wp_ret. apply wp_bind.
    eapply wp_deref_links; [done..|]. intros c _ Hcn Hcp.
    apply wp_bind, wp_assert; [by apply bool_decide_eq_true|].
    apply wp_assert; [by apply bool_decide_eq_true|]. split_and!; [done|done|apply relinked_refl].
  - destruct (chain_next h t y l2 Hc) as [Hnt Hvy].
    destruct (snoc_exists y l2) as (l1 & z & Hl).
    assert (Hvt : prv h t = Some z).
    { rewrite (chain_pred h t (y :: l2) Hc), Hl. by rewrite last_snoc. }
    destruct (chain_alive h _ y Hc) as [ny Hny]; [by right; left|].
    assert (Hzl : z ∈ y :: l2) by (rewrite Hl; apply elem_of_app; right; by left).
    destruct (chain_alive h _ z Hc) as [nz Hnz]; [by right|].
    pose proof (chain_NoDup _ _ Hc) as Hnd. apply NoDup_cons in Hnd as [Ht _].
    assert (Hyt : y <> t) by (intros ->; apply Ht; by left).
    assert (Hzt : z <> t) by (intros ->; done).
    apply not_elem_of_cons in Hpl as Hpl'. destruct Hpl' as [Hpt Hpy].
    assert (Hzp : z <> p) by (intros ->; done).
    assert (Hyp : y <> p) by (intros ->; apply Hpy; by left).
    eapply wp_next; [done|]. rewrite decide_True by done. apply wp_bind.
    apply wp_bind, wp_set_next; [eauto|]. apply wp_bind, wp_set_prev; [links_alive; eauto|].
    apply wp_bind, wp_set_next; [links_alive; eauto|].
    apply wp_bind. eapply (wp_prev _ t z).
    { links_simpl. case_decide; done. }
    apply wp_bind, wp_set_prev; [links_alive; eauto|].
    apply wp_bind, wp_set_next; [links_alive; eauto|].
    apply wp_set_prev; [links_alive; eauto|].
    match goal with |- wp _ ?H _ _ => set (h' := H) end.
    assert (Hn' : forall q, nxt h' q = if decide (q = z) then Some p else
              if decide (q = t) then Some t else if decide (q = p) then Some y else nxt h q).
    { intros q. unfold h'. links_simpl. done. }
    assert (Hv' : forall q, prv h' q = if decide (q = t) then Some t else
              if decide (q = p) then Some z else if decide (q = y) then Some p else prv h q).
    { intros q. unfold h'. links_simpl. done. }
    apply wp_bind. eapply (wp_deref_links h' t t t).
    { rewrite Hn'. by repeat (case_decide; try done). }
    { rewrite Hv'. by case_decide. }
    intros c _ Hcn Hcp. apply wp_bind, wp_assert; [by apply bool_decide_eq_true|].
    apply wp_assert; [by apply bool_decide_eq_true|].
    destruct (chain_subst h h' t p y l2 l1 z) as [H1 H2]; try done. split_and!; [done|done|].
    assert (Hmem : forall q, q = p \/ q = t \/ q = y \/ q = z -> q ∈ p :: t :: y :: l2).
    { intros q [->|[->|[->| ->]]]; [by left|by right; left|by right; right; left|by right; right]. }
    unfold h'.
    repeat first
      [ eapply relinked_trans; [|apply relinked_hset_prev; [apply Hmem; tauto|links_alive; eauto]]
      | eapply relinked_trans; [|apply relinked_hset_next; [apply Hmem; tauto|links_alive; eauto]]
      | apply relinked_refl ].
Qed.

(** A payload moves to another object. *)
Lemma tidym_move X C P I B St t p b :
  P !! t = Some b -> P !! p = None -> tidym X C P I B St ->
  tidym X C (<[t:=null_payload]> (<[p:=b]> P)) I B St.
Proof.
  intros Ht Hp [T1 T2 T3 T4 T5]. assert (Hpt : p <> t) by congruence.
  assert (Hrefs : forall s, refs (<[t:=null_payload]> (<[p:=b]> P)) s = refs P s).
  { intros s. pose proof (refs_insert_new P p b s Hp) as H1.
    pose proof (refs_insert_old (<[p:=b]> P) t b null_payload s) as H2.
    rewrite lookup_insert_ne, (decide_False (P := sharedInfo null_payload = Some s)) in H2 by done.
    specialize (H2 Ht). lia. }
  split.
  - intros s Hs. rewrite Hrefs. by apply T1.
  - intros q f Hf Hb. destruct (T2 q f Hf Hb); [by left|right]. rewrite !lookup_insert. repeat case_decide; eauto.
  - intros s f Hf Hb. rewrite Hrefs. eauto.
  - intros k Hk. destruct (T4 k Hk) as [?|[?|(q & c & Hq & Hc)]]; [by left|by right; left|right; right].
    destruct (decide (q = t)) as [->|]; [exists p, c|exists q, c].
    + simplify_eq. by rewrite lookup_insert_ne, lookup_insert_eq.
    + by rewrite !lookup_insert_ne by congruence.
  - intros q c k. rewrite !lookup_insert. repeat case_decide; [by intros [= <-]|intros [= <-]|apply T5]. by apply (T5 t).
Qed.

(** The move constructor, in fresh memory. *)
Lemma ctor_move_wp h t l p b :
  wf h -> chain h (t :: l) -> payloads h !! t = Some b -> payloads h !! p = None ->
  (forall f, storages h !! p = Some f -> Z.testbit f 0 = true) ->
  wp (ctor_move t p) h
    (fun _ h' => wf h' /\ chain h' (p :: l) /\ chain h' [t] /\
       payloads h' = <[t:=null_payload]> (<[p:=b]> (payloads h)) /\
       keeps [t] (t :: l) h h' /\ node_bytes h' p = node_bytes h t /\
       storages h' = storages h /\ leakless h h') nothrow.
Proof.
  intros Hw Hc Ht Hp Hst. unfold ctor_move. apply wp_bind, wp_modify.
  change (on_bufs _ h) with (hconstruct p null_payload h). set (h1 := hconstruct _ _ h).
  assert (Hpay1 : payloads h1 = <[p:=null_payload]> (payloads h)) by apply payloads_hconstruct.
  assert (Hw1 : wf h1) by (unfold wf; rewrite Hpay1; by apply wfm_add_null).
  assert (Hpt : p <> t) by congruence.
  pose proof (keeps_hconstruct h p null_payload Hp) as Hk1. fold h1 in Hk1.
  assert (Hc1 : chain h1 (t :: l)) by (eapply keeps_chain; [done|set_solver|done]).
  assert (Hcp1 : chain h1 [p]) by apply chain_hconstruct.
  assert (Hpl : p ∉ t :: l).
  { intros Hin. destruct (chain_payload h _ p Hc Hin) as [c Hcc]. congruence. }
  assert (Ht1 : payloads h1 !! t = Some b) by by rewrite Hpay1, lookup_insert_ne.
  assert (Hp1 : payloads h1 !! p = Some null_payload) by (rewrite Hpay1; apply lookup_insert_eq).
  apply wp_bind. unfold move_payload. apply wp_bind. eapply wp_load; [done|].
  apply wp_bind. eapply wp_store; [done|].
  assert (Hpay2 : payloads (hstore p (fun _ => b) h1) = <[p:=b]> (payloads h)).
  { rewrite (payloads_hstore h1 p null_payload _ Hp1), Hpay1. by rewrite insert_insert_eq. }
  assert (Ht2 : payloads (hstore p (fun _ => b) h1) !! t = Some b) by by rewrite Hpay2, lookup_insert_ne.
  eapply wp_store; [done|]. set (h3 := hstore t _ _).
  assert (Hpay3 : payloads h3 = <[t:=null_payload]> (<[p:=b]> (payloads h))).
  { unfold h3. by rewrite (payloads_hstore _ t b _ Ht2), Hpay2. }
  assert (Hw3 : wf h3).
  { unfold wf. rewrite Hpay3. rewrite <- (insert_insert_eq (payloads h) p b null_payload), <- Hpay1.
    by eapply (wfm_move _ _ _ _ p t b null_payload). }
  eapply wp_wand; [apply (move_links_wp h3 t l p); [by repeat apply chain_hstore..|done]|].
  intros [] h4 (Hcp & Hct & Hr). split_and!; try done.
  - by eapply wf_relinked.
  - by rewrite (rl_body _ _ _ Hr).
  - split.
    + intros q c Hq Hqc. apply not_elem_of_cons in Hq as [Hq _].
      rewrite (rl_body _ _ _ Hr), Hpay3, lookup_insert_ne by done.
      rewrite lookup_insert_ne by congruence. done.
    + intros q Hq [c Hqc]. apply not_elem_of_cons in Hq as [Hq _]. unfold node_bytes.
      rewrite (rl_body _ _ _ Hr), Hpay3, lookup_insert_ne, lookup_insert_ne, Hqc by congruence.
      by rewrite (rl_blocks _ _ _ Hr).
    + intros q _ _ (f & Hf & Htt). exists f. by rewrite (rl_storages _ _ _ Hr).
    + intros q _ _ (f & Hf & Htt). exists f. by rewrite (rl_storages _ _ _ Hr) in Hf.
    + intros q Hq Hqn. destruct (decide (q = p)) as [->|Hqp].
      { destruct Hqn as [n Hqn]. unfold nxt in Hqn. apply payloads_none in Hp. by rewrite Hp in Hqn. }
      rewrite (rl_nxt _ _ _ Hr) by by apply not_elem_of_cons.
      unfold h3. rewrite !nxt_hstore. by apply (k_nxt _ _ _ _ Hk1); [set_solver|].
    + intros q Hq Hqn. destruct (decide (q = p)) as [->|Hqp].
      { destruct Hqn as [n Hqn]. unfold prv in Hqn. apply payloads_none in Hp. by rewrite Hp in Hqn. }
      rewrite (rl_prv _ _ _ Hr) by by apply not_elem_of_cons.
      unfold h3. rewrite !prv_hstore. by apply (k_prv _ _ _ _ Hk1); [set_solver|].
    + by rewrite (rl_oracle _ _ _ Hr).
  - unfold node_bytes. rewrite (rl_body _ _ _ Hr), Hpay3, lookup_insert_ne, lookup_insert_eq, Ht by done.
    by rewrite (rl_blocks _ _ _ Hr).
  - by rewrite (rl_storages _ _ _ Hr).
  - intros X C Htd. apply (leakless_relinked _ _ _ Hr). unfold tidyx. rewrite Hpay3. by apply tidym_move.
Qed.
End Move.

(** ** A value becomes a heap object *)

Section ToHeap.
Implicit Types (h : Heap) (p q t x : positive) (b c : Payload) (l : list positive).

(** What happens to objects that did not exist at first does not count. *)
Lemma keeps_temps T S L h h1 h2 :
  keeps S L h h1 -> (forall t, t ∈ T -> payloads h !! t = None) ->
  keeps (T ++ S) (T ++ L) h1 h2 -> keeps S L h h2.
Proof.
  intros [A1 A2 A3 A3' A4 A5 A6] Ht [B1 B2 B3 B3' B4 B5 B6].
  assert (Hne : forall q, is_Some (payloads h !! q) -> q ∉ T).
  { intros q [c Hc] Hq. specialize (Ht q Hq). congruence. }
  assert (Hn : forall q, is_Some (nxt h q) -> q ∉ T).
  { intros q [c Hc] Hq. specialize (Ht q Hq). apply payloads_none in Ht. unfold nxt in Hc.
    by rewrite Ht in Hc. }
  assert (Hv : forall q, is_Some (prv h q) -> q ∉ T).
  { intros q [c Hc] Hq. specialize (Ht q Hq). apply payloads_none in Ht. unfold prv in Hc.
    by rewrite Ht in Hc. }
  assert (Hs : forall q, q ∉ S -> is_Some (payloads h !! q) -> is_Some (payloads h1 !! q))
    by (intros q Hq [c Hc]; eauto).
  split.
  - intros q c Hq Hc. apply B1; [apply not_elem_of_app|]; eauto.
  - intros q Hq Hc. rewrite B2; [|apply not_elem_of_app|]; eauto.
  - intros q Hq Hc Ho. apply B3; [apply not_elem_of_app| |]; eauto.
  - intros q Hq Hc Ho. apply A3', B3'; [done|done|apply not_elem_of_app| |]; eauto.
  - intros q Hq Hc. rewrite B4; [|apply not_elem_of_app|rewrite A4]; eauto.
  - intros q Hq Hc. rewrite B5; [|apply not_elem_of_app|rewrite A5]; eauto.
  - congruence.
Qed.

Lemma keeps_temp S L t h h1 h2 :
  keeps S L h h1 -> payloads h !! t = None -> keeps (t :: S) (t :: L) h1 h2 -> keeps S L h h2.
Proof.
  intros Hk Ht. apply (keeps_temps [t]); [done|]. by intros q ->%list_elem_of_singleton.
Qed.

(** The chain of [t] now starts at the heap object [p]. *)
Definition rehosted (t p : positive) (l : list positive) (b : Payload) (h h' : Heap) : Prop :=
  wf h' /\ chain h' (p :: l) /\ on_heap h' p /\ payloads h !! p = None /\
  payloads h' = <[p:=b]> (delete t (payloads h)) /\
  node_bytes h' p = node_bytes h t /\ keeps [t] (t :: l) h h' /\ (~ on_heap h t -> leakless h h').

Lemma to_heap_wp h t l b :
  wf h -> chain h (t :: l) -> payloads h !! t = Some b -> (forall q, q ∈ l -> on_heap h q) ->
  wp (to_heap t) h (fun p h' => rehosted t p l b h h')
    (fun e h' => e = bad_alloc /\ refused h /\ destroyed [t] (t :: l) h h' /\ (on_heap h' t <-> on_heap h t)).
Proof.
  intros Hw Hc Ht Ho. unfold to_heap, with_temporary.
  apply wp_bind, wp_try_catch. eapply make_unique_wp; [done| |].
  - intros p h1 Hp Hst Hi Hb Hw1 Hk1 Hpay1 Htd1.
    eapply wp_nothrow; [eapply (ctor_move_wp h1 t l p b)|].
    + done.
    + eapply keeps_chain; [done|set_solver|done].
    + by rewrite Hpay1.
    + by rewrite Hpay1.
    + intros f. rewrite Hst. by intros [= <-].
    + intros [] h2 (Hw2 & Hcp2 & Hct2 & Hpay2 & Hk2 & Hby2 & Hst2 & Htd2). apply wp_bind.
      assert (Hne : p <> t) by congruence.
      eapply wp_nothrow; [apply (destroy_value_wp h2 t []); [done..|set_solver]|].
      intros [] h3 ((Hw3 & Hk3 & Hpay3 & Htd3) & Hoh3). apply wp_ret.
      assert (Hpt : p ∉ [t]) by (by intros ->%list_elem_of_singleton).
      assert (Hp2 : payloads h2 !! p = Some b)
        by (by rewrite Hpay2, lookup_insert_ne, lookup_insert_eq).
      unfold rehosted. split_and!; try done.
      * eapply keeps_chain; [exact Hk3| |done]. intros q Hq Hqt%list_elem_of_singleton. subst q.
        apply elem_of_cons in Hq as [Hq|Hq]; [done|].
        apply chain_NoDup, NoDup_cons in Hc as [Hc _]. done.
      * apply (k_heap _ _ _ _ Hk3); [done|eauto|]. exists 1. by rewrite Hst2.
      * apply map_eq. intros q. rewrite Hpay3, Hpay2, Hpay1.
        rewrite !lookup_insert, !lookup_delete.
        destruct (decide (q ∈ [t])) as [->%list_elem_of_singleton|Hq].
        { rewrite (decide_False (P := p = t)) by done. by rewrite decide_True. }
        assert (t <> q) by (intros ->; apply Hq; by left). by rewrite !(decide_False (P := t = q)).
      * rewrite (k_bytes _ _ _ _ Hk3), Hby2 by eauto. apply (k_bytes _ _ _ _ Hk1); [set_solver|eauto].
      * eapply keeps_trans; [eapply keeps_weaken; [| |exact Hk1]; set_solver|].
        eapply keeps_trans; [exact Hk2|eapply keeps_weaken; [| |exact Hk3]; set_solver].
      * intros Hnt X C Htd. apply (tidyx_alive _ _ _ p).
        { rewrite Hpay3, decide_False by done. eauto. }
        apply (tidyx_value _ _ _ t); [|by apply (Htd3 (p :: X)), Htd2, Htd1].
        rewrite Hoh3. intros (f & Hf & Hbit). apply Hnt, (k_stack _ _ _ _ Hk1); [set_solver|eauto|].
        exists f. by rewrite <- Hst2.
  - intros Hr. apply wp_bind. pose proof (unchanged_count h Hw) as (Hw1 & Hk1 & _).
    assert (Hc1 : chain (count_malloc h) (t :: l)) by (eapply keeps_chain; [done|set_solver|done]).
    eapply wp_nothrow; [apply (destroy_value_wp _ t l); [done..|exact Ho]|].
    intros [] h3 ((Hw3 & Hk3 & Hpay3 & Htd3) & Hoh3). apply wp_throw. split_and!; [done|done| |done].
    unfold destroyed. split_and!; [done| |done|by intros X C [T1 T2 T3 T4 T5]; apply Htd3].
    eapply keeps_trans; [eapply keeps_weaken; [| |exact Hk1]; set_solver|exact Hk3].
Qed.

(** What a failed clone leaves: at most a flag on the original. *)
Definition only_marked (p : positive) (b : Payload) (h h' : Heap) : Prop :=
  wf h' /\ keeps [p] [] h h' /\ payloads h' = <[p:=b]> (payloads h) /\
  node_bytes h' p = node_bytes h p /\ (on_heap h p -> on_heap h' p) /\ leakless h h'.

Lemma cloneOne_wp h p b :
  wf h -> payloads h !! p = Some b ->
  (forall s, sharedInfo b = Some s -> Z.of_nat (refs (payloads h) s) + 1 < 4294967296) ->
  wp (cloneOne p) h
    (fun q h' => cloned p q (marked b) h h' /\ on_heap h' q)
    (fun e h' => e = bad_alloc /\ refused h /\ only_marked p (marked b) h h').
Proof.
  intros Hw Hp Hcnt. unfold cloneOne. apply wp_bind.
  eapply wp_nothrow; [by eapply cloneOneAsValue_wp|].
  intros t h1 ((Hw1 & Hk1 & Ht & Hc1 & Hpay1 & Hby1 & Hbp1 & Hop1 & Htd1) & Hst1 & _ & _ & Hnt).
  assert (Hnh : ~ on_heap h1 t) by (intros (f & Hf & _); congruence).
  assert (Hne : t <> p) by congruence.
  assert (Hp1 : payloads h1 !! p = Some (marked b)) by (by rewrite Hpay1, lookup_insert_ne, lookup_insert_eq).
  assert (Ht1 : payloads h1 !! t = Some (marked b)) by (rewrite Hpay1; apply lookup_insert_eq).
  assert (Hpt : p ∉ [t]) by (by intros ->%list_elem_of_singleton).
  assert (Hdel : delete t (payloads h1) = <[p:=marked b]> (payloads h)).
  { rewrite Hpay1, delete_insert_eq. apply delete_id. by rewrite lookup_insert_ne. }
  eapply wp_mono; [apply (to_heap_wp h1 t [] (marked b)); [done..|set_solver]| |].
  - intros q h2 (Hw2 & Hc2 & Ho2 & Hq & Hpay2 & Hby2 & Hk2 & Htd2). split; [|done].
    assert (Hqp : q <> p) by congruence.
    assert (Hq0 : payloads h !! q = None).
    { rewrite Hpay1 in Hq. rewrite lookup_insert_ne in Hq by congruence.
      by rewrite lookup_insert_ne in Hq. }
    unfold cloned. split_and!; try done.
    + eapply keeps_temp; [exact Hk1|exact Ht|]. eapply keeps_weaken; [| |exact Hk2]; set_solver.
    + by rewrite Hpay2, Hdel.
    + by rewrite Hby2.
    + rewrite (k_bytes _ _ _ _ Hk2); eauto.
    + intros Ho. apply (k_heap _ _ _ _ Hk2); eauto.
    + eapply leakless_trans; [exact Htd1|by apply Htd2].
  - intros e h2 (-> & Hr & (Hw2 & Hk2 & Hpay2 & Htd2) & Hoh2). split_and!; [done| |].
    + destruct Hr as [n Hn]. exists n. by rewrite <- (k_oracle _ _ _ _ Hk1).
    + unfold only_marked. split_and!; [done| | | | |].
      * eapply keeps_temp; [exact Hk1|exact Ht|]. eapply keeps_weaken; [| |exact Hk2]; set_solver.
      * apply map_eq. intros r. rewrite Hpay2, <- Hdel, lookup_delete.
        destruct (decide (r ∈ [t])) as [->%list_elem_of_singleton|Hr']; [by rewrite decide_True|].
        rewrite decide_False; [done|]. intros ->. apply Hr'. by left.
      * rewrite (k_bytes _ _ _ _ Hk2); eauto.
      * intros Ho. apply (k_heap _ _ _ _ Hk2); eauto.
      * intros X C Htd. apply (tidyx_value _ _ _ t); [by rewrite Hoh2|]. by apply (Htd2 X), Htd1.
Qed.
End ToHeap.

(** ** Cloning a chain *)

Section CloneChain.
Context (h : Heap) (x : positive) (l : list positive).
Implicit Types (p q t : positive) (m dn : list positive) (b : Payload).

(** The originals while and after they are cloned: only flags change. *)
Definition originals_kept (h' : Heap) : Prop :=
  wf h' /\ keeps (x :: l) [] h h' /\
  (forall p, p ∈ x :: l -> node_bytes h' p = node_bytes h p) /\
  (forall p, p ∈ x :: l -> on_heap h p -> on_heap h' p) /\ leakless h h'.

(** There are no other new objects than those of [m]. *)
Definition only_new (m : list positive) (h' : Heap) : Prop :=
  forall q, is_Some (payloads h' !! q) -> is_Some (payloads h !! q) \/ q ∈ m.

(** The chain [t :: m] consists of new objects. *)
Definition new_chain (t : positive) (m : list positive) (h' : Heap) : Prop :=
  chain h' (t :: m) /\ (forall q, q ∈ t :: m -> payloads h !! q = None) /\
  (forall q, q ∈ m -> on_heap h' q).

Definition cloning (t : positive) (dn m : list positive) (h' : Heap) : Prop :=
  originals_kept h' /\ new_chain t m h' /\ only_new (t :: m) h' /\ ~ on_heap h' t /\ keeps (x :: dn) [] h h' /\
  chain_bytes h' (t :: m) = chain_bytes h (x :: dn) /\ length m = length dn /\
  (forall s, (refs (payloads h') s <= refs (payloads h) s + length (x :: dn))%nat).

Context (Hc : chain h (x :: l)).

Lemma originals_chain h' : originals_kept h' -> chain h' (x :: l).
Proof. intros (_ & Hk & _). eapply keeps_chain; [exact Hk|set_solver|done]. Qed.

Lemma originals_bytes h' : originals_kept h' -> chain_bytes h' (x :: l) = chain_bytes h (x :: l).
Proof. intros (_ & _ & Hb & _ & _). by apply chain_bytes_ext. Qed.

Lemma originals_alive h' p : originals_kept h' -> is_Some (payloads h !! p) -> is_Some (payloads h' !! p).
Proof.
  intros Hok [b Hb]. destruct (decide (p ∈ x :: l)) as [Hin|Hin].
  - destruct (chain_payload h' (x :: l) p (originals_chain h' Hok) Hin). eauto.
  - destruct Hok as (_ & Hk & _). exists b. by apply (k_pay _ _ _ _ Hk).
Qed.

(** The new objects are none of the originals. *)
Lemma new_not_original t m h' q : new_chain t m h' -> q ∈ t :: m -> q ∉ x :: l.
Proof.
  intros (_ & Hn & _) Hq Hx. destruct (chain_payload h (x :: l) q Hc Hx) as [c Hcc].
  specialize (Hn q Hq). congruence.
Qed.

(** One original is marked and perhaps given a clone. *)
Lemma originals_step h1 h2 cur :
  originals_kept h1 -> cur ∈ x :: l -> wf h2 -> keeps [cur] [] h1 h2 ->
  node_bytes h2 cur = node_bytes h1 cur -> (on_heap h1 cur -> on_heap h2 cur) -> leakless h1 h2 -> originals_kept h2.
Proof.
  intros Hok Hcur Hw2 Hk2 Hb2 Ho2 Ht2. pose proof (originals_chain _ Hok) as Hc1.
  destruct Hok as (Hw1 & Hk1 & Hb1 & Ho1 & Ht1). split_and!; [done| | | |by eapply leakless_trans].
  - eapply keeps_trans; [done|]. eapply keeps_weaken; [| |exact Hk2]; [|done].
    by intros p ->%list_elem_of_singleton.
  - intros p Hp. rewrite <- Hb1 by done. destruct (decide (p = cur)) as [->|Hne]; [done|].
    apply (k_bytes _ _ _ _ Hk2); [by intros ?%list_elem_of_singleton|].
    destruct (chain_payload _ _ p Hc1 Hp); eauto.
  - intros p Hp Ho. destruct (decide (p = cur)) as [->|Hne]; [by apply Ho2, Ho1|].
    apply (k_heap _ _ _ _ Hk2); [by intros ?%list_elem_of_singleton| |by apply Ho1].
    destruct (chain_payload _ _ p Hc1 Hp); eauto.
Qed.

(** The links of the new objects change. *)
Lemma originals_relinked h1 h2 S :
  originals_kept h1 -> (forall q, q ∈ S -> payloads h !! q = None) -> relinked S h1 h2 ->
  originals_kept h2.
Proof.
  intros Hok Hnew Hr. pose proof (originals_chain _ Hok) as Hc1.
  destruct Hok as (Hw1 & Hk1 & Hb1 & Ho1 & Ht1). split_and!.
  - by eapply wf_relinked.
  - eapply (keeps_temps S); [exact Hk1|done|]. rewrite app_nil_r.
    eapply keeps_weaken; [| |by apply keeps_relinked]; [set_solver|done].
  - intros p Hp. rewrite <- Hb1 by done. unfold node_bytes.
    by rewrite (rl_body _ _ _ Hr), (rl_blocks _ _ _ Hr).
  - intros p Hp Ho. destruct (Ho1 p Hp Ho) as (f & Hf & Htt). exists f. by rewrite (rl_storages _ _ _ Hr).
  - eapply leakless_trans; [exact Ht1|by eapply leakless_relinked].
Qed.

(** The new chain is not affected by what happens to an original. *)
Lemma new_chain_keeps h1 h2 t m cur :
  new_chain t m h1 -> cur ∈ x :: l -> keeps [cur] [] h1 h2 ->
  new_chain t m h2 /\ chain_bytes h2 (t :: m) = chain_bytes h1 (t :: m).
Proof.
  intros Hn Hcur Hk. pose proof (fun q => new_not_original t m h1 q Hn) as Hno.
  assert (Hd : forall q, q ∈ t :: m -> q ∉ [cur]).
  { intros q Hq ->%list_elem_of_singleton. by apply (Hno cur). }
  destruct Hn as (Hct & Hnew & Hoh). unfold new_chain. split_and!.
  - eapply keeps_chain; [done|set_solver|done].
  - done.
  - intros q Hq. apply (k_heap _ _ _ _ Hk); [apply Hd; by right| |by apply Hoh].
    destruct (chain_payload _ _ q Hct); [by right|eauto].
  - by eapply keeps_chain_bytes.
Qed.

Context (Hcnt : forall s, Z.of_nat (refs (payloads h) s) + zlen (x :: l) < 4294967296).

(** The state in which an exception leaves the loop. *)
Definition clone_failed (t : positive) (h' : Heap) : Prop :=
  exists m, originals_kept h' /\ new_chain t m h' /\ only_new (t :: m) h' /\ ~ on_heap h' t.

Lemma refs_cloned P q p b s :
  P !! p = Some b -> P !! q = None ->
  (refs (<[q:=marked b]> (<[p:=marked b]> P)) s <= refs P s + 1)%nat.
Proof.
  intros Hp Hq. assert (Hne : p <> q) by congruence.
  rewrite refs_insert_new by by rewrite lookup_insert_ne.
  rewrite (refs_insert_same P p b) by (done || apply sharedInfo_marked). case_decide; lia.
Qed.

Lemma clone_step t dn m cur todo h1 :
  l = dn ++ cur :: todo -> cloning t dn m h1 ->
  wp (c ← cloneOne cur; prependChain t c) h1
    (fun _ h2 => exists m', cloning t (dn ++ [cur]) m' h2)
    (fun e h2 => e = bad_alloc /\ refused h /\ clone_failed t h2).
Proof.
  intros Hl (Hok & Hnc & Hon & Hnt & Hkd & Hby & Hlen & Hrefs).
  assert (Htp : is_Some (payloads h1 !! t)) by (destruct Hnc as (Hct & _); destruct (chain_payload h1 (t :: m) t Hct); [by left|eauto]).
  assert (Hcur : cur ∈ x :: l) by (right; rewrite Hl; apply elem_of_app; right; by left).
  pose proof (chain_NoDup _ _ Hc) as Hnd. rewrite Hl in Hnd. change (x :: dn ++ cur :: todo) with ((x :: dn) ++ cur :: todo) in Hnd.
  assert (Hncur : cur ∉ x :: dn).
  { apply NoDup_app in Hnd as (_ & Hd & _). intros Hin. apply (Hd _ Hin). by left. }
  destruct (chain_payload h (x :: l) cur Hc Hcur) as [b Hb].
  pose proof (k_pay _ _ _ _ Hkd cur b Hncur Hb) as Hb1.
  assert (Hzl : zlen (x :: l) = Z.of_nat (length (x :: dn)) + 1 + Z.of_nat (length todo)).
  { rewrite Hl. unfold zlen. simpl. rewrite length_app. simpl. lia. }
  apply wp_bind. eapply wp_mono; [eapply (cloneOne_wp h1 cur b); [apply Hok|done|]| |].
  - intros s _. specialize (Hcnt s). specialize (Hrefs s). lia.
  - intros c h2 ((Hw2 & Hk2 & Hc0 & Hcc2 & Hpay2 & Hbc & Hbcur & Hoc & Htd2) & Ho2).
    destruct (new_chain_keeps h1 h2 t m cur Hnc Hcur Hk2) as [Hnc2 Hbt2].
    pose proof (originals_step h1 h2 cur Hok Hcur Hw2 Hk2 Hbcur Hoc Htd2) as Hok2.
    destruct Hnc2 as (Hct2 & Hnew2 & Hoh2).
    assert (Hcnew : payloads h !! c = None).
    { destruct (payloads h !! c) as [bc|] eqn:Hbc'; [|done]. exfalso.
      destruct (decide (c ∈ x :: dn)) as [Hin|Hin].
      - destruct (chain_payload h1 (x :: l) c) as [? ?]; [by apply originals_chain| |congruence].
        rewrite Hl. apply elem_of_cons in Hin as [->|Hin]; [by left|right; apply elem_of_app; by left].
      - rewrite (k_pay _ _ _ _ Hkd c bc Hin Hbc') in Hc0. done. }
    eapply wp_nothrow; [apply (prependChain_wp h2 t m c []); [done|done|]|].
    { intros q Hq ->%list_elem_of_singleton. destruct Hnc as (Hct1 & _).
      destruct (chain_payload h1 (t :: m) c Hct1 Hq). congruence. }
    intros [] h3 (Hct3 & Hr3). exists (m ++ [c]).
    assert (Hall : forall q, q ∈ (t :: m) ++ [c] -> payloads h !! q = None).
    { intros q [Hq|Hq]%elem_of_app; [by apply Hnew2|]. by apply list_elem_of_singleton in Hq as ->. }
    pose proof (originals_relinked h2 h3 _ Hok2 Hall Hr3) as Hok3.
    assert (Hnb : forall q, node_bytes h3 q = node_bytes h2 q).
    { intros q. unfold node_bytes. by rewrite (rl_body _ _ _ Hr3), (rl_blocks _ _ _ Hr3). }
    split_and!; [done| | | | | | |].
    + unfold new_chain. split_and!; [done|done|]. intros q Hq.
      assert (on_heap h2 q) as (f & Hf & Htt).
      { apply elem_of_app in Hq as [Hq|Hq]; [by apply Hoh2|]. by apply list_elem_of_singleton in Hq as ->. }
      exists f. by rewrite (rl_storages _ _ _ Hr3).
    + intros q. rewrite (rl_body _ _ _ Hr3), Hpay2, !lookup_insert. change (t :: m ++ [c]) with ((t :: m) ++ [c]).
      rewrite elem_of_app, list_elem_of_singleton. repeat case_decide; subst; [by auto..|].
      intros Hq. destruct (Hon q Hq); auto.
    + intros (f & Hf & Hbit). rewrite (rl_storages _ _ _ Hr3) in Hf. apply Hnt, (k_stack _ _ _ _ Hk2); [|done|by exists f].
      intros ->%list_elem_of_singleton. apply (new_not_original cur m h1 cur Hnc); [by left|done].
    + eapply (keeps_temps ((t :: m) ++ [c])); [|exact Hall|].
      2:{ rewrite app_nil_r. eapply keeps_weaken; [| |by apply keeps_relinked]; [set_solver|done]. }
      eapply keeps_trans; [eapply keeps_weaken; [| |exact Hkd]|eapply keeps_weaken; [| |exact Hk2]]; try done.
      * intros q Hq. change (x :: dn ++ [cur]) with ((x :: dn) ++ [cur]). apply elem_of_app. by left.
      * intros q Hq. change (x :: dn ++ [cur]) with ((x :: dn) ++ [cur]). apply elem_of_app. by right.
    + change (t :: m ++ [c]) with ((t :: m) ++ [c]). change (x :: dn ++ [cur]) with ((x :: dn) ++ [cur]).
      rewrite !chain_bytes_app, <- Hby, <- Hbt2. f_equal; [by apply chain_bytes_ext|].
      rewrite !chain_bytes_cons, !chain_bytes_nil, Hnb, Hbc. f_equal.
      destruct Hok as (_ & _ & Hbo & _ & _). by apply Hbo.
    + rewrite !length_app. simpl. lia.
    + intros s. rewrite (rl_body _ _ _ Hr3), Hpay2. pose proof (refs_cloned _ c cur b s Hb1 Hc0).
      specialize (Hrefs s). simpl in *. rewrite length_app. simpl. lia.
  - intros e h2 (-> & Hr & Hw2 & Hk2 & Hpay2 & Hbcur & Hoc & Htd2). split_and!; [done| |].
    + destruct Hr as [n Hn]. exists n. by rewrite <- (k_oracle _ _ _ _ Hkd).
    + exists m. split_and!; [by eapply (originals_step h1 h2 cur)|by eapply (new_chain_keeps h1 h2 t m cur)| |].
      * intros q. rewrite Hpay2, lookup_insert. case_decide; [subst|apply Hon].
        intros _. left. destruct (chain_payload h (x :: l) q Hc Hcur). eauto.
      * intros Ho. apply Hnt, (k_stack _ _ _ _ Hk2); [|done|done].
        intros ->%list_elem_of_singleton. apply (new_not_original cur m h1 cur Hnc); [by left|done].
Qed.

Context (Hw : wf h).

Lemma originals_refl : originals_kept h.
Proof. split_and!; [done|apply keeps_refl|done|done|apply leakless_refl]. Qed.

(** The new objects are destroyed or moved. *)
Lemma originals_keeps_new h1 h2 t m :
  originals_kept h1 -> new_chain t m h1 -> wf h2 -> keeps (t :: m) (t :: m) h1 h2 -> leakless h1 h2 ->
  originals_kept h2.
Proof.
  intros Hok Hn Hw2 Hk2 Ht2. pose proof (originals_chain _ Hok) as Hc1.
  pose proof (fun q => new_not_original t m h1 q Hn) as Hno. destruct Hn as (_ & Hnew & _).
  destruct Hok as (Hw1 & Hk1 & Hb1 & Ho1 & Ht1).
  assert (Hd : forall p, p ∈ x :: l -> p ∉ t :: m) by (intros p Hp Hin; by apply (Hno p)).
  split_and!; [done| | | |by eapply leakless_trans].
  - eapply (keeps_temps (t :: m)); [exact Hk1|exact Hnew|]. rewrite app_nil_r.
    eapply keeps_weaken; [| |exact Hk2]; [|done]. intros p Hp. apply elem_of_app. by left.
  - intros p Hp. rewrite <- Hb1 by done. apply (k_bytes _ _ _ _ Hk2); [by apply Hd|].
    destruct (chain_payload _ _ p Hc1 Hp); eauto.
  - intros p Hp Ho. apply (k_heap _ _ _ _ Hk2); [by apply Hd| |by apply Ho1].
    destruct (chain_payload _ _ p Hc1 Hp); eauto.
Qed.

(** The new objects and their memory are gone. *)
Lemma only_new_destroyed h2 h3 t m :
  only_new (t :: m) h2 -> ~ on_heap h2 t -> destroyed [t] (t :: m) h2 h3 -> (on_heap h3 t <-> on_heap h2 t) ->
  only_new [] h3 /\ leakless h2 h3.
Proof.
  intros Hon Hnt (_ & _ & Hp & Ht) Ho. split.
  - intros q. rewrite Hp. case_decide; [by intros [? ?]|]. intros Hq. left. by destruct (Hon q Hq).
  - intros X C Htd. apply (tidyx_value _ _ _ t); [by rewrite Ho|]. by apply (Ht X).
Qed.

Lemma cloneAsValue_wp :
  wp (cloneAsValue x) h (fun t h' => exists m, cloning t l m h')
    (fun e h' => e = bad_alloc /\ refused h /\ originals_kept h' /\ only_new [] h').
Proof.
  destruct (chain_payload h (x :: l) x Hc) as [b Hb]; [by left|].
  unfold cloneAsValue. apply wp_bind. eapply wp_nothrow; [eapply cloneOneAsValue_wp; [done|done|]|].
  { intros s _. specialize (Hcnt s). unfold zlen in Hcnt. simpl in Hcnt. lia. }
  intros t h1 ((Hw1 & Hk1 & Ht & Hct & Hpay1 & Hbt & Hbx & Hox & Htd1) & _ & _ & _ & Hnt).
  assert (Hcl : cloning t [] [] h1).
  { unfold cloning. split_and!.
    - eapply (originals_step h h1 x); [apply originals_refl|by left|done..].
    - unfold new_chain. split_and!; [done| |set_solver]. by intros q ->%list_elem_of_singleton.
    - intros q. rewrite Hpay1, !lookup_insert. repeat case_decide; subst; [right; by left|left; eauto|by left].
    - intros (f & Hf & _). congruence.
    - done.
    - by rewrite !chain_bytes_cons, !chain_bytes_nil, Hbt.
    - done.
    - intros s. rewrite Hpay1. by apply refs_cloned. }
  pose proof (originals_chain h1 (proj1 Hcl)) as Hc1.
  apply wp_bind. eapply wp_next; [by apply (chain_succ h1 x l [] x l)|].
  apply wp_bind, wp_try_catch.
  eapply (for_chain_wp _ x l (fun dn _ h' => exists m, cloning t dn m h')).
  - intros dn ? h' (m & Hm). by apply originals_chain, Hm.
  - intros dn cur todo ? h' Hl (m & Hm). eapply wp_mono; [by eapply clone_step| |].
    + done.
    + intros e h2 (-> & Hr & m2 & Hok & Hn & Hon & Hnt2). apply wp_bind.
      eapply wp_nothrow; [apply (destroy_value_wp h2 t m2); [apply Hok|apply Hn|apply Hn]|].
      intros [] h3 [Hde Ho3]. destruct (only_new_destroyed h2 h3 t m2 Hon Hnt2 Hde Ho3) as [Hon3 Htd3].
      destruct Hde as (Hw3 & Hk3 & _). apply wp_throw. split_and!; [done|done| |done].
      by eapply (originals_keeps_new h2 h3 t m2).
  - intros ? h' Hm. apply wp_ret. exact Hm.
  - by exists [].
Qed.

(** [q :: m] is a clone of the whole chain. *)
Definition chain_cloned (q : positive) (h' : Heap) : Prop :=
  exists m, originals_kept h' /\ new_chain q m h' /\ only_new (q :: m) h' /\ on_heap h' q /\ length m = length l /\
    chain_bytes h' (q :: m) = chain_bytes h (x :: l).

Lemma clone_wp :
  wp (clone x) h (fun q h' => chain_cloned q h')
    (fun e h' => e = bad_alloc /\ refused h /\ originals_kept h' /\ only_new [] h').
Proof.
  unfold clone. apply wp_bind. eapply wp_wand; [apply cloneAsValue_wp|].
  intros t h1 (m & Hok & Hn & Hon & Hnt & _ & Hby & Hlen & _).
  pose proof Hn as (Hct & Hnew & Hoh).
  destruct (chain_payload h1 (t :: m) t Hct) as [b Hb]; [by left|].
  assert (Hor : oracle h1 = oracle h) by (destruct Hok as (_ & Hk & _ & _); apply (k_oracle _ _ _ _ Hk)).
  eapply wp_mono; [by apply (to_heap_wp h1 t m b); [apply Hok|..]| |].
  - intros p h2 (Hw2 & Hc2 & Ho2 & Hp & Hpay2 & Hbp & Hk2 & Htd2).
    assert (Hpnew : payloads h !! p = None).
    { destruct (payloads h !! p) as [c|] eqn:Hpc; [|done]. exfalso.
      destruct (decide (p ∈ x :: l)) as [Hin|Hin].
      - destruct (chain_payload h1 (x :: l) p) as [? ?]; [by apply originals_chain|done|congruence].
      - destruct Hok as (_ & Hk & _). rewrite (k_pay _ _ _ _ Hk p c Hin Hpc) in Hp. done. }
    pose proof (chain_NoDup _ _ Hct) as Hnd. apply NoDup_cons in Hnd as [Htm _].
    exists m. split_and!; [| | |done|done|].
    + eapply (originals_keeps_new h1 h2 t m); [done..| |by apply Htd2].
      eapply keeps_weaken; [| |exact Hk2]; [|done]. intros q ->%list_elem_of_singleton. by left.
    + unfold new_chain. split_and!; [done| |].
      * intros q [->|Hq]%elem_of_cons; [done|]. apply Hnew. by right.
      * intros q Hq. apply (k_heap _ _ _ _ Hk2); [by intros ->%list_elem_of_singleton| |by apply Hoh].
        destruct (chain_payload h1 (t :: m) q Hct); [by right|eauto].
    + intros q. rewrite Hpay2, lookup_insert. case_decide; [subst; intros _; right; by left|].
      rewrite lookup_delete. case_decide; [by intros [? ?]|]. intros Hq. destruct (Hon q Hq) as [?|[?|?]%elem_of_cons]; [by left|congruence|].
      right. by right.
    + rewrite <- Hby, !chain_bytes_cons, Hbp. f_equal. apply chain_bytes_ext. intros q Hq.
      apply (k_bytes _ _ _ _ Hk2); [by intros ->%list_elem_of_singleton|].
      destruct (chain_payload h1 (t :: m) q Hct); [by right|eauto].
  - intros e h2 (-> & (n & Hr) & Hde & Ho2).
    destruct (only_new_destroyed h1 h2 t m Hon Hnt Hde Ho2) as [Hon2 Htd2]. destruct Hde as (Hw2 & Hk2 & _).
    split_and!; [done| | |done].
    + exists n. by rewrite <- Hor.
    + by eapply (originals_keeps_new h1 h2 t m).
Qed.
End CloneChain.
