(* ===== verification/IOBufPiece.v ===== *)
(** * io/IOBuf: pieces of a chain

    The frame of an operation that touches new objects, relinks, or clones an
    element and trims the clone: [piece] says that [c] is a new IOBuf that shows
    some of the bytes of [x], and that nobody lost anything. *)

From stdpp Require Import base list gmap strings.
From S2P Require Import Prelude IOBufMem IOBuf IOBufChain IOBufInv IOBufWf IOBufPrim IOBufRelease IOBufLife IOBufWindow IOBufShare IOBufClone.

#[local] Opaque chain.

Section Frame.
Implicit Types (h : Heap) (l m : list positive) (p x c : positive) (b : Payload).

Lemma relinked_bytes S h h' k : relinked S h h' -> chain_bytes h' k = chain_bytes h k.
Proof.
  intros Hr. apply chain_bytes_ext. intros p _. unfold node_bytes.
  by rewrite (rl_body _ _ _ Hr), (rl_blocks _ _ _ Hr).
Qed.

Lemma relinked_on_heap S h h' p : relinked S h h' -> on_heap h p -> on_heap h' p.
Proof. intros Hr (f & Hf & Ht). exists f. by rewrite (rl_storages _ _ _ Hr). Qed.

(** Steps that touch the objects of [S] and new ones only. *)
Lemma keeps_grow S L T U h h1 h2 :
  keeps S L h h1 -> keeps T U h1 h2 ->
  (forall p, p ∈ T -> p ∈ S \/ payloads h !! p = None) ->
  (forall p, p ∈ U -> p ∈ L \/ payloads h !! p = None) -> keeps S L h h2.
Proof.
  intros Hk1 Hk2 HT HU.
  apply (keeps_temps (filter (fun p => payloads h !! p = None) (T ++ U)) S L h h1 h2 Hk1).
  - by intros t [Ht _]%list_elem_of_filter.
  - eapply keeps_weaken; [| |exact Hk2]; intros p Hp; apply elem_of_app.
    + destruct (HT p Hp) as [?|Hn]; [by right|left]. apply list_elem_of_filter. split; [done|].
      apply elem_of_app. by left.
    + destruct (HU p Hp) as [?|Hn]; [by right|left]. apply list_elem_of_filter. split; [done|].
      apply elem_of_app. by right.
Qed.

Lemma rewindowed_bytes h h2 x b' : rewindowed x b' h h2 -> node_bytes h2 x = bytes (blocks h) b'.
Proof.
  intros Hr. rewrite (node_bytes_pay _ _ _ (rewindowed_pay _ _ _ _ Hr)).
  destruct Hr as (_ & _ & _ & -> & _). done.
Qed.

Lemma slice_take {T} (n : Z) (k : list T) : slice 0 n k = take (Z.to_nat n) k.
Proof. unfold slice. by rewrite drop_0. Qed.

End Frame.

Record piece (x c : positive) (b : Payload) (bs : list Z) (h h' : Heap) : Prop := {
  pc_wf : wf h';
  pc_keeps : keeps [x] [] h h';
  pc_new : payloads h !! c = None;
  pc_chain : chain h' [c];
  pc_heap : on_heap h' c;
  pc_pay : exists bc, (sharedInfo bc = sharedInfo b /\ buf_ bc = buf_ b) /\ payloads h' = <[c:=bc]> (<[x:=marked b]> (payloads h));
  pc_bytes : node_bytes h' c = bs;
  pc_original : node_bytes h' x = node_bytes h x;
  pc_stays : on_heap h x -> on_heap h' x;
  pc_leak : leakless h h' }.

Section Piece.
Implicit Types (h : Heap) (x c q : positive) (b : Payload) (bs : list Z).

Lemma cloned_piece x c b h h' :
  cloned x c (marked b) h h' -> on_heap h' c -> piece x c b (node_bytes h x) h h'.
Proof.
  intros (Hw & Hk & Hn & Hc & Hp & Hb & Hx & Ho & Ht) Hoc. split; try done.
  exists (marked b). split; [|done]. split; [apply sharedInfo_marked|apply marked_fields].
Qed.

(** The new IOBuf and its data. *)
Lemma piece_payload x c b bs h h' : piece x c b bs h h' ->
  exists bc, payloads h' !! c = Some bc /\ length_ bc = zlen bs.
Proof.
  intros Hp. destruct (pc_pay _ _ _ _ _ _ Hp) as (bc & _ & Hpay). exists bc.
  assert (Hc : payloads h' !! c = Some bc) by (rewrite Hpay; apply lookup_insert_eq). split; [done|].
  rewrite <- (pc_bytes _ _ _ _ _ _ Hp). symmetry. apply length_bytes; [apply Hp|done].
Qed.

Lemma piece_original x c b bs h h' : payloads h !! x = Some b -> piece x c b bs h h' ->
  payloads h' !! x = Some (marked b).
Proof.
  intros Hx Hp. destruct (pc_pay _ _ _ _ _ _ Hp) as (bc & _ & ->).
  rewrite lookup_insert_ne, lookup_insert_eq; [done|]. intros ->. pose proof (pc_new _ _ _ _ _ _ Hp). congruence.
Qed.

(** Trimming the new IOBuf. *)
Lemma piece_trimmed x c b bs h h1 h2 bc s e :
  payloads h !! x = Some b -> piece x c b bs h h1 -> payloads h1 !! c = Some bc ->
  rewindowed c (trimmed bc s e) h1 h2 -> 0 <= s -> 0 <= e -> s + e <= length_ bc ->
  piece x c b (slice s (length_ bc - s - e) bs) h h2.
Proof.
  intros Hx [Hw Hk Hn Hc Hoc (bc' & [Hs' Hbuf'] & Hpay) Hb Hbx Hox Htd] Hbc Hrw Hs He Hse.
  pose proof (leakless_rewindowed _ _ _ _ (trimmed bc s e) Hbc (sharedInfo_word bc (trimmed bc s e) eq_refl) eq_refl Hrw) as Htd2.
  assert (Hne : x <> c) by congruence.
  pose proof (rewindowed_bytes _ _ _ _ Hrw) as Hnb. rewrite bytes_trimmed in Hnb by (done || by apply (wf_window h1 c)).
  rewrite <- (node_bytes_pay _ _ _ Hbc), Hb in Hnb.
  pose proof (fun q => rewindowed_on_heap _ _ _ _ q Hrw) as Ho. pose proof (rewindowed_chain _ _ _ _ _ Hrw Hc) as Hc2.
  destruct Hrw as (Hw2 & Hk2 & Hpay2 & _). split; try done; [| |exists (trimmed bc s e)| | |by eapply leakless_trans].
  - eapply keeps_grow; [exact Hk|exact Hk2| |by intros ? ?%elem_of_nil]. intros p ->%list_elem_of_singleton. by right.
  - by apply Ho.
  - rewrite Hpay2, Hpay, insert_insert_eq. split; [|done]. rewrite <- Hs', <- Hbuf'. rewrite Hpay, lookup_insert_eq in Hbc.
    injection Hbc as ->. split; [by apply sharedInfo_word|done].
  - rewrite (k_bytes _ _ _ _ Hk2); [done|by intros ?%list_elem_of_singleton|]. rewrite Hpay, lookup_insert_ne, lookup_insert_eq; eauto.
  - intros. apply Ho. by apply Hox.
Qed.

(** What every other object sees. *)
Lemma piece_others x c b bs h h' q : piece x c b bs h h' -> is_Some (payloads h !! q) ->
  q <> c /\ is_Some (payloads h' !! q) /\ node_bytes h' q = node_bytes h q /\ (on_heap h q -> on_heap h' q).
Proof.
  intros [Hw Hk Hn Hc Hoc (bc & Hs & Hpay) Hb Hbx Hox _] [bq Hq]. assert (Hne : q <> c) by congruence.
  split; [done|]. destruct (decide (q = x)) as [->|Hqx].
  - split_and!; try done. rewrite Hpay, lookup_insert_ne, lookup_insert_eq; eauto.
  - assert (Hin : q ∉ [x]) by by intros ?%list_elem_of_singleton. split_and!.
    + rewrite Hpay, !lookup_insert_ne by done. eauto.
    + apply (k_bytes _ _ _ _ Hk); eauto.
    + apply (k_heap _ _ _ _ Hk); eauto.
Qed.

Lemma piece_chains x c b bs h h' l : piece x c b bs h h' -> chain h l ->
  chain h' l /\ chain_bytes h' l = chain_bytes h l /\ c ∉ l.
Proof.
  intros Hp Hl. assert (Ho : forall q, q ∈ l -> is_Some (payloads h !! q)).
  { intros q Hq. destruct (chain_payload h l q Hl Hq). eauto. }
  split_and!.
  - eapply keeps_chain; [apply Hp|by intros ? _ ?%elem_of_nil|done].
  - apply chain_bytes_ext. intros q Hq. by apply (piece_others _ _ _ _ _ _ q Hp (Ho q Hq)).
  - intros Hc. by destruct (piece_others _ _ _ _ _ _ c Hp (Ho c Hc)).
Qed.

Lemma piece_refs x c b bs h h' s : payloads h !! x = Some b -> piece x c b bs h h' ->
  (refs (payloads h') s <= refs (payloads h) s + 1)%nat.
Proof.
  intros Hx Hp. destruct (pc_pay _ _ _ _ _ _ Hp) as (bc & [Hs _] & ->). pose proof (pc_new _ _ _ _ _ _ Hp) as Hn.
  assert (x <> c) by congruence. rewrite refs_insert_new by by rewrite lookup_insert_ne.
  rewrite (refs_insert_same (payloads h) x b) by (done || apply sharedInfo_marked). case_decide; lia.
Qed.
End Piece.

(** * io/IOBuf: coalescing

    [coalesce], [gather] and [coalesceAndReallocate]: the bytes of a segment of
    a chain move to one private buffer, and the objects that held them are
    deleted. *)

#[local] Opaque chain.

Section Segment.
Implicit Types (h : Heap) (p q x a : positive) (l s rest dn : list positive) (b c : Payload).

Lemma isChained_wp h x l Q E :
  chain h (x :: l) -> Q (bool_decide (l <> [])) h -> wp (isChained x) h Q E.
Proof.
  intros Hc HQ. destruct l as [|y l].
  - destruct (chain_single_inv _ _ Hc) as [Hn Hv]. unfold isChained. apply wp_bind.
    eapply wp_deref_links; [done..|]. intros c _ Hcn Hcv. rewrite Hcn, Hcv.
    apply wp_bind, wp_assert; [by apply bool_decide_eq_true|]. apply wp_ret.
    rewrite bool_decide_eq_false_2; [exact HQ|]. by intros H.
  - destruct (chain_next _ _ _ _ Hc) as [Hn _]. pose proof (chain_pred _ _ _ Hc) as Hv.
    pose proof (chain_NoDup _ _ Hc) as Hnd. apply NoDup_cons in Hnd as [Hx _].
    assert (Hyx : y <> x) by (intros ->; apply Hx; by left).
    assert (Hzx : default x (last (y :: l)) <> x).
    { destruct (last (y :: l)) as [z|] eqn:Hz; [|by apply last_None in Hz].
      simpl. intros ->. apply Hx. by apply last_Some_elem_of. }
    unfold isChained. apply wp_bind. eapply wp_deref_links; [done..|]. intros c _ Hcn Hcv.
    rewrite Hcn, Hcv. apply wp_bind, wp_assert; [by apply bool_decide_eq_true|]. apply wp_ret.
    rewrite bool_decide_eq_true_2 by done. exact HQ.
Qed.

(** The object before the end of a segment is its last one. *)
Lemma segment_last h x s rest :
  chain h (x :: s ++ rest) -> prv h (default x (head rest)) = Some (default x (last s)).
Proof.
  intros Hc. destruct rest as [|r rest]; simpl.
  - rewrite app_nil_r in Hc. by apply chain_pred.
  - apply (chain_rotate h (x :: s) (r :: rest)) in Hc; [|done].
    pose proof (chain_pred h r (rest ++ x :: s) Hc) as ->.
    rewrite last_app, last_cons. by destruct (last s).
Qed.

(** The segment behind [x] is cut out and deleted. *)
Lemma drop_segment_wp h x s rest :
  wf h -> chain h (x :: s ++ rest) -> (s = [] -> rest = []) -> (forall q, q ∈ s -> on_heap h q) ->
  wp (c ← isChained x;
      if c : bool then
        n ← next x; cp ← prev (default x (head rest)); q ← separateChain x n cp; delete_ q
      else mret tt) h
    (fun _ h' => wf h' /\ chain h' (x :: rest) /\ keeps s (x :: s ++ rest) h h' /\
       (forall q, payloads h' !! q = if decide (q ∈ s) then None else payloads h !! q) /\ leakless h h') nothrow.
Proof.
  intros Hw Hc Hsr Hoh. apply wp_bind. eapply isChained_wp; [done|].
  destruct s as [|a s].
  { rewrite Hsr in * by done. rewrite bool_decide_eq_false_2 by (intros H; by apply H). apply wp_ret.
    split_and!; [done|done|apply keeps_refl| |apply leakless_refl].
    intros q. rewrite decide_False; [done|]. by intros ?%elem_of_nil. }
  rewrite bool_decide_eq_true_2 by done.
  apply wp_bind. eapply wp_next; [by eapply chain_next|].
  apply wp_bind. eapply wp_prev; [by apply segment_last|].
  destruct (snoc_exists a s) as (s1 & t & Hs).
  assert (default x (last (a :: s)) = t) as -> by (by rewrite Hs, last_snoc).
  assert (Hrot : chain h ((a :: s) ++ (rest ++ [x]))).
  { rewrite (assoc_L (++)). by apply (chain_rotate1 h x). }
  destruct (rest ++ [x]) as [|r0 r1] eqn:Hr; [by destruct rest|].
  apply wp_bind. eapply wp_wand; [apply (separateChain_wp h x a s s1 t r0 r1); [done|done|]|].
  { rewrite <- Hr. apply elem_of_app. right. by left. }
  intros q h1 (-> & Hca & Hcr & Hrl). rewrite <- Hr in Hcr.
  assert (Hcx : chain h1 (x :: rest)) by (by apply (chain_rotate h1 rest [x])).
  pose proof (keeps_relinked _ _ _ Hrl) as Hk1.
  eapply wp_wand; [apply (delete_wp h1 a s); [by eapply wf_relinked|done|]|].
  { intros q Hq. destruct (Hoh q Hq) as (f & Hf & Ht). exists f. by rewrite (rl_storages _ _ _ Hrl). }
  intros [] h2 (Hw2 & Hk2 & Hpay2 & Htd2).
  assert (Hdisj : x :: rest ## a :: s).
  { apply chain_NoDup in Hrot. rewrite <- Hr in Hrot. apply NoDup_app in Hrot as (_ & Hd & _).
    intros q Hq Hq'. apply (Hd q Hq'). apply elem_of_app.
    apply elem_of_cons in Hq as [->|Hq]; [right; by left|by left]. }
  split_and!; [done| | | |].
  - eapply keeps_chain; [exact Hk2| |done]. done.
  - eapply keeps_trans; [eapply keeps_weaken; [| |exact Hk1]|eapply keeps_weaken; [| |exact Hk2]].
    + by intros q ?%elem_of_nil.
    + rewrite <- Hr. intros q. rewrite !elem_of_app, !elem_of_cons, elem_of_app, elem_of_cons, elem_of_nil. tauto.
    + done.
    + intros q Hq. right. apply elem_of_app. by left.
  - intros q. rewrite Hpay2. case_decide; [done|]. by rewrite (rl_body _ _ _ Hrl).
  - eapply leakless_trans; [by eapply leakless_relinked|exact Htd2].
Qed.

(** The copying loop of [coalesceAndReallocate]. *)
Definition copying (h : Heap) (a : positive) (hr len cap : Z) (dn : list positive)
    (st : addr * Z) (h' : Heap) : Prop :=
  exists bs, orphan a bs h' /\ wf h' /\ keeps [] [] h h' /\ payloads h' = payloads h /\
    storages h' = storages h /\ zlen bs = cap /\
    st = (Addr (Some a) (hr + zlen (chain_bytes h dn)), len - zlen (chain_bytes h dn)) /\
    slice hr (zlen (chain_bytes h dn)) bs = chain_bytes h dn /\
    (forall X C, tidyx X C h -> tidyx X ({[a]} ∪ C) h').

Lemma copy_step h a hr len cap dn cur todo st h' :
  0 <= hr -> hr + len <= cap -> len <= max_alloc -> is_Some (payloads h !! cur) ->
  zlen (chain_bytes h (dn ++ cur :: todo)) = len ->
  copying h a hr len cap dn st h' ->
  wp (let '(p, remaining) := st in
      c ← load cur;
      if decide (0 < length_ c) then
        assert (bool_decide (length_ c <= remaining)) "current->length_ <= remaining";;
        memcpy p (data_ c) (length_ c);;
        mret (padd p (length_ c), u64 (remaining - length_ c))
      else mret (p, remaining)) h'
    (fun st' h'' => copying h a hr len cap (dn ++ [cur]) st' h'') nothrow.
Proof.
  intros Hhr Hcap Hm [c Hc0] Hlen (bs & Ho & Hw & Hk & Hpay & Hst & Hz & -> & Hsl & Htd).
  assert (Hc : payloads h' !! cur = Some c) by by rewrite Hpay.
  pose proof (wf_window _ _ _ Hw Hc) as Hwin.
  pose proof (window_bytes_len _ _ Hwin) as Hlc. rewrite <- (node_bytes_pay _ _ _ Hc) in Hlc.
  assert (Hnb : node_bytes h' cur = node_bytes h cur) by (apply (k_bytes _ _ _ _ Hk); [set_solver|eauto]).
  rewrite Hnb in Hlc.
  set (n := zlen (chain_bytes h dn)) in *.
  assert (Hn1 : zlen (chain_bytes h (dn ++ [cur])) = n + length_ c).
  { rewrite chain_bytes_app, chain_bytes_cons, chain_bytes_nil, app_nil_r, zlen_app. lia. }
  assert (Hle : n + length_ c <= len).
  { rewrite <- Hlen, chain_bytes_app, chain_bytes_cons, !zlen_app.
    pose proof (zlen_nonneg (chain_bytes h todo)). lia. }
  assert (0 <= n) by apply zlen_nonneg. assert (0 <= length_ c) by apply Hwin.
  apply wp_bind. eapply wp_load; [done|].
  pose proof (copy_to_orphan h' cur c a bs (hr + n) Hw Hc Ho) as Hcopy.
  case_decide as Hpos.
  - apply wp_bind, wp_assert; [apply bool_decide_eq_true; lia|].
    apply wp_bind. eapply wp_wand; [apply Hcopy; lia|]. intros [] h2 ->. apply wp_ret.
    rewrite Hnb. set (bs' := overwrite _ _ _).
    assert (Hz' : zlen bs' = zlen bs) by (unfold bs'; apply zlen_overwrite; lia).
    destruct (orphan_write a bs bs' h' Ho Hw Hz') as (Ho2 & Hw2 & Hk2).
    exists bs'. split_and!; try done; [by eapply keeps_trans|by rewrite Hz'| | |].
    3:{ intros X C Ht. apply tidyx_write; [set_solver|auto]. }
    + rewrite Hn1. f_equal.
      * unfold padd. simpl. f_equal. lia.
      * unfold max_alloc in *. rewrite u64_small; lia.
    + rewrite Hn1, slice_split by lia.
      rewrite chain_bytes_app, chain_bytes_cons, chain_bytes_nil, app_nil_r. f_equal.
      * unfold bs'. rewrite slice_overwrite_before by lia. done.
      * unfold bs'. rewrite <- Hlc. apply slice_overwrite; lia.
  - apply wp_ret. assert (Hl0 : length_ c = 0) by lia. rewrite Hl0 in *.
    assert (Hnil : node_bytes h cur = []) by (apply nil_length_inv; unfold zlen in Hlc; lia).
    exists bs. split_and!; try done.
    + rewrite Hn1. by rewrite Z.add_0_r.
    + rewrite Hn1, Z.add_0_r, chain_bytes_app, chain_bytes_cons, chain_bytes_nil, Hnil.
      simpl. by rewrite app_nil_r.
Qed.
End Segment.

(** ** [coalesceAndReallocate] *)

(** The payload of the head after its segment was coalesced. *)
Definition coalesced (a : positive) (hr len cap : Z) : Payload :=
  mkPayload (Addr (Some a) hr) (Addr (Some a) 0) len cap (packFlagsAndSharedInfo 0 (Some a)).

(** The objects of [s] are gone, their bytes went to [x]. *)
Definition segment_coalesced (x : positive) (s rest : list positive) (hr tr : Z) (h h' : Heap) : Prop :=
  wf h' /\ chain h' (x :: rest) /\ node_bytes h' x = chain_bytes h (x :: s) /\
  keeps (x :: s) (x :: s ++ rest) h h' /\ (on_heap h x -> on_heap h' x) /\
  (forall q, q ∈ s -> payloads h' !! q = None) /\ leakless h h' /\
  exists b, payloads h' !! x = Some b /\ length_ b = zlen (chain_bytes h (x :: s)) /\
    headroom b = hr /\ tr <= tailroom b /\ exists a, private a b.

Section Coalesce.
Implicit Types (h : Heap) (p q x a : positive) (l s rest dn : list positive) (b c : Payload).

Lemma window_coalesced a hr len cap bs :
  0 <= hr -> 0 <= len -> hr + len <= cap -> cap <= max_alloc -> zlen bs = cap ->
  window {[a := bs]} (coalesced a hr len cap).
Proof.
  intros. unfold window. simpl. rewrite lookup_singleton_eq. split_and!; try done; try lia.
  exists bs. split_and!; try done; lia.
Qed.

Lemma private_coalesced a hr len cap : private a (coalesced a hr len cap).
Proof. split_and!; [exact (sharedInfo_fresh a 0)|exact (flags_fresh a 0)|done]. Qed.

(** The new buffer takes the place of the old one of [x]. *)
Lemma install_wp h x b a bs hr len cap :
  wf h -> payloads h !! x = Some b -> orphan a bs h ->
  0 <= hr -> 0 <= len -> hr + len <= cap -> cap <= max_alloc -> zlen bs = cap ->
  forall (k : Mem unit) Q E,
  (forall h', replaced x (coalesced a hr len cap) h h' -> blocks h' !! a = Some bs ->
     infos h' !! a = Some (new_SharedInfo None 0) ->
     (forall X C, tidyx X ({[a]} ∪ C) h -> tidyx X C h') -> wp k h' Q E) ->
  wp (decrementRefcount x;;
      store x (setFlagsAndSharedInfo 0 (Some a));;
      store x (with_capacity cap);;
      store x (with_buf (Addr (Some a) 0));;
      store x (with_data (padd (Addr (Some a) 0) hr));;
      store x (with_length len);; k) h Q E.
Proof.
  intros Hw Hx Ho Hhr Hlen Hcap Hm Hz k Q E Hk.
  apply wp_bind. eapply wp_nothrow; [by eapply decrementRefcount_wp|]. intros [] h1 Hrel.
  assert (Hx1 : payloads h1 !! x = Some b).
  { destruct Hrel as (_ & _ & _ & Hb & _). by rewrite (payloads_of_bufs _ _ Hb). }
  apply wp_bind. eapply wp_store; [done|].
  do 4 (apply wp_bind; eapply wp_store;
        [rewrite (payloads_hstore h1 x b _ Hx1); apply lookup_insert_eq|]; rewrite hstore_hstore).
  match goal with |- wp _ (hstore x ?f h1) _ _ =>
    destruct (reattach h h1 x b a bs (coalesced a hr len cap) f) as (H1 & H2 & H3 & H4) end; try done.
  - apply private_coalesced.
  - by apply window_coalesced.
  - by apply Hk.
Qed.

Lemma coalesceAndReallocate4_wp h x s rest hr tr :
  wf h -> chain h (x :: s ++ rest) -> (s = [] -> rest = []) -> (forall q, q ∈ s -> on_heap h q) ->
  0 <= hr -> 0 <= tr -> zlen (chain_bytes h (x :: s)) + hr + tr + 31 <= max_alloc ->
  wp (coalesceAndReallocate4 x hr (zlen (chain_bytes h (x :: s))) (default x (head rest)) tr) h
    (fun _ h' => segment_coalesced x s rest hr tr h h')
    (fun e h' => e = bad_alloc /\ refused h /\ unchanged h h').
Proof.
  intros Hw Hc Hsr Hoh Hhr Htr Hm. set (len := zlen (chain_bytes h (x :: s))) in *.
  assert (Hlen0 : 0 <= len) by apply zlen_nonneg.
  assert (Hm' := Hm). unfold max_alloc in Hm'.
  unfold coalesceAndReallocate4. cbv zeta. rewrite (u64_small (len + hr)), (u64_small (len + hr + tr)) by lia.
  apply wp_bind. apply allocExtBuffer_wp; [lia|lia| |].
  2:{ intros Hr. split_and!; [done|done|by apply unchanged_count]. }
  intros cap Hcap. set (a := fresh_id h). set (h1 := hext a cap h).
  pose proof (keeps_hext h cap Hw) as Hk1. pose proof (wf_hext h cap Hw) as Hw1.
  pose proof (orphan_hext h cap Hw) as Ho1. fold a h1 in Hk1, Hw1, Ho1.
  assert (Hc1 : chain h1 (x :: s ++ rest)) by (eapply keeps_chain; [done|set_solver|done]).
  assert (Hall : forall p, p ∈ x :: s -> is_Some (payloads h !! p)).
  { intros p Hp. destruct (chain_payload h _ p Hc) as [c Hcc]; [|eauto].
    apply elem_of_cons in Hp as [->|Hp]; [by left|right; apply elem_of_app; by left]. }
  apply wp_bind. eapply wp_nothrow.
  { eapply (do_chain_all_wp _ x (s ++ rest) (x :: s) rest (copying h a hr len cap)).
    - done.
    - done.
    - intros dn st h' (bs & _ & _ & Hk & _). eapply keeps_chain; [exact Hk|set_solver|done].
    - intros dn cur todo st h' Hseg Hst.
      assert (Hcur : cur ∈ x :: s) by (rewrite Hseg; apply elem_of_app; right; by left).
      destruct st as [p0 r0].
      apply (copy_step h a hr len cap dn cur todo (p0, r0) h'); try done; try lia.
      + by apply Hall.
      + by rewrite <- Hseg.
    - exists (replicate (Z.to_nat cap) 0). split_and!; try done.
      + apply zlen_replicate. lia.
      + rewrite chain_bytes_nil. change (zlen []) with 0. f_equal; [|lia].
        unfold padd. simpl. f_equal. lia.
      + intros X C. apply tidyx_hext. }
  intros st h2 (bs & Ho2 & Hw2 & Hk2 & Hpay2 & Hst2 & Hz & -> & Hsl & Htd2). fold len in Hsl |- *.
  rewrite Z.sub_diag. cbn [fst snd]. apply wp_bind, wp_assert; [done|].
  destruct (Hall x) as [b Hb]; [by left|].
  eapply (install_wp h2 x b a bs hr len cap); try done; try lia.
  { by rewrite Hpay2. }
  intros h3 (Hw3 & Hk3 & Hpay3 & Hoh3) Hbl3 Hin3 Htd3.
  assert (Hk03 : keeps [x] [] h h3).
  { eapply keeps_trans; [eapply keeps_weaken; [| |exact Hk2]; set_solver|done]. }
  pose proof (chain_NoDup _ _ Hc) as Hnd. apply NoDup_cons in Hnd as [Hxn _].
  assert (Hxs : x ∉ s) by (intros H; apply Hxn, elem_of_app; by left).
  assert (Hal3 : forall q, q ∈ s -> on_heap h3 q).
  { intros q Hq. apply Hoh3. destruct (Hoh q Hq) as (f & Hf & Ht). exists f. by rewrite Hst2. }
  eapply wp_nothrow; [apply (drop_segment_wp h3 x s rest); [done| |done|done]|].
  { eapply keeps_chain; [exact Hk03|set_solver|done]. }
  intros [] h4 (Hw4 & Hc4 & Hk4 & Hpay4 & Htd4).
  assert (Hx3 : payloads h3 !! x = Some (coalesced a hr len cap)) by (rewrite Hpay3; apply lookup_insert_eq).
  assert (Hx4 : payloads h4 !! x = Some (coalesced a hr len cap)) by by rewrite Hpay4, decide_False.
  unfold segment_coalesced. split_and!; [done|done| | | | |by intros X C Ht; apply Htd4, Htd3, Htd2|].
  - rewrite (k_bytes _ _ _ _ Hk4) by eauto. rewrite (node_bytes_pay _ _ _ Hx3).
    unfold bytes. simpl. rewrite Hbl3. exact Hsl.
  - eapply keeps_trans; [eapply keeps_weaken; [| |exact Hk03]|eapply keeps_weaken; [| |exact Hk4]].
    + intros q ->%list_elem_of_singleton. by left.
    + by intros q ?%elem_of_nil.
    + intros q Hq. by right.
    + done.
  - intros (f & Hf & Ht). apply (k_heap _ _ _ _ Hk4); [done|eauto|]. apply Hoh3. exists f. by rewrite Hst2.
  - intros q Hq. by rewrite Hpay4, decide_True.
  - pose proof (wf_window _ _ _ Hw4 Hx4) as Hwin.
    exists (coalesced a hr len cap). split_and!; [done|done| | |].
    + rewrite (window_headroom _ _ Hwin). simpl. lia.
    + rewrite (window_tailroom _ _ a Hwin) by done. simpl. lia.
    + exists a. apply private_coalesced.
Qed.

(** The amount of data a chain holds is that of its objects. *)
Lemma chain_length_loop h x l s rest :
  wf h -> chain h (x :: l) -> x :: l = s ++ rest -> s <> [] ->
  zlen (chain_bytes h s) < 18446744073709551616 ->
  wp (do_chain_all x (default x (head rest))
        (fun cur newLength => e ← load cur; mret (u64 (newLength + length_ e))) 0) h
    (fun r h' => r = zlen (chain_bytes h s) /\ h' = h) nothrow.
Proof.
  intros Hw Hc Hs Hne Hm.
  eapply wp_wand; [eapply (do_chain_all_wp _ x l s rest
    (fun dn r h' => r = zlen (chain_bytes h dn) /\ h' = h)); [done|done| | |]|].
  - by intros dn r h' [_ ->].
  - intros dn cur todo r h' Hseg [-> ->].
    destruct (chain_payload h (x :: l) cur Hc) as [c Hcc].
    { rewrite Hs, Hseg. apply elem_of_app. left. apply elem_of_app. right. by left. }
    apply wp_bind. eapply wp_load; [done|]. apply wp_ret. split; [|done].
    pose proof (window_bytes_len _ _ (wf_window _ _ _ Hw Hcc)) as Hl.
    rewrite <- (node_bytes_pay _ _ _ Hcc) in Hl.
    rewrite Hseg, chain_bytes_app, chain_bytes_cons, !zlen_app in Hm.
    pose proof (zlen_nonneg (chain_bytes h todo)). pose proof (zlen_nonneg (chain_bytes h dn)).
    pose proof (zlen_nonneg (node_bytes h cur)).
    rewrite chain_bytes_app, chain_bytes_cons, chain_bytes_nil, app_nil_r, zlen_app, <- Hl.
    apply u64_small. lia.
  - by rewrite chain_bytes_nil.
  - done.
Qed.

Lemma coalesceAndReallocate_wp h x s rest b c :
  wf h -> chain h (x :: s ++ rest) -> (s = [] -> rest = []) -> (forall q, q ∈ s -> on_heap h q) ->
  payloads h !! x = Some b -> payloads h !! default x (last s) = Some c ->
  zlen (chain_bytes h (x :: s)) + headroom b + tailroom c + 31 <= max_alloc ->
  wp (coalesceAndReallocate x (zlen (chain_bytes h (x :: s))) (default x (head rest))) h
    (fun _ h' => segment_coalesced x s rest (headroom b) (tailroom c) h h')
    (fun e h' => e = bad_alloc /\ refused h /\ unchanged h h').
Proof.
  intros Hw Hc Hsr Hoh Hb Hcc Hm. unfold coalesceAndReallocate.
  apply wp_bind. eapply wp_load; [done|]. apply wp_bind. eapply wp_prev; [by apply segment_last|].
  apply wp_bind. eapply wp_load; [done|].
  apply coalesceAndReallocate4_wp; try done; unfold headroom, tailroom;
    apply Z.mod_pos_bound; lia.
Qed.

Lemma coalesce_wp h x l b c :
  wf h -> chain h (x :: l) -> (forall q, q ∈ l -> on_heap h q) ->
  payloads h !! x = Some b -> payloads h !! default x (last l) = Some c ->
  zlen (chain_bytes h (x :: l)) + headroom b + tailroom c + 31 <= max_alloc ->
  wp (coalesce x) h
    (fun r h' => exists b', payloads h' !! x = Some b' /\ r = (data_ b', length_ b') /\
       chain h' [x] /\ wf h' /\ node_bytes h' x = chain_bytes h (x :: l) /\
       headroom b' = headroom b /\ tailroom c <= tailroom b' /\
       keeps (x :: l) (x :: l) h h' /\ (forall q, q ∈ l -> payloads h' !! q = None) /\ leakless h h' /\
       (if decide (l = []) then h' = h else exists a, private a b'))
    (fun e h' => e = bad_alloc /\ refused h /\ unchanged h h').
Proof.
  intros Hw Hc Hoh Hb Hcc Hm. unfold coalesce. apply wp_bind. eapply isChained_wp; [done|].
  destruct l as [|y l].
  - rewrite bool_decide_eq_false_2 by (intros H; by apply H). apply wp_bind, wp_ret.
    apply wp_bind. eapply wp_load; [done|]. apply wp_ret. exists b. simpl in Hcc. simplify_eq.
    split_and!; try done.
    + rewrite chain_bytes_cons, chain_bytes_nil. by rewrite app_nil_r.
    + by intros q ?%elem_of_nil.
    + apply leakless_refl.
  - rewrite bool_decide_eq_true_2 by done. apply wp_bind. unfold coalesceSlow.
    apply wp_bind. eapply isChained_wp; [done|]. rewrite bool_decide_eq_true_2 by done.
    apply wp_bind, wp_assert; [done|]. apply wp_bind.
    assert (Htr : 0 <= headroom b /\ 0 <= tailroom c)
      by (unfold headroom, tailroom; split; apply Z.mod_pos_bound; lia).
    eapply wp_nothrow; [apply (chain_length_loop h x (y :: l) (x :: y :: l) []); try done|].
    { by rewrite app_nil_r. }
    { unfold max_alloc in Hm. lia. }
    intros ? ? [-> ->]. apply wp_bind.
    eapply wp_wand; [apply (coalesceAndReallocate_wp h x (y :: l) [] b c); try done|].
    { by rewrite app_nil_r. }
    intros [] h1 (Hw1 & Hc1 & Hby1 & Hk1 & _ & Hgone & Htd1 & b1 & Hb1 & Hl1 & Hh1 & Ht1 & Hpriv).
    apply wp_bind. eapply isChained_wp; [done|].
    rewrite bool_decide_eq_false_2 by (intros H; by apply H). apply wp_assert; [done|].
    apply wp_bind. eapply wp_load; [done|]. apply wp_ret. exists b1.
    rewrite app_nil_r in Hk1. rewrite decide_False by done. split_and!; done.
Qed.

(** Nobody else uses a private buffer. *)
Lemma private_sole h x b a q c :
  wf h -> payloads h !! x = Some b -> private a b -> payloads h !! q = Some c -> q <> x -> ablk (buf_ c) <> Some a.
Proof.
  intros Hw Hx (Hs & Hf & Hb) Hq Hne Hc. assert (Hbk : ablk (buf_ b) = Some a) by by rewrite Hb.
  pose proof (w_blk _ _ _ _ Hw x q b c a Hx Hq Hbk Hc) as Hsc. rewrite Hs in Hsc.
  assert (Hr : refs (payloads h) a = 1%nat) by (apply (w_flag _ _ _ _ Hw x b a Hx Hs); unfold has_flag; by rewrite Hf).
  apply Hne. by eapply (refs_unique (payloads h) q x c b a).
Qed.
End Coalesce.

(** ** [gather] *)

Section Gather.
Implicit Types (h : Heap) (p q x a : positive) (l s rest dn : list positive) (b c : Payload).

Definition too_short : exn := overflow_error "attempted to coalesce more data than available".

(** The loop that finds how much has to be coalesced: a segment that holds
    enough bytes, or the chain is too short. *)
Lemma gather_loop h x l n :
  wf h -> chain h (x :: l) -> zlen (chain_bytes h (x :: l)) < 18446744073709551616 ->
  wp (iter (S (size (bufs h)))
        (fun '(newLength, cur) =>
           e ← load cur;
           let newLength := u64 (newLength + length_ e) in
           n' ← next cur;
           if decide (n <= newLength) then mret (inr (newLength, n'))
           else if decide (n' = x) then throw too_short
           else mret (inl (newLength, n'))) (0, x)) h
    (fun r h' => h' = h /\ exists s rest, l = s ++ rest /\
       r = (zlen (chain_bytes h (x :: s)), default x (head rest)) /\ n <= zlen (chain_bytes h (x :: s)))
    (fun e h' => e = too_short /\ h' = h /\ zlen (chain_bytes h (x :: l)) < n).
Proof.
  intros Hw Hc Hm. pose proof (chain_size _ _ Hc) as Hsz. simpl in Hsz.
  eapply (wp_iter _ (fun k st h' => h' = h /\ exists dn cur todo, x :: l = dn ++ cur :: todo /\
    k = length todo /\ st = (zlen (chain_bytes h dn), cur))) with (n := length l); [|lia|].
  2:{ split; [done|]. exists [], x, l. split_and!; try done. }
  intros k st h' (-> & dn & cur & todo & Hl & -> & ->).
  destruct (chain_payload h (x :: l) cur Hc) as [c Hcc].
  { rewrite Hl. apply elem_of_app. right. by left. }
  pose proof (window_bytes_len _ _ (wf_window _ _ _ Hw Hcc)) as Hlc.
  rewrite <- (node_bytes_pay _ _ _ Hcc) in Hlc.
  assert (Hn1 : zlen (chain_bytes h (dn ++ [cur])) = zlen (chain_bytes h dn) + length_ c).
  { rewrite chain_bytes_app, chain_bytes_cons, chain_bytes_nil, app_nil_r, zlen_app. lia. }
  assert (Hle : zlen (chain_bytes h (dn ++ [cur])) <= zlen (chain_bytes h (x :: l))).
  { rewrite Hl, (app_assoc dn [cur] todo : dn ++ cur :: todo = _), (chain_bytes_app h (dn ++ [cur])), zlen_app.
    pose proof (zlen_nonneg (chain_bytes h todo)). lia. }
  pose proof (zlen_nonneg (chain_bytes h dn)). pose proof (zlen_nonneg (node_bytes h cur)).
  apply wp_bind. eapply wp_load; [done|]. cbv zeta. rewrite u64_small by lia. rewrite <- Hn1.
  apply wp_bind. eapply wp_next; [by eapply chain_succ|].
  assert (Hpre : exists s, dn ++ [cur] = x :: s /\ l = s ++ todo).
  { destruct dn as [|d dn]; simpl in Hl; simplify_eq.
    - by exists [].
    - exists (dn ++ [cur]). by rewrite <- (assoc_L (++)). }
  destruct Hpre as (s & Hpre & Hls). case_decide as Hd.
  - apply wp_ret. split; [done|]. exists s, todo. rewrite Hpre in *. by split_and!.
  - destruct todo as [|y todo]; simpl.
    + rewrite decide_True by done. apply wp_throw. split_and!; [done|done|].
      rewrite app_nil_r in Hls. subst l. rewrite <- Hpre. lia.
    + assert (y <> x).
      { intros ->. apply chain_NoDup in Hc. rewrite Hls in Hc. apply NoDup_cons in Hc as [Hx _].
        apply Hx, elem_of_app. right. by left. }
      rewrite decide_False by done. apply wp_ret. exists (length todo). split; [simpl; lia|].
      split; [done|]. exists (dn ++ [cur]), y, todo. split_and!; [|done|done].
      rewrite Hl. by rewrite <- (assoc_L (++)).
Qed.

Lemma gather_wp h x l n b :
  wf h -> chain h (x :: l) -> (forall q, q ∈ l -> on_heap h q) -> payloads h !! x = Some b ->
  (forall q c, q ∈ x :: l -> payloads h !! q = Some c ->
     zlen (chain_bytes h (x :: l)) + headroom b + tailroom c + 31 <= max_alloc) ->
  wp (gather x n) h
    (fun _ h' => wf h' /\ (exists rest, chain h' (x :: rest) /\ suffix rest l /\
         chain_bytes h' (x :: rest) = chain_bytes h (x :: l)) /\
       (exists b', payloads h' !! x = Some b' /\ (n <= length_ b' \/ l = []) /\
          headroom b' = headroom b))
    (fun e h' => (e = too_short /\ h' = h /\ zlen (chain_bytes h (x :: l)) < n) \/
                 (e = bad_alloc /\ refused h /\ unchanged h h')).
Proof.
  intros Hw Hc Hoh Hb Hm. unfold gather. apply wp_bind. eapply isChained_wp; [done|].
  apply wp_bind. eapply wp_load; [done|].
  assert (Hm64 : zlen (chain_bytes h (x :: l)) < 18446744073709551616).
  { specialize (Hm x b ltac:(by left) Hb). unfold max_alloc, headroom, tailroom in Hm.
    pose proof (Z.mod_pos_bound (pdiff (data_ b) (buf_ b)) (2 ^ 64)).
    pose proof (Z.mod_pos_bound (pdiff (bufferEnd b) (tail b)) (2 ^ 64)). unfold wrap in Hm. lia. }
  case_decide as Hd.
  { apply wp_ret. split_and!; [done|by exists l|]. exists b. split_and!; [done| |done].
    destruct Hd as [Hd|Hd]; [right|by left]. apply bool_decide_eq_false in Hd.
    by destruct l; [|exfalso; apply Hd]. }
  apply Decidable.not_or in Hd as [Hne Hlt].
  assert (Hl : l <> []) by (intros ->; apply Hne; by apply bool_decide_eq_false_2; intros H).
  unfold coalesceSlow_max. apply wp_bind. eapply isChained_wp; [done|].
  apply wp_bind, wp_assert; [by apply bool_decide_eq_true|].
  apply wp_bind. eapply wp_load; [done|].
  apply wp_bind, wp_assert; [apply bool_decide_eq_true; lia|].
  apply wp_bind, wp_get. apply wp_bind. eapply wp_mono; [by apply gather_loop| |].
  2:{ intros e h' (-> & -> & Hlt'). by left. }
  intros r h' (-> & s & rest & -> & -> & Hn).
  pose proof (window_bytes_len _ _ (wf_window _ _ _ Hw Hb)) as Hlb.
  rewrite <- (node_bytes_pay _ _ _ Hb) in Hlb.
  assert (Hs : s <> []).
  { intros ->. rewrite chain_bytes_cons, chain_bytes_nil, app_nil_r in Hn. lia. }
  assert (Hlast : default x (last s) ∈ x :: s ++ rest).
  { destruct (last s) as [z|] eqn:Hz; [|by apply last_None in Hz]. simpl. right.
    apply elem_of_app. left. by apply last_Some_elem_of. }
  destruct (chain_payload h _ _ Hc Hlast) as [c Hcc]. specialize (Hm _ c Hlast Hcc).
  change (x :: s ++ rest) with ((x :: s) ++ rest) in Hm. rewrite chain_bytes_app, zlen_app in Hm.
  pose proof (zlen_nonneg (chain_bytes h rest)).
  apply wp_bind. eapply wp_mono; [apply (coalesceAndReallocate_wp h x s rest b c); try done| |].
  - intros q Hq. apply Hoh, elem_of_app. by left.
  - lia.
  - intros [] h1 (Hw1 & Hc1 & Hby1 & Hk1 & _ & Hgone & _ & b1 & Hb1 & Hl1 & Hh1 & Ht1 & _).
    apply wp_bind. eapply wp_load; [done|].
    apply wp_assert; [apply bool_decide_eq_true; lia|]. split_and!; [done| |].
    + exists rest. split_and!; [done|by exists s|].
      change (x :: s ++ rest) with ((x :: s) ++ rest).
      rewrite chain_bytes_app, chain_bytes_cons, Hby1. f_equal.
      apply chain_bytes_ext. intros q Hq. pose proof (chain_NoDup _ _ Hc) as Hnd.
      change (x :: s ++ rest) with ((x :: s) ++ rest) in Hnd. apply NoDup_app in Hnd as (_ & Hdj & _).
      apply (k_bytes _ _ _ _ Hk1); [intros Hin; by apply (Hdj q)|].
      destruct (chain_payload h _ q Hc) as [cq Hq']; [|eauto]. right. apply elem_of_app. by right.
    + exists b1. split_and!; [done|left; lia|done].
  - intros e h1 He. by right.
Qed.
End Gather.
