(* ===== verification/IOBufRead.v ===== *)
(** * io/IOBuf: reading a chain

    The operations that only look at a chain: its number of elements, the
    amount of data, emptiness and the I/O vectors. *)

From stdpp Require Import base list gmap strings.
From S2P Require Import Prelude IOBufMem IOBuf IOBufChain IOBufInv IOBufWf IOBufPrim IOBufWindow IOBufShare.

#[local] Opaque chain.

(** The I/O vector entries of a list of objects, and the bytes entries denote. *)
Definition node_iov (h : Heap) (p : positive) : list (addr * Z) :=
  match payloads h !! p with
  | Some b => if decide (0 < length_ b) then [(data_ b, length_ b)] else []
  | None => []
  end.

Definition chain_iov (h : Heap) (l : list positive) : list (addr * Z) := concat (node_iov h <$> l).

Definition range_bytes (h : Heap) (r : addr * Z) : list Z :=
  match ablk r.1 with
  | Some k => slice (aoff r.1) r.2 (default [] (blocks h !! k))
  | None => []
  end.

Section Read.
Implicit Types (h : Heap) (x p cur : positive) (l dn : list positive) (b c : Payload).

Lemma wrap_add w a n : 0 <= w -> wrap w (wrap w a + n) = wrap w (a + n).
Proof. intros. unfold wrap. by rewrite Zplus_mod_idemp_l. Qed.

Lemma countChainElements_wp h x l :
  chain h (x :: l) ->
  wp (countChainElements x) h (fun r h' => r = u64 (zlen (x :: l)) /\ h' = h) nothrow.
Proof.
  intros Hc. unfold countChainElements. apply wp_bind.
  eapply wp_next; [by apply (chain_succ h x l [] x l)|].
  eapply (for_chain_wp _ x l (fun dn r h' => r = u64 (1 + zlen dn) /\ h' = h)).
  - by intros dn r h' [_ ->].
  - intros dn cur todo r h' Hl [-> ->]. apply wp_ret. split; [|done].
    rewrite wrap_add, zlen_app by done. f_equal. unfold zlen. simpl. lia.
  - intros r h' [-> ->]. split; [|done]. f_equal. unfold zlen. simpl. lia.
  - done.
Qed.



Lemma chain_bytes_snoc h dn cur : chain_bytes h (dn ++ [cur]) = chain_bytes h dn ++ node_bytes h cur.
Proof. by rewrite chain_bytes_app, chain_bytes_cons, chain_bytes_nil, app_nil_r. Qed.

Lemma computeChainDataLength_wp h x l :
  wf h -> chain h (x :: l) ->
  wp (computeChainDataLength x) h (fun r h' => r = u64 (zlen (chain_bytes h (x :: l))) /\ h' = h) nothrow.
Proof.
  intros Hw Hc. unfold computeChainDataLength.
  destruct (chain_payload h (x :: l) x Hc) as [b Hb]; [by left|].
  pose proof (length_bytes _ _ _ Hw Hb) as Hlb. pose proof (length_bound _ _ _ Hw Hb) as Hbd.
  apply wp_bind. eapply wp_load; [done|].
  apply wp_bind. eapply wp_next; [by apply (chain_succ h x l [] x l)|].
  eapply (for_chain_wp _ x l (fun dn r h' => r = u64 (zlen (chain_bytes h (x :: dn))) /\ h' = h)).
  - by intros dn r h' [_ ->].
  - intros dn cur todo r h' Hl [-> ->].
    destruct (chain_payload h (x :: l) cur Hc) as [c Hcc].
    { right. rewrite Hl. apply elem_of_app. right. by left. }
    apply wp_bind. eapply wp_load; [done|]. apply wp_ret. split; [|done].
    change (x :: dn ++ [cur]) with ((x :: dn) ++ [cur]).
    by rewrite wrap_add, chain_bytes_snoc, zlen_app, (length_bytes _ _ _ Hw Hcc).
  - intros r h' [-> ->]. done.
  - rewrite chain_bytes_cons, chain_bytes_nil, app_nil_r, Hlb. unfold max_alloc in Hbd.
    by rewrite u64_small by lia.
Qed.

Lemma empty_wp h x l :
  wf h -> chain h (x :: l) ->
  wp (empty x) h (fun r h' => r = bool_decide (chain_bytes h (x :: l) = []) /\ h' = h) nothrow.
Proof.
  intros Hw Hc. unfold empty. apply wp_bind.
  eapply wp_wand; [eapply (do_chain_wp _ x l (x :: l) []
    (fun dn _ h' => chain_bytes h dn = [] /\ h' = h)
    (fun _ h' => chain_bytes h (x :: l) <> [] /\ h' = h)); [by rewrite app_nil_r|done| | |done]|].
  - by intros dn r h' [_ ->].
  - intros dn cur todo r h' Hl [Hdn ->].
    destruct (chain_payload h (x :: l) cur Hc) as [c Hcc].
    { rewrite Hl. apply elem_of_app. right. by left. }
    pose proof (length_bytes _ _ _ Hw Hcc) as Hlc.
    apply wp_bind. eapply wp_load; [done|]. apply wp_ret. case_decide as Hd.
    + split; [|done]. rewrite Hl, chain_bytes_app, chain_bytes_cons. intros Hnil.
      apply app_eq_nil in Hnil as [_ Hnil]. apply app_eq_nil in Hnil as [Hnil _].
      rewrite Hnil in Hlc. by change (zlen []) with 0 in Hlc.
    + split; [|done]. rewrite chain_bytes_snoc, Hdn. simpl. apply nil_length_inv.
      unfold zlen in Hlc. lia.
  - intros r h' Hr. apply wp_ret. destruct r; destruct Hr as [Hr ->]; split; try done.
    + by rewrite bool_decide_eq_true_2.
    + by rewrite bool_decide_eq_false_2.
Qed.

Lemma chain_iov_snoc h dn cur : chain_iov h (dn ++ [cur]) = chain_iov h dn ++ node_iov h cur.
Proof. unfold chain_iov. rewrite fmap_app, concat_app. simpl. by rewrite app_nil_r. Qed.

Lemma appendToIov_wp h x l iov :
  chain h (x :: l) ->
  wp (appendToIov x iov) h (fun r h' => r = iov ++ chain_iov h (x :: l) /\ h' = h) nothrow.
Proof.
  intros Hc. unfold appendToIov.
  eapply wp_wand; [eapply (do_chain_all_wp _ x l (x :: l) []
    (fun dn r h' => r = iov ++ chain_iov h dn /\ h' = h)); [by rewrite app_nil_r|done| | |]|done].
  - by intros dn r h' [_ ->].
  - intros dn cur todo r h' Hl [-> ->].
    destruct (chain_payload h (x :: l) cur Hc) as [c Hcc].
    { rewrite Hl. apply elem_of_app. right. by left. }
    apply wp_bind. eapply wp_load; [done|]. apply wp_ret. split; [|done].
    rewrite chain_iov_snoc. unfold node_iov. rewrite Hcc.
    case_decide; [by rewrite (assoc_L (++))|by rewrite app_nil_r].
  - unfold chain_iov. simpl. by rewrite app_nil_r.
Qed.

(** The entries denote the bytes of the chain. *)
Lemma chain_iov_bytes h l :
  wf h -> concat (range_bytes h <$> chain_iov h l) = chain_bytes h l.
Proof.
  intros Hw. induction l as [|p l IH]; [done|].
  change (chain_iov h (p :: l)) with (node_iov h p ++ chain_iov h l).
  rewrite fmap_app, concat_app, IH, chain_bytes_cons. f_equal.
  unfold node_iov, node_bytes. destruct (payloads h !! p) as [b|] eqn:Hp; [|done].
  pose proof (window_bytes_len _ _ (wf_window _ _ _ Hw Hp)) as Hl. case_decide; simpl.
  - by rewrite app_nil_r.
  - symmetry. apply nil_length_inv. unfold zlen in Hl. pose proof (length_bound _ _ _ Hw Hp). lia.
Qed.

Lemma getIov_wp h x l :
  chain h (x :: l) ->
  wp (getIov x) h (fun r h' => r = chain_iov h (x :: l) /\ h' = h) nothrow.
Proof.
  intros Hc. unfold getIov. apply wp_bind. eapply wp_wand; [by apply countChainElements_wp|].
  intros ? ? [-> ->]. by apply (appendToIov_wp h x l []).
Qed.

(** [fillIov] stops with 0 when the entries do not suffice. *)
Lemma fillIov_wp h x l n :
  chain h (x :: l) ->
  wp (fillIov x n) h
    (fun r h' => h' = h /\
       ((r = (zlen (chain_iov h (x :: l)), chain_iov h (x :: l)) /\ zlen (chain_iov h (x :: l)) <= Z.max n 0) \/
        (r.1 = 0 /\ exists dn, prefix dn (x :: l) /\ dn <> x :: l /\ r.2 = chain_iov h dn /\ n <= zlen r.2)))
    nothrow.
Proof.
  intros Hc. unfold fillIov. apply wp_bind, wp_get.
  pose proof (chain_size _ _ Hc) as Hsz. simpl in Hsz.
  eapply (wp_iter _ (fun k st h' => h' = h /\ exists dn cur todo, x :: l = dn ++ cur :: todo /\
    k = length todo /\ st = (cur, chain_iov h dn) /\ zlen (chain_iov h dn) <= Z.max n 0))
    with (n := length l); [|lia|].
  2:{ split; [done|]. exists [], x, l. split_and!; try done. change (zlen _) with 0. lia. }
  intros k st h' (-> & dn & cur & todo & Hl & -> & -> & Hz).
  destruct (chain_payload h (x :: l) cur Hc) as [c Hcc].
  { rewrite Hl. apply elem_of_app. right. by left. }
  case_decide as Hd.
  - apply wp_bind. eapply wp_load; [done|].
    assert (Hiov : (if decide (0 < length_ c) then chain_iov h dn ++ [(data_ c, length_ c)]
                    else chain_iov h dn) = chain_iov h (dn ++ [cur])).
    { rewrite chain_iov_snoc. unfold node_iov. rewrite Hcc. case_decide; [done|by rewrite app_nil_r]. }
    cbv zeta. rewrite Hiov.
    assert (Hz' : zlen (chain_iov h (dn ++ [cur])) <= n).
    { rewrite chain_iov_snoc, zlen_app. unfold node_iov. rewrite Hcc.
      case_decide; [change (zlen [_]) with 1|change (zlen []) with 0]; lia. }
    apply wp_bind. eapply wp_next; [by eapply chain_succ|].
    destruct todo as [|y todo]; simpl.
    + rewrite decide_True by done. apply wp_ret. split; [done|]. left. rewrite Hl. split; [done|]. lia.
    + assert (y <> x).
      { intros ->. apply chain_NoDup in Hc. destruct dn as [|d dn]; simpl in Hl; simplify_eq.
        - apply NoDup_cons in Hc as [Hx _]. apply Hx. by left.
        - apply NoDup_cons in Hc as [Hx _]. apply Hx, elem_of_app. right. by right; left. }
      rewrite decide_False by done. apply wp_ret. exists (length todo). split; [simpl; lia|].
      split; [done|]. exists (dn ++ [cur]), y, todo. split_and!; try done; [|lia].
      rewrite Hl. by rewrite <- (assoc_L (++)).
  - apply wp_ret. split; [done|]. right. simpl. split; [done|]. exists dn. split_and!; [| |done|lia].
    + by exists (cur :: todo).
    + rewrite Hl. intros Heq. apply (f_equal length) in Heq. rewrite length_app in Heq. simpl in Heq. lia.
Qed.
End Read.

#[local] Transparent chain.

(** * io/IOBuf: deciding the invariant

    The memory invariant and the shape of chains are decidable, so that they can
    be evaluated on concrete heaps. *)

#[global] Instance ex_some_dec {A} (o : option A) (Q : A -> Prop) `{forall x, Decision (Q x)} :
  Decision (exists x, o = Some x /\ Q x).
Proof.
  destruct o as [x|]; [|right; by intros (? & ? & _)].
  destruct (decide (Q x)) as [HQ|HQ]; [left; eauto|right; by intros (? & [= <-] & ?)].
Defined.

#[global] Instance some_fn_dec (o : option FreeFunction) : Decision (exists fn, o = Some (user_fn fn)).
Proof. destruct o as [[|id]|]; [right; by intros [??]|left; eauto|right; by intros [??]]. Defined.

#[global] Instance window_dec B b : Decision (window B b).
Proof. unfold window. destruct (ablk (buf_ b)); apply _. Defined.

#[global] Instance placed_dec I B St b s i : Decision (placed I B St b s i).
Proof. unfold placed. apply _. Defined.

#[global] Instance on_heap_dec h p : Decision (on_heap h p).
Proof. unfold on_heap. apply _. Defined.

#[global] Instance one_shared_dec h b : Decision (one_shared h b).
Proof. unfold one_shared. destruct (sharedInfo b); apply _. Defined.

#[global] Instance adj_dec h x y : Decision (adj h x y).
Proof. unfold adj. apply _. Defined.

#[global] Instance adjs_dec h l : Decision (adjs h l).
Proof.
  induction l as [|x l IH]; [by left|]. destruct l as [|y l]; [by left|].
  change (Decision (adj h x y /\ adjs h (y :: l))). apply _.
Defined.

#[global] Instance chain_dec h l : Decision (chain h l).
Proof. destruct l as [|x l]; [right; by intros []|]. unfold chain. apply _. Defined.

(** What the invariant says of the buffer of one object. *)
Definition buffer_ok (h : Heap) (b : Payload) : Prop :=
  match sharedInfo b with
  | Some s => (exists i, infos h !! s = Some i /\ refcount i = Z.of_nat (refs (payloads h) s) /\
                placed (infos h) (blocks h) (storages h) b s i) /\
              (has_flag kFlagMaybeShared b = false -> refs (payloads h) s = 1%nat)
  | None => match ablk (buf_ b) with
            | Some k => infos h !! k = None /\ storages h !! k = None
            | None => True
            end
  end.

#[global] Instance buffer_ok_dec h b : Decision (buffer_ok h b).
Proof. unfold buffer_ok. destruct (sharedInfo b); [apply _|]. destruct (ablk (buf_ b)); apply _. Defined.

(** An executable form of the invariant. *)
Definition wf_check (h : Heap) : bool :=
  let P := payloads h in
  bool_decide (map_Forall (fun p b =>
    window (blocks h) b /\
    buffer_ok h b /\
    map_Forall (fun q c =>
      (ablk (buf_ b) = ablk (buf_ c) -> is_Some (ablk (buf_ b)) -> sharedInfo b = sharedInfo c) /\
      (sharedInfo b = sharedInfo c -> is_Some (sharedInfo b) -> buf_ b = buf_ c)) P) P) &&
  bool_decide (map_Forall (fun p f => (f = 1 \/ f = 2 \/ f = 3) /\
    (is_Some (P !! p) -> Z.testbit f 0 = true)) (storages h)) &&
  bool_decide (Z.of_nat (size P) < 4294967296).

Lemma mcount_le {V} (Q : positive * V -> Prop) `{forall x, Decision (Q x)} (m : gmap positive V) :
  (mcount Q m <= size m)%nat.
Proof. unfold mcount. apply map_subseteq_size, map_filter_subseteq. Qed.

Lemma wf_check_sound h : wf_check h = true -> wf h.
Proof.
  unfold wf_check, wf. rewrite !andb_true_iff, !bool_decide_eq_true. intros [[HP HSt] Hsz].
  split.
  - intros p b Hp. apply (HP p b Hp).
  - intros p b s Hp Hs. destruct (HP p b Hp) as (_ & Hm & _). unfold buffer_ok in Hm. rewrite Hs in Hm. apply Hm.
  - intros p b s Hp Hs. destruct (HP p b Hp) as (_ & Hm & _). unfold buffer_ok in Hm. rewrite Hs in Hm. apply Hm.
  - intros p q b c k Hp Hq Hb Hc. destruct (HP p b Hp) as (_ & _ & Hm).
    destruct (Hm q c Hq) as [H1 _]. apply H1; [congruence|]. rewrite Hb. eauto.
  - intros p q b c s Hp Hq Hb Hc. destruct (HP p b Hp) as (_ & _ & Hm).
    destruct (Hm q c Hq) as [_ H1]. apply H1; [congruence|]. rewrite Hb. eauto.
  - intros p b k Hp Hs Hk. destruct (HP p b Hp) as (_ & Hm & _). unfold buffer_ok in Hm. by rewrite Hs, Hk in Hm.
  - intros p f Hf. apply (HSt p f Hf).
  - intros p f Hf. apply (HSt p f Hf).
  - intros s. pose proof (mcount_le (fun pb => sharedInfo pb.2 = Some s) (payloads h)). unfold refs. lia.
Qed.

(** ** A concrete heap

    Three chained IOBufs with the bytes [1 2 3], [4 5] and none, the first two
    of which are heap objects; and an IOBuf around memory of the user. *)

Definition empty_heap : Heap := mkHeap ∅ ∅ ∅ ∅ [] (fun _ => true) 0.

Definition demo_program : Mem (positive * positive * positive * positive) :=
  a ← copyBuffer [1; 2; 3] 2 4;
  b ← copyBuffer [4; 5] 0 1;
  c ← createSeparate 10;
  prependChain a b;; prependChain a c;;
  modify (on_blocks (insert 1000%positive [7; 8; 9]));;
  d ← wrapBuffer (Addr (Some 1000%positive) 1) 2;
  mret (a, b, c, d).

Definition demo : positive * positive * positive * positive * Heap :=
  match demo_program empty_heap with
  | Ok r h => (r, h)
  | _ => (1, 1, 1, 1, empty_heap)%positive
  end.

Definition demo_heap : Heap := demo.2.
Definition demo_a : positive := demo.1.1.1.1.
Definition demo_b : positive := demo.1.1.1.2.
Definition demo_c : positive := demo.1.1.2.
Definition demo_d : positive := demo.1.2.

Lemma demo_wf : wf demo_heap.
Proof. apply wf_check_sound. vm_compute. reflexivity. Qed.

Lemma demo_chain : chain demo_heap [demo_a; demo_b; demo_c].
Proof. apply (bool_decide_unpack _). vm_compute. exact Logic.I. Qed.

Lemma demo_chain_d : chain demo_heap [demo_d].
Proof. apply (bool_decide_unpack _). vm_compute. exact Logic.I. Qed.

Lemma demo_on_heap q : q ∈ [demo_a; demo_b; demo_c; demo_d] -> on_heap demo_heap q.
Proof.
  revert q. apply Forall_forall. apply (bool_decide_unpack _). vm_compute. exact Logic.I.
Qed.

Lemma demo_bytes : chain_bytes demo_heap [demo_a; demo_b; demo_c] = [1; 2; 3; 4; 5].
Proof. vm_compute. reflexivity. Qed.
