(* ===== verification/IOBufSpec.v ===== *)
(** * io/IOBuf: the contract

    What the operations of IOBuf promise to their callers, with an evaluation
    of each promise on a concrete heap. *)

From stdpp Require Import base list gmap strings.
From S2P Require Import Prelude IOBufMem IOBuf IOBufChain IOBufInv IOBufWf IOBufPrim IOBufRelease IOBufLife IOBufWindow IOBufShare IOBufClone IOBufPiece IOBufRead.

#[local] Opaque chain.

(** ** Evaluating on the concrete heap *)

Ltac demo_lookup := vm_compute; reflexivity.

Lemma demo_alloc_ok : alloc_ok demo_heap.
Proof. intros n. vm_compute. reflexivity. Qed.

#[global] Opaque demo.

Lemma demo_not_refused : ~ refused demo_heap.
Proof. apply alloc_ok_refused, demo_alloc_ok. Qed.

Lemma demo_refs s : Z.of_nat (refs (payloads demo_heap) s) <= 4.
Proof.
  unfold refs. pose proof (mcount_le (fun pb => sharedInfo pb.2 = Some s) (payloads demo_heap)) as H.
  assert (Hs : size (payloads demo_heap) = 4%nat) by demo_lookup. rewrite Hs in H. lia.
Qed.

(** [tidy] is decided by going through the maps. *)
Definition tidy_check (C : gset positive) (h : Heap) : Prop :=
  map_Forall (fun s _ => s ∈ C \/ (0 < refs (payloads h) s)%nat \/ storages h !! s = Some 1) (infos h) /\
  map_Forall (fun s f => (Z.testbit f 0 = true -> is_Some (payloads h !! s)) /\
    (Z.testbit f 1 = true -> (0 < refs (payloads h) s)%nat)) (storages h) /\
  map_Forall (fun k _ => k ∈ C \/ storages h !! k = Some 1 \/
    (0 < mcount (fun pb => ablk (buf_ pb.2) = Some k) (payloads h))%nat) (blocks h) /\
  map_Forall (fun _ b => sharedInfo b = None -> Forall (.∈ C) (match ablk (buf_ b) with Some k => [k] | None => [] end)) (payloads h).

Lemma tidy_check_sound C h : tidy_check C h -> tidy C h.
Proof.
  intros (H1 & H2 & H3 & H4). split.
  - intros s [i Hi]. exact (H1 s i Hi).
  - intros p f Hf Hb. right. by apply (H2 p f Hf).
  - intros s f Hf Hb. by apply (H2 s f Hf).
  - intros k [bs Hk]. destruct (H3 k bs Hk) as [?|[?|Hc]]; [by left|by right; left|right; right].
    destruct (mcount_witness _ _ Hc) as (p & b & Hp & Hb). eauto.
  - intros p b k Hp Hs Hk. specialize (H4 p b Hp Hs). rewrite Hk in H4. by rewrite Forall_singleton in H4.
Qed.

(** The client owns the wrapped buffer. *)
Definition demo_client : gset positive := {[1000%positive]}.

Lemma demo_tidy : tidy demo_client demo_heap.
Proof. apply tidy_check_sound. unfold tidy_check. apply (bool_decide_unpack _). vm_compute. exact Logic.I. Qed.

Definition demo_payload (p : positive) : Payload := default null_payload (payloads demo_heap !! p).

(** ** Reading and writing one buffer *)

(** [IOBuf::copyBuffer] returns a new IOBuf, alone in its chain, that holds
    exactly the given bytes after the requested headroom and before at least the
    requested tailroom; the invariant of the memory is kept and no other IOBuf
    changes. *)
Lemma copyBuffer_correct h bs hr tr :
  wf h -> alloc_ok h -> 0 <= hr -> 0 <= tr -> hr + zlen bs + tr + offsetof_align <= max_alloc ->
  wp (copyBuffer bs hr tr) h
    (fun p h' => wf h' /\ on_heap h' p /\ payloads h !! p = None /\ chain h' [p] /\
       node_bytes h' p = bs /\ keeps [] [] h h' /\
       exists b, payloads h' !! p = Some b /\ headroom b = hr /\ tr <= tailroom b /\ isManagedOne b = true)
    nothrow.
Proof.
  intros Hw Ha Hhr Htr Hm. eapply wp_wand; [by apply copyBuffer_wp|].
  intros p h' (Ho & b & (Hw' & Hk & Hp & Hc & Hpay) & Hb & Hman & _ & Hh & Ht).
  split_and!; try done. exists b. split_and!; try done. rewrite Hpay. apply lookup_insert_eq.
Qed.

Lemma copyBuffer_correct_witness :
  wp (copyBuffer [10; 20; 30] 5 7) demo_heap
    (fun p h' => node_bytes h' p = [10; 20; 30] /\ chain h' [p]) nothrow.
Proof.
  eapply wp_wand; [apply (copyBuffer_correct demo_heap [10; 20; 30] 5 7)|].
  - exact demo_wf.
  - exact demo_alloc_ok.
  - lia.
  - lia.
  - unfold zlen, offsetof_align, max_alloc. simpl. lia.
  - intros p h' (_ & _ & _ & Hc & Hb & _). by split.
Defined.

(** [trimStart] and [trimEnd] drop exactly the given number of bytes at the
    start and at the end of the buffer, [clear] all of them; nothing else
    changes. *)
Lemma trim_correct h p b n :
  wf h -> payloads h !! p = Some b -> 0 <= n <= length_ b ->
  wp (trimStart p n) h (fun _ h' => wf h' /\ keeps [p] [] h h' /\
    node_bytes h' p = drop (Z.to_nat n) (node_bytes h p)) nothrow /\
  wp (trimEnd p n) h (fun _ h' => wf h' /\ keeps [p] [] h h' /\
    node_bytes h' p = take (Z.to_nat (length_ b - n)) (node_bytes h p)) nothrow /\
  wp (clear p) h (fun _ h' => wf h' /\ keeps [p] [] h h' /\ node_bytes h' p = []) nothrow.
Proof.
  intros Hw Hp Hn. pose proof (wf_window _ _ _ Hw Hp) as Hwin. pose proof (window_bytes_len _ _ Hwin) as Hl.
  assert (Hnb : forall b' h', rewindowed p b' h h' -> node_bytes h' p = bytes (blocks h) b').
  { intros b' h' Hr. rewrite (node_bytes_pay _ _ _ (rewindowed_pay _ _ _ _ Hr)).
    destruct Hr as (_ & _ & _ & -> & _). done. }
  split_and!.
  - eapply wp_wand; [by apply trimStart_wp|]. intros [] h' Hr. split_and!; [apply Hr|apply Hr|].
    rewrite (Hnb _ _ Hr), bytes_trimmed, (node_bytes_pay _ _ _ Hp) by (done || lia).
    unfold slice. apply take_ge. rewrite length_drop. unfold zlen in Hl. lia.
  - eapply wp_wand; [by apply trimEnd_wp|]. intros [] h' Hr. split_and!; [apply Hr|apply Hr|].
    rewrite (Hnb _ _ Hr), bytes_trimmed, (node_bytes_pay _ _ _ Hp) by (done || lia).
    unfold slice. rewrite drop_0. f_equal. lia.
  - eapply wp_wand; [by apply clear_wp|]. intros [] h' Hr. split_and!; [apply Hr|apply Hr|].
    rewrite (Hnb _ _ Hr). unfold bytes. simpl. by destruct (ablk (buf_ b)).
Qed.

Lemma trim_correct_witness :
  wp (trimStart demo_a 1) demo_heap (fun _ h' => node_bytes h' demo_a = [2; 3]) nothrow /\
  wp (trimEnd demo_a 1) demo_heap (fun _ h' => node_bytes h' demo_a = [1; 2]) nothrow.
Proof.
  destruct (trim_correct demo_heap demo_a (demo_payload demo_a) 1) as (H1 & H2 & _).
  - exact demo_wf.
  - demo_lookup.
  - assert (length_ (demo_payload demo_a) = 3) as -> by demo_lookup. lia.
  - split; [eapply wp_wand; [exact H1|]|eapply wp_wand; [exact H2|]];
      intros [] h' (_ & _ & ->); demo_lookup.
Defined.

(** ** Chains *)

(** C17: [prependChain] inserts the whole chain of [o] before [x] in the circular
    chain of [x], and [appendChain] behind it; bytes, buffers and all other
    chains are left alone. *)
Theorem prependChain_correct h x l o m :
  chain h (x :: l) -> chain h (o :: m) -> x :: l ## o :: m ->
  wp (prependChain x o) h
    (fun _ h' => chain h' (x :: l ++ o :: m) /\ chain_bytes h' (x :: l ++ o :: m) =
       chain_bytes h (x :: l) ++ chain_bytes h (o :: m) /\ keeps [] ((x :: l) ++ o :: m) h h') nothrow /\
  wp (appendChain x o) h
    (fun _ h' => chain h' (x :: (o :: m) ++ l) /\ chain_bytes h' (x :: (o :: m) ++ l) =
       node_bytes h x ++ chain_bytes h (o :: m) ++ chain_bytes h l /\
       keeps [] ((x :: l) ++ o :: m) h h') nothrow.
Proof.
  intros Hx Ho Hd.
  assert (Hby : forall S h' k, relinked S h h' -> chain_bytes h' k = chain_bytes h k).
  { intros S h' k Hr. apply chain_bytes_ext. intros p _. unfold node_bytes.
    by rewrite (rl_body _ _ _ Hr), (rl_blocks _ _ _ Hr). }
  split.
  - eapply wp_wand; [by apply prependChain_wp|]. intros [] h' [Hc Hr].
    split_and!; [done| |by apply keeps_relinked].
    rewrite (Hby _ _ _ Hr). by rewrite <- chain_bytes_app.
  - unfold appendChain. apply wp_bind. eapply wp_next; [by apply (chain_succ h x l [] x l)|].
    destruct l as [|y l]; simpl.
    + eapply wp_wand; [by apply (prependChain_wp h x [] o m)|]. intros [] h' [Hc Hr].
      rewrite app_nil_r. split_and!; [done| |by apply keeps_relinked].
      rewrite (Hby _ _ _ Hr). by rewrite chain_bytes_cons, chain_bytes_nil, app_nil_r.
    + assert (Hy : chain h (y :: l ++ [x])) by (by apply (chain_rotate1 h x (y :: l))).
      eapply wp_wand; [apply (prependChain_wp h y (l ++ [x]) o m); [done|done|]|].
      { intros q Hq Hq'. apply (Hd q); [|done]. revert Hq.
        rewrite !elem_of_cons, elem_of_app, list_elem_of_singleton. tauto. }
      intros [] h' [Hc Hr]. split_and!.
      * change (y :: (l ++ [x]) ++ o :: m) with ((y :: l ++ [x]) ++ o :: m) in Hc.
        replace ((y :: l ++ [x]) ++ o :: m) with ((y :: l) ++ (x :: o :: m)) in Hc
          by (simpl; by rewrite <- (assoc_L (++))).
        by apply (chain_rotate h' (y :: l) (x :: o :: m)) in Hc.
      * rewrite (Hby _ _ _ Hr). change (x :: o :: m ++ y :: l) with ([x] ++ (o :: m) ++ (y :: l)).
        rewrite !chain_bytes_app, chain_bytes_cons, chain_bytes_nil. by rewrite app_nil_r.
      * eapply keeps_weaken; [| |by eapply keeps_relinked]; [done|]. intros q.
        rewrite !elem_of_app, !elem_of_cons, !elem_of_app, !elem_of_cons, elem_of_nil. tauto.
Qed.

Lemma prependChain_correct_witness :
  wp (prependChain demo_a demo_d) demo_heap
    (fun _ h' => chain h' [demo_a; demo_b; demo_c; demo_d] /\
       chain_bytes h' [demo_a; demo_b; demo_c; demo_d] = [1; 2; 3; 4; 5; 8; 9]) nothrow.
Proof.
  destruct (prependChain_correct demo_heap demo_a [demo_b; demo_c] demo_d []) as [H _].
  - exact demo_chain.
  - exact demo_chain_d.
  - intros q Hq Hq'. apply list_elem_of_singleton in Hq' as ->. revert Hq.
    apply (bool_decide_unpack _). vm_compute. exact Logic.I.
  - eapply wp_wand; [exact H|]. intros [] h' (Hc & Hb & _). split; [exact Hc|].
    simpl app in Hb. rewrite Hb. demo_lookup.
Defined.

(** [separateChain] cuts a segment out of a chain: the segment and what
    remains are two chains, in the old order; [unlink] cuts out one element and
    [pop] returns the element that follows it, or null at the end. *)
Lemma separateChain_correct h x a s t b r :
  chain h (a :: s ++ b :: r) -> last (a :: s) = Some t -> x ∈ b :: r ->
  wp (separateChain x a t) h
    (fun q h' => q = a /\ chain h' (a :: s) /\ chain h' (b :: r) /\
       keeps [] ((a :: s) ++ b :: r) h h') nothrow /\
  wp (unlink a) h
    (fun q h' => q = a /\ chain h' [a] /\ chain h' (s ++ b :: r) /\ keeps [] (a :: s ++ b :: r) h h')
    nothrow /\
  wp (pop a) h
    (fun q h' => q = head (s ++ b :: r) /\ chain h' [a] /\ chain h' (s ++ b :: r)) nothrow.
Proof.
  intros Hc Ht Hx. assert (Hne : s ++ b :: r <> []) by by destruct s. split_and!.
  - destruct (snoc_exists a s) as (s1 & t' & Hs). rewrite Hs, last_snoc in Ht. injection Ht as ->.
    eapply wp_wand; [by eapply separateChain_wp|]. intros q h' (-> & H1 & H2 & Hr).
    split_and!; [done..|by apply keeps_relinked].
  - eapply wp_wand; [by eapply unlink_wp|]. intros q h' (-> & H1 & H2 & Hr).
    split_and!; [done|done|by apply H2|by apply keeps_relinked].
  - eapply wp_wand; [by eapply pop_wp|]. intros q h' (-> & H1 & H2 & Hr).
    split_and!; [done|done|by apply H2].
Qed.

Lemma separateChain_correct_witness :
  wp (separateChain demo_c demo_a demo_b) demo_heap
    (fun q h' => q = demo_a /\ chain h' [demo_a; demo_b] /\ chain h' [demo_c]) nothrow.
Proof.
  destruct (separateChain_correct demo_heap demo_c demo_a [demo_b] demo_b demo_c []) as (H & _).
  - exact demo_chain.
  - reflexivity.
  - left.
  - eapply wp_wand; [exact H|]. intros q h' (H1 & H2 & H3 & _). exact (conj H1 (conj H2 H3)).
Defined.

(** The operations that inspect a chain: [computeChainDataLength] is the
    total number of bytes (in 64 bits), [empty] says whether there are none,
    [countChainElements] counts the IOBufs, and the entries of [getIov] denote
    exactly the bytes of the chain in order. *)
Lemma chain_inspection_correct h x l :
  wf h -> chain h (x :: l) ->
  wp (computeChainDataLength x) h (fun r h' => h' = h /\ r = u64 (zlen (chain_bytes h (x :: l)))) nothrow /\
  wp (empty x) h (fun r h' => h' = h /\ (r = true <-> chain_bytes h (x :: l) = [])) nothrow /\
  wp (countChainElements x) h (fun r h' => h' = h /\ r = u64 (zlen (x :: l))) nothrow /\
  wp (getIov x) h (fun r h' => h' = h /\ concat (range_bytes h <$> r) = chain_bytes h (x :: l) /\
    Forall (fun e => 0 < e.2) r) nothrow.
Proof.
  intros Hw Hc. split_and!.
  - eapply wp_wand; [by apply computeChainDataLength_wp|]. by intros r h' [-> ->].
  - eapply wp_wand; [by apply empty_wp|]. intros r h' [-> ->]. split; [done|]. apply bool_decide_eq_true.
  - eapply wp_wand; [by apply countChainElements_wp|]. by intros r h' [-> ->].
  - eapply wp_wand; [by apply getIov_wp|]. intros r h' [-> ->]. split_and!; [done|by apply chain_iov_bytes|].
    apply List.Forall_concat, Forall_fmap, Forall_forall. intros p _. unfold node_iov. simpl.
    destruct (payloads h !! p) as [b|]; [|done]. case_decide; [by constructor|done].
Qed.

(** ** Sharing *)

(** [isSharedOne] answers true exactly when the buffer is not managed, was
    marked as externally shared, or is referred to by another IOBuf. *)
Lemma isSharedOne_exact h p b :
  wf h -> payloads h !! p = Some b ->
  wp (isSharedOne p) h
    (fun r h' => (r = true <-> one_shared h b) /\ wf h' /\ keeps [p] [] h h' /\
       node_bytes h' p = node_bytes h p) nothrow.
Proof.
  intros Hw Hp. eapply wp_wand; [by eapply isSharedOne_wp|].
  intros r h' (Hr & _ & b' & Hrw & Hcase & _). pose proof (rewindowed_pay _ _ _ _ Hrw) as Hp'.
  split_and!; [done|apply Hrw|apply Hrw|].
  destruct Hrw as (_ & _ & _ & Hbl & _). rewrite (node_bytes_pay _ _ _ Hp'), (node_bytes_pay _ _ _ Hp), Hbl.
  by destruct Hcase as [->| ->].
Qed.

Lemma isSharedOne_exact_witness :
  wp (isSharedOne demo_a) demo_heap (fun r _ => r = false) nothrow /\
  wp (isSharedOne demo_d) demo_heap (fun r _ => r = true) nothrow.
Proof.
  split.
  - eapply wp_wand; [apply (isSharedOne_exact demo_heap demo_a (demo_payload demo_a) demo_wf); demo_lookup|].
    intros r h' [Hr _]. destruct r; [|reflexivity]. exfalso. assert (Hs := proj1 Hr eq_refl). revert Hs.
    apply (bool_decide_unpack (~ one_shared demo_heap (demo_payload demo_a))). vm_compute. exact Logic.I.
  - eapply wp_wand; [apply (isSharedOne_exact demo_heap demo_d (demo_payload demo_d) demo_wf); demo_lookup|].
    intros r h' [Hr _]. apply Hr. apply (bool_decide_unpack _). vm_compute. exact Logic.I.
Defined.

(** C14: after [unshareOne] the IOBuf is the only user of its buffer; it has the
    same bytes in a window of the same shape, and no other IOBuf changes. When
    the allocation fails, [bad_alloc] is thrown and nothing has changed. *)
Theorem unshareOne_correct h p b :
  wf h -> payloads h !! p = Some b -> capacity_ b + 31 <= max_alloc ->
  wp (unshareOne p) h
    (fun _ h' => wf h' /\ keeps [p] [] h h' /\ node_bytes h' p = node_bytes h p /\
       exists b', payloads h' !! p = Some b' /\ same_window b b' /\ ~ one_shared h' b')
    (fun e h' => e = bad_alloc /\ refused h /\ unchanged h h').
Proof.
  intros Hw Hp Hm. eapply wp_wand; [by eapply unshareOne_wp|].
  intros [] h' (b' & (Hw' & Hk & Hpay & _) & Hb & Hs & Hn). split_and!; try done.
  exists b'. split; [|done]. rewrite Hpay. apply lookup_insert_eq.
Qed.

Lemma unshareOne_correct_witness :
  wp (unshareOne demo_d) demo_heap (fun _ h' => node_bytes h' demo_d = [8; 9]) nothrow.
Proof.
  eapply wp_mono; [apply (unshareOne_correct demo_heap demo_d (demo_payload demo_d) demo_wf)| |].
  - demo_lookup.
  - assert (capacity_ (demo_payload demo_d) = 2) as -> by demo_lookup. unfold max_alloc. lia.
  - intros [] h' (_ & _ & -> & _). demo_lookup.
  - intros e h' (_ & H & _). exact (demo_not_refused H).
Defined.

(** C16: [clone] returns a chain of new heap objects, as long as the original,
    that holds the same bytes; the original chain keeps its elements and its
    bytes, there are no other new IOBufs and the old ones are untouched. When an
    allocation fails, [bad_alloc] is thrown, every clone made so far is gone, the
    objects that live are exactly those from before, and the original still
    holds its bytes. No memory is leaked on either way ([leakless]: the
    SharedInfos, the buffers and the HeapStorages all have an owner if they had
    one before). The chain has fewer than [2^32] elements and references. *)
Theorem clone_correct h x l :
  wf h -> chain h (x :: l) ->
  (forall s, Z.of_nat (refs (payloads h) s) + zlen (x :: l) < 4294967296) ->
  wp (clone x) h
    (fun q h' => wf h' /\ keeps (x :: l) [] h h' /\ chain h' (x :: l) /\
       chain_bytes h' (x :: l) = chain_bytes h (x :: l) /\
       leakless h h' /\ exists m, chain h' (q :: m) /\ length m = length l /\
         chain_bytes h' (q :: m) = chain_bytes h (x :: l) /\
         (forall p, p ∈ q :: m -> on_heap h' p /\ payloads h !! p = None) /\
         (forall p, is_Some (payloads h' !! p) <-> is_Some (payloads h !! p) \/ p ∈ q :: m))
    (fun e h' => e = bad_alloc /\ refused h /\ wf h' /\ keeps (x :: l) [] h h' /\
       chain h' (x :: l) /\ chain_bytes h' (x :: l) = chain_bytes h (x :: l) /\ leakless h h' /\
       (forall p, is_Some (payloads h' !! p) <-> is_Some (payloads h !! p))).
Proof.
  intros Hw Hc Hcnt. eapply wp_mono; [by apply (clone_wp h x l)| |].
  - intros q h' (m & Hok & (Hcm & Hnew & Hoh) & Hon & Hq & Hlen & Hby).
    split_and!; [apply Hok|apply Hok|by eapply originals_chain|by eapply originals_bytes|apply Hok|].
    exists m. split_and!; try done.
    + intros p Hp. split; [|by apply Hnew]. apply elem_of_cons in Hp as [->|Hp]; [done|by apply Hoh].
    + intros p. split; [apply Hon|]. intros [Hp|Hp]; [by eapply (originals_alive h x l)|].
      destruct (chain_payload h' (q :: m) p Hcm Hp). eauto.
  - intros e h' (-> & Hr & Hok & Hon).
    split_and!; [done|done|apply Hok|apply Hok|by eapply originals_chain|by eapply originals_bytes|apply Hok|].
    intros p. split; [|by eapply (originals_alive h x l)]. intros Hp. destruct (Hon p Hp) as [?|?%elem_of_nil]; done.
Qed.

Lemma clone_correct_witness :
  wp (clone demo_a) demo_heap
    (fun q h' => chain_bytes h' [demo_a; demo_b; demo_c] = [1; 2; 3; 4; 5] /\
       exists m, chain h' (q :: m) /\ length m = 2%nat /\ chain_bytes h' (q :: m) = [1; 2; 3; 4; 5]) nothrow.
Proof.
  eapply wp_mono; [apply (clone_correct demo_heap demo_a [demo_b; demo_c] demo_wf demo_chain)| |].
  - intros s. pose proof (demo_refs s). unfold zlen. simpl. lia.
  - intros q h' (_ & _ & _ & Hb & _ & m & Hm & Hl & Hbm & _). rewrite demo_bytes in Hb, Hbm. eauto.
  - intros e h' (_ & H & _). exact (demo_not_refused H).
Defined.

(** ** Coalescing *)

(** C15: [coalesce] leaves one IOBuf with all the bytes of the chain, with the
    headroom of the first and at least the tailroom of the last element. If there
    were several elements, the bytes are in a buffer of its own that no other
    IOBuf uses, the other elements are deleted and nothing is leaked; a chain of
    one element is left as it is, with its buffer shared or not. IOBufs outside
    of the chain, also those that shared its buffers, keep their bytes. On
    [bad_alloc] nothing has changed. The bytes with the two rooms fit the largest
    allocation. *)
Theorem coalesce_correct h x l b c :
  wf h -> chain h (x :: l) -> (forall q, q ∈ l -> on_heap h q) ->
  payloads h !! x = Some b -> payloads h !! default x (last l) = Some c ->
  zlen (chain_bytes h (x :: l)) + headroom b + tailroom c + 31 <= max_alloc ->
  wp (coalesce x) h
    (fun r h' => wf h' /\ chain h' [x] /\ node_bytes h' x = chain_bytes h (x :: l) /\
       range_bytes h' r = chain_bytes h (x :: l) /\ keeps (x :: l) (x :: l) h h' /\
       (forall q, q ∈ l -> payloads h' !! q = None) /\ leakless h h' /\ (l = [] -> h' = h) /\
       exists b', payloads h' !! x = Some b' /\ headroom b' = headroom b /\ tailroom c <= tailroom b' /\
         (l <> [] -> isManagedOne b' = true /\
            forall q d, q <> x -> payloads h' !! q = Some d -> ablk (buf_ d) <> ablk (buf_ b')))
    (fun e h' => e = bad_alloc /\ refused h /\ unchanged h h').
Proof.
  intros Hw Hc Hoh Hb Hcc Hm. eapply wp_wand; [by apply (coalesce_wp h x l b c)|].
  intros r h' (b' & Hb' & -> & Hc' & Hw' & Hby & Hh & Ht & Hk & Hgone & Hll & Hp).
  split_and!; try done.
  - rewrite <- Hby, (node_bytes_pay _ _ _ Hb'). done.
  - intros ->. exact Hp.
  - exists b'. split_and!; [done..|]. intros Hne. rewrite decide_False in Hp by done. destruct Hp as [a Hp]. split.
    + unfold isManagedOne. destruct Hp as (-> & _). done.
    + intros q d Hq Hd. pose proof (private_sole h' x b' a q d Hw' Hb' Hp Hd Hq) as Hne'. destruct Hp as (_ & _ & ->). exact Hne'.
Qed.

Lemma coalesce_correct_witness :
  wp (coalesce demo_a) demo_heap
    (fun r h' => chain h' [demo_a] /\ range_bytes h' r = [1; 2; 3; 4; 5] /\ payloads h' !! demo_b = None) nothrow.
Proof.
  eapply wp_mono; [apply (coalesce_correct demo_heap demo_a [demo_b; demo_c]
      (demo_payload demo_a) (demo_payload demo_c) demo_wf demo_chain)| |].
  - intros q Hq. apply demo_on_heap. revert Hq. rewrite !elem_of_cons. tauto.
  - demo_lookup.
  - demo_lookup.
  - apply (bool_decide_unpack _). vm_compute. exact Logic.I.
  - intros r h' (_ & H1 & _ & H2 & _ & H3 & _). rewrite demo_bytes in H2.
    exact (conj H1 (conj H2 (H3 demo_b ltac:(left)))).
  - intros e h' (_ & H & _). exact (demo_not_refused H).
Defined.

(** [gather(n)] coalesces a prefix of the chain such that the head holds at
    least [n] bytes, without changing the bytes of the chain as a whole; when a
    chain of several elements has less than [n] bytes it throws
    [overflow_error], and like on [bad_alloc] nothing has changed. *)
Lemma gather_correct h x l n b :
  wf h -> chain h (x :: l) -> (forall q, q ∈ l -> on_heap h q) -> payloads h !! x = Some b ->
  (forall q c, q ∈ x :: l -> payloads h !! q = Some c ->
     zlen (chain_bytes h (x :: l)) + headroom b + tailroom c + 31 <= max_alloc) ->
  wp (gather x n) h
    (fun _ h' => wf h' /\ (exists rest, chain h' (x :: rest) /\ suffix rest l /\
         chain_bytes h' (x :: rest) = chain_bytes h (x :: l)) /\
       (exists b', payloads h' !! x = Some b' /\ (n <= length_ b' \/ l = []) /\ headroom b' = headroom b))
    (fun e h' => (e = too_short /\ h' = h /\ zlen (chain_bytes h (x :: l)) < n) \/
                 (e = bad_alloc /\ refused h /\ unchanged h h')).
Proof. apply gather_wp. Qed.

Lemma gather_correct_witness :
  wp (gather demo_a 4) demo_heap
    (fun _ h' => exists b', payloads h' !! demo_a = Some b' /\ 4 <= length_ b') nothrow.
Proof.
  eapply wp_mono; [apply (gather_correct demo_heap demo_a [demo_b; demo_c] 4
      (demo_payload demo_a) demo_wf demo_chain)| |].
  - intros q Hq. apply demo_on_heap. revert Hq. rewrite !elem_of_cons. tauto.
  - demo_lookup.
  - assert (Hall : Forall (fun q => zlen (chain_bytes demo_heap [demo_a; demo_b; demo_c]) +
      headroom (demo_payload demo_a) + tailroom (demo_payload q) + 31 <= max_alloc) [demo_a; demo_b; demo_c]).
    { apply (bool_decide_unpack _). vm_compute. exact Logic.I. }
    intros q c Hq Hc. rewrite Forall_forall in Hall. specialize (Hall q Hq).
    unfold demo_payload in Hall at 2. rewrite Hc in Hall. exact Hall.
  - intros [] h' (_ & _ & b' & Hb & [Hn|Hn] & _); [|discriminate Hn]. exists b'. exact (conj Hb Hn).
  - intros e h' [(_ & _ & H)|(_ & H & _)]; [|exact (demo_not_refused H)].
    rewrite demo_bytes in H. unfold zlen in H. simpl in H. lia.
Defined.

(** ** Lifetimes *)

(** C3: deleting the head of a chain deletes all of its elements, frees no
    memory that another IOBuf uses (the invariant and all the other bytes are
    kept), never frees twice or faults, and leaks nothing: if every SharedInfo,
    every buffer and every HeapStorage had an owner before ([tidy], where [C] are
    the client's own buffers), they have one afterwards, so that those whose last
    owner was deleted are freed. With the last IOBuf, all that is left is the
    client's. *)
Theorem delete_correct h x l :
  wf h -> chain h (x :: l) -> (forall q, q ∈ x :: l -> on_heap h q) ->
  wp (delete_ x) h
    (fun _ h' => wf h' /\ keeps (x :: l) (x :: l) h h' /\
       (forall q, payloads h' !! q = if decide (q ∈ x :: l) then None else payloads h !! q) /\
       (forall C, tidy C h -> tidy C h' /\ (payloads h' = ∅ -> storages h' = ∅ /\
          forall k, is_Some (infos h' !! k) \/ is_Some (blocks h' !! k) -> k ∈ C))) nothrow.
Proof.
  intros Hw Hc Hoh. eapply wp_wand; [by apply (delete_wp h x l)|]. intros [] h' (Hw' & Hk & Hp & Ht).
  split_and!; [done|done|done|]. intros C HC. specialize (Ht [] C HC). split; [done|]. by apply tidy_empty.
Qed.

Lemma delete_correct_witness :
  wp (delete_ demo_a) demo_heap
    (fun _ h' => payloads h' !! demo_b = None /\ node_bytes h' demo_d = [8; 9] /\ tidy demo_client h') nothrow.
Proof.
  eapply wp_wand; [apply (delete_correct demo_heap demo_a [demo_b; demo_c] demo_wf demo_chain)|].
  - intros q Hq. apply demo_on_heap. revert Hq. rewrite !elem_of_cons. tauto.
  - intros [] h' (_ & Hk & Hp & Ht). split_and!.
    + rewrite Hp. demo_lookup.
    + rewrite (k_bytes _ _ _ _ Hk).
      * demo_lookup.
      * apply (bool_decide_unpack _). vm_compute. exact Logic.I.
      * exists (demo_payload demo_d). demo_lookup.
    + apply Ht. exact demo_tidy.
Defined.

(** [createCombined] does not look at what [malloc] returned: a small [create] that
    gets no memory constructs its objects at the null pointer. *)
Example small_create_unchecked : create 28 (mkHeap ∅ ∅ ∅ ∅ [] (fun _ => false) 0) = Fault "storage == nullptr".
Proof. vm_compute. reflexivity. Qed.
