(* ===== verification/IOBufQueue.v ===== *)
(** * io/IOBufQueue: the operations

    [src/accelerator/io/IOBufQueue.h] and [IOBufQueue.cpp].  A method of the
    queue is a computation on the memory of [IOBufMem] together with the members
    of the queue; a second queue that a method takes by reference is passed and
    returned. *)

From stdpp Require Import base list gmap strings.
From S2P Require Import Prelude IOBufMem IOBuf.

Definition MIN_ALLOC_SIZE : Z := 2000.
Definition MAX_ALLOC_SIZE : Z := 8000.
Definition MAX_PACK_COPY : Z := 4096.

(** [options_.cacheChainLength], [chainLength_] and [head_]. *)
Record IOBufQueue := mkQueue {
  cacheChainLength : bool;
  chainLength_ : Z;
  head_ : option positive }.

Abbreviation Queue := (M (Heap * IOBufQueue)).

Definition this_ : Queue IOBufQueue := gets snd.
Definition set_queue (f : IOBufQueue -> IOBufQueue) : Queue unit :=
  modify (fun '(h, q) => (h, f q)).

Definition with_head (p : option positive) (q : IOBufQueue) : IOBufQueue :=
  mkQueue (cacheChainLength q) (chainLength_ q) p.
Definition with_chainLength (n : Z) (q : IOBufQueue) : IOBufQueue :=
  mkQueue (cacheChainLength q) n (head_ q).

(** [chainLength_ += n] and [chainLength_ -= n]. *)
Definition chainLength_add (n : Z) : Queue unit :=
  set_queue (fun q => with_chainLength (u64 (chainLength_ q + n)) q).
Definition chainLength_sub (n : Z) : Queue unit :=
  set_queue (fun q => with_chainLength (u64 (chainLength_ q - n)) q).

(** The number of IOBuf objects bounds the rounds of the loops over a chain. *)
Definition chain_fuel : Queue nat := gets (fun '(h, _) => S (size (bufs h))).

(** ** Joining chains *)

Definition appendToChain (dst : option positive) (src : positive) (pack : bool)
    : Mem (option positive) :=
  match dst with
  | None => mret (Some src)
  | Some d =>
      tl ← prev d;
      src ← (if pack then
               h ← get;
               iter (S (size (bufs h)))
                 (fun '(src, copyRemaining) =>
                    match src with
                    | None => mret (inr None)
                    | Some s =>
                        b ← load s; t ← load tl;
                        let n := length_ b in
                        if decide (n < copyRemaining /\ n < tailroom t) then
                          memcpy (tail t) (data_ b) n;;
                          append tl n;;
                          nx ← pop s; delete_ s;;
                          mret (inl (nx, u64 (copyRemaining - n)))
                        else mret (inr (Some s))
                    end) (Some src, MAX_PACK_COPY)
             else mret (Some src));
      match src with Some s => appendChain tl s | None => mret tt end;;
      mret (Some d)
  end.

(** [appendToChain(head_, src, pack)]. *)
Definition append_to_head (src : positive) (pack : bool) : Queue unit :=
  q ← this_; d ← lift (appendToChain (head_ q) src pack); set_queue (with_head d).

(** ** Construction and assignment *)

Definition IOBufQueue_new (cache : bool) : IOBufQueue := mkQueue cache 0 None.

(** The members of [other] after a move from it; its [head_] is null. *)
Definition moved_from (other : IOBufQueue) : IOBufQueue := mkQueue (cacheChainLength other) 0 None.

Definition IOBufQueue_move_ctor (other : IOBufQueue) : IOBufQueue * IOBufQueue :=
  (other, moved_from other).

Definition IOBufQueue_move_assign (other : IOBufQueue) : Queue IOBufQueue :=
  q ← this_;
  set_queue (fun _ => other);;
  lift (delete_opt (head_ q));;
  mret (moved_from other).

(** ** The front *)

Definition IOBufQueue_headroom : Queue (addr * Z) :=
  q ← this_;
  match head_ q with
  | Some p => b ← lift (load p); mret (buf_ b, headroom b)
  | None => mret (nullptr, 0)
  end.

Definition IOBufQueue_markPrepended (n : Z) : Queue unit :=
  if decide (n = 0) then mret tt
  else
    q ← this_;
    p ← of_option (head_ q) "assert(head_)";
    lift (prepend p n);;
    chainLength_add n.

Definition IOBufQueue_prepend (bs : list Z) : Queue unit :=
  '(p, room) ← IOBufQueue_headroom;
  if decide (room < zlen bs) then throw (overflow_error "Not enough room to prepend")
  else
    lift (store_bytes (padd p (room - zlen bs)) bs);;
    IOBufQueue_markPrepended (zlen bs).

(** ** The back *)

(** [append(unique_ptr<IOBuf>&&, bool)]. *)
Definition IOBufQueue_append (buf : option positive) (pack : bool) : Queue unit :=
  match buf with
  | None => mret tt
  | Some p =>
      q ← this_;
      (if cacheChainLength q then n ← lift (computeChainDataLength p); chainLength_add n
       else mret tt);;
      append_to_head p pack
  end.

(** [append(IOBufQueue&, bool)]; returns [other]. *)
Definition IOBufQueue_append_queue (other : IOBufQueue) (pack : bool) : Queue IOBufQueue :=
  match head_ other with
  | None => mret other
  | Some p =>
      q ← this_;
      (if cacheChainLength q then
         if cacheChainLength other then chainLength_add (chainLength_ other)
         else n ← lift (computeChainDataLength p); chainLength_add n
       else mret tt);;
      append_to_head p pack;;
      mret (moved_from other)
  end.

(** [append(const void*, size_t)]: every round copies at least one byte. *)
Definition IOBufQueue_append_bytes (bs : list Z) : Queue unit :=
  iter (S (length bs))
    (fun src =>
       let len := zlen src in
       if decide (len = 0) then mret (inr tt)
       else
         q ← this_;
         full ← match head_ q with
                | None => mret true
                | Some p =>
                    lst ← lift (prev p);
                    sh ← lift (isSharedOne lst);
                    if sh : bool then mret true
                    else b ← lift (load lst); mret (bool_decide (tailroom b = 0))
                end;
         (if full : bool then
            nb ← lift (create (Z.max MIN_ALLOC_SIZE (Z.min len MAX_ALLOC_SIZE)));
            append_to_head nb false
          else mret tt);;
         q ← this_;
         p ← of_option (head_ q) "null head_";
         lst ← lift (prev p);
         b ← lift (load lst);
         let copyLen := Z.min len (tailroom b) in
         lift (store_bytes (tail b) (take (Z.to_nat copyLen) src));;
         lift (append lst copyLen);;
         chainLength_add copyLen;;
         mret (inl (drop (Z.to_nat copyLen) src))) bs.

Definition IOBufQueue_wrapBuffer (buf : addr) (len blockSize : Z) : Queue unit :=
  iter (S (Z.to_nat len))
    (fun '(src, len) =>
       if decide (len = 0) then mret (inr tt)
       else
         let n := Z.min len blockSize in
         p ← lift (wrapBuffer src n);
         IOBufQueue_append (Some p) false;;
         mret (inl (padd src n, u64 (len - n)))) (buf, len).

Definition tailBuf : Queue (option positive) :=
  q ← this_;
  match head_ q with
  | None => mret None
  | Some p =>
      buf ← lift (prev p);
      sh ← lift (isSharedOne buf);
      mret (if sh : bool then None else Some buf)
  end.

Definition IOBufQueue_preallocateSlow (min newAllocationSize max : Z) : Queue (addr * Z) :=
  newBuf ← lift (create (Z.max min newAllocationSize));
  append_to_head newBuf false;;
  q ← this_;
  p ← of_option (head_ q) "null head_";
  lst ← lift (prev p);
  b ← lift (load lst);
  mret (tail b, Z.min max (tailroom b)).

Definition IOBufQueue_preallocate (min newAllocationSize max : Z) : Queue (addr * Z) :=
  buf ← tailBuf;
  match buf with
  | Some p =>
      b ← lift (load p);
      if decide (min <= tailroom b) then mret (tail b, Z.min max (tailroom b))
      else IOBufQueue_preallocateSlow min newAllocationSize max
  | None => IOBufQueue_preallocateSlow min newAllocationSize max
  end.

Definition IOBufQueue_postallocate (n : Z) : Queue unit :=
  q ← this_;
  p ← of_option (head_ q) "null head_";
  lst ← lift (prev p);
  lift (append lst n);;
  chainLength_add n.

Definition IOBufQueue_allocate (n : Z) : Queue addr :=
  '(p, _) ← IOBufQueue_preallocate n n 18446744073709551615;
  IOBufQueue_postallocate n;;
  mret p.

Definition IOBufQueue_writableTail : Queue addr :=
  buf ← tailBuf;
  match buf with Some p => b ← lift (load p); mret (tail b) | None => mret nullptr end.

Definition IOBufQueue_tailroom : Queue Z :=
  buf ← tailBuf;
  match buf with Some p => b ← lift (load p); mret (tailroom b) | None => mret 0 end.

(** ** Removing data *)

(** When an exception leaves [split], [result] is destroyed. *)
Definition split_round (throwOnUnderflow : bool) (st : option positive * Z)
    : Queue ((option positive * Z) + option positive) :=
  let '(result, n) := st in
  if decide (n = 0) then mret (inr result)
  else
    q ← this_;
    match head_ q with
    | None =>
        if throwOnUnderflow then
          lift (delete_opt result);;
          throw (underflow_error "Attempt to remove more bytes than are present in IOBufQueue")
        else mret (inr result)
    | Some p =>
        b ← lift (load p);
        if decide (length_ b <= n) then
          chainLength_sub (length_ b);;
          remainder ← lift (pop p);
          result ← lift (appendToChain result p false);
          set_queue (with_head remainder);;
          mret (inl (result, u64 (n - length_ b)))
        else
          clone ← try_catch (lift (cloneOne p)) (fun e => lift (delete_opt result);; throw e);
          c ← lift (load clone);
          lift (trimEnd clone (u64 (length_ c - n)));;
          result ← lift (appendToChain result clone false);
          lift (trimStart p n);;
          chainLength_sub n;;
          mret (inr result)
    end.

Definition IOBufQueue_split_ (n : Z) (throwOnUnderflow : bool) : Queue positive :=
  fuel ← chain_fuel;
  result ← iter (S fuel) (split_round throwOnUnderflow) (None, n);
  match result with
  | Some r => mret r
  | None => lift (create 0)
  end.

Definition IOBufQueue_split (n : Z) : Queue positive := IOBufQueue_split_ n true.
Definition IOBufQueue_splitAtMost (n : Z) : Queue positive := IOBufQueue_split_ n false.

Definition IOBufQueue_trimStartAtMost (amount : Z) : Queue Z :=
  fuel ← chain_fuel;
  left ← iter (S fuel)
    (fun amount =>
       if decide (amount = 0) then mret (inr amount)
       else
         q ← this_;
         match head_ q with
         | None => mret (inr amount)
         | Some p =>
             b ← lift (load p);
             if decide (amount < length_ b) then
               lift (trimStart p amount);;
               chainLength_sub amount;;
               mret (inr 0)
             else
               chainLength_sub (length_ b);;
               nx ← lift (pop p);
               set_queue (with_head nx);;
               lift (delete_ p);;
               mret (inl (u64 (amount - length_ b)))
         end) amount;
  mret (u64 (amount - left)).

Definition underflow_trim : exn :=
  underflow_error "Attempt to trim more bytes than are present in IOBufQueue".

Definition IOBufQueue_trimStart (amount : Z) : Queue unit :=
  trimmed ← IOBufQueue_trimStartAtMost amount;
  if decide (trimmed <> amount) then throw underflow_trim else mret tt.

Definition IOBufQueue_trimEndAtMost (amount : Z) : Queue Z :=
  fuel ← chain_fuel;
  left ← iter (S fuel)
    (fun amount =>
       if decide (amount = 0) then mret (inr amount)
       else
         q ← this_;
         match head_ q with
         | None => mret (inr amount)
         | Some p =>
             lst ← lift (prev p);
             b ← lift (load lst);
             if decide (amount < length_ b) then
               lift (trimEnd lst amount);;
               chainLength_sub amount;;
               mret (inr 0)
             else
               chainLength_sub (length_ b);;
               ch ← lift (isChained p);
               (if ch : bool then
                  u ← lift (unlink lst); lift (delete_ u)
                else
                  set_queue (with_head None);; lift (delete_ p));;
               mret (inl (u64 (amount - length_ b)))
         end) amount;
  mret (u64 (amount - left)).

Definition IOBufQueue_trimEnd (amount : Z) : Queue unit :=
  trimmed ← IOBufQueue_trimEndAtMost amount;
  if decide (trimmed <> amount) then throw underflow_trim else mret tt.

Definition IOBufQueue_pop_front : Queue (option positive) :=
  q ← this_;
  match head_ q with
  | None => mret None
  | Some p =>
      b ← lift (load p);
      chainLength_sub (length_ b);;
      nx ← lift (pop p);
      set_queue (with_head nx);;
      mret (Some p)
  end.

Definition IOBufQueue_move : Queue (option positive) :=
  q ← this_;
  set_queue (fun q => with_head None (with_chainLength 0 q));;
  mret (head_ q).

Definition IOBufQueue_clear : Queue unit :=
  q ← this_;
  match head_ q with
  | None => mret tt
  | Some p =>
      lift (do_chain_all p p (fun buf (_ : unit) => clear buf) tt);;
      set_queue (with_chainLength 0)
  end.

(** ** Observing *)

Definition IOBufQueue_front : Queue (option positive) := q ← this_; mret (head_ q).

Definition IOBufQueue_chainLength : Queue Z :=
  q ← this_;
  if negb (cacheChainLength q) then throw (invalid_argument "IOBufQueue: chain length not cached")
  else mret (chainLength_ q).

Definition IOBufQueue_empty : Queue bool :=
  q ← this_;
  match head_ q with None => mret true | Some p => lift (empty p) end.

(** The ranges of the chain, through its iterator, are appended to [out]. *)
Definition IOBufQueue_appendToString (out : list Z) : Queue (list Z) :=
  q ← this_;
  match head_ q with
  | None => mret out
  | Some p =>
      _ ← (if cacheChainLength q then mret (chainLength_ q) else lift (computeChainDataLength p));
      fuel ← chain_fuel;
      it ← lift (cbegin p);
      iter (S fuel)
        (fun '(it, out) =>
           match it with
           | None => mret (inr out)
           | Some it =>
               bs ← lift (load_bytes (val_ it).1 (val_ it).2);
               it' ← lift (increment it);
               mret (inl (it', out ++ bs))
           end) (it, out)
  end.

Definition IOBufQueue_gather (maxLength : Z) : Queue unit :=
  q ← this_;
  match head_ q with None => mret tt | Some p => lift (gather p maxLength) end.
