(* ===== verification/IOBufQueueRep.v ===== *)
(** * io/IOBufQueue: the queue as a sequence of bytes

    The representation of a byte sequence by a queue, and the lemmas that say
    how the elementary steps of the methods change it. *)

From stdpp Require Import base list gmap strings.
From S2P Require Import Prelude IOBufMem IOBuf IOBufChain IOBufInv IOBufWf IOBufPrim IOBufRelease IOBufLife IOBufWindow IOBufShare IOBufClone IOBufPiece IOBufRead IOBufQueue.

#[local] Opaque chain.

(** ** Rules *)

Section Rules.
Implicit Types (h : Heap) (q : IOBufQueue).

Lemma wp_this h q (Q : IOBufQueue -> _ -> Prop) E : Q q (h, q) -> wp this_ (h, q) Q E.
Proof. done. Qed.

Lemma wp_set_queue f h q (Q : unit -> _ -> Prop) E : Q tt (h, f q) -> wp (set_queue f) (h, q) Q E.
Proof. done. Qed.
End Rules.

(** ** Representation *)

(** The IOBufs of the queue are [l], and they hold [bs]. *)
Record queue_rep (h : Heap) (q : IOBufQueue) (l : list positive) (bs : list Z) : Prop := {
  qr_wf : wf h;
  qr_head : head_ q = head l;
  qr_chain : l <> [] -> chain h l;
  qr_heap : forall p, p ∈ l -> on_heap h p;
  qr_bytes : chain_bytes h l = bs;
  qr_len : cacheChainLength q = true -> chainLength_ q = u64 (zlen bs) }.

Section Rep.
Implicit Types (h : Heap) (q : IOBufQueue) (l m : list positive) (bs : list Z) (p x : positive).

Lemma queue_rep_cons h q x l bs :
  queue_rep h q (x :: l) bs -> head_ q = Some x /\ chain h (x :: l) /\
    bs = node_bytes h x ++ chain_bytes h l /\ exists b, payloads h !! x = Some b /\
    zlen (node_bytes h x) = length_ b.
Proof.
  intros [Hw Hh Hc Ho Hb _]. specialize (Hc ltac:(done)). split_and!; [done|done| |].
  - by rewrite <- Hb, chain_bytes_cons.
  - destruct (chain_payload h (x :: l) x Hc) as [b Hp]; [by left|]. exists b.
    split; [done|]. by apply length_bytes.
Qed.

Lemma wrap_sub_wrap w a b : wrap w (wrap w a - b) = wrap w (a - b).
Proof. unfold wrap. by rewrite Zminus_mod_idemp_l. Qed.

Lemma wrap_add_wrap w a b : wrap w (wrap w a + wrap w b) = wrap w (a + b).
Proof. unfold wrap. by rewrite <- Zplus_mod. Qed.

(** The head leaves the chain and is deleted. *)
Lemma pop_delete_wp h x l :
  wf h -> chain h (x :: l) -> (forall p, p ∈ x :: l -> on_heap h p) ->
  forall {A} (k : option positive -> Mem A) Q E,
  (forall h1, unlinked h x l h1 -> wp (k (head l)) h1 Q E) ->
  wp (nx ← pop x; k nx) h Q E.
Proof.
  intros Hw Hc Ho A k Q E Hk. apply wp_bind. eapply wp_nothrow; [by apply pop_wp|].
  intros ? h1 [-> Hu]. by apply Hk.
Qed.

Lemma unlinked_rest h x l h1 :
  wf h -> unlinked h x l h1 -> (forall p, p ∈ l -> on_heap h p) ->
  wf h1 /\ (forall p, p ∈ l -> on_heap h1 p) /\ keeps [] (x :: l) h h1 /\
  (forall k, chain_bytes h1 k = chain_bytes h k).
Proof.
  intros Hw (_ & _ & Hr) Ho. split_and!.
  - by eapply wf_relinked.
  - intros p Hp. destruct (Ho p Hp) as (f & Hf & Ht). exists f. by rewrite (rl_storages _ _ _ Hr).
  - by apply keeps_relinked.
  - intros k. apply chain_bytes_ext. intros p _. unfold node_bytes.
    by rewrite (rl_body _ _ _ Hr), (rl_blocks _ _ _ Hr).
Qed.

(** Deleting an object that is alone leaves a disjoint chain as it is. *)
Lemma delete_alone_wp h x l :
  wf h -> chain h [x] -> on_heap h x -> x ∉ l -> (l <> [] -> chain h l) ->
  (forall p, p ∈ l -> on_heap h p) ->
  wp (delete_ x) h (fun _ h' => wf h' /\ (l <> [] -> chain h' l) /\
    (forall p, p ∈ l -> on_heap h' p) /\ chain_bytes h' l = chain_bytes h l /\
    keeps [x] [x] h h' /\ payloads h' !! x = None) nothrow.
Proof.
  intros Hw Hx Hox Hxl Hc Ho.
  eapply wp_wand; [apply (delete_wp h x []); [done|done|]|].
  { by intros q ->%list_elem_of_singleton. }
  intros [] h' (Hw' & Hk & Hp & _).
  assert (Hd : forall p, p ∈ l -> p ∉ [x]) by (intros p Hp' ->%list_elem_of_singleton; done).
  split_and!; [done| | | |done|].
  - intros Hl. eapply keeps_chain; [exact Hk|exact Hd|by apply Hc].
  - intros p Hp'. apply (k_heap _ _ _ _ Hk); [by apply Hd| |by apply Ho].
    destruct (chain_payload h l p) as [b ?]; [apply Hc; by destruct l; [apply elem_of_nil in Hp'|]|done|eauto].
  - destruct l as [|y l]; [done|]. eapply keeps_chain_bytes; [exact Hk|exact Hd|by apply Hc].
  - rewrite Hp, decide_True; [done|by left].
Qed.

Lemma queue_fuel h q l bs : queue_rep h q l bs -> (length l <= size (bufs h))%nat.
Proof.
  intros [_ _ Hc _ _ _]. destruct l as [|x l]; [simpl; lia|]. by apply chain_size, Hc.
Qed.

Lemma queue_rep_alive h q l bs p : queue_rep h q l bs -> p ∈ l -> is_Some (payloads h !! p).
Proof.
  intros Hr Hp. destruct (chain_payload h l p) as [b ?]; [|done|eauto].
  apply (qr_chain _ _ _ _ Hr). by destruct l; [apply elem_of_nil in Hp|].
Qed.

(** A step that leaves the objects of the queue alone. *)
Lemma queue_rep_keeps S h h' q l bs :
  queue_rep h q l bs -> wf h' -> keeps S [] h h' -> l ## S -> queue_rep h' q l bs.
Proof.
  intros Hr Hw' Hk Hd. pose proof (fun p => queue_rep_alive h q l bs p Hr) as Hal.
  destruct Hr as [Hw Hh Hc Ho Hb Hl]. split; try done.
  - intros Hne. eapply keeps_chain; [exact Hk|by intros p _ ?%elem_of_nil|by apply Hc].
  - intros p Hp. apply (k_heap _ _ _ _ Hk); [by intros Hs; apply (Hd p)|by apply Hal|by apply Ho].
  - rewrite <- Hb. apply chain_bytes_ext. intros p Hp.
    apply (k_bytes _ _ _ _ Hk); [by intros Hs; apply (Hd p)|by apply Hal].
Qed.

(** A clone of an element, and links elsewhere, do not matter to the queue. *)
Lemma queue_rep_piece x c b nb h h' q l bs :
  queue_rep h q l bs -> piece x c b nb h h' -> queue_rep h' q l bs.
Proof.
  intros Hr Hp. pose proof (fun p Hin => piece_others _ _ _ _ _ _ p Hp (queue_rep_alive h q l bs p Hr Hin)) as Ho.
  destruct Hr as [Hw Hh Hc Hoh Hb Hl]. split; try done; [apply Hp| | |].
  - intros Hne. by apply (piece_chains _ _ _ _ _ _ l Hp), Hc.
  - intros p Hin. apply Ho; [done|by apply Hoh].
  - rewrite <- Hb. apply chain_bytes_ext. intros p Hin. by apply Ho.
Qed.

Lemma queue_rep_relinked L h h' q l bs :
  queue_rep h q l bs -> relinked L h h' -> l ## L -> queue_rep h' q l bs.
Proof.
  intros [Hw Hh Hc Ho Hb Hl] Hr Hd. split; try done.
  - by eapply wf_relinked.
  - intros Hne. eapply chain_relinked; [exact Hr|exact Hd|by apply Hc].
  - intros p Hp. eapply relinked_on_heap; [exact Hr|by apply Ho].
  - by rewrite (relinked_bytes _ _ _ _ Hr).
Qed.

Lemma queue_rep_keeps_sub L h1 h2 (S : list positive) :
  (forall p, p ∈ S -> p ∈ L) -> keeps S S h1 h2 -> keeps L L h1 h2.
Proof. intros H. by apply keeps_weaken. Qed.
End Rep.

(** ** Steps *)

Section Steps.
Implicit Types (h : Heap) (q : IOBufQueue) (l m : list positive) (bs : list Z) (p x : positive) (b : Payload).

(** [x] was unlinked from the front of [x :: l] and is deleted. *)
Lemma drop_head_wp h x l h1 :
  wf h -> chain h (x :: l) -> (forall p, p ∈ x :: l -> on_heap h p) -> unlinked h x l h1 ->
  wp (delete_ x) h1 (fun _ h' => wf h' /\ (l <> [] -> chain h' l) /\
    (forall p, p ∈ l -> on_heap h' p) /\ chain_bytes h' l = chain_bytes h l /\
    keeps (x :: l) (x :: l) h h') nothrow.
Proof.
  intros Hw Hc Ho Hu.
  destruct (unlinked_rest h x l h1 Hw Hu) as (Hw1 & Ho1 & Hk1 & Hb1).
  { intros p Hp. apply Ho. by right. }
  pose proof (chain_NoDup _ _ Hc) as Hnd. apply NoDup_cons in Hnd as [Hx _].
  assert (Hox : on_heap h1 x).
  { destruct (Ho x) as (f & Hf & Ht); [by left|]. destruct Hu as (_ & _ & Hr).
    exists f. by rewrite (rl_storages _ _ _ Hr). }
  destruct Hu as (Hcx & Hcl & _).
  eapply wp_wand; [by apply (delete_alone_wp h1 x l)|].
  intros [] h2 (Hw2 & Hc2 & Ho2 & Hb2 & Hk2 & _). split_and!; try done.
  - by rewrite Hb2.
  - eapply keeps_trans; [eapply keeps_weaken; [| |exact Hk1]|eapply keeps_weaken; [| |exact Hk2]]; try done.
    + by intros p ?%elem_of_nil.
    + intros p ->%list_elem_of_singleton. by left.
    + intros p ->%list_elem_of_singleton. by left.
Qed.

Lemma slice_to_end {T} (n m : Z) (k : list T) :
  0 <= n -> zlen k <= n + m -> slice n m k = drop (Z.to_nat n) k.
Proof. intros. unfold slice, zlen in *. apply take_ge. rewrite length_drop. lia. Qed.

(** One element of the queue gets other bytes. *)
Lemma edit_step h q pre x post bs h2 nb n :
  queue_rep h q (pre ++ x :: post) bs -> wf h2 -> keeps [x] [] h h2 -> node_bytes h2 x = nb ->
  (on_heap h x -> on_heap h2 x) ->
  (cacheChainLength q = true -> n = u64 (zlen (chain_bytes h pre ++ nb ++ chain_bytes h post))) ->
  queue_rep h2 (with_chainLength n q) (pre ++ x :: post)
    (chain_bytes h pre ++ nb ++ chain_bytes h post).
Proof.
  intros [Hw Hh Hc Ho Hb Hl] Hw2 Hk Hnb Hox Hn.
  specialize (Hc ltac:(by destruct pre)).
  pose proof (chain_NoDup _ _ Hc) as Hnd.
  assert (Hd : forall p, p ∈ pre ++ post -> (p ∉ [x]) /\ is_Some (payloads h !! p)).
  { apply NoDup_app in Hnd as (_ & Hd & Hnd). apply NoDup_cons in Hnd as [Hx _].
    intros p Hp. split.
    - intros ->%list_elem_of_singleton. apply elem_of_app in Hp as [Hp|Hp]; [|done].
      apply (Hd x Hp). by left.
    - destruct (chain_payload h _ p Hc) as [b ?]; [|eauto].
      apply elem_of_app in Hp as [Hp|Hp]; apply elem_of_app; [by left|right; by right]. }
  assert (Hext : forall k, (forall p, p ∈ k -> p ∈ pre ++ post) -> chain_bytes h2 k = chain_bytes h k).
  { intros k Hsub. apply chain_bytes_ext. intros p Hp. destruct (Hd p (Hsub p Hp)).
    by apply (k_bytes _ _ _ _ Hk). }
  split; simpl; try done.
  - intros _. eapply keeps_chain; [exact Hk|set_solver|exact Hc].
  - intros p Hp. destruct (decide (p = x)) as [->|Hne]; [by apply Hox, Ho|].
    destruct (Hd p) as [H1 H2].
    { revert Hp. rewrite !elem_of_app, elem_of_cons. tauto. }
    apply (k_heap _ _ _ _ Hk); [done|done|by apply Ho].
  - rewrite chain_bytes_app, chain_bytes_cons, Hnb, !Hext; [done| |];
      intros p Hp; apply elem_of_app; auto.
Qed.

Lemma queue_rep_app h q pre x post bs :
  queue_rep h q (pre ++ x :: post) bs ->
  chain h (pre ++ x :: post) /\ bs = chain_bytes h pre ++ node_bytes h x ++ chain_bytes h post /\
  exists b, payloads h !! x = Some b /\ zlen (node_bytes h x) = length_ b.
Proof.
  intros [Hw Hh Hc Ho Hb _]. specialize (Hc ltac:(by destruct pre)). split_and!; [done| |].
  - by rewrite <- Hb, chain_bytes_app, chain_bytes_cons.
  - destruct (chain_payload h _ x Hc) as [b Hp]; [apply elem_of_app; right; by left|]. exists b.
    split; [done|]. by apply length_bytes.
Qed.

(** An element of the queue is trimmed at its start or at its end. *)
Lemma trim_step h q pre x b post bs s e h2 :
  queue_rep h q (pre ++ x :: post) bs -> payloads h !! x = Some b ->
  rewindowed x (trimmed b s e) h h2 -> 0 <= s -> 0 <= e -> s + e <= length_ b ->
  queue_rep h2 (with_chainLength (u64 (chainLength_ q - (s + e))) q) (pre ++ x :: post)
    (chain_bytes h pre ++ slice s (length_ b - s - e) (node_bytes h x) ++ chain_bytes h post) /\
  keeps [x] [] h h2.
Proof.
  intros Hr Hb Hrw Hs He Hse. destruct (queue_rep_app _ _ _ _ _ _ Hr) as (Hc & Hbs & b' & Hb' & Hlen).
  simplify_eq. pose proof (wf_window _ _ _ (qr_wf _ _ _ _ Hr) Hb) as Hwin.
  pose proof (rewindowed_bytes _ _ _ _ Hrw) as Hnb. rewrite bytes_trimmed in Hnb by done.
  rewrite <- (node_bytes_pay _ _ _ Hb) in Hnb.
  pose proof (rewindowed_on_heap _ _ _ _ x Hrw) as Hox.
  destruct Hrw as (Hw2 & Hk2 & _). split; [|done].
  eapply edit_step; try done. intros Hcc. rewrite (qr_len _ _ _ _ Hr Hcc), wrap_sub_wrap. f_equal.
  rewrite !zlen_app, zlen_slice by lia. lia.
Qed.
End Steps.

(** ** Trimming at the start *)

Section TrimStart.
Context (h : Heap) (q : IOBufQueue) (l : list positive) (bs : list Z) (A : Z).
Context (Hrep : queue_rep h q l bs) (HA : 0 <= A < 18446744073709551616).

(** [A - amt] bytes have been removed, and [todo] is left. *)
Definition trimming (k : nat) (amt : Z) (s : Heap * IOBufQueue) : Prop :=
  exists todo, k = length todo /\ 0 <= amt <= A /\ A - amt <= zlen bs /\
    queue_rep s.1 s.2 todo (drop (Z.to_nat (A - amt)) bs) /\ keeps l l h s.1 /\
    cacheChainLength s.2 = cacheChainLength q /\ suffix todo l.

Definition trimmed_start (left : Z) (s : Heap * IOBufQueue) : Prop :=
  0 <= left <= A /\ A - left = Z.min A (zlen bs) /\
  exists todo, queue_rep s.1 s.2 todo (drop (Z.to_nat (A - left)) bs) /\ keeps l l h s.1 /\ suffix todo l.

Lemma zlen_drop {T} (n : Z) (k : list T) : 0 <= n <= zlen k -> zlen (drop (Z.to_nat n) k) = zlen k - n.
Proof. intros. unfold zlen in *. rewrite length_drop. lia. Qed.

Lemma drop_app_z {T} (a b : Z) (u v k : list T) :
  0 <= a -> drop (Z.to_nat a) k = u ++ v -> zlen u = b -> drop (Z.to_nat (a + b)) k = v.
Proof.
  intros Ha Hd Hz. unfold zlen in Hz. rewrite Z2Nat.inj_add by lia. rewrite <- drop_drop, Hd.
  rewrite drop_app_ge by lia. rewrite <- Hz, Nat2Z.id. by rewrite Nat.sub_diag.
Qed.

Lemma trimStartAtMost_wp :
  wp (IOBufQueue_trimStartAtMost A) (h, q)
    (fun r s => r = Z.min A (zlen bs) /\
       exists todo, queue_rep s.1 s.2 todo (drop (Z.to_nat r) bs) /\ keeps l l h s.1 /\ suffix todo l)
    nothrow.
Proof.
  unfold IOBufQueue_trimStartAtMost. apply wp_bind, wp_gets.
  pose proof (queue_fuel _ _ _ _ Hrep) as Hf. apply wp_bind.
  eapply wp_wand with (Q := trimmed_start).
  2:{ intros left s (Hl & Hm & Ht). apply wp_ret. rewrite u64_small by lia. by rewrite <- Hm. }
  eapply (wp_iter _ trimming) with (n := length l); [|lia|].
  2:{ exists l. rewrite Z.sub_diag. split_and!; try done; try lia; apply zlen_nonneg. }
  intros k amt [h1 q1] (todo & -> & Hamt & Hz & Hr1 & Hk1 & Hca & Hsuf). simpl in Hr1, Hk1, Hca.
  case_decide as H0.
  { apply wp_ret. split_and!; [lia|lia|lia|]. exists todo. done. }
  apply wp_bind, wp_this. pose proof (zlen_drop (A - amt) bs ltac:(lia)) as Hzd.
  destruct todo as [|x todo].
  { rewrite (qr_head _ _ _ _ Hr1). apply wp_ret. pose proof (qr_bytes _ _ _ _ Hr1) as Hb.
    rewrite <- Hb in Hzd. rewrite chain_bytes_nil in Hzd. change (zlen []) with 0 in Hzd.
    split_and!; [lia|lia|lia|]. by exists []. }
  destruct (queue_rep_cons _ _ _ _ _ Hr1) as (Hh1 & Hc1 & Hbs & b & Hb & Hlen).
  pose proof Hr1 as [Hw1 _ _ Ho1 Hby1 Hl1]. rewrite Hh1.
  assert (Hxl : forall p, p ∈ x :: todo -> p ∈ l).
  { intros p Hp. destruct Hsuf as [pre ->]. apply elem_of_app. by right. }
  rewrite Hbs in Hzd. rewrite zlen_app in Hzd. pose proof (zlen_nonneg (chain_bytes h1 todo)).
  pose proof (zlen_nonneg (node_bytes h1 x)).
  apply wp_bind, wp_lift. eapply wp_load; [done|]. case_decide as Hlt.
  - apply wp_bind, wp_lift. eapply wp_nothrow; [apply (trimStart_wp h1 x b amt); [done|done|lia]|].
    intros [] h2 Hrw. apply wp_bind, wp_set_queue. apply wp_ret.
    destruct (trim_step h1 q1 [] x b todo _ amt 0 h2 Hr1 Hb Hrw) as [Hr2 Hk2]; [lia..|].
    split_and!; [lia|lia|lia|]. exists (x :: todo). split_and!; [| |done].
    + replace (Z.to_nat (A - 0)) with (Z.to_nat (A - amt) + Z.to_nat amt)%nat by lia.
      rewrite <- drop_drop, Hbs, drop_app_le by (unfold zlen in Hlen; lia).
      rewrite <- (slice_to_end amt (length_ b - amt)) by lia.
      rewrite Z.add_0_r, Z.sub_0_r in Hr2. exact Hr2.
    + eapply keeps_trans; [exact Hk1|]. eapply keeps_weaken; [| |exact Hk2]; [|set_solver].
      intros p ->%list_elem_of_singleton. apply Hxl. by left.
  - apply wp_bind, wp_set_queue. apply wp_bind, wp_lift.
    eapply wp_nothrow; [by apply pop_wp|]. intros ? h2 [-> Hu].
    apply wp_bind, wp_set_queue. apply wp_bind, wp_lift.
    eapply wp_nothrow; [by eapply (drop_head_wp h1 x todo h2)|].
    intros [] h3 (Hw3 & Hc3 & Ho3 & Hb3 & Hk3). apply wp_ret.
    exists (length todo). split; [simpl; lia|]. rewrite u64_small by lia.
    exists todo. split_and!; try done; try lia.
    + simpl. replace (A - (amt - length_ b)) with (A - amt + length_ b) by lia.
      rewrite (drop_app_z (A - amt) (length_ b) (node_bytes h1 x) (chain_bytes h1 todo)) by (done || lia).
      split; try done. simpl. intros Hcc. rewrite (Hl1 Hcc), Hbs, zlen_app, wrap_sub_wrap. f_equal. lia.
    + eapply keeps_trans; [exact Hk1|]. by eapply queue_rep_keeps_sub.
    + destruct Hsuf as [pre ->]. exists (pre ++ [x]). by rewrite <- (assoc_L (++)).
Qed.
End TrimStart.

(** ** Trimming at the end *)

Section TrimEnd.
Context (h : Heap) (q : IOBufQueue) (l : list positive) (bs : list Z) (A : Z).
Context (Hrep : queue_rep h q l bs) (HA : 0 <= A < 18446744073709551616).

(** The part of [bs] that is left after [n] bytes were taken from its end. *)
Definition without_end (n : Z) : list Z := take (Z.to_nat (zlen bs - n)) bs.

Definition trimming_end (k : nat) (amt : Z) (s : Heap * IOBufQueue) : Prop :=
  exists todo, k = length todo /\ 0 <= amt <= A /\ A - amt <= zlen bs /\
    queue_rep s.1 s.2 todo (without_end (A - amt)) /\ keeps l l h s.1 /\ prefix todo l.

Definition trimmed_end (left : Z) (s : Heap * IOBufQueue) : Prop :=
  0 <= left <= A /\ A - left = Z.min A (zlen bs) /\
  exists todo, queue_rep s.1 s.2 todo (without_end (A - left)) /\ keeps l l h s.1 /\ prefix todo l.

Lemma zlen_without n : 0 <= n <= zlen bs -> zlen (without_end n) = zlen bs - n.
Proof. intros. unfold without_end, zlen in *. rewrite length_take. lia. Qed.

Lemma without_end_app n m u v :
  0 <= n <= zlen bs -> without_end n = u ++ v -> 0 <= m <= zlen v ->
  without_end (n + m) = u ++ take (Z.to_nat (zlen v - m)) v.
Proof.
  intros Hn Heq Hm. pose proof (zlen_without n Hn) as Hz. rewrite Heq, zlen_app in Hz.
  pose proof (zlen_nonneg u).
  assert (without_end (n + m) = take (Z.to_nat (zlen bs - (n + m))) (without_end n)) as ->.
  { unfold without_end. rewrite take_take. f_equal. lia. }
  rewrite Heq. rewrite take_app_ge by (unfold zlen in *; lia). f_equal. f_equal. unfold zlen in *. lia.
Qed.

Lemma trimEndAtMost_wp :
  wp (IOBufQueue_trimEndAtMost A) (h, q)
    (fun r s => r = Z.min A (zlen bs) /\
       exists todo, queue_rep s.1 s.2 todo (without_end r) /\ keeps l l h s.1 /\ prefix todo l)
    nothrow.
Proof.
  unfold IOBufQueue_trimEndAtMost. apply wp_bind, wp_gets.
  pose proof (queue_fuel _ _ _ _ Hrep) as Hf. apply wp_bind.
  eapply wp_wand with (Q := trimmed_end).
  2:{ intros left s (Hl & Hm & Ht). apply wp_ret. rewrite u64_small by lia. by rewrite <- Hm. }
  eapply (wp_iter _ trimming_end) with (n := length l); [|lia|].
  2:{ exists l. rewrite Z.sub_diag. split_and!; try done; try lia; try apply zlen_nonneg.
      simpl. unfold without_end. rewrite Z.sub_0_r, take_ge by (unfold zlen; lia). done. }
  intros k amt [h1 q1] (todo & -> & Hamt & Hz & Hr1 & Hk1 & Hpre). simpl in Hr1, Hk1.
  case_decide as H0.
  { apply wp_ret. split_and!; [lia|lia|lia|]. exists todo. done. }
  apply wp_bind, wp_this. pose proof (zlen_without (A - amt) ltac:(lia)) as Hzd.
  destruct todo as [|x todo].
  { rewrite (qr_head _ _ _ _ Hr1). apply wp_ret. pose proof (qr_bytes _ _ _ _ Hr1) as Hb.
    rewrite <- Hb in Hzd. rewrite chain_bytes_nil in Hzd. change (zlen []) with 0 in Hzd.
    split_and!; [lia|lia|lia|]. by exists []. }
  destruct (snoc_exists x todo) as (pre & z & Hxz).
  assert (Hlz : default x (last todo) = z).
  { destruct todo as [|y todo]; [by destruct pre as [|? []]; simplify_list_eq|].
    apply (f_equal last) in Hxz. rewrite last_snoc, last_cons_cons in Hxz. by rewrite Hxz. }
  assert (Hh1 : head_ q1 = Some x) by apply (qr_head _ _ _ _ Hr1).
  rewrite Hxz in Hr1. destruct (queue_rep_app _ _ _ _ _ _ Hr1) as (Hc1 & Hbs & b & Hb & Hlen).
  rewrite chain_bytes_nil, app_nil_r in Hbs.
  pose proof Hr1 as [Hw1 _ _ Ho1 Hby1 Hl1]. rewrite Hh1.
  assert (Hcx : chain h1 (x :: todo)) by by rewrite Hxz.
  assert (Hxl : forall p, p ∈ pre ++ [z] -> p ∈ l).
  { intros p Hp. destruct Hpre as [post ->]. rewrite Hxz. apply elem_of_app. by left. }
  rewrite Hbs in Hzd. rewrite zlen_app in Hzd. pose proof (zlen_nonneg (chain_bytes h1 pre)).
  pose proof (zlen_nonneg (node_bytes h1 z)).
  apply wp_bind, wp_lift. eapply wp_prev; [by apply chain_pred|]. rewrite Hlz.
  apply wp_bind, wp_lift. eapply wp_load; [done|]. case_decide as Hlt.
  - apply wp_bind, wp_lift. eapply wp_nothrow; [apply (trimEnd_wp h1 z b amt); [done|done|lia]|].
    intros [] h2 Hrw. apply wp_bind, wp_set_queue. apply wp_ret.
    destruct (trim_step h1 q1 pre z b [] _ 0 amt h2 Hr1 Hb Hrw) as [Hr2 Hk2]; [lia..|].
    split_and!; [lia|lia|lia|]. exists (x :: todo). split_and!; [| |done].
    + replace (A - 0) with (A - amt + amt) by lia.
      rewrite (without_end_app (A - amt) amt _ _ ltac:(lia) Hbs) by lia.
      rewrite chain_bytes_nil, app_nil_r, Z.sub_0_r in Hr2. rewrite Hxz.
      replace (take (Z.to_nat (zlen (node_bytes h1 z) - amt)) (node_bytes h1 z))
        with (slice 0 (length_ b - amt) (node_bytes h1 z)) by (unfold slice; rewrite drop_0, Hlen; done).
      exact Hr2.
    + eapply keeps_trans; [exact Hk1|]. eapply keeps_weaken; [| |exact Hk2]; [|set_solver].
      intros p ->%list_elem_of_singleton. apply Hxl, elem_of_app. right. by left.
  - apply wp_bind, wp_set_queue. apply wp_bind, wp_lift. eapply isChained_wp; [done|].
    assert (Hcz : chain h1 (z :: pre)) by (by apply (chain_rotate h1 pre [z])).
    assert (Hoz : forall p, p ∈ z :: pre -> on_heap h1 p).
    { intros p Hp. apply Ho1. revert Hp. rewrite elem_of_app, list_elem_of_singleton, elem_of_cons. tauto. }
    assert (Hfin : forall q2 h3, head_ q2 = head pre -> cacheChainLength q2 = cacheChainLength q1 ->
      chainLength_ q2 = u64 (chainLength_ q1 - length_ b) ->
      wf h3 /\ (pre <> [] -> chain h3 pre) /\ (forall p, p ∈ pre -> on_heap h3 p) /\
      chain_bytes h3 pre = chain_bytes h1 pre /\ keeps (z :: pre) (z :: pre) h1 h3 ->
      exists n', (n' < length (x :: todo))%nat /\
        trimming_end n' (u64 (amt - length_ b)) (h3, q2)).
    { intros q2 h3 Hh2 Hca Hcl (Hw3 & Hc3 & Ho3 & Hb3 & Hk3).
      exists (length pre). split; [rewrite Hxz, length_app; simpl; lia|]. rewrite u64_small by lia.
      exists pre. split_and!; try done; try lia; simpl.
      - replace (A - (amt - length_ b)) with (A - amt + length_ b) by lia.
        rewrite (without_end_app (A - amt) (length_ b) _ _ ltac:(lia) Hbs) by lia.
        rewrite Hlen, Z.sub_diag. simpl. rewrite app_nil_r. split; try done.
        intros Hcc. rewrite Hca in Hcc. rewrite Hcl, (Hl1 Hcc), Hbs, zlen_app, wrap_sub_wrap. f_equal. lia.
      - eapply keeps_trans; [exact Hk1|]. eapply queue_rep_keeps_sub; [|exact Hk3].
        intros p Hp. apply Hxl. revert Hp. rewrite elem_of_app, list_elem_of_singleton, elem_of_cons. tauto.
      - destruct Hpre as [post Hpost]. exists (z :: post). by rewrite Hpost, Hxz, <- (assoc_L (++)). }
    destruct todo as [|y todo].
    + rewrite bool_decide_eq_false_2 by (intros H2; by apply H2).
      destruct pre as [|? [|??]]; simplify_list_eq.
      apply wp_bind. apply wp_bind, wp_set_queue. apply wp_lift.
      eapply wp_nothrow; [apply (delete_alone_wp h1 z []); try done|].
      * apply Hoz. by left.
      * by intros ?%elem_of_nil.
      * by intros ? ?%elem_of_nil.
      * intros [] h3 (Hw3 & Hc3 & Ho3 & Hb3 & Hk3 & _). apply wp_ret. by apply Hfin.
    + rewrite bool_decide_eq_true_2 by done.
      apply wp_bind. apply wp_bind, wp_lift. eapply wp_nothrow; [by apply (unlink_wp h1 z pre)|].
      intros ? h2 [-> Hu]. apply wp_lift.
      eapply wp_nothrow; [by eapply (drop_head_wp h1 z pre h2)|].
      intros [] h3 H3. apply wp_ret. apply Hfin; try done. simpl. rewrite Hh1.
      by destruct pre as [|? ?]; simplify_list_eq.
Qed.
End TrimEnd.
