(* ===== verification/IOBufQueueOps.v ===== *)
(** * io/IOBufQueue: appending and splitting

    What [appendToChain], [append] and [split] do to the represented sequence of
    bytes. *)

From stdpp Require Import base list gmap strings.
From S2P Require Import Prelude IOBufMem IOBuf IOBufChain IOBufInv IOBufWf IOBufPrim IOBufRelease IOBufLife IOBufWindow IOBufShare IOBufClone IOBufPiece IOBufRead IOBufQueue IOBufQueueRep.

#[local] Opaque chain.

Section Append.
Implicit Types (h : Heap) (q : IOBufQueue) (l m : list positive) (bs : list Z) (p x o : positive).

(** Without packing the two chains are linked. *)
Lemma appendToChain_wp h l o m :
  (l <> [] -> chain h l) -> chain h (o :: m) -> l ## o :: m ->
  wp (appendToChain (head l) o false) h
    (fun d h' => d = head (l ++ o :: m) /\ chain h' (l ++ o :: m) /\ relinked (l ++ o :: m) h h') nothrow.
Proof.
  intros Hl Ho Hd. destruct l as [|d l]; simpl.
  { apply wp_ret. split_and!; [done|done|apply relinked_refl]. }
  specialize (Hl ltac:(done)). apply wp_bind. eapply wp_prev; [by apply chain_pred|].
  apply wp_bind, wp_ret. apply wp_bind. unfold appendChain. apply wp_bind.
  assert (Hn : nxt h (default d (last l)) = Some d).
  { destruct (snoc_exists d l) as (l1 & z & Hz).
    assert (default d (last l) = z) as ->.
    { destruct l as [|y l]; [by destruct l1 as [|? []]; simplify_list_eq|].
      apply (f_equal last) in Hz. rewrite last_snoc, last_cons_cons in Hz. by rewrite Hz. }
    by rewrite (chain_succ h d l l1 z [] Hl Hz). }
  eapply wp_next; [exact Hn|].
  eapply wp_wand; [by apply (prependChain_wp h d l o m)|]. intros [] h' [Hc Hr]. by apply wp_ret.
Qed.

Lemma append_to_head_wp h q l bs o m :
  queue_rep h q l bs -> chain h (o :: m) -> (forall p, p ∈ o :: m -> on_heap h p) -> l ## o :: m ->
  wp (append_to_head o false) (h, q)
    (fun _ s => s.2 = with_head (head (l ++ o :: m)) q /\ relinked (l ++ o :: m) h s.1 /\
       chain s.1 (l ++ o :: m)) nothrow.
Proof.
  intros Hr Ho Hoh Hd. unfold append_to_head. apply wp_bind, wp_this. apply wp_bind, wp_lift.
  rewrite (qr_head _ _ _ _ Hr).
  eapply wp_wand; [apply appendToChain_wp; [apply (qr_chain _ _ _ _ Hr)|done|done]|].
  intros d h' (-> & Hc & Hrl). by apply wp_set_queue.
Qed.

(** The state after a chain was linked to the end. *)
Lemma linked_rep h q l bs o m h' n :
  queue_rep h q l bs -> (forall p, p ∈ o :: m -> on_heap h p) ->
  relinked (l ++ o :: m) h h' -> chain h' (l ++ o :: m) ->
  (cacheChainLength q = true -> n = u64 (chainLength_ q + zlen (chain_bytes h (o :: m)))) ->
  queue_rep h' (with_head (head (l ++ o :: m)) (with_chainLength n q)) (l ++ o :: m)
    (bs ++ chain_bytes h (o :: m)).
Proof.
  intros [Hw Hh Hc Ho Hb Hlen] Hoh Hr Hc' Hn. split; simpl; try done.
  - by eapply wf_relinked.
  - intros p [Hp|Hp]%elem_of_app; eapply relinked_on_heap; eauto.
  - rewrite (relinked_bytes _ _ _ _ Hr), chain_bytes_app. by rewrite Hb.
  - intros Hcc. rewrite (Hn Hcc), (Hlen Hcc), wrap_add, zlen_app by done. done.
Qed.

Lemma queue_append_wp h q l bs o m :
  queue_rep h q l bs -> chain h (o :: m) -> (forall p, p ∈ o :: m -> on_heap h p) -> l ## o :: m ->
  wp (IOBufQueue_append (Some o) false) (h, q)
    (fun _ s => queue_rep s.1 s.2 (l ++ o :: m) (bs ++ chain_bytes h (o :: m)) /\
       keeps [] (l ++ o :: m) h s.1) nothrow.
Proof.
  intros Hr Ho Hoh Hd. unfold IOBufQueue_append. apply wp_bind, wp_this. apply wp_bind.
  eapply wp_wand with (Q := fun _ s => s = (h, with_chainLength
    (if cacheChainLength q then u64 (chainLength_ q + zlen (chain_bytes h (o :: m))) else chainLength_ q) q)).
  { destruct (cacheChainLength q) eqn:Hcc.
    - apply wp_bind, wp_lift. eapply wp_wand; [apply (computeChainDataLength_wp h o m); [apply Hr|done]|].
      intros r h' [-> ->]. apply wp_set_queue. do 2 f_equal.
      unfold wrap. by rewrite Zplus_mod_idemp_r.
    - apply wp_ret. by destruct q. }
  intros [] s ->. set (q1 := with_chainLength _ q).
  assert (Hr1 : head_ q1 = head l) by apply Hr.
  unfold append_to_head. apply wp_bind, wp_this. apply wp_bind, wp_lift. rewrite Hr1.
  eapply wp_wand; [apply appendToChain_wp; [apply (qr_chain _ _ _ _ Hr)|done|done]|].
  intros d h' (-> & Hc & Hrl). apply wp_set_queue. split; [|by apply keeps_relinked].
  apply (linked_rep h q l bs o m h'); try done. intros Hcc. by rewrite Hcc.
Qed.
End Append.

(** ** Copying bytes to the end *)

Section AppendBytes.
Implicit Types (h : Heap) (q : IOBufQueue) (l m : list positive) (p x z : positive) (b : Payload).

Lemma last_of_snoc x l pre z : x :: l = pre ++ [z] -> default x (last l) = z.
Proof.
  intros Hxz. destruct l as [|y l]; [by destruct pre as [|? []]; simplify_list_eq|].
  apply (f_equal last) in Hxz. rewrite last_snoc, last_cons_cons in Hxz. by rewrite Hxz.
Qed.

(** The last element is the only user of its buffer and has room left. *)
Definition writable_last (h : Heap) (l : list positive) : Prop :=
  exists pre z b s, l = pre ++ [z] /\ payloads h !! z = Some b /\ sharedInfo b = Some s /\
    has_flag kFlagMaybeShared b = false /\ 0 < tailroom b /\ is_Some (ablk (buf_ b)).

(** The end of a round: as much as fits is copied to the last element. *)
Lemma copy_round_wp h q l bs src :
  queue_rep h q l bs -> writable_last h l -> src <> [] ->
  wp (q ← this_;
      p ← of_option (head_ q) "null head_";
      lst ← lift (prev p);
      b ← lift (load lst);
      lift (store_bytes (tail b) (take (Z.to_nat (Z.min (zlen src) (tailroom b))) src));;
      lift (append lst (Z.min (zlen src) (tailroom b)));;
      chainLength_add (Z.min (zlen src) (tailroom b));;
      mret (@inl (list Z) unit (drop (Z.to_nat (Z.min (zlen src) (tailroom b))) src))) (h, q)
    (fun r s => exists cp rest, r = inl rest /\ src = cp ++ rest /\ cp <> [] /\
       queue_rep s.1 s.2 l (bs ++ cp) /\ keeps l [] h s.1) nothrow.
Proof.
  intros Hr (pre & z & b & s & -> & Hz & Hs & Hf & Ht & [k Hk]) Hsrc.
  destruct (queue_rep_app _ _ _ _ _ _ Hr) as (Hc & Hbs & b' & Hb' & Hlen). simplify_eq.
  rewrite chain_bytes_nil, app_nil_r in *.
  assert (Hhd : exists x l', pre ++ [z] = x :: l' /\ head_ q = Some x).
  { destruct (pre ++ [z]) as [|x l'] eqn:Hl; [by destruct pre|]. exists x, l'.
    split; [done|]. apply (qr_head _ _ _ _ Hr). }
  destruct Hhd as (x & l' & Hl & Hh). rewrite Hl in Hc.
  set (cp := take (Z.to_nat (Z.min (zlen src) (tailroom b))) src).
  assert (Hsp : 0 < zlen src) by (destruct src; [done|unfold zlen; simpl; lia]).
  assert (Hcp : zlen cp = Z.min (zlen src) (tailroom b)).
  { unfold cp, zlen in *. rewrite length_take. lia. }
  apply wp_bind, wp_this. apply wp_bind. eapply wp_of_option; [done|].
  apply wp_bind, wp_lift. eapply wp_prev; [by apply chain_pred|].
  rewrite (last_of_snoc x l' pre z) by done. apply wp_bind, wp_lift. eapply wp_load; [done|].
  fold cp. apply wp_bind, wp_lift.
  eapply wp_nothrow; [apply (store_tail_wp h z b k cp); [apply Hr|done|done| |lia]|].
  { by eapply sole_unflagged; [apply Hr|..]. }
  intros [] h1 (Hw1 & Hk1 & Hb1 & _ & Hst1 & Hby1).
  assert (Hz1 : payloads h1 !! z = Some b) by by rewrite (payloads_of_bufs _ _ Hb1).
  apply wp_bind, wp_lift. rewrite <- Hcp.
  eapply wp_nothrow; [apply (append_wp h1 z b (zlen cp) k); [done|done|done|]|].
  { pose proof (zlen_nonneg cp). lia. }
  intros [] h2 Hrw. apply wp_bind, wp_set_queue. apply wp_ret.
  pose proof (rewindowed_bytes _ _ _ _ Hrw) as Hnb. rewrite Hby1 in Hnb.
  rewrite <- (node_bytes_pay _ _ _ Hz) in Hnb.
  pose proof (rewindowed_on_heap _ _ _ _ z Hrw) as Hox. destruct Hrw as (Hw2 & Hk2 & _).
  assert (Hkz : keeps [z] [] h h2).
  { eapply keeps_trans; [eapply keeps_weaken; [| |exact Hk1]; set_solver|exact Hk2]. }
  exists cp, (drop (Z.to_nat (zlen cp)) src). split_and!.
  - by rewrite Hcp.
  - rewrite Hcp. unfold cp. by rewrite take_drop.
  - intros Hnil. rewrite Hnil in Hcp. change (zlen []) with 0 in Hcp. lia.
  - simpl. pose proof (edit_step h q pre z [] _ h2 (node_bytes h z ++ cp)
      (u64 (chainLength_ q + zlen cp)) Hr Hw2 Hkz Hnb) as Hes.
    rewrite chain_bytes_nil, app_nil_r, (assoc_L (++)) in Hes. apply Hes.
    + intros (f & Hf' & Htt). apply Hox. exists f. by rewrite Hst1.
    + intros Hcc. rewrite (qr_len _ _ _ _ Hr Hcc), wrap_add by done. by rewrite <- zlen_app.
  - eapply keeps_weaken; [| |exact Hkz]; [|done]. intros p ->%list_elem_of_singleton.
    apply elem_of_app. right. by left.
Qed.

(** Does the last element have to be left alone? *)
Lemma tail_full_wp h q l bs :
  queue_rep h q l bs ->
  wp (match head_ q with
      | None => mret true
      | Some p =>
          lst ← lift (prev p);
          sh ← lift (isSharedOne lst);
          if sh : bool then mret true
          else b ← lift (load lst); mret (bool_decide (tailroom b = 0))
      end) (h, q)
    (fun full s => s.2 = q /\ queue_rep s.1 q l bs /\ keeps l [] h s.1 /\
       (full = false -> writable_last s.1 l)) nothrow.
Proof.
  intros Hr. rewrite (qr_head _ _ _ _ Hr). destruct l as [|x l]; simpl.
  { apply wp_ret. split_and!; try done; apply keeps_refl. }
  destruct (snoc_exists x l) as (pre & z & Hxz). rewrite Hxz in Hr |- *.
  destruct (queue_rep_app _ _ _ _ _ _ Hr) as (Hc & Hbs & b & Hb & Hlen).
  rewrite <- Hxz in Hc. apply wp_bind, wp_lift. eapply wp_prev; [by apply chain_pred|].
  rewrite (last_of_snoc x l pre z) by done. apply wp_bind, wp_lift.
  eapply wp_nothrow; [apply (isSharedOne_wp h z b); [apply Hr|done]|].
  intros r h1 (Hiff & Hid & b1 & Hrw & Hcase & Hfl). destruct r.
  { apply wp_ret. rewrite (Hid eq_refl). split_and!; try done; apply keeps_refl. }
  pose proof (rewindowed_pay _ _ _ _ Hrw) as Hb1. pose proof (rewindowed_bytes _ _ _ _ Hrw) as Hnb.
  assert (Hnb' : node_bytes h1 z = node_bytes h z).
  { rewrite Hnb, (node_bytes_pay _ _ _ Hb). by destruct Hcase as [->| ->]. }
  pose proof (rewindowed_on_heap _ _ _ _ z Hrw) as Hox. destruct Hrw as (Hw1 & Hk1 & _).
  apply wp_bind, wp_lift. eapply wp_load; [done|]. apply wp_ret. split_and!; [done| | |].
  - pose proof (edit_step h q pre z [] _ h1 _ (chainLength_ q) Hr Hw1 Hk1 Hnb' Hox) as Hes.
    rewrite <- Hbs in Hes. replace (with_chainLength (chainLength_ q) q) with q in Hes by by destruct q.
    apply Hes, Hr.
  - eapply keeps_weaken; [| |exact Hk1]; [|done]. intros p ->%list_elem_of_singleton.
    apply elem_of_app. right. by left.
  - intros Hfull. apply bool_decide_eq_false in Hfull.
    assert (Hnsh : ~ one_shared h b) by (intros Hsh; apply Hiff in Hsh; done).
    unfold one_shared in Hnsh. destruct (sharedInfo b) as [s|] eqn:Hs; [|exfalso; by apply Hnsh].
    assert (Hs1 : sharedInfo b1 = Some s).
    { destruct Hcase as [->| ->]; [done|]. by rewrite sharedInfo_clearFlags. }
    exists pre, z, b1, s. split_and!; try done; [by apply Hfl| |].
    + pose proof (Z.mod_pos_bound (pdiff (bufferEnd b1) (tail b1)) (2 ^ 64) ltac:(lia)) as Hpos.
      unfold tailroom, wrap in *. lia.
    + destruct (w_info _ _ _ _ Hw1 z b1 s Hb1 Hs1) as (i & _ & _ & Hpl).
      destruct Hpl as [(_ & -> & _)|(_ & _ & _ & k & -> & _)]; eauto.
Qed.

Lemma create_large n : kDefaultCombinedBufSize < n -> create n = createSeparate n.
Proof. intros Hn. unfold create. by rewrite decide_False by lia. Qed.

(** A new empty buffer is linked to the end. *)
Lemma grow_wp h q l bs n (Q : unit -> Heap * IOBufQueue -> Prop) (E : exn -> Heap * IOBufQueue -> Prop) :
  queue_rep h q l bs -> kDefaultCombinedBufSize < n -> n + 31 <= max_alloc ->
  (forall nb s, payloads h !! nb = None -> queue_rep s.1 s.2 (l ++ [nb]) bs ->
     keeps [] l h s.1 -> writable_last s.1 (l ++ [nb]) -> Q tt s) ->
  (forall h', refused h -> queue_rep h' q l bs -> keeps [] [] h h' -> E bad_alloc (h', q)) ->
  wp (nb ← lift (create n); append_to_head nb false) (h, q) Q E.
Proof.
  intros Hr Hn Hm HQ HE. unfold kDefaultCombinedBufSize in Hn. apply wp_bind, wp_lift.
  rewrite create_large by (unfold kDefaultCombinedBufSize; lia).
  pose proof Hr as [Hw Hh Hc Ho Hb Hl].
  eapply wp_mono; [apply createSeparate_wp; [done|lia|done]| |].
  - intros nb h1 (Hoh & a & cap & Hcap & (Hw1 & Hk1 & Hnb & Hcn & Hpay) & _).
    assert (Hd : l ## [nb]).
    { intros p Hp ->%list_elem_of_singleton. destruct (queue_rep_alive _ _ _ _ nb Hr Hp). congruence. }
    assert (Hr1 : queue_rep h1 q l bs) by (eapply queue_rep_keeps; [done|done|exact Hk1|set_solver]).
    eapply wp_nothrow; [apply (append_to_head_wp h1 q l bs nb []); try done|].
    { by intros p ->%list_elem_of_singleton. }
    intros [] [h2 q2] (Hq2 & Hrl & Hc2). simpl in Hq2, Hrl, Hc2.
    assert (Hnb1 : payloads h1 !! nb = Some (fresh_payload a cap)) by (rewrite Hpay; apply lookup_insert_eq).
    assert (Hbn : chain_bytes h1 [nb] = []).
    { rewrite chain_bytes_cons, chain_bytes_nil, app_nil_r. unfold node_bytes. by rewrite Hnb1. }
    assert (Hr2 : queue_rep h2 q2 (l ++ [nb]) bs).
    { assert (Heq : q2 = with_head (head (l ++ [nb])) (with_chainLength (chainLength_ q) q))
        by (rewrite Hq2; by destruct q).
      rewrite Heq, <- (app_nil_r bs), <- Hbn. apply (linked_rep h1 q l bs nb [] h2); try done.
      - by intros p ->%list_elem_of_singleton.
      - intros Hcc. rewrite Hbn, (Hl Hcc). change (zlen []) with 0. rewrite wrap_add by done.
        by rewrite Z.add_0_r. }
    assert (Hnb2 : payloads h2 !! nb = Some (fresh_payload a cap)) by by rewrite (rl_body _ _ _ Hrl).
    apply (HQ nb); [done|done| |].
    + eapply keeps_grow; [eapply keeps_weaken; [| |exact Hk1]; set_solver|by apply keeps_relinked|..]; simpl.
      * by intros p ?%elem_of_nil.
      * intros p [Hp|Hp]%elem_of_app; [by left|]. apply list_elem_of_singleton in Hp as ->. by right.
    + exists l, nb, (fresh_payload a cap), a. split_and!; try done.
      * apply (sharedInfo_fresh a cap).
      * rewrite (window_tailroom (blocks h2) _ a) by (done || by apply (wf_window h2 nb); [apply Hr2|]).
        simpl. lia.
  - intros e h1 (-> & Hrf & Hw1 & Hk1 & Hp1). apply HE; [done| |done].
    eapply queue_rep_keeps; [done|done|exact Hk1|set_solver].
Qed.

(** The elements of [l1] are those of [l] and new ones. *)
Definition extends (h : Heap) (l l1 : list positive) : Prop :=
  (forall p, p ∈ l -> p ∈ l1) /\ (forall p, p ∈ l1 -> p ∈ l \/ payloads h !! p = None).

(** [cp] has been appended. *)
Definition appended (h : Heap) (l : list positive) (bs cp : list Z) (s : Heap * IOBufQueue) : Prop :=
  exists l1, queue_rep s.1 s.2 l1 (bs ++ cp) /\ keeps l l h s.1 /\ extends h l l1.

Lemma extends_snoc h l l1 h2 q2 bs nb :
  keeps l l h h2 -> queue_rep h2 q2 l1 bs -> extends h l l1 -> payloads h2 !! nb = None ->
  extends h l (l1 ++ [nb]).
Proof.
  intros Hk Hr [H1 H2] Hnb. split.
  - intros p Hp. apply elem_of_app. left. by apply H1.
  - intros p [Hp|Hp]%elem_of_app; [by apply H2|]. apply list_elem_of_singleton in Hp as ->.
    destruct (payloads h !! nb) as [b|] eqn:Hb; [|by right]. left.
    destruct (decide (nb ∈ l)) as [|Hin]; [done|].
    rewrite (k_pay _ _ _ _ Hk nb b Hin Hb) in Hnb. done.
Qed.

Lemma append_bytes_wp h q l bs src :
  queue_rep h q l bs ->
  wp (IOBufQueue_append_bytes src) (h, q)
    (fun _ s => appended h l bs src s)
    (fun e s => e = bad_alloc /\ refused h /\ exists cp, prefix cp src /\ appended h l bs cp s).
Proof.
  intros Hr. unfold IOBufQueue_append_bytes.
  eapply (wp_iter _ (fun k rest s => k = length rest /\ exists cp, src = cp ++ rest /\
    appended h l bs cp s)) with (n := length src); [|lia|].
  2:{ split; [done|]. exists []. split; [done|]. exists l. rewrite app_nil_r.
      split_and!; [done|apply keeps_refl|]. split; [done|by left]. }
  intros k rest [h1 q1] (-> & cp & Hsrc & (l1 & Hr1 & Hk1 & Hl1)). simpl in *.
  case_decide as Hd.
  { apply wp_ret. exists l1. assert (rest = []) as ->.
    { apply nil_length_inv. unfold zlen in Hd. lia. }
    by rewrite Hsrc, app_nil_r. }
  assert (Hne : rest <> []) by (intros ->; done).
  apply wp_bind, wp_this. apply wp_bind. eapply wp_nothrow; [by apply tail_full_wp|].
  intros full [h2 q2] (Hq2 & Hr2 & Hk2 & Hwl). simpl in *. subst q2.
  assert (Hk02 : keeps l l h h2).
  { eapply keeps_grow; [exact Hk1|exact Hk2|apply Hl1|by intros p ?%elem_of_nil]. }
  apply wp_bind.
  eapply wp_mono with (Q := fun _ s => exists l3, queue_rep s.1 s.2 l3 (bs ++ cp) /\ keeps l l h s.1 /\
     extends h l l3 /\ writable_last s.1 l3)
    (E := fun e s => e = bad_alloc /\ refused h /\ appended h l bs cp s).
  - destruct full.
    + apply (grow_wp h2 q1 l1 (bs ++ cp)); [done| | | |].
      * unfold kDefaultCombinedBufSize, MIN_ALLOC_SIZE. lia.
      * unfold MIN_ALLOC_SIZE, MAX_ALLOC_SIZE, max_alloc. lia.
      * intros nb s Hnb Hr3 Hk3 Hw3. exists (l1 ++ [nb]). split_and!; [done| | |done].
        -- eapply keeps_grow; [exact Hk02|exact Hk3|by intros p ?%elem_of_nil|apply Hl1].
        -- by eapply (extends_snoc h l l1 h2 q1).
      * intros h' Hrf Hr3 Hk3. split_and!; [done| |].
        -- destruct Hrf as [n Hn]. exists n. by rewrite <- (k_oracle _ _ _ _ Hk02).
        -- exists l1. split_and!; [done| |done].
           eapply keeps_grow; [exact Hk02|exact Hk3|by intros p ?%elem_of_nil|by intros p ?%elem_of_nil].
    + apply wp_ret. exists l1. split_and!; try done; by apply Hwl.
  - intros [] [h3 q3] (l3 & Hr3 & Hk3 & Hl3 & Hw3). simpl in *.
    eapply wp_nothrow; [by apply (copy_round_wp h3 q3 l3 (bs ++ cp) rest)|].
    intros r [h4 q4] (cp2 & rest2 & -> & -> & Hcp2 & Hr4 & Hk4). simpl in *.
    exists (length rest2). split.
    { rewrite length_app. destruct cp2; [done|]. simpl. lia. }
    split; [done|]. exists (cp ++ cp2). split.
    + by rewrite Hsrc, (assoc_L (++)).
    + exists l3. simpl. split_and!; [by rewrite (assoc_L (++))| |done].
      eapply keeps_grow; [exact Hk3|exact Hk4|apply Hl3|by intros p ?%elem_of_nil].
  - intros e s (-> & Hrf & Ha). split_and!; [done|done|]. exists cp. split; [|done]. by exists rest.
Qed.
End AppendBytes.

(** ** Splitting *)

Section Split.
Context (h : Heap) (q : IOBufQueue) (l : list positive) (bs : list Z) (N : Z) (thr : bool).
Context (Hrep : queue_rep h q l bs) (HN : 0 <= N < 18446744073709551616) (Hok : alloc_ok h).
Context (Hcnt : forall s, Z.of_nat (refs (payloads h) s) + 1 < 4294967296).
Implicit Types (r todo : list positive) (p x c : positive) (b : Payload).

Definition underflow_split : exn :=
  underflow_error "Attempt to remove more bytes than are present in IOBufQueue".

(** [r] was taken from the front, [todo] is left. *)
Definition splitting (k : nat) (st : option positive * Z) (s : Heap * IOBufQueue) : Prop :=
  exists r todo, k = length todo /\ l = r ++ todo /\ st.1 = head r /\ 0 <= st.2 <= N /\
    N - st.2 <= zlen bs /\ relinked l h s.1 /\
    (r <> [] -> chain s.1 r) /\ chain_bytes h r = take (Z.to_nat (N - st.2)) bs /\
    queue_rep s.1 s.2 todo (drop (Z.to_nat (N - st.2)) bs).

(** The elements of the queue were handed over as they are, up to the one at the
    split point: it stays, and the last one of [r] is a new IOBuf on its buffer. *)
Definition handed_over (r todo : list positive) (h' : Heap) : Prop :=
  l = r ++ todo \/
  exists pre x c rest b d, l = pre ++ x :: rest /\ r = pre ++ [c] /\ todo = x :: rest /\ payloads h !! c = None /\
    payloads h' !! x = Some b /\ payloads h' !! c = Some d /\ buf_ d = buf_ b /\ sharedInfo d = sharedInfo b.

Definition split_done (res : option positive) (s : Heap * IOBufQueue) : Prop :=
  exists r todo, res = head r /\ handed_over r todo s.1 /\ leakless h s.1 /\ (r <> [] -> chain s.1 r) /\ (forall p, p ∈ r -> on_heap s.1 p) /\
    r ## todo /\ chain_bytes s.1 r = take (Z.to_nat N) bs /\
    queue_rep s.1 s.2 todo (drop (Z.to_nat N) bs) /\ keeps l l h s.1.

Definition split_failed (e : exn) (s : Heap * IOBufQueue) : Prop :=
  thr = true /\ e = underflow_split /\ zlen bs < N /\ queue_rep s.1 s.2 [] [] /\ keeps l l h s.1 /\ leakless h s.1 /\
  forall p, payloads s.1 !! p = if decide (p ∈ l) then None else payloads h !! p.

Lemma splitting_parts h1 r todo :
  l = r ++ todo -> relinked l h h1 ->
  (forall p, p ∈ r -> on_heap h1 p) /\ (forall k, chain_bytes h1 k = chain_bytes h k) /\
  r ## todo /\ keeps l l h h1 /\ wf h1.
Proof.
  intros Hl Hrl. split_and!.
  - intros p Hp. eapply relinked_on_heap; [done|]. apply (qr_heap _ _ _ _ Hrep).
    rewrite Hl. apply elem_of_app. by left.
  - intros k'. by eapply relinked_bytes.
  - destruct l as [|x l'] eqn:Hll.
    + symmetry in Hl. apply app_eq_nil in Hl as [-> ->]. set_solver.
    + pose proof (chain_NoDup _ _ (qr_chain _ _ _ _ Hrep ltac:(done))) as Hnd. rewrite Hl in Hnd.
      apply NoDup_app in Hnd as (_ & Hd & _). exact Hd.
  - eapply keeps_weaken; [| |by apply keeps_relinked]; [set_solver|done].
  - eapply wf_relinked; [done|]. apply Hrep.
Qed.

(** A whole element moves to the result. *)
Lemma split_take r x todo n h1 q1 b :
  l = r ++ x :: todo -> 0 <= n <= N -> N - n <= zlen bs -> relinked l h h1 -> (r <> [] -> chain h1 r) ->
  chain_bytes h r = take (Z.to_nat (N - n)) bs ->
  queue_rep h1 q1 (x :: todo) (drop (Z.to_nat (N - n)) bs) ->
  payloads h1 !! x = Some b -> length_ b <= n ->
  wp (chainLength_sub (length_ b);;
      remainder ← lift (pop x);
      result ← lift (appendToChain (head r) x false);
      set_queue (with_head remainder);;
      mret (@inl _ (option positive) (result, u64 (n - length_ b)))) (h1, q1)
    (fun res s => match res with
       | inl st => exists n', (n' < length (x :: todo))%nat /\ splitting n' st s
       | inr b => False end) nothrow.
Proof.
  intros Hl Hn Hz Hrl Hcr Hbr Hr1 Hb Hle.
  destruct (queue_rep_cons _ _ _ _ _ Hr1) as (Hh1 & Hc1 & Hbs & b' & Hb' & Hlen). simplify_eq.
  destruct (splitting_parts h1 r (x :: todo) Hl Hrl) as (Hor & Hby & Hd & _ & Hw1).
  simpl in *. pose proof (chain_NoDup _ _ Hc1) as Hnd. apply NoDup_cons in Hnd as [Hx _].
  pose proof (zlen_drop (N - n) bs ltac:(lia)) as Hzd. rewrite Hbs, zlen_app, Hlen in Hzd.
  pose proof (zlen_nonneg (chain_bytes h1 todo)). pose proof (zlen_nonneg (node_bytes h1 x)).
  apply wp_bind, wp_set_queue. apply wp_bind, wp_lift.
  eapply wp_nothrow; [by apply pop_wp|]. intros ? h2 [-> (Hcx & Hct & Hr2)].
  assert (Hsub : forall p, p ∈ x :: todo -> p ∈ l) by (intros p Hp; rewrite Hl; apply elem_of_app; by right).
  assert (Hcr2 : r <> [] -> chain h2 r).
  { intros Hne. eapply chain_relinked; [exact Hr2| |by apply Hcr]. exact Hd. }
  apply wp_bind, wp_lift. eapply wp_nothrow; [apply (appendToChain_wp h2 r x []); [done|done|]|].
  { intros p Hp ->%list_elem_of_singleton. apply (Hd x Hp). by left. }
  intros d h3 (-> & Hc3 & Hr3). apply wp_bind, wp_set_queue. apply wp_ret.
  exists (length todo). split; [simpl; lia|].
  assert (Hrl3 : relinked l h h3).
  { eapply relinked_trans; [exact Hrl|]. eapply relinked_trans; [by eapply relinked_weaken; [|exact Hr2]|].
    eapply relinked_weaken; [|exact Hr3]. intros p [Hp|Hp]%elem_of_app.
    - rewrite Hl. apply elem_of_app. by left.
    - apply list_elem_of_singleton in Hp as ->. apply Hsub. by left. }
  rewrite u64_small by lia. exists (r ++ [x]), todo. simpl. split_and!; try done; try lia.
  - by rewrite <- (assoc_L (++)).
  - replace (N - (n - length_ b)) with (N - n + length_ b) by lia.
    rewrite chain_bytes_app, chain_bytes_cons, chain_bytes_nil, app_nil_r, Hbr.
    rewrite (Z2Nat.inj_add (N - n)) by lia.
    rewrite <- (take_take_drop bs), Hbs, take_app_length'; [|unfold zlen in Hlen; lia]. f_equal.
    unfold node_bytes. by rewrite (rl_body _ _ _ Hrl), (rl_blocks _ _ _ Hrl).
  - replace (N - (n - length_ b)) with (N - n + length_ b) by lia.
    rewrite (drop_app_z (N - n) (length_ b) (node_bytes h1 x) (chain_bytes h1 todo)) by (done || lia).
    split; simpl; try done.
    + eapply wf_relinked; [exact Hrl3|apply Hrep].
    + intros Hne. eapply chain_relinked; [exact Hr3| |by apply Hct].
      intros p Hp [Hp'|Hp']%elem_of_app; [apply (Hd p Hp'); by right|].
      apply list_elem_of_singleton in Hp' as ->. done.
    + intros p Hp. eapply relinked_on_heap; [exact Hrl3|]. apply (qr_heap _ _ _ _ Hrep), Hsub. by right.
    + rewrite (relinked_bytes _ _ _ _ Hr3), (relinked_bytes _ _ _ _ Hr2). done.
    + intros Hcc. rewrite (qr_len _ _ _ _ Hr1 Hcc), Hbs, zlen_app, wrap_sub_wrap. f_equal. lia.
Qed.

(** What was taken so far, and a clone [c] behind it. *)
Lemma split_result r x todo h1 h2 h3 h4 b c nb :
  l = r ++ x :: todo -> relinked l h h1 -> payloads h1 !! x = Some b -> piece x c b nb h1 h2 ->
  relinked (r ++ [c]) h2 h3 -> keeps [x] [] h3 h4 -> (r <> [] -> chain h1 r) -> chain h3 (r ++ [c]) ->
  chain h4 (r ++ [c]) /\ (forall p, p ∈ r -> on_heap h1 p -> on_heap h4 p) /\ on_heap h4 c /\
  chain_bytes h4 (r ++ [c]) = chain_bytes h1 r ++ nb /\ r ++ [c] ## x :: todo /\ keeps l l h h4.
Proof.
  intros Hl Hrl Hb Hp Hr3 Hk4 Hcr Hc3. destruct (splitting_parts h1 r (x :: todo) Hl Hrl) as (_ & _ & Hd & Hk1 & _).
  assert (Hal : forall p, p ∈ l -> is_Some (payloads h1 !! p)).
  { intros p Hp'. rewrite (rl_body _ _ _ Hrl). by eapply queue_rep_alive. }
  assert (Hall : forall p, p ∈ r ++ x :: todo -> p <> c) by (intros p Hp'; rewrite <- Hl in Hp'; by apply (piece_others _ _ _ _ _ _ p Hp), Hal).
  assert (Hx : forall p, p ∈ r ++ [c] -> p ∉ [x]).
  { intros p [Hp'|Hp']%elem_of_app ->%list_elem_of_singleton; [apply (Hd x Hp'); by left|].
    apply list_elem_of_singleton in Hp'. apply (Hall x); [|done]. apply elem_of_app. right. by left. }
  assert (Hr : forall p, p ∈ r -> p ∈ l) by (intros p Hp'; rewrite Hl; apply elem_of_app; by left).
  assert (H3 : forall p, is_Some (payloads h2 !! p) -> is_Some (payloads h3 !! p)) by (intros p; by rewrite (rl_body _ _ _ Hr3)).
  destruct (piece_payload _ _ _ _ _ _ Hp) as (bc & Hbc & _).
  split_and!.
  - eapply keeps_chain; [exact Hk4|by intros ? _ ?%elem_of_nil|done].
  - intros p Hp' Ho. destruct (piece_others _ _ _ _ _ _ p Hp (Hal p (Hr p Hp'))) as (_ & Ha2 & _ & Ho2).
    apply (k_heap _ _ _ _ Hk4); [apply Hx, elem_of_app; by left|by apply H3|].
    eapply relinked_on_heap; [exact Hr3|by apply Ho2].
  - apply (k_heap _ _ _ _ Hk4); [apply Hx, elem_of_app; right; by left|apply H3; eauto|].
    eapply relinked_on_heap; [exact Hr3|exact (pc_heap _ _ _ _ _ _ Hp)].
  - rewrite (keeps_chain_bytes _ _ _ _ _ Hk4 Hx Hc3), (relinked_bytes _ _ _ _ Hr3), chain_bytes_app. f_equal.
    + apply chain_bytes_ext. intros p Hp'. by apply (piece_others _ _ _ _ _ _ p Hp (Hal p (Hr p Hp'))).
    + by rewrite chain_bytes_cons, chain_bytes_nil, app_nil_r, (pc_bytes _ _ _ _ _ _ Hp).
  - intros p [Hp'|Hp']%elem_of_app Hin; [by apply (Hd p)|]. apply list_elem_of_singleton in Hp'.
    apply (Hall p); [apply elem_of_app; by right|done].
  - assert (Hxl : x ∈ l) by (rewrite Hl; apply elem_of_app; right; by left).
    pose proof (pc_new _ _ _ _ _ _ Hp) as Hn. rewrite (rl_body _ _ _ Hrl) in Hn.
    eapply keeps_grow; [eapply keeps_grow; [eapply keeps_grow; [exact Hk1|apply Hp|..]|by apply keeps_relinked|..]|exact Hk4|..];
      try by intros p ?%elem_of_nil.
    + intros p ->%list_elem_of_singleton. by left.
    + intros p [Hp'| ->%list_elem_of_singleton]%elem_of_app; [left; by apply Hr|by right].
    + intros p ->%list_elem_of_singleton. by left.
Qed.

(** The split point is inside of an element, which is cloned. *)
Lemma split_clone r x todo n h1 q1 b :
  l = r ++ x :: todo -> 0 <= n <= N -> N - n <= zlen bs -> relinked l h h1 -> (r <> [] -> chain h1 r) ->
  chain_bytes h r = take (Z.to_nat (N - n)) bs ->
  queue_rep h1 q1 (x :: todo) (drop (Z.to_nat (N - n)) bs) ->
  payloads h1 !! x = Some b -> n < length_ b ->
  wp (clone ← try_catch (lift (cloneOne x)) (fun e => lift (delete_opt (head r));; throw e);
      c ← lift (load clone);
      lift (trimEnd clone (u64 (length_ c - n)));;
      result ← lift (appendToChain (head r) clone false);
      lift (trimStart x n);;
      chainLength_sub n;;
      mret (@inr (option positive * Z) _ result)) (h1, q1)
    (fun res s => match res with inl _ => False | inr result => split_done result s end) nothrow.
Proof.
  intros Hl Hn Hz Hrl Hcr Hbr Hr1 Hb Hlt.
  destruct (queue_rep_cons _ _ _ _ _ Hr1) as (_ & Hc1 & Hbs & b' & Hb' & Hlen). simplify_eq.
  destruct (splitting_parts h1 r (x :: todo) Hl Hrl) as (Hor & Hby & _ & _ & Hw1).
  pose proof (length_bound _ _ _ Hw1 Hb) as Hlb. unfold max_alloc in Hlb.
  apply wp_bind, wp_try_catch, wp_lift. eapply wp_mono; [apply (cloneOne_wp h1 x b); [done|done|]| |].
  { intros s _. rewrite (rl_body _ _ _ Hrl). apply Hcnt. }
  2:{ intros e h2 (_ & [i Hi] & _). rewrite (rl_oracle _ _ _ Hrl), Hok in Hi. done. }
  intros c h2 [Hcl Hoc]. pose proof (cloned_piece _ _ _ _ _ Hcl Hoc) as Hp2. clear Hcl Hoc.
  destruct (piece_payload _ _ _ _ _ _ Hp2) as (bc & Hbc & Hlc).
  apply wp_bind, wp_lift. eapply wp_load; [done|]. rewrite (u64_small (length_ bc - n)) by lia.
  apply wp_bind, wp_lift. eapply wp_nothrow; [apply (trimEnd_wp h2 c bc); [apply Hp2|done|lia]|]. intros [] h3 Hrw3.
  pose proof (piece_trimmed _ _ _ _ _ _ _ _ _ _ Hb Hp2 Hbc Hrw3 ltac:(lia) ltac:(lia) ltac:(lia)) as Hp3. clear Hp2 Hrw3.
  replace (length_ bc - 0 - (length_ bc - n)) with n in Hp3 by lia. rewrite slice_take in Hp3.
  destruct (piece_chains _ _ _ _ _ _ _ Hp3 Hc1) as (_ & _ & Hct).
  assert (Hcr3 : r <> [] -> chain h3 r /\ c ∉ r).
  { intros Hne. by destruct (piece_chains _ _ _ _ _ _ _ Hp3 (Hcr Hne)) as (? & _ & ?). }
  apply wp_bind, wp_lift. eapply wp_nothrow; [apply (appendToChain_wp h3 r c []); [by intros [? _]%Hcr3|apply Hp3|]|].
  { intros p Hp ->%list_elem_of_singleton. destruct r; [by apply elem_of_nil in Hp|]. by apply Hcr3. }
  intros d h4 (-> & Hc4 & Hr4).
  assert (Hr4q : queue_rep h4 q1 (x :: todo) (drop (Z.to_nat (N - n)) bs)).
  { eapply queue_rep_relinked; [by eapply queue_rep_piece|exact Hr4|].
    destruct (splitting_parts h1 r (x :: todo) Hl Hrl) as (_ & _ & Hd & _).
    intros p Hp [Hp'|Hp']%elem_of_app; [by apply (Hd p)|]. by apply list_elem_of_singleton in Hp' as ->. }
  assert (Hx4 : payloads h4 !! x = Some (marked b)) by (rewrite (rl_body _ _ _ Hr4); by eapply piece_original).
  destruct (marked_fields b) as (_ & _ & Hml & _).
  apply wp_bind, wp_lift. eapply wp_nothrow; [apply (trimStart_wp h4 x (marked b)); [apply Hr4q|done|lia]|].
  intros [] h5 Hrw5. apply wp_bind, wp_set_queue. apply wp_ret.
  destruct (trim_step h4 q1 [] x (marked b) todo _ n 0 h5 Hr4q Hx4 Hrw5) as [Hr5 Hk5]; [lia..|].
  destruct (split_result r x todo h1 h3 h4 h5 b c _ Hl Hrl Hb Hp3 Hr4 Hk5 Hcr Hc4) as (Hc5 & Ho5 & Hoc & Hb5 & Hd5 & Hkk).
  pose proof (queue_rep_cons _ _ _ _ _ Hr4q) as (_ & _ & Hbs4 & _).
  assert (Hx1 : node_bytes h4 x = node_bytes h1 x).
  { rewrite <- (pc_original _ _ _ _ _ _ Hp3). unfold node_bytes. by rewrite (rl_body _ _ _ Hr4), (rl_blocks _ _ _ Hr4). }
  assert (HNn : Z.to_nat N = (Z.to_nat (N - n) + Z.to_nat n)%nat) by lia.
  exists (r ++ [c]), (x :: todo). rewrite HNn. split_and!; try done.
  - right. destruct (pc_pay _ _ _ _ _ _ Hp3) as (bc' & [Hs3 Hb3] & Hpay3). pose proof (pc_new _ _ _ _ _ _ Hp3) as Hn3.
    assert (Hcx : c <> x) by congruence. exists r, x, c, todo, (trimmed (marked b) n 0), bc'. split_and!; try done.
    + by rewrite <- (rl_body _ _ _ Hrl).
    + by apply rewindowed_pay in Hrw5.
    + simpl. destruct Hrw5 as (_ & _ & -> & _). rewrite lookup_insert_ne, (rl_body _ _ _ Hr4), Hpay3 by done. apply lookup_insert_eq.
    + rewrite Hb3. symmetry. apply marked_fields.
    + rewrite Hs3. symmetry. etransitivity; [by apply (sharedInfo_word (marked b))|apply sharedInfo_marked].
  - eapply leakless_trans; [by eapply leakless_relinked|]. eapply leakless_trans; [exact (pc_leak _ _ _ _ _ _ Hp3)|].
    eapply leakless_trans; [by eapply leakless_relinked|].
    exact (leakless_rewindowed h4 h5 x (marked b) (trimmed (marked b) n 0) Hx4 (sharedInfo_word _ _ eq_refl) eq_refl Hrw5).
  - intros p [Hp| ->%list_elem_of_singleton]%elem_of_app; [|done]. by apply Ho5, Hor.
  - rewrite <- (take_take_drop bs), <- Hbr, <- Hby, Hbs, take_app_le by (unfold zlen in Hlen; lia). exact Hb5.
  - rewrite <- drop_drop, Hbs4, drop_app_le by (rewrite Hx1; unfold zlen in Hlen; lia).
    rewrite Z.add_0_r, Hml, chain_bytes_nil, Hx1, slice_to_end in Hr5 by lia. rewrite Hx1. exact Hr5.
Qed.

Lemma split_round_wp k st s :
  splitting k st s ->
  wp (split_round thr st) s
    (fun res s' => match res with
       | inl st' => exists n', (n' < k)%nat /\ splitting n' st' s'
       | inr result => split_done result s' /\ (N <= zlen bs \/ thr = false)
       end) split_failed.
Proof.
  destruct s as [h1 q1], st as [res n].
  intros (r & todo & -> & Hl & Hres & Hn & Hz & Hrl & Hcr & Hbr & Hr1). simpl in *. subst res.
  destruct (splitting_parts h1 r todo Hl Hrl) as (Hor & Hby & Hd & Hk1 & Hw1).
  unfold split_round. case_decide as H0.
  { apply wp_ret. subst n. rewrite Z.sub_0_r in *. split; [|left; lia].
    exists r, todo. rewrite Hby. split_and!; try done; [by left|by eapply leakless_relinked]. }
  apply wp_bind, wp_this. rewrite (qr_head _ _ _ _ Hr1).
  destruct todo as [|x todo].
  2:{ destruct (queue_rep_cons _ _ _ _ _ Hr1) as (Hh1 & Hc1 & Hbs & b & Hb & Hlen). simpl.
      apply wp_bind, wp_lift. eapply wp_load; [done|]. case_decide as Hle.
      - eapply wp_nothrow; [by eapply split_take|]. intros [st'|] s' H'; done.
      - eapply wp_nothrow; [eapply split_clone; try done; lia|]. intros [st'|] s' H'; [done|].
        split; [done|]. left. pose proof (zlen_drop (N - n) bs ltac:(lia)) as Hzd.
        rewrite Hbs, zlen_app in Hzd. pose proof (zlen_nonneg (chain_bytes h1 todo)). lia. }
  simpl. pose proof (qr_bytes _ _ _ _ Hr1) as Hb. rewrite chain_bytes_nil in Hb.
  assert (Hzb : zlen bs = N - n).
  { pose proof (zlen_drop (N - n) bs ltac:(lia)) as Hzd. rewrite <- Hb in Hzd. change (zlen []) with 0 in Hzd. lia. }
  assert (Htk : take (Z.to_nat (N - n)) bs = bs) by (apply take_ge; unfold zlen in Hzb; lia).
  rewrite app_nil_r in Hl. subst r. unfold split_failed. destruct thr eqn:Hthr.
  - apply wp_bind, wp_lift. destruct l as [|x l'].
    + apply wp_ret. apply wp_throw. split_and!; [done|done|lia| |done|by eapply leakless_relinked|]; simpl.
      * by rewrite Hb.
      * intros p. by rewrite (rl_body _ _ _ Hrl).
    + simpl. eapply wp_nothrow; [apply (delete_wp h1 x l'); [done|by apply Hcr|by apply Hor]|].
      intros [] h2 (Hw2 & Hk2 & Hp2 & Ht2). apply wp_throw. split_and!; [done|done|lia| | | |].
      * simpl. split; try done; [apply Hr1|by intros p ?%elem_of_nil|].
        intros Hcc. rewrite (qr_len _ _ _ _ Hr1 Hcc). by rewrite <- Hb.
      * eapply keeps_trans; [exact Hk1|exact Hk2].
      * eapply leakless_trans; [by eapply leakless_relinked|exact Ht2].
      * intros p. simpl. by rewrite Hp2, (rl_body _ _ _ Hrl).
  - apply wp_ret. split; [|by right].
    exists l, []. rewrite Hby, Hbr, Htk. split_and!; try done.
    + left. by rewrite app_nil_r.
    + by eapply leakless_relinked.
    + symmetry. apply take_ge. unfold zlen in Hzb. lia.
    + rewrite drop_ge by (unfold zlen in Hzb; lia). rewrite Hb. done.
Qed.

Lemma split_wp :
  wp (IOBufQueue_split_ N thr) (h, q)
    (fun p s => (N <= zlen bs \/ thr = false) /\ leakless h s.1 /\ exists r todo,
       (handed_over (p :: r) todo s.1 \/ r = [] /\ todo = l /\ payloads h !! p = None /\ take (Z.to_nat N) bs = []) /\
       chain s.1 (p :: r) /\ (forall x, x ∈ p :: r -> on_heap s.1 x) /\ p :: r ## todo /\
       chain_bytes s.1 (p :: r) = take (Z.to_nat N) bs /\
       queue_rep s.1 s.2 todo (drop (Z.to_nat N) bs) /\ keeps l l h s.1) split_failed.
Proof.
  unfold IOBufQueue_split_. apply wp_bind, wp_gets.
  pose proof (queue_fuel _ _ _ _ Hrep) as Hf. apply wp_bind.
  eapply wp_wand with (Q := fun res s => split_done res s /\ (N <= zlen bs \/ thr = false)).
  { eapply (wp_iter _ splitting) with (n := length l); [|lia|].
    - intros k st s Hs. eapply wp_wand; [by apply split_round_wp|]. by intros [st'|res] s'.
    - exists [], l. simpl. rewrite Z.sub_diag. pose proof (zlen_nonneg bs).
      split_and!; try done; try lia. }
  intros res [h1 q1] ((r & todo & -> & Hho & Htd & Hc & Ho & Hd & Hb & Hr & Hk) & HN'). simpl in *.
  destruct r as [|p r]; simpl.
  - apply wp_lift. eapply wp_nothrow; [apply create_wp|].
    + apply Hr.
    + by eapply keeps_alloc_ok.
    + done.
    + unfold offsetof_align, max_alloc. lia.
    + intros p h2 (Hop & a & cap & _ & (Hw2 & Hk2 & Hp & Hcp & Hpay) & _ & Htd2). simpl. split; [done|].
      split; [by eapply leakless_trans|]. exists [], todo. split_and!; try done.
      * right. split_and!; [done| | |by rewrite <- Hb].
        -- destruct Hho as [?|(pre & ? & ? & ? & ? & ? & _ & Hn & _)]; [done|by destruct pre].
        -- destruct (payloads h !! p) as [bp|] eqn:Hpp; [|done]. destruct Hho as [Hl|(pre & ? & ? & ? & ? & ? & _ & Hn & _)]; [|by destruct pre].
           simpl in Hl. destruct (decide (p ∈ l)) as [Hin|Hout].
           ++ rewrite Hl in Hin. destruct (queue_rep_alive _ _ _ _ p Hr Hin). congruence.
           ++ by rewrite (k_pay _ _ _ _ Hk p bp Hout Hpp) in Hp.
      * by intros x ->%list_elem_of_singleton.
      * intros x ->%list_elem_of_singleton Hx. destruct (queue_rep_alive _ _ _ _ p Hr Hx). congruence.
      * rewrite <- Hb, chain_bytes_cons, !chain_bytes_nil, app_nil_r. unfold node_bytes.
        by rewrite Hpay, lookup_insert_eq.
      * eapply queue_rep_keeps; [exact Hr|done|exact Hk2|set_solver].
      * eapply keeps_grow; [exact Hk|exact Hk2|by intros ? ?%elem_of_nil|by intros ? ?%elem_of_nil].
  - apply wp_ret. split; [done|]. split; [done|]. exists r, todo. split_and!; try done; [by left|by apply Hc].
Qed.
End Split.
