(* ===== verification/IOBufQueueSpec.v ===== *)
(** * io/IOBufQueue: the contract

    A queue represents a sequence of bytes; its methods are the operations on
    sequences, and with [cacheChainLength] the cached length is exact. *)

From stdpp Require Import base list gmap strings.
From S2P Require Import Prelude IOBufMem IOBuf IOBufChain IOBufInv IOBufPrim IOBufRelease IOBufLife IOBufRead IOBufSpec IOBufQueue IOBufQueueRep IOBufQueueOps.

#[local] Opaque chain.

(** ** A concrete queue *)

Definition demo_queue : IOBufQueue := mkQueue true 5 (Some demo_a).

Lemma demo_rep : queue_rep demo_heap demo_queue [demo_a; demo_b; demo_c] [1; 2; 3; 4; 5].
Proof.
  split.
  - exact demo_wf.
  - reflexivity.
  - intros _. exact demo_chain.
  - intros p Hp. apply demo_on_heap. revert Hp. rewrite !elem_of_cons. tauto.
  - exact demo_bytes.
  - reflexivity.
Qed.

(** ** Appending *)

(** Both forms of [append] add exactly the given bytes at the end of the
    queue. [append(unique_ptr<IOBuf>, false)] links the given chain to the end,
    keeps the topology of both chains and changes no byte of any IOBuf.
    [append(const void*, size_t)] copies: IOBufs outside of the queue, also
    those that share its buffers, keep their bytes (a shared last buffer is
    never written to), and when an allocation fails, a prefix of the data was
    appended. In all cases the cached length is exact. *)
Lemma queue_append_correct h q l bs :
  queue_rep h q l bs ->
  (forall o m, chain h (o :: m) -> (forall p, p ∈ o :: m -> on_heap h p) -> l ## o :: m ->
     wp (IOBufQueue_append (Some o) false) (h, q)
       (fun _ s => queue_rep s.1 s.2 (l ++ o :: m) (bs ++ chain_bytes h (o :: m)) /\
          keeps [] (l ++ o :: m) h s.1) nothrow) /\
  (forall src,
     wp (IOBufQueue_append_bytes src) (h, q)
       (fun _ s => exists l', queue_rep s.1 s.2 l' (bs ++ src) /\ keeps l l h s.1)
       (fun e s => e = bad_alloc /\ refused h /\
          exists cp l', prefix cp src /\ queue_rep s.1 s.2 l' (bs ++ cp) /\ keeps l l h s.1)).
Proof.
  intros Hr. split; [intros; by apply queue_append_wp|]. intros src. eapply wp_mono; [by apply append_bytes_wp| |].
  - intros [] s (l1 & H1 & H2 & _). eauto.
  - intros e s (-> & Hrf & cp & Hcp & l1 & H1 & H2 & _). eauto 10.
Qed.

Lemma queue_append_correct_witness :
  wp (IOBufQueue_append (Some demo_d) false) (demo_heap, demo_queue)
    (fun _ s => queue_rep s.1 s.2 [demo_a; demo_b; demo_c; demo_d] [1; 2; 3; 4; 5; 8; 9]) nothrow /\
  wp (IOBufQueue_append_bytes [6; 7; 8]) (demo_heap, demo_queue)
    (fun _ s => exists l', queue_rep s.1 s.2 l' [1; 2; 3; 4; 5; 6; 7; 8]) nothrow.
Proof.
  destruct (queue_append_correct demo_heap demo_queue [demo_a; demo_b; demo_c] [1; 2; 3; 4; 5] demo_rep) as [H1 H2].
  split.
  - eapply wp_wand; [apply (H1 demo_d [] demo_chain_d)|].
    + intros p Hp. apply demo_on_heap. revert Hp. rewrite !elem_of_cons. tauto.
    + intros p Hp Hp'. apply list_elem_of_singleton in Hp' as ->. revert Hp.
      apply (bool_decide_unpack _). vm_compute. exact Logic.I.
    + intros [] s [Hr _]. assert (Hd : chain_bytes demo_heap [demo_d] = [8; 9]) by (vm_compute; reflexivity).
      rewrite Hd in Hr. exact Hr.
  - eapply wp_mono; [apply (H2 [6; 7; 8])| |].
    + intros [] s (l' & Hr & _). exists l'. exact Hr.
    + intros e s (_ & H & _). exact (demo_not_refused H).
Defined.

(** ** Removing *)

(** C32: as long as the allocator refuses nothing, [split(n)] moves exactly the
    first [n] bytes to a chain of their own and leaves the rest. The elements
    change hands as they are ([handed_over]); one that straddles the split point
    is cloned, not copied: it stays in the queue, and the last element of the
    result is a new IOBuf with the same buffer and SharedInfo. If there are no
    bytes to move, the result is a new IOBuf. When there are fewer bytes, [split]
    throws [underflow_error], the queue is empty and all of its elements are
    destroyed, while [splitAtMost] returns what there is. No memory is leaked,
    and other IOBufs keep their bytes. *)
Theorem queue_split_correct h q l bs n thr :
  queue_rep h q l bs -> 0 <= n < 18446744073709551616 -> alloc_ok h ->
  (forall s, Z.of_nat (refs (payloads h) s) + 1 < 4294967296) ->
  wp (IOBufQueue_split_ n thr) (h, q)
    (fun p s => (n <= zlen bs \/ thr = false) /\ leakless h s.1 /\ exists r todo,
       (handed_over h l (p :: r) todo s.1 \/
        r = [] /\ todo = l /\ payloads h !! p = None /\ take (Z.to_nat n) bs = []) /\
       chain s.1 (p :: r) /\ (forall x, x ∈ p :: r -> on_heap s.1 x) /\ p :: r ## todo /\
       chain_bytes s.1 (p :: r) = take (Z.to_nat n) bs /\
       queue_rep s.1 s.2 todo (drop (Z.to_nat n) bs) /\ keeps l l h s.1)
    (fun e s => thr = true /\ e = underflow_split /\ zlen bs < n /\ queue_rep s.1 s.2 [] [] /\
       keeps l l h s.1 /\ leakless h s.1 /\
       forall p, payloads s.1 !! p = if decide (p ∈ l) then None else payloads h !! p).
Proof. intros. by apply split_wp. Qed.

Lemma queue_split_correct_witness :
  wp (IOBufQueue_split 2) (demo_heap, demo_queue)
    (fun p s => exists r todo, chain_bytes s.1 (p :: r) = [1; 2] /\ queue_rep s.1 s.2 todo [3; 4; 5]) nothrow.
Proof.
  eapply wp_mono; [apply (queue_split_correct demo_heap demo_queue _ _ 2 true demo_rep)| |].
  - lia.
  - exact demo_alloc_ok.
  - intros s. pose proof (demo_refs s). lia.
  - intros p s (_ & _ & r & todo & _ & _ & _ & _ & Hb & Hr & _). exists r, todo. exact (conj Hb Hr).
  - intros e s (_ & _ & H & _). unfold zlen in H. simpl in H. lia.
Defined.

(** [trimStartAtMost(n)] and [trimEndAtMost(n)] remove [min n length] bytes
    at the start and at the end and return their number; [trimStart] and
    [trimEnd] throw [underflow_error] exactly when that is less than [n]. *)
Lemma queue_trim_correct h q l bs n :
  queue_rep h q l bs -> 0 <= n < 18446744073709551616 ->
  wp (IOBufQueue_trimStartAtMost n) (h, q)
    (fun r s => r = Z.min n (zlen bs) /\ exists l', queue_rep s.1 s.2 l' (drop (Z.to_nat r) bs) /\
       keeps l l h s.1) nothrow /\
  wp (IOBufQueue_trimEndAtMost n) (h, q)
    (fun r s => r = Z.min n (zlen bs) /\ exists l', queue_rep s.1 s.2 l' (take (Z.to_nat (zlen bs - r)) bs) /\
       keeps l l h s.1) nothrow /\
  wp (IOBufQueue_trimStart n) (h, q)
    (fun _ s => n <= zlen bs /\ exists l', queue_rep s.1 s.2 l' (drop (Z.to_nat n) bs))
    (fun e s => e = underflow_trim /\ zlen bs < n /\ exists l', queue_rep s.1 s.2 l' []) /\
  wp (IOBufQueue_trimEnd n) (h, q)
    (fun _ s => n <= zlen bs /\ exists l', queue_rep s.1 s.2 l' (take (Z.to_nat (zlen bs - n)) bs))
    (fun e s => e = underflow_trim /\ zlen bs < n /\ exists l', queue_rep s.1 s.2 l' []).
Proof.
  intros Hr Hn. split_and!.
  - eapply wp_wand; [by apply (trimStartAtMost_wp h q l bs n)|]. intros r s (-> & l' & ? & ? & _). eauto.
  - eapply wp_wand; [by apply (trimEndAtMost_wp h q l bs n)|]. intros r s (-> & l' & ? & ? & _). eauto.
  - unfold IOBufQueue_trimStart. apply wp_bind.
    eapply wp_nothrow; [by apply (trimStartAtMost_wp h q l bs n)|]. intros r s (-> & l' & Hr' & _).
    case_decide as Hd.
    + apply wp_throw. split_and!; [done|lia|]. exists l'.
      rewrite drop_ge in Hr' by (unfold zlen in *; lia). done.
    + apply wp_ret. replace (Z.min n (zlen bs)) with n in Hr' by lia. split; [lia|]. eauto.
  - unfold IOBufQueue_trimEnd. apply wp_bind.
    eapply wp_nothrow; [by apply (trimEndAtMost_wp h q l bs n)|]. intros r s (-> & l' & Hr' & _).
    unfold without_end in Hr'. case_decide as Hd.
    + apply wp_throw. split_and!; [done|lia|]. exists l'.
      replace (zlen bs - Z.min n (zlen bs)) with 0 in Hr' by lia. done.
    + apply wp_ret. replace (Z.min n (zlen bs)) with n in Hr' by lia. split; [lia|]. eauto.
Qed.

Lemma queue_trim_correct_witness :
  wp (IOBufQueue_trimStart 4) (demo_heap, demo_queue)
    (fun _ s => exists l', queue_rep s.1 s.2 l' [5]) (fun _ _ => False) /\
  wp (IOBufQueue_trimEndAtMost 9) (demo_heap, demo_queue) (fun r s => r = 5) nothrow.
Proof.
  destruct (queue_trim_correct demo_heap demo_queue _ _ 4 demo_rep ltac:(lia)) as (_ & _ & H1 & _).
  destruct (queue_trim_correct demo_heap demo_queue _ _ 9 demo_rep ltac:(lia)) as (_ & H2 & _ & _).
  split.
  - eapply wp_mono; [exact H1| |].
    + intros [] s [_ H]. exact H.
    + intros e s (_ & H & _). unfold zlen in H. simpl in H. lia.
  - eapply wp_wand; [exact H2|]. intros r s [-> _]. reflexivity.
Defined.

(** ** Packing into a shared buffer *)

(** Two queues of which the second got the first five bytes of the first by
    [split]; then a small buffer is appended to the second with [pack]. *)
Definition pack_after_split : M Heap (list Z * list Z * list Z) :=
  fun h =>
    match IOBufQueue_append_bytes [104; 101; 108; 108; 111; 32; 119; 111; 114; 108; 100]
            (h, IOBufQueue_new true) with
    | Ok _ (h, q1) =>
        match IOBufQueue_split 5 (h, q1) with
        | Ok p (h, q1) =>
            match (before ← IOBufQueue_appendToString []; mret before) (h, q1) with
            | Ok before (h, q1) =>
                match (IOBufQueue_append (Some p) false;;
                       nb ← lift (copyBuffer [33; 33; 33] 0 0);
                       IOBufQueue_append (Some nb) true;;
                       IOBufQueue_appendToString []) (h, IOBufQueue_new true) with
                | Ok second (h, _) =>
                    match IOBufQueue_appendToString [] (h, q1) with
                    | Ok after (h, _) => Ok (before, after, second) h
                    | _ => OutOfFuel
                    end
                | _ => OutOfFuel
                end
            | _ => OutOfFuel
            end
        | _ => OutOfFuel
        end
    | _ => OutOfFuel
    end.

(** [append(buf, true)] writes into the tailroom of the last buffer without
    asking whether it is shared: after a [split], the bytes that the first queue
    still holds (" world") are overwritten by an append to the second one
    ("!!!rld"). *)
Lemma pack_overwrites_shared :
  exists h, pack_after_split empty_heap =
    Ok ([32; 119; 111; 114; 108; 100], [33; 33; 33; 114; 108; 100],
        [104; 101; 108; 108; 111; 33; 33; 33]) h.
Proof. eexists. vm_compute. reflexivity. Qed.
