(* ===== verification/Bits.v ===== *)
(** * Bits: bit counting, powers of two and byte order

    [src/accelerator/Bits.h].  An unsigned type is given by its width [w]; the
    overloads pick the builtin of [unsigned int] or of [unsigned long] by the
    size of the type.  A shift by the width of the promoted type or more is
    undefined behaviour, reported as no result. *)

From stdpp Require Import base list.
From S2P Require Import Prelude.

(** ** The builtins *)

(** The width of the builtin that an overload uses. *)
Definition builtin_width (w : Z) : Z := if decide (w <= 32) then 32 else 64.

(** Leading zeros, for [x <> 0]. *)
Definition builtin_clz (w x : Z) : Z := w - 1 - Z.log2 x.

(** One more than the index of the lowest set bit among [i, i + 1, ..., i + n - 1],
    zero when there is none. *)
Fixpoint builtin_ffs (n : nat) (i x : Z) : Z :=
  match n with
  | O => 0
  | S n => if Z.testbit x i then i + 1 else builtin_ffs n (i + 1) x
  end.

Definition builtin_popcount (w x : Z) : Z := zlen (filter (fun i => Z.testbit x i = true) (seqZ 0 w)).

Fixpoint to_bytes (n : nat) (x : Z) : list Z :=
  match n with O => [] | S n => x `mod` 256 :: to_bytes n (x / 256) end.

Definition of_bytes (bs : list Z) : Z := foldr (fun b acc => b + 256 * acc) 0 bs.

Definition builtin_bswap (n : nat) (x : Z) : Z := of_bytes (reverse (to_bytes n x)).

(** ** Operations *)

Definition findFirstSet (w x : Z) : Z := builtin_ffs (Z.to_nat (builtin_width w)) 0 x.

(** The overload for signed types converts to the unsigned type first. *)
Definition findFirstSet_signed (w x : Z) : Z := findFirstSet w (wrap w x).

Definition findLastSet (w x : Z) : Z :=
  if decide (x <> 0) then Z.lxor (builtin_width w - 1) (builtin_clz (builtin_width w) x) + 1 else 0.

Definition findLastSet_signed (w x : Z) : Z := findLastSet w (wrap w x).

(** [T(1) << n], truncated to [T]. *)
Definition shift_one (w n : Z) : option Z :=
  if decide (n < builtin_width w) then Some (wrap w (2 ^ n)) else None.

Definition nextPowTwo (w v : Z) : option Z :=
  if decide (v <> 0) then shift_one w (findLastSet w (v - 1)) else Some 1.

Definition isPowTwo (v : Z) : bool := bool_decide (v <> 0) && bool_decide (Z.land v (v - 1) = 0).

Definition popcount (w x : Z) : Z := builtin_popcount (builtin_width w) x.

(** [EndianInt] on a little-endian machine. *)
Definition EndianInt_swap (w x : Z) : Z :=
  if decide (w = 8) then x else builtin_bswap (Z.to_nat (w / 8)) x.
Definition EndianInt_big (w x : Z) : Z := EndianInt_swap w x.
Definition EndianInt_little (w x : Z) : Z := x.

(** [loadUnaligned] and [storeUnaligned] at an offset of a byte array. *)
Definition loadUnaligned (w : Z) (mem : list Z) (p : nat) : Z := of_bytes (take (Z.to_nat (w / 8)) (drop p mem)).
Definition storeUnaligned (w : Z) (mem : list Z) (p : nat) (value : Z) : list Z :=
  let bs := to_bytes (Z.to_nat (w / 8)) value in take p mem ++ bs ++ drop (p + length bs) mem.

(** ** Lemmas *)

Definition machine_width (w : Z) : Prop := w = 8 \/ w = 16 \/ w = 32 \/ w = 64.

Lemma builtin_width_ok w : machine_width w -> w <= builtin_width w /\ (builtin_width w = 32 \/ builtin_width w = 64).
Proof. unfold builtin_width. intros [->|[->|[->| ->]]]; case_decide; lia. Qed.

(** The exclusive or with [W - 1] is a subtraction. *)
Lemma xor_width W y : W = 32 \/ W = 64 -> 0 <= y < W -> Z.lxor (W - 1) (W - 1 - y) = y.
Proof.
  intros HW Hy. assert (Hall : forall W, W = 32 \/ W = 64 ->
    forallb (fun y => Z.lxor (W - 1) (W - 1 - y) =? y) (seqZ 0 W) = true) by (intros ? [-> | ->]; vm_compute; reflexivity).
  specialize (Hall W HW). apply forallb_forall with (x := y) in Hall; [by apply Z.eqb_eq|].
  apply list_elem_of_In, elem_of_seqZ. lia.
Qed.

Lemma log2_fits w x : 0 < x -> fits w x -> 0 <= Z.log2 x < w.
Proof. unfold fits. intros Hx Hf. split; [apply Z.log2_nonneg|]. apply Z.log2_lt_pow2; lia. Qed.

Lemma findLastSet_log2 w x : machine_width w -> 0 < x -> fits w x -> findLastSet w x = Z.log2 x + 1.
Proof.
  intros Hw Hx Hf. unfold findLastSet. rewrite decide_True by lia. f_equal. unfold builtin_clz.
  destruct (builtin_width_ok w Hw) as [Hle HW]. apply xor_width; [done|]. pose proof (log2_fits w x Hx Hf). lia.
Qed.

Lemma builtin_ffs_spec n : forall i x, 0 <= i ->
  (builtin_ffs n i x = 0 /\ (forall j, i <= j < i + Z.of_nat n -> Z.testbit x j = false)) \/
  (exists k, i <= k < i + Z.of_nat n /\ builtin_ffs n i x = k + 1 /\ Z.testbit x k = true /\
    (forall j, i <= j < k -> Z.testbit x j = false)).
Proof.
  induction n as [|n IH]; intros i x Hi; cbn [builtin_ffs]; [left; split; [done|]; lia|].
  destruct (Z.testbit x i) eqn:Ht; [right; exists i; split_and!; (done || lia)|].
  destruct (IH (i + 1) x ltac:(lia)) as [[-> Hz]|(k&Hk&->&Hb&Hz)]; [left|right; exists k].
  - split; [done|]. intros j Hj. destruct (decide (j = i)) as [->|]; [done|]. apply Hz. lia.
  - split_and!; try done; try lia. intros j Hj. destruct (decide (j = i)) as [->|]; [done|]. apply Hz. lia.
Qed.

Lemma testbit_high w x j : fits w x -> 0 <= w <= j -> Z.testbit x j = false.
Proof. unfold fits. intros Hf Hj. rewrite <- (Z.mod_small x (2 ^ w)) by done. apply Z.mod_pow2_bits_high. lia. Qed.

Lemma land_pred_pow2 v : 0 < v -> Z.land v (v - 1) = 0 <-> v = 2 ^ Z.log2 v.
Proof.
  intros Hv. pose proof (Z.log2_spec v Hv) as [Hlo Hhi]. pose proof (Z.log2_nonneg v). split.
  - intros Hl. destruct (decide (v = 2 ^ Z.log2 v)) as [|Hne]; [done|]. exfalso.
    assert (Hb : Z.testbit (Z.land v (v - 1)) (Z.log2 v) = true).
    { rewrite Z.land_spec, Z.bit_log2 by lia. rewrite <- (Z.log2_unique (v - 1) (Z.log2 v)) at 1 by lia.
      rewrite Z.bit_log2; [done|]. assert (0 < 2 ^ Z.log2 v) by (apply Z.pow_pos_nonneg; lia). lia. }
    by rewrite Hl, Z.bits_0 in Hb.
  - intros E. rewrite E, land_low by done. apply Z.mod_same. apply Z.pow_nonzero; lia.
Qed.

(** Between two powers of two. *)
Lemma pow_log2_pred v : 1 < v -> 2 ^ Z.log2 (v - 1) < v <= 2 ^ (Z.log2 (v - 1) + 1).
Proof. intros Hv. pose proof (Z.log2_spec (v - 1) ltac:(lia)). unfold Z.succ in *. lia. Qed.

Lemma shift_one_small w n : machine_width w -> 0 <= n < w -> shift_one w n = Some (2 ^ n).
Proof.
  intros Hw Hn. destruct (builtin_width_ok w Hw). unfold shift_one. rewrite decide_True by lia. f_equal.
  apply wrap_small. unfold fits. split; [apply Z.pow_nonneg; lia|]. apply Z.pow_lt_mono_r; lia.
Qed.

Lemma shift_one_width w : machine_width w -> shift_one w w = if decide (32 <= w) then None else Some 0.
Proof. by intros [->|[->|[->| ->]]]. Qed.

(** The exponent that [nextPowTwo] shifts by. *)
Lemma next_exponent w v :
  machine_width w -> 0 < v -> fits w v ->
  exists n, nextPowTwo w v = shift_one w n /\ 0 <= n /\ v <= 2 ^ n /\ (forall j, 0 <= j -> v <= 2 ^ j -> n <= j).
Proof.
  intros Hw Hv Hf. unfold nextPowTwo. rewrite decide_True by lia. destruct (decide (v = 1)) as [->|Hne].
  - exists 0. split_and!; [done|lia|simpl; lia|lia].
  - rewrite findLastSet_log2 by (done || unfold fits in *; lia). exists (Z.log2 (v - 1) + 1).
    pose proof (Z.log2_nonneg (v - 1)). pose proof (pow_log2_pred v ltac:(lia)). split_and!; [done|lia|lia|].
    intros j Hj Hvj. enough (Z.log2 (v - 1) < j) by lia. apply Z.log2_lt_pow2; lia.
Qed.

Lemma length_to_bytes n x : length (to_bytes n x) = n.
Proof. revert x. induction n; simpl; auto. Qed.

Lemma of_to_bytes n : forall x, 0 <= x < 256 ^ Z.of_nat n -> of_bytes (to_bytes n x) = x.
Proof.
  induction n as [|n IH]; intros x Hx; [simpl in *; lia|]. cbn [to_bytes of_bytes foldr].
  change (foldr _ 0 (to_bytes n (x / 256))) with (of_bytes (to_bytes n (x / 256))).
  rewrite Nat2Z.inj_succ, Z.pow_succ_r in Hx by lia. rewrite IH; [euclid|].
  split; [apply Z.div_pos; lia|]. apply Z.div_lt_upper_bound; lia.
Qed.

Lemma to_of_bytes bs : Forall (fun b => 0 <= b < 256) bs -> to_bytes (length bs) (of_bytes bs) = bs.
Proof.
  induction 1 as [|b bs Hb Hbs IH]; [done|]. cbn [length to_bytes of_bytes foldr].
  change (foldr _ 0 bs) with (of_bytes bs).
  assert (E1 : (b + 256 * of_bytes bs) `mod` 256 = b) by euclid.
  assert (E2 : (b + 256 * of_bytes bs) / 256 = of_bytes bs) by euclid. by rewrite E1, E2, IH.
Qed.

Lemma to_bytes_range n x : Forall (fun b => 0 <= b < 256) (to_bytes n x).
Proof. revert x. induction n; intros x; constructor; [apply Z.mod_pos_bound; lia|done]. Qed.

Lemma bswap_involutive n x : 0 <= x < 256 ^ Z.of_nat n -> builtin_bswap n (builtin_bswap n x) = x.
Proof.
  intros Hx. unfold builtin_bswap.
  assert (E : to_bytes n (of_bytes (reverse (to_bytes n x))) = reverse (to_bytes n x)).
  { rewrite <- (length_to_bytes n x) at 1. rewrite <- length_reverse. apply to_of_bytes.
    rewrite Forall_reverse. apply to_bytes_range. }
  rewrite E, reverse_involutive. by apply of_to_bytes.
Qed.

(** ** Specifications *)

(** The bit operations are what their names say, on every unsigned type of
    8, 16, 32 or 64 bits.  [findLastSet] is one more than the binary logarithm
    (the exclusive-or form is the subtraction it replaces), zero at zero;
    [findFirstSet] finds the lowest set bit; [isPowTwo] holds exactly at the
    powers of two; and [nextPowTwo] of [v] up to half the range is the least
    power of two that is not below [v], while above half the range it has no
    value: the shift is undefined for 32 and 64 bits, and truncates to zero
    for the smaller types. *)
Lemma bits_correct (w v : Z) :
  machine_width w -> 0 < v -> fits w v ->
  findLastSet w v = Z.log2 v + 1 /\ findLastSet w 0 = 0 /\
  (exists k, findFirstSet w v = k + 1 /\ Z.testbit v k = true /\ (forall j, 0 <= j < k -> Z.testbit v j = false)) /\
  findFirstSet w 0 = 0 /\
  (isPowTwo v = true <-> exists k, 0 <= k /\ v = 2 ^ k) /\
  (if decide (v <= 2 ^ (w - 1))
   then exists k, nextPowTwo w v = Some (2 ^ k) /\ 0 <= k < w /\ v <= 2 ^ k /\ (forall j, 0 <= j -> v <= 2 ^ j -> k <= j)
   else nextPowTwo w v = if decide (32 <= w) then None else Some 0).
Proof.
  intros Hw Hv Hf. destruct (builtin_width_ok w Hw) as [Hle HW].
  split_and!.
  - by apply findLastSet_log2.
  - done.
  - destruct (builtin_ffs_spec (Z.to_nat (builtin_width w)) 0 v ltac:(lia)) as [[_ Hz]|(k&Hk&He&Ht&Hz)]; [|eauto].
    exfalso. pose proof (log2_fits w v Hv Hf). pose proof (Z.bit_log2 v Hv) as Hb. rewrite Hz in Hb; [done|lia].
  - unfold findFirstSet. destruct (builtin_ffs_spec (Z.to_nat (builtin_width w)) 0 0 ltac:(lia)) as [[-> _]|(k&_&_&Ht&_)];
      [done|]. by rewrite Z.bits_0 in Ht.
  - unfold isPowTwo. rewrite andb_true_iff, !bool_decide_eq_true, land_pred_pow2 by done. split.
    + intros [_ E]. exists (Z.log2 v). split; [apply Z.log2_nonneg|done].
    + intros (k&Hk&->). split; [lia|]. by rewrite Z.log2_pow2.
  - destruct (next_exponent w v Hw Hv Hf) as (n&->&Hn&Hvn&Hleast). assert (0 < w) by (destruct Hw; lia).
    destruct (decide (v <= 2 ^ (w - 1))) as [Hhalf|Hhalf].
    + pose proof (Hleast (w - 1) ltac:(lia) Hhalf). exists n. rewrite shift_one_small by (done || lia).
      split_and!; (done || lia).
    + assert (n = w) as ->; [|by apply shift_one_width].
      pose proof (Hleast w ltac:(lia) ltac:(unfold fits in Hf; lia)).
      destruct (decide (n = w)) as [|Hne]; [done|]. exfalso. apply Hhalf.
      etrans; [exact Hvn|]. apply Z.pow_le_mono_r; lia.
Qed.

Lemma bits_correct_witness :
  findLastSet 32 100 = Z.log2 100 + 1 /\
  (exists k, nextPowTwo 32 100 = Some (2 ^ k) /\ 0 <= k < 32 /\ 100 <= 2 ^ k /\ (forall j, 0 <= j -> 100 <= 2 ^ j -> k <= j)).
Proof.
  destruct (bits_correct 32 100) as (H1&_&_&_&_&H2); [unfold machine_width; lia|lia|unfold fits; lia|].
  split; [exact H1|]. rewrite decide_True in H2 by lia. exact H2.
Defined.

(** Byte order and unaligned access.  Swapping the bytes of a 16-, 32- or
    64-bit integer twice is the identity, so that [Endian::big] converts both
    ways; and an integer stored unaligned, anywhere in a byte array that holds
    it, is loaded back and leaves the rest of the array as it was. *)
Lemma endian_unaligned_roundtrip (w x : Z) (mem : list Z) (p : nat) :
  machine_width w -> fits w x -> (p + Z.to_nat (w / 8) <= length mem)%nat ->
  EndianInt_swap w (EndianInt_swap w x) = x /\ EndianInt_big w (EndianInt_big w x) = x /\
  loadUnaligned w (storeUnaligned w mem p x) p = x /\ length (storeUnaligned w mem p x) = length mem /\
  take p (storeUnaligned w mem p x) = take p mem /\
  drop (p + Z.to_nat (w / 8)) (storeUnaligned w mem p x) = drop (p + Z.to_nat (w / 8)) mem.
Proof.
  intros Hw Hf Hp. assert (Hpow : 0 <= x < 256 ^ Z.of_nat (Z.to_nat (w / 8))).
  { replace (256 ^ _) with (2 ^ w) by (destruct Hw as [->|[->|[->| ->]]]; reflexivity). exact Hf. }
  assert (Hswap : EndianInt_swap w (EndianInt_swap w x) = x).
  { unfold EndianInt_swap. destruct (decide (w = 8)); [done|]. by apply bswap_involutive. }
  unfold loadUnaligned, storeUnaligned. set (bs := to_bytes (Z.to_nat (w / 8)) x).
  assert (Hbs : length bs = Z.to_nat (w / 8)) by apply length_to_bytes. rewrite Hbs.
  assert (Ht : length (take p mem) = p) by (rewrite length_take; lia).
  split_and!; try done.
  - rewrite drop_app_length' by done. rewrite take_app_length' by done. by apply of_to_bytes.
  - rewrite !length_app, length_drop, Ht. lia.
  - by apply take_app_length'.
  - rewrite app_assoc. apply drop_app_length'. rewrite length_app, Ht, Hbs. done.
Qed.
