(* ===== verification/Cursor.v ===== *)
(** * io/Cursor: reading cursors

    [src/accelerator/io/Cursor.h] (class [CursorBase]) and [Cursor-inl.h].  A
    cursor is a position in a chain of IOBufs: the element [crtBuf_], the offset
    [offset_] in its data and the head [buffer_] of the chain.  Its methods are
    computations on the memory of [IOBufMem] together with the members of the
    cursor.  Memory of the caller that a method fills is returned as bytes. *)

From stdpp Require Import base list gmap strings.
From S2P Require Import Prelude IOBufMem IOBuf Bits.

Inductive CursorAccess := PRIVATE | UNSHARE.

(** The template parameter [Derived]: a [Cursor] or an [RWCursor<access>]. *)
Inductive Derived := Cursor_ | RWCursor_ (access : CursorAccess).

(** [maybeShared_] is a member of [RWCursor] only; nothing else reads it. *)
Record Cursor := mkCursor {
  crtBuf_ : positive;
  offset_ : Z;
  buffer_ : positive;
  maybeShared_ : bool }.

Abbreviation Cur := (M (Heap * Cursor)).

Definition self : Cur Cursor := gets snd.
Definition set_cursor (f : Cursor -> Cursor) : Cur unit := modify (fun '(h, c) => (h, f c)).

Definition with_crtBuf (p : positive) (c : Cursor) : Cursor :=
  mkCursor p (offset_ c) (buffer_ c) (maybeShared_ c).
Definition with_offset (n : Z) (c : Cursor) : Cursor :=
  mkCursor (crtBuf_ c) n (buffer_ c) (maybeShared_ c).
Definition with_maybeShared (b : bool) (c : Cursor) : Cursor :=
  mkCursor (crtBuf_ c) (offset_ c) (buffer_ c) b.

(** [offset_ += n] and [offset_ -= n]. *)
Definition offset_add (n : Z) : Cur unit := set_cursor (fun c => with_offset (u64 (offset_ c + n)) c).
Definition offset_sub (n : Z) : Cur unit := set_cursor (fun c => with_offset (u64 (offset_ c - n)) c).

(** No loop over a chain passes an element twice. *)
Definition cur_fuel : Cur nat := gets (fun '(h, _) => S (size (bufs h))).

(** ** Construction and position *)

Definition Cursor_ctor (buf : positive) : Cursor := mkCursor buf 0 buf true.
Definition Cursor_copy (cursor : Cursor) : Cursor :=
  mkCursor (crtBuf_ cursor) (offset_ cursor) (buffer_ cursor) true.

Definition Cursor_reset (buf : positive) : Cur unit :=
  set_cursor (fun c => mkCursor buf 0 buf (maybeShared_ c)).

Definition Cursor_eqb (a b : Cursor) : bool :=
  bool_decide (offset_ a = offset_ b) && bool_decide (crtBuf_ a = crtBuf_ b).

Definition Cursor_data : Cur addr :=
  c ← self; b ← lift (load (crtBuf_ c)); mret (padd (data_ b) (offset_ c)).

Definition Cursor_length : Cur Z :=
  c ← self; b ← lift (load (crtBuf_ c)); mret (u64 (length_ b - offset_ c)).

(** [operator-(const CursorBase&)]. *)
Definition Cursor_diff (this other : Cursor) : Mem Z :=
  if decide (crtBuf_ other <> crtBuf_ this) then
    b ← load (crtBuf_ other);
    n ← next (crtBuf_ other);
    h ← get;
    '(otherBuf, len) ← iter (S (size (bufs h)))
      (fun '(otherBuf, len) =>
         if decide (otherBuf <> crtBuf_ this /\ otherBuf <> buffer_ other) then
           b ← load otherBuf;
           n ← next otherBuf;
           mret (inl (n, u64 (len + length_ b)))
         else mret (inr (otherBuf, len))) (n, u64 (length_ b - offset_ other));
    if decide (otherBuf = buffer_ other) then throw (out_of_range "wrap-around")
    else mret (u64 (len + offset_ this))
  else if decide (offset_ this < offset_ other) then throw (out_of_range "underflow")
  else mret (u64 (offset_ this - offset_ other)).

(** [operator-] on a pointer to an IOBuf. *)
Definition Cursor_diff_buf (this : Cursor) (buf : positive) : Mem Z :=
  h ← get;
  len ← iter (S (size (bufs h)))
    (fun '(curBuf, len) =>
       if decide (curBuf <> crtBuf_ this) then
         b ← load curBuf;
         n ← next curBuf;
         if decide (n = buf \/ n = buffer_ this) then throw (out_of_range "wrap-around")
         else mret (inl (n, u64 (len + length_ b)))
       else mret (inr len)) (buf, 0);
  mret (u64 (len + offset_ this)).

Definition Cursor_totalLength : Cur Z :=
  c ← self;
  if decide (crtBuf_ c = buffer_ c) then
    n ← lift (computeChainDataLength (crtBuf_ c)); mret (u64 (n - offset_ c))
  else
    p ← lift (prev (buffer_ c));
    b ← lift (load p);
    lift (Cursor_diff (with_offset (length_ b) (Cursor_ctor p)) c).

Definition Cursor_canAdvance (amount : Z) : Cur bool :=
  c ← self;
  available ← Cursor_length;
  fuel ← cur_fuel;
  lift (iter fuel
    (fun '(nextBuf, available, amount) =>
       if decide (amount <= available) then mret (inr true)
       else
         nextBuf' ← next nextBuf;
         b ← load nextBuf';
         if decide (nextBuf' <> buffer_ c) then
           mret (inl (nextBuf', length_ b, u64 (amount - available)))
         else mret (inr false)) (crtBuf_ c, available, amount)).

Definition Cursor_isAtEnd : Cur bool :=
  c ← self;
  b ← lift (load (crtBuf_ c));
  if decide (offset_ c <> length_ b) then mret false
  else
    p ← lift (prev (buffer_ c));
    if decide (crtBuf_ c = p) then mret true
    else
      buf ← lift (next (crtBuf_ c));
      fuel ← cur_fuel;
      lift (iter fuel
        (fun buf =>
           if decide (buf <> buffer_ c) then
             b ← load buf;
             if decide (0 < length_ b) then mret (inr false)
             else n ← next buf; mret (inl n)
           else mret (inr true)) buf).

(** ** Movement from element to element *)

Definition advanceDone (D : Derived) (c : Cursor) : Cursor :=
  match D with Cursor_ => c | RWCursor_ _ => with_maybeShared true c end.

Definition tryAdvanceBuffer (D : Derived) : Cur bool :=
  c ← self;
  nextBuf ← lift (next (crtBuf_ c));
  if decide (nextBuf = buffer_ c) then
    b ← lift (load (crtBuf_ c));
    set_cursor (with_offset (length_ b));;
    mret false
  else
    set_cursor (fun c => advanceDone D (with_crtBuf nextBuf (with_offset 0 c)));;
    mret true.

Definition tryRetreatBuffer (D : Derived) : Cur bool :=
  c ← self;
  if decide (crtBuf_ c = buffer_ c) then set_cursor (with_offset 0);; mret false
  else
    p ← lift (prev (crtBuf_ c));
    b ← lift (load p);
    set_cursor (fun c => advanceDone D (with_offset (length_ b) (with_crtBuf p c)));;
    mret true.

Definition advanceBufferIfEmpty (D : Derived) : Cur unit :=
  n ← Cursor_length;
  if decide (n = 0) then tryAdvanceBuffer D;; mret tt else mret tt.

Definition Cursor_advanceToEnd (D : Derived) : Cur unit :=
  c ← self;
  p ← lift (prev (buffer_ c));
  b ← lift (load p);
  set_cursor (with_offset (length_ b));;
  if decide (crtBuf_ c <> p) then set_cursor (fun c => advanceDone D (with_crtBuf p c))
  else mret tt.

(** ** Skipping *)

Definition skipAtMostSlow (D : Derived) (len : Z) : Cur Z :=
  fuel ← cur_fuel;
  iter fuel
    (fun '(len, skipped) =>
       available ← Cursor_length;
       if decide (available < len) then
         ok ← tryAdvanceBuffer D;
         if ok : bool then mret (inl (u64 (len - available), u64 (skipped + available)))
         else mret (inr (u64 (skipped + available)))
       else
         offset_add len;;
         advanceBufferIfEmpty D;;
         mret (inr (u64 (skipped + len)))) (len, 0).

Definition skipSlow (D : Derived) (len : Z) : Cur unit :=
  n ← skipAtMostSlow D len;
  if decide (n <> len) then throw (out_of_range "underflow") else mret tt.

Definition Cursor_skipAtMost (D : Derived) (len : Z) : Cur Z :=
  n ← Cursor_length;
  if decide (len <= n) then offset_add len;; advanceBufferIfEmpty D;; mret len
  else skipAtMostSlow D len.

Definition Cursor_skip (D : Derived) (len : Z) : Cur unit :=
  n ← Cursor_length;
  if decide (len <= n) then offset_add len;; advanceBufferIfEmpty D
  else skipSlow D len.

Definition retreatAtMostSlow (D : Derived) (len : Z) : Cur Z :=
  fuel ← cur_fuel;
  iter fuel
    (fun '(len, retreated) =>
       c ← self;
       let available := offset_ c in
       if decide (available < len) then
         ok ← tryRetreatBuffer D;
         if ok : bool then mret (inl (u64 (len - available), u64 (retreated + available)))
         else mret (inr (u64 (retreated + available)))
       else
         offset_sub len;;
         mret (inr (u64 (retreated + len)))) (len, 0).

Definition retreatSlow (D : Derived) (len : Z) : Cur unit :=
  n ← retreatAtMostSlow D len;
  if decide (n <> len) then throw (out_of_range "underflow") else mret tt.

Definition Cursor_retreatAtMost (D : Derived) (len : Z) : Cur Z :=
  c ← self;
  if decide (len <= offset_ c) then offset_sub len;; mret len
  else retreatAtMostSlow D len.

Definition Cursor_retreat (D : Derived) (len : Z) : Cur unit :=
  c ← self;
  if decide (len <= offset_ c) then offset_sub len
  else retreatSlow D len.

(** ** Reading *)

(** [memcpy(p, data(), len)] into memory of the caller. *)
Definition copy_out (len : Z) : Cur (list Z) := a ← Cursor_data; lift (load_bytes a len).

(** The number of bytes copied, and the bytes. *)
Definition pullAtMostSlow (D : Derived) (len : Z) : Cur (Z * list Z) :=
  fuel ← cur_fuel;
  iter fuel
    (fun '(len, copied, p) =>
       available ← Cursor_length;
       if decide (available < len) then
         bs ← copy_out available;
         ok ← tryAdvanceBuffer D;
         if ok : bool then mret (inl (u64 (len - available), u64 (copied + available), p ++ bs))
         else mret (inr (u64 (copied + available), p ++ bs))
       else
         bs ← copy_out len;
         offset_add len;;
         advanceBufferIfEmpty D;;
         mret (inr (u64 (copied + len), p ++ bs))) (len, 0, []).

Definition pullSlow (D : Derived) (len : Z) : Cur (list Z) :=
  '(n, bs) ← pullAtMostSlow D len;
  if decide (n <> len) then throw (out_of_range "underflow") else mret bs.

Definition Cursor_pullAtMost (D : Derived) (len : Z) : Cur (Z * list Z) :=
  n ← Cursor_length;
  if decide (len <= n) then
    bs ← copy_out len; offset_add len;; advanceBufferIfEmpty D;; mret (len, bs)
  else pullAtMostSlow D len.

Definition Cursor_pull (D : Derived) (len : Z) : Cur (list Z) :=
  n ← Cursor_length;
  if decide (len <= n) then
    bs ← copy_out len; offset_add len;; advanceBufferIfEmpty D;; mret bs
  else pullSlow D len.

(** [tryRead<T>(val)] for a [T] of [w] bits; the second result is the new value
    of [val], of which a failed read may have replaced some bytes. *)
Definition Cursor_tryRead (D : Derived) (w : Z) (val : Z) : Cur (bool * Z) :=
  n ← Cursor_length;
  if decide (w / 8 <= n) then
    bs ← copy_out (w / 8);
    offset_add (w / 8);; advanceBufferIfEmpty D;;
    mret (true, loadUnaligned w bs 0)
  else
    '(k, bs) ← pullAtMostSlow D (w / 8);
    mret (bool_decide (k = w / 8), of_bytes (overwrite 0 bs (to_bytes (Z.to_nat (w / 8)) val))).

Definition Cursor_tryReadBE (D : Derived) (w val : Z) : Cur (bool * Z) :=
  '(result, val) ← Cursor_tryRead D w val; mret (result, EndianInt_big w val).
Definition Cursor_tryReadLE (D : Derived) (w val : Z) : Cur (bool * Z) :=
  '(result, val) ← Cursor_tryRead D w val; mret (result, EndianInt_little w val).

Definition Cursor_read (D : Derived) (w : Z) : Cur Z :=
  '(ok, val) ← Cursor_tryRead D w 0;
  if ok : bool then mret val else throw (out_of_range "underflow").

Definition Cursor_readBE (D : Derived) (w : Z) : Cur Z :=
  v ← Cursor_read D w; mret (EndianInt_big w v).
Definition Cursor_readLE (D : Derived) (w : Z) : Cur Z :=
  v ← Cursor_read D w; mret (EndianInt_little w v).

Definition readFixedStringSlow (D : Derived) (len : Z) : Cur (list Z) :=
  fuel ← cur_fuel;
  iter fuel
    (fun '(len, str) =>
       available ← Cursor_length;
       if decide (available < len) then
         bs ← copy_out available;
         ok ← tryAdvanceBuffer D;
         if ok : bool then mret (inl (u64 (len - available), str ++ bs))
         else throw (out_of_range "string underflow")
       else
         bs ← copy_out len;
         offset_add len;;
         advanceBufferIfEmpty D;;
         mret (inr (str ++ bs))) (len, []).

Definition Cursor_readFixedString (D : Derived) (len : Z) : Cur (list Z) :=
  n ← Cursor_length;
  if decide (len <= n) then
    bs ← copy_out len; offset_add len;; advanceBufferIfEmpty D;; mret bs
  else readFixedStringSlow D len.

(** The address and the number of the bytes that can be read at once. *)
Definition Cursor_peekBytes (D : Derived) : Cur (addr * Z) :=
  fuel ← cur_fuel;
  available ← iter fuel
    (fun _ : unit =>
       available ← Cursor_length;
       if decide (available = 0) then
         ok ← tryAdvanceBuffer D;
         if ok : bool then mret (inl tt) else mret (inr available)
       else mret (inr available)) tt;
  a ← Cursor_data;
  mret (a, available).

Definition Cursor_peek (D : Derived) : Cur (addr * Z) := Cursor_peekBytes D.

(** ** Reading up to a condition

    A predicate may keep a state of its own and throw. *)

Section While.
Context {A : Type} (predicate : A -> Z -> Cur (A * bool)).

(** The inner loop: the index of the first byte that the predicate rejects. *)
Fixpoint readWhile_scan (a : A) (idx : Z) (bs : list Z) : Cur (A * option Z) :=
  match bs with
  | [] => mret (a, None)
  | b :: bs =>
      '(a, ok) ← predicate a b;
      if ok : bool then readWhile_scan a (idx + 1) bs else mret (a, Some idx)
  end.

(** The bytes appended to the output object are returned. *)
Definition Cursor_readWhile (D : Derived) (a : A) : Cur (A * list Z) :=
  fuel ← cur_fuel;
  iter fuel
    (fun '(a, out) =>
       '(p, available) ← Cursor_peekBytes D;
       if decide (available = 0) then mret (inr (a, out))
       else
         bs ← lift (load_bytes p available);
         '(a, found) ← readWhile_scan a 0 bs;
         match found with
         | Some idx => Cursor_skip D idx;; mret (inr (a, out ++ take (Z.to_nat idx) bs))
         | None => Cursor_skip D available;; mret (inl (a, out ++ bs))
         end) (a, []).

Definition Cursor_skipWhile (D : Derived) (a : A) : Cur A :=
  '(a, _) ← Cursor_readWhile D a; mret a.
End While.

(** The predicate of [readTerminatedString]: [byte] is a [uint8_t] and
    [termChar] a [char], compared as [int]s. *)
Definition keepReading (termChar maxLength : Z) (bytesRead byte : Z) : Cur (Z * bool) :=
  if decide (byte = sext 8 termChar) then mret (bytesRead, false)
  else
    let bytesRead := u64 (bytesRead + 1) in
    if decide (maxLength <= bytesRead) then throw (length_error "string overflow")
    else mret (bytesRead, true).

Definition Cursor_readTerminatedString (D : Derived) (termChar maxLength : Z) : Cur (list Z) :=
  '(_, result) ← Cursor_readWhile (keepReading termChar maxLength) D 0;
  e ← Cursor_isAtEnd;
  if e : bool then throw (out_of_range "terminator not found")
  else Cursor_skip D 1;; mret result.

(** ** Cloning *)

(** [cloneAtMost(IOBuf&, len)]: [buf] becomes a chain of clones of the elements
    passed, trimmed to the bytes passed. *)
Definition cloneAtMost_round (D : Derived) (buf : positive) (st : bool * Z * Z)
    : Cur (bool * Z * Z + Z) :=
  let '(first, copied, len) := st in
  available ← Cursor_length;
  c ← self;
  if decide (len <= available) then
    (if first : bool then
       lift (cloneOneInto (crtBuf_ c) buf);;
       lift (trimStart buf (offset_ c));;
       b ← lift (load buf);
       lift (trimEnd buf (u64 (length_ b - len)))
     else
       tmp ← lift (cloneOne (crtBuf_ c));
       lift (trimStart tmp (offset_ c));;
       b ← lift (load tmp);
       lift (trimEnd tmp (u64 (length_ b - len)));;
       lift (prependChain buf tmp));;
    offset_add len;;
    advanceBufferIfEmpty D;;
    mret (inr (u64 (copied + len)))
  else
    (if first : bool then
       lift (cloneOneInto (crtBuf_ c) buf);;
       lift (trimStart buf (offset_ c))
     else
       tmp ← lift (cloneOne (crtBuf_ c));
       lift (trimStart tmp (offset_ c));;
       lift (prependChain buf tmp));;
    ok ← tryAdvanceBuffer D;
    if ok : bool then mret (inl (false, u64 (copied + available), u64 (len - available)))
    else mret (inr (u64 (copied + available))).

Definition Cursor_cloneAtMost (D : Derived) (buf : positive) (len : Z) : Cur Z :=
  fuel ← cur_fuel; iter fuel (cloneAtMost_round D buf) (true, 0, len).

(** [cloneAtMost(unique_ptr<IOBuf>&, len)] returns the pointer too. *)
Definition Cursor_cloneAtMost_ptr (D : Derived) (buf : option positive) (len : Z) : Cur (positive * Z) :=
  p ← match buf with Some p => mret p | None => lift (make_unique ctor_default) end;
  n ← Cursor_cloneAtMost D p len;
  mret (p, n).

Definition Cursor_clone (D : Derived) (buf : positive) (len : Z) : Cur unit :=
  n ← Cursor_cloneAtMost D buf len;
  if decide (n <> len) then throw (out_of_range "underflow") else mret tt.

Definition Cursor_clone_ptr (D : Derived) (buf : option positive) (len : Z) : Cur positive :=
  '(p, n) ← Cursor_cloneAtMost_ptr D buf len;
  if decide (n <> len) then throw (out_of_range "underflow") else mret p.
