(* ===== verification/CursorRead.v ===== *)
(** * io/Cursor: the cursor as a position in a sequence of bytes

    The representation of a position by a cursor, and the lemmas that say how
    the reading methods move it.  None of them changes the memory. *)

From stdpp Require Import base list gmap strings.
From S2P Require Import Prelude IOBufMem IOBuf IOBufChain IOBufInv IOBufWf IOBufPrim IOBufWindow IOBufRead Bits Cursor.

#[local] Opaque chain.

(** [c] stands at an element of the chain [l] of its head, between the elements
    [dn] and the elements [todo]. *)
Record standing (h : Heap) (l : list positive) (c : Cursor) (dn todo : list positive) : Prop := {
  st_head : head l = Some (buffer_ c);
  st_split : l = dn ++ crtBuf_ c :: todo;
  st_offset : 0 <= offset_ c <= zlen (node_bytes h (crtBuf_ c)) }.

(** The bytes of the current element before and after the cursor. *)
Definition seen (h : Heap) (c : Cursor) : list Z := take (Z.to_nat (offset_ c)) (node_bytes h (crtBuf_ c)).
Definition left_ (h : Heap) (c : Cursor) : list Z := drop (Z.to_nat (offset_ c)) (node_bytes h (crtBuf_ c)).

(** The cursor divides the bytes of its chain [l] into [before] and [after]. *)
Definition cursor_rep (h : Heap) (l : list positive) (c : Cursor) (before after : list Z) : Prop :=
  exists dn todo, standing h l c dn todo /\
    before = chain_bytes h dn ++ seen h c /\ after = left_ h c ++ chain_bytes h todo.

(** The cursor has moved over (at most) [n] bytes, and nothing else happened. *)
Definition moved (h : Heap) (l : list positive) (before after : list Z) (n : Z) (s : Heap * Cursor) : Prop :=
  s.1 = h /\ cursor_rep h l s.2 (before ++ take (Z.to_nat n) after) (drop (Z.to_nat n) after).

Lemma cursor_rep_bytes h l c before after : cursor_rep h l c before after -> chain_bytes h l = before ++ after.
Proof.
  intros (dn & todo & Hs & -> & ->). rewrite (st_split _ _ _ _ _ Hs).
  rewrite chain_bytes_app, chain_bytes_cons. unfold seen, left_.
  rewrite <- (take_drop (Z.to_nat (offset_ c)) (node_bytes h (crtBuf_ c))) at 1.
  by rewrite <- !(assoc_L (++)).
Qed.

Section Rules.
Implicit Types (h : Heap) (c : Cursor).

Lemma wp_self h c (Q : Cursor -> _ -> Prop) E : Q c (h, c) -> wp self (h, c) Q E.
Proof. done. Qed.

Lemma wp_set_cursor f h c (Q : unit -> _ -> Prop) E : Q tt (h, f c) -> wp (set_cursor f) (h, c) Q E.
Proof. done. Qed.
End Rules.

Section Steps.
Context (h : Heap) (l : list positive) (Hw : wf h) (Hc : chain h l).
Implicit Types (c : Cursor) (dn todo : list positive) (p : positive) (D : Derived).

Lemma standing_in c dn todo : standing h l c dn todo -> crtBuf_ c ∈ l.
Proof. intros [_ -> _]. apply elem_of_app. right. by left. Qed.

(** The payload of the current element. *)
Lemma standing_payload c dn todo :
  standing h l c dn todo -> exists b, payloads h !! crtBuf_ c = Some b /\
    zlen (node_bytes h (crtBuf_ c)) = length_ b /\ 0 <= length_ b <= max_alloc.
Proof.
  intros Hs. destruct (chain_payload h l (crtBuf_ c) Hc) as [b Hb]; [by eapply standing_in|].
  exists b. split_and!; [done|by apply length_bytes|by eapply length_bound..].
Qed.

Lemma zlen_left c dn todo : standing h l c dn todo ->
  zlen (left_ h c) = zlen (node_bytes h (crtBuf_ c)) - offset_ c.
Proof. intros [_ _ Ho]. unfold left_, zlen in *. rewrite length_drop. lia. Qed.

Lemma wp_length c dn todo (Q : Z -> _ -> Prop) E :
  standing h l c dn todo -> Q (zlen (left_ h c)) (h, c) -> wp Cursor_length (h, c) Q E.
Proof.
  intros Hs HQ. destruct (standing_payload _ _ _ Hs) as (b & Hb & Hlen & Hbd).
  pose proof (st_offset _ _ _ _ _ Hs) as Ho. rewrite (zlen_left _ _ _ Hs), Hlen in HQ.
  rewrite Hlen in Ho. unfold max_alloc in Hbd. unfold Cursor_length.
  apply wp_bind, wp_self. apply wp_bind, wp_lift. eapply wp_load; [done|]. apply wp_ret.
  by rewrite u64_small by lia.
Qed.

(** The bytes after the cursor can be read in place. *)
Lemma load_at c dn todo b n (Q : list Z -> _ -> Prop) E :
  standing h l c dn todo -> payloads h !! crtBuf_ c = Some b -> 0 <= n <= zlen (left_ h c) ->
  Q (take (Z.to_nat n) (left_ h c)) h -> wp (load_bytes (padd (data_ b) (offset_ c)) n) h Q E.
Proof.
  intros Hs Hb Hn HQ. pose proof (st_offset _ _ _ _ _ Hs) as Ho.
  pose proof (length_bytes _ _ _ Hw Hb) as Hlen. rewrite (zlen_left _ _ _ Hs), Hlen in Hn.
  unfold left_ in HQ. rewrite (node_bytes_pay _ _ _ Hb) in HQ. unfold bytes in HQ.
  pose proof (wf_window _ _ _ Hw Hb) as (Hd & _ & _ & Hm). rewrite Hd in HQ.
  destruct (ablk (buf_ b)) as [k|] eqn:Hk.
  - destruct Hm as (bs & Hbs & ?). rewrite Hbs in HQ. simpl in HQ.
    rewrite drop_slice, take_slice in HQ by lia.
    eapply wp_load_bytes; [simpl; exact Hd|done|simpl; lia..|]. simpl. done.
  - destruct Hm as (Hz & _). assert (n = 0) as -> by lia. apply wp_load_nothing. exact HQ.
Qed.

Lemma wp_copy_out c dn todo n (Q : list Z -> _ -> Prop) E :
  standing h l c dn todo -> 0 <= n <= zlen (left_ h c) ->
  Q (take (Z.to_nat n) (left_ h c)) (h, c) -> wp (copy_out n) (h, c) Q E.
Proof.
  intros Hs Hn HQ. destruct (standing_payload _ _ _ Hs) as (b & Hb & _).
  unfold copy_out, Cursor_data. apply wp_bind, wp_bind, wp_self. apply wp_bind, wp_lift.
  eapply wp_load; [done|]. apply wp_ret. apply wp_lift. by eapply load_at.
Qed.

Lemma chain_nonempty c : head l = Some (buffer_ c) -> exists r, l = buffer_ c :: r.
Proof. destruct l as [|x r]; intros [= <-]. eauto. Qed.

(** Moving within the current element. *)
Lemma standing_offset c dn todo n :
  standing h l c dn todo -> 0 <= n <= zlen (node_bytes h (crtBuf_ c)) -> standing h l (with_offset n c) dn todo.
Proof. intros [H1 H2 _] Hn. by split. Qed.

Lemma standing_next D c dn y todo :
  standing h l c dn (y :: todo) ->
  standing h l (advanceDone D (with_crtBuf y (with_offset 0 c))) (dn ++ [crtBuf_ c]) todo.
Proof.
  intros [H1 H2 _]. pose proof (zlen_nonneg (node_bytes h y)).
  split; [by destruct D|by destruct D; rewrite <- (assoc_L (++))|by destruct D].
Qed.

Lemma next_of c dn todo :
  standing h l c dn todo -> nxt h (crtBuf_ c) = Some (default (buffer_ c) (head todo)).
Proof.
  intros [H1 H2 _]. destruct (chain_nonempty _ H1) as [r Hr].
  eapply (chain_succ h (buffer_ c) r dn); [by rewrite <- Hr|by rewrite <- Hr].
Qed.

Lemma todo_not_head c dn y todo : standing h l c dn (y :: todo) -> y <> buffer_ c.
Proof.
  intros [H1 H2 _] ->. destruct (chain_nonempty _ H1) as [r Hr]. pose proof (chain_NoDup _ _ Hc) as Hnd.
  rewrite H2 in Hnd. apply NoDup_app in Hnd as (_ & Hd & Hnd).
  destruct dn as [|z dn].
  - rewrite H2 in Hr. injection Hr as Heq _. apply NoDup_cons in Hnd as [Hn _]. apply Hn. rewrite Heq. by left.
  - rewrite H2 in Hr. injection Hr as -> _. apply (Hd (buffer_ c)); [by left|]. right. by left.
Qed.

Lemma wp_tryAdvance D c dn todo (Q : bool -> _ -> Prop) E :
  standing h l c dn todo ->
  (forall y todo', todo = y :: todo' -> Q true (h, advanceDone D (with_crtBuf y (with_offset 0 c)))) ->
  (todo = [] -> Q false (h, with_offset (zlen (node_bytes h (crtBuf_ c))) c)) ->
  wp (tryAdvanceBuffer D) (h, c) Q E.
Proof.
  intros Hs Ht Hf. destruct (standing_payload _ _ _ Hs) as (b & Hb & Hlen & _).
  unfold tryAdvanceBuffer. apply wp_bind, wp_self. apply wp_bind, wp_lift.
  eapply wp_next; [by eapply next_of|]. destruct todo as [|y todo]; simpl.
  - rewrite decide_True by done. apply wp_bind, wp_lift. eapply wp_load; [done|].
    apply wp_bind, wp_set_cursor. apply wp_ret. rewrite <- Hlen. by apply Hf.
  - rewrite decide_False by (by eapply todo_not_head). apply wp_bind, wp_set_cursor. apply wp_ret. by eapply Ht.
Qed.

(** The position does not change when the cursor moves to the next element. *)
Lemma rep_next D c dn y todo :
  standing h l c dn (y :: todo) ->
  let c' := advanceDone D (with_crtBuf y (with_offset 0 c)) in
  seen h c' = [] /\ left_ h c' = node_bytes h y.
Proof. by destruct D. Qed.

(** Taking [n] bytes of the current element. *)
Lemma rep_offset c dn todo n :
  standing h l c dn todo -> 0 <= n <= zlen (left_ h c) ->
  standing h l (with_offset (offset_ c + n) c) dn todo /\
  seen h (with_offset (offset_ c + n) c) = seen h c ++ take (Z.to_nat n) (left_ h c) /\
  left_ h (with_offset (offset_ c + n) c) = drop (Z.to_nat n) (left_ h c).
Proof.
  intros Hs Hn. pose proof (st_offset _ _ _ _ _ Hs) as Ho. rewrite (zlen_left _ _ _ Hs) in Hn.
  split_and!.
  - apply standing_offset; [done|lia].
  - unfold seen, left_. simpl. rewrite Z2Nat.inj_add by lia. symmetry. apply take_take_drop.
  - unfold left_. simpl. rewrite drop_drop. f_equal. lia.
Qed.

Lemma drop_zlen {T} (k : list T) n : zlen k <= n -> drop (Z.to_nat n) k = [].
Proof. intros. apply drop_ge. unfold zlen in *. lia. Qed.

Lemma take_zlen {T} (k : list T) n : zlen k <= n -> take (Z.to_nat n) k = k.
Proof. intros. apply take_ge. unfold zlen in *. lia. Qed.

(** [offset_ += n; advanceBufferIfEmpty()]. *)
Lemma wp_consume D c dn todo n (Q : unit -> _ -> Prop) E :
  standing h l c dn todo -> 0 <= n <= zlen (left_ h c) ->
  (forall c' dn' todo', standing h l c' dn' todo' ->
     chain_bytes h dn' ++ seen h c' = chain_bytes h dn ++ seen h c ++ take (Z.to_nat n) (left_ h c) ->
     left_ h c' ++ chain_bytes h todo' = drop (Z.to_nat n) (left_ h c) ++ chain_bytes h todo ->
     Q tt (h, c')) ->
  wp (offset_add n;; advanceBufferIfEmpty D) (h, c) Q E.
Proof.
  intros Hs Hn HQ. destruct (rep_offset c dn todo n Hs Hn) as (Hs1 & Hseen & Hleft).
  destruct (standing_payload _ _ _ Hs) as (b & _ & Hlen & Hbd). pose proof (st_offset _ _ _ _ _ Hs1) as Ho1.
  simpl in Ho1. unfold max_alloc in Hbd.
  apply wp_bind, wp_set_cursor. rewrite u64_small by lia. set (c1 := with_offset _ c) in *.
  unfold advanceBufferIfEmpty. apply wp_bind. eapply wp_length; [exact Hs1|].
  case_decide as Hz.
  - apply wp_bind. eapply wp_tryAdvance; [exact Hs1| |].
    + intros y todo' ->. destruct (rep_next D c1 dn y todo' Hs1) as [He Hl].
      assert (Hnil : left_ h c1 = []) by (by apply nil_length_inv; unfold zlen in Hz; lia).
      apply wp_ret. eapply HQ; [by apply standing_next| |].
      * assert (Hcur : seen h c1 = node_bytes h (crtBuf_ c1)).
        { rewrite <- (app_nil_r (seen h c1)), <- Hnil. apply take_drop. }
        rewrite He, app_nil_r, chain_bytes_snoc, <- Hcur, Hseen. done.
      * rewrite Hl. rewrite <- Hleft, Hnil. done.
    + intros ->. apply wp_ret. eapply (HQ _ dn []).
      * apply standing_offset; [done|]. pose proof (zlen_nonneg (node_bytes h (crtBuf_ c1))). lia.
      * rewrite (zlen_left _ _ _ Hs1) in Hz. replace (with_offset (zlen (node_bytes h (crtBuf_ c1))) c1) with c1.
        { by rewrite Hseen. }
        unfold c1, with_offset. f_equal. unfold c1 in Hz. simpl in *. lia.
      * rewrite (zlen_left _ _ _ Hs1) in Hz. replace (with_offset (zlen (node_bytes h (crtBuf_ c1))) c1) with c1.
        { by rewrite Hleft. }
        unfold c1, with_offset. f_equal. unfold c1 in Hz. simpl in *. lia.
  - apply wp_ret. eapply HQ; [exact Hs1|by rewrite Hseen|by rewrite Hleft].
Qed.
End Steps.

(** ** The loops that consume bytes *)

Section Walk.
Context (h : Heap) (l : list positive) (Hw : wf h) (Hc : chain h l) (D : Derived).
Context (c0 : Cursor) (before after : list Z) (N : Z).
Context (Hrep : cursor_rep h l c0 before after) (HN : 0 <= N < 2 ^ 64).

(** [taken] has been consumed out of [after], and [need] bytes are to be
    consumed; [k] elements of the chain lie ahead. *)
Definition walking (k : nat) (taken : list Z) (need : Z) (s : Heap * Cursor) : Prop :=
  s.1 = h /\ need = N - zlen taken /\ 0 <= need /\
  exists dn todo, k = length todo /\ standing h l s.2 dn todo /\
    chain_bytes h dn ++ seen h s.2 = before ++ taken /\
    taken ++ left_ h s.2 ++ chain_bytes h todo = after.

Lemma walking_init : exists k, (k < size (bufs h))%nat /\ walking k [] N (h, c0).
Proof.
  destruct Hrep as (dn & todo & Hs & Hb & Ha). pose proof (chain_size _ _ Hc) as Hsz.
  rewrite (st_split _ _ _ _ _ Hs), length_app in Hsz. simpl in Hsz.
  exists (length todo). split; [lia|]. split_and!; [done|rewrite zlen_nil; lia|lia|].
  exists dn, todo. split_and!; [done|done| |done]. by rewrite app_nil_r.
Qed.

Lemma walking_length k taken need c (Q : Z -> _ -> Prop) E :
  walking k taken need (h, c) -> Q (zlen (left_ h c)) (h, c) -> wp Cursor_length (h, c) Q E.
Proof. intros (_ & _ & _ & dn & todo & _ & Hs & _) HQ. by eapply wp_length. Qed.

Lemma walking_copy k taken need c n (Q : list Z -> _ -> Prop) E :
  walking k taken need (h, c) -> 0 <= n <= zlen (left_ h c) ->
  Q (take (Z.to_nat n) (left_ h c)) (h, c) -> wp (copy_out n) (h, c) Q E.
Proof. intros (_ & _ & _ & dn & todo & _ & Hs & _) Hn HQ. by eapply wp_copy_out. Qed.

Lemma zlen_take_le {T} (x : list T) n : 0 <= n <= zlen x -> zlen (take (Z.to_nat n) x) = n.
Proof. intros. unfold zlen in *. rewrite length_take. lia. Qed.

(** The current element does not suffice. *)
Lemma walking_advance k taken need c :
  walking k taken need (h, c) -> zlen (left_ h c) < need ->
  wp (tryAdvanceBuffer D) (h, c)
    (fun ok s =>
       if ok : bool then exists k', (k' < k)%nat /\ walking k' (taken ++ left_ h c) (need - zlen (left_ h c)) s
       else after = taken ++ left_ h c /\ zlen after < N /\ moved h l before after N s) nothrow.
Proof.
  intros (_ & Hneed & Hn0 & dn & todo & -> & Hs & Hb & Ha) Hlt. simpl in Hs, Hb, Ha.
  assert (Hcur : seen h c ++ left_ h c = node_bytes h (crtBuf_ c)) by apply take_drop.
  eapply wp_tryAdvance; [done..| |].
  - intros y todo' ->. destruct (rep_next h l D c dn y todo' Hs) as [He Hl].
    exists (length todo'). split; [simpl; lia|]. split_and!; [done|rewrite zlen_app; lia|lia|].
    exists (dn ++ [crtBuf_ c]), todo'. split_and!; [done|by apply standing_next| |].
    + simpl. rewrite He, app_nil_r, chain_bytes_snoc, <- Hcur, !(assoc_L (++)). by rewrite Hb.
    + simpl. by rewrite Hl, <- (assoc_L (++)).
  - intros ->. rewrite chain_bytes_nil, app_nil_r in Ha. subst after.
    assert (Hlen : zlen (taken ++ left_ h c) < N) by (rewrite zlen_app; lia).
    split_and!; [done|done|]. split; [done|]. simpl.
    rewrite take_zlen, drop_zlen by lia. exists dn, []. split_and!.
    + apply standing_offset; [done|]. pose proof (zlen_nonneg (node_bytes h (crtBuf_ c))). lia.
    + unfold seen at 1. simpl. rewrite take_zlen by done. rewrite <- Hcur, !(assoc_L (++)). by rewrite Hb.
    + unfold left_. simpl. by rewrite drop_zlen.
Qed.

(** The current element suffices. *)
Lemma walking_finish k taken need c :
  walking k taken need (h, c) -> need <= zlen (left_ h c) ->
  wp (offset_add need;; advanceBufferIfEmpty D) (h, c)
    (fun _ s => N <= zlen after /\ taken ++ take (Z.to_nat need) (left_ h c) = take (Z.to_nat N) after /\
       moved h l before after N s) nothrow.
Proof.
  intros (_ & Hneed & Hn0 & dn & todo & -> & Hs & Hb & Ha) Hle. simpl in Hs, Hb, Ha.
  eapply wp_consume; [done..|]. intros c' dn' todo' Hs' Hb' Ha'.
  assert (HNn : Z.to_nat N = (length taken + Z.to_nat need)%nat) by (unfold zlen in Hneed; lia).
  assert (Ht : taken ++ take (Z.to_nat need) (left_ h c) = take (Z.to_nat N) after).
  { rewrite <- Ha, HNn, take_app_add. f_equal. by rewrite take_app_le by (unfold zlen in Hle; lia). }
  split_and!; [|done|].
  - rewrite <- Ha, !zlen_app. pose proof (zlen_nonneg (chain_bytes h todo)). lia.
  - split; [done|]. exists dn', todo'. split_and!; [done| |].
    + simpl. rewrite Hb', !(assoc_L (++)), Hb, <- (assoc_L (++)). by rewrite Ht.
    + simpl. rewrite Ha', <- Ha, HNn, drop_app_add.
      by rewrite drop_app_le by (unfold zlen in Hle; lia).
Qed.

Lemma walking_small k taken need s : walking k taken need s -> zlen taken <= N /\ need = u64 need.
Proof.
  intros (_ & H1 & H2 & _). pose proof (zlen_nonneg taken). split; [lia|]. rewrite u64_small; lia.
Qed.
End Walk.

(** ** Reading, skipping *)

Section Reading.
Context (h : Heap) (l : list positive) (Hw : wf h) (Hc : chain h l) (D : Derived).
Context (c : Cursor) (before after : list Z) (N : Z).
Context (Hrep : cursor_rep h l c before after) (HN : 0 <= N < 2 ^ 64).

#[local] Abbreviation walks := (walking h l before after N).
#[local] Abbreviation moves := (moved h l before after).

(** The start of every fast path. *)
Lemma fast_path {B} (slow : Cur B) (fast : Cur B) (Q : B -> Heap * Cursor -> Prop) E :
  (forall k, walks k [] N (h, c) -> N <= zlen (left_ h c) -> wp fast (h, c) Q E) ->
  wp slow (h, c) Q E ->
  wp (n ← Cursor_length; if decide (N <= n) then fast else slow) (h, c) Q E.
Proof.
  intros Hf Hs. destruct (walking_init h l Hc c before after N Hrep HN) as (k & _ & Hk).
  apply wp_bind. eapply walking_length; [done..|]. case_decide; [by eapply Hf|done].
Qed.

Lemma skipAtMostSlow_wp :
  wp (skipAtMostSlow D N) (h, c) (fun r s => r = Z.min N (zlen after) /\ moves N s) nothrow.
Proof.
  destruct (walking_init h l Hc c before after N Hrep HN) as (k & Hk & Hi).
  unfold skipAtMostSlow. apply wp_bind, wp_gets.
  eapply (wp_iter _ (fun k '(need, skipped) s => exists taken, walks k taken need s /\ skipped = zlen taken))
    with (n := k); [|lia|by exists []].
  clear Hk Hi k. intros k [need skipped] [h' c'] (taken & Hi & ->).
  assert (h' = h) as -> by apply Hi. pose proof (walking_small _ _ _ _ _ HN _ _ _ _ Hi) as [Hle _].
  pose proof (zlen_nonneg taken) as Hz. pose proof Hi as (_ & Hneed & Hn0 & _).
  apply wp_bind. eapply walking_length; [done..|].
  pose proof (zlen_nonneg (left_ h c')) as Hl0. case_decide as Hlt.
  - apply wp_bind. eapply wp_wand; [by eapply walking_advance|]. rewrite !u64_small by lia.
    intros [] s Hs; apply wp_ret.
    + destruct Hs as (k' & Hk' & Hi'). exists k'. split; [done|]. eexists. split; [done|]. by rewrite zlen_app.
    + destruct Hs as (Ha & Hlen & Hm). split; [|done]. rewrite Z.min_r by lia. by rewrite Ha, zlen_app.
  - apply wp_assoc, wp_bind. eapply wp_wand; [eapply walking_finish; [done..|lia]|].
    intros [] s (HNa & _ & Hm). apply wp_ret. rewrite u64_small by lia. split; [lia|done].
Qed.

Lemma pullAtMostSlow_wp :
  wp (pullAtMostSlow D N) (h, c)
    (fun '(r, bs) s => r = Z.min N (zlen after) /\ bs = take (Z.to_nat N) after /\ moves N s) nothrow.
Proof.
  destruct (walking_init h l Hc c before after N Hrep HN) as (k & Hk & Hi).
  unfold pullAtMostSlow. apply wp_bind, wp_gets.
  eapply (wp_iter _ (fun k '(need, copied, p) s => walks k p need s /\ copied = zlen p))
    with (n := k); [|lia|done].
  clear Hk Hi k. intros k [[need copied] p] [h' c'] (Hi & ->).
  assert (h' = h) as -> by apply Hi. pose proof (walking_small _ _ _ _ _ HN _ _ _ _ Hi) as [Hle _].
  pose proof (zlen_nonneg p) as Hz. pose proof Hi as (_ & Hneed & Hn0 & _).
  apply wp_bind. eapply walking_length; [done..|].
  pose proof (zlen_nonneg (left_ h c')) as Hl0. case_decide as Hlt.
  - apply wp_bind. eapply walking_copy; [done..|lia|]. rewrite take_zlen by done.
    apply wp_bind. eapply wp_wand; [by eapply walking_advance|]. rewrite !u64_small by lia.
    intros [] s Hs; apply wp_ret.
    + destruct Hs as (k' & Hk' & Hi'). exists k'. split; [done|]. split; [done|]. by rewrite zlen_app.
    + destruct Hs as (Ha & Hlen & Hm). split_and!; [|by rewrite take_zlen by lia|done].
      rewrite Z.min_r by lia. by rewrite Ha, zlen_app.
  - apply wp_bind. eapply walking_copy; [done..|lia|].
    apply wp_assoc, wp_bind. eapply wp_wand; [eapply walking_finish; [done..|lia]|].
    intros [] s (HNa & Ht & Hm). apply wp_ret. rewrite u64_small by lia. split_and!; [lia|done|done].
Qed.

Lemma readFixedStringSlow_wp :
  wp (readFixedStringSlow D N) (h, c)
    (fun bs s => N <= zlen after /\ bs = take (Z.to_nat N) after /\ moves N s)
    (fun e s => e = out_of_range "string underflow" /\ zlen after < N /\ moves N s).
Proof.
  destruct (walking_init h l Hc c before after N Hrep HN) as (k & Hk & Hi).
  unfold readFixedStringSlow. apply wp_bind, wp_gets.
  eapply (wp_iter _ (fun k '(need, str) s => walks k str need s)) with (n := k); [|lia|done].
  clear Hk Hi k. intros k [need p] [h' c'] Hi.
  assert (h' = h) as -> by apply Hi. pose proof (walking_small _ _ _ _ _ HN _ _ _ _ Hi) as [Hle _].
  pose proof (zlen_nonneg p) as Hz. pose proof Hi as (_ & Hneed & Hn0 & _).
  apply wp_bind. eapply walking_length; [done..|].
  pose proof (zlen_nonneg (left_ h c')) as Hl0. case_decide as Hlt.
  - apply wp_bind. eapply walking_copy; [done..|lia|]. rewrite take_zlen by done.
    apply wp_bind. eapply wp_nothrow; [by eapply walking_advance|]. rewrite !u64_small by lia.
    intros [] s Hs.
    + apply wp_ret. destruct Hs as (k' & Hk' & Hi'). by exists k'.
    + apply wp_throw. destruct Hs as (Ha & Hlen & Hm). by split_and!.
  - apply wp_bind. eapply walking_copy; [done..|lia|].
    apply wp_assoc, wp_bind. eapply wp_nothrow; [eapply walking_finish; [done..|lia]|].
    intros [] s (HNa & Ht & Hm). apply wp_ret. by split_and!.
Qed.

(** The fast paths consume from the current element. *)
Lemma fast_consume k (Q : unit -> Heap * Cursor -> Prop) E :
  walks k [] N (h, c) -> N <= zlen (left_ h c) ->
  (forall s, N <= zlen after -> moves N s -> Q tt s) ->
  wp (offset_add N;; advanceBufferIfEmpty D) (h, c) Q E.
Proof.
  intros Hi Hle HQ. eapply wp_nothrow; [by eapply walking_finish|].
  intros [] s (HNa & _ & Hm). by apply HQ.
Qed.

Lemma fast_copy {B} k (f : list Z -> Cur B) (Q : B -> Heap * Cursor -> Prop) E :
  walks k [] N (h, c) -> N <= zlen (left_ h c) ->
  (forall s, N <= zlen after -> moves N s -> wp (f (take (Z.to_nat N) after)) s Q E) ->
  wp (bs ← copy_out N; offset_add N;; advanceBufferIfEmpty D;; f bs) (h, c) Q E.
Proof.
  intros Hi Hle HQ. apply wp_bind. eapply walking_copy; [done..|lia|].
  apply wp_assoc, wp_bind. eapply wp_nothrow; [by eapply walking_finish|].
  intros [] s (HNa & Ht & Hm). simpl in Ht. rewrite Ht. by apply HQ.
Qed.

Lemma skipAtMost_wp :
  wp (Cursor_skipAtMost D N) (h, c) (fun r s => r = Z.min N (zlen after) /\ moves N s) nothrow.
Proof.
  apply fast_path; [|apply skipAtMostSlow_wp]. intros k Hi Hle.
  apply wp_assoc, wp_bind. eapply fast_consume; [done..|]. intros s Hn Hm. apply wp_ret. split; [lia|done].
Qed.

Lemma skip_wp :
  wp (Cursor_skip D N) (h, c) (fun _ s => N <= zlen after /\ moves N s)
    (fun e s => e = out_of_range "underflow" /\ zlen after < N /\ moves N s).
Proof.
  apply fast_path.
  - intros k Hi Hle. by eapply fast_consume.
  - unfold skipSlow. apply wp_bind. eapply wp_nothrow; [apply skipAtMostSlow_wp|].
    intros r s (-> & Hm). case_decide; [apply wp_throw|apply wp_ret]; split_and!; try done; lia.
Qed.

Lemma pullAtMost_wp :
  wp (Cursor_pullAtMost D N) (h, c)
    (fun '(r, bs) s => r = Z.min N (zlen after) /\ bs = take (Z.to_nat N) after /\ moves N s) nothrow.
Proof.
  apply fast_path; [|apply pullAtMostSlow_wp]. intros k Hi Hle.
  eapply fast_copy; [done..|]. intros s Hn Hm. apply wp_ret. split_and!; [lia|done|done].
Qed.

Lemma pull_wp :
  wp (Cursor_pull D N) (h, c)
    (fun bs s => N <= zlen after /\ bs = take (Z.to_nat N) after /\ moves N s)
    (fun e s => e = out_of_range "underflow" /\ zlen after < N /\ moves N s).
Proof.
  apply fast_path.
  - intros k Hi Hle. eapply fast_copy; [done..|]. intros s Hn Hm. by apply wp_ret.
  - unfold pullSlow. apply wp_bind. eapply wp_nothrow; [apply pullAtMostSlow_wp|].
    intros [r bs] s (-> & -> & Hm). case_decide; [apply wp_throw|apply wp_ret]; split_and!; try done; lia.
Qed.

Lemma readFixedString_wp :
  wp (Cursor_readFixedString D N) (h, c)
    (fun bs s => N <= zlen after /\ bs = take (Z.to_nat N) after /\ moves N s)
    (fun e s => e = out_of_range "string underflow" /\ zlen after < N /\ moves N s).
Proof.
  apply fast_path; [|apply readFixedStringSlow_wp]. intros k Hi Hle.
  eapply fast_copy; [done..|]. intros s Hn Hm. by apply wp_ret.
Qed.
End Reading.

(** * io/Cursor: going back

    [retreat] and [retreatAtMost] move a cursor towards the head of its chain;
    they do to the bytes before it what reading does to the bytes after it. *)

#[local] Opaque chain.

(** The cursor has moved back over (at most) [n] bytes. *)
Definition moved_back (h : Heap) (l : list positive) (before after : list Z) (n : Z) (s : Heap * Cursor) : Prop :=
  s.1 = h /\ cursor_rep h l s.2 (take (Z.to_nat (zlen before - n)) before)
    (drop (Z.to_nat (zlen before - n)) before ++ after).

Section Back.
Context (h : Heap) (l : list positive) (Hw : wf h) (Hc : chain h l) (D : Derived).
Context (c0 : Cursor) (before after : list Z) (N : Z).
Context (Hrep : cursor_rep h l c0 before after) (HN : 0 <= N < 2 ^ 64).

(** The element before the current one. *)
Lemma prev_of c dn x todo :
  standing h l c (dn ++ [x]) todo -> prv h (crtBuf_ c) = Some x /\ crtBuf_ c <> buffer_ c.
Proof.
  intros [H1 H2 _]. rewrite <- (assoc_L (++)) in H2. simpl in H2. split.
  - pose proof Hc as Hrot. rewrite H2 in Hrot.
    change (x :: crtBuf_ c :: todo) with ([x] ++ crtBuf_ c :: todo) in Hrot. rewrite (assoc_L (++)) in Hrot.
    apply chain_rotate in Hrot; [|by destruct dn]. simpl in Hrot.
    rewrite (chain_pred _ _ _ Hrot). by rewrite (assoc_L (++)), last_snoc.
  - intros Heq. pose proof (chain_NoDup _ _ Hc) as Hnd. rewrite H2 in Hnd, H1.
    apply NoDup_app in Hnd as (_ & Hd & Hnd). apply NoDup_cons in Hnd as [Hnd _].
    destruct dn as [|y dn]; simpl in H1; injection H1 as H1.
    + apply Hnd. rewrite H1, <- Heq. by left.
    + apply (Hd y); [by left|]. rewrite H1, <- Heq. right. by left.
Qed.

Lemma at_head_only c todo : standing h l c [] todo -> crtBuf_ c = buffer_ c.
Proof. intros [H1 H2 _]. rewrite H2 in H1. by injection H1. Qed.

Definition retreating (k : nat) (taken : list Z) (need : Z) (s : Heap * Cursor) : Prop :=
  s.1 = h /\ need = N - zlen taken /\ 0 <= need /\
  exists dn todo, k = length dn /\ standing h l s.2 dn todo /\
    chain_bytes h dn ++ seen h s.2 ++ taken = before /\
    left_ h s.2 ++ chain_bytes h todo = taken ++ after.

Lemma retreating_init : exists k, (k < size (bufs h))%nat /\ retreating k [] N (h, c0).
Proof.
  destruct Hrep as (dn & todo & Hs & Hb & Ha). pose proof (chain_size _ _ Hc) as Hsz.
  rewrite (st_split _ _ _ _ _ Hs), length_app in Hsz. simpl in Hsz.
  exists (length dn). split; [lia|]. split_and!; [done|rewrite zlen_nil; lia|lia|].
  exists dn, todo. split_and!; [done|done| |done]. by rewrite app_nil_r.
Qed.

Lemma zlen_seen c dn todo : standing h l c dn todo -> zlen (seen h c) = offset_ c.
Proof. intros [_ _ Ho]. unfold seen. by rewrite zlen_take_le. Qed.

(** The bytes before the cursor in its element do not suffice. *)
Lemma retreating_more k taken need c :
  retreating k taken need (h, c) -> offset_ c < need ->
  wp (tryRetreatBuffer D) (h, c)
    (fun ok s =>
       if ok : bool then exists k', (k' < k)%nat /\ retreating k' (seen h c ++ taken) (need - offset_ c) s
       else zlen before = offset_ c + zlen taken /\ zlen before < N /\ moved_back h l before after N s) nothrow.
Proof.
  intros (_ & Hneed & Hn0 & dn & todo & -> & Hs & Hb & Ha) Hlt. simpl in Hs, Hb, Ha.
  pose proof (zlen_seen _ _ _ Hs) as Hzs. unfold tryRetreatBuffer. apply wp_bind, wp_self.
  destruct dn as [|x dn _] using rev_ind.
  - rewrite decide_True by (by eapply at_head_only). apply wp_bind, wp_set_cursor. apply wp_ret.
    simpl in Hb. assert (Hz : zlen before = offset_ c + zlen taken) by (rewrite <- Hb, zlen_app; lia).
    split_and!; [done|lia|]. split; [done|]. exists [], todo. rewrite Z2Nat.nonpos by lia. split_and!.
    + apply standing_offset; [done|]. pose proof (zlen_nonneg (node_bytes h (crtBuf_ c))). lia.
    + done.
    + unfold left_. simpl. rewrite drop_0, <- Hb, <- !(assoc_L (++)), <- Ha. unfold seen, left_.
      by rewrite (assoc_L (++)), take_drop.
  - destruct (prev_of _ _ _ _ Hs) as [Hp Hne]. rewrite decide_False by done.
    apply wp_bind, wp_lift. eapply wp_prev; [done|].
    assert (Hx : x ∈ l).
    { rewrite (st_split _ _ _ _ _ Hs), !elem_of_app. left. right. by left. }
    destruct (chain_payload h l x Hc Hx) as [b Hb']. pose proof (length_bytes _ _ _ Hw Hb') as Hlen.
    apply wp_bind, wp_lift. eapply wp_load; [done|]. apply wp_bind, wp_set_cursor. apply wp_ret.
    exists (length dn). split; [rewrite length_app; simpl; lia|].
    split_and!; [done|rewrite zlen_app; lia|lia|]. exists dn, (crtBuf_ c :: todo).
    set (c' := advanceDone _ _). assert (Hc' : crtBuf_ c' = x /\ offset_ c' = length_ b /\ buffer_ c' = buffer_ c)
      by (by destruct D). destruct Hc' as (H1 & H2 & H3).
    assert (Hseen : seen h c' = node_bytes h x) by (unfold seen; by rewrite H1, H2, <- Hlen, take_zlen).
    assert (Hleft : left_ h c' = []) by (unfold left_; by rewrite H1, H2, <- Hlen, drop_zlen).
    split_and!; [done| | |].
    + pose proof (zlen_nonneg (node_bytes h x)). destruct Hs as [Hh Hsp _]. split; simpl.
      * by rewrite H3.
      * by rewrite H1, Hsp, <- (assoc_L (++)).
      * rewrite H1, H2. lia.
    + simpl. rewrite Hseen. rewrite <- Hb, chain_bytes_snoc, <- !(assoc_L (++)). done.
    + simpl. rewrite Hleft, chain_bytes_cons. simpl. rewrite <- (assoc_L (++)), <- Ha.
      unfold seen, left_. by rewrite (assoc_L (++)), take_drop.
Qed.

(** They do. *)
Lemma retreating_finish k taken need c :
  retreating k taken need (h, c) -> need <= offset_ c ->
  wp (offset_sub need) (h, c) (fun _ s => N <= zlen before /\ moved_back h l before after N s) nothrow.
Proof.
  intros (_ & Hneed & Hn0 & dn & todo & -> & Hs & Hb & Ha) Hle. simpl in Hs, Hb, Ha.
  pose proof (zlen_seen _ _ _ Hs) as Hzs. pose proof (st_offset _ _ _ _ _ Hs) as Ho.
  destruct (standing_payload h l Hw Hc _ _ _ Hs) as (b & _ & Hlen & Hbd). unfold max_alloc in Hbd.
  apply wp_set_cursor. rewrite u64_small by lia.
  assert (Hz : zlen before = zlen (chain_bytes h dn) + offset_ c + zlen taken) by (rewrite <- Hb, !zlen_app; lia).
  pose proof (zlen_nonneg (chain_bytes h dn)) as Hd0. split; [lia|]. split; [done|].
  set (c' := with_offset _ c).
  assert (Hsplit : seen h c = seen h c' ++ drop (Z.to_nat (offset_ c - need)) (seen h c)).
  { rewrite <- (take_drop (Z.to_nat (offset_ c - need)) (seen h c)) at 1. f_equal.
    unfold seen, c'. simpl. rewrite take_take. f_equal. lia. }
  assert (Hcut : take (Z.to_nat (zlen before - N)) before = chain_bytes h dn ++ seen h c' /\
                 drop (Z.to_nat (zlen before - N)) before = drop (Z.to_nat (offset_ c - need)) (seen h c) ++ taken).
  { assert (Heq : before = (chain_bytes h dn ++ seen h c') ++
                    (drop (Z.to_nat (offset_ c - need)) (seen h c) ++ taken)).
    { rewrite <- Hb, Hsplit at 1. by rewrite <- !(assoc_L (++)). }
    assert (Hlen' : Z.to_nat (zlen before - N) = length (chain_bytes h dn ++ seen h c')).
    { rewrite length_app. unfold seen, c'. simpl. rewrite length_take. unfold zlen in *. lia. }
    rewrite Hlen'. split; rewrite Heq; [apply take_app_length|apply drop_app_length]. }
  destruct Hcut as [-> ->]. exists dn, todo. split_and!; [|done|].
  - apply standing_offset; [done|lia].
  - rewrite <- (assoc_L (++)), <- Ha, (assoc_L (++)). f_equal.
    unfold left_, seen, c'. simpl. rewrite skipn_firstn_comm.
    rewrite <- (take_drop (Z.to_nat (offset_ c) - Z.to_nat (offset_ c - need))
                  (drop (Z.to_nat (offset_ c - need)) (node_bytes h (crtBuf_ c)))) at 2.
    f_equal. rewrite drop_drop. f_equal. lia.
Qed.

Lemma retreatAtMostSlow_wp :
  wp (retreatAtMostSlow D N) (h, c0)
    (fun r s => r = Z.min N (zlen before) /\ moved_back h l before after N s) nothrow.
Proof.
  destruct retreating_init as (k & Hk & Hi). unfold retreatAtMostSlow. apply wp_bind, wp_gets.
  eapply (wp_iter _ (fun k '(need, done) s => exists taken, retreating k taken need s /\ done = zlen taken))
    with (n := k); [|lia|by exists []].
  clear Hk Hi k. intros k [need dd] [h' c'] (taken & Hi & ->).
  assert (h' = h) as -> by apply Hi. pose proof (zlen_nonneg taken) as Hz.
  pose proof Hi as (_ & Hneed & Hn0 & dn & todo & _ & Hs & _). simpl in Hs.
  pose proof (st_offset _ _ _ _ _ Hs) as Ho. apply wp_bind, wp_self. case_decide as Hlt.
  - apply wp_bind. eapply wp_wand; [by eapply retreating_more|]. rewrite !u64_small by lia.
    intros [] s Hs'; apply wp_ret.
    + destruct Hs' as (k' & Hk' & Hi'). exists k'. split; [done|]. eexists. split; [done|].
      rewrite zlen_app, (zlen_seen _ _ _ Hs). lia.
    + destruct Hs' as (Ha & Hlen & Hm). split; [|done]. lia.
  - apply wp_bind. eapply wp_wand; [eapply retreating_finish; [done..|lia]|].
    intros [] s (HNa & Hm). apply wp_ret. rewrite u64_small by lia. split; [lia|done].
Qed.

Lemma retreat_fast {B} (slow fast : Cur B) Q E :
  (forall k, retreating k [] N (h, c0) -> N <= offset_ c0 -> wp fast (h, c0) Q E) ->
  wp slow (h, c0) Q E ->
  wp (c ← self; if decide (N <= offset_ c) then fast else slow) (h, c0) Q E.
Proof.
  intros Hf Hs. destruct retreating_init as (k & _ & Hk).
  apply wp_bind, wp_self. case_decide; [by eapply Hf|done].
Qed.

Lemma retreatAtMost_wp :
  wp (Cursor_retreatAtMost D N) (h, c0)
    (fun r s => r = Z.min N (zlen before) /\ moved_back h l before after N s) nothrow.
Proof.
  apply retreat_fast; [|apply retreatAtMostSlow_wp]. intros k Hi Hle.
  apply wp_bind. eapply wp_wand; [by eapply retreating_finish|]. intros [] s (Hn & Hm).
  apply wp_ret. split; [lia|done].
Qed.

Lemma retreat_wp :
  wp (Cursor_retreat D N) (h, c0) (fun _ s => N <= zlen before /\ moved_back h l before after N s)
    (fun e s => e = out_of_range "underflow" /\ zlen before < N /\ moved_back h l before after N s).
Proof.
  apply retreat_fast.
  - intros k Hi Hle. eapply wp_nothrow; [by eapply retreating_finish|]. done.
  - unfold retreatSlow. apply wp_bind. eapply wp_nothrow; [apply retreatAtMostSlow_wp|].
    intros r s (-> & Hm). case_decide; [apply wp_throw|apply wp_ret]; split_and!; try done; lia.
Qed.
End Back.
