(* ===== verification/CursorInspect.v ===== *)
(** * io/Cursor: inspection

    The methods that only look: distances, the remaining length, the end. *)

From stdpp Require Import base list gmap strings.
From S2P Require Import Prelude IOBufMem IOBuf IOBufChain IOBufInv IOBufWf IOBufPrim IOBufWindow IOBufRead Bits Cursor CursorRead.

#[local] Opaque chain.

Section Inspect.
Context (h : Heap) (l : list positive) (Hw : wf h) (Hc : chain h l).
Implicit Types (c : Cursor) (dn todo : list positive) (p x : positive).

(** The elements of the chain, as seen by a loop that follows [next]. *)
Lemma element x dn p todo :
  head l = Some x -> l = dn ++ p :: todo ->
  (exists b, payloads h !! p = Some b /\ zlen (node_bytes h p) = length_ b /\ 0 <= length_ b <= max_alloc) /\
  nxt h p = Some (default x (head todo)) /\ (forall y todo', todo = y :: todo' -> y <> x).
Proof.
  intros Hx Hl. assert (Hs : standing h l (mkCursor p 0 x true) dn todo).
  { split; [done|done|]. pose proof (zlen_nonneg (node_bytes h p)). simpl. lia. }
  split_and!.
  - exact (standing_payload h l Hw Hc _ _ _ Hs).
  - exact (next_of h l Hc _ _ _ Hs).
  - intros y todo' ->. exact (todo_not_head h l Hc _ _ _ _ Hs).
Qed.

Lemma standing_fuel c dn todo : standing h l c dn todo -> (length dn + length todo < size (bufs h))%nat.
Proof.
  intros Hs. pose proof (chain_size _ _ Hc) as Hsz.
  rewrite (st_split _ _ _ _ _ Hs), length_app in Hsz. simpl in Hsz. lia.
Qed.

Lemma canAdvance_wp c before after N :
  cursor_rep h l c before after -> 0 <= N < 2 ^ 64 ->
  wp (Cursor_canAdvance N) (h, c) (fun r s => r = bool_decide (N <= zlen after) /\ s = (h, c)) nothrow.
Proof.
  intros (dn & todo & Hs & _ & ->) HN. unfold Cursor_canAdvance. apply wp_bind, wp_self.
  apply wp_bind. eapply wp_length; [done..|]. apply wp_bind, wp_gets. apply wp_lift.
  pose proof (standing_fuel _ _ _ Hs). pose proof (zlen_nonneg (left_ h c)). rewrite zlen_app.
  eapply (wp_iter _ (fun k '(p, av, am) h' => h' = h /\ 0 <= av /\ 0 <= am < 2 ^ 64 /\
    exists dn2 todo2, k = length todo2 /\ l = dn2 ++ p :: todo2 /\
      (N <= zlen (left_ h c) + zlen (chain_bytes h todo) <-> am <= av + zlen (chain_bytes h todo2))))
    with (n := length todo); [|lia|].
  2:{ split_and!; try done; try lia. exists dn, todo. split_and!; [done|apply Hs|done]. }
  clear - Hw Hc Hs HN. intros k [[p av] am] h' (-> & Hav & Ham & dn2 & todo2 & -> & Hl & Hiff).
  destruct (element _ _ _ _ (st_head _ _ _ _ _ Hs) Hl) as (_ & Hn & Hne).
  pose proof (zlen_nonneg (chain_bytes h todo2)) as Hz. case_decide as Hle.
  { apply wp_ret. split; [|done]. symmetry. apply bool_decide_eq_true. apply Hiff. lia. }
  apply wp_bind. eapply wp_next; [done|].
  assert (Hnp : default (buffer_ c) (head todo2) ∈ l).
  { destruct todo2 as [|y todo2]; simpl.
    - destruct (chain_nonempty h l Hc c (st_head _ _ _ _ _ Hs)) as [r ->]. by left.
    - rewrite Hl. apply elem_of_app. right. right. by left. }
  destruct (chain_payload h l _ Hc Hnp) as [b Hb]. apply wp_bind. eapply wp_load; [done|].
  destruct todo2 as [|y todo2]; simpl.
  - rewrite decide_False by naive_solver. apply wp_ret. split; [|done]. symmetry.
    apply bool_decide_eq_false. rewrite Hiff, chain_bytes_nil, zlen_nil. lia.
  - rewrite decide_True by (by eapply Hne). apply wp_ret. simpl in Hb.
    pose proof (length_bytes _ _ _ Hw Hb) as Hlen. pose proof (length_bound _ _ _ Hw Hb).
    exists (length todo2). split; [lia|]. rewrite u64_small by lia. split_and!; [done|lia|lia|lia|].
    exists (dn2 ++ [p]), todo2. split_and!; [done|by rewrite Hl, <- (assoc_L (++))|].
    rewrite Hiff, chain_bytes_cons, zlen_app. lia.
Qed.

Lemma nil_zlen {T} (k : list T) : k = [] <-> zlen k = 0.
Proof. split; [by intros ->|]. intros Hz. apply nil_length_inv. unfold zlen in Hz. lia. Qed.

Lemma isAtEnd_wp c before after :
  cursor_rep h l c before after ->
  wp Cursor_isAtEnd (h, c) (fun r s => r = bool_decide (after = []) /\ s = (h, c)) nothrow.
Proof.
  intros (dn & todo & Hs & _ & ->). destruct (standing_payload h l Hw Hc _ _ _ Hs) as (b & Hb & Hlen & _).
  pose proof (zlen_left h l _ _ _ Hs) as Hzl. pose proof (standing_fuel _ _ _ Hs) as Hfuel.
  unfold Cursor_isAtEnd. apply wp_bind, wp_self. apply wp_bind, wp_lift. eapply wp_load; [done|].
  case_decide as Ho.
  { apply wp_ret. split; [|done]. symmetry. apply bool_decide_eq_false. rewrite nil_zlen, zlen_app.
    pose proof (zlen_nonneg (chain_bytes h todo)). pose proof (zlen_nonneg (left_ h c)). lia. }
  assert (Hnil : left_ h c = []) by (apply nil_zlen; lia). rewrite Hnil. simpl.
  destruct (chain_nonempty h l Hc c (st_head _ _ _ _ _ Hs)) as [r Hr].
  apply wp_bind, wp_lift. eapply wp_prev; [apply chain_pred; by rewrite <- Hr|].
  assert (Hlast : default (buffer_ c) (last r) = default (crtBuf_ c) (last todo)).
  { assert (last l = Some (default (buffer_ c) (last r))) as H1.
    { rewrite Hr. by destruct r as [|y r _] using rev_ind; [|rewrite app_comm_cons, !last_snoc]. }
    rewrite (st_split _ _ _ _ _ Hs), last_app in H1.
    destruct todo as [|y todo _] using rev_ind; [by injection H1|].
    rewrite app_comm_cons, last_snoc in H1. rewrite last_snoc. by injection H1. }
  rewrite Hlast. case_decide as Hcl.
  { apply wp_ret. split; [|done]. symmetry. apply bool_decide_eq_true.
    destruct todo as [|y todo _] using rev_ind; [done|]. rewrite last_snoc in Hcl. exfalso.
    pose proof (chain_NoDup _ _ Hc) as Hnd. rewrite (st_split _ _ _ _ _ Hs) in Hnd.
    apply NoDup_app in Hnd as (_ & _ & Hnd). apply NoDup_cons in Hnd as [Hnd _]. apply Hnd.
    simpl in Hcl. rewrite Hcl at 1. apply elem_of_app. right. by left. }
  apply wp_bind, wp_lift. eapply wp_next; [by eapply next_of|]. apply wp_bind, wp_gets. apply wp_lift.
  eapply (wp_iter _ (fun k p h' => h' = h /\ exists dn2 todo2, k = length todo2 /\
    p = default (buffer_ c) (head todo2) /\ l = dn2 ++ todo2 /\ dn2 <> [] /\
    chain_bytes h todo2 = chain_bytes h todo)) with (n := length todo); [|lia|].
  2:{ split; [done|]. exists (dn ++ [crtBuf_ c]), todo.
      split_and!; [done|done|by rewrite <- (assoc_L (++)); apply Hs|by destruct dn|done]. }
  clear - Hw Hc Hs. intros k p h' (-> & dn2 & todo2 & -> & -> & Hl & Hdn & Hby). destruct todo2 as [|y todo2]; simpl.
  - rewrite decide_False by naive_solver. apply wp_ret. split; [|done]. symmetry.
    apply bool_decide_eq_true. by rewrite <- Hby.
  - destruct (element _ _ _ _ (st_head _ _ _ _ _ Hs) Hl) as ((b & Hb & Hlen & Hbd) & Hn & _).
    destruct (exists_last Hdn) as (dn3 & z & ->).
    assert (Hyx : y <> buffer_ c).
    { rewrite <- (assoc_L (++)) in Hl. simpl in Hl.
      destruct (element _ _ _ _ (st_head _ _ _ _ _ Hs) Hl) as (_ & _ & Hne). by eapply Hne. }
    rewrite decide_True by done. apply wp_bind. eapply wp_load; [done|]. case_decide as Hpos.
    + apply wp_ret. split; [|done]. symmetry. apply bool_decide_eq_false. rewrite <- Hby, chain_bytes_cons, nil_zlen, zlen_app.
      pose proof (zlen_nonneg (chain_bytes h todo2)). lia.
    + apply wp_bind. eapply wp_next; [done|]. apply wp_ret. exists (length todo2). split; [lia|]. split; [done|].
      exists ((dn3 ++ [z]) ++ [y]), todo2. split_and!; [done|done|by rewrite Hl, <- (assoc_L (++) (dn3 ++ [z]))|by destruct dn3|].
      rewrite <- Hby, chain_bytes_cons. assert (node_bytes h y = []) as -> by (apply nil_zlen; lia). done.
Qed.

(** ** Distances *)

(** Elements after the first are not the head. *)
Lemma later_not_head x dn p todo : head l = Some x -> l = dn ++ p :: todo -> dn <> [] -> p <> x.
Proof.
  intros Hx Hl Hdn. destruct (exists_last Hdn) as (dn' & z & ->).
  rewrite <- (assoc_L (++)) in Hl. simpl in Hl.
  destruct (element _ _ _ _ Hx Hl) as (_ & _ & Hne). by eapply Hne.
Qed.

(** The loop of [operator-] adds up the elements [mid] that lie between. *)
Lemma diff_loop x stop dn mid rest n0 :
  head l = Some x -> l = dn ++ mid ++ rest -> dn <> [] -> stop ∉ mid ->
  (rest = [] \/ exists t, rest = stop :: t) ->
  wp (iter (S (size (bufs h)))
        (fun '(otherBuf, len) =>
           if decide (otherBuf <> stop /\ otherBuf <> x) then
             b ← load otherBuf; n ← next otherBuf; mret (inl (n, u64 (len + length_ b)))
           else mret (inr (otherBuf, len))) (default x (head (mid ++ rest)), u64 n0)) h
    (fun '(p, len) h' => h' = h /\ p = default x (head rest) /\ len = u64 (n0 + zlen (chain_bytes h mid))) nothrow.
Proof.
  intros Hx Hl Hdn Hstop Hrest. pose proof (chain_size _ _ Hc) as Hsz.
  rewrite Hl, !length_app in Hsz.
  eapply (wp_iter _ (fun k '(p, len) h' => h' = h /\ exists m1 m2, k = length m2 /\ mid = m1 ++ m2 /\
    p = default x (head (m2 ++ rest)) /\ len = u64 (n0 + zlen (chain_bytes h m1)))) with (n := length mid); [|lia|].
  2:{ split; [done|]. exists [], mid. split_and!; try done. rewrite chain_bytes_nil, zlen_nil. f_equal. lia. }
  intros k [p len] h' (-> & m1 & m2 & -> & -> & -> & ->). destruct m2 as [|y m2]; simpl.
  - rewrite decide_False.
    { apply wp_ret. by rewrite app_nil_r. }
    destruct Hrest as [->|[t ->]]; simpl; naive_solver.
  - assert (Hly : l = (dn ++ m1) ++ y :: m2 ++ rest) by (rewrite Hl, <- !(assoc_L (++)); done).
    destruct (element _ _ _ _ Hx Hly) as ((b & Hb & Hlen & Hbd) & Hn & _).
    rewrite decide_True.
    2:{ split.
        - intros ->. apply Hstop, elem_of_app. right. by left.
        - eapply later_not_head; [done|exact Hly|by destruct dn]. }
    apply wp_bind. eapply wp_load; [done|]. apply wp_bind. eapply wp_next; [done|]. apply wp_ret.
    exists (length m2). split; [lia|]. split; [done|]. exists (m1 ++ [y]), m2.
    split_and!; [done|by rewrite <- (assoc_L (++))|done|].
    rewrite wrap_add, chain_bytes_snoc, zlen_app by done. f_equal. lia.
Qed.

(** Two positions in a list without duplicates. *)
Lemma split_compare (x y : positive) d1 t1 d2 t2 :
  NoDup (d1 ++ x :: t1) -> d1 ++ x :: t1 = d2 ++ y :: t2 ->
  (x = y /\ d1 = d2) \/ (x <> y /\ exists m, d1 = d2 ++ y :: m) \/ (x <> y /\ exists m, d2 = d1 ++ x :: m).
Proof.
  revert d2. induction d1 as [|z d1 IH]; intros d2 Hnd Heq.
  - destruct d2 as [|w d2]; simplify_eq/=; [by left|]. right. right. split; [|by exists d2].
    intros ->. apply NoDup_cons in Hnd as [Hn _]. apply Hn, elem_of_app. right. by left.
  - destruct d2 as [|w d2]; injection Heq as Hz Heq; simpl in Hnd; subst.
    + right. left. split; [|by exists d1]. intros ->. apply NoDup_cons in Hnd as [Hn _].
      apply Hn, elem_of_app. right. by left.
    + apply NoDup_cons in Hnd as [_ Hnd].
      destruct (IH d2 Hnd Heq) as [[? ->]|[[? [m ->]]|[? [m ->]]]]; eauto 10.
Qed.

Lemma diff_standing_wp this other dn1 todo1 dn2 todo2 :
  standing h l this dn1 todo1 -> standing h l other dn2 todo2 ->
  let b1 := chain_bytes h dn1 ++ seen h this in
  let b2 := chain_bytes h dn2 ++ seen h other in
  wp (Cursor_diff this other) h
    (fun r h' => h' = h /\ zlen b2 <= zlen b1 /\ r = u64 (zlen b1 - zlen b2))
    (fun e h' => h' = h /\ zlen b1 <= zlen b2 /\
       (e = out_of_range "underflow" /\ dn1 = dn2 /\ offset_ this < offset_ other \/
        e = out_of_range "wrap-around" /\ crtBuf_ this ∈ dn2)).
Proof.
  intros Hs1 Hs2 b1 b2. unfold b1, b2. clear b1 b2.
  pose proof (zlen_seen h l _ _ _ Hs1) as Hz1. pose proof (zlen_seen h l _ _ _ Hs2) as Hz2.
  rewrite !zlen_app, Hz1, Hz2.
  destruct (standing_payload h l Hw Hc _ _ _ Hs2) as (c2 & Hc2 & Hlen2 & Hbd2).
  pose proof (st_offset _ _ _ _ _ Hs1) as Ho1. pose proof (st_offset _ _ _ _ _ Hs2) as Ho2.
  pose proof (chain_NoDup _ _ Hc) as Hnd. pose proof (st_head _ _ _ _ _ Hs2) as Hx.
  pose proof (st_split _ _ _ _ _ Hs1) as Hl1. pose proof (st_split _ _ _ _ _ Hs2) as Hl2.
  assert (Hl2' : l = (dn2 ++ [crtBuf_ other]) ++ todo2) by (rewrite <- (assoc_L (++)); done).
  assert (Hdn : dn2 ++ [crtBuf_ other] <> []) by (by destruct dn2).
  unfold Cursor_diff.
  destruct (split_compare (crtBuf_ other) (crtBuf_ this) dn2 todo2 dn1 todo1) as
    [[Heq ->]|[[Hne [m Hm]]|[Hne [m Hm]]]]; [by rewrite <- Hl2|congruence|..].
  - rewrite decide_False by naive_solver.
    case_decide; [apply wp_throw; split_and!; [done|lia|by left]|].
    apply wp_ret. split_and!; [done|lia|]. f_equal. lia.
  - rewrite decide_True by done.
    apply wp_bind. eapply wp_load; [done|]. apply wp_bind. eapply wp_next; [by eapply next_of|].
    apply wp_bind, wp_get. apply wp_bind.
    assert (Hst : crtBuf_ this ∉ todo2).
    { rewrite Hl2, Hm, <- (assoc_L (++)) in Hnd. apply NoDup_app in Hnd as (_ & _ & Hnd).
      apply NoDup_cons in Hnd as [Hn _]. intros Hin. apply Hn. apply elem_of_app. right. by right. }
    rewrite <- (app_nil_r todo2) in Hl2' |- *.
    eapply wp_nothrow; [apply (diff_loop _ _ _ todo2 [] _ Hx Hl2' Hdn Hst); by left|].
    intros [p len] h' (-> & -> & ->). rewrite decide_True by done. apply wp_throw. split_and!; [done| |].
    2:{ right. split; [done|]. rewrite Hm. apply elem_of_app. right. by left. }
    rewrite Hm, chain_bytes_app, chain_bytes_cons, !zlen_app.
    pose proof (zlen_nonneg (chain_bytes h m)). lia.
  - rewrite decide_True by done.
    apply wp_bind. eapply wp_load; [done|]. apply wp_bind. eapply wp_next; [by eapply next_of|].
    apply wp_bind, wp_get. apply wp_bind.
    assert (Ht : todo2 = m ++ crtBuf_ this :: todo1).
    { rewrite Hl1, Hm, <- (assoc_L (++)) in Hl2. simpl in Hl2. by apply app_inv_head in Hl2 as [= <-]. }
    rewrite Ht in Hl2' |- *.
    assert (Hst : crtBuf_ this ∉ m).
    { rewrite Hl2' in Hnd. apply NoDup_app in Hnd as (_ & _ & Hnd). apply NoDup_app in Hnd as (_ & Hd & _).
      intros Hin. apply (Hd _ Hin). by left. }
    eapply wp_nothrow; [apply (diff_loop _ _ _ _ (crtBuf_ this :: todo1) _ Hx Hl2' Hdn Hst); eauto|].
    intros [p len] h' (-> & -> & ->). simpl. rewrite decide_False.
    2:{ rewrite (assoc_L (++)) in Hl2'. eapply later_not_head; [done|exact Hl2'|]. by destruct dn2. }
    apply wp_ret. rewrite Hm, chain_bytes_app, chain_bytes_cons, !zlen_app, Hlen2 in *.
    pose proof (zlen_nonneg (chain_bytes h m)). split_and!; [done|lia|].
    rewrite wrap_add by done. f_equal. lia.
Qed.

(** Two cursors in one chain: the bytes before them tell which one is ahead. *)
Lemma diff_wp this other b1 a1 b2 a2 :
  cursor_rep h l this b1 a1 -> cursor_rep h l other b2 a2 ->
  wp (Cursor_diff this other) h
    (fun r h' => h' = h /\ zlen b2 <= zlen b1 /\ r = u64 (zlen b1 - zlen b2))
    (fun e h' => h' = h /\ zlen b1 <= zlen b2 /\ exists what, e = out_of_range what).
Proof.
  intros (dn1 & todo1 & Hs1 & -> & _) (dn2 & todo2 & Hs2 & -> & _).
  eapply wp_mono; [by eapply diff_standing_wp|done|].
  intros e h' (-> & Hz & He). split_and!; [done|done|]. naive_solver.
Qed.

Lemma totalLength_wp c before after :
  cursor_rep h l c before after ->
  wp Cursor_totalLength (h, c) (fun r s => r = u64 (zlen after) /\ s = (h, c)) nothrow.
Proof.
  intros Hrep. pose proof Hrep as (dn & todo & Hs & Hb & Ha).
  destruct (chain_nonempty h l Hc c (st_head _ _ _ _ _ Hs)) as [r Hr].
  pose proof (cursor_rep_bytes _ _ _ _ _ Hrep) as Hby.
  unfold Cursor_totalLength. apply wp_bind, wp_self. case_decide as Hcb.
  - apply wp_bind, wp_lift. eapply wp_wand; [apply (computeChainDataLength_wp h _ r); [done|]|].
    { by rewrite Hcb, <- Hr. }
    intros n h' [-> ->]. apply wp_ret. split; [|done]. rewrite Hcb, <- Hr, Hby, zlen_app.
    assert (dn = []) as ->.
    { destruct dn as [|y dn]; [done|]. exfalso. pose proof (st_split _ _ _ _ _ Hs) as Hsp.
      eapply later_not_head; [apply Hs|exact Hsp|done|done]. }
    rewrite Hb, chain_bytes_nil. simpl. rewrite (zlen_seen h l _ _ _ Hs).
    unfold wrap. rewrite Zminus_mod_idemp_l. f_equal. lia.
  - apply wp_bind, wp_lift. eapply wp_prev; [apply chain_pred; by rewrite <- Hr|].
    destruct (snoc_exists (buffer_ c) r) as (pre & z & Hz).
    assert (default (buffer_ c) (last r) = z) as ->.
    { destruct r as [|y r _] using rev_ind; [by destruct pre as [|? []]; simplify_list_eq|].
      rewrite last_snoc. rewrite app_comm_cons in Hz. by apply app_inj_tail in Hz as [_ ->]. }
    assert (Hzl : l = pre ++ [z]) by (by rewrite Hr).
    assert (Hlst : last l = Some z) by (by rewrite Hzl, last_snoc).
    destruct (chain_payload h l z Hc) as [b Hbz]; [rewrite Hzl; apply elem_of_app; right; by left|].
    pose proof (length_bytes _ _ _ Hw Hbz) as Hlen. pose proof (zlen_nonneg (node_bytes h z)) as Hz0.
    apply wp_bind, wp_lift. eapply wp_load; [done|]. apply wp_lift.
    set (e := mkCursor z (length_ b) (buffer_ c) true).
    change (Cursor_diff _ c) with (Cursor_diff e c).
    assert (Hse : standing h l e pre []) by (split; simpl; [apply Hs|done|lia]).
    eapply wp_mono; [by eapply (diff_standing_wp e c)|..].
    + intros n h' (-> & _ & ->). split; [|done]. rewrite <- Hb. f_equal.
      enough (zlen (chain_bytes h pre ++ seen h e) = zlen (chain_bytes h l)) as -> by (rewrite Hby, zlen_app; lia).
      unfold seen, e. simpl. by rewrite take_zlen, Hzl, chain_bytes_snoc by lia.
    + intros er h' (-> & _ & [(_ & -> & Hlt)|(_ & Hin)]); simpl in *.
      * pose proof (st_split _ _ _ _ _ Hs) as Hsp. rewrite Hzl in Hsp. apply app_inv_head in Hsp as [= -> _].
        pose proof (st_offset _ _ _ _ _ Hs). lia.
      * pose proof (chain_NoDup _ _ Hc) as Hnd. rewrite Hzl in Hnd, Hs.
        pose proof (st_split _ _ _ _ _ Hs) as Hsp.
        assert (Hin' : z ∈ pre).
        { destruct todo as [|y todo _] using rev_ind.
          - apply app_inj_tail in Hsp as [-> _]. done.
          - rewrite app_comm_cons, (assoc_L (++)) in Hsp. apply app_inj_tail in Hsp as [-> _].
            apply elem_of_app. by left. }
        apply NoDup_app in Hnd as (_ & Hd & _). apply (Hd z Hin'). by left.
Qed.

(** The distance from the start of an element. *)
Lemma diff_buf_wp c before after dn2 buf todo2 :
  cursor_rep h l c before after -> l = dn2 ++ buf :: todo2 ->
  wp (Cursor_diff_buf c buf) h
    (fun r h' => h' = h /\ zlen (chain_bytes h dn2) <= zlen before /\
       r = u64 (zlen before - zlen (chain_bytes h dn2)))
    (fun e h' => h' = h /\ zlen before <= zlen (chain_bytes h dn2) /\ e = out_of_range "wrap-around").
Proof.
  intros (dn & todo & Hs & -> & _) Hl2. pose proof (zlen_seen h l _ _ _ Hs) as Hz.
  pose proof (st_offset _ _ _ _ _ Hs) as Ho. rewrite zlen_app, Hz.
  pose proof (st_split _ _ _ _ _ Hs) as Hl. pose proof (st_head _ _ _ _ _ Hs) as Hx.
  pose proof (chain_NoDup _ _ Hc) as Hnd. pose proof (chain_size _ _ Hc) as Hsz.
  rewrite Hl2, length_app in Hsz. simpl in Hsz.
  unfold Cursor_diff_buf. apply wp_bind, wp_get. apply wp_bind.
  eapply wp_mono; [eapply (wp_iter _ (fun k '(p, len) h' => h' = h /\ exists m t, k = length t /\
      l = (dn2 ++ m) ++ (p :: t) /\ (crtBuf_ c ∉ m) /\ len = u64 (zlen (chain_bytes h m)))
    (fun len h' => h' = h /\ exists m, dn = dn2 ++ m /\ len = u64 (zlen (chain_bytes h m)))
    (fun e h' => h' = h /\ crtBuf_ c ∈ dn2 /\ e = out_of_range "wrap-around")) with (n := length todo2); [|lia|]|..].
  - intros k [p len] h' (-> & m & t & -> & Hlp & Hm & ->).
    destruct (element _ _ _ _ Hx Hlp) as ((b & Hb & Hlen & _) & Hn & Hne). case_decide as Hpc.
    + apply wp_bind. eapply wp_load; [done|]. apply wp_bind. eapply wp_next; [done|].
      assert (Hbp : t = [] \/ default (buffer_ c) (head t) <> buf).
      { destruct t as [|y t]; [by left|]. right. simpl. intros ->. rewrite Hlp, <- (assoc_L (++)) in Hl2.
        apply app_inv_head in Hl2. destruct m as [|z m]; injection Hl2 as Heq _.
        - subst. rewrite Hlp in Hnd. apply NoDup_app in Hnd as (_ & _ & Hnd).
          apply NoDup_cons in Hnd as [Hnd _]. apply Hnd. by left.
        - subst. rewrite Hlp in Hnd. apply NoDup_app in Hnd as (_ & Hd & _). apply (Hd buf).
          + apply elem_of_app. right. by left.
          + right. by left. }
      destruct t as [|y t]; simpl in *.
      * rewrite decide_True by (by right). apply wp_throw. split_and!; [done| |done].
        assert (Hin : crtBuf_ c ∈ (dn2 ++ m) ++ [p]) by (rewrite <- Hlp, Hl; apply elem_of_app; right; by left).
        rewrite !elem_of_app, list_elem_of_singleton in Hin. naive_solver.
      * destruct Hbp as [|Hbp]; [done|]. rewrite decide_False by (intros [|]; [done|by eapply Hne]).
        apply wp_ret. exists (length t). split; [lia|]. split; [done|]. exists (m ++ [p]), t. split_and!; [done| | |].
        -- by rewrite Hlp, <- !(assoc_L (++)).
        -- rewrite elem_of_app, list_elem_of_singleton. naive_solver.
        -- rewrite wrap_add, chain_bytes_snoc, zlen_app by done. f_equal. lia.
    + apply wp_ret. split; [done|]. exists m. split; [|done]. subst p.
      rewrite Hl in Hlp. rewrite Hl in Hnd.
      destruct (split_compare _ _ _ _ _ _ Hnd Hlp) as [[_ ?]|[[? _]|[? _]]]; done.
  - split; [done|]. exists [], todo2. rewrite app_nil_r, chain_bytes_nil. split_and!; try done.
    by intros ?%elem_of_nil.
  - intros len h' (-> & m & -> & ->). apply wp_ret. rewrite chain_bytes_app, zlen_app.
    pose proof (zlen_nonneg (chain_bytes h m)). split_and!; [done|lia|]. rewrite wrap_add by done. f_equal. lia.
  - intros e h' (-> & Hin & ->). split_and!; [done| |done].
    apply list_elem_of_split in Hin as (m1 & m2 & ->).
    rewrite Hl in Hl2. rewrite <- (assoc_L (++)) in Hl2. simpl in Hl2.
    rewrite Hl in Hnd. destruct (split_compare _ _ _ _ _ _ Hnd Hl2) as [[_ ->]|[[? _]|[? _]]]; [|done..].
    rewrite chain_bytes_app, chain_bytes_cons, !zlen_app. pose proof (zlen_nonneg (chain_bytes h m2)). lia.
Qed.
End Inspect.
