(* ===== verification/CursorText.v ===== *)
(** * io/Cursor: peeking, and reading up to a condition

    [peekBytes] shows the next non-empty run of bytes; [readWhile] reads run by run
    what a predicate accepts, and [readTerminatedString] is [readWhile] with a
    predicate that counts and throws. *)

From stdpp Require Import base list gmap strings.
From S2P Require Import Prelude IOBufMem IOBuf IOBufChain IOBufInv IOBufWf IOBufPrim IOBufWindow IOBufRead Bits Cursor CursorRead CursorInspect.

#[local] Opaque chain.

(** The elements with unread bytes that a cursor may still have to visit. *)
Definition ahead (h : Heap) (c : Cursor) (todo : list positive) : nat :=
  (length todo + if decide (left_ h c = []) then 0 else 1)%nat.

Section Peek.
Context (h : Heap) (l : list positive) (Hw : wf h) (Hc : chain h l) (D : Derived).
Implicit Types (c : Cursor) (dn todo : list positive).

(** Where [peekBytes] stops: at unread bytes, or at the very end. *)
Definition peeked (c : Cursor) (dn todo : list positive) (s : Heap * Cursor) : Prop :=
  s.1 = h /\ exists dn' todo', standing h l s.2 dn' todo' /\
    chain_bytes h dn' ++ seen h s.2 = chain_bytes h dn ++ seen h c /\
    left_ h s.2 ++ chain_bytes h todo' = left_ h c ++ chain_bytes h todo /\
    (left_ h s.2 = [] -> left_ h c ++ chain_bytes h todo = []) /\
    (left_ h s.2 <> [] -> S (length todo') <= ahead h c todo)%nat.

Lemma peekBytes_standing_wp c dn todo :
  standing h l c dn todo ->
  wp (Cursor_peekBytes D) (h, c)
    (fun '(a, n) s => peeked c dn todo s /\ n = zlen (left_ h s.2) /\
       wp (load_bytes a n) h (fun bs h' => bs = left_ h s.2 /\ h' = h) nothrow) nothrow.
Proof.
  intros Hs. unfold Cursor_peekBytes. apply wp_bind, wp_gets. apply wp_bind.
  pose proof (standing_fuel h l Hc _ _ _ Hs) as Hfuel.
  eapply wp_wand; [eapply (wp_iter _ (fun k _ s => s.1 = h /\ exists dn' todo', k = length todo' /\
      standing h l s.2 dn' todo' /\
      chain_bytes h dn' ++ seen h s.2 = chain_bytes h dn ++ seen h c /\
      left_ h s.2 ++ chain_bytes h todo' = left_ h c ++ chain_bytes h todo /\
      (s.2 = c /\ todo' = todo \/ S (length todo') <= length todo)%nat)
    (fun n s => peeked c dn todo s /\ n = zlen (left_ h s.2))) with (n := length todo); [|lia|]|].
  - intros k [] [h' c'] (Hh & dn' & todo' & -> & Hs' & Hb & Ha & Hm). simpl in *. subst h'.
    apply wp_bind. eapply wp_length; [done..|]. case_decide as Hz.
    + apply nil_zlen in Hz. apply wp_bind. eapply wp_tryAdvance; [done..| |].
      * intros y t ->. destruct (rep_next h l D c' dn' y t Hs') as [He Hl]. apply wp_ret.
        exists (length t). split; [simpl; lia|]. split; [done|]. exists (dn' ++ [crtBuf_ c']), t.
        split_and!; [done|by apply standing_next| | |].
        -- simpl. rewrite He, app_nil_r, chain_bytes_snoc, <- Hb. f_equal.
           rewrite <- (take_drop (Z.to_nat (offset_ c')) (node_bytes h (crtBuf_ c'))).
           change (drop _ _) with (left_ h c'). by rewrite Hz, app_nil_r.
        -- simpl. rewrite Hl, <- Ha, Hz. done.
        -- right. destruct Hm as [[-> <-]|Hm]; simpl in *; lia.
      * intros ->. apply wp_ret. set (c2 := with_offset _ c').
        assert (Hc2 : c2 = c').
        { pose proof (zlen_left h l _ _ _ Hs') as Hzl. rewrite Hz, zlen_nil in Hzl. unfold c2, with_offset.
          destruct c'. simpl in *. f_equal. lia. }
        rewrite Hc2. split; [|simpl; by rewrite Hz]. split; [done|]. exists dn', []. split_and!; try done.
        intros _. by rewrite <- Ha, Hz.
    + apply wp_ret. split; [|done]. split; [done|]. exists dn', todo'. split_and!; try done.
      * simpl. intros Hn. by rewrite Hn in Hz.
      * intros Hn. unfold ahead. destruct Hm as [[-> ->]|Hm]; [rewrite decide_False by done; lia|].
        case_decide; lia.
  - split; [done|]. exists dn, todo. split_and!; try done. by left.
  - intros n [h' c'] ((Hh & dn' & todo' & Hs' & Hrest) & ->). simpl in *. subst h'.
    unfold Cursor_data. apply wp_bind, wp_bind, wp_self. apply wp_bind, wp_lift.
    destruct (standing_payload h l Hw Hc _ _ _ Hs') as (b & Hb & _). eapply wp_load; [done|].
    apply wp_ret. apply wp_ret. split; [by split; [done|]; exists dn', todo'|]. split; [done|]. simpl.
    pose proof (zlen_nonneg (left_ h c')) as Hz.
    eapply load_at; [done..|lia|]. by rewrite take_zlen.
Qed.
End Peek.

(** ** Reading up to a condition *)

(** A predicate with a state of its own, run over a sequence of bytes: the
    bytes it accepts before it first rejects one, or the exception it throws. *)
Section Spec.
Context {A : Type} (f : A -> Z -> exn + A * bool).

Fixpoint accepted (a : A) (bs : list Z) : exn + A * list Z :=
  match bs with
  | [] => inr (a, [])
  | b :: bs =>
      match f a b with
      | inl e => inl e
      | inr (a, false) => inr (a, [])
      | inr (a, true) =>
          match accepted a bs with
          | inl e => inl e
          | inr (a, out) => inr (a, b :: out)
          end
      end
  end.

(** Bytes that were accepted earlier, in front of the rest. *)
Definition after_accepting (out : list Z) (r : exn + A * list Z) : exn + A * list Z :=
  match r with inl e => inl e | inr (a, more) => inr (a, out ++ more) end.

Lemma after_accepting_nil r : after_accepting [] r = r.
Proof. by destruct r as [|[]]. Qed.

Lemma after_accepting_app o1 o2 r :
  after_accepting o1 (after_accepting o2 r) = after_accepting (o1 ++ o2) r.
Proof. destruct r as [|[]]; [done|]. simpl. by rewrite (assoc_L (++)). Qed.

Lemma accepted_prefix bs : forall a a' out, accepted a bs = inr (a', out) -> out `prefix_of` bs.
Proof.
  induction bs as [|b bs IH]; simpl; intros a a' out H; [by simplify_eq|].
  destruct (f a b) as [|[a1 []]]; [done| |simplify_eq; apply prefix_nil].
  destruct (accepted a1 bs) as [|[a2 o]] eqn:Ho; simplify_eq. by apply prefix_cons, (IH a1 a').
Qed.

Context (predicate : A -> Z -> Cur (A * bool)).
Context (Hpred : forall a b s, predicate a b s = match f a b with inl e => Throw e s | inr r => Ok r s end).

Lemma wp_predicate a b s (Q : A * bool -> _ -> Prop) (E : exn -> _ -> Prop) :
  match f a b with inl e => E e s | inr r => Q r s end -> wp (predicate a b) s Q E.
Proof. unfold wp. rewrite Hpred. by destruct (f a b). Qed.

Lemma scan_wp bs : forall a idx s,
  wp (readWhile_scan predicate a idx bs) s
    (fun '(a', r) s' => s' = s /\
       match r with
       | None => forall more, accepted a (bs ++ more) = after_accepting bs (accepted a' more)
       | Some i => idx <= i < idx + zlen bs /\
           forall more, accepted a (bs ++ more) = inr (a', take (Z.to_nat (i - idx)) bs)
       end)
    (fun e s' => s' = s /\ forall more, accepted a (bs ++ more) = inl e).
Proof.
  induction bs as [|b bs IH]; intros a idx s; simpl.
  - apply wp_ret. split; [done|]. intros more. by rewrite after_accepting_nil.
  - apply wp_bind, wp_predicate. destruct (f a b) as [e|[a1 []]] eqn:Hf.
    + by split.
    + eapply wp_mono; [apply IH| |].
      * intros [a' [i|]] s' [-> H]; split; try done.
        -- destruct H as [Hi H]. unfold zlen in *. simpl. split; [lia|]. intros more.
           rewrite H. replace (Z.to_nat (i - idx)) with (S (Z.to_nat (i - (idx + 1)))) by lia. done.
        -- intros more. rewrite H. by destruct (accepted a' more) as [|[]].
      * intros e s' [-> H]. split; [done|]. intros more. by rewrite H.
    + apply wp_ret. split; [done|]. unfold zlen. simpl. split; [lia|]. intros more. by rewrite Z.sub_diag.
Qed.
End Spec.

Section While.
Context (h : Heap) (l : list positive) (Hw : wf h) (Hc : chain h l) (D : Derived).
Context {A : Type} (f : A -> Z -> exn + A * bool) (predicate : A -> Z -> Cur (A * bool)).
Context (Hpred : forall a b s, predicate a b s = match f a b with inl e => Throw e s | inr r => Ok r s end).

(** Skipping all of the current element makes progress. *)
Lemma skip_rest_wp c dn todo :
  standing h l c dn todo -> left_ h c <> [] ->
  wp (Cursor_skip D (zlen (left_ h c))) (h, c)
    (fun _ s => s.1 = h /\ exists dn' todo', standing h l s.2 dn' todo' /\
       chain_bytes h dn' ++ seen h s.2 = chain_bytes h dn ++ seen h c ++ left_ h c /\
       left_ h s.2 ++ chain_bytes h todo' = chain_bytes h todo /\
       (ahead h s.2 todo' <= length todo)%nat) nothrow.
Proof.
  intros Hs Hne. set (n := zlen (left_ h c)). assert (Hn : 0 <= n <= zlen (left_ h c)).
  { pose proof (zlen_nonneg (left_ h c)). unfold n. lia. }
  destruct (rep_offset h l c dn todo n Hs Hn) as (Hs1 & Hseen & Hleft).
  rewrite take_zlen in Hseen by done. rewrite drop_zlen in Hleft by done.
  destruct (standing_payload h l Hw Hc _ _ _ Hs) as (b & _ & Hlen & Hbd). pose proof (st_offset _ _ _ _ _ Hs1) as Ho1.
  simpl in Ho1. unfold max_alloc in Hbd. pose proof (st_offset _ _ _ _ _ Hs) as Ho.
  unfold Cursor_skip. apply wp_bind. eapply wp_length; [done..|].
  rewrite decide_True by done. apply wp_bind, wp_set_cursor. rewrite u64_small by lia.
  set (c1 := with_offset _ c) in *. unfold advanceBufferIfEmpty. apply wp_bind. eapply wp_length; [done|done|exact Hs1|].
  rewrite Hleft, zlen_nil, decide_True by done.
  assert (Hcur : seen h c1 = node_bytes h (crtBuf_ c)).
  { rewrite <- (app_nil_r (seen h c1)), <- Hleft. apply take_drop. }
  apply wp_bind. eapply wp_tryAdvance; [done|done|exact Hs1| |].
  - intros y t ->. destruct (rep_next h l D c1 dn y t Hs1) as [He Hl]. apply wp_ret. split; [done|].
    exists (dn ++ [crtBuf_ c]), t. split_and!; [exact (standing_next h l D c1 dn y t Hs1)| | |].
    + simpl. by rewrite He, app_nil_r, chain_bytes_snoc, <- Hcur, Hseen.
    + simpl. by rewrite Hl.
    + unfold ahead. simpl. case_decide; lia.
  - intros ->. apply wp_ret. split; [done|]. simpl. set (c2 := with_offset _ c1).
    assert (Hc2 : c2 = c1).
    { pose proof (zlen_left h l _ _ _ Hs1) as Hzl. rewrite Hleft, zlen_nil in Hzl.
      unfold c2, c1, with_offset in *. simpl in *. f_equal. lia. }
    rewrite Hc2. exists dn, []. split_and!; [done|by rewrite Hseen|by rewrite Hleft|].
    unfold ahead. by rewrite decide_True.
Qed.

(** The predicate sees the bytes after the cursor one by one, and the cursor
    passes those that it accepts. *)
Lemma readWhile_wp c before after a :
  cursor_rep h l c before after ->
  wp (Cursor_readWhile predicate D a) (h, c)
    (fun '(a', out) s => accepted f a after = inr (a', out) /\ moved h l before after (zlen out) s)
    (fun e s => accepted f a after = inl e /\ exists n, moved h l before after n s).
Proof.
  intros (dn & todo & Hs & Hb & Ha). unfold Cursor_readWhile. apply wp_bind, wp_gets.
  pose proof (standing_fuel h l Hc _ _ _ Hs) as Hfuel.
  eapply (wp_iter _ (fun k '(a1, out) s => s.1 = h /\ exists dn' todo', (ahead h s.2 todo' <= k)%nat /\
      standing h l s.2 dn' todo' /\ chain_bytes h dn' ++ seen h s.2 = before ++ out /\
      out ++ left_ h s.2 ++ chain_bytes h todo' = after /\
      accepted f a after = after_accepting out (accepted f a1 (left_ h s.2 ++ chain_bytes h todo'))))
    with (n := ahead h c todo).
  2:{ unfold ahead. case_decide; lia. }
  2:{ split; [done|]. exists dn, todo. split_and!; [done|done|by rewrite app_nil_r|done|].
      simpl. by rewrite <- Ha, after_accepting_nil. }
  intros k [a1 out] [h' c'] (Hh & dn' & todo' & Hk & Hs' & Hb' & Ha' & Hacc). simpl in *. subst h'.
  apply wp_bind. eapply wp_nothrow; [by eapply peekBytes_standing_wp|].
  intros [p n] [h2 c2] ((Hh & dn2 & todo2 & Hs2 & Hb2 & Ha2 & Hend & Hah) & -> & Hload). simpl in *. subst h2.
  rewrite <- Ha2 in Ha', Hacc. rewrite <- Hb2 in Hb'. case_decide as Hz.
  { apply nil_zlen in Hz. rewrite <- Ha2 in Hend. specialize (Hend Hz). apply wp_ret.
    rewrite Hend in Hacc, Ha'. simpl in Hacc. rewrite app_nil_r in *. subst out. split; [done|]. split; [done|].
    simpl. rewrite take_zlen, drop_zlen by done. by exists dn2, todo2. }
  assert (Hne : left_ h c2 <> []) by (intros Hn; by rewrite Hn in Hz). specialize (Hah Hne).
  apply wp_bind, wp_lift. eapply wp_nothrow; [exact Hload|]. intros bs h' [-> ->].
  assert (Hrep2 : cursor_rep h l c2 (before ++ out) (left_ h c2 ++ chain_bytes h todo2)) by (by exists dn2, todo2).
  assert (Hmv : forall m s, 0 <= m -> moved h l (before ++ out) (left_ h c2 ++ chain_bytes h todo2) m s ->
            moved h l before after (zlen out + m) s).
  { intros m s Hm [Hs1 Hs3]. split; [done|]. rewrite <- Ha'.
    replace (Z.to_nat (zlen out + m)) with (length out + Z.to_nat m)%nat by (unfold zlen; lia).
    rewrite take_app_add, drop_app_add. by rewrite <- (assoc_L (++)) in Hs3. }
  apply wp_bind. eapply wp_mono; [by eapply (scan_wp f predicate)| |].
  2:{ intros e s [-> He]. split; [by rewrite Hacc, He|]. exists (zlen out + 0). apply Hmv; [lia|].
      split; [done|]. simpl. by rewrite app_nil_r. }
  pose proof (standing_payload h l Hw Hc _ _ _ Hs2) as (b & _ & Hlen & Hbd). unfold max_alloc in Hbd.
  pose proof (zlen_left h l _ _ _ Hs2) as Hzl. pose proof (st_offset _ _ _ _ _ Hs2) as Ho2.
  intros [a2 [i|]] s [-> Hi].
  - destruct Hi as [Hi Hacc2]. rewrite Z.sub_0_r in Hacc2. rewrite Hacc2 in Hacc. simpl in Hacc. apply wp_bind.
    eapply wp_mono; [apply (skip_wp h l Hw Hc D c2 _ _ i Hrep2); lia| |].
    + intros [] s [_ Hm]. apply wp_ret. split; [done|]. rewrite zlen_app, zlen_take_le by lia. by apply Hmv; [lia|].
    + intros e s (_ & Hlt & _). exfalso. rewrite zlen_app in Hlt. pose proof (zlen_nonneg (chain_bytes h todo2)). lia.
  - rewrite Hi, after_accepting_app in Hacc. apply wp_bind.
    eapply wp_nothrow; [by eapply skip_rest_wp|].
    intros [] [h3 c3] (Hh & dn3 & todo3 & Hs3 & Hb3 & Ha3 & Hah3). simpl in *. subst h3. apply wp_ret.
    exists (ahead h c3 todo3). split; [lia|]. split; [done|]. exists dn3, todo3. split_and!; [done|done| | |].
    + simpl. by rewrite Hb3, !(assoc_L (++)), Hb'.
    + simpl. by rewrite Ha3, <- (assoc_L (++)).
    + simpl. by rewrite Ha3.
Qed.
End While.

(** ** Terminated strings *)

(** The bytes in front of the first [t]. *)
Fixpoint line (t : Z) (bs : list Z) : list Z :=
  match bs with
  | [] => []
  | b :: bs => if decide (b = t) then [] else b :: line t bs
  end.

(** [keepReading] without the monad. *)
Definition keep (termChar maxLength bytesRead byte : Z) : exn + Z * bool :=
  if decide (byte = sext 8 termChar) then inr (bytesRead, false)
  else if decide (maxLength <= u64 (bytesRead + 1)) then inl (length_error "string overflow")
  else inr (u64 (bytesRead + 1), true).

Lemma keep_keepReading t m n b s :
  keepReading t m n b s = match keep t m n b with inl e => Throw e s | inr r => Ok r s end.
Proof. unfold keepReading, keep. by repeat case_decide. Qed.

Lemma line_prefix t bs : line t bs `prefix_of` bs.
Proof.
  induction bs as [|b bs IH]; simpl; [done|]. case_decide; [apply prefix_nil|by apply prefix_cons].
Qed.

Lemma line_next t bs : bs = line t bs \/ exists more, bs = line t bs ++ t :: more.
Proof.
  induction bs as [|b bs IH]; simpl; [by left|]. case_decide as Hd; [subst; right; by exists bs|].
  destruct IH as [IH|[more IH]]; [left; by f_equal|right]. exists more. simpl. by f_equal.
Qed.

Lemma accepted_keep t m bs : forall n, 0 <= n -> n = 0 \/ n < m -> m < 2 ^ 64 ->
  accepted (keep t m) n bs =
    if decide (line (sext 8 t) bs = [] \/ n + zlen (line (sext 8 t) bs) < m)
    then inr (n + zlen (line (sext 8 t) bs), line (sext 8 t) bs)
    else inl (length_error "string overflow").
Proof.
  induction bs as [|b bs IH]; intros n Hn Hm Hmax; cbn [accepted line].
  { by rewrite zlen_nil, Z.add_0_r, decide_True by (by left). }
  unfold keep at 1. case_decide as Hb.
  { by rewrite zlen_nil, Z.add_0_r, decide_True by (by left). }
  rewrite u64_small by lia. set (ln := line (sext 8 t) bs) in *. pose proof (zlen_nonneg ln) as Hz.
  assert (Hcons : zlen (b :: ln) = 1 + zlen ln) by (unfold zlen; simpl; lia). rewrite Hcons.
  case_decide as Hlim.
  - rewrite decide_False; [done|]. intros [?|?]; [done|lia].
  - rewrite IH by lia. fold ln. destruct (decide (ln = [] \/ n + 1 + zlen ln < m)) as [Hd|Hd].
    + rewrite decide_True; [f_equal; f_equal; lia|]. right.
      destruct Hd as [Hln|]; [apply nil_zlen in Hln|]; lia.
    + rewrite decide_False; [done|]. intros [|Hlt]; [done|]. apply Hd. right. lia.
Qed.

Section Values.
Context (h : Heap) (l : list positive) (Hw : wf h) (Hc : chain h l) (D : Derived).
Context (c : Cursor) (before after : list Z) (Hrep : cursor_rep h l c before after).

Lemma moved_more n m s :
  0 <= n -> 0 <= m ->
  moved h l (before ++ take (Z.to_nat n) after) (drop (Z.to_nat n) after) m s -> moved h l before after (n + m) s.
Proof.
  intros Hn Hm [H1 H2]. split; [done|]. rewrite Z2Nat.inj_add by lia.
  rewrite <- take_take_drop, <- drop_drop, (assoc_L (++)). done.
Qed.

Lemma readTerminatedString_wp t m :
  0 <= m < 2 ^ 64 ->
  let ln := line (sext 8 t) after in
  wp (Cursor_readTerminatedString D t m) (h, c)
    (fun r s => r = ln /\ (ln = [] \/ zlen ln < m) /\ after <> ln /\ moved h l before after (zlen ln + 1) s)
    (fun e s => e = out_of_range "terminator not found" /\ (ln = [] \/ zlen ln < m) /\ after = ln /\
                  moved h l before after (zlen ln) s \/
                e = length_error "string overflow" /\ ~ (ln = [] \/ zlen ln < m) /\
                  exists n, moved h l before after n s).
Proof.
  intros Hm ln. unfold Cursor_readTerminatedString. apply wp_bind.
  pose proof (accepted_keep t m after 0 ltac:(lia) ltac:(by left) ltac:(lia)) as Hacc. fold ln in Hacc.
  simpl in Hacc. eapply wp_mono; [by eapply (readWhile_wp h l Hw Hc D (keep t m)); [apply keep_keepReading|]| |].
  - intros [n out] s [Ha Hmv]. rewrite Hacc in Ha. case_decide as Hok; [|done]. injection Ha as _ <-.
    destruct s as [h1 c1]. destruct Hmv as [Hh Hrep1]. simpl in Hh, Hrep1. subst h1.
    apply wp_bind. eapply wp_nothrow; [by eapply isAtEnd_wp|]. intros r s [-> ->].
    pose proof (zlen_nonneg ln) as Hz.
    assert (Hcut : after = ln <-> drop (Z.to_nat (zlen ln)) after = []).
    { unfold zlen. rewrite Nat2Z.id. destruct (line_prefix (sext 8 t) after) as [more Hmore]. fold ln in Hmore.
      rewrite Hmore, drop_app_length. split; [|intros ->; by rewrite app_nil_r].
      intros Heq. rewrite <- (app_nil_r ln) in Heq at 2. by apply app_inv_head in Heq. }
    case_bool_decide as Hend.
    + apply wp_throw. left. split_and!; [done|done|by apply Hcut|]. by split.
    + apply wp_bind. eapply wp_mono; [apply (skip_wp h l Hw Hc D c1 _ _ 1 Hrep1); lia| |].
      * intros [] s [_ Hm1]. apply wp_ret. split_and!; [done|done|by rewrite Hcut|]. by apply moved_more; [|lia|].
      * intros e s (_ & Hlt & _). exfalso. apply Hend, nil_zlen.
        pose proof (zlen_nonneg (drop (Z.to_nat (zlen ln)) after)). lia.
  - intros e s [Ha Hmv]. right. rewrite Hacc in Ha. case_decide as Hok; [done|]. injection Ha as <-. by split_and!.
Qed.

(** ** Integers *)

Lemma tryRead_wp w v :
  machine_width w ->
  wp (Cursor_tryRead D w v) (h, c)
    (fun '(ok, r) s => moved h l before after (w / 8) s /\
       if decide (w / 8 <= zlen after) then ok = true /\ r = of_bytes (take (Z.to_nat (w / 8)) after)
       else ok = false /\ r = of_bytes (overwrite 0 after (to_bytes (Z.to_nat (w / 8)) v))) nothrow.
Proof.
  intros Hmw. assert (Hn : 0 <= w / 8 < 2 ^ 64) by (by destruct Hmw as [->|[->|[->| ->]]]).
  unfold Cursor_tryRead. eapply (fast_path h l Hw Hc c before after (w / 8) Hrep Hn).
  - intros k Hi Hle. eapply (fast_copy h l Hw Hc D c before after (w / 8) Hn k); [done..|]. intros s Ha Hm. apply wp_ret.
    split; [done|]. rewrite decide_True by done. split; [done|]. unfold loadUnaligned. rewrite drop_0, take_take. by rewrite Nat.min_id.
  - apply wp_bind. eapply wp_wand; [apply (pullAtMostSlow_wp h l Hw Hc D c before after (w / 8) Hrep Hn)|].
    intros [k bs] s (-> & -> & Hm). apply wp_ret. split; [done|]. case_decide as Hle.
    + rewrite bool_decide_eq_true_2 by lia. split; [done|]. f_equal. unfold overwrite.
      rewrite drop_ge; [by rewrite app_nil_r|]. rewrite length_to_bytes, length_take. unfold zlen in Hle. lia.
    + rewrite bool_decide_eq_false_2 by lia. split; [done|]. by rewrite take_zlen by lia.
Qed.

Lemma read_wp w :
  machine_width w ->
  wp (Cursor_read D w) (h, c)
    (fun r s => w / 8 <= zlen after /\ r = of_bytes (take (Z.to_nat (w / 8)) after) /\ moved h l before after (w / 8) s)
    (fun e s => e = out_of_range "underflow" /\ zlen after < w / 8 /\ moved h l before after (w / 8) s).
Proof.
  intros Hmw. unfold Cursor_read. apply wp_bind. eapply wp_nothrow; [by apply tryRead_wp|].
  intros [ok r] s [Hm Hr]. case_decide; destruct Hr as [-> ->]; [apply wp_ret|apply wp_throw]; split_and!; try done; lia.
Qed.

(** The most significant byte comes first. *)
Lemma readBE_wp w :
  machine_width w -> Forall (fun b => 0 <= b < 256) after ->
  wp (Cursor_readBE D w) (h, c)
    (fun r s => w / 8 <= zlen after /\ r = of_bytes (reverse (take (Z.to_nat (w / 8)) after)) /\
       moved h l before after (w / 8) s)
    (fun e s => e = out_of_range "underflow" /\ zlen after < w / 8 /\ moved h l before after (w / 8) s).
Proof.
  intros Hmw Hbytes. unfold Cursor_readBE. apply wp_bind. eapply wp_wand; [by apply read_wp|].
  intros r s (Hle & -> & Hm). apply wp_ret. split_and!; [done| |done]. set (bs := take _ after).
  assert (Hlen : length bs = Z.to_nat (w / 8)) by (unfold bs; rewrite length_take; unfold zlen in Hle; lia).
  unfold EndianInt_big, EndianInt_swap. case_decide as H8.
  - subst w. destruct bs as [|x [|]]; try done.
  - unfold builtin_bswap. rewrite <- Hlen, to_of_bytes; [done|]. by apply Forall_take.
Qed.
End Values.
