(* ===== verification/CursorWrite.v ===== *)
(** * io/Cursor: writing cursors and appenders

    [src/accelerator/io/Cursor.h] (classes [Writable], [RWCursor], [Appender]
    and [QueueAppender]) and [Cursor.cpp].  Bytes to be written come from
    memory of the caller and are given as a list. *)

From stdpp Require Import base list gmap strings.
From S2P Require Import Prelude IOBufMem IOBuf IOBufQueue Bits Cursor.

(** ** Writable

    The base class of everything one can write to: [W] has the members of the
    derived class, which provides [pushAtMost] and may provide a [write] of its
    own. *)

(** [push(const uint8_t*, size_t)] and [write<T>(value)] for a [T] of [w] bits, as
    the base class defines them. *)
Definition push_by {W} (pushAtMost : list Z -> M (Heap * W) Z) (buf : list Z) : M (Heap * W) unit :=
  n ← pushAtMost buf;
  if decide (n <> zlen buf) then throw (out_of_range "overflow") else mret tt.

Definition write_by {W} (pushAtMost : list Z -> M (Heap * W) Z) (w value : Z) : M (Heap * W) unit :=
  push_by pushAtMost (to_bytes (Z.to_nat (w / 8)) value).

Class Writable (W : Type) := {
  pushAtMost : list Z -> M (Heap * W) Z;
  write : Z -> Z -> M (Heap * W) unit }.

(** A method of a cursor that is passed by value. *)
Definition on_copy {W A} (c : Cursor) (m : Cur A) : M (Heap * W) (A * Cursor) := fun '(h, w) =>
  match m (h, c) with
  | Ok a (h', c') => Ok (a, c') (h', w)
  | Throw e (h', _) => Throw e (h', w)
  | Fault why => Fault why
  | OutOfFuel => OutOfFuel
  end.

Section Writable.
Context {W : Type} `{!Writable W}.

Definition push (buf : list Z) : M (Heap * W) unit := push_by pushAtMost buf.

Definition writeBE (w value : Z) : M (Heap * W) unit := write w (EndianInt_big w value).
Definition writeLE (w value : Z) : M (Heap * W) unit := write w (EndianInt_little w value).

(** [pushAtMost(Cursor, len)]; the source and the destination are distinct
    memory.  Every round passes an element of the source. *)
Definition pushAtMost_cursor (cursor : Cursor) (len : Z) : M (Heap * W) Z :=
  fuel ← gets (fun '(h, _) => S (size (bufs h)));
  iter fuel
    (fun '(cursor, written, len) =>
       '((crtData, available), cursor) ← on_copy cursor (Cursor_peekBytes Cursor_);
       if decide (available = 0) then mret (inr written)
       else if decide (len <= available) then
         bs ← lift (load_bytes crtData len);
         push bs;;
         on_copy cursor (Cursor_skip Cursor_ len);;
         mret (inr (u64 (written + len)))
       else
         bs ← lift (load_bytes crtData available);
         push bs;;
         '(_, cursor) ← on_copy cursor (Cursor_skip Cursor_ available);
         mret (inl (cursor, u64 (written + available), u64 (len - available))))
    (cursor, 0, len).

Definition push_cursor (cursor : Cursor) (len : Z) : M (Heap * W) unit :=
  n ← pushAtMost_cursor cursor len;
  if decide (n <> len) then throw (out_of_range "overflow") else mret tt.
End Writable.

(** ** RWCursor *)

Definition RWCursor_writableData : Cur addr :=
  c ← self; b ← lift (load (crtBuf_ c)); mret (padd (data_ b) (offset_ c)).

Definition maybeUnshare : Cur unit :=
  c ← self;
  if maybeShared_ c then
    lift (unshareOne (crtBuf_ c));; set_cursor (with_maybeShared false)
  else mret tt.

(** [if (access == CursorAccess::UNSHARE) maybeUnshare();] *)
Definition unshare_if (access : CursorAccess) : Cur unit :=
  match access with UNSHARE => maybeUnshare | PRIVATE => mret tt end.

Definition RWCursor_pushAtMost (access : CursorAccess) (buf : list Z) : Cur Z :=
  if decide (zlen buf = 0) then mret 0
  else
    fuel ← cur_fuel;
    iter fuel
      (fun '(buf, copied) =>
         let len := zlen buf in
         available ← Cursor_length;
         if decide (len <= available) then
           unshare_if access;;
           a ← RWCursor_writableData;
           lift (store_bytes a buf);;
           offset_add len;;
           mret (inr (u64 (copied + len)))
         else
           unshare_if access;;
           a ← RWCursor_writableData;
           lift (store_bytes a (take (Z.to_nat available) buf));;
           ok ← tryAdvanceBuffer (RWCursor_ access);
           if ok : bool then mret (inl (drop (Z.to_nat available) buf, u64 (copied + available)))
           else mret (inr (u64 (copied + available)))) (buf, 0).

#[global] Instance RWCursor_Writable (access : CursorAccess) : Writable Cursor :=
  {| pushAtMost := RWCursor_pushAtMost access; write := write_by (RWCursor_pushAtMost access) |}.

Definition RWCursor_gather (n : Z) : Cur unit :=
  c ← self;
  (if decide (crtBuf_ c <> buffer_ c) then
     t ← Cursor_totalLength;
     if decide (t < n) then throw (overflow_error "cannot gather() past the end of the chain") else mret tt
   else mret tt);;
  lift (gather (crtBuf_ c) (u64 (offset_ c + n))).

Definition RWCursor_gatherAtMost (n : Z) : Cur unit :=
  t ← Cursor_totalLength;
  c ← self;
  lift (gather (crtBuf_ c) (u64 (offset_ c + Z.min n t))).

Definition RWCursor_insert (buf : positive) : Cur unit :=
  c ← self;
  nextBuf ←
    (if decide (offset_ c = 0) then
       lift (prependChain (crtBuf_ c) buf);; mret (crtBuf_ c)
     else
       b ← lift (load (crtBuf_ c));
       nextBuf ←
         (if decide (0 < u64 (length_ b - offset_ c)) then
            remaining ← lift (try_catch (cloneOne (crtBuf_ c)) (fun e => delete_ buf;; throw e));
            lift (trimStart remaining (offset_ c));;
            lift (prependChain buf remaining);;
            mret remaining
          else lift (next (crtBuf_ c)));
       n ← Cursor_length;
       lift (trimEnd (crtBuf_ c) n);;
       lift (appendChain (crtBuf_ c) buf);;
       mret nextBuf);
  set_cursor (fun c => with_crtBuf nextBuf (with_offset 0 c)).

(** ** Appender *)

Record Appender := mkAppender { app_buffer_ : positive; app_crtBuf_ : positive; growth_ : Z }.

Abbreviation App := (M (Heap * Appender)).

Definition app : App Appender := gets snd.
Definition set_app_crtBuf (p : positive) : App unit :=
  modify (fun '(h, a) => (h, mkAppender (app_buffer_ a) p (growth_ a))).

Definition Appender_ctor (buf : positive) (growth : Z) : Mem Appender :=
  p ← prev buf; mret (mkAppender buf p growth).

Definition Appender_writableData : App addr :=
  a ← app; b ← lift (load (app_crtBuf_ a)); mret (tail b).

Definition Appender_length : App Z :=
  a ← app; b ← lift (load (app_crtBuf_ a)); mret (tailroom b).

Definition Appender_append (n : Z) : App unit := a ← app; lift (append (app_crtBuf_ a) n).

(** [buffer_->prependChain(IOBuf::create(n)); crtBuf_ = buffer_->prev();] *)
Definition grow_chain (n : Z) : App unit :=
  a ← app;
  nb ← lift (create n);
  lift (prependChain (app_buffer_ a) nb);;
  p ← lift (prev (app_buffer_ a));
  set_app_crtBuf p.

Definition Appender_ensure (n : Z) : App unit :=
  len ← Appender_length;
  if decide (n <= len) then mret tt
  else
    a ← app;
    if decide (growth_ a = 0) then throw (out_of_range "can't grow buffer chain")
    else grow_chain (Z.max n (growth_ a)).

Definition tryGrowChain : App bool :=
  a ← app;
  n ← lift (next (app_crtBuf_ a));
  assert (bool_decide (n = app_buffer_ a)) "assert(crtBuf_->next() == buffer_)";;
  if decide (growth_ a = 0) then mret false else grow_chain (growth_ a);; mret true.

(** [memcpy(writableData(), buf, n); append(n);] *)
Definition Appender_fill (bs : list Z) : App unit :=
  p ← Appender_writableData; lift (store_bytes p bs);; Appender_append (zlen bs).

(** A new buffer has room for a byte at least, so that every round but the
    first copies something. *)
Definition Appender_pushAtMost (buf : list Z) : App Z :=
  if decide (zlen buf = 0) then mret 0
  else
    iter (S (S (length buf)))
      (fun '(buf, copied) =>
         let len := zlen buf in
         available ← Appender_length;
         if decide (len <= available) then
           Appender_fill buf;;
           mret (inr (u64 (copied + len)))
         else
           Appender_fill (take (Z.to_nat available) buf);;
           ok ← tryGrowChain;
           if ok : bool then mret (inl (drop (Z.to_nat available) buf, u64 (copied + available)))
           else mret (inr (u64 (copied + available)))) (buf, 0).

#[global] Instance Appender_Writable : Writable Appender :=
  {| pushAtMost := Appender_pushAtMost; write := write_by Appender_pushAtMost |}.

(** [operator()(StringPiece)]. *)
Definition Appender_call (sp : list Z) : App unit := push sp.

(** [vsnprintf(buf, size, ...)] for a format and arguments that yield [out] (no
    text when the conversion fails): writes at most [size - 1] characters and a
    zero, and returns the length of the whole text. *)
Definition vsnprintf (buf : addr) (size : Z) (out : option (list Z)) : App Z :=
  match out with
  | Some text =>
      if decide (zlen text < 2 ^ 31) then
        (if decide (size = 0) then mret tt
         else lift (store_bytes buf (take (Z.to_nat (size - 1)) text ++ [0])));;
        mret (zlen text)
      else mret (-1)
  | None => mret (-1)
  end.

Definition Appender_vprintf (out : option (list Z)) : App unit :=
  p ← Appender_writableData;
  n ← Appender_length;
  ret ← vsnprintf p n out;
  if decide (ret < 0) then throw (runtime_error "error formatting printf() data")
  else
    let len := u64 ret in
    if decide (len < n) then Appender_append len
    else
      Appender_ensure (u64 (len + 1));;
      p ← Appender_writableData;
      n ← Appender_length;
      ret ← vsnprintf p n out;
      if decide (ret < 0) then throw (runtime_error "error formatting printf() data")
      else
        let len := u64 ret in
        n ← Appender_length;
        if decide (n <= len) then
          throw (runtime_error "unexpectedly out of buffer space on second vsnprintf() attmept")
        else Appender_append len.

(** ** QueueAppender *)

(** The queue that [queue_] points to, and [growth_]. *)
Record QueueAppender := mkQueueAppender { queue_ : IOBufQueue; qa_growth_ : Z }.

Abbreviation QApp := (M (Heap * QueueAppender)).

Definition qapp : QApp QueueAppender := gets snd.

(** A method of the queue. *)
Definition on_queue {A} (m : Queue A) : QApp A := fun '(h, a) =>
  match m (h, queue_ a) with
  | Ok x (h', q) => Ok x (h', mkQueueAppender q (qa_growth_ a))
  | Throw e (h', q) => Throw e (h', mkQueueAppender q (qa_growth_ a))
  | Fault why => Fault why
  | OutOfFuel => OutOfFuel
  end.

Definition size_max : Z := 18446744073709551615.

Definition QueueAppender_reset (queue : IOBufQueue) (growth : Z) : QApp unit :=
  modify (fun '(h, _) => (h, mkQueueAppender queue growth)).

Definition QueueAppender_writableData : QApp addr := on_queue IOBufQueue_writableTail.
Definition QueueAppender_length : QApp Z := on_queue IOBufQueue_tailroom.
Definition QueueAppender_append (n : Z) : QApp unit := on_queue (IOBufQueue_postallocate n).
Definition QueueAppender_ensure (n : Z) : QApp unit :=
  a ← qapp; on_queue (IOBufQueue_preallocate n (qa_growth_ a) size_max);; mret tt.

Definition QueueAppender_write (w value : Z) : QApp unit :=
  a ← qapp;
  '(p, _) ← on_queue (IOBufQueue_preallocate (w / 8) (qa_growth_ a) size_max);
  lift (store_bytes p (to_bytes (Z.to_nat (w / 8)) value));;
  on_queue (IOBufQueue_postallocate (w / 8)).

(** The loop of [pushAtMost]: every round copies a byte at least when [growth_]
    is not 0. *)
Definition QueueAppender_push_rest (growth : Z) (buf : list Z) : QApp unit :=
  iter (S (length buf))
    (fun buf =>
       let remaining := zlen buf in
       if decide (remaining <> 0) then
         '(p, n) ← on_queue (IOBufQueue_preallocate (Z.min remaining growth) growth remaining);
         lift (store_bytes p (take (Z.to_nat n) buf));;
         on_queue (IOBufQueue_postallocate n);;
         mret (inl (drop (Z.to_nat n) buf))
       else mret (inr tt)) buf.

Definition QueueAppender_pushAtMost (buf : list Z) : QApp Z :=
  let len := zlen buf in
  room ← QueueAppender_length;
  let copyLength := Z.min len room in
  (if decide (copyLength <> 0) then
     p ← QueueAppender_writableData;
     lift (store_bytes p (take (Z.to_nat copyLength) buf));;
     QueueAppender_append copyLength
   else mret tt);;
  a ← qapp;
  QueueAppender_push_rest (qa_growth_ a) (drop (Z.to_nat copyLength) buf);;
  mret len.

#[global] Instance QueueAppender_Writable : Writable QueueAppender :=
  {| pushAtMost := QueueAppender_pushAtMost; write := QueueAppender_write |}.

Definition QueueAppender_insert (buf : option positive) : QApp unit :=
  match buf with
  | Some p => on_queue (IOBufQueue_append (Some p) true)
  | None => mret tt
  end.

Definition QueueAppender_insert_copy (buf : positive) : QApp unit :=
  p ← lift (clone buf); QueueAppender_insert (Some p).
