(* ===== verification/CursorAppend.v ===== *)
(** * io/Cursor: what an Appender does to its chain

    The bytes of the chain are extended at its end, in the tailroom of the last
    element first and then in new elements of [growth_] bytes. *)

From stdpp Require Import base list gmap strings.
From S2P Require Import Prelude IOBufMem IOBuf IOBufChain IOBufInv IOBufWf IOBufPrim IOBufRelease IOBufLife IOBufWindow IOBufPiece IOBufRead IOBufQueue IOBufQueueRep IOBufQueueOps Bits Cursor CursorRead CursorInspect CursorWrite.

#[local] Opaque chain.

(** Nobody else can see the tailroom of [z]. *)
Definition own_tail (h : Heap) (z : positive) : Prop :=
  forall b, payloads h !! z = Some b ->
    tailroom b = 0 \/ exists k, ablk (buf_ b) = Some k /\ sole h z k.

(** The appender writes to the end of the chain [l], which holds [bs]. *)
Record app_rep (h : Heap) (a : Appender) (l : list positive) (bs : list Z) : Prop := {
  ar_wf : wf h;
  ar_chain : chain h l;
  ar_head : head l = Some (app_buffer_ a);
  ar_last : exists pre, l = pre ++ [app_crtBuf_ a];
  ar_bytes : chain_bytes h l = bs;
  ar_own : own_tail h (app_crtBuf_ a) }.

(** The room that is left in the last element. *)
Definition app_room (h : Heap) (a : Appender) : Z :=
  match payloads h !! app_crtBuf_ a with Some b => tailroom b | None => 0 end.

Section App.
Implicit Types (h : Heap) (a : Appender) (l : list positive) (bs : list Z) (b : Payload).

Lemma wp_app h a (Q : Appender -> _ -> Prop) E : Q a (h, a) -> wp app (h, a) Q E.
Proof. done. Qed.

Lemma tailroom_nonneg b : 0 <= tailroom b.
Proof. unfold tailroom. apply wrap_fits. lia. Qed.

Lemma app_payload h a l bs : app_rep h a l bs -> exists b, payloads h !! app_crtBuf_ a = Some b.
Proof.
  intros [_ Hc _ [pre ->] _ _]. apply (chain_payload h _ _ Hc). apply elem_of_app. right. by left.
Qed.

Lemma wp_app_length h a l bs (Q : Z -> _ -> Prop) E :
  app_rep h a l bs -> (0 <= app_room h a -> Q (app_room h a) (h, a)) -> wp Appender_length (h, a) Q E.
Proof.
  intros Hr HQ. destruct (app_payload _ _ _ _ Hr) as [b Hb]. unfold app_room in HQ. rewrite Hb in HQ.
  unfold Appender_length. apply wp_bind, wp_app. apply wp_bind, wp_lift. eapply wp_load; [done|].
  apply wp_ret, HQ, tailroom_nonneg.
Qed.

(** [append(0)] changes nothing. *)
Lemma append_0_wp h p b :
  wf h -> payloads h !! p = Some b -> wp (append p 0) h (fun _ h' => rewindowed p b h h') nothrow.
Proof.
  intros Hw Hp. pose proof (length_bound _ _ _ Hw Hp) as Hl. unfold max_alloc in Hl.
  unfold append. apply wp_bind. eapply wp_load; [done|].
  apply wp_bind, wp_assert; [apply bool_decide_eq_true; apply tailroom_nonneg|].
  rewrite Z.add_0_r, u64_small by lia. eapply wp_store; [done|].
  eapply rewindow; try done; [by destruct b|by apply (wf_window _ p)].
Qed.

(** The end of the chain gets the bytes [nb]; the chain stays. *)
Lemma app_rep_edit h h' a l bs cp b' :
  app_rep h a l bs -> wf h' -> keeps [app_crtBuf_ a] [] h h' ->
  payloads h' = <[app_crtBuf_ a := b']> (payloads h) ->
  node_bytes h' (app_crtBuf_ a) = node_bytes h (app_crtBuf_ a) ++ cp ->
  own_tail h' (app_crtBuf_ a) -> app_rep h' a l (bs ++ cp).
Proof.
  intros [Hw Hc Hh [pre Hl] Hb Ho] Hw' Hk Hp Hn Ho'. split; try done.
  - eapply keeps_chain; [exact Hk|set_solver|done].
  - by exists pre.
  - rewrite <- Hb, Hl, !chain_bytes_snoc, Hn, (assoc_L (++)). f_equal. f_equal.
    apply chain_bytes_ext. intros p Hp'. apply (k_bytes _ _ _ _ Hk).
    + intros ->%list_elem_of_singleton. apply chain_NoDup in Hc. rewrite Hl in Hc.
      apply NoDup_app in Hc as (_ & Hd & _). apply (Hd _ Hp'). by left.
    + destruct (chain_payload h l p Hc) as [b ?]; [|eauto]. rewrite Hl. apply elem_of_app. by left.
Qed.

Lemma sole_insert h h' z k b b' :
  payloads h !! z = Some b -> payloads h' = <[z:=b']> (payloads h) -> sole h z k -> sole h' z k.
Proof. intros Hz Hp Hs q c Hne. rewrite Hp, lookup_insert_ne by done. by apply Hs. Qed.

Lemma fill_app_wp h a l bs cp :
  app_rep h a l bs -> zlen cp <= app_room h a ->
  wp (Appender_fill cp) (h, a)
    (fun _ s => s.2 = a /\ app_rep s.1 a l (bs ++ cp) /\ keeps [app_crtBuf_ a] [] h s.1 /\
       app_room s.1 a = app_room h a - zlen cp) nothrow.
Proof.
  intros Hr Hle. destruct (app_payload _ _ _ _ Hr) as [b Hb]. pose proof Hr as [Hw Hc Hh Hl Hby Hown].
  unfold app_room in Hle |- *. rewrite Hb in Hle |- *. pose proof (zlen_nonneg cp) as Hz.
  unfold Appender_fill, Appender_writableData, Appender_append.
  apply wp_bind, wp_bind, wp_app. apply wp_bind, wp_lift. eapply wp_load; [done|]. apply wp_ret.
  destruct (Hown b Hb) as [H0|(k & Hk & Hsole)].
  { assert (zlen cp = 0) as Hcp by lia. apply nil_zlen in Hcp. subst cp.
    apply wp_bind, wp_lift, wp_ret. apply wp_bind, wp_app. apply wp_lift.
    eapply wp_wand; [by apply (append_0_wp h _ b)|]. intros [] h' Hrw. simpl.
    pose proof (rewindowed_pay _ _ _ _ Hrw) as Hb'. pose proof (rewindowed_bytes _ _ _ _ Hrw) as Hnb.
    destruct Hrw as (Hw' & Hk' & Hp' & _). rewrite Hb'. split_and!; [done| |done|rewrite zlen_nil; lia].
    eapply app_rep_edit; [done..| |].
    - by rewrite app_nil_r, Hnb, (node_bytes_pay _ _ _ Hb).
    - intros b' Hbb. left. congruence. }
  apply wp_bind, wp_lift. eapply wp_wand; [by eapply (store_tail_wp h _ b k cp)|].
  intros [] h1 (Hw1 & Hk1 & Hb1 & _ & _ & Hby1). apply wp_bind, wp_app. apply wp_lift.
  assert (Hb1' : payloads h1 !! app_crtBuf_ a = Some b) by (by rewrite (payloads_of_bufs _ _ Hb1)).
  eapply wp_wand; [apply (append_wp h1 _ b (zlen cp) k); [done|done|done|lia]|].
  intros [] h2 Hrw. simpl. pose proof (rewindowed_pay _ _ _ _ Hrw) as Hb2.
  pose proof (rewindowed_bytes _ _ _ _ Hrw) as Hnb. destruct Hrw as (Hw2 & Hk2 & Hp2 & _). rewrite Hb2.
  assert (Hk02 : keeps [app_crtBuf_ a] [] h h2).
  { eapply keeps_trans; [eapply keeps_weaken; [| |exact Hk1]; set_solver|exact Hk2]. }
  rewrite (payloads_of_bufs _ _ Hb1) in Hp2. split_and!; [done| |done|].
  - eapply app_rep_edit; [done..| |].
    + by rewrite Hnb, Hby1, (node_bytes_pay _ _ _ Hb).
    + intros b' Hbb. right. exists k. rewrite Hb2 in Hbb. injection Hbb as <-. split; [done|].
      exact (sole_insert h h2 _ k b _ Hb Hp2 Hsole).
  - rewrite (window_tailroom _ _ k (wf_window _ _ _ Hw Hb) Hk).
    rewrite (window_tailroom _ _ k (wf_window _ _ _ Hw2 Hb2) Hk). simpl. lia.
Qed.

(** A new element of at least [n] bytes is linked to the end. *)
Lemma grow_chain_wp h a l bs n :
  app_rep h a l bs -> alloc_ok h -> 0 <= n -> n + offsetof_align <= max_alloc ->
  wp (grow_chain n) (h, a)
    (fun _ s => exists nb, payloads h !! nb = None /\ s.2 = mkAppender (app_buffer_ a) nb (growth_ a) /\
       app_rep s.1 s.2 (l ++ [nb]) bs /\ keeps [] l h s.1 /\ n <= app_room s.1 s.2) nothrow.
Proof.
  intros [Hw Hc Hh Hl Hby Hown] Ha Hn Hm. unfold grow_chain. apply wp_bind, wp_app. apply wp_bind, wp_lift.
  eapply wp_wand; [by apply create_wp|].
  intros nb h1 (Hoh & k & cap & Hcap & (Hw1 & Hk1 & Hnb & Hcn & Hpay) & _).
  destruct l as [|x r]; [done|]. injection Hh as Hx. subst x.
  assert (Hd : app_buffer_ a :: r ## [nb]).
  { intros p Hp ->%list_elem_of_singleton. destruct (chain_payload _ _ _ Hc Hp). congruence. }
  assert (Hc1 : chain h1 (app_buffer_ a :: r)) by (eapply keeps_chain; [exact Hk1|set_solver|done]).
  apply wp_bind, wp_lift. eapply wp_wand; [by apply prependChain_wp|]. intros [] h2 (Hc2 & Hrl).
  apply wp_bind, wp_lift. eapply wp_prev; [by apply chain_pred|]. rewrite last_snoc. simpl.
  unfold set_app_crtBuf. apply wp_modify. exists nb. split_and!; [done|done| | |].
  - assert (Hnb2 : payloads h2 !! nb = Some (fresh_payload k cap))
      by (rewrite (rl_body _ _ _ Hrl), Hpay; apply lookup_insert_eq).
    assert (Hw2 : wf h2) by by eapply wf_relinked.
    split; simpl; try done.
    + by exists (app_buffer_ a :: r).
    + rewrite app_comm_cons, chain_bytes_snoc, (relinked_bytes _ _ _ _ Hrl).
      unfold node_bytes. rewrite Hnb2. unfold bytes. simpl. rewrite slice_0, app_nil_r, <- Hby.
      apply chain_bytes_ext. intros p Hp. apply (k_bytes _ _ _ _ Hk1); [set_solver|].
      destruct (chain_payload h _ p Hc Hp) as [b ?]; eauto.
    + intros b Hb. right. exists k. rewrite Hnb2 in Hb. injection Hb as <-. split; [done|].
      eapply sole_unflagged; [done|done|apply sharedInfo_fresh|apply has_flag_fresh|done].
  - eapply keeps_grow; [eapply keeps_weaken; [| |exact Hk1]; set_solver|by apply keeps_relinked|..].
    + by intros p ?%elem_of_nil.
    + intros p [Hp|Hp]%elem_of_app; [by left|]. apply list_elem_of_singleton in Hp as ->. by right.
  - assert (Hw2 : wf h2) by by eapply wf_relinked.
    assert (Hnb2 : payloads h2 !! nb = Some (fresh_payload k cap))
      by (rewrite (rl_body _ _ _ Hrl), Hpay; apply lookup_insert_eq).
    unfold app_room. simpl. rewrite Hnb2. rewrite (window_tailroom (blocks h2) _ k); [simpl; lia| |done].
    by apply (wf_window h2 nb).
Qed.

(** ** Pushing *)

(** [cp] was appended, to the elements of [l] and to new ones. *)
Definition app_extended (h : Heap) (a : Appender) (l : list positive) (bs cp : list Z) (s : Heap * Appender) : Prop :=
  exists l', app_rep s.1 s.2 l' (bs ++ cp) /\ l `prefix_of` l' /\ keeps l l h s.1 /\
    (forall p, p ∈ l' -> p ∈ l \/ payloads h !! p = None) /\
    app_buffer_ s.2 = app_buffer_ a /\ growth_ s.2 = growth_ a.

Lemma app_extended_refl h a l bs : app_rep h a l bs -> app_extended h a l bs [] (h, a).
Proof.
  intros Hr. exists l. rewrite app_nil_r. split_and!; try done. by left.
Qed.

Lemma crt_in h a l bs : app_rep h a l bs -> app_crtBuf_ a ∈ l.
Proof. intros [_ _ _ [pre ->] _ _]. apply elem_of_app. right. by left. Qed.

(** Appending within the last element, and growing, extend further. *)
Lemma app_extended_fill h a l bs cp s cp2 :
  app_extended h a l bs cp s -> zlen cp2 <= app_room s.1 s.2 ->
  wp (Appender_fill cp2) s
    (fun _ s' => app_extended h a l bs (cp ++ cp2) s' /\ app_room s'.1 s'.2 = app_room s.1 s.2 - zlen cp2) nothrow.
Proof.
  destruct s as [h1 a1]. intros (l1 & Hr & Hpre & Hk & Hnew & Hbuf & Hg) Hle. simpl in *.
  eapply wp_wand; [by eapply fill_app_wp|]. intros [] [h2 a2] (Ha2 & Hr2 & Hk2 & Hroom). simpl in *. subst a2. split; [|done].
  exists l1. simpl. rewrite (assoc_L (++)). split_and!; try done.
  eapply keeps_grow; [exact Hk|exact Hk2| |by intros p ?%elem_of_nil].
  intros p ->%list_elem_of_singleton. by apply Hnew, (crt_in _ _ _ _ Hr).
Qed.

Lemma app_extended_grow h a l bs cp s n :
  app_extended h a l bs cp s -> alloc_ok h -> 0 <= n -> n + offsetof_align <= max_alloc ->
  wp (grow_chain n) s (fun _ s' => app_extended h a l bs cp s' /\ n <= app_room s'.1 s'.2) nothrow.
Proof.
  destruct s as [h1 a1]. intros (l1 & Hr & Hpre & Hk & Hnew & Hbuf & Hg) Ha Hn Hm. simpl in *.
  eapply wp_wand; [eapply grow_chain_wp; [done|by eapply keeps_alloc_ok|done|done]|].
  intros [] [h2 a2] (nb & Hnb & Ha2 & Hr2 & Hk2 & Hroom). simpl in *. subst a2. split; [|done].
  exists (l1 ++ [nb]). split_and!; try done.
  - by apply prefix_app_r.
  - eapply keeps_grow; [exact Hk|exact Hk2|by intros p ?%elem_of_nil|]. intros p Hp. by apply Hnew.
  - intros p [Hp|Hp]%elem_of_app; [by apply Hnew|]. apply list_elem_of_singleton in Hp as ->.
    destruct (decide (nb ∈ l)) as [|Hin]; [by left|]. right.
    destruct (payloads h !! nb) as [b|] eqn:Hb; [|done].
    rewrite (k_pay _ _ _ _ Hk nb b Hin Hb) in Hnb. done.
Qed.

Lemma app_next h a l bs : app_rep h a l bs -> nxt h (app_crtBuf_ a) = Some (app_buffer_ a).
Proof.
  intros [_ Hc Hh [pre Hl] _ _]. destruct l as [|x r]; [done|]. injection Hh as ->.
  by rewrite (chain_succ h (app_buffer_ a) r pre _ [] Hc Hl).
Qed.

(** Everything is appended if the chain may grow, as much as fits otherwise. *)
Lemma app_push_wp h a l bs buf :
  app_rep h a l bs -> alloc_ok h -> zlen buf < 2 ^ 64 ->
  0 <= growth_ a -> growth_ a + offsetof_align <= max_alloc ->
  wp (Appender_pushAtMost buf) (h, a)
    (fun r s => r = (if decide (growth_ a = 0) then Z.min (zlen buf) (app_room h a) else zlen buf) /\
       app_extended h a l bs (take (Z.to_nat r) buf) s) nothrow.
Proof.
  intros Hr Ha Hlen Hg0 Hgm. unfold Appender_pushAtMost.
  assert (Hroom0 : 0 <= app_room h a).
  { unfold app_room. destruct (payloads h !! _); [apply tailroom_nonneg|lia]. }
  case_decide as Hz.
  { apply wp_ret. split; [case_decide; lia|]. by apply app_extended_refl. }
  eapply (wp_iter _ (fun k '(rest, copied) s => exists cp, buf = cp ++ rest /\ copied = zlen cp /\ rest <> [] /\
      app_extended h a l bs cp s /\
      (k = S (length rest) /\ cp = [] /\ app_room s.1 s.2 = app_room h a \/
       k = length rest /\ growth_ a <> 0 /\ 0 < app_room s.1 s.2)))
    with (n := S (length buf)); [|lia|].
  2:{ exists []. split_and!; try done; [by intros ->|by apply app_extended_refl|by left]. }
  intros k [rest copied] [h1 a1] (cp & Hbuf & -> & Hne & Hext & Hmeas).
  pose proof Hext as (l1 & Hr1 & _ & _ & _ & _ & Hg1). simpl in Hr1, Hg1, Hmeas.
  assert (Hzl : zlen buf = zlen cp + zlen rest) by (by rewrite Hbuf, zlen_app).
  pose proof (zlen_nonneg cp) as Hz1. pose proof (zlen_nonneg rest) as Hz2.
  apply wp_bind. eapply wp_app_length; [done|]. intros Hroom1. set (room := app_room h1 a1) in *.
  case_decide as Hfit.
  - apply wp_bind. eapply wp_wand; [by eapply app_extended_fill|]. intros [] s [Hext2 _]. apply wp_ret.
    rewrite u64_small, <- Hzl by lia. rewrite take_zlen by done. rewrite <- Hbuf in Hext2.
    split; [|done]. case_decide; [|done].
    destruct Hmeas as [(_ & -> & Hrm)|(_ & ? & _)]; [|done]. rewrite zlen_nil in Hzl. lia.
  - set (part := take (Z.to_nat room) rest).
    assert (Hpart : zlen part = room) by (apply zlen_take_le; lia).
    apply wp_bind. eapply wp_wand; [eapply app_extended_fill; [done|simpl; fold room; lia]|].
    intros [] [h2 a2] [Hext2 Hroom2]. pose proof Hext2 as (l2 & Hr2 & _ & _ & _ & _ & Hg2). simpl in Hr2, Hg2, Hroom2.
    unfold tryGrowChain. apply wp_bind, wp_bind, wp_app. apply wp_bind, wp_lift.
    eapply wp_next; [by eapply app_next|]. apply wp_bind, wp_assert; [by apply bool_decide_eq_true|].
    rewrite !u64_small by lia. rewrite Hg2. case_decide as Hgz.
    + apply wp_ret, wp_ret. destruct Hmeas as [(_ & -> & Hrm)|(_ & ? & _)]; [|done]. simpl in Hbuf. subst rest.
      rewrite zlen_nil in *. rewrite Z.add_0_l. split; [lia|]. done.
    + apply wp_bind. eapply wp_wand; [by eapply (app_extended_grow h a l bs (cp ++ part))|].
      intros [] [h3 a3] [Hext3 Hroom3]. apply wp_ret, wp_ret. simpl in Hroom3.
      exists (length (drop (Z.to_nat room) rest)). rewrite length_drop. split.
      { destruct Hmeas as [(-> & _)|(-> & _ & Hpos)]; [lia|]. unfold zlen in Hfit. lia. }
      exists (cp ++ part). split_and!; [|by rewrite zlen_app, Hpart| |done|].
      * rewrite Hbuf, <- (assoc_L (++)). unfold part. by rewrite take_drop.
      * intros Hnil%(f_equal length). rewrite length_drop in Hnil. unfold zlen in Hfit. simpl in Hnil. lia.
      * right. split_and!; [done|done|]. simpl. lia.
Qed.

(** ** Formatting *)

Lemma bytes_shorter B b n m :
  0 <= n <= m -> bytes B (with_length n b) = take (Z.to_nat n) (bytes B (with_length m b)).
Proof.
  intros Hn. unfold bytes. simpl. destruct (ablk (data_ b)); [|by rewrite take_nil]. by rewrite take_slice.
Qed.

(** Bytes written behind the data are not seen, until the data is extended. *)
Lemma scribble_wp h a l bs b cp :
  app_rep h a l bs -> payloads h !! app_crtBuf_ a = Some b -> zlen cp <= tailroom b ->
  wp (store_bytes (tail b) cp) h
    (fun _ h' => app_rep h' a l bs /\ keeps [] [] h h' /\ bufs h' = bufs h /\
       forall n, 0 <= n <= zlen cp ->
         bytes (blocks h') (with_length (length_ b + n) b) = bytes (blocks h) b ++ take (Z.to_nat n) cp) nothrow.
Proof.
  intros Hr Hb Hle. pose proof Hr as [Hw Hc Hh Hl Hby Hown]. pose proof (zlen_nonneg cp) as Hz.
  pose proof (length_bound _ _ _ Hw Hb) as Hlb.
  destruct (Hown b Hb) as [H0|(k & Hk & Hsole)].
  { assert (zlen cp = 0) as Hcp by lia. apply nil_zlen in Hcp. subst cp. apply wp_ret.
    split_and!; [done|apply keeps_refl|done|]. intros n Hn. assert (n = 0) as -> by (unfold zlen in Hn; simpl in Hn; lia).
    rewrite Z.add_0_r, take_nil, app_nil_r. by destruct b. }
  eapply wp_wand; [by eapply (store_tail_wp h _ b k cp)|]. intros [] h1 (Hw1 & Hk1 & Hb1 & _ & _ & Hby1).
  pose proof (payloads_of_bufs _ _ Hb1) as Hp1. split_and!; [|done|done|].
  - split; try done.
    + eapply keeps_chain; [exact Hk1|set_solver|done].
    + rewrite <- Hby. eapply keeps_chain_bytes; [exact Hk1|set_solver|done].
    + intros b' Hb'. right. exists k. rewrite Hp1 in Hb'. simplify_eq. split; [done|].
      intros q c Hne. rewrite Hp1. by apply Hsole.
  - intros n Hn. rewrite (bytes_shorter _ _ _ (length_ b + zlen cp)) by lia. rewrite Hby1.
    assert (Hlen : zlen (bytes (blocks h) b) = length_ b) by (by apply window_bytes_len, (wf_window h _ b Hw Hb)).
    replace (Z.to_nat (length_ b + n)) with (length (bytes (blocks h) b) + Z.to_nat n)%nat by (unfold zlen in Hlen; lia).
    apply take_app_add.
Qed.

(** What [vsnprintf] reports for a text. *)
Definition printed (out : option (list Z)) : Z :=
  match out with Some text => if decide (zlen text < 2 ^ 31) then zlen text else -1 | None => -1 end.

Lemma vsnprintf_wp h a l bs cp s0 b out :
  app_extended h a l bs cp s0 -> payloads s0.1 !! app_crtBuf_ s0.2 = Some b ->
  wp (vsnprintf (tail b) (tailroom b) out) s0
    (fun r s => r = printed out /\ app_extended h a l bs cp s /\ s.2 = s0.2 /\ bufs s.1 = bufs s0.1 /\
       keeps [] [] s0.1 s.1 /\
       forall text, out = Some text -> zlen text < 2 ^ 31 -> zlen text < tailroom b ->
         bytes (blocks s.1) (with_length (length_ b + zlen text) b) = bytes (blocks s0.1) b ++ text /\
         bytes (blocks s.1) (with_length (length_ b + zlen text + 1) b) = bytes (blocks s0.1) b ++ text ++ [0]) nothrow.
Proof.
  destruct s0 as [h1 a1]. intros Hext Hb. simpl in Hb. unfold vsnprintf, printed.
  destruct out as [text|]; [|by apply wp_ret].
  destruct (decide (zlen text < 2 ^ 31)) as [Hlen|Hlen]; [|apply wp_ret; split_and!; [done..|apply keeps_refl|naive_solver]].
  pose proof (tailroom_nonneg b) as Ht. apply wp_bind. destruct (decide (tailroom b = 0)) as [Hz|Hz].
  { apply wp_ret, wp_ret. split_and!; try done. intros text' [= <-] _ Hlt. pose proof (zlen_nonneg text). lia. }
  apply wp_lift. pose proof Hext as (l1 & Hr & Hpre & Hk & Hnew & Hrest). simpl in Hr, Hk.
  eapply wp_wand; [eapply (scribble_wp h1 a1 l1); [done|done|]|].
  { rewrite zlen_app. change (zlen [0]) with 1. unfold zlen. rewrite length_take. lia. }
  intros [] h2 (Hr2 & Hk2 & Hb2 & Hby). apply wp_ret. split_and!; try done.
  - exists l1. split_and!; try done; simpl; try apply Hrest.
    eapply keeps_grow; [exact Hk|exact Hk2|by intros p ?%elem_of_nil..].
  - intros text' [= <-] _ Hlt. rewrite take_zlen in Hby by lia. rewrite zlen_app in Hby. change (zlen [0]) with 1 in Hby.
    pose proof (zlen_nonneg text). simpl. rewrite <- Z.add_assoc, !Hby by lia. split.
    + f_equal. unfold zlen. rewrite Nat2Z.id. apply take_app_length.
    + f_equal. apply take_zlen. rewrite zlen_app. done.
Qed.

(** The room after [ensure]. *)
Lemma ensure_wp h a l bs cp s n :
  app_extended h a l bs cp s -> alloc_ok h -> 0 <= n -> n + offsetof_align <= max_alloc ->
  0 <= growth_ a -> growth_ a + offsetof_align <= max_alloc ->
  wp (Appender_ensure n) s
    (fun _ s' => app_extended h a l bs cp s' /\ n <= app_room s'.1 s'.2)
    (fun e s' => e = out_of_range "can't grow buffer chain" /\ growth_ a = 0 /\ app_room s.1 s.2 < n /\ s' = s).
Proof.
  intros Hext Ha Hn Hm Hg0 Hgm. destruct s as [h1 a1]. pose proof Hext as (l1 & Hr & _ & _ & _ & _ & Hg). simpl in Hr, Hg.
  unfold Appender_ensure. apply wp_bind. eapply wp_app_length; [done|]. intros Hroom.
  case_decide as Hle; [by apply wp_ret|]. apply wp_bind, wp_app. rewrite Hg. case_decide as Hz.
  - apply wp_throw. split_and!; try done. simpl. lia.
  - eapply wp_nothrow; [eapply app_extended_grow; [done|done|lia|lia]|].
    intros [] s' [He Hr']. split; [done|]. lia.
Qed.

(** Extending the data over bytes that were written behind it. *)
Lemma app_append_wp h a l bs cp s b n text :
  app_extended h a l bs cp s -> payloads s.1 !! app_crtBuf_ s.2 = Some b -> n = zlen text -> n < tailroom b ->
  bytes (blocks s.1) (with_length (length_ b + n) b) = bytes (blocks s.1) b ++ text ->
  wp (Appender_append n) s (fun _ s' => app_extended h a l bs (cp ++ text) s') nothrow.
Proof.
  destruct s as [h1 a1]. intros (l1 & Hr & Hpre & Hk & Hnew & Hbuf & Hg) Hb -> Hlt Hby. simpl in *.
  pose proof Hr as [Hw Hc Hh Hl Hby0 Hown]. pose proof (zlen_nonneg text) as Hz.
  destruct (Hown b Hb) as [H0|(k & Hkb & Hsole)]; [lia|].
  unfold Appender_append. apply wp_bind, wp_app. apply wp_lift.
  eapply wp_wand; [apply (append_wp h1 _ b (zlen text) k); [done|done|done|lia]|]. intros [] h2 Hrw.
  pose proof (rewindowed_pay _ _ _ _ Hrw) as Hb2. pose proof (rewindowed_bytes _ _ _ _ Hrw) as Hnb.
  destruct Hrw as (Hw2 & Hk2 & Hp2 & _). exists l1. simpl. rewrite (assoc_L (++)). split_and!; try done.
  - eapply app_rep_edit; [done..| |].
    + by rewrite Hnb, Hby, (node_bytes_pay _ _ _ Hb).
    + intros b' Hbb. right. exists k. rewrite Hb2 in Hbb. injection Hbb as <-. split; [done|].
      exact (sole_insert h1 h2 _ k b _ Hb Hp2 Hsole).
  - eapply keeps_grow; [exact Hk|exact Hk2| |by intros p ?%elem_of_nil].
    intros p ->%list_elem_of_singleton. by apply Hnew, (crt_in _ _ _ _ Hr).
Qed.

(** One attempt of [vprintf]. *)
Lemma attempt_wp h a l bs cp s out (k : Z -> Z -> App unit) Q E :
  app_extended h a l bs cp s ->
  (forall s', app_extended h a l bs cp s' -> app_room s'.1 s'.2 = app_room s.1 s.2 ->
     (forall text, out = Some text -> zlen text < 2 ^ 31 -> zlen text < app_room s.1 s.2 ->
        wp (Appender_append (zlen text)) s' (fun _ s' => app_extended h a l bs (cp ++ text) s') nothrow) ->
     wp (k (app_room s.1 s.2) (printed out)) s' Q E) ->
  wp (p ← Appender_writableData; n ← Appender_length; ret ← vsnprintf p n out; k n ret) s Q E.
Proof.
  destruct s as [h1 a1]. intros Hext Hk. pose proof Hext as (l1 & Hr & _). simpl in Hr, Hk.
  destruct (app_payload _ _ _ _ Hr) as [b Hb]. unfold app_room in Hk. rewrite Hb in Hk.
  unfold Appender_writableData, Appender_length.
  apply wp_bind, wp_bind, wp_app. apply wp_bind, wp_lift. eapply wp_load; [done|]. apply wp_ret.
  apply wp_bind, wp_bind, wp_app. apply wp_bind, wp_lift. eapply wp_load; [done|]. apply wp_ret.
  apply wp_bind. eapply wp_nothrow; [by eapply (vsnprintf_wp h a l bs cp (h1, a1) b)|].
  intros r [h2 a2] (-> & Hext2 & Ha2 & Hbufs & Hk2 & Hby). simpl in *. subst a2.
  assert (Hb2 : payloads h2 !! app_crtBuf_ a1 = Some b) by (by rewrite (payloads_of_bufs _ _ Hbufs)).
  apply Hk; [done|simpl; by rewrite Hb2|]. intros text -> Hlen Hfit.
  destruct (Hby text eq_refl Hlen Hfit) as [Hby1 _].
  eapply app_append_wp; [done|exact Hb2|done|done|]. simpl. rewrite Hby1. f_equal.
  rewrite <- (node_bytes_pay h1 _ b Hb), <- (node_bytes_pay h2 _ b Hb2).
  symmetry. apply (k_bytes _ _ _ _ Hk2); [set_solver|eauto].
Qed.

(** [vprintf] appends the formatted text, and reports the conversions that fail
    and the text for which there is no room. *)
Lemma vprintf_wp h a l bs out :
  app_rep h a l bs -> alloc_ok h -> 0 <= growth_ a -> growth_ a + offsetof_align <= max_alloc ->
  wp (Appender_vprintf out) (h, a)
    (fun _ s => exists text, out = Some text /\ zlen text < 2 ^ 31 /\ app_extended h a l bs text s)
    (fun e s => app_extended h a l bs [] s /\
       (e = runtime_error "error formatting printf() data" /\ printed out = -1 \/
        e = out_of_range "can't grow buffer chain" /\ growth_ a = 0 /\ app_room h a <= printed out)).
Proof.
  intros Hr Ha Hg0 Hgm. pose proof (app_extended_refl _ _ _ _ Hr) as Hext0.
  unfold Appender_vprintf. eapply attempt_wp; [exact Hext0|]. intros s Hext Hroom Happ. simpl in *.
  assert (Hcase : printed out = -1 \/ exists text, out = Some text /\ zlen text < 2 ^ 31 /\ printed out = zlen text).
  { unfold printed. destruct out as [text|]; [|by left]. case_decide; [right; by exists text|by left]. }
  destruct Hcase as [->|(text & -> & Hlen & ->)].
  { rewrite decide_True by lia. apply wp_throw. split; [done|by left]. }
  pose proof (zlen_nonneg text) as Hz. rewrite decide_False by lia. cbv zeta. rewrite (u64_small (zlen text)) by lia.
  destruct (decide (zlen text < app_room h a)) as [Hfit|Hfit].
  { eapply wp_nothrow; [by apply Happ|]. intros [] s' Hs'. by exists text. }
  rewrite u64_small by lia. apply wp_bind.
  eapply wp_mono; [apply (ensure_wp h a l bs [] s (zlen text + 1) Hext Ha); [lia| |done|done]|..].
  - unfold offsetof_align, max_alloc. lia.
  - intros [] s2 [Hext2 Hroom2]. eapply attempt_wp; [exact Hext2|]. intros s3 Hext3 Hroom3 Happ3.
    unfold printed. rewrite (decide_True (P := zlen text < 2 ^ 31)), decide_False by (done || lia).
    rewrite (u64_small (zlen text)) by lia. apply wp_bind.
    destruct s3 as [h3 a3]. pose proof Hext3 as (l3 & Hr3 & _). simpl in Hr3, Hroom3.
    eapply wp_app_length; [done|]. intros _. rewrite Hroom3, decide_False by lia.
    eapply wp_nothrow; [apply Happ3; [done|done|lia]|]. intros [] s4 Hs4. by exists text.
  - intros e s2 (-> & Hg & Hlt & ->). split; [done|]. right. split_and!; [done|done|lia].
Qed.
End App.
