(* ===== verification/CursorEdit.v ===== *)
(** * io/Cursor: overwriting through an RWCursor

    [pushAtMost] replaces the bytes after the cursor. With [UNSHARE] each element
    gets a buffer of its own before it is written, so that the objects that
    shared it keep their bytes. *)

From stdpp Require Import base list gmap strings.
From S2P Require Import Prelude IOBufMem IOBuf IOBufChain IOBufInv IOBufWf IOBufPrim IOBufRelease IOBufLife IOBufWindow IOBufShare IOBufPiece IOBufRead IOBufQueue IOBufQueueRep IOBufQueueOps Bits Cursor CursorRead CursorInspect CursorWrite.

#[local] Opaque chain.

(** Nobody else uses the buffer of [q]. *)
Definition own_data (h : Heap) (q : positive) : Prop :=
  forall b k, payloads h !! q = Some b -> ablk (buf_ b) = Some k -> sole h q k.

(** What a cursor may rely on before it writes: with [PRIVATE] access that all
    elements are private, with [UNSHARE] access that the current element is,
    once it has been unshared. *)
Definition may_write (access : CursorAccess) (h : Heap) (l : list positive) (c : Cursor) : Prop :=
  match access with
  | PRIVATE => forall q, q ∈ l -> own_data h q
  | UNSHARE => maybeShared_ c = false -> own_data h (crtBuf_ c)
  end.

Definition caps_ok (h : Heap) (l : list positive) : Prop :=
  forall q b, q ∈ l -> payloads h !! q = Some b -> capacity_ b + 31 <= max_alloc.

Section Edit.
Implicit Types (h : Heap) (l dn todo : list positive) (b : Payload).

(** Overwriting a part of a window. *)
Lemma slice_overwrite_inside {A} (d len off : Z) (cp bs : list A) :
  0 <= d -> 0 <= off -> off + zlen cp <= len -> d + len <= zlen bs ->
  slice d len (overwrite (d + off) cp bs) = overwrite off cp (slice d len bs).
Proof.
  intros Hd Ho Hl Hb. pose proof (zlen_nonneg cp) as Hz.
  replace len with (off + (zlen cp + (len - off - zlen cp))) at 1 by lia.
  rewrite !slice_split by lia.
  rewrite slice_overwrite_before, slice_overwrite, slice_overwrite_after by lia.
  unfold overwrite at 1. rewrite take_slice by lia.
  replace (Z.to_nat off + length cp)%nat with (Z.to_nat (off + zlen cp)) by (unfold zlen; lia).
  rewrite drop_slice by lia. do 2 f_equal. f_equal; lia.
Qed.

(** Writing over the data of [p]. *)
Lemma store_data_wp h p b off cp :
  wf h -> payloads h !! p = Some b -> own_data h p -> 0 <= off -> off + zlen cp <= length_ b ->
  wp (store_bytes (padd (data_ b) off) cp) h
    (fun _ h' => wf h' /\ bufs h' = bufs h /\ keeps [p] [] h h' /\
       node_bytes h' p = overwrite off cp (node_bytes h p)) nothrow.
Proof.
  intros Hw Hp Hown Hoff Hle. pose proof (wf_window _ _ _ Hw Hp) as (Hd & H1 & H2 & Hm).
  pose proof (zlen_nonneg cp) as Hz. destruct (ablk (buf_ b)) as [k|] eqn:Hk.
  2:{ destruct Hm as (Hl & _). assert (zlen cp = 0) as Hcp by lia. apply nil_zlen in Hcp. subst cp. apply wp_ret.
      split_and!; [done|done|apply keeps_refl|by rewrite overwrite_nil]. }
  destruct Hm as (bs & Hbs & Hmax & ? & ? & ? & ?).
  eapply (wp_store_bytes h _ cp k bs); [done|done|simpl; lia|simpl; lia|]. simpl.
  assert (Hothers : forall q c, q <> p -> payloads h !! q = Some c ->
            node_bytes (on_blocks (insert k (overwrite (aoff (data_ b) + off) cp bs)) h) q = node_bytes h q).
  { intros q c Hne Hq. eapply node_bytes_block; [done|].
    destruct (wf_window _ _ _ Hw Hq) as (-> & _). by apply (Hown b k Hp Hk q). }
  split_and!; [|done| |].
  - unfold wf. simpl. eapply wfm_bytes; [done| |exact Hw]. apply zlen_overwrite; lia.
  - split; try done. intros q Hq [c Hc]. eapply Hothers; [|done]. intros ->. apply Hq. by left.
  - rewrite (node_bytes_pay _ _ _ Hp). unfold node_bytes. change (payloads (on_blocks _ h)) with (payloads h).
    rewrite Hp. unfold bytes. rewrite Hd. simpl. rewrite lookup_insert_eq, Hbs. simpl.
    apply slice_overwrite_inside; lia.
Qed.

(** An IOBuf that is not shared is private. *)
Lemma own_unshared h p b : wf h -> payloads h !! p = Some b -> ~ one_shared h b -> own_data h p.
Proof.
  intros Hw Hp Hn b' k Hb' Hk. simplify_eq. unfold one_shared in Hn.
  destruct (sharedInfo b) as [s|] eqn:Hs; [|exfalso; by apply Hn].
  pose proof (refs_pos _ _ _ _ Hp Hs). assert (Hr : refs (payloads h) s = 1%nat).
  { destruct (decide (1 < refs (payloads h) s)%nat); [exfalso; apply Hn; by right|lia]. }
  intros q c Hne Hq. destruct (last_user h p b s Hw Hp Hs Hr q c Hne Hq) as [_ H']. by apply H'.
Qed.

(** The position is the same, up to [maybeShared_]. *)
Definition same_place (c c' : Cursor) : Prop :=
  crtBuf_ c' = crtBuf_ c /\ offset_ c' = offset_ c /\ buffer_ c' = buffer_ c.

Lemma unshare_if_wp access h l c dn todo :
  wf h -> chain h l -> standing h l c dn todo -> may_write access h l c -> caps_ok h l ->
  wp (unshare_if access) (h, c)
    (fun _ s => same_place c s.2 /\ wf s.1 /\ keeps [crtBuf_ c] [] h s.1 /\ caps_ok s.1 l /\
       node_bytes s.1 (crtBuf_ c) = node_bytes h (crtBuf_ c) /\
       own_data s.1 (crtBuf_ c) /\ may_write access s.1 l s.2 /\
       (exists b b', payloads h !! crtBuf_ c = Some b /\ payloads s.1 !! crtBuf_ c = Some b' /\ length_ b' = length_ b))
    (fun e s => e = bad_alloc /\ refused h /\ unchanged h s.1 /\ s.2 = c).
Proof.
  intros Hw Hc Hs Hmay Hcap. pose proof (standing_in h l Hc _ _ _ Hs) as Hin.
  destruct (standing_payload h l Hw Hc _ _ _ Hs) as (b & Hb & Hlen & Hbd). destruct access; simpl in *.
  - apply wp_ret. split_and!; simpl; try done; [by apply Hmay|by exists b, b].
  - unfold maybeUnshare. apply wp_bind, wp_self. destruct (maybeShared_ c) eqn:Hms.
    2:{ apply wp_ret. split_and!; simpl; try done; try (by intros; apply Hmay); by exists b, b. }
    apply wp_bind, wp_lift. eapply wp_mono; [apply (unshareOne_wp h _ b Hw Hb); by apply (Hcap (crtBuf_ c) b)| |].
    + intros [] h1 (b1 & (Hw1 & Hk1 & Hp1 & _) & Hby & (Hl1 & Hc1 & _) & Hn). apply wp_set_cursor.
      assert (Hb1 : payloads h1 !! crtBuf_ c = Some b1) by (rewrite Hp1; apply lookup_insert_eq).
      pose proof (own_unshared _ _ _ Hw1 Hb1 Hn) as Hown.
      split_and!; simpl; try done; [|by exists b, b1].
      intros q b' Hq. rewrite Hp1, lookup_insert. case_decide; [intros [= <-]|by apply Hcap].
      rewrite Hc1. by apply (Hcap (crtBuf_ c) b).
    + intros e h1 (-> & Hr & Hu). done.
Qed.

(** One [memcpy] of [pushAtMost]. *)
Lemma write_here_wp {B} access h l c dn todo cp (k : Cur B) Q E :
  wf h -> chain h l -> standing h l c dn todo -> may_write access h l c -> caps_ok h l ->
  zlen cp <= zlen (left_ h c) ->
  (forall h', refused h -> unchanged h h' -> E bad_alloc (h', c)) ->
  (forall h' c', same_place c c' -> wf h' -> chain h' l -> keeps [crtBuf_ c] [] h h' -> caps_ok h' l ->
     node_bytes h' (crtBuf_ c) = overwrite (offset_ c) cp (node_bytes h (crtBuf_ c)) ->
     may_write access h' l c' -> wp k (h', c') Q E) ->
  wp (unshare_if access;; a ← RWCursor_writableData; lift (store_bytes a cp);; k) (h, c) Q E.
Proof.
  intros Hw Hc Hs Hmay Hcap Hle HE Hk. pose proof (zlen_left h l _ _ _ Hs) as Hzl.
  pose proof (st_offset _ _ _ _ _ Hs) as Ho. pose proof (zlen_nonneg cp) as Hz.
  apply wp_bind. eapply wp_mono; [by eapply unshare_if_wp| |].
  2:{ intros e [h' c'] (-> & Hr & Hu & Hcc). simpl in *. subst c'. by apply HE. }
  intros [] [h1 c1] ((Hp1 & Hp2 & Hp3) & Hw1 & Hk1 & Hcap1 & Hby1 & Hown & Hmay1 & b & b1 & Hb & Hb1 & Hlen). simpl in *.
  unfold RWCursor_writableData. apply wp_bind, wp_bind, wp_self. rewrite Hp1, Hp2.
  apply wp_bind, wp_lift. eapply wp_load; [done|]. apply wp_ret. apply wp_bind, wp_lift.
  pose proof (length_bytes _ _ _ Hw Hb) as Hlb.
  eapply wp_nothrow; [apply (store_data_wp h1 _ b1 _ cp Hw1 Hb1 Hown); lia|].
  intros [] h2 (Hw2 & Hb2 & Hk2 & Hby2). pose proof (payloads_of_bufs _ _ Hb2) as Hp.
  assert (Hk02 : keeps [crtBuf_ c] [] h h2) by (by eapply keeps_trans).
  apply Hk; try done.
  - eapply keeps_chain; [exact Hk02|set_solver|done].
  - intros q b' Hq. rewrite Hp. by apply Hcap1.
  - by rewrite Hby2, Hby1.
  - destruct access; simpl in *; unfold own_data, sole in *; rewrite Hp; [|rewrite Hp1 in *]; done.
Qed.

Lemma take_overwrite {A} off (cp k : list A) :
  0 <= off <= zlen k -> take (Z.to_nat (off + zlen cp)) (overwrite off cp k) = take (Z.to_nat off) k ++ cp.
Proof.
  intros Ho. unfold overwrite. rewrite (assoc_L (++)). apply take_app_length'.
  rewrite length_app, length_take. unfold zlen in *. lia.
Qed.

Lemma drop_overwrite {A} off (cp k : list A) :
  0 <= off <= zlen k -> drop (Z.to_nat (off + zlen cp)) (overwrite off cp k) = drop (Z.to_nat (off + zlen cp)) k.
Proof.
  intros Ho. unfold overwrite. rewrite (assoc_L (++)), drop_app_length'.
  - f_equal. unfold zlen. lia.
  - rewrite length_app, length_take. unfold zlen in *. lia.
Qed.

(** The bytes of the other elements are as before. *)
Lemma around h h' l c dn todo :
  chain h l -> standing h l c dn todo -> keeps [crtBuf_ c] [] h h' ->
  chain_bytes h' dn = chain_bytes h dn /\ chain_bytes h' todo = chain_bytes h todo.
Proof.
  intros Hc Hs Hk. pose proof (chain_NoDup _ _ Hc) as Hnd. rewrite (st_split _ _ _ _ _ Hs) in Hnd.
  apply NoDup_app in Hnd as (_ & Hd & Hnd). apply NoDup_cons in Hnd as [Hn _].
  assert (Hin : forall p, p ∈ dn \/ p ∈ todo -> node_bytes h' p = node_bytes h p).
  { intros p Hp. apply (k_bytes _ _ _ _ Hk).
    - intros ->%list_elem_of_singleton. destruct Hp as [Hp|Hp]; [|done]. apply (Hd _ Hp). by left.
    - destruct (chain_payload h l p Hc) as [b ?]; [|eauto]. rewrite (st_split _ _ _ _ _ Hs), elem_of_app, elem_of_cons.
      tauto. }
  split; apply chain_bytes_ext; intros p Hp; apply Hin; tauto.
Qed.

(** The cursor after [cp] was written over the bytes that follow it. *)
Lemma rep_written h h' l c c' dn todo cp :
  wf h -> chain h l -> standing h l c dn todo -> keeps [crtBuf_ c] [] h h' -> same_place c c' ->
  zlen cp <= zlen (left_ h c) ->
  node_bytes h' (crtBuf_ c) = overwrite (offset_ c) cp (node_bytes h (crtBuf_ c)) ->
  let c2 := with_offset (offset_ c' + zlen cp) c' in
  standing h' l c2 dn todo /\
  chain_bytes h' dn ++ seen h' c2 = (chain_bytes h dn ++ seen h c) ++ cp /\
  left_ h' c2 ++ chain_bytes h' todo = drop (length cp) (left_ h c ++ chain_bytes h todo).
Proof.
  intros Hw Hc Hs Hk (H1 & H2 & H3) Hle Hby c2. pose proof (around _ _ _ _ _ _ Hc Hs Hk) as [Hdn Htodo].
  pose proof (st_offset _ _ _ _ _ Hs) as Ho. pose proof (zlen_left h l _ _ _ Hs) as Hzl.
  pose proof (zlen_nonneg cp) as Hz. split_and!.
  - destruct Hs as [Hh Hsp _]. split; simpl; [by rewrite H3|by rewrite H1|].
    rewrite H1, H2, Hby, zlen_overwrite by lia. lia.
  - unfold seen, c2. simpl. rewrite H1, H2, Hby, take_overwrite, Hdn by done. by rewrite (assoc_L (++)).
  - unfold left_, c2. simpl. rewrite H1, H2, Hby, drop_overwrite, Htodo by done.
    rewrite drop_app_le by (unfold left_, zlen in *; lia). rewrite drop_drop. do 2 f_equal. unfold zlen. lia.
Qed.

(** The cursor sees the same bytes in an unchanged memory. *)
Lemma rep_unchanged h h' l c before after :
  chain h l -> unchanged h h' -> cursor_rep h l c before after -> chain h' l /\ cursor_rep h' l c before after.
Proof.
  intros Hc (_ & Hk & _) (dn & todo & Hs & Hb & Ha). split; [eapply keeps_chain; [exact Hk|set_solver|done]|].
  assert (Hn : forall p, p ∈ l -> node_bytes h' p = node_bytes h p).
  { intros p Hp. apply (k_bytes _ _ _ _ Hk); [set_solver|]. destruct (chain_payload h l p Hc Hp). eauto. }
  pose proof Hs as [Hh Hsp Ho]. assert (Hcur : crtBuf_ c ∈ l) by by eapply (standing_in h l Hc).
  exists dn, todo. split_and!.
  - split; [done|done|]. by rewrite Hn.
  - rewrite Hb. f_equal; [symmetry|unfold seen; by rewrite Hn]. apply chain_bytes_ext. intros p Hp. apply Hn. rewrite Hsp.
    apply elem_of_app. by left.
  - rewrite Ha. f_equal; [unfold left_; by rewrite Hn|symmetry]. apply chain_bytes_ext. intros p Hp. apply Hn. rewrite Hsp.
    apply elem_of_app. right. by right.
Qed.

(** The bytes after the cursor are overwritten, as far as the chain goes, or up
    to the element whose buffer cannot be unshared; the other objects keep their
    bytes. *)
Lemma rw_push_wp access h l c before after buf :
  wf h -> chain h l -> cursor_rep h l c before after -> may_write access h l c -> caps_ok h l ->
  zlen buf < 2 ^ 64 ->
  wp (RWCursor_pushAtMost access buf) (h, c)
    (fun r s => r = Z.min (zlen buf) (zlen after) /\ wf s.1 /\ chain s.1 l /\ keeps l [] h s.1 /\
       cursor_rep s.1 l s.2 (before ++ take (Z.to_nat r) buf) (drop (Z.to_nat r) after))
    (fun e s => e = bad_alloc /\ refused h /\ wf s.1 /\ chain s.1 l /\ keeps l [] h s.1 /\
       exists r, 0 <= r <= zlen after /\ r < zlen buf /\
         cursor_rep s.1 l s.2 (before ++ take (Z.to_nat r) buf) (drop (Z.to_nat r) after)).
Proof.
  intros Hw Hc Hrep Hmay Hcap Hlen. unfold RWCursor_pushAtMost. case_decide as Hz.
  { apply wp_ret. pose proof (zlen_nonneg after). rewrite Z.min_l by lia. rewrite Hz.
    split_and!; simpl; try done. by rewrite app_nil_r. }
  destruct Hrep as (dn0 & todo0 & Hs0 & Hb0 & Ha0). apply wp_bind, wp_gets.
  pose proof (standing_fuel h l Hc _ _ _ Hs0) as Hfuel.
  eapply (wp_iter _ (fun k '(rest, copied) s => exists cp dn todo, k = length todo /\ buf = cp ++ rest /\
      copied = zlen cp /\ rest <> [] /\ wf s.1 /\ chain s.1 l /\ keeps l [] h s.1 /\ caps_ok s.1 l /\
      may_write access s.1 l s.2 /\ standing s.1 l s.2 dn todo /\ zlen cp <= zlen after /\
      chain_bytes s.1 dn ++ seen s.1 s.2 = before ++ cp /\
      left_ s.1 s.2 ++ chain_bytes s.1 todo = drop (length cp) after)) with (n := length todo0); [|lia|].
  2:{ exists [], dn0, todo0. pose proof (zlen_nonneg after). rewrite app_nil_r. split_and!; simpl; try done. by intros ->. }
  clear Hs0 Hb0 Ha0 Hmay Hcap Hfuel dn0 todo0 c Hc Hw Hz.
  intros k [rest copied] [h1 c1] (cp & dn & todo & -> & Hbuf & -> & Hne & Hw & Hc & Hk & Hcap & Hmay & Hs & Hcp & Hb & Haf).
  simpl in *.
  assert (Hzl : zlen buf = zlen cp + zlen rest) by (by rewrite Hbuf, zlen_app).
  pose proof (zlen_nonneg cp) as Hz1. pose proof (zlen_nonneg rest) as Hz2.
  assert (Hza : zlen after = zlen cp + zlen (left_ h1 c1) + zlen (chain_bytes h1 todo)).
  { apply (f_equal zlen) in Haf. rewrite zlen_app in Haf. unfold zlen in *. rewrite length_drop in Haf. lia. }
  pose proof (zlen_nonneg (chain_bytes h1 todo)) as Hz3. pose proof (zlen_nonneg (left_ h1 c1)) as Hz4.
  pose proof (standing_in h1 l Hc _ _ _ Hs) as Hin.
  destruct (standing_payload h1 l Hw Hc _ _ _ Hs) as (b & _ & Hlb & Hbd). unfold max_alloc in Hbd.
  pose proof (zlen_left h1 l _ _ _ Hs) as Hll. pose proof (st_offset _ _ _ _ _ Hs) as Ho.
  assert (Hfail : forall h', refused h1 -> unchanged h1 h' -> bad_alloc = bad_alloc /\ refused h /\ wf h' /\ chain h' l /\
            keeps l [] h h' /\ exists r, 0 <= r <= zlen after /\ r < zlen buf /\
            cursor_rep h' l c1 (before ++ take (Z.to_nat r) buf) (drop (Z.to_nat r) after)).
  { intros h' [n Hr] Hu. destruct (rep_unchanged h1 h' l c1 (before ++ cp) (drop (length cp) after)) as [Hc' Hrep'];
      [done|done|by exists dn, todo|]. destruct Hu as (Hw' & Hk' & _). split_and!; [done| |done|done| |].
    - exists n. by rewrite <- (k_oracle _ _ _ _ Hk).
    - eapply keeps_trans; [exact Hk|]. eapply keeps_weaken; [| |exact Hk']; set_solver.
    - exists (zlen cp). assert (zlen rest <> 0) by (intros ?%nil_zlen; done). split_and!; [lia|lia|lia|].
      assert (Hn : Z.to_nat (zlen cp) = length cp) by (unfold zlen; lia). rewrite Hn, Hbuf, take_app_length. done. }
  apply wp_bind. eapply wp_length; [done..|]. case_decide as Hfit.
  - eapply write_here_wp; [done..|exact Hfail|]. intros h2 c2 Hsame Hw2 Hc2 Hk2 Hcap2 Hby Hmay2.
    destruct (rep_written h1 h2 l c1 c2 dn todo rest Hw Hc Hs Hk2 Hsame Hfit Hby) as (Hs3 & Hb3 & Ha3).
    destruct Hsame as (H1 & H2 & H3).
    apply wp_bind, wp_set_cursor. apply wp_ret. rewrite (u64_small (offset_ c2 + zlen rest)) by lia.
    rewrite u64_small by lia. rewrite Z.min_l by lia. split_and!; simpl; try done.
    + eapply keeps_trans; [exact Hk|]. eapply keeps_weaken; [| |exact Hk2]; [|done].
      by intros p ->%list_elem_of_singleton.
    + rewrite <- Hzl, take_zlen by done. exists dn, todo. split_and!; [done| |].
      * by rewrite Hb3, Hb, <- (assoc_L (++)), Hbuf.
      * rewrite Ha3, Haf, drop_drop. f_equal. unfold zlen in *. lia.
  - set (part := take (Z.to_nat (zlen (left_ h1 c1))) rest).
    assert (Hpart : zlen part = zlen (left_ h1 c1)) by (apply zlen_take_le; lia).
    eapply (write_here_wp access h1 l c1 dn todo part); [done..|lia|exact Hfail|].
    intros h2 c2 Hsame Hw2 Hc2 Hk2 Hcap2 Hby Hmay2.
    destruct (rep_written h1 h2 l c1 c2 dn todo part Hw Hc Hs Hk2 Hsame ltac:(lia) Hby) as (Hs3 & Hb3 & Ha3).
    destruct Hsame as (H1 & H2 & H3). set (c3 := with_offset (offset_ c2 + zlen part) c2) in *.
    assert (Hnode : zlen (node_bytes h2 (crtBuf_ c2)) = zlen (node_bytes h1 (crtBuf_ c1))).
    { rewrite H1, Hby. apply zlen_overwrite; lia. }
    assert (Hs2 : standing h2 l c2 dn todo).
    { destruct Hs as [Hh Hsp _]. split; [by rewrite H3|by rewrite H1|]. rewrite Hnode, H2. done. }
    assert (Hfull : offset_ c3 = zlen (node_bytes h2 (crtBuf_ c2))) by (unfold c3; simpl; rewrite Hnode; lia).
    assert (Hleft3 : left_ h2 c3 = []) by (unfold left_; rewrite Hfull; by apply drop_zlen).
    assert (Hseen3 : seen h2 c3 = node_bytes h2 (crtBuf_ c2)) by (unfold seen; rewrite Hfull; by apply take_zlen).
    assert (Hk02 : keeps l [] h h2).
    { eapply keeps_trans; [exact Hk|]. eapply keeps_weaken; [| |exact Hk2]; [|done].
      by intros p ->%list_elem_of_singleton. }
    rewrite Hleft3 in Ha3. simpl in Ha3. rewrite Haf, drop_drop in Ha3. rewrite Hb, <- (assoc_L (++)) in Hb3.
    rewrite !u64_small by lia.
    apply wp_bind. eapply wp_tryAdvance; [done|done|exact Hs2| |].
    + intros y t ->. destruct (rep_next h2 l (RWCursor_ access) c2 dn y t Hs2) as [He Hl]. apply wp_ret.
      exists (length t). split; [simpl; lia|]. exists (cp ++ part), (dn ++ [crtBuf_ c2]), t.
      split_and!; simpl; try done.
      * rewrite Hbuf, <- (assoc_L (++)). unfold part. by rewrite take_drop.
      * by rewrite zlen_app, Hpart.
      * intros Hn%(f_equal length). rewrite length_drop in Hn. simpl in Hn. unfold zlen in *. lia.
      * destruct access; [done|]. simpl. done.
      * exact (standing_next h2 l (RWCursor_ access) c2 dn y t Hs2).
      * rewrite zlen_app. lia.
      * simpl in He. rewrite He, app_nil_r, chain_bytes_snoc, <- Hseen3. done.
      * simpl in Hl. rewrite Hl. rewrite length_app. done.
    + intros ->. rewrite chain_bytes_nil, zlen_nil in *. apply wp_ret. rewrite Z.min_r by lia.
      assert (Hc3 : with_offset (zlen (node_bytes h2 (crtBuf_ c2))) c2 = c3) by (by rewrite <- Hfull).
      rewrite Hc3. split_and!; simpl; try done; [lia|]. exists dn, []. split_and!; [done| |].
      * rewrite Hb3. f_equal. unfold part. rewrite Hbuf.
        replace (Z.to_nat (zlen cp + zlen (left_ h1 c1))) with (length cp + Z.to_nat (zlen (left_ h1 c1)))%nat by (unfold zlen; lia).
        by rewrite take_app_add.
      * rewrite Hleft3. apply drop_zlen. lia.
Qed.
End Edit.
