(* ===== verification/CursorQueue.v ===== *)
(** * io/Cursor: what a QueueAppender does to its queue

    The bytes of the queue are extended at its end through [preallocate] and
    [postallocate]. *)

From stdpp Require Import base list gmap strings.
From S2P Require Import Prelude IOBufMem IOBuf IOBufChain IOBufInv IOBufWf IOBufPrim IOBufRelease IOBufLife IOBufWindow IOBufShare IOBufPiece IOBufRead IOBufQueue IOBufQueueRep IOBufQueueOps Bits Cursor CursorRead CursorInspect CursorWrite CursorAppend.

#[local] Opaque chain.

(** The last element [z] of the queue is private. *)
Definition tail_private (h : Heap) (l : list positive) (z : positive) (b : Payload) : Prop :=
  (exists pre, l = pre ++ [z]) /\ payloads h !! z = Some b /\
  has_flag kFlagMaybeShared b = false /\ is_Some (sharedInfo b) /\ is_Some (ablk (buf_ b)).

Section Queue.
Implicit Types (h : Heap) (q : IOBufQueue) (l : list positive) (bs : list Z) (b : Payload) (z : positive).

Lemma wp_on_queue {A} (m : Queue A) h a (Q : A -> Heap * QueueAppender -> Prop) E :
  wp m (h, queue_ a) (fun x s => Q x (s.1, mkQueueAppender s.2 (qa_growth_ a)))
    (fun e s => E e (s.1, mkQueueAppender s.2 (qa_growth_ a))) -> wp (on_queue m) (h, a) Q E.
Proof. unfold wp, on_queue. by destruct (m (h, queue_ a)) as [? []|? []| |]. Qed.

Lemma tail_private_sole h l z b : wf h -> tail_private h l z b -> exists k, ablk (buf_ b) = Some k /\ sole h z k.
Proof.
  intros Hw (_ & Hz & Hf & [s Hs] & [k Hk]). exists k. split; [done|]. by eapply sole_unflagged.
Qed.

(** The head of the queue and the element before it. *)
Lemma queue_ends h q l bs z b :
  queue_rep h q l bs -> tail_private h l z b ->
  exists x, head_ q = Some x /\ prv h x = Some z.
Proof.
  intros Hr ([pre Hl] & _). destruct l as [|x r]; [by destruct pre|]. exists x. split; [apply (qr_head _ _ _ _ Hr)|].
  rewrite (chain_pred h x r); [|by apply (qr_chain _ _ _ _ Hr)]. by rewrite (last_of_snoc x r pre z).
Qed.

(** A private tail, or none. *)
Lemma tailBuf_wp h q l bs :
  queue_rep h q l bs ->
  wp tailBuf (h, q)
    (fun r s => s.2 = q /\ queue_rep s.1 q l bs /\ keeps l [] h s.1 /\
       forall z, r = Some z -> exists b, tail_private s.1 l z b /\ ~ one_shared s.1 b) nothrow.
Proof.
  intros Hr. unfold tailBuf. apply wp_bind, wp_this. rewrite (qr_head _ _ _ _ Hr). destruct l as [|x l]; simpl.
  { apply wp_ret. split_and!; try done. }
  destruct (snoc_exists x l) as (pre & z & Hxz). rewrite Hxz in Hr |- *.
  destruct (queue_rep_app _ _ _ _ _ _ Hr) as (Hc & Hbs & b & Hb & Hlen).
  rewrite <- Hxz in Hc. apply wp_bind, wp_lift. eapply wp_prev; [by apply chain_pred|].
  rewrite (last_of_snoc x l pre z) by done. apply wp_bind, wp_lift.
  eapply wp_nothrow; [apply (isSharedOne_wp h z b); [apply Hr|done]|].
  intros r h1 (Hiff & Hid & b1 & Hrw & Hcase & Hfl). apply wp_ret. destruct r.
  { rewrite (Hid eq_refl). split_and!; try done. }
  pose proof (rewindowed_pay _ _ _ _ Hrw) as Hb1. pose proof (rewindowed_bytes _ _ _ _ Hrw) as Hnb.
  assert (Hnb' : node_bytes h1 z = node_bytes h z).
  { rewrite Hnb, (node_bytes_pay _ _ _ Hb). by destruct Hcase as [->| ->]. }
  pose proof (rewindowed_on_heap _ _ _ _ z Hrw) as Hox. destruct Hrw as (Hw1 & Hk1 & Hp1 & _ & Hi1 & _).
  split_and!; [done| | |].
  - pose proof (edit_step h q pre z [] _ h1 _ (chainLength_ q) Hr Hw1 Hk1 Hnb' Hox) as Hes.
    rewrite <- Hbs in Hes. replace (with_chainLength (chainLength_ q) q) with q in Hes by by destruct q.
    apply Hes, Hr.
  - eapply keeps_weaken; [| |exact Hk1]; [|done]. intros p ->%list_elem_of_singleton.
    apply elem_of_app. right. by left.
  - intros z' [= <-]. exists b1.
    assert (Hnsh : ~ one_shared h b) by (intros Hsh; apply Hiff in Hsh; done).
    unfold one_shared in Hnsh. destruct (sharedInfo b) as [s|] eqn:Hs; [|exfalso; by apply Hnsh].
    assert (Hs1 : sharedInfo b1 = Some s).
    { destruct Hcase as [->| ->]; [done|]. by rewrite sharedInfo_clearFlags. }
    split.
    + split_and!; [by exists pre|done|by apply Hfl|by rewrite Hs1|].
      destruct (w_info _ _ _ _ Hw1 z b1 s Hb1 Hs1) as (i & _ & _ & Hpl).
      destruct Hpl as [(_ & -> & _)|(_ & _ & _ & k & -> & _)]; eauto.
    + simpl. unfold one_shared. rewrite Hs1, Hi1, Hp1, (refs_insert_same _ _ b); [done|done|by rewrite Hs1].
Qed.

(** Asked again, the queue gives the same answer. *)
Lemma tailBuf_again_wp h q l bs z b (Q : option positive -> _ -> Prop) E :
  queue_rep h q l bs -> tail_private h l z b -> ~ one_shared h b ->
  Q (Some z) (h, q) -> wp tailBuf (h, q) Q E.
Proof.
  intros Hr Htp Hns HQ. destruct (queue_ends _ _ _ _ _ _ Hr Htp) as (x & Hx & Hp).
  destruct Htp as (_ & Hz & Hf & [s Hs] & _). unfold tailBuf. apply wp_bind, wp_this. rewrite Hx.
  apply wp_bind, wp_lift. eapply wp_prev; [done|]. apply wp_bind, wp_lift.
  unfold isSharedOne. apply wp_bind. eapply wp_load; [done|]. unfold one_shared in Hns. rewrite Hs in Hns |- *.
  destruct (w_info _ _ _ _ (qr_wf _ _ _ _ Hr) z b s Hz Hs) as (i & Hi & _).
  apply wp_bind. eapply wp_deref_info; [done|]. destruct (externallyShared i) eqn:He.
  { exfalso. apply Hns. left. by exists i. }
  rewrite Hf. simpl. apply wp_ret. by apply wp_ret.
Qed.

(** A new private element of at least [n] bytes. *)
Lemma grow_any_wp h q l bs n :
  queue_rep h q l bs -> alloc_ok h -> 0 <= n -> n + offsetof_align <= max_alloc ->
  wp (nb ← lift (create n); append_to_head nb false) (h, q)
    (fun _ s => exists nb b, payloads h !! nb = None /\ queue_rep s.1 s.2 (l ++ [nb]) bs /\
       keeps [] l h s.1 /\ tail_private s.1 (l ++ [nb]) nb b /\ n <= tailroom b) nothrow.
Proof.
  intros Hr Ha Hn Hm. pose proof Hr as [Hw Hh Hc Ho Hb Hl]. apply wp_bind, wp_lift.
  eapply wp_wand; [by apply create_wp|].
  intros nb h1 (Hoh & a & cap & Hcap & (Hw1 & Hk1 & Hnb & Hcn & Hpay) & _).
  assert (Hd : l ## [nb]).
  { intros p Hp ->%list_elem_of_singleton. destruct (queue_rep_alive _ _ _ _ nb Hr Hp). congruence. }
  assert (Hr1 : queue_rep h1 q l bs) by (eapply queue_rep_keeps; [done|done|exact Hk1|set_solver]).
  eapply wp_nothrow; [apply (append_to_head_wp h1 q l bs nb []); try done|].
  { by intros p ->%list_elem_of_singleton. }
  intros [] [h2 q2] (Hq2 & Hrl & Hc2). simpl in Hq2, Hrl, Hc2.
  assert (Hnb1 : payloads h1 !! nb = Some (fresh_payload a cap)) by (rewrite Hpay; apply lookup_insert_eq).
  assert (Hbn : chain_bytes h1 [nb] = []).
  { rewrite chain_bytes_cons, chain_bytes_nil, app_nil_r. unfold node_bytes. by rewrite Hnb1. }
  assert (Hr2 : queue_rep h2 q2 (l ++ [nb]) bs).
  { assert (Heq : q2 = with_head (head (l ++ [nb])) (with_chainLength (chainLength_ q) q))
      by (rewrite Hq2; by destruct q).
    rewrite Heq, <- (app_nil_r bs), <- Hbn. apply (linked_rep h1 q l bs nb [] h2); try done.
    - by intros p ->%list_elem_of_singleton.
    - intros Hcc. rewrite Hbn, (Hl Hcc). change (zlen []) with 0. rewrite wrap_add by done.
      by rewrite Z.add_0_r. }
  assert (Hnb2 : payloads h2 !! nb = Some (fresh_payload a cap)) by by rewrite (rl_body _ _ _ Hrl).
  exists nb, (fresh_payload a cap). split_and!; [done|done| | |].
  - eapply keeps_grow; [eapply keeps_weaken; [| |exact Hk1]; set_solver|by apply keeps_relinked|..]; simpl.
    + by intros p ?%elem_of_nil.
    + intros p [Hp|Hp]%elem_of_app; [by left|]. apply list_elem_of_singleton in Hp as ->. by right.
  - split_and!; [by exists l|done|apply has_flag_fresh|rewrite sharedInfo_fresh; eauto|simpl; eauto].
  - rewrite (window_tailroom (blocks h2) _ a) by (done || by apply (wf_window h2 nb); [apply Hr2|]).
    simpl. lia.
Qed.

(** The place that [preallocate] offers. *)
Definition offered (h : Heap) (l : list positive) (bs : list Z) (mn mx : Z) (r : addr * Z) (s : Heap * IOBufQueue) : Prop :=
  exists l1 z b, queue_rep s.1 s.2 l1 bs /\ keeps l l h s.1 /\ extends h l l1 /\ l `prefix_of` l1 /\
    tail_private s.1 l1 z b /\ mn <= tailroom b /\ r = (tail b, Z.min mx (tailroom b)).

Lemma preallocate_wp h q l bs mn na mx :
  queue_rep h q l bs -> alloc_ok h -> 0 <= mn -> 0 <= na -> Z.max mn na + offsetof_align <= max_alloc ->
  wp (IOBufQueue_preallocate mn na mx) (h, q) (fun r s => offered h l bs mn mx r s) nothrow.
Proof.
  intros Hr Ha Hmn Hna Hm. unfold IOBufQueue_preallocate. apply wp_bind. eapply wp_wand; [by apply tailBuf_wp|].
  intros r [h1 q1] (Hq1 & Hr1 & Hk1 & Hz). simpl in *. subst q1.
  assert (Hk1' : keeps l l h h1) by (eapply keeps_weaken; [| |exact Hk1]; set_solver).
  assert (Hslow : wp (IOBufQueue_preallocateSlow mn na mx) (h1, q) (fun r s => offered h l bs mn mx r s) nothrow).
  { unfold IOBufQueue_preallocateSlow. apply wp_assoc, wp_bind.
    eapply wp_wand; [apply (grow_any_wp h1 q l bs); [done|by eapply keeps_alloc_ok|lia|done]|].
    intros [] [h2 q2] (nb & b & Hnb & Hr2 & Hk2 & Htp & Hroom). simpl in *.
    destruct (queue_ends _ _ _ _ _ _ Hr2 Htp) as (x & Hx & Hp). apply wp_bind, wp_this.
    apply wp_bind. eapply wp_of_option; [done|]. apply wp_bind, wp_lift. eapply wp_prev; [done|].
    apply wp_bind, wp_lift. eapply wp_load; [apply Htp|]. apply wp_ret.
    exists (l ++ [nb]), nb, b. split_and!; try done; simpl.
    - eapply keeps_grow; [exact Hk1'|exact Hk2|by intros p ?%elem_of_nil|by left].
    - eapply (extends_snoc h l l h1 q); [exact Hk1'|done|split; [done|by left]|done].
    - by apply prefix_app_r.
    - lia. }
  destruct r as [z|]; [|exact Hslow]. destruct (Hz z eq_refl) as (b & Htp & _). apply wp_bind, wp_lift.
  eapply wp_load; [apply Htp|]. case_decide as Hle; [|exact Hslow]. apply wp_ret.
  exists l, z, b. split_and!; try done. split; [done|by left].
Qed.

(** Bytes are copied to the place offered and taken over by the queue. *)
Lemma store_offered_wp h q l bs z b cp :
  queue_rep h q l bs -> tail_private h l z b -> zlen cp <= tailroom b ->
  wp (store_bytes (tail b) cp) h
    (fun _ h' => queue_rep h' q l bs /\ tail_private h' l z b /\ keeps [] [] h h' /\
       bytes (blocks h') (with_length (length_ b + zlen cp) b) = bytes (blocks h) b ++ cp) nothrow.
Proof.
  intros Hr Htp Hle. destruct (tail_private_sole _ _ _ _ (qr_wf _ _ _ _ Hr) Htp) as (k & Hk & Hsole).
  pose proof Htp as (Hl & Hz & Hrest).
  eapply wp_wand; [by eapply (store_tail_wp h z b k cp); [apply Hr|..]|].
  intros [] h1 (Hw1 & Hk1 & Hb1 & _ & _ & Hby). split_and!; try done.
  - eapply queue_rep_keeps; [done|done|exact Hk1|set_solver].
  - split; [done|]. split; [by rewrite (payloads_of_bufs _ _ Hb1)|exact Hrest].
Qed.

Lemma postallocate_wp h q l bs z b cp :
  queue_rep h q l bs -> tail_private h l z b -> zlen cp <= tailroom b ->
  bytes (blocks h) (with_length (length_ b + zlen cp) b) = bytes (blocks h) b ++ cp ->
  wp (IOBufQueue_postallocate (zlen cp)) (h, q)
    (fun _ s => queue_rep s.1 s.2 l (bs ++ cp) /\ keeps l [] h s.1 /\
       exists b', tail_private s.1 l z b' /\ tailroom b' = tailroom b - zlen cp) nothrow.
Proof.
  intros Hr Htp Hle Hby. destruct (queue_ends _ _ _ _ _ _ Hr Htp) as (x & Hx & Hp).
  destruct (tail_private_sole _ _ _ _ (qr_wf _ _ _ _ Hr) Htp) as (k & Hk & Hsole).
  pose proof Htp as ([pre ->] & Hz & Hf & Hs & Ha). pose proof (zlen_nonneg cp) as Hcp.
  unfold IOBufQueue_postallocate. apply wp_bind, wp_this. apply wp_bind. eapply wp_of_option; [done|].
  apply wp_bind, wp_lift. eapply wp_prev; [done|]. apply wp_bind, wp_lift.
  eapply wp_wand; [apply (append_wp h z b (zlen cp) k); [apply Hr|done|done|lia]|].
  intros [] h2 Hrw. apply wp_set_queue. pose proof (rewindowed_bytes _ _ _ _ Hrw) as Hnb.
  pose proof (rewindowed_pay _ _ _ _ Hrw) as Hb2.
  rewrite Hby, <- (node_bytes_pay _ _ _ Hz) in Hnb. pose proof (rewindowed_on_heap _ _ _ _ z Hrw) as Hox.
  destruct Hrw as (Hw2 & Hk2 & _). destruct (queue_rep_app _ _ _ _ _ _ Hr) as (Hc & Hbs & _).
  rewrite chain_bytes_nil, app_nil_r in Hbs. split_and!; simpl.
  - pose proof (edit_step h q pre z [] _ h2 (node_bytes h z ++ cp)
      (u64 (chainLength_ q + zlen cp)) Hr Hw2 Hk2 Hnb Hox) as Hes.
    rewrite chain_bytes_nil, app_nil_r, (assoc_L (++)), <- Hbs in Hes. apply Hes.
    intros Hcc. rewrite (qr_len _ _ _ _ Hr Hcc), wrap_add by done. by rewrite <- zlen_app.
  - eapply keeps_weaken; [| |exact Hk2]; [|done]. intros p ->%list_elem_of_singleton.
    apply elem_of_app. right. by left.
  - exists (with_length (length_ b + zlen cp) b). split.
    + split_and!; [by exists pre|done|done| |done]. exact Hs.
    + rewrite (window_tailroom _ _ k (wf_window _ _ _ (qr_wf _ _ _ _ Hr) Hz) Hk).
      rewrite (window_tailroom _ _ k (wf_window _ _ _ Hw2 Hb2) Hk). simpl. lia.
Qed.
End Queue.

(** ** Pushing *)

(** [cp] was appended to the queue. *)
Definition queue_extended (h : Heap) (a : QueueAppender) (l : list positive) (bs cp : list Z) (s : Heap * QueueAppender) : Prop :=
  exists l1, queue_rep s.1 (queue_ s.2) l1 (bs ++ cp) /\ keeps l l h s.1 /\ extends h l l1 /\
    qa_growth_ s.2 = qa_growth_ a.

Section Push.
Context (h : Heap) (a : QueueAppender) (l : list positive) (bs : list Z).
Context (Hrep : queue_rep h (queue_ a) l bs) (Ha : alloc_ok h).
Context (Hg : 1 <= qa_growth_ a) (Hgm : qa_growth_ a + offsetof_align <= max_alloc).

#[local] Abbreviation ext := (queue_extended h a l bs).

Lemma ext_refl : ext [] (h, a).
Proof. exists l. rewrite app_nil_r. split_and!; try done. split; [done|by left]. Qed.

Lemma wp_qapp s (Q : QueueAppender -> _ -> Prop) E : Q s.2 s -> wp qapp s Q E.
Proof. by destruct s. Qed.

(** A step on the queue that keeps to the elements of [l1] and to new ones. *)
Lemma extends_keeps l1 h1 h2 L :
  keeps l l h h1 -> extends h l l1 -> (forall p, p ∈ L -> p ∈ l1) -> keeps l1 L h1 h2 -> keeps l l h h2.
Proof.
  intros Hk [_ He] HL Hk2. eapply keeps_grow; [exact Hk|exact Hk2|apply He|].
  intros p Hp. apply He. by apply HL.
Qed.

(** Copying [cp] to the place offered. *)
Lemma fill_offered_wp cp0 l1 h1 a1 z b cp :
  queue_rep h1 (queue_ a1) l1 (bs ++ cp0) -> keeps l l h h1 -> extends h l l1 -> qa_growth_ a1 = qa_growth_ a ->
  tail_private h1 l1 z b -> zlen cp <= tailroom b ->
  wp (lift (store_bytes (tail b) cp);; on_queue (IOBufQueue_postallocate (zlen cp))) (h1, a1)
    (fun _ s => ext (cp0 ++ cp) s) nothrow.
Proof.
  intros Hr Hk He Hga Htp Hle. apply wp_bind, wp_lift.
  eapply wp_nothrow; [by eapply (store_offered_wp h1 _ l1 _ z b cp)|].
  intros [] h2 (Hr2 & Htp2 & Hk2 & Hby). apply wp_on_queue.
  assert (Hz2 : bytes (blocks h2) b = bytes (blocks h1) b).
  { rewrite <- (node_bytes_pay h1 z b), <- (node_bytes_pay h2 z b); [|apply Htp2|apply Htp].
    apply (k_bytes _ _ _ _ Hk2); [set_solver|]. destruct Htp as (_ & -> & _). eauto. }
  eapply wp_nothrow; [apply (postallocate_wp h2 _ l1 _ z b cp Hr2 Htp2 Hle); by rewrite Hz2|].
  intros [] s (Hr3 & Hk3 & _). exists l1. simpl. rewrite (assoc_L (++)). split_and!; try done.
  eapply (extends_keeps l1 h2); [|done| |exact Hk3]; [|by intros p ?%elem_of_nil].
  eapply (extends_keeps l1 h1 h2 []); [done|done|by intros p ?%elem_of_nil|].
  eapply keeps_weaken; [| |exact Hk2]; [by intros p ?%elem_of_nil|done].
Qed.

(** Filling up the last buffer. *)
Lemma fill_current_wp {B} buf (k : Z -> QApp B) Q E :
  (forall n s, 0 <= n <= zlen buf -> ext (take (Z.to_nat n) buf) s -> wp (k n) s Q E) ->
  wp (room ← QueueAppender_length;
      (if decide (Z.min (zlen buf) room <> 0) then
         p ← QueueAppender_writableData;
         lift (store_bytes p (take (Z.to_nat (Z.min (zlen buf) room)) buf));;
         QueueAppender_append (Z.min (zlen buf) room)
       else mret tt);; k (Z.min (zlen buf) room)) (h, a) Q E.
Proof.
  intros Hk. pose proof (zlen_nonneg buf) as Hz. unfold QueueAppender_length.
  apply wp_bind, wp_on_queue. unfold IOBufQueue_tailroom. apply wp_bind.
  eapply wp_nothrow; [by apply tailBuf_wp|]. intros r [h1 q1] (Hq1 & Hr1 & Hk1 & Htp). simpl in *. subst q1.
  assert (Hk01 : keeps l l h h1) by (eapply keeps_weaken; [| |exact Hk1]; set_solver).
  assert (Hel : extends h l l) by (split; [done|by left]).
  assert (Hnone : wp (mret tt;; k 0) (h1, mkQueueAppender (queue_ a) (qa_growth_ a)) Q E).
  { apply wp_bind, wp_ret, Hk; [lia|]. exists l. rewrite app_nil_r. by split_and!. }
  destruct r as [z|]; [|apply wp_ret; by rewrite Z.min_r by lia].
  destruct (Htp z eq_refl) as (b & Htpb & Hns). pose proof (tailroom_nonneg b) as Hroom.
  apply wp_bind, wp_lift. eapply wp_load; [apply Htpb|]. apply wp_ret.
  set (n := Z.min (zlen buf) (tailroom b)). destruct (decide (n <> 0)) as [Hn|Hn]; [|by replace n with 0 by lia].
  assert (Hcp : zlen (take (Z.to_nat n) buf) = n) by (apply zlen_take_le; lia).
  apply wp_bind. unfold QueueAppender_writableData, IOBufQueue_writableTail. apply wp_bind, wp_on_queue. apply wp_bind.
  eapply tailBuf_again_wp; [exact Hr1|done|done|]. apply wp_bind, wp_lift. eapply wp_load; [apply Htpb|]. apply wp_ret.
  simpl. unfold QueueAppender_append.
  assert (IOBufQueue_postallocate n = IOBufQueue_postallocate (zlen (take (Z.to_nat n) buf))) as -> by (by rewrite Hcp).
  eapply wp_nothrow; [apply (fill_offered_wp [] l h1 _ z b); simpl; try done; [by rewrite app_nil_r|lia]|].
  intros [] s Hs. apply Hk; [lia|done].
Qed.

(** Everything is appended. *)
Lemma queue_push_wp buf :
  wp (QueueAppender_pushAtMost buf) (h, a) (fun r s => r = zlen buf /\ ext buf s) nothrow.
Proof.
  apply (fill_current_wp buf (fun n => a ← qapp;
    QueueAppender_push_rest (qa_growth_ a) (drop (Z.to_nat n) buf);; mret (zlen buf))). intros n s Hn Hext.
  apply wp_bind, wp_qapp. pose proof Hext as (_ & _ & _ & _ & Hgs). rewrite Hgs.
  apply wp_bind. eapply wp_wand with (Q := fun _ s => ext buf s); [|by intros [] s' Hs'; apply wp_ret].
  unfold QueueAppender_push_rest.
  eapply (wp_iter _ (fun k rest s => k = length rest /\ exists cp, buf = cp ++ rest /\ ext cp s))
    with (n := length (drop (Z.to_nat n) buf)); [|lia|].
  2:{ split; [done|]. exists (take (Z.to_nat n) buf). by rewrite take_drop. }
  clear n s Hn Hext Hgs. intros k rest [h1 a1] (-> & cp & Hbuf & Hext).
  pose proof Hext as (l1 & Hr1 & Hk1 & He1 & Hg1). simpl in *. pose proof (zlen_nonneg rest) as Hz.
  destruct (decide (zlen rest <> 0)) as [Hne|Hne].
  2:{ apply wp_ret. assert (rest = []) as -> by (apply nil_zlen; lia). by rewrite Hbuf, app_nil_r. }
  apply wp_bind, wp_on_queue.
  eapply wp_wand; [apply (preallocate_wp h1 (queue_ a1) l1); [done|by eapply keeps_alloc_ok|lia..]|].
  intros r [h2 q2] (l2 & z & b & Hr2 & Hk2 & He2 & Hpre & Htp & Hmin & ->). simpl in *.
  pose proof (tailroom_nonneg b) as Hroom.
  set (m := Z.min (zlen rest) (tailroom b)). set (part := take (Z.to_nat m) rest).
  assert (Hpart : zlen part = m) by (apply zlen_take_le; lia).
  apply wp_assoc, wp_bind.
  assert (IOBufQueue_postallocate m = IOBufQueue_postallocate (zlen part)) as -> by (by rewrite Hpart).
  eapply wp_wand; [apply (fill_offered_wp cp l2 h2 _ z b part); simpl; try done; [| |lia]|].
  - eapply (extends_keeps l1 h1); [done|done|done|exact Hk2].
  - destruct He1 as [H1 H2], He2 as [H3 H4]. split; [by auto|]. intros p Hp.
    destruct (H4 p Hp) as [Hp1|Hp1]; [by apply H2|]. destruct (decide (p ∈ l)) as [|Hin]; [by left|right].
    destruct (payloads h !! p) as [b0|] eqn:Hb0; [|done].
    by rewrite (k_pay _ _ _ _ Hk1 p b0 Hin Hb0) in Hp1.
  - intros [] s Hs. apply wp_ret. exists (length (drop (Z.to_nat m) rest)). split.
    { rewrite length_drop. unfold zlen in *. lia. }
    split; [done|]. exists (cp ++ part). split; [|done]. rewrite Hbuf, <- (assoc_L (++)). unfold part. by rewrite take_drop.
Qed.

(** [write] makes room for the whole value and cannot fail. *)
Lemma queue_write_wp w v :
  machine_width w ->
  wp (QueueAppender_write w v) (h, a) (fun _ s => ext (to_bytes (Z.to_nat (w / 8)) v) s) nothrow.
Proof.
  intros Hmw. assert (Hw8 : 0 <= w / 8 <= 8) by (by destruct Hmw as [->|[->|[->| ->]]]).
  unfold QueueAppender_write. apply wp_bind, wp_qapp. simpl. apply wp_bind, wp_on_queue.
  eapply wp_wand; [apply (preallocate_wp h (queue_ a) l); [done|done|lia|lia|]|].
  { unfold offsetof_align, max_alloc in *. lia. }
  intros r [h2 q2] (l2 & z & b & Hr2 & Hk2 & He2 & Hpre & Htp & Hmin & ->). simpl in *.
  set (cp := to_bytes (Z.to_nat (w / 8)) v).
  assert (Hcp : zlen cp = w / 8) by (unfold zlen, cp; rewrite length_to_bytes; lia).
  assert (IOBufQueue_postallocate (w / 8) = IOBufQueue_postallocate (zlen cp)) as -> by (by rewrite Hcp).
  apply (fill_offered_wp [] l2 h2 _ z b); simpl; try done; [by rewrite app_nil_r|lia].
Qed.
End Push.
