(* ===== verification/CursorSpec.v ===== *)
(** * io/Cursor: the contract

    A cursor is a position in the bytes of a chain: the bytes [before] it and
    the bytes [after] it.  The theorems below relate every group of methods to
    the operations on these two sequences. *)

From stdpp Require Import base list gmap strings.
From S2P Require Import Prelude IOBufMem IOBuf IOBufChain IOBufInv IOBufPrim IOBufLife IOBufWindow IOBufPiece IOBufRead IOBufSpec IOBufQueue IOBufQueueRep IOBufQueueOps IOBufQueueSpec Bits Cursor CursorRead CursorInspect CursorText CursorWrite CursorAppend CursorEdit CursorQueue.

#[local] Opaque chain.

(** A new cursor stands at the start of its chain. *)
Lemma ctor_rep h x r : cursor_rep h (x :: r) (Cursor_ctor x) [] (chain_bytes h (x :: r)).
Proof.
  exists [], r. pose proof (zlen_nonneg (node_bytes h x)). split_and!; [split; [done|done|simpl; lia]|done|].
  unfold left_, Cursor_ctor. simpl. by rewrite drop_0.
Qed.

(** A cursor in the middle of the example chain, after its first two bytes. *)
Definition demo_cursor : Cursor := mkCursor demo_a 2 demo_a true.

Lemma demo_cursor_rep : cursor_rep demo_heap [demo_a; demo_b; demo_c] demo_cursor [1; 2] [3; 4; 5].
Proof.
  exists [], [demo_b; demo_c]. split_and!; [split|..]; vm_compute; try reflexivity. split; intros H; discriminate H.
Qed.

(** ** Reading *)

(** C18: a cursor refines a position in a sequence of bytes. [pullAtMost(n)]
    and [skipAtMost(n)] pass over [min n |after|] bytes and return their number,
    [pull], [skip] and [readFixedString] throw [out_of_range] exactly when there
    are fewer than [n] (and then stand at the end), the bytes delivered are the
    first [n] bytes after the cursor however they are spread over the elements
    (empty ones included), and [retreat] is the same backwards. The memory is
    not changed, and all loops end. *)
Theorem cursor_reading_refines D h l c before after n :
  wf h -> chain h l -> cursor_rep h l c before after -> 0 <= n < 2 ^ 64 ->
  wp (Cursor_pullAtMost D n) (h, c)
    (fun '(r, bs) s => r = Z.min n (zlen after) /\ bs = take (Z.to_nat n) after /\ moved h l before after n s) nothrow /\
  wp (Cursor_skipAtMost D n) (h, c) (fun r s => r = Z.min n (zlen after) /\ moved h l before after n s) nothrow /\
  wp (Cursor_pull D n) (h, c)
    (fun bs s => n <= zlen after /\ bs = take (Z.to_nat n) after /\ moved h l before after n s)
    (fun e s => e = out_of_range "underflow" /\ zlen after < n /\ moved h l before after n s) /\
  wp (Cursor_skip D n) (h, c) (fun _ s => n <= zlen after /\ moved h l before after n s)
    (fun e s => e = out_of_range "underflow" /\ zlen after < n /\ moved h l before after n s) /\
  wp (Cursor_readFixedString D n) (h, c)
    (fun bs s => n <= zlen after /\ bs = take (Z.to_nat n) after /\ moved h l before after n s)
    (fun e s => e = out_of_range "string underflow" /\ zlen after < n /\ moved h l before after n s) /\
  wp (Cursor_retreatAtMost D n) (h, c)
    (fun r s => r = Z.min n (zlen before) /\ moved_back h l before after n s) nothrow /\
  wp (Cursor_retreat D n) (h, c) (fun _ s => n <= zlen before /\ moved_back h l before after n s)
    (fun e s => e = out_of_range "underflow" /\ zlen before < n /\ moved_back h l before after n s).
Proof.
  intros Hw Hc Hr Hn. split_and!; [by apply pullAtMost_wp|by apply skipAtMost_wp|by apply pull_wp|by apply skip_wp|
    by apply readFixedString_wp|by apply retreatAtMost_wp|by apply retreat_wp].
Qed.

Lemma cursor_reading_refines_witness :
  wp (Cursor_pull Cursor_ 2) (demo_heap, demo_cursor)
    (fun bs s => bs = [3; 4] /\ moved demo_heap [demo_a; demo_b; demo_c] [1; 2] [3; 4; 5] 2 s) nothrow.
Proof.
  destruct (cursor_reading_refines Cursor_ demo_heap [demo_a; demo_b; demo_c] demo_cursor
    [1; 2] [3; 4; 5] 2 demo_wf demo_chain demo_cursor_rep ltac:(lia)) as (_ & _ & H & _).
  eapply wp_mono; [exact H| |].
  - intros bs s (_ & Hb & Hm). exact (conj Hb Hm).
  - intros e s (_ & Hlt & _). unfold zlen in Hlt. simpl in Hlt. lia.
Defined.

(** The inspection is exact. [canAdvance(n)] holds when there are at least
    [n] bytes after the cursor, [isAtEnd] when there are none, also with empty
    elements behind it, [totalLength] is their number (in 64 bits), the
    difference of two cursors in one chain is the number of bytes between them,
    or an exception when the second one is not behind, and none of them changes
    the memory or the cursor. *)
Lemma cursor_inspection_exact h l c before after n :
  wf h -> chain h l -> cursor_rep h l c before after -> 0 <= n < 2 ^ 64 ->
  wp (Cursor_canAdvance n) (h, c) (fun r s => r = bool_decide (n <= zlen after) /\ s = (h, c)) nothrow /\
  wp Cursor_isAtEnd (h, c) (fun r s => r = bool_decide (after = []) /\ s = (h, c)) nothrow /\
  wp Cursor_totalLength (h, c) (fun r s => r = u64 (zlen after) /\ s = (h, c)) nothrow /\
  (forall c2 b2 a2, cursor_rep h l c2 b2 a2 ->
     wp (Cursor_diff c c2) h
       (fun r h' => h' = h /\ zlen b2 <= zlen before /\ r = u64 (zlen before - zlen b2))
       (fun e h' => h' = h /\ zlen before <= zlen b2 /\ exists what, e = out_of_range what)) /\
  (forall dn p todo, l = dn ++ p :: todo ->
     wp (Cursor_diff_buf c p) h
       (fun r h' => h' = h /\ zlen (chain_bytes h dn) <= zlen before /\ r = u64 (zlen before - zlen (chain_bytes h dn)))
       (fun e h' => h' = h /\ zlen before <= zlen (chain_bytes h dn) /\ e = out_of_range "wrap-around")).
Proof.
  intros Hw Hc Hr Hn. split_and!; [by eapply canAdvance_wp|by eapply isAtEnd_wp|by eapply totalLength_wp| |].
  - intros c2 b2 a2 Hr2. by eapply diff_wp.
  - intros dn p todo Hl. by eapply diff_buf_wp.
Qed.

Lemma cursor_inspection_exact_witness :
  wp Cursor_totalLength (demo_heap, demo_cursor) (fun r s => r = 3 /\ s = (demo_heap, demo_cursor)) nothrow.
Proof.
  destruct (cursor_inspection_exact demo_heap [demo_a; demo_b; demo_c] demo_cursor
    [1; 2] [3; 4; 5] 2 demo_wf demo_chain demo_cursor_rep ltac:(lia)) as (_ & _ & H & _).
  eapply wp_wand; [exact H|]. intros r s [-> ->]. split; reflexivity.
Defined.

Lemma line_high t bs : 128 <= t < 256 -> Forall (fun b => 0 <= b < 256) bs -> line (sext 8 t) bs = bs.
Proof.
  intros Ht Hbs. assert (Hneg : sext 8 t < 0).
  { unfold sext. rewrite u8_small by lia. rewrite decide_False by (simpl; lia). simpl. lia. }
  induction Hbs as [|b bs Hb _ IH]; simpl; [done|]. rewrite decide_False by lia. by rewrite IH.
Qed.

(** [readTerminatedString(t, max)] returns the bytes before the first [t]
    and passes over them and the [t]; it throws [out_of_range] when there is no
    [t], standing at the end, and [length_error] when [max] bytes come first.
    The byte (unsigned) is compared with a [char] (signed), so that [t] is
    found by its signed value: a terminator of 0x80 or more is never found. *)
Lemma cursor_terminated_string D h l c before after t max :
  wf h -> chain h l -> cursor_rep h l c before after -> 0 <= max < 2 ^ 64 ->
  (let ln := line (sext 8 t) after in
   wp (Cursor_readTerminatedString D t max) (h, c)
     (fun r s => r = ln /\ (ln = [] \/ zlen ln < max) /\ after <> ln /\ moved h l before after (zlen ln + 1) s)
     (fun e s => e = out_of_range "terminator not found" /\ (ln = [] \/ zlen ln < max) /\ after = ln /\
                   moved h l before after (zlen ln) s \/
                 e = length_error "string overflow" /\ ~ (ln = [] \/ zlen ln < max) /\
                   exists n, moved h l before after n s)) /\
  (128 <= t < 256 -> Forall (fun b => 0 <= b < 256) after ->
   wp (Cursor_readTerminatedString D t max) (h, c) (fun _ _ => False)
     (fun e _ => e = out_of_range "terminator not found" \/ e = length_error "string overflow")).
Proof.
  intros Hw Hc Hr Hm. split; [by apply readTerminatedString_wp|]. intros Ht Hb.
  eapply wp_mono; [by apply (readTerminatedString_wp h l Hw Hc D c before after Hr t max Hm)| |].
  - rewrite (line_high t after Ht Hb). intros r s (_ & _ & Hne & _). by apply Hne.
  - intros e s [(-> & _)|(-> & _)]; auto.
Qed.

Lemma cursor_terminated_string_witness :
  wp (Cursor_readTerminatedString Cursor_ 5 100) (demo_heap, demo_cursor) (fun r s => r = [3; 4]) nothrow.
Proof.
  destruct (cursor_terminated_string Cursor_ demo_heap [demo_a; demo_b; demo_c] demo_cursor
    [1; 2] [3; 4; 5] 5 100 demo_wf demo_chain demo_cursor_rep ltac:(lia)) as [H _].
  assert (Hln : line (sext 8 5) [3; 4; 5] = [3; 4]) by reflexivity. cbv zeta in H. rewrite Hln in H.
  refine (wp_mono _ _ _ _ _ _ H _ _).
  - intros r s (Hr & _). exact Hr.
  - intros e s [(_ & _ & He & _)|(_ & He & _)]; [discriminate He|]. apply He. right. reflexivity.
Defined.

(** ** Writing *)

(** C19: [RWCursor::pushAtMost] overwrites the bytes after the cursor, as far as
    the chain goes: it returns [min |buf| |after|], the chain keeps its elements
    and its length and holds the bytes before the cursor, the bytes written and
    the bytes behind them, and the cursor stands behind the bytes written. No
    byte of an IOBuf outside of the chain changes, provided that ([may_write])
    with [PRIVATE] access the elements of the chain have buffers of their own,
    and with [UNSHARE] access the current element, if the cursor has unshared it
    already ([maybeShared_] is false), has not been shared again since. When a
    buffer cannot be unshared, [bad_alloc] is thrown, and what precedes its
    element is written. The capacities of the elements leave room for the header
    of a new buffer. *)
Theorem rwcursor_push_correct access h l c before after buf :
  wf h -> chain h l -> cursor_rep h l c before after -> may_write access h l c -> caps_ok h l ->
  zlen buf < 2 ^ 64 ->
  wp (RWCursor_pushAtMost access buf) (h, c)
    (fun r s => r = Z.min (zlen buf) (zlen after) /\ wf s.1 /\ chain s.1 l /\ keeps l [] h s.1 /\
       cursor_rep s.1 l s.2 (before ++ take (Z.to_nat r) buf) (drop (Z.to_nat r) after) /\
       chain_bytes s.1 l = before ++ take (Z.to_nat r) buf ++ drop (Z.to_nat r) after)
    (fun e s => e = bad_alloc /\ refused h /\ wf s.1 /\ chain s.1 l /\ keeps l [] h s.1 /\
       exists r, 0 <= r <= zlen after /\ r < zlen buf /\
         cursor_rep s.1 l s.2 (before ++ take (Z.to_nat r) buf) (drop (Z.to_nat r) after)).
Proof.
  intros. eapply wp_wand; [by apply rw_push_wp|]. intros r s (Hr & Hw & Hc & Hk & Hrep). split_and!; try done.
  rewrite (cursor_rep_bytes _ _ _ _ _ Hrep). by rewrite <- (assoc_L (++)).
Qed.

Lemma rwcursor_push_correct_witness :
  wp (RWCursor_pushAtMost UNSHARE [7; 7]) (demo_heap, demo_cursor)
    (fun r s => r = 2 /\ chain_bytes s.1 [demo_a; demo_b; demo_c] = [1; 2; 7; 7; 5]) nothrow.
Proof.
  eapply wp_mono; [apply (rwcursor_push_correct UNSHARE demo_heap [demo_a; demo_b; demo_c] demo_cursor
    [1; 2] [3; 4; 5] [7; 7] demo_wf demo_chain demo_cursor_rep)| |].
  - intros H. discriminate H.
  - assert (Hall : Forall (fun q => capacity_ (demo_payload q) + 31 <= max_alloc) [demo_a; demo_b; demo_c]).
    { apply (bool_decide_unpack _). vm_compute. exact Logic.I. }
    intros q b Hq Hb. rewrite Forall_forall in Hall. specialize (Hall q Hq).
    unfold demo_payload in Hall. rewrite Hb in Hall. exact Hall.
  - reflexivity.
  - intros r s (-> & _ & _ & _ & _ & Hb). split; [reflexivity|exact Hb].
  - intros e s (_ & H & _). exact (demo_not_refused H).
Defined.

(** What [may_write] is there for: an IOBuf that was cloned after the first push
    to it is not unshared again, so that the second push changes the clone. *)
Definition push_clone_push : Cur (positive * Z) :=
  n ← RWCursor_pushAtMost UNSHARE [7];
  q ← lift (cloneOne demo_a);
  m ← RWCursor_pushAtMost UNSHARE [8];
  mret (q, n + m).

Example later_clone_overwritten :
  match push_clone_push (demo_heap, mkCursor demo_a 0 demo_a true) with
  | Ok (q, n) s => n = 2 /\ node_bytes s.1 demo_a = [7; 8; 3] /\ node_bytes s.1 q = [7; 8; 3]
  | _ => False
  end.
Proof. vm_compute. auto. Qed.

(** The appender that ends at the last element of the example chain. *)
Definition demo_appender : Appender := mkAppender demo_a demo_c 16.

Lemma demo_app_rep : app_rep demo_heap demo_appender [demo_a; demo_b; demo_c] [1; 2; 3; 4; 5].
Proof.
  split; [exact demo_wf|exact demo_chain|reflexivity|exists [demo_a; demo_b]; reflexivity|exact demo_bytes|].
  intros b Hb. right. assert (Hdc : payloads demo_heap !! demo_c = Some (demo_payload demo_c)).
  { vm_compute. reflexivity. }
  assert (Heq : b = demo_payload demo_c) by (simpl in Hb; congruence). rewrite Heq.
  assert (Hs : exists k, ablk (buf_ (demo_payload demo_c)) = Some k /\ sharedInfo (demo_payload demo_c) = Some k).
  { eexists. split; vm_compute; reflexivity. }
  destruct Hs as (k & Hk & Hsi). exists k. split; [exact Hk|].
  eapply sole_unflagged; [exact demo_wf|exact Hdc|exact Hsi|vm_compute; reflexivity|exact Hk].
Qed.

(** An [Appender] that may grow its chain ([growth_] is not 0) appends
    everything that is pushed; one that may not appends as much as fits in the
    last buffer and returns the number of bytes. [vprintf] appends the whole
    formatted text, whether it fits at once or a new buffer is needed; it
    throws when the conversion fails or when there is no room, and then nothing
    was appended. No IOBuf outside of the chain changes. *)
Lemma appender_correct h a l bs buf out :
  app_rep h a l bs -> alloc_ok h -> zlen buf < 2 ^ 64 ->
  0 <= growth_ a -> growth_ a + offsetof_align <= max_alloc ->
  wp (Appender_pushAtMost buf) (h, a)
    (fun r s => r = (if decide (growth_ a = 0) then Z.min (zlen buf) (app_room h a) else zlen buf) /\
       app_extended h a l bs (take (Z.to_nat r) buf) s) nothrow /\
  wp (Appender_vprintf out) (h, a)
    (fun _ s => exists text, out = Some text /\ zlen text < 2 ^ 31 /\ app_extended h a l bs text s)
    (fun e s => app_extended h a l bs [] s /\
       (e = runtime_error "error formatting printf() data" /\ printed out = -1 \/
        e = out_of_range "can't grow buffer chain" /\ growth_ a = 0 /\ app_room h a <= printed out)).
Proof. intros. split; [by apply app_push_wp|by apply vprintf_wp]. Qed.

Lemma appender_correct_witness :
  wp (Appender_pushAtMost [6; 7]) (demo_heap, demo_appender)
    (fun r s => r = 2 /\ exists l', chain_bytes s.1 l' = [1; 2; 3; 4; 5; 6; 7]) nothrow.
Proof.
  destruct (appender_correct demo_heap demo_appender [demo_a; demo_b; demo_c] [1; 2; 3; 4; 5] [6; 7] None
    demo_app_rep demo_alloc_ok) as [H _].
  - reflexivity.
  - discriminate.
  - discriminate.
  - refine (wp_wand _ _ _ _ _ H _). intros r s [-> (l' & Hr & _)]. split; [reflexivity|]. exists l'. exact (ar_bytes _ _ _ _ Hr).
Defined.

(** The read part of the round trip. *)
Lemma read_back D h x r bs w v :
  wf h -> chain h (x :: r) -> machine_width w -> fits w v -> zlen bs < 2 ^ 64 ->
  chain_bytes h (x :: r) = bs ++ to_bytes (Z.to_nat (w / 8)) (EndianInt_big w v) ->
  wp (Cursor_skip D (zlen bs);; Cursor_readBE D w) (h, Cursor_ctor x) (fun z _ => z = v) nothrow.
Proof.
  intros Hw Hc Hmw Hv Hlen Hby. pose proof (ctor_rep h x r) as Hrep. rewrite Hby in Hrep.
  set (vb := to_bytes _ _) in *. pose proof (zlen_nonneg bs) as Hz. pose proof (zlen_nonneg vb) as Hz2.
  assert (Hvb : zlen vb = w / 8).
  { unfold zlen, vb. rewrite length_to_bytes. destruct Hmw as [->|[->|[->| ->]]]; reflexivity. }
  apply wp_bind. eapply wp_mono; [apply (skip_wp h _ Hw Hc D _ _ _ (zlen bs) Hrep); lia| |].
  2:{ intros e s (_ & Hlt & _). rewrite zlen_app in Hlt. lia. }
  intros [] [h1 c1] (_ & Hh & Hrep1). simpl in Hh, Hrep1. subst h1.
  assert (Hd : drop (Z.to_nat (zlen bs)) (bs ++ vb) = vb) by (unfold zlen; rewrite Nat2Z.id; apply drop_app_length).
  rewrite Hd in Hrep1.
  eapply wp_mono; [apply (readBE_wp h _ Hw Hc D c1 _ _ Hrep1 w Hmw), to_bytes_range| |].
  2:{ intros e s (_ & Hlt & _). lia. }
  intros z s (_ & -> & _). rewrite take_zlen by lia. unfold vb, EndianInt_big, EndianInt_swap.
  assert (Hr : 0 <= v < 256 ^ Z.of_nat (Z.to_nat (w / 8))).
  { unfold fits in Hv. destruct Hmw as [->|[->|[->| ->]]]; exact Hv. }
  destruct (decide (w = 8)) as [->|H8].
  - change (Z.to_nat (8 / 8)) with 1%nat in *. cbn [to_bytes reverse]. unfold of_bytes. simpl.
    unfold fits in Hv. rewrite Z.mod_small by lia. lia.
  - exact (bswap_involutive (Z.to_nat (w / 8)) v Hr).
Qed.

(** What is written is read. A value that is written in big-endian order
    through an [Appender] or a [QueueAppender], whatever buffers it is spread
    over, is the value that a new cursor on the chain reads in that order after
    the bytes that were there before. *)
Lemma written_value_read_back D w v h a l bs qa m cs :
  machine_width w -> fits w v -> alloc_ok h -> zlen bs < 2 ^ 64 -> zlen cs < 2 ^ 64 ->
  app_rep h a l bs -> 1 <= growth_ a -> growth_ a + offsetof_align <= max_alloc ->
  queue_rep h (queue_ qa) m cs -> 1 <= qa_growth_ qa -> qa_growth_ qa + offsetof_align <= max_alloc ->
  wp (writeBE w v) (h, a)
    (fun _ s => wp (Cursor_skip D (zlen bs);; Cursor_readBE D w) (s.1, Cursor_ctor (app_buffer_ s.2))
       (fun z _ => z = v) nothrow) nothrow /\
  wp (writeBE w v) (h, qa)
    (fun _ s => exists x, head_ (queue_ s.2) = Some x /\
       wp (Cursor_skip D (zlen cs);; Cursor_readBE D w) (s.1, Cursor_ctor x) (fun z _ => z = v) nothrow) nothrow.
Proof.
  intros Hmw Hv Ha Hb1 Hb2 Hr Hg Hgm Hq Hqg Hqm. unfold writeBE, write, Appender_Writable, QueueAppender_Writable.
  set (vb := to_bytes (Z.to_nat (w / 8)) (EndianInt_big w v)).
  assert (Hlen : 0 < zlen vb < 2 ^ 64).
  { unfold zlen, vb. rewrite length_to_bytes. destruct Hmw as [->|[->|[->| ->]]]; split; reflexivity. }
  split.
  - unfold write_by, push_by. fold vb. apply wp_bind.
    eapply wp_wand; [apply (app_push_wp h a l bs vb Hr Ha (proj2 Hlen)); [lia|done]|].
    intros r s [-> (l' & Hr' & Hpre & _)]. rewrite (decide_False (P := growth_ a = 0)) in Hr' |- * by lia.
    rewrite decide_False by naive_solver. apply wp_ret. rewrite take_zlen in Hr' by done.
    pose proof (ar_head _ _ _ _ Hr') as Hh. destruct l' as [|x r]; [done|]. injection Hh as Hx. subst x.
    apply (read_back D s.1 _ r bs w v (ar_wf _ _ _ _ Hr') (ar_chain _ _ _ _ Hr') Hmw Hv Hb1). apply Hr'.
  - eapply wp_wand; [by apply (queue_write_wp h qa m cs Hq Ha Hqg Hqm)|].
    intros [] s (l' & Hr' & _). fold vb in Hr'. pose proof (qr_head _ _ _ _ Hr') as Hh.
    destruct l' as [|x r].
    { pose proof (qr_bytes _ _ _ _ Hr') as Hnil. apply (f_equal zlen) in Hnil. rewrite chain_bytes_nil, zlen_app, zlen_nil in Hnil.
      pose proof (zlen_nonneg cs). lia. }
    exists x. split; [done|].
    apply (read_back D s.1 x r cs w v (qr_wf _ _ _ _ Hr') (qr_chain _ _ _ _ Hr' ltac:(done)) Hmw Hv Hb2). apply Hr'.
Qed.

Lemma written_value_read_back_witness :
  wp (writeBE 32 305419896) (demo_heap, demo_appender)
    (fun _ s => wp (Cursor_skip Cursor_ 5;; Cursor_readBE Cursor_ 32) (s.1, Cursor_ctor (app_buffer_ s.2))
       (fun z _ => z = 305419896) nothrow) nothrow.
Proof.
  destruct (written_value_read_back Cursor_ 32 305419896 demo_heap demo_appender [demo_a; demo_b; demo_c] [1; 2; 3; 4; 5]
    (mkQueueAppender demo_queue 64) [demo_a; demo_b; demo_c] [1; 2; 3; 4; 5]) as [H _].
  - right. right. left. reflexivity.
  - unfold fits. lia.
  - exact demo_alloc_ok.
  - reflexivity.
  - reflexivity.
  - exact demo_app_rep.
  - simpl. lia.
  - discriminate.
  - exact demo_rep.
  - simpl. lia.
  - discriminate.
  - exact H.
Defined.
