(* ===== verification/Unicode.v ===== *)
(** * Unicode: UTF-8 encoding and decoding

    [src/accelerator/Unicode.cpp]: [codePointToUtf8] and [utf8ToCodePoint].  A
    byte string is a list of bytes, the pointer [p] into it an offset, and the
    state of [utf8ToCodePoint], which takes [p] by reference; [e] is the end of
    the string. *)

From stdpp Require Import base list strings pretty.
From S2P Require Import Prelude.

(** ** Encoding *)

Definition codePointToUtf8 (cp : Z) : list Z :=
  if decide (cp <= 0x7f) then [u8 cp]
  else if decide (cp <= 0x7FF) then
    [u8 (Z.lor 0xC0 (Z.shiftr cp 6)); u8 (Z.lor 0x80 (Z.land 0x3f cp))]
  else if decide (cp <= 0xFFFF) then
    [u8 (Z.lor 0xE0 (u8 (Z.shiftr cp 12)));
     u8 (Z.lor 0x80 (u8 (Z.land 0x3f (Z.shiftr cp 6))));
     u8 (Z.lor 0x80 (Z.land 0x3f cp))]
  else if decide (cp <= 0x10FFFF) then
    [u8 (Z.lor 0xF0 (Z.shiftr cp 18));
     u8 (Z.lor 0x80 (Z.land 0x3f (Z.shiftr cp 12)));
     u8 (Z.lor 0x80 (Z.land 0x3f (Z.shiftr cp 6)));
     u8 (Z.lor 0x80 (Z.land 0x3f cp))]
  else [].

(** ** Decoding *)

Definition bitMask (i : Z) : Z :=
  if decide (i = 0) then 2 ^ 7 - 1
  else if decide (i = 1) then 2 ^ 11 - 1
  else if decide (i = 2) then 2 ^ 16 - 1
  else 2 ^ 21 - 1.

(** A decimal number in a message. *)
Definition number (x : Z) : string := pretty (Z.to_N x).

Definition utf8_error (what : string) : exn := runtime_error ("folly::utf8ToCodePoint " +:+ what).

(** The end of every error path: [skip()] moves [p] by one byte and yields the
    replacement character. *)
Definition skip_or_throw (skipOnError : bool) (what : string) : M Z Z :=
  if skipOnError then p ← get; put (p + 1);; mret 0xfffd
  else throw (utf8_error what).

(** [p[i]], none when [p + i >= e]. *)
Definition byte_at (s : list Z) (p i : Z) : option Z := s !! Z.to_nat (p + i).

(** One round of the loop over the continuation bytes: the result is the next
    [(i, fst, d)] or the value to return. *)
Definition continuation (s : list Z) (skipOnError : bool) (st : Z * Z * Z) : M Z ((Z * Z * Z) + Z) :=
  let '(i, fst, d) := st in
  p ← get;
  let exhausted := r ← skip_or_throw skipOnError "encoding length maxed out"; mret (inr r) in
  if decide (i = 3) then exhausted
  else
    match byte_at s p i with
    | None => exhausted
    | Some tmp =>
        if decide (Z.land tmp 0xC0 <> 0x80) then
          r ← skip_or_throw skipOnError ("i=" +:+ number i +:+ " tmp=" +:+ number tmp); mret (inr r)
        else
          let d := Z.lor (u32 (Z.shiftl d 6)) (Z.land tmp 0x3F) in
          let fst := u8 (Z.shiftl fst 1) in
          if decide (Z.land fst 0x80 = 0) then
            let d := Z.land d (bitMask i) in
            if decide (Z.ldiff d (bitMask (i - 1)) = 0) then
              r ← skip_or_throw skipOnError ("i=" +:+ number i +:+ " d=" +:+ number d); mret (inr r)
            else if decide (i = 2 /\ ((0xD800 <= d /\ d <= 0xDFFF) \/ 0x10FFFF < d)) then
              r ← skip_or_throw skipOnError ("i=" +:+ number i +:+ " d=" +:+ number d); mret (inr r)
            else
              put (p + (i + 1));; mret (inr d)
          else mret (inl (i + 1, fst, d))
    end.

Definition utf8ToCodePoint (s : list Z) (skipOnError : bool) : M Z Z :=
  p ← get;
  match byte_at s p 0 with
  | None => skip_or_throw skipOnError "empty/invalid string"
  | Some fst =>
      if decide (Z.land fst 0x80 = 0) then put (p + 1);; mret fst
      else if decide (Z.land fst 0xC0 <> 0xC0) then
        skip_or_throw skipOnError ("i=0 d=" +:+ number fst)
      else iter 4 (continuation s skipOnError) (1, u8 (Z.shiftl fst 1), fst)
  end.

(** ** Locality: only the bytes from [p] on matter *)

Section Shift.
Implicit Types (pre t : list Z) (skip : bool).

(** The outcome with the pointer moved by [n]. *)
Definition shift {A} (n : Z) (r : res Z A) : res Z A :=
  match r with
  | Ok a p => Ok a (n + p)
  | Throw e p => Throw e (n + p)
  | Fault w => Fault w
  | OutOfFuel => OutOfFuel
  end.

Lemma shift_bind {A B} (m m' : M Z A) (f f' : A -> M Z B) n p :
  m (n + p) = shift n (m' p) -> (forall a q, f a (n + q) = shift n (f' a q)) ->
  (m ≫= f) (n + p) = shift n ((m' ≫= f') p).
Proof. unfold mbind, M_bind, bind. intros -> Hf. destruct (m' p); simpl; auto. Qed.

Lemma byte_at_shift pre t p i :
  0 <= p + i -> byte_at (pre ++ t) (zlen pre + p) i = byte_at t p i.
Proof.
  intros. unfold byte_at, zlen. rewrite lookup_app_r by lia. f_equal. lia.
Qed.

Lemma skip_or_throw_shift skip what n p :
  skip_or_throw skip what (n + p) = shift n (skip_or_throw skip what p).
Proof.
  unfold skip_or_throw. destruct skip; [|done].
  unfold mbind, M_bind, bind, get, put, mret, M_ret, ret, shift. f_equal. lia.
Qed.

Lemma continuation_shift pre t skip i f d p :
  0 <= p -> 0 <= i ->
  continuation (pre ++ t) skip (i, f, d) (zlen pre + p) =
  shift (zlen pre) (continuation t skip (i, f, d) p).
Proof.
  intros Hp Hi. unfold continuation. unfold mbind at 1 8, M_bind, bind at 1 8, get.
  assert (Hex : forall what, (r ← skip_or_throw skip what; mret (@inr (Z * Z * Z) Z r)) (zlen pre + p) =
    shift (zlen pre) ((r ← skip_or_throw skip what; mret (inr r)) p)).
  { intros what. apply shift_bind; [apply skip_or_throw_shift|done]. }
  case_decide; [apply Hex|]. rewrite byte_at_shift by lia.
  destruct (byte_at t p i) as [tmp|]; [|apply Hex].
  case_decide; [apply Hex|]. case_decide; [|done].
  case_decide; [apply Hex|]. case_decide; [apply Hex|].
  unfold mbind, M_bind, bind, put, mret, M_ret, ret, shift. f_equal. lia.
Qed.

Lemma continuation_inl t skip i f d p i' f' d' p' :
  continuation t skip (i, f, d) p = Ok (inl (i', f', d')) p' -> p' = p /\ i' = i + 1.
Proof.
  unfold continuation, skip_or_throw, mbind, M_bind, bind, get, put, throw, mret, M_ret, ret.
  repeat (case_decide || case_match); intros; by simplify_eq.
Qed.

Lemma iter_continuation_shift pre t skip fuel : forall i f d p,
  0 <= p -> 0 <= i ->
  iter fuel (continuation (pre ++ t) skip) (i, f, d) (zlen pre + p) =
  shift (zlen pre) (iter fuel (continuation t skip) (i, f, d) p).
Proof.
  induction fuel as [|fuel IH]; intros i f d p Hp Hi; [done|]. cbn [iter]. unfold bind.
  rewrite continuation_shift by done.
  destruct (continuation t skip (i, f, d) p) as [[[[i' f'] d']|r] p'|e p'|w|] eqn:Hc; try done.
  apply continuation_inl in Hc as [-> ->]. apply IH; lia.
Qed.

Lemma utf8ToCodePoint_shift pre t skip p :
  0 <= p ->
  utf8ToCodePoint (pre ++ t) skip (zlen pre + p) = shift (zlen pre) (utf8ToCodePoint t skip p).
Proof.
  intros Hp. unfold utf8ToCodePoint. unfold mbind at 1 3, M_bind, bind at 1 3, get.
  rewrite byte_at_shift by lia. destruct (byte_at t p 0) as [f|]; [|apply skip_or_throw_shift].
  case_decide.
  { unfold mbind, M_bind, bind, put, mret, M_ret, ret, shift. f_equal. lia. }
  case_decide; [apply skip_or_throw_shift|]. apply iter_continuation_shift; lia.
Qed.
End Shift.

(** ** Bits of a byte as arithmetic *)

(** A property of every byte, by evaluation. *)
Lemma byte_check (f : Z -> bool) :
  forallb f (Z.of_nat <$> seq 0 256) = true -> forall x, 0 <= x < 256 -> f x = true.
Proof.
  intros Hf x Hx. apply forallb_forall with (x := x) in Hf; [done|].
  apply list_elem_of_In, list_elem_of_fmap. exists (Z.to_nat x). split; [lia|]. apply elem_of_seq. lia.
Qed.

Lemma is_continuation x : 0 <= x < 256 -> Z.land x 0xC0 = 0x80 <-> 128 <= x < 192.
Proof.
  intros Hx. assert (Hc := byte_check (fun x => Bool.eqb (Z.land x 0xC0 =? 0x80) ((128 <=? x) && (x <? 192)))
    ltac:(vm_compute; reflexivity) x Hx). simpl in Hc. apply eqb_prop in Hc. lia.
Qed.

Lemma is_ascii x : 0 <= x < 256 -> Z.land x 0x80 = 0 <-> x < 128.
Proof.
  intros Hx. assert (Hc := byte_check (fun x => Bool.eqb (Z.land x 0x80 =? 0) (x <? 128))
    ltac:(vm_compute; reflexivity) x Hx). simpl in Hc. apply eqb_prop in Hc. lia.
Qed.

Lemma is_lead x : 0 <= x < 256 -> Z.land x 0xC0 = 0xC0 <-> 192 <= x.
Proof.
  intros Hx. assert (Hc := byte_check (fun x => Bool.eqb (Z.land x 0xC0 =? 0xC0) (192 <=? x))
    ltac:(vm_compute; reflexivity) x Hx). simpl in Hc. apply eqb_prop in Hc. lia.
Qed.

(** ** The encoder as arithmetic *)

(** The scalar values the decoder knows: below U+10000 and not a surrogate. *)
Definition scalar3 (cp : Z) : Prop := 0 <= cp <= 0xFFFF /\ ~ (0xD800 <= cp <= 0xDFFF).

Definition utf8 (cp : Z) : list Z :=
  if decide (cp < 2 ^ 7) then [cp]
  else if decide (cp < 2 ^ 11) then [192 + cp / 2 ^ 6; 128 + cp `mod` 2 ^ 6]
  else if decide (cp < 2 ^ 16) then
    [224 + cp / 2 ^ 12; 128 + (cp / 2 ^ 6) `mod` 2 ^ 6; 128 + cp `mod` 2 ^ 6]
  else [240 + cp / 2 ^ 18; 128 + (cp / 2 ^ 12) `mod` 2 ^ 6; 128 + (cp / 2 ^ 6) `mod` 2 ^ 6; 128 + cp `mod` 2 ^ 6].

Lemma low6 x : Z.land 0x3f x = x `mod` 2 ^ 6.
Proof. rewrite Z.land_comm. by apply (land_low x 6). Qed.

Lemma mark_continuation x : u8 (Z.lor 0x80 (x `mod` 2 ^ 6)) = 128 + x `mod` 2 ^ 6.
Proof.
  pose proof (Z.mod_pos_bound x (2 ^ 6)). change 0x80 with (2 * 2 ^ 6).
  rewrite lor_low by lia. apply u8_small. lia.
Qed.

Lemma codePointToUtf8_utf8 cp : 0 <= cp <= 0x10FFFF -> codePointToUtf8 cp = utf8 cp.
Proof.
  intros Hcp. unfold codePointToUtf8, utf8. rewrite !low6, !Z.shiftr_div_pow2 by lia.
  rewrite !(u8_small (_ `mod` 2 ^ 6)) by (pose proof (Z.mod_pos_bound (cp / 2 ^ 6) (2 ^ 6)); lia).
  rewrite !mark_continuation.
  repeat case_decide; try lia; repeat f_equal.
  - apply u8_small. lia.
  - change 0xC0 with (6 * 2 ^ 5). rewrite lor_low by euclid. apply u8_small. euclid.
  - rewrite (u8_small (cp / _)) by euclid. change 0xE0 with (14 * 2 ^ 4).
    rewrite lor_low by euclid. apply u8_small. euclid.
  - change 0xF0 with (30 * 2 ^ 3). rewrite lor_low by euclid. apply u8_small. euclid.
Qed.

(** ** The decoder as arithmetic *)

Definition bytes_in_range (s : list Z) : Prop := Forall (fun b => 0 <= b < 256) s.

(** The code point a continuation byte extends. *)
Lemma push_bits d tmp : 0 <= d < 2 ^ 26 -> Z.lor (u32 (Z.shiftl d 6)) (Z.land tmp 0x3F) = d * 2 ^ 6 + tmp `mod` 2 ^ 6.
Proof.
  intros Hd. rewrite Z.shiftl_mul_pow2 by lia. rewrite u32_small by lia.
  change 0x3F with (2 ^ 6 - 1). rewrite land_low by lia. apply lor_low; [lia|]. apply Z.mod_pos_bound. lia.
Qed.

Lemma shift_byte x : u8 (Z.shiftl x 1) = (2 * x) `mod` 256.
Proof. rewrite Z.shiftl_mul_pow2 by lia. unfold wrap. f_equal. lia. Qed.

(** What is decoded at the head of a string of bytes, none when the encoding is
    in error. *)
Definition decode (s : list Z) : option (Z * Z) :=
  match s with
  | b0 :: s1 =>
      if decide (b0 < 128) then Some (b0, 1)
      else
        match s1 with
        | b1 :: s2 =>
            if decide (192 <= b0 < 224 /\ 128 <= b1 < 192) then
              let d := b0 `mod` 2 ^ 5 * 2 ^ 6 + b1 `mod` 2 ^ 6 in
              if decide (2 ^ 7 <= d) then Some (d, 2) else None
            else
              match s2 with
              | b2 :: _ =>
                  if decide (224 <= b0 < 240 /\ 128 <= b1 < 192 /\ 128 <= b2 < 192) then
                    let d := (b0 `mod` 2 ^ 4 * 2 ^ 6 + b1 `mod` 2 ^ 6) * 2 ^ 6 + b2 `mod` 2 ^ 6 in
                    if decide (2 ^ 11 <= d /\ ~ (0xD800 <= d <= 0xDFFF)) then Some (d, 3) else None
                  else None
              | [] => None
              end
        | [] => None
        end
  | [] => None
  end.

(** [m] takes an error path. *)
Definition fails {A} (m : bool -> M Z A) (f : Z -> A) : Prop :=
  exists what, forall skip, m skip 0 = (r ← skip_or_throw skip what; mret (f r)) 0.

Section Decoder.
Context (s : list Z) (Hs : bytes_in_range s).

Definition bits (i : Z) : Z := if decide (i = 1) then 11 else 16.

(** A round of the loop, on every branch. *)
Lemma continuation_arith i f d b :
  i = 1 \/ i = 2 -> s !! Z.to_nat i = Some b -> 0 <= d < 2 ^ 26 ->
  let d' := d * 2 ^ 6 + b `mod` 2 ^ 6 in
  let cp := d' `mod` 2 ^ bits i in
  if decide (128 <= b < 192) then
    if decide ((2 * f) `mod` 256 < 128) then
      if decide (cp < 2 ^ (if decide (i = 1) then 7 else 11) \/ i = 2 /\ 0xD800 <= cp <= 0xDFFF)
      then fails (fun skip => continuation s skip (i, f, d)) inr
      else forall skip, continuation s skip (i, f, d) 0 = Ok (inr cp) (i + 1)
    else forall skip, continuation s skip (i, f, d) 0 = Ok (inl (i + 1, (2 * f) `mod` 256, d')) 0
  else fails (fun skip => continuation s skip (i, f, d)) inr.
Proof.
  intros Hi Hb Hd d' cp.
  assert (Hb0 : 0 <= b < 256) by exact (Forall_lookup_1 _ _ _ _ Hs Hb).
  assert (Hmask : bitMask i = 2 ^ bits i - 1) by (unfold bitMask, bits; destruct Hi; subst i; done).
  assert (Hmask' : bitMask (i - 1) = 2 ^ (if decide (i = 1) then 7 else 11) - 1)
    by (unfold bitMask; destruct Hi; subst i; done).
  assert (Hcp : 0 <= cp < 2 ^ bits i) by (apply Z.mod_pos_bound; unfold bits; by case_decide).
  assert (Hrun : forall skip, continuation s skip (i, f, d) 0 =
    (if decide (Z.land b 0xC0 <> 0x80) then
          r ← skip_or_throw skip ("i=" +:+ number i +:+ " tmp=" +:+ number b); mret (inr r)
        else if decide (Z.land ((2 * f) `mod` 256) 0x80 = 0) then
            if decide (Z.ldiff cp (bitMask (i - 1)) = 0) then
              r ← skip_or_throw skip ("i=" +:+ number i +:+ " d=" +:+ number cp); mret (inr r)
            else if decide (i = 2 /\ ((0xD800 <= cp /\ cp <= 0xDFFF) \/ 0x10FFFF < cp)) then
              r ← skip_or_throw skip ("i=" +:+ number i +:+ " d=" +:+ number cp); mret (inr r)
            else
              put (0 + (i + 1));; mret (inr cp)
          else mret (inl (i + 1, (2 * f) `mod` 256, d'))) 0).
  { intros skip. unfold continuation. unfold mbind at 1, M_bind, bind at 1, get.
    rewrite decide_False by lia. unfold byte_at. rewrite Z.add_0_l, Hb.
    rewrite push_bits, shift_byte, Hmask, land_low by (unfold bits; case_decide; lia). done. }
  rewrite Hmask' in Hrun.
  assert (Hf : 0 <= (2 * f) `mod` 256 < 256) by (apply Z.mod_pos_bound; lia).
  assert (Hcont := is_continuation b Hb0). assert (Hasc := is_ascii _ Hf).
  assert (Hld : Z.ldiff cp (2 ^ (if decide (i = 1) then 7 else 11) - 1) = 0 <->
    cp < 2 ^ (if decide (i = 1) then 7 else 11)) by (apply ldiff_low; [exact (proj1 Hcp)|destruct (decide (i = 1)); lia]).
  assert (Hcp' : cp < 2 ^ 16) by (destruct Hcp as [_ Hcp]; revert Hcp; unfold bits; destruct (decide (i = 1)); lia).
  assert (Hcp0 := proj1 Hcp). clearbody cp. clear Hcp.
  destruct (decide (128 <= b < 192)) as [Hb1|Hb1];
    [|eexists; intros skip; rewrite Hrun, decide_True by tauto; done].
  destruct (decide ((2 * f) `mod` 256 < 128)) as [Hf1|Hf1];
    [|intros skip; rewrite Hrun, !decide_False by tauto; done].
  assert (Hrun' : forall skip, continuation s skip (i, f, d) 0 = _)
    by (intros skip; rewrite Hrun, decide_False, decide_True by tauto; reflexivity).
  clear Hrun. rename Hrun' into Hrun.
  destruct (decide (Z.ldiff cp (2 ^ (if decide (i = 1) then 7 else 11) - 1) = 0)) as [E|E].
  { rewrite decide_True by tauto. eexists. exact Hrun. }
  destruct (decide (i = 2 /\ ((0xD800 <= cp /\ cp <= 0xDFFF) \/ 0x10FFFF < cp))) as [E'|E'].
  - rewrite decide_True by (right; lia). eexists. exact Hrun.
  - rewrite decide_False by (rewrite <- Hld; lia). exact Hrun.
Qed.

Lemma continuation_exhausted i f d :
  i = 3 \/ 0 <= i /\ s !! Z.to_nat i = None -> fails (fun skip => continuation s skip (i, f, d)) inr.
Proof.
  intros Hi. exists "encoding length maxed out"%string. intros skip. unfold continuation.
  unfold mbind at 1, M_bind, bind at 1, get. case_decide; [by destruct skip|].
  destruct Hi as [|[_ Hi]]; [done|]. unfold byte_at. by rewrite Z.add_0_l, Hi.
Qed.

Lemma iter_fails n st :
  fails (fun skip => continuation s skip st) inr ->
  fails (fun skip => iter (S n) (continuation s skip) st) id.
Proof.
  intros [what Hw]. exists what. intros skip. cbn [iter]. unfold bind at 1. rewrite Hw.
  unfold skip_or_throw. by destruct skip.
Qed.

Lemma iter_next n st st' :
  (forall skip, continuation s skip st 0 = Ok (inl st') 0) ->
  fails (fun skip => iter n (continuation s skip) st') id ->
  fails (fun skip => iter (S n) (continuation s skip) st) id.
Proof. intros Hc [what Hw]. exists what. intros skip. cbn [iter]. unfold bind at 1. rewrite Hc. apply Hw. Qed.

(** The loop for each number of bytes the lead byte announces. *)
Lemma loop_two b0 b1 :
  192 <= b0 < 224 -> s !! 1%nat = Some b1 ->
  let d := b0 `mod` 2 ^ 5 * 2 ^ 6 + b1 `mod` 2 ^ 6 in
  let loop skip := iter 4 (continuation s skip) (1, (2 * b0) `mod` 256, b0) in
  if decide (128 <= b1 < 192 /\ 2 ^ 7 <= d) then forall skip, loop skip 0 = Ok d 2 else fails loop id.
Proof.
  intros Hb0 Hb1 d loop. pose proof (continuation_arith 1 ((2 * b0) `mod` 256) b0 b1) as H1.
  specialize (H1 ltac:(by left) Hb1 ltac:(lia)). cbv zeta in H1.
  unfold bits in H1. rewrite !(decide_True (P := 1 = 1)) in H1 by done.
  assert (Hd : (b0 * 2 ^ 6 + b1 `mod` 2 ^ 6) `mod` 2 ^ 11 = d) by (unfold d; euclid).
  rewrite Hd in H1. clear Hd.
  destruct (decide (128 <= b1 < 192)) as [Hc|Hc].
  - rewrite decide_True in H1 by euclid. destruct (decide (2 ^ 7 <= d)).
    + rewrite decide_False in H1 by lia. rewrite decide_True by done. intros skip.
      unfold loop. cbn [iter]. unfold bind at 1. by rewrite H1.
    + rewrite decide_True in H1 by lia. rewrite decide_False by tauto. by apply iter_fails.
  - rewrite decide_False by tauto. by apply iter_fails.
Qed.

Lemma loop_three b0 b1 b2 :
  224 <= b0 < 256 -> s !! 1%nat = Some b1 -> s !! 2%nat = Some b2 ->
  let d := (b0 `mod` 2 ^ 4 * 2 ^ 6 + b1 `mod` 2 ^ 6) * 2 ^ 6 + b2 `mod` 2 ^ 6 in
  let loop skip := iter 4 (continuation s skip) (1, (2 * b0) `mod` 256, b0) in
  if decide (b0 < 240 /\ 128 <= b1 < 192 /\ 128 <= b2 < 192 /\ 2 ^ 11 <= d /\ ~ (0xD800 <= d <= 0xDFFF))
  then forall skip, loop skip 0 = Ok d 3 else fails loop id.
Proof.
  intros Hb0 Hb1 Hb2 d loop. pose proof (continuation_arith 1 ((2 * b0) `mod` 256) b0 b1) as H1.
  specialize (H1 ltac:(by left) Hb1 ltac:(lia)). cbv zeta in H1.
  destruct (decide (128 <= b1 < 192)) as [Hc|Hc];
    [|rewrite decide_False by tauto; by apply iter_fails].
  rewrite decide_False in H1 by euclid.
  pose proof (continuation_arith 2 ((2 * ((2 * b0) `mod` 256)) `mod` 256) (b0 * 2 ^ 6 + b1 `mod` 2 ^ 6) b2) as H2.
  specialize (H2 ltac:(by right) Hb2 ltac:(euclid)). cbv zeta in H2.
  unfold bits in H2. rewrite !(decide_False (P := 2 = 1)) in H2 by done.
  destruct (decide (128 <= b2 < 192)) as [Hc2|Hc2];
    [|rewrite decide_False by tauto; apply iter_next with (1 := H1); by apply iter_fails].
  destruct (decide (b0 < 240)) as [Hl|Hl].
  - assert (Hd : ((b0 * 2 ^ 6 + b1 `mod` 2 ^ 6) * 2 ^ 6 + b2 `mod` 2 ^ 6) `mod` 2 ^ 16 = d) by (unfold d; euclid).
    rewrite Hd, decide_True in H2 by euclid. clear Hd. case_decide as E.
    + rewrite decide_False by lia. apply iter_next with (1 := H1). by apply iter_fails.
    + rewrite decide_True by lia. intros skip. unfold loop. cbn [iter]. unfold bind. by rewrite H1, H2.
  - rewrite decide_False in H2 by euclid. rewrite decide_False by tauto.
    apply iter_next with (1 := H1), iter_next with (1 := H2), iter_fails, continuation_exhausted. by left.
Qed.

(** A string that starts with a lead byte is left to the loop. *)
Lemma lead_loop b0 s1 skip :
  s = b0 :: s1 -> 192 <= b0 ->
  utf8ToCodePoint s skip 0 = iter 4 (continuation s skip) (1, (2 * b0) `mod` 256, b0) 0.
Proof.
  intros E Hb. assert (Hb0 : 0 <= b0 < 256) by (unfold bytes_in_range in Hs; rewrite E in Hs; by inversion Hs).
  unfold utf8ToCodePoint. unfold mbind at 1, M_bind, bind at 1, get.
  replace (byte_at s 0 0) with (Some b0) by (by rewrite E).
  rewrite decide_False by (rewrite is_ascii; lia). rewrite decide_False by (rewrite is_lead; lia).
  by rewrite shift_byte.
Qed.

Lemma lead_fails b0 s1 :
  s = b0 :: s1 -> 192 <= b0 ->
  fails (fun skip => iter 4 (continuation s skip) (1, (2 * b0) `mod` 256, b0)) id -> fails (utf8ToCodePoint s) id.
Proof. intros E Hb [what Hw]. exists what. intros skip. by rewrite (lead_loop b0 s1), Hw. Qed.

(** Strings that do not. *)
Lemma no_lead b0 s1 :
  s = b0 :: s1 -> b0 < 192 ->
  if decide (b0 < 128) then forall skip, utf8ToCodePoint s skip 0 = Ok b0 1 else fails (utf8ToCodePoint s) id.
Proof.
  intros E Hb. assert (Hb0 : 0 <= b0 < 256) by (unfold bytes_in_range in Hs; rewrite E in Hs; by inversion Hs).
  assert (Hat : byte_at s 0 0 = Some b0) by (by rewrite E).
  case_decide; [intros skip|exists ("i=0 d=" +:+ number b0)%string; intros skip];
    unfold utf8ToCodePoint; unfold mbind at 1, M_bind, bind at 1, get; rewrite Hat.
  - rewrite decide_True by (rewrite is_ascii; lia). done.
  - rewrite decide_False by (rewrite is_ascii; lia). rewrite decide_True by (rewrite is_lead; lia). by destruct skip.
Qed.

(** The decoder, on every string of bytes: the same error paths whether errors
    are skipped or thrown. *)
Lemma utf8ToCodePoint_decode :
  match decode s with
  | Some (d, n) => forall skip, utf8ToCodePoint s skip 0 = Ok d n
  | None => fails (utf8ToCodePoint s) id
  end.
Proof.
  assert (Hcase : s = [] \/ exists b0 s1, s = b0 :: s1) by (clear Hs; destruct s; eauto).
  destruct Hcase as [E|(b0&s1&E)].
  { rewrite E. exists "empty/invalid string"%string. by intros []. }
  replace (decode s) with (decode (b0 :: s1)) by (by rewrite E).
  assert (Hbytes : bytes_in_range (b0 :: s1)) by (rewrite <- E; exact Hs).
  apply Forall_cons in Hbytes as [H0 Hs1]. cbn [decode].
  destruct (decide (b0 < 192)) as [Hl|Hl].
  { pose proof (no_lead b0 s1 E Hl) as Hn. case_decide; [done|].
    destruct s1 as [|b1 [|b2 s2]]; rewrite ?decide_False by lia; done. }
  rewrite decide_False by lia.
  destruct s1 as [|b1 s2].
  { apply (lead_fails b0 []); [done|lia|]. apply iter_fails, continuation_exhausted. right. by rewrite E. }
  destruct (decide (b0 < 224)) as [H2|H2].
  - pose proof (loop_two b0 b1 ltac:(lia) ltac:(by rewrite E)) as Ht. cbv zeta in Ht.
    destruct (decide (128 <= b1 < 192)) as [Hc|Hc].
    + rewrite decide_True by lia. destruct (decide (2 ^ 7 <= b0 `mod` 2 ^ 5 * 2 ^ 6 + b1 `mod` 2 ^ 6)).
      * rewrite decide_True in Ht by done. intros skip. rewrite (lead_loop b0 (b1 :: s2)) by (done || lia). apply Ht.
      * rewrite decide_False in Ht by tauto. apply (lead_fails b0 _ E); [lia|exact Ht].
    + rewrite !decide_False by tauto. rewrite decide_False in Ht by tauto.
      destruct s2; rewrite ?decide_False by lia; (eapply lead_fails; [exact E|lia|exact Ht]).
  - rewrite decide_False by lia. destruct s2 as [|b2 s3].
    + apply (lead_fails b0 [b1]); [done|lia|].
      pose proof (continuation_arith 1 ((2 * b0) `mod` 256) b0 b1) as H1.
      specialize (H1 ltac:(by left) ltac:(by rewrite E) ltac:(lia)). cbv zeta in H1.
      destruct (decide (128 <= b1 < 192)); [|by apply iter_fails].
      rewrite decide_False in H1 by euclid. apply iter_next with (1 := H1).
      apply iter_fails, continuation_exhausted. right. by rewrite E.
    + pose proof (loop_three b0 b1 b2 ltac:(lia) ltac:(by rewrite E) ltac:(by rewrite E)) as Ht. cbv zeta in Ht.
      set (d := (b0 `mod` 2 ^ 4 * 2 ^ 6 + b1 `mod` 2 ^ 6) * 2 ^ 6 + b2 `mod` 2 ^ 6) in *.
      destruct (decide (224 <= b0 < 240 /\ 128 <= b1 < 192 /\ 128 <= b2 < 192)) as [Hc|Hc].
      * destruct (decide (2 ^ 11 <= d /\ ~ (0xD800 <= d <= 0xDFFF))) as [Hd|Hd];
          [rewrite decide_True in Ht by lia|rewrite decide_False in Ht by lia].
        -- intros skip. rewrite (lead_loop b0 (b1 :: b2 :: s3)) by (done || lia). apply Ht.
        -- apply (lead_fails b0 _ E); [lia|exact Ht].
      * rewrite decide_False in Ht by lia. apply (lead_fails b0 _ E); [lia|exact Ht].
Qed.
End Decoder.

(** ** What [decode] accepts *)

Lemma decode_encode cp rest : scalar3 cp -> decode (utf8 cp ++ rest) = Some (cp, zlen (utf8 cp)).
Proof.
  unfold scalar3. intros Hcp. unfold utf8, decode. repeat case_decide; simpl.
  - by rewrite decide_True by lia.
  - rewrite decide_False, decide_True by euclid.
    replace (_ + _) with cp by euclid. rewrite decide_True by lia. done.
  - rewrite decide_False, decide_False, decide_True by euclid.
    replace (_ + _) with cp by euclid. rewrite decide_True by lia. done.
  - lia.
Qed.

Lemma decode_sound s d n :
  bytes_in_range s -> decode s = Some (d, n) -> scalar3 d /\ n = zlen (utf8 d) /\ utf8 d `prefix_of` s.
Proof.
  intros Hs. unfold decode, scalar3.
  destruct s as [|b0 [|b1 [|b2 s]]]; intros Hd; repeat case_decide; simplify_eq;
    unfold bytes_in_range in Hs; rewrite ?Forall_cons in Hs.
  all: unfold utf8; rewrite ?decide_False, ?decide_True by euclid.
  all: split; [split; euclid|]; split; [done|].
  all: repeat (apply prefix_cons_alt; [euclid|]); apply prefix_nil.
Qed.

(** ** The specifications *)

(** Thrown errors against skipped ones. *)
Definition on_error (skip : bool) (r : res Z Z) : res Z Z :=
  match skip, r with
  | true, Throw _ p => Ok 0xfffd (p + 1)
  | _, r => r
  end.

(** No four-byte encoding is ever decoded: for every code point that
    [codePointToUtf8] writes in four bytes, the decoder gives up after the third
    byte, whatever follows, with the error of an exhausted encoding, so that the
    documented [11110xxx] form is not accepted and text outside of the basic
    multilingual plane does not survive a round trip. *)
Lemma utf8_four_bytes_refused (cp : Z) (rest : list Z) :
  0x10000 <= cp <= 0x10FFFF -> bytes_in_range rest ->
  utf8ToCodePoint (codePointToUtf8 cp ++ rest) false 0 = Throw (utf8_error "encoding length maxed out") 0 /\
  utf8ToCodePoint (codePointToUtf8 cp ++ rest) true 0 = Ok 0xfffd 1.
Proof.
  intros Hcp Hrest. rewrite codePointToUtf8_utf8 by lia. unfold utf8.
  rewrite !decide_False by lia. simpl app.
  set (b0 := 240 + _). set (b1 := 128 + (cp `div` 2 ^ 12) `mod` _).
  set (b2 := 128 + (cp `div` 2 ^ 6) `mod` _). set (b3 := 128 + cp `mod` _).
  assert (H0 : 240 <= b0 < 245) by (unfold b0; euclid).
  assert (H1 : 128 <= b1 < 192) by (unfold b1; euclid).
  assert (H2 : 128 <= b2 < 192) by (unfold b2; euclid).
  assert (H3 : 128 <= b3 < 192) by (unfold b3; euclid).
  clearbody b0 b1 b2 b3. set (s := b0 :: b1 :: b2 :: b3 :: rest).
  assert (Hs : bytes_in_range s) by (unfold bytes_in_range, s; rewrite !Forall_cons; split_and!; try lia; done).
  assert (Hloop := fun skip => lead_loop s Hs b0 (b1 :: b2 :: b3 :: rest) skip eq_refl ltac:(lia)).
  pose proof (continuation_arith s Hs 1 ((2 * b0) `mod` 256) b0 b1 ltac:(by left) eq_refl ltac:(lia)) as Hc1.
  cbv zeta in Hc1. rewrite decide_True, decide_False in Hc1 by euclid.
  pose proof (continuation_arith s Hs 2 ((2 * ((2 * b0) `mod` 256)) `mod` 256) (b0 * 2 ^ 6 + b1 `mod` 2 ^ 6) b2
    ltac:(by right) eq_refl ltac:(euclid)) as Hc2.
  cbv zeta in Hc2. rewrite decide_True, decide_False in Hc2 by euclid.
  rewrite !Hloop. cbn [iter]. unfold bind. rewrite !Hc1, !Hc2. done.
Qed.

(** C33: the UTF-8 decoder accepts exactly the canonical encodings of the scalar
    values below U+10000: at any place of any byte string it returns [d] and
    moves [p] to [p'] if and only if [d] is such a value and its encoding by
    [codePointToUtf8] lies there and ends at [p'] (in particular, overlong
    forms, surrogates, stray continuation bytes and truncated sequences are all
    refused, and decoding inverts encoding); and with [skipOnError] the outcome
    is the same, each error replaced by U+FFFD and a step of one byte.  The
    four-byte encodings that [codePointToUtf8] writes from U+10000 on are all
    refused after their third byte, whatever follows, though the documented
    form 11110xxx is theirs: that text does not survive a round trip. *)
Theorem utf8_decoder_exact (s : list Z) (p : Z) :
  bytes_in_range s -> 0 <= p <= zlen s ->
  (forall d p', utf8ToCodePoint s false p = Ok d p' <->
     scalar3 d /\ p' = p + zlen (codePointToUtf8 d) /\ codePointToUtf8 d `prefix_of` drop (Z.to_nat p) s) /\
  utf8ToCodePoint s true p = on_error true (utf8ToCodePoint s false p) /\
  (forall skip why, utf8ToCodePoint s skip p <> Fault why /\ utf8ToCodePoint s skip p <> OutOfFuel) /\
  (forall cp rest, 0x10000 <= cp <= 0x10FFFF -> bytes_in_range rest ->
     utf8ToCodePoint (codePointToUtf8 cp ++ rest) false 0 = Throw (utf8_error "encoding length maxed out") 0 /\
     utf8ToCodePoint (codePointToUtf8 cp ++ rest) true 0 = Ok 0xfffd 1).
Proof.
  intros Hs Hp.
  assert (Hsplit : s = take (Z.to_nat p) s ++ drop (Z.to_nat p) s) by (by rewrite take_drop).
  set (t := drop (Z.to_nat p) s) in *.
  assert (Ht : bytes_in_range t) by (by apply Forall_drop).
  assert (Hshift : forall skip, utf8ToCodePoint s skip p = shift p (utf8ToCodePoint t skip 0)).
  { intros skip. rewrite Hsplit. unfold zlen in Hp.
    assert (Hz : zlen (take (Z.to_nat p) s) = p) by (unfold zlen; rewrite length_take; lia).
    rewrite <- Hz at 2 3. rewrite <- (Z.add_0_r (zlen _)) at 1. by apply utf8ToCodePoint_shift. }
  pose proof (utf8ToCodePoint_decode t Ht) as Hd.
  rewrite !Hshift. setoid_rewrite Hshift.
  destruct (decode t) as [[d n]|] eqn:E.
  - rewrite !Hd. setoid_rewrite Hd. split_and!; [|done|done|exact utf8_four_bytes_refused].
    destruct (decode_sound t d n Ht E) as (Hsc&Hn&Hpre). intros d' p'. simpl. split.
    + intros [= <- <-]. rewrite codePointToUtf8_utf8 by (destruct Hsc; lia). split_and!; [apply Hsc..|lia|done].
    + intros (Hsc'&->&[rest Hr]). rewrite codePointToUtf8_utf8 in Hr |- * by (destruct Hsc'; lia).
      rewrite Hr, decode_encode in E by done. injection E as <- <-. done.
  - destruct Hd as [what Hw]. rewrite !Hw. setoid_rewrite Hw. split_and!;
      [|simpl; unfold on_error; cbn -[Z.add]; f_equal; lia|by intros [] ?|exact utf8_four_bytes_refused].
    intros d' p'. split; [done|]. intros (Hsc'&->&[rest Hr]).
    rewrite codePointToUtf8_utf8 in Hr by (destruct Hsc'; lia). by rewrite Hr, decode_encode in E.
Qed.

Lemma utf8_decoder_exact_witness :
  utf8ToCodePoint [0xC3; 0xA9; 0xE2; 0x82; 0xAC; 65] false 2 = Ok 0x20AC 5 /\
  utf8ToCodePoint [0xC3; 0xA9; 0xE2; 0x82; 0xAC; 65] true 1 =
    on_error true (utf8ToCodePoint [0xC3; 0xA9; 0xE2; 0x82; 0xAC; 65] false 1).
Proof.
  assert (Hb : bytes_in_range [0xC3; 0xA9; 0xE2; 0x82; 0xAC; 65]).
  { unfold bytes_in_range. rewrite !Forall_cons. split_and!; try lia. by apply Forall_nil. }
  split.
  - apply (proj1 (utf8_decoder_exact _ 2 Hb ltac:(vm_compute; split; discriminate))).
    split; [unfold scalar3; lia|]. split; [reflexivity|by exists [65]].
  - apply (utf8_decoder_exact _ 1 Hb ltac:(vm_compute; split; discriminate)).
Defined.
