(* ===== verification/EvictingCacheMap.v ===== *)
(** * EvictingCacheMap: the LRU cache

    [src/accelerator/EvictingCacheMap.h].  A cache entry is a [Node] that two
    intrusive containers of Boost thread through: the hash index [index_] and
    the recency list [lru_].  The nodes live in a store of their own, [nodes],
    and the containers hold their addresses, so that a node that is deleted
    while it is linked, a dangling link and a leaked node are all visible.

    The containers are code outside of the repository: the classes [NodeList]
    and [NodeMap] are the operations the cache calls, with the documented laws
    ([NodeListLaws], [NodeMapLaws]); instances of both, a sequence and a table
    of buckets, follow.  The nodes are linked in the [safe_link] mode, whose
    assertions (a node is linked once, an erased node is linked, a destroyed
    node is not) are the assertions of the model. *)

From stdpp Require Import base list gmap strings.
From S2P Require Import Prelude.

(** ** The intrusive containers *)

(** [boost::intrusive::list]; [list_items] is the iteration from [begin()] to
    [end()]. *)
Class NodeList (L : Type) := {
  list_new : L;
  list_items : L -> list Z;
  list_empty : L -> bool;
  list_rbegin : L -> option Z;
  list_push_front : Z -> L -> L;
  list_erase : Z -> L -> L
}.

Class NodeListLaws (L : Type) `{!NodeList L} : Prop := {
  list_new_items : list_items list_new = [];
  list_empty_items l : list_empty l = bool_decide (list_items l = []);
  list_rbegin_items l : list_rbegin l = last (list_items l);
  list_push_front_items a l : a ∉ list_items l -> list_items (list_push_front a l) = a :: list_items l;
  list_erase_items a l :
    NoDup (list_items l) -> a ∈ list_items l -> list_items (list_erase a l) = filter (.≠ a) (list_items l)
}.

(** [boost::intrusive::unordered_set]: nodes are found by the key that is
    stored in them, read with the function the operations are given, and must
    keep it while they are linked ([map_ok]). *)
Class NodeMap (K S : Type) := {
  map_new : Z -> S;
  map_nodes : S -> list Z;
  map_size : S -> Z;
  map_find : (Z -> option K) -> K -> S -> option Z;
  map_insert : (Z -> option K) -> Z -> S -> S;
  map_erase : Z -> S -> S;
  map_ok : (Z -> option K) -> S -> Prop
}.

Class NodeMapLaws (K S : Type) `{!NodeMap K S} : Prop := {
  map_new_spec key n : 0 < n -> map_ok key (map_new n) /\ map_nodes (map_new n) = [];
  map_ok_ext key key' s : (forall a, a ∈ map_nodes s -> key a = key' a) -> map_ok key s -> map_ok key' s;
  map_size_spec key s : map_ok key s -> map_size s = zlen (map_nodes s);
  map_find_some key k s a :
    map_ok key s -> map_find key k s = Some a -> a ∈ map_nodes s /\ key a = Some k;
  map_find_none key k s : map_ok key s -> map_find key k s = None -> forall a, a ∈ map_nodes s -> key a <> Some k;
  map_insert_spec key k s a :
    map_ok key s -> key a = Some k -> (forall b, b ∈ map_nodes s -> key b <> Some k) ->
    map_ok key (map_insert key a s) /\ map_nodes (map_insert key a s) ≡ₚ a :: map_nodes s;
  map_erase_spec key s a :
    map_ok key s -> a ∈ map_nodes s -> NoDup (map_nodes s) ->
    map_ok key (map_erase a s) /\ map_nodes (map_erase a s) ≡ₚ filter (.≠ a) (map_nodes s)
}.

Section Cache.
Context {K V W NM NL : Type} `{EqDecision K} `{!NodeMap K NM} `{!NodeList NL}.

(** A prune hook works on a state of its own, [W], and may throw. *)
Definition PruneHookCall : Type := K -> V -> W -> W * option exn.

(** The cache and the nodes it allocates; [brk] is the next free address. *)
Record EvictingCacheMap := mkCache {
  nodes : gmap Z (K * V);
  brk : Z;
  pruneHook_ : option PruneHookCall;
  nIndexBuckets_ : Z;
  index_ : NM;
  lru_ : NL;
  maxSize_ : Z;
  clearSize_ : Z
}.

Definition Op (A : Type) : Type := M (EvictingCacheMap * W) A.

Definition this : Op EvictingCacheMap := gets fst.
Definition assign (f : EvictingCacheMap -> EvictingCacheMap) : Op unit := modify (fun '(c, w) => (f c, w)).

Definition set_nodes (f : gmap Z (K * V) -> gmap Z (K * V)) (c : EvictingCacheMap) : EvictingCacheMap :=
  mkCache (f (nodes c)) (brk c) (pruneHook_ c) (nIndexBuckets_ c) (index_ c) (lru_ c) (maxSize_ c) (clearSize_ c).
Definition set_lru (f : NL -> NL) (c : EvictingCacheMap) : EvictingCacheMap :=
  mkCache (nodes c) (brk c) (pruneHook_ c) (nIndexBuckets_ c) (index_ c) (f (lru_ c)) (maxSize_ c) (clearSize_ c).
Definition set_index (f : NM -> NM) (c : EvictingCacheMap) : EvictingCacheMap :=
  mkCache (nodes c) (brk c) (pruneHook_ c) (nIndexBuckets_ c) (f (index_ c)) (lru_ c) (maxSize_ c) (clearSize_ c).
Definition set_maxSize (n : Z) (c : EvictingCacheMap) : EvictingCacheMap :=
  mkCache (nodes c) (brk c) (pruneHook_ c) (nIndexBuckets_ c) (index_ c) (lru_ c) n (clearSize_ c).
Definition set_clearSize (n : Z) (c : EvictingCacheMap) : EvictingCacheMap :=
  mkCache (nodes c) (brk c) (pruneHook_ c) (nIndexBuckets_ c) (index_ c) (lru_ c) (maxSize_ c) n.
Definition set_hook (h : option PruneHookCall) (c : EvictingCacheMap) : EvictingCacheMap :=
  mkCache (nodes c) (brk c) h (nIndexBuckets_ c) (index_ c) (lru_ c) (maxSize_ c) (clearSize_ c).

(** *** Nodes and links *)

(** The key of the node at an address, for the hasher and the comparison. *)
Definition node_key (c : EvictingCacheMap) (a : Z) : option K := fst <$> nodes c !! a.

Definition node_at (a : Z) : Op (K * V) := c ← this; of_option (nodes c !! a) "no such node".

Definition new_node (key : K) (value : V) : Op Z :=
  c ← this;
  assign (fun c => mkCache (<[brk c := (key, value)]> (nodes c)) (brk c + 1) (pruneHook_ c) (nIndexBuckets_ c)
                           (index_ c) (lru_ c) (maxSize_ c) (clearSize_ c));;
  mret (brk c).

(** [delete]: the destructors of the hooks assert that the node is unlinked. *)
Definition delete_node (a : Z) : Op unit :=
  c ← this;
  assert (bool_decide (is_Some (nodes c !! a))) "double delete";;
  assert (bool_decide (a ∉ list_items (lru_ c)) && bool_decide (a ∉ map_nodes (index_ c))) "node still linked";;
  assign (set_nodes (delete a)).

Definition lru_erase (a : Z) : Op unit :=
  c ← this; assert (bool_decide (a ∈ list_items (lru_ c))) "not in the list";; assign (set_lru (list_erase a)).

Definition lru_push_front (a : Z) : Op unit :=
  c ← this; assert (bool_decide (a ∉ list_items (lru_ c))) "linked twice";; assign (set_lru (list_push_front a)).

Definition index_insert (a : Z) : Op unit :=
  c ← this; assert (bool_decide (a ∉ map_nodes (index_ c))) "linked twice";;
  assign (set_index (map_insert (node_key c) a)).

Definition index_erase (a : Z) : Op unit :=
  c ← this; assert (bool_decide (a ∈ map_nodes (index_ c))) "not in the index";; assign (set_index (map_erase a)).

(** *** Operations *)

Definition kMinNumIndexBuckets : Z := 100.

Definition EvictingCacheMap_ctor (maxSize clearSize : Z) : EvictingCacheMap :=
  let nIndexBuckets := Z.max (maxSize / 2) kMinNumIndexBuckets in
  mkCache ∅ 0 None nIndexBuckets (map_new nIndexBuckets) list_new maxSize clearSize.

Definition findInIndex (key : K) : Op (option Z) := c ← this; mret (map_find (node_key c) key (index_ c)).

Definition size_ : Op Z := c ← this; mret (map_size (index_ c)).

(** [index_.empty()]. *)
Definition empty_ : Op bool := c ← this; mret (bool_decide (map_size (index_ c) = 0)).

Definition getMaxSize : Op Z := c ← this; mret (maxSize_ c).

Definition setClearSize (clearSize : Z) : Op unit := assign (set_clearSize clearSize).

Definition setPruneHook (pruneHook : option PruneHookCall) : Op unit := assign (set_hook pruneHook).

Definition exists_ (key : K) : Op bool := it ← findInIndex key; mret (bool_decide (it <> None)).

(** Move to the front of the recency list. *)
Definition promote_node (a : Z) : Op unit := lru_erase a;; lru_push_front a.

(** An iterator is the address of its node, [end()] is none. *)
Definition find_ (key : K) : Op (option Z) :=
  it ← findInIndex key;
  match it with
  | None => mret None
  | Some a => promote_node a;; mret (Some a)
  end.

Definition get_ (key : K) : Op V :=
  it ← find_ key;
  match it with
  | None => throw (out_of_range "Key does not exist")
  | Some a => pr ← node_at a; mret (snd pr)
  end.

Definition findWithoutPromotion (key : K) : Op (option Z) := findInIndex key.

Definition getWithoutPromotion (key : K) : Op V :=
  it ← findWithoutPromotion key;
  match it with
  | None => throw (out_of_range "Key does not exist")
  | Some a => pr ← node_at a; mret (snd pr)
  end.

Definition erase (key : K) : Op bool :=
  it ← findInIndex key;
  match it with
  | None => mret false
  | Some a => lru_erase a;; index_erase a;; delete_node a;; mret true
  end.

(** The call [ph(node->pr.first, std::move(node->pr.second))]. *)
Definition call_hook (ph : PruneHookCall) (pr : K * V) : Op unit := fun '(c, w) =>
  match ph (fst pr) (snd pr) w with
  | (w', None) => Ok tt (c, w')
  | (w', Some e) => Throw e (c, w')
  end.

(** One round of the pruning loop; [unique_ptr] deletes the node on every way
    out of it. *)
Definition prune_round (pruneSize : Z) (ph : option PruneHookCall) (failSafe : bool) (i : Z) : Op (Z + unit) :=
  c ← this;
  if decide (i < pruneSize) then
    if list_empty (lru_ c) then mret (inr tt)
    else
      a ← of_option (list_rbegin (lru_ c)) "rbegin of an empty list";
      pr ← node_at a;
      lru_erase a;;
      index_erase a;;
      match ph with
      | None => mret tt
      | Some ph => try_catch (call_hook ph pr) (fun e => if failSafe then mret tt else delete_node a;; throw e)
      end;;
      delete_node a;;
      mret (inl (i + 1))
  else mret (inr tt).

Definition pruneWithFailSafeOption (pruneSize : Z) (pruneHook : option PruneHookCall) (failSafe : bool) : Op unit :=
  c ← this;
  let ph := match pruneHook with None => pruneHook_ c | Some _ => pruneHook end in
  iter (S (Z.to_nat (map_size (index_ c)))) (prune_round pruneSize ph failSafe) 0.

Definition prune (pruneSize : Z) (pruneHook : option PruneHookCall) : Op unit :=
  pruneWithFailSafeOption pruneSize pruneHook false.

Definition clear_ (pruneHook : option PruneHookCall) : Op unit := n ← size_; prune n pruneHook.

Definition setMaxSize (maxSize : Z) (pruneHook : option PruneHookCall) : Op unit :=
  n ← size_;
  c ← this;
  (if decide (maxSize <> 0 /\ maxSize < n) then prune (Z.max (n - maxSize) (clearSize_ c)) pruneHook
   else mret tt);;
  assign (set_maxSize maxSize).

Definition set_ (key : K) (value : V) (promote : bool) (pruneHook : option PruneHookCall) : Op unit :=
  it ← findInIndex key;
  match it with
  | Some a =>
      pr ← node_at a;
      assign (set_nodes (insert a (fst pr, value)));;
      if promote then promote_node a else mret tt
  | None =>
      a ← new_node key value;
      index_insert a;;
      lru_push_front a;;
      c ← this;
      n ← size_;
      if decide (0 < maxSize_ c /\ maxSize_ c < n) then prune (clearSize_ c) pruneHook else mret tt
  end.

Definition EvictingCacheMap_dtor : Op unit :=
  setPruneHook None;; n ← size_; pruneWithFailSafeOption n None true.
End Cache.

Arguments EvictingCacheMap : clear implicits.
Arguments PruneHookCall : clear implicits.
Arguments Op : clear implicits.

(** * The invariant of the LRU cache

    The two containers link the same nodes, these are the nodes of the store
    (nothing dangles, nothing leaks), and no key occurs twice; [contents] is the
    list of the entries from the most to the least recently used.  Each change
    the operations make preserves the invariant, with its effect on the
    contents. *)

(** ** Lists *)

Section Lists.
Context {A : Type} `{EqDecision A}.
Implicit Types (l : list A) (a : A).

Lemma filter_all_in (P : A -> Prop) `{!forall x, Decision (P x)} l : (forall x, x ∈ l -> P x) -> filter P l = l.
Proof.
  induction l as [|a l IH]; [done|]. intros HP. rewrite filter_cons_True by (apply HP; left).
  rewrite IH; [done|]. intros x Hx. apply HP. by right.
Qed.

Lemma filter_ne_perm l a : NoDup l -> a ∈ l -> l ≡ₚ a :: filter (.≠ a) l.
Proof.
  intros Hnd. induction Hnd as [|b l Hb Hnd IH]; [intros []%not_elem_of_nil|].
  intros [<-|Ha]%elem_of_cons.
  - rewrite filter_cons_False by auto. rewrite filter_all_in; [done|]. intros x Hx <-. done.
  - rewrite filter_cons_True by (intros ->; done). rewrite IH at 1 by done. apply Permutation_swap.
Qed.

Lemma filter_ne_notin l a : a ∉ l -> filter (.≠ a) l = l.
Proof. intros Ha. apply filter_all_in. intros x Hx ->. done. Qed.

Lemma filter_ne_last l a : NoDup (l ++ [a]) -> filter (.≠ a) (l ++ [a]) = l.
Proof.
  intros (?&Hd&?)%NoDup_app. rewrite filter_app. rewrite (filter_cons_False _ a []) by auto.
  rewrite filter_ne_notin, filter_nil, app_nil_r; [done|]. intros Ha. apply (Hd a Ha). by left.
Qed.

Lemma filter_Permutation_ne l l' a : l ≡ₚ l' -> filter (.≠ a) l ≡ₚ filter (.≠ a) l'.
Proof. by intros ->. Qed.

Lemma not_elem_of_filter_ne l a : a ∉ filter (.≠ a) l.
Proof. rewrite list_elem_of_filter. tauto. Qed.
End Lists.

Lemma omap_ext_in {A B} (f g : A -> option B) (l : list A) : (forall a, a ∈ l -> f a = g a) -> omap f l = omap g l.
Proof.
  induction l as [|a l IH]; [done|]. intros Hfg. csimpl. rewrite <- (Hfg a) by left.
  rewrite IH; [done|]. intros b Hb. apply Hfg. by right.
Qed.

Lemma length_omap_all {A B} (f : A -> option B) (l : list A) : (forall a, a ∈ l -> is_Some (f a)) -> length (omap f l) = length l.
Proof.
  induction l as [|a l IH]; [done|]. intros Hf. csimpl.
  destruct (Hf a) as [b ->]; [left|]. csimpl. rewrite IH; [done|]. intros c Hc. apply Hf. by right.
Qed.

(** ** Association lists *)

Section Entries.
Context {K V : Type} `{EqDecision K}.
Implicit Types (l : list (K * V)) (k : K) (v : V).

Fixpoint assoc k l : option V :=
  match l with
  | [] => None
  | (k', v) :: l => if decide (k' = k) then Some v else assoc k l
  end.

Definition without k l : list (K * V) := filter (fun e => fst e <> k) l.

(** The value of an entry, replaced in place. *)
Definition replace_value k v l : list (K * V) :=
  (fun e => if decide (fst e = k) then (fst e, v) else e) <$> l.

Lemma assoc_None k l : assoc k l = None <-> (forall v, (k, v) ∉ l).
Proof.
  induction l as [|[k' v'] l IH]; simpl.
  - split; [intros _ v []%not_elem_of_nil|done].
  - case_decide as Hk; subst.
    + split; [done|]. intros Hn. destruct (Hn v'). left.
    + rewrite IH. split; intros Hn v; [rewrite elem_of_cons; intros [[=]|]; [done|by apply (Hn v)]|].
      intros Hv. apply (Hn v). by right.
Qed.

Lemma assoc_Some k v l : assoc k l = Some v -> (k, v) ∈ l.
Proof.
  induction l as [|[k' v'] l IH]; simpl; [done|]. case_decide; subst.
  - intros [= ->]. left.
  - intros. right. auto.
Qed.
End Entries.

(** ** The invariant *)

Section Invariant.
Context {K V W NM NL : Type} `{EqDecision K} `{!NodeMap K NM} `{!NodeList NL}.
Context `{!NodeMapLaws K NM} `{!NodeListLaws NL}.
Local Abbreviation Cache := (EvictingCacheMap K V W NM NL).
Implicit Types (c : Cache) (w : W) (k : K) (v : V) (a b : Z).

Definition items c : list Z := list_items (lru_ c).

Definition contents c : list (K * V) := omap (fun a => nodes c !! a) (items c).

Record cache_ok c : Prop := {
  ok_nodup : NoDup (items c);
  ok_index : map_nodes (index_ c) ≡ₚ items c;
  ok_map : map_ok (node_key c) (index_ c);
  ok_store : forall a, a ∈ items c <-> is_Some (nodes c !! a);
  ok_keys : forall a b, a ∈ items c -> b ∈ items c -> node_key c a = node_key c b -> a = b;
  ok_brk : forall a, a ∈ items c -> a < brk c
}.

Lemma ok_in_index c a : cache_ok c -> a ∈ map_nodes (index_ c) <-> a ∈ items c.
Proof. intros Hc. by rewrite (ok_index c Hc). Qed.

Lemma node_key_at c a k v : nodes c !! a = Some (k, v) -> node_key c a = Some k.
Proof. unfold node_key. by intros ->. Qed.

Lemma size_contents c : cache_ok c -> map_size (index_ c) = zlen (contents c).
Proof.
  intros Hc. rewrite (map_size_spec (node_key c)) by apply Hc. unfold zlen, contents. f_equal.
  rewrite (length_omap_all _ (items c)); [apply Permutation_length, Hc|]. intros a Ha. by apply Hc.
Qed.

Lemma elem_of_contents c k v : cache_ok c -> (k, v) ∈ contents c <-> exists a, a ∈ items c /\ nodes c !! a = Some (k, v).
Proof. intros Hc. unfold contents. by rewrite list_elem_of_omap. Qed.

(** What the search of the index finds. *)
Lemma find_spec c k :
  cache_ok c ->
  match map_find (node_key c) k (index_ c) with
  | Some a => a ∈ items c /\ exists v, nodes c !! a = Some (k, v) /\ assoc k (contents c) = Some v
  | None => assoc k (contents c) = None
  end.
Proof.
  intros Hc. destruct (map_find (node_key c) k (index_ c)) as [a|] eqn:E.
  - apply map_find_some in E as [Ha Hk]; [|apply Hc]. apply ok_in_index in Ha; [|done]. split; [done|].
    unfold node_key in Hk. destruct (nodes c !! a) as [[k' v]|] eqn:Hn; [|done]. simpl in Hk.
    injection Hk as ->. exists v. split; [done|].
    destruct (assoc k (contents c)) as [v'|] eqn:Hv.
    + apply assoc_Some, elem_of_contents in Hv as (b&Hb&Hnb); [|done].
      assert (a = b) as <- by (apply (ok_keys c Hc); [done..|]; by rewrite (node_key_at c a k v), (node_key_at c b k v')).
      congruence.
    + rewrite assoc_None in Hv. destruct (Hv v). apply elem_of_contents; eauto.
  - apply assoc_None. intros v (a&Ha&Hn)%elem_of_contents; [|done].
    apply (map_find_none _ _ _ (ok_map c Hc) E a); [by apply ok_in_index|by apply (node_key_at c a k v)].
Qed.

(** Removing one node from a list of nodes removes its entry. *)
Lemma omap_filter_ne (f : Z -> option (K * V)) (l : list Z) a k v :
  f a = Some (k, v) -> (forall b, b ∈ l -> fst <$> f b = Some k -> b = a) ->
  omap f (filter (.≠ a) l) = without k (omap f l).
Proof.
  intros Ha. induction l as [|b l IH]; intros Hk; [done|].
  assert (IH' := IH ltac:(intros x Hx; apply Hk; by right)). clear IH. unfold without in *.
  destruct (decide (b = a)) as [->|Hb].
  - rewrite filter_cons_False by auto. csimpl. rewrite Ha, filter_cons_False by auto. done.
  - rewrite filter_cons_True by done. csimpl. destruct (f b) as [[k' v']|] eqn:Hfb; [|done].
    rewrite filter_cons_True; [by rewrite IH'|]. simpl. intros ->. apply Hb, Hk; [left|]. by rewrite Hfb.
Qed.

(** *** Promotion *)

Definition promoted a c : Cache := set_lru (list_push_front a) (set_lru (list_erase a) c).

Lemma items_promoted a c : cache_ok c -> a ∈ items c -> items (promoted a c) = a :: filter (.≠ a) (items c).
Proof.
  intros Hc Ha. unfold items, promoted. simpl. pose proof (ok_nodup c Hc).
  rewrite list_push_front_items; rewrite list_erase_items by done; [done|]. apply not_elem_of_filter_ne.
Qed.

Lemma promoted_spec a c k v :
  cache_ok c -> a ∈ items c -> nodes c !! a = Some (k, v) ->
  cache_ok (promoted a c) /\ contents (promoted a c) = (k, v) :: without k (contents c).
Proof.
  intros Hc Ha Hn. pose proof (items_promoted a c Hc Ha) as Hi.
  assert (Hp : items (promoted a c) ≡ₚ items c).
  { rewrite Hi. symmetry. apply filter_ne_perm; [apply Hc|done]. }
  split.
  - constructor.
    + rewrite Hp. apply Hc.
    + rewrite Hp. apply Hc.
    + apply Hc.
    + intros b. rewrite Hp. apply Hc.
    + intros b b'. rewrite Hp. apply Hc.
    + intros b. rewrite Hp. apply Hc.
  - unfold contents. rewrite Hi. simpl. rewrite Hn. f_equal. apply omap_filter_ne with v; [done|].
    intros b Hb Hkb. apply (ok_keys c Hc); [done..|]. unfold node_key. rewrite Hkb. by rewrite Hn.
Qed.

(** *** Removal *)

Definition unhooked a c : Cache := set_index (map_erase a) (set_lru (list_erase a) c).
Definition removed a c : Cache := set_nodes (delete a) (unhooked a c).

Lemma items_removed a c : cache_ok c -> a ∈ items c -> items (removed a c) = filter (.≠ a) (items c).
Proof. intros Hc Ha. unfold items, removed. simpl. apply list_erase_items; [apply Hc|done]. Qed.

Lemma index_removed a c :
  cache_ok c -> a ∈ items c ->
  map_ok (node_key c) (index_ (removed a c)) /\ map_nodes (index_ (removed a c)) ≡ₚ filter (.≠ a) (items c).
Proof.
  intros Hc Ha. unfold removed. simpl.
  destruct (map_erase_spec (node_key c) (index_ c) a) as [Hok Hp].
  - apply Hc.
  - by apply ok_in_index.
  - rewrite (ok_index c Hc). apply Hc.
  - split; [done|]. rewrite Hp. apply filter_Permutation_ne, Hc.
Qed.

Lemma removed_spec a c k v :
  cache_ok c -> a ∈ items c -> nodes c !! a = Some (k, v) ->
  cache_ok (removed a c) /\ contents (removed a c) = without k (contents c).
Proof.
  intros Hc Ha Hn. pose proof (items_removed a c Hc Ha) as Hi.
  destruct (index_removed a c Hc Ha) as [Hok Hp].
  assert (Hsame : forall b, b ∈ items (removed a c) -> b ∈ items c /\ nodes (removed a c) !! b = nodes c !! b).
  { intros b. rewrite Hi, list_elem_of_filter. intros [Hb ?]. split; [done|].
    unfold removed. simpl. by rewrite lookup_delete_ne. }
  assert (Hkey : forall b, b ∈ items (removed a c) -> node_key c b = node_key (removed a c) b).
  { intros b Hb. unfold node_key. destruct (Hsame b Hb) as [_ ->]. done. }
  split.
  - constructor.
    + rewrite Hi. apply NoDup_filter, Hc.
    + by rewrite Hp, Hi.
    + apply map_ok_ext with (2 := Hok). intros b. rewrite Hp, <- Hi. apply Hkey.
    + intros b. rewrite Hi, list_elem_of_filter, (ok_store c Hc). unfold removed. simpl.
      destruct (decide (b = a)) as [->|]; [rewrite lookup_delete_eq; split; [tauto|by intros [? [=]]]|].
      rewrite lookup_delete_ne by done. tauto.
    + intros b b' Hb Hb'. rewrite <- !Hkey by done. apply (ok_keys c Hc); by apply Hsame.
    + intros b Hb. apply (ok_brk c Hc). by apply Hsame.
  - unfold contents. rewrite (omap_ext_in _ (fun b => nodes c !! b)) by (intros b Hb; by apply Hsame).
    rewrite Hi. apply omap_filter_ne with v; [done|].
    intros b Hb Hkb. apply (ok_keys c Hc); [done..|]. unfold node_key. rewrite Hkb. by rewrite Hn.
Qed.

(** The least recently used entry. *)
Lemma removed_last a c k v l :
  cache_ok c -> items c = l ++ [a] -> nodes c !! a = Some (k, v) ->
  contents c = contents (removed a c) ++ [(k, v)].
Proof.
  intros Hc Hl Hn. assert (Ha : a ∈ items c) by (rewrite Hl, elem_of_app; right; by left).
  pose proof (items_removed a c Hc Ha) as Hi. pose proof (ok_nodup c Hc) as Hnd.
  rewrite Hl in Hi, Hnd. rewrite filter_ne_last in Hi by done.
  unfold contents. rewrite Hl, Hi, omap_app. simpl. rewrite Hn. f_equal.
  apply omap_ext_in. intros b Hb. simpl. rewrite lookup_delete_ne; [done|]. intros ->.
  apply NoDup_app in Hnd as (_&Hd&_). apply (Hd b Hb). by left.
Qed.
(** *** Insertion *)

Definition allocated k v c : Cache :=
  mkCache (<[brk c := (k, v)]> (nodes c)) (brk c + 1) (pruneHook_ c) (nIndexBuckets_ c) (index_ c) (lru_ c)
          (maxSize_ c) (clearSize_ c).

Definition inserted k v c : Cache :=
  set_lru (list_push_front (brk c))
    (set_index (map_insert (node_key (allocated k v c)) (brk c)) (allocated k v c)).

Lemma brk_unused c : cache_ok c -> brk c ∉ items c.
Proof. intros Hc Hb%(ok_brk c Hc). lia. Qed.

Lemma items_inserted k v c : cache_ok c -> items (inserted k v c) = brk c :: items c.
Proof. intros Hc. unfold items, inserted. simpl. by apply list_push_front_items, brk_unused. Qed.

Lemma node_key_allocated k v c a : cache_ok c -> a ∈ items c -> node_key (allocated k v c) a = node_key c a.
Proof.
  intros Hc Ha. unfold node_key, allocated. simpl. rewrite lookup_insert_ne; [done|]. intros <-.
  by apply (brk_unused c Hc).
Qed.

Lemma inserted_spec k v c :
  cache_ok c -> assoc k (contents c) = None ->
  cache_ok (inserted k v c) /\ contents (inserted k v c) = (k, v) :: contents c.
Proof.
  intros Hc Hk. pose proof (items_inserted k v c Hc) as Hi. pose proof (brk_unused c Hc) as Hb.
  assert (Hnew : node_key (allocated k v c) (brk c) = Some k).
  { unfold node_key, allocated. simpl. by rewrite lookup_insert_eq. }
  assert (Hfresh : forall b, b ∈ items c -> node_key (allocated k v c) b <> Some k).
  { intros b Hbi. rewrite node_key_allocated by done. unfold node_key.
    destruct (nodes c !! b) as [[k' v']|] eqn:Hn; [|done]. simpl. intros [= ->].
    rewrite assoc_None in Hk. apply (Hk v'), elem_of_contents; eauto. }
  destruct (map_insert_spec (node_key (allocated k v c)) k (index_ c) (brk c)) as [Hok Hp].
  { apply map_ok_ext with (2 := ok_map c Hc). intros b Hbi%ok_in_index; [|done]. by rewrite node_key_allocated. }
  { done. }
  { intros b Hbi%ok_in_index; [|done]. by apply Hfresh. }
  split.
  - constructor.
    + rewrite Hi. constructor; [done|apply Hc].
    + rewrite Hi. simpl. by rewrite Hp, (ok_index c Hc).
    + exact Hok.
    + intros b. rewrite Hi, elem_of_cons, (ok_store c Hc). simpl.
      destruct (decide (b = brk c)) as [->|]; [rewrite lookup_insert_eq; split; eauto|].
      rewrite lookup_insert_ne by done. split; [by intros [?|?]|]. auto.
    + assert (Hkey : forall b, node_key (inserted k v c) b = node_key (allocated k v c) b) by done.
      intros b b'. rewrite Hi, !elem_of_cons, !Hkey.
      intros [->|H1] [->|H2] E; [done|rewrite Hnew in E; by destruct (Hfresh b' H2)|
        rewrite Hnew in E; by destruct (Hfresh b H1)|].
      rewrite !node_key_allocated in E by done. by apply (ok_keys c Hc).
    + intros b. rewrite Hi, elem_of_cons. simpl. intros [->|Hbi%(ok_brk c Hc)]; lia.
  - unfold contents. rewrite Hi. simpl. rewrite lookup_insert_eq. f_equal.
    apply omap_ext_in. intros b Hbi. rewrite lookup_insert_ne; [done|]. by intros <-.
Qed.

(** *** Assignment to a value *)

Definition assigned a k v c : Cache := set_nodes (insert a (k, v)) c.

Lemma assigned_spec a k v v0 c :
  cache_ok c -> a ∈ items c -> nodes c !! a = Some (k, v0) ->
  cache_ok (assigned a k v c) /\ contents (assigned a k v c) = replace_value k v (contents c).
Proof.
  intros Hc Ha Hn.
  assert (Hkey : forall b, node_key c b = node_key (assigned a k v c) b).
  { intros b. unfold node_key. simpl. destruct (decide (b = a)) as [->|]; [by rewrite lookup_insert_eq, Hn|].
    by rewrite lookup_insert_ne. }
  split.
  - constructor; try apply Hc.
    + apply map_ok_ext with (2 := ok_map c Hc). intros b _. apply Hkey.
    + intros b. etrans; [apply (ok_store c Hc)|]. simpl.
      destruct (decide (b = a)) as [->|]; [rewrite lookup_insert_eq, Hn; by split; eauto|].
      by rewrite lookup_insert_ne.
    + intros b b'. rewrite <- !Hkey. apply Hc.
  - unfold contents, replace_value. change (items (assigned a k v c)) with (items c).
    assert (Hk : forall b, b ∈ items c -> node_key c b = Some k -> b = a).
    { intros b Hb Hkb. apply (ok_keys c Hc); [done..|]. by rewrite Hkb, (node_key_at c a k v0). }
    revert Hk. generalize (items c) as l. induction l as [|b l IH]; [done|]. intros Hk.
    csimpl. simpl in IH. rewrite IH by (intros x Hx; apply Hk; by right). clear IH.
    destruct (decide (b = a)) as [->|Hb].
    + rewrite lookup_insert_eq, Hn. csimpl. by rewrite decide_True.
    + rewrite lookup_insert_ne by done. destruct (nodes c !! b) as [[k' v']|] eqn:Hnb; [|done]. csimpl.
      rewrite decide_False; [done|]. intros ->. apply Hb, Hk; [left|]. by apply (node_key_at c b k v').
Qed.
End Invariant.
