(* ===== verification/EvictingCacheMapSpec.v ===== *)
(** * The LRU cache refines a recency list

    [Lru] is the abstract cache: the entries from the most to the least
    recently used.  Each operation of the cache, exceptions of the prune hook
    included, does to the contents what the abstract operation does, and keeps
    the invariant. *)

From stdpp Require Import base list gmap strings.
From S2P Require Import Prelude EvictingCacheMap.

(** ** The abstract cache *)

Section Abstract.
Context {K V W : Type} `{EqDecision K}.
Local Abbreviation Hook := (PruneHookCall K V W).

Record Lru := mkLru {
  entries : list (K * V);
  hook : option Hook;
  bound : Z;
  batch : Z
}.

Definition with_entries (f : list (K * V) -> list (K * V)) (l : Lru) : Lru :=
  mkLru (f (entries l)) (hook l) (bound l) (batch l).

(** Evict up to [n] entries of [old], the oldest first: the exception that
    ended it, the entries that are left and the state of the hook. *)
Fixpoint evict (ph : option Hook) (failSafe : bool) (n : nat) (old : list (K * V)) (w : W)
  : option exn * list (K * V) * W :=
  match n, old with
  | S n, (k, v) :: old =>
      match ph with
      | None => evict ph failSafe n old w
      | Some f =>
          match f k v w with
          | (w', None) => evict ph failSafe n old w'
          | (w', Some e) => if failSafe then evict ph failSafe n old w' else (Some e, old, w')
          end
      end
  | _, _ => (None, old, w)
  end.

Local Abbreviation Act := (M (Lru * W)).

Definition the : Act Lru := gets fst.
Definition change (f : Lru -> Lru) : Act unit := modify (fun '(l, w) => (f l, w)).

Definition lru_prune (n : Z) (h : option Hook) (failSafe : bool) : Act unit := fun '(l, w) =>
  let ph := match h with None => hook l | Some _ => h end in
  let '(e, old, w') := evict ph failSafe (Z.to_nat n) (reverse (entries l)) w in
  match e with
  | None => Ok tt (with_entries (fun _ => reverse old) l, w')
  | Some e => Throw e (with_entries (fun _ => reverse old) l, w')
  end.

Definition lru_peek (k : K) : Act (option (K * V)) := l ← the; mret (pair k <$> assoc k (entries l)).

Definition lru_find (k : K) : Act (option (K * V)) :=
  o ← lru_peek k;
  match o with
  | None => mret None
  | Some e => change (with_entries (fun es => e :: without k es));; mret (Some e)
  end.

Definition lru_value (o : option (K * V)) : Act V :=
  match o with None => throw (out_of_range "Key does not exist") | Some e => mret (snd e) end.

Definition lru_erase_key (k : K) : Act bool :=
  o ← lru_peek k;
  match o with None => mret false | Some _ => change (with_entries (without k));; mret true end.

Definition lru_set (k : K) (v : V) (promote : bool) (h : option Hook) : Act unit :=
  o ← lru_peek k;
  match o with
  | Some _ =>
      change (with_entries (fun es => if promote then (k, v) :: without k es else replace_value k v es))
  | None =>
      change (with_entries (cons (k, v)));;
      l ← the;
      if decide (0 < bound l /\ bound l < zlen (entries l)) then lru_prune (batch l) h false else mret tt
  end.

Definition lru_setMaxSize (n : Z) (h : option Hook) : Act unit :=
  l ← the;
  (if decide (n <> 0 /\ n < zlen (entries l))
   then lru_prune (Z.max (zlen (entries l) - n) (batch l)) h false else mret tt);;
  change (fun l => mkLru (entries l) (hook l) n (batch l)).

(** ** Requests and replies *)

Inductive request :=
  | RSet (k : K) (v : V) (promote : bool) (h : option Hook)
  | RFind (k : K)
  | RGet (k : K)
  | RFindWithoutPromotion (k : K)
  | RGetWithoutPromotion (k : K)
  | RExists (k : K)
  | RErase (k : K)
  | RPrune (n : Z) (h : option Hook)
  | RClear (h : option Hook)
  | RSetMaxSize (n : Z) (h : option Hook)
  | RSetClearSize (n : Z)
  | RSetPruneHook (h : option Hook)
  | RSize
  | REmpty
  | RGetMaxSize.

Inductive reply :=
  | Done
  | Flag (b : bool)
  | Number (n : Z)
  | Value (v : V)
  | Entry (o : option (K * V))
  | Raised (e : exn).

Definition lru_serve (r : request) : Act reply :=
  match r with
  | RSet k v promote h => lru_set k v promote h;; mret Done
  | RFind k => o ← lru_find k; mret (Entry o)
  | RGet k => o ← lru_find k; v ← lru_value o; mret (Value v)
  | RFindWithoutPromotion k => o ← lru_peek k; mret (Entry o)
  | RGetWithoutPromotion k => o ← lru_peek k; v ← lru_value o; mret (Value v)
  | RExists k => o ← lru_peek k; mret (Flag (bool_decide (o <> None)))
  | RErase k => b ← lru_erase_key k; mret (Flag b)
  | RPrune n h => lru_prune n h false;; mret Done
  | RClear h => l ← the; lru_prune (zlen (entries l)) h false;; mret Done
  | RSetMaxSize n h => lru_setMaxSize n h;; mret Done
  | RSetClearSize n => change (fun l => mkLru (entries l) (hook l) (bound l) n);; mret Done
  | RSetPruneHook h => change (fun l => mkLru (entries l) h (bound l) (batch l));; mret Done
  | RSize => l ← the; mret (Number (zlen (entries l)))
  | REmpty => l ← the; mret (Flag (bool_decide (entries l = [])))
  | RGetMaxSize => l ← the; mret (Number (bound l))
  end.
End Abstract.
Arguments Lru : clear implicits.
Arguments request : clear implicits.
Arguments reply : clear implicits.

(** The replies to a sequence of requests, an exception being a reply that the
    caller handles; none when a request faults or does not return. *)
Fixpoint serve_all {S Q R} (raised : exn -> R) (serve : Q -> M S R) (rs : list Q) (s : S) : option (list R * S) :=
  match rs with
  | [] => Some ([], s)
  | r :: rs =>
      match serve r s with
      | Ok a s' => prod_map (cons a) id <$> serve_all raised serve rs s'
      | Throw e s' => prod_map (cons (raised e)) id <$> serve_all raised serve rs s'
      | Fault _ | OutOfFuel => None
      end
  end.

(** ** The cache *)

Section Refinement.
Context {K V W NM NL : Type} `{EqDecision K} `{!NodeMap K NM} `{!NodeList NL}.
Context `{!NodeMapLaws K NM} `{!NodeListLaws NL}.
Local Abbreviation Cache := (EvictingCacheMap K V W NM NL).
Local Abbreviation OpC := (Op K V W NM NL).
Implicit Types (c : Cache) (w : W) (k : K) (v : V) (a b : Z).

Definition pointee (it : option Z) : OpC (option (K * V)) :=
  match it with None => mret None | Some a => pr ← node_at a; mret (Some pr) end.

Definition cache_serve (r : request K V W) : OpC (reply K V) :=
  match r with
  | RSet k v promote h => set_ k v promote h;; mret Done
  | RFind k => it ← find_ k; o ← pointee it; mret (Entry o)
  | RGet k => v ← get_ k; mret (Value v)
  | RFindWithoutPromotion k => it ← findWithoutPromotion k; o ← pointee it; mret (Entry o)
  | RGetWithoutPromotion k => v ← getWithoutPromotion k; mret (Value v)
  | RExists k => b ← exists_ k; mret (Flag b)
  | RErase k => b ← erase k; mret (Flag b)
  | RPrune n h => prune n h;; mret Done
  | RClear h => clear_ h;; mret Done
  | RSetMaxSize n h => setMaxSize n h;; mret Done
  | RSetClearSize n => setClearSize n;; mret Done
  | RSetPruneHook h => setPruneHook h;; mret Done
  | RSize => n ← size_; mret (Number n)
  | REmpty => b ← empty_; mret (Flag b)
  | RGetMaxSize => n ← getMaxSize; mret (Number n)
  end.

Definition abs c : Lru K V W := mkLru (contents c) (pruneHook_ c) (maxSize_ c) (clearSize_ c).

(** Two outcomes agree. *)
Definition agree {A} (r : res (Cache * W) A) (r' : res (Lru K V W * W) A) : Prop :=
  match r, r' with
  | Ok x (c, w), Ok x' (l, w') => x = x' /\ w = w' /\ cache_ok c /\ abs c = l
  | Throw e (c, w), Throw e' (l, w') => e = e' /\ w = w' /\ cache_ok c /\ abs c = l
  | _, _ => False
  end.

Definition refines {A} (m : OpC A) (m' : M (Lru K V W * W) A) : Prop :=
  forall c w, cache_ok c -> agree (m (c, w)) (m' (abs c, w)).

Lemma refines_ret {A} (x : A) : refines (mret x) (mret x).
Proof. by intros c w Hc. Qed.

Lemma refines_bind {A B} (m : OpC A) m' (f : A -> OpC B) f' :
  refines m m' -> (forall x, refines (f x) (f' x)) -> refines (m ≫= f) (m' ≫= f').
Proof.
  intros Hm Hf c w Hc. specialize (Hm c w Hc). unfold mbind, M_bind, bind.
  destruct (m (c, w)) as [x [c1 w1]|e [c1 w1]|?|]; destruct (m' (abs c, w)) as [x' [l1 w2]|e' [l1 w2]|?|];
    simpl in *; try done.
  destruct Hm as (<-&<-&Hc1&<-). by apply Hf.
Qed.

Lemma refines_assign f f' :
  (forall c, cache_ok c -> cache_ok (f c) /\ abs (f c) = f' (abs c)) -> refines (assign f) (change f').
Proof. intros Hf c w Hc. destruct (Hf c Hc) as [? ?]. by simpl. Qed.
(** *** Links *)

Lemma lru_erase_run c w a : a ∈ items c -> lru_erase a (c, w) = Ok tt (set_lru (list_erase a) c, w).
Proof.
  intros Ha. unfold lru_erase, mbind, M_bind, bind, this, gets. simpl.
  unfold items in Ha. by rewrite bool_decide_true.
Qed.

Lemma promote_run c w a : cache_ok c -> a ∈ items c -> promote_node a (c, w) = Ok tt (promoted a c, w).
Proof.
  intros Hc Ha. unfold promote_node, mbind, M_bind, bind. rewrite lru_erase_run by done.
  unfold lru_push_front, mbind, M_bind, bind, this, gets. simpl.
  rewrite list_erase_items by (done || apply Hc). rewrite bool_decide_true by apply not_elem_of_filter_ne. done.
Qed.

Lemma index_erase_run c w a :
  cache_ok c -> a ∈ items c -> index_erase a (set_lru (list_erase a) c, w) = Ok tt (unhooked a c, w).
Proof.
  intros Hc Ha. unfold index_erase, mbind, M_bind, bind, this, gets. simpl.
  rewrite bool_decide_true; [done|]. by apply ok_in_index.
Qed.

Lemma delete_run c w a : cache_ok c -> a ∈ items c -> delete_node a (unhooked a c, w) = Ok tt (removed a c, w).
Proof.
  intros Hc Ha. unfold delete_node, mbind, M_bind, bind, this, gets. simpl.
  destruct (index_removed a c Hc Ha) as [_ Hp]. simpl in Hp.
  rewrite bool_decide_true by (by apply (ok_store c Hc)). simpl.
  rewrite list_erase_items by (done || apply Hc). rewrite bool_decide_true by apply not_elem_of_filter_ne. simpl.
  rewrite bool_decide_true by (rewrite Hp; apply not_elem_of_filter_ne). done.
Qed.

(** *** The operations that search *)

Lemma refines_peek k : refines (findWithoutPromotion k ≫= pointee) (lru_peek k).
Proof.
  intros c w Hc. pose proof (find_spec c k Hc) as Hf.
  unfold findWithoutPromotion, findInIndex, lru_peek, mbind, M_bind, bind, this, the, gets. simpl.
  destruct (map_find (node_key c) k (index_ c)) as [a|].
  - destruct Hf as (Ha&v&Hn&->). simpl. unfold node_at, mbind, M_bind, bind, this, gets. simpl. by rewrite Hn.
  - by rewrite Hf.
Qed.

Lemma refines_exists k : refines (exists_ k) (o ← lru_peek k; mret (bool_decide (o <> None))).
Proof.
  intros c w Hc. pose proof (find_spec c k Hc) as Hf.
  unfold exists_, findInIndex, lru_peek, mbind, M_bind, bind, this, the, gets. simpl.
  destruct (map_find (node_key c) k (index_ c)) as [a|]; [destruct Hf as (Ha&v&Hn&->)|rewrite Hf]; done.
Qed.

(** [find] moves the entry to the front. *)
Lemma find_run c w k :
  cache_ok c ->
  match assoc k (contents c) with
  | None => find_ k (c, w) = Ok None (c, w)
  | Some v => exists a, find_ k (c, w) = Ok (Some a) (promoted a c, w) /\ a ∈ items c /\ nodes c !! a = Some (k, v)
  end.
Proof.
  intros Hc. pose proof (find_spec c k Hc) as Hf.
  unfold find_, findInIndex. unfold mbind, M_bind, bind, this, gets. simpl.
  destruct (map_find (node_key c) k (index_ c)) as [a|].
  - destruct Hf as (Ha&v&Hn&->). exists a. by rewrite promote_run.
  - by rewrite Hf.
Qed.

Lemma refines_find k : refines (find_ k ≫= pointee) (lru_find k).
Proof.
  intros c w Hc. pose proof (find_run c w k Hc) as Hf.
  unfold lru_find, lru_peek, mbind, M_bind, bind, the, gets. simpl.
  destruct (assoc k (contents c)) as [v|]; [|by rewrite Hf].
  destruct Hf as (a&->&Ha&Hn). simpl. unfold node_at, mbind, M_bind, bind, this, gets. simpl. rewrite Hn. simpl.
  destruct (promoted_spec a c k v Hc Ha Hn) as [Hok Hcon]. split_and!; try done. unfold abs. by rewrite Hcon.
Qed.

Lemma refines_erase k : refines (erase k) (lru_erase_key k).
Proof.
  intros c w Hc. pose proof (find_spec c k Hc) as Hf.
  unfold erase, findInIndex, lru_erase_key, lru_peek, mbind, M_bind, bind, the, this, gets. simpl.
  destruct (map_find (node_key c) k (index_ c)) as [a|]; [|by rewrite Hf].
  destruct Hf as (Ha&v&Hn&->). simpl. rewrite lru_erase_run, index_erase_run, delete_run by done. simpl.
  destruct (removed_spec a c k v Hc Ha Hn) as [Hok Hcon]. split_and!; try done. unfold abs. by rewrite Hcon.
Qed.

(** *** The pruning loop *)

Definition same_config c c' : Prop :=
  pruneHook_ c = pruneHook_ c' /\ maxSize_ c = maxSize_ c' /\ clearSize_ c = clearSize_ c'.

(** What is left of a round once the node is chosen. *)
Lemma prune_round_run n ph fs i c w a k v :
  cache_ok c -> i < n -> last (items c) = Some a -> nodes c !! a = Some (k, v) ->
  prune_round n ph fs i (c, w) =
  match ph with
  | None => Ok (inl (i + 1)) (removed a c, w)
  | Some f =>
      match f k v w with
      | (w', None) => Ok (inl (i + 1)) (removed a c, w')
      | (w', Some e) => if fs then Ok (inl (i + 1)) (removed a c, w') else Throw e (removed a c, w')
      end
  end.
Proof.
  intros Hc Hi Hl Hn. assert (Ha : a ∈ items c) by (apply last_Some in Hl as [l ->]; rewrite elem_of_app; right; by left).
  unfold prune_round. unfold mbind, M_bind, bind at 1, this, gets. simpl. rewrite decide_True by done.
  rewrite list_empty_items. fold (items c). rewrite bool_decide_false by (intros E; by rewrite E in Hl).
  unfold bind at 1. rewrite list_rbegin_items. fold (items c). rewrite Hl. simpl.
  unfold bind at 1, node_at, mbind, M_bind, bind at 1, this, gets. simpl. rewrite Hn. simpl.
  unfold bind at 1. rewrite lru_erase_run by done. unfold bind at 1. rewrite index_erase_run by done.
  unfold bind at 1. destruct ph as [f|]; [|simpl; unfold bind; by rewrite delete_run].
  unfold try_catch, call_hook. simpl. destruct (f k v w) as [w' [e|]].
  - destruct fs; simpl; unfold bind; by rewrite delete_run.
  - simpl. unfold bind. by rewrite delete_run.
Qed.

Lemma prune_round_end n ph fs i c w :
  i >= n \/ items c = [] -> prune_round n ph fs i (c, w) = Ok (inr tt) (c, w).
Proof.
  intros H. unfold prune_round, mbind, M_bind, bind, this, gets. simpl. case_decide; [|done].
  destruct H as [|H]; [lia|]. by rewrite list_empty_items, bool_decide_true.
Qed.

Lemma same_config_removed a c c' : same_config (removed a c) c' -> same_config c c'.
Proof. done. Qed.

Lemma items_empty c : cache_ok c -> contents c = [] -> items c = [].
Proof.
  intros Hc Hn. apply length_zero_iff_nil. rewrite <- (length_omap_all (fun a => nodes c !! a) (items c)).
  - by apply (f_equal length) in Hn.
  - intros a Ha. by apply Hc.
Qed.

(** The node at the end of the list holds the oldest entry. *)
Lemma oldest c l k v :
  cache_ok c -> contents c = l ++ [(k, v)] ->
  exists a, last (items c) = Some a /\ nodes c !! a = Some (k, v) /\ cache_ok (removed a c) /\ contents (removed a c) = l.
Proof.
  intros Hc Hl. destruct (last (items c)) as [a|] eqn:E.
  2: { apply last_None in E. unfold contents in Hl. rewrite E in Hl. by destruct l. }
  pose proof E as E'. apply last_Some in E' as [t Ht].
  assert (Ha : a ∈ items c) by (rewrite Ht, elem_of_app; right; by left).
  destruct (proj1 (ok_store c Hc a) Ha) as [[k' v'] Hn].
  destruct (removed_spec a c k' v' Hc Ha Hn) as [Hok _].
  rewrite (removed_last a c k' v' t Hc Ht Hn) in Hl. apply app_inj_tail in Hl as [Hl [= -> ->]]. eauto.
Qed.

Lemma prune_loop n ph fs (fuel : nat) : forall c w i,
  cache_ok c -> (length (contents c) <= fuel)%nat ->
  let '(e, old, w') := evict ph fs (Z.to_nat (n - i)) (reverse (contents c)) w in
  exists c', cache_ok c' /\ same_config c c' /\ contents c' = reverse old /\
    iter (S fuel) (prune_round n ph fs) i (c, w) =
    match e with None => Ok tt (c', w') | Some e => Throw e (c', w') end.
Proof.
  induction fuel as [|fuel IH]; intros c w i Hc Hf.
  { assert (Hn : contents c = []) by (destruct (contents c); [done|simpl in Hf; lia]).
    rewrite Hn. destruct (Z.to_nat (n - i)); (exists c; split_and!; [done..|]; cbn [iter]; unfold bind;
      by rewrite prune_round_end by (right; by apply items_empty)). }
  destruct (decide (i >= n)) as [Hi|Hi].
  { replace (Z.to_nat (n - i)) with 0%nat by lia. exists c. rewrite reverse_involutive. split_and!; [done..|].
    cbn [iter]. unfold bind at 1. by rewrite prune_round_end by (by left). }
  destruct (Z.to_nat (n - i)) as [|m] eqn:Hm; [lia|].
  destruct (reverse (contents c)) as [|[k v] old] eqn:Hr.
  { assert (Hn : contents c = []) by (by apply (f_equal reverse) in Hr; rewrite reverse_involutive in Hr).
    exists c. split_and!; [done..|]. cbn [iter]. unfold bind at 1.
    by rewrite prune_round_end by (right; by apply items_empty). }
  assert (Hl : contents c = reverse old ++ [(k, v)])
    by (by rewrite <- reverse_cons, <- Hr, reverse_involutive).
  destruct (oldest c _ k v Hc Hl) as (a&Hlast&Hn&Hok&Hcon).
  assert (Hstep : forall w1, let '(e, old', w') := evict ph fs m old w1 in
    exists c', cache_ok c' /\ same_config c c' /\ contents c' = reverse old' /\
      iter (S fuel) (prune_round n ph fs) (i + 1) (removed a c, w1) =
      match e with None => Ok tt (c', w') | Some e => Throw e (c', w') end).
  { intros w1. specialize (IH (removed a c) w1 (i + 1) Hok).
    replace (Z.to_nat (n - (i + 1))) with m in IH by lia.
    rewrite Hcon, reverse_involutive in IH. apply IH. rewrite Hl, length_app in Hf. simpl in Hf. lia. }
  pose proof (prune_round_run n ph fs i c w a k v Hc ltac:(lia) Hlast Hn) as Hrun.
  remember (S fuel) as fuel1. cbn [iter evict]. unfold bind. rewrite Hrun. clear Hrun IH.
  destruct ph as [f|]; [|apply Hstep].
  destruct (f k v w) as [w1 [e|]]; [destruct fs|]; [apply Hstep| |apply Hstep].
  exists (removed a c). split_and!; done.
Qed.

Lemma refines_prune n h fs : refines (pruneWithFailSafeOption n h fs) (lru_prune n h fs).
Proof.
  intros c w Hc. unfold pruneWithFailSafeOption, lru_prune. unfold mbind at 1, M_bind, bind, this, gets. simpl.
  set (ph := match h with None => pruneHook_ c | Some _ => h end).
  pose proof (prune_loop n ph fs (Z.to_nat (map_size (index_ c))) c w 0 Hc) as Hp.
  rewrite (size_contents c Hc) in Hp |- *. unfold zlen in *. rewrite Nat2Z.id in *. specialize (Hp ltac:(done)).
  rewrite Z.sub_0_r in Hp. simpl in Hp |- *.
  destruct (evict ph fs (Z.to_nat n) (reverse (contents c)) w) as [[e old] w'].
  destruct Hp as (c'&Hok&(Hh&Hm&Hcl)&Hcon&->). destruct e; simpl; (split_and!; try done);
    unfold abs, with_entries; simpl; by rewrite Hcon, Hh, Hm, Hcl.
Qed.
(** *** The operations that read *)

Lemma refines_size : refines size_ (l ← the; mret (zlen (entries l))).
Proof. intros c w Hc. simpl. by rewrite size_contents. Qed.

Lemma size_run c w : cache_ok c -> size_ (c, w) = Ok (zlen (contents c)) (c, w).
Proof. intros Hc. unfold size_, mbind, M_bind, bind, this, gets. simpl. by rewrite size_contents. Qed.

Lemma refines_empty : refines empty_ (l ← the; mret (bool_decide (entries l = []))).
Proof.
  intros c w Hc. simpl. rewrite size_contents by done. split_and!; try done. unfold zlen.
  apply bool_decide_ext. destruct (contents c); simpl; split; intros; (done || lia).
Qed.

Lemma refines_getMaxSize : refines getMaxSize (l ← the; mret (bound l)).
Proof. by intros c w Hc. Qed.

(** *** The operations that compose *)

(** Reading the configuration of the cache and its abstraction together. *)
Lemma refines_this {A} (f : Cache -> OpC A) f' :
  (forall c w, cache_ok c -> agree (f c (c, w)) (f' (abs c) (abs c, w))) -> refines (this ≫= f) (the ≫= f').
Proof. intros Hf c w Hc. apply Hf, Hc. Qed.

Lemma refines_assign_fields f f' :
  (forall c, items (f c) = items c /\ nodes (f c) = nodes c /\ index_ (f c) = index_ c /\ brk (f c) = brk c) ->
  (forall c, mkLru (contents c) (pruneHook_ (f c)) (maxSize_ (f c)) (clearSize_ (f c)) = f' (abs c)) ->
  refines (assign f) (change f').
Proof.
  intros Hsame Habs. apply refines_assign. intros c Hc. destruct (Hsame c) as (Hi&Hn&Hx&Hb).
  assert (Hkey : node_key (f c) = node_key c) by (unfold node_key; by rewrite Hn).
  split.
  - destruct Hc. constructor; rewrite ?Hi, ?Hn, ?Hx, ?Hb, ?Hkey; done.
  - rewrite <- Habs. unfold abs, contents. by rewrite Hi, Hn.
Qed.

Lemma without_replace_value k v (l : list (K * V)) : without k (replace_value k v l) = without k l.
Proof.
  unfold without, replace_value. induction l as [|[k' v'] l IH]; [done|]. csimpl. case_decide as Hk.
  - rewrite !filter_cons_False by (simpl; tauto). done.
  - rewrite !filter_cons_True by done. by rewrite IH.
Qed.

Lemma set_existing_run k v promote h c w v0 :
  cache_ok c -> assoc k (contents c) = Some v0 ->
  exists c', set_ k v promote h (c, w) = Ok tt (c', w) /\ cache_ok c' /\ same_config c c' /\
    contents c' = if promote then (k, v) :: without k (contents c) else replace_value k v (contents c).
Proof.
  intros Hc Hv. pose proof (find_spec c k Hc) as Hf. unfold set_, findInIndex.
  unfold mbind, M_bind, bind, this, gets. simpl.
  destruct (map_find (node_key c) k (index_ c)) as [a|]; [|congruence].
  destruct Hf as (Ha&v1&Hn&_). unfold node_at, mbind, M_bind, bind, this, gets. simpl. rewrite Hn. simpl.
  destruct (assigned_spec a k v v1 c Hc Ha Hn) as [Hok Hcon].
  change (set_nodes (insert a (k, v)) c) with (assigned a k v c).
  destruct promote; [|exists (assigned a k v c); by split_and!].
  exists (promoted a (assigned a k v c)). rewrite promote_run by done.
  destruct (promoted_spec a (assigned a k v c) k v) as [Hok' Hcon']; [done..|simpl; by rewrite lookup_insert_eq|].
  split_and!; try done. by rewrite Hcon', Hcon, without_replace_value.
Qed.

Lemma set_new_run k v promote h c w :
  cache_ok c -> assoc k (contents c) = None ->
  set_ k v promote h (c, w) =
  (c ← this; n ← size_;
   if decide (0 < maxSize_ c /\ maxSize_ c < n) then prune (clearSize_ c) h else mret tt) (inserted k v c, w).
Proof.
  intros Hc Hv. pose proof (find_spec c k Hc) as Hf. unfold set_, findInIndex.
  rewrite (run_bind _ _ _ (map_find (node_key c) k (index_ c)) (c, w)) by done.
  destruct (map_find (node_key c) k (index_ c)) as [a|]; [destruct Hf as (_&?&_&?); congruence|].
  rewrite (run_bind _ _ _ (brk c) (allocated k v c, w)) by done.
  rewrite (run_bind _ _ _ tt (set_index (map_insert (node_key (allocated k v c)) (brk c)) (allocated k v c), w)).
  2: { unfold index_insert. rewrite (run_bind _ _ _ (allocated k v c) (allocated k v c, w)) by done. simpl.
       rewrite bool_decide_true by (rewrite (ok_in_index c) by done; by apply brk_unused). done. }
  rewrite (run_bind _ _ _ tt (inserted k v c, w)); [done|].
  unfold lru_push_front, mbind, M_bind, bind, this, gets. simpl.
  rewrite bool_decide_true by (by apply brk_unused). done.
Qed.

Lemma refines_set k v promote h : refines (set_ k v promote h) (lru_set k v promote h).
Proof.
  intros c w Hc. unfold lru_set.
  rewrite (run_bind (lru_peek k) _ _ (pair k <$> assoc k (contents c)) (abs c, w)) by done.
  destruct (assoc k (contents c)) as [v0|] eqn:Hv; cbn [fmap option_fmap option_map].
  - destruct (set_existing_run k v promote h c w v0 Hc Hv) as (c'&->&Hok&(H1&H2&H3)&Hcon).
    simpl. split_and!; try done. unfold abs, with_entries. simpl. by rewrite Hcon, H1, H2, H3.
  - rewrite set_new_run by done. destruct (inserted_spec k v c Hc Hv) as [Hok Hcon].
    rewrite (run_bind this _ _ (inserted k v c) (inserted k v c, w)) by done.
    rewrite (run_bind size_ _ _ (zlen (contents (inserted k v c))) (inserted k v c, w)) by (by apply size_run).
    rewrite (run_bind _ _ _ tt (abs (inserted k v c), w)) by (simpl; unfold abs, with_entries; by rewrite Hcon).
    rewrite (run_bind the _ _ (abs (inserted k v c)) (abs (inserted k v c), w)) by done. cbn [abs bound batch entries].
    case_decide; [by apply refines_prune|done].
Qed.

Lemma refines_setMaxSize n h : refines (setMaxSize n h) (lru_setMaxSize n h).
Proof.
  intros c w Hc. unfold setMaxSize, lru_setMaxSize.
  rewrite (run_bind size_ _ _ (zlen (contents c)) (c, w)) by (by apply size_run).
  rewrite (run_bind this _ _ c (c, w)), (run_bind the _ _ (abs c) (abs c, w)) by done.
  apply refines_bind; [|intros; by apply refines_assign_fields|done].
  simpl. case_decide; [apply refines_prune|apply refines_ret].
Qed.

(** *** All requests *)

Lemma refines_then {A B} (m : OpC A) m' (g : A -> B) :
  refines m m' -> refines (x ← m; mret (g x)) (x ← m'; mret (g x)).
Proof. intros Hm. apply refines_bind; [done|]. intros. apply refines_ret. Qed.

(** Sequencing associates. *)
Lemma refines_assoc_l {A B C} (m : OpC A) (g : A -> OpC B) (h : B -> OpC C) m' :
  refines ((m ≫= g) ≫= h) m' -> refines (m ≫= (fun x => g x ≫= h)) m'.
Proof. intros H c w Hc. specialize (H c w Hc). unfold mbind, M_bind, bind in *. by destruct (m (c, w)). Qed.

Lemma refines_assoc_r {A B C} (m : OpC C) m' (g : A -> M (Lru K V W * W) B) (h : B -> M (Lru K V W * W) C) :
  refines m ((m' ≫= g) ≫= h) -> refines m (m' ≫= (fun x => g x ≫= h)).
Proof. intros H c w Hc. specialize (H c w Hc). unfold mbind, M_bind, bind in *. by destruct (m' (abs c, w)). Qed.

Lemma refines_get k : refines (get_ k) (lru_find k ≫= lru_value).
Proof.
  intros c w Hc. pose proof (find_run c w k Hc) as Hf.
  unfold lru_find, lru_peek, get_, mbind, M_bind, bind, the, gets. simpl.
  destruct (assoc k (contents c)) as [v|]; [|by rewrite Hf].
  destruct Hf as (a&->&Ha&Hn). simpl. unfold node_at, mbind, M_bind, bind, this, gets. simpl. rewrite Hn. simpl.
  destruct (promoted_spec a c k v Hc Ha Hn) as [Hok Hcon]. split_and!; try done. unfold abs. by rewrite Hcon.
Qed.

Lemma refines_getWithoutPromotion k : refines (getWithoutPromotion k) (lru_peek k ≫= lru_value).
Proof.
  intros c w Hc. pose proof (find_spec c k Hc) as Hf.
  unfold getWithoutPromotion, findWithoutPromotion, findInIndex, lru_peek, mbind, M_bind, bind, this, the, gets. simpl.
  destruct (map_find (node_key c) k (index_ c)) as [a|].
  - destruct Hf as (Ha&v&Hn&->). simpl. unfold node_at, mbind, M_bind, bind, this, gets. simpl. by rewrite Hn.
  - by rewrite Hf.
Qed.

Lemma refines_serve r : refines (cache_serve r) (lru_serve r).
Proof.
  destruct r; cbn [cache_serve lru_serve].
  - apply refines_then, refines_set.
  - apply refines_assoc_l, refines_then, refines_find.
  - apply refines_assoc_r, refines_then, refines_get.
  - apply refines_assoc_l, refines_then, refines_peek.
  - apply refines_assoc_r, refines_then, refines_getWithoutPromotion.
  - exact (refines_assoc_r _ _ _ _ (refines_then _ _ Flag (refines_exists k))).
  - apply refines_then, refines_erase.
  - apply refines_then, refines_prune.
  - unfold clear_. apply refines_assoc_r, refines_then.
    intros c w Hc. rewrite (run_bind size_ _ _ (zlen (contents c)) (c, w)) by (by apply size_run).
    rewrite (run_bind the _ _ (abs c) (abs c, w)) by done. by apply refines_prune.
  - apply refines_then, refines_setMaxSize.
  - apply refines_then. by apply refines_assign_fields.
  - apply refines_then. by apply refines_assign_fields.
  - exact (refines_assoc_r _ _ _ _ (refines_then _ _ Number refines_size)).
  - exact (refines_assoc_r _ _ _ _ (refines_then _ _ Flag refines_empty)).
  - exact (refines_assoc_r _ _ _ _ (refines_then _ _ Number refines_getMaxSize)).
Qed.
End Refinement.
