(* ===== verification/EvictingCacheMapClaims.v ===== *)
(** * What the LRU cache guarantees

    Containers that satisfy the laws, and the properties of the cache as its
    clients see them: sequences of requests from the constructor to the
    destructor. *)

From stdpp Require Import base list gmap strings.
From S2P Require Import Prelude EvictingCacheMap EvictingCacheMapSpec.

(** ** Containers *)

#[global] Instance seq_list : NodeList (list Z) := {
  list_new := [];
  list_items l := l;
  list_empty l := bool_decide (l = []);
  list_rbegin l := last l;
  list_push_front a l := a :: l;
  list_erase a l := filter (.≠ a) l
}.

#[global] Instance seq_list_laws : NodeListLaws (list Z).
Proof. by split. Qed.

(** A hash table with chaining. *)
Record Buckets {K : Type} (hash : K -> Z) := mkBuckets { buckets : list (list Z) }.
Arguments mkBuckets {K} hash buckets.
Arguments buckets {K hash}.

Section Buckets.
Context {K : Type} `{EqDecision K} (hash : K -> Z).
Implicit Types (key : Z -> option K).

Definition bucket_of (n : nat) (k : K) : nat := Z.to_nat (hash k `mod` Z.of_nat n).

Fixpoint scan key (k : K) (b : list Z) : option Z :=
  match b with
  | [] => None
  | a :: b => if decide (key a = Some k) then Some a else scan key k b
  end.

#[global] Instance bucket_map : NodeMap K (Buckets hash) := {
  map_new n := mkBuckets hash (replicate (Z.to_nat n) []);
  map_nodes s := concat (buckets s);
  map_size s := zlen (concat (buckets s));
  map_find key k s := b ← buckets s !! bucket_of (length (buckets s)) k; scan key k b;
  map_insert key a s :=
    match key a with
    | None => s
    | Some k => mkBuckets hash (alter (cons a) (bucket_of (length (buckets s)) k) (buckets s))
    end;
  map_erase a s := mkBuckets hash (filter (.≠ a) <$> buckets s);
  map_ok key s :=
    buckets s <> [] /\
    forall i b a, buckets s !! i = Some b -> a ∈ b -> exists k, key a = Some k /\ i = bucket_of (length (buckets s)) k
}.

Lemma elem_of_concat (s : list (list Z)) a : a ∈ concat s <-> exists i b, s !! i = Some b /\ a ∈ b.
Proof.
  rewrite list_elem_of_In, in_concat. setoid_rewrite <- list_elem_of_In. split.
  - intros (b&[i Hi]%list_elem_of_lookup&Ha). eauto.
  - intros (i&b&Hi&Ha). exists b. split; [by apply list_elem_of_lookup_2 with i|done].
Qed.

Lemma scan_some key k b a : scan key k b = Some a -> a ∈ b /\ key a = Some k.
Proof.
  induction b as [|x b IH]; simpl; [done|]. case_decide; [intros [= ->]; split; [left|done]|].
  intros [? ?]%IH. split; [by right|done].
Qed.

Lemma scan_none key k b : scan key k b = None -> forall a, a ∈ b -> key a <> Some k.
Proof.
  induction b as [|x b IH]; simpl; [intros _ a []%not_elem_of_nil|]. case_decide; [done|].
  intros Hs a [->|Ha]%elem_of_cons; [done|]. by apply IH.
Qed.

Lemma concat_alter_cons (s : list (list Z)) i a : (i < length s)%nat -> concat (alter (cons a) i s) ≡ₚ a :: concat s.
Proof.
  revert i. induction s as [|b s IH]; intros i Hi; simpl in Hi; [lia|].
  destruct i as [|i]; simpl; [done|]. change (list_alter (cons a) i s) with (alter (cons a) i s).
  rewrite IH by lia. by rewrite Permutation_middle.
Qed.

Lemma concat_filter (s : list (list Z)) a : concat (filter (.≠ a) <$> s) = filter (.≠ a) (concat s).
Proof. induction s as [|b s IH]; [done|]. csimpl. by rewrite filter_app, IH. Qed.

Lemma bucket_of_lt n k : (0 < n)%nat -> (bucket_of n k < n)%nat.
Proof. intros Hn. unfold bucket_of. pose proof (Z.mod_pos_bound (hash k) (Z.of_nat n)). lia. Qed.

#[global] Instance bucket_map_laws : NodeMapLaws K (Buckets hash).
Proof.
  split.
  - intros key n Hn. simpl. split; [split|].
    + destruct (Z.to_nat n) eqn:E; [lia|done].
    + intros i b a Hi Ha. apply lookup_replicate in Hi as [-> _]. by apply not_elem_of_nil in Ha.
    + induction (Z.to_nat n); [done|]. done.
  - simpl. intros key key' s Hext [Hne Hok]. split; [done|]. intros i b a Hi Ha.
    destruct (Hok i b a Hi Ha) as (k&Hk&->). exists k. rewrite <- Hext; [done|]. apply elem_of_concat. eauto.
  - done.
  - simpl. intros key k s a [Hne Hok]. destruct (buckets s !! _) as [b|] eqn:Hb; simpl; [|done].
    intros [Ha Hk]%scan_some. split; [apply elem_of_concat; eauto|done].
  - simpl. intros key k s [Hne Hok] Hn a Ha Hk. apply elem_of_concat in Ha as (i&b&Hi&Ha).
    destruct (Hok i b a Hi Ha) as (k'&Hk'&->). rewrite Hk in Hk'. injection Hk' as <-.
    rewrite Hi in Hn. by apply (scan_none _ _ _ Hn a Ha).
  - simpl. intros key k s a [Hne Hok] Ha Hnew. rewrite Ha. simpl.
    assert (Hl : (bucket_of (length (buckets s)) k < length (buckets s))%nat)
      by (apply bucket_of_lt; destruct (buckets s); [done|simpl; lia]).
    split; [|by apply concat_alter_cons]. split.
    + destruct (buckets s); [done|]. by destruct (bucket_of _ k).
    + intros i b x. rewrite length_alter. destruct (decide (i = bucket_of (length (buckets s)) k)) as [->|Hi].
      * rewrite list_lookup_alter_eq. destruct (buckets s !! _) as [b'|] eqn:Hb; [|done]. simpl.
        intros [= <-] [->|Hx]%elem_of_cons; [eauto|]. eauto.
      * rewrite list_lookup_alter_ne by done. eauto.
  - simpl. intros key s a [Hne Hok] Ha _. rewrite concat_filter. split; [|done]. split.
    + by destruct (buckets s).
    + intros i b x. rewrite length_fmap, list_lookup_fmap. destruct (buckets s !! i) as [b'|] eqn:Hb; [|done].
      simpl. intros [= <-] [_ Hx]%list_elem_of_filter. eauto.
Qed.
End Buckets.

(** ** Sequences of requests *)

Section Sequences.
Context {K V W NM NL : Type} `{EqDecision K} `{!NodeMap K NM} `{!NodeList NL}.
Context `{!NodeMapLaws K NM} `{!NodeListLaws NL}.
Local Abbreviation Cache := (EvictingCacheMap K V W NM NL).
Implicit Types (c : Cache) (w : W) (k : K) (v : V) (l : Lru K V W).

Lemma ctor_ok maxSize clearSize :
  cache_ok (EvictingCacheMap_ctor maxSize clearSize : Cache) /\
  contents (EvictingCacheMap_ctor maxSize clearSize : Cache) = [].
Proof.
  assert (Hi : items (EvictingCacheMap_ctor maxSize clearSize : Cache) = []) by apply list_new_items.
  assert (Hm := fun key => map_new_spec (K := K) (S := NM) key (Z.max (maxSize / 2) kMinNumIndexBuckets)).
  unfold kMinNumIndexBuckets in Hm.
  split; [constructor|unfold contents; by rewrite Hi]; rewrite ?Hi.
  - constructor.
  - simpl. unfold kMinNumIndexBuckets. destruct (Hm (fun _ => None)) as [_ ->]; [lia|done].
  - apply Hm. lia.
  - intros a. rewrite elem_of_nil. simpl. rewrite lookup_empty. split; [done|by intros [? [=]]].
  - intros a b []%elem_of_nil.
  - intros a []%elem_of_nil.
Qed.

Lemma serve_all_refines rs : forall c w,
  cache_ok c ->
  exists replies c' w',
    serve_all Raised cache_serve rs (c, w) = Some (replies, (c', w')) /\
    serve_all Raised lru_serve rs (abs c, w) = Some (replies, (abs c', w')) /\ cache_ok c'.
Proof.
  induction rs as [|r rs IH]; intros c w Hc; [by exists [], c, w|]. simpl.
  pose proof (refines_serve r c w Hc) as Hr.
  destruct (cache_serve r (c, w)) as [x [c1 w1]|e [c1 w1]|?|], (lru_serve r (abs c, w)) as [x' [l1 w2]|e' [l1 w2]|?|];
    simpl in Hr; try done; destruct Hr as (<-&<-&Hc1&<-);
    destruct (IH c1 w1 Hc1) as (rs'&c'&w'&->&->&Hok); simpl; eauto 10.
Qed.

(** *** The bound *)

Definition admissible (r : request K V W) : Prop :=
  match r with RSetClearSize n => 0 < n | RSetMaxSize n _ => 0 <= n | _ => True end.

Definition bounded l : Prop := 0 < batch l /\ 0 <= bound l /\ (bound l = 0 \/ zlen (entries l) <= bound l).

Definition ends_in {A} (P : Lru K V W -> Prop) (r : res (Lru K V W * W) A) : Prop :=
  match r with Ok _ (l, _) | Throw _ (l, _) => P l | _ => True end.

Lemma evict_length (ph : option (PruneHookCall K V W)) fs n old w :
  let '(e, old', _) := evict ph fs n old w in
  match e with
  | None => length old' = (length old - n)%nat
  | Some _ => (length old' < length old)%nat
  end.
Proof.
  revert old w. induction n as [|n IH]; intros old w; [simpl; lia|].
  destruct old as [|[k v] old]; [done|]. simpl.
  assert (Hw : forall w1, let '(e, old', _) := evict ph fs n old w1 in
    match e with None => length old' = (length old - n)%nat | Some _ => (length old' < S (length old))%nat end).
  { intros w1. specialize (IH old w1). destruct (evict ph fs n old w1) as [[[e|] old'] w2]; lia. }
  destruct ph as [f|]; [|apply Hw]. destruct (f k v w) as [w1 [e|]]; [destruct fs|]; [apply Hw|simpl; lia|apply Hw].
Qed.

(** Pruning [n] entries leaves [m]. *)
Lemma lru_prune_length n h l w :
  match lru_prune n h false (l, w) with
  | Ok _ (l', _) => l' = with_entries (fun _ => entries l') l /\
      (length (entries l') = length (entries l) - Z.to_nat n)%nat
  | Throw _ (l', _) => l' = with_entries (fun _ => entries l') l /\ (length (entries l') < length (entries l))%nat
  | _ => False
  end.
Proof.
  unfold lru_prune. pose proof (evict_length (match h with None => hook l | Some _ => h end) false (Z.to_nat n)
    (reverse (entries l)) w) as He.
  destruct (evict _ _ _ _ _) as [[[e|] old] w']; simpl; rewrite length_reverse in *; done.
Qed.
Lemma bounded_shrink l es : bounded l -> (length es <= length (entries l))%nat -> bounded (with_entries (fun _ => es) l).
Proof. unfold bounded, zlen, with_entries. intros (?&?&?) ?. cbn [entries batch bound] in *. lia. Qed.

Lemma without_length k v (es : list (K * V)) : assoc k es = Some v -> (length (without k es) < length es)%nat.
Proof. intros Hv%assoc_Some. apply length_filter_lt with (k, v); simpl; tauto. Qed.

Lemma prune_bounded n h l w : bounded l -> ends_in bounded (lru_prune n h false (l, w)).
Proof.
  intros Hl. pose proof (lru_prune_length n h l w) as Hp.
  destruct (lru_prune n h false (l, w)) as [[] [l' w']|e [l' w']|?|]; simpl in *; try done;
    destruct Hp as [E Hp]; rewrite E; (apply bounded_shrink; [done|lia]).
Qed.

Lemma ends_in_bind {A B} (P : Lru K V W -> Prop) (m : M (Lru K V W * W) A) (f : A -> M (Lru K V W * W) B) s :
  ends_in P (m s) -> (forall x l w, P l -> ends_in P (f x (l, w))) -> ends_in P ((m ≫= f) s).
Proof.
  intros Hm Hf. unfold mbind, M_bind, bind. destruct (m s) as [x [l w]|e [l w]|?|]; simpl in *; auto.
Qed.

Lemma set_bounded k v promote h l w : bounded l -> ends_in bounded (lru_set k v promote h (l, w)).
Proof.
  intros Hl. unfold lru_set. rewrite (run_bind (lru_peek k) _ _ (pair k <$> assoc k (entries l)) (l, w)) by done.
  destruct (assoc k (entries l)) as [v0|] eqn:Hv; cbn [fmap option_fmap option_map].
  - apply (bounded_shrink l (if promote then _ else _) Hl). destruct promote; simpl.
    + pose proof (without_length _ _ _ Hv). lia.
    + unfold replace_value. by rewrite length_fmap.
  - set (l1 := with_entries (cons (k, v)) l).
    rewrite (run_bind _ _ _ tt (l1, w)) by done. rewrite (run_bind the _ _ l1 (l1, w)) by done.
    destruct Hl as (Hb&Hm&Hl). case_decide as Hd.
    + pose proof (lru_prune_length (batch l1) h l1 w) as Hp.
      destruct (lru_prune (batch l1) h false (l1, w)) as [[] [l' w']|e [l' w']|?|]; simpl in *; try done;
        destruct Hp as [E Hp]; rewrite E; unfold bounded, zlen in *; simpl in *; lia.
    + unfold bounded, zlen in *; simpl in *; unfold zlen in *; simpl in *; lia.
Qed.

Lemma setMaxSize_bounded n h l w : 0 <= n -> bounded l -> ends_in bounded (lru_setMaxSize n h (l, w)).
Proof.
  intros Hn Hl. unfold lru_setMaxSize. rewrite (run_bind the _ _ l (l, w)) by done. case_decide as Hd.
  - pose proof (lru_prune_length (Z.max (zlen (entries l) - n) (batch l)) h l w) as Hp.
    pose proof (prune_bounded (Z.max (zlen (entries l) - n) (batch l)) h l w Hl) as Hpb.
    unfold mbind, M_bind, bind.
    destruct (lru_prune _ h false (l, w)) as [[] [l' w']|e [l' w']|?|]; simpl in *; try done.
    destruct Hp as [E Hp]. rewrite E. unfold bounded, zlen in *. simpl in *. lia.
  - destruct Hl as (?&?&?). unfold bounded. simpl. lia.
Qed.

Lemma serve_bounded r l w : admissible r -> bounded l -> ends_in bounded (lru_serve r (l, w)).
Proof.
  assert (Hfind : forall k l w, bounded l -> ends_in bounded (lru_find k (l, w))).
  { clear. intros k l w Hl. unfold lru_find.
    rewrite (run_bind (lru_peek k) _ _ (pair k <$> assoc k (entries l)) (l, w)) by done.
    destruct (assoc k (entries l)) as [v|] eqn:Hv; [|done]. apply (bounded_shrink l (_ :: _) Hl).
    simpl. pose proof (without_length _ _ _ Hv). lia. }
  assert (Hvalue : forall o l w, bounded l -> ends_in bounded (lru_value o (l, w))) by (by intros []).
  intros Hr Hl. destruct r; cbn [lru_serve].
  all: try (by repeat (apply ends_in_bind; [done|]; intros)).
  - apply ends_in_bind; [by apply set_bounded|done].
  - apply ends_in_bind; [by apply Hfind|done].
  - apply ends_in_bind; [by apply Hfind|]. intros. apply ends_in_bind; [by apply Hvalue|done].
  - apply ends_in_bind; [done|]. intros. apply ends_in_bind; [by apply Hvalue|done].
  - apply ends_in_bind; [|done]. unfold lru_erase_key.
    rewrite (run_bind (lru_peek k) _ _ (pair k <$> assoc k (entries l)) (l, w)) by done.
    destruct (assoc k (entries l)) as [v|] eqn:Hv; [|done]. apply (bounded_shrink l (without k _) Hl).
    pose proof (without_length _ _ _ Hv). lia.
  - apply ends_in_bind; [by apply prune_bounded|done].
  - apply ends_in_bind; [done|]. intros. apply ends_in_bind; [by apply prune_bounded|done].
  - apply ends_in_bind; [by apply setMaxSize_bounded|done].
  - destruct Hl as (?&?&?). simpl in Hr |- *. unfold bounded. simpl. lia.
Qed.

Lemma serve_all_bounded rs : forall l w replies l' w',
  Forall admissible rs -> bounded l -> serve_all Raised lru_serve rs (l, w) = Some (replies, (l', w')) -> bounded l'.
Proof.
  induction rs as [|r rs IH]; intros l w replies l' w' Hrs Hl; simpl; [by intros [= _ <- _]|].
  apply Forall_cons in Hrs as [Hr Hrs]. pose proof (serve_bounded r l w Hr Hl) as Hb.
  destruct (lru_serve r (l, w)) as [x [l1 w1]|e [l1 w1]|?|]; simpl in *; try done.
  all: destruct (serve_all Raised lru_serve rs (l1, w1)) as [[rs' [l2 w2]]|] eqn:E; [|done].
  all: simpl; intros [= _ <- <-]; by apply (IH l1 w1 rs' l2 w2).
Qed.

(** *** The destructor *)

Lemma evict_all fs old w : evict None fs (length old) old w = (None, [], w : W) :> _ * list (K * V) * _.
Proof. by induction old as [|[k v] old]. Qed.

Lemma dtor_run c w :
  cache_ok c -> exists c', EvictingCacheMap_dtor (c, w) = Ok tt (c', w) /\ nodes c' = ∅ /\ items c' = [].
Proof.
  intros Hc. unfold EvictingCacheMap_dtor.
  assert (Hok : cache_ok (set_hook None c)) by (destruct Hc; by constructor).
  rewrite (run_bind _ _ _ tt (set_hook None c, w)) by done.
  rewrite (run_bind size_ _ _ (zlen (contents c)) (set_hook None c, w)) by (by apply (size_run (set_hook None c))).
  pose proof (refines_prune (zlen (contents c)) None true (set_hook None c) w Hok) as Hp.
  unfold lru_prune in Hp. cbn [abs hook entries set_hook pruneHook_] in Hp.
  change (contents (set_hook None c)) with (contents c) in Hp.
  unfold zlen in Hp |- *. rewrite Nat2Z.id, <- length_reverse, evict_all in Hp.
  rewrite length_reverse in Hp.
  destruct (pruneWithFailSafeOption _ None true (set_hook None c, w)) as [[] [c' w']|e [c' w']|?|]; try done.
  destruct Hp as (_&->&Hok'&Habs). exists c'. apply (f_equal entries) in Habs. simpl in Habs.
  apply items_empty in Habs; [|done]. split_and!; try done.
  apply map_empty. intros a. destruct (nodes c' !! a) eqn:E; [|done].
  assert (Ha : a ∈ items c') by (apply (ok_store c' Hok'); by rewrite E). rewrite Habs in Ha. by apply elem_of_nil in Ha.
Qed.
End Sequences.

(** ** Specifications *)

Section Claims.
Context {K V W NM NL : Type} `{EqDecision K} `{!NodeMap K NM} `{!NodeList NL}.
Local Abbreviation Cache := (EvictingCacheMap K V W NM NL).

(** C22: the cache refines a recency list.  Over any intrusive containers that
    keep their contract, every sequence of requests to a new cache (insertions,
    promoting and other searches, removals, prunes and changes of the limits,
    with prune hooks that may throw) is answered, exceptions included, as the
    abstract list answers it; no step faults (no dangling or doubly linked
    node) or fails to return; and at the end the index and the recency list
    thread exactly the live nodes, with the contents of the abstract list. *)
Theorem cache_refines_lru (maxSize clearSize : Z) (rs : list (request K V W)) (w : W) :
  NodeMapLaws K NM -> NodeListLaws NL ->
  exists replies (c : Cache) w',
    serve_all Raised cache_serve rs (EvictingCacheMap_ctor maxSize clearSize, w) = Some (replies, (c, w')) /\
    serve_all Raised lru_serve rs (mkLru [] None maxSize clearSize, w) = Some (replies, (abs c, w')) /\
    cache_ok c.
Proof.
  intros. destruct (ctor_ok (K := K) (V := V) (W := W) (NM := NM) (NL := NL) maxSize clearSize) as [Hok Hcon].
  destruct (serve_all_refines rs (EvictingCacheMap_ctor maxSize clearSize) w Hok) as (replies&c&w'&H1&H2&Hc).
  unfold abs at 1 in H2. rewrite Hcon in H2. eauto 10.
Qed.

(** The limit holds.  With a positive [clearSize], also in every
    [setClearSize], a cache with a non-zero limit never holds more than
    [maxSize] entries after a request, whatever the requests are and whether or
    not the hooks throw: a hook that throws does not keep its entry in, and a
    failed [setMaxSize] leaves the old limit. *)
Lemma cache_size_bounded (maxSize clearSize : Z) (rs : list (request K V W)) (w : W) :
  NodeMapLaws K NM -> NodeListLaws NL -> 0 <= maxSize -> 0 < clearSize -> Forall admissible rs ->
  exists replies (c : Cache) w',
    serve_all Raised cache_serve rs (EvictingCacheMap_ctor maxSize clearSize, w) = Some (replies, (c, w')) /\
    (maxSize_ c = 0 \/ map_size (index_ c) <= maxSize_ c).
Proof.
  intros ? ? Hm Hcl Hrs.
  destruct (ctor_ok (K := K) (V := V) (W := W) (NM := NM) (NL := NL) maxSize clearSize) as [Hok Hcon].
  destruct (serve_all_refines rs (EvictingCacheMap_ctor maxSize clearSize) w Hok) as (replies&c&w'&H1&H2&Hc).
  exists replies, c, w'. split; [done|]. rewrite size_contents by done.
  eapply serve_all_bounded in H2 as (_&_&Hb); [exact Hb|done|]. unfold abs. rewrite Hcon.
  unfold bounded. simpl. unfold zlen. simpl. lia.
Qed.

(** Nothing leaks.  After any sequence of requests the destructor returns,
    every node has been deleted and is unlinked, and no prune hook is called
    (the hook state is untouched), the one set with [setPruneHook] included. *)
Lemma cache_destructor_frees (maxSize clearSize : Z) (rs : list (request K V W)) (w : W) :
  NodeMapLaws K NM -> NodeListLaws NL ->
  exists replies (c c' : Cache) w',
    serve_all Raised cache_serve rs (EvictingCacheMap_ctor maxSize clearSize, w) = Some (replies, (c, w')) /\
    EvictingCacheMap_dtor (c, w') = Ok tt (c', w') /\ nodes c' = ∅ /\ list_items (lru_ c') = [].
Proof.
  intros. destruct (ctor_ok (K := K) (V := V) (W := W) (NM := NM) (NL := NL) maxSize clearSize) as [Hok _].
  destruct (serve_all_refines rs (EvictingCacheMap_ctor maxSize clearSize) w Hok) as (replies&c&w'&H1&_&Hc).
  destruct (dtor_run c w' Hc) as (c'&?&?&?). eauto 10.
Qed.
End Claims.

(** *** Hooks that throw *)

(** The calls of a hook on a list of entries, up to an exception in the last. *)
Inductive hook_ran {K V W} (f : PruneHookCall K V W) : list (K * V) -> W -> W -> option exn -> Prop :=
  | ran_none w : hook_ran f [] w w None
  | ran_returned k v gone w w1 w2 e :
      f k v w = (w1, None) -> hook_ran f gone w1 w2 e -> hook_ran f ((k, v) :: gone) w w2 e
  | ran_threw k v w w1 e : f k v w = (w1, Some e) -> hook_ran f [(k, v)] w w1 (Some e).

Lemma evict_hook {K V W} (f : PruneHookCall K V W) n old w :
  let '(e, kept, w') := evict (Some f) false n old w in
  exists gone, old = gone ++ kept /\ hook_ran f gone w w' e /\ (e = None -> length gone = Nat.min n (length old)).
Proof.
  revert old w. induction n as [|n IH]; intros old w; [by exists []; split_and!; [|constructor|]|].
  destruct old as [|[k v] old]; [by exists []; split_and!; [|constructor|]|]. simpl.
  destruct (f k v w) as [w1 [e|]] eqn:Hf.
  - exists [(k, v)]. split_and!; [done|by constructor|done].
  - specialize (IH old w1). destruct (evict (Some f) false n old w1) as [[e kept] w2].
    destruct IH as (gone&->&Hran&Hlen). exists ((k, v) :: gone).
    split_and!; [done|by apply ran_returned with w1|]. intros He. simpl. f_equal. auto.
Qed.

Section PruneClaim.
Context {K V W NM NL : Type} `{EqDecision K} `{!NodeMap K NM} `{!NodeList NL}.

(** C35: exception safety of [prune].  Pruning with a hook evicts entries from
    the least recently used on, each passed to the hook exactly once and in that
    order; if all calls return, it evicts [pruneSize] entries or all there are;
    if a call throws, the exception propagates at once, the entry of that call
    is gone and all more recent ones stay; the cache is well formed either way. *)
Theorem prune_exception_safe (c : EvictingCacheMap K V W NM NL) (w : W) (n : Z) (f : PruneHookCall K V W) :
  NodeMapLaws K NM -> NodeListLaws NL -> cache_ok c ->
  exists kept gone c' w' e,
    contents c = kept ++ reverse gone /\ hook_ran f gone w w' e /\ cache_ok c' /\ contents c' = kept /\
    prune n (Some f) (c, w) = match e with None => Ok tt (c', w') | Some e => Throw e (c', w') end /\
    (e = None -> length gone = Nat.min (Z.to_nat n) (length (contents c))).
Proof.
  intros ? ? Hc. pose proof (refines_prune n (Some f) false c w Hc) as Hp. unfold lru_prune in Hp. simpl in Hp.
  pose proof (evict_hook f (Z.to_nat n) (reverse (contents c)) w) as He.
  destruct (evict (Some f) false (Z.to_nat n) (reverse (contents c)) w) as [[e kept] w1].
  destruct He as (gone&Hold&Hran&Hlen). rewrite length_reverse in Hlen.
  assert (Hcon : contents c = reverse kept ++ reverse gone)
    by (by rewrite <- reverse_app, <- Hold, reverse_involutive).
  unfold prune. exists (reverse kept), gone.
  destruct (pruneWithFailSafeOption n (Some f) false (c, w)) as [[] [c' w']|e' [c' w']|?|], e as [e|];
    simpl in Hp; try done; destruct Hp as (E&->&Hok&Habs);
    apply (f_equal entries) in Habs; simpl in Habs; [exists c', w1, None|exists c', w1, (Some e)].
  - by split_and!.
  - split_and!; try done. by rewrite E.
Qed.
End PruneClaim.

(** ** The properties at work

    A cache of two entries from numbers to numbers, with a hook that logs the
    evicted keys and throws at key 13. *)

Definition log_hook : PruneHookCall Z Z (list Z) := fun k _ w =>
  (w ++ [k], if decide (k = 13) then Some (runtime_error "unlucky") else None).

Definition number_hash (k : Z) : Z := k.

Definition small_cache : EvictingCacheMap Z Z (list Z) (Buckets number_hash) (list Z) := EvictingCacheMap_ctor 2 1.

Definition demo_requests : list (request Z Z (list Z)) :=
  [RSetPruneHook (Some log_hook); RSet 13 130 true None; RSet 1 10 true None; RGet 13; RSet 2 20 true None;
   RGet 1; RSet 3 30 false None; RSetMaxSize 1 None; RErase 3; RSize].

(** The replies: key 1 is evicted for key 2, since key 13 was promoted, and
    inserting key 3 evicts key 13, whose hook throws. *)
Example demo_replies :
  fst <$> serve_all Raised cache_serve demo_requests (small_cache, []) =
  Some [Done; Done; Done; Value 130; Done; Raised (out_of_range "Key does not exist"); Raised (runtime_error "unlucky");
        Done; Flag true; Number 0].
Proof. vm_compute. reflexivity. Qed.

Lemma cache_refines_lru_witness :
  exists replies (c : EvictingCacheMap Z Z (list Z) (Buckets number_hash) (list Z)) w',
    serve_all Raised cache_serve demo_requests (EvictingCacheMap_ctor 2 1, []) = Some (replies, (c, w')) /\
    serve_all Raised lru_serve demo_requests (mkLru [] None 2 1, []) = Some (replies, (abs c, w')) /\ cache_ok c.
Proof. apply cache_refines_lru; apply _. Defined.

Lemma cache_size_bounded_witness :
  exists replies (c : EvictingCacheMap Z Z (list Z) (Buckets number_hash) (list Z)) w',
    serve_all Raised cache_serve demo_requests (EvictingCacheMap_ctor 2 1, []) = Some (replies, (c, w')) /\
    (maxSize_ c = 0 \/ map_size (index_ c) <= maxSize_ c).
Proof.
  apply cache_size_bounded; [apply _|apply _|lia|lia|].
  unfold demo_requests. rewrite !Forall_cons. simpl. split_and!; try done; lia.
Defined.

Lemma cache_destructor_frees_witness :
  exists replies (c c' : EvictingCacheMap Z Z (list Z) (Buckets number_hash) (list Z)) w',
    serve_all Raised cache_serve demo_requests (EvictingCacheMap_ctor 2 1, []) = Some (replies, (c, w')) /\
    EvictingCacheMap_dtor (c, w') = Ok tt (c', w') /\ nodes c' = ∅ /\ list_items (lru_ c') = [].
Proof. apply cache_destructor_frees; apply _. Defined.

Lemma prune_exception_safe_witness :
  exists kept gone (c' : EvictingCacheMap Z Z (list Z) (Buckets number_hash) (list Z)) w' e,
    [(13, 130)] = kept ++ reverse gone /\ hook_ran log_hook gone [] w' e /\ cache_ok c' /\ contents c' = kept /\
    prune 5 (Some log_hook) (inserted 13 130 small_cache, []) =
      match e with None => Ok tt (c', w') | Some e => Throw e (c', w') end /\
    (e = None -> length gone = 1%nat).
Proof.
  destruct (inserted_spec 13 130 small_cache) as [Hok Hcon].
  - apply ctor_ok.
  - reflexivity.
  - pose proof (prune_exception_safe (inserted 13 130 small_cache) [] 5 log_hook ltac:(apply _) ltac:(apply _) Hok) as H.
    assert (E : contents (inserted 13 130 small_cache) = [(13, 130)]) by (rewrite Hcon; reflexivity).
    rewrite E in H. exact H.
Defined.
