(* ===== verification/SpookyHashV2.v ===== *)
(** * SpookyHashV2: the 128-bit hash

    [src/accelerator/SpookyHashV2.h] and [.cpp], as compiled for a little-endian
    machine with unaligned reads.  Byte arrays are lists of bytes; the local
    variables [h0 .. h11] (and [a b c d]) and the array [m_state] are lists of
    words; a statement such as [s2 ^= s10] is a function on them, [xor_var 2 10],
    and a mixing function is the sequence of its statements. *)

From stdpp Require Import base list.
From S2P Require Import Prelude.

(** ** Words *)

Definition load_word (n : nat) (bs : list Z) (i : nat) : Z :=
  foldr (fun b acc => b + 256 * acc) 0 (take n (drop (n * i) bs)).

(** [p64[i]] and [p32[i]] for [p8 = bs]. *)
Abbreviation load64 := (load_word 8).
Abbreviation load32 := (load_word 4).

Definition Rot64 (x k : Z) : Z := Z.lor (u64 (Z.shiftl x k)) (Z.shiftr x (64 - k)).

(** ** Statements *)

Definition stmt : Type := list Z -> list Z.

Definition add_word (i : nat) (w : Z) : stmt := fun s => <[i := u64 (s !!! i + w)]> s.
Definition add_var (i j : nat) : stmt := fun s => <[i := u64 (s !!! i + s !!! j)]> s.
Definition xor_var (i j : nat) : stmt := fun s => <[i := Z.lxor (s !!! i) (s !!! j)]> s.
Definition rot_var (i : nat) (k : Z) : stmt := fun s => <[i := Rot64 (s !!! i) k]> s.

Definition run (p : list stmt) (s : list Z) : list Z := foldl (fun s f => f s) s p.

(** ** Mixing *)

Definition Mix (data : list Z) : list Z -> list Z := run
  [add_word 0 (load64 data 0); xor_var 2 10; xor_var 11 0; rot_var 0 11; add_var 11 1;
   add_word 1 (load64 data 1); xor_var 3 11; xor_var 0 1; rot_var 1 32; add_var 0 2;
   add_word 2 (load64 data 2); xor_var 4 0; xor_var 1 2; rot_var 2 43; add_var 1 3;
   add_word 3 (load64 data 3); xor_var 5 1; xor_var 2 3; rot_var 3 31; add_var 2 4;
   add_word 4 (load64 data 4); xor_var 6 2; xor_var 3 4; rot_var 4 17; add_var 3 5;
   add_word 5 (load64 data 5); xor_var 7 3; xor_var 4 5; rot_var 5 28; add_var 4 6;
   add_word 6 (load64 data 6); xor_var 8 4; xor_var 5 6; rot_var 6 39; add_var 5 7;
   add_word 7 (load64 data 7); xor_var 9 5; xor_var 6 7; rot_var 7 57; add_var 6 8;
   add_word 8 (load64 data 8); xor_var 10 6; xor_var 7 8; rot_var 8 55; add_var 7 9;
   add_word 9 (load64 data 9); xor_var 11 7; xor_var 8 9; rot_var 9 54; add_var 8 10;
   add_word 10 (load64 data 10); xor_var 0 8; xor_var 9 10; rot_var 10 22; add_var 9 11;
   add_word 11 (load64 data 11); xor_var 1 9; xor_var 10 11; rot_var 11 46; add_var 10 0].

Definition EndPartial : list Z -> list Z := run
  [add_var 11 1; xor_var 2 11; rot_var 1 44;
   add_var 0 2; xor_var 3 0; rot_var 2 15;
   add_var 1 3; xor_var 4 1; rot_var 3 34;
   add_var 2 4; xor_var 5 2; rot_var 4 21;
   add_var 3 5; xor_var 6 3; rot_var 5 38;
   add_var 4 6; xor_var 7 4; rot_var 6 33;
   add_var 5 7; xor_var 8 5; rot_var 7 10;
   add_var 6 8; xor_var 9 6; rot_var 8 13;
   add_var 7 9; xor_var 10 7; rot_var 9 38;
   add_var 8 10; xor_var 11 8; rot_var 10 53;
   add_var 9 11; xor_var 0 9; rot_var 11 42;
   add_var 10 0; xor_var 1 10; rot_var 0 54].

Definition End_ (data : list Z) (h : list Z) : list Z :=
  let h := run
  [add_word 0 (load64 data 0); add_word 1 (load64 data 1); add_word 2 (load64 data 2); add_word 3 (load64 data 3);
   add_word 4 (load64 data 4); add_word 5 (load64 data 5); add_word 6 (load64 data 6); add_word 7 (load64 data 7);
   add_word 8 (load64 data 8); add_word 9 (load64 data 9); add_word 10 (load64 data 10); add_word 11 (load64 data 11)] h in
  EndPartial (EndPartial (EndPartial h)).

Definition ShortMix : list Z -> list Z := run
  [rot_var 2 50; add_var 2 3; xor_var 0 2;
   rot_var 3 52; add_var 3 0; xor_var 1 3;
   rot_var 0 30; add_var 0 1; xor_var 2 0;
   rot_var 1 41; add_var 1 2; xor_var 3 1;
   rot_var 2 54; add_var 2 3; xor_var 0 2;
   rot_var 3 48; add_var 3 0; xor_var 1 3;
   rot_var 0 38; add_var 0 1; xor_var 2 0;
   rot_var 1 37; add_var 1 2; xor_var 3 1;
   rot_var 2 62; add_var 2 3; xor_var 0 2;
   rot_var 3 34; add_var 3 0; xor_var 1 3;
   rot_var 0 5; add_var 0 1; xor_var 2 0;
   rot_var 1 36; add_var 1 2; xor_var 3 1].

Definition ShortEnd : list Z -> list Z := run
  [xor_var 3 2; rot_var 2 15; add_var 3 2;
   xor_var 0 3; rot_var 3 52; add_var 0 3;
   xor_var 1 0; rot_var 0 26; add_var 1 0;
   xor_var 2 1; rot_var 1 51; add_var 2 1;
   xor_var 3 2; rot_var 2 28; add_var 3 2;
   xor_var 0 3; rot_var 3 9; add_var 0 3;
   xor_var 1 0; rot_var 0 47; add_var 1 0;
   xor_var 2 1; rot_var 1 54; add_var 2 1;
   xor_var 3 2; rot_var 2 32; add_var 3 2;
   xor_var 0 3; rot_var 3 25; add_var 0 3;
   xor_var 1 0; rot_var 0 63; add_var 1 0].

(** ** Blocks

    The loops over complete blocks: [n] rounds of [body] on what the pointer [u]
    points at, which then moves by [size] bytes. *)
Fixpoint each_block (size : nat) (body : list Z -> list Z -> list Z) (n : nat) (u v : list Z) : list Z :=
  match n with
  | O => v
  | S n => each_block size body n (drop size u) (body u v)
  end.

(** ** Constants *)

Definition sc_numVars : Z := 12.
Definition sc_blockSize : Z := sc_numVars * 8.
Definition sc_bufSize : Z := 2 * sc_blockSize.
Definition sc_const : Z := 0xdeadbeefdeadbeef.

(** ** Short messages *)

(** The body of the loop over the complete sets of 32 bytes. *)
Definition short_set (u v : list Z) : list Z :=
  let v := run [add_word 2 (load64 u 0); add_word 3 (load64 u 1)] v in
  let v := ShortMix v in
  run [add_word 0 (load64 u 2); add_word 1 (load64 u 3)] v.

(** The switch over the last bytes, with its fall-through. *)
Definition short_tail (u : list Z) (remainder : nat) : list Z -> list Z :=
  let byte i sh := Z.shiftl (u !!! i) sh in
  let case i st : list stmt := if decide (i <= remainder)%nat then [st] else [] in
  if decide (12 <= remainder)%nat then
    run (case 15%nat (add_word 3 (byte 14%nat 48)) ++ case 14%nat (add_word 3 (byte 13%nat 40)) ++
         case 13%nat (add_word 3 (byte 12%nat 32)) ++ [add_word 3 (load32 u 2); add_word 2 (load64 u 0)])
  else if decide (8 <= remainder)%nat then
    run (case 11%nat (add_word 3 (byte 10%nat 16)) ++ case 10%nat (add_word 3 (byte 9%nat 8)) ++
         case 9%nat (add_word 3 (byte 8%nat 0)) ++ [add_word 2 (load64 u 0)])
  else if decide (4 <= remainder)%nat then
    run (case 7%nat (add_word 2 (byte 6%nat 48)) ++ case 6%nat (add_word 2 (byte 5%nat 40)) ++
         case 5%nat (add_word 2 (byte 4%nat 32)) ++ [add_word 2 (load32 u 0)])
  else if decide (1 <= remainder)%nat then
    run (case 3%nat (add_word 2 (byte 2%nat 16)) ++ case 2%nat (add_word 2 (byte 1%nat 8)) ++
         [add_word 2 (byte 0%nat 0)])
  else run [add_word 2 sc_const; add_word 3 sc_const].

Definition Short (message : list Z) (length : nat) (hash1 hash2 : Z) : Z * Z :=
  let remainder := (length mod 32)%nat in
  let v := [hash1; hash2; sc_const; sc_const] in
  let '(u, remainder, v) :=
    if decide (15 < length)%nat then
      let v := each_block 32 short_set (length / 32) message v in
      let u := drop (32 * (length / 32)) message in
      if decide (16 <= remainder)%nat then
        let v := run [add_word 2 (load64 u 0); add_word 3 (load64 u 1)] v in
        (drop 16 u, (remainder - 16)%nat, ShortMix v)
      else (u, remainder, v)
    else (message, remainder, v) in
  let v := add_word 3 (u64 (Z.shiftl (Z.of_nat length) 56)) v in
  let v := short_tail u remainder v in
  let v := ShortEnd v in
  (v !!! 0%nat, v !!! 1%nat).

(** ** The whole hash in one call *)

(** [h0=h3=h6=h9 = seed1; h1=h4=h7=h10 = seed2; h2=h5=h8=h11 = sc_const]. *)
Definition seeded (seed1 seed2 : Z) : list Z :=
  [seed1; seed2; sc_const; seed1; seed2; sc_const; seed1; seed2; sc_const; seed1; seed2; sc_const].

(** A partial block padded with zeros, its length in the last byte. *)
Definition padded (data : list Z) (remainder : nat) : list Z :=
  <[95%nat := Z.of_nat remainder]> (take remainder data ++ replicate (96 - remainder) 0).

Definition Hash128 (message : list Z) (hash1 hash2 : Z) : Z * Z :=
  let length := length message in
  if decide (Z.of_nat length < sc_bufSize) then Short message length hash1 hash2
  else
    let h := seeded hash1 hash2 in
    let blocks := (length / 96)%nat in
    let h := each_block 96 Mix blocks message h in
    let rest := drop (96 * blocks) message in
    let remainder := (length - 96 * blocks)%nat in
    let h := End_ (padded rest remainder) h in
    (h !!! 0%nat, h !!! 1%nat).

Definition Hash64 (message : list Z) (seed : Z) : Z := fst (Hash128 message seed seed).

Definition Hash32 (message : list Z) (seed : Z) : Z := u32 (fst (Hash128 message seed seed)).

(** ** The incremental hash *)

Record SpookyHashV2 := mkSpooky {
  m_data : list Z;
  m_state : list Z;
  m_length : Z;
  m_remainder : Z
}.

(** [memcpy(data + off, bs, size)]. *)
Definition write_at (data : list Z) (off : nat) (bs : list Z) : list Z :=
  take off data ++ bs ++ drop (off + length bs) data.

Definition Init (self : SpookyHashV2) (seed1 seed2 : Z) : SpookyHashV2 :=
  mkSpooky (m_data self) (<[1%nat := seed2]> (<[0%nat := seed1]> (m_state self))) 0 0.

Definition Update (self : SpookyHashV2) (message : list Z) : SpookyHashV2 :=
  let length := zlen message in
  let newLength := u64 (length + m_remainder self) in
  if decide (newLength < sc_bufSize) then
    mkSpooky (write_at (m_data self) (Z.to_nat (m_remainder self)) message) (m_state self)
             (u64 (length + m_length self)) (u8 newLength)
  else
    let h := if decide (m_length self < sc_bufSize)
             then seeded (m_state self !!! 0%nat) (m_state self !!! 1%nat) else m_state self in
    let '(data, h, u) :=
      if decide (m_remainder self <> 0) then
        let prefix := Z.to_nat (u8 (sc_bufSize - m_remainder self)) in
        let data := write_at (m_data self) (Z.to_nat (m_remainder self)) (take prefix message) in
        (data, Mix (drop 96 data) (Mix data h), drop prefix message)
      else (m_data self, h, message) in
    let blocks := (List.length u / 96)%nat in
    let remainder := u8 (zlen u - 96 * Z.of_nat blocks) in
    let h := each_block 96 Mix blocks u h in
    let rest := take (Z.to_nat remainder) (drop (96 * blocks) u) in
    mkSpooky (write_at data 0 rest) h (u64 (length + m_length self)) remainder.

(** [Final] pads the stashed bytes in place. *)
Definition Final (self : SpookyHashV2) : Z * Z * SpookyHashV2 :=
  if decide (m_length self < sc_bufSize) then
    (Short (m_data self) (Z.to_nat (m_length self)) (m_state self !!! 0%nat) (m_state self !!! 1%nat), self)
  else
    let '(base, remainder, h) :=
      if decide (sc_blockSize <= m_remainder self)
      then (96%nat, Z.to_nat (m_remainder self - sc_blockSize), Mix (m_data self) (m_state self))
      else (0%nat, Z.to_nat (m_remainder self), m_state self) in
    let data := write_at (m_data self) base (padded (drop base (m_data self)) remainder) in
    let h := End_ (drop base data) h in
    (h !!! 0%nat, h !!! 1%nat, mkSpooky data (m_state self) (m_length self) (m_remainder self)).

(** * What SpookyHashV2 guarantees

    The incremental interface computes the one-call hash of the concatenation
    of the fragments, and the mixing functions lose no information. *)

(** ** Only the block is read *)

Section Locality.
Implicit Types (d u : list Z) (h : list Z).

Lemma load_word_take n m d i : (n * S i <= m)%nat -> load_word n (take m d) i = load_word n d i.
Proof.
  intros Hm. unfold load_word. rewrite skipn_firstn_comm, take_take. do 2 f_equal. lia.
Qed.

Section Blocks.
Context (size : nat) (body : list Z -> list Z -> list Z).

Lemma each_block_S n u v : each_block size body (S n) u v = each_block size body n (drop size u) (body u v).
Proof. done. Qed.

Lemma each_block_add n m : forall u v,
  each_block size body (n + m) u v = each_block size body m (drop (size * n) u) (each_block size body n u v).
Proof.
  induction n as [|n IH]; intros u v.
  - rewrite Nat.mul_0_r, drop_0. done.
  - change (S n + m)%nat with (S (n + m)). rewrite !each_block_S, IH, drop_drop.
    do 2 f_equal. lia.
Qed.

Context (body_take : forall u, body (take size u) = body u).

Lemma each_block_take n : forall u v m,
  (size * n <= m)%nat -> each_block size body n (take m u) v = each_block size body n u v.
Proof.
  induction n as [|n IH]; intros u v m Hm; [done|]. rewrite !each_block_S.
  rewrite skipn_firstn_comm, IH by lia. f_equal.
  rewrite <- (body_take u), <- (body_take (take m u)), take_take, Nat.min_l by lia. done.
Qed.

Lemma each_block_ext n u u' v :
  take (size * n) u = take (size * n) u' -> each_block size body n u v = each_block size body n u' v.
Proof.
  intros Hu. rewrite <- (each_block_take n u v (size * n)), Hu by lia. by rewrite each_block_take by lia.
Qed.
End Blocks.

Lemma Mix_take d : Mix (take 96 d) = Mix d.
Proof. unfold Mix. rewrite !load_word_take by lia. reflexivity. Qed.

Lemma Mix_ext d d' : take 96 d = take 96 d' -> Mix d = Mix d'.
Proof. intros Hd. rewrite <- (Mix_take d), Hd, Mix_take. reflexivity. Qed.

Lemma End_take d : End_ (take 96 d) = End_ d.
Proof. unfold End_. rewrite !load_word_take by lia. reflexivity. Qed.

Lemma short_set_take d : short_set (take 32 d) = short_set d.
Proof. unfold short_set. rewrite !load_word_take by lia. reflexivity. Qed.

(** *** Short messages *)

Lemma lookup_total_take_lt d (i m : nat) : (i < m)%nat -> take m d !!! i = d !!! i.
Proof. intros Hi. rewrite !list_lookup_total_alt, lookup_take_lt by done. done. Qed.

Lemma short_tail_take u r : short_tail (take r u) r = short_tail u r.
Proof.
  unfold short_tail. cbv zeta. repeat case_decide; try lia; rewrite ?lookup_total_take_lt, ?load_word_take by lia; reflexivity.
Qed.

Lemma Short_take d n s1 s2 : Short (take n d) n s1 s2 = Short d n s1 s2.
Proof.
  unfold Short. pose proof (Nat.div_mod_eq n 32) as Hdiv. pose proof (Nat.mod_upper_bound n 32 ltac:(lia)) as Hmod.
  set (q := (n / 32)%nat) in *. set (r := (n mod 32)%nat) in *. clearbody q r.
  assert (Hsets : forall v, each_block 32 short_set q (take n d) v = each_block 32 short_set q d v)
    by (intros v; apply each_block_take; [apply short_set_take|lia]).
  assert (Hu : drop (32 * q) (take n d) = take r (drop (32 * q) d))
    by (rewrite skipn_firstn_comm; f_equal; lia).
  destruct (decide (15 < n)%nat) as [Hn|Hn].
  - rewrite Hsets, Hu. set (u := drop (32 * q) d). clearbody u. case_decide as Hr.
    + rewrite !load_word_take by lia. rewrite skipn_firstn_comm, short_tail_take. reflexivity.
    + rewrite short_tail_take. reflexivity.
  - assert (n = r) as -> by lia. rewrite short_tail_take. reflexivity.
Qed.
End Locality.

#[local] Opaque Mix End_ Short.

(** ** Stashed bytes *)

Section Incremental.
Context (seed1 seed2 : Z).
Implicit Types (msg frag : list Z) (self : SpookyHashV2).

(** [self] has absorbed the message [msg]. *)
Record absorbed msg self : Prop := {
  abs_data : length (m_data self) = 192%nat;
  abs_length : m_length self = zlen msg;
  abs_short : (length msg < 192)%nat ->
    m_state self !!! 0%nat = seed1 /\ m_state self !!! 1%nat = seed2 /\
    m_remainder self = zlen msg /\ take (length msg) (m_data self) = msg;
  abs_long : (192 <= length msg)%nat ->
    exists n r, length msg = (96 * n + r)%nat /\ (r < 192)%nat /\ m_remainder self = Z.of_nat r /\
      take r (m_data self) = drop (96 * n) msg /\
      m_state self = each_block 96 Mix n msg (seeded seed1 seed2)
}.

(** In both cases: what is mixed in and what is stashed. *)
Lemma absorbed_split msg self :
  absorbed msg self ->
  exists n r, length msg = (96 * n + r)%nat /\ (r < 192)%nat /\ m_remainder self = Z.of_nat r /\
    take r (m_data self) = drop (96 * n) msg /\
    (if decide (m_length self < sc_bufSize)
     then seeded (m_state self !!! 0%nat) (m_state self !!! 1%nat) else m_state self) =
    each_block 96 Mix n msg (seeded seed1 seed2) /\
    ((length msg < 192)%nat -> n = 0%nat).
Proof.
  intros [Hd Hl Hs Hlong]. rewrite Hl. unfold zlen, sc_bufSize, sc_blockSize, sc_numVars.
  destruct (decide (length msg < 192)%nat) as [Hlt|Hlt].
  - destruct (Hs Hlt) as (->&->&Hr&Ht). rewrite decide_True by lia. exists 0%nat, (length msg).
    unfold zlen in Hr. rewrite Nat.mul_0_r, drop_0. split_and!; try done; lia.
  - destruct (Hlong ltac:(lia)) as (n&r&?&?&?&?&?). rewrite decide_False by lia. exists n, r.
    split_and!; try done; lia.
Qed.

Lemma length_write_at (d : list Z) off bs : (off + length bs <= length d)%nat -> length (write_at d off bs) = length d.
Proof. intros Hl. unfold write_at. rewrite !length_app, length_take, length_drop. lia. Qed.

Lemma take_write_at (d : list Z) off bs :
  (off + length bs <= length d)%nat -> take (off + length bs) (write_at d off bs) = take off d ++ bs.
Proof.
  intros Hl. unfold write_at. rewrite app_assoc. apply take_app_length'. rewrite length_app, length_take. lia.
Qed.

Lemma Init_absorbed self :
  length (m_data self) = 192%nat -> length (m_state self) = 12%nat -> absorbed [] (Init self seed1 seed2).
Proof.
  intros Hd Hs. split; simpl; try done; [|lia]. intros _.
  destruct (m_state self) as [|x0 [|x1 l]]; simpl in Hs; try lia. split_and!; done.
Qed.

(** A short fragment is stashed. *)
Lemma Update_short msg frag self :
  absorbed msg self -> zlen (msg ++ frag) < 2 ^ 64 -> zlen frag + m_remainder self < 192 ->
  absorbed (msg ++ frag) (Update self frag).
Proof.
  intros Ha Hmax Hnew. unfold Update.
  rewrite (u64_small (zlen frag + _)), decide_True.
  2: { unfold sc_bufSize, sc_blockSize, sc_numVars. lia. }
  2: { destruct (absorbed_split _ _ Ha) as (n&r&_&_&Hr&_). unfold zlen in *. lia. }
  destruct Ha as [Hd Hl Hs Hlong]. unfold zlen in *. rewrite length_app in Hmax.
  rewrite u64_small by lia. rewrite u8_small.
  2: { destruct (decide (length msg < 192)%nat) as [Hlt|Hlt]; [destruct (Hs Hlt) as (_&_&Hr&_); lia|].
       destruct (Hlong ltac:(lia)) as (n&r&_&_&Hr&_). lia. }
  destruct (decide (length msg < 192)%nat) as [Hlt|Hlt].
  - destruct (Hs Hlt) as (H0&H1&Hr&Ht). rewrite Hr in *. rewrite Nat2Z.id.
    split; simpl; unfold zlen; rewrite ?length_app; try lia.
    + rewrite length_write_at by lia. done.
    + intros _. split_and!; try done; [lia|]. rewrite take_write_at by lia. by rewrite Ht.
  - destruct (Hlong ltac:(lia)) as (n&r&Hn&Hr&Hrem&Ht&Hst). rewrite Hrem in *. rewrite Nat2Z.id.
    split; simpl; unfold zlen; rewrite ?length_app; try lia.
    + rewrite length_write_at by lia. done.
    + intros _. exists n, (r + length frag)%nat. split_and!; [lia|lia|lia| |].
      * rewrite take_write_at by lia. rewrite Ht. symmetry. apply drop_app_le. lia.
      * rewrite Hst. apply each_block_ext; [apply Mix_take|]. symmetry. apply take_app_le. lia.
Qed.

(** After the stash has been used: [u] is what is left of the fragment. *)
Lemma Update_rest msg (data u h : list Z) k :
  (192 <= length msg)%nat -> zlen msg < 2 ^ 64 -> length data = 192%nat ->
  (96 * k <= length msg)%nat -> u = drop (96 * k) msg -> h = each_block 96 Mix k msg (seeded seed1 seed2) ->
  let blocks := (length u / 96)%nat in
  let remainder := u8 (zlen u - 96 * Z.of_nat blocks) in
  absorbed msg (mkSpooky (write_at data 0 (take (Z.to_nat remainder) (drop (96 * blocks) u)))
                         (each_block 96 Mix blocks u h) (zlen msg) remainder).
Proof.
  intros Hlong Hmax Hd Hk -> -> blocks remainder.
  set (u := drop (96 * k) msg) in *. assert (Hu : (length u = length msg - 96 * k)%nat) by (unfold u; apply length_drop).
  pose proof (Nat.div_mod_eq (length u) 96) as Hdiv. pose proof (Nat.mod_upper_bound (length u) 96 ltac:(lia)) as Hmod.
  fold blocks in Hdiv. set (r := (length u mod 96)%nat) in *.
  assert (Hr : remainder = Z.of_nat r) by (unfold remainder, zlen; rewrite u8_small; lia).
  clearbody remainder blocks r. subst remainder. rewrite Nat2Z.id.
  assert (Hlr : length (take r (drop (96 * blocks) u)) = r) by (rewrite length_take, length_drop; lia).
  split; cbn [m_data m_state m_length m_remainder]; try lia.
  - rewrite length_write_at; rewrite ?Hlr; lia.
  - intros _. exists (k + blocks)%nat, r. split_and!; [lia|lia|done| |].
    + assert (Ht := take_write_at data 0 (take r (drop (96 * blocks) u)) ltac:(lia)).
      rewrite Hlr in Ht. rewrite Nat.add_0_l in Ht. rewrite Ht. rewrite take_0, app_nil_l.
      unfold u. rewrite drop_drop. rewrite take_ge by (rewrite length_drop; lia). f_equal. lia.
    + by rewrite each_block_add.
Qed.
Lemma stash_mixed (d m h : list Z) :
  length d = 192%nat -> d = take 192 m -> Mix (drop 96 d) (Mix d h) = each_block 96 Mix 2 m h.
Proof.
  intros Hd Hm. rewrite !each_block_S. cbn [each_block].
  rewrite (Mix_ext (drop 96 m) (drop 96 d)), (Mix_ext m d); [reflexivity|..].
  - rewrite Hm, take_take. reflexivity.
  - rewrite Hm, skipn_firstn_comm, take_take. reflexivity.
Qed.

Lemma Update_absorbed msg frag self :
  absorbed msg self -> zlen (msg ++ frag) < 2 ^ 64 -> absorbed (msg ++ frag) (Update self frag).
Proof.
  intros Ha Hmax. destruct (decide (zlen frag + m_remainder self < 192)) as [|Hnew]; [by apply Update_short|].
  destruct (absorbed_split _ _ Ha) as (n&r&Hn&Hr&Hrem&Ht&Hh&_).
  assert (Hlen := abs_length _ _ Ha). assert (Hd := abs_data _ _ Ha). clear Ha.
  unfold Update. unfold zlen in *. rewrite length_app in Hmax.
  rewrite (u64_small (Z.of_nat (length frag) + m_remainder self)), decide_False
    by (unfold sc_bufSize, sc_blockSize, sc_numVars; lia).
  rewrite Hh, Hlen. clear Hh.
  assert (Hlen' : u64 (Z.of_nat (length frag) + Z.of_nat (length msg)) = zlen (msg ++ frag))
    by (unfold zlen; rewrite length_app, u64_small; lia).
  rewrite Hlen'. assert (Hmax' : zlen (msg ++ frag) < 2 ^ 64) by (unfold zlen; rewrite length_app; lia).
  assert (Hall : (192 <= length (msg ++ frag))%nat) by (rewrite length_app; lia).
  assert (Hh : each_block 96 Mix n msg (seeded seed1 seed2) = each_block 96 Mix n (msg ++ frag) (seeded seed1 seed2)).
  { apply each_block_ext; [apply Mix_take|]. symmetry. apply take_app_le. lia. }
  rewrite Hh. case_decide as Hz.
  - rewrite Hrem in *. unfold sc_bufSize, sc_blockSize, sc_numVars.
    rewrite u8_small by lia. replace (Z.to_nat (2 * (12 * 8) - Z.of_nat r)) with (192 - r)%nat by lia.
    rewrite Nat2Z.id. set (data := write_at (m_data self) r (take (192 - r) frag)).
    assert (Hlt : length (take (192 - r) frag) = (192 - r)%nat) by (rewrite length_take; lia).
    assert (Hdata : length data = 192%nat) by (unfold data; rewrite length_write_at; rewrite ?Hlt; lia).
    assert (Hd2 : data = take 192 (drop (96 * n) (msg ++ frag))).
    { assert (E := take_write_at (m_data self) r (take (192 - r) frag) ltac:(lia)). rewrite Hlt in E.
      replace (r + (192 - r))%nat with 192%nat in E by lia. fold data in E. rewrite take_ge in E by lia.
      rewrite E, Ht, drop_app_le by lia. rewrite take_app, length_drop.
      rewrite (take_ge (drop (96 * n) msg)) by (rewrite length_drop; lia). do 2 f_equal. lia. }
    apply (Update_rest (msg ++ frag) data (drop (192 - r) frag) _ (n + 2)); try done.
    + rewrite length_app. lia.
    + rewrite drop_app_ge by lia. f_equal. lia.
    + rewrite (stash_mixed data (drop (96 * n) (msg ++ frag))) by done. by rewrite <- each_block_add.
  - assert (r = 0%nat) as -> by lia. apply (Update_rest (msg ++ frag) (m_data self) frag _ n); try done.
    + rewrite length_app. lia.
    + rewrite drop_app_ge by lia. replace (96 * n - length msg)%nat with 0%nat by lia. by rewrite drop_0.
Qed.
(** *** The last block *)

Lemma length_padded (d : list Z) r : (r < 96)%nat -> (r <= length d)%nat -> length (padded d r) = 96%nat.
Proof. intros. unfold padded. rewrite length_insert, length_app, length_take, length_replicate. lia. Qed.

Lemma padded_ext (d d' : list Z) r : take r d = take r d' -> padded d r = padded d' r.
Proof. intros Hd. unfold padded. by rewrite Hd. Qed.

Lemma take_padded (d : list Z) r : (r < 96)%nat -> (r <= length d)%nat -> take r (padded d r) = take r d.
Proof.
  intros Hr Hd. unfold padded. rewrite take_insert_ge by lia. rewrite take_app, take_take, length_take.
  replace (r - r `min` length d)%nat with 0%nat by lia. rewrite take_0, app_nil_r. f_equal. lia.
Qed.

(** The final mixing is that of the one-call hash. *)
Lemma last_block msg (data h : list Z) k r :
  (192 <= length msg)%nat -> length msg = (96 * k + r)%nat -> (r < 96)%nat ->
  h = each_block 96 Mix k msg (seeded seed1 seed2) ->
  take 96 data = padded (drop (96 * k) msg) r ->
  ((End_ data h) !!! 0%nat, (End_ data h) !!! 1%nat) = Hash128 msg seed1 seed2.
Proof.
  intros Hlong Hk Hr -> Hd. unfold Hash128. rewrite decide_False by (unfold sc_bufSize, sc_blockSize, sc_numVars; lia).
  assert (Hq : (length msg / 96 = k)%nat) by (symmetry; apply (Nat.div_unique _ _ _ r); lia).
  rewrite Hq. replace (length msg - 96 * k)%nat with r by lia. rewrite <- (End_take data), Hd. reflexivity.
Qed.

Lemma Final_absorbed msg self :
  absorbed msg self -> exists self', Final self = (Hash128 msg seed1 seed2, self') /\ absorbed msg self'.
Proof.
  intros Ha. pose proof Ha as [Hd Hl Hs Hlong]. unfold Final. rewrite Hl.
  destruct (decide (length msg < 192)%nat) as [Hlt|Hlt].
  { destruct (Hs Hlt) as (->&->&_&Ht).
    rewrite decide_True by (unfold sc_bufSize, sc_blockSize, sc_numVars, zlen; lia).
    unfold zlen. rewrite Nat2Z.id. exists self. split; [|done]. f_equal.
    unfold Hash128. rewrite decide_True by (unfold sc_bufSize, sc_blockSize, sc_numVars; lia).
    by rewrite <- (Short_take (m_data self)), Ht. }
  destruct (Hlong ltac:(lia)) as (n&r&Hn&Hr&Hrem&Ht&Hst). rewrite Hrem.
  rewrite decide_False by (unfold sc_bufSize, sc_blockSize, sc_numVars, zlen; lia).
  unfold sc_blockSize, sc_numVars. case_decide as H96.
  - replace (Z.to_nat (Z.of_nat r - 12 * 8)) with (r - 96)%nat by lia. cbv zeta beta iota.
    set (pad := padded (drop 96 (m_data self)) (r - 96)). set (data := write_at (m_data self) 96 pad).
    assert (Hlp : length pad = 96%nat) by (unfold pad; apply length_padded; rewrite ?length_drop; lia).
    assert (Hrest : take (r - 96) (drop 96 (m_data self)) = drop (96 * S n) msg).
    { rewrite <- skipn_firstn_comm, Ht, drop_drop. f_equal. lia. }
    assert (Hdd : drop 96 data = pad ++ drop 192 (m_data self)).
    { unfold data, write_at. rewrite Hlp, drop_app_ge; rewrite length_take; [|lia].
      replace (96 - 96 `min` length (m_data self))%nat with 0%nat by lia. reflexivity. }
    eexists. split.
    + f_equal. apply (last_block msg _ _ (S n) (r - 96)); [lia..| |].
      * rewrite Hst. replace (S n) with (n + 1)%nat by lia. rewrite each_block_add, each_block_S. cbn [each_block].
        rewrite (Mix_ext (m_data self) (drop (96 * n) msg)); [reflexivity|]. rewrite <- Ht, take_take. f_equal. lia.
      * rewrite Hdd, take_app_length' by done. unfold pad. apply padded_ext. rewrite Hrest.
        symmetry. apply take_ge. rewrite length_drop. lia.
    + split; cbn [m_data m_state m_length m_remainder]; try done.
      * unfold data. rewrite length_write_at; rewrite ?Hlp; lia.
      * intros _. exists n, r. split_and!; try done. rewrite <- Ht.
        rewrite <- (take_drop 96 (take r data)), <- (take_drop 96 (take r (m_data self))).
        rewrite !take_take, !skipn_firstn_comm, Hdd. f_equal.
        -- unfold data, write_at. rewrite take_app, take_take, length_take.
           replace (_ - _)%nat with 0%nat by lia. rewrite take_0, app_nil_r. f_equal. lia.
        -- rewrite take_app_le by lia. unfold pad. apply take_padded; rewrite ?length_drop; lia.
  - rewrite Nat2Z.id, drop_0. cbv zeta beta iota. rewrite !drop_0.
    set (pad := padded (m_data self) r). set (data := write_at (m_data self) 0 pad).
    assert (Hlp : length pad = 96%nat) by (unfold pad; apply length_padded; lia).
    assert (Hdd : data = pad ++ drop 96 (m_data self)) by (unfold data, write_at; rewrite Hlp; reflexivity).
    eexists. split.
    + f_equal. apply (last_block msg _ _ n r); [lia..|exact Hst|].
      rewrite Hdd, take_app_length' by done. unfold pad. apply padded_ext. rewrite Ht.
      symmetry. apply take_ge. rewrite length_drop. lia.
    + split; cbn [m_data m_state m_length m_remainder]; try done.
      * unfold data. rewrite length_write_at; rewrite ?Hlp; lia.
      * intros _. exists n, r. split_and!; try done. rewrite <- Ht, Hdd, take_app_le by lia.
        unfold pad. apply take_padded; lia.
Qed.
End Incremental.

(** ** Sessions

    A client adds fragments ([Some]) and asks for the hash of what it has added
    so far ([None]), in any order. *)

Fixpoint session (self : SpookyHashV2) (es : list (option (list Z))) : list (Z * Z) :=
  match es with
  | [] => []
  | Some frag :: es => session (Update self frag) es
  | None :: es => let '(h, self') := Final self in h :: session self' es
  end.

Fixpoint session_spec (seed1 seed2 : Z) (msg : list Z) (es : list (option (list Z))) : list (Z * Z) :=
  match es with
  | [] => []
  | Some frag :: es => session_spec seed1 seed2 (msg ++ frag) es
  | None :: es => Hash128 msg seed1 seed2 :: session_spec seed1 seed2 msg es
  end.

Definition fragments (es : list (option (list Z))) : list Z := concat (omap id es).

Lemma session_absorbed seed1 seed2 es : forall msg self,
  absorbed seed1 seed2 msg self -> zlen (msg ++ fragments es) < 2 ^ 64 ->
  session self es = session_spec seed1 seed2 msg es.
Proof.
  induction es as [|[frag|] es IH]; intros msg self Ha Hmax; [done|..]; simpl.
  - unfold fragments in Hmax. simpl in Hmax. rewrite app_assoc in Hmax. apply IH; [|done].
    apply Update_absorbed; [done|]. unfold zlen in *. rewrite length_app in Hmax. lia.
  - destruct (Final_absorbed seed1 seed2 msg self Ha) as (self'&->&Ha'). f_equal. by apply IH.
Qed.

(** C31: the incremental hash is the one-call hash.  From any uninitialised
    object, after [Init] and any interleaving of [Update]s with fragments of any
    length (fewer than 2^64 bytes in all) and of [Final]s, each [Final] yields
    [Hash128] of the concatenation of the fragments given so far; in particular
    [Final], which pads the stashed bytes in place, does not disturb what
    follows. *)
Theorem spooky_incremental (self : SpookyHashV2) (seed1 seed2 : Z) (es : list (option (list Z))) :
  length (m_data self) = 192%nat -> length (m_state self) = 12%nat -> zlen (fragments es) < 2 ^ 64 ->
  session (Init self seed1 seed2) es = session_spec seed1 seed2 [] es.
Proof. intros. apply session_absorbed; [by apply Init_absorbed|done]. Qed.

Definition uninitialised : SpookyHashV2 := mkSpooky (replicate 192 7) (replicate 12 7) 7 7.

(** Bytes 128, 129, ... *)
Definition ramp (n : nat) : list Z := (fun i => (128 + Z.of_nat i) `mod` 256) <$> seq 0 n.

Definition demo_session : list (option (list Z)) :=
  [Some (ramp 5); None; Some (ramp 100); None; Some (ramp 180); None; Some (ramp 300); Some (ramp 3); None].

Lemma spooky_incremental_witness :
  session (Init uninitialised 3 4) demo_session = session_spec 3 4 [] demo_session /\
  length (session (Init uninitialised 3 4) demo_session) = 4%nat.
Proof.
  split; [|vm_compute; reflexivity].
  apply spooky_incremental; [reflexivity|reflexivity|vm_compute; reflexivity].
Defined.

(** The published vectors of the hash. *)
Example spooky_vectors :
  (fun n => Hash32 (ramp n) 0) <$> [0%nat; 1%nat; 2%nat; 11%nat] = [0x6bf50919; 0x70de1d26; 0xa2b37298; 0x9ed60886].
Proof. vm_compute. reflexivity. Qed.

(** ** Reversibility *)

Definition words (n : nat) (s : list Z) : Prop := length s = n /\ Forall (fits 64) s.

(** A statement on [n] words that loses nothing. *)
Definition reversible (n : nat) (f : stmt) : Prop :=
  (forall s, words n s -> words n (f s)) /\ (forall s s', words n s -> words n s' -> f s = f s' -> s = s').

Lemma run_reversible n p : Forall (reversible n) p -> reversible n (run p).
Proof.
  intros Hp. induction Hp as [|f p [Hw Hi] Hp [IHw IHi]]; [by split|]. split.
  - intros s Hs. apply IHw, Hw, Hs.
  - intros s s' Hs Hs' E. apply Hi; [done..|]. by apply IHi; [apply Hw|apply Hw|].
Qed.

Lemma reversible_comp n (f g : stmt) : reversible n f -> reversible n g -> reversible n (fun s => g (f s)).
Proof. intros [Hfw Hfi] [Hgw Hgi]. split; [auto|]. intros s s' Hs Hs' E. apply Hfi; auto. Qed.

Lemma words_at n s i : words n s -> (i < n)%nat -> fits 64 (s !!! i).
Proof.
  intros [Hl Hs] Hi. rewrite list_lookup_total_alt. destruct (lookup_lt_is_Some_2 s i) as [x Hx]; [lia|].
  rewrite Hx. by apply Forall_lookup_1 with (1 := Hs) (2 := Hx).
Qed.

(** A statement that replaces variable [i] by a function of it that is injective
    once the other variables are fixed. *)
Lemma assign_reversible n i (g : list Z -> Z -> Z) :
  (i < n)%nat ->
  (forall s x, g (<[i := x]> s) = g s) ->
  (forall s x, words n s -> fits 64 x -> fits 64 (g s x)) ->
  (forall s x y, words n s -> fits 64 x -> fits 64 y -> g s x = g s y -> x = y) ->
  reversible n (fun s => <[i := g s (s !!! i)]> s).
Proof.
  intros Hi Hg Hfit Hinj. split.
  - intros s Hs. pose proof (words_at n s i Hs Hi). destruct Hs as [Hl Hs]. split; [by rewrite length_insert|].
    apply Forall_insert; [done|]. by apply Hfit.
  - intros s s' Hs Hs' E. pose proof (words_at n s i Hs Hi). pose proof (words_at n s' i Hs' Hi).
    assert (Hl : (i < length s)%nat) by (by destruct Hs as [-> _]).
    assert (Hl' : (i < length s')%nat) by (by destruct Hs' as [-> _]).
    assert (Hval : g s (s !!! i) = g s' (s' !!! i)).
    { apply (f_equal (.!!! i)) in E. by rewrite !list_lookup_total_insert_eq in E. }
    assert (Hrest : <[i := 0]> s = <[i := 0]> s').
    { apply (f_equal (<[i := 0]>)) in E. by rewrite !list_insert_insert_eq in E. }
    assert (Hgg : g s = g s') by (by rewrite <- (Hg s 0), <- (Hg s' 0), Hrest).
    rewrite <- Hgg in Hval. apply Hinj in Hval; [|done..].
    assert (Hid : forall l : list Z, (i < length l)%nat -> l = <[i := l !!! i]> (<[i := 0]> l)).
    { intros l Hll. rewrite list_insert_insert_eq, list_insert_id; [done|]. by apply list_lookup_lookup_total_lt. }
    rewrite (Hid s), (Hid s'), Hval, Hrest by done. done.
Qed.

(** A rotation swaps the two parts of a word. *)
Lemma Rot64_parts x k : 0 < k < 64 -> fits 64 x -> Rot64 x k = x `mod` 2 ^ (64 - k) * 2 ^ k + x / 2 ^ (64 - k).
Proof.
  intros Hk Hx. unfold Rot64, fits in *. rewrite Z.shiftl_mul_pow2, Z.shiftr_div_pow2 by lia.
  assert (E : 2 ^ 64 = 2 ^ (64 - k) * 2 ^ k) by (rewrite <- Z.pow_add_r by lia; f_equal; lia).
  pose proof (Z.pow_pos_nonneg 2 k ltac:(lia) ltac:(lia)). pose proof (Z.pow_pos_nonneg 2 (64 - k) ltac:(lia) ltac:(lia)).
  unfold wrap. rewrite E, Z.mul_mod_distr_r by lia. apply lor_low; [lia|]. split; [apply Z.div_pos; lia|].
  apply Z.div_lt_upper_bound; lia.
Qed.

Lemma Rot64_reversible k x y :
  0 < k < 64 -> fits 64 x -> fits 64 y -> fits 64 (Rot64 x k) /\ (Rot64 x k = Rot64 y k -> x = y).
Proof.
  intros Hk Hx Hy. rewrite !Rot64_parts by done. unfold fits in *.
  assert (E : 2 ^ 64 = 2 ^ (64 - k) * 2 ^ k) by (rewrite <- Z.pow_add_r by lia; f_equal; lia).
  pose proof (Z.pow_pos_nonneg 2 k ltac:(lia) ltac:(lia)) as Ha.
  pose proof (Z.pow_pos_nonneg 2 (64 - k) ltac:(lia) ltac:(lia)) as Hb. rewrite E in Hx, Hy |- *.
  set (A := 2 ^ k) in *. set (B := 2 ^ (64 - k)) in *. clearbody A B. clear E.
  assert (Hparts : forall z, 0 <= z < B * A -> 0 <= z `mod` B < B /\ 0 <= z / B < A /\ z = B * (z / B) + z `mod` B).
  { intros z Hz. pose proof (Z.mod_pos_bound z B). pose proof (Z.div_mod z B).
    split; [lia|]. split; [|lia]. split; [apply Z.div_pos; lia|]. apply Z.div_lt_upper_bound; lia. }
  destruct (Hparts x Hx) as (Hx1&Hx2&Ex). destruct (Hparts y Hy) as (Hy1&Hy2&Ey).
  split; [nia|]. intros Heq.
  destruct (Z.div_mod_unique A (x `mod` B) (y `mod` B) (x / B) (y / B)) as [E1 E2]; [lia|lia|nia|].
  rewrite Ex, Ey, E1, E2. done.
Qed.

Lemma add_word_reversible n i w : (i < n)%nat -> reversible n (add_word i w).
Proof.
  intros Hi. apply (assign_reversible n i (fun _ x => u64 (x + w))); [done|done|intros; by apply wrap_fits|].
  unfold fits, wrap. intros _ x y _ Hx Hy E. apply Z.cong_iff_ex in E as [q Hq]. nia.
Qed.

Lemma add_var_reversible n i j : (i < n)%nat -> i <> j -> reversible n (add_var i j).
Proof.
  intros Hi Hij. apply (assign_reversible n i (fun s x => u64 (x + s !!! j))); [done| |intros; by apply wrap_fits|].
  - intros s x. by rewrite list_lookup_total_insert_ne.
  - unfold fits, wrap. intros s x y _ Hx Hy E. apply Z.cong_iff_ex in E as [q Hq]. nia.
Qed.

Lemma xor_var_reversible n i j : (i < n)%nat -> (j < n)%nat -> i <> j -> reversible n (xor_var i j).
Proof.
  intros Hi Hj Hij. apply (assign_reversible n i (fun s x => Z.lxor x (s !!! j))); [done|..].
  - intros s x. by rewrite list_lookup_total_insert_ne.
  - intros s x Hs Hx. apply lxor_fits; [done..|]. by apply words_at with n.
  - intros s x y _ _ _ E. apply (f_equal (fun z => Z.lxor z (s !!! j))) in E.
    by rewrite !Z.lxor_assoc, !Z.lxor_nilpotent, !Z.lxor_0_r in E.
Qed.

Lemma rot_var_reversible n i k : (i < n)%nat -> 0 < k < 64 -> reversible n (rot_var i k).
Proof.
  intros Hi Hk. apply (assign_reversible n i (fun _ x => Rot64 x k)); [done|done|..].
  - intros s x _ Hx. by apply (Rot64_reversible k x x).
  - intros s x y _ Hx Hy. by apply Rot64_reversible.
Qed.

Create HintDb spooky.
#[local] Hint Resolve add_word_reversible add_var_reversible xor_var_reversible rot_var_reversible : spooky.
#[local] Hint Extern 1 (_ < _)%nat => lia : spooky.
#[local] Hint Extern 1 (_ < _ < _) => lia : spooky.
#[local] Hint Extern 1 (_ <> _) => lia : spooky.

Ltac solve_reversible :=
  apply run_reversible; repeat (apply List.Forall_cons; [by auto with spooky|]); apply List.Forall_nil.

#[local] Transparent Mix End_.

(** Mixing loses no information: for every block of data, [Mix] is
    injective on the twelve state words and keeps them 64-bit words, and so are
    [EndPartial] and the final mixing [End] on twelve words and [ShortMix] and
    [ShortEnd] on four (each is a composition of additions, exclusive ors of
    distinct variables and rotations by less than the word size). *)
Lemma spooky_mixing_reversible (data : list Z) :
  reversible 12 (Mix data) /\ reversible 12 EndPartial /\ reversible 12 (End_ data) /\
  reversible 4 ShortMix /\ reversible 4 ShortEnd.
Proof.
  assert (HE : reversible 12 EndPartial) by (unfold EndPartial; solve_reversible).
  split_and!; [|done|..].
  - unfold Mix. solve_reversible.
  - unfold End_. cbv zeta.
    match goal with |- reversible 12 (fun h => EndPartial (EndPartial (EndPartial (run ?p h)))) =>
      assert (H0 : reversible 12 (run p)) by solve_reversible end.
    exact (reversible_comp _ _ _ (reversible_comp _ _ _ (reversible_comp _ _ _ H0 HE) HE) HE).
  - unfold ShortMix. solve_reversible.
  - unfold ShortEnd. solve_reversible.
Qed.
