(* ===== verification/Base64.v ===== *)
(** * Base64: encoding and decoding

    [src/accelerator/Base64-inl.h]: [base64Encode] and [base64Decode].  Strings
    are lists of bytes.  Both functions size the output string first and then
    write it by index: the state of the loops is the output and the index [j],
    and a write outside of the string is a fault. *)

From stdpp Require Import base list strings.
From S2P Require Import Prelude.

Inductive Base64EncodeMode := COMMON | URI.

Abbreviation Out := (M (list Z * Z)).

(** [output[j++] = c]. *)
Definition emit (c : Z) : Out unit :=
  st ← get;
  let '(output, j) := st in
  if decide (0 <= j < zlen output) then put (<[Z.to_nat j := c]> output, j + 1)
  else fault "write outside of the output".

Definition kPad : Z := 61.

(** ** Encoding *)

(** "ABCDEFGHIJKLMNOPQRSTUVWXYZabcdefghijklmnopqrstuvwxyz0123456789" *)
Definition kBase64EncTable : list Z := seqZ 65 26 ++ seqZ 97 26 ++ seqZ 48 10.

Definition encode (mode : Base64EncodeMode) (i : Z) : Z :=
  if decide (i = 0x3e) then match mode with URI => 45 | COMMON => 43 end
  else if decide (i = 0x3f) then match mode with URI => 95 | COMMON => 47 end
  else kBase64EncTable !!! Z.to_nat i.

(** [while (leftbits >= 6)]: at most two rounds, since [leftbits < 14]. *)
Definition encode_group (mode : Base64EncodeMode) (leftchar leftbits : Z) : Out (Z + Z) :=
  if decide (6 <= leftbits) then
    let leftbits := leftbits - 6 in
    emit (encode mode (Z.land (Z.shiftr leftchar leftbits) 0x3f));; mret (inl leftbits)
  else mret (inr leftbits).

Fixpoint encode_loop (mode : Base64EncodeMode) (input : list Z) (leftchar leftbits : Z) : Out (Z * Z) :=
  match input with
  | [] => mret (leftchar, leftbits)
  | c :: input =>
      let leftchar := Z.lor (u32 (Z.shiftl leftchar 8)) c in
      leftbits ← iter 3 (encode_group mode leftchar) (leftbits + 8);
      encode_loop mode input leftchar leftbits
  end.

(** The bits that are left, and the padding. *)
Definition encode_tail (mode : Base64EncodeMode) (st : Z * Z) : Out unit :=
  let '(leftchar, leftbits) := st in
  if decide (leftbits = 2) then
    emit (encode mode (Z.shiftl (Z.land leftchar 0x3) 4));; emit kPad;; emit kPad
  else if decide (leftbits = 4) then
    emit (encode mode (Z.shiftl (Z.land leftchar 0xf) 2));; emit kPad
  else mret tt.

Definition encode_all (mode : Base64EncodeMode) (input : list Z) : Out unit :=
  encode_loop mode input 0 0 ≫= encode_tail mode.

(** The result and the output string. *)
Definition base64Encode (input : list Z) (mode : Base64EncodeMode) : res (list Z) bool :=
  match encode_all mode input (replicate (Z.to_nat ((zlen input + 2) / 3 * 4)) 0, 0) with
  | Ok _ (output, _) => Ok true output
  | Throw e (output, _) => Throw e output
  | Fault why => Fault why
  | OutOfFuel => OutOfFuel
  end.

(** ** Decoding *)

(** The table for both modes, [-1] for a character that is skipped. *)
Definition kBase64DecTable : list Z :=
  [-1;-1;-1;-1; -1;-1;-1;-1; -1;-1;-1;-1; -1;-1;-1;-1;
   -1;-1;-1;-1; -1;-1;-1;-1; -1;-1;-1;-1; -1;-1;-1;-1;
   -1;-1;-1;-1; -1;-1;-1;-1; -1;-1;-1;62; -1;62;-1;63;
   52;53;54;55; 56;57;58;59; 60;61;-1;-1; -1; 0;-1;-1;
   -1; 0; 1; 2;  3; 4; 5; 6;  7; 8; 9;10; 11;12;13;14;
   15;16;17;18; 19;20;21;22; 23;24;25;-1; -1;-1;-1;63;
   -1;26;27;28; 29;30;31;32; 33;34;35;36; 37;38;39;40;
   41;42;43;44; 45;46;47;48; 49;50;51;-1; -1;-1;-1;-1].

Definition decode_char (c : Z) : Z := kBase64DecTable !!! Z.to_nat c.

(** [while (bits >= 8)]. *)
Definition decode_group (value bits : Z) : Out (Z + Z) :=
  if decide (8 <= bits) then
    let bits := bits - 8 in
    emit (Z.land (Z.shiftr value bits) 0xff);; mret (inl bits)
  else mret (inr bits).

(** The loop over the input; the result is the final [bits]. *)
Fixpoint decode_loop (input : list Z) (value bits : Z) : Out Z :=
  match input with
  | [] => mret bits
  | c :: input =>
      if decide (0x7f < c) then decode_loop input value bits
      else if decide (c = kPad) then mret 0
      else
        let c := u8 (decode_char c) in
        if decide (c = 255) then decode_loop input value bits
        else
          let value := Z.lor (u32 (Z.shiftl value 6)) c in
          bits ← iter 2 (decode_group value) (bits + 6);
          decode_loop input value bits
  end.

Definition base64Decode (input : list Z) (mode : Base64EncodeMode) : res (list Z) bool :=
  match decode_loop input 0 0 (replicate (Z.to_nat ((zlen input + 3) / 4 * 3)) 0, 0) with
  | Ok bits (output, j) => Ok (bool_decide (bits = 0)) (take (Z.to_nat j) output)
  | Throw e (output, _) => Throw e output
  | Fault why => Fault why
  | OutOfFuel => OutOfFuel
  end.

(** ** Runs *)

Section Runs.
Implicit Types (w rest s input : list Z) (mode : Base64EncodeMode).

(** The output after [w] has been written, with [rest] still to be overwritten. *)
Definition filled w rest : list Z * Z := (w ++ rest, zlen w).

Lemma emit_run c w x rest : emit c (filled w (x :: rest)) = Ok tt (filled (w ++ [c]) rest).
Proof.
  unfold emit, filled, mbind, M_bind, bind, get. cbv beta iota. unfold zlen.
  rewrite decide_True by (rewrite length_app; simpl; lia). unfold put. do 2 f_equal.
  - rewrite Nat2Z.id, <- app_assoc. rewrite insert_app_r_alt by lia. rewrite Nat.sub_diag. reflexivity.
  - rewrite length_app. simpl. lia.
Qed.

Lemma emit_bind {A} c (k : Out A) w x rest : (emit c;; k) (filled w (x :: rest)) = k (filled (w ++ [c]) rest).
Proof. unfold mbind, M_bind, bind. by rewrite emit_run. Qed.

(** One round of a loop over the bits that are left. *)
Ltac open_group g := cbn [iter]; unfold bind at 1; unfold g at 1.
Ltac close_group := unfold mret, M_ret, ret; cbv beta iota.

(** *** Encoding *)

Lemma shift_in v c k : 0 <= k <= 32 -> 0 <= c < 2 ^ k -> Z.lor (u32 (Z.shiftl v k)) c = (v `mod` 2 ^ (32 - k)) * 2 ^ k + c.
Proof.
  intros Hk Hc. rewrite Z.shiftl_mul_pow2 by lia. unfold wrap.
  replace (2 ^ 32) with (2 ^ (32 - k) * 2 ^ k) by (rewrite <- Z.pow_add_r by lia; f_equal; lia).
  pose proof (Z.pow_pos_nonneg 2 k ltac:(lia) ltac:(lia)). pose proof (Z.pow_pos_nonneg 2 (32 - k) ltac:(lia) ltac:(lia)).
  rewrite Z.mul_mod_distr_r by lia. apply lor_low; lia.
Qed.

Lemma encode_one mode l x rest w (lb : Z) :
  6 <= lb < 12 ->
  iter 3 (encode_group mode l) lb (filled w (x :: rest)) =
  Ok (lb - 6) (filled (w ++ [encode mode ((l / 2 ^ (lb - 6)) `mod` 2 ^ 6)]) rest).
Proof.
  intros Hlb. open_group encode_group. rewrite decide_True by lia. rewrite emit_bind. close_group.
  open_group encode_group. rewrite decide_False by lia. close_group. do 4 f_equal.
  rewrite Z.shiftr_div_pow2 by lia. f_equal. apply (land_low _ 6). lia.
Qed.

Lemma encode_two mode l x y rest w :
  iter 3 (encode_group mode l) 12 (filled w (x :: y :: rest)) =
  Ok 0 (filled (w ++ [encode mode ((l / 2 ^ 6) `mod` 2 ^ 6); encode mode (l `mod` 2 ^ 6)]) rest).
Proof.
  open_group encode_group. rewrite decide_True by lia. rewrite emit_bind. close_group.
  open_group encode_group. rewrite decide_True by lia. rewrite emit_bind. close_group.
  open_group encode_group. rewrite decide_False by lia. close_group.
  rewrite <- app_assoc, !Z.shiftr_div_pow2 by lia. rewrite !(land_low _ 6) by lia. rewrite Z.div_1_r. reflexivity.
Qed.

(** Three bytes make four characters, whatever [leftchar] still holds. *)
Lemma encode_three mode a b c input l w x0 x1 x2 x3 rest :
  0 <= a < 256 -> 0 <= b < 256 -> 0 <= c < 256 ->
  exists l', encode_loop mode (a :: b :: c :: input) l 0 (filled w (x0 :: x1 :: x2 :: x3 :: rest)) =
    encode_loop mode input l' 0 (filled (w ++ (encode mode <$>
      [a / 4; a `mod` 4 * 16 + b / 16; b `mod` 16 * 4 + c / 64; c `mod` 64])) rest).
Proof.
  intros Ha Hb Hc. eexists. cbn [encode_loop]. cbv zeta. rewrite !shift_in by lia. change (0 + 8) with 8.
  set (la := _ * 2 ^ 8 + a). set (lab := la `mod` _ * 2 ^ 8 + b). set (labc := lab `mod` _ * 2 ^ 8 + c).
  erewrite run_bind by (apply encode_one; lia). change (8 - 6 + 8) with 10.
  erewrite run_bind by (apply encode_one; lia). change (10 - 6 + 8) with 12.
  erewrite run_bind by apply encode_two. do 2 f_equal. rewrite <- !app_assoc. f_equal.
  assert (Ea : (la / 2 ^ (8 - 6)) `mod` 2 ^ 6 = a / 4) by (unfold la; euclid).
  assert (Eb : (lab / 2 ^ (10 - 6)) `mod` 2 ^ 6 = a `mod` 4 * 16 + b / 16) by (unfold lab, la; euclid).
  assert (Ec : (labc / 2 ^ 6) `mod` 2 ^ 6 = b `mod` 16 * 4 + c / 64) by (unfold labc, lab; euclid).
  assert (Ed : labc `mod` 2 ^ 6 = c `mod` 64) by (unfold labc; euclid).
  rewrite Ea, Eb, Ec, Ed. reflexivity.
Qed.
(** The text of an encoding. *)
Fixpoint base64_text mode input : list Z :=
  match input with
  | a :: b :: c :: input =>
      (encode mode <$> [a / 4; a `mod` 4 * 16 + b / 16; b `mod` 16 * 4 + c / 64; c `mod` 64]) ++ base64_text mode input
  | [a; b] => (encode mode <$> [a / 4; a `mod` 4 * 16 + b / 16; b `mod` 16 * 4]) ++ [kPad]
  | [a] => (encode mode <$> [a / 4; a `mod` 4 * 16]) ++ [kPad; kPad]
  | [] => []
  end.

Definition is_bytes input : Prop := Forall (fun b => 0 <= b < 256) input.

(** Induction by groups of [k + 1] elements. *)
Lemma chunk_ind (k : nat) (P : list Z -> Prop) :
  (forall l, (length l <= k)%nat -> P l) ->
  (forall l l', (length l = S k)%nat -> P l' -> P (l ++ l')) -> forall l, P l.
Proof.
  intros Hshort Hstep l. remember (length l) as n eqn:Hn. revert l Hn.
  induction n as [n IH] using lt_wf_ind. intros l ->. destruct (decide (length l <= k)%nat) as [|Hl]; [by apply Hshort|].
  rewrite <- (take_drop (S k) l). apply Hstep; [rewrite length_take; lia|].
  apply (IH (length (drop (S k) l))); [rewrite length_drop; lia|done].
Qed.

Lemma length_base64_text mode input : zlen (base64_text mode input) = (zlen input + 2) / 3 * 4.
Proof.
  induction input as [l Hl|l l' Hl IH] using (chunk_ind 2); unfold zlen in *.
  - destruct l as [|a [|b [|c l]]]; simpl in Hl; try lia; reflexivity.
  - destruct l as [|a [|b [|c [|d l]]]]; simpl in Hl; try lia. cbn [app base64_text].
    rewrite length_app, Nat2Z.inj_add, IH. cbn [length fmap list_fmap]. euclid.
Qed.

Lemma encode_run mode input : forall l w rest,
  is_bytes input -> length rest = length (base64_text mode input) ->
  (encode_loop mode input l 0 ≫= encode_tail mode) (filled w rest) = Ok tt (filled (w ++ base64_text mode input) []).
Proof.
  induction input as [i Hi|i i' Hi IH] using (chunk_ind 2); intros l w rest Hb Hr.
  - destruct i as [|a [|b [|c i]]]; simpl in Hi; try lia; unfold is_bytes in Hb; rewrite ?Forall_cons in Hb.
    + destruct rest; [|done]. simpl. by rewrite app_nil_r.
    + destruct rest as [|x0 [|x1 [|x2 [|x3 [|]]]]]; simpl in Hr; try lia.
      cbn [encode_loop]. cbv zeta. rewrite shift_in by lia. change (0 + 8) with 8.
      erewrite run_bind; [|erewrite run_bind by (apply encode_one; lia); reflexivity].
      unfold encode_tail. rewrite decide_True by lia. rewrite !emit_bind, emit_run. do 2 f_equal.
      rewrite <- !app_assoc. cbn [base64_text fmap list_fmap app]. do 2 f_equal; [f_equal; euclid|]. f_equal. f_equal.
      rewrite (land_low _ 2), Z.shiftl_mul_pow2 by lia. euclid.
    + destruct rest as [|x0 [|x1 [|x2 [|x3 [|]]]]]; simpl in Hr; try lia.
      cbn [encode_loop]. cbv zeta. rewrite !shift_in by lia. change (0 + 8) with 8.
      erewrite run_bind; [|erewrite run_bind by (apply encode_one; lia); change (8 - 6 + 8) with 10;
                           erewrite run_bind by (apply encode_one; lia); reflexivity].
      unfold encode_tail. rewrite decide_False, decide_True by lia. rewrite !emit_bind, emit_run. do 2 f_equal.
      rewrite <- !app_assoc. cbn [base64_text fmap list_fmap app]. do 2 f_equal; [f_equal; euclid|].
      f_equal; [f_equal; euclid|]. f_equal. f_equal. rewrite (land_low _ 4), Z.shiftl_mul_pow2 by lia. euclid.
  - destruct i as [|a [|b [|c [|d i]]]]; simpl in Hi; try lia. unfold is_bytes in Hb. cbn [app] in *.
    rewrite !Forall_cons in Hb. destruct Hb as (Ha&Hb&Hc&Hb').
    cbn [base64_text] in Hr |- *. rewrite length_app in Hr. cbn [length fmap list_fmap] in Hr.
    destruct rest as [|x0 [|x1 [|x2 [|x3 rest]]]]; simpl in Hr; try lia.
    destruct (encode_three mode a b c i' l w x0 x1 x2 x3 rest) as [l' Hl']; [done..|].
    unfold mbind at 1, M_bind, bind. rewrite Hl'.
    specialize (IH l' (w ++ (encode mode <$> [a / 4; a `mod` 4 * 16 + b / 16; b `mod` 16 * 4 + c / 64; c `mod` 64]))
      rest Hb' ltac:(lia)). unfold mbind at 1, M_bind, bind in IH. rewrite IH. by rewrite <- app_assoc.
Qed.

(** *** Decoding *)

(** The characters of an encoding are decoded in either mode. *)
Lemma decode_encode_char mode v :
  0 <= v < 64 ->
  ~ 0x7f < encode mode v /\ encode mode v <> kPad /\ u8 (decode_char (encode mode v)) = v.
Proof.
  intros Hv. assert (Hall : forallb (fun v => (encode mode v <=? 0x7f) && negb (encode mode v =? kPad) &&
    (u8 (decode_char (encode mode v)) =? v)) (seqZ 0 64) = true) by (destruct mode; vm_compute; reflexivity).
  apply forallb_forall with (x := v) in Hall; [|apply list_elem_of_In, elem_of_seqZ; lia].
  rewrite !andb_true_iff, negb_true_iff, Z.leb_le, Z.eqb_neq, Z.eqb_eq in Hall. lia.
Qed.

Lemma decode_none value bits st : bits < 8 -> iter 2 (decode_group value) bits st = Ok bits st.
Proof. intros Hb. open_group decode_group. rewrite decide_False by lia. by close_group. Qed.

Lemma decode_one value bits w x rest :
  8 <= bits < 16 ->
  iter 2 (decode_group value) bits (filled w (x :: rest)) =
  Ok (bits - 8) (filled (w ++ [(value / 2 ^ (bits - 8)) `mod` 2 ^ 8]) rest).
Proof.
  intros Hb. open_group decode_group. rewrite decide_True by lia. rewrite emit_bind. close_group.
  open_group decode_group. rewrite decide_False by lia. close_group. do 4 f_equal.
  rewrite Z.shiftr_div_pow2 by lia. apply (land_low _ 8). lia.
Qed.

(** One character of an encoding is shifted in. *)
Lemma decode_char_step mode v s value bits st :
  0 <= v < 64 ->
  decode_loop (encode mode v :: s) value bits st =
  (bits ← iter 2 (decode_group (value `mod` 2 ^ 26 * 2 ^ 6 + v)) (bits + 6);
   decode_loop s (value `mod` 2 ^ 26 * 2 ^ 6 + v) bits) st.
Proof.
  intros Hv. destruct (decode_encode_char mode v Hv) as (H1&H2&H3).
  cbn [decode_loop]. rewrite decide_False, decide_False by done. cbv zeta. rewrite H3, decide_False by lia.
  by rewrite shift_in by lia.
Qed.

Lemma decode_four mode a b c s value w x0 x1 x2 rest :
  0 <= a < 256 -> 0 <= b < 256 -> 0 <= c < 256 ->
  exists value', decode_loop ((encode mode <$> [a / 4; a `mod` 4 * 16 + b / 16; b `mod` 16 * 4 + c / 64; c `mod` 64]) ++ s)
      value 0 (filled w (x0 :: x1 :: x2 :: rest)) =
    decode_loop s value' 0 (filled (w ++ [a; b; c]) rest).
Proof.
  intros Ha Hb Hc. eexists. cbn [fmap list_fmap app]. rewrite decode_char_step by euclid.
  set (v0 := _ * 2 ^ 6 + a / 4). erewrite run_bind by (apply decode_none; lia).
  rewrite decode_char_step by euclid. set (v1 := v0 `mod` _ * 2 ^ 6 + _).
  erewrite run_bind by (apply decode_one; lia). rewrite decode_char_step by euclid. set (v2 := v1 `mod` _ * 2 ^ 6 + _).
  erewrite run_bind by (apply decode_one; lia). rewrite decode_char_step by euclid. set (v3 := v2 `mod` _ * 2 ^ 6 + _).
  erewrite run_bind by (apply decode_one; lia). do 2 f_equal. rewrite <- !app_assoc. cbn [app].
  assert (E0 : (v1 / 2 ^ (0 + 6 + 6 - 8)) `mod` 2 ^ 8 = a) by (unfold v1, v0; euclid).
  assert (E1 : (v2 / 2 ^ (0 + 6 + 6 - 8 + 6 - 8)) `mod` 2 ^ 8 = b) by (unfold v2, v1; euclid).
  assert (E2 : (v3 / 2 ^ (0 + 6 + 6 - 8 + 6 - 8 + 6 - 8)) `mod` 2 ^ 8 = c) by (unfold v3, v2; euclid).
  rewrite E0, E1, E2. reflexivity.
Qed.

Lemma decode_run mode input : forall value w rest,
  is_bytes input -> (length input <= length rest)%nat ->
  exists rest', decode_loop (base64_text mode input) value 0 (filled w rest) = Ok 0 (filled (w ++ input) rest').
Proof.
  induction input as [i Hi|i i' Hi IH] using (chunk_ind 2); intros value w rest Hb Hr.
  - destruct i as [|a [|b [|c i]]]; simpl in Hi; try lia; unfold is_bytes in Hb; rewrite ?Forall_cons in Hb.
    + exists rest. simpl. by rewrite app_nil_r.
    + destruct rest as [|x0 rest]; simpl in Hr; [lia|]. exists rest. cbn [base64_text fmap list_fmap app].
      rewrite decode_char_step by euclid. set (v0 := _ * 2 ^ 6 + a / 4). erewrite run_bind by (apply decode_none; lia).
      rewrite decode_char_step by euclid. set (v1 := v0 `mod` _ * 2 ^ 6 + _).
      erewrite run_bind by (apply decode_one; lia). cbn [decode_loop]. rewrite decide_False, decide_True by done.
      close_group. do 4 f_equal. unfold v1, v0. euclid.
    + destruct rest as [|x0 [|x1 rest]]; simpl in Hr; try lia. exists rest. cbn [base64_text fmap list_fmap app].
      rewrite decode_char_step by euclid. set (v0 := _ * 2 ^ 6 + a / 4). erewrite run_bind by (apply decode_none; lia).
      rewrite decode_char_step by euclid. set (v1 := v0 `mod` _ * 2 ^ 6 + _).
      erewrite run_bind by (apply decode_one; lia). rewrite decode_char_step by euclid. set (v2 := v1 `mod` _ * 2 ^ 6 + _).
      erewrite run_bind by (apply decode_one; lia). cbn [decode_loop]. rewrite decide_False, decide_True by done.
      close_group. do 2 f_equal. rewrite <- app_assoc. cbn [app].
      assert (E0 : (v1 / 2 ^ (0 + 6 + 6 - 8)) `mod` 2 ^ 8 = a) by (unfold v1, v0; euclid).
      assert (E1 : (v2 / 2 ^ (0 + 6 + 6 - 8 + 6 - 8)) `mod` 2 ^ 8 = b) by (unfold v2, v1; euclid).
      by rewrite E0, E1.
  - destruct i as [|a [|b [|c [|d i]]]]; simpl in Hi; try lia. unfold is_bytes in Hb. cbn [app length] in *.
    rewrite !Forall_cons in Hb. destruct Hb as (Ha&Hb&Hc&Hb').
    destruct rest as [|x0 [|x1 [|x2 rest]]]; simpl in Hr; try lia. cbn [base64_text].
    destruct (decode_four mode a b c (base64_text mode i') value w x0 x1 x2 rest) as [value' ->]; [done..|].
    destruct (IH value' (w ++ [a; b; c]) rest Hb' ltac:(lia)) as [rest' ->]. exists rest'. by rewrite <- app_assoc.
Qed.
End Runs.

(** ** Specifications *)

Lemma filled_start (n : nat) : (replicate n 0, 0) = filled [] (replicate n 0).
Proof. done. Qed.

(** A loop on any input: each character brings six bits, each byte takes eight. *)
Lemma decode_safe input : forall value bits w rest,
  0 <= bits < 8 -> bits + 6 * zlen input <= 8 * zlen rest + 7 ->
  exists bits' w' rest', decode_loop input value bits (filled w rest) = Ok bits' (filled (w ++ w') rest') /\
    8 * zlen w' <= bits + 6 * zlen input /\ is_bytes w' /\ 0 <= bits' < 8.
Proof.
  unfold zlen. induction input as [|c input IH]; intros value bits w rest Hbits Hroom; cbn [length] in Hroom.
  { exists bits, [], rest. rewrite app_nil_r. split_and!; [done|simpl; lia|by constructor|lia|lia]. }
  assert (Hskip : forall value, exists bits' w' rest', decode_loop input value bits (filled w rest) = Ok bits' (filled (w ++ w') rest') /\
    8 * Z.of_nat (length w') <= bits + 6 * Z.of_nat (S (length input)) /\ is_bytes w' /\ 0 <= bits' < 8).
  { intros v. destruct (IH v bits w rest Hbits ltac:(lia)) as (b'&w'&r'&->&?&?&?).
    exists b', w', r'. split_and!; try done; lia. }
  cbn [decode_loop]. case_decide; [apply Hskip|]. case_decide.
  { exists 0, [], rest. rewrite app_nil_r. split_and!; [done|simpl; lia|by constructor|lia|lia]. }
  cbv zeta. case_decide; [apply Hskip|]. set (v := Z.lor _ _). clearbody v. clear Hskip.
  destruct (decide (bits + 6 < 8)).
  - erewrite run_bind by (apply decode_none; lia).
    destruct (IH v (bits + 6) w rest) as (b'&w'&r'&->&?&?&?); [lia..|].
    exists b', w', r'. split_and!; try done; cbn [length]; lia.
  - destruct rest as [|x rest]; cbn [length] in Hroom; [lia|].
    erewrite run_bind by (apply decode_one; lia). set (y := (v / _) `mod` _).
    destruct (IH v (bits + 6 - 8) (w ++ [y]) rest) as (b'&w'&r'&->&?&?&?); [lia..|].
    exists b', (y :: w'), r'. split_and!; [by rewrite <- app_assoc|cbn [length]; lia| |lia|lia].
    constructor; [|done]. unfold y. apply Z.mod_pos_bound. lia.
Qed.

(** Decoding is total and stays within its output: on any string at all,
    malformed ones included, [base64Decode] returns, writes no byte outside of
    the string it sized, and yields at most three bytes for four characters. *)
Lemma base64_decode_total (input : list Z) (mode : Base64EncodeMode) :
  exists ok output, base64Decode input mode = Ok ok output /\ 4 * zlen output <= 3 * zlen input /\ is_bytes output.
Proof.
  unfold base64Decode. rewrite filled_start.
  destruct (decode_safe input 0 0 [] (replicate (Z.to_nat ((zlen input + 3) / 4 * 3)) 0))
    as (bits&w'&rest'&->&Hlen&Hb&_); [lia|unfold zlen; rewrite length_replicate; euclid|].
  unfold filled. simpl app. unfold zlen in *. rewrite Nat2Z.id, take_app_length. eexists _, w'. split_and!; [done|lia|done].
Qed.

(** C34: Base64 round trip.  Every byte string is encoded, in either mode,
    filling exactly the [(n + 2) / 3 * 4] characters that the output was sized
    to (no write is out of range, none of them is left over), and the text
    decodes, in either mode, to the string, with the result true.  On any other
    string, malformed ones included, decoding also returns, writes nothing
    outside of the output it sized, and yields at most three bytes for four
    characters. *)
Theorem base64_roundtrip (input : list Z) (mode mode' : Base64EncodeMode) :
  is_bytes input ->
  exists text, base64Encode input mode = Ok true text /\ zlen text = (zlen input + 2) / 3 * 4 /\
    base64Decode text mode' = Ok true input /\
    forall s, exists ok output, base64Decode s mode' = Ok ok output /\ 4 * zlen output <= 3 * zlen s /\ is_bytes output.
Proof.
  intros Hb. exists (base64_text mode input). pose proof (length_base64_text mode input) as Hlen. unfold zlen in Hlen.
  split_and!; [|done| |intros s; apply base64_decode_total].
  - unfold base64Encode, encode_all. rewrite filled_start, encode_run; [|done|].
    + unfold filled. by rewrite app_nil_r.
    + rewrite length_replicate. unfold zlen. lia.
  - unfold base64Decode. rewrite filled_start.
    destruct (decode_run mode input 0 [] (replicate (Z.to_nat ((zlen (base64_text mode input) + 3) / 4 * 3)) 0)) as [rest' ->];
      [done|rewrite length_replicate; unfold zlen; euclid|].
    unfold filled, zlen. simpl. rewrite Nat2Z.id, take_app_length. done.
Qed.

Lemma base64_roundtrip_witness :
  exists text, base64Encode [77; 97; 110; 255] URI = Ok true text /\ zlen text = 8 /\
    base64Decode text COMMON = Ok true [77; 97; 110; 255].
Proof.
  destruct (base64_roundtrip [77; 97; 110; 255] URI COMMON) as (text & H1 & H2 & H3 & _); [|by exists text]. unfold is_bytes. rewrite !Forall_cons.
  split_and!; try lia. by apply Forall_nil.
Defined.
