(* ===== verification/ProducerConsumerQueue.v ===== *)
(** * ProducerConsumerQueue: a lock-free queue for two threads

    [src/accelerator/thread/ProducerConsumerQueue.h].  The queue is a ring of
    [size_] slots; the producer owns [writeIndex_], the consumer [readIndex_].
    Each operation is the sequence of its accesses to shared memory, and the
    steps of the two threads interleave.

    An atomic variable is the list of the values stored in it, newest last.
    Its owner loads the newest one (a relaxed load of one's own stores).  The
    other thread's acquire load may return an older value, but none older than
    one it has seen; it then sees all that preceded the release store of that
    value.  A slot holds a constructed object or nothing. *)

From stdpp Require Import base list.
From S2P Require Import Prelude.

Section Queue.
Context {T : Type}.

(** ** State *)

(** The program counter of the producer, in [write(v)]. *)
Inductive producer :=
  | PIdle
  | PLoaded (v : T) (currentWrite : Z)   (* [writeIndex_] loaded *)
  | PFree (v : T) (currentWrite : Z)     (* there is room *)
  | PBuilt (currentWrite : Z).           (* the record is constructed *)

(** The operations of the consumer. *)
Inductive consumer_op := Read | FrontPtr | PopFront.

Inductive consumer :=
  | CIdle
  | CLoaded (op : consumer_op) (currentRead : Z)   (* [readIndex_] loaded *)
  | CReady (op : consumer_op) (currentRead : Z)    (* there is a record *)
  | CTaken (op : consumer_op) (currentRead : Z).   (* the record is destroyed *)

Record ProducerConsumerQueue := mkQueue {
  size_ : Z;
  records_ : list (option T);
  readIndex_ : list Z;
  writeIndex_ : list Z;
  prod_pc : producer;
  cons_pc : consumer;
  prod_view : nat;      (* the newest value of [readIndex_] the producer has seen *)
  cons_view : nat;      (* the newest value of [writeIndex_] the consumer has seen *)
  front : option T;     (* what [frontPtr] last pointed at, none after a removal *)
  written : list T;     (* the values of the [write]s that returned true, in order *)
  taken : list T        (* the values removed by [read] and [popFront], in order *)
}.

Implicit Types (q : ProducerConsumerQueue) (v : T) (i : Z).

(** The constructor: two threads are about to use the queue. *)
Definition ProducerConsumerQueue_ctor (size : Z) : ProducerConsumerQueue :=
  mkQueue size (replicate (Z.to_nat size) None) [0] [0] PIdle CIdle 0 0 None [] [].

Definition newest (log : list Z) : Z := default 0 (last log).

(** [nextRecord]. *)
Definition next_record q i : Z := if decide (u32 (i + 1) = size_ q) then 0 else u32 (i + 1).

Definition slot q i : option T := default None (records_ q !! Z.to_nat i).

Definition with_prod q pc : ProducerConsumerQueue :=
  mkQueue (size_ q) (records_ q) (readIndex_ q) (writeIndex_ q) pc (cons_pc q) (prod_view q) (cons_view q)
          (front q) (written q) (taken q).

Definition with_cons q pc : ProducerConsumerQueue :=
  mkQueue (size_ q) (records_ q) (readIndex_ q) (writeIndex_ q) (prod_pc q) pc (prod_view q) (cons_view q)
          (front q) (written q) (taken q).

(** ** [write] *)

Definition write_load q v : ProducerConsumerQueue := with_prod q (PLoaded v (newest (writeIndex_ q))).

(** The acquire load of [readIndex_] returns its [n]-th value. *)
Definition write_check q v i (n : nat) : ProducerConsumerQueue :=
  let q := mkQueue (size_ q) (records_ q) (readIndex_ q) (writeIndex_ q) (prod_pc q) (cons_pc q) n (cons_view q)
                   (front q) (written q) (taken q) in
  if decide (next_record q i <> readIndex_ q !!! n) then with_prod q (PFree v i)
  else with_prod q PIdle.

Definition write_construct q v i : ProducerConsumerQueue :=
  mkQueue (size_ q) (<[Z.to_nat i := Some v]> (records_ q)) (readIndex_ q) (writeIndex_ q) (PBuilt i) (cons_pc q)
          (prod_view q) (cons_view q) (front q) (written q) (taken q).

Definition write_publish q i : ProducerConsumerQueue :=
  mkQueue (size_ q) (records_ q) (readIndex_ q) (writeIndex_ q ++ [next_record q i]) PIdle (cons_pc q)
          (prod_view q) (cons_view q) (front q) (written q ++ option_list (slot q i)) (taken q).

(** ** [read], [frontPtr] and [popFront] *)

Definition read_load q op : ProducerConsumerQueue := with_cons q (CLoaded op (newest (readIndex_ q))).

(** The acquire load of [writeIndex_]; an empty queue ends [read] and
    [frontPtr]. *)
Definition read_check q op i (n : nat) : ProducerConsumerQueue :=
  let q := mkQueue (size_ q) (records_ q) (readIndex_ q) (writeIndex_ q) (prod_pc q) (cons_pc q) (prod_view q) n
                   (front q) (written q) (taken q) in
  if decide (i = writeIndex_ q !!! n) then with_cons q CIdle else with_cons q (CReady op i).

(** [frontPtr] returns a pointer; [read] moves the record out, [popFront] does
    not, and both destroy it. *)
Definition read_access q op i : ProducerConsumerQueue :=
  match op with
  | FrontPtr =>
      mkQueue (size_ q) (records_ q) (readIndex_ q) (writeIndex_ q) (prod_pc q) CIdle (prod_view q) (cons_view q)
              (slot q i) (written q) (taken q)
  | Read | PopFront =>
      mkQueue (size_ q) (<[Z.to_nat i := None]> (records_ q)) (readIndex_ q) (writeIndex_ q) (prod_pc q) (CTaken op i)
              (prod_view q) (cons_view q) None (written q) (taken q ++ option_list (slot q i))
  end.

Definition read_publish q i : ProducerConsumerQueue :=
  mkQueue (size_ q) (records_ q) (readIndex_ q ++ [next_record q i]) (writeIndex_ q) (prod_pc q) CIdle
          (prod_view q) (cons_view q) (front q) (written q) (taken q).

(** ** Observers *)

Definition isEmpty q (n m : nat) : bool := bool_decide (readIndex_ q !!! n = writeIndex_ q !!! m).

Definition isFull q (n m : nat) : bool := bool_decide (next_record q (writeIndex_ q !!! m) = readIndex_ q !!! n).

(** [int ret]: the difference of two unsigned integers, converted. *)
Definition sizeGuess q (n m : nat) : Z :=
  let ret := sext 32 (u32 (writeIndex_ q !!! m - readIndex_ q !!! n)) in
  u64 (if decide (ret < 0) then sext 32 (u32 (ret + size_ q)) else ret).

Definition capacity q : Z := u32 (size_ q - 1).

(** ** Interleavings *)

Inductive step : ProducerConsumerQueue -> ProducerConsumerQueue -> Prop :=
  | step_write q v : prod_pc q = PIdle -> step q (write_load q v)
  | step_write_check q v i n :
      prod_pc q = PLoaded v i -> (prod_view q <= n < length (readIndex_ q))%nat -> step q (write_check q v i n)
  | step_write_construct q v i : prod_pc q = PFree v i -> step q (write_construct q v i)
  | step_write_publish q i : prod_pc q = PBuilt i -> step q (write_publish q i)
  | step_read q op : cons_pc q = CIdle -> (op = PopFront -> front q <> None) -> step q (read_load q op)
  | step_read_check q op i n :
      cons_pc q = CLoaded op i -> (cons_view q <= n < length (writeIndex_ q))%nat -> step q (read_check q op i n)
  | step_read_access q op i : cons_pc q = CReady op i -> step q (read_access q op i)
  | step_read_publish q op i : cons_pc q = CTaken op i -> step q (read_publish q i).

Inductive reachable (size : Z) : ProducerConsumerQueue -> Prop :=
  | reach_init : reachable size (ProducerConsumerQueue_ctor size)
  | reach_step q q' : reachable size q -> step q q' -> reachable size q'.

(** What must never be: an object constructed over another or outside of the
    array, an access to a slot without an object, and [popFront] of a queue
    that its assertion takes to be empty. *)
Definition goes_wrong q : Prop :=
  (exists v i, prod_pc q = PFree v i /\ (slot q i <> None \/ ~ 0 <= i < zlen (records_ q))) \/
  (exists op i, cons_pc q = CReady op i /\ slot q i = None) \/
  (exists i n, cons_pc q = CLoaded PopFront i /\ (cons_view q <= n < length (writeIndex_ q))%nat /\
    i = writeIndex_ q !!! n).

(** ** The destructor

    It runs alone.  The loop destroys the records from [readIndex_] up to
    [writeIndex_], then the array is freed. *)
Fixpoint destroy_loop q (fuel : nat) (readIndex : Z) : option ProducerConsumerQueue :=
  if decide (readIndex = newest (writeIndex_ q)) then Some q
  else
    match fuel, slot q readIndex with
    | S fuel, Some _ =>
        destroy_loop (mkQueue (size_ q) (<[Z.to_nat readIndex := None]> (records_ q)) (readIndex_ q) (writeIndex_ q)
                              (prod_pc q) (cons_pc q) (prod_view q) (cons_view q) (front q) (written q) (taken q))
                     fuel (next_record q readIndex)
    | _, _ => None
    end.

Definition ProducerConsumerQueue_dtor q : option ProducerConsumerQueue :=
  destroy_loop q (Z.to_nat (size_ q)) (newest (readIndex_ q)).
End Queue.
Arguments ProducerConsumerQueue : clear implicits.
Arguments producer : clear implicits.

#[global] Instance consumer_op_eq_dec : EqDecision consumer_op.
Proof. solve_decision. Defined.

(** * What ProducerConsumerQueue guarantees

    An invariant of all interleavings, by induction on the steps: the indices
    are the numbers of completed writes and reads modulo the size, each thread's
    view of the other's index is a lower bound of it, and the slots between the
    two hold the written values in order. *)

Section Invariant.
Context {T : Type} (size : Z) (Hsize : 2 <= size < 2 ^ 32).
Implicit Types (q : ProducerConsumerQueue T) (v : T) (k R W : nat).

(** ** The ring *)

Definition ring k : Z := Z.of_nat k `mod` size.

Definition log k : list Z := ring <$> seq 0 (S k).

Lemma ring_range k : 0 <= ring k < size.
Proof. apply Z.mod_pos_bound. lia. Qed.

Lemma ring_inj j k : (j <= k)%nat -> Z.of_nat k < Z.of_nat j + size -> ring j = ring k -> j = k.
Proof. unfold ring. intros Hjk Hlt E. apply Z.cong_iff_ex in E as [x Hx]. assert (x = 0) by nia. subst x. lia. Qed.

Lemma ring_next q k : size_ q = size -> next_record q (ring k) = ring (S k).
Proof.
  intros Hq. unfold next_record. pose proof (ring_range k). rewrite u32_small by lia. rewrite Hq.
  unfold ring in *. rewrite Nat2Z.inj_succ. case_decide as E.
  - apply Z.mod_unique with (q := Z.of_nat k / size + 1); [lia|]. pose proof (Z.div_mod (Z.of_nat k) size). lia.
  - apply Z.mod_unique with (q := Z.of_nat k / size); [lia|]. pose proof (Z.div_mod (Z.of_nat k) size). lia.
Qed.

Lemma log_lookup k (n : nat) : (n <= k)%nat -> log k !!! n = ring n.
Proof.
  intros Hn. rewrite list_lookup_total_alt. unfold log. rewrite list_lookup_fmap, lookup_seq_lt by lia. done.
Qed.

Lemma length_log k : length (log k) = S k.
Proof. unfold log. by rewrite length_fmap, length_seq. Qed.

Lemma newest_log k : newest (log k) = ring k.
Proof. unfold newest, log. rewrite seq_S, fmap_app, last_app. done. Qed.

Lemma log_S k : log (S k) = log k ++ [ring (S k)].
Proof. unfold log. by rewrite (seq_S (S k)), fmap_app. Qed.

(** ** The invariant *)

(** One when the consumer has destroyed a record whose removal is not yet
    published, and likewise for a record of the producer. *)
Definition unpublished_read q : nat := match cons_pc q with CTaken _ _ => 1 | _ => 0 end.
Definition unpublished_write q : nat := match prod_pc q with PBuilt _ => 1 | _ => 0 end.

Record queue_ok R W q : Prop := {
  ok_size : size_ q = size;
  ok_records : zlen (records_ q) = size;
  ok_read_log : readIndex_ q = log R;
  ok_write_log : writeIndex_ q = log W;
  ok_prod_view : (prod_view q <= R)%nat /\ Z.of_nat W < Z.of_nat (prod_view q) + size;
  ok_cons_view : (R <= cons_view q <= W)%nat;
  ok_written : length (written q) = W;
  ok_taken : taken q = take (R + unpublished_read q) (written q);
  ok_live : forall k, (R + unpublished_read q <= k < W)%nat -> slot q (ring k) = written q !! k;
  ok_built : unpublished_write q = 1%nat -> is_Some (slot q (ring W));
  ok_free : forall i, 0 <= i < size ->
    (forall k, (R + unpublished_read q <= k < W + unpublished_write q)%nat -> ring k <> i) -> slot q i = None;
  ok_prod : match prod_pc q with
    | PIdle => True
    | PLoaded _ i => i = ring W
    | PFree _ i | PBuilt i => i = ring W /\ Z.of_nat W + 1 < Z.of_nat (prod_view q) + size
    end;
  ok_cons : match cons_pc q with
    | CIdle => True
    | CLoaded op i => i = ring R /\ (op = PopFront -> front q <> None)
    | CReady _ i | CTaken _ i => i = ring R /\ (R < cons_view q)%nat
    end;
  ok_front : front q <> None -> (R < cons_view q)%nat /\ unpublished_read q = 0%nat /\ front q = written q !! R
}.

Lemma ctor_queue_ok : queue_ok 0 0 (ProducerConsumerQueue_ctor size).
Proof.
  split; simpl; try done; try lia.
  - unfold zlen. rewrite length_replicate. lia.
  - intros i Hi _. unfold slot. simpl. destruct (replicate _ None !! Z.to_nat i) as [o|] eqn:E; [|done].
    by apply lookup_replicate in E as [-> _].
Qed.

Lemma view_bound R W q : queue_ok R W q -> (R <= W)%nat /\ Z.of_nat W < Z.of_nat R + size.
Proof. intros Hq. destruct (ok_prod_view _ _ _ Hq), (ok_cons_view _ _ _ Hq). lia. Qed.
(** ** Each step keeps it *)

(** A slot after an assignment to one. *)
Lemma slot_assign q q' i j (o : option T) :
  zlen (records_ q) = size -> records_ q' = <[Z.to_nat i := o]> (records_ q) -> 0 <= i < size -> 0 <= j < size ->
  slot q' j = if decide (j = i) then o else slot q j.
Proof.
  intros Hl Hr Hi Hj. unfold slot, zlen in *. rewrite Hr. case_decide as E.
  - subst j. rewrite list_lookup_insert_eq; [done|]. lia.
  - rewrite list_lookup_insert_ne by lia. done.
Qed.

Lemma write_load_ok R W q v : queue_ok R W q -> prod_pc q = PIdle -> queue_ok R W (write_load q v).
Proof.
  intros Hq Hpc. destruct Hq. unfold unpublished_write in *. rewrite Hpc in *. split; try done.
  simpl. rewrite ok_write_log0. apply newest_log.
Qed.

Lemma write_check_ok R W q v i n :
  queue_ok R W q -> prod_pc q = PLoaded v i -> (prod_view q <= n < length (readIndex_ q))%nat ->
  queue_ok R W (write_check q v i n).
Proof.
  intros Hq Hpc Hn. destruct Hq. unfold unpublished_write in *. rewrite Hpc in *. subst i.
  rewrite ok_read_log0, length_log in Hn. unfold write_check. cbv zeta.
  rewrite ring_next by done. cbn [readIndex_]. rewrite ok_read_log0, log_lookup by lia.
  case_decide as E; (split; try done; cbn [prod_view with_prod prod_pc]; try lia).
  split; [done|]. destruct (decide (Z.of_nat W + 1 < Z.of_nat n + size)) as [|Hge]; [done|]. destruct E.
  unfold ring. rewrite Nat2Z.inj_succ. replace (Z.succ (Z.of_nat W)) with (Z.of_nat n + 1 * size) by lia.
  apply Z.mod_add. lia.
Qed.

Lemma prod_slot_free R W q i :
  queue_ok R W q -> (exists v, prod_pc q = PFree v i) -> slot q i = None /\ 0 <= i < size.
Proof.
  intros Hq [v Hpc]. pose proof (view_bound _ _ _ Hq). destruct Hq. unfold unpublished_write in *. rewrite Hpc in *.
  destruct ok_prod0 as [-> Hroom]. split; [|apply ring_range]. apply ok_free0; [apply ring_range|].
  intros k Hk E. apply ring_inj in E; lia.
Qed.

Lemma write_construct_ok R W q v i :
  queue_ok R W q -> prod_pc q = PFree v i -> queue_ok R W (write_construct q v i).
Proof.
  intros Hq Hpc. pose proof (view_bound _ _ _ Hq) as Hb. destruct (prod_slot_free R W q i Hq (ex_intro _ v Hpc)) as [_ Hi].
  destruct Hq. unfold unpublished_write in *. rewrite Hpc in *. destruct ok_prod0 as [-> Hroom].
  assert (Hslot : forall j, 0 <= j < size -> slot (write_construct q v (ring W)) j = if decide (j = ring W) then Some v else slot q j)
    by (intros j Hj; by apply slot_assign).
  split; try done; cbn [write_construct written records_ taken].
  - unfold zlen in *. by rewrite length_insert.
  - intros k Hk. rewrite Hslot by apply ring_range. rewrite decide_False; [by apply ok_live0|].
    change (unpublished_read (write_construct q v (ring W))) with (unpublished_read q) in Hk.
    intros E. apply ring_inj in E; lia.
  - intros _. rewrite Hslot by apply ring_range. by rewrite decide_True.
  - intros j Hj Hne. rewrite Hslot by done.
    change (unpublished_read (write_construct q v (ring W))) with (unpublished_read q) in Hne.
    rewrite decide_False.
    + apply ok_free0; [done|]. intros k Hk. apply Hne. simpl. lia.
    + intros ->. apply (Hne W); [|done]. unfold unpublished_read, unpublished_write. simpl.
      destruct ok_cons_view0. unfold unpublished_read in *. destruct (cons_pc q); lia.
Qed.

Lemma write_publish_ok R W q i :
  queue_ok R W q -> prod_pc q = PBuilt i -> queue_ok R (S W) (write_publish q i).
Proof.
  intros Hq Hpc. pose proof (view_bound _ _ _ Hq) as Hb. destruct Hq. unfold unpublished_write in *. rewrite Hpc in *.
  destruct ok_prod0 as [-> Hroom]. destruct (ok_built0 eq_refl) as [v Hv].
  assert (HuR : (R + unpublished_read q <= W)%nat).
  { unfold unpublished_read in *. destruct (cons_pc q); lia. }
  assert (Hw : written (write_publish q (ring W)) = written q ++ [v]) by (simpl; by rewrite Hv).
  split; try done; rewrite ?Hw; cbn [write_publish prod_view cons_view writeIndex_ unpublished_write prod_pc].
  - rewrite ring_next, ok_write_log0 by done. symmetry. apply log_S.
  - lia.
  - lia.
  - rewrite length_app, ok_written0. simpl. lia.
  - change (unpublished_read (write_publish q (ring W))) with (unpublished_read q).
    change (taken (write_publish q (ring W))) with (taken q). rewrite take_app_le by lia. done.
  - intros k Hk. change (unpublished_read (write_publish q (ring W))) with (unpublished_read q) in Hk.
    change (slot q (ring k) = (written q ++ [v]) !! k). destruct (decide (k = W)) as [->|].
    + rewrite lookup_app_r by lia. replace (W - length (written q))%nat with 0%nat by lia. done.
    + rewrite lookup_app_l by lia. apply ok_live0. lia.
  - change (unpublished_read (write_publish q (ring W))) with (unpublished_read q).
    intros j Hj Hne. change (slot q j = None). apply ok_free0; [done|]. intros k Hk. apply Hne. lia.
  - intros Hf. change (front (write_publish q (ring W))) with (front q) in *.
    destruct (ok_front0 Hf) as (H1&H2&H3). split_and!; [lia|done|]. rewrite lookup_app_l by lia. done.
Qed.

(** *** The consumer *)

Lemma read_load_ok R W q op :
  queue_ok R W q -> cons_pc q = CIdle -> (op = PopFront -> front q <> None) -> queue_ok R W (read_load q op).
Proof.
  intros Hq Hpc Hop. destruct Hq. unfold unpublished_read in *. rewrite Hpc in *. split; try done.
  simpl. rewrite ok_read_log0. split; [apply newest_log|done].
Qed.

Lemma read_check_ok R W q op i n :
  queue_ok R W q -> cons_pc q = CLoaded op i -> (cons_view q <= n < length (writeIndex_ q))%nat ->
  queue_ok R W (read_check q op i n).
Proof.
  intros Hq Hpc Hn. pose proof (view_bound _ _ _ Hq) as Hb. destruct Hq. unfold unpublished_read in *. rewrite Hpc in *.
  destruct ok_cons0 as [-> Hop]. rewrite ok_write_log0, length_log in Hn. unfold read_check. cbv zeta.
  cbn [writeIndex_]. rewrite ok_write_log0, log_lookup by lia.
  assert (Hfront : front q <> None -> (R < n)%nat /\ 0%nat = 0%nat /\ front q = written q !! R).
  { intros Hf. destruct (ok_front0 Hf) as (?&?&?). split_and!; [lia|done|done]. }
  case_decide as E; (split; try done; cbn [cons_view with_cons cons_pc]; try lia; try exact Hfront).
  split; [done|]. assert (R <> n) by congruence. lia.
Qed.

Lemma cons_slot_live R W q op i :
  queue_ok R W q -> cons_pc q = CReady op i -> i = ring R /\ slot q i = written q !! R /\ is_Some (written q !! R).
Proof.
  intros Hq Hpc. destruct Hq. unfold unpublished_read in *. rewrite Hpc in *. destruct ok_cons0 as [-> Hr].
  split_and!; [done|apply ok_live0; lia|]. apply lookup_lt_is_Some. lia.
Qed.

Lemma read_access_ok R W q op i : queue_ok R W q -> cons_pc q = CReady op i -> queue_ok R W (read_access q op i).
Proof.
  intros Hq Hpc. pose proof (view_bound _ _ _ Hq) as Hb.
  destruct (cons_slot_live R W q op i Hq Hpc) as (->&Hslot&[x Hx]).
  destruct Hq. unfold unpublished_read in *. rewrite Hpc in *. destruct ok_cons0 as [_ Hr].
  destruct (decide (op = FrontPtr)) as [->|Hop].
  { by split. }
  set (q' := mkQueue (size_ q) (<[Z.to_nat (ring R) := None]> (records_ q)) (readIndex_ q) (writeIndex_ q) (prod_pc q)
    (CTaken op (ring R)) (prod_view q) (cons_view q) None (written q) (taken q ++ option_list (slot q (ring R)))).
  replace (read_access q op (ring R)) with q' by (by destruct op).
  assert (Hslot' : forall j, 0 <= j < size -> slot q' j = if decide (j = ring R) then None else slot q j)
    by (intros j Hj; apply slot_assign; [done|done|apply ring_range|done]).
  split; try done; unfold unpublished_read; cbn [q' cons_pc records_ taken written].
  - unfold zlen in *. by rewrite length_insert.
  - rewrite Hslot, Hx, ok_taken0, Nat.add_0_r, Nat.add_1_r. simpl. symmetry. by apply take_S_r.
  - intros k Hk. rewrite Hslot' by apply ring_range. rewrite decide_False; [apply ok_live0; lia|].
    intros E. symmetry in E. apply ring_inj in E; lia.
  - intros Hu. specialize (ok_built0 Hu). rewrite Hslot' by apply ring_range. rewrite decide_False; [done|].
    unfold unpublished_write in Hu. change (prod_pc q') with (prod_pc q) in Hu.
    destruct (prod_pc q) eqn:Epc; try done. destruct ok_prod0 as [_ ?]. intros E. symmetry in E. apply ring_inj in E; lia.
  - intros j Hj Hne. rewrite Hslot' by done. case_decide as Ej; [done|]. apply ok_free0; [done|].
    intros k Hk. destruct (decide (k = R)) as [->|]; [by intros <-|]. apply Hne.
    change (unpublished_write q') with (unpublished_write q). lia.
Qed.

Lemma read_publish_ok R W q op i : queue_ok R W q -> cons_pc q = CTaken op i -> queue_ok (S R) W (read_publish q i).
Proof.
  intros Hq Hpc. pose proof (view_bound _ _ _ Hq) as Hb. destruct Hq. unfold unpublished_read in *. rewrite Hpc in *.
  destruct ok_cons0 as [-> Hr]. split; try done; unfold unpublished_read; cbn [read_publish cons_pc readIndex_ cons_view prod_view].
  - rewrite ring_next, ok_read_log0 by done. symmetry. apply log_S.
  - lia.
  - lia.
  - change (taken (read_publish q (ring R))) with (taken q). rewrite ok_taken0. f_equal. lia.
  - intros k Hk. apply ok_live0. lia.
  - intros j Hj Hne. apply ok_free0; [done|]. intros k Hk. apply Hne. change (unpublished_write (read_publish q (ring R))) with (unpublished_write q). lia.
  - intros Hf. destruct (ok_front0 Hf) as (_&?&_). done.
Qed.

Lemma step_ok R W q q' : queue_ok R W q -> step q q' -> exists R' W', queue_ok R' W' q'.
Proof.
  intros Hq Hs. destruct Hs.
  - exists R, W. by apply write_load_ok.
  - exists R, W. by apply write_check_ok.
  - exists R, W. by apply write_construct_ok.
  - exists R, (S W). by apply write_publish_ok.
  - exists R, W. by apply read_load_ok.
  - exists R, W. by apply read_check_ok.
  - exists R, W. by apply read_access_ok.
  - exists (S R), W. by eapply read_publish_ok.
Qed.

Lemma reachable_ok q : reachable size q -> exists R W, queue_ok R W q.
Proof.
  induction 1 as [|q q' _ (R&W&Hq) Hs]; [exists 0%nat, 0%nat; apply ctor_queue_ok|]. by apply (step_ok R W q).
Qed.
(** ** Consequences *)

Lemma never_wrong R W q : queue_ok R W q -> ~ goes_wrong q.
Proof.
  intros Hq. pose proof (view_bound _ _ _ Hq) as Hb. intros [(v&i&Hpc&Hbad)|[(op&i&Hpc&Hbad)|(i&n&Hpc&Hn&Hbad)]].
  - destruct (prod_slot_free R W q i Hq (ex_intro _ v Hpc)) as [H1 H2]. rewrite (ok_records _ _ _ Hq) in Hbad.
    destruct Hbad; [congruence|lia].
  - destruct (cons_slot_live R W q op i Hq Hpc) as (_&H1&[x Hx]). congruence.
  - destruct Hq. rewrite Hpc in *. destruct ok_cons0 as [-> Hop]. destruct (ok_front0 (Hop eq_refl)) as (HR&_&_).
    rewrite ok_write_log0, length_log in Hn. rewrite ok_write_log0, log_lookup in Hbad by lia.
    apply ring_inj in Hbad; lia.
Qed.

Lemma ring_distance R W : (R <= W)%nat -> Z.of_nat W < Z.of_nat R + size ->
  ring W - ring R = Z.of_nat W - Z.of_nat R \/ ring W - ring R = Z.of_nat W - Z.of_nat R - size.
Proof.
  intros H1 H2. unfold ring. pose proof (Z.div_mod (Z.of_nat W) size ltac:(lia)) as EW.
  pose proof (Z.div_mod (Z.of_nat R) size ltac:(lia)) as ER.
  pose proof (Z.mod_pos_bound (Z.of_nat W) size ltac:(lia)). pose proof (Z.mod_pos_bound (Z.of_nat R) size ltac:(lia)).
  set (a := Z.of_nat W / size) in *. set (b := Z.of_nat R / size) in *.
  assert (Hab : a = b \/ a = b + 1) by nia. destruct Hab as [-> | ->]; lia.
Qed.

Lemma sext32_small x : 0 <= x < 2 ^ 31 -> sext 32 x = x.
Proof. intros Hx. unfold sext. rewrite (wrap_small 32) by (unfold fits; lia). rewrite decide_True; [done|]. simpl. lia. Qed.

Lemma sizeGuess_ok R W q :
  queue_ok R W q -> size <= 2 ^ 31 -> sizeGuess q R W = Z.of_nat W - Z.of_nat R.
Proof.
  intros Hq Hs. pose proof (view_bound _ _ _ Hq) as [H1 H2]. destruct (ring_distance R W H1 H2) as [E|E];
    pose proof (ring_range R); pose proof (ring_range W); destruct Hq; unfold sizeGuess;
    rewrite ok_read_log0, ok_write_log0, !log_lookup by lia; rewrite ok_size0.
  - rewrite (u32_small (ring W - ring R)) by lia. rewrite sext32_small by lia.
    rewrite decide_False by lia. rewrite u64_small; lia.
  - assert (Hneg : sext 32 (u32 (ring W - ring R)) = ring W - ring R).
    { unfold sext. rewrite wrap_idemp by lia. unfold wrap.
      assert (Em : (ring W - ring R) `mod` 2 ^ 32 = ring W - ring R + 2 ^ 32)
        by (symmetry; apply Z.mod_unique with (q := -1); lia).
      rewrite Em, decide_False; lia. }
    rewrite Hneg, decide_True by lia. rewrite (u32_small (ring W - ring R + size)) by lia.
    rewrite sext32_small by lia. rewrite u64_small; lia.
Qed.

(** The destructor, from any state between operations: [k] records are left. *)
Lemma destroy_ok (k : nat) : forall R W q (fuel : nat),
  size_ q = size -> zlen (records_ q) = size -> newest (writeIndex_ q) = ring W ->
  (W = R + k)%nat -> (k <= fuel)%nat -> Z.of_nat k < size ->
  (forall j, (R <= j < W)%nat -> is_Some (slot q (ring j))) ->
  (forall i, 0 <= i < size -> (forall j, (R <= j < W)%nat -> ring j <> i) -> slot q i = None) ->
  exists q', destroy_loop q fuel (ring R) = Some q' /\ zlen (records_ q') = size /\ forall i, 0 <= i < size -> slot q' i = None.
Proof.
  induction k as [|k IH]; intros R W q fuel Hs Hl Hn HW Hf Hk Hlive Hfree.
  - assert (W = R) as -> by lia. exists q. destruct fuel; simpl; rewrite Hn, decide_True by done;
      (split_and!; [done|done|]; intros i Hi; apply Hfree; [done|lia]).
  - destruct fuel as [|fuel]; [lia|]. cbn [destroy_loop]. rewrite Hn.
    rewrite decide_False by (intros E; apply ring_inj in E; lia).
    destruct (Hlive R ltac:(lia)) as [x Hx]. rewrite Hx. rewrite ring_next by done.
    set (q1 := mkQueue _ _ _ _ _ _ _ _ _ _ _).
    assert (Hslot : forall j, 0 <= j < size -> slot q1 j = if decide (j = ring R) then None else slot q j)
      by (intros j Hj; apply slot_assign; [done|done|apply ring_range|done]).
    apply (IH (S R) W); try done; try lia.
    + unfold zlen in *. simpl. by rewrite length_insert.
    + intros j Hj. rewrite Hslot by apply ring_range. rewrite decide_False; [apply Hlive; lia|].
      intros E. symmetry in E. apply ring_inj in E; lia.
    + intros i Hi Hne. rewrite Hslot by done. case_decide; [done|]. apply Hfree; [done|].
      intros j Hj. destruct (decide (j = R)) as [->|]; [by intros <-|]. apply Hne. lia.
Qed.
End Invariant.

(** ** Specifications *)

(** C26: the queue is a FIFO without races.  In every state that one producer
    and one consumer can reach, however their steps interleave and however stale
    the index of the other thread is that an acquire load returns, the values
    taken ([read] and [popFront]) are a prefix of the values written, in order,
    fewer than [size] values are in between, no object is ever constructed over
    a live one or outside of the array, no slot is read before it is constructed
    or after it is destroyed, and the assertion of [popFront] holds after a
    successful [frontPtr], which points at the next value to be taken. *)
Theorem spsc_fifo {T : Type} (size : Z) (q : ProducerConsumerQueue T) :
  2 <= size < 2 ^ 32 -> reachable size q ->
  taken q `prefix_of` written q /\ zlen (written q) - zlen (taken q) <= capacity q /\ ~ goes_wrong q /\
  (front q <> None -> front q = written q !! length (taken q)).
Proof.
  intros Hs Hr. destruct (reachable_ok size Hs q Hr) as (R&W&Hq). pose proof (view_bound size R W q Hq) as Hb.
  assert (Hu : (R + unpublished_read q <= W)%nat).
  { destruct Hq. unfold unpublished_read in *. destruct (cons_pc q); lia. }
  pose proof (never_wrong size Hs R W q Hq) as Hw. destruct Hq.
  assert (Hlt : length (taken q) = (R + unpublished_read q)%nat) by (rewrite ok_taken0, length_take; lia).
  split_and!; [rewrite ok_taken0; apply prefix_take| |done|].
  - unfold capacity, zlen. rewrite ok_size0, u32_small, Hlt, ok_written0 by lia. lia.
  - intros Hf. destruct (ok_front0 Hf) as (_&Hu0&->). rewrite Hlt, Hu0, Nat.add_0_r. done.
Qed.

(** A run of three writes, of which the consumer, seeing only the first, takes
    one. *)
Definition demo_ring : ProducerConsumerQueue Z :=
  let write q v := write_publish (write_construct (write_check (write_load q v) v (newest (writeIndex_ q)) 0) v
                                                  (newest (writeIndex_ q))) (newest (writeIndex_ q)) in
  let q := write (write (write (ProducerConsumerQueue_ctor 4) 10) 20) 30 in
  read_publish (read_access (read_check (read_load q Read) Read 0 1) Read 0) 0.

Lemma demo_queue_reachable : reachable 4 demo_ring.
Proof.
  unfold demo_ring. cbv zeta.
  repeat (eapply reach_step; [|
    first [ eapply step_read_publish; reflexivity | eapply step_read_access; reflexivity
          | eapply step_read_check; [reflexivity|simpl; lia] | eapply step_read; [reflexivity|discriminate]
          | eapply step_write_publish; reflexivity | eapply step_write_construct; reflexivity
          | eapply step_write_check; [reflexivity|simpl; lia] | eapply step_write; reflexivity ]]).
  apply reach_init.
Defined.

Lemma spsc_fifo_witness : taken demo_ring `prefix_of` written demo_ring /\ written demo_ring = [10; 20; 30].
Proof.
  split; [|vm_compute; reflexivity].
  apply (spsc_fifo 4 demo_ring); [lia|exact demo_queue_reachable].
Defined.

(** Between operations, [sizeGuess] on the newest indices is the exact
    number of records (for a queue of at most 2^31 slots, so that the difference
    fits an [int]), [isEmpty] and [isFull] tell when it is zero and when it is
    [capacity()], and the destructor destroys exactly the records that are left:
    it terminates, touches only constructed slots and leaves none behind. *)
Lemma spsc_observers_destructor {T : Type} (size : Z) (q : ProducerConsumerQueue T) :
  2 <= size <= 2 ^ 31 -> reachable size q -> prod_pc q = PIdle -> cons_pc q = CIdle ->
  let r := length (taken q) in
  let w := length (written q) in
  sizeGuess q r w = Z.of_nat w - Z.of_nat r /\
  (isEmpty q r w = true <-> w = r) /\ (isFull q r w = true <-> Z.of_nat w - Z.of_nat r = capacity q) /\
  (exists q', ProducerConsumerQueue_dtor q = Some q' /\ Forall (.= None) (records_ q')).
Proof.
  intros Hs Hr Hp Hc r w. assert (Hs' : 2 <= size < 2 ^ 32) by lia.
  destruct (reachable_ok size Hs' q Hr) as (R&W&Hq). pose proof (view_bound size R W q Hq) as [HRW Hlt].
  pose proof (sizeGuess_ok size Hs' R W q Hq ltac:(lia)) as Hguess. destruct Hq.
  unfold unpublished_read, unpublished_write in *. rewrite Hp, Hc in *. rewrite Nat.add_0_r in *.
  assert (Er : r = R) by (unfold r; rewrite ok_taken0, length_take; lia). assert (Ew : w = W) by done.
  rewrite Er, Ew in *. clear Er Ew r w. split_and!; [done|..].
  - unfold isEmpty. rewrite bool_decide_eq_true, ok_read_log0, ok_write_log0, !log_lookup by lia. split; [|by intros ->].
    intros E. apply ring_inj in E; lia.
  - unfold isFull, capacity. rewrite bool_decide_eq_true, ok_read_log0, ok_write_log0, !log_lookup by lia.
    rewrite ring_next, ok_size0, u32_small by (done || lia). split.
    + intros E. destruct (decide (Z.of_nat W + 1 < Z.of_nat R + size)); [|lia].
      symmetry in E. apply ring_inj in E; lia.
    + intros E. unfold ring. rewrite Nat2Z.inj_succ. replace (Z.succ (Z.of_nat W)) with (Z.of_nat R + 1 * size) by lia.
      apply Z.mod_add. lia.
  - unfold ProducerConsumerQueue_dtor. rewrite ok_read_log0, newest_log, ok_size0.
    destruct (destroy_ok size Hs' (W - R) R W q (Z.to_nat size)) as (q'&->&Hl&Hnone); try done; try lia.
    + rewrite ok_write_log0. apply newest_log.
    + intros j Hj. rewrite ok_live0 by lia. apply lookup_lt_is_Some. lia.
    + intros i Hi Hne. apply ok_free0; [done|]. intros k Hk. apply Hne. lia.
    + exists q'. split; [done|]. apply Forall_lookup. intros i o Hi.
      assert (Hlen : (i < length (records_ q'))%nat) by (by apply lookup_lt_Some with o).
      unfold zlen in Hl. specialize (Hnone (Z.of_nat i) ltac:(lia)). unfold slot in Hnone.
      rewrite Nat2Z.id, Hi in Hnone. done.
Qed.

Lemma spsc_observers_destructor_witness :
  sizeGuess demo_ring 1 3 = 2 /\ exists q', ProducerConsumerQueue_dtor demo_ring = Some q' /\ Forall (.= None) (records_ q').
Proof.
  destruct (spsc_observers_destructor 4 demo_ring) as (H1&_&_&H2);
    [lia|exact demo_queue_reachable|reflexivity|reflexivity|]. split; [exact H1|exact H2].
Defined.
