(* ===== verification/RWSpinLock.v ===== *)
(** * RWSpinLock: a reader-writer lock in one word

    [src/accelerator/thread/RWSpinLock.h].  The lock is an atomic 32-bit integer
    that counts the readers above two flags.  Each method is the sequence of its
    atomic operations, and the steps of any number of threads interleave; a
    method that spins is the repetition of its [try_] method.

    The holders (RAII) are modelled by the calls they make on their locks. *)

From stdpp Require Import base list gmap.
From S2P Require Import Prelude.

(** ** Atomic operations *)

Definition READER : Z := 4.
Definition UPGRADED : Z := 2.
Definition WRITER : Z := 1.

(** Each returns the new value of [bits_] and the result of the method. *)

Definition fetch_add (bits x : Z) : Z := u32 (bits + x).

Definition try_lock (bits : Z) : Z * bool := if decide (bits = 0) then (WRITER, true) else (bits, false).

Definition unlock (bits : Z) : Z := Z.ldiff bits (Z.lor WRITER UPGRADED).

(** The two steps of [try_lock_shared]: the second undoes a failed first one. *)
Definition try_lock_shared (bits : Z) : Z * bool :=
  (fetch_add bits READER, bool_decide (Z.land bits (Z.lor WRITER UPGRADED) = 0)).
Definition try_lock_shared_undo (bits : Z) : Z := fetch_add bits (- READER).

Definition unlock_shared (bits : Z) : Z := fetch_add bits (- READER).

(** [unlock_and_lock_shared] counts a reader, then calls [unlock]. *)
Definition unlock_and_lock_shared_1 (bits : Z) : Z := fetch_add bits READER.
Definition unlock_and_lock_shared_2 (bits : Z) : Z := unlock bits.

Definition try_lock_upgrade (bits : Z) : Z * bool :=
  (Z.lor bits UPGRADED, bool_decide (Z.land bits (Z.lor UPGRADED WRITER) = 0)).

Definition unlock_upgrade (bits : Z) : Z := fetch_add bits (- UPGRADED).

Definition try_unlock_upgrade_and_lock (bits : Z) : Z * bool :=
  if decide (bits = UPGRADED) then (WRITER, true) else (bits, false).

Definition unlock_upgrade_and_lock_shared (bits : Z) : Z := fetch_add bits (READER - UPGRADED).

(** [unlock_and_lock_upgrade] takes two steps. *)
Definition unlock_and_lock_upgrade_1 (bits : Z) : Z := Z.lor bits UPGRADED.
Definition unlock_and_lock_upgrade_2 (bits : Z) : Z := fetch_add bits (- WRITER).

(** ** Threads *)

Inductive phase :=
  | Free
  | Shared               (* holds the lock for reading *)
  | Upgrade              (* holds the upgrade lock *)
  | Exclusive            (* holds the lock for writing *)
  | BackingOff           (* counted by a failed [try_lock_shared] *)
  | ToShared             (* within [unlock_and_lock_shared] *)
  | ToUpgrade.           (* within [unlock_and_lock_upgrade] *)

#[global] Instance phase_eq_dec : EqDecision phase.
Proof. solve_decision. Defined.

Record RWSpinLock := mkLock { bits_ : Z; threads : list phase }.

Definition RWSpinLock_ctor (n : nat) : RWSpinLock := mkLock 0 (replicate n Free).

(** A step of one thread: from its phase and [bits_] to the next ones. *)
Inductive action : phase -> Z -> phase -> Z -> Prop :=
  | do_try_lock b : action Free b (if (try_lock b).2 then Exclusive else Free) (try_lock b).1
  | do_unlock b : action Exclusive b Free (unlock b)
  | do_try_lock_shared b :
      action Free b (if (try_lock_shared b).2 then Shared else BackingOff) (try_lock_shared b).1
  | do_try_lock_shared_undo b : action BackingOff b Free (try_lock_shared_undo b)
  | do_unlock_shared b : action Shared b Free (unlock_shared b)
  | do_unlock_and_lock_shared_1 b : action Exclusive b ToShared (unlock_and_lock_shared_1 b)
  | do_unlock_and_lock_shared_2 b : action ToShared b Shared (unlock_and_lock_shared_2 b)
  | do_try_lock_upgrade b : action Free b (if (try_lock_upgrade b).2 then Upgrade else Free) (try_lock_upgrade b).1
  | do_unlock_upgrade b : action Upgrade b Free (unlock_upgrade b)
  | do_try_unlock_upgrade_and_lock b :
      action Upgrade b (if (try_unlock_upgrade_and_lock b).2 then Exclusive else Upgrade)
             (try_unlock_upgrade_and_lock b).1
  | do_unlock_upgrade_and_lock_shared b : action Upgrade b Shared (unlock_upgrade_and_lock_shared b)
  | do_unlock_and_lock_upgrade_1 b : action Exclusive b ToUpgrade (unlock_and_lock_upgrade_1 b)
  | do_unlock_and_lock_upgrade_2 b : action ToUpgrade b Upgrade (unlock_and_lock_upgrade_2 b).

Inductive lock_step : RWSpinLock -> RWSpinLock -> Prop :=
  | lock_step_thread l i p p' b' :
      threads l !! i = Some p -> action p (bits_ l) p' b' ->
      lock_step l (mkLock b' (<[i := p']> (threads l))).

Inductive lock_reachable (n : nat) : RWSpinLock -> Prop :=
  | lock_reach_init : lock_reachable n (RWSpinLock_ctor n)
  | lock_reach_step l l' : lock_reachable n l -> lock_step l l' -> lock_reachable n l'.

(** ** Holders *)

Inductive holder_kind := ReadHolder | UpgradedHolder | WriteHolder.

#[global] Instance holder_kind_eq_dec : EqDecision holder_kind.
Proof. solve_decision. Defined.

(** The methods of a lock that holders call. *)
Inductive call :=
  | CLock (k : holder_kind)           (* [lock_shared], [lock_upgrade], [lock] *)
  | CUnlock (k : holder_kind)         (* [unlock_shared], [unlock_upgrade], [unlock] *)
  | CConvert (k k' : holder_kind).    (* [unlock_upgrade_and_lock_shared] and the like *)

(** A holder: its class and [lock_] (an address, zero for null). *)
Record holder := mkHolder { kind : holder_kind; lock_ : Z }.

(** The live holders and the calls made so far, newest first. *)
Record holders := mkHolders { live : gmap Z holder; calls : list (Z * call) }.

Definition call_on (lock : Z) (c : call) (h : holders) : holders :=
  if decide (lock = 0) then h else mkHolders (live h) ((lock, c) :: calls h).

Definition put_holder (x : Z) (v : holder) (h : holders) : holders := mkHolders (<[x := v]> (live h)) (calls h).

(** Construct holder [x] of class [k] on a lock. *)
Definition holder_ctor (x : Z) (k : holder_kind) (lock : Z) (h : holders) : holders :=
  call_on lock (CLock k) (put_holder x (mkHolder k lock) h).

(** The move constructor, and the constructors that convert: a reader from an
    upgraded holder or a writer, an upgraded holder from a writer, a writer from
    an upgraded holder. *)
Definition can_convert (k k' : holder_kind) : bool :=
  match k, k' with
  | UpgradedHolder, ReadHolder | WriteHolder, ReadHolder | WriteHolder, UpgradedHolder | UpgradedHolder, WriteHolder => true
  | _, _ => false
  end.

Definition holder_move (x y : Z) (k' : holder_kind) (h : holders) : option holders :=
  v ← live h !! y;
  if decide (kind v = k') then Some (put_holder x v (put_holder y (mkHolder (kind v) 0) h))
  else if can_convert (kind v) k' then
    Some (call_on (lock_ v) (CConvert (kind v) k') (put_holder x (mkHolder k' (lock_ v)) (put_holder y (mkHolder (kind v) 0) h)))
  else None.

(** Move assignment swaps, as [swap] does. *)
Definition holder_swap (x y : Z) (h : holders) : option holders :=
  v ← live h !! x; v' ← live h !! y;
  if decide (kind v = kind v') then Some (put_holder y v (put_holder x v' h)) else None.

Definition holder_reset (x lock : Z) (h : holders) : option holders :=
  v ← live h !! x;
  if decide (lock = lock_ v) then Some h
  else Some (call_on lock (CLock (kind v)) (put_holder x (mkHolder (kind v) lock) (call_on (lock_ v) (CUnlock (kind v)) h))).

Definition holder_dtor (x : Z) (h : holders) : option holders :=
  v ← live h !! x;
  Some (call_on (lock_ v) (CUnlock (kind v)) (mkHolders (delete x (live h)) (calls h))).

Inductive holder_op :=
  | HConstruct (x : Z) (k : holder_kind) (lock : Z)
  | HMove (x y : Z) (k' : holder_kind)
  | HSwap (x y : Z)
  | HReset (x lock : Z)
  | HDestroy (x : Z).

(** New holders are new objects; none when the program is not well typed. *)
Definition holder_run (o : holder_op) (h : holders) : option holders :=
  match o with
  | HConstruct x k lock => if decide (live h !! x = None) then Some (holder_ctor x k lock h) else None
  | HMove x y k' => if decide (live h !! x = None) then holder_move x y k' h else None
  | HSwap x y => holder_swap x y h
  | HReset x lock => holder_reset x lock h
  | HDestroy x => holder_dtor x h
  end.

Fixpoint holder_runs (os : list holder_op) (h : holders) : option holders :=
  match os with [] => Some h | o :: os => h' ← holder_run o h; holder_runs os h' end.

(** The balance of a mode on a lock: acquisitions less releases. *)
Definition call_balance (k : holder_kind) (c : call) : Z :=
  match c with
  | CLock k' => if decide (k = k') then 1 else 0
  | CUnlock k' => if decide (k = k') then -1 else 0
  | CConvert k1 k2 => (if decide (k = k2) then 1 else 0) - (if decide (k = k1) then 1 else 0)
  end.

Definition balance (lock : Z) (k : holder_kind) (cs : list (Z * call)) : Z :=
  foldr (fun '(l, c) acc => (if decide (l = lock) then call_balance k c else 0) + acc) 0 cs.

#[global] Instance holder_eq_dec : EqDecision holder.
Proof. solve_decision. Defined.

(** The live holders of a class on a lock. *)
Definition held (lock : Z) (k : holder_kind) (m : gmap Z holder) : Z :=
  Z.of_nat (size (filter (fun e => e.2 = mkHolder k lock) m)).

(** * What RWSpinLock guarantees

    The word counts the threads in each phase, in all interleavings; and the
    holders make balanced calls. *)

(** ** The word as a sum *)

Section Word.
Implicit Types (r u w : Z).

Lemma flags_mod r u w : 0 <= u <= 1 -> 0 <= w <= 1 -> (4 * r + 2 * u + w) `mod` 4 = 2 * u + w.
Proof. intros. symmetry. apply Z.mod_unique with (q := r); lia. Qed.

Lemma flags_test r u w :
  0 <= u <= 1 -> 0 <= w <= 1 -> Z.land (4 * r + 2 * u + w) 3 = 0 <-> u = 0 /\ w = 0.
Proof. intros. change 3 with (2 ^ 2 - 1). rewrite land_low by lia. change (2 ^ 2) with 4. rewrite flags_mod by lia. lia. Qed.

Lemma flags_clear r u w : 0 <= u <= 1 -> 0 <= w <= 1 -> Z.ldiff (4 * r + 2 * u + w) 3 = 4 * r.
Proof.
  intros. change 3 with (Z.ones 2). rewrite Z.ldiff_ones_r, Z.shiftl_mul_pow2, Z.shiftr_div_pow2 by lia.
  change (2 ^ 2) with 4. pose proof (flags_mod r u w). pose proof (Z.div_mod (4 * r + 2 * u + w) 4). lia.
Qed.

Lemma flags_set_upgraded r u w :
  0 <= u <= 1 -> 0 <= w <= 1 -> Z.lor (4 * r + 2 * u + w) 2 = 4 * r + 2 + w.
Proof.
  intros Hu Hw. replace (4 * r + 2 * u + w) with (r * 2 ^ 2 + (2 * u + w)) by lia.
  rewrite <- lor_low, <- Z.lor_assoc by lia.
  assert (E : Z.lor (2 * u + w) 2 = 2 + w).
  { assert (Hu' : u = 0 \/ u = 1) by lia. assert (Hw' : w = 0 \/ w = 1) by lia.
    destruct Hu' as [-> | ->], Hw' as [-> | ->]; reflexivity. }
  rewrite E, lor_low by lia. lia.
Qed.
End Word.

(** ** Counting threads *)

Definition count (p : phase) (ts : list phase) : Z := zlen (filter (.= p) ts).

Definition same_phase (p q : phase) : bool :=
  match p, q with
  | Free, Free | Shared, Shared | Upgrade, Upgrade | Exclusive, Exclusive | BackingOff, BackingOff
  | ToShared, ToShared | ToUpgrade, ToUpgrade => true
  | _, _ => false
  end.

Definition indicator (p q : phase) : Z := if same_phase p q then 1 else 0.

Lemma indicator_decide p q : indicator p q = if decide (p = q) then 1 else 0.
Proof. by destruct p, q. Qed.

Lemma count_app p ts ts' : count p (ts ++ ts') = count p ts + count p ts'.
Proof. unfold count, zlen. rewrite filter_app, length_app. lia. Qed.

Lemma count_cons p q ts : count p (q :: ts) = indicator q p + count p ts.
Proof.
  rewrite indicator_decide. unfold count, zlen. case_decide as E.
  - rewrite filter_cons_True by done. simpl. lia.
  - rewrite filter_cons_False by done. lia.
Qed.

Lemma count_insert p ts i q q' :
  ts !! i = Some q -> count p (<[i := q']> ts) = count p ts - indicator q p + indicator q' p.
Proof.
  intros Hi. pose proof (lookup_lt_Some _ _ _ Hi). rewrite insert_take_drop by done.
  rewrite <- (take_drop_middle ts i q Hi) at 3. rewrite !count_app, !count_cons. lia.
Qed.

Lemma count_nonneg p ts : 0 <= count p ts.
Proof. unfold count, zlen. lia. Qed.

Lemma count_total ts :
  count Free ts + count Shared ts + count Upgrade ts + count Exclusive ts + count BackingOff ts + count ToShared ts +
  count ToUpgrade ts = zlen ts.
Proof. unfold zlen. induction ts as [|p ts IH]; [done|]. rewrite !count_cons. simpl length. destruct p; unfold indicator; simpl; lia. Qed.

Lemma count_pos p ts i : ts !! i = Some p -> 0 < count p ts.
Proof.
  intros Hi. rewrite <- (take_drop_middle ts i p Hi), count_app, count_cons.
  pose proof (count_nonneg p (take i ts)). pose proof (count_nonneg p (drop (S i) ts)).
  rewrite indicator_decide, decide_True by done. lia.
Qed.

(** ** The invariant *)

Section Counts.
Implicit Types (c : phase -> Z).

Definition readers c : Z := c Shared + c BackingOff + c ToShared.
Definition writers c : Z := c Exclusive + c ToShared + c ToUpgrade.

(** The word [b] and the numbers [c] of threads in each phase. *)
Definition counts_ok c (b : Z) : Prop :=
  exists u, b = 4 * readers c + 2 * u + writers c /\ 0 <= u <= 1 /\ writers c + c Upgrade <= 1 /\
    (writers c = 1 -> c Shared = 0) /\ (writers c = 0 -> u = c Upgrade) /\ (c ToUpgrade = 1 -> u = 1).

Definition moved c (p p' q : phase) : Z := c q - indicator p q + indicator p' q.

Definition plausible c : Prop :=
  (forall q, 0 <= c q) /\
  c Free + c Shared + c Upgrade + c Exclusive + c BackingOff + c ToShared + c ToUpgrade < 2 ^ 29.

(** The case of an action, with the flag for upgrades after it. *)
Ltac count_case u' :=
  exists u'; unfold readers, writers, moved, indicator in *; cbn [same_phase] in *; split_and!; lia.

Lemma action_ok c p b p' b' :
  plausible c -> 0 < c p -> counts_ok c b -> action p b p' b' -> counts_ok (moved c p p') b'.
Proof.
  intros [Hpos Htot] Hp (u&Hb&Hu&H1&H2&H3&H4) Ha.
  pose proof (Hpos Free). pose proof (Hpos Shared). pose proof (Hpos Upgrade). pose proof (Hpos Exclusive).
  pose proof (Hpos BackingOff). pose proof (Hpos ToShared). pose proof (Hpos ToUpgrade). clear Hpos.
  assert (Hw : 0 <= writers c <= 1) by (unfold writers in *; lia).
  pose proof (flags_test (readers c) u (writers c) Hu Hw) as Htest.
  pose proof (flags_clear (readers c) u (writers c) Hu Hw) as Hclear.
  pose proof (flags_set_upgraded (readers c) u (writers c) Hu Hw) as Hset.
  rewrite <- Hb in Htest, Hclear, Hset.
  unfold readers, writers in *.
  destruct Ha; unfold try_lock, try_lock_shared, try_lock_shared_undo, unlock_shared, unlock_and_lock_shared_1,
    unlock_and_lock_shared_2, try_lock_upgrade, unlock_upgrade, try_unlock_upgrade_and_lock,
    unlock_upgrade_and_lock_shared, unlock_and_lock_upgrade_1, unlock_and_lock_upgrade_2, fetch_add, unlock,
    READER, UPGRADED, WRITER.
  - case_decide; cbn [fst snd]; [count_case 0|count_case u].
  - change (Z.lor 1 2) with 3. rewrite Hclear. count_case 0.
  - cbn [fst snd]. rewrite u32_small by lia. change (Z.lor 1 2) with 3. case_bool_decide as E; rewrite Htest in E; count_case u.
  - rewrite u32_small by lia. count_case u.
  - rewrite u32_small by lia. count_case u.
  - rewrite u32_small by lia. count_case u.
  - change (Z.lor 1 2) with 3. rewrite Hclear. count_case 0.
  - cbn [fst snd]. rewrite Hset. change (Z.lor 2 1) with 3. case_bool_decide as E; rewrite Htest in E; count_case 1.
  - rewrite u32_small by lia. count_case 0.
  - case_decide; cbn [fst snd]; [count_case 0|count_case u].
  - rewrite u32_small by lia. count_case 0.
  - rewrite Hset. count_case 1.
  - rewrite u32_small by lia. count_case u.
Qed.
End Counts.

Lemma plausible_threads ts : zlen ts < 2 ^ 29 -> plausible (fun p => count p ts).
Proof. intros Hl. split; [intros; apply count_nonneg|]. by rewrite count_total. Qed.

Lemma counts_ok_ext c c' b : (forall p, c p = c' p) -> counts_ok c b -> counts_ok c' b.
Proof. intros Hc (u&H). exists u. unfold readers, writers in *. rewrite <- !Hc. exact H. Qed.

Lemma lock_reachable_ok n l :
  Z.of_nat n < 2 ^ 29 -> lock_reachable n l ->
  length (threads l) = n /\ counts_ok (fun p => count p (threads l)) (bits_ l).
Proof.
  intros Hn. induction 1 as [|l l' _ [Hlen Hok] Hs].
  - split; [apply length_replicate|].
    assert (Hz : forall p, p <> Free -> count p (replicate n Free) = 0).
    { intros p Hp. induction n as [|n IH]; [done|]. simpl replicate. rewrite count_cons, IH by lia.
      rewrite indicator_decide, decide_False by done. lia. }
    exists 0. unfold readers, writers. simpl. rewrite !Hz by done. split_and!; lia.
  - destruct Hs as [l i p p' b' Hi Ha]. cbn [threads bits_]. split; [by rewrite length_insert|].
    apply counts_ok_ext with (moved (fun p => count p (threads l)) p p').
    + intros q. unfold moved. symmetry. by apply count_insert.
    + apply action_ok with (bits_ l); [apply plausible_threads; unfold zlen; lia|by eapply count_pos|done|done].
Qed.


(** Two threads, counted. *)
Lemma count_pair ts i j p q (c : phase -> bool) :
  i <> j -> ts !! i = Some p -> ts !! j = Some q -> c p = true -> c q = true ->
  2 <= zlen (filter (fun x => c x = true) ts).
Proof.
  intros Hij Hi Hj Hp Hq. unfold zlen.
  assert (Hwlog : forall (i j : nat) (p q : phase), (i < j)%nat -> ts !! i = Some p -> ts !! j = Some q -> c p = true -> c q = true ->
    (2 <= length (filter (fun x => c x = true) ts))%nat).
  { clear. intros i j p q Hij Hi Hj Hp Hq. rewrite <- (take_drop_middle ts i p Hi), filter_app, length_app.
    rewrite filter_cons_True by done. simpl.
    assert (Hj' : drop (S i) ts !! (j - S i)%nat = Some q) by (rewrite lookup_drop; rewrite <- Hj; f_equal; lia).
    rewrite <- (take_drop_middle _ _ _ Hj'), filter_app, length_app, filter_cons_True by done. simpl. lia. }
  destruct (decide (i < j)%nat); [pose proof (Hwlog i j p q)|pose proof (Hwlog j i q p)]; naive_solver lia.
Qed.

(** The phases that own the lock exclusively of each other. *)
Definition owns (p : phase) : bool :=
  match p with Exclusive | Upgrade | ToShared | ToUpgrade => true | _ => false end.
Definition writes (p : phase) : bool := match p with Exclusive | ToShared | ToUpgrade => true | _ => false end.

Lemma owns_count ts :
  zlen (filter (fun x => owns x = true) ts) = count Upgrade ts + writers (fun p => count p ts).
Proof.
  unfold writers. induction ts as [|p ts IH]; [done|]. rewrite !count_cons.
  destruct (owns p) eqn:E; [rewrite filter_cons_True by done|rewrite filter_cons_False by (by rewrite E)];
    unfold zlen in *; cbn [length]; destruct p; simpl in E; try done; unfold indicator; simpl; lia.
Qed.

(** ** Specifications *)

(** C27: exclusion.  In every state that fewer than 2^29 threads can reach with
    the methods of the lock, the two-step ones and the upgrade and downgrade
    conversions included, at most one thread holds the lock for writing or for
    upgrading, and while one holds it for writing no thread holds it for
    reading. *)
Theorem rwlock_exclusion (n : nat) (l : RWSpinLock) (i j : nat) (p q : phase) :
  Z.of_nat n < 2 ^ 29 -> lock_reachable n l -> i <> j -> threads l !! i = Some p -> threads l !! j = Some q ->
  ~ (owns p = true /\ owns q = true) /\ ~ (writes p = true /\ q = Shared).
Proof.
  intros Hn Hr Hij Hi Hj. destruct (lock_reachable_ok n l Hn Hr) as [Hlen (u&_&_&H1&H2&_)]. split.
  - intros [Hp Hq]. pose proof (count_pair _ i j p q owns Hij Hi Hj Hp Hq) as H. rewrite owns_count in H. lia.
  - intros [Hp ->]. pose proof (count_pos Shared _ _ Hj). pose proof (count_pos p _ _ Hi) as Hc.
    unfold writers in *. pose proof (count_nonneg Exclusive (threads l)). pose proof (count_nonneg ToShared (threads l)).
    pose proof (count_nonneg ToUpgrade (threads l)). pose proof (count_nonneg Upgrade (threads l)).
    destruct p; simpl in Hp; try done; lia.
Qed.

(** A reader and an upgrader, after a failed attempt to write. *)
Definition demo_lock : RWSpinLock := mkLock 6 [Shared; Upgrade; Free].

Lemma demo_lock_reachable : lock_reachable 3 demo_lock.
Proof.
  apply (lock_reach_step 3 (mkLock 6 [Shared; Upgrade; Free])).
  2: exact (lock_step_thread (mkLock 6 [Shared; Upgrade; Free]) 2 Free Free 6 eq_refl (do_try_lock 6)).
  apply (lock_reach_step 3 (mkLock 4 [Shared; Free; Free])).
  2: exact (lock_step_thread (mkLock 4 [Shared; Free; Free]) 1 Free Upgrade 6 eq_refl (do_try_lock_upgrade 4)).
  apply (lock_reach_step 3 (RWSpinLock_ctor 3)).
  2: exact (lock_step_thread (RWSpinLock_ctor 3) 0 Free Shared 4 eq_refl (do_try_lock_shared 0)).
  apply lock_reach_init.
Defined.

Lemma rwlock_exclusion_witness : ~ (owns Upgrade = true /\ owns Shared = true) /\ ~ (writes Upgrade = true /\ Shared = Shared).
Proof. exact (rwlock_exclusion 3 demo_lock 1 0 Upgrade Shared ltac:(lia) demo_lock_reachable ltac:(lia) eq_refl eq_refl). Defined.

(** C36: the lock recovers.  However attempts failed and conversions
    interleaved (a failed [try_lock_upgrade] leaves its flag to the owner to
    clear), once all threads are outside of the lock the word is zero again and
    every attempt to lock, share or upgrade succeeds at once; and while no
    thread owns it for writing or upgrading, every attempt to share succeeds. *)
Theorem rwlock_recovers (n : nat) (l : RWSpinLock) :
  Z.of_nat n < 2 ^ 29 -> lock_reachable n l ->
  (Forall (.= Free) (threads l) ->
   bits_ l = 0 /\ (try_lock (bits_ l)).2 = true /\ (try_lock_upgrade (bits_ l)).2 = true) /\
  (Forall (fun p => owns p = false) (threads l) -> (try_lock_shared (bits_ l)).2 = true).
Proof.
  intros Hn Hr. destruct (lock_reachable_ok n l Hn Hr) as [Hlen (u&Hb&Hu&H1&H2&H3&_)].
  assert (Hzero : forall (c : phase -> Prop) p, Forall c (threads l) -> ~ c p -> count p (threads l) = 0).
  { intros c p Hc Hp. unfold count, zlen. destruct (filter (.= p) (threads l)) as [|x t] eqn:E; [done|].
    assert (Hx : x ∈ filter (.= p) (threads l)) by (rewrite E; left).
    apply list_elem_of_filter in Hx as [-> Hx]. rewrite Forall_forall in Hc. by apply Hc in Hx. }
  split.
  - intros Hf. unfold readers, writers in *. rewrite !(Hzero _ _ Hf) in * by done.
    assert (bits_ l = 0) as -> by lia. done.
  - intros Hf. assert (Hw : writers (fun p => count p (threads l)) = 0 /\ count Upgrade (threads l) = 0).
    { unfold writers. rewrite !(Hzero _ _ Hf) by done. done. }
    destruct Hw as [Hw HU]. unfold try_lock_shared, WRITER, UPGRADED. cbn [snd]. apply bool_decide_true.
    change (Z.lor 1 2) with 3. rewrite Hb, Hw. apply flags_test; lia.
Qed.

Lemma rwlock_recovers_witness : bits_ (RWSpinLock_ctor 3) = 0 /\ (try_lock (bits_ (RWSpinLock_ctor 3))).2 = true.
Proof.
  destruct (rwlock_recovers 3 (RWSpinLock_ctor 3)) as [H _]; [lia|apply lock_reach_init|].
  destruct H as (H1&H2&_); [by repeat constructor|]. split; [exact H1|exact H2].
Defined.

(** ** Holders *)

Section Holders.
Implicit Types (m : gmap Z holder) (v : holder) (h : holders).

Definition is_holder (lock : Z) (k : holder_kind) v : Z := if decide (v = mkHolder k lock) then 1 else 0.

Lemma held_insert_new lock k m x v : m !! x = None -> held lock k (<[x := v]> m) = held lock k m + is_holder lock k v.
Proof.
  intros Hx. unfold held, is_holder. rewrite map_filter_insert. simpl. case_decide.
  - rewrite map_size_insert_None; [lia|]. apply map_lookup_filter_None. by left.
  - rewrite delete_id by done. lia.
Qed.

Lemma held_delete lock k m x v : m !! x = Some v -> held lock k (delete x m) = held lock k m - is_holder lock k v.
Proof.
  intros Hx. rewrite <- (insert_delete_id m x v Hx) at 2. rewrite held_insert_new; [lia|]. apply lookup_delete_eq.
Qed.

Lemma held_insert lock k m x v v' :
  m !! x = Some v -> held lock k (<[x := v']> m) = held lock k m - is_holder lock k v + is_holder lock k v'.
Proof.
  intros Hx. rewrite <- insert_delete_eq, held_insert_new by apply lookup_delete_eq. by rewrite (held_delete _ _ _ x v).
Qed.

(** What the calls of each mode on each lock sum up to. *)
Definition balanced h : Prop :=
  forall lock k, lock <> 0 -> balance lock k (calls h) = held lock k (live h).

Lemma balance_call_on lock k lock' c h :
  lock <> 0 -> balance lock k (calls (call_on lock' c h)) =
  (if decide (lock' = lock) then call_balance k c else 0) + balance lock k (calls h).
Proof. intros Hl. unfold call_on. destruct (decide (lock' = 0)) as [->|]; [rewrite decide_False by done; lia|done]. Qed.

Lemma live_call_on lock c h : live (call_on lock c h) = live h.
Proof. unfold call_on. by case_decide. Qed.

Lemma is_holder_mk lock k k' lock' :
  is_holder lock k (mkHolder k' lock') = if decide (lock' = lock) then (if decide (k = k') then 1 else 0) else 0.
Proof. unfold is_holder. repeat case_decide; congruence. Qed.

Lemma holder_run_balanced o h h' : balanced h -> holder_run o h = Some h' -> balanced h'.
Proof.
  intros Hb Hrun lock k Hl. specialize (Hb lock k Hl). destruct o as [x k' lock'|x y k'|x y|x lock'|x]; simpl in Hrun.
  - case_decide as Hx; [|done]. injection Hrun as <-. unfold holder_ctor. rewrite balance_call_on, live_call_on by done.
    simpl. rewrite held_insert_new, is_holder_mk, Hb by done. repeat case_decide; lia.
  - case_decide as Hx; [|done]. unfold holder_move in Hrun. destruct (live h !! y) as [[kv lv]|] eqn:Hy; [|done]. simpl in Hrun.
    assert (Hxy : x <> y) by congruence.
    assert (Hx' : <[y := mkHolder kv 0]> (live h) !! x = None) by (by rewrite lookup_insert_ne).
    case_decide as Ek.
    + injection Hrun as <-. simpl. rewrite held_insert_new, (held_insert _ _ _ y (mkHolder kv lv)), Hb by done.
      rewrite !is_holder_mk. repeat case_decide; lia.
    + destruct (can_convert kv k'); [|done]. injection Hrun as <-. rewrite balance_call_on, live_call_on by done. simpl.
      rewrite held_insert_new, (held_insert _ _ _ y (mkHolder kv lv)), Hb by done. rewrite !is_holder_mk. repeat case_decide; lia.
  - unfold holder_swap in Hrun. destruct (live h !! x) as [v|] eqn:Hx; [|done]. simpl in Hrun.
    destruct (live h !! y) as [v'|] eqn:Hy; [|done]. simpl in Hrun. case_decide; [|done]. injection Hrun as <-. simpl.
    destruct (decide (x = y)) as [->|Hxy].
    + rewrite insert_insert_eq. rewrite (held_insert _ _ _ y v) by done. lia.
    + rewrite (held_insert _ _ _ y v') by (by rewrite lookup_insert_ne). rewrite (held_insert _ _ _ x v) by done. lia.
  - unfold holder_reset in Hrun. destruct (live h !! x) as [[kv lv]|] eqn:Hx; [|done]. simpl in Hrun.
    case_decide as El; injection Hrun as <-; [done|]. rewrite balance_call_on, live_call_on by done. simpl.
    rewrite balance_call_on by done. rewrite live_call_on, (held_insert _ _ _ x (mkHolder kv lv)), Hb by done. simpl.
    rewrite !is_holder_mk. repeat case_decide; lia.
  - unfold holder_dtor in Hrun. destruct (live h !! x) as [[kv lv]|] eqn:Hx; [|done]. simpl in Hrun. injection Hrun as <-.
    rewrite balance_call_on, live_call_on by done. simpl. rewrite (held_delete _ _ _ x (mkHolder kv lv)), Hb by done.
    rewrite is_holder_mk. simpl. repeat case_decide; lia.
Qed.

Lemma holder_runs_balanced os : forall h h', balanced h -> holder_runs os h = Some h' -> balanced h'.
Proof.
  induction os as [|o os IH]; intros h h' Hb; simpl; [by intros [= <-]|].
  destruct (holder_run o h) as [h1|] eqn:E; [|done]. simpl. intros Hr. apply (IH h1); [|done]. by apply (holder_run_balanced o h).
Qed.
End Holders.

(** The holders release what they acquire.  After any sequence of
    constructions, moves, conversions, swaps, resets and destructions of
    [ReadHolder], [UpgradedHolder] and [WriteHolder] objects, the acquisitions
    less the releases of each mode of each lock are exactly the live holders of
    that class on the lock (so nothing is ever released that is not held), and
    when all holders are gone everything has been released. *)
Lemma holders_balanced (os : list holder_op) (h : holders) (lock : Z) (k : holder_kind) :
  holder_runs os (mkHolders ∅ []) = Some h -> lock <> 0 ->
  balance lock k (calls h) = held lock k (live h) /\ (live h = ∅ -> balance lock k (calls h) = 0).
Proof.
  intros Hr Hl. assert (Hb : balanced h) by (by apply (holder_runs_balanced os (mkHolders ∅ []))).
  split; [by apply Hb|]. intros He. rewrite (Hb lock k Hl), He. unfold held. by rewrite map_filter_empty, map_size_empty.
Qed.

Definition demo_holders : list holder_op :=
  [HConstruct 1 WriteHolder 64; HMove 2 1 UpgradedHolder; HMove 3 2 ReadHolder; HReset 3 128; HDestroy 1; HDestroy 2; HDestroy 3].

Lemma holders_balanced_witness :
  exists h, holder_runs demo_holders (mkHolders ∅ []) = Some h /\ balance 64 ReadHolder (calls h) = 0 /\ length (calls h) = 6%nat.
Proof.
  destruct (holder_runs demo_holders (mkHolders ∅ [])) as [h|] eqn:E; [|vm_compute in E; discriminate E].
  exists h. split; [done|]. assert (E' := E). vm_compute in E'. injection E' as <-. split; [|done].
  apply (holders_balanced demo_holders _ 64 ReadHolder E); [lia|done].
Defined.
