(* ===== verification/DAG.v ===== *)
(** * scheduler/DAG

    The task graph of [scheduler/DAG.h] and [scheduler/DAG.cpp]: building it
    ([add], [dependency]), the check for cycles ([hasCycle]), the preparation
    of a run ([go]) and the run itself on an executor, as the interleaving of
    the tasks given to [Executor::add].  The executor is the code of the
    caller: it is only taken to run each task it was given, in any order and
    on any thread, and the functions of the nodes to return. *)

From stdpp Require Import base list strings relations.
From S2P Require Import Prelude.

Open Scope Z_scope.

Abbreviation Key := nat.

Section DAG.
Context {VoidFunc : Type}.

(** [func] is empty for the source node that [go] adds; the member [schedule]
    of the node [i] is always the closure that calls [DAG::schedule] on [i]. *)
Record Node := mkNode {
  func : option VoidFunc;
  nexts : list Key;
  hasPrev : bool;
  waitCount : Z;
}.

(** The graph is its vector of nodes. *)
Abbreviation DAG := (list Node).

Definition dag_node (i : Key) : M DAG Node :=
  nodes ← gets (fun nodes : DAG => nodes !! i);
  of_option nodes "nodes_[i] out of range".

Definition set_node (i : Key) (f : Node -> Node) : M DAG unit :=
  x ← dag_node i;
  modify (fun nodes => <[i := f x]> nodes).

Definition add (f : option VoidFunc) : M DAG Key :=
  i ← gets length;
  modify (fun nodes => nodes ++ [mkNode f [] false 0]);; mret i.

(** a -> b *)
Definition dependency (a b : Key) : M DAG unit :=
  set_node a (fun x => mkNode (func x) (nexts x ++ [b]) (hasPrev x) (waitCount x));;
  set_node b (fun x => mkNode (func x) (nexts x) (hasPrev x) (u64 (waitCount x + 1)));;
  set_node b (fun x => mkNode (func x) (nexts x) true (waitCount x)).

(** ** hasCycle *)

(** Its local variables; [keys] is held with [keys.back()] first. *)
Record CycleVars := mkVars { cnexts : list (list Key); targets : list Z; keys : list Key }.

Definition targets_add (k : Key) (d : Z) : M CycleVars Z :=
  st ← get;
  t ← of_option (targets st !! k) "targets[key] out of range";
  put (mkVars (cnexts st) (<[k := u64 (t + d)]> (targets st)) (keys st));; mret (u64 (t + d)).

Fixpoint count_targets (edges : list Key) : M CycleVars unit :=
  match edges with
  | [] => mret tt
  | key :: rest => targets_add key 1;; count_targets rest
  end.

Fixpoint count_all (nexts : list (list Key)) : M CycleVars unit :=
  match nexts with
  | [] => mret tt
  | edges :: rest => count_targets edges;; count_all rest
  end.

(** The starts, in the order in which [keys.back()] will see them. *)
Definition find_starts (nodes : DAG) : list Key :=
  reverse (omap (fun '(i, x) => if hasPrev x then None else Some i) (zip (seq 0 (length nodes)) nodes)).

(** One round of [while (!nexts[key].empty())]. *)
Definition remove_edge (key : Key) (_ : unit) : M CycleVars (unit + unit) :=
  st ← get;
  edges ← of_option (cnexts st !! key) "nexts[key] out of range";
  match last edges with
  | None => mret (inr tt)
  | Some next =>
      put (mkVars (<[key := removelast edges]> (cnexts st)) (targets st) (keys st));;
      t ← targets_add next (-1);
      (if decide (t = 0)
       then modify (fun st => mkVars (cnexts st) (targets st) (next :: keys st))
       else mret tt);;
      mret (inl tt)
  end.

(** One round of [while (!keys.empty())]. *)
Definition remove_key (_ : unit) : M CycleVars (unit + unit) :=
  st ← get;
  match keys st with
  | [] => mret (inr tt)
  | key :: rest =>
      put (mkVars (cnexts st) (targets st) rest);;
      iter (S (length (concat (cnexts st)))) (remove_edge key) tt;;
      mret (inl tt)
  end.

(** The fuel of the outer loop: a key is pushed at most once. *)
Definition hasCycle_body (nodes : DAG) : M CycleVars bool :=
  count_all (nexts <$> nodes);;
  modify (fun st => mkVars (cnexts st) (targets st) (find_starts nodes));;
  iter (S (S (length nodes))) remove_key tt;;
  gets (fun st => existsb (fun edges => negb (bool_decide (edges = []))) (cnexts st)).

Definition hasCycle (nodes : DAG) : res CycleVars bool :=
  hasCycle_body nodes (mkVars (nexts <$> nodes) (replicate (length nodes) 0) []).

(** ** go *)

Definition prepare_key (sourceKey sinkKey key : Key) : M DAG unit :=
  x ← dag_node key;
  (if hasPrev x then mret tt else dependency sourceKey key);;
  x ← dag_node key;
  (if bool_decide (nexts x = []) then dependency key sinkKey else mret tt).

Fixpoint prepare_loop (sourceKey sinkKey : Key) (ks : list Key) : M DAG unit :=
  match ks with
  | [] => mret tt
  | key :: rest => prepare_key sourceKey sinkKey key;; prepare_loop sourceKey sinkKey rest
  end.

(** [go] up to its call of [schedule(sourceKey)]. *)
Definition go_prepare (finishCallback : option VoidFunc) : M DAG Key :=
  nodes ← get;
  match hasCycle nodes with
  | Ok true _ => throw (runtime_error "Cycle in DAG graph")
  | Ok false _ =>
      sourceKey ← add None;
      sinkKey ← add finishCallback;
      size ← gets length;
      prepare_loop sourceKey sinkKey (seq 0 (size - 2));;
      mret sourceKey
  | Throw e _ => throw e
  | Fault why => fault why
  | OutOfFuel => fun _ => OutOfFuel
  end.

(** ** The run

    A task given to the executor calls the function of its node and then the
    loop of [schedule], whose every [--waitCount] is one atomic step. *)

Inductive task :=
  | Added (k : Key)                            (* given to the executor *)
  | Calling (k : Key)                          (* in [nodes_[k].func()] *)
  | Scheduling (k : Key) (rest : list Key)     (* in [schedule(k)], the keys left *)
  | Done (k : Key).

Definition task_key (t : task) : Key :=
  match t with Added k | Calling k | Scheduling k _ | Done k => k end.

Inductive event := Started (k : Key) | Finished (k : Key).

Record Run := mkRun { nodes_ : DAG; tasks : list task; events : list event }.

Definition go (finishCallback : option VoidFunc) (nodes : DAG) : res DAG Run :=
  match go_prepare finishCallback nodes with
  | Ok sourceKey nodes' =>
      match nodes' !! sourceKey with
      | Some x => Ok (mkRun nodes' [Scheduling sourceKey (nexts x)] []) nodes'
      | None => Fault "nodes_[i] out of range"
      end
  | Throw e s => Throw e s
  | Fault why => Fault why
  | OutOfFuel => OutOfFuel
  end.

(** The body of the loop of [schedule] for [key], run by the task [i]. *)
Definition schedule_key (r : Run) (i : nat) (k key : Key) (rest : list Key) : option Run :=
  match nodes_ r !! key with
  | None => None
  | Some x =>
      let w := u64 (waitCount x - 1) in
      let nodes' := <[key := mkNode (func x) (nexts x) (hasPrev x) w]> (nodes_ r) in
      let tasks' := <[i := Scheduling k rest]> (tasks r) in
      Some (mkRun nodes' (if decide (w = 0) then tasks' ++ [Added key] else tasks') (events r))
  end.

Inductive run_step : Run -> Run -> Prop :=
  | run_call r i k x f :
      tasks r !! i = Some (Added k) -> nodes_ r !! k = Some x -> func x = Some f ->
      run_step r (mkRun (nodes_ r) (<[i := Calling k]> (tasks r)) (events r ++ [Started k]))
  | run_return r i k x :
      tasks r !! i = Some (Calling k) -> nodes_ r !! k = Some x ->
      run_step r (mkRun (nodes_ r) (<[i := Scheduling k (nexts x)]> (tasks r)) (events r ++ [Finished k]))
  | run_schedule r r' i k key rest :
      tasks r !! i = Some (Scheduling k (key :: rest)) -> schedule_key r i k key rest = Some r' ->
      run_step r r'
  | run_done r i k :
      tasks r !! i = Some (Scheduling k []) ->
      run_step r (mkRun (nodes_ r) (<[i := Done k]> (tasks r)) (events r)).

(** ** Graphs as the callers build them *)

Inductive built : DAG -> Prop :=
  | built_nil : built []
  | built_add ns f i ns' : built ns -> add (Some f) ns = Ok i ns' -> built ns'
  | built_dependency ns a b u ns' : built ns -> dependency a b ns = Ok u ns' -> built ns'.

Definition edge (ns : DAG) (a b : Key) : Prop := exists x, ns !! a = Some x /\ b ∈ nexts x.

Definition edge_count (ns : DAG) : Z := zlen (concat (nexts <$> ns)).
End DAG.

Arguments Node : clear implicits.
Arguments Run : clear implicits.
