(* ===== verification/DAGCycle.v ===== *)
(** * scheduler/DAG: the check for cycles

    [hasCycle] removes the edges of the nodes without predecessors until none
    is left.  The invariant of its loops counts, for every key, the edges that
    still lead to it. *)

From stdpp Require Import base list strings relations.
From S2P Require Import Prelude DAG.

Open Scope Z_scope.

(** ** Counting the edges to a key *)

Definition occ_in (k : Key) (l : list Key) : Z := zlen (filter (.= k) l).

Definition occ (k : Key) (g : list (list Key)) : Z := occ_in k (concat g).

Lemma occ_in_app k l l' : occ_in k (l ++ l') = occ_in k l + occ_in k l'.
Proof. unfold occ_in. rewrite filter_app. apply zlen_app. Qed.

Lemma occ_in_one k x : occ_in k [x] = if decide (x = k) then 1 else 0.
Proof. unfold occ_in. rewrite filter_cons, filter_nil. by case_decide. Qed.

Lemma occ_in_cons k x l : occ_in k (x :: l) = (if decide (x = k) then 1 else 0) + occ_in k l.
Proof. change (x :: l) with ([x] ++ l). by rewrite occ_in_app, occ_in_one. Qed.

Lemma occ_in_zero k l : occ_in k l = 0 <-> k ∉ l.
Proof.
  unfold occ_in, zlen. split.
  - intros H Hk. assert (k ∈ filter (.= k) l) as Hf by (by apply list_elem_of_filter).
    destruct (filter (.= k) l); [by apply elem_of_nil in Hf|]. simpl in H. lia.
  - intros H. induction l as [|x l IH]; [done|]. apply not_elem_of_cons in H as [Hx H].
    rewrite filter_cons_False by done. by apply IH.
Qed.

Lemma occ_in_bounds k l : 0 <= occ_in k l <= zlen l.
Proof. unfold occ_in, zlen. pose proof (length_filter (.= k) l). lia. Qed.

Lemma occ_bounds k g : 0 <= occ k g <= zlen (concat g).
Proof. apply occ_in_bounds. Qed.

Lemma occ_app k g g' : occ k (g ++ g') = occ k g + occ k g'.
Proof. unfold occ. by rewrite concat_app, occ_in_app. Qed.

Lemma occ_nonzero k g : occ k g <> 0 <-> exists a l, g !! a = Some l /\ k ∈ l.
Proof.
  unfold occ. rewrite occ_in_zero. split.
  - intros H. apply dec_stable in H. apply list_elem_of_In, in_concat in H as (l & Hl & Hk).
    apply list_elem_of_In, list_elem_of_lookup in Hl as [a Ha]. exists a, l. by rewrite list_elem_of_In.
  - intros (a & l & Ha & Hk) H. apply H. apply list_elem_of_In, in_concat.
    exists l. rewrite <- !list_elem_of_In. split; [by eapply list_elem_of_lookup_2|done].
Qed.

Lemma occ_zero_no k g a l : occ k g = 0 -> g !! a = Some l -> k ∉ l.
Proof. intros Hz Ha Hk. assert (occ k g <> 0); [|done]. apply occ_nonzero. eauto. Qed.

(** Replacing one list of edges. *)
Lemma occ_insert k g a l l' :
  g !! a = Some l -> occ k (<[a := l']> g) = occ k g - occ_in k l + occ_in k l'.
Proof.
  intros Ha. rewrite insert_take_drop by (by eapply lookup_lt_Some).
  rewrite <- (take_drop_middle g a l Ha) at 3. rewrite !occ_app.
  unfold occ; simpl. rewrite !occ_in_app. lia.
Qed.

Lemma last_removelast {A} (l : list A) x : last l = Some x -> l = removelast l ++ [x].
Proof.
  intros H. destruct l as [|y l] using rev_ind; [done|].
  rewrite last_snoc in H. rewrite removelast_last. by simplify_eq.
Qed.

(** ** Cycles in finite graphs *)

Lemma backward_cycle (R : Key -> Key -> Prop) (n : nat) (S : Key -> Prop) :
  (forall k, S k -> (k < n)%nat) -> (forall k, S k -> exists a, S a /\ R a k) ->
  (exists k, S k) -> exists k, tc R k k.
Proof.
  intros Hn Hpred [k0 Hk0].
  assert (forall m L k, (length L + m = n)%nat -> NoDup (k :: L) -> S k -> Forall S L ->
    Forall (tc R k) L -> exists k, tc R k k) as Hwalk; 
    [|apply (Hwalk n [] k0); [done|apply NoDup_singleton|done|by constructor|by constructor]].
  induction m as [|m IH]; intros L k Hm Hnd Hk HL Htc.
  - exfalso. assert (k :: L ⊆ seq 0 n) as Hsub.
    { intros x Hx. apply elem_of_seq. split; [lia|]. apply Hn.
      apply elem_of_cons in Hx as [->|Hx]; [done|]. by rewrite Forall_forall in HL; apply HL. }
    pose proof (submseteq_length _ _ (NoDup_submseteq _ _ Hnd Hsub)) as Hlen.
    rewrite length_seq in Hlen. simpl in Hlen. lia.
  - destruct (Hpred k Hk) as (a & Ha & Hak).
    destruct (decide (a ∈ k :: L)) as [Hin|Hnin].
    + exists a. apply elem_of_cons in Hin as [->|Hin]; [by apply tc_once|].
      eapply tc_l; [done|]. by rewrite Forall_forall in Htc; apply Htc.
    + apply (IH (k :: L) a); [simpl; lia|by apply NoDup_cons|done|by apply Forall_cons|].
      apply Forall_cons. split; [by apply tc_once|].
      eapply Forall_impl; [exact Htc|]. intros x Hx. by eapply tc_l.
Qed.

Lemma ranked_acyclic (R : Key -> Key -> Prop) (rank : Key -> nat) :
  (forall a b, R a b -> (rank a < rank b)%nat) -> forall k, ~ tc R k k.
Proof.
  intros Hrank k Hk. assert (forall a b, tc R a b -> (rank a < rank b)%nat) as H; [|specialize (H k k Hk); lia].
  intros a b Hab. induction Hab as [a b Hab|a b c Hab _ IH]; [by apply Hrank|]. specialize (Hrank a b Hab). lia.
Qed.

(** ** What [add] and [dependency] keep *)

Section Graph.
Context {VoidFunc : Type}.
Implicit Types (ns : list (Node VoidFunc)).

Abbreviation edges_of ns := (nexts <$> ns).

(** [waitCount] counts the edges that lead to a node. *)
Record dag_ok ns : Prop := {
  ok_range : forall a l b, edges_of ns !! a = Some l -> b ∈ l -> (b < length ns)%nat;
  ok_wait : forall k x, ns !! k = Some x -> waitCount x = u64 (occ k (edges_of ns));
  ok_prev : forall k x, ns !! k = Some x -> hasPrev x = bool_decide (occ k (edges_of ns) <> 0);
}.

Definition push_next (b : Key) (x : Node VoidFunc) : Node VoidFunc := mkNode (func x) (nexts x ++ [b]) (hasPrev x) (waitCount x).
Definition inc_wait (x : Node VoidFunc) : Node VoidFunc := mkNode (func x) (nexts x) true (u64 (waitCount x + 1)).

Definition with_edge (a b : Key) ns : list (Node VoidFunc) := alter inc_wait b (alter (push_next b) a ns).

Lemma set_node_run i f ns x :
  ns !! i = Some x -> set_node i f ns = Ok tt (alter f i ns).
Proof.
  intros Hi. unfold set_node, dag_node, mbind, M_bind, bind, gets, of_option. rewrite Hi.
  unfold ret, modify. f_equal. apply list_eq. intros j. destruct (decide (i = j)) as [<-|Hij].
  - rewrite list_lookup_insert_eq by (by eapply lookup_lt_Some). by rewrite list_lookup_alter_eq, Hi.
  - by rewrite list_lookup_insert_ne, list_lookup_alter_ne by done.
Qed.

Lemma set_node_inv i f ns u ns' : set_node i f ns = Ok u ns' -> (i < length ns)%nat /\ ns' = alter f i ns.
Proof.
  destruct (ns !! i) as [x|] eqn:Hi.
  - erewrite set_node_run by done. intros. simplify_eq. split; [by eapply lookup_lt_Some|done].
  - unfold set_node, dag_node, mbind, M_bind, bind, gets, of_option. by rewrite Hi.
Qed.

Lemma alter_twice {A} (f g h : A -> A) i (l : list A) :
  (forall y : A, g (f y) = h y) -> alter g i (alter f i l) = alter h i l.
Proof.
  intros H. apply list_eq. intros j. destruct (decide (i = j)) as [<-|Hij].
  - rewrite !list_lookup_alter_eq. destruct (l !! i); simpl; by rewrite ?H.
  - by rewrite !list_lookup_alter_ne.
Qed.

Lemma dependency_run a b ns :
  (a < length ns)%nat -> (b < length ns)%nat -> dependency a b ns = Ok tt (with_edge a b ns).
Proof.
  intros [xa Ha]%lookup_lt_is_Some [xb Hb]%lookup_lt_is_Some. unfold dependency.
  erewrite run_bind by (by eapply set_node_run).
  assert (is_Some (alter (push_next b) a ns !! b)) as [xb' Hb'].
  { apply lookup_lt_is_Some. rewrite length_alter. by eapply lookup_lt_Some. }
  erewrite run_bind by (by eapply set_node_run).
  unfold push_next in Hb'. erewrite set_node_run; [|by rewrite list_lookup_alter_eq, Hb'].
  f_equal. by apply alter_twice.
Qed.

Lemma dependency_inv a b ns u ns' :
  dependency a b ns = Ok u ns' -> (a < length ns)%nat /\ (b < length ns)%nat.
Proof.
  unfold dependency. intros ([] & s1 & [Ha ->]%set_node_inv & H)%run_bind_inv.
  apply run_bind_inv in H as ([] & s2 & [Hb _]%set_node_inv & _). by rewrite length_alter in Hb.
Qed.

Lemma edges_alter f g i ns : (forall x, nexts (f x) = g (nexts x)) -> edges_of (alter f i ns) = alter g i (edges_of ns).
Proof. intros H. apply list_fmap_alter. apply Forall_forall. auto. Qed.

Lemma edges_with_edge a b ns :
  edges_of (with_edge a b ns) = alter (fun l => l ++ [b]) a (edges_of ns).
Proof.
  unfold with_edge. rewrite (edges_alter _ id) by done. rewrite (edges_alter _ (fun l => l ++ [b])) by done.
  apply list_eq. intros j. destruct (decide (b = j)) as [<-|Hj].
  - rewrite list_lookup_alter_eq. by destruct (_ !! b).
  - by rewrite list_lookup_alter_ne.
Qed.

Lemma occ_alter k g a b :
  (a < length g)%nat -> occ k (alter (fun l => l ++ [b]) a g) = occ k g + if decide (b = k) then 1 else 0.
Proof.
  intros [l Ha]%lookup_lt_is_Some.
  replace (alter _ a g) with (<[a := l ++ [b]]> g).
  - rewrite (occ_insert _ _ _ l) by done. rewrite occ_in_app, occ_in_one. lia.
  - apply list_eq. intros j. destruct (decide (a = j)) as [<-|Hj].
    + rewrite list_lookup_insert_eq by (by eapply lookup_lt_Some). by rewrite list_lookup_alter_eq, Ha.
    + by rewrite list_lookup_insert_ne, list_lookup_alter_ne.
Qed.

Lemma occ_with_edge k a b ns :
  (a < length ns)%nat ->
  occ k (edges_of (with_edge a b ns)) = occ k (edges_of ns) + if decide (b = k) then 1 else 0.
Proof. intros Ha. rewrite edges_with_edge. apply occ_alter. by rewrite length_fmap. Qed.

Lemma length_with_edge a b ns : length (with_edge a b ns) = length ns.
Proof. unfold with_edge. by rewrite !length_alter. Qed.

(** A node after the edge: the fields that the edge does not touch are kept. *)
Lemma lookup_with_edge a b ns k y :
  with_edge a b ns !! k = Some y ->
  exists x, ns !! k = Some x /\ func y = func x /\
    nexts y = (if decide (k = a) then nexts x ++ [b] else nexts x) /\
    hasPrev y = (if decide (k = b) then true else hasPrev x) /\
    waitCount y = (if decide (k = b) then u64 (waitCount x + 1) else waitCount x).
Proof.
  unfold with_edge. intros H. destruct (decide (k = b)) as [Eb|Hb], (decide (k = a)) as [Ea|Ha]; subst.
  all: repeat (rewrite list_lookup_alter_eq in H || rewrite list_lookup_alter_ne in H by congruence).
  all: destruct (ns !! _) as [x|]; simplify_eq/=; (by exists x) || by exists y.
Qed.

Lemma u64_add_l (p q : Z) : u64 (u64 p + q) = u64 (p + q).
Proof. unfold wrap. by rewrite Zplus_mod_idemp_l. Qed.

Lemma dag_ok_edge a b ns :
  dag_ok ns -> (a < length ns)%nat -> (b < length ns)%nat -> dag_ok (with_edge a b ns).
Proof.
  intros [Hr Hw Hp] Ha Hb. split.
  - rewrite length_with_edge. intros i l c Hl Hc.
    apply list_lookup_fmap_Some_1 in Hl as (y & -> & Hy).
    apply lookup_with_edge in Hy as (x & Hx & _ & Hn & _). rewrite Hn in Hc.
    assert (edges_of ns !! i = Some (nexts x)) as Hix by (by rewrite list_lookup_fmap, Hx).
    case_decide; [|by eauto]. apply elem_of_app in Hc as [Hc|Hc]; [by eauto|].
    by apply list_elem_of_singleton in Hc as ->.
  - intros k y (x & Hx & _ & _ & _ & ->)%lookup_with_edge. rewrite occ_with_edge by done.
    rewrite (Hw k x Hx). destruct (decide (k = b)) as [->|Hk].
    + rewrite decide_True by done. apply u64_add_l.
    + rewrite decide_False by done. f_equal. lia.
  - intros k y (x & Hx & _ & _ & -> & _)%lookup_with_edge. rewrite occ_with_edge by done.
    rewrite (Hp k x Hx). pose proof (occ_bounds k (edges_of ns)).
    destruct (decide (k = b)) as [->|Hk].
    + rewrite decide_True by done. symmetry. apply bool_decide_eq_true. lia.
    + rewrite decide_False by done. by rewrite Z.add_0_r.
Qed.

Lemma add_run f ns : add f ns = Ok (length ns) (ns ++ [mkNode f [] false 0]).
Proof. done. Qed.

Lemma occ_add k f ns : occ k (edges_of (ns ++ [mkNode f [] false 0])) = occ k (edges_of ns).
Proof. rewrite fmap_app, occ_app. apply Z.add_0_r. Qed.

Lemma dag_ok_add f ns : dag_ok ns -> dag_ok (ns ++ [mkNode f [] false 0]).
Proof.
  intros [Hr Hw Hp].
  assert (occ (length ns) (edges_of ns) = 0) as Hnew.
  { destruct (decide (occ (length ns) (edges_of ns) = 0)) as [|H]; [done|].
    apply occ_nonzero in H as (a & l & Ha & Hl). specialize (Hr a l _ Ha Hl). lia. }
  split.
  - intros a l b Hl Hb. rewrite length_app. rewrite fmap_app in Hl.
    apply lookup_app_Some in Hl as [Hl|[_ Hl]]; [specialize (Hr a l b Hl Hb); lia|].
    simpl in Hl. apply list_lookup_singleton_Some in Hl as [_ <-]. by apply elem_of_nil in Hb.
  - intros k x Hx. rewrite occ_add. apply lookup_app_Some in Hx as [Hx|[Hk Hx]]; [by apply Hw|].
    apply list_lookup_singleton_Some in Hx as [Hx <-]. replace k with (length ns) by lia. by rewrite Hnew.
  - intros k x Hx. rewrite occ_add. apply lookup_app_Some in Hx as [Hx|[Hk Hx]]; [by apply Hp|].
    apply list_lookup_singleton_Some in Hx as [Hx <-]. replace k with (length ns) by lia. by rewrite Hnew.
Qed.

Lemma built_ok ns : built ns -> dag_ok ns.
Proof.
  induction 1 as [|ns f i ns' _ IH Hadd|ns a b u ns' _ IH Hdep].
  - by split.
  - rewrite add_run in Hadd. simplify_eq. by apply dag_ok_add.
  - destruct (dependency_inv _ _ _ _ _ Hdep) as [Ha Hb]. rewrite dependency_run in Hdep by done.
    simplify_eq. by apply dag_ok_edge.
Qed.

(** ** The loops of [hasCycle] *)

Section Kahn.
Context (ns : list (Node VoidFunc)) (Hok : dag_ok ns) (Hmax : edge_count ns < 2 ^ 64).

Abbreviation E := (edges_of ns).
Abbreviation n := (length ns).

(** [P] holds the keys taken from [keys] so far, the newest first; the edges
    of [cur], the newest of them, are being removed. *)
Record removing (P : list Key) (cur : option Key) (st : CycleVars) : Prop := {
  rm_len : length (cnexts st) = n;
  rm_tlen : length (targets st) = n;
  rm_keep : forall k, k ∉ P -> cnexts st !! k = E !! k;
  rm_gone : forall k l, k ∈ P -> cur <> Some k -> cnexts st !! k = Some l -> l = [];
  rm_sub : forall k l, cnexts st !! k = Some l -> exists l', E !! k = Some (l ++ l');
  rm_targets : forall k, (k < n)%nat -> targets st !! k = Some (occ k (cnexts st));
  rm_nodup : NoDup (keys st ++ P);
  rm_zero : forall k, k ∈ keys st ++ P <-> (k < n)%nat /\ occ k (cnexts st) = 0;
  rm_order : forall i a b l, P !! i = Some a -> E !! b = Some l -> a ∈ l -> exists j, (i < j)%nat /\ P !! j = Some b;
}.

Lemma targets_add_run k d t st :
  targets st !! k = Some t ->
  targets_add k d st = Ok (u64 (t + d)) (mkVars (cnexts st) (<[k := u64 (t + d)]> (targets st)) (keys st)).
Proof. intros Hk. unfold targets_add, mbind, M_bind, bind, get, of_option, put. by rewrite Hk. Qed.

Lemma count_targets_run edges st (T : Key -> Z) :
  length (targets st) = n -> (forall k, (k < n)%nat -> targets st !! k = Some (T k)) ->
  (forall k, k ∈ edges -> (k < n)%nat) -> (forall k, 0 <= T k /\ T k + occ_in k edges < 2 ^ 64) ->
  exists ts, count_targets edges st = Ok tt (mkVars (cnexts st) ts (keys st)) /\
    length ts = n /\ forall k, (k < n)%nat -> ts !! k = Some (T k + occ_in k edges).
Proof.
  revert st T. induction edges as [|e edges IH]; intros st T Hlen HT Hin Hbd.
  - exists (targets st). destruct st. simpl in *. split; [done|]. split; [done|].
    intros k Hk. rewrite HT by done. f_equal. unfold occ_in. change (zlen (filter _ _)) with 0. lia.
  - assert (e < n)%nat as He by (apply Hin; left). simpl.
    erewrite run_bind by (apply targets_add_run; by apply HT).
    assert (0 <= T e + 1 < 2 ^ 64) as Hbe.
    { destruct (Hbd e) as [? H]. rewrite occ_in_cons, decide_True in H by done.
      pose proof (occ_in_bounds e edges). lia. }
    edestruct (IH (mkVars (cnexts st) (<[e := u64 (T e + 1)]> (targets st)) (keys st))
                (fun k => T k + if decide (e = k) then 1 else 0)) as (ts & -> & Hl & Hts); simpl.
    + by rewrite length_insert.
    + intros k Hk. case_decide as Hek; [subst e|].
      * rewrite list_lookup_insert_eq by lia. by rewrite u64_small by lia.
      * rewrite list_lookup_insert_ne by done. rewrite Z.add_0_r. by apply HT.
    + intros k Hk. apply Hin. by right.
    + intros k. destruct (Hbd k) as [? H]. rewrite occ_in_cons in H. case_decide; lia.
    + exists ts. split; [done|]. split; [done|]. intros k Hk. rewrite Hts by done. rewrite occ_in_cons. f_equal. lia.
Qed.

Lemma count_all_run g st (T : Key -> Z) :
  length (targets st) = n -> (forall k, (k < n)%nat -> targets st !! k = Some (T k)) ->
  (forall k, k ∈ concat g -> (k < n)%nat) -> (forall k, 0 <= T k /\ T k + occ k g < 2 ^ 64) ->
  exists ts, count_all g st = Ok tt (mkVars (cnexts st) ts (keys st)) /\
    length ts = n /\ forall k, (k < n)%nat -> ts !! k = Some (T k + occ k g).
Proof.
  revert st T. induction g as [|l g IH]; intros st T Hlen HT Hin Hbd.
  - apply (count_targets_run []); [done|done|done|]. intros k. apply Hbd.
  - assert (forall k, occ k (l :: g) = occ_in k l + occ k g) as Hocc.
    { intros k. unfold occ. simpl. apply occ_in_app. }
    edestruct (count_targets_run l st T) as (ts & Hrun & Hl & Hts); [done|done|..].
    + intros k Hk. apply Hin. simpl. by apply elem_of_app; left.
    + intros k. specialize (Hbd k). rewrite Hocc in Hbd. pose proof (occ_bounds k g). lia.
    + simpl. erewrite run_bind by exact Hrun.
      edestruct (IH (mkVars (cnexts st) ts (keys st)) (fun k => T k + occ_in k l)) as (ts' & -> & Hl' & Hts'); simpl.
      * done.
      * done.
      * intros k Hk. apply Hin. simpl. by apply elem_of_app; right.
      * intros k. specialize (Hbd k). rewrite Hocc in Hbd. pose proof (occ_in_bounds k l). lia.
      * exists ts'. split; [done|]. split; [done|]. intros k Hk. rewrite Hts' by done. rewrite Hocc. f_equal. lia.
Qed.

Lemma removing_in_range P cur st a l x : removing P cur st -> cnexts st !! a = Some l -> x ∈ l -> (x < n)%nat.
Proof.
  intros Hrm Ha Hx. destruct (rm_sub _ _ _ Hrm a l Ha) as [l' Hl'].
  eapply (ok_range _ Hok); [done|]. by apply elem_of_app; left.
Qed.

Lemma removing_bound P cur st k : removing P cur st -> (k < n)%nat -> occ k (cnexts st) < 2 ^ 64.
Proof.
  intros Hrm Hk. enough (occ k (cnexts st) <= occ k E) by (pose proof (occ_bounds k E); unfold edge_count in Hmax; lia).
  assert (forall g g' : list (list Key), length g = length g' ->
    (forall i l, g !! i = Some l -> exists l', g' !! i = Some (l ++ l')) -> occ k g <= occ k g') as Hle.
  { induction g as [|l g IH]; intros [|m g'] Hl Hg; [done|done|done|].
    destruct (Hg 0%nat l eq_refl) as [l' [= ->]].
    assert (occ k g <= occ k g'); [apply IH; [by injection Hl|]; intros i; apply (Hg (S i))|].
    unfold occ in *. simpl. rewrite !occ_in_app. pose proof (occ_in_bounds k l'). lia. }
  apply Hle; [by rewrite (rm_len _ _ _ Hrm), length_fmap|]. apply (rm_sub _ _ _ Hrm).
Qed.

(** The variables after the last edge [c -> x] of [c] has been removed. *)
Definition without_edge (c x : Key) (l : list Key) (st : CycleVars) : CycleVars :=
  let g := <[c := l]> (cnexts st) in
  mkVars g (<[x := occ x g]> (targets st)) (if decide (occ x g = 0) then x :: keys st else keys st).

Lemma without_edge_removing P c x l st :
  removing P (Some c) st -> c ∈ P -> cnexts st !! c = Some (l ++ [x]) ->
  removing P (Some c) (without_edge c x l st).
Proof.
  intros Hrm Hc Hl. assert (x ∈ l ++ [x]) as Hxl by (apply elem_of_app; right; by left).
  pose proof (removing_in_range _ _ _ _ _ _ Hrm Hl Hxl) as Hx.
  assert (forall k, occ k (<[c := l]> (cnexts st)) = occ k (cnexts st) - if decide (x = k) then 1 else 0) as Hocc.
  { intros k. rewrite (occ_insert _ _ _ _ _ Hl), occ_in_app, occ_in_one. lia. }
  assert (occ x (cnexts st) <> 0) as Hx0 by (apply occ_nonzero; eauto).
  destruct Hrm as [Hlen Htl Hkeep Hgone Hsub Ht Hnd Hz Ho]. unfold without_edge. split; simpl.
  - by rewrite length_insert.
  - by rewrite length_insert.
  - intros k Hk. rewrite list_lookup_insert_ne by congruence. by apply Hkeep.
  - intros k l' Hk Hne Hl'. rewrite list_lookup_insert_ne in Hl' by congruence. by eapply Hgone.
  - intros k l' Hl'. destruct (decide (c = k)) as [<-|Hne].
    + rewrite list_lookup_insert_eq in Hl' by (by eapply lookup_lt_Some). simplify_eq.
      destruct (Hsub c _ Hl) as [l2 Hl2]. exists (x :: l2). by rewrite <- app_assoc in Hl2.
    + rewrite list_lookup_insert_ne in Hl' by done. by apply Hsub.
  - intros k Hk. destruct (decide (x = k)) as [->|Hne].
    + by rewrite list_lookup_insert_eq by lia.
    + rewrite list_lookup_insert_ne by done. rewrite Ht by done. f_equal. rewrite Hocc, decide_False by done. lia.
  - case_decide; [|done]. simpl. apply NoDup_cons. split; [|done]. intros Hin. by apply Hz in Hin as [_ ?].
  - intros k. pose proof (Hz k) as Hzk. destruct (decide (x = k)) as [->|Hne].
    + destruct (decide (occ k (<[c := l]> (cnexts st)) = 0)) as [Hd|Hd]; simpl; rewrite ?elem_of_cons; split; intros H.
      * done.
      * by left.
      * by apply Hzk in H as [_ ?].
      * by destruct H.
    + rewrite (Hocc k), (decide_False (P := x = k)) by done. rewrite Z.sub_0_r, <- Hzk.
      case_decide; [|done]. simpl. rewrite elem_of_cons. naive_solver.
  - done.
Qed.

Lemma remove_edge_run P c x l st :
  removing P (Some c) st -> cnexts st !! c = Some (l ++ [x]) ->
  remove_edge c tt st = Ok (inl tt) (without_edge c x l st).
Proof.
  intros Hrm Hl. assert (x ∈ l ++ [x]) as Hxl by (apply elem_of_app; right; by left).
  pose proof (removing_in_range _ _ _ _ _ _ Hrm Hl Hxl) as Hx.
  assert (occ x (cnexts st) <> 0) as Hx0 by (apply occ_nonzero; eauto).
  pose proof (removing_bound _ _ _ x Hrm Hx). pose proof (occ_bounds x (cnexts st)).
  assert (u64 (occ x (cnexts st) + -1) = occ x (<[c := l]> (cnexts st))) as Ht.
  { rewrite (occ_insert _ _ _ _ _ Hl), occ_in_app, occ_in_one, decide_True by done. rewrite u64_small; lia. }
  unfold remove_edge. erewrite run_bind by done.
  erewrite (run_bind (of_option _ _)) by (by rewrite Hl). rewrite last_snoc, removelast_last.
  erewrite run_bind by done. erewrite run_bind by (apply targets_add_run; by apply (rm_targets _ _ _ Hrm)).
  rewrite Ht. simpl. unfold without_edge. by destruct (decide (occ x (<[c:=l]> (cnexts st)) = 0)).
Qed.

(** The inner loop removes every edge of [c]. *)
Lemma drain P c l st fuel :
  removing P (Some c) st -> c ∈ P -> cnexts st !! c = Some l -> (length l < fuel)%nat ->
  exists st', iter fuel (remove_edge c) tt st = Ok tt st' /\ removing P None st'.
Proof.
  revert l st. induction fuel as [|fuel IH]; intros l st Hrm Hc Hl Hf; [lia|].
  destruct l as [|x l _] using rev_ind; simpl.
  - exists st. split.
    + unfold remove_edge, bind, get, mbind, M_bind, bind, of_option. by rewrite Hl.
    + destruct Hrm. split; try done. intros k l' Hk _ Hl'.
      destruct (decide (c = k)) as [<-|]; [by simplify_eq|]. eapply rm_gone0; [done|congruence|done].
  - unfold bind at 1. rewrite (remove_edge_run _ _ _ _ _ Hrm Hl).
    rewrite length_app in Hf. simpl in Hf. eapply (IH l); [by apply without_edge_removing|done|..|lia].
    simpl. apply list_lookup_insert_eq. by eapply lookup_lt_Some.
Qed.

(** The key taken from [keys] has no predecessor left. *)
Lemma removing_take P k rest st :
  removing P None st -> keys st = k :: rest -> removing (k :: P) (Some k) (mkVars (cnexts st) (targets st) rest).
Proof.
  intros [Hlen Htl Hkeep Hgone Hsub Ht Hnd Hz Ho] Hk. rewrite Hk in Hnd, Hz.
  assert (rest ++ k :: P ≡ₚ (k :: rest) ++ P) as Hperm by (symmetry; apply Permutation_middle).
  split; simpl; try done.
  - intros k' Hk'. apply not_elem_of_cons in Hk' as [_ Hk']. by apply Hkeep.
  - intros k' l Hk' Hne Hl. apply elem_of_cons in Hk' as [->|Hk']; [done|]. by eapply Hgone.
  - by rewrite Hperm.
  - intros k'. rewrite Hperm. apply Hz.
  - intros [|i] a b l Ha Hb Hin; simpl in Ha.
    + simplify_eq. destruct (decide (b ∈ P)) as [Hbp|Hbp].
      * apply list_elem_of_lookup in Hbp as [j Hj]. exists (S j). split; [lia|done].
      * exfalso. assert (a ∈ (a :: rest) ++ P) as [_ Hza]%Hz by (by left).
        eapply occ_zero_no; [exact Hza| |exact Hin]. by rewrite Hkeep.
    + edestruct Ho as (j & Hj & Hjb); [done..|]. exists (S j). split; [lia|done].
Qed.

Lemma removing_length P cur st : removing P cur st -> (length P <= n)%nat.
Proof.
  intros Hrm. assert (P ⊆ seq 0 n) as Hsub.
  { intros k Hk. apply elem_of_seq. assert (k ∈ keys st ++ P) as Hk' by (by apply elem_of_app; right).
    apply (rm_zero _ _ _ Hrm) in Hk'. lia. }
  pose proof (rm_nodup _ _ _ Hrm) as (_ & _ & Hnd)%NoDup_app.
  pose proof (submseteq_length _ _ (NoDup_submseteq _ _ Hnd Hsub)) as Hl. by rewrite length_seq in Hl.
Qed.

Lemma remove_all P st fuel :
  removing P None st -> (n + 1 < fuel + length P)%nat ->
  exists P' st', iter fuel remove_key tt st = Ok tt st' /\ removing P' None st' /\ keys st' = [].
Proof.
  revert P st. induction fuel as [|fuel IH]; intros P st Hrm Hf.
  { pose proof (removing_length _ _ _ Hrm). lia. }
  simpl. destruct (keys st) as [|k rest] eqn:Hk.
  - exists P, st. split; [|done]. unfold remove_key, mbind, M_bind, bind, get. by rewrite Hk.
  - pose proof (removing_take _ _ _ _ Hrm Hk) as Htake.
    assert (k < n)%nat as Hkn.
    { assert (k ∈ keys st ++ P) as [? _]%(rm_zero _ _ _ Hrm); [|done]. rewrite Hk. by left. }
    rewrite <- (rm_len _ _ _ Hrm) in Hkn. apply lookup_lt_is_Some in Hkn as [l Hl].
    edestruct (drain (k :: P) k l _ (S (length (concat (cnexts st)))) Htake) as (st' & Hrun & Hrm'); [by left|done|..].
    { rewrite <- (take_drop_middle _ _ _ Hl), concat_app, length_app. simpl. rewrite length_app. lia. }
    unfold bind at 1. assert (remove_key tt st = Ok (inl tt) st') as ->; [|by eapply IH; [done|simpl; lia]].
    unfold remove_key. erewrite run_bind by done. rewrite Hk. erewrite run_bind by done.
    by erewrite run_bind by exact Hrun.
Qed.

Lemma starts_from (l : list (Node VoidFunc)) s :
  let starts := omap (fun '(i, x) => if hasPrev x then None else Some i) (zip (seq s (length l)) l) in
  NoDup starts /\ forall k, k ∈ starts <-> exists i x, k = (s + i)%nat /\ l !! i = Some x /\ hasPrev x = false.
Proof.
  revert s. induction l as [|x l IH]; intros s; simpl.
  - split; [apply NoDup_nil_2|]. intros k. rewrite elem_of_nil. naive_solver.
  - destruct (IH (S s)) as [Hnd Hin]. clear IH.
    assert (forall k, (exists i y, k = (s + i)%nat /\ (x :: l) !! i = Some y /\ hasPrev y = false) <->
      (k = s /\ hasPrev x = false) \/ exists i y, k = (S s + i)%nat /\ l !! i = Some y /\ hasPrev y = false) as Hsplit.
    { intros k. split.
      - intros ([|i] & y & -> & Hy & Hp); simplify_eq/=; [left; split; [lia|done]|].
        right. exists i, y. split; [lia|done].
      - intros [[-> Hp]|(i & y & -> & Hy & Hp)]; [exists 0%nat, x|exists (S i), y]; (split; [lia|done]). }
    destruct (hasPrev x) eqn:Hx; simpl; split.
    + done.
    + intros k. rewrite Hsplit, Hin. naive_solver.
    + apply NoDup_cons. split; [|done]. intros (i & y & ? & _)%Hin. lia.
    + intros k. rewrite Hsplit, elem_of_cons, Hin. naive_solver.
Qed.

Lemma removing_start ts :
  length ts = n -> (forall k, (k < n)%nat -> ts !! k = Some (occ k E)) ->
  removing [] None (mkVars E ts (find_starts ns)).
Proof.
  intros Hl Hts. destruct (starts_from ns 0) as [Hnd Hin]. split; simpl; try done.
  - by rewrite length_fmap.
  - intros k l Hk. by apply elem_of_nil in Hk.
  - intros k l Hk. exists []. by rewrite app_nil_r.
  - rewrite app_nil_r. unfold find_starts. by rewrite reverse_Permutation.
  - intros k. rewrite app_nil_r. unfold find_starts. rewrite elem_of_reverse, Hin. split.
    + intros (i & x & -> & Hx & Hp). split; [by eapply lookup_lt_Some|].
      rewrite (ok_prev _ Hok _ _ Hx) in Hp. apply bool_decide_eq_false in Hp. by apply dec_stable.
    + intros [[x Hx]%lookup_lt_is_Some Hz]. exists k, x. split; [done|]. split; [done|].
      rewrite (ok_prev _ Hok _ _ Hx). apply bool_decide_eq_false. by intros [].
Qed.

(** When nothing is left to take, either no edge is left and the order of
    removal ranks the nodes, or the nodes that were not removed hold a cycle. *)
Lemma removed_ranked P st :
  removing P None st -> keys st = [] -> (forall l, l ∈ cnexts st -> l = []) ->
  exists rank, forall a b, edge ns a b -> (rank a < rank b)%nat.
Proof.
  intros Hrm Hk Hempty.
  assert (forall k, (k < n)%nat -> exists i, P !! i = Some k) as Hall.
  { intros k Hkn. apply list_elem_of_lookup. assert (k ∈ keys st ++ P) as Hin; [|by rewrite Hk in Hin].
    apply (rm_zero _ _ _ Hrm). split; [done|]. apply dec_stable. intros (a & l & Ha & Hl)%occ_nonzero.
    rewrite (Hempty l) in Hl by (by eapply list_elem_of_lookup_2). by apply elem_of_nil in Hl. }
  assert (NoDup P) as Hnd by (pose proof (rm_nodup _ _ _ Hrm) as Hnd; by rewrite Hk in Hnd).
  exists (fun k => match list_find (.= k) P with Some (i, _) => length P - i | None => 0 end)%nat.
  intros a b (x & Hx & Hb).
  assert (E !! a = Some (nexts x)) as HE by (by rewrite list_lookup_fmap, Hx).
  destruct (Hall b) as [i Hi]; [by eapply (ok_range _ Hok)|].
  destruct (rm_order _ _ _ Hrm i b a _ Hi HE Hb) as (j & Hij & Hj).
  assert (forall k i, P !! i = Some k -> list_find (.= k) P = Some (i, k)) as Hfind.
  { intros k i' Hi'. apply list_find_Some. split; [done|]. split; [done|]. intros j' y Hj' Hlt ->.
    pose proof (NoDup_lookup _ _ _ _ Hnd Hi' Hj'). lia. }
  rewrite (Hfind _ _ Hi), (Hfind _ _ Hj). pose proof (lookup_lt_Some _ _ _ Hj). lia.
Qed.

Lemma left_over_cycle P st l :
  removing P None st -> keys st = [] -> l ∈ cnexts st -> l <> [] -> exists k, tc (edge ns) k k.
Proof.
  intros Hrm Hk Hin Hne.
  apply (backward_cycle (edge ns) n (fun k => (k < n)%nat /\ k ∉ P)); [by intros k []|..].
  - intros k [Hkn HkP]. assert (occ k (cnexts st) <> 0) as (a & la & Ha & Hla)%occ_nonzero.
    { intros Hz. apply HkP. assert (k ∈ keys st ++ P) as Hin'; [by apply (rm_zero _ _ _ Hrm)|]. by rewrite Hk in Hin'. }
    assert (a ∉ P) as HaP.
    { intros HaP. rewrite (rm_gone _ _ _ Hrm a la) in Hla by done. by apply elem_of_nil in Hla. }
    exists a. split; [split; [|done]|].
    + rewrite <- (rm_len _ _ _ Hrm). by eapply lookup_lt_Some.
    + rewrite (rm_keep _ _ _ Hrm) in Ha by done. apply list_lookup_fmap_Some_1 in Ha as (x & -> & Hx). by exists x.
  - apply list_elem_of_lookup in Hin as [a Ha]. exists a. split.
    + rewrite <- (rm_len _ _ _ Hrm). by eapply lookup_lt_Some.
    + intros HaP. apply Hne. by eapply (rm_gone _ _ _ Hrm).
Qed.

Lemma hasCycle_run :
  exists b st, hasCycle ns = Ok b st /\
    if b then exists k, tc (edge ns) k k
    else exists rank, forall a b, edge ns a b -> (rank a < rank b)%nat.
Proof.
  unfold hasCycle, hasCycle_body.
  edestruct (count_all_run E (mkVars E (replicate n 0) []) (fun _ => 0)) as (ts & Hrun & Hl & Hts); simpl.
  - by rewrite length_replicate.
  - intros k Hk. by apply lookup_replicate_2.
  - intros k Hin. assert (occ k E <> 0) as (a & l & Ha & Hk)%occ_nonzero; [|by eapply (ok_range _ Hok)].
    intros Hz. by apply occ_in_zero in Hz.
  - intros k. pose proof (occ_bounds k E). unfold edge_count in Hmax. lia.
  - erewrite run_bind by exact Hrun. erewrite run_bind by done.
    edestruct (remove_all [] _ (S (S n)) (removing_start ts Hl Hts)) as (P & st & Hloop & Hrm & Hk); [simpl; lia|].
    erewrite run_bind by exact Hloop. eexists _, st. split; [done|].
    destruct (existsb _ _) eqn:Hex.
    + apply existsb_exists in Hex as (l & Hin & Hne). apply negb_true_iff, bool_decide_eq_false in Hne.
      eapply left_over_cycle; [done|done| |done]. by apply list_elem_of_In.
    + eapply removed_ranked; [done|done|]. intros l Hin. apply dec_stable. intros Hne.
      assert (existsb (fun edges => negb (bool_decide (edges = []))) (cnexts st) = true); [|congruence].
      apply existsb_exists. exists l. split; [by apply list_elem_of_In|].
      by apply negb_true_iff, bool_decide_eq_false.
Qed.
End Kahn.
End Graph.

(** * scheduler/DAG: the graph that go runs

    What [go] makes of a graph without cycles: a source in front of the nodes
    without predecessors, a sink behind the nodes without successors. *)

Open Scope Z_scope.

Section Go.
Context {VoidFunc : Type}.
Implicit Types (ns ms : list (Node VoidFunc)).

(** What the run relies on. *)
Record plan ms (src : Key) : Prop := {
  pl_ok : dag_ok ms;
  pl_max : edge_count ms < 2 ^ 64;
  pl_rank : exists rank : Key -> nat, forall a b, edge ms a b -> (rank a < rank b)%nat;
  pl_src : (src < length ms)%nat;
  pl_first : forall a, ~ edge ms a src;
  pl_pred : forall k, (k < length ms)%nat -> k <> src -> exists a, edge ms a k;
  pl_func : forall k x, ms !! k = Some x -> k <> src -> exists f, func x = Some f;
}.

Lemma edge_count_edge a b ns : (a < length ns)%nat -> edge_count (with_edge a b ns) = edge_count ns + 1.
Proof.
  intros Ha. unfold edge_count. rewrite edges_with_edge.
  assert (is_Some ((nexts <$> ns) !! a)) as [l Hl] by (apply lookup_lt_is_Some; by rewrite length_fmap).
  rewrite <- (take_drop_middle _ _ _ Hl) at 2.
  replace (alter _ a (nexts <$> ns)) with (<[a := l ++ [b]]> (nexts <$> ns)).
  - rewrite insert_take_drop by (by eapply lookup_lt_Some). rewrite !concat_app. simpl.
    rewrite !zlen_app. unfold zlen at 3. simpl. lia.
  - apply list_eq. intros j. destruct (decide (a = j)) as [<-|Hj].
    + rewrite list_lookup_insert_eq by (by eapply lookup_lt_Some). by rewrite list_lookup_alter_eq, Hl.
    + by rewrite list_lookup_insert_ne, list_lookup_alter_ne.
Qed.

Lemma edge_count_add f ns : edge_count (ns ++ [mkNode f [] false 0]) = edge_count ns.
Proof. unfold edge_count. rewrite fmap_app, concat_app. simpl. by rewrite app_nil_r. Qed.

Lemma built_func ns k x : built ns -> ns !! k = Some x -> exists f, func x = Some f.
Proof.
  intros Hb. revert k x. induction Hb as [|ns f i ns' _ IH Hadd|ns a b u ns' _ IH Hdep]; intros k x Hx; [done|..].
  - rewrite add_run in Hadd. simplify_eq. apply lookup_app_Some in Hx as [Hx|[_ Hx]]; [by eauto|].
    apply list_lookup_singleton_Some in Hx as [_ <-]. by exists f.
  - destruct (dependency_inv _ _ _ _ _ Hdep) as [Ha Hb]. rewrite dependency_run in Hdep by done. simplify_eq.
    apply lookup_with_edge in Hx as (y & Hy & -> & _). by eauto.
Qed.

Section Prepare.
Context (ns : list (Node VoidFunc)) (finishCallback : option VoidFunc).
Context (Hns : dag_ok ns) (Hmax : edge_count ns + 2 * zlen ns < 2 ^ 64).
Context (rank : Key -> nat) (Hrank : forall a b, edge ns a b -> (rank a < rank b)%nat).

Abbreviation n := (length ns).
Abbreviation sourceKey := (length ns).
Abbreviation sinkKey := (S (length ns)).

Definition to_sink (l : list Key) : list Key := if decide (l = []) then [sinkKey] else l.

(** The graph after the keys below [j] have been prepared. *)
Record prepared (j : nat) ms : Prop := {
  pr_ok : dag_ok ms;
  pr_len : length ms = S sinkKey;
  pr_max : edge_count ms <= edge_count ns + 2 * Z.of_nat j;
  pr_user : forall k y, (k < n)%nat -> ms !! k = Some y ->
    exists x, ns !! k = Some x /\ func y = func x /\
      nexts y = (if decide (k < j)%nat then to_sink (nexts x) else nexts x) /\
      ((j <= k)%nat -> hasPrev y = hasPrev x);
  pr_source : forall y, ms !! sourceKey = Some y ->
    (forall b, b ∈ nexts y -> (b < j)%nat) /\
    (forall b x, (b < j)%nat -> ns !! b = Some x -> hasPrev x = false -> b ∈ nexts y);
  pr_sink : forall y, ms !! sinkKey = Some y -> func y = finishCallback /\ nexts y = [];
}.

Lemma prepared_start :
  prepared 0 ((ns ++ [mkNode None [] false 0]) ++ [mkNode finishCallback [] false 0]).
Proof.
  split.
  - by apply dag_ok_add, dag_ok_add.
  - rewrite !length_app. simpl. lia.
  - rewrite !edge_count_add. lia.
  - intros k y Hk Hy. rewrite !lookup_app_l in Hy by (rewrite ?length_app; simpl; lia). exists y. by repeat split.
  - intros y Hy. rewrite lookup_app_l, lookup_app_r, Nat.sub_diag in Hy by (rewrite ?length_app; simpl; lia).
    simplify_eq/=. split; [|lia]. intros b Hb. by apply elem_of_nil in Hb.
  - intros y Hy. rewrite lookup_app_r in Hy by (rewrite ?length_app; simpl; lia).
    rewrite length_app in Hy. apply list_lookup_singleton_Some in Hy as [_ <-]. done.
Qed.

(** Half of a round: the key [j] has its source. *)
Definition sourced (j : nat) ms : list (Node VoidFunc) :=
  match ns !! j with Some x => if hasPrev x then ms else with_edge sourceKey j ms | None => ms end.

Definition sunk (j : nat) ms : list (Node VoidFunc) :=
  match ns !! j with Some x => if decide (nexts x = []) then with_edge j sinkKey ms else ms | None => ms end.

Lemma prepare_key_run j ms :
  prepared j ms -> (j < n)%nat -> prepare_key sourceKey sinkKey j ms = Ok tt (sunk j (sourced j ms)).
Proof.
  intros Hp Hj. assert (is_Some (ms !! j)) as [y Hy] by (apply lookup_lt_is_Some; rewrite (pr_len _ _ Hp); lia).
  destruct (pr_user _ _ Hp j y Hj Hy) as (x & Hx & _ & Hn & Hprev). rewrite decide_False in Hn by lia.
  specialize (Hprev (Nat.le_refl _)). unfold prepare_key, sunk, sourced, dag_node. rewrite Hx.
  erewrite run_bind by (unfold mbind, M_bind, bind, gets; by rewrite Hy). rewrite Hprev.
  assert ((if hasPrev x then mret tt else dependency sourceKey j) ms = Ok tt (sourced j ms)) as Hs.
  { unfold sourced. rewrite Hx. destruct (hasPrev x); [done|]. apply dependency_run; rewrite (pr_len _ _ Hp); lia. }
  unfold sourced in Hs. rewrite Hx in Hs. erewrite run_bind by exact Hs. clear Hs.
  assert (exists y', (if hasPrev x then ms else with_edge sourceKey j ms) !! j = Some y' /\ nexts y' = nexts x) as (y' & Hy' & Hn').
  { destruct (hasPrev x); [by exists y|].
    assert (is_Some (with_edge sourceKey j ms !! j)) as [z Hz] by (apply lookup_lt_is_Some; rewrite length_with_edge, (pr_len _ _ Hp); lia).
    exists z. split; [done|]. apply lookup_with_edge in Hz as (y2 & Hy2 & _ & -> & _).
    rewrite decide_False by lia. congruence. }
  erewrite run_bind by (unfold mbind, M_bind, bind, gets; by rewrite Hy'). rewrite Hn'.
  case_bool_decide; [rewrite decide_True by done|by rewrite decide_False].
  apply dependency_run; destruct (hasPrev x); rewrite ?length_with_edge, (pr_len _ _ Hp); lia.
Qed.

Lemma prepared_step j ms : prepared j ms -> (j < n)%nat -> prepared (S j) (sunk j (sourced j ms)).
Proof.
  intros Hp Hj. pose proof (pr_len _ _ Hp) as Hlen.
  apply lookup_lt_is_Some in Hj as [x Hx]. pose proof (lookup_lt_Some _ _ _ Hx) as Hj.
  assert (length (sourced j ms) = S sinkKey) as Hlen'.
  { unfold sourced. rewrite Hx. destruct (hasPrev x); by rewrite ?length_with_edge. }
  assert (forall k y, sunk j (sourced j ms) !! k = Some y -> exists z, ms !! k = Some z /\ func y = func z /\
    nexts y = nexts z ++ (if decide (k = sourceKey /\ hasPrev x = false) then [j] else [])
                      ++ (if decide (k = j /\ nexts x = []) then [sinkKey] else []) /\
    ((j < k < n)%nat -> hasPrev y = hasPrev z)) as Hfields.
  { intros k y Hy. unfold sunk, sourced in Hy. rewrite Hx in Hy.
    destruct (decide (nexts x = [])) as [He|He], (hasPrev x) eqn:Hpx.
    all: repeat match goal with
      | H : with_edge _ _ _ !! _ = Some _ |- _ => apply lookup_with_edge in H as (? & ? & ? & ? & ? & ?)
      end.
    all: eexists; (split; [eassumption|]); split; [congruence|].
    all: repeat match goal with H : nexts _ = _ |- _ => rewrite H; clear H | H : hasPrev ?y = _ |- context [hasPrev ?y] => rewrite H end.
    all: split; [|intros; repeat case_decide; done || lia].
    all: repeat case_decide; rewrite ?app_nil_r, <- ?app_assoc; try done; subst; try lia; try tauto. }
  split.
  - unfold sunk, sourced. rewrite Hx. destruct Hp.
    destruct (decide (nexts x = [])), (hasPrev x); repeat apply dag_ok_edge; rewrite ?length_with_edge; done || lia.
  - unfold sunk. rewrite Hx. destruct (decide (nexts x = [])); by rewrite ?length_with_edge.
  - pose proof (pr_max _ _ Hp). unfold sunk, sourced. rewrite Hx.
    destruct (decide (nexts x = [])), (hasPrev x); rewrite ?edge_count_edge by (rewrite ?length_with_edge; lia); lia.
  - intros k y Hk (z & Hz & -> & -> & Hprev)%Hfields.
    destruct (pr_user _ _ Hp k z Hk Hz) as (x' & Hx' & Hf & -> & Hp'). exists x'. split; [done|]. split; [done|].
    rewrite (decide_False (P := k = sourceKey /\ _)) by lia. simpl. split.
    + unfold to_sink. destruct (decide (k = j)) as [->|Hne].
      * simplify_eq. rewrite (decide_False (P := (j < j)%nat)), (decide_True (P := (j < S j)%nat)) by lia.
        destruct (decide (nexts x = [])) as [He|He]; [rewrite He; by rewrite decide_True|].
        rewrite decide_False by tauto. by rewrite app_nil_r.
      * rewrite (decide_False (P := k = j /\ _)) by tauto. rewrite app_nil_r.
        destruct (decide (k < j)%nat), (decide (k < S j)%nat); done || lia.
    + intros Hle. rewrite Hprev by lia. apply Hp'. lia.
  - intros y (z & Hz & _ & -> & _)%Hfields. destruct (pr_source _ _ Hp z Hz) as [Hin Hall].
    rewrite (decide_False (P := sourceKey = j /\ _)) by lia. rewrite app_nil_r. split.
    + intros b [Hb|Hb]%elem_of_app; [specialize (Hin b Hb); lia|].
      case_decide; [apply list_elem_of_singleton in Hb; lia|by apply elem_of_nil in Hb].
    + intros b x' Hb Hx' Hp'. apply elem_of_app. destruct (decide (b = j)) as [->|Hne].
      * right. simplify_eq. rewrite decide_True by done. by left.
      * left. eapply Hall; [|done..]. lia.
  - intros y (z & Hz & -> & -> & _)%Hfields. destruct (pr_sink _ _ Hp z Hz) as [-> ->].
    rewrite !decide_False by lia. done.
Qed.

Lemma prepare_loop_run j m ms :
  prepared j ms -> (j + m = n)%nat ->
  exists ms', prepare_loop sourceKey sinkKey (seq j m) ms = Ok tt ms' /\ prepared n ms'.
Proof.
  revert j ms. induction m as [|m IH]; intros j ms Hp Hm.
  - exists ms. split; [done|]. by replace n with j by lia.
  - simpl. erewrite run_bind by (apply prepare_key_run; [done|lia]). apply IH; [|lia]. apply prepared_step; [done|lia].
Qed.

Lemma user_edge ms a b : prepared n ms -> edge ns a b -> edge ms a b.
Proof.
  intros Hp (x & Hx & Hb). pose proof (lookup_lt_Some _ _ _ Hx) as Ha.
  assert (is_Some (ms !! a)) as [y Hy] by (apply lookup_lt_is_Some; rewrite (pr_len _ _ Hp); lia).
  exists y. split; [done|]. destruct (pr_user _ _ Hp a y Ha Hy) as (x' & Hx' & _ & -> & _). simplify_eq.
  rewrite decide_True by done. unfold to_sink. case_decide as He; [|done]. rewrite He in Hb. by apply elem_of_nil in Hb.
Qed.

(** Every node of the caller leads to another one or to the sink. *)
Lemma user_leads ms a : prepared n ms -> (a < n)%nat -> exists b, edge ms a b /\ b <> sourceKey.
Proof.
  intros Hp Ha. assert (is_Some (ms !! a)) as [y Hy] by (apply lookup_lt_is_Some; rewrite (pr_len _ _ Hp); lia).
  destruct (pr_user _ _ Hp a y Ha Hy) as (x & Hx & _ & Hn & _). rewrite decide_True in Hn by done.
  unfold to_sink in Hn. case_decide as He.
  - exists sinkKey. split; [|lia]. exists y. rewrite Hn. split; [done|by left].
  - destruct (nexts x) as [|b l] eqn:Hl; [done|]. exists b. split; [exists y; rewrite Hn; split; [done|by left]|].
    assert (b < n)%nat; [|lia]. eapply (ok_range _ Hns a (b :: l)); [|by left]. by rewrite list_lookup_fmap, Hx, <- Hl.
Qed.

Lemma prepared_edge ms a b :
  prepared n ms -> edge ms a b ->
  ((a < n)%nat /\ (b < n)%nat /\ edge ns a b) \/ ((a < n)%nat /\ b = sinkKey) \/ (a = sourceKey /\ (b < n)%nat).
Proof.
  intros Hp (y & Hy & Hb). pose proof (lookup_lt_Some _ _ _ Hy) as Hlt. rewrite (pr_len _ _ Hp) in Hlt.
  destruct (decide (a < n)%nat) as [Ha|Ha]; [|destruct (decide (a = sourceKey)) as [->|]].
  - destruct (pr_user _ _ Hp a y Ha Hy) as (x & Hx & _ & Hn & _). rewrite decide_True in Hn by done.
    rewrite Hn in Hb. unfold to_sink in Hb. case_decide.
    + right. left. by apply list_elem_of_singleton in Hb.
    + left. split; [done|]. split; [|by exists x].
      eapply (ok_range _ Hns); [|exact Hb]. by rewrite list_lookup_fmap, Hx.
  - right. right. split; [done|]. by apply (pr_source _ _ Hp y Hy).
  - exfalso. replace a with sinkKey in Hy by lia. destruct (pr_sink _ _ Hp y Hy) as [_ Hn].
    rewrite Hn in Hb. by apply elem_of_nil in Hb.
Qed.

Lemma last_node : ns <> [] -> exists a x, ns !! a = Some x /\ nexts x = [].
Proof.
  intros Hne. destruct (decide (Exists (fun x => nexts x = []) ns)) as [Hex|Hno].
  { apply Exists_exists in Hex as (x & Hin & Hx). apply list_elem_of_lookup in Hin as [a Ha]. eauto. }
  exfalso. assert (forall m, exists k, (k < n)%nat /\ (m <= rank k)%nat) as Hup.
  { induction m as [|m (k & Hk & Hm)].
    - exists 0%nat. split; [|lia]. destruct ns; [done|simpl; lia].
    - apply lookup_lt_is_Some in Hk as [x Hx].
      destruct (nexts x) as [|b l] eqn:Hl.
      { exfalso. apply Hno. apply Exists_exists. exists x. split; [by eapply list_elem_of_lookup_2|done]. }
      assert (edge ns k b) as Hkb by (exists x; rewrite Hl; split; [done|by left]).
      exists b. split.
      + eapply (ok_range _ Hns k (b :: l)); [|by left]. by rewrite list_lookup_fmap, Hx, <- Hl.
      + apply Hrank in Hkb. lia. }
  destruct (Hup (S (max_list (rank <$> seq 0 n)))) as (k & Hk & Hle).
  assert (rank k <= max_list (rank <$> seq 0 n))%nat; [|lia].
  apply max_list_elem_of_le, list_elem_of_fmap. exists k. split; [done|]. apply elem_of_seq. lia.
Qed.

Lemma prepared_plan ms :
  prepared n ms -> ns <> [] -> (forall k x, ns !! k = Some x -> exists f, func x = Some f) ->
  (exists f, finishCallback = Some f) -> plan ms sourceKey.
Proof.
  intros Hp Hne Hfunc Hfin. split.
  - apply (pr_ok _ _ Hp).
  - pose proof (pr_max _ _ Hp). unfold zlen in Hmax. lia.
  - exists (fun k => if decide (k < n)%nat then S (rank k) else if decide (k = sourceKey) then 0
                     else S (S (max_list (rank <$> seq 0 n))))%nat.
    intros a b [(Ha & Hb & Hab)|[(Ha & ->)|(-> & Hb)]]%prepared_edge; [..|done].
    + rewrite !decide_True by done. apply Hrank in Hab. lia.
    + rewrite decide_True, !decide_False by lia.
      assert (rank a <= max_list (rank <$> seq 0 n))%nat; [|lia].
      apply max_list_elem_of_le, list_elem_of_fmap. exists a. split; [done|]. apply elem_of_seq. lia.
    + rewrite decide_False, !decide_True by lia. lia.
  - rewrite (pr_len _ _ Hp). lia.
  - intros a [(Ha & Hb & Hab)|[(Ha & Heq)|(-> & Hb)]]%prepared_edge; [..|done]; lia.
  - intros k Hk Hsrc. rewrite (pr_len _ _ Hp) in Hk. destruct (decide (k < n)%nat) as [Hkn|Hkn].
    + apply lookup_lt_is_Some in Hkn as [x Hx]. destruct (hasPrev x) eqn:Hprev.
      * rewrite (ok_prev _ Hns _ _ Hx) in Hprev. apply bool_decide_eq_true in Hprev.
        apply occ_nonzero in Hprev as (a & l & Ha & Hl). apply list_lookup_fmap_Some_1 in Ha as (y & -> & Hy).
        exists a. apply user_edge; [done|]. by exists y.
      * exists sourceKey. assert (is_Some (ms !! sourceKey)) as [y Hy] by (apply lookup_lt_is_Some; rewrite (pr_len _ _ Hp); lia).
        exists y. split; [done|]. eapply (pr_source _ _ Hp y Hy); [|done..]. by eapply lookup_lt_Some.
    + replace k with sinkKey by lia. destruct (last_node Hne) as (a & x & Hx & He). exists a.
      pose proof (lookup_lt_Some _ _ _ Hx) as Ha.
      assert (is_Some (ms !! a)) as [y Hy] by (apply lookup_lt_is_Some; rewrite (pr_len _ _ Hp); lia).
      exists y. split; [done|]. destruct (pr_user _ _ Hp a y Ha Hy) as (x' & Hx' & _ & -> & _). simplify_eq.
      rewrite decide_True by done. unfold to_sink. rewrite decide_True by done. by left.
  - intros k y Hy Hsrc. pose proof (lookup_lt_Some _ _ _ Hy) as Hk. rewrite (pr_len _ _ Hp) in Hk.
    destruct (decide (k < n)%nat) as [Hkn|Hkn].
    + destruct (pr_user _ _ Hp k y Hkn Hy) as (x & Hx & -> & _). by eapply Hfunc.
    + replace k with sinkKey in Hy by lia. destruct (pr_sink _ _ Hp y Hy) as [-> _]. done.
Qed.

Lemma go_prepare_run st :
  hasCycle ns = Ok false st -> exists ms, go_prepare finishCallback ns = Ok sourceKey ms /\ prepared n ms.
Proof.
  intros Hc. destruct (prepare_loop_run 0 n _ prepared_start) as (ms & Hrun & Hp); [done|].
  exists ms. split; [|done]. unfold go_prepare. erewrite run_bind by done. rewrite Hc.
  erewrite run_bind by apply add_run. erewrite run_bind by apply add_run. erewrite run_bind by done.
  rewrite !length_app. simpl. rewrite Nat.add_1_r. replace (S n + 1 - 2)%nat with n by lia.
  erewrite run_bind by exact Hrun. done.
Qed.
End Prepare.
End Go.
