(* ===== verification/DAGRun.v ===== *)
(** * scheduler/DAG: the run

    The invariant of every interleaving of the tasks, and the claims: the
    check for cycles is exact, no function runs before its predecessors have
    returned, and every run ends after each function has been called once. *)

From stdpp Require Import base list strings relations.
From S2P Require Import Prelude DAG DAGCycle.

Open Scope Z_scope.

Section Runs.
Context {VoidFunc : Type} (ms : list (Node VoidFunc)) (src : Key) (Hplan : plan ms src).
Implicit Types (r : Run VoidFunc) (t : task) (R : list (list Key)).

Abbreviation E := (nexts <$> ms).
Abbreviation N := (length ms).
Abbreviation started_keys r := (task_key <$> tasks r).

(** The edges along which a task still has to count down. *)
Definition left_of t : list Key :=
  match t with
  | Added k | Calling k => default [] (E !! k)
  | Scheduling _ rest => rest
  | Done _ => []
  end.

(** [R] holds, for every node, the edges not yet counted down: [waitCount] is
    the number of those that lead to the node. *)
Record edges_counted R r : Prop := {
  cn_len : length (nodes_ r) = N;
  cn_node : forall k y, nodes_ r !! k = Some y ->
    exists x, ms !! k = Some x /\ func y = func x /\ nexts y = nexts x /\ waitCount y = occ k R;
  cn_rlen : length R = N;
  cn_keep : forall k, k ∉ started_keys r -> R !! k = E !! k;
  cn_task : forall i t, tasks r !! i = Some t -> R !! task_key t = Some (left_of t);
  cn_sub : forall k l, R !! k = Some l -> exists l', E !! k = Some (l' ++ l);
  cn_nodup : NoDup (started_keys r);
  cn_zero : forall k, k ∈ started_keys r <-> k = src \/ (k < N)%nat /\ occ k R = 0;
  cn_src : forall i k, tasks r !! i = Some (Added k) \/ tasks r !! i = Some (Calling k) -> k <> src;
}.

(** How far a task is: 0 added, 1 calling its function, 2 past it. *)
Definition progress t : nat := match t with Added _ => 0 | Calling _ => 1 | _ => 2 end.

Definition at_least (p : nat) r (k : Key) : Prop :=
  k <> src /\ exists i t, tasks r !! i = Some t /\ task_key t = k /\ (p <= progress t)%nat.

(** What a log of calls and returns satisfies at each of its positions. *)
Definition in_order (es : list event) : Prop :=
  forall l1 e l2, es = l1 ++ e :: l2 ->
    match e with
    | Started k => forall a, edge ms a k -> a <> src -> Finished a ∈ l1
    | Finished k => Started k ∈ l1
    end.

Record logged r : Prop := {
  lg_started : forall k, Started k ∈ events r <-> at_least 1 r k;
  lg_finished : forall k, Finished k ∈ events r <-> at_least 2 r k;
  lg_nodup : NoDup (events r);
  lg_order : in_order (events r);
}.

Lemma in_order_snoc es e :
  in_order es ->
  match e with
  | Started k => forall a, edge ms a k -> a <> src -> Finished a ∈ es
  | Finished k => Started k ∈ es
  end -> in_order (es ++ [e]).
Proof.
  intros Ho He l1 e' l2 Heq. destruct l2 as [|y l2 _] using rev_ind.
  - apply app_inj_tail in Heq as [-> ->]. done.
  - rewrite app_comm_cons, app_assoc in Heq. apply app_inj_tail in Heq as [-> _]. by eapply Ho.
Qed.

Lemma same_keys (ts : list task) i t t' :
  ts !! i = Some t -> task_key t' = task_key t -> task_key <$> <[i := t']> ts = task_key <$> ts.
Proof. intros Hi Hk. rewrite list_fmap_insert. apply list_insert_id. by rewrite list_lookup_fmap, Hi, Hk. Qed.

(** Moving a task forward without touching an edge. *)
Lemma counted_move R r i t t' es :
  edges_counted R r -> tasks r !! i = Some t -> task_key t' = task_key t -> left_of t' = left_of t ->
  (forall k, t' <> Added k) -> (forall k, t' = Calling k -> t = Added k) ->
  edges_counted R (mkRun (nodes_ r) (<[i := t']> (tasks r)) es).
Proof.
  intros [] Hi Hk Hl Hna Hca. split; simpl; rewrite ?(same_keys _ _ _ _ Hi Hk); try done.
  - intros j u Hj. apply list_lookup_insert_Some in Hj as [(<- & -> & _)|[Hne Hj]]; [|by eapply cn_task0].
    rewrite Hk, Hl. by eapply cn_task0.
  - intros j k [Hj|Hj]; apply list_lookup_insert_Some in Hj as [(<- & Heq & _)|[Hne Hj]]; subst.
    + by destruct (Hna k).
    + by eapply cn_src0; left.
    + eapply (cn_src0 i). left. by rewrite Hi, (Hca k).
    + by eapply cn_src0; right.
Qed.

Lemma at_least_move p r i t t' k es :
  NoDup (started_keys r) -> tasks r !! i = Some t -> task_key t' = task_key t -> task_key t <> src ->
  at_least p (mkRun (nodes_ r) (<[i := t']> (tasks r)) es) k <->
  (if decide (k = task_key t) then (p <= progress t')%nat else at_least p r k).
Proof.
  intros Hnd Hi Hk Hsrc. unfold at_least. simpl. case_decide as Hkt; [subst k|].
  - split.
    + intros (_ & j & u & Hj & Hu & Hp). apply list_lookup_insert_Some in Hj as [(<- & -> & _)|[Hne Hj]]; [done|].
      exfalso. apply Hne. eapply (NoDup_lookup _ i j (task_key t) Hnd); rewrite list_lookup_fmap.
      * by rewrite Hi.
      * by rewrite Hj, <- Hu.
    + intros Hp. split; [done|]. exists i, t'. split; [|done]. apply list_lookup_insert_eq. by eapply lookup_lt_Some.
  - split; intros (Hks & j & u & Hj & Hu & Hp); (split; [done|]).
    + apply list_lookup_insert_Some in Hj as [(<- & -> & _)|[Hne Hj]]; [congruence|]. by exists j, u.
    + exists j, u. split; [|done]. rewrite list_lookup_insert_ne; [done|]. intros ->. congruence.
Qed.

(** The predecessors of a task that has been added have returned. *)
Lemma added_ready R r i k a :
  edges_counted R r -> tasks r !! i = Some (Added k) -> edge ms a k -> a <> src -> at_least 2 r a.
Proof.
  intros Hc Hi (x & Hx & Hk) Ha. split; [done|].
  assert (k ∈ started_keys r) as Hkin.
  { apply list_elem_of_fmap. exists (Added k). split; [done|]. by eapply list_elem_of_lookup_2. }
  apply (cn_zero _ _ Hc) in Hkin as [->|[_ Hz]]; [by destruct (cn_src _ _ Hc i src (or_introl Hi))|].
  assert (E !! a = Some (nexts x)) as HE by (by rewrite list_lookup_fmap, Hx).
  destruct (decide (a ∈ started_keys r)) as [Hin|Hnin].
  - apply list_elem_of_fmap in Hin as (t & -> & [j Hj]%list_elem_of_lookup). exists j, t. split; [done|]. split; [done|].
    pose proof (cn_task _ _ Hc _ _ Hj) as HR. pose proof (occ_zero_no _ _ _ _ Hz HR) as Hno.
    destruct t as [k'|k'|k' rest|k']; simpl in *; try lia; rewrite HE in Hno; done.
  - exfalso. eapply occ_zero_no; [exact Hz| |exact Hk]. by rewrite (cn_keep _ _ Hc).
Qed.

(** ** Counting down one edge *)

Lemma counted_bound R r k : edges_counted R r -> occ k R < 2 ^ 64.
Proof.
  intros Hc. pose proof (pl_max _ _ Hplan) as Hmax. unfold edge_count in Hmax.
  enough (occ k R <= occ k E) by (pose proof (occ_bounds k E); lia).
  assert (forall g g' : list (list Key), length g = length g' ->
    (forall i l, g !! i = Some l -> exists l', g' !! i = Some (l' ++ l)) -> occ k g <= occ k g') as Hle.
  { induction g as [|l g IH]; intros [|m g'] Hl Hg; [done|done|done|].
    destruct (Hg 0%nat l eq_refl) as [l' [= ->]].
    assert (occ k g <= occ k g'); [apply IH; [by injection Hl|]; intros i; apply (Hg (S i))|].
    unfold occ in *. simpl. rewrite !occ_in_app. pose proof (occ_in_bounds k l'). lia. }
  apply Hle; [by rewrite (cn_rlen _ _ Hc), length_fmap|]. apply (cn_sub _ _ Hc).
Qed.

Lemma schedule_counts R r i k key rest :
  edges_counted R r -> tasks r !! i = Some (Scheduling k (key :: rest)) ->
  exists r', schedule_key r i k key rest = Some r' /\ edges_counted (<[k := rest]> R) r' /\ events r' = events r /\
    exists new, tasks r' = <[i := Scheduling k rest]> (tasks r) ++ new /\ (new = [] \/ new = [Added key] /\ key <> src).
Proof.
  intros Hc Hi. pose proof (cn_task _ _ Hc _ _ Hi) as HRk. simpl in HRk.
  assert (occ key R <> 0) as Hkey0 by (apply occ_nonzero; exists k, (key :: rest); split; [done|by left]).
  destruct (cn_sub _ _ Hc _ _ HRk) as [l' Hl'].
  assert (edge ms k key) as Hedge.
  { apply list_lookup_fmap_Some_1 in Hl' as (x & Hx & Hm). exists x. split; [done|]. rewrite <- Hx.
    apply elem_of_app. right. by left. }
  assert (key < N)%nat as Hlt.
  { eapply (ok_range _ (pl_ok _ _ Hplan)); [exact Hl'|]. apply elem_of_app. right. by left. }
  assert (key <> src) as Hsrc by (intros ->; by eapply (pl_first _ _ Hplan)).
  assert (key ∉ started_keys r) as Hnew by (intros [?|[_ ?]]%(cn_zero _ _ Hc); done).
  assert (forall j, occ j (<[k := rest]> R) = occ j R - if decide (key = j) then 1 else 0) as Hocc.
  { intros j. rewrite (occ_insert _ _ _ _ _ HRk), occ_in_cons. lia. }
  assert (is_Some (nodes_ r !! key)) as [y Hy] by (apply lookup_lt_is_Some; by rewrite (cn_len _ _ Hc)).
  destruct (cn_node _ _ Hc _ _ Hy) as (x & Hx & Hf & Hn & Hw).
  pose proof (counted_bound _ _ key Hc). pose proof (occ_bounds key R).
  assert (u64 (waitCount y - 1) = occ key (<[k := rest]> R)) as Hw'.
  { rewrite Hw, Hocc, decide_True by done. rewrite u64_small; lia. }
  unfold schedule_key. rewrite Hy. cbv zeta. rewrite Hw'. eexists. split; [done|]. split; [|split; [done|]].
  2: { case_decide; eexists; [split; [done|by right]|]. split; [by rewrite app_nil_r|by left]. }
  pose proof (same_keys _ _ _ (Scheduling k rest) Hi eq_refl) as Hsame.
  assert (task_key <$> (if decide (occ key (<[k := rest]> R) = 0)
    then <[i := Scheduling k rest]> (tasks r) ++ [Added key] else <[i := Scheduling k rest]> (tasks r)) =
    started_keys r ++ if decide (occ key (<[k := rest]> R) = 0) then [key] else []) as Hkeys.
  { case_decide; rewrite ?fmap_app, Hsame, ?app_nil_r; done. }
  assert (k ∈ started_keys r) as Hkin.
  { apply list_elem_of_fmap. exists (Scheduling k (key :: rest)). split; [done|]. by eapply list_elem_of_lookup_2. }
  destruct Hc as [Hlen Hnode Hrl Hkeep Htask Hsub Hnd Hz Hs]. split; simpl; rewrite ?Hkeys.
  - by rewrite length_insert.
  - intros j z Hj. apply list_lookup_insert_Some in Hj as [(<- & <- & _)|[Hne Hj]].
    + by exists x.
    + destruct (Hnode _ _ Hj) as (x' & Hx' & ? & ? & Hw2). exists x'.
      rewrite Hocc, decide_False by done. rewrite Z.sub_0_r. done.
  - by rewrite length_insert.
  - intros j [Hj _]%not_elem_of_app. rewrite list_lookup_insert_ne by congruence. by apply Hkeep.
  - intros j t Hj.
    assert (tasks r !! j = Some t /\ i <> j \/ t = Scheduling k rest \/ t = Added key /\ occ key (<[k := rest]> R) = 0) as Hcase.
    { case_decide.
      - apply lookup_app_Some in Hj as [Hj|[_ Hj]].
        + apply list_lookup_insert_Some in Hj as [(<- & <- & _)|[Hne Hj]]; [by right; left|by left].
        + apply list_lookup_singleton_Some in Hj as [_ <-]. by right; right.
      - apply list_lookup_insert_Some in Hj as [(<- & <- & _)|[Hne Hj]]; [by right; left|by left]. }
    destruct Hcase as [[Hj' Hij]|[->|[-> _]]]; simpl.
    + rewrite list_lookup_insert_ne; [by eapply Htask|]. intros Heq. apply Hij.
      eapply (NoDup_lookup _ _ _ k Hnd); rewrite list_lookup_fmap; [by rewrite Hi|by rewrite Hj', Heq].
    + apply list_lookup_insert_eq. by eapply lookup_lt_Some.
    + assert (k <> key) by (intros ->; by apply Hnew). rewrite list_lookup_insert_ne by done.
      rewrite Hkeep by done. rewrite list_lookup_fmap, Hx. done.
  - intros j l Hj. destruct (decide (k = j)) as [<-|Hne].
    + rewrite list_lookup_insert_eq in Hj by (by eapply lookup_lt_Some). simplify_eq.
      exists (l' ++ [key]). by rewrite <- app_assoc.
    + rewrite list_lookup_insert_ne in Hj by done. by apply Hsub.
  - apply NoDup_app. split; [done|]. split.
    + intros j Hj. case_decide; [|apply not_elem_of_nil]. rewrite list_elem_of_singleton. by intros ->.
    + case_decide; [apply NoDup_singleton|apply NoDup_nil_2].
  - intros j. rewrite elem_of_app, Hz. destruct (decide (key = j)) as [<-|Hne].
    + destruct (decide (occ key (<[k := rest]> R) = 0)) as [Hd|Hd]; rewrite ?list_elem_of_singleton, ?elem_of_nil; naive_solver.
    + rewrite (Hocc j), (decide_False (P := key = j)), Z.sub_0_r by done.
      case_decide; rewrite ?list_elem_of_singleton, ?elem_of_nil; naive_solver.
  - intros j k' Hj.
    assert ((tasks r !! j = Some (Added k') \/ tasks r !! j = Some (Calling k')) \/ k' = key) as [Ho| ->]; [|by eapply Hs|done].
    case_decide; destruct Hj as [Hj|Hj].
    1,2: apply lookup_app_Some in Hj as [Hj|[_ Hj]];
      [|apply list_lookup_singleton_Some in Hj as [_ Hj]; by simplify_eq; auto].
    all: apply list_lookup_insert_Some in Hj as [(_ & ? & _)|[_ Hj]]; [done|]; auto.
Qed.

(** Moving on within [schedule], and adding tasks, changes no progress. *)
Lemma at_least_same p r r' i t t' new k :
  tasks r !! i = Some t -> task_key t' = task_key t -> progress t' = progress t ->
  tasks r' = <[i := t']> (tasks r) ++ new -> Forall (fun u => progress u = 0%nat) new -> (0 < p)%nat ->
  at_least p r' k <-> at_least p r k.
Proof.
  intros Hi Hk Hp Hts Hnew Hpos. unfold at_least. rewrite Hts.
  split; intros (Hks & j & u & Hj & Hu & Hpu); (split; [done|]).
  - apply lookup_app_Some in Hj as [Hj|[_ Hj]].
    + apply list_lookup_insert_Some in Hj as [(<- & <- & _)|[Hne Hj]]; [|by exists j, u].
      exists i, t. rewrite <- Hk, <- Hp. done.
    + rewrite Forall_forall in Hnew. rewrite (Hnew u) in Hpu by (by eapply list_elem_of_lookup_2). lia.
  - assert (j < length (<[i := t']> (tasks r)))%nat as Hlt by (rewrite length_insert; by eapply lookup_lt_Some).
    destruct (decide (i = j)) as [<-|Hne].
    + exists i, t'. rewrite lookup_app_l by done. rewrite list_lookup_insert_eq by (by eapply lookup_lt_Some).
      simplify_eq. rewrite Hk, Hp. done.
    + exists j, u. rewrite lookup_app_l by done. by rewrite list_lookup_insert_ne.
Qed.

Lemma logged_same r r' i t t' new :
  logged r -> tasks r !! i = Some t -> task_key t' = task_key t -> progress t' = progress t ->
  tasks r' = <[i := t']> (tasks r) ++ new -> Forall (fun u => progress u = 0%nat) new -> events r' = events r ->
  logged r'.
Proof.
  intros [] Hi Hk Hp Hts Hnew Hev. split; rewrite ?Hev; try done.
  - intros k. rewrite lg_started0. symmetry. eapply at_least_same; eauto.
  - intros k. rewrite lg_finished0. symmetry. eapply at_least_same; eauto.
Qed.

(** What is left to do. *)
Definition weight t : Z := match t with Added _ => 3 | Calling _ => 2 | Scheduling _ _ => 1 | Done _ => 0 end.

Definition work (ts : list task) : Z := foldr Z.add 0 (weight <$> ts).

Definition potential R r : Z := zlen (concat R) + work (tasks r) + 4 * (Z.of_nat N - zlen (tasks r)).

Lemma work_app ts ts' : work (ts ++ ts') = work ts + work ts'.
Proof. unfold work. rewrite fmap_app. induction (weight <$> ts) as [|w ws IH]; simpl; lia. Qed.

Lemma work_insert ts i t t' : ts !! i = Some t -> work (<[i := t']> ts) = work ts - weight t + weight t'.
Proof.
  intros Hi. rewrite insert_take_drop by (by eapply lookup_lt_Some).
  rewrite <- (take_drop_middle ts i t Hi) at 3. rewrite !work_app. unfold work. simpl. lia.
Qed.

Lemma length_started R r : edges_counted R r -> zlen (tasks r) <= Z.of_nat N.
Proof.
  intros Hc. assert (started_keys r ⊆ seq 0 N) as Hsub.
  { intros k Hk. apply elem_of_seq. pose proof (pl_src _ _ Hplan). apply (cn_zero _ _ Hc) in Hk. destruct Hk as [->|[? _]]; lia. }
  pose proof (submseteq_length _ _ (NoDup_submseteq _ _ (cn_nodup _ _ Hc) Hsub)) as Hl.
  rewrite length_seq, length_fmap in Hl. unfold zlen. lia.
Qed.

Lemma potential_nonneg R r : edges_counted R r -> 0 <= potential R r.
Proof.
  intros Hc. pose proof (length_started _ _ Hc). unfold potential.
  assert (forall ts, 0 <= work ts) as Hw.
  { unfold work. induction ts as [|[] ts IH]; csimpl; lia. }
  pose proof (Hw (tasks r)). pose proof (zlen_nonneg (concat R)). lia.
Qed.

Definition running r : Prop := exists R, edges_counted R r /\ logged r.

Lemma potential_move R r i t t' ev :
  tasks r !! i = Some t -> potential R (mkRun (nodes_ r) (<[i := t']> (tasks r)) ev) = potential R r - weight t + weight t'.
Proof. intros Hi. unfold potential. simpl. rewrite (work_insert _ _ t) by done. unfold zlen. rewrite length_insert. lia. Qed.

Lemma call_step R r i k :
  edges_counted R r -> logged r -> tasks r !! i = Some (Added k) ->
  let r' := mkRun (nodes_ r) (<[i := Calling k]> (tasks r)) (events r ++ [Started k]) in
  edges_counted R r' /\ logged r'.
Proof.
  intros Hc Hlg Hi r'. pose proof (cn_src _ _ Hc i k (or_introl Hi)) as Hsrc. pose proof (cn_nodup _ _ Hc) as Hnd.
  assert (forall p k', at_least p r' k' <-> if decide (k' = k) then (p <= 1)%nat else at_least p r k') as Hal.
  { intros p k'. by apply (at_least_move p r i (Added k) (Calling k)). }
  assert (forall p, at_least p r k -> (p <= 0)%nat) as Hk0.
  { intros p (_ & j & u & Hj & Hu & Hp). assert (i = j) as <-; [|rewrite Hi in Hj; injection Hj as <-; exact Hp].
    eapply (NoDup_lookup _ _ _ k Hnd); rewrite list_lookup_fmap; [by rewrite Hi|by rewrite Hj, <- Hu]. }
  split; [eapply counted_move; [done|exact Hi|done|done|done|by intros ? [= ->]]|]. split; simpl.
  - intros k'. rewrite elem_of_app, list_elem_of_singleton, (lg_started _ Hlg), Hal.
    destruct (decide (k' = k)) as [->|Hne]; naive_solver.
  - intros k'. rewrite elem_of_app, list_elem_of_singleton, (lg_finished _ Hlg), Hal.
    destruct (decide (k' = k)) as [->|Hne]; [|naive_solver].
    split; [intros [Hal2|?]; [apply Hk0 in Hal2; lia|done]|lia].
  - apply NoDup_app. split; [by apply lg_nodup|]. split; [|apply NoDup_singleton].
    intros e He ->%list_elem_of_singleton. apply (lg_started _ Hlg), Hk0 in He. lia.
  - apply in_order_snoc; [by apply lg_order|]. intros a Ha Hne. apply (lg_finished _ Hlg). by eapply added_ready.
Qed.

Lemma return_step R r i k x :
  edges_counted R r -> logged r -> tasks r !! i = Some (Calling k) -> nodes_ r !! k = Some x ->
  let r' := mkRun (nodes_ r) (<[i := Scheduling k (nexts x)]> (tasks r)) (events r ++ [Finished k]) in
  edges_counted R r' /\ logged r'.
Proof.
  intros Hc Hlg Hi Hx r'. pose proof (cn_src _ _ Hc i k (or_intror Hi)) as Hsrc. pose proof (cn_nodup _ _ Hc) as Hnd.
  assert (forall p k', at_least p r' k' <-> if decide (k' = k) then (p <= 2)%nat else at_least p r k') as Hal.
  { intros p k'. by apply (at_least_move p r i (Calling k) (Scheduling k (nexts x))). }
  assert (forall p, at_least p r k <-> (p <= 1)%nat) as Hk1.
  { intros p. split; [|intros Hp; split; [done|]; by exists i, (Calling k)].
    intros (_ & j & u & Hj & Hu & Hp). assert (i = j) as <-; [|rewrite Hi in Hj; injection Hj as <-; exact Hp].
    eapply (NoDup_lookup _ _ _ k Hnd); rewrite list_lookup_fmap; [by rewrite Hi|by rewrite Hj, <- Hu]. }
  split.
  - eapply counted_move; try done. simpl. destruct (cn_node _ _ Hc _ _ Hx) as (y & Hy & _ & -> & _).
    by rewrite list_lookup_fmap, Hy.
  - split; simpl.
    + intros k'. rewrite elem_of_app, list_elem_of_singleton, (lg_started _ Hlg), Hal.
      destruct (decide (k' = k)) as [->|Hne]; [rewrite Hk1|]; naive_solver lia.
    + intros k'. rewrite elem_of_app, list_elem_of_singleton, (lg_finished _ Hlg), Hal.
      destruct (decide (k' = k)) as [->|Hne]; naive_solver.
    + apply NoDup_app. split; [by apply lg_nodup|]. split; [|apply NoDup_singleton].
      intros e He ->%list_elem_of_singleton. apply (lg_finished _ Hlg), Hk1 in He. lia.
    + apply in_order_snoc; [by apply lg_order|]. apply (lg_started _ Hlg), Hk1. lia.
Qed.

(** Every step keeps the invariant and uses up potential. *)
Lemma run_step_inv R r r' :
  edges_counted R r -> logged r -> run_step r r' -> exists R', edges_counted R' r' /\ logged r' /\ potential R' r' < potential R r.
Proof.
  intros Hc Hlg Hstep. destruct Hstep as [r i k x f Hi Hx Hf|r i k x Hi Hx|r r' i k key rest Hi Hr|r i k Hi].
  - destruct (call_step _ _ _ _ Hc Hlg Hi). exists R. erewrite potential_move by done. simpl. split_and!; [done|done|lia].
  - destruct (return_step _ _ _ _ _ Hc Hlg Hi Hx). exists R. erewrite potential_move by done. simpl. split_and!; [done|done|lia].
  - destruct (schedule_counts _ _ _ _ _ _ Hc Hi) as (r2 & Hr2 & Hc2 & Hev & new & Hts & Hnew). simplify_eq.
    pose proof (cn_task _ _ Hc _ _ Hi) as HRk. simpl in HRk.
    exists (<[k := rest]> R). split; [done|]. split.
    + eapply logged_same; [exact Hlg|exact Hi|..|exact Hts| |done]; [done|done|].
      destruct Hnew as [->|[-> _]]; by repeat constructor.
    + unfold potential. rewrite Hts, work_app, (work_insert _ _ _ _ Hi), zlen_app. unfold zlen at 2. rewrite length_insert.
      assert (zlen (concat (<[k := rest]> R)) = zlen (concat R) - 1) as ->.
      { rewrite insert_take_drop by (by eapply lookup_lt_Some). rewrite <- (take_drop_middle R k _ HRk) at 3.
        rewrite !concat_app. simpl. unfold zlen. rewrite !length_app. simpl. rewrite length_app. lia. }
      destruct Hnew as [->|[-> _]]; unfold zlen, work; simpl; lia.
  - exists R. erewrite potential_move by done. simpl. split_and!; [by eapply counted_move|..|lia].
    eapply (logged_same _ _ i (Scheduling k []) (Done k) []); try done. simpl. by rewrite app_nil_r.
Qed.

Definition run0 (x : Node VoidFunc) : Run VoidFunc := mkRun ms [Scheduling src (nexts x)] [].

Lemma run_start x : ms !! src = Some x -> edges_counted E (run0 x) /\ logged (run0 x).
Proof.
  intros Hx. pose proof (pl_max _ _ Hplan) as Hmax. unfold edge_count in Hmax.
  assert (forall k, (k < N)%nat -> k <> src -> occ k E <> 0) as Hpred.
  { intros k Hk Hne. destruct (pl_pred _ _ Hplan k Hk Hne) as (a & y & Ha & Hy).
    apply occ_nonzero. exists a, (nexts y). split; [by rewrite list_lookup_fmap, Ha|done]. }
  assert (forall p k, (0 < p)%nat -> ~ at_least p (run0 x) k) as Hno.
  { intros p k Hp (Hk & [|i] & t & Ht & Hkt & _); simpl in Ht; [simplify_eq/=|done]. }
  split; split; simpl; try done.
  - intros k y Hy. exists y. split; [done|]. split; [done|]. split; [done|].
    rewrite (ok_wait _ (pl_ok _ _ Hplan) _ _ Hy). pose proof (occ_bounds k E). apply u64_small. lia.
  - by rewrite length_fmap.
  - intros [|i] t Ht; simplify_eq/=. by rewrite list_lookup_fmap, Hx.
  - intros k l Hl. by exists [].
  - apply NoDup_singleton.
  - intros k. rewrite list_elem_of_singleton. split; [by left|]. intros [->|[Hk Hz]]; [done|].
    destruct (decide (k = src)); [done|]. by destruct (Hpred k).
  - intros [|i] k [Hi|Hi]; simplify_eq/=.
  - intros k. rewrite elem_of_nil. pose proof (Hno 1%nat k). naive_solver lia.
  - intros k. rewrite elem_of_nil. pose proof (Hno 2%nat k). naive_solver lia.
  - apply NoDup_nil_2.
  - intros l1 e l2 Heq. by destruct l1.
Qed.

Lemma run_steps m R r r' :
  edges_counted R r -> logged r -> nsteps run_step m r r' ->
  exists R', edges_counted R' r' /\ logged r' /\ potential R' r' + Z.of_nat m <= potential R r.
Proof.
  revert R r. induction m as [|m IH]; intros R r Hc Hlg Hs; inversion Hs as [|? ? y ? Hstep Hrest]; subst.
  - exists R. split_and!; [done|done|lia].
  - destruct (run_step_inv _ _ _ Hc Hlg Hstep) as (R1 & Hc1 & Hlg1 & Hpot).
    destruct (IH R1 y Hc1 Hlg1 Hrest) as (R' & ? & ? & ?). exists R'. split_and!; [done|done|lia].
Qed.

Lemma started_lt R r k : edges_counted R r -> k ∈ started_keys r -> (k < N)%nat.
Proof. intros Hc Hk. apply (cn_zero _ _ Hc) in Hk as [->|[? _]]; [apply (pl_src _ _ Hplan)|done]. Qed.

(** A task that is not done can take a step. *)
Lemma task_can_step R r i t : edges_counted R r -> tasks r !! i = Some t -> (forall k, t <> Done k) -> exists r', run_step r r'.
Proof.
  intros Hc Hi Hnd.
  assert (is_Some (nodes_ r !! task_key t)) as [y Hy].
  { apply lookup_lt_is_Some. rewrite (cn_len _ _ Hc). eapply started_lt; [done|].
    apply list_elem_of_fmap. exists t. split; [done|]. by eapply list_elem_of_lookup_2. }
  destruct t as [k|k|k [|key rest]|k]; simpl in Hy.
  - destruct (cn_node _ _ Hc _ _ Hy) as (x & Hx & Hf & _).
    destruct (pl_func _ _ Hplan k x Hx) as [f Hfx]; [by eapply (cn_src _ _ Hc); left|].
    eexists. eapply run_call; [done|done|]. by rewrite Hf.
  - eexists. by eapply run_return.
  - eexists. by eapply run_done.
  - destruct (schedule_counts _ _ _ _ _ _ Hc Hi) as (r' & Hr' & _). exists r'. by eapply run_schedule.
  - by destruct (Hnd k).
Qed.

(** When no task can take a step, every node has been run. *)
Lemma stuck_all_done R r k :
  edges_counted R r -> (forall r', ~ run_step r r') -> (k < N)%nat -> exists i, tasks r !! i = Some (Done k).
Proof.
  intros Hc Hstuck.
  assert (forall i t, tasks r !! i = Some t -> exists k, t = Done k) as Hdone.
  { intros i t Hi. destruct t as [k'|k'|k' l|k']; [..|by exists k']; exfalso.
    all: destruct (task_can_step _ _ _ _ Hc Hi) as [r' Hr']; [done|by destruct (Hstuck r')]. }
  destruct (pl_rank _ _ Hplan) as [rank Hrank].
  assert (forall m k, (rank k < m)%nat -> (k < N)%nat -> k ∈ started_keys r) as Hall.
  { induction m as [|m IH]; intros k' Hm Hk'; [lia|]. apply (cn_zero _ _ Hc). right. split; [done|].
    apply dec_stable. intros (a & l & Ha & Hl)%occ_nonzero.
    assert (a ∈ started_keys r) as Hin.
    { apply dec_stable. intros Hnin. apply Hnin. rewrite (cn_keep _ _ Hc) in Ha by done.
      apply list_lookup_fmap_Some_1 in Ha as (x & -> & Hx). apply IH; [|by eapply lookup_lt_Some].
      assert (rank a < rank k')%nat; [|lia]. apply Hrank. by exists x. }
    apply list_elem_of_fmap in Hin as (t & -> & [i Hi]%list_elem_of_lookup).
    destruct (Hdone i t Hi) as [k2 ->]. rewrite (cn_task _ _ Hc _ _ Hi) in Ha. simplify_eq/=. by apply elem_of_nil in Hl. }
  intros Hk. specialize (Hall (S (rank k)) k (Nat.lt_succ_diag_r _) Hk).
  apply list_elem_of_fmap in Hall as (t & -> & [i Hi]%list_elem_of_lookup). exists i.
  by destruct (Hdone i t Hi) as [k2 ->].
Qed.

(** The log orders every node before those it leads to, and the last node
    after all those that lead to it. *)
Lemma order_before l1 k l2 es a :
  in_order es -> es = l1 ++ Started k :: l2 -> a <> src -> tc (edge ms) a k -> Finished a ∈ l1.
Proof.
  intros Ho Heq Ha Htc. revert l1 l2 Heq. induction Htc as [a k Hab|a b k Hab Htc IH]; intros l1 l2 Heq.
  - by eapply (Ho l1 (Started k)).
  - assert (b <> src) as Hb by (intros ->; by eapply (pl_first _ _ Hplan)).
    specialize (IH Hb l1 l2 Heq). apply list_elem_of_split in IH as (m1 & m2 & ->).
    assert (Started b ∈ m1) as Hin by (eapply (Ho m1 (Finished b) (m2 ++ Started k :: l2)); rewrite Heq, <- app_assoc; done).
    apply list_elem_of_split in Hin as (p1 & p2 & ->).
    assert (Finished a ∈ p1) as Hfin.
    { eapply (Ho p1 (Started b) (p2 ++ Finished b :: m2 ++ Started k :: l2)); [|done..].
      rewrite Heq, <- !app_assoc. simpl. done. }
    set_solver.
Qed.
End Runs.
