(* ===== verification/DAGSpec.v ===== *)
(** * scheduler/DAG: the claims

    The check for cycles is exact, a run respects the order of the graph in every
    interleaving, and it ends with each function called once. *)

From stdpp Require Import base list strings relations.
From S2P Require Import Prelude DAG DAGCycle DAGRun.

Open Scope Z_scope.

Section Claims.
Context {VoidFunc : Type}.
Implicit Types (ns ms : list (Node VoidFunc)) (r : Run VoidFunc).

(** What [go] does with a graph that its callers can build. *)
Lemma go_run ns finish :
  built ns -> edge_count ns + 2 * zlen ns < 2 ^ 64 ->
  exists b st, hasCycle ns = Ok b st /\
    if b then (exists k, tc (edge ns) k k) /\ go finish ns = Throw (runtime_error "Cycle in DAG graph") ns
    else (exists rank : Key -> nat, forall a b, edge ns a b -> (rank a < rank b)%nat) /\
      exists ms x, prepared ns finish (length ns) ms /\ ms !! length ns = Some x /\
        go finish ns = Ok (run0 ms (length ns) x) ms.
Proof.
  intros Hb Hmax. pose proof (built_ok _ Hb) as Hok.
  destruct (hasCycle_run ns Hok) as (b & st & Hc & Hspec); [pose proof (zlen_nonneg ns); lia|].
  exists b, st. split; [done|]. destruct b.
  - split; [done|]. unfold go, go_prepare. unfold mbind, M_bind, bind at 1, get. by rewrite Hc.
  - destruct Hspec as [rank Hrank]. split; [by exists rank|].
    destruct (go_prepare_run ns finish Hok st Hc) as (ms & Hgo & Hp).
    assert (is_Some (ms !! length ns)) as [x Hx] by (apply lookup_lt_is_Some; rewrite (pr_len _ _ _ _ Hp); lia).
    exists ms, x. split; [done|]. split; [done|]. unfold go. rewrite Hgo, Hx. done.
Qed.

Lemma go_planned ns f r0 ms' :
  built ns -> edge_count ns + 2 * zlen ns < 2 ^ 64 -> ns <> [] -> go (Some f) ns = Ok r0 ms' ->
  exists ms x, plan ms (length ns) /\ prepared ns (Some f) (length ns) ms /\
    ms !! length ns = Some x /\ r0 = run0 ms (length ns) x.
Proof.
  intros Hb Hmax Hne Hgo. destruct (go_run ns (Some f) Hb Hmax) as (b & st & _ & Hspec).
  destruct b; [destruct Hspec as [_ Hthrow]; congruence|].
  destruct Hspec as ([rank Hrank] & ms & x & Hp & Hx & Hgo'). exists ms, x. rewrite Hgo in Hgo'. simplify_eq.
  split; [|done]. eapply (prepared_plan ns (Some f)); [by apply built_ok|done|done|done|done| |by exists f].
  intros k y Hy. by eapply built_func.
Qed.

(** Without nodes the source and the sink are not connected: nothing runs. *)
Lemma empty_run (f : VoidFunc) r0 ms' r :
  go (Some f) [] = Ok r0 ms' -> rtc run_step r0 r ->
  events r = [] /\ (tasks r = [Scheduling 0%nat []] \/ tasks r = [Done 0%nat]).
Proof.
  intros Hgo Hs. assert (events r0 = [] /\ tasks r0 = [Scheduling 0%nat []]) as [He Ht].
  { vm_compute in Hgo. injection Hgo as <- _. done. }
  assert (events r0 = [] /\ (tasks r0 = [Scheduling 0%nat []] \/ tasks r0 = [Done 0%nat])) as Hinv by auto.
  clear Hgo He Ht. induction Hs as [r|r r1 r2 Hstep _ IH]; [done|]. apply IH. destruct Hinv as [He Ht].
  destruct Hstep as [r i k x g Hi|r i k x Hi|r r' i k key rest Hi|r i k Hi].
  all: destruct Ht as [Ht|Ht]; rewrite Ht in Hi; destruct i; simplify_eq/=.
  split; [done|]. right. by rewrite Ht.
Qed.

Lemma empty_run_steps (f : VoidFunc) r0 ms' m r :
  go (Some f) [] = Ok r0 ms' -> nsteps run_step m r0 r -> (m <= 1)%nat.
Proof.
  intros Hgo Hs. destruct m as [|[|m]]; [lia|lia|]. exfalso.
  inversion Hs as [|? ? r1 ? H1 Hs1]; subst. inversion Hs1 as [|? ? r2 ? H2 _]; subst.
  assert (tasks r1 = [Done 0%nat]) as Ht.
  { vm_compute in Hgo. injection Hgo as <- _. inversion H1 as [? i ? ? ? Hi|? i ? ? Hi|? ? i ? ? ? Hi|? i ? Hi]; subst;
      destruct i; simplify_eq/=; done. }
  inversion H2 as [? i ? ? ? Hi|? i ? ? Hi|? ? i ? ? ? Hi|? i ? Hi]; subst; rewrite Ht in Hi; destruct i; simplify_eq/=.
Qed.

(** The nodes of the caller lead to the sink. *)
Lemma leads_to_sink ns f ms a :
  dag_ok ns -> prepared ns (Some f) (length ns) ms -> plan ms (length ns) -> (a < length ns)%nat ->
  tc (edge ms) a (S (length ns)).
Proof.
  intros Hok Hp Hplan Ha. destruct (pl_rank _ _ Hplan) as [rank Hrank].
  assert (forall k, (k < length ms)%nat -> (rank k <= max_list (rank <$> seq 0 (length ms)))%nat) as Hle.
  { intros k Hk. apply max_list_elem_of_le, list_elem_of_fmap. exists k. split; [done|]. apply elem_of_seq. lia. }
  assert (forall m a, (max_list (rank <$> seq 0 (length ms)) - rank a < m)%nat -> (a < length ns)%nat ->
    tc (edge ms) a (S (length ns))) as H; [|by eapply H; [apply Nat.lt_succ_diag_r|]].
  clear a Ha. induction m as [|m IH]; intros a Hm Ha; [lia|].
  destruct (user_leads ns (Some f) Hok ms a Hp Ha) as (b & Hab & Hb).
  destruct (decide (b = S (length ns))) as [->|Hne]; [by apply tc_once|].
  assert (b < length ns)%nat as Hbn.
  { destruct (prepared_edge ns (Some f) Hok ms a b Hp Hab) as [(? & ? & _)|[(? & ?)|(? & ?)]]; done. }
  eapply tc_l; [done|]. apply IH; [|done]. pose proof (Hrank a b Hab).
  assert (rank b <= max_list (rank <$> seq 0 (length ms)))%nat; [|lia]. apply Hle. rewrite (pr_len _ _ _ _ Hp). lia.
Qed.

Lemma reached ns f r0 ms' m r :
  built ns -> edge_count ns + 2 * zlen ns < 2 ^ 64 -> ns <> [] -> go (Some f) ns = Ok r0 ms' ->
  nsteps run_step m r0 r ->
  exists ms R, plan ms (length ns) /\ prepared ns (Some f) (length ns) ms /\
    edges_counted ms (length ns) R r /\ logged ms (length ns) r /\
    Z.of_nat m <= edge_count ns + 6 * zlen ns + 5.
Proof.
  intros Hb Hmax Hne Hgo Hs. destruct (go_planned _ _ _ _ Hb Hmax Hne Hgo) as (ms & x & Hplan & Hp & Hx & ->).
  destruct (run_start _ _ Hplan x Hx) as [Hc Hlg].
  destruct (run_steps _ _ Hplan m _ _ _ Hc Hlg Hs) as (R & Hc' & Hlg' & Hpot).
  exists ms, R. split_and!; try done. pose proof (potential_nonneg _ _ Hplan _ _ Hc').
  pose proof (pr_max _ _ _ _ Hp). pose proof (pr_len _ _ _ _ Hp) as Hlen.
  unfold potential in Hpot at 2. unfold edge_count, work, zlen, run0 in *. simpl in *. lia.
Qed.

(** In a complete log the sink comes last. *)
Lemma sink_last ms src sink es :
  in_order ms src es -> NoDup es -> Finished sink ∈ es ->
  (forall k, Started k ∈ es \/ Finished k ∈ es -> k <> sink -> forall l1 l2, es = l1 ++ Started sink :: l2 -> Finished k ∈ l1) ->
  exists l, es = l ++ [Started sink; Finished sink].
Proof.
  intros Ho Hnd Hfin Hbefore. assert (forall k, Finished k ∈ es -> Started k ∈ es) as Hstart.
  { intros k (m1 & m2 & ->)%list_elem_of_split. apply elem_of_app. left. by eapply (Ho m1 (Finished k) m2). }
  pose proof (Hstart _ Hfin) as (l1 & l2 & Heq)%list_elem_of_split. exists l1. rewrite Heq. do 2 f_equal.
  rewrite Heq in Hnd. apply NoDup_app in Hnd as (Hnd1 & Hdisj & [Hnin Hnd2]%NoDup_cons).
  assert (forall k, Finished k ∈ l1 -> Started k ∈ l1) as Hstart1.
  { intros k (m1 & m2 & ->)%list_elem_of_split. apply elem_of_app. left.
    eapply (Ho m1 (Finished k) (m2 ++ Started sink :: l2)). by rewrite Heq, <- app_assoc. }
  assert (forall e, e ∈ l2 -> e = Finished sink) as Hl2.
  { intros e He. assert (e ∈ es) as Hes by (rewrite Heq; set_solver).
    destruct e as [k|k]; destruct (decide (k = sink)) as [->|Hk]; try done; exfalso.
    - apply (Hdisj (Started k)); [|by right]. apply Hstart1. by eapply Hbefore; [left| |].
    - apply (Hdisj (Finished k)); [|by right]. by eapply Hbefore; [right| |]. }
  assert (Finished sink ∈ l2) as Hin.
  { rewrite Heq in Hfin. apply elem_of_app in Hfin as [Hl|Hl].
    - exfalso. apply (Hdisj (Started sink)); [by apply Hstart1|by left].
    - apply elem_of_cons in Hl as [?|?]; done. }
  destruct l2 as [|e1 l2]; [by apply elem_of_nil in Hin|]. rewrite (Hl2 e1) in * by (by left).
  destruct l2 as [|e2 l2]; [done|]. exfalso. rewrite (Hl2 e2) in Hnd2 by (by right; left).
  apply NoDup_cons in Hnd2 as [Hn _]. apply Hn. by left.
Qed.

(** C25: [hasCycle] terminates on every graph that [add] and [dependency]
    can build and answers true exactly when some node leads back to itself;
    [go] then throws and leaves the graph as it was, and otherwise starts the
    run. *)
Theorem hasCycle_exact ns finish :
  built ns -> edge_count ns + 2 * zlen ns < 2 ^ 64 ->
  exists b st, hasCycle ns = Ok b st /\ (b = true <-> exists k, tc (edge ns) k k) /\
    (if b then go finish ns = Throw (runtime_error "Cycle in DAG graph") ns
     else exists r ms, go finish ns = Ok r ms).
Proof.
  intros Hb Hmax. destruct (go_run ns finish Hb Hmax) as (b & st & Hc & Hspec). exists b, st. split; [done|].
  destruct b.
  - destruct Hspec as [Hcyc Hgo]. by split.
  - destruct Hspec as ([rank Hrank] & ms & x & _ & _ & Hgo). split; [|by eauto].
    split; [done|]. intros [k Hk]. by apply (ranked_acyclic _ _ Hrank) in Hk.
Qed.

(** C23: In every interleaving of the tasks of a run no function is called
    twice or returns twice, a function is only called when those of all its
    predecessors have returned, and the finish callback (the node behind the
    caller's nodes and the source) only when all of them have. *)
Theorem dag_order ns f r0 ms r :
  built ns -> edge_count ns + 2 * zlen ns < 2 ^ 64 -> go (Some f) ns = Ok r0 ms -> rtc run_step r0 r ->
  NoDup (events r) /\
  forall l1 k l2, events r = l1 ++ Started k :: l2 ->
    (k < length ns \/ k = S (length ns))%nat /\
    (forall a, edge ns a k -> Finished a ∈ l1) /\
    (k = S (length ns) -> forall a, (a < length ns)%nat -> Finished a ∈ l1).
Proof.
  intros Hb Hmax Hgo Hs. destruct (decide (length ns = 0%nat)) as [Hz|Hz].
  { destruct ns; [|done]. destruct (empty_run _ _ _ _ Hgo Hs) as [-> _].
    split; [apply NoDup_nil_2|]. intros l1 k l2 Heq. by destruct l1. }
  assert (ns <> []) as Hne by (by intros ->). apply rtc_nsteps in Hs as [m Hs].
  destruct (reached _ _ _ _ _ _ Hb Hmax Hne Hgo Hs) as (ms2 & R & Hplan & Hp & Hc & Hlg & _).
  pose proof (lg_order _ _ _ Hlg) as Ho. split; [by apply lg_nodup in Hlg|]. intros l1 k l2 Heq.
  assert (forall a, (a < length ns)%nat -> a <> length ns) as Hsrc by lia. split_and!.
  - assert (Started k ∈ events r) as Hin by (rewrite Heq; set_solver).
    apply (lg_started _ _ _ Hlg) in Hin as (Hk & i & t & Ht & <- & _).
    assert (task_key t < length ms2)%nat as Hlt.
    { eapply started_lt; [done..|]. apply list_elem_of_fmap. exists t. split; [done|]. by eapply list_elem_of_lookup_2. }
    rewrite (pr_len _ _ _ _ Hp) in Hlt. lia.
  - intros a Ha. eapply order_before; [done|done|exact Heq|..].
    + destruct Ha as (x & Hx & _). apply Hsrc. by eapply lookup_lt_Some.
    + apply tc_once. by eapply user_edge.
  - intros -> a Ha. eapply order_before; [done|done|exact Heq|by apply Hsrc|].
    eapply leads_to_sink; [by apply built_ok|done..].
Qed.

(** C24: Every run is finite, with a bound on its steps, and when no task can
    go on every function of a graph with nodes has been called and has
    returned, the finish callback as the very last.  On a graph without nodes
    the finish callback is never called. *)
Theorem dag_completes ns f r0 ms :
  built ns -> edge_count ns + 2 * zlen ns < 2 ^ 64 -> go (Some f) ns = Ok r0 ms ->
  (forall m r, nsteps run_step m r0 r -> Z.of_nat m <= edge_count ns + 6 * zlen ns + 5) /\
  (ns <> [] -> forall r, rtc run_step r0 r -> (forall r', ~ run_step r r') ->
    (forall k, (k < length ns)%nat -> Started k ∈ events r /\ Finished k ∈ events r) /\
    exists l, events r = l ++ [Started (S (length ns)); Finished (S (length ns))]) /\
  (ns = [] -> forall r, rtc run_step r0 r -> events r = []).
Proof.
  intros Hb Hmax Hgo. split_and!.
  - intros m r Hs. destruct (decide (length ns = 0%nat)) as [Hz|Hz].
    + destruct ns; [|done]. pose proof (empty_run_steps _ _ _ _ _ Hgo Hs). unfold edge_count, zlen. simpl. lia.
    + assert (ns <> []) as Hne by (by intros ->). by destruct (reached _ _ _ _ _ _ Hb Hmax Hne Hgo Hs) as (? & ? & ? & ? & ? & ? & ?).
  - intros Hne r Hs Hstuck. apply rtc_nsteps in Hs as [m Hs].
    destruct (reached _ _ _ _ _ _ Hb Hmax Hne Hgo Hs) as (ms2 & R & Hplan & Hp & Hc & Hlg & _).
    pose proof (pr_len _ _ _ _ Hp) as Hlen.
    assert (forall p k, (k < length ms2)%nat -> k <> length ns -> (p <= 2)%nat -> at_least (length ns) p r k) as Hal.
    { intros p k Hk Hsrc Hp2. destruct (stuck_all_done _ _ Hplan R r k Hc Hstuck Hk) as [i Hi].
      split; [done|]. by exists i, (Done k). }
    assert (forall k, Started k ∈ events r \/ Finished k ∈ events r -> k <> length ns /\ (k < length ms2)%nat) as Hrange.
    { intros k [(Hk & i & t & Ht & <- & _)%(lg_started _ _ _ Hlg)|(Hk & i & t & Ht & <- & _)%(lg_finished _ _ _ Hlg)].
      all: split; [done|]; eapply started_lt; [done..|]; apply list_elem_of_fmap; exists t; split; [done|].
      all: by eapply list_elem_of_lookup_2. }
    split.
    + intros k Hk. split; [apply (lg_started _ _ _ Hlg)|apply (lg_finished _ _ _ Hlg)]; apply Hal; lia.
    + eapply sink_last; [by apply lg_order in Hlg|by apply lg_nodup in Hlg|apply (lg_finished _ _ _ Hlg), Hal; lia|].
      intros k Hk Hsink l1 l2 Heq. apply Hrange in Hk as [Hk Hlt].
      eapply order_before; [done|by apply lg_order in Hlg|exact Heq|done|].
      eapply leads_to_sink; [by apply built_ok|done|done|lia].
  - intros -> r Hs. by destruct (empty_run _ _ _ _ Hgo Hs).
Qed.
End Claims.

(** ** A graph of two nodes *)

Definition demo_dag : list (Node Z) := [mkNode (Some 10) [1%nat] false 0; mkNode (Some 20) [] true 1].

Lemma demo_built : built demo_dag.
Proof.
  eapply (built_dependency [mkNode (Some 10) [] false 0; mkNode (Some 20) [] false 0] 0 1); [|reflexivity].
  eapply (built_add [mkNode (Some 10) [] false 0]); [|reflexivity].
  eapply (built_add []); [constructor|reflexivity].
Qed.

Definition demo_run : Run Z :=
  match go (Some 7) demo_dag with Ok r _ => r | _ => mkRun [] [] [] end.

(** The first node has been added and called, and has returned. *)
Definition demo_run3 : Run Z :=
  mkRun [mkNode (Some 10) [1%nat] true 0; mkNode (Some 20) [3%nat] true 1; mkNode None [0%nat] false 0;
         mkNode (Some 7) [] true 1]
    [Scheduling 2 []; Scheduling 0 [1%nat]] [Started 0; Finished 0].

Lemma demo_steps : rtc run_step demo_run demo_run3.
Proof.
  eapply rtc_l; [eapply (run_schedule _ _ 0 2 0); vm_compute; reflexivity|].
  eapply rtc_l; [eapply (run_call _ 1 0); vm_compute; reflexivity|].
  eapply rtc_l; [eapply (run_return _ 1 0); vm_compute; reflexivity|].
  vm_compute. apply rtc_refl.
Qed.

Lemma hasCycle_exact_witness :
  exists b st, hasCycle demo_dag = Ok b st /\ (b = true <-> exists k, tc (edge demo_dag) k k) /\
    (if b then go (Some 7) demo_dag = Throw (runtime_error "Cycle in DAG graph") demo_dag
     else exists r ms, go (Some 7) demo_dag = Ok r ms).
Proof. apply (hasCycle_exact demo_dag (Some 7)); [apply demo_built|vm_compute; reflexivity]. Defined.

Lemma dag_order_witness : Finished 0%nat ∈ events demo_run3 /\ NoDup (events demo_run3).
Proof.
  split; [vm_compute; right; left|].
  apply (dag_order demo_dag 7 demo_run (nodes_ demo_run) demo_run3);
    [apply demo_built|vm_compute; reflexivity|vm_compute; reflexivity|apply demo_steps].
Defined.

Lemma dag_completes_witness :
  rtc run_step demo_run demo_run3 /\
  (forall m r, nsteps run_step m demo_run r -> Z.of_nat m <= edge_count demo_dag + 6 * zlen demo_dag + 5).
Proof.
  split; [apply demo_steps|].
  apply (dag_completes demo_dag 7 demo_run (nodes_ demo_run));
    [apply demo_built|vm_compute; reflexivity|vm_compute; reflexivity].
Defined.
