(* ===== verification/Conv.v ===== *)
(** * Conv: conversions between integers and text

    [src/accelerator/Conv.h] and [Conv.cpp], without the conversions of floating
    point numbers.  A type of integers is given by its width and signedness; a
    string is a list of bytes, and a [char] is signed.  A failed
    [ACC_RANGE_CHECK] throws; of its text only the message is kept, without the
    position in the source and the characters quoted from the input. *)

From stdpp Require Import base list strings.
From S2P Require Import Prelude.

Open Scope Z_scope.

(** ** Integral types *)

Record Int := mkInt { width : Z; is_signed : bool }.

#[global] Instance Int_eq_dec : EqDecision Int.
Proof. solve_decision. Defined.

Definition int32 : Int := mkInt 32 true.
Definition int64 : Int := mkInt 64 true.
Definition uint64 : Int := mkInt 64 false.

(** [std::numeric_limits<T>::max()] and [min()]. *)
Definition int_max (T : Int) : Z := if is_signed T then 2 ^ (width T - 1) - 1 else 2 ^ width T - 1.
Definition int_min (T : Int) : Z := if is_signed T then - 2 ^ (width T - 1) else 0.

(** [static_cast<T>(value)]. *)
Definition int_cast (T : Int) (value : Z) : Z :=
  if is_signed T then sext (width T) value else wrap (width T) value.

Definition make_unsigned (T : Int) : Int := mkInt (width T) false.

(** The type in which C++ compares a [A] and a [B]: the integral promotions and
    the usual arithmetic conversions. *)
Definition promote (T : Int) : Int := if decide (width T < 32) then int32 else T.

Definition common_type (A B : Int) : Int :=
  let A := promote A in
  let B := promote B in
  if decide (is_signed A = is_signed B) then mkInt (Z.max (width A) (width B)) (is_signed A)
  else
    let '(s, u) := if is_signed A then (A, B) else (B, A) in
    if decide (width s <= width u) then u else s.

Definition int_leb (A : Int) (a : Z) (B : Int) (b : Z) : bool :=
  let C := common_type A B in bool_decide (int_cast C a <= int_cast C b).

Definition ACC_RANGE_CHECK {S} (condition : bool) (message : string) : M S unit :=
  if condition then mret tt else throw (range_error message).

(** [to<Tgt>(const Src&)] for two integral types. *)
Definition to_integral {S} (Src Tgt : Int) (value : Z) : M S Z :=
  if decide (Tgt = Src) then mret value
  else
    (if decide (int_max Tgt < int_max Src)
     then ACC_RANGE_CHECK (int_leb Src value Tgt (int_max Tgt)) "Overflow" else mret tt);;
    (if is_signed Src && (negb (is_signed Tgt) || bool_decide (width Tgt < width Src))
     then ACC_RANGE_CHECK (int_leb Tgt (int_min Tgt) Src value) "Negative overflow" else mret tt);;
    mret (int_cast Tgt value).

(** ** Integers to text *)

Definition powersOf10 : list Z :=
  [1; 10; 100; 1000; 10000; 100000; 1000000; 10000000; 100000000; 1000000000;
   10000000000; 100000000000; 1000000000000; 10000000000000; 100000000000000;
   1000000000000000; 10000000000000000; 100000000000000000;
   1000000000000000000; 10000000000000000000].

(** [__builtin_clzll(v)], for [v <> 0]. *)
Definition clzll (v : Z) : Z := 63 - Z.log2 v.

(** The version for x86-64. *)
Definition digits10 {S} (v : Z) : M S Z :=
  if decide (v = 0) then mret 1
  else
    let leadingZeroes := clzll v in
    let bits := 63 - leadingZeroes in
    let minLength := 1 + Z.shiftr (bits * 77) 8 in
    power ← of_option (powersOf10 !! Z.to_nat minLength) "powersOf10[minLength]";
    mret (minLength + (if decide (power <= v) then 1 else 0)).

(** The version for other processors: every round divides by 10000. *)
Definition digits10_portable {S} (v : Z) : M S Z :=
  iter 6
    (fun '(v, result) =>
       if decide (v < 10) then mret (inr result)
       else if decide (v < 100) then mret (inr (result + 1))
       else if decide (v < 1000) then mret (inr (result + 2))
       else if decide (v < 10000) then mret (inr (result + 3))
       else mret (inl (v / 10000, u32 (result + 4)))) (v, 1).

(** [buffer[pos] = c]; the state is the buffer. *)
Definition put_char (pos c : Z) : M (list Z) unit :=
  buffer ← get;
  if decide (0 <= pos < zlen buffer) then put (<[Z.to_nat pos := c]> buffer)
  else fault "write outside of the buffer".

(** A 64-bit number has at most 20 digits. *)
Definition uint64ToBufferUnsafe (v : Z) : M (list Z) Z :=
  result ← digits10 v;
  '(v, pos) ← iter 20
    (fun '(v, pos) =>
       if decide (10 <= v) then
         let q := v / 10 in
         let r := v `mod` 10 in
         put_char pos (48 + r);; mret (inl (q, u32 (pos - 1)))
       else mret (inr (v, pos))) (v, u32 (result - 1));
  put_char pos (v + 48);;
  mret result.

(** The text is appended to [result], the state. *)
Abbreviation Text := (M (list Z)).

(** [result->append(buffer, uint64ToBufferUnsafe(v, buffer))] with a local
    [char buffer[20]]. *)
Definition append_uint64 (v : Z) : Text unit := fun result =>
  match uint64ToBufferUnsafe v (replicate 20 0) with
  | Ok n buffer => Ok tt (result ++ take (Z.to_nat n) buffer)
  | Throw e _ => Throw e result
  | Fault why => Fault why
  | OutOfFuel => OutOfFuel
  end.

(** [toAppend(Src value, Tgt * result)]: types of less than 4 bytes are first
    converted to 64 bits, which keeps the value. *)
Definition toAppend_int (T : Int) (value : Z) : Text unit :=
  if is_signed T then
    if decide (value < 0) then
      modify (fun result => result ++ [45]);; append_uint64 (u64 (- u64 value))
    else append_uint64 value
  else append_uint64 value.

(** [estimateSpaceNeeded(value)].  The negation [-value] of the least value of
    [int] or [long] overflows. *)
Definition estimateSpaceNeeded_int {S} (T : Int) (value : Z) : M S Z :=
  let T := if decide (width T < 32) then mkInt 64 (is_signed T) else T in
  if is_signed T && bool_decide (value < 0) then
    assert (negb (bool_decide (value = int_min T))) "signed overflow";;
    n ← digits10 (u64 (- value)); mret (1 + n)
  else digits10 value.

(** The things that can be appended: a [char], a C string (or a null pointer), a
    string or StringPiece, an integer. *)
Inductive Value :=
  | VChar (c : Z)
  | VCStr (s : option (list Z))
  | VStr (s : list Z)
  | VInt (T : Int) (v : Z).

Definition toAppend (v : Value) : Text unit :=
  match v with
  | VChar c => modify (fun result => result ++ [c])
  | VCStr (Some s) => modify (fun result => result ++ s)
  | VCStr None => mret tt
  | VStr s => modify (fun result => result ++ s)
  | VInt T v => toAppend_int T v
  end.

Definition estimateSpaceNeeded {S} (v : Value) : M S Z :=
  match v with
  | VChar _ => mret 1
  | VCStr (Some s) => mret (zlen s)
  | VCStr None => mret 0
  | VStr s => mret (zlen s)
  | VInt T v => estimateSpaceNeeded_int T v
  end.

(** The last argument is the target, a [std::string*]; the overload for pointers
    to strings asks [IsSomeString] of [std::remove_pointer<Src>] and not of its
    [type], so that the default [sizeof(Src) + 1] is chosen. *)
Definition estimate_target : Z := 9.

Fixpoint estimateSpaceToReserve {S} (sofar : Z) (vs : list Value) : M S Z :=
  match vs with
  | [] => mret (u64 (sofar + estimate_target))
  | v :: vs => n ← estimateSpaceNeeded v; estimateSpaceToReserve (u64 (sofar + n)) vs
  end.

Fixpoint toAppendStrImpl (vs : list Value) : Text unit :=
  match vs with
  | [] => mret tt
  | [v] => toAppend v
  | v :: vs => toAppend v;; toAppendStrImpl vs
  end.

Fixpoint toAppendDelimStrImpl (delim : Value) (vs : list Value) : Text unit :=
  match vs with
  | [] => mret tt
  | [v] => toAppend v
  | v :: vs => toAppend v;; toAppend delim;; toAppendDelimStrImpl delim vs
  end.

(** [result->reserve(n)] leaves the contents alone: the size reserved is
    returned. *)
Definition reserveInTarget (vs : list Value) : Text Z := estimateSpaceToReserve 0 vs.

Definition reserveInTargetDelim (d : Value) (vs : list Value) : Text Z :=
  n ← estimateSpaceNeeded d;
  estimateSpaceToReserve (u64 (u64 (zlen vs - 1) * n)) vs.

Definition toAppendFit (vs : list Value) : Text unit := reserveInTarget vs;; toAppendStrImpl vs.

Definition toAppendDelimFit (delim : Value) (vs : list Value) : Text unit :=
  match vs with
  | [] => mret tt
  | _ => reserveInTargetDelim delim vs;; toAppendDelimStrImpl delim vs
  end.

(** [to<std::string>(vs...)] and [toDelim<std::string>(delim, vs...)]: the final
    state is the result. *)
Definition to_string (vs : list Value) : res (list Z) unit :=
  match vs with [] => Ok tt [] | _ => toAppendFit vs [] end.
Definition toDelim (delim : Value) (vs : list Value) : res (list Z) unit := toAppendDelimFit delim vs [].

(** ** Text to integers *)

(** [isdigit], [isspace] and [tolower] in the C locale. *)
Definition isdigit (c : Z) : bool := bool_decide (48 <= c <= 57).
Definition isspace (c : Z) : bool := bool_decide (c = 32 \/ 9 <= c <= 13).
Definition tolower (c : Z) : Z := if decide (65 <= c <= 90) then c + 32 else c.

(** The number of characters before the first one that is not a digit. *)
Fixpoint findFirstNonDigit (s : list Z) : nat :=
  match s with
  | [] => O
  | x :: s => if decide (10 <= u32 (sext 8 x - 48)) then O else S (findFirstNonDigit s)
  end.

Definition OOR : Z := 10000.
Definition shift_table (m : Z) : list Z := replicate 48 OOR ++ (Z.mul m <$> seqZ 0 10) ++ replicate 198 OOR.
Definition shift1 : list Z := shift_table 1.
Definition shift10 : list Z := shift_table 10.
Definition shift100 : list Z := shift_table 100.
Definition shift1000 : list Z := shift_table 1000.

(** [table[static_cast<size_t>(c)]] for a [char]. *)
Definition shifted {S} (table : list Z) (c : Z) : M S Z :=
  of_option (table !! Z.to_nat (u64 (sext 8 c))) "index outside of the table".

(** [std::numeric_limits<Tgt>::digits10 + 1], and the digits of the maximum. *)
Definition max_digits (w : Z) : Z :=
  if decide (w = 8) then 3 else if decide (w = 16) then 5 else if decide (w = 32) then 10 else 20.

Definition MaxString (w : Z) : list Z :=
  if decide (w = 8) then [50; 53; 53]
  else if decide (w = 16) then [54; 53; 53; 51; 53]
  else if decide (w = 32) then [52; 50; 57; 52; 57; 54; 55; 50; 57; 53]
  else [49; 56; 52; 52; 54; 55; 52; 52; 48; 55; 51; 55; 48; 57; 53; 53; 49; 54; 49; 53].

(** [strncmp(a, b, n)], up to its sign. *)
Fixpoint strncmp (n : nat) (a b : list Z) : Z :=
  match n, a, b with
  | S n, x :: a, y :: b => if decide (x = y) then if decide (x = 0) then 0 else strncmp n a b else x - y
  | _, _, _ => 0
  end.

Definition only_digits {S} (sum : Z) : M S unit :=
  assert (bool_decide (sum < OOR)) "Assumption: string only has digits".

(** The part of [digits_to] after the checks. *)
Definition digits_round {S} (w : Z) (st : list Z * Z) : M S (list Z * Z + list Z * Z) :=
  let '(b, result) := st in
  match b with
  | b0 :: b1 :: b2 :: b3 :: b =>
      let result := wrap w (result * 10000) in
      r0 ← shifted shift1000 b0;
      r1 ← shifted shift100 b1;
      r2 ← shifted shift10 b2;
      r3 ← shifted shift1 b3;
      let sum := r0 + r1 + r2 + r3 in
      only_digits sum;;
      mret (inl (b, wrap w (result + sum)))
  | _ => mret (inr (b, result))
  end.

Definition digits_rest {S} (w size : Z) (st : list Z * Z) : M S Z :=
  let '(b, result) := st in
  match b with
  | [b0; b1; b2] =>
      r0 ← shifted shift100 b0; r1 ← shifted shift10 b1; r2 ← shifted shift1 b2;
      let sum := r0 + r1 + r2 in
      only_digits sum;; mret (wrap w (result * 1000 + sum))
  | [b0; b1] =>
      r0 ← shifted shift10 b0; r1 ← shifted shift1 b1;
      let sum := r0 + r1 in
      only_digits sum;; mret (wrap w (result * 100 + sum))
  | [b0] => sum ← shifted shift1 b0; only_digits sum;; mret (wrap w (result * 10 + sum))
  | [] => ACC_RANGE_CHECK (bool_decide (0 < size)) "Found no digits to convert in input";; mret result
  | _ => fault "assert(b == e)"
  end.

(** [for (++b;; ++b) { if (b == e) return 0; if ( *b != '0') ... }]: the rest of
    the string, if any. *)
Fixpoint skip_zeros (s : list Z) : list Z :=
  match s with
  | [] => []
  | x :: s' => if decide (x = 48) then skip_zeros s' else s
  end.

(** [digits_to<Tgt>(b, e)] for an unsigned [Tgt] of [w] bits.  Behind the leading
    zeros there are none, so that the recursion is one deep. *)
Fixpoint digits_to_ {S} (fuel : nat) (w : Z) (s : list Z) : M S Z :=
  let size := zlen s in
  let convert := iter (Datatypes.S (length s)) (digits_round w) (s, 0) ≫= digits_rest w size in
  if decide (max_digits w <= size) then
    if decide (head s = Some 48) then
      match skip_zeros (tail s), fuel with
      | [], _ => mret 0
      | s', Datatypes.S fuel => digits_to_ fuel w s'
      | _, O => fun _ => OutOfFuel
      end
    else
      ACC_RANGE_CHECK (bool_decide (size = max_digits w) && bool_decide (strncmp (length s) s (MaxString w) <= 0))
        "Numeric overflow upon conversion";;
      convert
  else convert.

Definition digits_to {S} (w : Z) (s : list Z) : M S Z := digits_to_ 1 w s.

(** [to<Tgt>(const char * b, const char * e)]. *)
Definition to_chars {S} (T : Int) (s : list Z) : M S Z :=
  if negb (is_signed T) then digits_to (width T) s
  else
    match s with
    | [] => throw (range_error "Empty input string in conversion to integral")
    | c :: s' =>
        if negb (isdigit c) && bool_decide (c = 45) then
          t ← digits_to (width T) s';
          let result := sext (width T) (- t) in
          ACC_RANGE_CHECK (bool_decide (result <= 0)) "Negative overflow.";;
          mret result
        else
          (if negb (isdigit c) then ACC_RANGE_CHECK (bool_decide (c = 43)) "Invalid lead character" else mret tt);;
          t ← digits_to (width T) (if negb (isdigit c) then s' else s);
          let result := sext (width T) t in
          ACC_RANGE_CHECK (bool_decide (0 <= result)) "Overflow";;
          mret result
    end.

(** The characters behind the leading white space. *)
Fixpoint skip_white (s : list Z) : list Z :=
  match s with
  | [] => []
  | c :: s' => if isspace c then skip_white s' else s
  end.

(** [to<Tgt>(StringPiece * src)]; the state is [*src].  First the part behind
    the sign. *)
Definition progress_digits (T : Int) (negative : bool) (b : list Z) : Text Z :=
  match b with
  | [] => throw (range_error "No digits found in input string")
  | c :: b' =>
      ACC_RANGE_CHECK (isdigit c) "Non-digit character found";;
      let m := S (findFirstNonDigit b') in
      t ← digits_to (width T) (take m b);
      result ←
        (if negb (is_signed T) then mret t
         else if negative then
           let result := sext (width T) (- t) in
           ACC_RANGE_CHECK (bool_decide (result <= 0)) "Negative overflow";; mret result
         else
           let result := sext (width T) t in
           ACC_RANGE_CHECK (bool_decide (0 <= result)) "Overflow";; mret result);
      put (drop m b);;
      mret result
  end.

Definition to_progress (T : Int) : Text Z :=
  src ← get;
  match skip_white src with
  | [] => throw (range_error "No digits found in input string")
  | (c :: b') as b =>
      if is_signed T && negb (isdigit c) then
        if decide (c = 45) then progress_digits T true b'
        else
          ACC_RANGE_CHECK (bool_decide (c = 43)) "Invalid leading character in conversion to integral";;
          progress_digits T false b'
      else progress_digits T false b
  end.

Fixpoint enforceWhitespace {S} (s : list Z) : M S unit :=
  match s with
  | [] => mret tt
  | c :: s => ACC_RANGE_CHECK (isspace c) "Non-whitespace: ";; enforceWhitespace s
  end.

(** ** Text to bool *)

(** [bool_str_cmp(&b, len, value)]: the characters behind [value]. *)
Fixpoint bool_str_cmp (b value : list Z) : option (list Z) :=
  match value, b with
  | [], _ => Some b
  | v :: value, p :: b => if decide (tolower p = v) then bool_str_cmp b value else None
  | _ :: _, [] => None
  end.

(** The loop over the digits; [result] so far. *)
Fixpoint bool_digits {S} (b : list Z) (result : bool) : M S (bool * list Z) :=
  match b with
  | c :: b' =>
      if isdigit c then
        ACC_RANGE_CHECK (negb result && bool_decide (c = 48 \/ c = 49))
          "Integer overflow when parsing bool: must be 0 or 1";;
        bool_digits b' (bool_decide (c = 49))
      else mret (result, b)
  | [] => mret (result, b)
  end.

(** [if (!bool_str_cmp(&b, len, value)) ++b;] *)
Definition word_or_letter (b value : list Z) : list Z :=
  match bool_str_cmp b value with Some b => b | None => tail b end.

Definition str_to_bool : Text bool :=
  src ← get;
  match skip_white src with
  | [] => throw (range_error "No non-whitespace characters found in input string")
  | (c :: _) as b =>
      '(result, b) ←
        (if decide (c = 48 \/ c = 49) then bool_digits b false
         else if decide (c = 121 \/ c = 89) then mret (true, word_or_letter b [121; 101; 115])
         else if decide (c = 110 \/ c = 78) then mret (false, word_or_letter b [110; 111])
         else if decide (c = 116 \/ c = 84) then mret (true, word_or_letter b [116; 114; 117; 101])
         else if decide (c = 102 \/ c = 70) then mret (false, word_or_letter b [102; 97; 108; 115; 101])
         else if decide (c = 111 \/ c = 79) then
           match bool_str_cmp b [111; 110], bool_str_cmp b [111; 102; 102] with
           | Some b, _ => mret (true, b)
           | None, Some b => mret (false, b)
           | None, None => throw (range_error "Invalid value for bool")
           end
         else throw (range_error "Invalid value for bool"));
      put b;;
      mret result
  end.

(** [to<Tgt>(StringPiece src)]: the state is the local copy of [src]. *)
Definition to_piece {A} (conv : Text A) : Text A :=
  result ← conv; src ← get; enforceWhitespace src;; mret result.

Definition to_int (T : Int) (src : list Z) : res (list Z) Z := to_piece (to_progress T) src.
Definition to_bool (src : list Z) : res (list Z) bool := to_piece str_to_bool src.
