(* ===== verification/ConvParse.v ===== *)
(** * Conv: what the parsers accept

    The value of a string of digits, and [digits_to] as its computation with an
    exact check for overflow. *)

From stdpp Require Import base list strings.
From S2P Require Import Prelude Conv.

Open Scope Z_scope.

(** ** Decimal strings *)

Abbreviation digit c := (48 <= c <= 57).

Definition add_digit (a c : Z) : Z := a * 10 + (c - 48).
Definition value_of (s : list Z) : Z := foldl add_digit 0 s.

(** The types of integers. *)
Definition int_width (w : Z) : Prop := w = 8 \/ w = 16 \/ w = 32 \/ w = 64.

Section Decimal.
Implicit Types s t : list Z.

Lemma foldl_add_digit s a : foldl add_digit a s = a * 10 ^ zlen s + value_of s.
Proof.
  unfold value_of. revert a. induction s as [|c s IH]; intros a; [unfold zlen; simpl; lia|].
  cbn [foldl]. rewrite IH, (IH (add_digit 0 c)). unfold add_digit.
  assert (zlen (c :: s) = zlen s + 1) as -> by (unfold zlen; simpl; lia).
  rewrite Z.pow_add_r by (pose proof (zlen_nonneg s); lia). lia.
Qed.

Lemma value_of_app s t : value_of (s ++ t) = value_of s * 10 ^ zlen t + value_of t.
Proof. unfold value_of at 1. by rewrite foldl_app, foldl_add_digit. Qed.

Lemma value_of_cons c s : value_of (c :: s) = (c - 48) * 10 ^ zlen s + value_of s.
Proof. unfold value_of at 1. cbn [foldl]. rewrite foldl_add_digit. unfold add_digit. lia. Qed.

Lemma value_of_nil : value_of [] = 0.
Proof. done. Qed.

Lemma value_of_bound s : Forall (fun c => digit c) s -> 0 <= value_of s < 10 ^ zlen s.
Proof.
  induction 1 as [|c s Hc Hs IH]; [done|]. rewrite value_of_cons.
  assert (zlen (c :: s) = zlen s + 1) as -> by (unfold zlen; simpl; lia).
  rewrite Z.pow_add_r by (pose proof (zlen_nonneg s); lia). nia.
Qed.

(** A string that does not start with a zero is as large as it is long. *)
Lemma value_of_long c s : digit c -> c <> 48 -> Forall (fun c => digit c) s -> 10 ^ zlen s <= value_of (c :: s).
Proof. intros Hc Hne Hs. rewrite value_of_cons. pose proof (value_of_bound s Hs). nia. Qed.

Lemma value_of_prefix s t : Forall (fun c => digit c) (s ++ t) -> value_of s <= value_of (s ++ t).
Proof.
  intros [Hs Ht]%Forall_app. rewrite value_of_app. pose proof (value_of_bound s Hs). pose proof (value_of_bound t Ht).
  pose proof (Z.pow_pos_nonneg 10 (zlen t) ltac:(lia) (zlen_nonneg t)). nia.
Qed.

Lemma skip_zeros_spec s :
  value_of (skip_zeros s) = value_of s /\ head (skip_zeros s) <> Some 48 /\ (length (skip_zeros s) <= length s)%nat /\
  (Forall (fun c => digit c) s -> Forall (fun c => digit c) (skip_zeros s)).
Proof.
  induction s as [|c s IH]; simpl; [done|]. case_decide as Hc.
  - subst c. destruct IH as (H1 & H2 & H3 & H4). rewrite value_of_cons, H1. split_and!; try done; [lia|].
    intros [_ Hs]%Forall_cons. auto.
  - split_and!; simpl; try done; congruence.
Qed.

(** For strings of the same length the order of the values is the order of the
    characters. *)
Lemma strncmp_value s t :
  length s = length t -> Forall (fun c => digit c) s -> Forall (fun c => digit c) t ->
  strncmp (length s) s t <= 0 <-> value_of s <= value_of t.
Proof.
  revert t. induction s as [|c s IH]; intros [|d t] Hl Hs Ht; try done. simpl in Hl.
  apply Forall_cons in Hs as [Hc Hs], Ht as [Hd Ht]. cbn [length strncmp].
  assert (Hz : zlen s = zlen t) by (unfold zlen; lia). rewrite !value_of_cons, Hz.
  pose proof (value_of_bound s Hs) as Hbs. pose proof (value_of_bound t Ht) as Hbt. rewrite Hz in Hbs.
  case_decide as Hcd.
  - subst d. rewrite decide_False by lia. rewrite IH by (done || lia). lia.
  - split; intros; [|].
    + assert (c + 1 <= d) by lia. nia.
    + destruct (decide (c <= d)); [lia|]. assert (d + 1 <= c) by lia. nia.
Qed.

Lemma shifted_digit {S} (m c : Z) (st : S) : digit c ->
  m = 1 \/ m = 10 \/ m = 100 \/ m = 1000 -> shifted (shift_table m) c st = Ok (m * (c - 48)) st.
Proof.
  intros Hc Hm.
  assert (c = 48 \/ c = 49 \/ c = 50 \/ c = 51 \/ c = 52 \/ c = 53 \/ c = 54 \/ c = 55 \/ c = 56 \/ c = 57) as Hcc by lia.
  destruct Hm as [->|[->|[->| ->]]]; (repeat destruct Hcc as [Hcc|Hcc]); subst c; reflexivity.
Qed.

Lemma wp_shifted {S} m c (st : S) (Q : Z -> S -> Prop) E : digit c ->
  m = 1 \/ m = 10 \/ m = 100 \/ m = 1000 -> Q (m * (c - 48)) st -> wp (shifted (shift_table m) c) st Q E.
Proof. intros Hc Hm HQ. eapply wp_ok; [by apply shifted_digit|done]. Qed.

Lemma wp_only_digits {S} sum (st : S) (Q : unit -> S -> Prop) E :
  sum < 10000 -> Q tt st -> wp (only_digits sum) st Q E.
Proof. intros. apply wp_assert; [by apply bool_decide_true|done]. Qed.

Lemma wp_range_check {S} b msg (st : S) (Q : unit -> S -> Prop) (E : exn -> S -> Prop) :
  (b = true -> Q tt st) -> (b = false -> E (range_error msg) st) -> wp (ACC_RANGE_CHECK b msg) st Q E.
Proof. intros HQ HE. destruct b; [by apply wp_ret, HQ|by apply wp_throw, HE]. Qed.
End Decimal.

(** ** digits_to *)

Section DigitsTo.
Context {St : Type} (w : Z) (Hw : int_width w).
Implicit Types (s b : list Z) (st : St).

(** One step of the lookups. *)
Ltac lookups := repeat first [apply wp_bind, wp_shifted; [lia|tauto|] | apply wp_bind, wp_only_digits; [lia|]].

Lemma digits_convert_wp s st : Forall (fun c => digit c) s -> s <> [] -> value_of s < 2 ^ w ->
  wp (iter (S (length s)) (digits_round w) (s, 0) ≫= digits_rest w (zlen s)) st
    (fun v st' => st' = st /\ v = value_of s) nothrow.
Proof.
  intros Hs Hne Hlt.
  assert (Hfit : forall don b, s = don ++ b -> fits w (value_of don)).
  { intros don b ->. pose proof (value_of_prefix don b Hs). apply Forall_app in Hs as [Hd _].
    pose proof (value_of_bound don Hd). unfold fits. lia. }
  apply wp_bind.
  eapply wp_wand with (Q := fun '(b, r) st' => st' = st /\ exists don, s = don ++ b /\ r = value_of don /\ (length b < 4)%nat).
  - eapply (wp_iter _ (fun n '(b, r) st' => st' = st /\ n = length b /\ exists don, s = don ++ b /\ r = value_of don))
      with (n := length s); [|lia|split_and!; try done; by exists []].
    intros n [b r] st' (-> & -> & don & Hsd & ->). unfold digits_round.
    destruct b as [|b0 [|b1 [|b2 [|b3 b]]]]; try (apply wp_ret; split; [done|]; exists don; simpl; split_and!; done || lia).
    pose proof Hs as Hs'. rewrite Hsd in Hs'. apply Forall_app in Hs' as [Hdd Hb].
    apply Forall_cons in Hb as [H0 Hb]. apply Forall_cons in Hb as [H1 Hb].
    apply Forall_cons in Hb as [H2 Hb]. apply Forall_cons in Hb as [H3 Hb].
    unfold shift1, shift10, shift100, shift1000. lookups. apply wp_ret. exists (length b). split; [simpl; lia|].
    split_and!; [done|done|]. exists (don ++ [b0; b1; b2; b3]). rewrite <- (assoc_L (++)). split; [done|].
    pose proof (Hfit (don ++ [b0; b1; b2; b3]) b) as Hf. rewrite <- (assoc_L (++)) in Hf. specialize (Hf Hsd).
    pose proof (Hfit don _ Hsd) as Hf0.
    assert (Hv : value_of (don ++ [b0; b1; b2; b3]) =
      value_of don * 10000 + (1000 * (b0 - 48) + 100 * (b1 - 48) + 10 * (b2 - 48) + 1 * (b3 - 48))).
    { rewrite value_of_app. unfold value_of at 2. unfold add_digit, zlen. simpl. lia. }
    rewrite Hv in Hf |- *. unfold fits in Hf, Hf0.
    rewrite (wrap_small w (value_of don * 10000)) by (unfold fits; lia). by apply wrap_small.
  - intros [b r] st' (-> & don & Hsd & -> & Hlen). unfold digits_rest.
    pose proof (Hfit s [] ltac:(by rewrite app_nil_r)) as Hf. rewrite Hsd in Hf. clear Hfit.
    pose proof Hs as Hs'. rewrite Hsd in Hs'. apply Forall_app in Hs' as [Hdd Hb].
    unfold shift1, shift10, shift100, shift1000. rewrite value_of_app in Hf.
    destruct b as [|b0 [|b1 [|b2 [|b3 b]]]]; [..|simpl in Hlen; lia];
      repeat match goal with H : Forall _ (_ :: _) |- _ => apply Forall_cons in H as [? ?] end.
    2-4: lookups; apply wp_ret; split; [done|]; rewrite Hsd, value_of_app; unfold value_of at 2 in Hf; unfold value_of at 3;
      unfold add_digit, zlen in *; simpl in *; rewrite wrap_small; [lia|]; unfold fits in *; lia.
    apply wp_bind, wp_range_check; intros Hb'; [|apply bool_decide_eq_false in Hb'; destruct s; [done|unfold zlen in Hb'; simpl in Hb'; lia]].
    apply wp_ret. split; [done|]. rewrite Hsd. by rewrite app_nil_r.
Qed.

Lemma max_digits_spec : length (MaxString w) = Z.to_nat (max_digits w) /\ value_of (MaxString w) = 2 ^ w - 1 /\
  Forall (fun c => digit c) (MaxString w) /\ 0 < max_digits w /\ 10 ^ (max_digits w - 1) <= 2 ^ w <= 10 ^ max_digits w.
Proof.
  destruct Hw as [->|[->|[->| ->]]]; apply (bool_decide_unpack _); vm_compute; exact I.
Qed.

(** The number, when it fits. *)
Definition digits_result (s : list Z) (v : Z) : Prop := v = value_of s /\ value_of s < 2 ^ w.
Definition digits_overflow (s : list Z) (e : exn) : Prop :=
  e = range_error "Numeric overflow upon conversion" /\ 2 ^ w <= value_of s.

(** Without leading zeros. *)
Lemma digits_plain_wp fuel s st : Forall (fun c => digit c) s -> s <> [] ->
  (head s = Some 48 -> zlen s < max_digits w) ->
  wp (digits_to_ fuel w s) st (fun v st' => st' = st /\ digits_result s v) (fun e st' => st' = st /\ digits_overflow s e).
Proof.
  intros Hs Hne Hz. destruct max_digits_spec as (Hml & Hmv & Hmd & Hpos & Hlo & Hhi).
  pose proof (value_of_bound s Hs) as Hb.
  assert (Hconv : value_of s < 2 ^ w -> wp (iter (S (length s)) (digits_round w) (s, 0) ≫= digits_rest w (zlen s)) st
    (fun v st' => st' = st /\ digits_result s v) (fun e st' => st' = st /\ digits_overflow s e)).
  { intros Hlt. eapply wp_nothrow; [by apply digits_convert_wp|]. intros v st' [-> ->]. done. }
  destruct fuel; cbn [digits_to_]; case_decide as Hsz.
  2,4: apply Hconv; assert (10 ^ zlen s <= 10 ^ (max_digits w - 1)) by (apply Z.pow_le_mono_r; lia); lia.
  all: rewrite decide_False by (intros Hh; specialize (Hz Hh); lia).
  all: apply wp_bind, wp_range_check; rewrite ?andb_true_iff, ?andb_false_iff, ?bool_decide_eq_true, ?bool_decide_eq_false.
  1,3: intros [Heq Hcmp]; apply Hconv; rewrite strncmp_value in Hcmp by (done || unfold zlen in Heq; lia); lia.
  all: intros Hor; split; [done|]; split; [done|]; destruct (decide (zlen s = max_digits w)) as [Heq|Hgt].
  1,3: destruct Hor as [?|Hor]; [done|]; rewrite strncmp_value in Hor by (done || unfold zlen in Heq; lia); lia.
  all: destruct s as [|c s]; [done|]; apply Forall_cons in Hs as [Hc Hs];
    assert (Hc48 : c <> 48) by (intros ->; specialize (Hz eq_refl); lia);
    pose proof (value_of_long c s Hc Hc48 Hs); assert (10 ^ max_digits w <= 10 ^ zlen s)
      by (apply Z.pow_le_mono_r; [lia|unfold zlen in *; simpl in *; lia]); lia.
Qed.

Lemma digits_to_wp s st : Forall (fun c => digit c) s -> s <> [] ->
  wp (digits_to w s) st (fun v st' => st' = st /\ digits_result s v) (fun e st' => st' = st /\ digits_overflow s e).
Proof.
  intros Hs Hne. unfold digits_to. destruct (decide (head s = Some 48 /\ max_digits w <= zlen s)) as [[Hh Hsz]|Hn].
  2:{ apply digits_plain_wp; [done|done|]. intros Hh. destruct (decide (max_digits w <= zlen s)); [naive_solver|lia]. }
  destruct s as [|c s]; [done|]. simpl in Hh. injection Hh as ->. apply Forall_cons in Hs as [_ Hs].
  destruct (skip_zeros_spec s) as (Hv & Hh & _ & Hd). specialize (Hd Hs).
  assert (Hval : value_of (48 :: s) = value_of (skip_zeros s)) by (rewrite value_of_cons, Hv; lia).
  cbn [digits_to_]. rewrite decide_True by done. rewrite decide_True by done. cbn [tail].
  unfold digits_result, digits_overflow. rewrite Hval. destruct (skip_zeros s) as [|d t] eqn:Ht.
  - apply wp_ret. split_and!; [done|done|]. rewrite value_of_nil. destruct Hw as [->|[->|[->| ->]]]; done.
  - refine (digits_plain_wp 0 (d :: t) st Hd _ _); [done|]. intros Hd48. by destruct Hh.
Qed.
End DigitsTo.

(** ** Literals *)

Definition in_range (T : Int) (v : Z) : Prop := int_min T <= v <= int_max T.

Definition sign_text (T : Int) (sgn : list Z) (k : Z) : Prop :=
  sgn = [] /\ k = 1 \/ is_signed T = true /\ (sgn = [43] /\ k = 1 \/ sgn = [45] /\ k = -1).

Abbreviation space c := (isspace c = true).
Abbreviation is_byte c := (0 <= c < 256).

(** White space, a sign if the type has one, and digits denote [v]; [rest] does
    not go on with a digit. *)
Definition int_text (T : Int) (s : list Z) (v : Z) (rest : list Z) : Prop :=
  exists ws sgn ds k, s = ws ++ sgn ++ ds ++ rest /\ Forall (fun c => space c) ws /\ sign_text T sgn k /\ ds <> [] /\
    Forall (fun c => digit c) ds /\ (forall c, head rest = Some c -> ~ digit c) /\ v = k * value_of ds.

Section Literals.
Implicit Types (s t ws ds rest : list Z) (T : Int).

Lemma isdigit_spec c : isdigit c = true <-> digit c.
Proof. unfold isdigit. by rewrite bool_decide_eq_true. Qed.

Lemma space_not_digit c : space c -> ~ digit c /\ c <> 43 /\ c <> 45.
Proof. unfold isspace. rewrite bool_decide_eq_true. lia. Qed.

Lemma skip_white_app ws t : Forall (fun c => space c) ws -> (forall c, head t = Some c -> ~ space c) -> skip_white (ws ++ t) = t.
Proof.
  induction 1 as [|c ws Hc _ IH]; intros Ht; simpl.
  - destruct t as [|c t]; simpl; [done|]. specialize (Ht c eq_refl). by destruct (isspace c).
  - rewrite Hc. by apply IH.
Qed.

Lemma skip_white_spec s : exists ws, s = ws ++ skip_white s /\ Forall (fun c => space c) ws /\
  (forall c, head (skip_white s) = Some c -> ~ space c).
Proof.
  induction s as [|c s (ws & Hs & Hws & Hh)]; simpl; [by exists []|]. destruct (isspace c) eqn:Hc.
  - exists (c :: ws). split; [simpl; by f_equal|]. split; [by constructor|done].
  - exists []. simpl. split_and!; [done|constructor|]. intros d [= <-]. by rewrite Hc.
Qed.

Lemma non_digit c : is_byte c -> 10 <= u32 (sext 8 c - 48) <-> ~ digit c.
Proof.
  intros Hc. unfold sext. rewrite u8_small by done. unfold wrap. change (2 ^ (8 - 1)) with 128. change (2 ^ 8) with 256.
  change (2 ^ 32) with 4294967296. case_decide; euclid.
Qed.

Lemma findFirstNonDigit_app ds rest :
  Forall (fun c => digit c) ds -> Forall (fun c => is_byte c) rest -> (forall c, head rest = Some c -> ~ digit c) ->
  findFirstNonDigit (ds ++ rest) = length ds.
Proof.
  intros Hds Hb Hr. induction Hds as [|c ds Hc _ IH]; simpl.
  - destruct rest as [|c rest]; [done|]. apply Forall_cons in Hb as [Hb _]. simpl.
    rewrite decide_True; [done|]. apply non_digit; [done|by apply Hr].
  - rewrite decide_False, IH; [done|]. rewrite non_digit by lia. lia.
Qed.

Lemma findFirstNonDigit_spec s : Forall (fun c => is_byte c) s ->
  Forall (fun c => digit c) (take (findFirstNonDigit s) s) /\
  (forall c, head (drop (findFirstNonDigit s) s) = Some c -> ~ digit c).
Proof.
  induction 1 as [|c s Hc _ [IH1 IH2]]; simpl; [by split; [constructor|]|].
  case_decide as Hd; rewrite non_digit in Hd by done; simpl.
  - split; [constructor|]. by intros d [= <-].
  - split; [constructor; [lia|done]|done].
Qed.

(** Where a literal starts. *)
Lemma int_text_start T s v rest : int_text T s v rest ->
  exists sgn ds k, skip_white s = sgn ++ ds ++ rest /\ sign_text T sgn k /\ ds <> [] /\ Forall (fun c => digit c) ds /\
    (forall c, head rest = Some c -> ~ digit c) /\ v = k * value_of ds.
Proof.
  intros (ws & sgn & ds & k & -> & Hws & Hsgn & Hne & Hds & Hr & ->). exists sgn, ds, k. split_and!; try done.
  apply skip_white_app; [done|]. intros c Hc Hsp%space_not_digit.
  destruct Hsgn as [[-> _]|(_ & [[-> _]|[-> _]])]; simpl in Hc; [|injection Hc as <-; lia..].
  destruct ds as [|d ds]; [done|]. injection Hc as ->. apply Forall_cons in Hds as [Hd _]. lia.
Qed.

(** The literal at the start of [sgn ++ b]. *)
Lemma int_text_make T s sgn k c b : Forall (fun c => is_byte c) (c :: b) ->
  skip_white s = sgn ++ c :: b -> sign_text T sgn k -> digit c ->
  int_text T s (k * value_of (take (S (findFirstNonDigit b)) (c :: b))) (drop (S (findFirstNonDigit b)) (c :: b)).
Proof.
  intros [Hc Hb]%Forall_cons Hs Hsgn Hd. destruct (skip_white_spec s) as (ws & Hws & Hsp & _). rewrite Hs in Hws.
  destruct (findFirstNonDigit_spec b Hb) as [Hds Hr].
  exists ws, sgn, (take (S (findFirstNonDigit b)) (c :: b)), k. split_and!; simpl; try done; [|by constructor].
  by rewrite take_drop.
Qed.

(** ... is the only one. *)
Lemma int_text_unique T s sgn k c b v rest : Forall (fun c => is_byte c) (c :: b) ->
  skip_white s = sgn ++ c :: b -> sign_text T sgn k -> digit c -> int_text T s v rest ->
  v = k * value_of (take (S (findFirstNonDigit b)) (c :: b)) /\ rest = drop (S (findFirstNonDigit b)) (c :: b).
Proof.
  intros Hby Hs Hsgn Hd (sgn' & ds & k' & Hs' & Hsgn' & Hne & Hds & Hr & ->)%int_text_start.
  rewrite Hs in Hs'. destruct ds as [|d ds]; [done|].
  assert (Hh : sgn = sgn' /\ k = k' /\ c :: b = d :: ds ++ rest).
  { apply Forall_cons in Hds as [Hdd _].
    destruct Hsgn as [[-> ->]|(_ & [[-> ->]|[-> ->]])], Hsgn' as [[-> ->]|(_ & [[-> ->]|[-> ->]])];
      simpl in Hs'; injection Hs' as ? Hs'; split_and!; try done; try lia; congruence. }
  destruct Hh as (_ & <- & [= <- ->]). apply Forall_cons in Hby as [_ [_ Hrest]%Forall_app]. apply Forall_cons in Hds as [_ Hds].
  cbn [take drop]. rewrite findFirstNonDigit_app by done. by rewrite take_app_length, drop_app_length.
Qed.

Lemma sext_negated (w t : Z) : int_width w -> fits w t ->
  (sext w (- t) <= 0 <-> t <= 2 ^ (w - 1)) /\ (t <= 2 ^ (w - 1) -> sext w (- t) = - t).
Proof.
  unfold fits, sext, wrap. intros [->|[->|[->| ->]]] Ht; simpl in *; case_decide; euclid.
Qed.

Lemma sext_positive (w t : Z) : int_width w -> fits w t ->
  (0 <= sext w t <-> t < 2 ^ (w - 1)) /\ (t < 2 ^ (w - 1) -> sext w t = t).
Proof.
  unfold fits, sext, wrap. intros [->|[->|[->| ->]]] Ht; simpl in *; case_decide; euclid.
Qed.
End Literals.

(** ** The parsers *)

Definition is_range_error (e : exn) : Prop := exists msg, e = range_error msg.

Section Parsers.
Context (T : Int) (s : list Z) (Hw : int_width (width T)) (Hs : Forall (fun c => is_byte c) s).

Definition no_literal (e : exn) (s' : list Z) : Prop :=
  s' = s /\ is_range_error e /\ forall v rest, int_text T s v rest -> ~ in_range T v.

Lemma skip_white_bytes : Forall (fun c => is_byte c) (skip_white s).
Proof. destruct (skip_white_spec s) as (ws & He & _). rewrite He in Hs. by apply Forall_app in Hs as [_ ?]. Qed.

(** The digits, and the checks of the sign. *)
Lemma to_progress_digits sgn k negative c b : skip_white s = sgn ++ c :: b -> sign_text T sgn k ->
  (negative = true <-> k = -1) -> digit c ->
  wp (progress_digits T negative (c :: b)) s
    (fun v rest => int_text T s v rest /\ in_range T v) no_literal.
Proof.
  intros Hb Hsgn Hneg Hd. pose proof skip_white_bytes as Hby. rewrite Hb in Hby. apply Forall_app in Hby as [_ Hby].
  pose proof (int_text_make T s sgn k c b Hby Hb Hsgn Hd) as Hlit.
  assert (Hone : forall v rest, int_text T s v rest -> v = k * value_of (take (S (findFirstNonDigit b)) (c :: b))).
  { intros v rest Hv. by apply (int_text_unique T s sgn k c b v rest). }
  set (ds := take _ (c :: b)) in *. set (rest := drop _ (c :: b)) in *.
  assert (Hk : k = 1 \/ is_signed T = true /\ k = -1) by (destruct Hsgn as [[_ ->]|(? & [[_ ->]|[_ ->]])]; auto).
  assert (Hds : Forall (fun c => digit c) ds /\ 0 <= value_of ds).
  { apply Forall_cons in Hby as [_ Hby]. destruct (findFirstNonDigit_spec b Hby) as [Ht _].
    assert (Forall (fun c => digit c) ds) by (constructor; done). split; [done|]. by apply value_of_bound. }
  destruct Hds as [Hds Hpos]. unfold no_literal, in_range, int_min, int_max. clear Hb Hsgn.
  assert (Hp2 : 2 * 2 ^ (width T - 1) = 2 ^ width T) by (destruct Hw as [->|[->|[->| ->]]]; reflexivity).
  unfold progress_digits. apply wp_bind, wp_range_check; [intros _|by rewrite (proj2 (isdigit_spec c) Hd)].
  cbv zeta. fold ds rest. apply wp_bind. eapply wp_mono; [by apply digits_to_wp| |].
  2:{ intros e s' (-> & -> & Hov). split_and!; [done|by eexists|]. intros v rest' Hv%Hone. subst v.
      destruct Hk as [->|[-> ->]]; [destruct (is_signed T)|]; lia. }
  intros t s' (-> & -> & Hlt). assert (Hfit : fits (width T) (value_of ds)) by (unfold fits; lia).
  destruct (sext_negated _ _ Hw Hfit) as [Hn1 Hn2]. destruct (sext_positive _ _ Hw Hfit) as [Hp3 Hp4].
  apply wp_bind. destruct (is_signed T); cbn [negb].
  2:{ apply wp_ret. apply wp_bind, wp_put. apply wp_ret. destruct Hk as [->|[? _]]; [|done]. rewrite Z.mul_1_l in Hlit. split; [done|lia]. }
  destruct negative.
  - destruct Hneg as [Hneg _]. specialize (Hneg eq_refl). subst k. apply wp_bind, wp_range_check; rewrite ?bool_decide_eq_true, ?bool_decide_eq_false.
    + intros Hle%Hn1. apply wp_ret. apply wp_bind, wp_put. apply wp_ret. rewrite (Hn2 Hle).
      replace (-1 * value_of ds) with (- value_of ds) in Hlit by lia. split; [done|lia].
    + intros Hle. rewrite Hn1 in Hle. split_and!; [done|by eexists|]. intros v rest' Hv%Hone. subst v. lia.
  - assert (k = 1) as -> by (destruct Hk as [?|[_ ->]]; [done|]; by destruct Hneg as [_ Hneg]; discriminate Hneg).
    apply wp_bind, wp_range_check; rewrite ?bool_decide_eq_true, ?bool_decide_eq_false.
    + intros Hle%Hp3. apply wp_ret. apply wp_bind, wp_put. apply wp_ret. rewrite (Hp4 Hle).
      rewrite Z.mul_1_l in Hlit. split; [done|lia].
    + intros Hle. rewrite Hp3 in Hle. split_and!; [done|by eexists|]. intros v rest' Hv%Hone. subst v. lia.
Qed.

(** Why there is no literal. *)
Lemma refused_start msg : (forall sgn ds k rest, skip_white s = sgn ++ ds ++ rest -> sign_text T sgn k -> ds <> [] ->
  Forall (fun c => digit c) ds -> False) -> no_literal (range_error msg) s.
Proof.
  intros Hno. split_and!; [done|by eexists|]. intros v rest (sgn & ds & k & He & Hsg & Hne & Hds & _)%int_text_start. by destruct (Hno sgn ds k rest).
Qed.

(** Behind a sign, or at the start. *)
Lemma progress_digits_wp sgn k negative b : skip_white s = sgn ++ b -> sign_text T sgn k ->
  (negative = true <-> k = -1) -> (sgn = [] -> is_signed T = false \/ exists c, head b = Some c /\ (digit c \/ c <> 43 /\ c <> 45)) ->
  wp (progress_digits T negative b) s (fun v rest => int_text T s v rest /\ in_range T v) no_literal.
Proof.
  intros Hb Hst Hk Hsg. assert (Hno : forall msg, (forall c, head b = Some c -> ~ digit c) -> no_literal (range_error msg) s).
  { intros msg Hnd. apply refused_start. intros sgn' ds k' rest He Hs' Hne' Hds.
    destruct ds as [|d ds]; [done|]. apply Forall_cons in Hds as [Hd _]. rewrite Hb in He.
    destruct Hst as [[-> _]|(? & [[-> _]|[-> _]])], Hs' as [[-> _]|(? & [[-> _]|[-> _]])]; simpl in He; simplify_eq; simpl in *; try lia;
      try (by apply (Hnd d)); destruct Hsg as [?|(c & [= <-] & ?)]; congruence || lia. }
  destruct b as [|d b]; [by apply wp_throw, Hno|]. destruct (isdigit d) eqn:Hd.
  - by apply (to_progress_digits sgn k negative d b), isdigit_spec.
  - unfold progress_digits. apply wp_bind, wp_range_check; [by rewrite Hd|]. intros _. apply Hno.
    intros c [= <-] Hc%isdigit_spec. congruence.
Qed.

Lemma to_progress_wp : wp (to_progress T) s (fun v rest => int_text T s v rest /\ in_range T v) no_literal.
Proof.
  unfold to_progress. apply wp_bind, wp_get. destruct (skip_white s) as [|c b] eqn:Hb.
  { apply wp_throw, refused_start. rewrite Hb. by intros [|??] [|??] ???. }
  destruct (is_signed T && negb (isdigit c)) eqn:Hsg.
  - apply andb_true_iff in Hsg as [Hsg Hnd]. rewrite negb_true_iff, <- not_true_iff_false, isdigit_spec in Hnd.
    case_decide as H45; [|apply wp_bind, wp_range_check; rewrite ?bool_decide_eq_true, ?bool_decide_eq_false; intros H43].
    + apply (progress_digits_wp [c] (-1)); [done|right; subst c; auto|done|done].
    + apply (progress_digits_wp [c] 1); [done|right; subst c; auto|done|done].
    + apply refused_start. rewrite Hb. intros sgn [|d ds] k rest He Hst Hne Hds; [done|]. apply Forall_cons in Hds as [Hd _].
      destruct Hst as [[-> _]|(_ & [[-> _]|[-> _]])]; simpl in He; simplify_eq.
  - apply (progress_digits_wp [] 1); [done|by left|done|]. intros _. apply andb_false_iff in Hsg as [Hsg|Hsg]; [by left|].
    right. exists c. split; [done|]. left. by apply isdigit_spec, negb_false_iff.
Qed.
End Parsers.

(** The literal at the start of a text is unique. *)
Lemma int_text_rest T s v rest v' rest' : Forall (fun c => is_byte c) s ->
  int_text T s v rest -> int_text T s v' rest' -> rest = rest' /\ v = v'.
Proof.
  intros Hby H1 H2. pose proof H1 as (sgn & ds & k & He & Hsg & Hne & Hds & _)%int_text_start.
  destruct ds as [|d ds]; [done|]. apply Forall_cons in Hds as [Hd _].
  pose proof (skip_white_bytes s Hby) as Hb. rewrite He in Hb. apply Forall_app in Hb as [_ Hb].
  destruct (int_text_unique T s sgn k d (ds ++ rest) v rest Hb He Hsg Hd H1) as [Hv1 Hr1].
  destruct (int_text_unique T s sgn k d (ds ++ rest) v' rest' Hb He Hsg Hd H2) as [Hv2 Hr2]. split; congruence.
Qed.
