(* ===== verification/ConvPrint.v ===== *)
(** * Conv: what the printers write

    [digits10] counts the digits of a number, [uint64ToBufferUnsafe] writes them,
    and the space that is reserved is the space that is used. *)

From stdpp Require Import base list strings.
From S2P Require Import Prelude Conv ConvParse.

Open Scope Z_scope.

(** The decimal form: digits without a leading zero. *)
Definition decimal (n : Z) (s : list Z) : Prop :=
  Forall (fun c => digit c) s /\ s <> [] /\ value_of s = n /\ (head s = Some 48 -> s = [48]).

(** The number of its digits. *)
Definition digit_count (v n : Z) : Prop := 1 <= n /\ v < 10 ^ n /\ (n = 1 \/ 10 ^ (n - 1) <= v).

Section Digits10.
Context {St : Type}.
Implicit Types st : St.

Lemma digit_count_unique v n m : 0 <= v -> digit_count v n -> digit_count v m -> n = m.
Proof.
  intros Hv (Hn & Hn2 & Hn3) (Hm & Hm2 & Hm3).
  destruct (Z.lt_trichotomy n m) as [Hlt|[->|Hlt]]; [|done|].
  - destruct Hm3 as [->|Hm3]; [lia|]. assert (10 ^ n <= 10 ^ (m - 1)) by (apply Z.pow_le_mono_r; lia). lia.
  - destruct Hn3 as [->|Hn3]; [lia|]. assert (10 ^ m <= 10 ^ (n - 1)) by (apply Z.pow_le_mono_r; lia). lia.
Qed.

(** For every position of the leading bit. *)
Lemma bits_cases (P : Z -> Prop) b : 0 <= b < 64 -> Forall P (seqZ 0 64) -> P b.
Proof. intros Hb HP. rewrite Forall_forall in HP. apply HP, elem_of_seqZ. lia. Qed.

Lemma powers_bound :
  Forall (fun b => let n := 1 + Z.shiftr (b * 77) 8 in powersOf10 !! Z.to_nat n = Some (10 ^ n) /\ 1 <= n /\
    10 ^ (n - 1) <= 2 ^ b /\ 2 ^ Z.succ b <= 10 ^ (n + 1)) (seqZ 0 64).
Proof. cbv zeta. apply (bool_decide_unpack _). vm_compute. exact I. Qed.

Lemma digits10_wp v st : 0 <= v < 2 ^ 64 ->
  wp (digits10 v) st (fun n st' => st' = st /\ digit_count v n) nothrow.
Proof.
  intros Hv. unfold digits10. case_decide as H0; [subst v; apply wp_ret; split; [done|]; unfold digit_count; change (10 ^ 1) with 10; lia|].
  unfold clzll. replace (63 - (63 - Z.log2 v)) with (Z.log2 v) by lia.
  pose proof (Z.log2_spec v ltac:(lia)) as Hl. assert (Hb : 0 <= Z.log2 v < 64).
  { split; [apply Z.log2_nonneg|]. apply Z.log2_lt_pow2; lia. }
  revert Hl. generalize dependent (Z.log2 v). intros b Hb.
  destruct (bits_cases _ b Hb powers_bound) as (Hp & Hn & Hlo & Hhi). intros Hl.
  set (n := 1 + Z.shiftr (b * 77) 8) in *.
  apply wp_bind. eapply wp_of_option; [done|]. apply wp_ret. split; [done|].
  unfold digit_count. case_decide as Hd.
  - split_and!; [lia|lia|]. right. rewrite Z.add_simpl_r. lia.
  - rewrite Z.add_0_r. split_and!; [lia|lia|]. right. lia.
Qed.

Lemma digits10_portable_wp v st : 0 <= v < 2 ^ 64 ->
  wp (digits10_portable v) st (fun n st' => st' = st /\ digit_count v n) nothrow.
Proof.
  intros Hv. unfold digits10_portable.
  eapply (wp_iter _ (fun k '(x, r) st' => st' = st /\ 0 <= x < 10000 ^ Z.of_nat k /\ exists j, 0 <= j /\ r = 4 * j + 1 /\
    x = v / 10000 ^ j /\ j + Z.of_nat k = 5 /\ (j = 0 \/ 1 <= x))) with (n := 5%nat); [|lia|].
  2:{ split_and!; [done|lia|change (10000 ^ Z.of_nat 5) with 100000000000000000000; lia|]. exists 0.
      split_and!; try done; [|by left]. by rewrite Z.div_1_r. }
  intros k [x r] st' (-> & Hx & j & Hj & -> & -> & Hk & Hpos).
  pose proof (Z.div_mod v (10000 ^ j) ltac:(apply Z.pow_nonzero; lia)) as Hdm.
  pose proof (Z.mod_pos_bound v (10000 ^ j) ltac:(apply Z.pow_pos_nonneg; lia)) as Hmp.
  pose proof (Z.pow_pos_nonneg 10000 j ltac:(lia) Hj) as Hpp.
  assert (Hpw : 10000 ^ j = 10 ^ (4 * j)) by (rewrite Z.pow_mul_r by lia; done).
  set (x := v / 10000 ^ j) in *.
  assert (Hans : forall i, 0 <= i -> x < 10 ^ (i + 1) -> (i = 0 /\ (j = 0 \/ 1 <= x)) \/ 10 ^ i <= x -> digit_count v (4 * j + 1 + i)).
  { intros i Hi Hlt Hge. unfold digit_count. replace (4 * j + 1 + i) with (4 * j + (i + 1)) by lia.
    replace (4 * j + (i + 1) - 1) with (4 * j + i) by lia. rewrite !Z.pow_add_r, <- Hpw by lia. rewrite Z.pow_add_r in Hlt by lia.
    split_and!; [lia|nia|]. destruct Hge as [[-> [->|Hge]]|Hge]; [left; lia|right; rewrite Z.pow_0_r; nia|right; nia]. }
  case_decide as H1; [apply wp_ret; split; [done|]; rewrite <- (Z.add_0_r (4 * j + 1)); apply Hans; [lia|done|by left]|].
  case_decide as H2; [apply wp_ret; split; [done|]; apply Hans; [lia|done|right; lia]|].
  case_decide as H3; [apply wp_ret; split; [done|]; apply Hans; [lia|done|right; lia]|].
  case_decide as H4; [apply wp_ret; split; [done|]; apply Hans; [lia|done|right; lia]|].
  destruct k as [|k]; [simpl in Hx; lia|]. apply wp_ret. exists k. split; [lia|]. split; [done|].
  rewrite Nat2Z.inj_succ, Z.pow_succ_r in Hx by lia.
  split; [split; [apply Z.div_pos; lia|apply Z.div_lt_upper_bound; lia]|].
  exists (j + 1). split_and!; [lia|rewrite u32_small by lia; lia| |lia|].
  - unfold x. rewrite Z.div_div, Z.pow_add_r by lia. done.
  - right. apply Z.div_le_lower_bound; lia.
Qed.
End Digits10.

Section Buffer.
Implicit Types (buf s low : list Z).

Lemma slice_insert {A} (pos len : Z) (c : A) (l : list A) : 0 <= pos < zlen l -> 0 <= len ->
  slice pos (len + 1) (<[Z.to_nat pos:=c]> l) = c :: slice (pos + 1) len l.
Proof.
  intros Hp Hl. unfold slice, zlen in *. rewrite insert_take_drop by lia.
  rewrite drop_app_length' by (rewrite length_take; lia).
  replace (Z.to_nat (len + 1)) with (S (Z.to_nat len)) by lia.
  replace (Z.to_nat (pos + 1)) with (S (Z.to_nat pos)) by lia. done.
Qed.

(** The digits right of [pos] are written, [x] is left. *)
Definition written (v n : Z) (k : nat) (st : Z * Z) (buf : list Z) : Prop :=
  let '(x, pos) := st in
  k = Z.to_nat pos /\ 0 <= pos < n /\ 0 <= x /\ zlen buf = 20 /\ digit_count x (pos + 1) /\
  Forall (fun c => digit c) (slice (pos + 1) (n - 1 - pos) buf) /\
  v = x * 10 ^ (n - 1 - pos) + value_of (slice (pos + 1) (n - 1 - pos) buf).

Lemma digit_count_div x pos : 0 <= pos -> 10 <= x -> digit_count x (pos + 1) -> 1 <= pos /\ digit_count (x / 10) pos.
Proof.
  intros Hp Hx (_ & Hlt & Hge). destruct (decide (pos = 0)) as [->|Hne]; [simpl in Hlt; lia|].
  assert (1 <= pos) by lia. split; [done|].
  rewrite Z.pow_add_r in Hlt by lia. destruct Hge as [?|Hge]; [lia|]. replace (pos + 1 - 1) with pos in Hge by lia.
  split_and!; [done|apply Z.div_lt_upper_bound; lia|].
  destruct (decide (pos = 1)); [by left|]. right. apply Z.div_le_lower_bound; [lia|].
  rewrite <- Z.pow_succ_r by lia. by replace (Z.succ (pos - 1)) with pos by lia.
Qed.

Lemma wp_put_char buf pos c (Q : unit -> list Z -> Prop) E :
  0 <= pos < zlen buf -> Q tt (<[Z.to_nat pos:=c]> buf) -> wp (put_char pos c) buf Q E.
Proof. intros Hp HQ. unfold put_char. apply wp_bind, wp_get. rewrite decide_True by done. by apply wp_put. Qed.

Lemma uint64ToBufferUnsafe_wp v buf : 0 <= v < 2 ^ 64 -> zlen buf = 20 ->
  wp (uint64ToBufferUnsafe v) buf (fun n buf' => zlen buf' = 20 /\ digit_count v n /\ decimal v (take (Z.to_nat n) buf')) nothrow.
Proof.
  intros Hv Hbuf. unfold uint64ToBufferUnsafe. apply wp_bind. eapply wp_wand; [by apply digits10_wp|].
  intros n ? [-> Hn]. assert (Hn20 : n <= 20).
  { destruct Hn as (_ & _ & [?|Hge]); [lia|]. destruct (decide (n <= 20)); [done|].
    assert (10 ^ 20 <= 10 ^ (n - 1)) by (apply Z.pow_le_mono_r; lia). lia. }
  pose proof Hn as (Hn1 & _ & Hn3). rewrite u32_small by lia. apply wp_bind.
  eapply wp_wand with (Q := fun st buf' => exists k, written v n k st buf' /\ st.1 < 10).
  - eapply (wp_iter _ (written v n)) with (n := Z.to_nat (n - 1)); [|lia|].
    2:{ cbn [written].
        replace (n - 1 + 1) with n by lia. replace (n - 1 - (n - 1)) with 0 by lia. rewrite slice_0, value_of_nil.
        split_and!; try done; lia. }
    intros k [x pos] b (-> & Hp & Hx & Hb & Hc & Hf & Hval). case_decide as H10; [|apply wp_ret; exists (Z.to_nat pos); split; [done|simpl; lia]].
    destruct (digit_count_div x pos ltac:(lia) H10 Hc) as [Hp1 Hc1].
    apply wp_bind, wp_put_char; [lia|]. rewrite u32_small by lia. apply wp_ret. exists (Z.to_nat (pos - 1)). split; [lia|].
    pose proof (Z.mod_pos_bound x 10 ltac:(lia)) as Hm. pose proof (Z.div_mod x 10 ltac:(lia)) as Hdm.
    cbn [written]. replace (pos - 1 + 1) with pos by lia. replace (n - 1 - (pos - 1)) with (n - 1 - pos + 1) by lia.
    rewrite slice_insert by lia. split_and!; try done; try lia.
    + unfold zlen. by rewrite length_insert.
    + constructor; [lia|done].
    + rewrite value_of_cons, zlen_slice by lia. rewrite Z.pow_add_r, Hval by lia. change (10 ^ 1) with 10. nia.
  - intros [x pos] b (k & (-> & Hp & Hx & Hb & Hc & Hf & Hval) & H10). simpl in H10.
    assert (Hp0 : pos = 0).
    { destruct Hc as (_ & _ & [?|Hge]); [lia|]. destruct (decide (pos = 0)); [done|].
      assert (10 ^ 1 <= 10 ^ (pos + 1 - 1)) by (apply Z.pow_le_mono_r; lia). lia. }
    subst pos. apply wp_bind, wp_put_char; [lia|]. apply wp_ret. split_and!; [unfold zlen; by rewrite length_insert|done|].
    assert (Htk : take (Z.to_nat n) (<[Z.to_nat 0:=x + 48]> b) = x + 48 :: slice (0 + 1) (n - 1 - 0) b).
    { rewrite <- (slice_insert 0) by lia. unfold slice. rewrite drop_0. f_equal. lia. }
    rewrite Htk. unfold decimal. rewrite value_of_cons, zlen_slice by lia. split_and!; [constructor; [lia|done]|done|lia|].
    simpl. intros [= Hh]. assert (x = 0) by lia. subst x.
    pose proof (value_of_bound _ Hf) as Hbd. rewrite zlen_slice in Hbd by lia.
    assert (n = 1) as -> by (destruct Hn3 as [?|Hge]; [done|]; rewrite Z.sub_0_r in Hbd, Hval; lia). done.
Qed.
End Buffer.

(** ** Appending *)

(** What an integer looks like. *)
Definition printed (v : Z) (s : list Z) : Prop :=
  if decide (v < 0) then exists ds, s = 45 :: ds /\ decimal (- v) ds else decimal v s.

Section Append.
Implicit Types (T : Int) (v : Z) (s r : list Z).

Lemma decimal_length v s : decimal v s -> digit_count v (zlen s).
Proof.
  intros (Hd & Hne & <- & Hz). destruct s as [|c s]; [done|].
  pose proof (value_of_bound _ Hd) as Hb. apply Forall_cons in Hd as [Hc Hd].
  assert (Hl : zlen (c :: s) = zlen s + 1) by (unfold zlen; simpl; lia). rewrite Hl in *.
  pose proof (zlen_nonneg s). split_and!; [lia|lia|]. destruct (decide (c = 48)) as [->|H48].
  - specialize (Hz eq_refl). injection Hz as ->. by left.
  - right. rewrite Z.add_simpl_r. by apply value_of_long.
Qed.

Lemma append_uint64_wp v r : 0 <= v < 2 ^ 64 ->
  wp (append_uint64 v) r (fun _ r' => exists s, r' = r ++ s /\ decimal v s) nothrow.
Proof.
  intros Hv. unfold append_uint64, wp.
  destruct (wp_ok_inv _ _ _ (uint64ToBufferUnsafe_wp v (replicate 20 0) Hv eq_refl)) as (n & b & -> & _ & _ & Hd). eauto.
Qed.

Lemma in_range_64 T v : int_width (width T) -> in_range T v -> - 2 ^ 63 <= v < 2 ^ 64 /\ (v < 0 -> is_signed T = true).
Proof.
  destruct T as [w []]; unfold in_range, int_min, int_max, int_width; simpl; intros [->|[->|[->| ->]]] Hv; simpl in Hv; lia.
Qed.

Lemma toAppend_int_wp T v r : int_width (width T) -> in_range T v ->
  wp (toAppend_int T v) r (fun _ r' => exists s, r' = r ++ s /\ printed v s) nothrow.
Proof.
  intros Hw Hv. destruct (in_range_64 T v Hw Hv) as [Hr Hs]. unfold toAppend_int, printed.
  case_decide as Hn; [rewrite (Hs Hn)|].
  - apply wp_bind, wp_modify. assert (u64 (- u64 v) = - v) as -> by (unfold wrap; euclid).
    eapply wp_wand; [apply append_uint64_wp; lia|]. intros [] r' (s & -> & Hd). exists (45 :: s).
    split; [by rewrite <- (assoc_L (++))|]. by exists s.
  - destruct (is_signed T); apply append_uint64_wp; lia.
Qed.

(** The least value of a type of at least 32 bits. *)
Definition negation_overflows T v : Prop := 32 <= width T /\ is_signed T = true /\ v = int_min T.

Lemma estimate_int_wp {S} T v (st : S) : int_width (width T) -> in_range T v -> ~ negation_overflows T v ->
  wp (estimateSpaceNeeded_int T v) st (fun n st' => st' = st /\ forall s, printed v s -> n = zlen s) nothrow.
Proof.
  intros Hw Hv Hno. destruct (in_range_64 T v Hw Hv) as [Hr Hs]. unfold estimateSpaceNeeded_int, printed.
  set (T' := if decide _ then _ else T). assert (Hsg : is_signed T' = is_signed T) by (unfold T'; by case_decide).
  rewrite Hsg. case_decide as Hn.
  - rewrite (Hs Hn), bool_decide_true by done. cbn [andb]. apply wp_bind, wp_assert.
    { rewrite negb_true_iff, bool_decide_eq_false. unfold T'. case_decide as H32.
      - destruct T as [w sg]. pose proof (Hs Hn) as Hsg'. simpl in *. subst sg. unfold in_range, int_min, int_max in *. simpl in *.
        destruct Hw as [->|[->|[->| ->]]]; simpl in *; lia.
      - intros ->. apply Hno. split_and!; [lia|by apply Hs|done]. }
    rewrite u64_small by lia. apply wp_bind. eapply wp_wand; [apply digits10_wp; lia|].
    intros n ? [-> Hc]. apply wp_ret. split; [done|]. intros s (ds & -> & Hd).
    apply decimal_length in Hd. rewrite (digit_count_unique (- v) _ _ ltac:(lia) Hc Hd). unfold zlen. simpl. lia.
  - rewrite bool_decide_false, andb_false_r by done. eapply wp_wand; [apply digits10_wp; lia|].
    intros n ? [-> Hc]. split; [done|]. intros s Hd%decimal_length. apply (digit_count_unique v); [lia|done|done].
Qed.
End Append.

(** ** Sequences of values *)

(** What a value looks like, and when its size can be estimated. *)
Definition shown (x : Value) (s : list Z) : Prop :=
  match x with
  | VChar c => s = [c]
  | VCStr o => s = default [] o
  | VStr t => s = t
  | VInt T v => printed v s
  end.

Definition printable (x : Value) : Prop :=
  match x with VInt T v => int_width (width T) /\ in_range T v /\ ~ negation_overflows T v | _ => True end.

Section Values.
Implicit Types (x : Value) (xs : list Value) (s r : list Z).

Lemma toAppend_wp x r : printable x -> wp (toAppend x) r (fun _ r' => exists s, r' = r ++ s /\ shown x s) nothrow.
Proof.
  destruct x as [c|[t|]|t|T v]; simpl; intros Hp.
  1,2,4: apply wp_modify; eauto.
  - apply wp_ret. exists []. by rewrite app_nil_r.
  - destruct Hp as (? & ? & _). by apply toAppend_int_wp.
Qed.

Lemma estimate_wp {S} x (st : S) : printable x ->
  wp (estimateSpaceNeeded x) st (fun n st' => st' = st /\ forall s, shown x s -> n = zlen s) nothrow.
Proof.
  destruct x as [c|[t|]|t|T v]; simpl; intros Hp.
  1-4: apply wp_ret; split; [done|]; by intros s ->.
  destruct Hp as (? & ? & ?). by apply estimate_int_wp.
Qed.

(** The texts of the values, in order. *)
Definition shown_all xs (ss : list (list Z)) : Prop := Forall2 shown xs ss.

Lemma toAppendStr_wp xs r : Forall printable xs ->
  wp (toAppendStrImpl xs) r (fun _ r' => exists ss, r' = r ++ concat ss /\ shown_all xs ss) nothrow.
Proof.
  intros Hx. revert r. induction Hx as [|x xs Hx Hxs IH]; intros r; cbn [toAppendStrImpl].
  { apply wp_ret. exists []. rewrite app_nil_r. by split; [|constructor]. }
  destruct xs as [|y xs].
  - eapply wp_wand; [by apply toAppend_wp|]. intros [] r' (s & -> & Hs). exists [s]. simpl. rewrite app_nil_r.
    split; [done|by repeat constructor].
  - apply wp_bind. eapply wp_wand; [by apply toAppend_wp|]. intros [] r' (s & -> & Hs).
    eapply wp_wand; [apply IH|]. intros [] r' (ss & -> & Hss). exists (s :: ss). simpl. rewrite <- (assoc_L (++)).
    split; [done|by constructor].
Qed.

(** The delimiter is shown between the values. *)
Fixpoint delimited (d : Value) xs s : Prop :=
  match xs with
  | [] => s = []
  | [x] => shown x s
  | x :: xs => exists t dt u, s = t ++ dt ++ u /\ shown x t /\ shown d dt /\ delimited d xs u
  end.

Lemma toAppendDelim_wp d xs r : printable d -> Forall printable xs ->
  wp (toAppendDelimStrImpl d xs) r (fun _ r' => exists s, r' = r ++ s /\ delimited d xs s) nothrow.
Proof.
  intros Hd Hx. revert r. induction Hx as [|x xs Hx Hxs IH]; intros r; cbn [toAppendDelimStrImpl delimited].
  { apply wp_ret. exists []. by rewrite app_nil_r. }
  destruct xs as [|y xs]; [by apply toAppend_wp|].
  apply wp_bind. eapply wp_wand; [by apply toAppend_wp|]. intros [] r1 (s & -> & Hs).
  apply wp_bind. eapply wp_wand; [by apply toAppend_wp|]. intros [] r2 (t & -> & Ht).
  eapply wp_wand; [apply IH|]. intros [] r3 (u & -> & Hu). exists (s ++ t ++ u).
  rewrite <- !(assoc_L (++)). split; [done|]. by exists s, t, u.
Qed.

(** The space reserved is the length of the text, and nine. *)
Lemma reserve_wp {S} xs sofar (st : S) : Forall printable xs -> 0 <= sofar ->
  wp (estimateSpaceToReserve sofar xs) st
    (fun n st' => st' = st /\ forall ss, shown_all xs ss -> n = u64 (sofar + zlen (concat ss) + 9)) nothrow.
Proof.
  intros Hx. revert sofar. induction Hx as [|x xs Hx Hxs IH]; intros sofar Hs; cbn [estimateSpaceToReserve].
  { apply wp_ret. split; [done|]. intros ss Hss. inversion Hss. subst ss. simpl. rewrite zlen_nil. unfold estimate_target. f_equal. lia. }
  apply wp_bind. eapply wp_wand; [by apply estimate_wp|]. intros n ? [-> Hn].
  eapply wp_wand; [apply IH; unfold wrap; euclid|]. intros m ? [-> Hm]. split; [done|].
  intros ss Hss. inversion Hss as [|? s ? ss' Hsx Hss' E1 E2]. subst. rewrite (Hm ss' Hss'), (Hn s Hsx). cbn [concat].
  rewrite zlen_app. unfold wrap. rewrite <- Z.add_assoc, Zplus_mod_idemp_l. f_equal. lia.
Qed.
End Values.
