(* ===== verification/ConvSpec.v ===== *)
(** * Conv: the contract

    The parsers accept exactly the literals of their type, the printers and the
    parsers are inverse, and a conversion between integral types is checked. *)

From stdpp Require Import base list strings sets.
From S2P Require Import Prelude Conv ConvParse ConvPrint.

Open Scope Z_scope.

(** ** Parsing *)

Lemma wp_enforceWhitespace {S} s (st : S) (Q : unit -> S -> Prop) (E : exn -> S -> Prop) :
  (Forall (fun c => space c) s -> Q tt st) -> (~ Forall (fun c => space c) s -> E (range_error "Non-whitespace: ") st) ->
  wp (enforceWhitespace s) st Q E.
Proof.
  induction s as [|c s IH]; intros HQ HE; cbn [enforceWhitespace]; [apply wp_ret, HQ; constructor|].
  apply wp_bind, wp_range_check; intros Hc.
  - apply IH; intros H; [apply HQ; by constructor|apply HE; intros [_ ?]%Forall_cons; done].
  - apply HE. intros [Hc' _]%Forall_cons. congruence.
Qed.

(** A text that is read to its end. *)
Lemma to_int_wp T s :
  int_width (width T) -> Forall (fun c => is_byte c) s ->
  wp (to_int T) s
    (fun v rest => int_text T s v rest /\ in_range T v /\ Forall (fun c => space c) rest)
    (fun e _ => is_range_error e /\
       forall v rest, int_text T s v rest -> in_range T v -> ~ Forall (fun c => space c) rest).
Proof.
  unfold to_int, to_piece. intros Hw Hs. apply wp_bind.
  eapply wp_mono; [by apply to_progress_wp| |].
  - intros v rest [Hlit Hr]. apply wp_bind, wp_get. apply wp_bind, wp_enforceWhitespace; intros Hsp.
    + by apply wp_ret.
    + split; [by eexists|]. intros v' rest' Hlit' Hr' Hsp'. apply Hsp.
      by rewrite (proj1 (int_text_rest T s v rest v' rest' Hs Hlit Hlit')).
  - intros e s' (-> & He & Hno). split; [done|]. intros v rest Hlit Hr. by destruct (Hno v rest Hlit).
Qed.

(** C12: parsing is exact. [to<T>(StringPiece)] returns [v] exactly when the text is
    white space, a sign if [T] is signed, digits whose value is [v], within the
    range of [T], and white space again (however many leading zeros there are);
    every other text is refused with [std::range_error]. The version that reports
    its progress takes the longest run of digits off the text in the same
    cases, and leaves the text alone when it throws. No input leads to an
    access outside of the tables or of the text. *)
Theorem integer_parse_exact T s :
  int_width (width T) -> Forall (fun c => is_byte c) s ->
  wp (to_int T) s
    (fun v rest => int_text T s v rest /\ in_range T v /\ Forall (fun c => space c) rest)
    (fun e _ => is_range_error e /\
       forall v rest, int_text T s v rest -> in_range T v -> ~ Forall (fun c => space c) rest) /\
  wp (to_progress T) s (fun v rest => int_text T s v rest /\ in_range T v)
    (fun e s' => s' = s /\ is_range_error e /\ forall v rest, int_text T s v rest -> ~ in_range T v).
Proof.
  intros Hw Hs. split; [by apply to_int_wp|by apply to_progress_wp].
Qed.

(** " -42 " as an [int8_t]. *)
Lemma integer_parse_exact_witness :
  wp (to_int (mkInt 8 true)) [32; 45; 52; 50; 32]
    (fun v rest => int_text (mkInt 8 true) [32; 45; 52; 50; 32] v rest /\ in_range (mkInt 8 true) v)
    (fun e _ => is_range_error e).
Proof.
  destruct (integer_parse_exact (mkInt 8 true) [32; 45; 52; 50; 32]) as [H _].
  - by left.
  - repeat constructor; lia.
  - eapply wp_mono; [exact H| |].
    + intros v rest (H1 & H2 & _). exact (conj H1 H2).
    + intros e s [He _]. exact He.
Defined.

(** ** Printing *)

Lemma printed_text T v s ws rest : printed v s -> (v < 0 -> is_signed T = true) -> Forall (fun c => space c) ws ->
  (forall c, head rest = Some c -> ~ digit c) -> int_text T (ws ++ s ++ rest) v rest.
Proof.
  unfold printed. intros Hp Hs Hws Hr. case_decide as Hn.
  - destruct Hp as (ds & -> & Hd & Hne & Hv & _). exists ws, [45], ds, (-1). split_and!; try done; [|lia].
    right. auto.
  - destruct Hp as (Hd & Hne & Hv & _). exists ws, [], s, 1. split_and!; try done; [by left|lia].
Qed.

Lemma printed_bytes v s : printed v s -> Forall (fun c => is_byte c) s.
Proof.
  unfold printed. case_decide; [intros (ds & -> & Hd & _)|intros (Hd & _)]; repeat constructor; try lia.
  all: eapply Forall_impl; [exact Hd|]; simpl; lia.
Qed.

Lemma space_byte c : space c -> is_byte c.
Proof. unfold isspace. rewrite bool_decide_eq_true. lia. Qed.

Lemma printed_short v s : - 2 ^ 63 <= v < 2 ^ 64 -> printed v s -> 0 <= zlen s <= 21.
Proof.
  intros Hv Hp. split; [apply zlen_nonneg|]. unfold printed in Hp.
  assert (H20 : forall x ds, decimal x ds -> x < 2 ^ 64 -> zlen ds <= 20).
  { intros x ds Hd Hx. destruct (decimal_length _ _ Hd) as (_ & _ & [?|Hge]); [lia|].
    destruct (decide (zlen ds <= 20)); [done|]. assert (10 ^ 20 <= 10 ^ (zlen ds - 1)) by (apply Z.pow_le_mono_r; lia). lia. }
  case_decide; [destruct Hp as (ds & -> & Hd); pose proof (H20 _ _ Hd); unfold zlen in *; simpl; lia|].
  pose proof (H20 _ _ Hp). lia.
Qed.

Lemma to_string_int T v : int_width (width T) -> in_range T v -> ~ negation_overflows T v ->
  exists s, to_string [VInt T v] = Ok tt s /\ printed v s /\ reserveInTarget [VInt T v] [] = Ok (zlen s + 9) [].
Proof.
  intros Hw Hv Hno. assert (Hpr : Forall printable [VInt T v]) by (constructor; [done|constructor]).
  destruct (wp_ok_inv _ _ _ (reserve_wp [VInt T v] 0 ([] : list Z) Hpr ltac:(lia))) as (n & ? & Hres & -> & Hn).
  destruct (wp_ok_inv _ _ _ (toAppendStr_wp [VInt T v] [] Hpr)) as ([] & r' & Happ & ss & -> & Hss).
  exists (concat ss). unfold to_string, toAppendFit, reserveInTarget. erewrite run_bind by exact Hres. split; [exact Happ|].
  pose proof (Hn ss Hss) as Hn'. inversion Hss as [|? s ? ? Hs1 Hs2]. inversion Hs2. subst. cbn [concat] in *.
  rewrite app_nil_r in *. split; [exact Hs1|]. rewrite Hres. f_equal. apply u64_small.
  destruct (in_range_64 T v Hw Hv) as [Hb _]. pose proof (printed_short v s Hb Hs1). lia.
Qed.

Lemma to_int_text T s v ws' :
  int_width (width T) -> Forall (fun c => is_byte c) s -> in_range T v -> int_text T s v ws' -> Forall (fun c => space c) ws' ->
  to_int T s = Ok v ws'.
Proof.
  intros Hw Hby Hv Hlit Hws'. pose proof (to_int_wp T s Hw Hby) as H. unfold wp in H.
  destruct (to_int T s) as [v' rest|e s'|?|]; try done.
  - destruct H as (Hlit' & _). destruct (int_text_rest _ _ _ _ _ _ Hby Hlit Hlit') as [-> ->]. done.
  - destruct H as [_ Hno]. by destruct (Hno v ws' Hlit Hv).
Qed.

(** C28: the text of an integer is read back. [toAppend] writes the decimal form of
    every value of every integral type, the least one included, behind what is
    there; and the parser of the type returns the value, whatever white space
    surrounds the text. [to<std::string>] gives that text, and the space it
    reserves is the length of the text and 9, for every value whose negation does
    not overflow. The two implementations of [digits10] agree. *)
Theorem integer_text_roundtrip T v r ws ws' :
  int_width (width T) -> in_range T v -> Forall (fun c => space c) ws -> Forall (fun c => space c) ws' ->
  wp (toAppend_int T v) r
    (fun _ r' => exists s, r' = r ++ s /\ printed v s /\ to_int T (ws ++ s ++ ws') = Ok v ws') nothrow /\
  (~ negation_overflows T v ->
   exists s, to_string [VInt T v] = Ok tt s /\ printed v s /\ reserveInTarget [VInt T v] [] = Ok (zlen s + 9) []) /\
  (0 <= v -> (digits10 v : M unit Z) tt = digits10_portable v tt).
Proof.
  intros Hw Hv Hws Hws'. destruct (in_range_64 T v Hw Hv) as [Hb Hsg]. split_and!.
  - eapply wp_wand; [by apply toAppend_int_wp|]. intros [] r' (s & -> & Hp). exists s. split_and!; try done.
    assert (Hlit : int_text T (ws ++ s ++ ws') v ws').
    { apply printed_text; try done. intros c Hc Hd. destruct ws' as [|d ws']; [done|]. injection Hc as ->.
      apply Forall_cons in Hws' as [Hsp _]. by apply space_not_digit in Hsp as [? _]. }
    assert (Hby : Forall (fun c => is_byte c) (ws ++ s ++ ws')).
    { rewrite !Forall_app. split_and!; [|by eapply printed_bytes|]; (eapply Forall_impl; [eassumption|apply space_byte]). }
    by apply to_int_text.
  - intros Hno. by apply to_string_int.
  - intros Hv0. destruct (wp_ok_inv _ _ _ (digits10_wp v tt ltac:(lia))) as (n & [] & -> & _ & Hn).
    destruct (wp_ok_inv _ _ _ (digits10_portable_wp v tt ltac:(lia))) as (m & [] & -> & _ & Hm).
    by rewrite (digit_count_unique v n m).
Qed.

(** -128 as an [int8_t]. *)
Lemma integer_text_roundtrip_witness :
  wp (toAppend_int (mkInt 8 true) (-128)) [120]
    (fun _ r' => exists s, r' = [120] ++ s /\ printed (-128) s /\ to_int (mkInt 8 true) ([32] ++ s ++ [10]) = Ok (-128) [10]) nothrow.
Proof.
  destruct (integer_text_roundtrip (mkInt 8 true) (-128) [120] [32] [10]) as [H _].
  - by left.
  - split; discriminate.
  - repeat constructor.
  - repeat constructor.
  - exact H.
Defined.

(** ** Between integral types *)

(** A signed value is compared with 0 as an unsigned one. *)
Definition compared_unsigned (Src Tgt : Int) : bool :=
  is_signed Src && negb (is_signed Tgt) && bool_decide (Z.max 32 (width Src) <= width Tgt).

(** Facts that hold for each pair of types. *)
Ltac each_type :=
  repeat match goal with T : Int |- _ => let w := fresh "w" in let s := fresh "s" in destruct T as [w s] end;
  repeat match goal with H : int_width _ |- _ => destruct H as [H|[H|[H|H]]]; simpl in H; subst end;
  repeat match goal with s : bool |- _ => destruct s end;
  repeat match goal with |- context [common_type ?A ?B] =>
    let c := eval vm_compute in (common_type A B) in change (common_type A B) with c end;
  unfold in_range, int_min, int_max; simpl.

Lemma common_type_range A B a : int_width (width A) -> int_width (width B) -> in_range A a ->
  is_signed (common_type A B) = true \/ 0 <= a ->
  in_range (common_type A B) a /\ in_range (common_type B A) a /\ common_type A B = common_type B A /\
  int_width (width (common_type A B)).
Proof. intros HA HB. each_type; unfold int_width; intros; split_and!; done || lia. Qed.

Lemma int_cast_id T v : int_width (width T) -> in_range T v -> int_cast T v = v.
Proof.
  intros HT. unfold int_cast, sext, wrap. each_type; intros Hv; try case_decide; euclid.
Qed.

Lemma int_cast_nonneg T v : is_signed T = false -> 0 < width T -> 0 <= int_cast T v.
Proof. intros HT Hw. unfold int_cast. rewrite HT. apply wrap_fits. lia. Qed.

Lemma int_leb_exact A B a b : int_width (width A) -> int_width (width B) -> in_range A a -> in_range B b ->
  is_signed (common_type A B) = true \/ 0 <= a /\ 0 <= b -> int_leb A a B b = bool_decide (a <= b).
Proof.
  intros HA HB Ha Hb Hc. unfold int_leb.
  destruct (common_type_range A B a HA HB Ha ltac:(tauto)) as (Ha' & _ & Hcc & Hw).
  assert (Hb' : in_range (common_type A B) b).
  { apply (common_type_range B A b HB HA Hb). rewrite <- Hcc. tauto. }
  by rewrite !int_cast_id.
Qed.

(** When the tests are made, and in which type. *)
Lemma test_types Src Tgt : int_width (width Src) -> int_width (width Tgt) ->
  (is_signed Src = true -> int_max Tgt < int_max Src -> is_signed (common_type Src Tgt) = true) /\
  (is_signed Src = true -> is_signed (common_type Tgt Src) = negb (compared_unsigned Src Tgt)) /\
  (is_signed Src = true -> is_signed Tgt = true -> width Src <= width Tgt -> int_min Tgt <= int_min Src) /\
  (compared_unsigned Src Tgt = true -> is_signed Src = true /\ is_signed Tgt = false /\ int_max Src < int_max Tgt) /\
  in_range Tgt (int_max Tgt) /\ in_range Tgt (int_min Tgt) /\ int_min Tgt <= 0 <= int_max Tgt /\ int_min Src <= 0 /\
  (is_signed Src = false -> int_min Src = 0) /\ (is_signed Tgt = false -> int_min Tgt = 0).
Proof. intros HS HT. unfold compared_unsigned. each_type; split_and!; intros; done || lia. Qed.

Lemma int_cast_negative Src Tgt v : int_width (width Src) -> int_width (width Tgt) -> in_range Src v -> v < 0 ->
  compared_unsigned Src Tgt = true -> int_cast Tgt v = v + 2 ^ width Tgt.
Proof.
  intros HS HT. unfold compared_unsigned, int_cast, wrap. each_type; intros Hv Hn Hc; try discriminate Hc; euclid.
Qed.

(** C37: conversions between integral types are checked. [to<Tgt>(Src)] returns the
    value when it is in the range of [Tgt] and throws [std::range_error]
    otherwise, without doing anything else, except when [Src] is signed and [Tgt]
    is an unsigned type of at least 32 bits and of the width of [Src] or more:
    then the test for negative values compares unsigned numbers, always holds,
    and a negative value is returned modulo 2^width. *)
Theorem integral_conversion_exact {S} Src Tgt v (st : S) :
  int_width (width Src) -> int_width (width Tgt) -> in_range Src v ->
  wp (to_integral Src Tgt v) st
    (fun r st' => st' = st /\
       (in_range Tgt v /\ r = v \/
        v < 0 /\ compared_unsigned Src Tgt = true /\ r = v + 2 ^ width Tgt))
    (fun e st' => st' = st /\ is_range_error e /\ ~ in_range Tgt v /\ ~ (v < 0 /\ compared_unsigned Src Tgt = true)).
Proof.
  intros HS HT Hv. destruct (test_types Src Tgt HS HT) as (Ht1 & Ht2 & Ht3 & Ht4 & HM & Hm & H0 & H0s & Hu & Hut).
  unfold to_integral. case_decide as Heq; [subst Tgt; apply wp_ret; split; [done|]; by left|].
  assert (Hneg : v < 0 -> is_signed Src = true).
  { intros Hn. destruct (is_signed Src) eqn:Hs; [done|]. specialize (Hu eq_refl). unfold in_range in Hv. lia. }
  assert (Hlow : is_signed Src && (negb (is_signed Tgt) || bool_decide (width Tgt < width Src)) = false -> int_min Tgt <= v).
  { unfold in_range in Hv. destruct (is_signed Src); cbn [andb]; [|specialize (Hu eq_refl); lia].
    rewrite orb_false_iff, negb_false_iff, bool_decide_eq_false. intros [Hs Hlt]. specialize (Ht3 eq_refl Hs). lia. }
  apply wp_bind. eapply wp_mono with (Q := fun _ st' => st' = st /\ v <= int_max Tgt)
    (E := fun e st' => st' = st /\ is_range_error e /\ int_max Tgt < v).
  { destruct (decide (int_max Tgt < int_max Src)) as [Hmx|Hmx]; [|apply wp_ret; split; [done|]; unfold in_range in Hv; lia].
    assert (is_signed (common_type Src Tgt) = true \/ 0 <= v /\ 0 <= int_max Tgt).
    { destruct (decide (v < 0)); [left; by apply Ht1; [apply Hneg|]|right; lia]. }
    apply wp_range_check; rewrite int_leb_exact, ?bool_decide_eq_true, ?bool_decide_eq_false by done; [done|].
    intros Hgt. split_and!; [done|by eexists|lia]. }
  2:{ intros e st' (-> & He & Hgt). unfold in_range. split_and!; [done|done|lia|lia]. }
  intros _ st' [-> Hle]. apply wp_bind.
  eapply wp_mono with (Q := fun _ st' => st' = st /\ (int_min Tgt <= v \/ v < 0 /\ compared_unsigned Src Tgt = true))
    (E := fun e st' => st' = st /\ is_range_error e /\ v < int_min Tgt /\ compared_unsigned Src Tgt = false).
  { destruct (is_signed Src && _) eqn:Htest; [|apply wp_ret; split; [done|]; left; by apply Hlow].
    apply andb_true_iff in Htest as [Hs _]. specialize (Ht2 Hs). destruct (compared_unsigned Src Tgt) eqn:Hcu.
    - apply wp_range_check; intros Hb; [split; [done|]; destruct (decide (v < 0)); [by right|left; destruct (Ht4 eq_refl) as (_ & Hs' & _); rewrite (Hut Hs'); lia]|].
      exfalso. revert Hb. unfold int_leb. destruct (common_type_range Tgt Src (int_min Tgt) HT HS Hm) as (Hr & _ & _ & Hw).
      { right. destruct (Ht4 eq_refl) as (_ & Hs' & _). rewrite (Hut Hs'). lia. }
      rewrite bool_decide_eq_false, (int_cast_id _ (int_min Tgt)) by done. destruct (Ht4 eq_refl) as (_ & Hs' & _). rewrite (Hut Hs').
      pose proof (int_cast_nonneg (common_type Tgt Src) v Ht2 ltac:(unfold int_width in Hw; lia)). lia.
    - apply wp_range_check; rewrite int_leb_exact, ?bool_decide_eq_true, ?bool_decide_eq_false by (done || by left).
      + intros ?. split; [done|]. by left.
      + intros ?. split_and!; [done|by eexists|lia|done]. }
  2:{ intros e st' (-> & He & Hlt & Hcu). rewrite Hcu. unfold in_range. split_and!; [done|done|lia|]. by intros [_ ?]. }
  intros _ st' [-> Hor]. apply wp_ret. split; [done|]. destruct (decide (int_min Tgt <= v)).
  - left. assert (in_range Tgt v) by done. split; [done|by apply int_cast_id].
  - right. destruct Hor as [?|[Hn Hcu]]; [done|]. split_and!; [done|done|by apply (int_cast_negative Src)].
Qed.

(** -1 as an [int] becomes the largest [unsigned long]. *)
Lemma integral_conversion_exact_witness :
  wp (to_integral int32 uint64 (-1)) tt (fun r _ => r = 18446744073709551615) nothrow.
Proof.
  pose proof (integral_conversion_exact int32 uint64 (-1) tt ltac:(unfold int_width; simpl; lia) ltac:(unfold int_width; simpl; lia)
    ltac:(split; discriminate)) as H.
  eapply wp_mono; [exact H| |].
  - intros r st [_ [[[Hlo _] _]|(_ & _ & ->)]]; [by destruct Hlo|reflexivity].
  - intros e st (_ & _ & _ & Hno). apply Hno. split; reflexivity.
Defined.

(** ** Booleans *)

(** The words that [str_to_bool] knows, and the numbers. *)
Definition bool_words (v : bool) : list (list Z) :=
  if v then [[121; 101; 115]; [121]; [116; 114; 117; 101]; [116]; [111; 110]]
  else [[110; 111]; [110]; [102; 97; 108; 115; 101]; [102]; [111; 102; 102]].

Definition bool_word (w : list Z) (v : bool) : Prop :=
  (tolower <$> w) ∈ bool_words v \/
  exists n, w = replicate n 48 ++ (if v then [49] else []) /\ w <> [].

Lemma bool_str_cmp_spec b value b' : bool_str_cmp b value = Some b' -> exists w, b = w ++ b' /\ (tolower <$> w) = value.
Proof.
  revert b. induction value as [|v value IH]; intros [|c b]; simpl; try done.
  - intros [= <-]. by exists [].
  - intros [= <-]. by exists [].
  - case_decide as Hc; [|done]. intros (w & -> & Hw)%IH. exists (c :: w). split; [done|]. cbn [fmap list_fmap]. by rewrite Hc, Hw.
Qed.

Lemma bool_digits_wp {S} b n (st : S) :
  wp (bool_digits b false) st
    (fun '(v, b') st' => st' = st /\ exists w, b = w ++ b' /\ (w = [] -> forall c, head b = Some c -> isdigit c = false) /\
       exists m, replicate n 48 ++ w = replicate m 48 ++ (if v then [49] else []))
    (fun e st' => st' = st /\ is_range_error e).
Proof.
  revert n. induction b as [|c b IH]; intros n; cbn [bool_digits].
  { apply wp_ret. split; [done|]. exists []. split_and!; [done|done|]. by exists n. }
  destruct (isdigit c) eqn:Hd.
  2:{ apply wp_ret. split; [done|]. exists []. split_and!; [done|by intros _ ? [= <-]|]. by exists n. }
  apply wp_bind, wp_range_check; [|intros _; split; [done|by eexists]]. cbn [negb andb]. rewrite bool_decide_eq_true.
  intros [->| ->].
  - rewrite bool_decide_false by done. eapply wp_wand; [apply (IH (Datatypes.S n))|]. intros [v b'] st' (-> & w & -> & _ & m & Hm).
    split; [done|]. exists (48 :: w). split_and!; [done|done|]. exists m. rewrite <- Hm. by rewrite replicate_S_end, <- (assoc_L (++)).
  - rewrite bool_decide_true by done. assert (Hone : wp (mret (true, b)) st
      (fun '(v, b') st' => st' = st /\ exists w, 49 :: b = w ++ b' /\ (w = [] -> forall c, head (49 :: b) = Some c -> isdigit c = false) /\
         exists m, replicate n 48 ++ w = replicate m 48 ++ (if v then [49] else [])) (fun e st' => st' = st /\ is_range_error e)).
    { apply wp_ret. split; [done|]. exists [49]. split_and!; [done|done|]. by exists n. }
    destruct b as [|d b]; cbn [bool_digits]; [exact Hone|].
    destruct (isdigit d); [by apply wp_bind, wp_range_check; [|intros _; split; [done|by eexists]]|exact Hone].
Qed.

(** A word, or its first letter. *)
Lemma word_or_letter_spec c b value : exists w, c :: b = w ++ word_or_letter (c :: b) value /\
  ((tolower <$> w) = value \/ w = [c]).
Proof.
  unfold word_or_letter. destruct (bool_str_cmp (c :: b) value) as [b'|] eqn:Hc.
  - apply bool_str_cmp_spec in Hc as (w & -> & Hw). exists w. auto.
  - exists [c]. auto.
Qed.

(** [to<bool>] accepts a known word, in any mixture of cases, or a number that is
    0 or 1, between white space, with the right value; it refuses everything else
    with [std::range_error]. *)
Lemma bool_parse_sound s :
  wp to_bool s
    (fun v rest => exists ws w, s = ws ++ w ++ rest /\ Forall (fun c => space c) ws /\ bool_word w v /\ Forall (fun c => space c) rest)
    (fun e _ => is_range_error e).
Proof.
  unfold to_bool, to_piece. apply wp_bind.
  eapply wp_mono with (Q := fun v rest => exists ws w, s = ws ++ w ++ rest /\ Forall (fun c => space c) ws /\ bool_word w v)
    (E := fun e _ => is_range_error e); [|intros v rest (ws & w & He & Hws & Hw)|done].
  2:{ apply wp_bind, wp_get. apply wp_bind, wp_enforceWhitespace; intros Hsp; [|by eexists]. apply wp_ret. by exists ws, w. }
  unfold str_to_bool. apply wp_bind, wp_get. destruct (skip_white_spec s) as (ws & He & Hws & _).
  destruct (skip_white s) as [|c b]; [by eexists|]. apply wp_bind.
  eapply wp_mono with (Q := fun '(v, b') s' => exists w, c :: b = w ++ b' /\ bool_word w v)
    (E := fun e _ => is_range_error e); [|intros [v b'] s' (w & Hb & Hw)|done].
  2:{ apply wp_bind, wp_put. apply wp_ret. exists ws, w. by rewrite <- Hb. }
  assert (Hword : forall (v : bool) value, value ∈ bool_words v ->
    [tolower c] ∈ bool_words v ->
    wp (mret (v, word_or_letter (c :: b) value)) s
      (fun '(v, b') s' => exists w, c :: b = w ++ b' /\ bool_word w v) (fun e _ => is_range_error e)).
  { intros v value Hin Hc. apply wp_ret. destruct (word_or_letter_spec c b value) as (w & Hb & Hw). exists w. split; [done|].
    left. destruct Hw as [->| ->]; [done|]. exact Hc. }
  case_decide as H01.
  { eapply wp_mono; [apply (bool_digits_wp (c :: b) 0)| |by intros e s' [_ ?]].
    intros [v b'] s' (_ & w & Hb & Hne & m & Hm). exists w. split; [done|]. right. exists m. split; [done|].
    intros Hnil. assert (Hdig : isdigit c = true) by (apply isdigit_spec; lia). by rewrite (Hne Hnil c eq_refl) in Hdig. }
  do 4 (let Hc := fresh "Hc" in case_decide as Hc; [apply Hword; [unfold bool_words; set_solver|destruct Hc as [->| ->]; vm_compute; set_solver]|]).
  case_decide; [|by eexists].
  destruct (bool_str_cmp (c :: b) [111; 110]) as [b1|] eqn:H1.
  { apply wp_ret. apply bool_str_cmp_spec in H1 as (w & Hb & Hw). exists w. split; [done|]. left. rewrite Hw. unfold bool_words. set_solver. }
  destruct (bool_str_cmp (c :: b) [111; 102; 102]) as [b2|] eqn:H2; [|by eexists].
  apply wp_ret. apply bool_str_cmp_spec in H2 as (w & Hb & Hw). exists w. split; [done|]. left. rewrite Hw. unfold bool_words. set_solver.
Qed.
