(* ===== verification/Hash.v ===== *)
(** * Hash: mixing functions and hashes

    [src/accelerator/Hash.h].  Words are [Z]s; a buffer is the list of its bytes.
    [std::hash] is code of the C++ library: the generic combinators take the
    hashes of the elements. *)

From stdpp Require Import base list strings.
From S2P Require Import Prelude Bits SpookyHashV2 Conv ConvParse ConvSpec.

Open Scope Z_scope.

(** [~key] in 64 bits. *)
Definition lnot64 (key : Z) : Z := 2 ^ 64 - 1 - key.

(** ** Combining hashes *)

Definition hash_128_to_64 (upper lower : Z) : Z :=
  let kMul := 0x9ddfea08eb382d69 in
  let a := u64 (Z.lxor lower upper * kMul) in
  let a := Z.lxor a (Z.shiftr a 47) in
  let b := u64 (Z.lxor upper a * kMul) in
  let b := Z.lxor b (Z.shiftr b 47) in
  u64 (b * kMul).

Fixpoint hash_range {A} (hasher : A -> Z) (elements : list A) (hash : Z) : Z :=
  match elements with
  | [] => hash
  | x :: elements => hash_range hasher elements (hash_128_to_64 hash (hasher x))
  end.

(** The arguments are given by their hashes [Hasher::hash(t)]. *)
Fixpoint hash_combine_generic (ts : list Z) : Z :=
  match ts with
  | [] => 0
  | [seed] => seed
  | seed :: ts => hash_128_to_64 seed (hash_combine_generic ts)
  end.

(** ** Reversible mixing *)

Definition twang_mix64 (key : Z) : Z :=
  let key := u64 (lnot64 key + Z.shiftl key 21) in
  let key := Z.lxor key (Z.shiftr key 24) in
  let key := u64 (key + Z.shiftl key 3 + Z.shiftl key 8) in
  let key := Z.lxor key (Z.shiftr key 14) in
  let key := u64 (key + Z.shiftl key 2 + Z.shiftl key 4) in
  let key := Z.lxor key (Z.shiftr key 28) in
  u64 (key + Z.shiftl key 31).

(** [key ^= (key >> n1) ^ (key >> n2) ^ ...]. *)
Definition xor_shifts (ns : list Z) (key : Z) : Z :=
  Z.lxor key (foldr (fun n a => Z.lxor (Z.shiftr key n) a) 0 ns).

Definition twang_unmix64 (key : Z) : Z :=
  let key := u64 (key * 4611686016279904257) in
  let key := xor_shifts [28; 56] key in
  let key := u64 (key * 14933078535860113213) in
  let key := xor_shifts [14; 28; 42; 56] key in
  let key := u64 (key * 15244667743933553977) in
  let key := xor_shifts [24; 48] key in
  u64 (u64 (key + 1) * 9223367638806167551).

Definition twang_32from64 (key : Z) : Z :=
  let key := u64 (lnot64 key + Z.shiftl key 18) in
  let key := Z.lxor key (Z.shiftr key 31) in
  let key := u64 (key * 21) in
  let key := Z.lxor key (Z.shiftr key 11) in
  let key := u64 (key + Z.shiftl key 6) in
  let key := Z.lxor key (Z.shiftr key 22) in
  u32 key.

Definition jenkins_rev_mix32 (key : Z) : Z :=
  let key := u32 (key + Z.shiftl key 12) in
  let key := Z.lxor key (Z.shiftr key 22) in
  let key := u32 (key + Z.shiftl key 4) in
  let key := Z.lxor key (Z.shiftr key 9) in
  let key := u32 (key + Z.shiftl key 10) in
  let key := Z.lxor key (Z.shiftr key 2) in
  let key := u32 (key + Z.shiftl key 7) in
  u32 (key + Z.shiftl key 12).

Definition jenkins_rev_unmix32 (key : Z) : Z :=
  let key := u32 (key * 2364026753) in
  let key := xor_shifts [2; 4; 6; 8; 10; 12; 14; 16; 18; 20; 22; 24; 26; 28; 30] key in
  let key := u32 (key * 3222273025) in
  let key := xor_shifts [9; 18; 27] key in
  let key := u32 (key * 4042322161) in
  let key := xor_shifts [22] key in
  u32 (key * 16773121).

(** ** Fowler / Noll / Vo *)

Definition FNV_32_HASH_START : Z := 2166136261.
Definition FNV_64_HASH_START : Z := 14695981039346656037.
Definition FNVA_64_HASH_START : Z := 14695981039346656037.

(** [hash += (hash << 1) + ...] *)
Definition fnv32_step (hash : Z) : Z :=
  u32 (hash + Z.shiftl hash 1 + Z.shiftl hash 4 + Z.shiftl hash 7 + Z.shiftl hash 8 + Z.shiftl hash 24).
Definition fnv64_step (hash : Z) : Z :=
  u64 (hash + Z.shiftl hash 1 + Z.shiftl hash 4 + Z.shiftl hash 5 + Z.shiftl hash 7 + Z.shiftl hash 8 + Z.shiftl hash 40).

(** [hash ^= c] with a [signed char], which is extended. *)
Definition xor_char (w hash c : Z) : Z := Z.lxor hash (wrap w (sext 8 c)).

Fixpoint fnv32_buf (buf : list Z) (hash : Z) : Z :=
  match buf with
  | [] => hash
  | c :: buf => fnv32_buf buf (xor_char 32 (fnv32_step hash) c)
  end.

(** The version for a C string: [s] is the memory from the pointer on. *)
Fixpoint fnv32 (s : list Z) (hash : Z) : Z :=
  match s with
  | c :: s => if decide (c = 0) then hash else fnv32 s (xor_char 32 (fnv32_step hash) c)
  | [] => hash
  end.

Fixpoint fnv64_buf (buf : list Z) (hash : Z) : Z :=
  match buf with
  | [] => hash
  | c :: buf => fnv64_buf buf (xor_char 64 (fnv64_step hash) c)
  end.

Fixpoint fnv64 (s : list Z) (hash : Z) : Z :=
  match s with
  | c :: s => if decide (c = 0) then hash else fnv64 s (xor_char 64 (fnv64_step hash) c)
  | [] => hash
  end.

Fixpoint fnva64_buf (buf : list Z) (hash : Z) : Z :=
  match buf with
  | [] => hash
  | c :: buf => fnva64_buf buf (fnv64_step (Z.lxor hash c))
  end.

(** ** Paul Hsieh's hash *)

Definition get16bits (s : list Z) : Z := loadUnaligned 16 s 0.

Fixpoint hsieh_loop (len : nat) (s : list Z) (hash : Z) : Z * list Z :=
  match len with
  | O => (hash, s)
  | S len =>
      let hash := u32 (hash + get16bits s) in
      let tmp := Z.lxor (u32 (Z.shiftl (get16bits (drop 2 s)) 11)) hash in
      let hash := Z.lxor (u32 (Z.shiftl hash 16)) tmp in
      hsieh_loop len (drop 4 s) (u32 (hash + Z.shiftr hash 11))
  end.

Definition hsieh_tail (rem : nat) (s : list Z) (hash : Z) : Z :=
  match rem with
  | 3%nat =>
      let hash := u32 (hash + get16bits s) in
      let hash := Z.lxor hash (u32 (Z.shiftl hash 16)) in
      let hash := Z.lxor hash (u32 (Z.shiftl (s !!! 2%nat) 18)) in
      u32 (hash + Z.shiftr hash 11)
  | 2%nat =>
      let hash := u32 (hash + get16bits s) in
      let hash := Z.lxor hash (u32 (Z.shiftl hash 11)) in
      u32 (hash + Z.shiftr hash 17)
  | 1%nat =>
      let hash := u32 (hash + s !!! 0%nat) in
      let hash := Z.lxor hash (u32 (Z.shiftl hash 10)) in
      u32 (hash + Z.shiftr hash 1)
  | _ => hash
  end.

(** The final mixing. *)
Definition hsieh_avalanche (hash : Z) : Z :=
  let hash := Z.lxor hash (u32 (Z.shiftl hash 3)) in
  let hash := u32 (hash + Z.shiftr hash 5) in
  let hash := Z.lxor hash (u32 (Z.shiftl hash 4)) in
  let hash := u32 (hash + Z.shiftr hash 17) in
  let hash := Z.lxor hash (u32 (Z.shiftl hash 25)) in
  u32 (hash + Z.shiftr hash 6).

(** [buf] is not a null pointer. *)
Definition hsieh_hash32_buf (buf : list Z) : Z :=
  let len := length buf in
  if decide (len = 0%nat) then 0
  else
    let rem := (len mod 4)%nat in
    let '(hash, s) := hsieh_loop (len / 4) buf (u32 (Z.of_nat len)) in
    hsieh_avalanche (hsieh_tail rem s hash).

(** ** Hashers *)

(** An integral value of at most 4 bytes is converted to [int32_t] first. *)
Definition integral_hasher (w : Z) (i : Z) : Z :=
  if decide (w <= 32) then
    let i32 := sext 32 i in
    jenkins_rev_mix32 (u32 i32)
  else twang_mix64 (u64 i).

Definition hasher_bool (key : bool) : Z := if key then 18446744073709551615 else 0.
Definition hasher_string (key : list Z) : Z := Hash64 key 0.

(** [Hash()(t, ts...)] on the hashes of the arguments; at least one. *)
Fixpoint Hash_variadic (ts : list Z) : Z :=
  match ts with
  | [] => 0
  | [t] => t
  | t :: ts => hash_128_to_64 t (Hash_variadic ts)
  end.

(** [TupleHasher<index>]: [key] has the [std::hash]es of the elements, and
    [std_hash] is [std::hash] on the intermediate [size_t]. *)
Fixpoint TupleHasher (std_hash : Z -> Z) (index : nat) (key : list Z) : Z :=
  match index with
  | O => hash_combine_generic [key !!! 0%nat]
  | S i => hash_combine_generic [std_hash (TupleHasher std_hash i key); key !!! index]
  end.

(** * Hash: what the mixing functions guarantee

    The reversible mixers are bijections with the given inverses, and no single
    change of an input goes unnoticed. *)

Open Scope Z_scope.

(** ** Inverse functions on words *)

(** [g] undoes [f]. *)
Definition undoes (w : Z) (f g : Z -> Z) : Prop := forall x, fits w x -> fits w (f x) /\ g (f x) = x.

Section Inverse.
Context (w : Z) (Hw : 0 < w).
Implicit Types (x y c d n : Z).

Lemma undoes_compose f f' g g' : undoes w f g -> undoes w f' g' -> undoes w (fun x => f' (f x)) (fun y => g (g' y)).
Proof.
  intros H H' x Hx. destruct (H x Hx) as [Hf Hg]. destruct (H' (f x) Hf) as [Hf' Hg']. split; [done|]. by rewrite Hg'.
Qed.

Lemma undoes_ext f f' g g' : (forall x, fits w x -> f x = f' x) -> (forall x, fits w x -> g x = g' x) -> undoes w f g -> undoes w f' g'.
Proof. intros Hf Hg H x Hx. rewrite <- Hf by done. destruct (H x Hx) as [H1 H2]. rewrite <- Hg by done. done. Qed.

Lemma undoes_injective f g x y : undoes w f g -> fits w x -> fits w y -> f x = f y -> x = y.
Proof. intros H Hx Hy E. rewrite <- (proj2 (H x Hx)), E. apply (H y Hy). Qed.

(** Multiplication by an odd number. *)
Lemma undoes_mul c d : wrap w (c * d) = 1 -> undoes w (fun x => wrap w (x * c)) (fun y => wrap w (y * d)).
Proof.
  intros Hcd x Hx. split; [apply wrap_fits; lia|]. unfold wrap in *. rewrite Zmult_mod_idemp_l, <- Z.mul_assoc, Zmult_mod, Hcd.
  rewrite Z.mul_1_r, Zmod_mod. by apply wrap_small.
Qed.

Lemma undoes_add c : undoes w (fun x => wrap w (x + c)) (fun y => wrap w (y - c)).
Proof.
  intros x Hx. split; [apply wrap_fits; lia|]. unfold wrap. rewrite Zminus_mod_idemp_l. replace (x + c - c) with x by lia. by apply wrap_small.
Qed.

Lemma undoes_xor c : fits w c -> undoes w (fun x => Z.lxor x c) (fun y => Z.lxor y c).
Proof.
  intros Hc x Hx. split; [apply lxor_fits; done || lia|]. by rewrite Z.lxor_assoc, Z.lxor_nilpotent, Z.lxor_0_r.
Qed.

Lemma undoes_xor_left c : fits w c -> undoes w (fun x => Z.lxor c x) (fun y => Z.lxor y c).
Proof. intros Hc. eapply undoes_ext; [| |by apply (undoes_xor c)]; [intros x _; apply Z.lxor_comm|done]. Qed.

(** ** Xor with a shifted copy *)

Lemma shiftr_fits x n : fits w x -> 0 <= n -> fits w (Z.shiftr x n).
Proof.
  intros [H0 Hx] Hn. unfold fits. rewrite Z.shiftr_div_pow2 by done. pose proof (Z.pow_pos_nonneg 2 n ltac:(lia) Hn).
  split; [apply Z.div_pos; lia|]. apply Z.div_lt_upper_bound; [lia|]. nia.
Qed.

Lemma shiftr_out x n : fits w x -> w <= n -> Z.shiftr x n = 0.
Proof.
  intros [H0 Hx] Hn. rewrite Z.shiftr_div_pow2 by lia. apply Z.div_small. split; [done|].
  apply Z.lt_le_trans with (2 ^ w); [done|]. apply Z.pow_le_mono_r; lia.
Qed.

(** [n, 2n, ..., mn], added to [k]. *)
Definition multiples (n : Z) (k : Z) (m : nat) : list Z := (fun i => k + n * (Z.of_nat i + 1)) <$> seq 0 m.

Definition xored (x : Z) (ns : list Z) : Z := foldr (fun n a => Z.lxor (Z.shiftr x n) a) 0 ns.

Lemma xored_lxor x y ns : xored (Z.lxor x y) ns = Z.lxor (xored x ns) (xored y ns).
Proof.
  induction ns as [|n ns IH]; simpl; [done|]. rewrite IH, Z.shiftr_lxor, !Z.lxor_assoc. f_equal.
  by rewrite <- !Z.lxor_assoc, (Z.lxor_comm (Z.shiftr y n)).
Qed.

Lemma xored_shiftr x n ns : 0 <= n -> Forall (fun k => 0 <= k) ns -> xored (Z.shiftr x n) ns = xored x (Z.add n <$> ns).
Proof.
  intros Hn. induction 1 as [|k ns Hk _ IH]; simpl; [done|]. by rewrite IH, Z.shiftr_shiftr by done.
Qed.

Lemma shiftr_xored x n ns : 0 <= n -> Forall (fun k => 0 <= k) ns -> Z.shiftr (xored x ns) n = xored (Z.shiftr x n) ns.
Proof.
  intros Hn. induction 1 as [|k ns Hk _ IH]; simpl; [by rewrite Z.shiftr_0_l|].
  rewrite Z.shiftr_lxor, IH, !Z.shiftr_shiftr by done. by rewrite Z.add_comm.
Qed.

Lemma xored_app x ns ns' : xored x (ns ++ ns') = Z.lxor (xored x ns) (xored x ns').
Proof. induction ns as [|n ns IH]; simpl; [by rewrite Z.lxor_0_l|]. by rewrite IH, Z.lxor_assoc. Qed.

Lemma xored_fits x ns : fits w x -> Forall (fun k => 0 <= k) ns -> fits w (xored x ns).
Proof.
  intros Hx. induction 1 as [|k ns Hk _ IH]; simpl; [split; [lia|apply Z.pow_pos_nonneg; lia]|].
  apply lxor_fits; [lia|by apply shiftr_fits|done].
Qed.

(** The shifts telescope. *)
Lemma telescope x n m : 0 < n -> fits w x -> w <= n * (Z.of_nat m + 1) ->
  Z.lxor (Z.lxor x (xored x (multiples n 0 m))) (Z.shiftr (Z.lxor x (xored x (multiples n 0 m))) n) = x.
Proof.
  intros Hn Hx Hm. assert (Hpos : Forall (fun k => 0 <= k) (multiples n 0 m)).
  { apply Forall_forall. intros k (i & -> & _)%list_elem_of_fmap. nia. }
  rewrite Z.shiftr_lxor, shiftr_xored, xored_shiftr by (done || lia).
  assert (E : Z.lxor (Z.shiftr x n) (xored x (Z.add n <$> multiples n 0 m)) = xored x (multiples n 0 (S m))).
  { change (multiples n 0 (S m)) with ((0 + n * (Z.of_nat 0 + 1)) :: ((fun i => 0 + n * (Z.of_nat i + 1)) <$> seq 1 m)).
    cbn [xored foldr]. replace (0 + n * (Z.of_nat 0 + 1)) with n by lia. f_equal. unfold xored. f_equal.
    unfold multiples. rewrite <- fmap_S_seq, <- !list_fmap_compose. apply list_fmap_ext. intros _ i _. simpl. lia. }
  rewrite E. assert (E2 : multiples n 0 (S m) = multiples n 0 m ++ [0 + n * (Z.of_nat m + 1)]).
  { unfold multiples. by rewrite seq_S, fmap_app. }
  rewrite E2, xored_app. cbn [xored foldr]. rewrite (shiftr_out x (0 + n * (Z.of_nat m + 1))), !Z.lxor_0_r by (done || lia).
  by rewrite Z.lxor_assoc, Z.lxor_nilpotent, Z.lxor_0_r.
Qed.

Lemma telescope' x n m : 0 < n -> fits w x -> w <= n * (Z.of_nat m + 1) ->
  xor_shifts (multiples n 0 m) (Z.lxor x (Z.shiftr x n)) = x.
Proof.
  intros Hn Hx Hm. rewrite <- (telescope x n m) at 3 by done. unfold xor_shifts. fold (xored (Z.lxor x (Z.shiftr x n)) (multiples n 0 m)).
  assert (Hpos : Forall (fun k => 0 <= k) (multiples n 0 m)).
  { apply Forall_forall. intros k (i & -> & _)%list_elem_of_fmap. nia. }
  rewrite xored_lxor, Z.shiftr_lxor, shiftr_xored by (done || lia).
  rewrite !Z.lxor_assoc. f_equal. rewrite <- !Z.lxor_assoc. f_equal. apply Z.lxor_comm.
Qed.

Lemma undoes_shift n m : 0 < n -> w <= n * (Z.of_nat m + 1) ->
  undoes w (fun x => Z.lxor x (Z.shiftr x n)) (xor_shifts (multiples n 0 m)) /\
  undoes w (xor_shifts (multiples n 0 m)) (fun x => Z.lxor x (Z.shiftr x n)).
Proof.
  intros Hn Hm. split; intros x Hx; (split; [|by apply telescope' || by apply telescope]).
  - apply lxor_fits; [lia|done|]. apply shiftr_fits; [done|lia].
  - apply lxor_fits; [lia|done|]. apply xored_fits; [done|].
    apply Forall_forall. intros k (i & -> & _)%list_elem_of_fmap. nia.
Qed.
End Inverse.

(** ** The mixers *)

Definition inverse (w : Z) (f g : Z -> Z) : Prop := undoes w f g /\ undoes w g f.

Section Mixers.
Context (w : Z) (Hw : 0 < w).

Lemma inverse_compose f f' g g' : inverse w f g -> inverse w f' g' -> inverse w (fun x => f' (f x)) (fun y => g (g' y)).
Proof. intros [H1 H2] [H1' H2']. split; by apply undoes_compose. Qed.

(** Sums of shifted copies are products. *)
Lemma inverse_mul f c d : (forall x, f x = wrap w (x * c)) -> wrap w (c * d) = 1 -> inverse w f (fun y => wrap w (y * d)).
Proof.
  intros Hf Hcd. split.
  - eapply undoes_ext; [| |exact (undoes_mul w Hw c d Hcd)]; done.
  - rewrite Z.mul_comm in Hcd. eapply undoes_ext; [| |exact (undoes_mul w Hw d c Hcd)]; done.
Qed.

Lemma inverse_shift n m : 0 < n -> w <= n * (Z.of_nat m + 1) ->
  inverse w (fun x => Z.lxor x (Z.shiftr x n)) (xor_shifts (multiples n 0 m)).
Proof. apply undoes_shift, Hw. Qed.

Lemma inverse_pred f c d : (forall x, f x = wrap w (x * c - 1)) -> wrap w (c * d) = 1 ->
  inverse w f (fun y => wrap w (wrap w (y + 1) * d)).
Proof.
  intros Hf Hcd. assert (Hadd : inverse w (fun x => wrap w (x + -1)) (fun y => wrap w (y + 1))).
  { split; [eapply undoes_ext; [| |exact (undoes_add w Hw (-1))]|eapply undoes_ext; [| |exact (undoes_add w Hw 1)]];
      try done; intros x _; f_equal; lia. }
  pose proof (inverse_compose _ _ _ _ (inverse_mul (fun x => wrap w (x * c)) c d ltac:(done) Hcd) Hadd) as [H1 H2].
  assert (E : forall x, wrap w (wrap w (x * c) + -1) = f x) by (intros x; rewrite Hf; unfold wrap; by rewrite Zplus_mod_idemp_l).
  split; [eapply undoes_ext; [| |exact H1]|eapply undoes_ext; [| |exact H2]]; intros x _; try done; apply E.
Qed.
End Mixers.

Ltac as_product := intros x; unfold lnot64; rewrite ?Z.shiftl_mul_pow2 by lia; try (f_equal; lia).

(** [-x - 1] in 64 bits, as [~x]. *)
Lemma lnot64_step x : u64 (lnot64 x + Z.shiftl x 21) = u64 (x * 2097151 - 1).
Proof.
  unfold lnot64, wrap. rewrite Z.shiftl_mul_pow2 by lia.
  replace (2 ^ 64 - 1 - x + x * 2 ^ 21) with (x * 2097151 - 1 + 1 * 2 ^ 64) by lia. by rewrite Z.mod_add.
Qed.

Lemma twang_inverse : inverse 64 twang_mix64 twang_unmix64.
Proof.
  refine (inverse_compose 64 _ _ _ _ (inverse_pred 64 eq_refl (fun key => u64 (lnot64 key + Z.shiftl key 21)) 2097151 9223367638806167551 lnot64_step eq_refl)
    (inverse_compose 64 _ _ _ _ (inverse_shift 64 eq_refl 24 2 ltac:(lia) ltac:(lia))
    (inverse_compose 64 _ _ _ _ (inverse_mul 64 eq_refl (fun key => u64 (key + Z.shiftl key 3 + Z.shiftl key 8)) 265 15244667743933553977 ltac:(as_product) eq_refl)
    (inverse_compose 64 _ _ _ _ (inverse_shift 64 eq_refl 14 4 ltac:(lia) ltac:(lia))
    (inverse_compose 64 _ _ _ _ (inverse_mul 64 eq_refl (fun key => u64 (key + Z.shiftl key 2 + Z.shiftl key 4)) 21 14933078535860113213 ltac:(as_product) eq_refl)
    (inverse_compose 64 _ _ _ _ (inverse_shift 64 eq_refl 28 2 ltac:(lia) ltac:(lia))
    (inverse_mul 64 eq_refl (fun key => u64 (key + Z.shiftl key 31)) 2147483649 4611686016279904257 ltac:(as_product) eq_refl))))))).
Qed.

(** The last two steps of the 32-bit mixer are one product. *)
Lemma jenkins_last x : u32 (u32 (x + Z.shiftl x 7) + Z.shiftl (u32 (x + Z.shiftl x 7)) 12) = u32 (x * 528513).
Proof.
  rewrite !Z.shiftl_mul_pow2 by lia. unfold wrap. set (y := x + x * 2 ^ 7).
  replace (y `mod` 2 ^ 32 + y `mod` 2 ^ 32 * 2 ^ 12) with (y `mod` 2 ^ 32 * 4097) by lia.
  rewrite Zmult_mod_idemp_l. f_equal. unfold y. lia.
Qed.

Lemma jenkins_inverse : inverse 32 jenkins_rev_mix32 jenkins_rev_unmix32.
Proof.
  refine (inverse_compose 32 _ _ _ _ (inverse_mul 32 eq_refl (fun key => u32 (key + Z.shiftl key 12)) 4097 16773121 ltac:(as_product) eq_refl)
    (inverse_compose 32 _ _ _ _ (inverse_shift 32 eq_refl 22 1 ltac:(lia) ltac:(lia))
    (inverse_compose 32 _ _ _ _ (inverse_mul 32 eq_refl (fun key => u32 (key + Z.shiftl key 4)) 17 4042322161 ltac:(as_product) eq_refl)
    (inverse_compose 32 _ _ _ _ (inverse_shift 32 eq_refl 9 3 ltac:(lia) ltac:(lia))
    (inverse_compose 32 _ _ _ _ (inverse_mul 32 eq_refl (fun key => u32 (key + Z.shiftl key 10)) 1025 3222273025 ltac:(as_product) eq_refl)
    (inverse_compose 32 _ _ _ _ (inverse_shift 32 eq_refl 2 15 ltac:(lia) ltac:(lia))
    (inverse_mul 32 eq_refl (fun key => u32 (u32 (key + Z.shiftl key 7) + Z.shiftl (u32 (key + Z.shiftl key 7)) 12)) 528513 2364026753 jenkins_last eq_refl))))))).
Qed.

(** C30: the reversible mixers are reversible. [twang_unmix64] and
    [jenkins_rev_unmix32] undo [twang_mix64] and [jenkins_rev_mix32], and the
    other way round, on all 64-bit and 32-bit words; so that the hasher of each
    integral type maps different values of the type to different hashes. *)
Theorem mixers_reversible T i j k :
  int_width (width T) -> in_range T i -> in_range T j -> fits 64 k ->
  twang_unmix64 (twang_mix64 k) = k /\ twang_mix64 (twang_unmix64 k) = k /\
  jenkins_rev_unmix32 (jenkins_rev_mix32 (u32 k)) = u32 k /\ jenkins_rev_mix32 (jenkins_rev_unmix32 (u32 k)) = u32 k /\
  (integral_hasher (width T) i = integral_hasher (width T) j -> i = j).
Proof.
  intros HT Hi Hj Hk. destruct twang_inverse as [H64 H64'], jenkins_inverse as [H32 H32'].
  assert (Hk32 : fits 32 (u32 k)) by (apply wrap_fits; lia).
  split_and!; [by apply H64|by apply H64'|by apply H32|by apply H32'|].
  assert (Hfit : forall x, fits 32 (u32 (sext 32 x)) /\ fits 64 (u64 x)) by (intros x; split; apply wrap_fits; lia).
  unfold integral_hasher. case_decide as Hw.
  - intros E%(undoes_injective 32 _ _ _ _ H32); [|apply Hfit..]. revert E. unfold sext, wrap.
    revert HT Hi Hj Hw. clear. intros HT. each_type; intros Hi Hj Hw; try lia; repeat case_decide; euclid.
  - intros E%(undoes_injective 64 _ _ _ _ H64); [|apply Hfit..]. revert E. unfold wrap.
    revert HT Hi Hj Hw. clear. intros HT. each_type; intros Hi Hj Hw; try lia; euclid.
Qed.

Lemma mixers_reversible_witness :
  twang_unmix64 (twang_mix64 12345678901234567890) = 12345678901234567890 /\
  (integral_hasher 16 (-5) = integral_hasher 16 7 -> -5 = 7).
Proof.
  destruct (mixers_reversible (mkInt 16 true) (-5) 7 12345678901234567890) as (H1 & _ & _ & _ & H2).
  - right. left. reflexivity.
  - split; discriminate.
  - split; discriminate.
  - split; [discriminate|reflexivity].
  - split; [exact H1|exact H2].
Defined.

(** ** Single changes *)

Lemma hash_128_to_64_lower upper : fits 64 upper ->
  exists g, undoes 64 (hash_128_to_64 upper) g.
Proof.
  intros Hu. eexists.
  refine (undoes_compose 64 _ _ _ _ (undoes_xor 64 eq_refl upper Hu)
    (undoes_compose 64 _ _ _ _ (undoes_mul 64 eq_refl 0x9ddfea08eb382d69 0xdc56e6f5090b32d9 eq_refl)
    (undoes_compose 64 _ _ _ _ (proj1 (inverse_shift 64 eq_refl 47 1 ltac:(lia) ltac:(lia)))
    (undoes_compose 64 _ _ _ _ (undoes_xor_left 64 eq_refl upper Hu)
    (undoes_compose 64 _ _ _ _ (undoes_mul 64 eq_refl 0x9ddfea08eb382d69 0xdc56e6f5090b32d9 eq_refl)
    (undoes_compose 64 _ _ _ _ (proj1 (inverse_shift 64 eq_refl 47 1 ltac:(lia) ltac:(lia)))
    (undoes_mul 64 eq_refl 0x9ddfea08eb382d69 0xdc56e6f5090b32d9 eq_refl))))))).
Qed.

Lemma hash_128_to_64_inj upper x y : fits 64 upper -> fits 64 x -> fits 64 y ->
  hash_128_to_64 upper x = hash_128_to_64 upper y -> x = y.
Proof. intros Hu Hx Hy. destruct (hash_128_to_64_lower upper Hu) as [g Hg]. by apply (undoes_injective 64 _ g). Qed.

Lemma hash_128_to_64_fits upper lower : fits 64 (hash_128_to_64 upper lower).
Proof. apply wrap_fits. lia. Qed.

(** A hash that consumes bytes one by one by a step that loses nothing. *)
Section Bytewise.
Context (w : Z) (Hw : 8 <= w) (step : Z -> Z -> Z).
Context (Hfit : forall h c, fits w h -> 0 <= c < 256 -> fits w (step h c)).
Context (Hinj : forall h h' c, fits w h -> fits w h' -> 0 <= c < 256 -> step h c = step h' c -> h = h').
Context (Hbyte : forall h c d, fits w h -> 0 <= c < 256 -> 0 <= d < 256 -> step h c = step h d -> c = d).

Lemma bytewise_fits s h : Forall (fun c => is_byte c) s -> fits w h -> fits w (foldl step h s).
Proof. intros Hs. revert h. induction Hs as [|c s Hc _ IH]; intros h Hh; simpl; [done|]. apply IH. by apply Hfit. Qed.

Lemma bytewise_inj s h h' : Forall (fun c => is_byte c) s -> fits w h -> fits w h' -> foldl step h s = foldl step h' s -> h = h'.
Proof.
  intros Hs. revert h h'. induction Hs as [|c s Hc _ IH]; intros h h' Hh Hh'; simpl; [done|]. intros E%IH; [|by apply Hfit..].
  by apply (Hinj h h' c).
Qed.

Lemma bytewise_change h p c d q : fits w h -> Forall (fun c => is_byte c) (p ++ c :: q) -> is_byte d ->
  foldl step h (p ++ c :: q) = foldl step h (p ++ d :: q) -> c = d.
Proof.
  intros Hh [Hp [Hc Hq]%Forall_cons]%Forall_app Hd. rewrite !foldl_app. simpl. pose proof (bytewise_fits p h Hp Hh) as Hp'.
  intros E%bytewise_inj; [|done|by apply Hfit..]. by apply (Hbyte (foldl step h p)).
Qed.
End Bytewise.

(** The steps of the three hashes. *)
Lemma fnv32_step_inverse : exists g, undoes 32 fnv32_step g.
Proof. eexists. apply (inverse_mul 32 eq_refl fnv32_step 16777619 899433627 ltac:(unfold fnv32_step; as_product) eq_refl). Qed.

Lemma fnv64_step_inverse : exists g, undoes 64 fnv64_step g.
Proof. eexists. apply (inverse_mul 64 eq_refl fnv64_step 1099511628211 14886173955864302971 ltac:(unfold fnv64_step; as_product) eq_refl). Qed.

(** A [signed char] is extended without loss. *)
Lemma extended_char w c d : w = 32 \/ w = 64 -> is_byte c -> is_byte d -> wrap w (sext 8 c) = wrap w (sext 8 d) -> c = d.
Proof.
  unfold sext. intros Hw Hc Hd. rewrite !u8_small by done. change (2 ^ (8 - 1)) with 128. change (2 ^ 8) with 256. unfold wrap.
  destruct Hw as [->| ->]; repeat case_decide; euclid.
Qed.

Lemma lxor_cancel h x y : Z.lxor h x = Z.lxor h y -> x = y.
Proof.
  intros E. apply (f_equal (Z.lxor h)) in E. by rewrite <- !Z.lxor_assoc, !Z.lxor_nilpotent, !Z.lxor_0_l in E.
Qed.

(** FNV-1: a step, then the byte. *)
Lemma fnv_change w step g h p c d q : w = 32 \/ w = 64 -> undoes w step g ->
  fits w h -> Forall (fun c => is_byte c) (p ++ c :: q) -> is_byte d ->
  foldl (fun h c => xor_char w (step h) c) h (p ++ c :: q) = foldl (fun h c => xor_char w (step h) c) h (p ++ d :: q) -> c = d.
Proof.
  intros Hw Hg. assert (0 <= w) by lia. apply (bytewise_change w).
  - intros h' c' Hh _. apply lxor_fits; [done|by apply Hg|by apply wrap_fits].
  - intros h1 h2 c' H1 H2 _ E. unfold xor_char in E. rewrite !(Z.lxor_comm (step _)) in E. apply lxor_cancel in E.
    by apply (undoes_injective w step g).
  - intros h' c1 c2 _ H1 H2 E%lxor_cancel. by apply (extended_char w).
Qed.

(** FNV-1a: the byte, then a step. *)
Lemma fnva_change h p c d q : fits 64 h -> Forall (fun c => is_byte c) (p ++ c :: q) -> is_byte d ->
  foldl (fun h c => fnv64_step (Z.lxor h c)) h (p ++ c :: q) = foldl (fun h c => fnv64_step (Z.lxor h c)) h (p ++ d :: q) -> c = d.
Proof.
  destruct fnv64_step_inverse as [g Hg].
  assert (Hx : forall h c, fits 64 h -> is_byte c -> fits 64 (Z.lxor h c)) by (intros; apply lxor_fits; [lia|done|unfold fits; lia]).
  apply (bytewise_change 64).
  - intros h' c' Hh Hc. by apply Hg, Hx.
  - intros h1 h2 c' H1 H2 Hc E%(undoes_injective 64 _ g _ _ Hg); [|by apply Hx..]. rewrite !(Z.lxor_comm _ c') in E. by apply lxor_cancel in E.
  - intros h' c1 c2 Hh H1 H2 E%(undoes_injective 64 _ g _ _ Hg); [|by apply Hx..]. by apply lxor_cancel in E.
Qed.

Lemma fnv_folds s h : fnv32_buf s h = foldl (fun h c => xor_char 32 (fnv32_step h) c) h s /\
  fnv64_buf s h = foldl (fun h c => xor_char 64 (fnv64_step h) c) h s /\
  fnva64_buf s h = foldl (fun h c => fnv64_step (Z.lxor h c)) h s.
Proof. revert h. induction s as [|c s IH]; intros h; simpl; [done|]. split_and!; apply IH. Qed.

(** The memory of a C string: the characters, and a zero behind them. *)
Lemma fnv_c_string s rest h : 0 ∉ s -> fnv32 (s ++ 0 :: rest) h = fnv32_buf s h /\ fnv64 (s ++ 0 :: rest) h = fnv64_buf s h.
Proof.
  revert h. induction s as [|c s IH]; intros h Hs; simpl; [done|]. apply not_elem_of_cons in Hs as [Hc Hs].
  rewrite !decide_False by done. split; by apply IH.
Qed.

Lemma hash_combine_last ts x y : Forall (fits 64) ts -> fits 64 x -> fits 64 y ->
  hash_combine_generic (ts ++ [x]) = hash_combine_generic (ts ++ [y]) -> x = y.
Proof.
  intros Hts Hx Hy. assert (Hf : forall z us, fits 64 z -> fits 64 (hash_combine_generic (us ++ [z]))).
  { intros z [|u us] Hz; [done|]. simpl. destruct (us ++ [z]) eqn:E; [by destruct us|]. apply hash_128_to_64_fits. }
  induction Hts as [|t ts Ht _ IH]; simpl; [done|].
  destruct (ts ++ [x]) as [|a l] eqn:E1; [by destruct ts|]. destruct (ts ++ [y]) as [|b m] eqn:E2; [by destruct ts|].
  rewrite <- E1, <- E2. intros E%hash_128_to_64_inj; [rewrite E1, E2 in E; by apply IH|done|by apply Hf..].
Qed.

(** No single change goes unnoticed. Two buffers of the same length that differ
    in one byte have different FNV hashes ([fnv32], [fnv64] and [fnva64], from any
    start value); a C string has the hash of its characters; two sequences of
    hashes that differ in the last one are combined to different values. *)
Lemma single_change_detected h32 h64 p c d q rest ts x y :
  fits 32 h32 -> fits 64 h64 -> Forall (fun c => is_byte c) (p ++ c :: q) -> is_byte d ->
  Forall (fits 64) ts -> fits 64 x -> fits 64 y ->
  (fnv32_buf (p ++ c :: q) h32 = fnv32_buf (p ++ d :: q) h32 -> c = d) /\
  (fnv64_buf (p ++ c :: q) h64 = fnv64_buf (p ++ d :: q) h64 -> c = d) /\
  (fnva64_buf (p ++ c :: q) h64 = fnva64_buf (p ++ d :: q) h64 -> c = d) /\
  (0 ∉ p -> fnv32 (p ++ 0 :: rest) h32 = fnv32_buf p h32 /\ fnv64 (p ++ 0 :: rest) h64 = fnv64_buf p h64) /\
  (hash_combine_generic (ts ++ [x]) = hash_combine_generic (ts ++ [y]) -> x = y) /\
  (hash_range id (ts ++ [x]) h64 = hash_range id (ts ++ [y]) h64 -> x = y).
Proof.
  intros H32 H64 Hs Hd Hts Hx Hy. destruct fnv32_step_inverse as [g Hg], fnv64_step_inverse as [g' Hg'].
  destruct (fnv_folds (p ++ c :: q) h32) as (-> & _ & _), (fnv_folds (p ++ d :: q) h32) as (-> & _ & _).
  destruct (fnv_folds (p ++ c :: q) h64) as (_ & -> & ->), (fnv_folds (p ++ d :: q) h64) as (_ & -> & ->).
  split_and!.
  - apply (fnv_change 32 _ g); auto.
  - apply (fnv_change 64 _ g'); auto.
  - by apply fnva_change.
  - intros Hp. split; by apply fnv_c_string.
  - by apply hash_combine_last.
  - revert h64 H64. induction Hts as [|t ts Ht _ IH]; intros h64 H64; simpl.
    + by apply hash_128_to_64_inj.
    + apply IH, hash_128_to_64_fits.
Qed.

Lemma single_change_detected_witness :
  (fnv32_buf [97; 98; 100] FNV_32_HASH_START = fnv32_buf [97; 99; 100] FNV_32_HASH_START -> 98 = 99) /\
  fnv32 [97; 0; 5] FNV_32_HASH_START = fnv32_buf [97] FNV_32_HASH_START.
Proof.
  destruct (single_change_detected FNV_32_HASH_START FNV_64_HASH_START [97] 98 99 [100] [5] [1] 2 3) as (H1 & _ & _ & H2 & _).
  - split; [discriminate|reflexivity].
  - split; [discriminate|reflexivity].
  - repeat constructor; lia.
  - lia.
  - repeat constructor; discriminate.
  - split; [discriminate|reflexivity].
  - split; [discriminate|reflexivity].
  - split; [exact H1|]. apply H2. intros H. apply list_elem_of_singleton in H. discriminate H.
Defined.
