(* ===== verification/FBStringMem.v ===== *)
(** * FBString: the memory

    The memory [src/accelerator/FBString.h] works on: one flat address space of
    bytes, divided into regions (a string object, an allocation, a buffer of the
    caller), with the loads and stores, [memcpy] and [memmove], the allocator
    behind [src/accelerator/Malloc.h] and the stack slots of local objects.
    Pointers are numbers, as the code compares them with [std::less_equal]. *)

From stdpp Require Import base list gmap strings.
From S2P Require Import Prelude Bits.

(** ** The machine *)

(** The user address space of a 64-bit process; the two top bits of a capacity
    are free for the category because no allocation is larger. *)
Definition address_space : Z := 2 ^ 47.

(** The requests the size classes of the allocator are known for. *)
Definition max_request : Z := 2 * address_space - 16.

(** What the build and the system decide.  [place n] is the address the
    [n]-th request to [malloc] or [realloc] is offered (it fails when the
    offered range is not free), [noise] the bytes fresh memory happens to hold,
    [nallocx] the size class of jemalloc. *)
Class Platform := {
  place : nat -> Z;
  noise : nat -> Z -> Z;
  usingJEMalloc : bool;
  nallocx : Z -> Z;
  FBSTRING_DISABLE_SSO : bool;
  FBSTRING_SANITIZE_ADDRESS : bool;
  nallocx_good : forall n, 0 < n <= 2 * address_space -> n <= nallocx n < 2 ^ 62 }.

Record Machine := mkMachine {
  mem : gmap Z (list Z);   (* the live regions, by their first address *)
  heap : gset Z;           (* those that [malloc] returned *)
  requests : nat;          (* how many there were to the allocator *)
  refusals : nat }.        (* how many of them got the null pointer *)

Abbreviation Run := (M Machine).

Definition set_mem (f : gmap Z (list Z) -> gmap Z (list Z)) (s : Machine) : Machine :=
  mkMachine (f (mem s)) (heap s) (requests s) (refusals s).
Definition set_heap (f : gset Z -> gset Z) (s : Machine) : Machine :=
  mkMachine (mem s) (f (heap s)) (requests s) (refusals s).
Definition count_request (s : Machine) : Machine := mkMachine (mem s) (heap s) (S (requests s)) (refusals s).
Definition count_refusal (s : Machine) : Machine := mkMachine (mem s) (heap s) (requests s) (S (refusals s)).

Definition byte (b : Z) : Prop := 0 <= b < 256.
#[global] Instance byte_dec b : Decision (byte b).
Proof. unfold byte. apply _. Defined.

(** ** Loads and stores *)

(** The region that contains the [n] bytes at [x]. *)
Definition region_of (m : gmap Z (list Z)) (x n : Z) : option (Z * list Z) :=
  snd <$> list_find (fun r : Z * list Z => r.1 <= x /\ x + n <= r.1 + zlen r.2) (map_to_list m).

Definition load_bytes (x n : Z) : Run (list Z) :=
  if decide (n = 0) then mret [] else
  assert (bool_decide (0 < n)) "negative length";;
  s ← get;
  r ← of_option (region_of (mem s) x n) "read out of bounds";
  mret (slice (x - r.1) n r.2).

Definition store_bytes (x : Z) (bs : list Z) : Run unit :=
  if decide (bs = []) then mret tt else
  s ← get;
  r ← of_option (region_of (mem s) x (zlen bs)) "write out of bounds";
  put (set_mem (insert r.1 (overwrite (x - r.1) bs r.2)) s).

Definition load64 (x : Z) : Run Z := bs ← load_bytes x 8; mret (of_bytes bs).
Definition store64 (x v : Z) : Run unit := store_bytes x (to_bytes 8 v).
Definition load_byte (x : Z) : Run Z := bs ← load_bytes x 1; mret (of_bytes bs).
Definition store_byte (x v : Z) : Run unit := store_bytes x [v].

Definition memmove (dst src n : Z) : Run unit := bs ← load_bytes src n; store_bytes dst bs.

Definition memset (dst c n : Z) : Run unit := store_bytes dst (replicate (Z.to_nat n) (u8 c)).

Section WithPlatform.
Context `{Platform}.

(** One aligned word, where the bytes beyond a region are whatever the memory
    holds there. *)
Definition peek_byte (x : Z) : Run Z :=
  s ← get;
  mret (match region_of (mem s) x 1 with
        | Some (b, bs) => nth (Z.to_nat (x - b)) bs 0
        | None => u8 (noise (requests s) x)
        end).

Fixpoint peek_bytes (n : nat) (x : Z) : Run (list Z) :=
  match n with
  | O => mret []
  | S n => b ← peek_byte x; bs ← peek_bytes n (x + 1); mret (b :: bs)
  end.

Definition peek64 (x : Z) : Run Z := bs ← peek_bytes 8 x; mret (of_bytes bs).

(** ** The allocator *)

Definition fresh_bytes (k : nat) (n : Z) : list Z :=
  (fun i => u8 (noise k (Z.of_nat i))) <$> seq 0 (Z.to_nat n).

Definition is_free (m : gmap Z (list Z)) (a n : Z) : Prop :=
  0 < a /\ 0 <= n /\ a + n <= address_space /\ m !! a = None /\
  map_Forall (fun b bs => a + n <= b \/ b + zlen bs <= a) m.

#[global] Instance is_free_dec m a n : Decision (is_free m a n).
Proof. unfold is_free. apply _. Defined.

(** [malloc(n)]; [None] is the null pointer. *)
Definition malloc (n : Z) : Run (option Z) :=
  s ← get;
  let a := place (requests s) in
  put (count_request s);;
  if decide (is_free (mem s) a n) then
    modify (set_mem (insert a (fresh_bytes (requests s) n)));;
    modify (set_heap (union {[a]}));;
    mret (Some a)
  else modify count_refusal;; mret None.

Definition free (p : Z) : Run unit :=
  s ← get;
  assert (bool_decide (p ∈ heap s)) "free of what is not an allocation";;
  put (set_heap (fun h => h ∖ {[p]}) (set_mem (delete p) s)).

(** [realloc(p, n)]: in place or not, as the allocator likes. *)
Definition realloc (p n : Z) : Run (option Z) :=
  s ← get;
  assert (bool_decide (p ∈ heap s)) "realloc of what is not an allocation";;
  old ← of_option (mem s !! p) "realloc of freed memory";
  let a := place (requests s) in
  put (count_request s);;
  if decide (is_free (delete p (mem s)) a n) then
    modify (set_mem (fun m => insert a (take (Z.to_nat n) (old ++ drop (length old) (fresh_bytes (requests s) n)))
                                     (delete p m)));;
    modify (set_heap (fun h => {[a]} ∪ h ∖ {[p]}));;
    mret (Some a)
  else modify count_refusal;; mret None.

(** ** Malloc.h *)

Definition goodMallocSize (minSize : Z) : Z :=
  if decide (minSize = 0) then 0 else if usingJEMalloc then nallocx minSize else minSize.

Definition checkedMalloc (size : Z) : Run Z :=
  p ← malloc size; match p with Some a => mret a | None => throw bad_alloc end.

Definition checkedRealloc (ptr size : Z) : Run Z :=
  p ← realloc ptr size; match p with Some a => mret a | None => throw bad_alloc end.

Definition memcpy (dst src n : Z) : Run unit :=
  assert (bool_decide (src + n <= dst \/ dst + n <= src)) "overlapping memcpy";;
  memmove dst src n.

Definition smartRealloc (p currentSize currentCapacity newCapacity : Z) : Run Z :=
  assert (bool_decide (p <> 0)) "assert(p)";;
  assert (bool_decide (currentSize <= currentCapacity /\ currentCapacity < newCapacity))
    "assert(currentSize <= currentCapacity && currentCapacity < newCapacity)";;
  let slack := currentCapacity - currentSize in
  if decide (u64 (slack * 2) > currentSize) then
    result ← checkedMalloc newCapacity;
    memcpy result p currentSize;;
    free p;;
    mret result
  else checkedRealloc p newCapacity.

(** ** Local objects *)

(** Below every live region, with the linkage of the frame between. *)
Definition stack_top (m : gmap Z (list Z)) : Z := map_fold (fun b _ t => Z.min b t) 0 m.

Definition push_local (n : Z) : Run Z :=
  s ← get;
  let a := stack_top (mem s) - n - 16 in
  put (set_mem (insert a (fresh_bytes (requests s) n)) s);;
  mret a.

Definition pop_local (a : Z) : Run unit := modify (set_mem (delete a)).

(** A local object of [n] bytes: constructed, used, destroyed on every path. *)
Definition scoped {A} (n : Z) (ctor dtor : Z -> Run unit) (body : Z -> Run A) : Run A :=
  tmp ← push_local n;
  try_catch (ctor tmp) (fun e => pop_local tmp;; throw e);;
  r ← try_catch (body tmp) (fun e => dtor tmp;; pop_local tmp;; throw e);
  dtor tmp;;
  pop_local tmp;;
  mret r.
End WithPlatform.

(** ** Well-formed memory *)

Record mem_ok (s : Machine) : Prop := {
  ok_disjoint : forall b bs b' bs', mem s !! b = Some bs -> mem s !! b' = Some bs' -> b <> b' ->
    b + zlen bs <= b' \/ b' + zlen bs' <= b;
  ok_bytes : forall b bs, mem s !! b = Some bs -> Forall byte bs;
  ok_top : forall b bs, mem s !! b = Some bs -> b + zlen bs <= address_space;
  ok_null : forall b bs, mem s !! b = Some bs -> 0 < b \/ b + zlen bs < 0;
  ok_heap : forall b, b ∈ heap s -> 0 < b /\ is_Some (mem s !! b) }.

Definition set_region (b : Z) (r : list Z) (s : Machine) : Machine := set_mem (insert b r) s.

Section Accesses.
Implicit Types s : Machine.

Lemma region_of_in s b r o n :
  mem_ok s -> mem s !! b = Some r -> 0 <= o -> 0 < n -> o + n <= zlen r ->
  region_of (mem s) (b + o) n = Some (b, r).
Proof.
  intros Hok Hb Ho Hn Hle. unfold region_of.
  destruct (list_find_elem_of (fun r : Z * list Z => r.1 <= b + o /\ b + o + n <= r.1 + zlen r.2)
    (map_to_list (mem s)) (b, r)) as [[i [b' r']] Hf].
  - by apply elem_of_map_to_list.
  - simpl. lia.
  - rewrite Hf. simpl. apply list_find_Some in Hf as (Hl & [H1 H2] & _). simpl in *.
    apply list_elem_of_lookup_2, elem_of_map_to_list in Hl.
    destruct (decide (b = b')) as [<-|Hne]; [by simplify_eq|].
    pose proof (ok_disjoint s Hok b r b' r' Hb Hl Hne). lia.
Qed.

Lemma load_bytes_wp s b r o n (Q : list Z -> Machine -> Prop) E :
  mem_ok s -> mem s !! b = Some r -> 0 <= o -> 0 <= n -> o + n <= zlen r ->
  Q (slice o n r) s -> wp (load_bytes (b + o) n) s Q E.
Proof.
  intros Hok Hb Ho Hn Hle HQ. unfold load_bytes. destruct (decide (n = 0)) as [->|Hn0].
  { apply wp_ret. by rewrite slice_0 in HQ. }
  apply wp_bind, wp_assert; [apply bool_decide_eq_true; lia|].
  apply wp_bind, wp_get, wp_bind, wp_of_option with (b, r); [apply region_of_in; [done|done|lia..]|].
  apply wp_ret. simpl. by replace (b + o - b) with o by lia.
Qed.

Lemma store_bytes_wp s b r o bs (Q : unit -> Machine -> Prop) E :
  mem_ok s -> mem s !! b = Some r -> 0 <= o -> o + zlen bs <= zlen r ->
  Q tt (set_region b (overwrite o bs r) s) -> wp (store_bytes (b + o) bs) s Q E.
Proof.
  intros Hok Hb Ho Hle HQ. unfold store_bytes. destruct (decide (bs = [])) as [->|Hne].
  { apply wp_ret. rewrite overwrite_nil in HQ. unfold set_region, set_mem in HQ.
    rewrite insert_id in HQ by done. by destruct s. }
  assert (0 < zlen bs) by (destruct bs; [done|unfold zlen; simpl; lia]).
  apply wp_bind, wp_get, wp_bind, wp_of_option with (b, r); [apply region_of_in; [done|done|lia..]|].
  apply wp_put. simpl. by replace (b + o - b) with o by lia.
Qed.

Lemma mem_ok_set s b r r' :
  mem_ok s -> mem s !! b = Some r -> zlen r' = zlen r -> Forall byte r' -> mem_ok (set_region b r' s).
Proof.
  intros [Hd Hb Ht Hz Hh] Hr Hl Hf. unfold set_region, set_mem. split; simpl.
  - intros x xs y ys Hx Hy Hne.
    destruct (decide (x = b)) as [->|Hx'], (decide (y = b)) as [->|Hy'].
    all: rewrite ?lookup_insert_eq in Hx; rewrite ?lookup_insert_eq in Hy.
    all: rewrite ?lookup_insert_ne in Hx by done; rewrite ?lookup_insert_ne in Hy by done.
    all: simplify_eq; rewrite ?Hl; by eapply Hd.
  - intros x xs [[<- <-]|[? ?]]%lookup_insert_Some; [done|by eapply Hb].
  - intros x xs [[<- <-]|[? ?]]%lookup_insert_Some; [rewrite Hl|]; by eapply Ht.
  - intros x xs [[<- <-]|[? ?]]%lookup_insert_Some; [rewrite Hl|]; by eapply Hz.
  - intros x Hx. destruct (Hh x Hx) as [? ?]. split; [done|].
    apply lookup_insert_is_Some'. by right.
Qed.

Lemma Forall_overwrite o bs (r : list Z) : Forall byte bs -> Forall byte r -> Forall byte (overwrite o bs r).
Proof. intros. unfold overwrite. rewrite !Forall_app. split_and!; [by apply Forall_take|done|by apply Forall_drop]. Qed.

Lemma Forall_slice o n (r : list Z) : Forall byte r -> Forall byte (slice o n r).
Proof. intros. unfold slice. by apply Forall_take, Forall_drop. Qed.

(** A new region in free space. *)
Lemma mem_ok_new s a r (onheap : bool) :
  mem_ok s -> a + zlen r <= address_space -> Forall byte r -> 0 < a \/ a + zlen r < 0 ->
  (onheap = true -> 0 < a) ->
  map_Forall (fun b bs => a + zlen r <= b \/ b + zlen bs <= a) (mem s) ->
  mem_ok (mkMachine (<[a:=r]> (mem s)) ((if onheap then {[a]} else ∅) ∪ heap s) (requests s) (refusals s)).
Proof.
  intros [Hd Hb Ht Hz Hh] Htop Hr Hnull Ha Hfree. split; simpl.
  - intros x xs y ys [[<- <-]|[? Hx]]%lookup_insert_Some [[<- <-]|[? Hy]]%lookup_insert_Some Hne.
    + done.
    + specialize (Hfree y ys Hy). simpl in Hfree. lia.
    + specialize (Hfree x xs Hx). simpl in Hfree. lia.
    + by eapply Hd.
  - intros x xs [[<- <-]|[? ?]]%lookup_insert_Some; [done|by eapply Hb].
  - intros x xs [[<- <-]|[? ?]]%lookup_insert_Some; [done|by eapply Ht].
  - intros x xs [[<- <-]|[? ?]]%lookup_insert_Some; [done|by eapply Hz].
  - intros x [Hx|Hx]%elem_of_union.
    + destruct onheap; [|set_solver]. apply elem_of_singleton in Hx as ->. rewrite lookup_insert_eq. eauto.
    + destruct (Hh x Hx) as [? ?]. split; [done|]. apply lookup_insert_is_Some'. by right.
Qed.

Lemma mem_ok_delete s a : mem_ok s -> mem_ok (mkMachine (delete a (mem s)) (heap s ∖ {[a]}) (requests s) (refusals s)).
Proof.
  intros [Hd Hb Ht Hz Hh]. split; simpl.
  - intros x xs y ys [? ?]%lookup_delete_Some [? ?]%lookup_delete_Some. by apply Hd.
  - intros x xs [? ?]%lookup_delete_Some. by eapply Hb.
  - intros x xs [? ?]%lookup_delete_Some. by eapply Ht.
  - intros x xs [? ?]%lookup_delete_Some. by eapply Hz.
  - intros x [Hx Hne]%elem_of_difference. destruct (Hh x Hx). split; [done|].
    rewrite lookup_delete_ne; [done|]. set_solver.
Qed.

Lemma stack_top_le (m : gmap Z (list Z)) b r : m !! b = Some r -> stack_top m <= b.
Proof.
  revert b r. unfold stack_top.
  apply (map_fold_weak_ind (fun t m => forall b r, m !! b = Some r -> t <= b)).
  - intros b r H. by rewrite lookup_empty in H.
  - intros i x m' t Hi IH b r [[<- <-]|[Hne Hb]]%lookup_insert_Some; [lia|].
    specialize (IH b r Hb). lia.
Qed.

Lemma stack_top_nonpos (m : gmap Z (list Z)) : stack_top m <= 0.
Proof. unfold stack_top. apply (map_fold_weak_ind (fun t _ => t <= 0)); [done|]. intros; lia. Qed.
End Accesses.

Section Allocations.
Context `{Platform}.

Lemma zlen_fresh k n : 0 <= n -> zlen (fresh_bytes k n) = n.
Proof. intros. unfold zlen, fresh_bytes. rewrite length_fmap, length_seq. lia. Qed.

Lemma fresh_bytes_byte k n : Forall byte (fresh_bytes k n).
Proof. apply Forall_fmap, Forall_true. intros i. simpl. apply (wrap_fits 8). lia. Qed.

Lemma goodMallocSize_ge n : 0 < n <= 2 * address_space -> n <= goodMallocSize n < 2 ^ 62.
Proof.
  intros Hn. unfold goodMallocSize. rewrite decide_False by lia.
  destruct usingJEMalloc; [by apply nallocx_good|]. unfold address_space in Hn. lia.
Qed.
End Allocations.

(** ** Failed allocations

    [honest m]: the number of refused requests does not decrease when [m] runs,
    and [m] throws [bad_alloc] only when one was refused meanwhile.  A handler
    runs while an exception is pending, which it may throw again. *)

Definition honest_after {A} (pending : exn -> Prop) (m : Run A) : Prop := forall s,
  match m s with
  | Ok _ s' => (refusals s <= refusals s')%nat
  | Throw e s' => (refusals s <= refusals s')%nat /\ (e = bad_alloc -> pending e \/ (refusals s < refusals s')%nat)
  | Fault _ | OutOfFuel => True
  end.

Definition honest {A} (m : Run A) : Prop := honest_after (fun _ => False) m.

Create HintDb honest.

Section Honest.
Context {A : Type} (P : exn -> Prop).

Lemma honest_weaken (m : Run A) : honest m -> honest_after P m.
Proof. intros Hm s. specialize (Hm s). destruct (m s); naive_solver. Qed.

Lemma honest_ret (a : A) : honest_after P (mret a).
Proof. intros s. exact (le_n _). Qed.

Lemma honest_fault why : honest_after P (fault (A := A) why).
Proof. intros s. exact Logic.I. Qed.

Lemma honest_throw e : e <> bad_alloc \/ P e -> honest_after P (throw (A := A) e).
Proof. intros He s. simpl. naive_solver. Qed.

Lemma honest_bind {B} (m : Run B) (f : B -> Run A) :
  honest_after P m -> (forall b, honest_after P (f b)) -> honest_after P (m ≫= f).
Proof.
  intros Hm Hf s. specialize (Hm s). unfold mbind, M_bind, bind. destruct (m s) as [b s1| | |]; [|done..].
  specialize (Hf b s1). destruct (f b s1); [lia| |done..]. destruct Hf as [? Hf]. split; [lia|].
  intros He. destruct (Hf He); [by left|right; lia].
Qed.

Lemma honest_try (m : Run A) (h : exn -> Run A) :
  honest_after P m -> (forall e, honest_after (eq e) (h e)) -> honest_after P (try_catch m h).
Proof.
  intros Hm Hh s. specialize (Hm s). unfold try_catch. destruct (m s) as [a s1|e s1| |]; [done| |done..].
  destruct Hm as [? Hm]. specialize (Hh e s1). destruct (h e s1) as [a s2|e' s2| |]; [lia| |done..].
  destruct Hh as [? Hh]. split; [lia|]. intros He. destruct (Hh He) as [<-|]; [|right; lia].
  destruct (Hm He); [by left|right; lia].
Qed.

Lemma honest_iter {S} fuel (body : S -> Run (S + A)) x :
  (forall x, honest_after P (body x)) -> honest_after P (iter fuel body x).
Proof.
  intros Hb. revert x. induction fuel as [|fuel IH]; intros x; [done|]. apply honest_bind; [done|].
  intros [x'|a]; [done|apply honest_ret].
Qed.
End Honest.

Ltac head_of t := match t with ?f _ => head_of f | _ => t end.

(** One rule for each construct; an operation is in the database, or it is
    unfolded. *)
Ltac honest_step :=
  match goal with
  | |- honest _ => unfold honest
  | |- honest_after _ (mret _) => apply honest_ret
  | |- honest_after _ (fault _) => apply honest_fault
  | |- honest_after _ (fun _ => OutOfFuel) => by intros ?
  | |- honest_after _ (throw _) => apply honest_throw; first [by left|by right]
  | |- honest_after _ (_ ≫= _) => apply honest_bind; [|intros ?]
  | |- honest_after _ (try_catch _ _) => apply honest_try; [|intros ?]
  | |- honest_after _ (iter _ _ _) => apply honest_iter; intros ?
  | |- honest_after _ (let _ := _ in _) => cbv zeta
  | |- honest_after _ (match ?x with _ => _ end) => destruct x
  | |- honest_after _ _ => apply honest_weaken; solve [auto with honest]
  | |- honest_after _ ?m => let f := head_of m in unfold f; cbv beta
  end.
Ltac honest_tac := intros; repeat honest_step.

Section HonestMemory.
Lemma honest_assert b why : honest (assert b why).
Proof. intros s. destruct b; [exact (le_n _)|exact Logic.I]. Qed.

Lemma honest_load_bytes x n : honest (load_bytes x n).
Proof.
  intros s. unfold load_bytes, mbind, M_bind, bind, assert, get, of_option. case_decide; [simpl; lia|].
  case_bool_decide; [|done]. simpl. destruct (region_of _ _ _); simpl; lia || done.
Qed.

Lemma honest_store_bytes x bs : honest (store_bytes x bs).
Proof.
  intros s. unfold store_bytes, mbind, M_bind, bind, get, of_option. case_decide; [simpl; lia|].
  simpl. destruct (region_of _ _ _); simpl; lia || done.
Qed.
#[local] Hint Resolve honest_assert honest_load_bytes honest_store_bytes : honest.

Lemma honest_load64 x : honest (load64 x).
Proof. unfold load64. honest_tac. Qed.

Lemma honest_load_byte x : honest (load_byte x).
Proof. unfold load_byte. honest_tac. Qed.

Lemma honest_memmove d x n : honest (memmove d x n).
Proof. unfold memmove. honest_tac. Qed.
#[local] Hint Resolve honest_memmove : honest.

Lemma honest_memcpy d x n : honest (memcpy d x n).
Proof. unfold memcpy. honest_tac. Qed.

Lemma honest_free p : honest (free p).
Proof.
  intros s. unfold free, mbind, M_bind, bind, assert, get, put. case_bool_decide; simpl; lia || done.
Qed.

Lemma honest_pop_local a : honest (pop_local a).
Proof. intros s. exact (le_n _). Qed.
End HonestMemory.
#[export] Hint Resolve honest_assert honest_load_bytes honest_store_bytes honest_load64 honest_load_byte honest_memmove
  honest_memcpy honest_free honest_pop_local : honest.

Section HonestAllocator.
Context `{Platform}.

Lemma honest_peek_bytes n x : honest (peek_bytes n x).
Proof.
  revert x. induction n as [|n IH]; intros x; [intros s; exact (le_n _)|]. unfold honest. cbn [peek_bytes]. apply honest_bind; [intros s; exact (le_n _)|].
  intros b. apply honest_bind; [apply IH|]. honest_tac.
Qed.

Lemma honest_push_local n : honest (push_local n).
Proof. intros s. exact (le_n _). Qed.

(** The requests: the null pointer is counted. *)
Lemma honest_checkedMalloc n : honest (checkedMalloc n).
Proof.
  intros s. unfold checkedMalloc, malloc, mbind, M_bind, bind, get, put, modify. cbv beta iota zeta. case_decide; simpl; [lia|].
  split; [lia|]. intros _. right. lia.
Qed.

Lemma honest_checkedRealloc p n : honest (checkedRealloc p n).
Proof.
  intros s. unfold checkedRealloc, realloc, mbind, M_bind, bind, get, put, modify, assert, of_option. cbv beta iota zeta.
  case_bool_decide; [|done]. simpl. destruct (mem s !! p); [|done]. simpl. case_decide; simpl; [lia|].
  split; [lia|]. intros _. right. lia.
Qed.
#[local] Hint Resolve honest_checkedMalloc honest_checkedRealloc honest_push_local : honest.

Lemma honest_smartRealloc p n c m : honest (smartRealloc p n c m).
Proof. unfold smartRealloc. honest_tac. Qed.

Lemma honest_scoped {A} n (ctor dtor : Z -> Run unit) (body : Z -> Run A) :
  (forall a, honest (ctor a)) -> (forall a, honest (dtor a)) -> (forall a, honest (body a)) -> honest (scoped n ctor dtor body).
Proof. intros Hc Hd Hb. unfold scoped. honest_tac. Qed.
End HonestAllocator.
#[export] Hint Resolve honest_peek_bytes honest_push_local honest_checkedMalloc honest_checkedRealloc honest_smartRealloc : honest.

(** With local objects. *)
Ltac honest_all := intros; repeat first
  [match goal with |- honest_after _ (scoped _ _ _ _) => apply honest_weaken, honest_scoped; intros ? end | honest_step].
