(* ===== verification/FBStringCore.v ===== *)
(** * FBString: the core

    [src/accelerator/FBString.h], [fbstring_core<char>] on a little-endian
    64-bit machine.  A core is 24 bytes at [this], read as the union of the
    source: [ml_.data_], [ml_.size_] and [ml_.capacity_] are the words at 0, 8
    and 16, [small_] the bytes from 0, the category the two top bits of the last
    byte.  Small strings live in the object, medium strings in an allocation of
    their own, large strings in a [RefCounted] allocation that copies share.
    Assertions on sizes and categories are kept, those that compare contents
    ([memcmp]) are not. *)

From stdpp Require Import base list gmap strings.
From S2P Require Import Prelude Bits FBStringMem.

Definition FBSTRING_ASSERT (b : bool) : Run unit := assert b "FBSTRING_ASSERT".

(** ** fbstring_detail *)

Definition podFill (b e c : Z) : Run unit :=
  FBSTRING_ASSERT (bool_decide (b <> 0 /\ e <> 0 /\ b <= e));;
  memset b c (e - b).

Definition podCopy (b e d : Z) : Run unit :=
  FBSTRING_ASSERT (bool_decide (b <> 0));;
  FBSTRING_ASSERT (bool_decide (e <> 0));;
  FBSTRING_ASSERT (bool_decide (d <> 0));;
  FBSTRING_ASSERT (bool_decide (b <= e));;
  FBSTRING_ASSERT (bool_decide (e <= d \/ d + (e - b) <= b));;
  memcpy d b (e - b).

Definition podMove (b e d : Z) : Run unit :=
  FBSTRING_ASSERT (bool_decide (b <= e));;
  memmove d b (e - b).

(** ** The layout of the union *)

Definition lastChar : Z := 23.
Definition maxSmallSize : Z := lastChar.
Definition maxMediumSize : Z := 254.
Definition categoryExtractMask : Z := 0xC0.
Definition kCategoryShift : Z := 56.
Definition capacityExtractMask : Z := Z.lxor (2 ^ 64 - 1) (Z.shiftl categoryExtractMask kCategoryShift).

(** [enum class Category]. *)
Definition isSmall : Z := 0.
Definition isMedium : Z := 0x80.
Definition isLarge : Z := 0x40.

Definition category (this : Z) : Run Z :=
  b ← load_byte (this + lastChar); mret (Z.land b categoryExtractMask).

Definition is_category (this c : Z) : Run bool := x ← category this; mret (bool_decide (x = c)).

Definition ml_data (this : Z) : Run Z := load64 (this + 0).
Definition ml_size (this : Z) : Run Z := load64 (this + 8).
Definition ml_capacity_ (this : Z) : Run Z := load64 (this + 16).
Definition set_ml_data (this v : Z) : Run unit := store64 (this + 0) v.
Definition set_ml_size (this v : Z) : Run unit := store64 (this + 8) v.

Definition MediumLarge_capacity (this : Z) : Run Z :=
  c ← ml_capacity_ this; mret (Z.land c capacityExtractMask).
Definition setCapacity (this cap cat : Z) : Run unit :=
  store64 (this + 16) (Z.lor cap (Z.shiftl cat kCategoryShift)).

(** [ml_ = rhs.ml_]. *)
Definition set_ml (this rhs : Z) : Run unit :=
  d ← ml_data rhs; n ← ml_size rhs; c ← ml_capacity_ rhs;
  set_ml_data this d;; set_ml_size this n;; store64 (this + 16) c.

(** ** RefCounted *)

Definition getDataOffset : Z := 8.
Definition fromData (p : Z) : Z := p - getDataOffset.
Definition refs (p : Z) : Run Z := load64 (fromData p + 0).

Definition incrementRefs (p : Z) : Run unit :=
  n ← load64 (fromData p + 0); store64 (fromData p + 0) (u64 (n + 1)).

Definition decrementRefs (p : Z) : Run unit :=
  let dis := fromData p in
  oldcnt ← load64 (dis + 0);
  store64 (dis + 0) (u64 (oldcnt - 1));;
  FBSTRING_ASSERT (bool_decide (oldcnt > 0));;
  if decide (oldcnt = 1) then free dis else mret tt.

Section Core.
Context `{Platform}.

(** [RefCounted::create(size_t pointer)]: the allocation and the size it has room for. *)
Definition RefCounted_create (size : Z) : Run (Z * Z) :=
  let allocSize := goodMallocSize (u64 (getDataOffset + u64 (size + 1))) in
  result ← checkedMalloc allocSize;
  store64 (result + 0) 1;;
  mret (result, u64 (u64 (allocSize - getDataOffset) - 1)).

Definition create_from (data size : Z) : Run (Z * Z) :=
  '(result, size') ← RefCounted_create size;
  (if decide (size > 0) then podCopy data (data + size) (result + getDataOffset) else mret tt);;
  mret (result, size').

Definition reallocate (data currentSize currentCapacity newCapacity : Z) : Run (Z * Z) :=
  FBSTRING_ASSERT (bool_decide (newCapacity > 0 /\ newCapacity > currentSize));;
  let allocNewCapacity := goodMallocSize (u64 (getDataOffset + u64 (newCapacity + 1))) in
  let dis := fromData data in
  n ← load64 (dis + 0);
  FBSTRING_ASSERT (bool_decide (n = 1));;
  result ← smartRealloc dis (u64 (getDataOffset + u64 (currentSize + 1)))
             (u64 (getDataOffset + u64 (currentCapacity + 1))) allocNewCapacity;
  n ← load64 (result + 0);
  FBSTRING_ASSERT (bool_decide (n = 1));;
  mret (result, u64 (u64 (allocNewCapacity - getDataOffset) - 1)).

(** ** Sizes *)

Definition size (this : Z) : Run Z :=
  ret ← ml_size this;
  last ← load_byte (this + maxSmallSize);
  let maybeSmallSize := u64 (maxSmallSize - last) in
  mret (if decide (0 <= sext 64 maybeSmallSize) then maybeSmallSize else ret).

Definition smallSize (this : Z) : Run Z :=
  small ← is_category this isSmall;
  FBSTRING_ASSERT small;;
  last ← load_byte (this + maxSmallSize);
  let smallShifted := Z.shiftr (u64 (sext 8 last)) 0 in
  FBSTRING_ASSERT (bool_decide (smallShifted <= maxSmallSize));;
  mret (maxSmallSize - smallShifted).

Definition setSmallSize (this s : Z) : Run unit :=
  FBSTRING_ASSERT (bool_decide (s <= maxSmallSize));;
  store_byte (this + maxSmallSize) (u8 (Z.shiftl (maxSmallSize - s) 0));;
  store_byte (this + s) 0;;
  small ← is_category this isSmall;
  n ← size this;
  FBSTRING_ASSERT (small && bool_decide (n = s)).

Definition reset (this : Z) : Run unit := setSmallSize this 0.

Definition c_str (this : Z) : Run Z :=
  ptr ← ml_data this;
  small ← is_category this isSmall;
  mret (if small : bool then this else ptr).

Definition data (this : Z) : Run Z := c_str this.

Definition fbcore_capacity (this : Z) : Run Z :=
  c ← category this;
  if decide (c = isSmall) then mret maxSmallSize else
  d ← ml_data this;
  shared ← (if decide (c = isLarge) then n ← refs d; mret (bool_decide (n > 1)) else mret false);
  if shared : bool then ml_size this else MediumLarge_capacity this.

Definition fbcore_isShared (this : Z) : Run bool :=
  c ← category this;
  if decide (c = isLarge) then d ← ml_data this; n ← refs d; mret (bool_decide (n > 1))
  else mret false.

(** ** Construction, copy, destruction *)

Definition copySmall (this rhs : Z) : Run unit :=
  set_ml this rhs;;
  small ← is_category this isSmall;
  n ← size this; n' ← size rhs;
  FBSTRING_ASSERT (small && bool_decide (n = n')).

Definition copyMedium (this rhs : Z) : Run unit :=
  n ← ml_size rhs;
  let allocSize := goodMallocSize (u64 (1 + n)) in
  p ← checkedMalloc allocSize;
  set_ml_data this p;;
  d ← ml_data rhs;
  podCopy d (d + n + 1) p;;
  set_ml_size this n;;
  setCapacity this (u64 (allocSize - 1)) isMedium;;
  medium ← is_category this isMedium;
  FBSTRING_ASSERT medium.

Definition copyLarge (this rhs : Z) : Run unit :=
  set_ml this rhs;;
  d ← ml_data this;
  incrementRefs d;;
  large ← is_category this isLarge;
  n ← size this; n' ← size rhs;
  FBSTRING_ASSERT (large && bool_decide (n = n')).

(** Aligned data is read word by word. *)
Definition initSmall (this data size : Z) : Run unit :=
  (if decide (Z.land data 7 = 0 /\ FBSTRING_SANITIZE_ADDRESS = false) then
     let words := (size + 8 - 1) / 8 in
     (if decide (words = 3) then w ← peek64 (data + 16); store64 (this + 16) w else mret tt);;
     (if decide (words = 3 \/ words = 2) then w ← peek64 (data + 8); store64 (this + 8) w else mret tt);;
     (if decide (words = 3 \/ words = 2 \/ words = 1) then w ← peek64 data; store64 (this + 0) w else mret tt)
   else if decide (size <> 0) then podCopy data (data + size) this else mret tt);;
  setSmallSize this size.

Definition initMedium (this data size : Z) : Run unit :=
  let allocSize := goodMallocSize (u64 (1 + size)) in
  p ← checkedMalloc allocSize;
  set_ml_data this p;;
  (if decide (size > 0) then podCopy data (data + size) p else mret tt);;
  set_ml_size this size;;
  setCapacity this (u64 (allocSize - 1)) isMedium;;
  store_byte (p + size) 0.

Definition initLarge (this data size : Z) : Run unit :=
  '(newRC, effectiveCapacity) ← create_from data size;
  set_ml_data this (newRC + getDataOffset);;
  set_ml_size this size;;
  setCapacity this effectiveCapacity isLarge;;
  store_byte (newRC + getDataOffset + size) 0.

(** The constructors: empty, from a range, copy, move, and the acquisition of an
    allocation. *)
Definition core_default (this : Z) : Run unit := reset this.

Definition core_init (this data sz : Z) (disableSSO : bool) : Run unit :=
  (if decide (disableSSO = false /\ sz <= maxSmallSize) then initSmall this data sz
   else if decide (sz <= maxMediumSize) then initMedium this data sz
   else initLarge this data sz);;
  n ← size this;
  FBSTRING_ASSERT (bool_decide (n = sz)).

Definition core_copy (this rhs : Z) : Run unit :=
  FBSTRING_ASSERT (bool_decide (rhs <> this));;
  c ← category rhs;
  (if decide (c = isSmall) then copySmall this rhs
   else if decide (c = isMedium) then copyMedium this rhs
   else if decide (c = isLarge) then copyLarge this rhs
   else fault "unreachable");;
  n ← size this; n' ← size rhs;
  FBSTRING_ASSERT (bool_decide (n = n')).

Definition core_move (this goner : Z) : Run unit := set_ml this goner;; reset goner.

Definition core_acquire (this data size allocatedSize : Z) : Run unit :=
  if decide (size > 0) then
    FBSTRING_ASSERT (bool_decide (allocatedSize >= size + 1));;
    z ← load_byte (data + size);
    FBSTRING_ASSERT (bool_decide (z = 0));;
    set_ml_data this data;;
    set_ml_size this size;;
    setCapacity this (allocatedSize - 1) isMedium
  else free data;; reset this.

Definition destroyMediumLarge (this : Z) : Run unit :=
  c ← category this;
  FBSTRING_ASSERT (bool_decide (c <> isSmall));;
  d ← ml_data this;
  if decide (c = isMedium) then free d else decrementRefs d.

Definition core_dtor (this : Z) : Run unit :=
  small ← is_category this isSmall;
  if small : bool then mret tt else destroyMediumLarge this.

(** A local core. *)
Definition local_core {A} (ctor : Z -> Run unit) (body : Z -> Run A) : Run A :=
  scoped 24 ctor core_dtor body.

Definition swap (this rhs : Z) : Run unit :=
  td ← ml_data this; tn ← ml_size this; tc ← ml_capacity_ this;
  set_ml this rhs;;
  set_ml_data rhs td;; set_ml_size rhs tn;; store64 (rhs + 16) tc.

(** ** Copy on write *)

Definition fbcore_unshare (this minCapacity : Z) : Run unit :=
  large ← is_category this isLarge;
  FBSTRING_ASSERT large;;
  cap ← MediumLarge_capacity this;
  '(newRC, effectiveCapacity) ← RefCounted_create (Z.max minCapacity cap);
  FBSTRING_ASSERT (bool_decide (effectiveCapacity >= cap));;
  d ← ml_data this; n ← ml_size this;
  podCopy d (d + n + 1) (newRC + getDataOffset);;
  decrementRefs d;;
  set_ml_data this (newRC + getDataOffset);;
  setCapacity this effectiveCapacity isLarge.

Definition mutableDataLarge (this : Z) : Run Z :=
  large ← is_category this isLarge;
  FBSTRING_ASSERT large;;
  d ← ml_data this; n ← refs d;
  (if decide (n > 1) then fbcore_unshare this 0 else mret tt);;
  ml_data this.

Definition mutableData (this : Z) : Run Z :=
  c ← category this;
  if decide (c = isSmall) then mret this
  else if decide (c = isMedium) then ml_data this
  else if decide (c = isLarge) then mutableDataLarge this
  else fault "unreachable".

(** ** Reservation *)

Definition reserveLarge (this minCapacity : Z) : Run unit :=
  large ← is_category this isLarge;
  FBSTRING_ASSERT large;;
  d ← ml_data this; n ← refs d;
  if decide (n > 1) then fbcore_unshare this minCapacity else
  cap ← MediumLarge_capacity this;
  if decide (minCapacity > cap) then
    sz ← ml_size this;
    '(newRC, newCapacity) ← reallocate d sz cap minCapacity;
    set_ml_data this (newRC + getDataOffset);;
    setCapacity this newCapacity isLarge;;
    c ← fbcore_capacity this;
    FBSTRING_ASSERT (bool_decide (c >= newCapacity))
  else
    c ← fbcore_capacity this;
    FBSTRING_ASSERT (bool_decide (c >= minCapacity)).

Definition reserveSmall (this minCapacity : Z) (disableSSO : bool) : Run unit :=
  small ← is_category this isSmall;
  FBSTRING_ASSERT small;;
  if decide (disableSSO = false /\ minCapacity <= maxSmallSize) then mret tt
  else if decide (minCapacity <= maxMediumSize) then
    let allocSizeBytes := goodMallocSize (u64 (1 + minCapacity)) in
    pData ← checkedMalloc allocSizeBytes;
    sz ← smallSize this;
    podCopy this (this + sz + 1) pData;;
    set_ml_data this pData;;
    set_ml_size this sz;;
    setCapacity this (u64 (allocSizeBytes - 1)) isMedium;;
    mret tt
  else
    '(newRC, newCapacity) ← RefCounted_create minCapacity;
    sz ← smallSize this;
    podCopy this (this + sz + 1) (newRC + getDataOffset);;
    set_ml_data this (newRC + getDataOffset);;
    set_ml_size this sz;;
    setCapacity this newCapacity isLarge;;
    c ← fbcore_capacity this;
    FBSTRING_ASSERT (bool_decide (c >= newCapacity)).

(** [nascent.reserve(minCapacity)] calls back into [reserve]: the argument. *)
Definition reserveMedium (reserve : Z -> Z -> bool -> Run unit) (this minCapacity : Z) : Run unit :=
  medium ← is_category this isMedium;
  FBSTRING_ASSERT medium;;
  cap ← MediumLarge_capacity this;
  if decide (minCapacity <= cap) then mret tt
  else if decide (minCapacity <= maxMediumSize) then
    let capacityBytes := goodMallocSize (u64 (1 + minCapacity)) in
    d ← ml_data this; sz ← ml_size this;
    p ← smartRealloc d (u64 (sz + 1)) (u64 (cap + 1)) capacityBytes;
    set_ml_data this p;;
    setCapacity this (u64 (capacityBytes - 1)) isMedium
  else
    local_core core_default (fun nascent =>
      reserve nascent minCapacity FBSTRING_DISABLE_SSO;;
      sz ← ml_size this;
      set_ml_size nascent sz;;
      d ← ml_data this; nd ← ml_data nascent;
      podCopy d (d + sz + 1) nd;;
      swap nascent this;;
      c ← fbcore_capacity this;
      FBSTRING_ASSERT (bool_decide (c >= minCapacity))).

Fixpoint reserve_ (fuel : nat) (this minCapacity : Z) (disableSSO : bool) : Run unit :=
  match fuel with
  | O => fun _ => OutOfFuel
  | S fuel =>
      c ← category this;
      (if decide (c = isSmall) then reserveSmall this minCapacity disableSSO
       else if decide (c = isMedium) then reserveMedium (reserve_ fuel) this minCapacity
       else if decide (c = isLarge) then reserveLarge this minCapacity
       else fault "unreachable");;
      n ← fbcore_capacity this;
      FBSTRING_ASSERT (bool_decide (n >= minCapacity))
  end.

(** A core that converts from medium to large reserves once more, in a small
    core. *)
Definition core_reserve (this minCapacity : Z) (disableSSO : bool) : Run unit :=
  reserve_ 2 this minCapacity disableSSO.

(** ** Growth and shrinking *)

(** The end of [expandNoinit], outside of the small representation. *)
Definition expand_finish (this sz newSz : Z) : Run Z :=
  cap ← fbcore_capacity this;
  FBSTRING_ASSERT (bool_decide (cap >= newSz));;
  c ← category this;
  FBSTRING_ASSERT (bool_decide (c = isMedium \/ c = isLarge));;
  set_ml_size this newSz;;
  d ← ml_data this;
  store_byte (d + newSz) 0;;
  n ← size this;
  FBSTRING_ASSERT (bool_decide (n = newSz));;
  d ← ml_data this;
  mret (d + sz).

Definition expandNoinit (this delta : Z) (expGrowth disableSSO : bool) : Run Z :=
  cap ← fbcore_capacity this; n ← size this;
  FBSTRING_ASSERT (bool_decide (cap >= n));;
  small ← is_category this isSmall;
  if small : bool then
    sz ← smallSize this;
    let newSz := u64 (sz + delta) in
    if decide (disableSSO = false /\ newSz <= maxSmallSize) then
      setSmallSize this newSz;; mret (this + sz)
    else
      reserveSmall this (if expGrowth then Z.max newSz (2 * maxSmallSize) else newSz) disableSSO;;
      expand_finish this sz newSz
  else
    sz ← ml_size this;
    let newSz := u64 (sz + delta) in
    cap ← fbcore_capacity this;
    (if decide (newSz > cap) then
       core_reserve this (if expGrowth then Z.max newSz (u64 (1 + u64 (cap * 3) / 2)) else newSz)
         FBSTRING_DISABLE_SSO
     else mret tt);;
    expand_finish this sz newSz.

Definition fbcore_push_back (this c : Z) : Run unit :=
  p ← expandNoinit this 1 true FBSTRING_DISABLE_SSO; store_byte p c.

Definition shrinkSmall (this delta : Z) : Run unit :=
  n ← smallSize this;
  FBSTRING_ASSERT (bool_decide (delta <= n));;
  setSmallSize this (n - delta).

Definition shrinkMedium (this delta : Z) : Run unit :=
  n ← ml_size this;
  FBSTRING_ASSERT (bool_decide (n >= delta));;
  set_ml_size this (n - delta);;
  d ← ml_data this;
  store_byte (d + (n - delta)) 0;;
  mret tt.

Definition shrinkLarge (this delta : Z) : Run unit :=
  n ← ml_size this;
  FBSTRING_ASSERT (bool_decide (n >= delta));;
  if decide (delta <> 0) then
    d ← ml_data this;
    local_core (fun tmp => core_init tmp d (n - delta) FBSTRING_DISABLE_SSO) (fun tmp => swap tmp this)
  else mret tt.

Definition shrink (this delta : Z) : Run unit :=
  c ← category this;
  if decide (c = isSmall) then shrinkSmall this delta else
  unique ← (if decide (c = isMedium) then mret true
            else d ← ml_data this; n ← refs d; mret (bool_decide (n = 1)));
  if unique : bool then shrinkMedium this delta else shrinkLarge this delta.
End Core.

(** ** Failed allocations

    The core throws [bad_alloc] only when the allocator has refused a request. *)

Section HonestCore.
Context `{Platform}.

Lemma honest_category this : honest (category this).
Proof. honest_all. Qed.

Lemma honest_size this : honest (size this).
Proof. honest_all. Qed.

Lemma honest_c_str this : honest (c_str this).
Proof. honest_all. Qed.

Lemma honest_podCopy b e d : honest (podCopy b e d).
Proof. honest_all. Qed.

Lemma honest_set_ml this rhs : honest (set_ml this rhs).
Proof. honest_all. Qed.
#[local] Hint Resolve honest_category honest_size honest_c_str honest_podCopy honest_set_ml : honest.

Lemma honest_capacity this : honest (fbcore_capacity this).
Proof. honest_all. Qed.

Lemma honest_setSmallSize this n : honest (setSmallSize this n).
Proof. honest_all. Qed.

Lemma honest_dtor this : honest (core_dtor this).
Proof. honest_all. Qed.
#[local] Hint Resolve honest_capacity honest_setSmallSize honest_dtor : honest.

Lemma honest_swap this rhs : honest (swap this rhs).
Proof. honest_all. Qed.

Lemma honest_init this d n b : honest (core_init this d n b).
Proof. honest_all. Qed.

Lemma honest_unshare this n : honest (fbcore_unshare this n).
Proof. honest_all. Qed.
#[local] Hint Resolve honest_swap honest_init honest_unshare : honest.

Lemma honest_reserveSmall this n b : honest (reserveSmall this n b).
Proof. honest_all. Qed.

Lemma honest_reserveLarge this n : honest (reserveLarge this n).
Proof. honest_all. Qed.
#[local] Hint Resolve honest_reserveSmall honest_reserveLarge : honest.

Lemma honest_reserve_ fuel this n b : honest (reserve_ fuel this n b).
Proof.
  revert this n b. induction fuel as [|fuel IH]; intros this n b; [done|]. cbn [reserve_]. honest_all.
Qed.
#[local] Hint Resolve honest_reserve_ : honest.

Lemma honest_expandNoinit this n g b : honest (expandNoinit this n g b).
Proof. honest_all. Qed.

Lemma honest_shrink this n : honest (shrink this n).
Proof. honest_all. Qed.

Lemma honest_copy this rhs : honest (core_copy this rhs).
Proof. honest_all. Qed.

Lemma honest_mutableData this : honest (mutableData this).
Proof. honest_all. Qed.
End HonestCore.
#[export] Hint Resolve honest_size honest_c_str honest_podCopy honest_capacity honest_setSmallSize honest_dtor honest_swap honest_init
  honest_reserve_ honest_expandNoinit honest_shrink honest_copy honest_mutableData : honest.
