(* ===== verification/FBStringInv.v ===== *)
(** * FBString: the memory invariant

    A ghost map says what every live region is: a small string, an object that
    refers to an allocation, an allocation with the characters it holds, or raw
    bytes (a buffer of the caller, an object under construction, an allocation
    that no string owns yet).  [inv] ties the map to the memory: the bytes of
    every region are those its cell stands for, a reference count is the number
    of objects that refer to the allocation, an allocation without a count has
    one owner, and nothing on the heap is unaccounted for. *)

From stdpp Require Import base list gmap strings.
From S2P Require Import Prelude Bits FBStringMem FBStringCore.

(** ** Cells *)

Inductive Kind := Medium | Large.

#[global] Instance Kind_eq_dec : EqDecision Kind.
Proof. solve_decision. Defined.

Definition hdr (k : Kind) : Z := match k with Medium => 0 | Large => getDataOffset end.
Definition cat (k : Kind) : Z := match k with Medium => isMedium | Large => isLarge end.

Inductive Cell :=
  | Small (l : list Z)
  | Ref (b : Z)
  | Blk (k : Kind) (cap : Z) (l : list Z)
  | Raw (onheap : bool) (bs : list Z).

#[global] Instance Cell_eq_dec : EqDecision Cell.
Proof. solve_decision. Defined.

Abbreviation Ghost := (gmap Z Cell).

Definition is_ref (b : Z) (x : Z * Cell) : Prop := x.2 = Ref b.
#[global] Instance is_ref_dec b x : Decision (is_ref b x).
Proof. unfold is_ref. apply _. Defined.

(** How many objects refer to the allocation at [b]. *)
Definition nrefs (G : Ghost) (b : Z) : nat := mcount (is_ref b) G.

(** The bytes of an object with the members [d], [n] and [c]. *)
Definition words (d n c : Z) : list Z := to_bytes 8 d ++ to_bytes 8 n ++ to_bytes 8 c.
Definition capword (k : Kind) (cap : Z) : Z := Z.lor cap (Z.shiftl (cat k) kCategoryShift).

Definition small_rep (bs l : list Z) : Prop :=
  zlen bs = 24 /\ zlen l <= maxSmallSize /\ slice 23 1 bs = [maxSmallSize - zlen l] /\
  slice 0 (zlen l + 1) bs = l ++ [0].

(** An allocation of kind [k] whose text is [l]. *)
Record blk_rep (k : Kind) (cap : Z) (l bs : list Z) : Prop := {
  br_size : zlen l <= cap;
  br_room : hdr k + cap + 1 <= zlen bs;
  br_text : slice (hdr k) (zlen l + 1) bs = l ++ [0] }.

Definition counted (k : Kind) (n : nat) (bs : list Z) : Prop :=
  match k with
  | Medium => n = 1%nat
  | Large => (1 <= n)%nat /\ Z.of_nat n < 2 ^ 63 /\ slice 0 8 bs = to_bytes 8 (Z.of_nat n)
  end.

Definition cell_ok (G : Ghost) (hp : gset Z) (b : Z) (bs : list Z) (c : Cell) : Prop :=
  match c with
  | Small l => small_rep bs l
  | Ref b' => exists k cap l, G !! b' = Some (Blk k cap l) /\
                bs = words (b' + hdr k) (zlen l) (capword k cap)
  | Blk k cap l => b ∈ hp /\ blk_rep k cap l bs /\ counted k (nrefs G b) bs
  | Raw h r => bs = r /\ (h = true -> b ∈ hp)
  end.

Record inv (s : Machine) (G : Ghost) : Prop := {
  inv_mem : mem_ok s;
  inv_cells : forall b c, G !! b = Some c -> exists bs, mem s !! b = Some bs /\ cell_ok G (heap s) b bs c;
  inv_heap : forall b, b ∈ heap s -> is_Some (G !! b) }.

(** ** What a client sees *)

(** A string with the address of its characters, or bytes. *)
Inductive View := VStr (p : Z) (l : list Z) | VRaw (onheap : bool) (bs : list Z).

#[global] Instance View_eq_dec : EqDecision View.
Proof. solve_decision. Defined.

Definition view (G : Ghost) (a : Z) : option View :=
  match G !! a with
  | Some (Small l) => Some (VStr a l)
  | Some (Ref b) => match G !! b with Some (Blk k _ l) => Some (VStr (b + hdr k) l) | _ => None end
  | Some (Raw h bs) => Some (VRaw h bs)
  | _ => None
  end.

(** No other object refers to the characters of [a]. *)
Definition exclusive (G : Ghost) (a : Z) : Prop :=
  match G !! a with
  | Some (Small _) => True
  | Some (Ref b) => nrefs G b = 1%nat
  | _ => False
  end.

(** Nothing but what is at the addresses [A] has changed for a client. *)
Definition frame (A : gset Z) (G G' : Ghost) : Prop := forall a, a ∉ A -> view G' a = view G a.

(** ** Words *)

Section Words.
Implicit Types d n c : Z.

Lemma zlen_words d n c : zlen (words d n c) = 24.
Proof. done. Qed.

Lemma words_byte d n c : Forall byte (words d n c).
Proof. unfold words. rewrite !Forall_app. split_and!; apply to_bytes_range. Qed.

Lemma words_data d n c : slice 0 8 (words d n c) = to_bytes 8 d.
Proof. done. Qed.
Lemma words_size d n c : slice 8 8 (words d n c) = to_bytes 8 n.
Proof. done. Qed.
Lemma words_capacity d n c : slice 16 8 (words d n c) = to_bytes 8 c.
Proof. done. Qed.

Lemma words_set_data d d' n c : overwrite 0 (to_bytes 8 d') (words d n c) = words d' n c.
Proof. done. Qed.
Lemma words_set_size d n n' c : overwrite 8 (to_bytes 8 n') (words d n c) = words d n' c.
Proof. done. Qed.
Lemma words_set_capacity d n c c' : overwrite 16 (to_bytes 8 c') (words d n c) = words d n c'.
Proof. done. Qed.

Lemma of_to_word x : fits 64 x -> of_bytes (to_bytes 8 x) = x.
Proof. intros Hx. apply of_to_bytes. exact Hx. Qed.

Lemma words_last d n c : slice 23 1 (words d n c) = [(c / 2 ^ 56) `mod` 256].
Proof.
  change (slice 23 1 (words d n c)) with
    [(c / 256 / 256 / 256 / 256 / 256 / 256 / 256) `mod` 256].
  rewrite !Z.div_div by lia. done.
Qed.

Lemma capword_add k cap : 0 <= cap < 2 ^ 56 -> capword k cap = cap + cat k * 2 ^ 56.
Proof.
  intros Hc. unfold capword, kCategoryShift. rewrite Z.shiftl_mul_pow2 by done.
  rewrite Z.lor_comm, lor_low by done. lia.
Qed.

Lemma capword_fits k cap : 0 <= cap < 2 ^ 56 -> fits 64 (capword k cap).
Proof. intros Hc. rewrite capword_add by done. unfold fits, cat, isMedium, isLarge. destruct k; lia. Qed.

Lemma capword_cap k cap : 0 <= cap < 2 ^ 56 -> Z.land (capword k cap) capacityExtractMask = cap.
Proof.
  intros Hc. rewrite capword_add by done.
  change capacityExtractMask with (2 ^ 62 - 1). rewrite land_low by done.
  replace (cat k * 2 ^ 56) with ((match k with Medium => 2 | Large => 1 end) * 2 ^ 62) by by destruct k.
  rewrite Z.mod_add by done. apply Z.mod_small. lia.
Qed.
End Words.

Lemma small_category x : 0 <= x < 64 -> Z.land x categoryExtractMask = isSmall.
Proof.
  intros Hx.
  assert (Hall : Forall (fun x => Z.land x categoryExtractMask = isSmall) (seqZ 0 64))
    by (apply (bool_decide_unpack _); vm_compute; exact I).
  rewrite Forall_forall in Hall. apply Hall, elem_of_seqZ. lia.
Qed.

Lemma capword_last k cap : 0 <= cap < 2 ^ 56 -> (capword k cap / 2 ^ 56) `mod` 256 = cat k.
Proof.
  intros Hc. rewrite capword_add, Z.div_add, Z.div_small by done. by destruct k.
Qed.

Lemma cat_category k : Z.land (cat k) categoryExtractMask = cat k.
Proof. by destruct k. Qed.

(** The 24 bytes of any object are three words. *)
Lemma words_intro bs :
  zlen bs = 24 -> Forall byte bs ->
  exists d n c, fits 64 d /\ fits 64 n /\ fits 64 c /\ bs = words d n c.
Proof.
  intros Hl Hb.
  assert (Hw : forall o, 0 <= o -> o + 8 <= 24 ->
    fits 64 (of_bytes (slice o 8 bs)) /\ to_bytes 8 (of_bytes (slice o 8 bs)) = slice o 8 bs).
  { intros o Ho Hle. assert (E : length (slice o 8 bs) = 8%nat)
      by (pose proof (zlen_slice o 8 bs Ho) as E; unfold zlen in *; lia).
    assert (Hf : Forall (fun b => 0 <= b < 256) (slice o 8 bs)) by by apply Forall_slice.
    split; [|by rewrite <- (to_of_bytes _ Hf) at 2; rewrite E].
    assert (R : forall l, Forall (fun b => 0 <= b < 256) l -> 0 <= of_bytes l < 256 ^ Z.of_nat (length l)).
    { clear. induction l as [|x l IH]; intros Hf; [done|].
      inversion Hf as [|? ? Hx Hl']; subst. specialize (IH Hl'). change (of_bytes (x :: l)) with (x + 256 * of_bytes l).
      rewrite length_cons, Nat2Z.inj_succ, Z.pow_succ_r by lia. lia. }
    specialize (R _ Hf). rewrite E in R. exact R. }
  destruct (Hw 0) as [H0 E0], (Hw 8) as [H1 E1], (Hw 16) as [H2 E2]; [lia..|].
  eexists _, _, _. split; [exact H0|]. split; [exact H1|]. split; [exact H2|].
  unfold words. rewrite E0, E1, E2.
  rewrite <- (slice_full bs) at 1. rewrite Hl. change 24 with (8 + (8 + 8)).
  by rewrite !slice_split by lia.
Qed.

(** ** Frames *)

Section Frames.
Implicit Types (s : Machine) (G : Ghost).

Lemma cell_ok_frame G G' hp hp' b bs c :
  (forall b' k cap l, c = Ref b' -> G !! b' = Some (Blk k cap l) -> G' !! b' = Some (Blk k cap l)) ->
  ((exists k cap l, c = Blk k cap l) -> nrefs G' b = nrefs G b) ->
  (b ∈ hp -> b ∈ hp') ->
  cell_ok G hp b bs c -> cell_ok G' hp' b bs c.
Proof.
  intros HR HB Hh. destruct c as [l|b'|k cap l|h r]; simpl; [done|..].
  - intros (k & cap & l & Hb & ->). exists k, cap, l. split; [by eapply HR|done].
  - intros (? & ? & ?). split_and!; [by apply Hh|done|]. rewrite HB; [done|]. eauto.
  - intros [-> ?]. split; [done|]. auto.
Qed.

Lemma nrefs_insert G a c c' b :
  G !! a = Some c -> c <> Ref b -> c' <> Ref b -> nrefs (<[a:=c']> G) b = nrefs G b.
Proof.
  intros Ha Hc Hc'. unfold nrefs.
  pose proof (mcount_insert_old (is_ref b) G a c c' Ha) as H.
  destruct (decide (is_ref b (a, c))) as [?|_], (decide (is_ref b (a, c'))) as [?|_]; try done. lia.
Qed.

Lemma nrefs_new G a c b : G !! a = None -> c <> Ref b -> nrefs (<[a:=c]> G) b = nrefs G b.
Proof.
  intros Ha Hc. unfold nrefs. rewrite mcount_insert_new by done.
  destruct (decide (is_ref b (a, c))); [done|]. lia.
Qed.

Lemma nrefs_delete G a c b : G !! a = Some c -> c <> Ref b -> nrefs (delete a G) b = nrefs G b.
Proof.
  intros Ha Hc. unfold nrefs. rewrite (mcount_delete (is_ref b) G a c Ha).
  destruct (decide (is_ref b (a, c))); [done|]. lia.
Qed.

Lemma nrefs_drop G a b c' :
  G !! a = Some (Ref b) -> c' <> Ref b -> nrefs G b = S (nrefs (<[a:=c']> G) b).
Proof.
  intros Ha Hc'. unfold nrefs. pose proof (mcount_insert_old (is_ref b) G a (Ref b) c' Ha) as H.
  destruct (decide (is_ref b (a, Ref b))) as [_|?], (decide (is_ref b (a, c'))); try done. lia.
Qed.

Lemma nrefs_add G a b c :
  G !! a = Some c -> c <> Ref b -> nrefs (<[a:=Ref b]> G) b = S (nrefs G b).
Proof.
  intros Ha Hc. unfold nrefs. pose proof (mcount_insert_old (is_ref b) G a c (Ref b) Ha) as H.
  destruct (decide (is_ref b (a, Ref b))) as [_|?], (decide (is_ref b (a, c))); try done. lia.
Qed.

(** Only allocations are referred to. *)
Lemma nrefs_zero s G b :
  inv s G -> (forall k cap l, G !! b <> Some (Blk k cap l)) -> nrefs G b = 0%nat.
Proof.
  intros [_ Hc _] Hb. apply mcount_zero. intros a v Ha E. unfold is_ref in E. simpl in E. subst v.
  destruct (Hc a _ Ha) as (bs & _ & k & cap & l & E & _). by apply Hb in E.
Qed.

Lemma nrefs_unique G a a' b :
  nrefs G b = 1%nat -> G !! a = Some (Ref b) -> G !! a' = Some (Ref b) -> a = a'.
Proof.
  intros H1 Ha Ha'. destruct (decide (a = a')) as [?|Hne]; [done|].
  pose proof (mcount_two (is_ref b) G a (Ref b) a' (Ref b) Ha eq_refl Ha' eq_refl Hne).
  unfold nrefs in H1. lia.
Qed.

(** Replacing the cell of one region, when no reference starts, ends or changes
    its target. *)
Lemma inv_recell s s' G a c c' :
  inv s G -> G !! a = Some c ->
  (forall b, c <> Ref b) -> (forall b, c' <> Ref b) ->
  (forall k cap l, c <> Blk k cap l) ->
  mem_ok s' -> heap s' = heap s ->
  (forall b, b <> a -> mem s' !! b = mem s !! b) ->
  (exists bs, mem s' !! a = Some bs /\ cell_ok (<[a:=c']> G) (heap s) a bs c') ->
  inv s' (<[a:=c']> G).
Proof.
  intros [Hm Hc Hh] Ha HcR Hc'R HcB Hm' Eh Hother Hnew. split; [done|..].
  - intros b v [[<- <-]|[Hne Hb]]%lookup_insert_Some; [by rewrite Eh|].
    destruct (Hc b v Hb) as (bs & Hbs & Hok). exists bs. rewrite Hother by done. split; [done|].
    eapply cell_ok_frame, Hok.
    + intros b' k cap l -> Hb'. rewrite lookup_insert_ne; [done|]. intros ->. rewrite Ha in Hb'. injection Hb' as E. by eapply HcB.
    + intros _. by eapply nrefs_insert.
    + by rewrite Eh.
  - intros b Hb. rewrite Eh in Hb. apply lookup_insert_is_Some'. right. by apply Hh.
Qed.

(** An allocation, or nothing: what a client does not see. *)
Definition hidden (o : option Cell) : Prop :=
  match o with None | Some (Blk _ _ _) => True | _ => False end.

Lemma hidden_view G x : hidden (G !! x) -> view G x = None.
Proof. unfold view. by destruct (G !! x) as [[]|]. Qed.

(** What is left alone, with the allocations it refers to, looks the same. *)
Lemma frame_unreferenced s G G' (A : gset Z) :
  inv s G ->
  (forall x y, x ∈ A -> y ∉ A -> G !! y <> Some (Ref x)) ->
  (forall x, x ∉ A -> G' !! x = G !! x \/
    (hidden (G !! x) /\ hidden (G' !! x) /\ forall y, y ∉ A -> G !! y <> Some (Ref x))) ->
  frame A G G'.
Proof.
  intros Hi HA Hsame x Hx. destruct (Hsame x Hx) as [E|(H1 & H2 & _)]; [|by rewrite !hidden_view].
  unfold view. rewrite E. destruct (G !! x) as [[l|b|k cap l|h r]|] eqn:Ex; try done.
  destruct (decide (b ∈ A)) as [Hin|Hout]; [by eapply HA in Ex|].
  destruct (Hsame b Hout) as [->|(_ & _ & Hno)]; [done|]. by apply Hno in Ex.
Qed.

Lemma frame_intro s G G' (A : gset Z) :
  inv s G ->
  (forall x, x ∈ A -> forall k cap l, G !! x <> Some (Blk k cap l)) ->
  (forall x, x ∉ A -> G' !! x = G !! x \/
    (hidden (G !! x) /\ hidden (G' !! x) /\ forall y, y ∉ A -> G !! y <> Some (Ref x))) ->
  frame A G G'.
Proof.
  intros Hi HA. apply (frame_unreferenced s); [done|]. intros x y Hx _ Hy.
  destruct (inv_cells s G Hi y _ Hy) as (bs & _ & k & cap & l & Hb & _). by apply HA in Hb.
Qed.

Lemma frame_refl A G : frame A G G.
Proof. by intros x _. Qed.

Lemma frame_trans A G G' G'' : frame A G G' -> frame A G' G'' -> frame A G G''.
Proof. intros H1 H2 x Hx. by rewrite H2, H1. Qed.

Lemma frame_mono A A' G G' : A ⊆ A' -> frame A G G' -> frame A' G G'.
Proof. intros HA HF x Hx. apply HF. set_solver. Qed.
End Frames.
