(* ===== verification/FBStringStep.v ===== *)
(** * FBString: steps on the memory invariant

    How the primitive accesses act on the ghost map: loads and stores of
    members, the allocator, local objects, and the opening and closing of a
    string into the raw bytes it is made of. *)

From stdpp Require Import base list gmap strings.
From S2P Require Import Prelude Bits FBStringMem FBStringCore FBStringInv.

(** The cells of two different kinds are at different addresses. *)
Ltac cells_ne := intros ?; simplify_eq/=; congruence.

Section Raw.
Implicit Types (s : Machine) (G : Ghost).

Lemma raw_mem s G b h r : inv s G -> G !! b = Some (Raw h r) -> mem s !! b = Some r.
Proof. intros [_ Hc _] Hb. destruct (Hc b _ Hb) as (bs & Hbs & -> & _). done. Qed.

Lemma raw_load_wp s G b h r o n (Q : list Z -> Machine -> Prop) E :
  inv s G -> G !! b = Some (Raw h r) -> 0 <= o -> 0 <= n -> o + n <= zlen r ->
  Q (slice o n r) s -> wp (load_bytes (b + o) n) s Q E.
Proof. intros Hi Hb. apply load_bytes_wp; [apply Hi|by eapply raw_mem]. Qed.

Lemma inv_raw_set s G b h r r' :
  inv s G -> G !! b = Some (Raw h r) -> zlen r' = zlen r -> Forall byte r' ->
  inv (set_region b r' s) (<[b:=Raw h r']> G).
Proof.
  intros Hi Hb Hl Hr. pose proof (raw_mem _ _ _ _ _ Hi Hb) as Hm.
  eapply inv_recell; [done|done|done..| |done| |].
  - by eapply mem_ok_set; [apply Hi|..].
  - intros b' Hne. simpl. by rewrite lookup_insert_ne.
  - exists r'. simpl. rewrite lookup_insert_eq. split; [done|]. split; [done|].
    destruct (inv_cells s G Hi b _ Hb) as (? & _ & _ & ?). done.
Qed.

Lemma raw_store_wp s G b h r o bs (Q : unit -> Machine -> Prop) E :
  inv s G -> G !! b = Some (Raw h r) -> 0 <= o -> o + zlen bs <= zlen r -> Forall byte bs ->
  (forall s', inv s' (<[b:=Raw h (overwrite o bs r)]> G) -> heap s' = heap s -> Q tt s') ->
  wp (store_bytes (b + o) bs) s Q E.
Proof.
  intros Hi Hb Ho Hle Hbs HQ. pose proof (raw_mem _ _ _ _ _ Hi Hb) as Hm.
  eapply store_bytes_wp; [apply Hi|done..|]. apply HQ; [|done].
  apply inv_raw_set with r; [done|done|by apply zlen_overwrite|].
  apply Forall_overwrite; [done|]. by eapply ok_bytes; [apply Hi|].
Qed.
End Raw.

(** ** Members of an object *)

Section Members.
Implicit Types (s : Machine).

Lemma load64_wp s b r o x (Q : Z -> Machine -> Prop) E :
  mem_ok s -> mem s !! b = Some r -> 0 <= o -> o + 8 <= zlen r ->
  slice o 8 r = to_bytes 8 x -> fits 64 x -> Q x s -> wp (load64 (b + o)) s Q E.
Proof.
  intros Hm Hb Ho Hle Hr Hx HQ. apply wp_bind.
  eapply load_bytes_wp; [done|done|done|done|done|]. apply wp_ret. by rewrite Hr, of_to_word.
Qed.

Lemma load_byte_wp s b r o x (Q : Z -> Machine -> Prop) E :
  mem_ok s -> mem s !! b = Some r -> 0 <= o -> slice o 1 r = [x] -> Q x s -> wp (load_byte (b + o)) s Q E.
Proof.
  intros Hm Hb Ho Hr HQ. apply wp_bind.
  assert (o + 1 <= zlen r).
  { apply (f_equal zlen) in Hr. unfold zlen, slice in Hr. rewrite length_take, length_drop in Hr.
    unfold zlen. change (length [x]) with 1%nat in Hr. lia. }
  eapply load_bytes_wp; [done|done|done|done|done|]. apply wp_ret. rewrite Hr. simpl.
  by rewrite Z.add_0_r.
Qed.

Lemma ml_data_wp s a d n c (Q : Z -> Machine -> Prop) E :
  mem_ok s -> mem s !! a = Some (words d n c) -> fits 64 d -> Q d s -> wp (ml_data a) s Q E.
Proof. intros. by eapply load64_wp. Qed.

Lemma ml_size_wp s a d n c (Q : Z -> Machine -> Prop) E :
  mem_ok s -> mem s !! a = Some (words d n c) -> fits 64 n -> Q n s -> wp (ml_size a) s Q E.
Proof. intros. by eapply load64_wp. Qed.

Lemma ml_capacity__wp s a d n c (Q : Z -> Machine -> Prop) E :
  mem_ok s -> mem s !! a = Some (words d n c) -> fits 64 c -> Q c s -> wp (ml_capacity_ a) s Q E.
Proof. intros. by eapply load64_wp. Qed.

Lemma category_wp s a bs x (Q : Z -> Machine -> Prop) E :
  mem_ok s -> mem s !! a = Some bs -> slice 23 1 bs = [x] ->
  Q (Z.land x categoryExtractMask) s -> wp (category a) s Q E.
Proof. intros. apply wp_bind. by eapply load_byte_wp; [..|apply wp_ret]. Qed.
End Members.

Section MemberStores.
Implicit Types (s : Machine) (G : Ghost).

Lemma set_data_wp s G a h d n c v (Q : unit -> Machine -> Prop) E :
  inv s G -> G !! a = Some (Raw h (words d n c)) ->
  (forall s', inv s' (<[a:=Raw h (words v n c)]> G) -> heap s' = heap s -> Q tt s') -> wp (set_ml_data a v) s Q E.
Proof. intros Hi Ha HQ. eapply raw_store_wp; [done|done|done|done|apply to_bytes_range|done]. Qed.

Lemma set_size_wp s G a h d n c v (Q : unit -> Machine -> Prop) E :
  inv s G -> G !! a = Some (Raw h (words d n c)) ->
  (forall s', inv s' (<[a:=Raw h (words d v c)]> G) -> heap s' = heap s -> Q tt s') -> wp (set_ml_size a v) s Q E.
Proof. intros Hi Ha HQ. eapply raw_store_wp; [done|done|done|done|apply to_bytes_range|done]. Qed.

Lemma set_capacity_wp s G a h d n c v (Q : unit -> Machine -> Prop) E :
  inv s G -> G !! a = Some (Raw h (words d n c)) ->
  (forall s', inv s' (<[a:=Raw h (words d n v)]> G) -> heap s' = heap s -> Q tt s') -> wp (store64 (a + 16) v) s Q E.
Proof. intros Hi Ha HQ. eapply raw_store_wp; [done|done|done|done|apply to_bytes_range|done]. Qed.
End MemberStores.

(** ** Allocation *)

Section Alloc.
Context `{Platform}.
Implicit Types (s : Machine) (G : Ghost).

Lemma inv_requests s G : inv s G -> inv (count_request s) G.
Proof. intros [[Hd Hb Ht Hz Hh] Hc Hp]. split; [by split|done..]. Qed.

Lemma inv_refusals s G : inv s G -> inv (count_refusal s) G.
Proof. intros [[Hd Hb Ht Hz Hh] Hc Hp]. split; [by split|done..]. Qed.

(** A region in free space joins the map. *)
Lemma inv_new s G a r (h : bool) :
  inv s G -> G !! a = None -> a + zlen r <= address_space -> Forall byte r -> 0 < a \/ a + zlen r < 0 ->
  (h = true -> 0 < a) ->
  map_Forall (fun b bs => a + zlen r <= b \/ b + zlen bs <= a) (mem s) ->
  inv (mkMachine (<[a:=r]> (mem s)) ((if h then {[a]} else ∅) ∪ heap s) (requests s) (refusals s)) (<[a:=Raw h r]> G).
Proof.
  intros [Hm Hc Hh] Ha Htop Hr Hnull Hpos Hfree. split; [by apply mem_ok_new|..]; simpl.
  - intros b v [[<- <-]|[Hne Hb]]%lookup_insert_Some.
    + exists r. rewrite lookup_insert_eq. split; [done|]. split; [done|]. intros ->. set_solver.
    + destruct (Hc b v Hb) as (bs & Hbs & Hok). exists bs. rewrite lookup_insert_ne by done.
      split; [done|]. eapply cell_ok_frame, Hok.
      * intros b' k cap l -> Hb'. rewrite lookup_insert_ne; [done|]. congruence.
      * intros _. by apply nrefs_new.
      * set_solver.
  - intros b [Hb|Hb]%elem_of_union.
    + destruct h; [|set_solver]. apply elem_of_singleton in Hb as ->. by rewrite lookup_insert_eq.
    + apply lookup_insert_is_Some'. right. by apply Hh.
Qed.

(** A region leaves it. *)
Lemma inv_drop s G a h r :
  inv s G -> G !! a = Some (Raw h r) ->
  inv (mkMachine (delete a (mem s)) (heap s ∖ {[a]}) (requests s) (refusals s)) (delete a G).
Proof.
  intros [Hm Hc Hh] Ha. split; [by apply mem_ok_delete|..]; simpl.
  - intros b v [Hne Hb]%lookup_delete_Some. destruct (Hc b v Hb) as (bs & Hbs & Hok). exists bs.
    rewrite lookup_delete_ne by done. split; [done|]. eapply cell_ok_frame, Hok.
    + intros b' k cap l -> Hb'. rewrite lookup_delete_ne; [done|]. congruence.
    + intros _. by eapply nrefs_delete.
    + set_solver.
  - intros b [Hb Hne]%elem_of_difference. rewrite lookup_delete_ne by set_solver. by apply Hh.
Qed.

Lemma inv_unmapped s G a : inv s G -> mem s !! a = None -> G !! a = None.
Proof.
  intros [_ Hc _] Ha. destruct (G !! a) as [c|] eqn:E; [|done].
  destruct (Hc a c E) as (bs & Hbs & _). congruence.
Qed.

Lemma checkedMalloc_wp s G n (Q : Z -> Machine -> Prop) (X : exn -> Machine -> Prop) :
  inv s G ->
  (forall s' b r, inv s' (<[b:=Raw true r]> G) -> G !! b = None -> 0 < b -> b + n <= address_space ->
    zlen r = n -> Q b s') ->
  (forall s', inv s' G -> X bad_alloc s') ->
  wp (checkedMalloc n) s Q X.
Proof.
  intros Hi HQ HX. apply wp_bind, wp_bind, wp_get, wp_bind, wp_put.
  destruct (decide (is_free (mem s) (place (requests s)) n)) as [(Hpos & Hn & Htop & Hnone & Hfree)|_].
  - apply wp_bind, wp_modify, wp_bind, wp_modify, wp_ret, wp_ret.
    pose proof (zlen_fresh (requests s) n Hn) as Hl.
    pose proof (inv_unmapped s G _ Hi Hnone) as HG. eapply HQ with (r := fresh_bytes (requests s) n); [|done..].
    apply inv_requests in Hi. eapply (inv_new _ _ _ (fresh_bytes (requests s) n) true) in Hi;
      [exact Hi|done|by rewrite Hl|apply fresh_bytes_byte|by left|done|]. by rewrite Hl.
  - apply wp_bind, wp_modify, wp_ret. by apply wp_throw, HX, inv_refusals, inv_requests.
Qed.

Lemma free_wp s G p r (Q : unit -> Machine -> Prop) X :
  inv s G -> G !! p = Some (Raw true r) -> (forall s', inv s' (delete p G) -> Q tt s') ->
  wp (free p) s Q X.
Proof.
  intros Hi Hp HQ. destruct (inv_cells s G Hi p _ Hp) as (? & _ & _ & Hh).
  apply wp_bind, wp_get, wp_bind, wp_assert; [by apply bool_decide_eq_true, Hh|].
  apply wp_put, HQ. by eapply (inv_drop s G).
Qed.

Lemma checkedRealloc_wp s G p r n (Q : Z -> Machine -> Prop) (X : exn -> Machine -> Prop) :
  inv s G -> G !! p = Some (Raw true r) ->
  (forall s' b r', inv s' (<[b:=Raw true r']> (delete p G)) -> delete p G !! b = None -> 0 < b ->
    b + n <= address_space -> zlen r' = n ->
    (forall m, m <= zlen r -> m <= n -> slice 0 m r' = slice 0 m r) -> Q b s') ->
  (forall s', inv s' G -> X bad_alloc s') ->
  wp (checkedRealloc p n) s Q X.
Proof.
  intros Hi Hp HQ HX. destruct (inv_cells s G Hi p _ Hp) as (? & Hmem & Er & Hh). subst.
  apply wp_bind, wp_bind, wp_get, wp_bind, wp_assert; [by apply bool_decide_eq_true, Hh|].
  apply wp_bind, wp_of_option with r; [done|]. apply wp_bind, wp_put.
  destruct (decide (is_free _ _ n)) as [(Hpos & Hn & Htop & Hnone & Hfree)|_];
    [|apply wp_bind, wp_modify, wp_ret; by apply wp_throw, HX, inv_refusals, inv_requests].
  apply wp_bind, wp_modify, wp_bind, wp_modify, wp_ret, wp_ret.
  set (old := take (Z.to_nat n) (r ++ drop (length r) (fresh_bytes (requests s) n))).
  assert (Hl : zlen old = n).
  { pose proof (zlen_fresh (requests s) n Hn). unfold old, zlen in *.
    rewrite length_take, length_app, length_drop. lia. }
  pose proof (inv_drop (count_request s) G p true r (inv_requests _ _ Hi) Hp) as Hd.
  pose proof (inv_unmapped _ _ _ Hd Hnone) as HG. apply HQ with old; [|done..|].
  - eapply (inv_new _ _ (place (requests s)) old true) in Hd; [exact Hd|done|by rewrite Hl| |by left|done|by rewrite Hl].
    apply Forall_take, Forall_app. split; [|by apply Forall_drop, fresh_bytes_byte].
    by eapply ok_bytes; [apply Hi|].
  - intros m Hr Hm. unfold old, slice. rewrite !drop_0, take_take, Nat.min_l by lia.
    unfold zlen in *. apply take_app_le. lia.
Qed.

Lemma push_local_wp s G n (Q : Z -> Machine -> Prop) X :
  inv s G -> 0 < n < address_space ->
  (forall s' a r, inv s' (<[a:=Raw false r]> G) -> G !! a = None -> a < 0 -> zlen r = n -> Q a s') ->
  wp (push_local n) s Q X.
Proof.
  intros Hi Hn HQ. apply wp_bind, wp_get, wp_bind, wp_put, wp_ret.
  pose proof (stack_top_nonpos (mem s)) as Htop. set (a := stack_top (mem s) - n - 16).
  pose proof (zlen_fresh (requests s) n ltac:(lia)) as Hl.
  assert (Hno : mem s !! a = None).
  { destruct (mem s !! a) as [r|] eqn:E; [|done]. apply stack_top_le in E. unfold a in E. lia. }
  pose proof (inv_unmapped s G a Hi Hno) as HG.
  eapply HQ with (r := fresh_bytes (requests s) n); [|done|unfold a; lia|done].
  eapply (inv_new s G a (fresh_bytes (requests s) n) false) in Hi;
    [|done|unfold a; rewrite Hl; lia|apply fresh_bytes_byte|right; unfold a; rewrite Hl; lia|done|].
  - simpl in Hi. by rewrite union_empty_l_L in Hi.
  - intros b bs Hb. left. apply stack_top_le in Hb. unfold a. lia.
Qed.

Lemma pop_local_wp s G a r (Q : unit -> Machine -> Prop) X :
  inv s G -> G !! a = Some (Raw false r) -> a < 0 ->
  (forall s', inv s' (delete a G) -> Q tt s') -> wp (pop_local a) s Q X.
Proof.
  intros Hi Ha Hneg HQ. apply wp_modify, HQ. pose proof (inv_drop s G a false r Hi Ha) as Hd.
  unfold set_mem. replace (heap s) with (heap s ∖ {[a]}); [done|].
  assert (a ∉ heap s) by (intros Hin; apply (ok_heap s (inv_mem _ _ Hi)) in Hin; lia). set_solver.
Qed.
End Alloc.

(** ** Opening and closing strings *)

Section OpenClose.
Implicit Types (s : Machine) (G : Ghost).

Lemma small_mem s G a l :
  inv s G -> G !! a = Some (Small l) -> exists bs, mem s !! a = Some bs /\ small_rep bs l /\ Forall byte bs.
Proof.
  intros Hi Ha. destruct (inv_cells s G Hi a _ Ha) as (bs & Hbs & Hr). exists bs.
  split_and!; [done..|]. by eapply ok_bytes; [apply Hi|].
Qed.

Lemma open_small s G a l :
  inv s G -> G !! a = Some (Small l) ->
  exists bs, mem s !! a = Some bs /\ small_rep bs l /\ Forall byte bs /\ inv s (<[a:=Raw false bs]> G).
Proof.
  intros Hi Ha. destruct (small_mem s G a l Hi Ha) as (bs & Hbs & Hr & Hb). exists bs.
  split_and!; [done..|]. eapply inv_recell; [done|done|done..|apply Hi|done|done|]. exists bs. by split.
Qed.

Lemma close_small s G a h bs l :
  inv s G -> G !! a = Some (Raw h bs) -> small_rep bs l -> inv s (<[a:=Small l]> G).
Proof.
  intros Hi Ha Hr. eapply inv_recell; [done|done|done..|apply Hi|done|done|].
  exists bs. split; [by eapply raw_mem|done].
Qed.

Lemma ref_mem s G a b :
  inv s G -> G !! a = Some (Ref b) ->
  exists k cap l blk, G !! b = Some (Blk k cap l) /\ mem s !! a = Some (words (b + hdr k) (zlen l) (capword k cap)) /\
    mem s !! b = Some blk /\ b ∈ heap s /\ blk_rep k cap l blk /\ counted k (nrefs G b) blk /\ Forall byte blk.
Proof.
  intros Hi Ha. destruct (inv_cells s G Hi a _ Ha) as (? & Hm & k & cap & l & Hb & ->).
  destruct (inv_cells s G Hi b _ Hb) as (blk & Hblk & Hh & Hr & Hc). exists k, cap, l, blk.
  split_and!; try done. by eapply ok_bytes; [apply Hi|].
Qed.

(** The bounds of the members of an object that refers to an allocation. *)
Lemma blk_bounds s G b k cap l blk :
  inv s G -> mem s !! b = Some blk -> b ∈ heap s -> blk_rep k cap l blk ->
  0 < b /\ 0 <= zlen l <= cap /\ b + hdr k + cap + 1 <= address_space.
Proof.
  intros Hi Hm Hh [Hs Hroom _]. destruct (ok_heap s (inv_mem _ _ Hi) b Hh) as [Hb _].
  pose proof (ok_top s (inv_mem _ _ Hi) b blk Hm). pose proof (zlen_nonneg l). lia.
Qed.

Definition one_owner (k : Kind) (blk : list Z) : Prop :=
  match k with Medium => True | Large => slice 0 8 blk = to_bytes 8 1 end.

Lemma open_ref s G a b k cap l :
  inv s G -> G !! a = Some (Ref b) -> G !! b = Some (Blk k cap l) -> nrefs G b = 1%nat ->
  exists blk, blk_rep k cap l blk /\ one_owner k blk /\ Forall byte blk /\
    inv s (<[b:=Raw true blk]> (<[a:=Raw false (words (b + hdr k) (zlen l) (capword k cap))]> G)).
Proof.
  intros Hi Ha Hb H1. assert (Hne : a <> b) by cells_ne.
  destruct (ref_mem s G a b Hi Ha) as (k' & cap' & l' & blk & Hb' & Hma & Hmb & Hh & Hr & Hc & Hbytes).
  rewrite Hb in Hb'. injection Hb' as <- <- <-. exists blk. rewrite H1 in Hc.
  split_and!; [done|by destruct k; [|apply Hc]|done|]. split; [apply Hi|..].
  - intros x v [[<- <-]|[Hxb [[<- <-]|[Hxa Hx]]%lookup_insert_Some]]%lookup_insert_Some.
    + by exists blk.
    + eexists. split; [exact Hma|]. by split.
    + destruct (inv_cells s G Hi x v Hx) as (bs & Hbs & Hok). exists bs. split; [done|].
      eapply cell_ok_frame, Hok; [..|done].
      * intros b' k' cap' l' -> Hb'. rewrite !lookup_insert_ne; [done|cells_ne|].
        intros <-. apply Hxa. symmetry. by eapply nrefs_unique.
      * intros (? & ? & ? & ->). erewrite !nrefs_insert; [done|done|..|by rewrite lookup_insert_ne|done|done]; [|done].
        intros [=]. congruence.
  - intros x Hx. rewrite !lookup_insert_is_Some'. right. right. by apply (inv_heap s G Hi).
Qed.

Lemma close_ref s G a h b k cap l blk :
  inv s G -> G !! a = Some (Raw h (words (b + hdr k) (zlen l) (capword k cap))) ->
  G !! b = Some (Raw true blk) -> a <> b -> blk_rep k cap l blk -> one_owner k blk ->
  inv s (<[a:=Ref b]> (<[b:=Blk k cap l]> G)).
Proof.
  intros Hi Ha Hb Hne Hr H1. pose proof (nrefs_zero s G b Hi) as H0. rewrite Hb in H0. specialize (H0 ltac:(done)).
  assert (Ha' : <[b:=Blk k cap l]> G !! a = Some (Raw h (words (b + hdr k) (zlen l) (capword k cap))))
    by by rewrite lookup_insert_ne.
  split; [apply Hi|..].
  - intros x v [[<- <-]|[Hxa [[<- <-]|[Hxb Hx]]%lookup_insert_Some]]%lookup_insert_Some.
    + eexists. split; [by eapply raw_mem|]. exists k, cap, l. split; [|done].
      rewrite lookup_insert_ne by done. by rewrite lookup_insert_eq.
    + destruct (inv_cells s G Hi b _ Hb) as (bs & Hbs & -> & Hh). exists blk. split; [done|].
      split; [by apply Hh|]. split; [done|]. erewrite nrefs_add by done. erewrite nrefs_insert by done.
      rewrite H0. by destruct k; [|split_and!].
    + destruct (inv_cells s G Hi x v Hx) as (bs & Hbs & Hok). exists bs. split; [done|].
      eapply cell_ok_frame, Hok; [..|done].
      * intros b' k' cap' l' -> Hb'. rewrite !lookup_insert_ne; [done|cells_ne|cells_ne].
      * intros (? & ? & ? & ->). erewrite nrefs_insert; [|done|done|congruence].
        by erewrite nrefs_insert.
  - intros x Hx. rewrite !lookup_insert_is_Some'. right. right. by apply (inv_heap s G Hi).
Qed.

(** Nothing happened to an opened string. *)
Lemma reclose_ref s G a b k cap l blk :
  G !! a = Some (Ref b) -> G !! b = Some (Blk k cap l) ->
  inv s (<[b:=Raw true blk]> (<[a:=Raw false (words (b + hdr k) (zlen l) (capword k cap))]> G)) ->
  blk_rep k cap l blk -> one_owner k blk -> inv s G.
Proof.
  intros Ha Hb Hi Hr Ho. assert (Hne : a <> b) by cells_ne.
  eapply (close_ref s _ a false b k cap l blk) in Hi;
    [|by rewrite lookup_insert_ne, lookup_insert_eq|by rewrite lookup_insert_eq|done|done|done].
  rewrite insert_insert_eq, (insert_insert_ne _ b a), insert_insert_eq, insert_insert_ne in Hi by done.
  by rewrite (insert_id G a (Ref b)), insert_id in Hi.
Qed.

(** One reference more or less, with the count in the allocation. *)
Lemma inv_recount s G a b cap l blk c c' :
  inv s G -> G !! b = Some (Blk Large cap l) -> mem s !! b = Some blk -> G !! a = Some c ->
  (forall b', c = Ref b' -> b' = b) -> (forall b', c' = Ref b' -> b' = b) ->
  (forall k cap l, c <> Blk k cap l) ->
  let n := nrefs (<[a:=c']> G) b in
  (1 <= n)%nat -> Z.of_nat n < 2 ^ 63 ->
  (exists bs, mem s !! a = Some bs /\ cell_ok (<[a:=c']> G) (heap s) a bs c') ->
  inv (set_region b (overwrite 0 (to_bytes 8 (Z.of_nat n)) blk) s) (<[a:=c']> G).
Proof.
  intros Hi Hb Hm Ha Hc Hc' HcB n Hn1 Hn Hnew. assert (Hne : a <> b) by (intros ->; naive_solver).
  destruct (inv_cells s G Hi b _ Hb) as (blk' & Hm' & Hh & [Hs Hroom Ht] & _). simplify_eq.
  unfold hdr, getDataOffset in *. pose proof (zlen_nonneg l).
  assert (Hl : 0 + zlen (to_bytes 8 (Z.of_nat n)) <= zlen blk) by (change (zlen (to_bytes 8 (Z.of_nat n))) with 8; lia).
  split.
  - eapply mem_ok_set; [apply Hi|done|by apply zlen_overwrite|].
    apply Forall_overwrite; [apply to_bytes_range|]. by eapply ok_bytes; [apply Hi|].
  - intros x v [[<- <-]|[Hxa Hx]]%lookup_insert_Some; simpl.
    { rewrite lookup_insert_ne by done. done. }
    destruct (decide (x = b)) as [->|Hxb].
    + rewrite Hb in Hx. injection Hx as <-. rewrite lookup_insert_eq.
      eexists. split; [done|]. split; [done|]. split; [split|].
      * done.
      * by rewrite zlen_overwrite.
      * unfold hdr, getDataOffset. rewrite slice_overwrite_after; [done|done|done|lia|done].
      * split_and!; [done..|]. exact (slice_overwrite 0 (to_bytes 8 (Z.of_nat n)) blk ltac:(done) Hl).
    + destruct (inv_cells s G Hi x v Hx) as (bs & Hbs & Hok). exists bs. rewrite lookup_insert_ne by done.
      split; [done|]. eapply cell_ok_frame, Hok; [..|done].
      * intros b' k' cap' l' -> Hb'. rewrite lookup_insert_ne; [done|]. intros <-. naive_solver.
      * intros (? & ? & ? & ->). eapply nrefs_insert; [done|naive_solver..].
  - intros x Hx. simpl in Hx. apply lookup_insert_is_Some'. right. by apply (inv_heap s G Hi).
Qed.
End OpenClose.

(** * FBString: the observers of the core

    What [category], [size], [capacity], [c_str], [isShared] and the members
    read from an object, in each of its three representations. *)

(** ** The three representations *)

Record is_small (s : Machine) (G : Ghost) (a : Z) (l : list Z) (d n c : Z) : Prop := {
  sm_obj : G !! a = Some (Small l);
  sm_mem : mem s !! a = Some (words d n c);
  sm_rep : small_rep (words d n c) l;
  sm_fits : fits 64 d /\ fits 64 n /\ fits 64 c }.

Record is_ml (s : Machine) (G : Ghost) (a b : Z) (k : Kind) (cap : Z) (l blk : list Z) : Prop := {
  ml_obj : G !! a = Some (Ref b);
  ml_blk : G !! b = Some (Blk k cap l);
  ml_words : mem s !! a = Some (words (b + hdr k) (zlen l) (capword k cap));
  ml_mem : mem s !! b = Some blk;
  ml_heap : b ∈ heap s;
  ml_rep : blk_rep k cap l blk;
  ml_count : counted k (nrefs G b) blk;
  ml_bytes : Forall byte blk;
  ml_bounds : 0 < b /\ 0 <= zlen l <= cap /\ b + hdr k + cap + 1 <= address_space }.

Lemma to_small s G a l : inv s G -> G !! a = Some (Small l) -> exists d n c, is_small s G a l d n c.
Proof.
  intros Hi Ha. destruct (small_mem s G a l Hi Ha) as (bs & Hbs & Hr & Hb).
  destruct (words_intro bs) as (d & n & c & ? & ? & ? & ->); [by apply Hr|done|].
  exists d, n, c. by split.
Qed.

Lemma to_ml s G a b :
  inv s G -> G !! a = Some (Ref b) -> exists k cap l blk, is_ml s G a b k cap l blk.
Proof.
  intros Hi Ha. destruct (ref_mem s G a b Hi Ha) as (k & cap & l & blk & ? & ? & ? & ? & ? & ? & ?).
  exists k, cap, l, blk. split; try done. by eapply blk_bounds.
Qed.

(** A string a client sees is in one of them. *)
Lemma view_cases s G a p l :
  inv s G -> view G a = Some (VStr p l) ->
  (p = a /\ exists d n c, is_small s G a l d n c) \/
  (exists b k cap blk, p = b + hdr k /\ is_ml s G a b k cap l blk).
Proof.
  intros Hi Hv. unfold view in Hv. destruct (G !! a) as [[l'|b| |]|] eqn:Ha; try done.
  - left. injection Hv as <- <-. split; [done|]. by apply to_small.
  - right. destruct (to_ml s G a b Hi Ha) as (k & cap & l' & blk & Hml).
    rewrite (ml_blk _ _ _ _ _ _ _ _ Hml) in Hv. injection Hv as <- <-. by exists b, k, cap, blk.
Qed.

Lemma small_view s G a l d n c : is_small s G a l d n c -> view G a = Some (VStr a l).
Proof. intros Hs. unfold view. by rewrite (sm_obj _ _ _ _ _ _ _ Hs). Qed.

Lemma ml_view s G a b k cap l blk : is_ml s G a b k cap l blk -> view G a = Some (VStr (b + hdr k) l).
Proof.
  intros Hm. unfold view. by rewrite (ml_obj _ _ _ _ _ _ _ _ Hm), (ml_blk _ _ _ _ _ _ _ _ Hm).
Qed.

Section Small.
Context (s : Machine) (G : Ghost) (a : Z) (l : list Z) (d n c : Z).
Context (Hm : mem_ok s) (Hs : is_small s G a l d n c).
Implicit Types (X : exn -> Machine -> Prop).

Lemma small_len : 0 <= zlen l <= 23.
Proof. pose proof (sm_rep _ _ _ _ _ _ _ Hs) as (_ & ? & _). pose proof (zlen_nonneg l). unfold maxSmallSize, lastChar in *. lia. Qed.

Lemma small_category_wp (Q : Z -> Machine -> Prop) X : Q isSmall s -> wp (category a) s Q X.
Proof.
  intros HQ. pose proof small_len. destruct (sm_rep _ _ _ _ _ _ _ Hs) as (_ & _ & Hl & _).
  eapply category_wp; [done|by apply Hs|exact Hl|].
  rewrite small_category; [done|]. unfold maxSmallSize, lastChar. lia.
Qed.

Lemma small_is_category_wp x (Q : bool -> Machine -> Prop) X :
  Q (bool_decide (isSmall = x)) s -> wp (is_category a x) s Q X.
Proof. intros HQ. apply wp_bind, small_category_wp. by apply wp_ret. Qed.

Lemma small_size_wp (Q : Z -> Machine -> Prop) X : Q (zlen l) s -> wp (size a) s Q X.
Proof.
  intros HQ. pose proof small_len. destruct (sm_rep _ _ _ _ _ _ _ Hs) as (_ & _ & Hl & _).
  apply wp_bind. eapply ml_size_wp; [done|by apply Hs|by apply Hs|].
  apply wp_bind. eapply load_byte_wp; [done|by apply Hs|done|exact Hl|]. apply wp_ret.
  unfold maxSmallSize, lastChar in *. replace (23 - (23 - zlen l)) with (zlen l) by lia.
  rewrite u64_small by lia. rewrite decide_True; [done|].
  unfold sext. rewrite (wrap_small 64) by (unfold fits; lia). case_decide; lia.
Qed.

Lemma small_smallSize_wp (Q : Z -> Machine -> Prop) X : Q (zlen l) s -> wp (smallSize a) s Q X.
Proof.
  intros HQ. pose proof small_len. destruct (sm_rep _ _ _ _ _ _ _ Hs) as (_ & _ & Hl & _).
  apply wp_bind, small_is_category_wp, wp_bind, wp_assert; [done|].
  apply wp_bind. eapply load_byte_wp; [done|by apply Hs|done|exact Hl|].
  unfold maxSmallSize, lastChar in *.
  assert (E : Z.shiftr (u64 (sext 8 (23 - zlen l))) 0 = 23 - zlen l).
  { rewrite Z.shiftr_0_r. unfold sext. rewrite (wrap_small 8) by (unfold fits; lia).
    rewrite decide_True by lia. apply u64_small. lia. }
  rewrite E. apply wp_bind, wp_assert; [apply bool_decide_eq_true; lia|].
  apply wp_ret. by replace (23 - (23 - zlen l)) with (zlen l) by lia.
Qed.

Lemma small_c_str_wp (Q : Z -> Machine -> Prop) X : Q a s -> wp (c_str a) s Q X.
Proof.
  intros HQ. apply wp_bind. eapply ml_data_wp; [done|by apply Hs|by apply Hs|].
  apply wp_bind, small_is_category_wp, wp_ret. done.
Qed.

Lemma small_capacity_wp (Q : Z -> Machine -> Prop) X : Q 23 s -> wp (fbcore_capacity a) s Q X.
Proof. intros HQ. apply wp_bind, small_category_wp. rewrite decide_True by done. by apply wp_ret. Qed.
End Small.

Section MediumLarge.
Context (s : Machine) (G : Ghost) (a b : Z) (k : Kind) (cap : Z) (l blk : list Z).
Context (Hm : mem_ok s) (Hml : is_ml s G a b k cap l blk).
Implicit Types (X : exn -> Machine -> Prop).

Lemma kind_cases : k = Medium \/ k = Large.
Proof. destruct k; auto. Qed.

Lemma ml_cap_bound : 0 <= cap < 2 ^ 47 /\ 0 <= zlen l <= cap /\ 0 < b < 2 ^ 47.
Proof.
  destruct (ml_bounds _ _ _ _ _ _ _ _ Hml) as (? & ? & ?). unfold address_space in *.
  destruct k; unfold hdr, getDataOffset in *; lia.
Qed.

Lemma ml_fits : fits 64 (b + hdr k) /\ fits 64 (zlen l) /\ fits 64 (capword k cap).
Proof.
  pose proof ml_cap_bound. split_and!; [| |apply capword_fits; lia]; unfold fits.
  all: destruct k; unfold hdr, getDataOffset; lia.
Qed.

Lemma ml_category_wp (Q : Z -> Machine -> Prop) X : Q (cat k) s -> wp (category a) s Q X.
Proof.
  intros HQ. pose proof ml_cap_bound. eapply category_wp; [done|by apply Hml|apply words_last|].
  rewrite capword_last by lia. by rewrite cat_category.
Qed.

Lemma ml_is_category_wp x (Q : bool -> Machine -> Prop) X :
  Q (bool_decide (cat k = x)) s -> wp (is_category a x) s Q X.
Proof. intros HQ. apply wp_bind, ml_category_wp. by apply wp_ret. Qed.

Lemma ml_data_of_wp (Q : Z -> Machine -> Prop) X : Q (b + hdr k) s -> wp (ml_data a) s Q X.
Proof. intros HQ. eapply ml_data_wp; [done|by apply Hml|apply ml_fits|done]. Qed.

Lemma ml_size_of_wp (Q : Z -> Machine -> Prop) X : Q (zlen l) s -> wp (ml_size a) s Q X.
Proof. intros HQ. eapply ml_size_wp; [done|by apply Hml|apply ml_fits|done]. Qed.

Lemma ml_cap_of_wp (Q : Z -> Machine -> Prop) X : Q cap s -> wp (MediumLarge_capacity a) s Q X.
Proof.
  intros HQ. pose proof ml_cap_bound. apply wp_bind.
  eapply ml_capacity__wp; [done|by apply Hml|apply ml_fits|]. apply wp_ret. by rewrite capword_cap by lia.
Qed.

Lemma ml_size_op_wp (Q : Z -> Machine -> Prop) X : Q (zlen l) s -> wp (size a) s Q X.
Proof.
  intros HQ. pose proof ml_cap_bound. apply wp_bind, ml_size_of_wp, wp_bind.
  eapply load_byte_wp; [done|by apply Hml|done|apply words_last|]. apply wp_ret.
  rewrite capword_last by lia. rewrite decide_False; [done|].
  destruct k; vm_compute; intuition discriminate.
Qed.

Lemma ml_c_str_wp (Q : Z -> Machine -> Prop) X : Q (b + hdr k) s -> wp (c_str a) s Q X.
Proof.
  intros HQ. apply wp_bind, ml_data_of_wp, wp_bind, ml_is_category_wp, wp_ret.
  rewrite bool_decide_eq_false_2; [done|]. by destruct k.
Qed.

Lemma ml_refs_wp (Q : Z -> Machine -> Prop) X :
  k = Large -> Q (Z.of_nat (nrefs G b)) s -> wp (refs (b + hdr k)) s Q X.
Proof.
  intros -> HQ. unfold refs, fromData, hdr. replace (b + getDataOffset - getDataOffset + 0) with (b + 0) by lia.
  destruct (ml_count _ _ _ _ _ _ _ _ Hml) as (_ & Hn & Hs). destruct (ml_rep _ _ _ _ _ _ _ _ Hml) as [? Hroom _].
  unfold hdr, getDataOffset in *. pose proof (zlen_nonneg l).
  eapply load64_wp; [done|by apply Hml|done|lia|exact Hs| |done]. unfold fits. lia.
Qed.

Lemma ml_isShared_wp (Q : bool -> Machine -> Prop) X :
  Q (bool_decide (nrefs G b <> 1%nat)) s -> wp (fbcore_isShared a) s Q X.
Proof.
  intros HQ. apply wp_bind, ml_category_wp. pose proof (ml_count _ _ _ _ _ _ _ _ Hml) as Hc.
  destruct kind_cases as [Ek|Ek]; rewrite Ek in Hc.
  - rewrite decide_False by by rewrite Ek. apply wp_ret. simpl in Hc. rewrite Hc in HQ. exact HQ.
  - rewrite decide_True by by rewrite Ek. apply wp_bind, ml_data_of_wp, wp_bind, ml_refs_wp; [done|].
    apply wp_ret. destruct Hc as (? & ? & _).
    erewrite bool_decide_ext; [exact HQ|]. lia.
Qed.

(** A shared allocation has no room. *)
Lemma ml_capacity_wp (Q : Z -> Machine -> Prop) X :
  Q (if decide (nrefs G b = 1%nat) then cap else zlen l) s -> wp (fbcore_capacity a) s Q X.
Proof.
  intros HQ. apply wp_bind, ml_category_wp. pose proof (ml_count _ _ _ _ _ _ _ _ Hml) as Hc.
  destruct kind_cases as [Ek|Ek]; rewrite Ek in Hc.
  all: rewrite decide_False by by rewrite Ek.
  all: apply wp_bind, ml_data_of_wp, wp_bind.
  - rewrite decide_False by by rewrite Ek. apply wp_ret. simpl in Hc. rewrite decide_True in HQ by done. by apply ml_cap_of_wp.
  - rewrite decide_True by by rewrite Ek. apply wp_bind, ml_refs_wp, wp_ret; [done|]. destruct Hc as (? & ? & _).
    case_bool_decide.
    + rewrite decide_False in HQ by lia. by apply ml_size_of_wp.
    + rewrite decide_True in HQ by lia. by apply ml_cap_of_wp.
Qed.
End MediumLarge.

(** ** The observers, whatever the representation *)

Section Observers.
Implicit Types (s : Machine) (G : Ghost) (X : exn -> Machine -> Prop).

Lemma size_wp s G a p l (Q : Z -> Machine -> Prop) X :
  inv s G -> view G a = Some (VStr p l) -> Q (zlen l) s -> wp (size a) s Q X.
Proof.
  intros Hi Hv HQ. destruct (view_cases s G a p l Hi Hv) as [(-> & d & n & c & Hs)|(b & k & cap & blk & -> & Hml)].
  - by eapply small_size_wp; [apply Hi|..].
  - by eapply ml_size_op_wp; [apply Hi|..].
Qed.

Lemma data_wp s G a p l (Q : Z -> Machine -> Prop) X :
  inv s G -> view G a = Some (VStr p l) -> Q p s -> wp (data a) s Q X.
Proof.
  intros Hi Hv HQ. destruct (view_cases s G a p l Hi Hv) as [(-> & d & n & c & Hs)|(b & k & cap & blk & -> & Hml)].
  - by eapply small_c_str_wp; [apply Hi|..].
  - by eapply ml_c_str_wp; [apply Hi|..].
Qed.

(** The characters and the terminator, at the address [data] returns. *)
Lemma text_load_wp s G a p l o n (Q : list Z -> Machine -> Prop) X :
  inv s G -> view G a = Some (VStr p l) -> 0 <= o -> 0 <= n -> o + n <= zlen l + 1 ->
  Q (slice o n (l ++ [0])) s -> wp (load_bytes (p + o) n) s Q X.
Proof.
  intros Hi Hv Ho Hn Hle HQ. pose proof (zlen_nonneg l).
  assert (Hcut : forall x r, 0 <= x -> slice x (zlen l + 1) r = l ++ [0] -> slice (x + o) n r = slice o n (l ++ [0])).
  { intros x r Hx <-. unfold slice at 2. rewrite drop_slice, take_slice by lia. done. }
  destruct (view_cases s G a p l Hi Hv) as [(-> & d & m & c & Hs)|(b & k & cap & blk & -> & Hml)].
  - destruct (sm_rep _ _ _ _ _ _ _ Hs) as (_ & Hmax & _ & Ht). unfold maxSmallSize, lastChar in Hmax.
    eapply load_bytes_wp; [apply Hi|by apply Hs|done|done|rewrite zlen_words; lia|].
    by rewrite <- (Z.add_0_l o), (Hcut 0).
  - destruct (ml_rep _ _ _ _ _ _ _ _ Hml) as [? ? Ht].
    assert (0 <= hdr k) by by destruct k. rewrite <- Z.add_assoc.
    eapply load_bytes_wp; [apply Hi|by apply Hml|lia|done|lia|]. by rewrite Hcut.
Qed.
End Observers.
