(* ===== verification/FBStringLife.v ===== *)
(** * FBString: construction, copy, move, swap and destruction of a core *)

From stdpp Require Import base list gmap strings.
From S2P Require Import Prelude Bits FBStringMem FBStringCore FBStringInv FBStringStep.

(** ** Small strings *)

Lemma slice_app_last (r l : list Z) n : 0 <= n -> slice 0 n r = l -> slice n 1 r = [0] -> slice 0 (n + 1) r = l ++ [0].
Proof. intros Hn H1 H2. rewrite slice_split by lia. by rewrite H1, Z.add_0_l, H2. Qed.

Lemma setSmallSize_rep bs n :
  zlen bs = 24 -> 0 <= n <= 23 ->
  small_rep (overwrite n [0] (overwrite 23 [23 - n] bs)) (slice 0 n bs).
Proof.
  intros Hl Hn. pose proof (zlen_slice 0 n bs ltac:(lia) ltac:(lia) ltac:(lia)) as Hs.
  assert (E1 : zlen [0] = 1) by done. assert (E2 : zlen [23 - n] = 1) by done.
  assert (Hl1 : zlen (overwrite 23 [23 - n] bs) = 24) by (rewrite zlen_overwrite; lia).
  split_and!; [by rewrite zlen_overwrite by lia|by rewrite Hs; unfold maxSmallSize, lastChar; lia|..].
  - rewrite Hs. unfold maxSmallSize, lastChar. destruct (decide (n = 23)) as [->|Hne].
    + rewrite <- E1. rewrite slice_overwrite by lia. done.
    + rewrite slice_overwrite_after by lia. rewrite <- E2. by rewrite slice_overwrite by lia.
  - rewrite Hs. apply slice_app_last; [lia|..].
    + rewrite slice_overwrite_before by lia. by rewrite slice_overwrite_before by lia.
    + rewrite <- E1. by rewrite slice_overwrite by lia.
Qed.

Lemma setSmallSize_wp s G a h bs n (Q : unit -> Machine -> Prop) X :
  inv s G -> G !! a = Some (Raw h bs) -> zlen bs = 24 -> 0 <= n <= 23 ->
  (forall s', inv s' (<[a:=Small (slice 0 n bs)]> G) -> Q tt s') -> wp (setSmallSize a n) s Q X.
Proof.
  intros Hi Ha Hl Hn HQ.
  apply wp_bind, wp_assert; [apply bool_decide_eq_true; unfold maxSmallSize, lastChar; lia|].
  unfold maxSmallSize, lastChar. rewrite Z.shiftl_0_r, u8_small by lia.
  apply wp_bind. eapply (raw_store_wp s G a h bs 23); [done|done|done|by rewrite Hl| |].
  { constructor; [unfold byte; lia|done]. }
  intros s1 Hi1 _.
  apply wp_bind. eapply (raw_store_wp s1 _ a h _ n); [done|by rewrite lookup_insert_eq|lia| | |].
  { change (zlen [0]) with 1. rewrite zlen_overwrite; [lia|done|by rewrite Hl]. }
  { by constructor. }
  intros s2 Hi2 _. rewrite insert_insert_eq in Hi2.
  eapply (close_small _ _ a) in Hi2; [|by rewrite lookup_insert_eq|by apply setSmallSize_rep].
  rewrite insert_insert_eq in Hi2.
  destruct (to_small s2 _ a (slice 0 n bs) Hi2) as (d & m & c & Hs); [by rewrite lookup_insert_eq|].
  apply wp_bind. eapply small_is_category_wp; [apply Hi2|done|].
  apply wp_bind. eapply small_size_wp; [apply Hi2|done|].
  apply wp_assert; [|by apply HQ]. rewrite zlen_slice by lia. by rewrite !bool_decide_eq_true_2.
Qed.

Lemma reset_wp s G a h bs (Q : unit -> Machine -> Prop) X :
  inv s G -> G !! a = Some (Raw h bs) -> zlen bs = 24 ->
  (forall s', inv s' (<[a:=Small []]> G) -> Q tt s') -> wp (reset a) s Q X.
Proof.
  intros Hi Ha Hl HQ. apply (setSmallSize_wp s G a h bs 0); [done|done|done|lia|].
  intros s'. rewrite slice_0. apply HQ.
Qed.

(** ** Whole objects *)

Definition ref_to (c : Cell) (b : Z) : nat := if decide (c = Ref b) then 1%nat else 0%nat.

Lemma nrefs_step G a c c' b :
  G !! a = Some c -> (nrefs (<[a:=c']> G) b + ref_to c b = nrefs G b + ref_to c' b)%nat.
Proof. intros Ha. exact (mcount_insert_old (is_ref b) G a c c' Ha). Qed.

(** Two objects trade what they hold. *)
Lemma inv_trade s s' G a g ca cg ca' cg' :
  inv s G -> a <> g -> G !! a = Some ca -> G !! g = Some cg ->
  ~ hidden (Some ca) -> ~ hidden (Some cg) ->
  (forall b, (ref_to ca b + ref_to cg b = ref_to ca' b + ref_to cg' b)%nat) ->
  mem_ok s' -> heap s' = heap s -> (forall x, x <> a -> x <> g -> mem s' !! x = mem s !! x) ->
  (exists bs, mem s' !! a = Some bs /\ cell_ok (<[a:=ca']> (<[g:=cg']> G)) (heap s) a bs ca') ->
  (exists bs, mem s' !! g = Some bs /\ cell_ok (<[a:=ca']> (<[g:=cg']> G)) (heap s) g bs cg') ->
  inv s' (<[a:=ca']> (<[g:=cg']> G)).
Proof.
  intros Hi Hne Ha Hg Hca Hcg Hrefs Hm Hh Hsame Hna Hng.
  assert (Hn : forall b, nrefs (<[a:=ca']> (<[g:=cg']> G)) b = nrefs G b).
  { intros b. specialize (Hrefs b). pose proof (nrefs_step G g cg cg' b Hg).
    pose proof (nrefs_step (<[g:=cg']> G) a ca ca' b ltac:(by rewrite lookup_insert_ne)). lia. }
  split; [done|..].
  - intros x v [[<- <-]|[Hxa [[<- <-]|[Hxg Hx]]%lookup_insert_Some]]%lookup_insert_Some; [by rewrite Hh..|].
    destruct (inv_cells s G Hi x v Hx) as (bs & Hbs & Hok). exists bs. rewrite Hsame by done. split; [done|].
    eapply cell_ok_frame, Hok; [| |by rewrite Hh].
    + intros b k cap l -> Hb. rewrite !lookup_insert_ne; [done|..].
      all: intros ->; simplify_eq; naive_solver.
    + done.
  - intros x Hx. rewrite Hh in Hx. rewrite !lookup_insert_is_Some'. right. right. by apply (inv_heap s G Hi).
Qed.

Lemma store_words_wp s a d n c d' n' c' (Q : unit -> Machine -> Prop) X :
  mem_ok s -> mem s !! a = Some (words d n c) ->
  (mem_ok (set_region a (words d' n' c') s) -> Q tt (set_region a (words d' n' c') s)) ->
  wp (set_ml_data a d';; set_ml_size a n';; store64 (a + 16) c') s Q X.
Proof.
  intros Hm Ha HQ.
  assert (Hset : forall s x y z x' y' z', mem_ok s -> mem s !! a = Some (words x y z) ->
            mem_ok (set_region a (words x' y' z') s)).
  { intros. eapply mem_ok_set; [done|done|done|apply words_byte]. }
  assert (Hget : forall r s, mem (set_region a r s) !! a = Some r) by (intros; simpl; by rewrite lookup_insert_eq).
  apply wp_bind. eapply store_bytes_wp; [done|done|done|done|]. rewrite words_set_data.
  apply wp_bind. eapply store_bytes_wp; [by eapply Hset|apply Hget|done|done|]. rewrite words_set_size.
  eapply store_bytes_wp; [by eapply Hset; [by eapply Hset|apply Hget]|apply Hget|done|done|].
  rewrite words_set_capacity. unfold set_region, set_mem in *. simpl in *. rewrite !insert_insert_eq.
  apply HQ. by eapply Hset.
Qed.

Lemma set_ml_wp s a g d n c d' n' c' (Q : unit -> Machine -> Prop) X :
  mem_ok s -> mem s !! a = Some (words d n c) -> mem s !! g = Some (words d' n' c') ->
  fits 64 d' -> fits 64 n' -> fits 64 c' ->
  (mem_ok (set_region a (words d' n' c') s) -> Q tt (set_region a (words d' n' c') s)) ->
  wp (set_ml a g) s Q X.
Proof.
  intros Hm Ha Hg ? ? ? HQ.
  apply wp_bind. eapply ml_data_wp; [done..|]. apply wp_bind. eapply ml_size_wp; [done..|].
  apply wp_bind. eapply ml_capacity__wp; [done..|]. by eapply store_words_wp.
Qed.

(** Every string object is three words. *)
Lemma str_words s G a p l :
  inv s G -> view G a = Some (VStr p l) ->
  exists ca d n c, G !! a = Some ca /\ (ca = Small l \/ exists b, ca = Ref b) /\
    mem s !! a = Some (words d n c) /\ fits 64 d /\ fits 64 n /\ fits 64 c /\
    cell_ok G (heap s) a (words d n c) ca.
Proof.
  intros Hi Hv. destruct (view_cases s G a p l Hi Hv) as [(-> & d & n & c & Hs)|(b & k & cap & blk & -> & Hml)].
  - destruct (sm_fits _ _ _ _ _ _ _ Hs) as (? & ? & ?). eexists _, d, n, c.
    split_and!; [by apply Hs|by left|by apply Hs|done..|by apply Hs].
  - pose proof (ml_fits _ _ _ _ _ _ _ _ Hml) as (? & ? & ?). eexists _, _, _, _.
    split_and!; [by apply Hml|eauto|by apply Hml|done..|]. exists k, cap, l. split; [by apply Hml|done].
Qed.

(** The string a cell at [a] is. *)
Definition moved (a p : Z) (c : Cell) : Z := match c with Small _ => a | _ => p end.

Lemma cell_ok_moved G G' hp b b' bs c :
  (c = Small (match c with Small l => l | _ => [] end) \/ exists x, c = Ref x) ->
  (forall x k cap l, c = Ref x -> G !! x = Some (Blk k cap l) -> G' !! x = Some (Blk k cap l)) ->
  cell_ok G hp b bs c -> cell_ok G' hp b' bs c.
Proof.
  intros [E|[x ->]] HR; [by rewrite E|]. simpl. intros (k & cap & l & Hx & ->). exists k, cap, l. eauto.
Qed.

(** ** Swap and move *)

Section Trade.
Implicit Types (s : Machine) (G : Ghost).

Lemma cell_shape l ca : ca = Small l \/ (exists b, ca = Ref b) ->
  (ca = Small (match ca with Small l => l | _ => [] end) \/ exists b, ca = Ref b) /\ ~ hidden (Some ca).
Proof. intros [->|[b ->]]; split; eauto. Qed.

Lemma ref_blk_ne s G a b x (c : Cell) :
  inv s G -> G !! a = Some (Ref b) -> G !! x = Some c -> ~ hidden (Some c) -> x <> b.
Proof.
  intros Hi Ha Hx Hc ->. destruct (inv_cells s G Hi a _ Ha) as (? & _ & k & cap & l & Hb & _).
  rewrite Hx in Hb. injection Hb as ->. by apply Hc.
Qed.

Lemma swap_wp s G a g pa la pg lg (Q : unit -> Machine -> Prop) X :
  inv s G -> a <> g -> view G a = Some (VStr pa la) -> view G g = Some (VStr pg lg) ->
  (forall s' ca cg, inv s' (<[a:=cg]> (<[g:=ca]> G)) -> G !! a = Some ca -> G !! g = Some cg -> Q tt s') ->
  wp (swap a g) s Q X.
Proof.
  intros Hi Hne Hva Hvg HQ.
  destruct (str_words s G a pa la Hi Hva) as (ca & d & n & c & Ha & Sa & Hma & ? & ? & ? & Ka).
  destruct (str_words s G g pg lg Hi Hvg) as (cg & d' & n' & c' & Hg & Sg & Hmg & ? & ? & ? & Kg).
  destruct (cell_shape la ca Sa) as [Sa' Va], (cell_shape lg cg Sg) as [Sg' Vg].
  pose proof (inv_mem s G Hi) as Hm.
  apply wp_bind. eapply ml_data_wp; [done..|]. apply wp_bind. eapply ml_size_wp; [done..|].
  apply wp_bind. eapply ml_capacity__wp; [done..|].
  apply wp_bind. eapply set_ml_wp; [done..|]. intros Hm1.
  eapply store_words_wp; [done|by simpl; rewrite lookup_insert_ne|]. intros Hm2.
  eapply HQ; [|done|done].
  assert (HR : forall x k cap l, G !! x = Some (Blk k cap l) -> <[a:=cg]> (<[g:=ca]> G) !! x = Some (Blk k cap l)).
  { intros x k cap l Hx. rewrite !lookup_insert_ne; [done|..]; intros ->; simplify_eq; naive_solver. }
  eapply inv_trade; [exact Hi|done|done|done|done|done| |done|done|..].
  - intros b. lia.
  - intros x Hxa Hxg. simpl. by rewrite !lookup_insert_ne.
  - eexists. simpl. rewrite lookup_insert_ne, lookup_insert_eq by done. split; [done|].
    eapply cell_ok_moved, Kg; [done|]. eauto.
  - eexists. simpl. rewrite lookup_insert_eq. split; [done|]. eapply cell_ok_moved, Ka; [done|]. eauto.
Qed.

Lemma nrefs_swap G a g ca cg b :
  a <> g -> G !! a = Some ca -> G !! g = Some cg -> nrefs (<[a:=cg]> (<[g:=ca]> G)) b = nrefs G b.
Proof.
  intros Hne Ha Hg. pose proof (nrefs_step G g cg ca b Hg).
  pose proof (nrefs_step (<[g:=ca]> G) a ca cg b ltac:(by rewrite lookup_insert_ne)). lia.
Qed.

Lemma core_move_wp s G a g h bs pg lg (Q : unit -> Machine -> Prop) X :
  inv s G -> G !! a = Some (Raw h bs) -> zlen bs = 24 -> view G g = Some (VStr pg lg) ->
  (forall s' cg, inv s' (<[a:=cg]> (<[g:=Small []]> G)) -> G !! g = Some cg -> Q tt s') ->
  wp (core_move a g) s Q X.
Proof.
  intros Hi Ha Hl Hvg HQ.
  destruct (str_words s G g pg lg Hi Hvg) as (cg & d' & n' & c' & Hg & Sg & Hmg & ? & ? & ? & Kg).
  assert (Hne : a <> g) by (intros ->; naive_solver).
  pose proof (inv_mem s G Hi) as Hm. pose proof (raw_mem s G a h bs Hi Ha) as Hma.
  destruct (words_intro bs Hl) as (d & n & c & _ & _ & _ & ->); [by eapply ok_bytes|].
  destruct (cell_shape lg cg Sg) as [Sg' Vg].
  apply wp_bind. eapply set_ml_wp; [done..|]. intros Hm1.
  assert (Hi1 : inv (set_region a (words d' n' c') s) (<[a:=cg]> (<[g:=Raw false (words d' n' c')]> G))).
  { assert (HR : forall x k cap l, G !! x = Some (Blk k cap l) ->
              <[a:=cg]> (<[g:=Raw false (words d' n' c')]> G) !! x = Some (Blk k cap l)).
    { intros x k cap l Hx. rewrite !lookup_insert_ne; [done|..]; intros ->; simplify_eq; naive_solver. }
    eapply inv_trade; [exact Hi|done|done|done|naive_solver|done| |done|done|..].
    - intros b. unfold ref_to. rewrite !(decide_False (P := Raw _ _ = Ref b)) by done. lia.
    - intros x Hxa Hxg. simpl. by rewrite lookup_insert_ne.
    - eexists. simpl. rewrite lookup_insert_eq. split; [done|]. eapply cell_ok_moved, Kg; [done|]. eauto.
    - eexists. simpl. rewrite lookup_insert_ne by done. by split. }
  eapply reset_wp; [exact Hi1|by rewrite lookup_insert_ne, lookup_insert_eq|done|].
  intros s' Hi'. eapply HQ; [|done].
  by rewrite (insert_insert_ne _ g a), insert_insert_eq in Hi' by done.
Qed.
End Trade.

(** ** Release *)

(** The object at [a] gives up its characters: an allocation of its own goes
    with it. *)
Inductive released (a : Z) (G : Ghost) (bs : list Z) : Ghost -> Prop :=
  | released_kept : released a G bs (<[a:=Raw false bs]> G)
  | released_freed b k cap l :
      G !! a = Some (Ref b) -> G !! b = Some (Blk k cap l) -> nrefs G b = 1%nat ->
      released a G bs (delete b (<[a:=Raw false bs]> G)).

Section Release.
Implicit Types (s : Machine) (G : Ghost).

Lemma released_raw G G' a bs : released a G bs G' -> G' !! a = Some (Raw false bs).
Proof.
  intros [|b k cap l Ha Hb Hn]; [by rewrite lookup_insert_eq|].
  rewrite lookup_delete_ne by cells_ne. by rewrite lookup_insert_eq.
Qed.

(** Raw regions stay. *)
Lemma released_other G G' a bs x h r :
  released a G bs G' -> x <> a -> G !! x = Some (Raw h r) -> G' !! x = Some (Raw h r).
Proof.
  intros [|b k cap l Ha Hb Hn] Hne Hx; [by rewrite lookup_insert_ne|].
  rewrite lookup_delete_ne by cells_ne. by rewrite lookup_insert_ne.
Qed.

Lemma released_frame s G G' a c bs :
  inv s G -> G !! a = Some c -> ~ hidden (Some c) -> released a G bs G' -> frame {[a]} G G'.
Proof.
  intros Hi Hc Hh Hrel. apply (frame_intro s); [done|..].
  { intros x ->%elem_of_singleton k cap l. rewrite Hc. intros [= ->]. by apply Hh. }
  intros x Hx%not_elem_of_singleton. destruct Hrel as [|b k cap l Ha Hb Hn].
  - left. by rewrite lookup_insert_ne.
  - destruct (decide (x = b)) as [->|Hxb].
    + right. rewrite Hb, lookup_delete_eq. split_and!; [done..|].
      intros y Hy%not_elem_of_singleton Ey. apply Hy. by eapply nrefs_unique.
    + left. by rewrite lookup_delete_ne, lookup_insert_ne.
Qed.

Lemma decrementRefs_wp s G a b cap l blk (Q : unit -> Machine -> Prop) X :
  inv s G -> is_ml s G a b Large cap l blk ->
  (forall s' G', inv s' G' -> released a G (words (b + hdr Large) (zlen l) (capword Large cap)) G' -> Q tt s') ->
  wp (decrementRefs (b + hdr Large)) s Q X.
Proof.
  intros Hi Hml HQ. pose proof (inv_mem s G Hi) as Hm. unfold decrementRefs, fromData, hdr.
  replace (b + getDataOffset - getDataOffset) with b by lia.
  destruct (ml_count _ _ _ _ _ _ _ _ Hml) as (H1 & H63 & Hs).
  destruct (ml_rep _ _ _ _ _ _ _ _ Hml) as [? Hroom _]. unfold hdr, getDataOffset in Hroom. pose proof (zlen_nonneg l).
  apply wp_bind. eapply load64_wp; [done|by apply Hml|done|lia|exact Hs|unfold fits; lia|].
  destruct (decide (nrefs G b = 1%nat)) as [En|En].
  - destruct (open_ref s G a b Large cap l Hi) as (blk' & Hr & Ho & Hb & Hi1); [by apply Hml|by apply Hml|done|].
    apply wp_bind. eapply raw_store_wp; [exact Hi1|by rewrite lookup_insert_eq|done| |apply to_bytes_range|].
    { destruct Hr as [? Hroom' _]. unfold hdr, getDataOffset in Hroom'. change (zlen (to_bytes 8 _)) with 8. lia. }
    intros s1 Hi2 _. apply wp_bind, wp_assert; [apply bool_decide_eq_true; lia|]. rewrite decide_True by lia.
    eapply free_wp; [exact Hi2|by rewrite lookup_insert_eq|]. intros s' Hi'. eapply HQ; [exact Hi'|].
    rewrite !delete_insert_eq. eapply released_freed; [by apply Hml|by apply Hml|done].
  - set (w := words (b + getDataOffset) (zlen l) (capword Large cap)).
    assert (Ed : nrefs G b = S (nrefs (<[a:=Raw false w]> G) b)) by (apply nrefs_drop; [by apply Hml|done]).
    apply wp_bind. eapply store_bytes_wp; [done|by apply Hml|done|change (zlen (to_bytes 8 _)) with 8; lia|].
    apply wp_bind, wp_assert; [apply bool_decide_eq_true; lia|]. rewrite decide_False by lia. apply wp_ret.
    rewrite u64_small by lia. replace (Z.of_nat (nrefs G b) - 1) with (Z.of_nat (nrefs (<[a:=Raw false w]> G) b)) by lia.
    apply HQ with (<[a:=Raw false w]> G); [|by apply released_kept].
    eapply inv_recount; [done|by apply Hml|by apply Hml|by apply Hml|naive_solver|done|done|lia|lia|].
    exists w. split; [by apply Hml|]. by split.
Qed.

Lemma core_dtor_wp s G a p l (Q : unit -> Machine -> Prop) X :
  inv s G -> view G a = Some (VStr p l) ->
  (forall s' G' bs, inv s' G' -> zlen bs = 24 -> released a G bs G' -> Q tt s') -> wp (core_dtor a) s Q X.
Proof.
  intros Hi Hv HQ. pose proof (inv_mem s G Hi) as Hm.
  destruct (view_cases s G a p l Hi Hv) as [(-> & d & n & c & Hs)|(b & k & cap & blk & -> & Hml)].
  - apply wp_bind. eapply small_is_category_wp; [done|done|]. apply wp_ret.
    destruct (open_small s G a l Hi (sm_obj _ _ _ _ _ _ _ Hs)) as (bs & _ & Hr & _ & Hi').
    eapply (HQ _ _ bs); [exact Hi'|by apply Hr|constructor].
  - apply wp_bind. eapply ml_is_category_wp; [done|done|].
    rewrite bool_decide_eq_false_2 by by destruct k.
    apply wp_bind. eapply ml_category_wp; [done|done|].
    apply wp_bind, wp_assert; [apply bool_decide_eq_true; by destruct k|].
    apply wp_bind. eapply ml_data_of_wp; [done|done|]. destruct k.
    + rewrite decide_True by done.
      destruct (open_ref s G a b Medium cap l Hi) as (blk' & Hr & Ho & Hb & Hi1);
        [by apply Hml|by apply Hml|exact (ml_count _ _ _ _ _ _ _ _ Hml)|].
      simpl. rewrite Z.add_0_r. eapply free_wp; [exact Hi1|by rewrite lookup_insert_eq|]. intros s' Hi'.
      eapply (HQ _ _ (words _ _ _)); [exact Hi'|done|]. rewrite delete_insert_eq.
      eapply released_freed; [by apply Hml|by apply Hml|exact (ml_count _ _ _ _ _ _ _ _ Hml)].
    + rewrite decide_False by done. eapply decrementRefs_wp; [done|done|]. intros s' G' Hi' Hrel. by eapply (HQ _ _ (words _ _ _)).
Qed.
End Release.
