(* ===== verification/FBStringInit.v ===== *)
(** * FBString: characters into a new core

    Where the characters a core copies come from, the two allocations a core can
    own, and the constructors that fill a core: from a range of characters, from
    another core, from an allocation of the caller. *)

From stdpp Require Import base list gmap strings.
From S2P Require Import Prelude Bits FBStringMem FBStringCore FBStringInv FBStringStep FBStringLife.

(** ** Sources *)

(** Where the bytes of a region start for a reader, and the bytes. *)
Definition readable (x : Z) (v : View) : Z * list Z :=
  match v with VStr q l => (q, l ++ [0]) | VRaw _ r => (x, r) end.

(** [bs] can be read at [p], in the buffer or in the string at [x]. *)
Definition source (G : Ghost) (x p : Z) (bs : list Z) : Prop :=
  exists v o, view G x = Some v /\ p = (readable x v).1 + o /\ 0 <= o /\
    o + zlen bs <= zlen (readable x v).2 /\ slice o (zlen bs) (readable x v).2 = bs.

Lemma source_intro G x v o n :
  view G x = Some v -> 0 <= o -> 0 <= n -> o + n <= zlen (readable x v).2 ->
  source G x ((readable x v).1 + o) (slice o n (readable x v).2).
Proof. intros Hv Ho Hn Hle. exists v, o. by rewrite zlen_slice. Qed.

Lemma source_str G x q l o n :
  view G x = Some (VStr q l) -> 0 <= o -> 0 <= n -> o + n <= zlen l + 1 ->
  source G x (q + o) (slice o n (l ++ [0])).
Proof. intros Hv Ho Hn Hle. apply (source_intro G x (VStr q l)); [done..|]. simpl. by rewrite zlen_app. Qed.

Lemma source_frame A G G' x p bs : frame A G G' -> x ∉ A -> source G x p bs -> source G' x p bs.
Proof. intros HF Hx (v & o & Hv & H). exists v, o. by rewrite (HF x Hx). Qed.

(** The region that holds it. *)
Lemma source_region s G x p bs :
  inv s G -> source G x p bs ->
  exists z r o, mem s !! z = Some r /\ p = z + o /\ 0 <= o /\ o + zlen bs <= zlen r /\ slice o (zlen bs) r = bs /\
    (z = x \/ exists k cap l, G !! z = Some (Blk k cap l)).
Proof.
  intros Hi ([q l|h r] & o & Hv & -> & Ho & Hle & Hs); simpl in *.
  - rewrite zlen_app in Hle. change (zlen [0]) with 1 in Hle. pose proof (zlen_nonneg bs).
    assert (Hcut : forall y t, 0 <= y -> slice y (zlen l + 1) t = l ++ [0] -> slice (y + o) (zlen bs) t = bs).
    { intros y t Hy E. rewrite <- E in Hs. unfold slice at 1 in Hs. by rewrite drop_slice, take_slice in Hs by lia. }
    destruct (view_cases s G x q l Hi Hv) as [(-> & d & n & c & Hsm)|(b & k & cap & blk & -> & Hml)].
    + destruct (sm_rep _ _ _ _ _ _ _ Hsm) as (Hl & Hmax & _ & Ht). unfold maxSmallSize, lastChar in Hmax.
      exists x, (words d n c), o. split_and!; [by apply Hsm|done|done|lia|by apply (Hcut 0)|by left].
    + destruct (ml_rep _ _ _ _ _ _ _ _ Hml) as [? ? Ht]. assert (0 <= hdr k) by by destruct k.
      exists b, blk, (hdr k + o).
      split_and!; [by apply Hml|lia|lia|lia|by apply Hcut|]. right. exists k, cap, l. apply Hml.
  - unfold view in Hv. destruct (G !! x) as [[|b|k cap l|h' r']|] eqn:Ex; try done.
    { by destruct (G !! b) as [[]|]. }
    injection Hv as -> ->. exists x, r, o. split_and!; [by eapply raw_mem|done..|by left].
Qed.

Lemma source_load_wp s G x p bs (Q : list Z -> Machine -> Prop) X :
  inv s G -> source G x p bs -> Q bs s -> wp (load_bytes p (zlen bs)) s Q X.
Proof.
  intros Hi Hs HQ. destruct (source_region s G x p bs Hi Hs) as (z & r & o & Hz & -> & Ho & Hle & E & _).
  pose proof (zlen_nonneg bs). eapply load_bytes_wp; [apply Hi|done|done|done|done|]. by rewrite E.
Qed.

Lemma source_byte s G x p bs : inv s G -> source G x p bs -> Forall byte bs.
Proof.
  intros Hi Hs. destruct (source_region s G x p bs Hi Hs) as (z & r & o & Hz & _ & _ & _ & <- & _).
  apply Forall_slice. by eapply ok_bytes; [apply Hi|].
Qed.

(** A source is apart from the raw regions that do not hold it. *)
Lemma source_apart s G x p bs y h r :
  inv s G -> source G x p bs -> G !! y = Some (Raw h r) -> x <> y ->
  p <> 0 /\ p + zlen bs <> 0 /\ (p + zlen bs <= y \/ y + zlen r <= p).
Proof.
  intros Hi Hs Hy Hne. destruct (source_region s G x p bs Hi Hs) as (z & t & o & Hz & -> & Ho & Hle & _ & Hzx).
  pose proof (inv_mem s G Hi) as Hm. pose proof (zlen_nonneg bs).
  assert (z <> y) by (destruct Hzx as [->|(k & cap & l & E)]; congruence).
  pose proof (ok_disjoint s Hm z t y r Hz (raw_mem _ _ _ _ _ Hi Hy) ltac:(done)).
  pose proof (ok_null s Hm z t Hz). lia.
Qed.

(** A region in free space hides nothing. *)
Lemma frame_new s G b c : inv s G -> G !! b = None -> frame {[b]} G (<[b:=c]> G).
Proof.
  intros Hi Hb. apply (frame_intro s); [done|..].
  - intros x ->%elem_of_singleton. by rewrite Hb.
  - intros x Hx%not_elem_of_singleton. left. by rewrite lookup_insert_ne.
Qed.

Lemma frame_raw s G b c c' :
  inv s G -> G !! b = Some c -> ~ hidden (Some c) -> frame {[b]} G (<[b:=c']> G).
Proof.
  intros Hi Hb Hc. apply (frame_intro s); [done|..].
  - intros x ->%elem_of_singleton k cap l. rewrite Hb. intros [= ->]. by apply Hc.
  - intros x Hx%not_elem_of_singleton. left. by rewrite lookup_insert_ne.
Qed.

Lemma frame_reraw s G b h r c' : inv s G -> G !! b = Some (Raw h r) -> frame {[b]} G (<[b:=c']> G).
Proof. intros Hi Hb. by apply (frame_raw s G b (Raw h r)); [..|intros []]. Qed.

Lemma source_new s G b c x p bs : inv s G -> G !! b = None -> source G x p bs -> source (<[b:=c]> G) x p bs.
Proof.
  intros Hi Hb Hs. eapply source_frame; [by eapply frame_new| |done].
  intros ->%elem_of_singleton. destruct Hs as (v & o & Hv & _). unfold view in Hv. by rewrite Hb in Hv.
Qed.

Lemma podCopy_wp s G x p e bs y h r o d (Q : unit -> Machine -> Prop) X :
  inv s G -> source G x p bs -> G !! y = Some (Raw h r) -> x <> y -> 0 <= o -> o + zlen bs <= zlen r ->
  e = p + zlen bs -> d = y + o ->
  (forall s', inv s' (<[y:=Raw h (overwrite o bs r)]> G) -> heap s' = heap s -> Q tt s') ->
  wp (podCopy p e d) s Q X.
Proof.
  intros Hi Hs Hy Hne Ho Hle -> -> HQ. pose proof (zlen_nonneg bs).
  destruct (source_apart s G x p bs y h r Hi Hs Hy Hne) as (Hp & He & Hd).
  pose proof (ok_null s (inv_mem _ _ Hi) y r (raw_mem _ _ _ _ _ Hi Hy)).
  do 5 (apply wp_bind, wp_assert; [apply bool_decide_eq_true; lia|]).
  replace (p + zlen bs - p) with (zlen bs) by lia.
  apply wp_bind, wp_assert; [apply bool_decide_eq_true; lia|].
  apply wp_bind. eapply source_load_wp; [done|done|].
  eapply raw_store_wp; [done|done|done|done|by eapply source_byte|done].
Qed.

(** The copy of the constructors, which skips an empty range. *)
Lemma copy_if_wp s G x p bs y h r o d (Q : unit -> Machine -> Prop) X :
  inv s G -> source G x p bs -> G !! y = Some (Raw h r) -> x <> y -> 0 <= o -> o + zlen bs <= zlen r ->
  d = y + o -> (forall s', inv s' (<[y:=Raw h (overwrite o bs r)]> G) -> Q tt s') ->
  wp (if decide (zlen bs > 0) then podCopy p (p + zlen bs) d else mret tt) s Q X.
Proof.
  intros Hi Hs Hy Hne Ho Hle Hd HQ. destruct (decide (zlen bs > 0)) as [_|Hz].
  - by eapply podCopy_wp; [..|intros s' Hi' _; apply HQ].
  - apply wp_ret, HQ. assert (bs = []) as -> by (destruct bs; [done|unfold zlen in Hz; simpl in Hz; lia]).
    by rewrite overwrite_nil, insert_id.
Qed.

(** ** Aligned characters, word by word *)

Lemma lookup_overwrite o (bs l : list Z) i :
  0 <= o -> o + zlen bs <= zlen l ->
  overwrite o bs l !! i =
    if decide (Z.to_nat o <= i < Z.to_nat o + length bs)%nat then bs !! (i - Z.to_nat o)%nat else l !! i.
Proof.
  intros Ho Hle. unfold overwrite, zlen in *.
  destruct (decide (Z.to_nat o <= i)%nat) as [Hge|Hlt].
  - rewrite lookup_app_r by (rewrite length_take; lia). rewrite length_take, Nat.min_l by lia.
    case_decide as Hi.
    + rewrite lookup_app_l by lia. done.
    + rewrite lookup_app_r by lia. rewrite lookup_drop. f_equal. lia.
  - rewrite lookup_app_l by (rewrite length_take; lia). rewrite decide_False by lia.
    rewrite lookup_take. by rewrite decide_True by lia.
Qed.

Lemma lookup_slice o n (r : list Z) i :
  slice o n r !! i = if decide (i < Z.to_nat n)%nat then r !! (Z.to_nat o + i)%nat else None.
Proof. unfold slice. rewrite lookup_take. case_decide; [by rewrite lookup_drop|done]. Qed.

(** A store inside a range, seen from the range. *)
Lemma slice_overwrite_in x n o (bs r : list Z) :
  0 <= x -> 0 <= o -> o + zlen bs <= n -> x + n <= zlen r ->
  slice x n (overwrite (x + o) bs r) = overwrite o bs (slice x n r).
Proof.
  intros Hx Ho Hle Hr. pose proof (zlen_nonneg bs). apply list_eq. intros i.
  rewrite lookup_slice, !lookup_overwrite, lookup_slice by (rewrite ?zlen_slice; lia).
  repeat case_decide; try lia; try done; [f_equal; lia|]. unfold zlen in *. lia.
Qed.

Lemma overwrite_app o (bs l r : list Z) :
  0 <= o -> o + zlen bs <= zlen l -> overwrite o bs (l ++ r) = overwrite o bs l ++ r.
Proof.
  intros Ho Hle. unfold overwrite, zlen in *. rewrite take_app_le, drop_app_le by lia. by rewrite <- !app_assoc.
Qed.

Lemma prefix_slice (bs r : list Z) :
  zlen bs <= zlen r -> (forall i, (i < length bs)%nat -> r !! i = bs !! i) -> slice 0 (zlen bs) r = bs.
Proof.
  intros Hle Hi. unfold slice, zlen in *. rewrite drop_0, Nat2Z.id.
  apply list_eq_same_length with (length bs); [done|rewrite length_take; lia|].
  intros i x y Hlt Hx Hy. rewrite lookup_take, decide_True in Hx by done. rewrite Hi in Hx by done. congruence.
Qed.

Section Peek.
Context `{Platform}.
Implicit Types (s : Machine) (G : Ghost).

Lemma peek_byte_wp s G x p bs i (Q : Z -> Machine -> Prop) X :
  inv s G -> source G x p bs ->
  (forall b, byte b -> ((i < length bs)%nat -> bs !! i = Some b) -> Q b s) ->
  wp (peek_byte (p + Z.of_nat i)) s Q X.
Proof.
  intros Hi Hs HQ. apply wp_bind, wp_get, wp_ret. pose proof (inv_mem s G Hi) as Hm.
  assert (Hnth : forall n r, Forall byte r -> byte (nth n r 0)).
  { intros n r Hr. destruct (decide (n < length r)%nat) as [Hn|Hn].
    - rewrite Forall_lookup in Hr. destruct (lookup_lt_is_Some_2 r n Hn) as [y Hy].
      rewrite (nth_lookup_Some _ _ _ _ Hy). by eapply Hr.
    - by rewrite nth_overflow by lia. }
  destruct (decide (i < length bs)%nat) as [Hlt|Hge].
  - destruct (source_region s G x p bs Hi Hs) as (z & r & o & Hz & -> & Ho & Hle & E & _).
    rewrite <- Z.add_assoc. rewrite (region_of_in s z r) by (done || (unfold zlen in *; lia)).
    replace (z + (o + Z.of_nat i) - z) with (o + Z.of_nat i) by lia.
    assert (Hb : bs !! i = r !! (Z.to_nat (o + Z.of_nat i))).
    { rewrite <- E. unfold slice, zlen. rewrite lookup_take, decide_True by lia. rewrite lookup_drop. f_equal. lia. }
    apply HQ; [by eapply Hnth, ok_bytes|]. intros _.
    destruct (lookup_lt_is_Some_2 bs i Hlt) as [y Hy]. rewrite Hy. f_equal.
    rewrite Hy in Hb. by rewrite (nth_lookup_Some _ _ _ _ (eq_sym Hb)).
  - apply HQ; [|lia]. destruct (region_of (mem s) (p + Z.of_nat i) 1) as [[b r]|] eqn:Er.
    + apply Hnth. unfold region_of in Er. destruct (list_find _ _) as [[j y]|] eqn:Ef; [|done].
      simpl in Er. injection Er as ->. apply list_find_Some in Ef as (Hl & _).
      apply list_elem_of_lookup_2, elem_of_map_to_list in Hl. by eapply ok_bytes.
    + apply (wrap_fits 8). lia.
Qed.

Lemma peek_bytes_wp n s G x p bs i (Q : list Z -> Machine -> Prop) X :
  inv s G -> source G x p bs ->
  (forall r, length r = n -> Forall byte r ->
     (forall j, (j < n)%nat -> (i + j < length bs)%nat -> r !! j = bs !! (i + j)%nat) -> Q r s) ->
  wp (peek_bytes n (p + Z.of_nat i)) s Q X.
Proof.
  intros Hi Hs. revert i Q. induction n as [|n IH]; intros i Q HQ.
  { apply wp_ret, HQ; [done..|]. intros j Hj. lia. }
  apply wp_bind. eapply peek_byte_wp; [done|done|]. intros b Hb Hbs.
  apply wp_bind. replace (p + Z.of_nat i + 1) with (p + Z.of_nat (S i)) by lia.
  apply IH. intros r Hl Hr Hj. apply wp_ret, HQ; [by simpl; rewrite Hl|by constructor|].
  intros [|j] Hlt Hle; simpl.
  - rewrite Nat.add_0_r in *. symmetry. by apply Hbs.
  - rewrite Hj by lia. f_equal. lia.
Qed.

(** One word of the three, when the characters reach it. *)
Lemma init_word_wp (j : nat) s G x p bs a h r (cond : Prop) `{Decision cond} (Q : unit -> Machine -> Prop) X :
  inv s G -> source G x p bs -> G !! a = Some (Raw h r) -> zlen r = 24 -> (j < 3)%nat ->
  (~ cond -> (length bs <= 8 * j)%nat) ->
  (forall s' r', inv s' (<[a:=Raw h r']> G) -> zlen r' = 24 ->
     (forall i, (8 * j <= i < 8 * j + 8)%nat -> (i < length bs)%nat -> r' !! i = bs !! i) ->
     (forall i, (i < 8 * j \/ 8 * j + 8 <= i)%nat -> r' !! i = r !! i) -> Q tt s') ->
  wp (if decide cond then w ← peek64 (p + 8 * Z.of_nat j); store64 (a + 8 * Z.of_nat j) w else mret tt) s Q X.
Proof.
  intros Hi Hs Ha Hl Hj Hno HQ. destruct (decide cond) as [Hc|Hc].
  - apply wp_bind, wp_bind. replace (8 * Z.of_nat j) with (Z.of_nat (8 * j)) by lia.
    eapply peek_bytes_wp; [done|done|]. intros w Hlw Hbw Hw. apply wp_ret.
    assert (Ew : to_bytes 8 (of_bytes w) = w) by (rewrite <- Hlw; by apply to_of_bytes).
    unfold store64. rewrite Ew.
    assert (Hfit : Z.of_nat (8 * j) + zlen w <= zlen r) by (unfold zlen at 1; lia).
    eapply raw_store_wp; [done|done|lia|done|done|]. intros s' Hi' _.
    eapply HQ; [exact Hi'|by rewrite zlen_overwrite by lia|..].
    + intros i Hij Hib. rewrite lookup_overwrite by lia. rewrite decide_True by lia.
      rewrite Hw by lia. f_equal. lia.
    + intros i Hij. rewrite lookup_overwrite by lia. by rewrite decide_False by lia.
  - apply wp_ret. eapply (HQ s r); [by rewrite insert_id|done|intros; specialize (Hno Hc); lia|done].
Qed.

Lemma initSmall_wp s G x p bs a h r (Q : unit -> Machine -> Prop) X :
  inv s G -> source G x p bs -> G !! a = Some (Raw h r) -> zlen r = 24 -> x <> a -> zlen bs <= 23 ->
  (forall s', inv s' (<[a:=Small bs]> G) -> Q tt s') ->
  wp (initSmall a p (zlen bs)) s Q X.
Proof.
  intros Hi Hs Ha Hl Hne Hsz HQ. pose proof (zlen_nonneg bs). apply wp_bind.
  assert (Hend : forall s' r', inv s' (<[a:=Raw h r']> G) -> zlen r' = 24 -> slice 0 (zlen bs) r' = bs ->
                   wp (setSmallSize a (zlen bs)) s' Q X).
  { intros s' r' Hi' Hl' Er. eapply setSmallSize_wp; [exact Hi'|by rewrite lookup_insert_eq|done|lia|].
    intros s2. rewrite Er, insert_insert_eq. apply HQ. }
  assert (HF : forall r', frame {[a]} G (<[a:=Raw h r']> G)) by (intros; eapply frame_raw; [done|done|by intros []]).
  assert (Hsrc : forall r', source (<[a:=Raw h r']> G) x p bs).
  { intros r'. eapply source_frame; [apply HF| |done]. by apply not_elem_of_singleton. }
  destruct (decide (Z.land p 7 = 0 /\ FBSTRING_SANITIZE_ADDRESS = false)) as [_|_].
  - apply wp_bind.
    eapply (init_word_wp 2 s G x p bs a h r); [done|done|done|done|lia| |].
    { intros Hno. unfold zlen in *. assert ((Z.of_nat (length bs) + 8 - 1) / 8 <> 3) by done. euclid. }
    intros s1 r1 Hi1 Hl1 H1 _. apply wp_bind.
    eapply (init_word_wp 1 s1 _ x p bs a h r1); [exact Hi1|done|by rewrite lookup_insert_eq|done|lia| |].
    { intros Hno. unfold zlen in *. assert ((Z.of_nat (length bs) + 8 - 1) / 8 < 2) by (euclid || lia). euclid. }
    intros s2 r2 Hi2 Hl2 H2 K2. rewrite insert_insert_eq in Hi2.
    rewrite <- (Z.add_0_r p).
    eapply (init_word_wp 0 s2 _ x p bs a h r2); [exact Hi2|done|by rewrite lookup_insert_eq|done|lia| |].
    { intros Hno. unfold zlen in *. assert ((Z.of_nat (length bs) + 8 - 1) / 8 < 1) by (euclid || lia). euclid. }
    intros s3 r3 Hi3 Hl3 H3 K3. rewrite insert_insert_eq in Hi3. eapply Hend; [exact Hi3|done|].
    apply prefix_slice; [lia|]. intros i Hlt. unfold zlen in *.
    destruct (decide (i < 8)%nat); [by apply H3; lia|]. rewrite K3 by lia.
    destruct (decide (i < 16)%nat); [by apply H2; lia|]. rewrite K2 by lia. apply H1; lia.
  - destruct (decide (zlen bs <> 0)) as [Hnz|Hz].
    + apply (podCopy_wp s G x p _ bs a h r 0); [done|done|done|done|done|lia|done|lia|]. intros s1 Hi1 _.
      eapply Hend; [exact Hi1|by rewrite zlen_overwrite by lia|]. apply slice_overwrite; lia.
    + apply wp_ret. eapply (Hend s r); [by rewrite insert_id|done|].
      assert (zlen bs = 0) as E by lia. rewrite E, slice_0. destruct bs; [done|unfold zlen in E; simpl in E; lia].
Qed.
End Peek.

(** ** Allocations filled with characters *)

Lemma blk_rep_copy k cap l r :
  zlen l <= cap -> hdr k + cap + 1 <= zlen r -> blk_rep k cap l (overwrite (hdr k) (l ++ [0]) r).
Proof.
  intros Hc Hr. pose proof (zlen_nonneg l). assert (0 <= hdr k) by by destruct k.
  pose proof (zlen_app l [0]) as E. change (zlen [0]) with 1 in E.
  split; [done|by rewrite zlen_overwrite by lia|]. rewrite <- E. apply slice_overwrite; lia.
Qed.

Lemma blk_rep_fill k cap l r :
  zlen l <= cap -> hdr k + cap + 1 <= zlen r ->
  blk_rep k cap l (overwrite (hdr k + zlen l) [0] (overwrite (hdr k) l r)).
Proof.
  intros Hc Hr. pose proof (zlen_nonneg l). assert (0 <= hdr k) by by destruct k. assert (E : zlen [0] = 1) by done.
  assert (Hl : zlen (overwrite (hdr k) l r) = zlen r) by (apply zlen_overwrite; lia).
  split; [done|rewrite zlen_overwrite; lia|]. rewrite slice_split by lia. f_equal.
  - rewrite slice_overwrite_before by lia. apply slice_overwrite; lia.
  - rewrite <- E at 1. apply slice_overwrite; lia.
Qed.

(** Writing past the header leaves the count. *)
Lemma one_owner_overwrite k o bs r :
  hdr k <= o -> o + zlen bs <= zlen r -> one_owner k r -> one_owner k (overwrite o bs r).
Proof.
  destruct k; [done|]. unfold hdr, getDataOffset. simpl. intros Ho Hle <-.
  pose proof (zlen_nonneg bs). apply slice_overwrite_before; lia.
Qed.

(** How many characters the string at [a] has room for. *)
Definition room (G : Ghost) (a : Z) : Z :=
  match G !! a with
  | Some (Ref b) => match G !! b with Some (Blk _ cap _) => cap | _ => 0 end
  | _ => maxSmallSize
  end.

(** The object at [a] has become a string [l] of its own, with room for [n]
    characters; nothing else changed. *)
Definition reserved (a : Z) (G : Ghost) (l : list Z) (n : Z) (s' : Machine) : Prop :=
  exists G' p, inv s' G' /\ frame {[a]} G G' /\ view G' a = Some (VStr p l) /\ exclusive G' a /\ n <= room G' a.

(** The same, in an allocation. *)
Definition ml_reserved (a : Z) (G : Ghost) (l : list Z) (n : Z) (s' : Machine) : Prop :=
  exists G' p b, inv s' G' /\ frame {[a]} G G' /\ view G' a = Some (VStr p l) /\ exclusive G' a /\ n <= room G' a /\
    G' !! a = Some (Ref b).

Lemma ml_reserved_reserved a G l n s' : ml_reserved a G l n s' -> reserved a G l n s'.
Proof. intros (G' & p & b & ? & ? & ? & ? & ? & _). by exists G', p. Qed.

Definition becomes (a : Z) (G : Ghost) (l : list Z) (s' : Machine) : Prop :=
  exists G' p, inv s' G' /\ frame {[a]} G G' /\ view G' a = Some (VStr p l) /\ exclusive G' a.

Lemma reserved_becomes a G l n s' : reserved a G l n s' -> becomes a G l s'.
Proof. intros (G' & p & ? & ? & ? & ? & _). by exists G', p. Qed.

Lemma becomes_small s s' G a l c :
  inv s G -> G !! a = Some c -> ~ hidden (Some c) -> inv s' (<[a:=Small l]> G) -> becomes a G l s'.
Proof.
  intros Hi Ha Hc Hi'. exists (<[a:=Small l]> G), a. split; [done|]. split; [by eapply frame_raw|].
  unfold view, exclusive. by rewrite lookup_insert_eq.
Qed.

(** An object and an allocation become a string. *)
Lemma reserved_ref s' G G1 a b h k cap l blk :
  inv s' G1 -> frame {[a; b]} G G1 -> view G b = None -> a <> b ->
  G1 !! a = Some (Raw h (words (b + hdr k) (zlen l) (capword k cap))) -> G1 !! b = Some (Raw true blk) ->
  blk_rep k cap l blk -> one_owner k blk -> ml_reserved a G l cap s'.
Proof.
  intros Hi1 HF Hb Hne Ha1 Hb1 Hr Ho. pose proof (nrefs_zero s' G1 b Hi1) as H0.
  rewrite Hb1 in H0. specialize (H0 ltac:(done)).
  set (G' := <[a:=Ref b]> (<[b:=Blk k cap l]> G1)).
  assert (Ea : G' !! a = Some (Ref b)) by (unfold G'; by rewrite lookup_insert_eq).
  assert (Eb : G' !! b = Some (Blk k cap l)) by (unfold G'; by rewrite lookup_insert_ne, lookup_insert_eq).
  exists G', (b + hdr k), b. split; [by eapply close_ref|]. split; [|split_and!].
  - assert (HF1 : frame {[a; b]} G1 G').
    { apply (frame_intro s'); [done|..].
      - intros x Hx. assert (x = a \/ x = b) as [-> | ->] by set_solver; congruence.
      - intros x Hx. left. unfold G'. rewrite !lookup_insert_ne; [done|set_solver..]. }
    intros x Hx%not_elem_of_singleton. destruct (decide (x = b)) as [->|Hxb].
    + rewrite Hb. unfold view. by rewrite Eb.
    + apply (frame_trans _ _ _ _ HF HF1). set_solver.
  - unfold view. by rewrite Ea, Eb.
  - unfold exclusive. rewrite Ea. unfold G'.
    erewrite nrefs_add; [|by rewrite lookup_insert_ne|done]. by erewrite nrefs_insert, H0.
  - unfold room. by rewrite Ea, Eb.
  - done.
Qed.

Lemma becomes_ref s s' G G1 a b h k cap l blk c :
  inv s G -> G !! a = Some c -> ~ hidden (Some c) -> G !! b = None ->
  inv s' G1 -> (forall x, x <> a -> x <> b -> G1 !! x = G !! x) ->
  G1 !! a = Some (Raw h (words (b + hdr k) (zlen l) (capword k cap))) -> G1 !! b = Some (Raw true blk) ->
  blk_rep k cap l blk -> one_owner k blk -> becomes a G l s'.
Proof.
  intros Hi Ha Hc Hb Hi1 Hsame Ha1 Hb1 Hr Ho. apply reserved_becomes with cap, ml_reserved_reserved.
  eapply reserved_ref; [done| |unfold view; by rewrite Hb|cells_ne|done..].
  apply (frame_intro s); [done|..].
  - intros x Hx. assert (x = a \/ x = b) as [-> | ->] by set_solver; [|by rewrite Hb].
    intros ? ? ?. rewrite Ha. intros [= ->]. by apply Hc.
  - intros x Hx. left. apply Hsame; set_solver.
Qed.

Section Init.
Context `{Platform}.
Implicit Types (s : Machine) (G : Ghost).

Lemma refcounted_create_wp s G size (Q : Z * Z -> Machine -> Prop) (X : exn -> Machine -> Prop) :
  inv s G -> 0 <= size <= max_request ->
  (forall s' rc r cap, inv s' (<[rc:=Raw true r]> G) -> G !! rc = None -> 0 < rc ->
     hdr Large + cap + 1 = zlen r -> size <= cap < 2 ^ 47 -> one_owner Large r -> Q (rc, cap) s') ->
  (forall s', inv s' G -> X bad_alloc s') ->
  wp (RefCounted_create size) s Q X.
Proof.
  intros Hi Hs HQ HX. unfold getDataOffset.
  assert (Hsz : 8 + (size + 1) <= goodMallocSize (8 + (size + 1)) < 2 ^ 62)
    by (apply goodMallocSize_ge; unfold max_request, address_space in *; lia).
  unfold RefCounted_create, getDataOffset. unfold max_request, address_space in Hs. rewrite !(u64_small (size + 1)), (u64_small (8 + _)) by lia.
  set (n := goodMallocSize (8 + (size + 1))) in *.
  apply wp_bind, (checkedMalloc_wp s G n); [done| |done]. intros s1 b r Hi1 Hb Hpos Htop Hl.
  apply wp_bind. eapply raw_store_wp; [exact Hi1|by rewrite lookup_insert_eq|done| |apply to_bytes_range|].
  { change (zlen (to_bytes 8 1)) with 8. lia. }
  intros s2 Hi2 _. rewrite insert_insert_eq in Hi2. apply wp_ret.
  rewrite (u64_small (n - 8)), (u64_small (n - 8 - 1)) by lia. unfold address_space in Htop.
  assert (Hz : 0 + zlen (to_bytes 8 1) <= zlen r) by (change (zlen (to_bytes 8 1)) with 8; lia).
  eapply HQ; [exact Hi2|done|done| |lia|].
  - rewrite zlen_overwrite by done. unfold hdr, getDataOffset. lia.
  - exact (slice_overwrite 0 (to_bytes 8 1) r ltac:(done) Hz).
Qed.

(** What a core of at most [n] characters needs of the allocator. *)
Lemma medium_alloc n : 0 <= n <= address_space -> 1 + n <= goodMallocSize (u64 (1 + n)) < 2 ^ 62.
Proof.
  intros Hn. unfold address_space in Hn. rewrite u64_small by lia. apply goodMallocSize_ge. unfold address_space. lia.
Qed.

Lemma initMedium_wp s G x p bs a h r (Q : unit -> Machine -> Prop) (X : exn -> Machine -> Prop) :
  inv s G -> source G x p bs -> G !! a = Some (Raw h r) -> zlen r = 24 -> x <> a -> zlen bs < address_space ->
  (forall s', becomes a G bs s' -> Q tt s') -> (forall s', inv s' G -> X bad_alloc s') ->
  wp (initMedium a p (zlen bs)) s Q X.
Proof.
  intros Hi Hs Ha Hl Hne Hsz HQ HX. pose proof (zlen_nonneg bs).
  pose proof (medium_alloc (zlen bs) ltac:(lia)) as Hn. unfold initMedium.
  set (n := goodMallocSize (u64 (1 + zlen bs))) in *.
  destruct (words_intro r Hl) as (d & m & c & _ & _ & _ & ->);
    [by eapply ok_bytes; [apply Hi|by eapply raw_mem]|].
  apply wp_bind, (checkedMalloc_wp s G n); [done| |done]. intros s1 b r Hi1 Hb Hpos Htop Hlr.
  assert (Hab : a <> b) by congruence.
  apply wp_bind. eapply set_data_wp; [exact Hi1|by rewrite lookup_insert_ne|]. intros s2 Hi2 _.
  set (G2 := <[a:=Raw h (words b m c)]> (<[b:=Raw true r]> G)) in *.
  assert (Hs2 : source G2 x p bs).
  { eapply source_frame; [eapply (frame_raw s1); [exact Hi1|by rewrite lookup_insert_ne|by intros []]| |].
    - by apply not_elem_of_singleton.
    - by eapply source_new. }
  assert (Hxb : x <> b) by (intros ->; destruct Hs as (v & ? & Hv & _); unfold view in Hv; by rewrite Hb in Hv).
  apply wp_bind.
  eapply (copy_if_wp s2 G2 x p bs b true r 0); [done|done|by unfold G2; rewrite lookup_insert_ne, lookup_insert_eq|done|done|lia|lia|].
  intros s3 Hi3. unfold address_space in *.
  apply wp_bind. eapply set_size_wp; [exact Hi3|by unfold G2; rewrite lookup_insert_ne, lookup_insert_eq|].
  intros s4 Hi4 _. apply wp_bind. rewrite (u64_small (n - 1)) by lia.
  eapply (set_capacity_wp s4 _ a); [exact Hi4|by rewrite lookup_insert_eq|]. intros s5 Hi5 _.
  rewrite insert_insert_eq in Hi5.
  eapply raw_store_wp; [exact Hi5|by rewrite lookup_insert_ne, lookup_insert_eq|done| |by constructor|].
  { change (zlen [0]) with 1. rewrite zlen_overwrite; lia. }
  intros s6 Hi6 _. apply HQ. eapply (becomes_ref s s6 G _ a b h Medium (n - 1) bs);
    [done|done|by intros []|done|exact Hi6| | | | |done].
  - intros y Hya Hyb. unfold G2. by rewrite !lookup_insert_ne.
  - rewrite lookup_insert_ne, lookup_insert_eq by done. simpl. rewrite Z.add_0_r. done.
  - by rewrite lookup_insert_eq.
  - apply (blk_rep_fill Medium); simpl; lia.
Qed.

Lemma source_alloc s s1 G a b r h w w' x p bs :
  inv s G -> inv s1 (<[b:=Raw true r]> G) -> G !! b = None -> G !! a = Some (Raw h w) -> x <> a ->
  source G x p bs -> x <> b /\ source (<[a:=Raw h w']> (<[b:=Raw true r]> G)) x p bs.
Proof.
  intros Hi Hi1 Hb Ha Hxa Hs. split.
  - intros ->. destruct Hs as (v & ? & Hv & _). unfold view in Hv. by rewrite Hb in Hv.
  - eapply source_frame; [eapply (frame_raw s1); [exact Hi1|rewrite lookup_insert_ne by congruence; done|by intros []]| |].
    + by apply not_elem_of_singleton.
    + by eapply source_new.
Qed.

Lemma initLarge_wp s G x p bs a h r (Q : unit -> Machine -> Prop) (X : exn -> Machine -> Prop) :
  inv s G -> source G x p bs -> G !! a = Some (Raw h r) -> zlen r = 24 -> x <> a -> zlen bs < address_space ->
  (forall s', becomes a G bs s' -> Q tt s') -> (forall s', inv s' G -> X bad_alloc s') ->
  wp (initLarge a p (zlen bs)) s Q X.
Proof.
  intros Hi Hs Ha Hl Hne Hsz HQ HX. pose proof (zlen_nonneg bs).
  destruct (words_intro r Hl) as (d & m & c & _ & _ & _ & ->);
    [by eapply ok_bytes; [apply Hi|by eapply raw_mem]|].
  apply wp_bind, wp_bind, (refcounted_create_wp s G (zlen bs)); [done|unfold max_request, address_space in *; lia| |done].
  intros s1 b r cap Hi1 Hb Hpos Hlr Hcap Hone. unfold hdr, getDataOffset in *.
  assert (Hab : a <> b) by congruence.
  destruct (source_alloc s s1 G a b r h _ (words d m c) x p bs Hi Hi1 Hb Ha Hne Hs) as [Hxb Hs1].
  rewrite (insert_id (<[b:=Raw true r]> G) a) in Hs1 by by rewrite lookup_insert_ne.
  apply wp_bind.
  eapply (copy_if_wp s1 _ x p bs b true r 8); [done|done|by rewrite lookup_insert_eq|done|done|lia|done|].
  intros s2 Hi2. rewrite insert_insert_eq in Hi2. apply wp_ret. cbv beta iota.
  apply wp_bind. eapply set_data_wp; [exact Hi2|by rewrite lookup_insert_ne|]. intros s3 Hi3 _.
  apply wp_bind. eapply set_size_wp; [exact Hi3|by rewrite lookup_insert_eq|]. intros s4 Hi4 _. rewrite insert_insert_eq in Hi4.
  apply wp_bind. eapply (set_capacity_wp s4 _ a); [exact Hi4|by rewrite lookup_insert_eq|]. intros s5 Hi5 _.
  rewrite insert_insert_eq in Hi5. rewrite <- Z.add_assoc.
  assert (Hlo : zlen (overwrite 8 bs r) = zlen r) by (apply zlen_overwrite; lia).
  eapply raw_store_wp; [exact Hi5|by rewrite lookup_insert_ne, lookup_insert_eq|unfold getDataOffset; lia| |by constructor|].
  { unfold getDataOffset. change (zlen [0]) with 1. rewrite Hlo. lia. }
  intros s6 Hi6 _. apply HQ. eapply (becomes_ref s s6 G _ a b h Large cap bs);
    [done|done|by intros []|done|exact Hi6| | | | |].
  - intros y Hya Hyb. by rewrite !lookup_insert_ne.
  - by rewrite lookup_insert_ne, lookup_insert_eq by done.
  - by rewrite lookup_insert_eq.
  - apply (blk_rep_fill Large); unfold hdr, getDataOffset; lia.
  - unfold getDataOffset. apply one_owner_overwrite; [unfold hdr, getDataOffset; lia|change (zlen [0]) with 1; lia|].
    by apply one_owner_overwrite; [|lia|].
Qed.

(** [fbstring_core(data, size, disableSSO)]. *)
Lemma core_init_wp s G x p bs a h r dis (Q : unit -> Machine -> Prop) (X : exn -> Machine -> Prop) :
  inv s G -> source G x p bs -> G !! a = Some (Raw h r) -> zlen r = 24 -> x <> a -> zlen bs < address_space ->
  (forall s', becomes a G bs s' -> Q tt s') -> (forall s', inv s' G -> X bad_alloc s') ->
  wp (core_init a p (zlen bs) dis) s Q X.
Proof.
  intros Hi Hs Ha Hl Hne Hsz HQ HX. apply wp_bind.
  assert (Hend : forall s', becomes a G bs s' ->
    wp (n ← size a; FBSTRING_ASSERT (bool_decide (n = zlen bs))) s' Q X).
  { intros s' Hb. pose proof Hb as (G' & q & Hi' & _ & Hv & _). apply wp_bind.
    eapply size_wp; [done|done|]. apply wp_assert; [by apply bool_decide_eq_true|by apply HQ]. }
  destruct (decide (dis = false /\ zlen bs <= maxSmallSize)) as [[_ Hm]|_]; [|destruct (decide (zlen bs <= maxMediumSize))].
  - unfold maxSmallSize, lastChar in Hm. eapply initSmall_wp; [done..|]. intros s' Hi'. apply Hend.
    by eapply becomes_small; [done|done|intros []|].
  - by eapply initMedium_wp.
  - by eapply initLarge_wp.
Qed.
End Init.

(** * FBString: copies of a core, and the acquisition of an allocation *)

(** The object at [a] has become a string [l]; nothing else changed. *)
Definition copied (a : Z) (G : Ghost) (l : list Z) (s' : Machine) : Prop :=
  exists G' p, inv s' G' /\ frame {[a]} G G' /\ view G' a = Some (VStr p l).

Lemma becomes_copied a G l s' : becomes a G l s' -> copied a G l s'.
Proof. intros (G' & p & ? & ? & ? & _). by exists G', p. Qed.

(** A reference count never reaches [2^63] while there are fewer regions. *)
Definition countable (G : Ghost) : Prop := Z.of_nat (base.size G) < 2 ^ 62.

Lemma nrefs_countable G b : countable G -> Z.of_nat (nrefs G b) < 2 ^ 62.
Proof.
  intros Hc. unfold countable in Hc. unfold nrefs, mcount.
  pose proof (map_subseteq_size (filter (is_ref b) G) G (map_filter_subseteq _ _)). lia.
Qed.

Section Copy.
Context `{Platform}.
Implicit Types (s : Machine) (G : Ghost).

Lemma copySmall_wp s G a x h r l (Q : unit -> Machine -> Prop) X :
  inv s G -> G !! a = Some (Raw h r) -> zlen r = 24 -> G !! x = Some (Small l) ->
  (forall s', becomes a G l s' -> Q tt s') -> wp (copySmall a x) s Q X.
Proof.
  intros Hi Ha Hl Hx HQ. assert (Hne : a <> x) by cells_ne.
  destruct (to_small s G x l Hi Hx) as (d' & n' & c' & Hs). destruct (sm_fits _ _ _ _ _ _ _ Hs) as (? & ? & ?).
  destruct (words_intro r Hl) as (d & n & c & _ & _ & _ & ->);
    [by eapply ok_bytes; [apply Hi|by eapply raw_mem]|].
  apply wp_bind. eapply set_ml_wp; [apply Hi|by eapply raw_mem|by apply Hs|done..|]. intros _.
  pose proof (inv_raw_set s G a h _ (words d' n' c') Hi Ha eq_refl (words_byte _ _ _)) as Hi1.
  eapply (close_small _ _ a h _ l) in Hi1; [|by rewrite lookup_insert_eq|by apply Hs]. rewrite insert_insert_eq in Hi1.
  assert (Hv : view (<[a:=Small l]> G) a = Some (VStr a l)) by (unfold view; by rewrite lookup_insert_eq).
  assert (Hvx : view (<[a:=Small l]> G) x = Some (VStr x l)) by (unfold view; rewrite lookup_insert_ne by done; by rewrite Hx).
  destruct (to_small _ _ a l Hi1) as (d1 & n1 & c1 & Hs1); [by rewrite lookup_insert_eq|].
  apply wp_bind. eapply small_is_category_wp; [apply Hi1|done|].
  apply wp_bind. eapply size_wp; [exact Hi1|done|]. apply wp_bind. eapply size_wp; [exact Hi1|done|].
  apply wp_assert; [by rewrite !bool_decide_eq_true_2|]. apply HQ. by eapply becomes_small; [done|done|intros []|].
Qed.

Lemma copyMedium_wp s G a x b h r cap l blk (Q : unit -> Machine -> Prop) (X : exn -> Machine -> Prop) :
  inv s G -> G !! a = Some (Raw h r) -> zlen r = 24 -> is_ml s G x b Medium cap l blk ->
  (forall s', becomes a G l s' -> Q tt s') -> (forall s', inv s' G -> X bad_alloc s') ->
  wp (copyMedium a x) s Q X.
Proof.
  intros Hi Ha Hl Hml HQ HX. pose proof (ml_cap_bound _ _ _ _ _ _ _ _ Hml) as (Hcap & Hln & _).
  pose proof (ml_obj _ _ _ _ _ _ _ _ Hml) as Hx. pose proof (ml_blk _ _ _ _ _ _ _ _ Hml) as Hbk.
  pose proof (ml_view _ _ _ _ _ _ _ _ Hml) as Hv. assert (Hxa : x <> a) by cells_ne.
  assert (Eapp : zlen (l ++ [0]) = zlen l + 1) by (rewrite zlen_app; done).
  pose proof (medium_alloc (zlen l) ltac:(unfold address_space; lia)) as Hn.
  apply wp_bind. eapply ml_size_of_wp; [apply Hi|done|].
  set (n := goodMallocSize (u64 (1 + zlen l))) in *.
  destruct (words_intro r Hl) as (d & m & c & _ & _ & _ & ->);
    [by eapply ok_bytes; [apply Hi|by eapply raw_mem]|].
  apply wp_bind, (checkedMalloc_wp s G n); [done| |done]. intros s1 p r Hi1 Hp Hpos Htop Hlr.
  assert (Hs : source G x (b + hdr Medium) (l ++ [0])).
  { pose proof (source_str G x (b + hdr Medium) l 0 (zlen l + 1) Hv) as Hs. rewrite <- Eapp, slice_full, Z.add_0_r in Hs.
    apply Hs; lia. }
  destruct (source_alloc s s1 G a p r h _ (words p m c) x _ (l ++ [0]) Hi Hi1 Hp Ha Hxa Hs) as [Hxp Hs1].
  assert (Hap : a <> p) by congruence.
  apply wp_bind. eapply set_data_wp; [exact Hi1|by rewrite lookup_insert_ne|]. intros s2 Hi2 _.
  destruct (to_ml s2 _ x b Hi2) as (k2 & cap2 & l2 & blk2 & Hml2); [by rewrite !lookup_insert_ne|].
  pose proof (ml_blk _ _ _ _ _ _ _ _ Hml2) as Hbk2. rewrite !lookup_insert_ne in Hbk2 by cells_ne.
  rewrite Hbk in Hbk2. injection Hbk2 as <- <- <-.
  apply wp_bind. eapply ml_data_of_wp; [apply Hi2|done|].
  apply wp_bind. eapply (podCopy_wp s2 _ x (b + hdr Medium) _ (l ++ [0]) p true r 0);
    [done|done|by rewrite lookup_insert_ne, lookup_insert_eq|done|done|lia|lia|lia|].
  intros s3 Hi3 _. apply wp_bind. eapply set_size_wp; [exact Hi3|by rewrite lookup_insert_ne, lookup_insert_eq|].
  intros s4 Hi4 _. apply wp_bind. unfold address_space in Htop. rewrite (u64_small (n - 1)) by lia.
  eapply (set_capacity_wp s4 _ a); [exact Hi4|by rewrite lookup_insert_eq|]. intros s5 Hi5 _. rewrite insert_insert_eq in Hi5.
  apply wp_bind, wp_bind. eapply category_wp; [apply Hi5|eapply raw_mem; [exact Hi5|by rewrite lookup_insert_eq]|apply words_last|].
  change (Z.lor (n - 1) (Z.shiftl isMedium kCategoryShift)) with (capword Medium (n - 1)) in *.
  apply wp_ret. rewrite capword_last, cat_category by lia. apply wp_assert; [done|]. apply HQ.
  eapply (becomes_ref s s5 G _ a p h Medium (n - 1) l); [done|done|by intros []|done|exact Hi5| | | | |done].
  - intros y Hya Hyb. by rewrite !lookup_insert_ne.
  - rewrite lookup_insert_eq. simpl. by rewrite Z.add_0_r.
  - by rewrite lookup_insert_ne, lookup_insert_eq.
  - apply (blk_rep_copy Medium); simpl; lia.
Qed.

Lemma copyLarge_wp s G a x b h r cap l blk (Q : unit -> Machine -> Prop) X :
  inv s G -> G !! a = Some (Raw h r) -> zlen r = 24 -> is_ml s G x b Large cap l blk -> countable G ->
  (forall s', copied a G l s' -> Q tt s') -> wp (copyLarge a x) s Q X.
Proof.
  intros Hi Ha Hl Hml Hct HQ. pose proof (ml_cap_bound _ _ _ _ _ _ _ _ Hml) as (Hcap & Hln & _).
  pose proof (ml_fits _ _ _ _ _ _ _ _ Hml) as (? & ? & ?). pose proof (nrefs_countable G b Hct) as Hnr.
  pose proof (ml_obj _ _ _ _ _ _ _ _ Hml) as Hx. pose proof (ml_blk _ _ _ _ _ _ _ _ Hml) as Hbk.
  assert (Hxa : x <> a) by cells_ne. assert (Hba : b <> a) by cells_ne.
  destruct (words_intro r Hl) as (d & n & c & _ & _ & _ & ->);
    [by eapply ok_bytes; [apply Hi|by eapply raw_mem]|].
  apply wp_bind. eapply set_ml_wp; [apply Hi|by eapply raw_mem|by apply Hml|done..|]. intros Hm1.
  set (w := words (b + hdr Large) (zlen l) (capword Large cap)) in *.
  pose proof (inv_raw_set s G a h _ w Hi Ha eq_refl (words_byte _ _ _)) as Hi1.
  set (s1 := set_region a w s) in *.
  destruct (to_ml s1 _ x b Hi1) as (k1 & cap1 & l1 & blk1 & Hml1); [by rewrite lookup_insert_ne|].
  pose proof (ml_blk _ _ _ _ _ _ _ _ Hml1) as Hbk1. rewrite lookup_insert_ne in Hbk1 by done.
  rewrite Hbk in Hbk1. injection Hbk1 as <- <- <-.
  assert (Hma : mem s1 !! a = Some w) by (simpl; by rewrite lookup_insert_eq).
  apply wp_bind. eapply ml_data_wp; [done|exact Hma|done|].
  unfold incrementRefs, fromData, hdr. replace (b + getDataOffset - getDataOffset) with b by lia.
  destruct (ml_count _ _ _ _ _ _ _ _ Hml1) as (_ & _ & Hcnt). destruct (ml_rep _ _ _ _ _ _ _ _ Hml1) as [? Hroom _].
  unfold hdr, getDataOffset in Hroom. erewrite nrefs_insert in Hcnt by done.
  apply wp_bind, wp_bind. eapply load64_wp; [done|by apply Hml1|done|lia|exact Hcnt|unfold fits; lia|].
  eapply store_bytes_wp; [done|by apply Hml1|done|change (zlen (to_bytes 8 _)) with 8; lia|].
  rewrite u64_small by lia.
  assert (En : nrefs (<[a:=Ref b]> (<[a:=Raw h w]> G)) b = S (nrefs G b)).
  { erewrite nrefs_add; [|by rewrite lookup_insert_eq|done]. by erewrite nrefs_insert. }
  replace (Z.of_nat (nrefs G b) + 1) with (Z.of_nat (nrefs (<[a:=Ref b]> (<[a:=Raw h w]> G)) b)) by lia.
  assert (Hi2 : inv (set_region b (overwrite 0 (to_bytes 8 (Z.of_nat (nrefs (<[a:=Ref b]> (<[a:=Raw h w]> G)) b))) blk1) s1)
                  (<[a:=Ref b]> (<[a:=Raw h w]> G))).
  { eapply inv_recount; [done|by rewrite lookup_insert_ne|by apply Hml1|by rewrite lookup_insert_eq|done|naive_solver|done|lia|lia|].
    exists w. split; [done|]. exists Large, cap, l. split; [|done]. by rewrite !lookup_insert_ne. }
  rewrite insert_insert_eq in *. set (s2 := set_region b _ s1) in *.
  assert (Hv : view (<[a:=Ref b]> G) a = Some (VStr (b + hdr Large) l)).
  { unfold view. by rewrite lookup_insert_eq, lookup_insert_ne, Hbk. }
  assert (HF : frame {[a]} G (<[a:=Ref b]> G)) by (eapply frame_raw; [exact Hi|exact Ha|by intros []]).
  assert (Hvx : view (<[a:=Ref b]> G) x = Some (VStr (b + hdr Large) l)).
  { rewrite HF by by apply not_elem_of_singleton. by eapply ml_view. }
  destruct (to_ml s2 _ a b Hi2) as (k2 & cap2 & l2 & blk2 & Hml2); [by rewrite lookup_insert_eq|].
  pose proof (ml_blk _ _ _ _ _ _ _ _ Hml2) as Hbk2. rewrite lookup_insert_ne in Hbk2 by done.
  rewrite Hbk in Hbk2. injection Hbk2 as <- <- <-.
  apply wp_bind. eapply ml_is_category_wp; [apply Hi2|done|].
  apply wp_bind. eapply size_wp; [exact Hi2|done|]. apply wp_bind. eapply size_wp; [exact Hi2|done|].
  apply wp_assert; [by rewrite !bool_decide_eq_true_2|]. apply HQ. by eexists _, _.
Qed.

(** The copy constructor. *)
Lemma core_copy_wp s G a x h r p l (Q : unit -> Machine -> Prop) (X : exn -> Machine -> Prop) :
  inv s G -> G !! a = Some (Raw h r) -> zlen r = 24 -> view G x = Some (VStr p l) -> countable G ->
  (forall s', copied a G l s' -> Q tt s') -> (forall s', inv s' G -> X bad_alloc s') ->
  wp (core_copy a x) s Q X.
Proof.
  intros Hi Ha Hl Hv Hct HQ HX.
  assert (Hxa : x <> a) by (intros ->; unfold view in Hv; by rewrite Ha in Hv).
  assert (Hend : forall s', copied a G l s' ->
    wp (n ← size a; n' ← size x; FBSTRING_ASSERT (bool_decide (n = n'))) s' Q X).
  { intros s' Hc. pose proof Hc as (G' & q & Hi' & HF & Hva). apply wp_bind. eapply size_wp; [done|done|].
    apply wp_bind. eapply size_wp; [done|by rewrite HF by by apply not_elem_of_singleton|].
    apply wp_assert; [by apply bool_decide_eq_true|by apply HQ]. }
  apply wp_bind, wp_assert; [by apply bool_decide_eq_true|].
  destruct (view_cases s G x p l Hi Hv) as [(-> & d & n & c & Hs)|(b & k & cap & blk & -> & Hml)].
  - apply wp_bind. eapply small_category_wp; [apply Hi|done|]. apply wp_bind. rewrite decide_True by done.
    eapply copySmall_wp; [done|done|done|by apply Hs|]. intros s' Hb. by apply Hend, becomes_copied.
  - apply wp_bind. eapply ml_category_wp; [apply Hi|done|]. apply wp_bind. rewrite decide_False by by destruct k.
    destruct k.
    + rewrite decide_True by done. eapply copyMedium_wp; [done..| |done]. intros s' Hb. by apply Hend, becomes_copied.
    + rewrite decide_False, decide_True by done. by eapply copyLarge_wp.
Qed.

(** The constructor that takes over an allocation of the caller. *)
Lemma core_acquire_wp s G a h r b blk n alloc (Q : unit -> Machine -> Prop) X :
  inv s G -> G !! a = Some (Raw h r) -> zlen r = 24 -> G !! b = Some (Raw true blk) -> a <> b ->
  0 <= n -> (0 < n -> n + 1 <= alloc <= zlen blk /\ slice n 1 blk = [0]) ->
  (forall s' G' p, inv s' G' -> frame {[a; b]} G G' -> view G' a = Some (VStr p (slice 0 n blk)) ->
     view G' b = None -> exclusive G' a -> Q tt s') ->
  wp (core_acquire a b n alloc) s Q X.
Proof.
  intros Hi Ha Hl Hb Hab Hn0 Hterm HQ.
  pose proof (raw_mem _ _ _ _ _ Hi Hb) as Hmb. pose proof (ok_top s (inv_mem _ _ Hi) b blk Hmb) as Htop.
  destruct (inv_cells s G Hi b _ Hb) as (? & _ & _ & Hh). specialize (Hh eq_refl).
  destruct (ok_heap s (inv_mem _ _ Hi) b Hh) as [Hpos _].
  destruct (words_intro r Hl) as (d & m & c & _ & _ & _ & ->);
    [by eapply ok_bytes; [apply Hi|by eapply raw_mem]|].
  unfold core_acquire. destruct (decide (n > 0)) as [Hgt|Hz].
  - destruct (Hterm ltac:(lia)) as ([Hal Hal'] & Hzero).
    assert (Hsl : zlen (slice 0 n blk) = n) by (apply zlen_slice; lia). unfold address_space in Htop.
    apply wp_bind, wp_assert; [apply bool_decide_eq_true; lia|].
    apply wp_bind. eapply load_byte_wp; [apply Hi|done|done|exact Hzero|].
    apply wp_bind, wp_assert; [done|].
    apply wp_bind. eapply set_data_wp; [exact Hi|done|]. intros s1 Hi1 _.
    apply wp_bind. eapply set_size_wp; [exact Hi1|by rewrite lookup_insert_eq|]. intros s2 Hi2 _. rewrite insert_insert_eq in Hi2.
    eapply (set_capacity_wp s2 _ a); [exact Hi2|by rewrite lookup_insert_eq|]. intros s3 Hi3 _. rewrite insert_insert_eq in Hi3.
    change (Z.lor (alloc - 1) (Z.shiftl isMedium kCategoryShift)) with (capword Medium (alloc - 1)) in Hi3.
    set (l := slice 0 n blk) in *.
    assert (Hr : blk_rep Medium (alloc - 1) l blk).
    { split; [lia|simpl; lia|]. simpl. rewrite Hsl. by apply slice_app_last. }
    eapply (close_ref s3 _ a h b Medium (alloc - 1) l blk) in Hi3;
      [|rewrite lookup_insert_eq, Hsl; simpl; by rewrite Z.add_0_r|by rewrite lookup_insert_ne|done|done|done].
    eapply HQ; [exact Hi3|..].
    + apply (frame_intro s); [done|..].
      * intros y Hy. assert (y = a \/ y = b) as [-> | ->] by set_solver; congruence.
      * intros y Hy. left. rewrite !lookup_insert_ne; [done|set_solver..].
    + unfold view. by rewrite lookup_insert_eq, lookup_insert_ne, lookup_insert_eq.
    + unfold view. by rewrite lookup_insert_ne, lookup_insert_eq.
    + unfold exclusive. rewrite lookup_insert_eq.
      destruct (to_ml s3 _ a b Hi3) as (k & cap & l' & blk' & Hml); [by rewrite lookup_insert_eq|].
      pose proof (ml_blk _ _ _ _ _ _ _ _ Hml) as Hb'. rewrite lookup_insert_ne, lookup_insert_eq in Hb' by done.
      injection Hb' as <- <- <-. exact (ml_count _ _ _ _ _ _ _ _ Hml).
  - assert (n = 0) as -> by lia. apply wp_bind. eapply free_wp; [exact Hi|done|]. intros s1 Hi1.
    eapply reset_wp; [exact Hi1|by rewrite lookup_delete_ne|done|]. intros s2 Hi2. eapply HQ; [exact Hi2|..].
    + apply (frame_intro s); [done|..].
      * intros y Hy. assert (y = a \/ y = b) as [-> | ->] by set_solver; congruence.
      * intros y Hy. left. rewrite lookup_insert_ne, lookup_delete_ne; [done|set_solver..].
    + unfold view. by rewrite lookup_insert_eq, slice_0.
    + unfold view. by rewrite lookup_insert_ne, lookup_delete_eq.
    + unfold exclusive. by rewrite lookup_insert_eq.
Qed.
End Copy.
