(* ===== verification/FBStringGrow.v ===== *)
(** * FBString: copy on write, reservation, growth and shrinking of a core *)

From stdpp Require Import base list gmap strings.
From S2P Require Import Prelude Bits FBStringMem FBStringCore FBStringInv FBStringStep FBStringLife FBStringInit.

Lemma reserved_mono a G l n n' s' : n' <= n -> reserved a G l n s' -> reserved a G l n' s'.
Proof. intros Hn (G' & p & ? & ? & ? & ? & ?). exists G', p. split_and!; try done. lia. Qed.

Lemma ml_reserved_mono a G l n n' s' : n' <= n -> ml_reserved a G l n s' -> ml_reserved a G l n' s'.
Proof. intros Hn (G' & p & b & ? & ? & ? & ? & ? & ?). exists G', p, b. split_and!; try done. lia. Qed.

(** A string that has its characters for itself, with its room. *)
Lemma exclusive_reserved s G a p l :
  inv s G -> view G a = Some (VStr p l) -> exclusive G a -> reserved a G l (room G a) s.
Proof. intros. exists G, p. by split_and!. Qed.

(** The object [b] of a reference is the one the ghost map knows. *)
Lemma to_ml_at s G a b k cap l :
  inv s G -> G !! a = Some (Ref b) -> G !! b = Some (Blk k cap l) -> exists blk, is_ml s G a b k cap l blk.
Proof.
  intros Hi Ha Hb. destruct (to_ml s G a b Hi Ha) as (k' & cap' & l' & blk & Hml).
  pose proof (ml_blk _ _ _ _ _ _ _ _ Hml) as E. rewrite Hb in E. injection E as <- <- <-. by exists blk.
Qed.

Lemma text_source s G a b k cap l blk :
  inv s G -> is_ml s G a b k cap l blk -> source G a (b + hdr k) (l ++ [0]).
Proof.
  intros Hi Hml. pose proof (source_str G a (b + hdr k) l 0 (zlen l + 1) (ml_view _ _ _ _ _ _ _ _ Hml)) as Hs.
  assert (E : zlen (l ++ [0]) = zlen l + 1) by (rewrite zlen_app; done).
  pose proof (zlen_nonneg l). rewrite <- E, slice_full, Z.add_0_r in Hs. apply Hs; lia.
Qed.

Section Capacity.
Implicit Types (s : Machine) (G : Ghost).

Lemma capacity_wp s G a p l (Q : Z -> Machine -> Prop) X :
  inv s G -> view G a = Some (VStr p l) ->
  (exclusive G a -> Q (room G a) s) -> (~ exclusive G a -> Q (zlen l) s) -> wp (fbcore_capacity a) s Q X.
Proof.
  intros Hi Hv HE HS. unfold exclusive, room in *.
  destruct (view_cases s G a p l Hi Hv) as [(-> & d & n & c & Hs)|(b & k & cap & blk & -> & Hml)].
  - rewrite (sm_obj _ _ _ _ _ _ _ Hs) in HE. eapply small_capacity_wp; [apply Hi|done|]. by apply HE.
  - rewrite (ml_obj _ _ _ _ _ _ _ _ Hml), (ml_blk _ _ _ _ _ _ _ _ Hml) in HE.
    rewrite (ml_obj _ _ _ _ _ _ _ _ Hml) in HS. eapply ml_capacity_wp; [apply Hi|done|].
    case_decide; [by apply HE|by apply HS].
Qed.

Lemma room_ge s G a p l : inv s G -> view G a = Some (VStr p l) -> zlen l <= room G a.
Proof.
  intros Hi Hv. unfold room.
  destruct (view_cases s G a p l Hi Hv) as [(-> & d & n & c & Hs)|(b & k & cap & blk & -> & Hml)].
  - rewrite (sm_obj _ _ _ _ _ _ _ Hs). by apply (sm_rep _ _ _ _ _ _ _ Hs).
  - rewrite (ml_obj _ _ _ _ _ _ _ _ Hml), (ml_blk _ _ _ _ _ _ _ _ Hml).
    by apply (ml_rep _ _ _ _ _ _ _ _ Hml).
Qed.

#[global] Instance exclusive_dec G a : Decision (exclusive G a).
Proof. unfold exclusive. destruct (G !! a) as [[]|]; apply _. Defined.

Lemma capacity_cases_wp s G a p l (Q : Z -> Machine -> Prop) X :
  inv s G -> view G a = Some (VStr p l) ->
  (forall c, exclusive G a /\ c = room G a \/ ~ exclusive G a /\ c = zlen l -> zlen l <= c -> Q c s) ->
  wp (fbcore_capacity a) s Q X.
Proof.
  intros Hi Hv HQ. pose proof (room_ge s G a p l Hi Hv). eapply capacity_wp; [done|done|..]; intros He; apply HQ; auto; lia.
Qed.

(** The assertion that ends a reservation. *)
Lemma assert_capacity_wp a G l n m s' (Q : unit -> Machine -> Prop) X :
  reserved a G l n s' -> m <= n -> Q tt s' ->
  wp (c ← fbcore_capacity a; FBSTRING_ASSERT (bool_decide (c >= m))) s' Q X.
Proof.
  intros (G' & p & Hi & _ & Hv & He & Hr) Hm HQ. apply wp_bind. eapply capacity_wp; [done|done|..].
  - intros _. apply wp_assert; [apply bool_decide_eq_true; lia|done].
  - by intros [].
Qed.
End Capacity.

Section Unshare.
Context `{Platform}.
Implicit Types (s : Machine) (G : Ghost).

Lemma unshare_wp s G a b cap l blk m (Q : unit -> Machine -> Prop) (X : exn -> Machine -> Prop) :
  inv s G -> is_ml s G a b Large cap l blk -> 0 <= m <= max_request ->
  (forall s', ml_reserved a G l (Z.max m cap) s' -> Q tt s') -> (forall s', inv s' G -> X bad_alloc s') ->
  wp (fbcore_unshare a m) s Q X.
Proof.
  intros Hi Hml Hm HQ HX. pose proof (ml_cap_bound _ _ _ _ _ _ _ _ Hml) as (Hcap & Hln & _).
  pose proof (ml_obj _ _ _ _ _ _ _ _ Hml) as Ha. pose proof (ml_blk _ _ _ _ _ _ _ _ Hml) as Hbk.
  assert (Eapp : zlen (l ++ [0]) = zlen l + 1) by (rewrite zlen_app; done).
  apply wp_bind. eapply ml_is_category_wp; [apply Hi|done|]. apply wp_bind, wp_assert; [done|].
  apply wp_bind. eapply ml_cap_of_wp; [apply Hi|done|].
  apply wp_bind, (refcounted_create_wp s G (Z.max m cap)); [done|unfold max_request, address_space in *; lia| |done].
  intros s1 rc r cap' Hi1 Hrc Hpos Hlr Hcap' Hone. unfold hdr, getDataOffset in Hlr.
  apply wp_bind, wp_assert; [apply bool_decide_eq_true; lia|].
  assert (Harc : a <> rc) by congruence. assert (Hbrc : b <> rc) by congruence.
  destruct (to_ml_at s1 (<[rc:=Raw true r]> G) a b Large cap l Hi1) as [blk1 Hml1]; [by rewrite lookup_insert_ne..|].
  apply wp_bind. eapply ml_data_of_wp; [apply Hi1|done|]. apply wp_bind. eapply ml_size_of_wp; [apply Hi1|done|].
  apply wp_bind. eapply (podCopy_wp s1 _ a (b + hdr Large) _ (l ++ [0]) rc true r 8);
    [done|by eapply text_source|by rewrite lookup_insert_eq|done|done|lia|lia|done|].
  intros s2 Hi2 _. rewrite insert_insert_eq in Hi2.
  set (r2 := overwrite 8 (l ++ [0]) r) in *.
  destruct (to_ml_at s2 (<[rc:=Raw true r2]> G) a b Large cap l Hi2) as [blk2 Hml2]; [by rewrite lookup_insert_ne..|].
  apply wp_bind. eapply decrementRefs_wp; [done|done|]. intros s3 G3 Hi3 Hrel.
  pose proof (released_raw _ _ _ _ Hrel) as Ha3.
  assert (Hrc3 : G3 !! rc = Some (Raw true r2)) by (eapply released_other; [done|done|by rewrite lookup_insert_eq]).
  assert (HF3 : frame {[a; rc]} G G3).
  { eapply (frame_trans _ _ (<[rc:=Raw true r2]> G)).
    - eapply frame_mono; [|by eapply frame_new]. set_solver.
    - eapply frame_mono; [|eapply (released_frame s2 _ _ a (Ref b)); [done|by rewrite lookup_insert_ne|by intros []|done]]. set_solver. }
  apply wp_bind. eapply set_data_wp; [exact Hi3|done|]. intros s4 Hi4 _.
  eapply (set_capacity_wp s4 _ a); [exact Hi4|by rewrite lookup_insert_eq|]. intros s5 Hi5 _. rewrite insert_insert_eq in Hi5.
  apply HQ. eapply ml_reserved_mono, (reserved_ref s5 G _ a rc false Large cap' l r2); [lia|exact Hi5|..].
  - eapply frame_trans; [exact HF3|]. eapply frame_mono; [|by eapply frame_reraw]. set_solver.
  - unfold view. by rewrite Hrc.
  - done.
  - by rewrite lookup_insert_eq.
  - by rewrite lookup_insert_ne.
  - apply (blk_rep_copy Large); unfold hdr, getDataOffset; lia.
  - apply one_owner_overwrite; [done|lia|done].
Qed.

(** [mutableData]: afterwards nobody shares the characters at the address. *)
Lemma mutableData_wp s G a p l (Q : Z -> Machine -> Prop) (X : exn -> Machine -> Prop) :
  inv s G -> view G a = Some (VStr p l) ->
  (forall s' G' p', inv s' G' -> frame {[a]} G G' -> view G' a = Some (VStr p' l) -> exclusive G' a ->
     (exclusive G a -> s' = s /\ G' = G) -> Q p' s') ->
  (~ exclusive G a -> forall s', inv s' G -> X bad_alloc s') ->
  wp (mutableData a) s Q X.
Proof.
  intros Hi Hv HQ HX.
  destruct (view_cases s G a p l Hi Hv) as [(-> & d & n & c & Hs)|(b & k & cap & blk & -> & Hml)].
  - apply wp_bind. eapply small_category_wp; [apply Hi|done|]. rewrite decide_True by done. apply wp_ret.
    eapply HQ; [done|apply frame_refl|done| |done]. unfold exclusive. by rewrite (sm_obj _ _ _ _ _ _ _ Hs).
  - apply wp_bind. eapply ml_category_wp; [apply Hi|done|]. rewrite decide_False by by destruct k.
    assert (Hx : nrefs G b = 1%nat -> exclusive G a) by (unfold exclusive; by rewrite (ml_obj _ _ _ _ _ _ _ _ Hml)).
    destruct k.
    + rewrite decide_True by done. eapply ml_data_of_wp; [apply Hi|done|].
      eapply HQ; [done|apply frame_refl|done| |done]. apply Hx. exact (ml_count _ _ _ _ _ _ _ _ Hml).
    + rewrite decide_False, decide_True by done.
      apply wp_bind. eapply ml_is_category_wp; [apply Hi|done|]. apply wp_bind, wp_assert; [done|].
      apply wp_bind. eapply ml_data_of_wp; [apply Hi|done|].
      apply wp_bind. eapply ml_refs_wp; [apply Hi|done|done|]. apply wp_bind.
      destruct (ml_count _ _ _ _ _ _ _ _ Hml) as (H1 & _ & _).
      destruct (decide (Z.of_nat (nrefs G b) > 1)) as [Hsh|Hun].
      * assert (Hnx : ~ exclusive G a) by (unfold exclusive; rewrite (ml_obj _ _ _ _ _ _ _ _ Hml); lia).
        eapply unshare_wp; [done|done|done| |by apply HX].
        intros s' (G' & p' & b' & Hi' & HF & Hv' & He & _ & Ha').
        destruct (to_ml s' G' a b' Hi' Ha') as (k' & cap' & l' & blk' & Hml'). pose proof (ml_view _ _ _ _ _ _ _ _ Hml') as E.
        rewrite Hv' in E. injection E as -> <-. eapply ml_data_of_wp; [apply Hi'|done|].
        eapply HQ; [exact Hi'|done|done|done|]. unfold exclusive. rewrite (ml_obj _ _ _ _ _ _ _ _ Hml). lia.
      * apply wp_ret. eapply ml_data_of_wp; [apply Hi|done|].
        eapply HQ; [done|apply frame_refl|done| |done]. apply Hx. lia.
Qed.
End Unshare.

(** ** Reallocation *)

Section Realloc.
Context `{Platform}.
Implicit Types (s : Machine) (G : Ghost).

Lemma smartRealloc_wp s G p r cs cc n (Q : Z -> Machine -> Prop) (X : exn -> Machine -> Prop) :
  inv s G -> G !! p = Some (Raw true r) -> 0 <= cs <= cc -> cc <= zlen r -> cc < n ->
  (forall s' b r', inv s' (<[b:=Raw true r']> (delete p G)) -> (b = p \/ G !! b = None) -> 0 < b ->
    b + n <= address_space -> zlen r' = n -> slice 0 cs r' = slice 0 cs r -> Q b s') ->
  (forall s', inv s' G -> X bad_alloc s') ->
  wp (smartRealloc p cs cc n) s Q X.
Proof.
  intros Hi Hp Hcs Hcc Hn HQ HX. pose proof (raw_mem _ _ _ _ _ Hi Hp) as Hmp.
  pose proof (ok_null s (inv_mem _ _ Hi) p r Hmp).
  apply wp_bind, wp_assert; [apply bool_decide_eq_true; lia|].
  apply wp_bind, wp_assert; [apply bool_decide_eq_true; lia|]. cbv zeta.
  destruct (decide (u64 ((cc - cs) * 2) > cs)) as [_|_].
  - apply wp_bind, (checkedMalloc_wp s G n); [done| |done]. intros s1 b r1 Hi1 Hb Hpos Htop Hlr.
    assert (Hbp : b <> p) by congruence.
    assert (Hp1 : <[b:=Raw true r1]> G !! p = Some (Raw true r)) by by rewrite lookup_insert_ne.
    assert (Hsl : zlen (slice 0 cs r) = cs) by (apply zlen_slice; lia).
    apply wp_bind, wp_bind, wp_assert.
    { apply bool_decide_eq_true. pose proof (raw_mem _ _ _ _ _ Hi1 Hp1) as Hm1.
      pose proof (ok_disjoint s1 (inv_mem _ _ Hi1) p r b r1 Hm1) as Hd.
      specialize (Hd ltac:(eapply raw_mem; [exact Hi1|by rewrite lookup_insert_eq]) ltac:(done)). lia. }
    rewrite <- (Z.add_0_r p) at 1. rewrite <- (Z.add_0_r b) at 1.
    apply wp_bind. eapply raw_load_wp; [exact Hi1|exact Hp1|done|lia|lia|].
    eapply raw_store_wp; [exact Hi1|by rewrite lookup_insert_eq|done|lia| |].
    { apply Forall_slice. by eapply ok_bytes; [apply Hi|]. }
    intros s2 Hi2 _. rewrite insert_insert_eq in Hi2. apply wp_bind.
    eapply free_wp; [exact Hi2|by rewrite lookup_insert_ne|]. intros s3 Hi3. apply wp_ret.
    rewrite delete_insert_ne in Hi3 by done. eapply HQ; [exact Hi3|by right|done|done|by rewrite zlen_overwrite by lia|].
    rewrite <- Hsl at 1. apply slice_overwrite; lia.
  - eapply checkedRealloc_wp; [done|done| |done]. intros s' b r' Hi' Hb Hpos Htop Hl Hs.
    eapply HQ; [exact Hi'| |done|done|done|apply Hs; lia].
    destruct (decide (b = p)) as [->|Hne]; [by left|right]. by rewrite lookup_delete_ne in Hb.
Qed.

(** The parts of a text that a copy of the used bytes keeps. *)
Lemma blk_rep_moved k cap cap' l blk blk' :
  blk_rep k cap l blk -> one_owner k blk -> zlen l <= cap' -> hdr k + cap' + 1 <= zlen blk' ->
  slice 0 (hdr k + (zlen l + 1)) blk' = slice 0 (hdr k + (zlen l + 1)) blk ->
  blk_rep k cap' l blk' /\ one_owner k blk'.
Proof.
  intros [Hs Hr Ht] Ho Hc' Hr' E. pose proof (zlen_nonneg l). assert (0 <= hdr k) by by destruct k. split.
  - split; [done|done|]. rewrite <- Ht. apply (f_equal (drop (Z.to_nat (hdr k)))) in E.
    rewrite !drop_slice in E by lia. by replace (hdr k + (zlen l + 1) - hdr k) with (zlen l + 1) in E by lia.
  - destruct k; [done|]. unfold one_owner, hdr, getDataOffset in *. rewrite <- Ho.
    apply (f_equal (take (Z.to_nat 8))) in E. by rewrite !take_slice in E by lia.
Qed.

(** The string in the allocation at [b] moves to one at [b'] with more room. *)
Lemma moved_reserved s s' G a b k cap cap' l blk b' blk' :
  inv s G -> is_ml s G a b k cap l blk -> nrefs G b = 1%nat ->
  (b' = b \/ G !! b' = None) ->
  inv s' (<[a:=Raw false (words (b' + hdr k) (zlen l) (capword k cap'))]>
     (<[b':=Raw true blk']> (delete b (<[a:=Raw false (words (b + hdr k) (zlen l) (capword k cap))]> G)))) ->
  blk_rep k cap' l blk' -> one_owner k blk' -> ml_reserved a G l cap' s'.
Proof.
  intros Hi Hml Hn Hb' Hi' Hr Ho. pose proof (ml_obj _ _ _ _ _ _ _ _ Hml) as Ha.
  pose proof (ml_blk _ _ _ _ _ _ _ _ Hml) as Hb. assert (Hab : a <> b) by cells_ne.
  assert (Hab' : a <> b') by (destruct Hb'; congruence).
  eapply reserved_ref; [exact Hi'| | |exact Hab'|by rewrite lookup_insert_eq|by rewrite lookup_insert_ne, lookup_insert_eq|done|done].
  - assert (Hno : forall y, y ∉ ({[a; b']} : gset Z) -> G !! y <> Some (Ref b)).
    { intros y Hy Ey. assert (a = y) by by eapply nrefs_unique. set_solver. }
    apply (frame_unreferenced s); [done|..].
    + intros x y Hx Hy Ey. assert (x = a \/ x = b') as [-> | ->] by set_solver.
      * destruct (inv_cells s G Hi y _ Ey) as (? & _ & ? & ? & ? & E & _). congruence.
      * destruct Hb' as [-> | Hb']; [by apply (Hno y)|].
        destruct (inv_cells s G Hi y _ Ey) as (? & _ & ? & ? & ? & E & _). congruence.
    + intros x Hx. rewrite !lookup_insert_ne by set_solver. destruct (decide (x = b)) as [->|Hxb].
      * right. rewrite Hb, lookup_delete_eq. done.
      * left. rewrite lookup_delete_ne, lookup_insert_ne; [done|set_solver..].
  - unfold view. destruct Hb' as [-> | ->]; by rewrite ?Hb.
Qed.
End Realloc.

(** * FBString: [reserve] of a core, in its three representations *)

Section Reserve.
Context `{Platform}.
Implicit Types (s : Machine) (G : Ghost).

Lemma reserveLarge_wp s G a b cap l blk m (Q : unit -> Machine -> Prop) (X : exn -> Machine -> Prop) :
  inv s G -> is_ml s G a b Large cap l blk -> 0 <= m <= max_request ->
  (forall s', ml_reserved a G l m s' -> Q tt s') -> (forall s', inv s' G -> X bad_alloc s') ->
  wp (reserveLarge a m) s Q X.
Proof.
  intros Hi Hml Hm HQ HX. pose proof (ml_cap_bound _ _ _ _ _ _ _ _ Hml) as (Hcap & Hln & Hb47).
  destruct (ml_count _ _ _ _ _ _ _ _ Hml) as (H1 & _ & _).
  apply wp_bind. eapply ml_is_category_wp; [apply Hi|done|]. apply wp_bind, wp_assert; [done|].
  apply wp_bind. eapply ml_data_of_wp; [apply Hi|done|].
  apply wp_bind. eapply ml_refs_wp; [apply Hi|done|done|].
  destruct (decide (Z.of_nat (nrefs G b) > 1)) as [Hsh|Hun].
  { eapply unshare_wp; [done|done|done| |done]. intros s' Hr. apply HQ. eapply ml_reserved_mono, Hr. lia. }
  assert (Hn : nrefs G b = 1%nat) by lia.
  apply wp_bind. eapply ml_cap_of_wp; [apply Hi|done|].
  destruct (decide (m > cap)) as [Hgt|Hle].
  - apply wp_bind. eapply ml_size_of_wp; [apply Hi|done|]. unfold max_request, address_space in Hm.
    assert (Hg : 8 + (m + 1) <= goodMallocSize (8 + (m + 1)) < 2 ^ 62)
      by (apply goodMallocSize_ge; unfold address_space; lia).
    destruct (open_ref s G a b Large cap l Hi) as (blk1 & Hr & Ho & Hbytes & Hi1); [by apply Hml|by apply Hml|done|].
    pose proof (ml_obj _ _ _ _ _ _ _ _ Hml) as Ha. pose proof (ml_blk _ _ _ _ _ _ _ _ Hml) as Hb.
    assert (Hab : a <> b) by cells_ne. pose proof Hr as [_ Hroom _]. unfold hdr, getDataOffset in Hroom.
    apply wp_bind. unfold reallocate, fromData, hdr, getDataOffset.
    replace (b + 8 - 8) with b by lia. rewrite !(u64_small (_ + 1)), !(u64_small (8 + _)) by lia.
    apply wp_bind, wp_assert; [apply bool_decide_eq_true; lia|].
    set (w := words (b + hdr Large) (zlen l) (capword Large cap)) in *.
    apply wp_bind. eapply (load64_wp s b blk1 0 1); [apply Hi1|eapply raw_mem; [exact Hi1|by rewrite lookup_insert_eq]|done|lia|exact Ho|done|].
    apply wp_bind, wp_assert; [done|].
    apply wp_bind. eapply smartRealloc_wp; [exact Hi1|by rewrite lookup_insert_eq|lia|lia|lia| |].
    2: { intros s' Hi'. apply HX. by eapply reclose_ref. }
    intros s2 b' blk2 Hi2 Hb' Hpos' Htop' Hl2 Hsl.
    destruct (blk_rep_moved Large cap (goodMallocSize (8 + (m + 1)) - 8 - 1) l blk1 blk2) as [Hr2 Ho2];
      [done|done|lia|unfold hdr, getDataOffset; lia|exact Hsl|].
    assert (Hb'2 : b' = b \/ G !! b' = None).
    { destruct Hb' as [->|Hb']; [by left|]. destruct (decide (b' = b)) as [->|Hne]; [by left|right].
      rewrite lookup_insert_ne in Hb' by done. apply lookup_insert_None in Hb'. by destruct Hb'. }
    assert (Hab' : a <> b') by (destruct Hb'2; congruence).
    apply wp_bind. eapply (load64_wp s2 b' blk2 0 1); [apply Hi2|eapply raw_mem; [exact Hi2|by rewrite lookup_insert_eq]|done|lia|exact Ho2|done|].
    apply wp_bind, wp_assert; [done|]. apply wp_ret. cbv beta iota. unfold address_space in Htop'.
    rewrite (u64_small (goodMallocSize (8 + (m + 1)) - 8)), (u64_small (goodMallocSize (8 + (m + 1)) - 8 - 1)) by lia.
    rewrite delete_insert_eq in Hi2.
    apply wp_bind. eapply set_data_wp; [exact Hi2| |].
    { rewrite lookup_insert_ne, lookup_delete_ne, lookup_insert_eq by done. done. }
    intros s3 Hi3 _. apply wp_bind. eapply (set_capacity_wp s3 _ a); [exact Hi3|by rewrite lookup_insert_eq|].
    intros s4 Hi4 _. rewrite insert_insert_eq in Hi4.
    assert (Hres : ml_reserved a G l (goodMallocSize (8 + (m + 1)) - 8 - 1) s4)
      by by eapply (moved_reserved s s4 G a b Large).
    eapply assert_capacity_wp; [by apply ml_reserved_reserved|done|].
    apply HQ. eapply ml_reserved_mono, Hres. lia.
  - assert (Hres : ml_reserved a G l cap s).
    { exists G, (b + hdr Large), b. split_and!; [done|apply frame_refl|by eapply ml_view|..].
      - unfold exclusive. by rewrite (ml_obj _ _ _ _ _ _ _ _ Hml).
      - unfold room. by rewrite (ml_obj _ _ _ _ _ _ _ _ Hml), (ml_blk _ _ _ _ _ _ _ _ Hml).
      - apply Hml. }
    eapply assert_capacity_wp; [by apply ml_reserved_reserved|lia|]. apply HQ. eapply ml_reserved_mono, Hres. lia.
Qed.

(** The text of a small string moves to a new allocation. *)
Lemma small_moves_wp s1 G a l b r k cap (K : Run unit) (Q : unit -> Machine -> Prop) (X : exn -> Machine -> Prop) :
  inv s1 (<[b:=Raw true r]> G) -> G !! a = Some (Small l) -> G !! b = None -> (exists s, inv s G) ->
  hdr k + cap + 1 <= zlen r -> zlen l <= cap -> one_owner k r ->
  (forall s', ml_reserved a G l cap s' -> wp K s' Q X) ->
  wp (sz ← smallSize a; podCopy a (a + sz + 1) (b + hdr k);;
      set_ml_data a (b + hdr k);; set_ml_size a sz;; setCapacity a cap (cat k);; K) s1 Q X.
Proof.
  intros Hi1 Ha Hb [s Hi] Hroom Hl Hone HK. assert (Hab : a <> b) by congruence.
  assert (Eapp : zlen (l ++ [0]) = zlen l + 1) by (rewrite zlen_app; done). assert (0 <= hdr k) by by destruct k.
  assert (Ha1 : <[b:=Raw true r]> G !! a = Some (Small l)) by by rewrite lookup_insert_ne.
  destruct (to_small s1 _ a l Hi1 Ha1) as (d & n & c & Hs).
  apply wp_bind. eapply small_smallSize_wp; [apply Hi1|done|].
  pose proof (zlen_nonneg l).
  assert (Hsrc : source (<[b:=Raw true r]> G) a a (l ++ [0])).
  { pose proof (source_str (<[b:=Raw true r]> G) a a l 0 (zlen l + 1) (small_view _ _ _ _ _ _ _ Hs)) as E.
    rewrite <- Eapp, slice_full, Z.add_0_r in E. apply E; lia. }
  apply wp_bind. eapply (podCopy_wp s1 _ a a _ (l ++ [0]) b true r (hdr k));
    [done|done|by rewrite lookup_insert_eq|done|done|lia|lia|done|].
  intros s2 Hi2 _. rewrite insert_insert_eq in Hi2.
  destruct (open_small s2 _ a l Hi2) as (bs & _ & (Hbl & _) & Hbb & Hi3); [by rewrite lookup_insert_ne|].
  destruct (words_intro bs Hbl Hbb) as (d' & n' & c' & _ & _ & _ & ->).
  apply wp_bind. eapply set_data_wp; [exact Hi3|by rewrite lookup_insert_eq|]. intros s4 Hi4 _. rewrite insert_insert_eq in Hi4.
  apply wp_bind. eapply set_size_wp; [exact Hi4|by rewrite lookup_insert_eq|]. intros s5 Hi5 _. rewrite insert_insert_eq in Hi5.
  apply wp_bind. eapply (set_capacity_wp s5 _ a); [exact Hi5|by rewrite lookup_insert_eq|]. intros s6 Hi6 _. rewrite insert_insert_eq in Hi6.
  apply HK. eapply (reserved_ref s6 G _ a b false k cap l); [exact Hi6| |unfold view; by rewrite Hb|done|by rewrite lookup_insert_eq|
    by rewrite lookup_insert_ne, lookup_insert_eq|by apply blk_rep_copy|by apply one_owner_overwrite; [|lia|]].
  apply (frame_intro s); [done|..].
  - intros x Hx. assert (x = a \/ x = b) as [-> | ->] by set_solver; congruence.
  - intros x Hx. left. rewrite !lookup_insert_ne; [done|set_solver..].
Qed.

Lemma reserveSmall_wp s G a l m dis (Q : unit -> Machine -> Prop) (X : exn -> Machine -> Prop) :
  inv s G -> G !! a = Some (Small l) -> 0 <= m <= max_request -> dis = false \/ zlen l <= m ->
  (forall s', reserved a G l m s' -> (dis = true \/ 23 < m -> ml_reserved a G l m s') -> Q tt s') ->
  (forall s', inv s' G -> X bad_alloc s') ->
  wp (reserveSmall a m dis) s Q X.
Proof.
  intros Hi Ha Hm Hl HQ HX. destruct (to_small s G a l Hi Ha) as (d & n & c & Hs).
  pose proof (small_len _ _ _ _ _ _ _ Hs) as Hlen. unfold max_request, address_space in Hm.
  assert (HQ' : forall n s', m <= n -> ml_reserved a G l n s' -> Q tt s').
  { intros n' s' Hn Hr. eapply ml_reserved_mono in Hr; [|exact Hn]. by apply HQ; [apply ml_reserved_reserved|]. }
  apply wp_bind. eapply small_is_category_wp; [apply Hi|done|]. apply wp_bind, wp_assert; [done|].
  destruct (decide (dis = false /\ m <= maxSmallSize)) as [[-> Hsm]|Hbig].
  { apply wp_ret. unfold maxSmallSize, lastChar in Hsm. apply HQ; [|lia || (intros [?|?]; [done|lia])].
    apply reserved_mono with (room G a); [unfold room; rewrite Ha; unfold maxSmallSize, lastChar; lia|].
    eapply exclusive_reserved; [done|by eapply small_view|]. unfold exclusive. by rewrite Ha. }
  assert (Hlm : zlen l <= m).
  { destruct dis; [by destruct Hl|]. unfold maxSmallSize, lastChar in Hbig. destruct (decide (m <= 23)); [|lia].
    exfalso. by apply Hbig. }
  destruct (decide (m <= maxMediumSize)) as [Hmed|Hlarge].
  - pose proof (medium_alloc m ltac:(unfold address_space, maxMediumSize in *; lia)) as Hg.
    set (n' := goodMallocSize (u64 (1 + m))) in *.
    apply wp_bind, (checkedMalloc_wp s G n'); [done| |done]. intros s1 b r Hi1 Hb Hpos Htop Hlr.
    unfold address_space in Htop. rewrite (u64_small (n' - 1)) by lia. fold n'.
    pose proof (small_moves_wp s1 G a l b r Medium (n' - 1) (mret tt) Q X) as Hmv.
    unfold hdr, cat in Hmv. rewrite !Z.add_0_r in Hmv. apply Hmv; [done|done|done|by exists s|lia|lia|done|].
    intros s' Hres. apply wp_ret. eapply HQ', Hres. lia.
  - apply wp_bind, (refcounted_create_wp s G m); [done|unfold max_request, address_space; lia| |done].
    intros s1 b r cap Hi1 Hb Hpos Hlr Hcap Hone. cbv beta iota.
    eapply (small_moves_wp s1 G a l b r Large cap); [done|done|done|by exists s|lia|lia|done|].
    intros s' Hres. eapply assert_capacity_wp; [by apply ml_reserved_reserved|lia|]. eapply HQ', Hres. lia.
Qed.
End Reserve.

(** * FBString: local cores, and the reservation that goes through one *)

(** The local object [t] is gone, with what only it held. *)
Record dropped (t : Z) (G G' : Ghost) : Prop := {
  dr_frame : frame {[t]} G G';
  dr_gone : view G' t = None;
  dr_exclusive : forall x, x <> t -> exclusive G x -> exclusive G' x /\ room G' x = room G x;
  dr_ref : forall x b, x <> t -> G !! x = Some (Ref b) -> G' !! x = Some (Ref b) }.

Section Local.
Context `{Platform}.
Implicit Types (s : Machine) (G : Ghost).

(** What a released object leaves of the others. *)
Lemma released_others s G G1 t c bs :
  inv s G -> G !! t = Some c -> ~ hidden (Some c) -> released t G bs G1 ->
  (forall y, G !! y <> Some (Ref t)) /\
  (forall x, x <> t -> G1 !! x = G !! x \/
     (exists k cap l, G !! x = Some (Blk k cap l) /\ G1 !! x = None /\ forall y, G !! y = Some (Ref x) -> y = t)) /\
  (forall x, x <> t -> exclusive G x -> exclusive G1 x /\ room G1 x = room G x).
Proof.
  intros Hi Ht Hc Hrel.
  assert (Hnt : forall y, G !! y <> Some (Ref t)).
  { intros y Hy. destruct (inv_cells s G Hi y _ Hy) as (? & _ & k & cap & l & E & _). rewrite Ht in E.
    injection E as ->. by apply Hc. }
  assert (Hsame : forall x, x <> t -> (G1 !! x = G !! x) \/
            (exists k cap l, G !! x = Some (Blk k cap l) /\ G1 !! x = None /\ forall y, G !! y = Some (Ref x) -> y = t)).
  { intros x Hx. destruct Hrel as [|b k cap l Ha Hb Hn]; [left; by rewrite lookup_insert_ne|].
    destruct (decide (x = b)) as [->|Hxb]; [|left; by rewrite lookup_delete_ne, lookup_insert_ne].
    right. exists k, cap, l. rewrite lookup_delete_eq. split_and!; [done..|]. intros y Hy. by eapply nrefs_unique. }
  split; [done|]. split; [done|]. intros x Hx He. unfold exclusive, room in *.
  destruct (Hsame x Hx) as [->|(k & cap & l & E & _)]; [|by rewrite E in He].
  destruct (G !! x) as [[l|b|k cap l|h r]|] eqn:Ex; try done.
  assert (Hbt : b <> t) by (intros ->; by apply Hnt in Ex).
  assert (Hcb : c <> Ref b) by (intros ->; apply Hx; by eapply nrefs_unique).
  destruct (Hsame b Hbt) as [->|(k & cap & l & _ & _ & Hy)]; [|by apply Hy in Ex]. split; [|done].
  destruct Hrel as [|b' k cap l Ha Hb Hn]; [by erewrite nrefs_insert|].
  erewrite nrefs_delete; [|rewrite lookup_insert_ne by cells_ne; exact Hb|done].
  erewrite nrefs_insert; [exact He|exact Ht|done|done].
Qed.

Lemma released_dropped s G G1 t c bs :
  inv s G -> G !! t = Some c -> ~ hidden (Some c) -> released t G bs G1 -> dropped t G (delete t G1).
Proof.
  intros Hi Ht Hc Hrel. destruct (released_others s G G1 t c bs Hi Ht Hc Hrel) as (Hnt & Hsame & Hex).
  pose proof (released_raw _ _ _ _ Hrel) as Ht1. split.
  - apply (frame_unreferenced s); [done|..].
    + intros x y ->%elem_of_singleton _. apply Hnt.
    + intros x Hx%not_elem_of_singleton. rewrite lookup_delete_ne by done.
      destruct (Hsame x Hx) as [E|(k & cap & l & E & E' & Hy)]; [by left|right].
      rewrite E, E'. split_and!; [done..|]. intros y Hy'%not_elem_of_singleton Ey. by apply Hy in Ey.
  - unfold view. by rewrite lookup_delete_eq.
  - intros x Hx He. destruct (Hex x Hx He) as [He1 Hr1]. unfold exclusive, room in *.
    rewrite lookup_delete_ne by done. destruct (G1 !! x) as [[l|b|k cap l|h r]|] eqn:Ex; try done.
    destruct (decide (b = t)) as [->|Hbt].
    + exfalso. destruct (Hsame x Hx) as [E|(k & cap & l & E & E' & _)]; [|congruence].
      rewrite Ex in E. by eapply Hnt.
    + rewrite lookup_delete_ne by done. by erewrite nrefs_delete.
  - intros x b Hx Ex. rewrite lookup_delete_ne by done.
    destruct (Hsame x Hx) as [->|(k & cap & l & E & _)]; [done|congruence].
Qed.

Lemma drop_core_wp {A} s G t p l (K : Run A) (Q : A -> Machine -> Prop) X :
  inv s G -> view G t = Some (VStr p l) -> t < 0 ->
  (forall s' G', inv s' G' -> dropped t G G' -> wp K s' Q X) ->
  wp (core_dtor t;; pop_local t;; K) s Q X.
Proof.
  intros Hi Hv Ht HK. apply wp_bind.
  destruct (str_words s G t p l Hi Hv) as (c & d & n & w & Hc & Sc & _).
  eapply core_dtor_wp; [done|done|]. intros s1 G1 bs Hi1 Hl Hrel.
  apply wp_bind. eapply pop_local_wp; [exact Hi1|by eapply released_raw|done|]. intros s2 Hi2.
  eapply HK; [exact Hi2|]. eapply released_dropped; [done|done| |done].
  by destruct Sc as [-> | [b ->]]; intros [].
Qed.

(** A local core: the body runs with the constructed object, which is destroyed
    when the body returns and when it throws. *)
Lemma local_core_wp {A} s G ctor (body : Z -> Run A) (Q : A -> Machine -> Prop) (X : exn -> Machine -> Prop) :
  inv s G ->
  (forall s1 t r, inv s1 (<[t:=Raw false r]> G) -> G !! t = None -> t < 0 -> zlen r = 24 ->
     wp (ctor t) s1
       (fun _ s2 => wp (body t) s2
          (fun v s3 => exists G3 p l, inv s3 G3 /\ view G3 t = Some (VStr p l) /\
             forall s4 G4, inv s4 G4 -> dropped t G3 G4 -> Q v s4)
          (fun e s3 => exists G3 p l, inv s3 G3 /\ view G3 t = Some (VStr p l) /\
             forall s4 G4, inv s4 G4 -> dropped t G3 G4 -> X e s4))
       (fun e s2 => exists G2 bs, inv s2 G2 /\ G2 !! t = Some (Raw false bs) /\
          forall s4, inv s4 (delete t G2) -> X e s4)) ->
  wp (local_core ctor body) s Q X.
Proof.
  intros Hi HB. apply wp_bind. eapply push_local_wp; [done|unfold address_space; lia|].
  intros s1 t r Hi1 Ht Hneg Hl. specialize (HB s1 t r Hi1 Ht Hneg Hl).
  apply wp_bind, wp_try_catch. eapply wp_mono; [exact HB|..].
  - intros [] s2 Hbody. apply wp_bind, wp_try_catch. eapply wp_mono; [exact Hbody|..].
    + intros v s3 (G3 & p & l & Hi3 & Hv3 & HQ). eapply drop_core_wp; [done|done|done|].
      intros s4 G4 Hi4 Hd. apply wp_ret. by eapply HQ.
    + intros e s3 (G3 & p & l & Hi3 & Hv3 & HX). eapply drop_core_wp; [done|done|done|].
      intros s4 G4 Hi4 Hd. apply wp_throw. by eapply HX.
  - intros e s2 (G2 & bs & Hi2 & Ht2 & HX). apply wp_bind. eapply pop_local_wp; [exact Hi2|exact Ht2|done|].
    intros s3 Hi3. by apply wp_throw, HX.
Qed.

(** An exception leaves everything as it was. *)
Definition unchanged (G : Ghost) (s' : Machine) : Prop := exists G', inv s' G' /\ frame ∅ G G'.

Lemma inv_unchanged s G : inv s G -> unchanged G s.
Proof. intros Hi. exists G. split; [done|apply frame_refl]. Qed.

Lemma dropped_unchanged s s' G G3 G' t :
  inv s G -> G !! t = None -> inv s' G' -> frame {[t]} G G3 -> dropped t G3 G' -> unchanged G s'.
Proof.
  intros Hi Ht Hi' HF Hd. exists G'. split; [done|]. intros x _. destruct (decide (x = t)) as [->|Hne].
  - rewrite (dr_gone _ _ _ Hd). unfold view. by rewrite Ht.
  - rewrite (dr_frame _ _ _ Hd), HF by by apply not_elem_of_singleton. done.
Qed.

(** Opening a string that nobody shares changes nothing else. *)
Lemma open_frame s G a b c c' :
  inv s G -> G !! a = Some (Ref b) -> nrefs G b = 1%nat -> frame {[a; b]} G (<[b:=c]> (<[a:=c']> G)).
Proof.
  intros Hi Ha Hn. apply (frame_unreferenced s); [done|..].
  - intros x y Hx Hy Ey. destruct (inv_cells s G Hi y _ Ey) as (? & _ & ? & ? & ? & E & _).
    assert (x = a \/ x = b) as [-> | ->] by set_solver; [congruence|].
    assert (a = y) by by eapply nrefs_unique. set_solver.
  - intros x Hx. left. rewrite !lookup_insert_ne; [done|set_solver..].
Qed.

(** The text of [a] fills the empty string [t], which has room for it, and the
    two objects trade places. *)
Lemma nascent_takes_wp s G a p l b t b3 k cap m (Q : unit -> Machine -> Prop) X :
  inv s G -> view G a = Some (VStr p l) -> G !! a = Some (Ref b) ->
  G !! t = Some (Ref b3) -> G !! b3 = Some (Blk k cap []) -> nrefs G b3 = 1%nat -> a <> t ->
  zlen l <= cap -> m <= cap ->
  (forall s' G' p' pt lt, inv s' G' -> frame {[a; t]} G G' -> view G' a = Some (VStr p' l) -> exclusive G' a ->
     room G' a = cap -> G' !! a = Some (Ref b3) -> view G' t = Some (VStr pt lt) -> Q tt s') ->
  wp (sz ← ml_size a; set_ml_size t sz;; d ← ml_data a; nd ← ml_data t; podCopy d (d + sz + 1) nd;;
      swap t a;; c ← fbcore_capacity a; FBSTRING_ASSERT (bool_decide (c >= m))) s Q X.
Proof.
  intros Hi Hv Ha Ht Hb3 Hn Hat Hl Hm HQ.
  assert (Eapp : zlen (l ++ [0]) = zlen l + 1) by (rewrite zlen_app; done).
  assert (Hab3 : a <> b3) by cells_ne. assert (Htb3 : t <> b3) by cells_ne.
  assert (Hml : forall s' G', inv s' G' -> view G' a = Some (VStr p l) -> G' !! a = Some (Ref b) ->
            exists k' cap' blk', p = b + hdr k' /\ is_ml s' G' a b k' cap' l blk').
  { intros s' G' Hi' Hv' Ha'. destruct (to_ml s' G' a b Hi' Ha') as (k' & cap' & l' & blk' & Hml').
    rewrite (ml_view _ _ _ _ _ _ _ _ Hml') in Hv'. injection Hv' as <- <-. by exists k', cap', blk'. }
  destruct (Hml s G Hi Hv Ha) as (k0 & cap0 & blk0 & Ep & Hml0).
  apply wp_bind. eapply ml_size_of_wp; [apply Hi|done|].
  destruct (open_ref s G t b3 k cap [] Hi Ht Hb3 Hn) as (blk & Hr & Ho & Hbytes & Hi1). change (zlen []) with 0 in Hi1.
  apply wp_bind. eapply set_size_wp; [exact Hi1|by rewrite lookup_insert_ne, lookup_insert_eq|]. intros s2 Hi2 _.
  rewrite (insert_insert_ne _ t b3), insert_insert_eq in Hi2 by done.
  set (w := words (b3 + hdr k) (zlen l) (capword k cap)) in *.
  assert (HF2 : frame {[t; b3]} G (<[b3:=Raw true blk]> (<[t:=Raw false w]> G))) by by eapply open_frame.
  assert (Hv2 : view (<[b3:=Raw true blk]> (<[t:=Raw false w]> G)) a = Some (VStr p l)) by (rewrite HF2; [done|set_solver]).
  destruct (Hml s2 _ Hi2 Hv2) as (k2 & cap2 & blk2 & Ep2 & Hml2); [by rewrite !lookup_insert_ne|].
  apply wp_bind. eapply ml_data_of_wp; [apply Hi2|done|].
  assert (Hbt : 0 < b3 /\ b3 + hdr k < 2 ^ 47).
  { destruct (to_ml_at s G t b3 k cap [] Hi Ht Hb3) as [blkt Hmlt].
    destruct (ml_bounds _ _ _ _ _ _ _ _ Hmlt) as (? & ? & ?). unfold address_space in *. lia. }
  assert (0 <= hdr k) by by destruct k.
  apply wp_bind. eapply ml_data_wp; [apply Hi2|eapply raw_mem; [exact Hi2|by rewrite lookup_insert_ne, lookup_insert_eq]|unfold fits; lia|].
  pose proof Hr as [_ Hroom _].
  apply wp_bind. eapply (podCopy_wp s2 _ a _ _ (l ++ [0]) b3 true blk (hdr k));
    [done|by eapply text_source|by rewrite lookup_insert_eq|done|done|lia|lia|done|].
  intros s3 Hi3 _. rewrite insert_insert_eq in Hi3.
  eapply (close_ref s3 _ t false b3 k cap l) in Hi3;
    [|by rewrite lookup_insert_ne, lookup_insert_eq|by rewrite lookup_insert_eq|done|by apply blk_rep_copy
     |by apply one_owner_overwrite; [|lia|]].
  rewrite insert_insert_eq, (insert_insert_ne _ b3 t), insert_insert_eq in Hi3 by done.
  set (G3 := <[t:=Ref b3]> (<[b3:=Blk k cap l]> G)) in *.
  assert (HF3 : frame {[t; b3]} G G3) by (unfold G3; rewrite insert_insert_ne by done; by eapply open_frame).
  assert (Hn3 : nrefs G3 b3 = 1%nat).
  { unfold G3. rewrite insert_insert_ne by done. erewrite nrefs_insert; [|rewrite lookup_insert_ne by done; exact Hb3|done|done].
    by rewrite insert_id. }
  assert (Hvt3 : view G3 t = Some (VStr (b3 + hdr k) l)).
  { unfold view, G3. by rewrite lookup_insert_eq, lookup_insert_ne, lookup_insert_eq. }
  assert (Hva3 : view G3 a = Some (VStr p l)) by (rewrite HF3; [done|set_solver]).
  apply wp_bind. eapply (swap_wp s3 G3 t a); [exact Hi3|done|exact Hvt3|exact Hva3|].
  intros s4 ct ca Hi4 Ect Eca. unfold G3 in Ect, Eca. rewrite lookup_insert_eq in Ect. injection Ect as <-.
  rewrite !lookup_insert_ne in Eca by done. rewrite Ha in Eca. injection Eca as <-.
  set (G4 := <[t:=Ref b]> (<[a:=Ref b3]> G3)) in *.
  assert (Ea4 : G4 !! a = Some (Ref b3)) by (unfold G4; by rewrite lookup_insert_ne, lookup_insert_eq).
  assert (Eb4 : G4 !! b3 = Some (Blk k cap l)) by (unfold G4, G3; by rewrite !lookup_insert_ne, lookup_insert_eq by done).
  assert (Hex : exclusive G4 a).
  { unfold exclusive. rewrite Ea4. unfold G4. rewrite nrefs_swap; [done|done|unfold G3; by rewrite lookup_insert_eq|].
    unfold G3. by rewrite !lookup_insert_ne. }
  assert (Hro : room G4 a = cap) by (unfold room; by rewrite Ea4, Eb4).
  assert (Hv4 : view G4 a = Some (VStr (b3 + hdr k) l)) by (unfold view; by rewrite Ea4, Eb4).
  assert (Hbb : b <> a /\ b <> t /\ b <> b3).
  { pose proof (ml_blk _ _ _ _ _ _ _ _ Hml0) as E. split_and!; [congruence|congruence|].
    intros E3. rewrite E3 in Ha. apply Hat. exact (nrefs_unique G a t b3 Hn Ha Ht). }
  destruct Hbb as (Hba & Hbt' & Hbb3).
  apply wp_bind. eapply capacity_wp; [exact Hi4|exact Hv4|intros _|by intros []].
  apply wp_assert; [apply bool_decide_eq_true; lia|].
  eapply (HQ s4 G4 _ p l); [exact Hi4| |done|done|done|done|].
  - intros x Hx. destruct (decide (x = b3)) as [->|Hxb3].
    + unfold view. by rewrite Eb4, Hb3.
    + rewrite <- (HF3 x ltac:(set_solver)).
      apply (frame_unreferenced s3 G3 G4 {[a; t]}); [done|..|done].
      * intros z y Hz _ Ey. destruct (inv_cells s3 G3 Hi3 y _ Ey) as (? & _ & ? & ? & ? & E & _).
        assert (z = a \/ z = t) as [-> | ->] by set_solver; unfold G3 in E.
        -- rewrite !lookup_insert_ne in E by done. congruence.
        -- by rewrite lookup_insert_eq in E.
      * intros y Hy. left. unfold G4. rewrite !lookup_insert_ne; [done|set_solver..].
  - unfold view, G4, G3. rewrite lookup_insert_eq, !lookup_insert_ne by done.
    rewrite (ml_blk _ _ _ _ _ _ _ _ Hml0). by rewrite Ep.
Qed.

(** What a swap looks like. *)
Lemma swap_view G G' a g pg lg cg :
  view G g = Some (VStr pg lg) -> G !! g = Some cg -> G' !! a = Some cg ->
  (forall b, nrefs G' b = nrefs G b) -> (forall b k cap l, G !! b = Some (Blk k cap l) -> G' !! b = Some (Blk k cap l)) ->
  (exists p, view G' a = Some (VStr p lg)) /\ (exclusive G g -> exclusive G' a) /\ room G' a = room G g.
Proof.
  intros Hv Hg Ha Hn Hb. unfold view, exclusive, room in *. rewrite Ha, Hg in *.
  destruct cg as [l|b|k cap l|h r]; [injection Hv as <- <-; eauto| |done|done].
  destruct (G !! b) as [[| |k cap l|]|] eqn:Eb; try done. injection Hv as <- <-. rewrite (Hb b k cap l Eb).
  split; [eauto|]. split; [|done]. by rewrite Hn.
Qed.

Lemma swap_views s G a g pa la pg lg ca cg :
  inv s G -> a <> g -> view G a = Some (VStr pa la) -> view G g = Some (VStr pg lg) ->
  G !! a = Some ca -> G !! g = Some cg ->
  let G' := <[a:=cg]> (<[g:=ca]> G) in
  frame {[a; g]} G G' /\
  ((exists p, view G' a = Some (VStr p lg)) /\ (exclusive G g -> exclusive G' a) /\ room G' a = room G g) /\
  ((exists p, view G' g = Some (VStr p la)) /\ (exclusive G a -> exclusive G' g) /\ room G' g = room G a).
Proof.
  intros Hi Hne Hva Hvg Ha Hg G'.
  assert (Hnb : forall x k cap l, x = a \/ x = g -> G !! x <> Some (Blk k cap l)).
  { intros x k cap l Hx E. destruct Hx as [-> | ->]; unfold view in *; [rewrite E in Hva|rewrite E in Hvg]; done. }
  assert (Hb : forall b k cap l, G !! b = Some (Blk k cap l) -> G' !! b = Some (Blk k cap l)).
  { intros b k cap l E. unfold G'. rewrite !lookup_insert_ne; [done|..]; intros ->; by eapply Hnb; [|exact E]; auto. }
  assert (Hn : forall b, nrefs G' b = nrefs G b) by (intros b; by apply nrefs_swap).
  split; [|split].
  - apply (frame_intro s); [done|..].
    + intros x Hx k cap l. apply Hnb. set_solver.
    + intros x Hx. left. unfold G'. rewrite !lookup_insert_ne; [done|set_solver..].
  - eapply swap_view; [done|done|unfold G'; by rewrite lookup_insert_eq|done|done].
  - eapply swap_view; [done|done|unfold G'; by rewrite lookup_insert_ne, lookup_insert_eq|done|done].
Qed.
End Local.
