(* ===== verification/FBStringResize.v ===== *)
(** * FBString: [reserve], [expandNoinit], [push_back] and [shrink] of a core *)

From stdpp Require Import base list gmap strings.
From S2P Require Import Prelude Bits FBStringMem FBStringCore FBStringInv FBStringStep FBStringLife FBStringInit FBStringGrow.

Section Reserve.
Context `{Platform}.
Implicit Types (s : Machine) (G : Ghost).

Lemma reserve_unfold n a m dis :
  reserve_ (S n) a m dis =
    (c ← category a;
     (if decide (c = isSmall) then reserveSmall a m dis
      else if decide (c = isMedium) then reserveMedium (reserve_ n) a m
      else if decide (c = isLarge) then reserveLarge a m
      else fault "unreachable");;
     n ← fbcore_capacity a;
     FBSTRING_ASSERT (bool_decide (n >= m))).
Proof. done. Qed.

(** One level of [reserve] on an empty small core. *)
Lemma reserve_nascent_wp n s G t m (Q : unit -> Machine -> Prop) (X : exn -> Machine -> Prop) :
  inv s G -> G !! t = Some (Small []) -> 254 < m <= max_request ->
  (forall s', ml_reserved t G [] m s' -> Q tt s') -> (forall s', inv s' G -> X bad_alloc s') ->
  wp (reserve_ (S n) t m FBSTRING_DISABLE_SSO) s Q X.
Proof.
  intros Hi Ht Hm HQ HX. destruct (to_small s G t [] Hi Ht) as (d & k & c & Hs). rewrite reserve_unfold.
  apply wp_bind. eapply small_category_wp; [apply Hi|done|]. rewrite decide_True by done.
  apply wp_bind. eapply reserveSmall_wp; [done|done|lia|right; change (zlen []) with 0; lia| |done].
  intros s' Hr Hml. eapply assert_capacity_wp; [exact Hr|lia|]. apply HQ, Hml. right. lia.
Qed.

Lemma reserveMedium_wp s G a b cap l blk m n (Q : unit -> Machine -> Prop) (X : exn -> Machine -> Prop) :
  inv s G -> is_ml s G a b Medium cap l blk -> 0 <= m <= max_request ->
  (forall s', ml_reserved a G l m s' -> Q tt s') -> (forall s', unchanged G s' -> X bad_alloc s') ->
  wp (reserveMedium (reserve_ (S n)) a m) s Q X.
Proof.
  intros Hi Hml Hm HQ HX. pose proof (ml_cap_bound _ _ _ _ _ _ _ _ Hml) as (Hcap & Hln & Hb47).
  pose proof (ml_obj _ _ _ _ _ _ _ _ Hml) as Ha. pose proof (ml_blk _ _ _ _ _ _ _ _ Hml) as Hb.
  pose proof (ml_view _ _ _ _ _ _ _ _ Hml) as Hv.
  assert (Hn : nrefs G b = 1%nat) by exact (ml_count _ _ _ _ _ _ _ _ Hml). assert (Hab : a <> b) by cells_ne.
  apply wp_bind. eapply ml_is_category_wp; [apply Hi|done|]. apply wp_bind, wp_assert; [done|].
  apply wp_bind. eapply ml_cap_of_wp; [apply Hi|done|]. unfold max_request, address_space in Hm.
  destruct (decide (m <= cap)) as [Hle|Hgt].
  { apply wp_ret, HQ. exists G, (b + hdr Medium), b. split_and!; [done|apply frame_refl|done|..|done].
    - unfold exclusive. by rewrite Ha.
    - unfold room. by rewrite Ha, Hb. }
  destruct (decide (m <= maxMediumSize)) as [Hmed|Hlarge].
  - pose proof (medium_alloc m ltac:(unfold address_space, maxMediumSize in *; lia)) as Hg.
    set (g := goodMallocSize (u64 (1 + m))) in *.
    apply wp_bind. eapply ml_data_of_wp; [apply Hi|done|]. apply wp_bind. eapply ml_size_of_wp; [apply Hi|done|].
    destruct (open_ref s G a b Medium cap l Hi Ha Hb Hn) as (blk1 & Hr & Ho & Hbytes & Hi1).
    pose proof Hr as [_ Hroom _]. unfold hdr in Hroom. rewrite !(u64_small (_ + 1)) by lia. fold g.
    unfold hdr at 1. rewrite Z.add_0_r.
    apply wp_bind. eapply smartRealloc_wp; [exact Hi1|by rewrite lookup_insert_eq|lia|lia|lia| |].
    2: { intros s' Hi'. apply HX, inv_unchanged. by eapply reclose_ref. }
    intros s2 b' blk2 Hi2 Hb' Hpos' Htop' Hl2 Hsl. unfold address_space in Htop'.
    destruct (blk_rep_moved Medium cap (g - 1) l blk1 blk2) as [Hr2 Ho2]; [done|done|lia|unfold hdr; lia|exact Hsl|].
    assert (Hb'2 : b' = b \/ G !! b' = None).
    { destruct Hb' as [->|Hb']; [by left|]. destruct (decide (b' = b)) as [->|Hne]; [by left|right].
      rewrite lookup_insert_ne in Hb' by done. apply lookup_insert_None in Hb'. by destruct Hb'. }
    assert (Hab' : a <> b') by (destruct Hb'2; congruence). rewrite delete_insert_eq in Hi2.
    apply wp_bind. eapply set_data_wp; [exact Hi2| |].
    { rewrite lookup_insert_ne, lookup_delete_ne, lookup_insert_eq by done. done. }
    intros s3 Hi3 _. eapply (set_capacity_wp s3 _ a); [exact Hi3|by rewrite lookup_insert_eq|].
    intros s4 Hi4 _. rewrite insert_insert_eq in Hi4. rewrite (u64_small (g - 1)) in Hi4 by lia.
    apply HQ. apply ml_reserved_mono with (g - 1); [lia|].
    eapply (moved_reserved s s4 G a b Medium); [done|done|done|exact Hb'2| |exact Hr2|exact Ho2].
    unfold hdr. rewrite !Z.add_0_r. unfold hdr in Hi4. rewrite Z.add_0_r in Hi4. exact Hi4.
  - unfold maxMediumSize in Hlarge. eapply local_core_wp; [done|]. intros s1 t r Hi1 Ht Hneg Hlr.
    assert (Hat : a <> t) by congruence.
    eapply reset_wp; [exact Hi1|by rewrite lookup_insert_eq|done|]. intros s2 Hi2. rewrite insert_insert_eq in Hi2.
    assert (HF2 : frame {[t]} G (<[t:=Small []]> G)) by by eapply frame_new.
    apply wp_bind. eapply reserve_nascent_wp; [exact Hi2|by rewrite lookup_insert_eq|unfold max_request, address_space; lia|..].
    + intros s3 (G3 & p3 & b3 & Hi3 & HF3 & Hv3 & He3 & Hr3 & Ht3).
      assert (HF : frame {[t]} G G3) by by eapply frame_trans.
      assert (Hva : view G3 a = Some (VStr (b + hdr Medium) l)) by (rewrite HF; [done|set_solver]).
      destruct (to_ml s3 G3 t b3 Hi3 Ht3) as (k3 & cap3 & l3 & blk3 & Hml3).
      pose proof (ml_view _ _ _ _ _ _ _ _ Hml3) as E3. rewrite Hv3 in E3. injection E3 as -> <-.
      unfold exclusive in He3. rewrite Ht3 in He3. unfold room in Hr3. rewrite Ht3, (ml_blk _ _ _ _ _ _ _ _ Hml3) in Hr3.
      assert (Hvc : exists b', G3 !! a = Some (Ref b')).
      { destruct (view_cases s3 G3 a _ l Hi3 Hva) as [(E & _)|(b' & k' & cap' & blk' & _ & Hml')].
        - unfold hdr in E. rewrite Z.add_0_r in E. congruence.
        - exists b'. apply Hml'. }
      destruct Hvc as [b' Ha3].
      eapply (nascent_takes_wp s3 G3 a _ l b' t b3 k3 cap3 m); [exact Hi3|exact Hva|done|done|by apply Hml3|done|done|lia|lia|].
      intros s4 G4 p4 pt lt Hi4 HF4 Hv4 He4 Hr4 Ha4 Hvt4. exists G4, pt, lt. split; [done|]. split; [done|].
      intros s5 G5 Hi5 Hd. apply HQ. destruct (dr_exclusive _ _ _ Hd a Hat He4) as [He5 Hr5].
      exists G5, p4, b3. split_and!; [done| | |done|lia|by eapply dr_ref].
      * intros x Hx%not_elem_of_singleton. destruct (decide (x = t)) as [->|Hxt].
        -- rewrite (dr_gone _ _ _ Hd). unfold view. by rewrite Ht.
        -- rewrite (dr_frame _ _ _ Hd), HF4, HF; [done|set_solver..].
      * rewrite (dr_frame _ _ _ Hd); [done|set_solver].
    + intros s3 Hi3. exists (<[t:=Small []]> G), t, []. split; [done|].
      split; [unfold view; by rewrite lookup_insert_eq|]. intros s4 G4 Hi4 Hd. by eapply HX, dropped_unchanged.
Qed.

(** [reserve]: the text stays, there is room for [m] characters, nobody shares
    them. *)
Lemma core_reserve_wp s G a p l m dis (Q : unit -> Machine -> Prop) (X : exn -> Machine -> Prop) :
  inv s G -> view G a = Some (VStr p l) -> 0 <= m <= max_request -> dis = false \/ zlen l <= m ->
  (forall s', reserved a G l m s' -> ((exists b, G !! a = Some (Ref b)) -> ml_reserved a G l m s') -> Q tt s') ->
  (forall s', unchanged G s' -> X bad_alloc s') ->
  wp (core_reserve a m dis) s Q X.
Proof.
  intros Hi Hv Hm Hl HQ HX. unfold core_reserve. rewrite reserve_unfold.
  destruct (view_cases s G a p l Hi Hv) as [(-> & d & n & c & Hs)|(b & k & cap & blk & -> & Hml)].
  - apply wp_bind. eapply small_category_wp; [apply Hi|done|]. rewrite decide_True by done. apply wp_bind.
    pose proof (sm_obj _ _ _ _ _ _ _ Hs) as Ha.
    eapply reserveSmall_wp; [done|done|done|done| |].
    + intros s' Hr _. eapply assert_capacity_wp; [exact Hr|lia|]. apply HQ; [done|]. intros [b Hb]. congruence.
    + intros s' Hi'. apply HX. by apply inv_unchanged.
  - apply wp_bind. eapply ml_category_wp; [apply Hi|done|]. rewrite decide_False by by destruct k.
    assert (Hend : forall s', ml_reserved a G l m s' ->
      wp (n ← fbcore_capacity a; FBSTRING_ASSERT (bool_decide (n >= m))) s' Q X).
    { intros s' Hr. eapply assert_capacity_wp; [by apply ml_reserved_reserved|lia|].
      apply HQ; [by apply ml_reserved_reserved|done]. }
    apply wp_bind. destruct k.
    + rewrite decide_True by done. eapply reserveMedium_wp; [exact Hi|exact Hml|exact Hm|exact Hend|exact HX].
    + rewrite decide_False, decide_True by done. eapply reserveLarge_wp; [done|done|done|done|].
      intros s' Hi'. apply HX. by apply inv_unchanged.
Qed.
End Reserve.

(** ** A new size in place *)

(** [l'] is [l] cut, or [l] with something after it. *)
Definition resized (l l' : list Z) : Prop :=
  (zlen l' <= zlen l -> l' = slice 0 (zlen l') l) /\ (zlen l <= zlen l' -> exists ext, l' = l ++ ext).

Lemma resized_slice k l blk m :
  slice (hdr k) (zlen l + 1) blk = l ++ [0] -> 0 <= m -> hdr k + m <= zlen blk -> resized l (slice (hdr k) m blk).
Proof.
  intros Ht Hm Hle. assert (0 <= hdr k) by by destruct k. pose proof (zlen_nonneg l).
  assert (El : slice (hdr k) (zlen l) blk = l).
  { apply (f_equal (take (Z.to_nat (zlen l)))) in Ht. rewrite take_slice in Ht by lia.
    rewrite Ht. unfold zlen. rewrite Nat2Z.id. apply take_app_length. }
  unfold resized. rewrite zlen_slice by lia. split; intros Hlm.
  - rewrite <- El at 1. unfold slice at 2. rewrite drop_0. by rewrite take_slice by lia.
  - exists (slice (hdr k + zlen l) (m - zlen l) blk). rewrite <- El at 1. rewrite <- slice_split by lia. f_equal. lia.
Qed.

Section Retext.
Implicit Types (s : Machine) (G : Ghost).

(** The size of a string nobody shares changes, with its terminator. *)
Lemma retext_wp {A} s G a b k cap l blk m (K : Run A) (Q : A -> Machine -> Prop) X :
  inv s G -> is_ml s G a b k cap l blk -> nrefs G b = 1%nat -> 0 <= m <= cap ->
  (forall s' l', zlen l' = m -> resized l l' -> inv s' (<[b:=Blk k cap l']> G) -> wp K s' Q X) ->
  wp (set_ml_size a m;; d ← ml_data a; store_byte (d + m) 0;; K) s Q X.
Proof.
  intros Hi Hml Hn Hm HK. pose proof (ml_obj _ _ _ _ _ _ _ _ Hml) as Ha. pose proof (ml_blk _ _ _ _ _ _ _ _ Hml) as Hb.
  assert (Hab : a <> b) by cells_ne. pose proof (ml_fits _ _ _ _ _ _ _ _ Hml) as (Hfd & _ & _).
  destruct (open_ref s G a b k cap l Hi Ha Hb Hn) as (blk1 & Hr & Ho & Hbytes & Hi1).
  pose proof Hr as [Hs Hroom Ht]. assert (0 <= hdr k) by by destruct k.
  apply wp_bind. eapply set_size_wp; [exact Hi1|by rewrite lookup_insert_ne, lookup_insert_eq|]. intros s2 Hi2 _.
  rewrite (insert_insert_ne _ a b), insert_insert_eq in Hi2 by done.
  set (w := words (b + hdr k) m (capword k cap)) in *.
  apply wp_bind. eapply ml_data_wp; [apply Hi2|eapply raw_mem; [exact Hi2|by rewrite lookup_insert_ne, lookup_insert_eq]|done|].
  rewrite <- Z.add_assoc. apply wp_bind.
  eapply raw_store_wp; [exact Hi2|by rewrite lookup_insert_eq|lia| |by constructor|].
  { change (zlen [0]) with 1. lia. }
  intros s3 Hi3 _. rewrite insert_insert_eq in Hi3.
  set (blk2 := overwrite (hdr k + m) [0] blk1) in *. set (l' := slice (hdr k) m blk1).
  assert (E1 : zlen [0] = 1) by done.
  assert (Hl' : zlen l' = m) by (apply zlen_slice; lia).
  assert (Hr2 : blk_rep k cap l' blk2).
  { unfold blk2. split; [lia|rewrite zlen_overwrite; lia|]. rewrite Hl', slice_split by lia. f_equal.
    - apply slice_overwrite_before; lia.
    - rewrite <- E1 at 1. apply slice_overwrite; lia. }
  eapply (close_ref s3 _ a false b k cap l' blk2) in Hi3;
    [|rewrite lookup_insert_ne, lookup_insert_eq by done; by rewrite Hl'|by rewrite lookup_insert_eq|done|done
     |by apply one_owner_overwrite; [lia|lia|]].
  rewrite insert_insert_eq, (insert_insert_ne _ a b), insert_insert_eq, (insert_id G a) in Hi3 by done.
  eapply HK; [exact Hl'| |exact Hi3]. apply resized_slice; [done|lia|lia].
Qed.

(** The string at [a] with the new text of its allocation. *)
Lemma retext_reserved s s' G a b k cap l l' blk :
  inv s G -> is_ml s G a b k cap l blk -> nrefs G b = 1%nat -> inv s' (<[b:=Blk k cap l']> G) ->
  let G' := <[b:=Blk k cap l']> G in
  frame {[a]} G G' /\ view G' a = Some (VStr (b + hdr k) l') /\ exclusive G' a /\ room G' a = cap /\
  G' !! a = Some (Ref b).
Proof.
  intros Hi Hml Hn Hi' G'. pose proof (ml_obj _ _ _ _ _ _ _ _ Hml) as Ha. pose proof (ml_blk _ _ _ _ _ _ _ _ Hml) as Hb.
  assert (Hab : a <> b) by cells_ne.
  assert (Ea : G' !! a = Some (Ref b)) by (unfold G'; by rewrite lookup_insert_ne).
  assert (Eb : G' !! b = Some (Blk k cap l')) by (unfold G'; by rewrite lookup_insert_eq).
  split_and!; [|unfold view; by rewrite Ea, Eb| |unfold room; by rewrite Ea, Eb|done].
  - apply (frame_unreferenced s); [done|..].
    + intros x y ->%elem_of_singleton _ Ey. destruct (inv_cells s G Hi y _ Ey) as (? & _ & ? & ? & ? & E & _). congruence.
    + intros x Hx%not_elem_of_singleton. destruct (decide (x = b)) as [->|Hxb].
      * right. rewrite Hb, Eb. split_and!; [done..|]. intros y Hy%not_elem_of_singleton Ey.
        apply Hy. symmetry. by eapply nrefs_unique.
      * left. unfold G'. by rewrite lookup_insert_ne.
  - unfold exclusive. rewrite Ea. unfold G'. by erewrite nrefs_insert.
Qed.
End Retext.

(** ** Growth *)

Lemma overwrite_same o (bs r : list Z) :
  0 <= o -> o + zlen bs <= zlen r -> slice o (zlen bs) r = bs -> overwrite o bs r = r.
Proof.
  intros Ho Hle E. unfold overwrite, slice, zlen in *. rewrite Nat2Z.id in E. rewrite <- E at 1.
  rewrite <- drop_drop. by rewrite take_drop, take_drop.
Qed.

Lemma set_region_id s b r : mem s !! b = Some r -> set_region b r s = s.
Proof. intros Hb. unfold set_region, set_mem. rewrite insert_id by done. by destruct s. Qed.

Section Expand.
Context `{Platform}.
Implicit Types (s : Machine) (G : Ghost).

Lemma expand_finish_wp s G a b p l m (Q : Z -> Machine -> Prop) X :
  inv s G -> G !! a = Some (Ref b) -> view G a = Some (VStr p l) -> exclusive G a -> zlen l <= m <= room G a ->
  (forall s' G' ext, inv s' G' -> frame {[a]} G G' -> view G' a = Some (VStr p (l ++ ext)) ->
     zlen ext = m - zlen l -> exclusive G' a -> Q (p + zlen l) s') ->
  wp (expand_finish a (zlen l) m) s Q X.
Proof.
  intros Hi Ha Hv He Hm HQ. pose proof (zlen_nonneg l).
  destruct (to_ml s G a b Hi Ha) as (k & cap & l0 & blk & Hml).
  pose proof (ml_view _ _ _ _ _ _ _ _ Hml) as E. rewrite Hv in E. injection E as -> <-.
  assert (Hn : nrefs G b = 1%nat) by (unfold exclusive in He; by rewrite Ha in He).
  assert (Ecap : room G a = cap) by (unfold room; by rewrite Ha, (ml_blk _ _ _ _ _ _ _ _ Hml)).
  apply wp_bind. eapply ml_capacity_wp; [apply Hi|done|]. rewrite decide_True by done.
  apply wp_bind, wp_assert; [apply bool_decide_eq_true; lia|].
  apply wp_bind. eapply ml_category_wp; [apply Hi|done|].
  apply wp_bind, wp_assert; [apply bool_decide_eq_true; destruct k; auto|].
  eapply retext_wp; [done|done|done|lia|]. intros s' l' Hl' [_ Hres] Hi'.
  destruct (Hres ltac:(lia)) as [ext ->].
  destruct (retext_reserved s s' G a b k cap l (l ++ ext) blk Hi Hml Hn Hi') as (HF & Hv' & He' & _ & Ha').
  apply wp_bind. eapply size_wp; [exact Hi'|exact Hv'|].
  apply wp_bind, wp_assert; [by apply bool_decide_eq_true|].
  destruct (to_ml_at s' _ a b k cap (l ++ ext) Hi') as [blk' Hml']; [done|by rewrite lookup_insert_eq|].
  apply wp_bind. eapply ml_data_of_wp; [apply Hi'|done|]. apply wp_ret.
  eapply HQ; [exact Hi'|done|done| |done]. rewrite zlen_app in Hl'. lia.
Qed.

(** Growing by nothing writes the terminator over itself. *)
Lemma expand_nothing_wp s G a b p l (Q : Z -> Machine -> Prop) X :
  inv s G -> G !! a = Some (Ref b) -> view G a = Some (VStr p l) -> Q (p + zlen l) s ->
  wp (expand_finish a (zlen l) (zlen l)) s Q X.
Proof.
  intros Hi Ha Hv HQ. destruct (to_ml s G a b Hi Ha) as (k & cap & l0 & blk & Hml).
  pose proof (ml_view _ _ _ _ _ _ _ _ Hml) as E. rewrite Hv in E. injection E as -> <-.
  pose proof (ml_cap_bound _ _ _ _ _ _ _ _ Hml) as (Hcap & Hln & _). pose proof (inv_mem s G Hi) as Hm.
  destruct (ml_rep _ _ _ _ _ _ _ _ Hml) as [_ Hroom Ht]. assert (0 <= hdr k) by by destruct k.
  apply wp_bind. eapply ml_capacity_wp; [done|done|].
  apply wp_bind, wp_assert; [apply bool_decide_eq_true; destruct (decide (nrefs G b = 1%nat)); lia|].
  apply wp_bind. eapply ml_category_wp; [done|done|].
  apply wp_bind, wp_assert; [apply bool_decide_eq_true; destruct k; auto|].
  apply wp_bind. eapply store_bytes_wp; [done|by apply Hml|done|done|]. rewrite words_set_size, set_region_id by apply Hml.
  apply wp_bind. eapply ml_data_of_wp; [done|done|]. apply wp_bind. rewrite <- Z.add_assoc.
  eapply store_bytes_wp; [done|by apply Hml|lia|change (zlen [0]) with 1; lia|].
  assert (E0 : slice (hdr k + zlen l) 1 blk = [0]).
  { rewrite slice_split in Ht by lia. apply app_inj_2 in Ht as [_ Ht]; [done|].
    apply Nat2Z.inj. exact (zlen_slice (hdr k + zlen l) 1 blk ltac:(lia) ltac:(lia) ltac:(lia)). }
  rewrite overwrite_same, set_region_id; [|apply Hml|lia|change (zlen [0]) with 1; lia|exact E0].
  apply wp_bind. eapply ml_size_op_wp; [done|done|]. apply wp_bind, wp_assert; [by apply bool_decide_eq_true|].
  apply wp_bind. eapply ml_data_of_wp; [done|done|]. by apply wp_ret.
Qed.

(** What [expandNoinit] leaves: the text followed by [delta] characters. *)
Definition expanded (a : Z) (G : Ghost) (l : list Z) (delta r : Z) (s' : Machine) : Prop :=
  exists G' p ext, inv s' G' /\ frame {[a]} G G' /\ view G' a = Some (VStr p (l ++ ext)) /\ zlen ext = delta /\
    r = p + zlen l /\ (0 < delta \/ exclusive G a -> exclusive G' a).

Lemma reserved_expand_wp s s' G a l m (Q : Z -> Machine -> Prop) X :
  inv s G -> ml_reserved a G l m s' -> zlen l <= m ->
  (forall r s', expanded a G l (m - zlen l) r s' -> Q r s') -> wp (expand_finish a (zlen l) m) s' Q X.
Proof.
  intros Hi (G' & p & b & Hi' & HF & Hv & He & Hr & Ha) Hm HQ.
  eapply expand_finish_wp; [done|done|done|done|lia|]. intros s2 G2 ext Hi2 HF2 Hv2 Hext He2. apply HQ.
  exists G2, p, ext. split_and!; [done|by eapply frame_trans|done|done|done|done].
Qed.

Lemma expand_small_wp s G a l delta eg dis (Q : Z -> Machine -> Prop) (X : exn -> Machine -> Prop) :
  inv s G -> G !! a = Some (Small l) -> 0 <= delta -> zlen l + delta < address_space ->
  (forall r s', expanded a G l delta r s' -> Q r s') -> (forall s', inv s' G -> X bad_alloc s') ->
  wp (sz ← smallSize a;
      let newSz := u64 (sz + delta) in
      if decide (dis = false /\ newSz <= maxSmallSize) then setSmallSize a newSz;; mret (a + sz)
      else reserveSmall a (if eg : bool then Z.max newSz (2 * maxSmallSize) else newSz) dis;;
           expand_finish a sz newSz) s Q X.
Proof.
  intros Hi Ha Hd Hmax HQ HX. pose proof (zlen_nonneg l). unfold address_space in Hmax.
  destruct (to_small s G a l Hi Ha) as (d & n & c & Hs). pose proof (small_len _ _ _ _ _ _ _ Hs) as Hlen.
  apply wp_bind. eapply small_smallSize_wp; [apply Hi|done|]. cbv zeta. rewrite u64_small by lia.
  unfold maxSmallSize, lastChar. destruct (decide (dis = false /\ zlen l + delta <= 23)) as [[-> Hfit]|Hbig].
  - destruct (open_small s G a l Hi Ha) as (bs & _ & (Hbl & _ & _ & Ht) & _ & Hi1).
    apply wp_bind. eapply setSmallSize_wp; [exact Hi1|by rewrite lookup_insert_eq|done|lia|].
    intros s2 Hi2. rewrite insert_insert_eq in Hi2. apply wp_ret, HQ.
    destruct (resized_slice Medium l bs (zlen l + delta)) as [_ Hres]; [exact Ht|lia|unfold hdr; lia|].
    unfold hdr in Hres. assert (Hz : zlen (slice 0 (zlen l + delta) bs) = zlen l + delta) by (apply zlen_slice; lia).
    destruct (Hres ltac:(lia)) as [ext E]. rewrite E in *.
    exists (<[a:=Small (l ++ ext)]> G), a, ext. split_and!; [done| | | |done|].
    + eapply (frame_raw s G a (Small l)); [done|done|by intros []].
    + unfold view. by rewrite lookup_insert_eq.
    + rewrite zlen_app in Hz. lia.
    + intros _. unfold exclusive. by rewrite lookup_insert_eq.
  - apply wp_bind. eapply reserveSmall_wp; [done|done|destruct eg; unfold max_request, address_space; lia|right; destruct eg; lia| |done].
    intros s' _ Hml. assert (Hbig' : dis = true \/ 23 < zlen l + delta).
    { destruct dis; [by left|right]. destruct (decide (zlen l + delta <= 23)); [|lia]. exfalso. by apply Hbig. }
    eapply reserved_expand_wp; [done| |lia|].
    + eapply ml_reserved_mono, Hml; [|destruct eg, Hbig'; auto; right; lia]. destruct eg; lia.
    + intros r s2. replace (zlen l + delta - zlen l) with delta by lia. apply HQ.
Qed.

(** [expandNoinit]. *)
Lemma expandNoinit_wp s G a p l delta eg dis (Q : Z -> Machine -> Prop) (X : exn -> Machine -> Prop) :
  inv s G -> view G a = Some (VStr p l) -> 0 <= delta -> zlen l + delta < address_space ->
  (forall r s', expanded a G l delta r s' -> Q r s') -> (forall s', unchanged G s' -> X bad_alloc s') ->
  wp (expandNoinit a delta eg dis) s Q X.
Proof.
  intros Hi Hv Hd Hmax HQ HX. pose proof (zlen_nonneg l).
  apply wp_bind. eapply capacity_cases_wp; [done|done|]. intros c0 _ Hc0.
  apply wp_bind. eapply size_wp; [done|done|]. apply wp_bind, wp_assert; [apply bool_decide_eq_true; lia|].
  destruct (view_cases s G a p l Hi Hv) as [(-> & d & n & c & Hs)|(b & k & cap & blk & -> & Hml)].
  - apply wp_bind. eapply small_is_category_wp; [apply Hi|done|]. rewrite bool_decide_eq_true_2 by done.
    eapply expand_small_wp; [done|by apply Hs|done|done|done|]. intros s' Hi'. by apply HX, inv_unchanged.
  - pose proof (ml_cap_bound _ _ _ _ _ _ _ _ Hml) as (Hcap & Hln & _).
    pose proof (ml_obj _ _ _ _ _ _ _ _ Hml) as Ha. unfold address_space in Hmax.
    apply wp_bind. eapply ml_is_category_wp; [apply Hi|done|]. rewrite bool_decide_eq_false_2 by by destruct k.
    apply wp_bind. eapply ml_size_of_wp; [apply Hi|done|]. cbv zeta. rewrite (u64_small (zlen l + delta)) by lia.
    apply wp_bind. eapply capacity_cases_wp; [done|done|]. intros c Hc Hcl.
    assert (Hcr : c < 2 ^ 47).
    { destruct Hc as [[_ ->]|[_ ->]]; [|lia]. unfold room. rewrite Ha, (ml_blk _ _ _ _ _ _ _ _ Hml). lia. }
    apply wp_bind. destruct (decide (zlen l + delta > c)) as [Hgt|Hle].
    + assert (Hreq : zlen l + delta <= (if eg then Z.max (zlen l + delta) (u64 (1 + u64 (c * 3) / 2)) else zlen l + delta) <= max_request).
      { unfold max_request, address_space. rewrite (u64_small (c * 3)), u64_small by euclid. destruct eg; euclid. }
      eapply core_reserve_wp; [done|done|lia|right; lia| |done]. intros s' _ Hres.
      eapply reserved_expand_wp; [done|eapply ml_reserved_mono, Hres; [apply Hreq|by exists b]|lia|].
      intros r s2. replace (zlen l + delta - zlen l) with delta by lia. apply HQ.
    + apply wp_ret. destruct Hc as [[He ->]|[He ->]].
      * eapply expand_finish_wp; [done|done|done|done|lia|]. intros s' G' ext Hi' HF Hv' Hext He'. apply HQ.
        exists G', (b + hdr k), ext. split_and!; [done|done|done|lia|done|done].
      * assert (delta = 0) as -> by lia. rewrite Z.add_0_r. eapply expand_nothing_wp; [done|done|done|]. apply HQ.
        exists G, (b + hdr k), []. rewrite app_nil_r. split_and!; [done|apply frame_refl|done|done|done|].
        intros [?|?]; [lia|done].
Qed.

(** A store into the text of a string that nobody shares. *)
Lemma store_text_wp s G a p l o bs (Q : unit -> Machine -> Prop) X :
  inv s G -> view G a = Some (VStr p l) -> exclusive G a -> Forall byte bs -> 0 <= o -> o + zlen bs <= zlen l ->
  (forall s' G', inv s' G' -> frame {[a]} G G' -> view G' a = Some (VStr p (overwrite o bs l)) -> exclusive G' a ->
     room G' a = room G a -> Q tt s') ->
  wp (store_bytes (p + o) bs) s Q X.
Proof.
  intros Hi Hv He Hbs Ho Hle HQ. pose proof (zlen_nonneg bs). pose proof (zlen_overwrite o bs l Ho Hle) as Hlo.
  destruct (view_cases s G a p l Hi Hv) as [(-> & d & n & c & Hs)|(b & k & cap & blk & -> & Hml)].
  - pose proof (sm_obj _ _ _ _ _ _ _ Hs) as Ha.
    destruct (open_small s G a l Hi Ha) as (r & _ & (Hrl & Hmax & Hlast & Ht) & _ & Hi1). unfold maxSmallSize, lastChar in *.
    eapply raw_store_wp; [exact Hi1|by rewrite lookup_insert_eq|done|lia|done|]. intros s2 Hi2 _. rewrite insert_insert_eq in Hi2.
    eapply (close_small s2 _ a false _ (overwrite o bs l)) in Hi2; [|by rewrite lookup_insert_eq|].
    + rewrite insert_insert_eq in Hi2. eapply HQ; [exact Hi2|eapply (frame_raw s G a (Small l)); [done|done|by intros []]|..].
      * unfold view. by rewrite lookup_insert_eq.
      * unfold exclusive. by rewrite lookup_insert_eq.
      * unfold room. by rewrite lookup_insert_eq, Ha.
    + split_and!; [by rewrite zlen_overwrite by lia|by rewrite Hlo|..].
      * rewrite Hlo, slice_overwrite_after by lia. done.
      * rewrite Hlo. rewrite <- (Z.add_0_l o) at 1. rewrite slice_overwrite_in, Ht by lia. by apply overwrite_app.
  - pose proof (ml_obj _ _ _ _ _ _ _ _ Hml) as Ha. pose proof (ml_blk _ _ _ _ _ _ _ _ Hml) as Hb.
    assert (Hn : nrefs G b = 1%nat) by (unfold exclusive in He; by rewrite Ha in He). assert (Hab : a <> b) by cells_ne.
    destruct (open_ref s G a b k cap l Hi Ha Hb Hn) as (r & [Hsz Hroom Ht] & Hone & _ & Hi1).
    assert (0 <= hdr k) by by destruct k. rewrite <- Z.add_assoc.
    eapply raw_store_wp; [exact Hi1|by rewrite lookup_insert_eq|lia|lia|done|]. intros s2 Hi2 _. rewrite insert_insert_eq in Hi2.
    eapply (close_ref s2 _ a false b k cap (overwrite o bs l)) in Hi2;
      [|rewrite lookup_insert_ne, lookup_insert_eq by done; by rewrite Hlo|by rewrite lookup_insert_eq|done|
       |by apply one_owner_overwrite; [lia|lia|]].
    + rewrite insert_insert_eq, (insert_insert_ne _ a b), insert_insert_eq, (insert_id G a) in Hi2 by done.
      destruct (retext_reserved s s2 G a b k cap l (overwrite o bs l) blk Hi Hml Hn Hi2) as (HF & Hv' & He' & Hr' & _).
      eapply HQ; [exact Hi2|done|done|done|]. rewrite Hr'. unfold room. by rewrite Ha, Hb.
    + split; [lia|rewrite zlen_overwrite; lia|]. rewrite Hlo, slice_overwrite_in, Ht by lia. by apply overwrite_app.
Qed.

(** [push_back]. *)
Lemma push_back_wp s G a p l c (Q : unit -> Machine -> Prop) (X : exn -> Machine -> Prop) :
  inv s G -> view G a = Some (VStr p l) -> byte c -> zlen l + 1 < address_space ->
  (forall s', becomes a G (l ++ [c]) s' -> Q tt s') -> (forall s', unchanged G s' -> X bad_alloc s') ->
  wp (fbcore_push_back a c) s Q X.
Proof.
  intros Hi Hv Hc Hmax HQ HX. pose proof (zlen_nonneg l). apply wp_bind.
  eapply expandNoinit_wp; [done|done|lia|done| |done].
  intros r s1 (G1 & p1 & ext & Hi1 & HF1 & Hv1 & Hext & -> & He1).
  assert (Hl : zlen (l ++ ext) = zlen l + 1) by (rewrite zlen_app; lia).
  eapply store_text_wp; [done|done|apply He1; left; lia|by constructor|lia|change (zlen [c]) with 1; lia|].
  intros s2 G2 Hi2 HF2 Hv2 He2 _. apply HQ. exists G2, p1. split_and!; [done|by eapply frame_trans| |done].
  rewrite Hv2. do 2 f_equal. unfold overwrite, zlen in *. rewrite Nat2Z.id, take_app_length. f_equal.
  rewrite drop_ge; [done|]. rewrite length_app. simpl. lia.
Qed.
End Expand.

(** ** Shrinking *)

Section Shrink.
Context `{Platform}.
Implicit Types (s : Machine) (G : Ghost).

Lemma shrinkMedium_wp s G a b k cap l blk delta (Q : unit -> Machine -> Prop) X :
  inv s G -> is_ml s G a b k cap l blk -> nrefs G b = 1%nat -> 0 <= delta <= zlen l ->
  (forall s', inv s' (<[b:=Blk k cap (slice 0 (zlen l - delta) l)]> G) -> Q tt s') ->
  wp (shrinkMedium a delta) s Q X.
Proof.
  intros Hi Hml Hn Hd HQ. pose proof (ml_cap_bound _ _ _ _ _ _ _ _ Hml) as (_ & Hln & _).
  apply wp_bind. eapply ml_size_of_wp; [apply Hi|done|].
  apply wp_bind, wp_assert; [apply bool_decide_eq_true; lia|].
  eapply retext_wp; [done|done|done|lia|]. intros s' l' Hl' [Hres _] Hi'. apply wp_ret, HQ.
  rewrite Hl' in Hres. by rewrite <- (Hres ltac:(lia)).
Qed.

(** A shared string is cut by copying what is left. *)
Lemma shrinkLarge_wp s G a p l b delta (Q : unit -> Machine -> Prop) (X : exn -> Machine -> Prop) :
  inv s G -> G !! a = Some (Ref b) -> view G a = Some (VStr p l) -> 0 <= delta <= zlen l ->
  (0 < delta -> forall s', becomes a G (slice 0 (zlen l - delta) l) s' -> Q tt s') -> (delta = 0 -> Q tt s) ->
  (0 < delta -> forall s', unchanged G s' -> X bad_alloc s') ->
  wp (shrinkLarge a delta) s Q X.
Proof.
  intros Hi Ha Hv Hd HQ HQ0 HX. destruct (to_ml s G a b Hi Ha) as (k & cap & l0 & blk & Hml).
  pose proof (ml_view _ _ _ _ _ _ _ _ Hml) as E. rewrite Hv in E. injection E as -> <-.
  pose proof (ml_cap_bound _ _ _ _ _ _ _ _ Hml) as (Hcap & Hln & _).
  apply wp_bind. eapply ml_size_of_wp; [apply Hi|done|].
  apply wp_bind, wp_assert; [apply bool_decide_eq_true; lia|].
  destruct (decide (delta <> 0)) as [Hnz|Hz]; [|apply wp_ret, HQ0; lia].
  specialize (HQ ltac:(lia)). specialize (HX ltac:(lia)).
  apply wp_bind. eapply ml_data_of_wp; [apply Hi|done|].
  set (bs := slice 0 (zlen l - delta) l) in *.
  assert (Hbl : zlen bs = zlen l - delta) by (apply zlen_slice; lia).
  assert (Ebs : bs = slice 0 (zlen l - delta) (l ++ [0])).
  { unfold bs, slice. rewrite !drop_0, take_app_le; [done|]. unfold zlen. lia. }
  eapply local_core_wp; [done|]. intros s1 t r Hi1 Ht Hneg Hlr. rewrite <- Hbl.
  assert (Hat : a <> t) by congruence. assert (HF1 : frame {[t]} G (<[t:=Raw false r]> G)) by by eapply frame_new.
  eapply (core_init_wp s1 _ a); [exact Hi1| |by rewrite lookup_insert_eq|done|done|unfold address_space; lia|..].
  { eapply source_frame; [exact HF1|set_solver|]. rewrite Ebs, <- (Z.add_0_r (b + hdr k)).
    apply source_str; [done|lia|lia|lia]. }
  - intros s2 (G2 & pt & Hi2 & HF2 & Hvt & Het).
    assert (HF : frame {[t]} G G2) by by eapply frame_trans.
    assert (Hva : view G2 a = Some (VStr (b + hdr k) l)) by (rewrite HF; [done|set_solver]).
    eapply swap_wp; [exact Hi2|done|exact Hvt|exact Hva|]. intros s3 ct ca Hi3 Ect Eca.
    destruct (swap_views s2 G2 t a pt bs (b + hdr k) l ct ca Hi2) as (HF3 & ((p1 & Hv1) & _ & _) & ((p2 & Hv2) & He2 & _)); [done..|].
    exists (<[t:=ca]> (<[a:=ct]> G2)), p1, l. split; [done|]. split; [done|].
    intros s4 G4 Hi4 Hdr. apply HQ. destruct (dr_exclusive _ _ _ Hdr a Hat (He2 Het)) as [He4 _].
    exists G4, p2. split_and!; [done| |by rewrite (dr_frame _ _ _ Hdr) by set_solver|done].
    intros x Hx%not_elem_of_singleton. destruct (decide (x = t)) as [->|Hxt].
    + rewrite (dr_gone _ _ _ Hdr). unfold view. by rewrite Ht.
    + rewrite (dr_frame _ _ _ Hdr), HF3, HF; [done|set_solver..].
  - intros s2 Hi2. exists (<[t:=Raw false r]> G), r. split; [done|]. split; [by rewrite lookup_insert_eq|].
    intros s4 Hi4. rewrite delete_insert_id in Hi4 by done. by apply HX, inv_unchanged.
Qed.

Lemma shrink_wp s G a p l delta (Q : unit -> Machine -> Prop) (X : exn -> Machine -> Prop) :
  inv s G -> view G a = Some (VStr p l) -> 0 <= delta <= zlen l ->
  (forall s' G' p', inv s' G' -> frame {[a]} G G' -> view G' a = Some (VStr p' (slice 0 (zlen l - delta) l)) ->
     (0 < delta \/ exclusive G a -> exclusive G' a) -> (exclusive G a -> p' = p /\ room G' a = room G a) -> Q tt s') ->
  (0 < delta -> ~ exclusive G a -> forall s', unchanged G s' -> X bad_alloc s') ->
  wp (shrink a delta) s Q X.
Proof.
  intros Hi Hv Hd HQ HX. pose proof (zlen_nonneg l).
  destruct (view_cases s G a p l Hi Hv) as [(-> & d & n & c & Hs)|(b & k & cap & blk & -> & Hml)].
  - pose proof (sm_obj _ _ _ _ _ _ _ Hs) as Ha. pose proof (small_len _ _ _ _ _ _ _ Hs).
    apply wp_bind. eapply small_category_wp; [apply Hi|done|]. rewrite decide_True by done.
    apply wp_bind. eapply small_smallSize_wp; [apply Hi|done|].
    apply wp_bind, wp_assert; [apply bool_decide_eq_true; lia|].
    destruct (open_small s G a l Hi Ha) as (r & _ & (Hrl & _ & _ & Ht) & _ & Hi1).
    eapply setSmallSize_wp; [exact Hi1|by rewrite lookup_insert_eq|done|lia|]. intros s2 Hi2. rewrite insert_insert_eq in Hi2.
    destruct (resized_slice Medium l r (zlen l - delta)) as [Hres _]; [exact Ht|lia|unfold hdr; lia|].
    unfold hdr in Hres. assert (Hz : zlen (slice 0 (zlen l - delta) r) = zlen l - delta) by (apply zlen_slice; lia).
    rewrite Hz in Hres. rewrite (Hres ltac:(lia)) in Hi2. eapply HQ; [exact Hi2|..].
    + eapply (frame_raw s G a (Small l)); [done|done|by intros []].
    + unfold view. by rewrite lookup_insert_eq.
    + intros _. unfold exclusive. by rewrite lookup_insert_eq.
    + intros _. unfold room. by rewrite lookup_insert_eq, Ha.
  - pose proof (ml_obj _ _ _ _ _ _ _ _ Hml) as Ha. pose proof (ml_cap_bound _ _ _ _ _ _ _ _ Hml) as (Hcap & Hln & _).
    apply wp_bind. eapply ml_category_wp; [apply Hi|done|]. rewrite decide_False by by destruct k.
    assert (Hx : exclusive G a <-> nrefs G b = 1%nat) by (unfold exclusive; by rewrite Ha).
    assert (Hm1 : nrefs G b = 1%nat -> wp (shrinkMedium a delta) s Q X).
    { intros Hn. eapply shrinkMedium_wp; [done|done|done|done|]. intros s' Hi'.
      destruct (retext_reserved s s' G a b k cap l _ blk Hi Hml Hn Hi') as (HF & Hv' & He' & Hr' & _).
      eapply HQ; [exact Hi'|done|done|done|]. intros _. split; [done|].
      rewrite Hr'. unfold room. by rewrite Ha, (ml_blk _ _ _ _ _ _ _ _ Hml). }
    pose proof (ml_count _ _ _ _ _ _ _ _ Hml) as Hcount. apply wp_bind. destruct k.
    + rewrite decide_True by done. apply wp_ret. by apply Hm1.
    + rewrite decide_False by done. apply wp_bind. eapply ml_data_of_wp; [apply Hi|done|].
      apply wp_bind. eapply ml_refs_wp; [apply Hi|done|done|]. apply wp_ret. case_bool_decide as Hone.
      * apply Hm1. lia.
      * assert (Hnx : ~ exclusive G a) by (rewrite Hx; lia).
        eapply shrinkLarge_wp; [done|done|done|done|..].
        -- intros Hpos s' (G' & p' & Hi' & HF & Hv' & He'). by eapply HQ.
        -- intros ->. eapply HQ; [done|apply frame_refl| |intros [?|?]; [lia|done]|done].
           rewrite Z.sub_0_r, slice_full. done.
        -- intros Hpos s' Hu. by apply HX.
Qed.
End Shrink.
