(* ===== verification/FBStringModel.v ===== *)
(** * FBString: what a core promises to [basic_fbstring]

    [src/accelerator/FBString.h] documents the signatures a core must offer in a
    mock-up class, [fbstring_core_model], and [basic_fbstring] takes the core as
    a template argument.  The class below is that contract: the operations of a
    core, what a client can see of the memory, and what each operation does to
    it.  [basic_fbstring] is modelled and verified against the class, and
    [fbstring_core] is shown to be an instance. *)

From stdpp Require Import base list gmap strings.
From S2P Require Import Prelude Bits FBStringMem FBStringCore FBStringInv FBStringStep FBStringLife FBStringInit FBStringGrow FBStringResize.

(** The bytes a client may use: the characters of a string, or a buffer. *)
Definition contents (x : Z) (v : View) : Z * list Z :=
  match v with VStr q l => (q, l) | VRaw _ r => (x, r) end.

Class fbstring_core_model `{Platform} := {
  (** the operations *)
  store_size : Z -> Run Z;
  store_data : Z -> Run Z;
  store_mutableData : Z -> Run Z;
  store_capacity : Z -> Run Z;
  store_isShared : Z -> Run bool;
  store_expandNoinit : Z -> Z -> bool -> Run Z;
  store_push_back : Z -> Z -> Run unit;
  store_shrink : Z -> Z -> Run unit;
  store_reserve : Z -> Z -> Run unit;
  store_swap : Z -> Z -> Run unit;
  store_default : Z -> Run unit;
  store_init : Z -> Z -> Z -> Run unit;
  store_copy : Z -> Z -> Run unit;
  store_move : Z -> Z -> Run unit;
  store_dtor : Z -> Run unit;
  (** what a client sees *)
  world : Type;
  holds : Machine -> world -> Prop;
  sees : world -> Z -> option View;
  owns : world -> Z -> Prop;      (* nobody shares the characters *)
  owns_dec : forall W a, Decision (owns W a);
  space : world -> Z -> Z;        (* the room of a string it owns *)
  few : world -> Prop;            (* room for one more reference *)

  (** [bs] is at [p], in the string or in the buffer at [x] *)
  range (W : world) (x p : Z) (bs : list Z) : Prop :=
    exists v o, sees W x = Some v /\ p = (contents x v).1 + o /\ 0 <= o /\
      o + zlen bs <= zlen (contents x v).2 /\ slice o (zlen bs) (contents x v).2 = bs;
  same (A : gset Z) (W W' : world) : Prop := forall a, a ∉ A -> sees W' a = sees W a;
  untouched (W : world) (s' : Machine) : Prop := exists W', holds s' W' /\ same ∅ W W';

  (** reading *)
  law_size : forall s W a p l (Q : Z -> Machine -> Prop) X,
    holds s W -> sees W a = Some (VStr p l) -> Q (zlen l) s -> wp (store_size a) s Q X;
  law_data : forall s W a p l (Q : Z -> Machine -> Prop) X,
    holds s W -> sees W a = Some (VStr p l) -> Q p s -> wp (store_data a) s Q X;
  law_capacity : forall s W a p l (Q : Z -> Machine -> Prop) X,
    holds s W -> sees W a = Some (VStr p l) ->
    (forall c, (owns W a -> c = space W a) -> (~ owns W a -> c = zlen l) -> zlen l <= c < address_space -> Q c s) ->
    wp (store_capacity a) s Q X;
  law_isShared : forall s W a p l (Q : bool -> Machine -> Prop) X,
    holds s W -> sees W a = Some (VStr p l) -> Q (bool_decide (~ owns W a)) s -> wp (store_isShared a) s Q X;
  law_load : forall s W x p bs (Q : list Z -> Machine -> Prop) X,
    holds s W -> range W x p bs -> Q bs s -> wp (load_bytes p (zlen bs)) s Q X;
  law_terminator : forall s W a p l (Q : list Z -> Machine -> Prop) X,
    holds s W -> sees W a = Some (VStr p l) -> Q [0] s -> wp (load_bytes (p + zlen l) 1) s Q X;
  law_bytes : forall s W x v, holds s W -> sees W x = Some v -> Forall byte (contents x v).2;
  law_place : forall s W x v, holds s W -> sees W x = Some v ->
    0 < (contents x v).1 \/ (contents x v).1 + zlen (contents x v).2 < 0;
  law_length : forall s W a p l, holds s W -> sees W a = Some (VStr p l) -> zlen l < address_space;
  law_shared : forall s W a p l, holds s W -> sees W a = Some (VStr p l) -> ~ owns W a ->
    exists y, y <> a /\ sees W y = Some (VStr p l);
  (** ranges of memory that meet hold the same characters *)
  law_inside : forall s W a p l x q bs, holds s W -> sees W a = Some (VStr p l) -> range W x q bs ->
    p <= q < p + zlen l -> 0 < zlen bs -> q + zlen bs <= p + zlen l /\ slice (q - p) (zlen bs) l = bs;
  law_apart : forall s W a p l x q bs, holds s W -> sees W a = Some (VStr p l) -> owns W a ->
    range W x q bs -> x <> a -> 0 < zlen bs -> q + zlen bs <= p \/ p + zlen l < q;
  law_pointer : forall s W a p l x l', holds s W -> sees W a = Some (VStr p l) -> owns W a -> x <> a ->
    sees W x <> Some (VStr p l');

  (** writing *)
  law_store : forall s W a p l o bs (Q : unit -> Machine -> Prop) X,
    holds s W -> sees W a = Some (VStr p l) -> owns W a -> Forall byte bs -> 0 <= o -> o + zlen bs <= zlen l ->
    (forall s' W', holds s' W' -> same {[a]} W W' -> sees W' a = Some (VStr p (overwrite o bs l)) -> owns W' a ->
       space W' a = space W a -> Q tt s') ->
    wp (store_bytes (p + o) bs) s Q X;
  law_mutableData : forall s W a p l (Q : Z -> Machine -> Prop) (X : exn -> Machine -> Prop),
    holds s W -> sees W a = Some (VStr p l) ->
    (forall s' W' p', holds s' W' -> same {[a]} W W' -> sees W' a = Some (VStr p' l) -> owns W' a ->
       (owns W a -> s' = s /\ W' = W) -> Q p' s') ->
    (~ owns W a -> forall s', untouched W s' -> X bad_alloc s') ->
    wp (store_mutableData a) s Q X;
  law_expandNoinit : forall s W a p l delta eg (Q : Z -> Machine -> Prop) (X : exn -> Machine -> Prop),
    holds s W -> sees W a = Some (VStr p l) -> 0 <= delta -> zlen l + delta < address_space ->
    (forall s' W' p' ext, holds s' W' -> same {[a]} W W' -> sees W' a = Some (VStr p' (l ++ ext)) -> zlen ext = delta ->
       (0 < delta \/ owns W a -> owns W' a) -> Q (p' + zlen l) s') ->
    (forall s', untouched W s' -> X bad_alloc s') ->
    wp (store_expandNoinit a delta eg) s Q X;
  law_push_back : forall s W a p l c (Q : unit -> Machine -> Prop) (X : exn -> Machine -> Prop),
    holds s W -> sees W a = Some (VStr p l) -> byte c -> zlen l + 1 < address_space ->
    (forall s' W' p', holds s' W' -> same {[a]} W W' -> sees W' a = Some (VStr p' (l ++ [c])) -> owns W' a -> Q tt s') ->
    (forall s', untouched W s' -> X bad_alloc s') ->
    wp (store_push_back a c) s Q X;
  law_shrink : forall s W a p l delta (Q : unit -> Machine -> Prop) (X : exn -> Machine -> Prop),
    holds s W -> sees W a = Some (VStr p l) -> 0 <= delta <= zlen l ->
    (forall s' W' p', holds s' W' -> same {[a]} W W' -> sees W' a = Some (VStr p' (slice 0 (zlen l - delta) l)) ->
       (0 < delta \/ owns W a -> owns W' a) -> (owns W a -> p' = p /\ space W' a = space W a) -> Q tt s') ->
    (0 < delta -> ~ owns W a -> forall s', untouched W s' -> X bad_alloc s') ->
    wp (store_shrink a delta) s Q X;
  law_reserve : forall s W a p l m (Q : unit -> Machine -> Prop) (X : exn -> Machine -> Prop),
    holds s W -> sees W a = Some (VStr p l) -> 0 <= m <= max_request -> FBSTRING_DISABLE_SSO = false \/ zlen l <= m ->
    (forall s' W' p', holds s' W' -> same {[a]} W W' -> sees W' a = Some (VStr p' l) -> owns W' a -> m <= space W' a -> Q tt s') ->
    (forall s', untouched W s' -> X bad_alloc s') ->
    wp (store_reserve a m) s Q X;

  (** objects *)
  law_swap : forall s W a g pa la pg lg (Q : unit -> Machine -> Prop) X,
    holds s W -> a <> g -> sees W a = Some (VStr pa la) -> sees W g = Some (VStr pg lg) ->
    (forall s' W' pa' pg', holds s' W' -> same {[a; g]} W W' -> sees W' a = Some (VStr pa' lg) -> sees W' g = Some (VStr pg' la) ->
       (owns W g -> owns W' a) -> (owns W a -> owns W' g) -> Q tt s') ->
    wp (store_swap a g) s Q X;
  law_default : forall s W a h r (Q : unit -> Machine -> Prop) X,
    holds s W -> sees W a = Some (VRaw h r) -> zlen r = 24 ->
    (forall s' W' p, holds s' W' -> same {[a]} W W' -> sees W' a = Some (VStr p []) -> owns W' a -> Q tt s') ->
    wp (store_default a) s Q X;
  law_init : forall s W x p bs a h r (Q : unit -> Machine -> Prop) (X : exn -> Machine -> Prop),
    holds s W -> range W x p bs -> sees W a = Some (VRaw h r) -> zlen r = 24 -> x <> a -> zlen bs < address_space ->
    (forall s' W' p', holds s' W' -> same {[a]} W W' -> sees W' a = Some (VStr p' bs) -> owns W' a -> Q tt s') ->
    (forall s', untouched W s' -> X bad_alloc s') ->
    wp (store_init a p (zlen bs)) s Q X;
  law_copy : forall s W a x h r p l (Q : unit -> Machine -> Prop) (X : exn -> Machine -> Prop),
    holds s W -> sees W a = Some (VRaw h r) -> zlen r = 24 -> sees W x = Some (VStr p l) -> few W ->
    (forall s' W' p', holds s' W' -> same {[a]} W W' -> sees W' a = Some (VStr p' l) -> Q tt s') ->
    (forall s', untouched W s' -> X bad_alloc s') ->
    wp (store_copy a x) s Q X;
  law_move : forall s W a g h r pg lg (Q : unit -> Machine -> Prop) X,
    holds s W -> sees W a = Some (VRaw h r) -> zlen r = 24 -> sees W g = Some (VStr pg lg) ->
    (forall s' W' p p', holds s' W' -> same {[a; g]} W W' -> sees W' a = Some (VStr p lg) -> sees W' g = Some (VStr p' []) ->
       (owns W g -> owns W' a) -> Q tt s') ->
    wp (store_move a g) s Q X;
  law_dtor : forall s W a p l (Q : unit -> Machine -> Prop) X,
    holds s W -> sees W a = Some (VStr p l) ->
    (forall s' W' bs, holds s' W' -> same {[a]} W W' -> sees W' a = Some (VRaw false bs) -> zlen bs = 24 ->
       (forall x, x <> a -> owns W x -> owns W' x) -> Q tt s') ->
    wp (store_dtor a) s Q X;
  (** a local string *)
  law_local : forall A s W ctor (body : Z -> Run A) (Q : A -> Machine -> Prop) (X : exn -> Machine -> Prop),
    holds s W ->
    (forall s1 W1 t r, holds s1 W1 -> same {[t]} W W1 -> sees W t = None -> sees W1 t = Some (VRaw false r) -> zlen r = 24 ->
       (forall x, x <> t -> owns W x -> owns W1 x) ->
       wp (ctor t) s1
         (fun _ s2 => wp (body t) s2
            (fun v s3 => exists W3 p l, holds s3 W3 /\ sees W3 t = Some (VStr p l) /\
               forall s4 W4, holds s4 W4 -> same {[t]} W3 W4 -> sees W4 t = None ->
                 (forall x, x <> t -> owns W3 x -> owns W4 x) -> Q v s4)
            (fun e s3 => exists W3 p l, holds s3 W3 /\ sees W3 t = Some (VStr p l) /\
               forall s4 W4, holds s4 W4 -> same {[t]} W3 W4 -> sees W4 t = None -> X e s4))
         (fun e s2 => exists W2 bs, holds s2 W2 /\ sees W2 t = Some (VRaw false bs) /\
            forall s4 W4, holds s4 W4 -> same {[t]} W2 W4 -> sees W4 t = None -> X e s4)) ->
    wp (scoped 24 ctor store_dtor body) s Q X }.

#[global] Existing Instance owns_dec.

(** A core that reports no failure of its own: [bad_alloc] stands for a request
    that the allocator has refused. *)
Class honest_core `{fbstring_core_model} : Prop := {
  honest_store_size a : honest (store_size a);
  honest_store_data a : honest (store_data a);
  honest_store_mutableData a : honest (store_mutableData a);
  honest_store_capacity a : honest (store_capacity a);
  honest_store_isShared a : honest (store_isShared a);
  honest_store_expandNoinit a n g : honest (store_expandNoinit a n g);
  honest_store_push_back a c : honest (store_push_back a c);
  honest_store_shrink a n : honest (store_shrink a n);
  honest_store_reserve a n : honest (store_reserve a n);
  honest_store_swap a b : honest (store_swap a b);
  honest_store_default a : honest (store_default a);
  honest_store_init a p n : honest (store_init a p n);
  honest_store_copy a x : honest (store_copy a x);
  honest_store_move a g : honest (store_move a g);
  honest_store_dtor a : honest (store_dtor a) }.

#[export] Hint Resolve honest_store_size honest_store_data honest_store_mutableData honest_store_capacity honest_store_isShared
  honest_store_expandNoinit honest_store_push_back honest_store_shrink honest_store_reserve honest_store_swap honest_store_default
  honest_store_init honest_store_copy honest_store_move honest_store_dtor : honest.

(** ** [fbstring_core] keeps the contract *)

Section Instances.
Context `{Platform}.
Implicit Types (s : Machine) (G : Ghost).

Lemma view_raw G a h r : view G a = Some (VRaw h r) -> G !! a = Some (Raw h r).
Proof.
  unfold view. destruct (G !! a) as [[l|b|k cap l|h' r']|] eqn:E; try done; [|by intros [= -> ->]].
  by destruct (G !! b) as [[]|].
Qed.

Definition core_range (G : Ghost) (x p : Z) (bs : list Z) : Prop :=
  exists v o, view G x = Some v /\ p = (contents x v).1 + o /\ 0 <= o /\
    o + zlen bs <= zlen (contents x v).2 /\ slice o (zlen bs) (contents x v).2 = bs.

Lemma range_source G x p bs : core_range G x p bs -> source G x p bs.
Proof.
  intros ([q l|h r] & o & Hv & -> & Ho & Hle & Hs); simpl in *; [|by exists (VRaw h r), o].
  exists (VStr q l), o. simpl. rewrite zlen_app. change (zlen [0]) with 1. split_and!; [done|done|done|lia|].
  unfold slice in *. rewrite drop_app_le by (unfold zlen in *; lia). rewrite take_app_le; [done|].
  rewrite length_drop. unfold zlen in *. lia.
Qed.

Lemma core_bytes s G x v : inv s G -> view G x = Some v -> Forall byte (contents x v).2.
Proof.
  intros Hi Hv. assert (Hr : core_range G x (contents x v).1 (contents x v).2).
  { exists v, 0. rewrite Z.add_0_r, slice_full. split_and!; [done|done|done|lia|done]. }
  by eapply source_byte, range_source.
Qed.

(** Where the text of a string lies. *)
Lemma text_region s G a p l :
  inv s G -> view G a = Some (VStr p l) ->
  exists z r o, mem s !! z = Some r /\ p = z + o /\ 0 <= o /\ o + zlen l + 1 <= zlen r /\
    slice o (zlen l + 1) r = l ++ [0] /\
    (z = a /\ G !! a = Some (Small l) \/ exists b k cap, z = b /\ o = hdr k /\ G !! a = Some (Ref b) /\ G !! b = Some (Blk k cap l)).
Proof.
  intros Hi Hv. destruct (view_cases s G a p l Hi Hv) as [(-> & d & n & c & Hs)|(b & k & cap & blk & -> & Hml)].
  - destruct (sm_rep _ _ _ _ _ _ _ Hs) as (Hl & Hmax & _ & Ht). unfold maxSmallSize, lastChar in Hmax.
    exists a, (words d n c), 0. split_and!; [by apply Hs|lia|done|lia|done|]. left. split; [done|apply Hs].
  - destruct (ml_rep _ _ _ _ _ _ _ _ Hml) as [? ? ?]. exists b, blk, (hdr k).
    split_and!; [by apply Hml|done|by destruct k|lia|done|]. right. exists b, k, cap. split_and!; [done|done|apply Hml|apply Hml].
Qed.

Lemma core_place s G x v : inv s G -> view G x = Some v ->
  0 < (contents x v).1 \/ (contents x v).1 + zlen (contents x v).2 < 0.
Proof.
  intros Hi Hv. destruct v as [p l|h r]; simpl.
  - destruct (text_region s G x p l Hi Hv) as (z & r & o & Hz & -> & Ho & Hle & _).
    pose proof (ok_null s (inv_mem _ _ Hi) z r Hz). pose proof (zlen_nonneg l). lia.
  - apply view_raw in Hv. by eapply ok_null; [apply Hi|by eapply raw_mem].
Qed.

Lemma core_length s G a p l : inv s G -> view G a = Some (VStr p l) -> zlen l < address_space.
Proof.
  intros Hi Hv. destruct (view_cases s G a p l Hi Hv) as [(-> & d & n & c & Hs)|(b & k & cap & blk & -> & Hml)].
  - pose proof (small_len _ _ _ _ _ _ _ Hs). unfold address_space. lia.
  - pose proof (ml_cap_bound _ _ _ _ _ _ _ _ Hml). unfold address_space. lia.
Qed.

Lemma core_shared s G a p l :
  inv s G -> view G a = Some (VStr p l) -> ~ exclusive G a -> exists y, y <> a /\ view G y = Some (VStr p l).
Proof.
  intros Hi Hv He. destruct (view_cases s G a p l Hi Hv) as [(-> & d & n & c & Hs)|(b & k & cap & blk & -> & Hml)].
  - exfalso. apply He. unfold exclusive. by rewrite (sm_obj _ _ _ _ _ _ _ Hs).
  - pose proof (ml_obj _ _ _ _ _ _ _ _ Hml) as Ha. unfold exclusive in He. rewrite Ha in He.
    assert (Hn : (1 <= nrefs G b)%nat) by (apply (mcount_pos (is_ref b) G a (Ref b)); done).
    pose proof (mcount_delete (is_ref b) G a (Ref b) Ha) as Hd. rewrite decide_True in Hd by done. unfold nrefs in *.
    destruct (mcount_witness (is_ref b) (delete a G)) as (y & v & Hy & E); [lia|]. unfold is_ref in E. simpl in E. subst v.
    apply lookup_delete_Some in Hy as [Hne Hy]. exists y. split; [done|]. unfold view. rewrite Hy.
    by rewrite (ml_blk _ _ _ _ _ _ _ _ Hml).
Qed.

Lemma core_inside s G a p l x q bs :
  inv s G -> view G a = Some (VStr p l) -> core_range G x q bs ->
  p <= q < p + zlen l -> 0 < zlen bs -> q + zlen bs <= p + zlen l /\ slice (q - p) (zlen bs) l = bs.
Proof.
  intros Hi Hv Hr Hin Hn. destruct (text_region s G a p l Hi Hv) as (z & r & o & Hz & -> & Ho & Hle & Ht & Hcase).
  destruct Hr as (v & o' & Hvx & -> & Ho' & Hle' & Hs).
  destruct v as [qx lx|h rx]; simpl in *.
  - destruct (text_region s G x qx lx Hi Hvx) as (z' & r' & o2 & Hz' & -> & Ho2 & Hle2 & Ht2 & Hcase2).
    assert (z' = z).
    { destruct (decide (z' = z)) as [?|Hne]; [done|].
      pose proof (ok_disjoint s (inv_mem _ _ Hi) z' r' z r Hz' Hz Hne). lia. }
    subst z'. assert (Eo : o2 = o /\ lx = l).
    { destruct Hcase as [(Ea & Ha)|(b & k & cap & Eb & Ek & Ha & Hb)], Hcase2 as [(Ea2 & Ha2)|(b2 & k2 & cap2 & Eb2 & Ek2 & Ha2 & Hb2)].
      - subst z. subst x. rewrite Ha in Ha2. injection Ha2 as ->. split; [|done].
        unfold view in Hv, Hvx. rewrite Ha in Hv, Hvx. injection Hv as Hv. injection Hvx as Hvx. lia.
      - exfalso. subst z b2. rewrite Hb2 in Ha. done.
      - exfalso. subst z. subst x. congruence.
      - subst z b2. rewrite Hb in Hb2. injection Hb2 as <- <- <-. split; [lia|done]. }
    destruct Eo as [-> ->]. replace (z + o + o' - (z + o)) with o' by lia. split; [lia|done].
  - exfalso. apply view_raw in Hvx. pose proof (raw_mem _ _ _ _ _ Hi Hvx) as Hmx.
    assert (Hne : x <> z).
    { intros ->. destruct Hcase as [(-> & Ha)|(b & k & cap & -> & _ & _ & Hb)]; congruence. }
    pose proof (ok_disjoint s (inv_mem _ _ Hi) x rx z r Hmx Hz Hne). lia.
Qed.

Lemma core_apart s G a p l x q bs :
  inv s G -> view G a = Some (VStr p l) -> exclusive G a -> core_range G x q bs -> x <> a -> 0 < zlen bs ->
  q + zlen bs <= p \/ p + zlen l < q.
Proof.
  intros Hi Hv He Hr Hne Hn. destruct (text_region s G a p l Hi Hv) as (z & r & o & Hz & -> & Ho & Hle & Ht & Hcase).
  destruct Hr as (v & o' & Hvx & -> & Ho' & Hle' & _). destruct v as [qx lx|h rx]; simpl in *.
  - destruct (text_region s G x qx lx Hi Hvx) as (z' & r' & o2 & Hz' & -> & Ho2 & Hle2 & _ & Hcase2).
    destruct (decide (z' = z)) as [->|Hzz]; [exfalso|pose proof (ok_disjoint s (inv_mem _ _ Hi) z' r' z r Hz' Hz Hzz); lia].
    destruct Hcase as [(-> & Ha)|(b & k & cap & -> & _ & Ha & Hb)], Hcase2 as [(-> & Ha2)|(b2 & k2 & cap2 & E & _ & Ha2 & Hb2)].
    + done.
    + congruence.
    + congruence.
    + subst b2. apply Hne. unfold exclusive in He. rewrite Ha in He. by eapply nrefs_unique.
  - apply view_raw in Hvx. pose proof (raw_mem _ _ _ _ _ Hi Hvx) as Hmx.
    assert (Hxz : x <> z) by (intros ->; destruct Hcase as [(-> & Ha)|(b & k & cap & -> & _ & _ & Hb)]; congruence).
    pose proof (ok_disjoint s (inv_mem _ _ Hi) x rx z r Hmx Hz Hxz). lia.
Qed.

Lemma core_pointer s G a p l x l' :
  inv s G -> view G a = Some (VStr p l) -> exclusive G a -> x <> a -> view G x <> Some (VStr p l').
Proof.
  intros Hi Hv He Hne Hvx. pose proof (zlen_nonneg l). pose proof (zlen_nonneg l').
  destruct (text_region s G a p l Hi Hv) as (z & r & o & Hz & -> & Ho & Hle & _ & Hcase).
  destruct (text_region s G x _ l' Hi Hvx) as (z' & r' & o' & Hz' & E & Ho' & Hle' & _ & Hcase').
  destruct (decide (z' = z)) as [->|Hzz]; [|pose proof (ok_disjoint s (inv_mem _ _ Hi) z' r' z r Hz' Hz Hzz); lia].
  destruct Hcase as [(-> & Ha)|(b & k & cap & -> & _ & Ha & Hb)], Hcase' as [(-> & Ha2)|(b2 & k2 & cap2 & E2 & _ & Ha2 & Hb2)].
  - done.
  - congruence.
  - congruence.
  - subst b2. apply Hne. unfold exclusive in He. rewrite Ha in He. by eapply nrefs_unique.
Qed.

Lemma core_isShared s G a p l (Q : bool -> Machine -> Prop) X :
  inv s G -> view G a = Some (VStr p l) -> Q (bool_decide (~ exclusive G a)) s -> wp (fbcore_isShared a) s Q X.
Proof.
  intros Hi Hv HQ.
  destruct (view_cases s G a p l Hi Hv) as [(-> & d & n & c & Hs)|(b & k & cap & blk & -> & Hml)].
  - assert (exclusive G a) by (unfold exclusive; by rewrite (sm_obj _ _ _ _ _ _ _ Hs)).
    apply wp_bind. eapply small_category_wp; [apply Hi|done|]. rewrite decide_False by done. apply wp_ret.
    rewrite bool_decide_eq_false_2 in HQ; [done|tauto].
  - eapply ml_isShared_wp; [apply Hi|done|]. erewrite bool_decide_ext; [exact HQ|].
    unfold exclusive. by rewrite (ml_obj _ _ _ _ _ _ _ _ Hml).
Qed.

Lemma frame_delete_raw s G t h r : inv s G -> G !! t = Some (Raw h r) -> frame {[t]} G (delete t G).
Proof.
  intros Hi Ht. apply (frame_intro s); [done|..].
  - intros x ->%elem_of_singleton k cap l. congruence.
  - intros x Hx%not_elem_of_singleton. left. by rewrite lookup_delete_ne.
Qed.

(** Another cell at [a] leaves alone who owns what. *)
Lemma exclusive_other G a c c' x :
  G !! a = Some c -> (forall b, c <> Ref b) -> (forall b, c' <> Ref b) -> x <> a -> exclusive G x -> exclusive (<[a:=c']> G) x.
Proof.
  intros Ha Hc Hc' Hne He. unfold exclusive in *. rewrite lookup_insert_ne by done.
  destruct (G !! x) as [[l|b|k cap l|h r]|]; try done. by erewrite nrefs_insert.
Qed.

Lemma exclusive_new G t c x :
  G !! t = None -> (forall b, c <> Ref b) -> x <> t -> exclusive G x -> exclusive (<[t:=c]> G) x.
Proof.
  intros Ht Hc Hne He. unfold exclusive in *. rewrite lookup_insert_ne by done.
  destruct (G !! x) as [[l|b|k cap l|h r]|]; try done. by rewrite nrefs_new.
Qed.

Lemma room_lt s G a p l : inv s G -> view G a = Some (VStr p l) -> room G a < address_space.
Proof.
  intros Hi Hv. unfold room, address_space, maxSmallSize, lastChar.
  destruct (view_cases s G a p l Hi Hv) as [(-> & d & n & c & Hs)|(b & k & cap & blk & -> & Hml)].
  - rewrite (sm_obj _ _ _ _ _ _ _ Hs). lia.
  - rewrite (ml_obj _ _ _ _ _ _ _ _ Hml), (ml_blk _ _ _ _ _ _ _ _ Hml).
    pose proof (ml_cap_bound _ _ _ _ _ _ _ _ Hml). lia.
Qed.

Lemma core_capacity s G a p l (Q : Z -> Machine -> Prop) X :
  inv s G -> view G a = Some (VStr p l) ->
  (forall c, (exclusive G a -> c = room G a) -> (~ exclusive G a -> c = zlen l) -> zlen l <= c < address_space -> Q c s) ->
  wp (fbcore_capacity a) s Q X.
Proof.
  intros Hi Hv HQ. pose proof (room_lt s G a p l Hi Hv). pose proof (core_length s G a p l Hi Hv).
  eapply capacity_cases_wp; [done|done|]. intros c Hc Hle. apply HQ; [naive_solver..|]. destruct Hc as [[_ ->]|[_ ->]]; lia.
Qed.

Lemma core_move_views s G a g h r pg lg (Q : unit -> Machine -> Prop) X :
  inv s G -> view G a = Some (VRaw h r) -> zlen r = 24 -> view G g = Some (VStr pg lg) ->
  (forall s' G' p p', inv s' G' -> frame {[a; g]} G G' -> view G' a = Some (VStr p lg) -> view G' g = Some (VStr p' []) ->
     (exclusive G g -> exclusive G' a) -> Q tt s') ->
  wp (core_move a g) s Q X.
Proof.
  intros Hi Ha%view_raw Hl Hvg HQ. eapply core_move_wp; [done|done|done|done|]. intros s' cg Hi' Hg.
  assert (Hne : a <> g) by (intros ->; unfold view in Hvg; by rewrite Ha in Hvg).
  set (G' := <[a:=cg]> (<[g:=Small []]> G)) in *.
  assert (Hgb : forall k cap l, G !! g <> Some (Blk k cap l)) by (intros; unfold view in Hvg; intros E; by rewrite E in Hvg).
  assert (Hn : forall b, nrefs G' b = nrefs G b).
  { intros b. pose proof (nrefs_step G g cg (Small []) b Hg).
    pose proof (nrefs_step (<[g:=Small []]> G) a (Raw h r) cg b ltac:(by rewrite lookup_insert_ne)).
    unfold ref_to in *. rewrite !(decide_False (P := Raw h r = Ref b)), !(decide_False (P := Small [] = Ref b)) in * by done.
    unfold G'. lia. }
  assert (Hb : forall b k cap l, G !! b = Some (Blk k cap l) -> G' !! b = Some (Blk k cap l)).
  { intros b k cap l E. unfold G'. rewrite !lookup_insert_ne; [done|..]; intros ->; congruence. }
  assert (Hga : G' !! a = Some cg) by (unfold G'; by rewrite lookup_insert_eq).
  destruct (swap_view G G' a g pg lg cg Hvg Hg Hga Hn Hb) as ((p & Hv') & He & _).
  eapply (HQ s' G' p g); [exact Hi'| |exact Hv'| |exact He].
  - apply (frame_intro s); [done|..].
    + intros x Hx k cap l. assert (x = a \/ x = g) as [-> | ->] by set_solver; [congruence|apply Hgb].
    + intros x Hx. left. unfold G'. rewrite !lookup_insert_ne; [done|set_solver..].
  - unfold view, G'. by rewrite lookup_insert_ne, lookup_insert_eq.
Qed.

Lemma core_dtor_views s G a p l (Q : unit -> Machine -> Prop) X :
  inv s G -> view G a = Some (VStr p l) ->
  (forall s' G' bs, inv s' G' -> frame {[a]} G G' -> view G' a = Some (VRaw false bs) -> zlen bs = 24 ->
     (forall x, x <> a -> exclusive G x -> exclusive G' x) -> Q tt s') ->
  wp (core_dtor a) s Q X.
Proof.
  intros Hi Hv HQ. destruct (str_words s G a p l Hi Hv) as (c & d & n & w & Hc & Sc & _).
  destruct (cell_shape l c Sc) as [_ Hvis]. eapply core_dtor_wp; [done|done|]. intros s' G' bs Hi' Hl Hrel.
  destruct (released_others s G G' a c bs Hi Hc Hvis Hrel) as (_ & _ & Hex).
  eapply HQ; [exact Hi'|by eapply released_frame|unfold view; by rewrite (released_raw _ _ _ _ Hrel)|done|].
  intros x Hx He. by apply Hex.
Qed.

Lemma core_local {A} s G ctor (body : Z -> Run A) (Q : A -> Machine -> Prop) (X : exn -> Machine -> Prop) :
  inv s G ->
  (forall s1 G1 t r, inv s1 G1 -> frame {[t]} G G1 -> view G t = None -> view G1 t = Some (VRaw false r) -> zlen r = 24 ->
     (forall x, x <> t -> exclusive G x -> exclusive G1 x) ->
     wp (ctor t) s1
       (fun _ s2 => wp (body t) s2
          (fun v s3 => exists G3 p l, inv s3 G3 /\ view G3 t = Some (VStr p l) /\
             forall s4 G4, inv s4 G4 -> frame {[t]} G3 G4 -> view G4 t = None ->
               (forall x, x <> t -> exclusive G3 x -> exclusive G4 x) -> Q v s4)
          (fun e s3 => exists G3 p l, inv s3 G3 /\ view G3 t = Some (VStr p l) /\
             forall s4 G4, inv s4 G4 -> frame {[t]} G3 G4 -> view G4 t = None -> X e s4))
       (fun e s2 => exists G2 bs, inv s2 G2 /\ view G2 t = Some (VRaw false bs) /\
          forall s4 G4, inv s4 G4 -> frame {[t]} G2 G4 -> view G4 t = None -> X e s4)) ->
  wp (scoped 24 ctor core_dtor body) s Q X.
Proof.
  intros Hi HB. eapply local_core_wp; [exact Hi|]. intros s1 t r Hi1 Ht Hneg Hl.
  eapply wp_mono; [apply (HB s1 (<[t:=Raw false r]> G) t r); [done|by eapply frame_new| | |done|]|..].
  - unfold view. by rewrite Ht.
  - unfold view. by rewrite lookup_insert_eq.
  - intros x Hx. by apply exclusive_new.
  - intros [] s2 Hbody. eapply wp_mono; [exact Hbody|..].
    + intros v s3 (G3 & p & l & Hi3 & Hv3 & HQ). exists G3, p, l. split; [done|]. split; [done|].
      intros s4 G4 Hi4 Hd. eapply HQ; [done|apply Hd|apply Hd|]. intros x Hx He. by apply (dr_exclusive _ _ _ Hd).
    + intros e s3 (G3 & p & l & Hi3 & Hv3 & HX). exists G3, p, l. split; [done|]. split; [done|].
      intros s4 G4 Hi4 Hd. eapply HX; [done|apply Hd|apply Hd].
  - intros e s2 (G2 & bs & Hi2 & Hv2%view_raw & HX). exists G2, bs. split; [done|]. split; [done|].
    intros s4 Hi4. eapply HX; [done|by eapply frame_delete_raw|]. unfold view. by rewrite lookup_delete_eq.
Qed.

Lemma untouched_inv s G : inv s G -> exists G', inv s G' /\ frame ∅ G G'.
Proof. intros Hi. exists G. split; [done|apply frame_refl]. Qed.

#[refine, export] Instance fbstring_core : fbstring_core_model := {|
  store_size := size;
  store_data := data;
  store_mutableData := mutableData;
  store_capacity := fbcore_capacity;
  store_isShared := fbcore_isShared;
  store_expandNoinit this delta expGrowth := expandNoinit this delta expGrowth FBSTRING_DISABLE_SSO;
  store_push_back := fbcore_push_back;
  store_shrink := shrink;
  store_reserve this minCapacity := core_reserve this minCapacity FBSTRING_DISABLE_SSO;
  store_swap := swap;
  store_default := core_default;
  store_init this data sz := core_init this data sz FBSTRING_DISABLE_SSO;
  store_copy := core_copy;
  store_move := core_move;
  store_dtor := core_dtor;
  world := Ghost;
  holds := inv;
  sees := view;
  owns := exclusive;
  owns_dec := exclusive_dec;
  space := room;
  few := countable |}.
Proof.
  - intros. by eapply size_wp.
  - intros. by eapply data_wp.
  - intros. by eapply core_capacity.
  - intros. by eapply core_isShared.
  - intros s W x p bs Q X Hi Hr HQ. eapply source_load_wp; [done|by apply range_source|done].
  - intros s W a p l Q X Hi Hv HQ. eapply text_load_wp; [done|done|apply zlen_nonneg|lia|lia|].
    unfold slice, zlen. by rewrite Nat2Z.id, drop_app_length.
  - intros. by eapply core_bytes.
  - intros. by eapply core_place.
  - intros. by eapply core_length.
  - intros. by eapply core_shared.
  - intros. by eapply core_inside.
  - intros. by eapply core_apart.
  - intros. by eapply core_pointer.
  - intros. by eapply store_text_wp.
  - intros s W a p l Q X Hi Hv HQ HX. eapply mutableData_wp; [done|done|done|]. intros Hno s' Hi'. by apply HX, untouched_inv.
  - intros s W a p l delta eg Q X Hi Hv Hd Hm HQ HX. eapply expandNoinit_wp; [done|done|done|done| |exact HX].
    intros r s' (G' & p' & ext & Hi' & HF & Hv' & Hext & -> & He). by eapply HQ.
  - intros s W a p l c Q X Hi Hv Hc Hm HQ HX. eapply push_back_wp; [done|done|done|done| |exact HX].
    intros s' (G' & p' & Hi' & HF & Hv' & He). by eapply HQ.
  - intros. by eapply shrink_wp.
  - intros s W a p l m Q X Hi Hv Hm Hd HQ HX. eapply core_reserve_wp; [done|done|done|done| |exact HX].
    intros s' (G' & p' & Hi' & HF & Hv' & He & Hr) _. by eapply HQ.
  - intros s W a g pa la pg lg Q X Hi Hne Hva Hvg HQ. eapply swap_wp; [done|done|done|done|].
    intros s' ca cg Hi' Ha Hg.
    destruct (swap_views s W a g pa la pg lg ca cg Hi Hne Hva Hvg Ha Hg) as (HF & ((p1 & H1) & He1 & _) & ((p2 & H2) & He2 & _)).
    by eapply HQ.
  - intros s W a h r Q X Hi Hv%view_raw Hl HQ. eapply reset_wp; [done|done|done|]. intros s' Hi'.
    eapply (HQ s' _ a); [exact Hi'|by eapply frame_reraw|unfold view; by rewrite lookup_insert_eq|].
    unfold exclusive. by rewrite lookup_insert_eq.
  - intros s W x p bs a h r Q X Hi Hr Hv%view_raw Hl Hne Hm HQ HX.
    eapply core_init_wp; [done|by apply range_source|done|done|done|done| |].
    + intros s' (G' & p' & Hi' & HF & Hv' & He). by eapply HQ.
    + intros s' Hi'. by apply HX, untouched_inv.
  - intros s W a x h r p l Q X Hi Hv%view_raw Hl Hvx Hc HQ HX. eapply core_copy_wp; [done|done|done|done|done| |].
    + intros s' (G' & p' & Hi' & HF & Hv'). by eapply HQ.
    + intros s' Hi'. by apply HX, untouched_inv.
  - intros. by eapply core_move_views.
  - intros. by eapply core_dtor_views.
  - intros. by eapply core_local.
Defined.

#[export] Instance fbstring_core_honest : honest_core.
Proof. split; cbn; honest_all. Qed.
End Instances.
