(* ===== verification/FBString.v ===== *)
(** * FBString: [basic_fbstring]

    [src/accelerator/FBString.h], [basic_fbstring<char>] over any core that
    keeps the contract of [FBStringModel].  A string is the object at [this];
    iterators and [const char*] are addresses.  The overloads of a method have
    names of their own; those that only forward to another (to a null-terminated
    string, an initializer list, an input iterator) are left out, as are the
    stream operators.  The searches and comparisons are at the end. *)

From stdpp Require Import base list gmap strings.
From S2P Require Import Prelude Bits FBStringMem FBStringCore FBStringInv FBStringModel.

Definition npos : Z := 2 ^ 64 - 1.
Definition max_size : Z := 2 ^ 64 - 1.

Definition enforce (condition : bool) (e : exn) : Run unit :=
  if condition then mret tt else throw e.

Definition out_of_bounds : exn := out_of_range "".

Definition procrustes (n nmax : Z) : Z := if decide (n > nmax) then nmax else n.

(** [fbstring_detail::copy_n]: element by element. *)
Fixpoint copy_n (b : Z) (n : nat) (d : Z) : Run (Z * Z) :=
  match n with
  | O => mret (b, d)
  | S n => c ← load_byte b; store_byte d c;; copy_n (b + 1) n (d + 1)
  end.

(** [std::copy] and [std::fill] on characters. *)
Definition std_copy (first last d : Z) : Run unit := memmove d first (last - first).
Definition std_fill (first last c : Z) : Run unit := memset first c (last - first).

Section Basic.
Context `{Platform} `{!fbstring_core_model}.

(** ** Sizes, iterators, element access *)

Definition str_size (this : Z) : Run Z := store_size this.
Definition str_length (this : Z) : Run Z := str_size this.
Definition str_capacity (this : Z) : Run Z := store_capacity this.
Definition str_empty (this : Z) : Run bool := n ← str_size this; mret (bool_decide (n = 0)).

Definition str_begin (this : Z) : Run Z := store_mutableData this.
Definition str_cbegin (this : Z) : Run Z := store_data this.
Definition str_end (this : Z) : Run Z := p ← store_mutableData this; n ← store_size this; mret (p + n).
Definition str_cend (this : Z) : Run Z := p ← store_data this; n ← store_size this; mret (p + n).
Definition str_data (this : Z) : Run Z := store_data this.

(** [isSane] and the guard object that asserts it on every way out. *)
Definition isSane (this : Z) : Run bool :=
  b ← str_cbegin this; e ← str_cend this; n ← str_size this; em ← str_empty this; cap ← str_capacity this;
  z ← load_byte (b + n);
  mret (bool_decide (b <= e) && eqb em (bool_decide (n = 0)) && eqb em (bool_decide (b = e)) &&
        bool_decide (n <= max_size) && bool_decide (cap <= max_size) && bool_decide (n <= cap) && bool_decide (z = 0)).

Definition checked {A} (this : Z) (body : Run A) : Run A :=
  ok ← isSane this; FBSTRING_ASSERT ok;;
  r ← try_catch body (fun e => ok ← isSane this; FBSTRING_ASSERT ok;; throw e);
  ok ← isSane this; FBSTRING_ASSERT ok;;
  mret r.

Definition str_index (this pos : Z) : Run Z := b ← str_cbegin this; load_byte (b + pos).
Definition str_set_index (this pos c : Z) : Run unit := b ← str_begin this; store_byte (b + pos) c.

Definition at_const (this n : Z) : Run Z :=
  sz ← str_size this; enforce (bool_decide (n <= sz)) out_of_bounds;; str_index this n.
Definition set_at (this n c : Z) : Run unit :=
  sz ← str_size this; enforce (bool_decide (n < sz)) out_of_bounds;; str_set_index this n c.

Definition str_back (this : Z) : Run Z :=
  em ← str_empty this; FBSTRING_ASSERT (negb em);; e ← str_cend this; load_byte (e - 1).
Definition str_pop_back (this : Z) : Run unit :=
  em ← str_empty this; FBSTRING_ASSERT (negb em);; store_shrink this 1.
Definition str_push_back (this c : Z) : Run unit := store_push_back this c.

(** ** Capacity *)

Definition str_resize (this n c : Z) : Run unit :=
  checked this (
    sz ← str_size this;
    (if decide (n <= sz) then store_shrink this (sz - n)
     else let delta := n - sz in
          pData ← store_expandNoinit this delta false; podFill pData (pData + delta) c);;
    sz ← str_size this;
    FBSTRING_ASSERT (bool_decide (sz = n))).

Definition str_clear (this : Z) : Run unit := str_resize this 0 0.

Definition str_reserve (this res_arg : Z) : Run unit :=
  enforce (bool_decide (res_arg <= max_size)) (length_error "");; store_reserve this res_arg.

Definition str_swap (this rhs : Z) : Run unit := store_swap this rhs.

(** A local string. *)
Definition local_string {A} (ctor : Z -> Run unit) (body : Z -> Run A) : Run A := scoped 24 ctor store_dtor body.

Definition shrink_to_fit (this : Z) : Run unit :=
  cap ← str_capacity this; n ← str_size this;
  if decide (cap < u64 (n * 3) / 2) then mret tt else
  b ← str_cbegin this; e ← str_cend this;
  local_string (fun tmp => store_init tmp b (e - b)) (fun tmp => str_swap tmp this).

(** ** Append and assign *)

Definition append_ptr (this s n : Z) : Run unit :=
  checked this (
    if decide (n = 0) then mret tt else
    oldSize ← str_size this; oldData ← str_data this;
    pData ← store_expandNoinit this n true;
    (if decide (oldData <= s /\ ~ (oldData + oldSize <= s)) then
       FBSTRING_ASSERT (bool_decide (s + n <= oldData + oldSize));;
       d ← str_data this;
       let s := d + (s - oldData) in
       podMove s (s + n) pData
     else podCopy s (s + n) pData);;
    sz ← str_size this;
    FBSTRING_ASSERT (bool_decide (sz = oldSize + n))).

Definition str_append (this str : Z) : Run unit :=
  n ← str_size this; m ← str_size str;
  d ← str_data str;
  append_ptr this d m;;
  sz ← str_size this;
  FBSTRING_ASSERT (bool_decide (sz = n + m)).

Definition append_sub (this str pos n : Z) : Run unit :=
  sz ← str_size str;
  enforce (bool_decide (pos <= sz)) out_of_bounds;;
  d ← str_data str;
  append_ptr this (d + pos) (procrustes n (sz - pos)).

Definition append_fill (this n c : Z) : Run unit :=
  checked this (pData ← store_expandNoinit this n true; podFill pData (pData + n) c).

Definition assign_ptr (this s n : Z) : Run unit :=
  checked this (
    sz ← str_size this;
    (if decide (n = 0) then str_resize this 0 0
     else if decide (sz >= n) then
       d ← store_mutableData this;
       podMove s (s + n) d;;
       sz ← str_size this;
       store_shrink this (sz - n);;
       sz ← str_size this;
       FBSTRING_ASSERT (bool_decide (sz = n))
     else
       str_resize this 0 0;;
       d ← store_expandNoinit this n false;
       podCopy s (s + n) d);;
    sz ← str_size this;
    FBSTRING_ASSERT (bool_decide (sz = n))).

Definition str_assign (this str : Z) : Run unit :=
  if decide (str = this) then mret tt else
  d ← str_data str; n ← str_size str; assign_ptr this d n.

Definition assign_sub (this str pos n : Z) : Run unit :=
  sz ← str_size str;
  enforce (bool_decide (pos <= sz)) out_of_bounds;;
  d ← str_data str;
  assign_ptr this (d + pos) (procrustes n (sz - pos)).

(** The assignment operators. *)
Definition assign_copy (this lhs : Z) : Run unit :=
  checked this (
    if decide (lhs = this) then mret tt else
    d ← str_data lhs; n ← str_size lhs; assign_ptr this d n).

Definition assign_move (this goner : Z) : Run unit :=
  if decide (goner = this) then mret tt else store_dtor this;; store_move this goner.

Definition ctor_fill (this n c : Z) : Run unit :=
  store_default this;;
  try_catch (pData ← store_expandNoinit this n false; podFill pData (pData + n) c)
    (fun e => store_dtor this;; throw e).

Definition assign_char (this c : Z) : Run unit :=
  checked this (
    em ← str_empty this;
    if em : bool then store_expandNoinit this 1 false;; str_set_index this 0 c else
    sh ← store_isShared this;
    if sh : bool then local_string (fun tmp => ctor_fill tmp 1 c) (fun tmp => str_swap tmp this) else
    n ← str_size this; store_shrink this (n - 1);; str_set_index this 0 c).

(** ** Erase, insert, replace *)

Definition str_erase (this pos n : Z) : Run unit :=
  checked this (
    len ← str_length this;
    enforce (bool_decide (pos <= len)) out_of_bounds;;
    let n := procrustes n (len - pos) in
    b ← str_begin this; e ← str_end this;
    std_copy (b + pos + n) e (b + pos);;
    len ← str_length this;
    str_resize this (len - n) 0).

Definition erase_range (this first last : Z) : Run Z :=
  b ← str_begin this;
  let pos := first - b in
  str_erase this pos (last - first);;
  b ← str_begin this; mret (b + pos).

Definition insert_fill_at (this i n c : Z) : Run Z :=
  checked this (
    cb ← str_cbegin this; ce ← str_cend this;
    FBSTRING_ASSERT (bool_decide (cb <= i /\ i <= ce));;
    let pos := i - cb in
    oldSize ← str_size this;
    store_expandNoinit this n true;;
    b ← str_begin this;
    podMove (b + pos) (b + oldSize) (b + pos + n);;
    podFill (b + pos) (b + pos + n) c;;
    mret (b + pos)).

Definition insert_range_at (this i s1 s2 : Z) : Run Z :=
  checked this (
    cb ← str_cbegin this; ce ← str_cend this;
    FBSTRING_ASSERT (bool_decide (cb <= i /\ i <= ce));;
    let pos := i - cb in
    let n := s2 - s1 in
    FBSTRING_ASSERT (bool_decide (0 <= n));;
    oldSize ← str_size this;
    store_expandNoinit this n true;;
    b ← str_begin this;
    podMove (b + pos) (b + oldSize) (b + pos + n);;
    std_copy s1 s2 (b + pos);;
    mret (b + pos)).

Definition insert_ptr (this pos s n : Z) : Run unit :=
  len ← str_length this;
  enforce (bool_decide (pos <= len)) out_of_bounds;;
  b ← str_begin this;
  insert_range_at this (b + pos) s (s + n);;
  mret tt.

Definition str_insert (this pos1 str : Z) : Run unit :=
  d ← str_data str; n ← str_size str; insert_ptr this pos1 d n.

Definition insert_sub (this pos1 str pos2 n : Z) : Run unit :=
  len ← str_length str;
  enforce (bool_decide (pos2 <= len)) out_of_bounds;;
  d ← str_data str;
  insert_ptr this pos1 (d + pos2) (procrustes n (len - pos2)).

Definition insert_fill (this pos n c : Z) : Run unit :=
  len ← str_length this;
  enforce (bool_decide (pos <= len)) out_of_bounds;;
  b ← str_begin this;
  insert_fill_at this (b + pos) n c;;
  mret tt.

(** [append(first, last)] is an insertion at the end. *)
Definition append_range (this first last : Z) : Run unit :=
  e ← str_end this; insert_range_at this e first last;; mret tt.

Definition replaceAliased (this i1 i2 s1 s2 : Z) : Run bool :=
  b ← str_begin this; e ← str_end this;
  if decide (b <= s1 /\ s1 <= e) then
    n ← str_size this;
    local_string store_default (fun temp =>
      str_reserve temp (n - (i2 - i1) + (s2 - s1));;
      b ← str_begin this;
      append_range temp b i1;;
      append_range temp s1 s2;;
      e ← str_end this;
      append_range temp i2 e;;
      str_swap this temp);;
    mret true
  else mret false.

Definition replace_range_at (this i1 i2 s1 s2 : Z) : Run unit :=
  checked this (
    aliased ← replaceAliased this i1 i2 s1 s2;
    if aliased : bool then mret tt else
    let n1 := i2 - i1 in
    FBSTRING_ASSERT (bool_decide (n1 >= 0));;
    let n2 := s2 - s1 in
    FBSTRING_ASSERT (bool_decide (n2 >= 0));;
    (if decide (n1 > n2) then
       std_copy s1 s2 i1;;
       erase_range this (i1 + n2) i2;; mret tt
     else
       '(s1, _) ← copy_n s1 (Z.to_nat n1) i1;
       insert_range_at this i2 s1 s2;; mret tt);;
    ok ← isSane this;
    FBSTRING_ASSERT ok).

Definition replace_fill_at (this i1 i2 n2 c : Z) : Run unit :=
  let n1 := i2 - i1 in
  (if decide (n1 > n2) then
     std_fill i1 (i1 + n2) c;;
     erase_range this (i1 + n2) i2;; mret tt
   else
     std_fill i1 i2 c;;
     insert_fill_at this i2 (n2 - n1) c;; mret tt);;
  ok ← isSane this;
  FBSTRING_ASSERT ok.

Definition replace_ptr_at (this i1 i2 s n : Z) : Run unit :=
  FBSTRING_ASSERT (bool_decide (i1 <= i2));;
  b ← str_begin this; e ← str_end this;
  FBSTRING_ASSERT (bool_decide (b <= i1 /\ i1 <= e));;
  FBSTRING_ASSERT (bool_decide (b <= i2 /\ i2 <= e));;
  replace_range_at this i1 i2 s (s + n).

Definition replace_ptr (this pos n1 s n2 : Z) : Run unit :=
  checked this (
    sz ← str_size this;
    enforce (bool_decide (pos <= sz)) out_of_bounds;;
    let n1 := procrustes n1 (sz - pos) in
    b ← str_begin this;
    replace_ptr_at this (b + pos) (b + pos + n1) s n2).

Definition replace_fill (this pos n1 n2 c : Z) : Run unit :=
  checked this (
    sz ← str_size this;
    enforce (bool_decide (pos <= sz)) out_of_bounds;;
    let n1 := procrustes n1 (sz - pos) in
    b ← str_begin this;
    replace_fill_at this (b + pos) (b + pos + n1) n2 c).

Definition str_replace (this pos1 n1 str : Z) : Run unit :=
  d ← str_data str; n ← str_size str; replace_ptr this pos1 n1 d n.

Definition replace_sub (this pos1 n1 str pos2 n2 : Z) : Run unit :=
  len ← str_length str;
  enforce (bool_decide (pos2 <= len)) out_of_bounds;;
  d ← str_data str;
  replace_ptr this pos1 n1 (d + pos2) (Z.min n2 (len - pos2)).

(** ** Copies out *)

(** [copy(s, n, pos)] to a buffer at [d]. *)
Definition str_copy_out (this d n pos : Z) : Run Z :=
  sz ← str_size this;
  enforce (bool_decide (pos <= sz)) out_of_bounds;;
  let n := procrustes n (sz - pos) in
  (if decide (n <> 0) then p ← str_data this; podCopy (p + pos) (p + pos + n) d else mret tt);;
  mret n.

(** [substr] constructs the result at [result]. *)
Definition str_substr (this result pos n : Z) : Run unit :=
  sz ← str_size this;
  enforce (bool_decide (pos <= sz)) out_of_bounds;;
  d ← str_data this;
  store_init result (d + pos) (Z.min n (sz - pos)).

(** [substr] of an expiring string. *)
Definition substr_move (this result pos n : Z) : Run unit :=
  sz ← str_size this;
  enforce (bool_decide (pos <= sz)) out_of_bounds;;
  str_erase this 0 pos;;
  sz ← str_size this;
  (if decide (n < sz) then str_resize this n 0 else mret tt);;
  store_move result this.

(** [operator+] on two constant strings. *)
Definition str_plus (result lhs rhs : Z) : Run unit :=
  store_default result;;
  n ← str_size lhs; m ← str_size rhs;
  try_catch (str_reserve result (u64 (n + m));; str_append result lhs;; str_append result rhs)
    (fun e => store_dtor result;; throw e).
End Basic.

(** ** Failed allocations

    Over an honest core the methods are honest. *)

Section HonestBasic.
Context `{Platform} `{!fbstring_core_model} `{!honest_core}.

Lemma honest_isSane this : honest (isSane this).
Proof. honest_all. Qed.
#[local] Hint Resolve honest_isSane : honest.

Lemma honest_checked {A} this (body : Run A) : honest body -> honest (checked this body).
Proof. intros Hb. unfold checked. honest_all. Qed.

Lemma honest_copy_n b n d : honest (copy_n b n d).
Proof. revert b d. induction n as [|n IH]; intros b d; cbn [copy_n]; honest_all. Qed.
#[local] Hint Resolve honest_copy_n : honest.

Lemma honest_resize this n c : honest (str_resize this n c).
Proof. apply honest_checked. honest_all. Qed.

Lemma honest_append_ptr this x n : honest (append_ptr this x n).
Proof. apply honest_checked. honest_all. Qed.
#[local] Hint Resolve honest_resize honest_append_ptr : honest.

Lemma honest_assign_ptr this x n : honest (assign_ptr this x n).
Proof. apply honest_checked. honest_all. Qed.

Lemma honest_insert_range_at this i x y : honest (insert_range_at this i x y).
Proof. apply honest_checked. honest_all. Qed.

Lemma honest_insert_fill_at this i n c : honest (insert_fill_at this i n c).
Proof. apply honest_checked. honest_all. Qed.

Lemma honest_erase this pos n : honest (str_erase this pos n).
Proof. apply honest_checked. honest_all. Qed.
#[local] Hint Resolve honest_assign_ptr honest_insert_range_at honest_insert_fill_at honest_erase : honest.

Lemma honest_replaceAliased this i1 i2 x y : honest (replaceAliased this i1 i2 x y).
Proof. honest_all. Qed.
#[local] Hint Resolve honest_replaceAliased : honest.

Lemma honest_replace_ptr this pos n1 x n2 : honest (replace_ptr this pos n1 x n2).
Proof. honest_all. Qed.

Lemma honest_replace_fill this pos n1 n2 c : honest (replace_fill this pos n1 n2 c).
Proof. honest_all. Qed.
End HonestBasic.
#[export] Hint Resolve honest_isSane honest_resize honest_append_ptr honest_assign_ptr honest_insert_range_at honest_insert_fill_at
  honest_erase honest_replace_ptr honest_replace_fill : honest.

(** * FBString: searches and comparisons

    [src/accelerator/FBString.h]: [find] with its skip of Boyer and Moore,
    [rfind], the searches for characters of a set, [compare] and the operators
    on it.  They read the characters one by one from memory; the loops carry a
    bound, the number of rounds there can be. *)

(** ** [std::char_traits<char>] *)

(** [memcmp]: the sign of the first difference. *)
Fixpoint memcmp (l m : list Z) : Z :=
  match l, m with
  | a :: l, b :: m => if decide (a = b) then memcmp l m else if decide (a < b) then -1 else 1
  | _, _ => 0
  end.

Definition char_traits_compare (p q n : Z) : Run Z := l ← load_bytes p n; m ← load_bytes q n; mret (memcmp l m).

(** [traits_type::find(s, n, c) != nullptr]. *)
Definition traits_find (s n c : Z) : Run bool := l ← load_bytes s n; mret (bool_decide (c ∈ l)).

Section Find.
Context `{Platform} `{!fbstring_core_model}.

(** ** [find] *)

(** The last element of the needle is matched first. *)
Definition match_last (i iEnd nsize_1 lastNeedle : Z) : Run (option Z) :=
  iter (S (Z.to_nat (iEnd - i))) (fun i =>
    c ← load_byte (i + nsize_1);
    if decide (c <> lastNeedle) then
      let i := i + 1 in
      if decide (i = iEnd) then mret (inr None) else mret (inl i)
    else mret (inr (Some i))) i.

(** The pedestrian mode. *)
Definition match_all (i needle nsize : Z) : Run bool :=
  iter (S (Z.to_nat nsize)) (fun j =>
    FBSTRING_ASSERT (bool_decide (j < nsize));;
    a ← load_byte (i + j); b ← load_byte (needle + j);
    if decide (a <> b) then mret (inr false) else
    let j := j + 1 in
    if decide (j = nsize) then mret (inr true) else mret (inl j)) 0.

Definition compute_skip (needle nsize_1 lastNeedle : Z) : Run Z :=
  iter (S (S (Z.to_nat nsize_1))) (fun skip =>
    if decide (skip <= nsize_1) then
      c ← load_byte (needle + (nsize_1 - skip));
      if decide (c <> lastNeedle) then mret (inl (skip + 1)) else mret (inr skip)
    else mret (inr skip)) 1.

Definition str_find (this needle pos nsize : Z) : Run Z :=
  size ← str_size this;
  if decide (u64 (nsize + pos) > size \/ u64 (nsize + pos) < pos) then mret npos else
  if decide (nsize = 0) then mret pos else
  haystack ← str_data this;
  let nsize_1 := nsize - 1 in
  lastNeedle ← load_byte (needle + nsize_1);
  let iEnd := haystack + size - nsize_1 in
  iter (S (Z.to_nat (size + 1))) (fun '(i, skip) =>
    if decide (i < iEnd) then
      r ← match_last i iEnd nsize_1 lastNeedle;
      match r with
      | None => mret (inr npos)
      | Some i =>
          found ← match_all i needle nsize;
          if found : bool then mret (inr (i - haystack)) else
          skip ← (if decide (skip = 0) then compute_skip needle nsize_1 lastNeedle else mret skip);
          mret (inl (i + skip, skip))
      end
    else mret (inr npos)) (haystack + pos, 0).

(** ** The other searches *)

(** [for (;; --i) { if (test(i)) return i - begin(); if (i == begin()) break; }] *)
Definition search_back (test : Z -> Run bool) (b i : Z) : Run Z :=
  iter (S (Z.to_nat (i - b))) (fun i =>
    t ← test i;
    if t : bool then mret (inr (i - b)) else
    if decide (i = b) then mret (inr npos) else mret (inl (i - 1))) i.

(** [for (; i != finish; ++i) { if (test(i)) return i - begin(); }] *)
Definition search_on (test : Z -> Run bool) (b i finish : Z) : Run Z :=
  iter (S (Z.to_nat (finish - i))) (fun i =>
    if decide (i <> finish) then
      t ← test i;
      if t : bool then mret (inr (i - b)) else mret (inl (i + 1))
    else mret (inr npos)) i.

Definition str_rfind (this s pos n : Z) : Run Z :=
  len ← str_length this;
  if decide (n > len) then mret npos else
  let pos := Z.min pos (len - n) in
  if decide (n = 0) then mret pos else
  b ← str_cbegin this;
  search_back (fun i =>
    x ← load_byte i; y ← load_byte s;
    if decide (x = y) then r ← char_traits_compare i s n; mret (bool_decide (r = 0)) else mret false) b (b + pos).

Definition one_of (s n : Z) (i : Z) : Run bool := c ← load_byte i; traits_find s n c.
Definition none_of (s n : Z) (i : Z) : Run bool := c ← load_byte i; r ← traits_find s n c; mret (negb r).

Definition find_first_of (this s pos n : Z) : Run Z :=
  len ← str_length this;
  if decide (pos > len \/ n = 0) then mret npos else
  b ← str_cbegin this; e ← str_cend this;
  search_on (one_of s n) b (b + pos) e.

Definition find_last_of (this s pos n : Z) : Run Z :=
  em ← str_empty this;
  if decide (em = false /\ n > 0) then
    len ← str_length this;
    let pos := Z.min pos (len - 1) in
    b ← str_cbegin this;
    search_back (one_of s n) b (b + pos)
  else mret npos.

Definition find_first_not_of (this s pos n : Z) : Run Z :=
  len ← str_length this;
  if decide (pos < len) then
    b ← str_cbegin this; e ← str_cend this;
    search_on (none_of s n) b (b + pos) e
  else mret npos.

Definition find_last_not_of (this s pos n : Z) : Run Z :=
  em ← str_empty this;
  if decide (em = false) then
    len ← str_size this;
    let pos := Z.min pos (len - 1) in
    b ← str_cbegin this;
    search_back (none_of s n) b (b + pos)
  else mret npos.

(** ** Comparisons *)

Definition compare_ptr (this pos1 n1 s n2 : Z) : Run Z :=
  sz ← str_size this;
  enforce (bool_decide (pos1 <= sz)) out_of_bounds;;
  let n1 := procrustes n1 (sz - pos1) in
  d ← str_data this;
  r ← char_traits_compare (pos1 + d) s (Z.min n1 n2);
  mret (if decide (r <> 0) then r else if decide (n1 > n2) then 1 else if decide (n1 < n2) then -1 else 0).

Definition compare_sub (this pos1 n1 str : Z) : Run Z :=
  d ← str_data str; n ← str_size str; compare_ptr this pos1 n1 d n.

Definition str_compare (this str : Z) : Run Z :=
  n ← str_size this; compare_sub this 0 n str.

Definition compare_subs (this pos1 n1 str pos2 n2 : Z) : Run Z :=
  sz ← str_size str;
  enforce (bool_decide (pos2 <= sz)) out_of_bounds;;
  d ← str_data str;
  compare_ptr this pos1 n1 (d + pos2) (Z.min n2 (sz - pos2)).

Definition str_eq (lhs rhs : Z) : Run bool :=
  n ← str_size lhs; m ← str_size rhs;
  if decide (n = m) then r ← str_compare lhs rhs; mret (bool_decide (r = 0)) else mret false.

Definition str_lt (lhs rhs : Z) : Run bool := r ← str_compare lhs rhs; mret (bool_decide (r < 0)).
Definition str_ne (lhs rhs : Z) : Run bool := r ← str_eq lhs rhs; mret (negb r).
Definition str_gt (lhs rhs : Z) : Run bool := str_lt rhs lhs.
Definition str_le (lhs rhs : Z) : Run bool := r ← str_lt rhs lhs; mret (negb r).
Definition str_ge (lhs rhs : Z) : Run bool := r ← str_lt lhs rhs; mret (negb r).
End Find.
