(* ===== verification/FBStringText.v ===== *)
(** * FBString: [basic_fbstring] grows, shrinks and is assigned

    Proved against the contract of the core only. *)

From stdpp Require Import base list gmap strings.
From S2P Require Import Prelude Bits FBStringMem FBStringCore FBStringInv FBStringInit FBStringResize FBStringModel FBString.

Section Text.
Context `{Platform} `{!fbstring_core_model}.
Implicit Types (s : Machine) (W : world).

(** The string at [a] is now [l]; nothing else changed. *)
Definition turns (a : Z) (W : world) (l : list Z) (s' : Machine) : Prop :=
  exists W' p, holds s' W' /\ same {[a]} W W' /\ sees W' a = Some (VStr p l).

Lemma same_refl A W : same A W W.
Proof. by intros x _. Qed.

Lemma same_trans A W W' W'' : same A W W' -> same A W' W'' -> same A W W''.
Proof. intros H1 H2 x Hx. by rewrite H2, H1. Qed.

Lemma same_mono A A' W W' : A ⊆ A' -> same A W W' -> same A' W W'.
Proof. intros HA HS x Hx. apply HS. set_solver. Qed.

Lemma untouched_sees W s' a v : untouched W s' -> sees W a = Some v -> exists W', holds s' W' /\ sees W' a = Some v.
Proof. intros (W' & Hh & HS) Hv. exists W'. split; [done|]. by rewrite HS. Qed.

Lemma untouched_same a W W1 s' v :
  same {[a]} W W1 -> sees W a = Some v -> sees W1 a = Some v -> untouched W1 s' -> untouched W s'.
Proof.
  intros HS Ha Ha1 (W' & Hh & HS'). exists W'. split; [done|]. intros x _. rewrite HS' by set_solver.
  destruct (decide (x = a)) as [->|Hne]; [congruence|]. apply HS. by apply not_elem_of_singleton.
Qed.

Lemma range_same A W W' x p bs : same A W W' -> x ∉ A -> range W x p bs -> range W' x p bs.
Proof. intros HS Hx (v & o & Hv & Hr). exists v, o. by rewrite HS. Qed.

Lemma range_bytes s W x p bs : holds s W -> range W x p bs -> Forall byte bs.
Proof. intros Hh (v & o & Hv & _ & _ & _ & <-). apply Forall_slice. by eapply law_bytes. Qed.

(** A piece of a string. *)
Lemma range_text W a p l o n :
  sees W a = Some (VStr p l) -> 0 <= o -> 0 <= n -> o + n <= zlen l -> range W a (p + o) (slice o n l).
Proof. intros Hv Ho Hn Hle. exists (VStr p l), o. simpl. by rewrite zlen_slice by lia. Qed.

Lemma range_nonnull s W x p bs : holds s W -> range W x p bs -> 0 < zlen bs -> p <> 0 /\ p + zlen bs <> 0.
Proof.
  intros Hh (v & o & Hv & -> & Ho & Hle & _) Hn. pose proof (law_place s W x v Hh Hv). lia.
Qed.

(** ** The invariant of the class *)

Lemma isSane_wp s W a p l (Q : bool -> Machine -> Prop) X :
  holds s W -> sees W a = Some (VStr p l) -> Q true s -> wp (isSane a) s Q X.
Proof.
  intros Hh Hv HQ. pose proof (zlen_nonneg l).
  apply wp_bind. eapply law_data; [done|done|]. apply wp_bind, wp_bind. eapply law_data; [done|done|].
  apply wp_bind. eapply law_size; [done|done|]. apply wp_ret.
  apply wp_bind. eapply law_size; [done|done|]. apply wp_bind, wp_bind. eapply law_size; [done|done|]. apply wp_ret.
  apply wp_bind. eapply law_capacity; [done|done|]. intros c _ _ Hc. unfold address_space in Hc.
  apply wp_bind, wp_bind. eapply law_terminator; [done|done|]. apply wp_ret, wp_ret.
  assert (E : forall b : bool, b = true -> Q b s) by (by intros b ->). apply E. unfold max_size.
  rewrite !andb_true_iff, !bool_decide_eq_true, !eqb_true_iff. split_and!; try lia; try done.
  apply bool_decide_ext. lia.
Qed.

Lemma assert_sane_wp {A} s W a p l (K : Run A) (Q : A -> Machine -> Prop) X :
  holds s W -> sees W a = Some (VStr p l) -> wp K s Q X -> wp (ok ← isSane a; FBSTRING_ASSERT ok;; K) s Q X.
Proof. intros Hh Hv HK. apply wp_bind. eapply isSane_wp; [done|done|]. by apply wp_bind, wp_assert. Qed.

(** The string at [a] exists and [P] holds. *)
Definition alive (a : Z) (s' : Machine) (P : Prop) : Prop :=
  (exists W' p' l', holds s' W' /\ sees W' a = Some (VStr p' l')) /\ P.

Lemma checked_wp {A} s W a p l (body : Run A) (Q : A -> Machine -> Prop) (X : exn -> Machine -> Prop) :
  holds s W -> sees W a = Some (VStr p l) ->
  wp body s (fun v s' => alive a s' (Q v s')) (fun e s' => alive a s' (X e s')) ->
  wp (checked a body) s Q X.
Proof.
  intros Hh Hv HB. eapply assert_sane_wp; [done|done|]. apply wp_bind, wp_try_catch.
  eapply wp_mono; [exact HB|..].
  - intros v s' ((W' & p' & l' & Hh' & Hv') & HQ). eapply assert_sane_wp; [done|done|]. by apply wp_ret.
  - intros e s' ((W' & p' & l' & Hh' & Hv') & HX). eapply assert_sane_wp; [done|done|]. by apply wp_throw.
Qed.

Lemma turns_alive a W l s' (P : Prop) : turns a W l s' -> P -> alive a s' P.
Proof. intros (W' & p & Hh & _ & Hv) HP. split; [|done]. by exists W', p, l. Qed.

Lemma untouched_alive W a p l s' (P : Prop) : sees W a = Some (VStr p l) -> untouched W s' -> P -> alive a s' P.
Proof. intros Hv (W' & Hh & HS) HP. split; [|done]. exists W', p, l. split; [done|]. by rewrite HS. Qed.

(** The assertion on the size at the end of a method. *)
Lemma assert_size_wp s' a W l m (Q : unit -> Machine -> Prop) X :
  turns a W l s' -> zlen l = m -> Q tt s' -> wp (sz ← str_size a; FBSTRING_ASSERT (bool_decide (sz = m))) s' Q X.
Proof.
  intros (W' & p & Hh & _ & Hv) Hl HQ. apply wp_bind. eapply law_size; [done|done|].
  by apply wp_assert; [apply bool_decide_eq_true|].
Qed.

(** ** Filling *)

Lemma memset_wp s W a p l o n c d (Q : unit -> Machine -> Prop) X :
  holds s W -> sees W a = Some (VStr p l) -> 0 <= n -> owns W a -> 0 <= o -> o + n <= zlen l -> d = p + o ->
  (forall s' W', holds s' W' -> same {[a]} W W' ->
     sees W' a = Some (VStr p (overwrite o (replicate (Z.to_nat n) (u8 c)) l)) -> owns W' a -> Q tt s') ->
  wp (memset d c n) s Q X.
Proof.
  intros Hh Hv Hn Ho Hoo Hle -> HQ. unfold memset.
  assert (Hz : zlen (replicate (Z.to_nat n) (u8 c)) = n) by (apply zlen_replicate; lia).
  eapply law_store; [done|done|done|apply Forall_replicate, (wrap_fits 8); lia|done|lia|].
  intros s' W' Hh' HS Hv' Ho' _. by eapply HQ.
Qed.

Lemma podFill_wp s W a p l o n c e (Q : unit -> Machine -> Prop) X :
  holds s W -> sees W a = Some (VStr p l) -> 0 <= n -> owns W a -> 0 <= o -> o + n <= zlen l -> e = p + o + n ->
  (forall s' W', holds s' W' -> same {[a]} W W' ->
     sees W' a = Some (VStr p (overwrite o (replicate (Z.to_nat n) (u8 c)) l)) -> owns W' a -> Q tt s') ->
  wp (podFill (p + o) e c) s Q X.
Proof.
  intros Hh Hv Hn Ho Hoo Hle -> HQ. pose proof (law_place s W a _ Hh Hv) as Hp. simpl in Hp.
  apply wp_bind, wp_assert; [apply bool_decide_eq_true; lia|].
  replace (p + o + n - (p + o)) with n by lia. by eapply (memset_wp s W a p l o n).
Qed.

Lemma overwrite_tail (l ext bs : list Z) : zlen ext = zlen bs -> overwrite (zlen l) bs (l ++ ext) = l ++ bs.
Proof.
  intros E. unfold overwrite, zlen in *. rewrite Nat2Z.id, take_app_length. f_equal.
  rewrite drop_ge; [apply app_nil_r|]. rewrite length_app. lia.
Qed.

(** Growth by [n] copies of [c]: [resize], [append(n, c)] and the constructor. *)
Lemma expand_fill_wp s W a p l n c eg (Q : unit -> Machine -> Prop) (X : exn -> Machine -> Prop) :
  holds s W -> sees W a = Some (VStr p l) -> 0 <= n -> zlen l + n < address_space ->
  (forall s' W' p', holds s' W' -> same {[a]} W W' -> sees W' a = Some (VStr p' (l ++ replicate (Z.to_nat n) (u8 c))) ->
     (0 < n \/ owns W a -> owns W' a) -> Q tt s') ->
  (forall s', untouched W s' -> X bad_alloc s') ->
  wp (pData ← store_expandNoinit a n eg; podFill pData (pData + n) c) s Q X.
Proof.
  intros Hh Hv Hn Hm HQ HX. apply wp_bind. eapply law_expandNoinit; [done|done|done|done| |done].
  intros s1 W1 p1 ext Hh1 HS1 Hv1 Hext Ho1. pose proof (zlen_nonneg l). pose proof (law_place s1 W1 a _ Hh1 Hv1) as Hp. simpl in Hp.
  rewrite zlen_app in Hp.
  destruct (decide (n = 0)) as [->|Hnz].
  - assert (ext = []) as -> by (destruct ext; [done|unfold zlen in Hext; simpl in Hext; lia]).
    apply wp_bind, wp_assert; [apply bool_decide_eq_true; lia|]. replace (p1 + zlen l + 0 - (p1 + zlen l)) with 0 by lia.
    unfold memset, store_bytes. rewrite decide_True by done. apply wp_ret. by eapply HQ.
  - eapply (podFill_wp s1 W1 a p1 _ (zlen l) n); [done|done|lia|apply Ho1; left; lia|lia|rewrite zlen_app; lia|lia|].
    intros s2 W2 Hh2 HS2 Hv2 Ho2. rewrite overwrite_tail in Hv2 by (rewrite zlen_replicate; lia).
    eapply HQ; [done|by eapply same_trans|done|done].
Qed.

Lemma resize_wp s W a p l n c (Q : unit -> Machine -> Prop) (X : exn -> Machine -> Prop) :
  holds s W -> sees W a = Some (VStr p l) -> 0 <= n < address_space ->
  (forall s' W' p', holds s' W' -> same {[a]} W W' ->
     sees W' a = Some (VStr p' (if decide (n <= zlen l) then slice 0 n l else l ++ replicate (Z.to_nat (n - zlen l)) (u8 c))) ->
     (n <> zlen l \/ owns W a -> owns W' a) -> Q tt s') ->
  (forall s', n <> zlen l -> ~ (owns W a /\ n < zlen l) -> untouched W s' -> X bad_alloc s') ->
  wp (str_resize a n c) s Q X.
Proof.
  intros Hh Hv Hn HQ HX. pose proof (zlen_nonneg l). eapply checked_wp; [done|done|].
  apply wp_bind. eapply law_size; [done|done|]. apply wp_bind.
  destruct (decide (n <= zlen l)) as [Hle|Hgt].
  - eapply law_shrink; [done|done|lia|..].
    + intros s' W' p' Hh' HS Hv' Ho _. replace (zlen l - (zlen l - n)) with n in Hv' by lia.
      assert (Ht : turns a W (slice 0 n l) s') by by exists W', p'.
      eapply assert_size_wp; [exact Ht|apply zlen_slice; lia|]. eapply turns_alive; [exact Ht|].
      eapply HQ; [done|done|done|]. intros [?|?]; apply Ho; [left; lia|by right].
    + intros Hd Hno s' Hu. eapply untouched_alive; [done|done|]. apply HX; [lia|naive_solver|done].
  - eapply expand_fill_wp; [done|done|lia|lia|..].
    + intros s' W' p' Hh' HS Hv' Ho. eapply assert_size_wp; [by exists W', p'|rewrite zlen_app, zlen_replicate; lia|].
      split; [by exists W', p', (l ++ replicate (Z.to_nat (n - zlen l)) (u8 c))|].
      eapply HQ; [done|done|done|]. intros [?|?]; apply Ho; [left; lia|by right].
    + intros s' Hu. eapply untouched_alive; [done|done|]. apply HX; [lia|lia|done].
Qed.

(** ** Copying into a text *)

Lemma memmove_wp s W a p l o x q bs d n (Q : unit -> Machine -> Prop) X :
  holds s W -> sees W a = Some (VStr p l) -> owns W a -> range W x q bs -> 0 <= o -> o + zlen bs <= zlen l ->
  d = p + o -> n = zlen bs ->
  (forall s' W', holds s' W' -> same {[a]} W W' -> sees W' a = Some (VStr p (overwrite o bs l)) -> owns W' a -> Q tt s') ->
  wp (memmove d q n) s Q X.
Proof.
  intros Hh Hv Ho Hr Hoo Hle -> -> HQ. apply wp_bind. eapply law_load; [done|done|].
  eapply law_store; [done|done|done|by eapply range_bytes|done|done|]. intros s' W' Hh' HS Hv' Ho' _. by eapply HQ.
Qed.

Lemma podMove_wp s W a p l o x q bs d e (Q : unit -> Machine -> Prop) X :
  holds s W -> sees W a = Some (VStr p l) -> owns W a -> range W x q bs -> 0 <= o -> o + zlen bs <= zlen l ->
  d = p + o -> e = q + zlen bs ->
  (forall s' W', holds s' W' -> same {[a]} W W' -> sees W' a = Some (VStr p (overwrite o bs l)) -> owns W' a -> Q tt s') ->
  wp (podMove q e d) s Q X.
Proof.
  intros Hh Hv Ho Hr Hoo Hle Hd -> HQ. pose proof (zlen_nonneg bs).
  apply wp_bind, wp_assert; [apply bool_decide_eq_true; lia|]. eapply (memmove_wp s W a p l o x q bs); (done || lia || exact HQ).
Qed.

Lemma text_copy_wp s W a p l o x q bs d e (Q : unit -> Machine -> Prop) X :
  holds s W -> sees W a = Some (VStr p l) -> owns W a -> range W x q bs -> x <> a -> 0 < zlen bs ->
  0 <= o -> o + zlen bs <= zlen l -> d = p + o -> e = q + zlen bs ->
  (forall s' W', holds s' W' -> same {[a]} W W' -> sees W' a = Some (VStr p (overwrite o bs l)) -> owns W' a -> Q tt s') ->
  wp (podCopy q e d) s Q X.
Proof.
  intros Hh Hv Ho Hr Hne Hn Hoo Hle -> -> HQ.
  pose proof (range_nonnull s W x q bs Hh Hr Hn) as [Hq He]. pose proof (law_place s W a _ Hh Hv) as Hp. simpl in Hp.
  pose proof (law_apart s W a p l x q bs Hh Hv Ho Hr Hne Hn) as Hap.
  do 5 (apply wp_bind, wp_assert; [apply bool_decide_eq_true; lia|]).
  apply wp_bind, wp_assert; [apply bool_decide_eq_true; lia|]. eapply (memmove_wp s W a p l o x q bs); (done || lia || exact HQ).
Qed.

(** ** Append *)

(** Which string the range is from does not matter, this one included. *)
Lemma append_ptr_wp s W a p l x q bs (Q : unit -> Machine -> Prop) (X : exn -> Machine -> Prop) :
  holds s W -> sees W a = Some (VStr p l) -> range W x q bs -> zlen l + zlen bs < address_space ->
  (forall s', turns a W (l ++ bs) s' -> Q tt s') -> (forall s', untouched W s' -> X bad_alloc s') ->
  wp (append_ptr a q (zlen bs)) s Q X.
Proof.
  intros Hh Hv Hr Hm HQ HX. pose proof (zlen_nonneg l). pose proof (zlen_nonneg bs).
  eapply checked_wp; [done|done|]. destruct (decide (zlen bs = 0)) as [Hz|Hnz].
  { assert (bs = []) as -> by (destruct bs; [done|unfold zlen in Hz; simpl in Hz; lia]).
    rewrite app_nil_r in HQ. apply wp_ret. split; [by exists W, p, l|]. apply HQ. exists W, p. by split_and!. }
  apply wp_bind. eapply law_size; [done|done|]. apply wp_bind. eapply law_data; [done|done|].
  apply wp_bind. eapply law_expandNoinit; [done|done|lia|done| |].
  2: { intros s' Hu. eapply untouched_alive; [done|done|]. by apply HX. }
  intros s1 W1 p1 ext Hh1 HS1 Hv1 Hext Ho1. assert (Ho : owns W1 a) by (apply Ho1; left; lia).
  assert (Hend : forall s2 W2, holds s2 W2 -> same {[a]} W1 W2 -> sees W2 a = Some (VStr p1 (overwrite (zlen l) bs (l ++ ext))) ->
    wp (sz ← str_size a; FBSTRING_ASSERT (bool_decide (sz = zlen l + zlen bs))) s2
      (fun v s' => alive a s' (Q v s')) (fun e s' => alive a s' (X e s'))).
  { intros s2 W2 Hh2 HS2 Hv2. rewrite overwrite_tail in Hv2 by done.
    assert (Ht : turns a W (l ++ bs) s2) by (exists W2, p1; split_and!; [done|by eapply same_trans|done]).
    eapply assert_size_wp; [exact Ht|by rewrite zlen_app|]. eapply turns_alive; [exact Ht|]. by apply HQ. }
  assert (Hla : zlen (l ++ ext) = zlen l + zlen bs) by (rewrite zlen_app; lia).
  apply wp_bind. destruct (decide (p <= q /\ ~ p + zlen l <= q)) as [Hin|Hout].
  - destruct (law_inside s W a p l x q bs Hh Hv Hr) as [Hfit Hsl]; [lia|lia|].
    apply wp_bind, wp_assert; [apply bool_decide_eq_true; lia|].
    apply wp_bind. eapply law_data; [done|done|]. cbv zeta.
    eapply (podMove_wp s1 W1 a p1 _ (zlen l) a _ bs); [done|done|done| |lia|lia|done|done|].
    + exists (VStr p1 (l ++ ext)), (q - p). simpl. split_and!; [done|done|lia|lia|].
      unfold slice in *. rewrite drop_app_le by (unfold zlen in *; lia). rewrite take_app_le; [done|].
      rewrite length_drop. unfold zlen in *. lia.
    + intros s2 W2 Hh2 HS2 Hv2 _. by eapply Hend.
  - assert (Hne : x <> a).
    { intros ->. destruct Hr as (v & o & Hv' & -> & Hoo & Hle & _). rewrite Hv in Hv'. injection Hv' as <-. simpl in *. lia. }
    eapply (text_copy_wp s1 W1 a p1 _ (zlen l) x _ bs); [done|done|done| |done|lia|lia|lia|done|done|].
    + eapply range_same; [exact HS1|set_solver|done].
    + intros s2 W2 Hh2 HS2 Hv2 _. by eapply Hend.
Qed.

Lemma append_fill_wp s W a p l n c (Q : unit -> Machine -> Prop) (X : exn -> Machine -> Prop) :
  holds s W -> sees W a = Some (VStr p l) -> 0 <= n -> zlen l + n < address_space ->
  (forall s', turns a W (l ++ replicate (Z.to_nat n) (u8 c)) s' -> Q tt s') -> (forall s', untouched W s' -> X bad_alloc s') ->
  wp (append_fill a n c) s Q X.
Proof.
  intros Hh Hv Hn Hm HQ HX. eapply checked_wp; [done|done|]. eapply expand_fill_wp; [done|done|done|done|..].
  - intros s' W' p' Hh' HS Hv' _. assert (Ht : turns a W (l ++ replicate (Z.to_nat n) (u8 c)) s') by by exists W', p'.
    eapply turns_alive; [exact Ht|]. by apply HQ.
  - intros s' Hu. eapply untouched_alive; [done|done|]. by apply HX.
Qed.

(** ** Assignment *)

(** Making a shared string its own leaves the old characters readable, in the
    strings that shared them. *)
Lemma range_owned s W W1 a p l x q bs :
  holds s W -> sees W a = Some (VStr p l) -> range W x q bs -> same {[a]} W W1 -> (owns W a -> W1 = W) ->
  exists x1, range W1 x1 q bs.
Proof.
  intros Hh Hv Hr HS Hown. destruct (decide (x = a)) as [->|Hne].
  - destruct (decide (owns W a)) as [Ho|Hno]; [exists a; by rewrite (Hown Ho)|].
    destruct (law_shared s W a p l Hh Hv Hno) as (y & Hya & Hvy). exists y.
    destruct Hr as (v & o & Hv' & -> & Ho & Hle & Hs). rewrite Hv in Hv'. injection Hv' as <-. simpl in *.
    exists (VStr p l), o. by rewrite HS by by apply not_elem_of_singleton.
  - exists x. eapply range_same; [done|by apply not_elem_of_singleton|done].
Qed.

(** After a failed [assign] the string is what it was, or empty. *)
Definition reset_or_untouched (a : Z) (W : world) (s' : Machine) : Prop := untouched W s' \/ turns a W [] s'.

Lemma assign_ptr_wp s W a p l x q bs (Q : unit -> Machine -> Prop) (X : exn -> Machine -> Prop) :
  holds s W -> sees W a = Some (VStr p l) -> range W x q bs -> zlen bs < address_space ->
  (forall s', turns a W bs s' -> Q tt s') -> (forall s', reset_or_untouched a W s' -> X bad_alloc s') ->
  wp (assign_ptr a q (zlen bs)) s Q X.
Proof.
  intros Hh Hv Hr Hm HQ HX. pose proof (zlen_nonneg l). pose proof (zlen_nonneg bs).
  assert (HU : forall s', untouched W s' -> alive a s' (X bad_alloc s')).
  { intros s' Hu. eapply untouched_alive; [done|done|]. apply HX. by left. }
  assert (Hend : forall s', turns a W bs s' -> wp (sz ← str_size a; FBSTRING_ASSERT (bool_decide (sz = zlen bs))) s'
      (fun v s' => alive a s' (Q v s')) (fun e s' => alive a s' (X e s'))).
  { intros s' Ht. eapply assert_size_wp; [exact Ht|done|]. eapply turns_alive; [exact Ht|]. by apply HQ. }
  eapply checked_wp; [done|done|]. apply wp_bind. eapply law_size; [done|done|]. apply wp_bind.
  destruct (decide (zlen bs = 0)) as [Hz|Hnz]; [|destruct (decide (zlen l >= zlen bs)) as [Hge|Hlt]].
  - assert (bs = []) as -> by (destruct bs; [done|unfold zlen in Hz; simpl in Hz; lia]).
    eapply resize_wp; [done|done|unfold address_space; lia|..].
    + intros s' W' p' Hh' HS Hv' _. rewrite decide_True, slice_0 in Hv' by done. apply Hend. by exists W', p'.
    + intros s' _ _ Hu. by apply HU.
  - apply wp_bind. eapply law_mutableData; [done|done| |by intros _]. intros s1 W1 p1 Hh1 HS1 Hv1 Ho1 Hown.
    destruct (range_owned s W W1 a p l x q bs Hh Hv Hr HS1) as [x1 Hr1]; [intros Ho; by apply Hown|].
    apply wp_bind. eapply (podMove_wp s1 W1 a p1 l 0 x1 q bs); [done|done|done|done|done|lia|lia|done|].
    intros s2 W2 Hh2 HS2 Hv2 Ho2. apply wp_bind. eapply law_size; [done|done|].
    assert (Hlo : zlen (overwrite 0 bs l) = zlen l) by (apply zlen_overwrite; lia).
    apply wp_bind. eapply law_shrink; [done|done|lia|..].
    + intros s3 W3 p3 Hh3 HS3 Hv3 _ _. rewrite Hlo in Hv3. replace (zlen l - (zlen l - zlen bs)) with (zlen bs) in Hv3 by lia.
      rewrite slice_overwrite in Hv3 by lia.
      assert (Ht : turns a W bs s3).
      { exists W3, p3. split_and!; [done| |done]. eapply same_trans; [exact HS1|]. by eapply same_trans. }
      eapply assert_size_wp; [exact Ht|done|]. by apply Hend.
    + naive_solver.
  - apply wp_bind. eapply resize_wp; [done|done|unfold address_space; lia|..].
    + intros s1 W1 p1 Hh1 HS1 Hv1 _. rewrite decide_True, slice_0 in Hv1 by lia. change (zlen []) with 0 in *.
      apply wp_bind. eapply law_expandNoinit; [done|done|lia|change (zlen []) with 0; lia| |].
      * intros s2 W2 p2 ext Hh2 HS2 Hv2 Hext Ho2. change (zlen []) with 0. simpl in Hv2.
        assert (Hne : x <> a).
        { intros ->. destruct Hr as (v & o & Hv' & -> & Hoo & Hle & _). rewrite Hv in Hv'. injection Hv' as <-. simpl in *. lia. }
        eapply (text_copy_wp s2 W2 a p2 ext 0 x q bs); [done|done|apply Ho2; left; lia| |done|lia|done|lia|done|done|].
        -- eapply range_same, Hr; [by eapply same_trans|set_solver].
        -- intros s3 W3 Hh3 HS3 Hv3 _. apply Hend. exists W3, p2.
           split_and!; [done|eapply same_trans; [exact HS1|by eapply same_trans]|].
           rewrite Hv3. do 2 f_equal. exact (overwrite_tail [] ext bs Hext).
      * intros s2 Hu. assert (Ht : turns a W [] s2).
        { destruct Hu as (W2 & Hh2 & HS2). exists W2, p1. split_and!; [done| |by rewrite HS2].
          eapply same_trans; [exact HS1|]. eapply same_mono; [|exact HS2]. set_solver. }
        eapply turns_alive; [exact Ht|]. apply HX. by right.
    + intros s' _ _ Hu. by apply HU.
Qed.
End Text.

(** * FBString: [basic_fbstring] is edited in the middle

    [erase], [insert] and [replace], proved against the contract of the core. *)

(** ** The texts *)

Definition erased (pos n : Z) (l : list Z) : list Z := slice 0 pos l ++ slice (pos + n) (zlen l - pos - n) l.
Definition replaced (pos n : Z) (bs l : list Z) : list Z :=
  slice 0 pos l ++ bs ++ slice (pos + n) (zlen l - pos - n) l.

Lemma slice_app_l o n (l r : list Z) : 0 <= o -> 0 <= n -> o + n <= zlen l -> slice o n (l ++ r) = slice o n l.
Proof.
  intros Ho Hn Hle. unfold slice, zlen in *. rewrite drop_app_le by lia. rewrite take_app_le; [done|].
  rewrite length_drop. lia.
Qed.

Lemma slice_all n (l : list Z) : n = zlen l -> slice 0 n l = l.
Proof. intros ->. apply slice_full. Qed.

Lemma slice_halves o n (l : list Z) : 0 <= o -> 0 <= n -> o + n = zlen l -> slice 0 o l ++ slice o n l = l.
Proof. intros Ho Hn E. rewrite <- (Z.add_0_l o) at 2. rewrite <- slice_split by lia. by apply slice_all. Qed.

Lemma zlen_erased pos n l : 0 <= pos -> 0 <= n -> pos + n <= zlen l -> zlen (erased pos n l) = zlen l - n.
Proof. intros. unfold erased. rewrite zlen_app, !zlen_slice by lia. lia. Qed.

Lemma zlen_replaced pos n bs l :
  0 <= pos -> 0 <= n -> pos + n <= zlen l -> zlen (replaced pos n bs l) = zlen l - n + zlen bs.
Proof. intros. unfold replaced. rewrite !zlen_app, !zlen_slice by lia. lia. Qed.

(** The tail moves down over what is erased. *)
Lemma erase_moves pos n (l : list Z) :
  0 <= pos -> 0 <= n -> pos + n <= zlen l ->
  slice 0 (zlen l - n) (overwrite pos (slice (pos + n) (zlen l - pos - n) l) l) = erased pos n l.
Proof.
  intros Hp Hn Hle. set (t := slice (pos + n) (zlen l - pos - n) l).
  assert (Ht : zlen t = zlen l - pos - n) by (apply zlen_slice; lia).
  replace (zlen l - n) with (pos + zlen t) by lia. rewrite slice_split by (pose proof (zlen_nonneg t); lia).
  unfold erased. fold t. f_equal.
  - apply slice_overwrite_before; lia.
  - rewrite Z.add_0_l. apply slice_overwrite; lia.
Qed.

(** The tail moves up, and the gap is filled. *)
Lemma insert_moves pos (l ext bs : list Z) :
  0 <= pos <= zlen l -> zlen ext = zlen bs ->
  overwrite pos bs (overwrite (pos + zlen bs) (slice pos (zlen l - pos) l) (l ++ ext)) = replaced pos 0 bs l.
Proof.
  intros Hp Hext. pose proof (zlen_nonneg bs). set (t := slice pos (zlen l - pos) l).
  assert (Ht : zlen t = zlen l - pos) by (apply zlen_slice; lia).
  assert (Hla : zlen (l ++ ext) = zlen l + zlen bs) by (rewrite zlen_app; lia).
  set (r := overwrite (pos + zlen bs) t (l ++ ext)).
  assert (Hr : zlen r = zlen l + zlen bs) by (unfold r; rewrite zlen_overwrite; lia).
  assert (Ho : zlen (overwrite pos bs r) = zlen l + zlen bs) by (rewrite zlen_overwrite; lia).
  rewrite <- (slice_full (overwrite pos bs r)), Ho.
  replace (zlen l + zlen bs) with (pos + (zlen bs + zlen t)) by lia. rewrite !slice_split by lia. rewrite Z.add_0_l.
  unfold replaced. f_equal; [|f_equal].
  - rewrite slice_overwrite_before by lia. unfold r. rewrite slice_overwrite_before by lia. apply slice_app_l; lia.
  - apply slice_overwrite; lia.
  - rewrite slice_overwrite_after by lia. unfold r. rewrite slice_overwrite by lia. unfold t. f_equal; lia.
Qed.

Section Edit.
Context `{Platform} `{!fbstring_core_model}.
Implicit Types (s : Machine) (W : world).

Lemma turns_untouched s W a p l s' : sees W a = Some (VStr p l) -> untouched W s' -> turns a W l s'.
Proof.
  intros Hv (W' & Hh & HS). exists W', p. split_and!; [done| |by rewrite HS].
  eapply same_mono; [|exact HS]. set_solver.
Qed.

Lemma turns_trans a W W1 l s' : same {[a]} W W1 -> turns a W1 l s' -> turns a W l s'.
Proof. intros HS (W' & p & Hh & HS' & Hv). exists W', p. split_and!; [done|by eapply same_trans|done]. Qed.

Lemma begin_owned_wp s W a p l (Q : Z -> Machine -> Prop) X :
  holds s W -> sees W a = Some (VStr p l) -> owns W a -> Q p s -> wp (str_begin a) s Q X.
Proof.
  intros Hh Hv Ho HQ. eapply law_mutableData; [done|done| |done].
  intros s' W' p' _ _ Hv' _ Hown. destruct (Hown Ho) as [-> ->]. rewrite Hv in Hv'. by injection Hv' as <-.
Qed.

Lemma end_owned_wp s W a p l (Q : Z -> Machine -> Prop) X :
  holds s W -> sees W a = Some (VStr p l) -> owns W a -> Q (p + zlen l) s -> wp (str_end a) s Q X.
Proof.
  intros Hh Hv Ho HQ. apply wp_bind. eapply begin_owned_wp; [done|done|done|].
  apply wp_bind. eapply law_size; [done|done|]. by apply wp_ret.
Qed.

(** ** Erase *)

Lemma procrustes_min n m : procrustes n m = Z.min n m.
Proof. unfold procrustes. case_decide; lia. Qed.

Lemma erase_wp s W a p l pos n (Q : unit -> Machine -> Prop) (X : exn -> Machine -> Prop) :
  holds s W -> sees W a = Some (VStr p l) -> 0 <= pos -> 0 <= n ->
  (forall s' W' p', pos <= zlen l -> holds s' W' -> same {[a]} W W' ->
     sees W' a = Some (VStr p' (erased pos (Z.min n (zlen l - pos)) l)) -> owns W' a -> Q tt s') ->
  (zlen l < pos -> X out_of_bounds s) -> (~ owns W a -> forall s', untouched W s' -> X bad_alloc s') ->
  wp (str_erase a pos n) s Q X.
Proof.
  intros Hh Hv Hp Hn HQ HXr HX. pose proof (zlen_nonneg l). pose proof (law_length s W a p l Hh Hv) as Hmax.
  eapply checked_wp; [done|done|]. apply wp_bind. eapply law_size; [done|done|]. apply wp_bind.
  case_bool_decide as Hle; [apply wp_ret|apply wp_throw; split; [by exists W, p, l|]; apply HXr; lia].
  rewrite procrustes_min. set (m := Z.min n (zlen l - pos)) in *.
  apply wp_bind. eapply law_mutableData; [done|done| |].
  2: { intros Hno s' Hu. eapply untouched_alive; [done|done|]. by apply HX. }
  intros s1 W1 p1 Hh1 HS1 Hv1 Ho1 Hown.
  apply wp_bind. eapply end_owned_wp; [done|done|done|].
  apply wp_bind. eapply (memmove_wp s1 W1 a p1 l pos a _ (slice (pos + m) (zlen l - pos - m) l)).
  { done. } { done. } { done. } { rewrite <- Z.add_assoc. apply range_text; [done|lia..]. }
  { done. } { rewrite zlen_slice; lia. } { done. } { rewrite zlen_slice; lia. }
  intros s2 W2 Hh2 HS2 Hv2 Ho2.
  set (l2 := overwrite pos (slice (pos + m) (zlen l - pos - m) l) l) in *.
  assert (Hl2 : zlen l2 = zlen l) by (apply zlen_overwrite; rewrite ?zlen_slice; lia).
  apply wp_bind. eapply law_size; [done|done|].
  eapply resize_wp; [done|done|lia|..].
  - intros s3 W3 p3 Hh3 HS3 Hv3 Ho3. rewrite Hl2, decide_True in Hv3 by lia. unfold l2 in Hv3. rewrite erase_moves in Hv3 by lia.
    split; [by eauto|]. eapply HQ; [done|done| |exact Hv3|apply Ho3; by right].
    eapply same_trans; [exact HS1|]. by eapply same_trans.
  - intros s3 Hne Hno. exfalso. apply Hno. split; [done|lia].
Qed.
Lemma erase_range_wp s W a p l pos n first last (Q : Z -> Machine -> Prop) X :
  holds s W -> sees W a = Some (VStr p l) -> owns W a -> 0 <= pos -> 0 <= n -> pos + n <= zlen l ->
  first = p + pos -> last = first + n ->
  (forall s' W' p', holds s' W' -> same {[a]} W W' -> sees W' a = Some (VStr p' (erased pos n l)) -> owns W' a ->
     Q (p' + pos) s') ->
  wp (erase_range a first last) s Q X.
Proof.
  intros Hh Hv Ho Hp Hn Hle -> -> HQ. apply wp_bind. eapply begin_owned_wp; [done|done|done|].
  cbv zeta. replace (p + pos + n - (p + pos)) with n by lia. replace (p + pos - p) with pos by lia.
  apply wp_bind. eapply erase_wp; [done|done|done|done|..].
  - intros s1 W1 p1 _ Hh1 HS1 Hv1 Ho1. rewrite Z.min_l in Hv1 by lia.
    apply wp_bind. eapply begin_owned_wp; [done|done|done|]. apply wp_ret. by eapply HQ.
  - lia.
  - done.
Qed.

(** ** Insert *)

(** A gap of [n] characters opens at [pos]. *)
Lemma gap_wp {A} s W a p l pos n (K : Z -> Run A) (Q : A -> Machine -> Prop) (X : exn -> Machine -> Prop) :
  holds s W -> sees W a = Some (VStr p l) -> 0 <= pos <= zlen l -> 0 <= n -> zlen l + n < address_space ->
  (forall s' W' p' ext, holds s' W' -> same {[a]} W W' ->
     sees W' a = Some (VStr p' (overwrite (pos + n) (slice pos (zlen l - pos) l) (l ++ ext))) -> zlen ext = n -> owns W' a ->
     wp (K p') s' Q X) ->
  (forall s', turns a W l s' -> X bad_alloc s') ->
  wp (store_expandNoinit a n true;; b ← str_begin a; podMove (b + pos) (b + zlen l) (b + pos + n);; K b) s Q X.
Proof.
  intros Hh Hv Hp Hn Hm HK HX. apply wp_bind. eapply law_expandNoinit; [done|done|done|done| |].
  2: { intros s' Hu. apply HX. by eapply turns_untouched. }
  intros s1 W1 p1 ext Hh1 HS1 Hv1 Hext Ho1. apply wp_bind.
  eapply law_mutableData; [done|done|..].
  - intros s2 W2 p2 Hh2 HS2 Hv2 Ho2 _. apply wp_bind.
    assert (Hla : zlen (l ++ ext) = zlen l + n) by (rewrite zlen_app; lia).
    assert (Ht : zlen (slice pos (zlen l - pos) l) = zlen l - pos) by (apply zlen_slice; lia).
    eapply (podMove_wp s2 W2 a p2 _ (pos + n) a _ (slice pos (zlen l - pos) l)); [done|done|done| |lia|lia|lia|lia|].
    + rewrite <- (slice_app_l _ _ l ext) by lia. apply range_text; [done|lia..].
    + intros s3 W3 Hh3 HS3 Hv3 Ho3. eapply HK; [done| |done|done|done].
      eapply same_trans; [exact HS1|]. by eapply same_trans.
  - intros Hno s' Hu. apply HX. destruct (decide (n = 0)) as [->|]; [|exfalso; apply Hno, Ho1; left; lia].
    assert (ext = []) as -> by (destruct ext; [done|unfold zlen in Hext; simpl in Hext; lia]). rewrite app_nil_r in Hv1.
    eapply turns_trans; [exact HS1|]. by eapply turns_untouched.
Qed.

Lemma insert_fill_at_wp s W a p l pos n c i (Q : Z -> Machine -> Prop) (X : exn -> Machine -> Prop) :
  holds s W -> sees W a = Some (VStr p l) -> 0 <= pos <= zlen l -> 0 <= n -> zlen l + n < address_space -> i = p + pos ->
  (forall s' W' p', holds s' W' -> same {[a]} W W' ->
     sees W' a = Some (VStr p' (replaced pos 0 (replicate (Z.to_nat n) (u8 c)) l)) -> owns W' a -> Q (p' + pos) s') ->
  (forall s', turns a W l s' -> X bad_alloc s') ->
  wp (insert_fill_at a i n c) s Q X.
Proof.
  intros Hh Hv Hp Hn Hm -> HQ HX. eapply checked_wp; [done|done|].
  apply wp_bind. eapply law_data; [done|done|]. apply wp_bind, wp_bind. eapply law_data; [done|done|].
  apply wp_bind. eapply law_size; [done|done|]. apply wp_ret.
  apply wp_bind, wp_assert; [apply bool_decide_eq_true; lia|]. cbv zeta. replace (p + pos - p) with pos by lia.
  apply wp_bind. eapply law_size; [done|done|]. eapply gap_wp; [done|done|done|done|done|..].
  - intros s1 W1 p1 ext Hh1 HS1 Hv1 Hext Ho1. apply wp_bind.
    assert (Hr : zlen (replicate (Z.to_nat n) (u8 c)) = n) by (apply zlen_replicate; lia).
    eapply (podFill_wp s1 W1 a p1 _ pos n); [done|done|done|done|lia| |done|].
    { rewrite zlen_overwrite; rewrite ?zlen_slice, ?zlen_app; lia. }
    intros s2 W2 Hh2 HS2 Hv2 Ho2. rewrite <- Hr in Hv2 at 2. rewrite insert_moves in Hv2 by lia.
    apply wp_ret. split; [by eauto|]. eapply HQ; [done|by eapply same_trans|done|done].
  - intros s' Ht. eapply turns_alive; [exact Ht|]. by apply HX.
Qed.

Lemma insert_range_at_wp s W a p l pos x q bs i e (Q : Z -> Machine -> Prop) (X : exn -> Machine -> Prop) :
  holds s W -> sees W a = Some (VStr p l) -> range W x q bs -> x <> a -> 0 <= pos <= zlen l ->
  zlen l + zlen bs < address_space -> i = p + pos -> e = q + zlen bs ->
  (forall s' W' p', holds s' W' -> same {[a]} W W' -> sees W' a = Some (VStr p' (replaced pos 0 bs l)) -> owns W' a ->
     Q (p' + pos) s') ->
  (forall s', turns a W l s' -> X bad_alloc s') ->
  wp (insert_range_at a i q e) s Q X.
Proof.
  intros Hh Hv Hr Hne Hp Hm -> -> HQ HX. pose proof (zlen_nonneg bs). eapply checked_wp; [done|done|].
  apply wp_bind. eapply law_data; [done|done|]. apply wp_bind, wp_bind. eapply law_data; [done|done|].
  apply wp_bind. eapply law_size; [done|done|]. apply wp_ret.
  apply wp_bind, wp_assert; [apply bool_decide_eq_true; lia|]. cbv zeta. replace (p + pos - p) with pos by lia.
  replace (q + zlen bs - q) with (zlen bs) by lia.
  apply wp_bind, wp_assert; [apply bool_decide_eq_true; lia|].
  apply wp_bind. eapply law_size; [done|done|]. eapply gap_wp; [done|done|done|done|done|..].
  - intros s1 W1 p1 ext Hh1 HS1 Hv1 Hext Ho1. apply wp_bind.
    eapply (memmove_wp s1 W1 a p1 _ pos x q bs); [done|done|done| |lia| |done|lia|].
    { eapply range_same; [exact HS1|set_solver|done]. }
    { rewrite zlen_overwrite; rewrite ?zlen_slice, ?zlen_app; lia. }
    intros s2 W2 Hh2 HS2 Hv2 Ho2. rewrite insert_moves in Hv2 by lia.
    apply wp_ret. split; [by eauto|]. eapply HQ; [done|by eapply same_trans|done|done].
  - intros s' Ht. eapply turns_alive; [exact Ht|]. by apply HX.
Qed.
(** The methods that take a position. *)
Lemma insert_ptr_wp s W a p l pos x q bs (Q : unit -> Machine -> Prop) (X : exn -> Machine -> Prop) :
  holds s W -> sees W a = Some (VStr p l) -> range W x q bs -> x <> a -> 0 <= pos -> zlen l + zlen bs < address_space ->
  (forall s', pos <= zlen l -> turns a W (replaced pos 0 bs l) s' -> Q tt s') ->
  (zlen l < pos -> X out_of_bounds s) -> (forall s', turns a W l s' -> X bad_alloc s') ->
  wp (insert_ptr a pos q (zlen bs)) s Q X.
Proof.
  intros Hh Hv Hr Hne Hp Hm HQ HXr HX. apply wp_bind. eapply law_size; [done|done|]. apply wp_bind.
  case_bool_decide as Hle; [apply wp_ret|apply wp_throw, HXr; lia].
  apply wp_bind. eapply law_mutableData; [done|done| |].
  2: { intros _ s' Hu. apply HX. by eapply turns_untouched. }
  intros s1 W1 p1 Hh1 HS1 Hv1 _ _. apply wp_bind.
  eapply (insert_range_at_wp s1 W1 a p1 l pos x q bs); [done|done|eapply range_same; [exact HS1|set_solver|exact Hr]|done|lia|done|done|done|..].
  - intros s2 W2 p2 Hh2 HS2 Hv2 _. apply wp_ret, HQ; [done|]. eapply turns_trans; [exact HS1|]. by exists W2, p2.
  - intros s' Ht. apply HX. by eapply turns_trans.
Qed.

Lemma insert_fill_wp s W a p l pos n c (Q : unit -> Machine -> Prop) (X : exn -> Machine -> Prop) :
  holds s W -> sees W a = Some (VStr p l) -> 0 <= pos -> 0 <= n -> zlen l + n < address_space ->
  (forall s', pos <= zlen l -> turns a W (replaced pos 0 (replicate (Z.to_nat n) (u8 c)) l) s' -> Q tt s') ->
  (zlen l < pos -> X out_of_bounds s) -> (forall s', turns a W l s' -> X bad_alloc s') ->
  wp (insert_fill a pos n c) s Q X.
Proof.
  intros Hh Hv Hp Hn Hm HQ HXr HX. apply wp_bind. eapply law_size; [done|done|]. apply wp_bind.
  case_bool_decide as Hle; [apply wp_ret|apply wp_throw, HXr; lia].
  apply wp_bind. eapply law_mutableData; [done|done| |].
  2: { intros _ s' Hu. apply HX. by eapply turns_untouched. }
  intros s1 W1 p1 Hh1 HS1 Hv1 _ _. apply wp_bind.
  eapply (insert_fill_at_wp s1 W1 a p1 l pos); [done|done|lia|done|done|done|..].
  - intros s2 W2 p2 Hh2 HS2 Hv2 _. apply wp_ret, HQ; [done|]. eapply turns_trans; [exact HS1|]. by exists W2, p2.
  - intros s' Ht. apply HX. by eapply turns_trans.
Qed.

Lemma replaced_end bs l : replaced (zlen l) 0 bs l = l ++ bs.
Proof.
  unfold replaced. rewrite slice_full. replace (zlen l - zlen l - 0) with 0 by lia. by rewrite slice_0, app_nil_r.
Qed.

(** [append(first, last)], to a string with characters of its own. *)
Lemma append_range_wp s W a p l x q bs e (Q : unit -> Machine -> Prop) (X : exn -> Machine -> Prop) :
  holds s W -> sees W a = Some (VStr p l) -> owns W a -> range W x q bs -> x <> a -> zlen l + zlen bs < address_space ->
  e = q + zlen bs ->
  (forall s' W' p', holds s' W' -> same {[a]} W W' -> sees W' a = Some (VStr p' (l ++ bs)) -> owns W' a -> Q tt s') ->
  (forall s', turns a W l s' -> X bad_alloc s') ->
  wp (append_range a q e) s Q X.
Proof.
  intros Hh Hv Ho Hr Hne Hm -> HQ HX. pose proof (zlen_nonneg l). apply wp_bind. eapply end_owned_wp; [done|done|done|].
  apply wp_bind. eapply insert_range_at_wp; [done|done|exact Hr|done| |done|done|done| |exact HX]; [lia|].
  intros s' W' p' Hh' HS Hv' Ho'. rewrite replaced_end in Hv'. apply wp_ret. by eapply HQ.
Qed.
End Edit.
