(* ===== verification/FBStringReplace.v ===== *)
(** * FBString: [replace]

    Both branches of the replacement of a range by another, the one for a source
    inside the string itself included, proved against the contract of the core. *)

From stdpp Require Import base list gmap strings.
From S2P Require Import Prelude Bits FBStringMem FBStringCore FBStringInv FBStringInit FBStringResize FBStringModel FBString FBStringText.

(** ** The texts *)

(** The new text is shorter: written over, and the rest erased. *)
Lemma replace_shorter pos n bs l :
  0 <= pos -> zlen bs <= n -> pos + n <= zlen l ->
  erased (pos + zlen bs) (n - zlen bs) (overwrite pos bs l) = replaced pos n bs l.
Proof.
  intros Hp Hn Hle. pose proof (zlen_nonneg bs). unfold erased, replaced. rewrite zlen_overwrite by lia.
  rewrite slice_split by lia. rewrite <- app_assoc. f_equal; [|f_equal].
  - apply slice_overwrite_before; lia.
  - rewrite Z.add_0_l. apply slice_overwrite; lia.
  - replace (pos + zlen bs + (n - zlen bs)) with (pos + n) by lia. rewrite slice_overwrite_after by lia. f_equal; lia.
Qed.

(** The new text is longer: its head is written over, and its tail inserted. *)
Lemma replace_longer pos n bs l :
  0 <= pos -> 0 <= n <= zlen bs -> pos + n <= zlen l ->
  replaced (pos + n) 0 (slice n (zlen bs - n) bs) (overwrite pos (slice 0 n bs) l) = replaced pos n bs l.
Proof.
  intros Hp Hn Hle. unfold replaced.
  assert (Hs : zlen (slice 0 n bs) = n) by (apply zlen_slice; lia). rewrite zlen_overwrite by lia.
  rewrite slice_split by lia. rewrite <- app_assoc. f_equal; [|rewrite app_assoc; f_equal].
  - apply slice_overwrite_before; lia.
  - rewrite Z.add_0_l. rewrite <- Hs at 1. rewrite slice_overwrite by lia. apply slice_halves; lia.
  - rewrite slice_overwrite_after by lia. f_equal; lia.
Qed.

Lemma overwrite_cons pos b (cs l : list Z) :
  0 <= pos -> pos + 1 + zlen cs <= zlen l ->
  overwrite (pos + 1) cs (overwrite pos [b] l) = overwrite pos (b :: cs) l.
Proof.
  intros Hp Hle. unfold overwrite, zlen in *. simpl. set (i := Z.to_nat pos).
  assert (Hi : length (take i l ++ [b]) = S i) by (rewrite length_app, length_take; simpl; lia).
  replace (take i l ++ b :: drop (i + 1) l) with ((take i l ++ [b]) ++ drop (i + 1) l) by by rewrite <- app_assoc.
  replace (Z.to_nat (pos + 1)) with (S i) by lia. rewrite (take_app_length' _ _ (S i)) by done.
  rewrite drop_app_ge, Hi by lia. rewrite drop_drop, <- app_assoc. simpl. do 4 f_equal. lia.
Qed.

Lemma slice_replicate o n m (c : Z) :
  0 <= o -> 0 <= n -> o + n <= m -> slice o n (replicate (Z.to_nat m) c) = replicate (Z.to_nat n) c.
Proof.
  intros Ho Hn Hle. unfold slice. rewrite drop_replicate, take_replicate. f_equal. lia.
Qed.

Section Replace.
Context `{Platform} `{!fbstring_core_model}.
Implicit Types (s : Machine) (W : world).

(** A string that has characters of its own keeps them when another one gets new ones. *)
Lemma owns_kept s W s' W' a p l x q r :
  holds s W -> holds s' W' -> same {[a]} W W' -> sees W' a = Some (VStr p l) -> owns W' a ->
  x <> a -> sees W x = Some (VStr q r) -> owns W x -> owns W' x.
Proof.
  intros Hh Hh' HS Ha Ho' Hne Hx Ho. destruct (decide (owns W' x)) as [?|Hno]; [done|exfalso].
  assert (Hx' : sees W' x = Some (VStr q r)) by (rewrite HS; [done|by apply not_elem_of_singleton]).
  destruct (law_shared s' W' x q r Hh' Hx' Hno) as (y & Hyx & Hy). destruct (decide (y = a)) as [->|Hya].
  - rewrite Ha in Hy. injection Hy as -> ->. by eapply (law_pointer s' W' a q r x).
  - rewrite HS in Hy by by apply not_elem_of_singleton. by eapply (law_pointer s W x q r y).
Qed.
Lemma range_app W x q bs cs : range W x q (bs ++ cs) -> range W x q bs /\ range W x (q + zlen bs) cs.
Proof.
  intros (v & o & Hv & -> & Ho & Hle & Hs). pose proof (zlen_nonneg bs). pose proof (zlen_nonneg cs).
  rewrite zlen_app in Hle, Hs. rewrite slice_split in Hs by lia.
  assert (Hl : zlen (slice o (zlen bs) (contents x v).2) = zlen bs) by (apply zlen_slice; lia).
  destruct (app_inj_1 _ _ _ _ (Nat2Z.inj _ _ Hl) Hs) as [E1 E2].
  split; [exists v, o|exists v, (o + zlen bs)]; (split_and!; [done|lia|lia|lia|done]).
Qed.

(** [copy_n] into a string. *)
Lemma copy_n_wp n s W a p l o x q bs d (Q : Z * Z -> Machine -> Prop) X :
  holds s W -> sees W a = Some (VStr p l) -> owns W a -> range W x q bs -> x <> a ->
  zlen bs = Z.of_nat n -> 0 <= o -> o + zlen bs <= zlen l -> d = p + o ->
  (forall s' W', holds s' W' -> same {[a]} W W' -> sees W' a = Some (VStr p (overwrite o bs l)) -> owns W' a ->
     Q (q + Z.of_nat n, d + Z.of_nat n) s') ->
  wp (copy_n q n d) s Q X.
Proof.
  revert s W l o q bs d Q. induction n as [|n IH]; intros s W l o q bs d Q Hh Hv Ho Hr Hne Hl Hoo Hle -> HQ.
  - assert (bs = []) as -> by (destruct bs; [done|unfold zlen in Hl; simpl in Hl; lia]).
    apply wp_ret. rewrite overwrite_nil in HQ. specialize (HQ s W Hh (same_refl _ _) Hv Ho). by rewrite !Z.add_0_r in HQ.
  - destruct bs as [|b bs]; [unfold zlen in Hl; simpl in Hl; lia|].
    assert (Hlb : zlen (b :: bs) = 1 + zlen bs) by (unfold zlen; simpl; lia). rewrite Hlb in *. pose proof (zlen_nonneg bs).
    destruct (range_app W x q [b] bs Hr) as [Hr1 Hr2]. assert (Hb : Forall byte [b]) by by eapply range_bytes.
    apply wp_bind, wp_bind. eapply (law_load s W x q [b]); [done|done|]. apply wp_ret.
    replace (of_bytes [b]) with b by (unfold of_bytes; simpl; lia). apply wp_bind. change (zlen [b]) with 1 in *.
    eapply law_store; [done|done|done|done|done|change (zlen [b]) with 1; lia|]. intros s1 W1 Hh1 HS1 Hv1 Ho1 _.
    assert (Hl1 : zlen (overwrite o [b] l) = zlen l) by (apply zlen_overwrite; change (zlen [b]) with 1; lia).
    eapply (IH s1 W1 _ (o + 1) (q + 1) bs); [done|done|done| |done|lia|lia|lia|lia|].
    { eapply range_same; [exact HS1|set_solver|done]. }
    intros s2 W2 Hh2 HS2 Hv2 Ho2. rewrite overwrite_cons in Hv2 by lia.
    replace (q + 1 + Z.of_nat n) with (q + Z.of_nat (S n)) by lia.
    replace (p + o + 1 + Z.of_nat n) with (p + o + Z.of_nat (S n)) by lia.
    eapply HQ; [done|by eapply same_trans|done|done].
Qed.
(** ** A source inside the string *)

(** The temporary at [t] has got [txt]; the string at [a] still has its own characters. *)
Definition building (W : world) (a t : Z) (txt : list Z) (s1 : Machine) : Prop :=
  exists W1 p1, holds s1 W1 /\ same {[t]} W W1 /\ sees W1 t = Some (VStr p1 txt) /\ owns W1 t /\ owns W1 a.

Lemma building_intro W W1 s1 s2 W2 a t p2 txt p l :
  a <> t -> holds s1 W1 -> same {[t]} W W1 -> sees W a = Some (VStr p l) -> owns W1 a ->
  holds s2 W2 -> same {[t]} W1 W2 -> sees W2 t = Some (VStr p2 txt) -> owns W2 t -> building W a t txt s2.
Proof.
  intros Hne Hh1 HS1 Ha Ho1 Hh2 HS2 Ht Ho2. exists W2, p2. split_and!; [done|by eapply same_trans|done|done|].
  eapply (owns_kept s1 W1 s2 W2 t p2 txt a p l); try done. rewrite HS1; [done|by apply not_elem_of_singleton].
Qed.

Lemma building_append s1 W a t p l txt x q bs e (Q : unit -> Machine -> Prop) (X : exn -> Machine -> Prop) :
  building W a t txt s1 -> sees W a = Some (VStr p l) -> a <> t -> range W x q bs -> x <> t -> e = q + zlen bs ->
  zlen txt + zlen bs < address_space ->
  (forall s2, building W a t (txt ++ bs) s2 -> Q tt s2) -> (forall s2, turns t W txt s2 -> X bad_alloc s2) ->
  wp (append_range t q e) s1 Q X.
Proof.
  intros (W1 & p1 & Hh1 & HS1 & Hv1 & Ho1 & Hoa) Ha Hne Hr Hx -> Hm HQ HX.
  eapply (append_range_wp s1 W1 t p1 txt x q bs); [done|done|done| |done|done|done|..].
  - eapply range_same; [exact HS1|set_solver|done].
  - intros s2 W2 p2 Hh2 HS2 Hv2 Ho2. apply HQ. eapply (building_intro W W1 s1); done.
  - intros s2 Ht. apply HX. by eapply turns_trans.
Qed.

(** The original can be asked where its characters are: where they were. *)
Lemma building_begin s1 W a t p l txt (Q : Z -> Machine -> Prop) X :
  building W a t txt s1 -> sees W a = Some (VStr p l) -> a <> t -> Q p s1 -> wp (str_begin a) s1 Q X.
Proof.
  intros (W1 & p1 & Hh1 & HS1 & _ & _ & Hoa) Ha Hne HQ. eapply begin_owned_wp; [done| |done|done].
  rewrite HS1; [done|by apply not_elem_of_singleton].
Qed.

Lemma building_end s1 W a t p l txt (Q : Z -> Machine -> Prop) X :
  building W a t txt s1 -> sees W a = Some (VStr p l) -> a <> t -> Q (p + zlen l) s1 -> wp (str_end a) s1 Q X.
Proof.
  intros (W1 & p1 & Hh1 & HS1 & _ & _ & Hoa) Ha Hne HQ. eapply end_owned_wp; [done| |done|done].
  rewrite HS1; [done|by apply not_elem_of_singleton].
Qed.

(** The temporary is given up. *)
Lemma turns_dropped W t txt s2 :
  sees W t = None -> turns t W txt s2 ->
  exists W3 p3 l3, holds s2 W3 /\ sees W3 t = Some (VStr p3 l3) /\
    forall s4 W4, holds s4 W4 -> same {[t]} W3 W4 -> sees W4 t = None -> untouched W s4.
Proof.
  intros Ht (W3 & p3 & Hh3 & HS3 & Hv3). exists W3, p3, txt. split_and!; [done|done|].
  intros s4 W4 Hh4 HS4 Ht4. exists W4. split; [done|]. intros y _. destruct (decide (y = t)) as [->|Hy]; [congruence|].
  rewrite HS4, HS3; [done|by apply not_elem_of_singleton..].
Qed.

Lemma building_turns W a t txt s1 : building W a t txt s1 -> turns t W txt s1.
Proof. intros (W1 & p1 & Hh1 & HS1 & Hv1 & _). by exists W1, p1. Qed.

(** The original and the temporary have changed places, and the temporary goes. *)
Lemma exchanged W W1 s2 W2 a t pa pt txt l (P : Machine -> Prop) :
  a <> t -> sees W t = None -> same {[t]} W W1 ->
  holds s2 W2 -> same {[a; t]} W1 W2 -> sees W2 a = Some (VStr pa txt) -> sees W2 t = Some (VStr pt l) ->
  (forall s4, turns a W txt s4 -> P s4) ->
  exists W3 p3 l3, holds s2 W3 /\ sees W3 t = Some (VStr p3 l3) /\
    forall s4 W4, holds s4 W4 -> same {[t]} W3 W4 -> sees W4 t = None ->
      (forall x, x <> t -> owns W3 x -> owns W4 x) -> P s4.
Proof.
  intros Hne Ht HS1 Hh2 HS2 Hva Hvt HQ. exists W2, pt, l. split_and!; [done|done|]. intros s4 W4 Hh4 HS4 Ht4 _.
  apply HQ. exists W4, pa. split_and!; [done| |rewrite HS4; [done|by apply not_elem_of_singleton]].
  intros y Hy%not_elem_of_singleton. destruct (decide (y = t)) as [->|Hyt]; [congruence|].
  rewrite HS4, HS2, HS1; [done|set_solver..].
Qed.

Lemma replaceAliased_wp s W a p l pos n x q bs i1 i2 e (Q : bool -> Machine -> Prop) (X : exn -> Machine -> Prop) :
  holds s W -> sees W a = Some (VStr p l) -> owns W a -> range W x q bs -> 0 <= pos -> 0 <= n -> pos + n <= zlen l ->
  zlen l + zlen bs < address_space -> i1 = p + pos -> i2 = i1 + n -> e = q + zlen bs ->
  (forall s', turns a W (replaced pos n bs l) s' -> Q true s') ->
  (x <> a -> Q false s) -> (forall s', untouched W s' -> X bad_alloc s') ->
  wp (replaceAliased a i1 i2 q e) s Q X.
Proof.
  intros Hh Hv Ho Hr Hp Hn Hle Hm -> -> -> HQ HF HX. pose proof (zlen_nonneg l). pose proof (zlen_nonneg bs).
  apply wp_bind. eapply begin_owned_wp; [done|done|done|]. apply wp_bind. eapply end_owned_wp; [done|done|done|].
  destruct (decide (p <= q /\ q <= p + zlen l)) as [Hin|Hout].
  2: { apply wp_ret, HF. intros ->. destruct Hr as (v & o & Hv' & -> & Hoo & Hob & _). rewrite Hv in Hv'. injection Hv' as <-. simpl in *. lia. }
  apply wp_bind. eapply law_size; [done|done|]. apply wp_bind. eapply law_local; [done|].
  intros s1 W1 t r Hh1 HS1 Ht Hv1 Hlr Hown.
  assert (Hat : a <> t) by (intros ->; congruence).
  assert (Hxt : x <> t) by (intros ->; destruct Hr as (v & o & Hv' & _); congruence).
  eapply law_default; [done|done|done|]. intros s2 W2 p2 Hh2 HS2 Hv2 Ho2.
  assert (Ha1 : sees W1 a = Some (VStr p l)) by (rewrite HS1; [done|by apply not_elem_of_singleton]).
  assert (HB : building W a t [] s2) by (eapply (building_intro W W1 s1); try done; by apply Hown).
  assert (HE : forall txt s', turns t W txt s' -> exists W3 p3 l3, holds s' W3 /\ sees W3 t = Some (VStr p3 l3) /\
    forall s4 W4, holds s4 W4 -> same {[t]} W3 W4 -> sees W4 t = None -> X bad_alloc s4).
  { intros txt s' Ht'. destruct (turns_dropped W t txt s' Ht Ht') as (W3 & p3 & l3 & Hh3 & Hv3 & HU).
    exists W3, p3, l3. split_and!; [done|done|]. intros. by eapply HX, HU. }
  apply wp_bind, wp_bind. rewrite bool_decide_eq_true_2 by (unfold max_size, address_space in *; lia). apply wp_ret.
  destruct HB as (W2' & p2' & Hh2' & HS2' & Hv2' & Ho2' & Hoa).
  eapply law_reserve; [done|done|unfold max_request, address_space in *; lia|right; change (zlen []) with 0; lia| |].
  2: { intros s' Hu. apply (HE []). eapply turns_trans; [exact HS2'|]. by eapply turns_untouched. }
  intros s3 W3 p3 Hh3 HS3 Hv3 Ho3 _.
  assert (HB : building W a t [] s3) by (by eapply (building_intro W W2' s2)).
  apply wp_bind. eapply building_begin; [exact HB|done|done|]. apply wp_bind.
  assert (Hs1 : zlen (slice 0 pos l) = pos) by (apply zlen_slice; lia).
  assert (Hs2 : zlen (slice (pos + n) (zlen l - pos - n) l) = zlen l - pos - n) by (apply zlen_slice; lia).
  eapply (building_append s3 W a t p l [] a p (slice 0 pos l)); [done|done|done| |done|lia|change (zlen []) with 0; lia| |apply HE].
  { rewrite <- (Z.add_0_r p). apply range_text; [done|lia..]. }
  intros s4 HB4. apply wp_bind.
  eapply (building_append s4 W a t p l _ x q bs); [done|done|done|done|done|done|simpl; lia| |apply HE].
  intros s5 HB5. apply wp_bind. eapply building_end; [exact HB5|done|done|]. apply wp_bind.
  eapply (building_append s5 W a t p l _ a _ (slice (pos + n) (zlen l - pos - n) l)); [done|done|done| |done|lia| | |apply HE].
  { rewrite <- Z.add_assoc. apply range_text; [done|lia..]. }
  { rewrite !zlen_app, zlen_nil. lia. }
  intros s6 (W6 & p6 & Hh6 & HS6 & Hv6 & _).
  assert (Ha6 : sees W6 a = Some (VStr p l)) by (rewrite HS6; [done|by apply not_elem_of_singleton]).
  eapply (law_swap s6 W6 a t); [done|done|done|done|]. intros s7 W7 pa pt Hh7 HS7 Hva Hvt _ _.
  eapply (exchanged W W6 s7 W7 a t); try done. intros s8 Ht8. apply wp_ret, HQ. unfold replaced. by rewrite app_assoc.
Qed.
(** ** The whole of [replace] *)

(** After a failure the string has its text, or its text with the head of the
    new one written over it. *)
Definition replace_failed (a : Z) (W : world) (pos n : Z) (bs l : list Z) (s' : Machine) : Prop :=
  turns a W l s' \/ n <= zlen bs /\ turns a W (overwrite pos (slice 0 n bs) l) s'.

Lemma replace_failed_trans a W W1 pos n bs l s' :
  same {[a]} W W1 -> replace_failed a W1 pos n bs l s' -> replace_failed a W pos n bs l s'.
Proof. intros HS [Ht|[Hn Ht]]; [left|right; split; [done|]]; by eapply turns_trans. Qed.

Lemma replace_failed_alive a W pos n bs l s' (P : Prop) : replace_failed a W pos n bs l s' -> P -> alive a s' P.
Proof. intros [Ht|[_ Ht]]; by eapply turns_alive. Qed.

Lemma turns_sane a W l s' (Q : unit -> Machine -> Prop) X :
  turns a W l s' -> Q tt s' -> wp (ok ← isSane a; FBSTRING_ASSERT ok) s' Q X.
Proof.
  intros (W' & p & Hh & _ & Hv) HQ. apply wp_bind. eapply isSane_wp; [done|done|]. by apply wp_assert.
Qed.

(** A source elsewhere. *)
Lemma replace_apart_wp s W a p l pos n x q bs (Q : unit -> Machine -> Prop) (X : exn -> Machine -> Prop) :
  holds s W -> sees W a = Some (VStr p l) -> owns W a -> range W x q bs -> x <> a -> 0 <= pos -> 0 <= n -> pos + n <= zlen l ->
  zlen l + zlen bs < address_space ->
  (forall s', turns a W (replaced pos n bs l) s' -> Q tt s') ->
  (forall s', replace_failed a W pos n bs l s' -> X bad_alloc s') ->
  wp (if decide (n > zlen bs) then
        std_copy q (q + zlen bs) (p + pos);; erase_range a (p + pos + zlen bs) (p + pos + n);; mret tt
      else '(s1, _) ← copy_n q (Z.to_nat n) (p + pos); insert_range_at a (p + pos + n) s1 (q + zlen bs);; mret tt) s Q X.
Proof.
  intros Hh Hv Ho Hr Hne Hp Hn Hle Hm HQ HX. pose proof (zlen_nonneg bs). case_decide as Hgt.
  - apply wp_bind. eapply (memmove_wp s W a p l pos x q bs); [done|done|done|done|done|lia|done|lia|].
    intros s1 W1 Hh1 HS1 Hv1 Ho1. apply wp_bind.
    eapply (erase_range_wp s1 W1 a p _ (pos + zlen bs) (n - zlen bs)); [done|done|done|lia|lia| |lia|lia|].
    { rewrite zlen_overwrite; lia. }
    intros s2 W2 p2 Hh2 HS2 Hv2 _. rewrite replace_shorter in Hv2 by lia. apply wp_ret, HQ.
    exists W2, p2. split_and!; [done|by eapply same_trans|done].
  - rewrite <- (slice_halves n (zlen bs - n) bs) in Hr by lia.
    destruct (range_app W x q _ _ Hr) as [Hr1 Hr2].
    assert (Hs : zlen (slice 0 n bs) = n) by (apply zlen_slice; lia). rewrite Hs in Hr2.
    assert (Hs' : zlen (slice n (zlen bs - n) bs) = zlen bs - n) by (apply zlen_slice; lia).
    apply wp_bind. eapply (copy_n_wp (Z.to_nat n) s W a p l pos x q (slice 0 n bs)); [done|done|done|done|done|lia|done|lia|done|].
    intros s1 W1 Hh1 HS1 Hv1 Ho1. replace (Z.of_nat (Z.to_nat n)) with n by lia. apply wp_bind.
    assert (Hl1 : zlen (overwrite pos (slice 0 n bs) l) = zlen l) by (apply zlen_overwrite; lia).
    eapply (insert_range_at_wp s1 W1 a p _ (pos + n) x (q + n) (slice n (zlen bs - n) bs)); [done|done| |done|lia|lia|lia|lia|..].
    { eapply range_same; [exact HS1|set_solver|done]. }
    + intros s2 W2 p2 Hh2 HS2 Hv2 _. rewrite replace_longer in Hv2 by lia. apply wp_ret, HQ.
      exists W2, p2. split_and!; [done|by eapply same_trans|done].
    + intros s2 Ht. apply HX. right. split; [lia|]. by eapply turns_trans.
Qed.

Lemma replace_range_at_wp s W a p l pos n x q bs i1 i2 e (Q : unit -> Machine -> Prop) (X : exn -> Machine -> Prop) :
  holds s W -> sees W a = Some (VStr p l) -> owns W a -> range W x q bs -> 0 <= pos -> 0 <= n -> pos + n <= zlen l ->
  zlen l + zlen bs < address_space -> i1 = p + pos -> i2 = i1 + n -> e = q + zlen bs ->
  (forall s', turns a W (replaced pos n bs l) s' -> Q tt s') ->
  (forall s', replace_failed a W pos n bs l s' -> X bad_alloc s') ->
  wp (replace_range_at a i1 i2 q e) s Q X.
Proof.
  intros Hh Hv Ho Hr Hp Hn Hle Hm -> -> -> HQ HX. pose proof (zlen_nonneg bs). eapply checked_wp; [done|done|].
  apply wp_bind. eapply (replaceAliased_wp s W a p l pos n x q bs); [done|done|done|done|lia|lia|lia|done|done|done|done|..].
  - intros s' Ht. apply wp_ret. eapply turns_alive; [exact Ht|]. by apply HQ.
  - intros Hne. cbv zeta. replace (p + pos + n - (p + pos)) with n by lia. replace (q + zlen bs - q) with (zlen bs) by lia.
    do 2 (apply wp_bind, wp_assert; [apply bool_decide_eq_true; lia|]). apply wp_bind.
    eapply replace_apart_wp; [done|done|done|exact Hr|done|lia|lia|lia|done|..].
    + intros s' Ht. eapply turns_sane; [exact Ht|]. eapply turns_alive; [exact Ht|]. by apply HQ.
    + intros s' Hf. eapply replace_failed_alive; [exact Hf|]. by apply HX.
  - intros s' Hu. eapply untouched_alive; [done|done|]. apply HX. left. by eapply turns_untouched.
Qed.

(** [replace(pos, n1, s, n2)]: the source may be anywhere, this string included,
    shared or not. *)
Lemma replace_ptr_wp s W a p l pos n x q bs (Q : unit -> Machine -> Prop) (X : exn -> Machine -> Prop) :
  holds s W -> sees W a = Some (VStr p l) -> range W x q bs -> 0 <= pos -> 0 <= n -> zlen l + zlen bs < address_space ->
  (forall s', pos <= zlen l -> turns a W (replaced pos (Z.min n (zlen l - pos)) bs l) s' -> Q tt s') ->
  (zlen l < pos -> X out_of_bounds s) ->
  (forall s', replace_failed a W pos (Z.min n (zlen l - pos)) bs l s' -> X bad_alloc s') ->
  wp (replace_ptr a pos n q (zlen bs)) s Q X.
Proof.
  intros Hh Hv Hr Hp Hn Hm HQ HXr HX. eapply checked_wp; [done|done|]. apply wp_bind. eapply law_size; [done|done|].
  apply wp_bind. case_bool_decide as Hle; [apply wp_ret|apply wp_throw; split; [by exists W, p, l|]; apply HXr; lia].
  rewrite procrustes_min. cbv zeta. set (m := Z.min n (zlen l - pos)) in *. apply wp_bind.
  eapply law_mutableData; [done|done| |].
  2: { intros _ s' Hu. eapply untouched_alive; [done|done|]. apply HX. left. by eapply turns_untouched. }
  intros s1 W1 p1 Hh1 HS1 Hv1 Ho1 Hown.
  destruct (range_owned s W W1 a p l x q bs Hh Hv Hr HS1) as [x1 Hr1]; [intros Ho; by apply Hown|].
  apply wp_bind, wp_assert; [apply bool_decide_eq_true; lia|].
  apply wp_bind. eapply begin_owned_wp; [done|done|done|]. apply wp_bind. eapply end_owned_wp; [done|done|done|].
  do 2 (apply wp_bind, wp_assert; [apply bool_decide_eq_true; lia|]).
  eapply (replace_range_at_wp s1 W1 a p1 l pos m x1 q bs); [done|done|done|done|lia|lia|lia|done|done|done|done|..].
  - intros s' Ht. apply (turns_trans a W W1) in Ht; [|done]. eapply turns_alive; [exact Ht|]. by apply HQ.
  - intros s' Hf. apply (replace_failed_trans a W W1) in Hf; [|done]. eapply replace_failed_alive; [exact Hf|]. by apply HX.
Qed.
(** [replace(pos, n1, n2, c)]. *)
Lemma replace_fill_at_wp s W a p l pos n1 n2 c (Q : unit -> Machine -> Prop) (X : exn -> Machine -> Prop) :
  let bs := replicate (Z.to_nat n2) (u8 c) in
  holds s W -> sees W a = Some (VStr p l) -> owns W a -> 0 <= pos -> 0 <= n1 -> 0 <= n2 -> pos + n1 <= zlen l ->
  zlen l + n2 < address_space ->
  (forall s', turns a W (replaced pos n1 bs l) s' -> Q tt s') ->
  (forall s', replace_failed a W pos n1 bs l s' -> X bad_alloc s') ->
  wp (replace_fill_at a (p + pos) (p + pos + n1) n2 c) s Q X.
Proof.
  intros bs Hh Hv Ho Hp Hn1 Hn2 Hle Hm HQ HX.
  assert (Hb : zlen bs = n2) by (apply zlen_replicate; lia).
  assert (Hend : forall s' W' p', holds s' W' -> same {[a]} W W' -> sees W' a = Some (VStr p' (replaced pos n1 bs l)) ->
    wp (ok ← isSane a; FBSTRING_ASSERT ok) s' Q X).
  { intros s' W' p' Hh' HS Hv'. assert (Ht : turns a W (replaced pos n1 bs l) s') by by exists W', p'.
    eapply turns_sane; [exact Ht|by apply HQ]. }
  unfold replace_fill_at, std_fill. cbv zeta. replace (p + pos + n1 - (p + pos)) with n1 by lia.
  apply wp_bind. case_decide as Hgt.
  - apply wp_bind. replace (p + pos + n2 - (p + pos)) with n2 by lia.
    eapply (memset_wp s W a p l pos n2); [done|done|done|done|done|lia|done|].
    intros s1 W1 Hh1 HS1 Hv1 Ho1. fold bs in Hv1. apply wp_bind.
    eapply (erase_range_wp s1 W1 a p _ (pos + n2) (n1 - n2)); [done|done|done|lia|lia| |lia|lia|].
    { rewrite zlen_overwrite; lia. }
    intros s2 W2 p2 Hh2 HS2 Hv2 _. rewrite <- Hb in Hv2. rewrite replace_shorter in Hv2 by lia. apply wp_ret.
    eapply Hend; [done|by eapply same_trans|done].
  - apply wp_bind. eapply (memset_wp s W a p l pos n1); [done|done|done|done|done|lia|done|].
    intros s1 W1 Hh1 HS1 Hv1 Ho1.
    rewrite <- (slice_replicate 0 n1 n2) in Hv1 by lia. fold bs in Hv1. apply wp_bind.
    assert (Hl1 : zlen (overwrite pos (slice 0 n1 bs) l) = zlen l) by (apply zlen_overwrite; rewrite ?zlen_slice; lia).
    eapply (insert_fill_at_wp s1 W1 a p _ (pos + n1) (n2 - n1)); [done|done|lia|lia|lia|lia|..].
    + intros s2 W2 p2 Hh2 HS2 Hv2 _. rewrite <- (slice_replicate n1 (n2 - n1) n2) in Hv2 by lia. fold bs in Hv2.
      rewrite <- Hb in Hv2 at 1. rewrite replace_longer in Hv2 by lia. apply wp_ret. eapply Hend; [done|by eapply same_trans|done].
    + intros s2 Ht. apply HX. right. split; [lia|]. by eapply turns_trans.
Qed.

Lemma replace_fill_wp s W a p l pos n1 n2 c (Q : unit -> Machine -> Prop) (X : exn -> Machine -> Prop) :
  let bs := replicate (Z.to_nat n2) (u8 c) in
  holds s W -> sees W a = Some (VStr p l) -> 0 <= pos -> 0 <= n1 -> 0 <= n2 -> zlen l + n2 < address_space ->
  (forall s', pos <= zlen l -> turns a W (replaced pos (Z.min n1 (zlen l - pos)) bs l) s' -> Q tt s') ->
  (zlen l < pos -> X out_of_bounds s) ->
  (forall s', replace_failed a W pos (Z.min n1 (zlen l - pos)) bs l s' -> X bad_alloc s') ->
  wp (replace_fill a pos n1 n2 c) s Q X.
Proof.
  intros bs Hh Hv Hp Hn1 Hn2 Hm HQ HXr HX. eapply checked_wp; [done|done|]. apply wp_bind. eapply law_size; [done|done|].
  apply wp_bind. case_bool_decide as Hle; [apply wp_ret|apply wp_throw; split; [by exists W, p, l|]; apply HXr; lia].
  rewrite procrustes_min. cbv zeta. set (m := Z.min n1 (zlen l - pos)) in *. apply wp_bind.
  eapply law_mutableData; [done|done| |].
  2: { intros _ s' Hu. eapply untouched_alive; [done|done|]. apply HX. left. by eapply turns_untouched. }
  intros s1 W1 p1 Hh1 HS1 Hv1 Ho1 Hown.
  eapply (replace_fill_at_wp s1 W1 a p1 l pos m n2); [done|done|done|lia|lia|lia|lia|done|..].
  - intros s' Ht. apply (turns_trans a W W1) in Ht; [|done]. eapply turns_alive; [exact Ht|]. by apply HQ.
  - intros s' Hf. apply (replace_failed_trans a W W1) in Hf; [|done]. eapply replace_failed_alive; [exact Hf|]. by apply HX.
Qed.
End Replace.
