(* ===== verification/FBStringWhole.v ===== *)
(** * FBString: [basic_fbstring] methods on whole strings

    Construction, assignment, concatenation and the methods that take another
    string, proved against the contract of the core. *)

From stdpp Require Import base list gmap strings.
From S2P Require Import Prelude Bits FBStringMem FBStringCore FBStringInv FBStringInit FBStringResize FBStringModel FBString FBStringText FBStringReplace.

Section Whole.
Context `{Platform} `{!fbstring_core_model}.
Implicit Types (s : Machine) (W : world).

Lemma range_whole W a p l : sees W a = Some (VStr p l) -> range W a p l.
Proof.
  intros Hv. pose proof (zlen_nonneg l). exists (VStr p l), 0. simpl. rewrite Z.add_0_r, slice_full. split_and!; (done || lia).
Qed.

(** ** Another string as the source *)

(** The string itself included. *)
Lemma str_append_wp s W a p l x q bs (Q : unit -> Machine -> Prop) (X : exn -> Machine -> Prop) :
  holds s W -> sees W a = Some (VStr p l) -> sees W x = Some (VStr q bs) -> zlen l + zlen bs < address_space ->
  (forall s', turns a W (l ++ bs) s' -> Q tt s') -> (forall s', untouched W s' -> X bad_alloc s') ->
  wp (str_append a x) s Q X.
Proof.
  intros Hh Hv Hx Hm HQ HX. apply wp_bind. eapply law_size; [done|done|]. apply wp_bind. eapply law_size; [done|done|].
  apply wp_bind. eapply law_data; [done|done|]. apply wp_bind.
  eapply (append_ptr_wp s W a p l x q bs); [done|done|by apply range_whole|done| |done].
  intros s' Ht. eapply assert_size_wp; [exact Ht|by rewrite zlen_app|by apply HQ].
Qed.

(** A piece of a string: its position is checked. *)
Lemma piece_wp (op : Z -> Z -> Run unit) s W x q bs pos n (Q : unit -> Machine -> Prop) (X : exn -> Machine -> Prop) :
  holds s W -> sees W x = Some (VStr q bs) -> 0 <= pos -> 0 <= n -> (zlen bs < pos -> X out_of_bounds s) ->
  (pos <= zlen bs -> range W x (q + pos) (slice pos (Z.min n (zlen bs - pos)) bs) ->
     wp (op (q + pos) (zlen (slice pos (Z.min n (zlen bs - pos)) bs))) s Q X) ->
  wp (sz ← str_size x; enforce (bool_decide (pos <= sz)) out_of_bounds;; d ← str_data x; op (d + pos) (procrustes n (sz - pos))) s Q X.
Proof.
  intros Hh Hx Hp Hn HXr HK. apply wp_bind. eapply law_size; [done|done|]. apply wp_bind.
  case_bool_decide as Hle; [apply wp_ret|apply wp_throw, HXr; lia].
  apply wp_bind. eapply law_data; [done|done|]. rewrite procrustes_min.
  pose proof (range_text W x q bs pos (Z.min n (zlen bs - pos)) Hx ltac:(lia) ltac:(lia) ltac:(lia)) as Hr.
  specialize (HK ltac:(lia) Hr). by rewrite zlen_slice in HK by lia.
Qed.

Lemma append_sub_wp s W a p l x q bs pos n (Q : unit -> Machine -> Prop) (X : exn -> Machine -> Prop) :
  holds s W -> sees W a = Some (VStr p l) -> sees W x = Some (VStr q bs) -> 0 <= pos -> 0 <= n ->
  zlen l + zlen bs < address_space ->
  (forall s', pos <= zlen bs -> turns a W (l ++ slice pos (Z.min n (zlen bs - pos)) bs) s' -> Q tt s') ->
  (zlen bs < pos -> X out_of_bounds s) -> (forall s', untouched W s' -> X bad_alloc s') ->
  wp (append_sub a x pos n) s Q X.
Proof.
  intros Hh Hv Hx Hp Hn Hm HQ HXr HX. eapply piece_wp; [done|done|done|done|done|]. intros Hle Hr.
  eapply append_ptr_wp; [done|done|exact Hr|rewrite zlen_slice; lia| |done]. intros s' Ht. by apply HQ.
Qed.

Lemma assign_sub_wp s W a p l x q bs pos n (Q : unit -> Machine -> Prop) (X : exn -> Machine -> Prop) :
  holds s W -> sees W a = Some (VStr p l) -> sees W x = Some (VStr q bs) -> 0 <= pos -> 0 <= n ->
  (forall s', pos <= zlen bs -> turns a W (slice pos (Z.min n (zlen bs - pos)) bs) s' -> Q tt s') ->
  (zlen bs < pos -> X out_of_bounds s) -> (forall s', reset_or_untouched a W s' -> X bad_alloc s') ->
  wp (assign_sub a x pos n) s Q X.
Proof.
  intros Hh Hv Hx Hp Hn HQ HXr HX. pose proof (law_length s W x q bs Hh Hx).
  eapply piece_wp; [done|done|done|done|done|]. intros Hle Hr.
  eapply assign_ptr_wp; [done|done|exact Hr|rewrite zlen_slice; lia| |done]. intros s' Ht. by apply HQ.
Qed.

Lemma insert_sub_wp s W a p l pos1 x q bs pos n (Q : unit -> Machine -> Prop) (X : exn -> Machine -> Prop) :
  holds s W -> sees W a = Some (VStr p l) -> sees W x = Some (VStr q bs) -> x <> a -> 0 <= pos1 -> 0 <= pos -> 0 <= n ->
  zlen l + zlen bs < address_space ->
  (forall s', pos <= zlen bs -> pos1 <= zlen l -> turns a W (replaced pos1 0 (slice pos (Z.min n (zlen bs - pos)) bs) l) s' -> Q tt s') ->
  (zlen bs < pos \/ zlen l < pos1 -> X out_of_bounds s) -> (forall s', turns a W l s' -> X bad_alloc s') ->
  wp (insert_sub a pos1 x pos n) s Q X.
Proof.
  intros Hh Hv Hx Hne Hp1 Hp Hn Hm HQ HXr HX. eapply piece_wp; [done|done|done|done|by auto|]. intros Hle Hr.
  eapply insert_ptr_wp; [done|done|exact Hr|done|done|rewrite zlen_slice; lia| |by auto|done]. intros s' Hle1 Ht. by apply HQ.
Qed.

Lemma replace_sub_wp s W a p l pos1 n1 x q bs pos n (Q : unit -> Machine -> Prop) (X : exn -> Machine -> Prop) :
  let cs := slice pos (Z.min n (zlen bs - pos)) bs in
  holds s W -> sees W a = Some (VStr p l) -> sees W x = Some (VStr q bs) -> 0 <= pos1 -> 0 <= n1 -> 0 <= pos -> 0 <= n ->
  zlen l + zlen bs < address_space ->
  (forall s', pos <= zlen bs -> pos1 <= zlen l -> turns a W (replaced pos1 (Z.min n1 (zlen l - pos1)) cs l) s' -> Q tt s') ->
  (zlen bs < pos \/ zlen l < pos1 -> X out_of_bounds s) ->
  (forall s', replace_failed a W pos1 (Z.min n1 (zlen l - pos1)) cs l s' -> X bad_alloc s') ->
  wp (replace_sub a pos1 n1 x pos n) s Q X.
Proof.
  intros cs Hh Hv Hx Hp1 Hn1 Hp Hn Hm HQ HXr HX. unfold replace_sub.
  apply wp_bind. eapply law_size; [done|done|]. apply wp_bind.
  case_bool_decide as Hle; [apply wp_ret|apply wp_throw, HXr; lia]. apply wp_bind. eapply law_data; [done|done|].
  assert (Hz : zlen cs = Z.min n (zlen bs - pos)) by (apply zlen_slice; lia). rewrite <- Hz.
  eapply replace_ptr_wp; [done|done|apply range_text; (done || lia)|done|done|lia| |by auto|done]. intros s' Hle1 Ht. by apply HQ.
Qed.

(** ** Constructors *)

(** A string appears where there was room for one. *)
Definition born (a : Z) (W : world) (l : list Z) (s' : Machine) : Prop :=
  exists W' p, holds s' W' /\ same {[a]} W W' /\ sees W' a = Some (VStr p l) /\ owns W' a.

(** The construction failed: there is room for a string again. *)
Definition unborn (a : Z) (W : world) (s' : Machine) : Prop :=
  exists W' r, holds s' W' /\ same {[a]} W W' /\ sees W' a = Some (VRaw false r) /\ zlen r = 24.

Lemma dtor_unborn e s W W1 a p l (Q : unit -> Machine -> Prop) (X : exn -> Machine -> Prop) :
  holds s W1 -> same {[a]} W W1 -> sees W1 a = Some (VStr p l) -> (forall s', unborn a W s' -> X e s') ->
  wp (store_dtor a;; throw e) s Q X.
Proof.
  intros Hh HS Hv HX. apply wp_bind. eapply law_dtor; [done|done|]. intros s' W' bs Hh' HS' Hv' Hl _.
  apply wp_throw, HX. exists W', bs. split_and!; [done|by eapply same_trans|done|done].
Qed.

Lemma ctor_fill_wp s W a h r n c (Q : unit -> Machine -> Prop) (X : exn -> Machine -> Prop) :
  holds s W -> sees W a = Some (VRaw h r) -> zlen r = 24 -> 0 <= n < address_space ->
  (forall s', born a W (replicate (Z.to_nat n) (u8 c)) s' -> Q tt s') -> (forall s', unborn a W s' -> X bad_alloc s') ->
  wp (ctor_fill a n c) s Q X.
Proof.
  intros Hh Hv Hl Hn HQ HX. apply wp_bind. eapply law_default; [done|done|done|]. intros s1 W1 p1 Hh1 HS1 Hv1 Ho1.
  apply wp_try_catch. eapply expand_fill_wp; [done|done|lia|change (zlen []) with 0; lia|..].
  - intros s2 W2 p2 Hh2 HS2 Hv2 Ho2. apply HQ. exists W2, p2. split_and!; [done|by eapply same_trans|done|].
    apply Ho2. by right.
  - intros s2 (W2 & Hh2 & HS2). eapply (dtor_unborn _ s2 W W2 a p1 []); [done| |by rewrite HS2|done].
    eapply same_trans; [exact HS1|]. eapply same_mono; [|exact HS2]. set_solver.
Qed.

(** [operator+]: two strings side by side, in a third. *)
Lemma str_plus_wp s W a h r x p l y q m (Q : unit -> Machine -> Prop) (X : exn -> Machine -> Prop) :
  holds s W -> sees W a = Some (VRaw h r) -> zlen r = 24 -> sees W x = Some (VStr p l) -> sees W y = Some (VStr q m) ->
  zlen l + zlen m < address_space ->
  (forall s', turns a W (l ++ m) s' -> Q tt s') -> (forall s', unborn a W s' -> X bad_alloc s') ->
  wp (str_plus a x y) s Q X.
Proof.
  intros Hh Hv Hl Hx Hy Hm HQ HX. pose proof (zlen_nonneg l). pose proof (zlen_nonneg m).
  assert (Hxa : x <> a) by congruence. assert (Hya : y <> a) by congruence.
  apply wp_bind. eapply law_default; [done|done|done|]. intros s1 W1 p1 Hh1 HS1 Hv1 Ho1.
  assert (Hat : forall W2 z v, same {[a]} W W2 -> z <> a -> sees W z = Some v -> sees W2 z = Some v).
  { intros W2 z v HS Hz E. rewrite HS; [done|by apply not_elem_of_singleton]. }
  assert (HE : forall s2 txt, turns a W txt s2 -> wp (store_dtor a;; throw bad_alloc) s2 Q X).
  { intros s2 txt (W2 & p2 & Hh2 & HS2 & Hv2). by eapply dtor_unborn. }
  apply wp_bind. eapply law_size; [done|by eapply Hat|]. apply wp_bind. eapply law_size; [done|by eapply (Hat W1 y)|].
  apply wp_try_catch. rewrite u64_small by (unfold address_space in *; lia).
  apply wp_bind, wp_bind. rewrite bool_decide_eq_true_2 by (unfold max_size, address_space in *; lia). apply wp_ret.
  eapply law_reserve; [done|done|unfold max_request, address_space in *; lia|right; change (zlen []) with 0; lia| |].
  2: { intros s2 Hu. apply (HE s2 []). eapply turns_trans; [exact HS1|]. by eapply turns_untouched. }
  intros s2 W2 p2 Hh2 HS2 Hv2 _ _. assert (HS02 : same {[a]} W W2) by by eapply same_trans.
  apply wp_bind. eapply (str_append_wp s2 W2 a p2 [] x); [done|done|by eapply Hat|change (zlen []) with 0; lia|..].
  - intros s3 (W3 & p3 & Hh3 & HS3 & Hv3). assert (HS03 : same {[a]} W W3) by by eapply same_trans.
    eapply (str_append_wp s3 W3 a p3 l y); [done|done|by eapply Hat|done|..].
    + intros s4 Ht. apply HQ. by eapply turns_trans.
    + intros s4 Hu. apply (HE s4 l). eapply turns_trans; [exact HS03|]. by eapply turns_untouched.
  - intros s3 Hu. apply (HE s3 []). eapply turns_trans; [exact HS02|]. by eapply turns_untouched.
Qed.
(** [substr]: a string of its own with the piece. *)
Lemma str_substr_wp s W a p l t h r pos n (Q : unit -> Machine -> Prop) (X : exn -> Machine -> Prop) :
  holds s W -> sees W a = Some (VStr p l) -> sees W t = Some (VRaw h r) -> zlen r = 24 -> 0 <= pos -> 0 <= n ->
  (forall s', pos <= zlen l -> born t W (slice pos (Z.min n (zlen l - pos)) l) s' -> Q tt s') ->
  (zlen l < pos -> X out_of_bounds s) -> (forall s', untouched W s' -> X bad_alloc s') ->
  wp (str_substr a t pos n) s Q X.
Proof.
  intros Hh Hv Ht Hl Hp Hn HQ HXr HX. pose proof (law_length s W a p l Hh Hv).
  apply wp_bind. eapply law_size; [done|done|]. apply wp_bind.
  case_bool_decide as Hle; [apply wp_ret|apply wp_throw, HXr; lia]. apply wp_bind. eapply law_data; [done|done|].
  set (cs := slice pos (Z.min n (zlen l - pos)) l) in *.
  assert (Hz : zlen cs = Z.min n (zlen l - pos)) by (apply zlen_slice; lia). rewrite <- Hz.
  eapply (law_init s W a (p + pos) cs t); [done|apply range_text; (done || lia)|done|done|congruence|lia| |done].
  intros s' W' p' Hh' HS Hv' Ho. apply HQ; [done|]. by exists W', p'.
Qed.

(** ** Assignment *)

Lemma turns_same a W p l s : holds s W -> sees W a = Some (VStr p l) -> turns a W l s.
Proof. intros Hh Hv. exists W, p. split_and!; [done|apply same_refl|done]. Qed.

Lemma assign_copy_wp s W a p l x q bs (Q : unit -> Machine -> Prop) (X : exn -> Machine -> Prop) :
  holds s W -> sees W a = Some (VStr p l) -> sees W x = Some (VStr q bs) ->
  (forall s', turns a W bs s' -> Q tt s') -> (forall s', reset_or_untouched a W s' -> X bad_alloc s') ->
  wp (assign_copy a x) s Q X.
Proof.
  intros Hh Hv Hx HQ HX. pose proof (law_length s W x q bs Hh Hx). eapply checked_wp; [done|done|].
  case_decide as E.
  - subst x. rewrite Hv in Hx. injection Hx as <- <-. apply wp_ret. split; [by exists W, p, l|]. by apply HQ, (turns_same a W p).
  - apply wp_bind. eapply law_data; [done|done|]. apply wp_bind. eapply law_size; [done|done|].
    eapply assign_ptr_wp; [done|done|by apply range_whole|done|..].
    + intros s' Ht. eapply turns_alive; [exact Ht|]. by apply HQ.
    + intros s' Hr. destruct (Hr) as [Hu|Ht]; [eapply untouched_alive; [done|done|]|eapply turns_alive; [exact Ht|]]; by apply HX.
Qed.

(** The move empties the source; it cannot fail. *)
Lemma assign_move_wp s W a p l g q bs (Q : unit -> Machine -> Prop) X :
  holds s W -> sees W a = Some (VStr p l) -> sees W g = Some (VStr q bs) -> g <> a ->
  (forall s' W' p' q', holds s' W' -> same {[a; g]} W W' -> sees W' a = Some (VStr p' bs) -> sees W' g = Some (VStr q' []) -> Q tt s') ->
  wp (assign_move a g) s Q X.
Proof.
  intros Hh Hv Hg Hne HQ. unfold assign_move. rewrite decide_False by done. apply wp_bind. eapply law_dtor; [done|done|].
  intros s1 W1 r Hh1 HS1 Hv1 Hl _. eapply (law_move s1 W1 a g); [done|done|done|rewrite HS1; [done|by apply not_elem_of_singleton]|].
  intros s2 W2 p' q' Hh2 HS2 Ha Hg2 _. eapply HQ; [done| |done|done]. intros y Hy. rewrite HS2, HS1; [done|set_solver..].
Qed.

Lemma set_index_wp s W a p l c (Q : unit -> Machine -> Prop) X i :
  holds s W -> sees W a = Some (VStr p l) -> owns W a -> 0 <= i < zlen l -> byte c ->
  (forall s', turns a W (overwrite i [c] l) s' -> Q tt s') -> wp (str_set_index a i c) s Q X.
Proof.
  intros Hh Hv Ho Hi Hc HQ. apply wp_bind. eapply begin_owned_wp; [done|done|done|].
  eapply law_store; [done|done|done|by constructor|lia|change (zlen [c]) with 1; lia|].
  intros s' W' Hh' HS Hv' _ _. apply HQ. by exists W', p.
Qed.

Lemma overwrite_one c (l : list Z) : zlen l = 1 -> overwrite 0 [c] l = [c].
Proof. destruct l as [|x [|]]; unfold zlen; simpl; try lia. done. Qed.

(** A local string with the new text changes places with this one. *)
Lemma local_swap_wp s W a p l txt (ctor : Z -> Run unit) (Q : unit -> Machine -> Prop) (X : exn -> Machine -> Prop) :
  holds s W -> sees W a = Some (VStr p l) ->
  (forall s1 W1 t r Q' (X' : exn -> Machine -> Prop), t <> a -> holds s1 W1 -> same {[t]} W W1 -> sees W1 t = Some (VRaw false r) ->
     zlen r = 24 -> (forall s2, born t W1 txt s2 -> Q' tt s2) -> (forall s2, unborn t W1 s2 -> X' bad_alloc s2) ->
     wp (ctor t) s1 Q' X') ->
  (forall s', turns a W txt s' -> Q tt s') -> (forall s', untouched W s' -> X bad_alloc s') ->
  wp (local_string ctor (fun tmp => str_swap tmp a)) s Q X.
Proof.
  intros Hh Hv Hctor HQ HX. eapply law_local; [done|]. intros s1 W1 t r Hh1 HS1 Ht Hv1 Hlr _.
  assert (Hat : a <> t) by (intros ->; congruence). eapply Hctor; [done|done|done|done|done|..].
  - intros s2 (W2 & p2 & Hh2 & HS2 & Hv2 & _). assert (HS02 : same {[t]} W W2) by by eapply same_trans.
    assert (Ha2 : sees W2 a = Some (VStr p l)) by (rewrite HS02; [done|by apply not_elem_of_singleton]).
    eapply (law_swap s2 W2 t a); [done|done|done|done|]. intros s3 W3 pt pa Hh3 HS3 Hvt Hva _ _.
    eapply (exchanged W W2 s3 W3 a t); try done. by rewrite (comm_L (∪)).
  - intros s2 (W2 & r2 & Hh2 & HS2 & Hv2 & _). exists W2, r2. split_and!; [done|done|]. intros s4 W4 Hh4 HS4 Ht4.
    apply HX. exists W4. split; [done|]. intros y _. destruct (decide (y = t)) as [->|Hy]; [congruence|].
    rewrite HS4, HS2, HS1; [done|by apply not_elem_of_singleton..].
Qed.

(** [*this = c]: the string is untouched when it cannot be made its own. *)
Lemma assign_char_wp s W a p l c (Q : unit -> Machine -> Prop) (X : exn -> Machine -> Prop) :
  holds s W -> sees W a = Some (VStr p l) -> byte c ->
  (forall s', turns a W [c] s' -> Q tt s') -> (forall s', untouched W s' -> X bad_alloc s') ->
  wp (assign_char a c) s Q X.
Proof.
  intros Hh Hv Hc HQ HX. pose proof (zlen_nonneg l). eapply checked_wp; [done|done|].
  assert (HQ' : forall s', turns a W [c] s' -> alive a s' (Q tt s')).
  { intros s' Ht. eapply turns_alive; [exact Ht|]. by apply HQ. }
  assert (HX' : forall s', untouched W s' -> alive a s' (X bad_alloc s')).
  { intros s' Hu. eapply untouched_alive; [done|done|]. by apply HX. }
  assert (Hend : forall s1 W1 p1 l1, holds s1 W1 -> same {[a]} W W1 -> sees W1 a = Some (VStr p1 l1) -> owns W1 a -> zlen l1 = 1 ->
    wp (str_set_index a 0 c) s1 (fun v s' => alive a s' (Q v s')) (fun e s' => alive a s' (X e s'))).
  { intros s1 W1 p1 l1 Hh1 HS1 Hv1 Ho1 Hl1. eapply set_index_wp; [done|done|done|lia|done|].
    intros s' Ht. rewrite overwrite_one in Ht by done. apply HQ'. by eapply turns_trans. }
  apply wp_bind, wp_bind. eapply law_size; [done|done|]. apply wp_ret. case_bool_decide as Hz.
  { assert (l = []) as -> by (destruct l; [done|unfold zlen in Hz; simpl in Hz; lia]).
    apply wp_bind. eapply law_expandNoinit; [done|done|lia|change (zlen []) with 0; unfold address_space; lia| |exact HX'].
    intros s1 W1 p1 ext Hh1 HS1 Hv1 Hext Ho1. eapply (Hend s1 W1 p1 ext); [done|done|done|apply Ho1; left; lia|done]. }
  apply wp_bind. eapply law_isShared; [done|done|]. case_bool_decide as Hno.
  - eapply (local_swap_wp _ W a p l [c]); [done|done| |exact HQ'|exact HX']. intros s1 W1 t r Q' X' _ Hh1 HS1 Hv1 Hlr HQ1 HX1.
    eapply ctor_fill_wp; [done|done|done|unfold address_space; lia| |done].
    change (Z.to_nat 1) with 1%nat. simpl. by rewrite (u8_small c) by done.
  - apply wp_bind. eapply law_size; [done|done|]. apply wp_bind. eapply law_shrink; [done|done|lia|..].
    + intros s1 W1 p1 Hh1 HS1 Hv1 Ho1 _. replace (zlen l - (zlen l - 1)) with 1 in Hv1 by lia.
      eapply Hend; [done|done|done| |apply zlen_slice; lia]. apply Ho1. right. destruct (decide (owns W a)); tauto.
    + tauto.
Qed.
Lemma shrink_to_fit_wp s W a p l (Q : unit -> Machine -> Prop) (X : exn -> Machine -> Prop) :
  holds s W -> sees W a = Some (VStr p l) ->
  (forall s', turns a W l s' -> Q tt s') -> (forall s', untouched W s' -> X bad_alloc s') ->
  wp (shrink_to_fit a) s Q X.
Proof.
  intros Hh Hv HQ HX. pose proof (law_length s W a p l Hh Hv) as Hmax.
  apply wp_bind. eapply law_capacity; [done|done|]. intros cap _ _ Hcap. apply wp_bind. eapply law_size; [done|done|].
  case_decide as Hsmall; [by apply wp_ret, HQ, (turns_same a W p)|].
  apply wp_bind. eapply law_data; [done|done|]. apply wp_bind, wp_bind. eapply law_data; [done|done|].
  apply wp_bind. eapply law_size; [done|done|]. apply wp_ret. replace (p + zlen l - p) with (zlen l) by lia.
  eapply local_swap_wp; [done|done| |done|done]. intros s1 W1 t r Q' X' Hne Hh1 HS1 Hv1 Hlr HQ' HX'.
  eapply (law_init s1 W1 a p l t); [done| |done|done|done|done|..].
  - apply range_whole. rewrite HS1; [done|by apply not_elem_of_singleton].
  - intros s2 W2 p2 Hh2 HS2 Hv2 Ho2. apply HQ'. by exists W2, p2.
  - intros s2 (W2 & Hh2 & HS2). apply HX'. exists W2, r. split_and!; [done| |by rewrite HS2|done].
    eapply same_mono; [|exact HS2]. set_solver.
Qed.

(** [substr] of an expiring string: the piece moves out of it. *)
Lemma substr_move_wp s W a p l t h r pos n (Q : unit -> Machine -> Prop) (X : exn -> Machine -> Prop) :
  holds s W -> sees W a = Some (VStr p l) -> sees W t = Some (VRaw h r) -> zlen r = 24 -> 0 <= pos -> 0 <= n ->
  (forall s' W' p' q', pos <= zlen l -> holds s' W' -> same {[t; a]} W W' ->
     sees W' t = Some (VStr p' (slice pos (Z.min n (zlen l - pos)) l)) -> sees W' a = Some (VStr q' []) -> Q tt s') ->
  (zlen l < pos -> X out_of_bounds s) -> (forall s', untouched W s' -> X bad_alloc s') ->
  wp (substr_move a t pos n) s Q X.
Proof.
  intros Hh Hv Ht Hl Hp Hn HQ HXr HX. pose proof (zlen_nonneg l). pose proof (law_length s W a p l Hh Hv) as Hmax.
  assert (Hat : t <> a) by (intros ->; congruence).
  apply wp_bind. eapply law_size; [done|done|]. apply wp_bind.
  case_bool_decide as Hle; [apply wp_ret|apply wp_throw, HXr; lia].
  apply wp_bind. eapply (erase_wp s W a p l 0 pos); [done|done|done|done| |lia|by intros _].
  intros s1 W1 p1 _ Hh1 HS1 Hv1 Ho1. rewrite Z.min_l in Hv1 by lia.
  assert (E : erased 0 pos l = slice pos (zlen l - pos) l).
  { unfold erased. rewrite slice_0. simpl. f_equal; lia. }
  rewrite E in Hv1. assert (Hl1 : zlen (slice pos (zlen l - pos) l) = zlen l - pos) by (apply zlen_slice; lia).
  apply wp_bind. eapply law_size; [done|done|]. apply wp_bind.
  assert (Hmv : forall s2 W2 p2, holds s2 W2 -> same {[a]} W W2 -> sees W2 a = Some (VStr p2 (slice pos (Z.min n (zlen l - pos)) l)) ->
    wp (store_move t a) s2 Q X).
  { intros s2 W2 p2 Hh2 HS2 Hv2.
    eapply (law_move s2 W2 t a); [done|rewrite HS2; [done|by apply not_elem_of_singleton]|done|done|].
    intros s3 W3 p3 q3 Hh3 HS3 Hv3 Hg3 _. eapply HQ; [done|done| |done|done]. intros y Hy. rewrite HS3, HS2; [done|set_solver..]. }
  case_decide as Hlt.
  - eapply resize_wp; [done|done|lia|..].
    + intros s2 W2 p2 Hh2 HS2 Hv2 _. rewrite decide_True in Hv2 by lia. eapply Hmv; [done|by eapply same_trans|].
      rewrite Hv2, Z.min_l by lia. do 2 f_equal. unfold slice. rewrite drop_0, take_take. f_equal. lia.
    + intros s2 _ Hno. exfalso. apply Hno. split; [done|lia].
  - apply wp_ret. eapply Hmv; [done|done|]. by rewrite Z.min_r by lia.
Qed.
End Whole.
