(* ===== verification/FBStringSearch.v ===== *)
(** * FBString: the searches find what they look for

    [find] and its kin against occurrences in the text, [compare] against the
    lexicographic order of the texts; proved against the contract of the core. *)

From stdpp Require Import base list gmap strings.
From S2P Require Import Prelude Bits FBStringMem FBStringCore FBStringInv FBStringModel FBString FBStringText FBStringReplace FBStringWhole.

(** ** What is looked for *)

(** [n] is in [l] at [i]. *)
Definition occurs (l n : list Z) (i : Z) : Prop := 0 <= i /\ i + zlen n <= zlen l /\ slice i (zlen n) l = n.

(** The first and the last index with a property, or [npos]. *)
Definition found_first (P : Z -> Prop) (lo hi r : Z) : Prop :=
  lo <= r < hi /\ P r /\ (forall i, lo <= i < r -> ~ P i) \/ r = npos /\ forall i, lo <= i < hi -> ~ P i.
Definition found_last (P : Z -> Prop) (hi r : Z) : Prop :=
  0 <= r <= hi /\ P r /\ (forall i, r < i <= hi -> ~ P i) \/ r = npos /\ forall i, 0 <= i <= hi -> ~ P i.

Definition char (l : list Z) (i : Z) : Z := nth (Z.to_nat i) l 0.

Lemma char_lookup l i : 0 <= i < zlen l -> l !! Z.to_nat i = Some (char l i).
Proof.
  intros Hi. unfold char. destruct (l !! Z.to_nat i) as [c|] eqn:E.
  - by rewrite (nth_lookup_Some _ _ _ _ E).
  - apply lookup_ge_None in E. unfold zlen in Hi. lia.
Qed.

Lemma char_slice o n (l : list Z) j : 0 <= o -> 0 <= j < n -> o + n <= zlen l -> char (slice o n l) j = char l (o + j).
Proof.
  intros Ho Hj Hle. assert (Hz : zlen (slice o n l) = n) by (apply zlen_slice; lia).
  assert (E : slice o n l !! Z.to_nat j = l !! Z.to_nat (o + j)).
  { unfold slice. rewrite lookup_take_lt by lia. rewrite lookup_drop. f_equal. lia. }
  rewrite !char_lookup in E by lia. by injection E.
Qed.

Lemma char_ext (l m : list Z) : zlen l = zlen m -> (forall j, 0 <= j < zlen l -> char l j = char m j) -> l = m.
Proof.
  intros Hl HE. apply list_eq. intros k. destruct (decide (Z.of_nat k < zlen l)) as [Hk|Hk].
  - rewrite <- (Nat2Z.id k), !char_lookup by lia. f_equal. apply HE. lia.
  - rewrite !lookup_ge_None_2; [done|unfold zlen in *; lia..].
Qed.

Lemma occurs_char l n i : 0 <= i -> i + zlen n <= zlen l -> occurs l n i <-> forall j, 0 <= j < zlen n -> char l (i + j) = char n j.
Proof.
  intros Hi Hle. pose proof (zlen_nonneg n). assert (Hz : zlen (slice i (zlen n) l) = zlen n) by (apply zlen_slice; lia). split.
  - intros (_ & _ & E) j Hj. rewrite <- E at 1. by rewrite char_slice by lia.
  - intros HE. split_and!; [done|done|]. apply char_ext; [done|]. intros j Hj. rewrite char_slice by lia. apply HE. lia.
Qed.

Lemma occurs_not l n i j : 0 <= j < zlen n -> char l (i + j) <> char n j -> ~ occurs l n i.
Proof. intros Hj Hne Ho. apply Hne. pose proof Ho as (Hi & Hle & _). by apply (occurs_char l n i Hi Hle). Qed.

(** The shifts a skip passes over. *)
Definition valid_skip (n : list Z) (skip : Z) : Prop :=
  1 <= skip <= zlen n /\ forall d, 1 <= d < skip -> char n (zlen n - 1 - d) <> char n (zlen n - 1).

(** No occurrence is passed over when the last characters match. *)
Lemma skip_misses_none l n k skip i :
  0 <= k -> char l (k + (zlen n - 1)) = char n (zlen n - 1) -> ~ occurs l n k -> valid_skip n skip ->
  k <= i < k + skip -> 0 < zlen n -> ~ occurs l n i.
Proof.
  intros Hk Hlast Hno [Hs Hsk] Hi Hn. destruct (decide (i = k)) as [->|Hne]; [done|].
  apply (occurs_not l n i (zlen n - 1 - (i - k))); [lia|]. replace (i + (zlen n - 1 - (i - k))) with (k + (zlen n - 1)) by lia.
  rewrite Hlast. intros E. by apply (Hsk (i - k)); [lia|].
Qed.

(** ** [memcmp] *)

(** The lexicographic order of the texts, as a sign. *)
Fixpoint lex (l m : list Z) : Z :=
  match l, m with
  | [], [] => 0
  | [], _ => -1
  | _, [] => 1
  | a :: l, b :: m => if decide (a = b) then lex l m else if decide (a < b) then -1 else 1
  end.

(** [compare] of two pieces: the common length first, then the lengths. *)
Lemma memcmp_lex l m :
  let n := Z.min (zlen l) (zlen m) in
  let r := memcmp (slice 0 n l) (slice 0 n m) in
  (if decide (r <> 0) then r else if decide (zlen l > zlen m) then 1 else if decide (zlen l < zlen m) then -1 else 0) = lex l m.
Proof.
  revert m. induction l as [|a l IH]; intros [|b m]; try done.
  assert (Hl : zlen (a :: l) = 1 + zlen l) by (unfold zlen; simpl; lia).
  assert (Hm : zlen (b :: m) = 1 + zlen m) by (unfold zlen; simpl; lia).
  pose proof (zlen_nonneg l). pose proof (zlen_nonneg m). cbv zeta.
  assert (E : forall (c : Z) (k : list Z) n, 0 <= n -> slice 0 (1 + n) (c :: k) = c :: slice 0 n k).
  { intros c k n Hn. unfold slice. simpl. by replace (Z.to_nat (1 + n)) with (S (Z.to_nat n)) by lia. }
  rewrite Hl, Hm, Z.add_min_distr_l, !E by lia. cbn [memcmp lex]. destruct (decide (a = b)) as [->|Hne].
  - specialize (IH m). cbv zeta in IH. rewrite <- IH. repeat case_decide; lia.
  - repeat case_decide; lia.
Qed.

Lemma memcmp_eq l m : length l = length m -> memcmp l m = 0 <-> l = m.
Proof.
  revert m. induction l as [|a l IH]; intros [|b m]; try done. simpl. intros [= E]. repeat case_decide; [|naive_solver lia..].
  rewrite IH by done. naive_solver.
Qed.

Lemma lex_eq l m : lex l m = 0 <-> l = m.
Proof.
  revert m. induction l as [|a l IH]; intros [|b m]; simpl; try done. repeat case_decide; [|naive_solver lia..].
  rewrite IH. naive_solver.
Qed.

Lemma lex_flip l m : lex m l = - lex l m.
Proof. revert m. induction l as [|a l IH]; intros [|b m]; simpl; try done. repeat case_decide; subst; auto; lia. Qed.

Lemma lex_trans l m n : lex l m < 0 -> lex m n < 0 -> lex l n < 0.
Proof.
  revert m n. induction l as [|a l IH]; intros [|b m] [|c n]; simpl; try lia.
  repeat case_decide; subst; try lia. by apply IH.
Qed.

Section Search.
Context `{Platform} `{!fbstring_core_model}.
Implicit Types (s : Machine) (W : world).

Lemma char_wp s W x q bs j d (Q : Z -> Machine -> Prop) X :
  holds s W -> range W x q bs -> 0 <= j < zlen bs -> d = q + j -> Q (char bs j) s -> wp (load_byte d) s Q X.
Proof.
  intros Hh Hr Hj -> HQ. pose proof (char_lookup bs j Hj) as Hc.
  assert (Hz : zlen (take (Z.to_nat j) bs) = j) by (unfold zlen in *; rewrite length_take; lia).
  rewrite <- (take_drop_middle bs _ _ Hc) in Hr. apply range_app in Hr as [_ Hr]. rewrite Hz in Hr.
  apply (range_app W x _ [char bs j]) in Hr as [Hr _]. apply wp_bind. eapply (law_load s W x _ [char bs j]); [done|done|].
  apply wp_ret. replace (of_bytes [char bs j]) with (char bs j) by (unfold of_bytes; simpl; lia). done.
Qed.

(** ** [find] *)

Section Needle.
Context s W a p l x q n (Hh : holds s W) (Hv : sees W a = Some (VStr p l)) (Hr : range W x q n) (Hn : 0 < zlen n).

(** Where a needle can start. *)
Let hi : Z := zlen l - (zlen n - 1).
Let last : Z := char n (zlen n - 1).

Lemma match_last_wp k (Q : option Z -> Machine -> Prop) X :
  0 <= k < hi ->
  ((forall i, k <= i < hi -> char l (i + (zlen n - 1)) <> last) -> Q None s) ->
  (forall k', k <= k' < hi -> char l (k' + (zlen n - 1)) = last -> (forall i, k <= i < k' -> char l (i + (zlen n - 1)) <> last) ->
     Q (Some (p + k')) s) ->
  wp (match_last (p + k) (p + hi) (zlen n - 1) last) s Q X.
Proof.
  intros Hk HN HS. unfold match_last. pose proof (range_whole W a p l Hv) as Hl.
  eapply (wp_iter _ (fun m i s0 => s0 = s /\ exists k', i = p + k' /\ k <= k' < hi /\ m = Z.to_nat (hi - k') /\
    forall j, k <= j < k' -> char l (j + (zlen n - 1)) <> last)).
  2: { assert (E : (Z.to_nat (hi - k) < S (Z.to_nat (p + hi - (p + k))))%nat) by lia. exact E. }
  2: { split; [done|]. exists k. split_and!; [done|lia|lia|done|]. intros j Hj. lia. }
  intros m i s0 (-> & k' & -> & Hk' & -> & Hno). apply wp_bind.
  eapply (char_wp s W a p l (k' + (zlen n - 1))); [done|done|unfold hi in *; lia|lia|].
  case_decide as Hc; [cbv zeta; case_decide as He; apply wp_ret|apply wp_ret].
  - apply HN. intros j Hj. destruct (decide (j = k')) as [->|]; [done|]. apply Hno. lia.
  - exists (Z.to_nat (hi - (k' + 1))). split; [lia|]. split; [done|]. exists (k' + 1). split_and!; [lia|lia|lia|done|].
    intros j Hj. destruct (decide (j = k')) as [->|]; [done|]. apply Hno. lia.
  - by apply HS; [lia|..].
Qed.

Lemma match_all_wp k (Q : bool -> Machine -> Prop) X :
  0 <= k < hi -> (occurs l n k -> Q true s) -> (~ occurs l n k -> Q false s) -> wp (match_all (p + k) q (zlen n)) s Q X.
Proof.
  intros Hk HT HF. unfold match_all. pose proof (range_whole W a p l Hv) as Hl. unfold hi in Hk.
  eapply (wp_iter _ (fun m j s0 => s0 = s /\ 0 <= j < zlen n /\ m = Z.to_nat (zlen n - j) /\
    forall i, 0 <= i < j -> char l (k + i) = char n i)).
  2: { assert (E : (Z.to_nat (zlen n - 0) < S (Z.to_nat (zlen n)))%nat) by lia. exact E. }
  2: { split_and!; [done|lia|lia|done|]. intros i Hi. lia. }
  intros m j s0 (-> & Hj & -> & HE). apply wp_bind, wp_assert; [apply bool_decide_eq_true; lia|].
  apply wp_bind. eapply (char_wp s W a p l (k + j)); [done|done|lia|lia|].
  apply wp_bind. eapply (char_wp s W x q n j); [done|done|lia|lia|].
  case_decide as Hc; [apply wp_ret, HF; by eapply occurs_not|].
  assert (HE' : forall i, 0 <= i < j + 1 -> char l (k + i) = char n i).
  { intros i Hi. destruct (decide (i = j)) as [->|]; [done|]. apply HE. lia. }
  cbv zeta. case_decide as He; apply wp_ret.
  - apply HT, occurs_char; [lia|lia|]. by rewrite <- He.
  - exists (Z.to_nat (zlen n - (j + 1))). split; [lia|]. split_and!; [done|lia|lia|done|done].
Qed.

Lemma compute_skip_wp (Q : Z -> Machine -> Prop) X :
  (forall skip, valid_skip n skip -> Q skip s) -> wp (compute_skip q (zlen n - 1) last) s Q X.
Proof.
  clear hi. intros HQ. unfold compute_skip.
  eapply (wp_iter _ (fun m d s0 => s0 = s /\ m = Z.to_nat (zlen n - d) /\ valid_skip n d)).
  2: { assert (E : (Z.to_nat (zlen n - 1) < S (S (Z.to_nat (zlen n - 1))))%nat) by lia. exact E. }
  2: { split_and!; [done|done|]. split; [lia|]. intros d Hd. lia. }
  intros m d s0 (-> & -> & Hd & HE). case_decide as Hle; [|by apply wp_ret, HQ].
  apply wp_bind. eapply (char_wp s W x q n (zlen n - 1 - d)); [done|done|lia|lia|].
  case_decide as Hc; apply wp_ret; [|by apply HQ].
  exists (Z.to_nat (zlen n - (d + 1))). split; [lia|]. split_and!; [done|done|]. split; [lia|].
  intros e He. destruct (decide (e = d)) as [->|]; [done|]. apply HE. lia.
Qed.
End Needle.

(** The first occurrence from [pos] on. *)
Lemma str_find_wp s W a p l x q n pos (Q : Z -> Machine -> Prop) X :
  holds s W -> sees W a = Some (VStr p l) -> range W x q n -> zlen n < 2 ^ 64 -> 0 <= pos < 2 ^ 64 ->
  (forall r, found_first (occurs l n) pos (zlen l - zlen n + 1) r -> Q r s) ->
  wp (str_find a q pos (zlen n)) s Q X.
Proof.
  intros Hh Hv Hr Hnb Hpos HQ. pose proof (zlen_nonneg n). pose proof (zlen_nonneg l).
  pose proof (law_length s W a p l Hh Hv) as Hmax. unfold address_space in Hmax.
  apply wp_bind. eapply law_size; [done|done|]. case_decide as Hout.
  { apply wp_ret, HQ. right. split; [done|]. intros i Hi. exfalso. destruct (decide (zlen n + pos < 2 ^ 64)) as [Hs|Hs].
    - rewrite u64_small in Hout by lia. lia.
    - lia. }
  assert (Hin : zlen n + pos <= zlen l).
  { destruct (decide (zlen n + pos < 2 ^ 64)) as [Hs|Hs]; [rewrite u64_small in Hout by lia; lia|].
    exfalso. apply Hout. right. unfold u64, wrap. euclid. }
  case_decide as Hz.
  { apply wp_ret, HQ. left. split; [lia|]. split; [|intros i Hi; lia].
    assert (n = []) as -> by (destruct n; [done|unfold zlen in Hz; simpl in Hz; lia]). split_and!; [lia|lia|apply slice_0]. }
  apply wp_bind. eapply law_data; [done|done|]. cbv zeta. apply wp_bind. eapply (char_wp s W x q n (zlen n - 1)); [done|done|lia|lia|].
  replace (p + zlen l - (zlen n - 1)) with (p + (zlen l - (zlen n - 1))) by lia.
  eapply (wp_iter _ (fun m st s0 => s0 = s /\ exists k, st.1 = p + k /\ pos <= k /\ m = Z.to_nat (zlen l - k) /\
    (st.2 = 0 \/ valid_skip n st.2) /\ forall i, pos <= i < k -> ~ occurs l n i)).
  2: { assert (E : (Z.to_nat (zlen l - pos) < S (Z.to_nat (zlen l + 1)))%nat) by lia. exact E. }
  2: { split; [done|]. exists pos. split_and!; [done|done|done|by left|]. intros i Hi. lia. }
  intros m [i0 skip] s0 (-> & k & Hik & Hk & -> & Hskip & Hno). simpl in *. subst i0.
  case_decide as Hlt; [|apply wp_ret, HQ; right; split; [done|]; intros i Hi; apply Hno; lia].
  apply wp_bind. eapply (match_last_wp s W a p l n); [done|done|lia|lia|..].
  { intros Hall. apply wp_ret, HQ. right. split; [done|]. intros i Hi. destruct (decide (i < k)) as [|]; [apply Hno; lia|].
    apply (occurs_not l n i (zlen n - 1)); [lia|]. apply Hall. lia. }
  intros k' Hk' Hlast Hbefore. apply wp_bind.
  assert (Hno' : forall i, pos <= i < k' -> ~ occurs l n i).
  { intros i Hi. destruct (decide (i < k)) as [|]; [apply Hno; lia|].
    apply (occurs_not l n i (zlen n - 1)); [lia|]. apply Hbefore. lia. }
  eapply (match_all_wp s W a p l x q n); [done|done|done|lia|lia|..].
  - intros Ho. apply wp_ret, HQ. left. replace (p + k' - p) with k' by lia. split_and!; [lia|lia|done|done].
  - intros Ho. assert (Hnext : forall d, valid_skip n d -> wp (mret (inl (p + k' + d, d)) : Run (Z * Z + Z)) s (fun r s' =>
      match r with
      | inl st => exists n', (n' < Z.to_nat (zlen l - k))%nat /\ s' = s /\ exists k0, st.1 = p + k0 /\ pos <= k0 /\
          n' = Z.to_nat (zlen l - k0) /\ (st.2 = 0 \/ valid_skip n st.2) /\ forall i, pos <= i < k0 -> ~ occurs l n i
      | inr b => Q b s' end) X).
    { intros d Hd. pose proof Hd as [Hd1 _]. apply wp_ret. exists (Z.to_nat (zlen l - (k' + d))). split; [lia|]. split; [done|].
      exists (k' + d). simpl. split_and!; [lia|lia|done|by right|]. intros i Hi.
      destruct (decide (i < k')) as [|]; [apply Hno'; lia|]. eapply (skip_misses_none l n k'); [lia|done|done|done|lia|lia]. }
    apply wp_bind. case_decide as Hs0.
    + eapply compute_skip_wp; [done|exact Hr|lia|]. exact Hnext.
    + apply wp_ret. apply Hnext. by destruct Hskip.
Qed.
(** ** The other searches *)

(** [test] decides [P] at the characters [lo] to [hi] of the text. *)
Definition decides (s : Machine) (p : Z) (test : Z -> Run bool) (P : Z -> Prop) (hi : Z) : Prop :=
  forall i (Q : bool -> Machine -> Prop) X, 0 <= i < hi -> (P i -> Q true s) -> (~ P i -> Q false s) -> wp (test (p + i)) s Q X.

Lemma search_back_wp s p test P k (Q : Z -> Machine -> Prop) X :
  decides s p test P (k + 1) -> 0 <= k -> (forall r, found_last P k r -> Q r s) -> wp (search_back test p (p + k)) s Q X.
Proof.
  intros HT Hk HQ. unfold search_back.
  eapply (wp_iter _ (fun m i s0 => s0 = s /\ exists k', i = p + k' /\ 0 <= k' <= k /\ m = Z.to_nat k' /\ forall j, k' < j <= k -> ~ P j)).
  2: { assert (E : (Z.to_nat k < S (Z.to_nat (p + k - p)))%nat) by lia. exact E. }
  2: { split; [done|]. exists k. split_and!; [done|lia|lia|done|]. intros j Hj. lia. }
  intros m i s0 (-> & k' & -> & Hk' & -> & Hno). apply wp_bind. apply HT; [lia|..].
  - intros HP. apply wp_ret, HQ. left. replace (p + k' - p) with k' by lia. by split_and!; [lia|lia|..].
  - intros HP. assert (Hno' : forall j, k' <= j <= k -> ~ P j).
    { intros j Hj. destruct (decide (j = k')) as [->|]; [done|]. apply Hno. lia. }
    case_decide as He; apply wp_ret.
    + apply HQ. right. split; [done|]. intros j Hj. apply Hno'. lia.
    + exists (Z.to_nat (k' - 1)). split; [lia|]. split; [done|]. exists (k' - 1). split_and!; [lia|lia|lia|done|].
      intros j Hj. apply Hno'. lia.
Qed.

Lemma search_on_wp s p test P k hi (Q : Z -> Machine -> Prop) X :
  decides s p test P hi -> 0 <= k <= hi -> (forall r, found_first P k hi r -> Q r s) -> wp (search_on test p (p + k) (p + hi)) s Q X.
Proof.
  intros HT Hk HQ. unfold search_on.
  eapply (wp_iter _ (fun m i s0 => s0 = s /\ exists k', i = p + k' /\ k <= k' <= hi /\ m = Z.to_nat (hi - k') /\ forall j, k <= j < k' -> ~ P j)).
  2: { assert (E : (Z.to_nat (hi - k) < S (Z.to_nat (p + hi - (p + k))))%nat) by lia. exact E. }
  2: { split; [done|]. exists k. split_and!; [done|lia|lia|done|]. intros j Hj. lia. }
  intros m i s0 (-> & k' & -> & Hk' & -> & Hno). case_decide as Hne.
  - apply wp_bind. apply HT; [lia|..].
    + intros HP. apply wp_ret, HQ. left. replace (p + k' - p) with k' by lia. by split_and!; [lia|lia|..].
    + intros HP. apply wp_ret. exists (Z.to_nat (hi - (k' + 1))). split; [lia|]. split; [done|]. exists (k' + 1). split_and!; [lia|lia|lia|done|].
      intros j Hj. destruct (decide (j = k')) as [->|]; [done|]. apply Hno. lia.
  - apply wp_ret, HQ. right. split; [done|]. intros j Hj. apply Hno. lia.
Qed.

Lemma one_of_decides s W a p l x q n :
  holds s W -> sees W a = Some (VStr p l) -> range W x q n -> decides s p (one_of q (zlen n)) (fun i => char l i ∈ n) (zlen l).
Proof.
  intros Hh Hv Hr i Q X Hi HT HF. apply wp_bind. eapply (char_wp s W a p l i); [done|by apply range_whole|lia|done|].
  apply wp_bind. eapply law_load; [done|exact Hr|]. apply wp_ret. case_bool_decide; auto.
Qed.

Lemma none_of_decides s W a p l x q n :
  holds s W -> sees W a = Some (VStr p l) -> range W x q n -> decides s p (none_of q (zlen n)) (fun i => char l i ∉ n) (zlen l).
Proof.
  intros Hh Hv Hr i Q X Hi HT HF. apply wp_bind. eapply (char_wp s W a p l i); [done|by apply range_whole|lia|done|].
  apply wp_bind, wp_bind. eapply law_load; [done|exact Hr|]. apply wp_ret, wp_ret. case_bool_decide; simpl; auto.
Qed.

Lemma decides_mono s p test P hi hi' : decides s p test P hi -> hi' <= hi -> decides s p test P hi'.
Proof. intros HT Hle i Q X Hi. apply HT. lia. Qed.

(** The last occurrence at [pos] or before. *)
Lemma str_rfind_wp s W a p l x q n pos (Q : Z -> Machine -> Prop) X :
  holds s W -> sees W a = Some (VStr p l) -> range W x q n -> 0 <= pos ->
  (forall r, found_last (occurs l n) (Z.min pos (zlen l - zlen n)) r -> Q r s) ->
  wp (str_rfind a q pos (zlen n)) s Q X.
Proof.
  intros Hh Hv Hr Hpos HQ. pose proof (zlen_nonneg n). pose proof (zlen_nonneg l).
  apply wp_bind. eapply law_size; [done|done|]. case_decide as Hgt.
  { apply wp_ret, HQ. right. split; [done|]. intros i Hi. lia. }
  cbv zeta. case_decide as Hz.
  { apply wp_ret, HQ. left. split; [lia|]. split; [|intros i Hi; lia].
    assert (n = []) as -> by (destruct n; [done|unfold zlen in Hz; simpl in Hz; lia]). split_and!; [lia|lia|apply slice_0]. }
  apply wp_bind. eapply law_data; [done|done|]. eapply (search_back_wp s p _ (occurs l n) (Z.min pos (zlen l - zlen n))); [|lia|exact HQ].
  intros i Q' X' Hi HT HF. apply wp_bind. eapply (char_wp s W a p l i); [done|by apply range_whole|lia|done|].
  apply wp_bind. eapply (char_wp s W x q n 0); [done|done|lia|lia|]. case_decide as Hc.
  - apply wp_bind, wp_bind. assert (Hs : zlen (slice i (zlen n) l) = zlen n) by (apply zlen_slice; lia).
    rewrite <- Hs at 1. eapply law_load; [done|apply range_text; (done || lia)|]. apply wp_bind. eapply law_load; [done|exact Hr|].
    apply wp_ret, wp_ret. case_bool_decide as He; rewrite memcmp_eq in He by exact (Nat2Z.inj _ _ Hs); [apply HT|apply HF].
    + by split_and!; [lia|lia|].
    + by intros (_ & _ & ?).
  - apply wp_ret, HF. apply (occurs_not l n i 0); [lia|]. by rewrite Z.add_0_r.
Qed.

Lemma found_first_none P lo hi r : hi <= lo -> r = npos -> found_first P lo hi r.
Proof. intros Hle ->. right. split; [done|]. intros i Hi. lia. Qed.

(** The searches for a character of a set, and for one outside it. *)
Lemma find_first_of_wp s W a p l x q n pos (Q : Z -> Machine -> Prop) X :
  holds s W -> sees W a = Some (VStr p l) -> range W x q n -> 0 <= pos ->
  (forall r, found_first (fun i => char l i ∈ n) pos (zlen l) r -> Q r s) -> wp (find_first_of a q pos (zlen n)) s Q X.
Proof.
  intros Hh Hv Hr Hpos HQ. apply wp_bind. eapply law_size; [done|done|]. case_decide as Hout.
  - apply wp_ret, HQ. right. split; [done|]. intros i Hi. destruct Hout as [Hout|Hz]; [lia|].
    assert (n = []) as -> by (destruct n; [done|unfold zlen in Hz; simpl in Hz; lia]). set_solver.
  - apply wp_bind. eapply law_data; [done|done|]. apply wp_bind, wp_bind. eapply law_data; [done|done|].
    apply wp_bind. eapply law_size; [done|done|]. apply wp_ret.
    eapply (search_on_wp s p _ _ pos (zlen l)); [by eapply one_of_decides|lia|exact HQ].
Qed.

Lemma find_first_not_of_wp s W a p l x q n pos (Q : Z -> Machine -> Prop) X :
  holds s W -> sees W a = Some (VStr p l) -> range W x q n -> 0 <= pos ->
  (forall r, found_first (fun i => char l i ∉ n) pos (zlen l) r -> Q r s) -> wp (find_first_not_of a q pos (zlen n)) s Q X.
Proof.
  intros Hh Hv Hr Hpos HQ. apply wp_bind. eapply law_size; [done|done|]. case_decide as Hin.
  - apply wp_bind. eapply law_data; [done|done|]. apply wp_bind, wp_bind. eapply law_data; [done|done|].
    apply wp_bind. eapply law_size; [done|done|]. apply wp_ret.
    eapply (search_on_wp s p _ _ pos (zlen l)); [by eapply none_of_decides|lia|exact HQ].
  - apply wp_ret, HQ, found_first_none; [lia|done].
Qed.

Lemma find_last_of_wp s W a p l x q n pos (Q : Z -> Machine -> Prop) X :
  holds s W -> sees W a = Some (VStr p l) -> range W x q n -> 0 <= pos ->
  (forall r, found_last (fun i => char l i ∈ n) (Z.min pos (zlen l - 1)) r -> Q r s) -> wp (find_last_of a q pos (zlen n)) s Q X.
Proof.
  intros Hh Hv Hr Hpos HQ. pose proof (zlen_nonneg l). pose proof (zlen_nonneg n).
  apply wp_bind, wp_bind. eapply law_size; [done|done|]. apply wp_ret. case_decide as Hin.
  - destruct Hin as [Hin%bool_decide_eq_false Hn]. apply wp_bind. eapply law_size; [done|done|].
    apply wp_bind. eapply law_data; [done|done|]. eapply (search_back_wp s p _ _ (Z.min pos (zlen l - 1))); [|lia|exact HQ].
    eapply decides_mono; [by eapply one_of_decides|lia].
  - apply wp_ret, HQ. right. split; [done|]. intros i Hi. case_bool_decide; [lia|].
    assert (n = []) as -> by (destruct n as [|c n]; [done|exfalso; apply Hin; unfold zlen; simpl; split; [done|lia]]). set_solver.
Qed.

Lemma find_last_not_of_wp s W a p l x q n pos (Q : Z -> Machine -> Prop) X :
  holds s W -> sees W a = Some (VStr p l) -> range W x q n -> 0 <= pos ->
  (forall r, found_last (fun i => char l i ∉ n) (Z.min pos (zlen l - 1)) r -> Q r s) -> wp (find_last_not_of a q pos (zlen n)) s Q X.
Proof.
  intros Hh Hv Hr Hpos HQ. pose proof (zlen_nonneg l).
  apply wp_bind, wp_bind. eapply law_size; [done|done|]. apply wp_ret. case_decide as Hin.
  - apply bool_decide_eq_false in Hin. apply wp_bind. eapply law_size; [done|done|].
    apply wp_bind. eapply law_data; [done|done|]. eapply (search_back_wp s p _ _ (Z.min pos (zlen l - 1))); [|lia|exact HQ].
    eapply decides_mono; [by eapply none_of_decides|lia].
  - apply wp_ret, HQ. right. split; [done|]. intros i Hi. case_bool_decide; [lia|done].
Qed.

(** ** Comparisons *)

Lemma compare_ptr_wp s W a p l pos n x q bs (Q : Z -> Machine -> Prop) (X : exn -> Machine -> Prop) :
  holds s W -> sees W a = Some (VStr p l) -> range W x q bs -> 0 <= pos -> 0 <= n ->
  (pos <= zlen l -> Q (lex (slice pos (Z.min n (zlen l - pos)) l) bs) s) -> (zlen l < pos -> X out_of_bounds s) ->
  wp (compare_ptr a pos n q (zlen bs)) s Q X.
Proof.
  intros Hh Hv Hr Hp Hn HQ HX. pose proof (zlen_nonneg bs). apply wp_bind. eapply law_size; [done|done|]. apply wp_bind.
  case_bool_decide as Hle; [apply wp_ret|apply wp_throw, HX; lia]. rewrite procrustes_min. cbv zeta.
  set (m := Z.min n (zlen l - pos)) in *. set (cs := slice pos m l) in *.
  assert (Hc : zlen cs = m) by (apply zlen_slice; lia). specialize (HQ ltac:(lia)).
  rewrite <- memcmp_lex, Hc in HQ. cbv zeta in HQ. set (k := Z.min m (zlen bs)) in *.
  assert (Hk1 : zlen (slice 0 k cs) = k) by (apply zlen_slice; lia).
  assert (Hk2 : zlen (slice 0 k bs) = k) by (apply zlen_slice; lia).
  apply wp_bind. eapply law_data; [done|done|]. apply wp_bind, wp_bind. rewrite <- Hk1 at 1.
  assert (Hr1 : range W a (pos + p) cs) by (rewrite (Z.add_comm pos); apply range_text; (done || lia)).
  eapply (law_load s W a); [done| |].
  { rewrite <- (slice_halves k (m - k) cs) in Hr1 by lia. by apply range_app in Hr1 as [? _]. }
  apply wp_bind. rewrite <- Hk2 at 1. eapply (law_load s W x); [done| |by apply wp_ret, wp_ret].
  rewrite <- (slice_halves k (zlen bs - k) bs) in Hr by lia. by apply range_app in Hr as [? _].
Qed.

Lemma str_compare_wp s W a p l x q m (Q : Z -> Machine -> Prop) X :
  holds s W -> sees W a = Some (VStr p l) -> sees W x = Some (VStr q m) -> Q (lex l m) s -> wp (str_compare a x) s Q X.
Proof.
  intros Hh Hv Hx HQ. pose proof (zlen_nonneg l). apply wp_bind. eapply law_size; [done|done|]. apply wp_bind. eapply law_data; [done|done|].
  apply wp_bind. eapply law_size; [done|done|]. eapply compare_ptr_wp; [done|done|by apply range_whole|lia|lia| |lia].
  intros _. by replace (Z.min (zlen l) (zlen l - 0)) with (zlen l) by lia; rewrite slice_full.
Qed.

Lemma str_eq_wp s W a p l x q m (Q : bool -> Machine -> Prop) X :
  holds s W -> sees W a = Some (VStr p l) -> sees W x = Some (VStr q m) -> Q (bool_decide (l = m)) s -> wp (str_eq a x) s Q X.
Proof.
  intros Hh Hv Hx HQ. apply wp_bind. eapply law_size; [done|done|]. apply wp_bind. eapply law_size; [done|done|].
  destruct (decide (zlen l = zlen m)) as [He|He]; [apply wp_bind; eapply str_compare_wp; [done|done|done|]|]; apply wp_ret.
  - erewrite bool_decide_ext; [exact HQ|apply lex_eq].
  - rewrite bool_decide_eq_false_2 in HQ; [done|congruence].
Qed.

Lemma str_lt_wp s W a p l x q m (Q : bool -> Machine -> Prop) X :
  holds s W -> sees W a = Some (VStr p l) -> sees W x = Some (VStr q m) -> Q (bool_decide (lex l m < 0)) s -> wp (str_lt a x) s Q X.
Proof. intros Hh Hv Hx HQ. apply wp_bind. eapply str_compare_wp; [done|done|done|]. by apply wp_ret. Qed.
End Search.
