(* ===== verification/FBStringSpec.v ===== *)
(** * FBString: strings are values

    The calls a client makes on strings, what each is to do to the texts, and
    the proof that [basic_fbstring] over [fbstring_core] does exactly that to
    the memory. *)

From stdpp Require Import base list gmap strings.
From S2P Require Import Prelude Bits FBStringMem FBStringCore FBStringInv FBStringStep FBStringLife FBStringInit FBStringResize FBStringModel FBString FBStringText FBStringReplace FBStringWhole FBStringSearch.

(** ** Calls *)

Inductive Call :=
  | New (a x pos n : Z)                     (* from the bytes of a buffer *)
  | NewFill (a n c : Z)
  | Copy (a x : Z)
  | Move (a g : Z)
  | Substr (x a pos n : Z)
  | Plus (a x y : Z)
  | Delete (a : Z)
  | Assign (a x : Z)
  | AssignSub (a x pos n : Z)
  | AssignMove (a g : Z)
  | AssignChar (a c : Z)
  | Append (a x : Z)
  | AppendBytes (a x pos n : Z)
  | AppendSub (a x pos n : Z)
  | AppendFill (a n c : Z)
  | PushBack (a c : Z)
  | PopBack (a : Z)
  | Insert (a pos1 x pos2 n : Z)
  | InsertFill (a pos n c : Z)
  | Erase (a pos n : Z)
  | Replace (a pos1 n1 x pos2 n2 : Z)
  | ReplaceFill (a pos n1 n2 c : Z)
  | Resize (a n c : Z)
  | Reserve (a m : Z)
  | ShrinkToFit (a : Z)
  | Swap (a b : Z).

Section Calls.
Context `{Platform} `{!fbstring_core_model}.
Implicit Types (s : Machine) (W : world).

Definition perform (c : Call) : Run unit :=
  match c with
  | New a x pos n => store_init a (x + pos) n
  | NewFill a n c => ctor_fill a n c
  | Copy a x => store_copy a x
  | Move a g => store_move a g
  | Substr x a pos n => str_substr x a pos n
  | Plus a x y => str_plus a x y
  | Delete a => store_dtor a
  | Assign a x => assign_copy a x
  | AssignSub a x pos n => assign_sub a x pos n
  | AssignMove a g => assign_move a g
  | AssignChar a c => assign_char a c
  | Append a x => str_append a x
  | AppendBytes a x pos n => append_ptr a (x + pos) n
  | AppendSub a x pos n => append_sub a x pos n
  | AppendFill a n c => append_fill a n c
  | PushBack a c => str_push_back a c
  | PopBack a => str_pop_back a
  | Insert a pos1 x pos2 n => insert_sub a pos1 x pos2 n
  | InsertFill a pos n c => insert_fill a pos n c
  | Erase a pos n => str_erase a pos n
  | Replace a pos1 n1 x pos2 n2 => replace_sub a pos1 n1 x pos2 n2
  | ReplaceFill a pos n1 n2 c => replace_fill a pos n1 n2 c
  | Resize a n c => str_resize a n c
  | Reserve a m => str_reserve a m
  | ShrinkToFit a => shrink_to_fit a
  | Swap a b => str_swap a b
  end.

(** ** What they are to do *)

Definition text W (a : Z) : option (list Z) := match sees W a with Some (VStr _ l) => Some l | _ => None end.
Definition buffer W (a : Z) : option (list Z) := match sees W a with Some (VRaw _ r) => Some r | _ => None end.

(** Room for a string object at [a]. *)
Definition room_at W (a : Z) : Prop := zlen <$> buffer W a = Some 24.

#[global] Instance room_at_dec W a : Decision (room_at W a).
Proof. unfold room_at. apply _. Defined.

(** What becomes of some objects: a string with that text, or room for one. *)
Abbreviation Update := (list (Z * option (list Z))).

Definition is_as (v : option View) (u : option (list Z)) : Prop :=
  match u, v with
  | Some l, Some (VStr _ l') => l' = l
  | None, Some (VRaw _ r) => zlen r = 24
  | _, _ => False
  end.

Definition updated W (us : Update) W' : Prop :=
  same (list_to_set us.*1) W W' /\ Forall (fun u => is_as (sees W' u.1) u.2) us.

(** The piece of [n] characters at [pos], cut at the end. *)
Definition piece (pos n : Z) (l : list Z) : list Z := slice pos (Z.min n (zlen l - pos)) l.
Definition fill (n c : Z) : list Z := replicate (Z.to_nat n) (u8 c).

(** The outcome of a call that gets the memory it asks for, the exceptions on a
    position out of range included; [None] outside the contract of the method. *)
Definition checked_range (P : Prop) `{Decision P} (us : Update) : option (Update + exn) :=
  Some (if decide P then inl us else inr out_of_bounds).

Definition outcome W (c : Call) : option (Update + exn) :=
  match c with
  | New a x pos n =>
      bs ← buffer W x;
      if decide (room_at W a /\ x <> a /\ 0 <= pos /\ 0 <= n /\ pos + n <= zlen bs /\ n < address_space)
      then Some (inl [(a, Some (slice pos n bs))]) else None
  | NewFill a n c => if decide (room_at W a /\ 0 <= n < address_space) then Some (inl [(a, Some (fill n c))]) else None
  | Copy a x => l ← text W x; if decide (room_at W a) then Some (inl [(a, Some l)]) else None
  | Move a g => l ← text W g; if decide (room_at W a) then Some (inl [(a, Some l); (g, Some [])]) else None
  | Substr x a pos n =>
      l ← text W x;
      if decide (room_at W a /\ 0 <= pos /\ 0 <= n)
      then checked_range (pos <= zlen l) [(a, Some (piece pos n l))] else None
  | Plus a x y =>
      l ← text W x; m ← text W y;
      if decide (room_at W a /\ zlen l + zlen m < address_space) then Some (inl [(a, Some (l ++ m))]) else None
  | Delete a => _ ← text W a; Some (inl [(a, None)])
  | Assign a x => _ ← text W a; m ← text W x; Some (inl [(a, Some m)])
  | AssignSub a x pos n =>
      _ ← text W a; m ← text W x;
      if decide (0 <= pos /\ 0 <= n) then checked_range (pos <= zlen m) [(a, Some (piece pos n m))] else None
  | AssignMove a g =>
      _ ← text W a; m ← text W g;
      if decide (g <> a) then Some (inl [(a, Some m); (g, Some [])]) else Some (inl [])
  | AssignChar a c => _ ← text W a; if decide (byte c) then Some (inl [(a, Some [c])]) else None
  | Append a x =>
      l ← text W a; m ← text W x;
      if decide (zlen l + zlen m < address_space) then Some (inl [(a, Some (l ++ m))]) else None
  | AppendBytes a x pos n =>
      l ← text W a; bs ← buffer W x;
      if decide (0 <= pos /\ 0 <= n /\ pos + n <= zlen bs /\ zlen l + n < address_space)
      then Some (inl [(a, Some (l ++ slice pos n bs))]) else None
  | AppendSub a x pos n =>
      l ← text W a; m ← text W x;
      if decide (0 <= pos /\ 0 <= n /\ zlen l + zlen m < address_space)
      then checked_range (pos <= zlen m) [(a, Some (l ++ piece pos n m))] else None
  | AppendFill a n c =>
      l ← text W a;
      if decide (0 <= n /\ zlen l + n < address_space) then Some (inl [(a, Some (l ++ fill n c))]) else None
  | PushBack a c =>
      l ← text W a;
      if decide (byte c /\ zlen l + 1 < address_space) then Some (inl [(a, Some (l ++ [c]))]) else None
  | PopBack a => l ← text W a; if decide (0 < zlen l) then Some (inl [(a, Some (slice 0 (zlen l - 1) l))]) else None
  | Insert a pos1 x pos2 n =>
      l ← text W a; m ← text W x;
      if decide (x <> a /\ 0 <= pos1 /\ 0 <= pos2 /\ 0 <= n /\ zlen l + zlen m < address_space)
      then checked_range (pos2 <= zlen m /\ pos1 <= zlen l) [(a, Some (replaced pos1 0 (piece pos2 n m) l))] else None
  | InsertFill a pos n c =>
      l ← text W a;
      if decide (0 <= pos /\ 0 <= n /\ zlen l + n < address_space)
      then checked_range (pos <= zlen l) [(a, Some (replaced pos 0 (fill n c) l))] else None
  | Erase a pos n =>
      l ← text W a;
      if decide (0 <= pos /\ 0 <= n)
      then checked_range (pos <= zlen l) [(a, Some (erased pos (Z.min n (zlen l - pos)) l))] else None
  | Replace a pos1 n1 x pos2 n2 =>
      l ← text W a; m ← text W x;
      if decide (0 <= pos1 /\ 0 <= n1 /\ 0 <= pos2 /\ 0 <= n2 /\ zlen l + zlen m < address_space)
      then checked_range (pos2 <= zlen m /\ pos1 <= zlen l)
             [(a, Some (replaced pos1 (Z.min n1 (zlen l - pos1)) (piece pos2 n2 m) l))] else None
  | ReplaceFill a pos n1 n2 c =>
      l ← text W a;
      if decide (0 <= pos /\ 0 <= n1 /\ 0 <= n2 /\ zlen l + n2 < address_space)
      then checked_range (pos <= zlen l) [(a, Some (replaced pos (Z.min n1 (zlen l - pos)) (fill n2 c) l))] else None
  | Resize a n c =>
      l ← text W a;
      if decide (0 <= n < address_space)
      then Some (inl [(a, Some (if decide (n <= zlen l) then slice 0 n l else l ++ fill (n - zlen l) c))]) else None
  | Reserve a m =>
      l ← text W a;
      if decide (0 <= m <= max_request /\ (FBSTRING_DISABLE_SSO = false \/ zlen l <= m)) then Some (inl [(a, Some l)]) else None
  | ShrinkToFit a => l ← text W a; Some (inl [(a, Some l)])
  | Swap a b =>
      l ← text W a; m ← text W b;
      if decide (a <> b) then Some (inl [(a, Some m); (b, Some l)]) else None
  end.

(** What is left when there is no memory: nothing has changed, with these
    exceptions. *)
Definition old W (a : Z) : Update := [(a, text W a)].

Definition left_over W (c : Call) : list Update :=
  match c with
  | Move _ _ | Delete _ | AssignMove _ _ | Swap _ _ => []   (* they need none *)
  | NewFill a _ _ | Plus a _ _ => [[(a, None)]]
  | Assign a _ | AssignSub a _ _ _ => [[]; [(a, Some [])]]
  | Insert a _ _ _ _ | InsertFill a _ _ _ => [old W a]
  | Replace a pos1 n1 x pos2 n2 =>
      match text W a, text W x with
      | Some l, Some m =>
          let n := Z.min n1 (zlen l - pos1) in
          [old W a; [(a, Some (overwrite pos1 (slice 0 n (piece pos2 n2 m)) l))]]
      | _, _ => []
      end
  | ReplaceFill a pos n1 n2 c =>
      match text W a with
      | Some l => [old W a; [(a, Some (overwrite pos (slice 0 (Z.min n1 (zlen l - pos)) (fill n2 c)) l))]]
      | None => []
      end
  | _ => [[]]
  end.
(** ** They do it *)

Definition ends W (us : Update) s' : Prop := exists W', holds s' W' /\ updated W us W'.

Definition returns W (r : Update + exn) (s' : Machine) : Prop := exists us, r = inl us /\ ends W us s'.
Definition unwinds W (c : Call) (r : Update + exn) (e : exn) (s' : Machine) : Prop :=
  exists us, ends W us s' /\ (r = inr e /\ us = [] \/ e = bad_alloc /\ us ∈ left_over W c).

Definition simulated s W (c : Call) : Prop :=
  forall r, outcome W c = Some r -> wp (perform c) s (fun _ s' => returns W r s') (unwinds W c r).

(** It throws what it is to throw, or [bad_alloc] because the allocator refused a
    request of this call. *)
Definition throws s W (c : Call) (r : Update + exn) (e : exn) (s' : Machine) : Prop :=
  exists us, ends W us s' /\
    (r = inr e /\ us = [] \/ e = bad_alloc /\ (refusals s < refusals s')%nat /\ us ∈ left_over W c).

Lemma perform_honest `{!honest_core} c : honest (perform c).
Proof. destruct c; cbn [perform]; honest_all. Qed.

Lemma simulated_throws `{!honest_core} s W c r :
  simulated s W c -> outcome W c = Some r -> wp (perform c) s (fun _ s' => returns W r s') (throws s W c r).
Proof.
  intros Hs Hr. specialize (Hs r Hr). pose proof (perform_honest c s) as Hh. unfold wp in *.
  destruct (perform c s) as [|e s'| |]; try done. destruct Hs as (us & He & Hus). destruct Hh as [_ Hh].
  exists us. split; [done|]. destruct Hus as [?|[-> ?]]; [by left|right]. destruct (Hh eq_refl) as [[]|]. by split_and!.
Qed.

Lemma text_sees W a l : text W a = Some l <-> exists p, sees W a = Some (VStr p l).
Proof. unfold text. destruct (sees W a) as [[]|]; naive_solver. Qed.

Lemma buffer_sees W a r : buffer W a = Some r <-> exists h, sees W a = Some (VRaw h r).
Proof. unfold buffer. destruct (sees W a) as [[]|]; naive_solver. Qed.

Lemma room_sees W a : room_at W a -> exists h r, sees W a = Some (VRaw h r) /\ zlen r = 24.
Proof.
  unfold room_at. destruct (buffer W a) as [r|] eqn:E; [|done]. intros [= Hl]. apply buffer_sees in E as [h Hh]. by exists h, r.
Qed.

Lemma range_buffer W x h bs pos n :
  sees W x = Some (VRaw h bs) -> 0 <= pos -> 0 <= n -> pos + n <= zlen bs -> range W x (x + pos) (slice pos n bs).
Proof. intros Hv Hp Hn Hle. exists (VRaw h bs), pos. simpl. by rewrite zlen_slice by lia. Qed.

Lemma ends_one W W' a p l s' : holds s' W' -> same {[a]} W W' -> sees W' a = Some (VStr p l) -> ends W [(a, Some l)] s'.
Proof.
  intros Hh HS Hv. exists W'. split; [done|]. split.
  - simpl. by rewrite (right_id_L ∅ (∪)).
  - constructor; [|constructor]. simpl. by rewrite Hv.
Qed.

Lemma ends_turns W a l s' : turns a W l s' -> ends W [(a, Some l)] s'.
Proof. intros (W' & p & Hh & HS & Hv). by eapply ends_one. Qed.

Lemma ends_two W W' a b p l q m s' :
  holds s' W' -> same {[a; b]} W W' -> sees W' a = Some (VStr p l) -> sees W' b = Some (VStr q m) ->
  ends W [(a, Some l); (b, Some m)] s'.
Proof.
  intros Hh HS Ha Hb. exists W'. split; [done|]. split.
  - simpl. by rewrite (right_id_L ∅ (∪)).
  - do 2 (constructor; [simpl; by rewrite ?Ha, ?Hb|]). constructor.
Qed.

Lemma ends_untouched W s' : untouched W s' -> ends W [] s'.
Proof. intros (W' & Hh & HS). exists W'. split; [done|]. by split. Qed.

Lemma ends_same W s : holds s W -> ends W [] s.
Proof. intros Hh. exists W. split; [done|]. split; [apply same_refl|done]. Qed.

Lemma ends_unborn W a s' : unborn a W s' -> ends W [(a, None)] s'.
Proof.
  intros (W' & r & Hh & HS & Hv & Hl). exists W'. split; [done|]. split.
  - simpl. by rewrite (right_id_L ∅ (∪)).
  - constructor; [|constructor]. simpl. by rewrite Hv.
Qed.

Lemma returns_one W a l s' : turns a W l s' -> returns W (inl [(a, Some l)]) s'.
Proof. intros Ht. exists [(a, Some l)]. split; [done|]. by apply ends_turns. Qed.

Lemma throws_untouched W c r s' : [] ∈ left_over W c -> untouched W s' -> unwinds W c r bad_alloc s'.
Proof. intros Hl Hu. exists []. split; [by apply ends_untouched|by right]. Qed.

Lemma throws_left W c r us s' : us ∈ left_over W c -> ends W us s' -> unwinds W c r bad_alloc s'.
Proof. intros Hl He. exists us. split; [done|by right]. Qed.

Lemma throws_range W c s : holds s W -> unwinds W c (inr out_of_bounds) out_of_bounds s.
Proof. intros Hh. exists []. split; [by apply ends_same|by left]. Qed.

(** A call that checks a position. *)
Lemma range_true P `{Decision P} us r : checked_range P us = Some r -> P -> r = inl us.
Proof. unfold checked_range. intros [= <-] HP. by rewrite decide_True. Qed.

Lemma range_false P `{Decision P} us r : checked_range P us = Some r -> ~ P -> r = inr out_of_bounds.
Proof. unfold checked_range. intros [= <-] HP. by rewrite decide_False. Qed.

(** What a defined outcome says of the objects. *)
Local Ltac open_call :=
  intros r Hr; cbn [outcome perform] in *;
  repeat match type of Hr with
  | _ ≫= _ = Some _ => apply bind_Some in Hr as (? & ? & Hr)
  | (if decide ?P then _ else None) = Some _ => destruct (decide P); [|discriminate Hr]
  | Some _ = Some _ => injection Hr as <-
  end; destruct_and?;
  repeat match goal with
  | E : text _ _ = Some _ |- _ => apply text_sees in E as [? E]
  | E : buffer _ _ = Some _ |- _ => apply buffer_sees in E as [? E]
  | E : room_at _ _ |- _ => apply room_sees in E as (? & ? & E & ?)
  end.

(** No memory, and nothing has changed. *)
Local Ltac unharmed := by intros; apply throws_untouched; [by left|].

Context s W (Hh : holds s W).

(** Sources that are buffers. *)
Lemma init_piece_wp a h r x h' bs pos n (Q : unit -> Machine -> Prop) (X : exn -> Machine -> Prop) :
  sees W a = Some (VRaw h r) -> zlen r = 24 -> sees W x = Some (VRaw h' bs) -> x <> a ->
  0 <= pos -> 0 <= n -> pos + n <= zlen bs -> n < address_space ->
  (forall s', turns a W (slice pos n bs) s' -> Q tt s') -> (forall s', untouched W s' -> X bad_alloc s') ->
  wp (store_init a (x + pos) n) s Q X.
Proof.
  intros Ha Hl Hx Hne Hp Hn Hle Hm HQ HX. assert (Hz : zlen (slice pos n bs) = n) by (apply zlen_slice; lia).
  rewrite <- Hz. eapply (law_init s W x); [done|by eapply range_buffer|done|done|done|lia| |done].
  intros s' W' p' Hh' HS Hv _. apply HQ. by exists W', p'.
Qed.

Lemma append_piece_wp a p l x h bs pos n (Q : unit -> Machine -> Prop) (X : exn -> Machine -> Prop) :
  sees W a = Some (VStr p l) -> sees W x = Some (VRaw h bs) -> 0 <= pos -> 0 <= n -> pos + n <= zlen bs -> zlen l + n < address_space ->
  (forall s', turns a W (l ++ slice pos n bs) s' -> Q tt s') -> (forall s', untouched W s' -> X bad_alloc s') ->
  wp (append_ptr a (x + pos) n) s Q X.
Proof.
  intros Ha Hx Hp Hn Hle Hm HQ HX. assert (Hz : zlen (slice pos n bs) = n) by (apply zlen_slice; lia).
  rewrite <- Hz. eapply append_ptr_wp; [done|done|by eapply range_buffer|lia|done|done].
Qed.

(** *** Construction and destruction *)

Lemma new_simulated a x pos n : simulated s W (New a x pos n).
Proof. open_call. eapply init_piece_wp; try done; [apply returns_one|unharmed]. Qed.

Lemma new_fill_simulated a n c : simulated s W (NewFill a n c).
Proof.
  open_call. eapply ctor_fill_wp; try done.
  - intros s' (W' & p & Hh' & HS & Hv & _). apply returns_one. by exists W', p.
  - intros s' Hu. eapply throws_left; [|by apply ends_unborn]. by left.
Qed.

Lemma copy_simulated a x : few W -> simulated s W (Copy a x).
Proof.
  intros Hfew. open_call. eapply law_copy; try done; [|unharmed].
  intros s' W' p Hh' HS Hv. apply returns_one. by exists W', p.
Qed.

Lemma move_simulated a g : simulated s W (Move a g).
Proof.
  open_call. eapply law_move; try done. intros s' W' p q Hh' HS Ha Hg _. eexists. split; [done|]. by eapply ends_two.
Qed.

Lemma substr_simulated x a pos n : simulated s W (Substr x a pos n).
Proof.
  open_call. eapply str_substr_wp; try done; [| |unharmed].
  - intros s' Hle (W' & p & Hh' & HS & Hv & _). rewrite (range_true _ _ r Hr Hle). apply returns_one. by exists W', p.
  - intros Hgt. rewrite (range_false _ _ r Hr) by lia. by apply throws_range.
Qed.

Lemma plus_simulated a x y : simulated s W (Plus a x y).
Proof.
  open_call. eapply str_plus_wp; try done; [apply returns_one|].
  intros s' Hu. eapply throws_left; [|by apply ends_unborn]. by left.
Qed.

Lemma delete_simulated a : simulated s W (Delete a).
Proof.
  open_call. eapply law_dtor; [done|done|]. intros s' W' bs Hh' HS Hv Hl _. eexists. split; [done|].
  apply ends_unborn. by exists W', bs.
Qed.

(** *** Assignment *)

Lemma throws_reset c r a s' : left_over W c = [[]; [(a, Some [])]] -> reset_or_untouched a W s' -> unwinds W c r bad_alloc s'.
Proof.
  intros E [Hu|Ht]; [eapply (throws_left W c r []); [|by apply ends_untouched]|eapply throws_left; [|by apply ends_turns]];
    rewrite E; set_solver.
Qed.

Lemma assign_simulated a x : simulated s W (Assign a x).
Proof. open_call. eapply assign_copy_wp; try done; [apply returns_one|]. intros s' Hr. by eapply throws_reset. Qed.

Lemma assign_sub_simulated a x pos n : simulated s W (AssignSub a x pos n).
Proof.
  open_call. eapply assign_sub_wp; try done.
  - intros s' Hle Ht. rewrite (range_true _ _ r Hr Hle). by apply returns_one.
  - intros Hgt. rewrite (range_false _ _ r Hr) by lia. by apply throws_range.
  - intros s' Hre. by eapply throws_reset.
Qed.

Lemma assign_move_simulated a g : simulated s W (AssignMove a g).
Proof.
  open_call. destruct (decide (g <> a)) as [Hne|Heq%dec_stable]; injection Hr as <-.
  - eapply assign_move_wp; try done. intros s' W' p q Hh' HS Ha Hg. eexists. split; [done|]. by eapply ends_two.
  - unfold assign_move. rewrite decide_True by done. apply wp_ret. eexists. split; [done|]. by apply ends_same.
Qed.

Lemma assign_char_simulated a c : simulated s W (AssignChar a c).
Proof. open_call. eapply assign_char_wp; try done; [apply returns_one|unharmed]. Qed.

Lemma swap_simulated a b : simulated s W (Swap a b).
Proof.
  open_call. eapply law_swap; try done. intros s' W' p q Hh' HS Ha Hb _ _. eexists. split; [done|]. by eapply ends_two.
Qed.

(** *** Growth *)

Lemma append_simulated a x : simulated s W (Append a x).
Proof. open_call. eapply str_append_wp; try done; [apply returns_one|unharmed]. Qed.

Lemma append_bytes_simulated a x pos n : simulated s W (AppendBytes a x pos n).
Proof. open_call. eapply append_piece_wp; try done; [apply returns_one|unharmed]. Qed.

Lemma append_sub_simulated a x pos n : simulated s W (AppendSub a x pos n).
Proof.
  open_call. eapply append_sub_wp; try done; [| |unharmed].
  - intros s' Hle Ht. rewrite (range_true _ _ r Hr Hle). by apply returns_one.
  - intros Hgt. rewrite (range_false _ _ r Hr) by lia. by apply throws_range.
Qed.

Lemma append_fill_simulated a n c : simulated s W (AppendFill a n c).
Proof. open_call. eapply append_fill_wp; try done; [apply returns_one|unharmed]. Qed.

Lemma push_back_simulated a c : simulated s W (PushBack a c).
Proof.
  open_call. eapply law_push_back; try done; [|unharmed].
  intros s' W' p Hh' HS Hv _. apply returns_one. by exists W', p.
Qed.

Lemma pop_back_simulated a : simulated s W (PopBack a).
Proof.
  open_call. apply wp_bind, wp_bind. eapply law_size; [done|done|]. apply wp_ret.
  apply wp_bind, wp_assert; [rewrite bool_decide_eq_false_2; [done|lia]|].
  eapply law_shrink; [done|done|lia| |unharmed]. intros s' W' p Hh' HS Hv _ _. apply returns_one. by exists W', p.
Qed.

Lemma resize_simulated a n c : simulated s W (Resize a n c).
Proof.
  open_call. all: eapply resize_wp; try done; [|unharmed].
  all: intros s' W' p Hh' HS Hv _; apply returns_one; by exists W', p.
Qed.

Lemma reserve_simulated a m : simulated s W (Reserve a m).
Proof.
  open_call. apply wp_bind. rewrite bool_decide_eq_true_2 by (unfold max_size, max_request, address_space in *; lia). apply wp_ret.
  eapply law_reserve; try done; [|unharmed]. intros s' W' p Hh' HS Hv _ _. apply returns_one. by exists W', p.
Qed.

Lemma shrink_to_fit_simulated a : simulated s W (ShrinkToFit a).
Proof. open_call. eapply shrink_to_fit_wp; try done; [apply returns_one|unharmed]. Qed.

(** *** Edits *)

Lemma erase_simulated a pos n : simulated s W (Erase a pos n).
Proof.
  open_call. eapply erase_wp; try done.
  - intros s' W' p Hle Hh' HS Hv _. rewrite (range_true _ _ r Hr Hle). apply returns_one. by exists W', p.
  - intros Hgt. rewrite (range_false _ _ r Hr) by lia. by apply throws_range.
  - intros _. unharmed.
Qed.

Lemma old_text a p l : sees W a = Some (VStr p l) -> old W a = [(a, Some l)].
Proof. unfold old, text. by intros ->. Qed.

Lemma throws_old c r a p l s' :
  sees W a = Some (VStr p l) -> old W a ∈ left_over W c -> turns a W l s' -> unwinds W c r bad_alloc s'.
Proof. intros Hv Hl Ht. eapply throws_left; [exact Hl|]. rewrite (old_text a p l Hv). by apply ends_turns. Qed.

Lemma insert_simulated a pos1 x pos2 n : simulated s W (Insert a pos1 x pos2 n).
Proof.
  open_call. eapply insert_sub_wp; try done.
  - intros s' Hle Hle1 Ht. rewrite (range_true _ _ r Hr) by done. by apply returns_one.
  - intros Hgt. rewrite (range_false _ _ r Hr) by lia. by apply throws_range.
  - intros s' Ht. eapply (throws_old _ _ a); [done| |done]. by left.
Qed.

Lemma insert_fill_simulated a pos n c : simulated s W (InsertFill a pos n c).
Proof.
  open_call. eapply insert_fill_wp; try done.
  - intros s' Hle Ht. rewrite (range_true _ _ r Hr) by done. by apply returns_one.
  - intros Hgt. rewrite (range_false _ _ r Hr) by lia. by apply throws_range.
  - intros s' Ht. eapply (throws_old _ _ a); [done| |done]. by left.
Qed.

Lemma throws_replaced c r a p l pos n bs s' :
  sees W a = Some (VStr p l) -> left_over W c = [old W a; [(a, Some (overwrite pos (slice 0 n bs) l))]] ->
  replace_failed a W pos n bs l s' -> unwinds W c r bad_alloc s'.
Proof.
  intros Hv E [Ht|[_ Ht]]; [eapply throws_old; [done| |done]|eapply throws_left; [|by apply ends_turns]]; rewrite E; set_solver.
Qed.

Lemma replace_simulated a pos1 n1 x pos2 n2 : simulated s W (Replace a pos1 n1 x pos2 n2).
Proof.
  open_call. rename select (sees W a = _) into Ha. rename select (sees W x = _) into Hx. eapply replace_sub_wp; try done.
  - intros s' Hle Hle1 Ht. rewrite (range_true _ _ r Hr) by done. by apply returns_one.
  - intros Hgt. rewrite (range_false _ _ r Hr) by lia. by apply throws_range.
  - intros s' Hf. eapply throws_replaced; [exact Ha| |exact Hf]. cbn [left_over]. unfold text at 1 2. by rewrite Ha, Hx.
Qed.

Lemma replace_fill_simulated a pos n1 n2 c : simulated s W (ReplaceFill a pos n1 n2 c).
Proof.
  open_call. rename select (sees W a = _) into Ha. eapply replace_fill_wp; try done.
  - intros s' Hle Ht. rewrite (range_true _ _ r Hr) by done. by apply returns_one.
  - intros Hgt. rewrite (range_false _ _ r Hr) by lia. by apply throws_range.
  - intros s' Hf. eapply throws_replaced; [exact Ha| |exact Hf]. cbn [left_over]. unfold text at 1. by rewrite Ha.
Qed.
End Calls.
