(* ===== verification/FBStringProps.v ===== *)
(** * FBString: the theorems

    [basic_fbstring] over [fbstring_core], on the memory of [FBStringMem]: calls
    refine operations on texts, nothing leaks, the layout of an object, the
    searches and the comparisons. *)

From stdpp Require Import base list gmap strings.
From S2P Require Import Prelude Bits FBStringMem FBStringCore FBStringInv FBStringStep FBStringLife FBStringInit FBStringResize FBStringModel FBString FBStringText FBStringReplace FBStringWhole FBStringSearch FBStringSpec.

(** ** A memory of buffers and small strings *)

Definition clear_of (b : Z) (bs : list Z) (b' : Z) (bs' : list Z) : Prop :=
  b = b' \/ b + zlen bs <= b' \/ b' + zlen bs' <= b.

Definition region_ok (m : gmap Z (list Z)) (b : Z) (bs : list Z) : Prop :=
  map_Forall (clear_of b bs) m /\ Forall byte bs /\ b + zlen bs <= address_space /\ (0 < b \/ b + zlen bs < 0).

Definition plain_cell (m : gmap Z (list Z)) (b : Z) (c : Cell) : Prop :=
  match c, m !! b with
  | Small l, Some bs => small_rep bs l
  | Raw false r, Some bs => bs = r
  | _, _ => False
  end.

Definition start (m : gmap Z (list Z)) : Machine := mkMachine m ∅ 0 0.

#[global] Instance region_ok_dec m b bs : Decision (region_ok m b bs).
Proof. unfold region_ok, clear_of. apply _. Defined.

#[global] Instance plain_cell_dec m b c : Decision (plain_cell m b c).
Proof. unfold plain_cell, small_rep. destruct c as [| | |[]], (m !! b); apply _. Defined.

Lemma start_inv m G : map_Forall (region_ok m) m -> map_Forall (plain_cell m) G -> inv (start m) G.
Proof.
  intros Hm HG. split.
  - split; simpl; try (intros b bs Hb; by apply (Hm b bs Hb)).
    + intros b bs b' bs' Hb Hb' Hne. destruct (Hm b bs Hb) as [Hc _]. by destruct (Hc b' bs' Hb') as [?|[?|?]]; auto.
    + intros b Hb. set_solver.
  - intros b c Hc. specialize (HG b c Hc). unfold plain_cell in HG. simpl.
    destruct c as [l| | |[] r], (m !! b) as [bs|]; try done; exists bs; (split; [done|]); [done|]. by split.
  - intros b Hb. set_solver.
Qed.

Section Props.
Context `{Platform}.
Implicit Types (s : Machine) (G : Ghost).

(** Every allocation is the characters of a string, or the client's. *)
Lemma heap_accounted s G b :
  inv s G -> b ∈ heap s -> (forall a p l, view G a <> Some (VStr p l)) -> exists h bs, view G b = Some (VRaw h bs).
Proof.
  intros Hi Hb Hno. destruct (inv_heap s G Hi b Hb) as [c Hc]. destruct c as [l|b'|k cap l|h bs].
  - destruct (Hno b b l). unfold view. by rewrite Hc.
  - destruct (inv_cells s G Hi b _ Hc) as (bs & _ & k & cap & l & Hk & _). destruct (Hno b (b' + hdr k) l). unfold view. by rewrite Hc, Hk.
  - destruct (inv_cells s G Hi b _ Hc) as (bs & _ & _ & _ & Hn).
    assert (Hpos : (0 < mcount (is_ref b) G)%nat) by (unfold counted, nrefs in Hn; destruct k; lia).
    destruct (mcount_witness (is_ref b) G Hpos) as (a & v & Ha & E). unfold is_ref in E. simpl in E. subst v.
    destruct (Hno a (b + hdr k) l). unfold view. by rewrite Ha, Hc.
  - exists h, bs. unfold view. by rewrite Hc.
Qed.

Definition destroy_all (objs : list Z) : Run unit := foldr (fun a K => core_dtor a;; K) (mret tt) objs.

Lemma destroy_all_wp objs s G (Q : unit -> Machine -> Prop) X :
  inv s G -> NoDup objs -> (forall a, a ∈ objs -> exists p l, view G a = Some (VStr p l)) ->
  (forall s' G', inv s' G' -> frame (list_to_set objs) G G' ->
     (forall a, a ∈ objs -> exists bs, view G' a = Some (VRaw false bs)) -> Q tt s') ->
  wp (destroy_all objs) s Q X.
Proof.
  revert s G. induction objs as [|a objs IH]; intros s G Hi Hnd Hs HQ.
  - apply wp_ret. eapply HQ; [done|by intros ?|]. set_solver.
  - apply NoDup_cons in Hnd as [Ha Hnd]. destruct (Hs a) as (p & l & Hv); [by left|].
    apply wp_bind. eapply core_dtor_views; [done|done|]. intros s1 G1 bs Hi1 HF1 Hv1 _ _.
    eapply (IH s1 G1); [done|done|..].
    + intros x Hx. rewrite HF1; [|by apply not_elem_of_singleton; intros ->]. apply Hs. by right.
    + intros s2 G2 Hi2 HF2 Hv2. apply (HQ s2 G2); [done|..].
      * intros y Hy. rewrite HF2, HF1; [done|set_solver..].
      * intros x [->|Hx]%elem_of_cons; [|by apply Hv2]. exists bs. rewrite HF2; [done|]. by rewrite elem_of_list_to_set.
Qed.

(** C1: strings are values. Whatever the memory holds - small, medium and
    large strings, in objects that share their characters or not - each of the
    calls of a client (the constructors, the copy and the move, assignment,
    [append], [push_back], [insert], [erase], [replace], [resize], [reserve],
    [shrink_to_fit], [swap], [substr], [operator+] and the destructor), within
    its contract (texts that fit the address space, no [insert] of the string
    into itself), has exactly the outcome that [outcome] defines on texts: the
    named objects get those texts, every other object and buffer is seen unchanged, and a
    position out of range is thrown with nothing changed. [bad_alloc] is thrown
    only when the allocator has refused a request during this call, never by the
    destructor, the moves and [swap], with nothing changed but for what [assign]
    and [replace] leave ([left_over]). The memory is well formed again on every
    way out, and no call faults. The source of [append], [assign] and [replace]
    may be the string itself; [copy] needs fewer than [2^62] regions. *)
Theorem calls_refine_texts s G c r :
  inv s G -> outcome G c = Some r -> (forall a x, c = Copy a x -> countable G) ->
  wp (perform c) s (fun _ s' => returns G r s') (throws s G c r).
Proof.
  intros Hi Hr Hc. apply simulated_throws; [|done].
  destruct c; eauto using new_simulated, new_fill_simulated, copy_simulated, move_simulated, substr_simulated, plus_simulated,
    delete_simulated, assign_simulated, assign_sub_simulated, assign_move_simulated, assign_char_simulated, swap_simulated.
  all: eauto using append_simulated, append_bytes_simulated, append_sub_simulated, append_fill_simulated, push_back_simulated,
    pop_back_simulated, resize_simulated, reserve_simulated, shrink_to_fit_simulated, erase_simulated, insert_simulated,
    insert_fill_simulated, replace_simulated, replace_fill_simulated.
  eapply copy_simulated; [done|]. by eapply Hc.
Qed.

(** C20: nothing leaks and nothing is freed twice. When every string there is
    has been destroyed, in any order, shared or not, the destructors have not
    faulted or thrown, and all that is left on the heap are regions of the
    client: the room of an object, or a buffer that was there before. *)
Theorem destructors_free_all s G objs :
  inv s G -> NoDup objs -> (forall a, a ∈ objs <-> exists p l, view G a = Some (VStr p l)) ->
  wp (destroy_all objs) s
    (fun _ s' => (exists G', inv s' G' /\ frame (list_to_set objs) G G') /\
       forall b, b ∈ heap s' -> b ∈ objs \/ exists h bs, view G b = Some (VRaw h bs))
    (fun _ _ => False).
Proof.
  intros Hi Hnd Hs. eapply destroy_all_wp; [done|done|apply Hs|]. intros s' G' Hi' HF Hv. split; [by exists G'|].
  assert (Hno : forall a p l, view G' a <> Some (VStr p l)).
  { intros a p l Ha. destruct (decide (a ∈ objs)) as [Hin|Hout]; [destruct (Hv a Hin) as [bs Hb]; congruence|].
    apply Hout, Hs. exists p, l. rewrite <- Ha. symmetry. apply HF. by rewrite elem_of_list_to_set. }
  intros b Hb. destruct (decide (b ∈ objs)) as [|Hout]; [by left|right].
  destruct (heap_accounted s' G' b Hi' Hb Hno) as (h & bs & E). exists h, bs. rewrite <- E. symmetry.
  apply HF. by rewrite elem_of_list_to_set.
Qed.

(** The characters of an allocation are not in the object. *)
Lemma ml_apart s G a b k cap l blk : inv s G -> is_ml s G a b k cap l blk -> b + hdr k <> a.
Proof.
  intros Hi Hml E. destruct (ml_rep _ _ _ _ _ _ _ _ Hml) as [Hsz Hroom _]. destruct (ml_bounds _ _ _ _ _ _ _ _ Hml) as (_ & Hl & _).
  assert (Hne : a <> b) by (intros ->; pose proof (ml_obj _ _ _ _ _ _ _ _ Hml); pose proof (ml_blk _ _ _ _ _ _ _ _ Hml); congruence).
  pose proof (ok_disjoint s (inv_mem _ _ Hi) _ _ _ _ (ml_words _ _ _ _ _ _ _ _ Hml) (ml_mem _ _ _ _ _ _ _ _ Hml) Hne) as Hd.
  rewrite zlen_words in Hd. assert (0 <= hdr k) by by destruct k. lia.
Qed.

(** What the observers of the core answer. *)
Record Layout := mkLayout { lay_size : Z; lay_data : Z; lay_capacity : Z; lay_category : Z; lay_shared : bool; lay_text : list Z }.

Definition observe (a : Z) : Run Layout :=
  n ← size a; d ← c_str a; c ← fbcore_capacity a; k ← category a; sh ← fbcore_isShared a; bs ← load_bytes d (n + 1);
  mret (mkLayout n d c k sh bs).

(** C29: the type of a string object. In a well-formed memory the bytes of an
    object decode to exactly one of the three categories: small, with the
    characters in the object itself and at most [maxSmallSize] of them; medium,
    with an allocation of its own; or large. [size], [c_str] and [capacity]
    agree with each other, with a terminator after the characters, and
    [isShared] holds exactly when another object has the same characters, which
    only happens in the large category. *)
Theorem object_layout s G a p l :
  inv s G -> view G a = Some (VStr p l) ->
  wp (observe a) s
    (fun o s' => s' = s /\ lay_size o = zlen l /\ lay_data o = p /\ lay_text o = l ++ [0] /\
       zlen l <= lay_capacity o < address_space /\
       (lay_category o = isSmall /\ p = a /\ zlen l <= maxSmallSize \/
        lay_category o = isMedium /\ p <> a \/ lay_category o = isLarge /\ p <> a) /\
       (lay_shared o = true <-> exists y, y <> a /\ view G y = Some (VStr p l)) /\
       (lay_shared o = true -> lay_category o = isLarge))
    (fun _ _ => False).
Proof.
  intros Hi Hv. pose proof (zlen_nonneg l). apply wp_bind. eapply size_wp; [done|done|].
  apply wp_bind. eapply data_wp; [done|done|]. apply wp_bind. eapply core_capacity; [done|done|]. intros c _ _ Hc.
  assert (Hsh : bool_decide (~ exclusive G a) = true <-> exists y, y <> a /\ view G y = Some (VStr p l)).
  { rewrite bool_decide_eq_true. split; [by eapply core_shared|].
    intros (y & Hne & Hy) He. by eapply (core_pointer s G a p l y). }
  assert (Hload : forall (K : list Z -> Run Layout) Q X, wp (K (l ++ [0])) s Q X -> wp (bs ← load_bytes p (zlen l + 1); K bs) s Q X).
  { intros K Q X HK. apply wp_bind. rewrite <- (Z.add_0_r p). eapply text_load_wp; [done|done|lia|lia|lia|].
    rewrite slice_all; [done|]. by rewrite zlen_app. }
  apply wp_bind. destruct (view_cases s G a p l Hi Hv) as [(Hp & d & n & w & Hs)|(b & k & cap & blk & Hp & Hml)].
  - eapply small_category_wp; [apply Hi|done|]. apply wp_bind. eapply core_isShared; [done|done|]. apply Hload, wp_ret. simpl.
    pose proof (small_len _ _ _ _ _ _ _ Hs). split_and!; try done; [lia|lia| |].
    + left. split_and!; [done|done|]. unfold maxSmallSize, lastChar. lia.
    + intros [y [Hne Hy]]%Hsh. exfalso. eapply (core_pointer s G a p l y); try done. unfold exclusive. by rewrite (sm_obj _ _ _ _ _ _ _ Hs).
  - eapply ml_category_wp; [apply Hi|done|]. apply wp_bind. eapply core_isShared; [done|done|]. apply Hload, wp_ret. simpl.
    pose proof (ml_apart _ _ _ _ _ _ _ _ Hi Hml) as Hpa. rewrite <- Hp in Hpa.
    split_and!; try done; [lia|lia| |].
    + destruct k; [by right; left|by right; right].
    + intros He%bool_decide_eq_true. destruct k; [|done]. exfalso. apply He. unfold exclusive.
      rewrite (ml_obj _ _ _ _ _ _ _ _ Hml).
      destruct (inv_cells s G Hi b _ (ml_blk _ _ _ _ _ _ _ _ Hml)) as (bs & _ & _ & _ & Hn). exact Hn.
Qed.
(** C21: the searches are exact. [find], with its skip table of one character,
    returns the first position from [pos] on where the needle occurs, and
    [rfind] the last one up to [pos]; [find_first_of], [find_first_not_of],
    [find_last_of] and [find_last_not_of] the first or the last character that
    is in the set, or is not; all return [npos] exactly when there is none. The
    empty needle, a needle longer than the text, positions past the end and a
    needle inside the text itself are included. They end, and read nothing
    outside the text and the needle. *)
Theorem searches_exact s G a p l x q n pos :
  inv s G -> view G a = Some (VStr p l) -> core_range G x q n -> zlen n < 2 ^ 64 -> 0 <= pos < 2 ^ 64 ->
  let exact (op : Run Z) (good : Z -> Prop) := wp op s (fun r s' => s' = s /\ good r) (fun _ _ => False) in
  exact (str_find a q pos (zlen n)) (found_first (occurs l n) pos (zlen l - zlen n + 1)) /\
  exact (str_rfind a q pos (zlen n)) (found_last (occurs l n) (Z.min pos (zlen l - zlen n))) /\
  exact (find_first_of a q pos (zlen n)) (found_first (fun i => char l i ∈ n) pos (zlen l)) /\
  exact (find_first_not_of a q pos (zlen n)) (found_first (fun i => char l i ∉ n) pos (zlen l)) /\
  exact (find_last_of a q pos (zlen n)) (found_last (fun i => char l i ∈ n) (Z.min pos (zlen l - 1))) /\
  exact (find_last_not_of a q pos (zlen n)) (found_last (fun i => char l i ∉ n) (Z.min pos (zlen l - 1))).
Proof.
  intros Hi Hv Hr Hn Hpos exact. unfold exact. split_and!.
  - eapply str_find_wp; [exact Hi|exact Hv|exact Hr|done|done|]. by intros r.
  - eapply str_rfind_wp; [exact Hi|exact Hv|exact Hr|lia|]. by intros r.
  - eapply find_first_of_wp; [exact Hi|exact Hv|exact Hr|lia|]. by intros r.
  - eapply find_first_not_of_wp; [exact Hi|exact Hv|exact Hr|lia|]. by intros r.
  - eapply find_last_of_wp; [exact Hi|exact Hv|exact Hr|lia|]. by intros r.
  - eapply find_last_not_of_wp; [exact Hi|exact Hv|exact Hr|lia|]. by intros r.
Qed.

(** All the comparisons of two strings. *)
Definition compare_all (a x : Z) : Run (Z * bool * bool * bool * bool * bool * bool) :=
  r ← str_compare a x; lt ← str_lt a x; gt ← str_gt a x; eq ← str_eq a x; ne ← str_ne a x; le ← str_le a x; ge ← str_ge a x;
  mret (r, lt, gt, eq, ne, le, ge).

(** The comparisons are the lexicographic order of the texts, as bytes.
    [compare] returns its sign, [==] holds exactly of equal texts, exactly one
    of [<], [>] and [==] holds, and [!=], [<=] and [>=] are their complements;
    the order does not depend on how the strings are stored, and nothing is
    written. *)
Lemma comparisons_lexicographic s G a p l x q m :
  inv s G -> view G a = Some (VStr p l) -> view G x = Some (VStr q m) ->
  wp (compare_all a x) s
    (fun '(r, lt, gt, eq, ne, le, ge) s' => s' = s /\ r = lex l m /\
       eq = bool_decide (l = m) /\ lt = bool_decide (lex l m < 0) /\ gt = bool_decide (lex m l < 0) /\
       ne = negb eq /\ le = negb gt /\ ge = negb lt /\
       (lt = true /\ gt = false /\ eq = false \/ lt = false /\ gt = true /\ eq = false \/ lt = false /\ gt = false /\ eq = true))
    (fun _ _ => False).
Proof.
  intros Hi Hv Hx.
  apply wp_bind. eapply str_compare_wp; [exact Hi|exact Hv|exact Hx|]. apply wp_bind. eapply str_lt_wp; [exact Hi|exact Hv|exact Hx|].
  apply wp_bind. eapply str_lt_wp; [exact Hi|exact Hx|exact Hv|]. apply wp_bind. eapply str_eq_wp; [exact Hi|exact Hv|exact Hx|].
  apply wp_bind, wp_bind. eapply str_eq_wp; [exact Hi|exact Hv|exact Hx|]. apply wp_ret.
  apply wp_bind, wp_bind. eapply str_lt_wp; [exact Hi|exact Hx|exact Hv|]. apply wp_ret.
  apply wp_bind, wp_bind. eapply str_lt_wp; [exact Hi|exact Hv|exact Hx|]. apply wp_ret, wp_ret.
  pose proof (lex_eq l m) as He. pose proof (lex_flip l m) as Hf.
  split_and!; try done. repeat case_bool_decide; try (exfalso; naive_solver lia); naive_solver.
Qed.
End Props.

(** ** A sample *)

Definition sample_platform_good n : 0 < n <= 2 * address_space -> n <= n < 2 ^ 62.
Proof. unfold address_space. lia. Qed.

Definition sample_platform : Platform := {|
  place n := 4096 + 4096 * Z.of_nat n; noise _ _ := 170; usingJEMalloc := false; nallocx n := n;
  FBSTRING_DISABLE_SSO := false; FBSTRING_SANITIZE_ADDRESS := false; nallocx_good := sample_platform_good |}.

(** Two small strings, [abcab] and [abd], room for another and a buffer. *)
Definition small_object (l : list Z) : list Z := l ++ replicate (23 - length l)%nat 0 ++ [maxSmallSize - zlen l].

Definition sample_mem : gmap Z (list Z) :=
  {[1000 := small_object [97; 98; 99; 97; 98]; 1100 := small_object [97; 98; 100];
    1200 := replicate 24%nat 7; 2000 := Z.of_nat <$> seq 1 200]}.

Definition sample_ghost : Ghost :=
  {[1000 := Small [97; 98; 99; 97; 98]; 1100 := Small [97; 98; 100];
    1200 := Raw false (replicate 24%nat 7); 2000 := Raw false (Z.of_nat <$> seq 1 200)]}.

Lemma sample_inv : inv (start sample_mem) sample_ghost.
Proof. apply start_inv; apply (bool_decide_unpack _); vm_compute; exact I. Qed.

Lemma sample_strings a p l : view sample_ghost a = Some (VStr p l) -> a ∈ [1100; 1000].
Proof.
  assert (Hall : map_Forall (fun a _ => match view sample_ghost a with Some (VStr _ _) => bool_decide (a ∈ [1100; 1000]) | _ => true end = true)
    sample_ghost) by (apply (bool_decide_unpack _); vm_compute; exact I).
  intros Hv. destruct (sample_ghost !! a) as [c|] eqn:E; [|unfold view in Hv; by rewrite E in Hv].
  specialize (Hall a c E). cbv beta in Hall. rewrite Hv in Hall. by apply bool_decide_eq_true in Hall.
Qed.

#[local] Existing Instance sample_platform.

Lemma calls_refine_texts_witness :
  wp (perform (Append 1000 1000)) (start sample_mem)
    (fun _ s' => returns sample_ghost (inl [(1000, Some [97; 98; 99; 97; 98; 97; 98; 99; 97; 98])]) s')
    (throws (start sample_mem) sample_ghost (Append 1000 1000) (inl [(1000, Some [97; 98; 99; 97; 98; 97; 98; 99; 97; 98])])).
Proof. apply calls_refine_texts; [exact sample_inv|vm_compute; reflexivity|intros a x; discriminate]. Defined.

Lemma destructors_free_all_witness :
  wp (destroy_all [1100; 1000]) (start sample_mem)
    (fun _ s' => (exists G', inv s' G' /\ frame (list_to_set [1100; 1000]) sample_ghost G') /\
       forall b, b ∈ heap s' -> b ∈ [1100; 1000] \/ exists h bs, view sample_ghost b = Some (VRaw h bs))
    (fun _ _ => False).
Proof.
  apply destructors_free_all; [exact sample_inv|apply (bool_decide_unpack _); vm_compute; exact I|].
  intros a. split.
  - intros Ha. repeat (apply elem_of_cons in Ha as [->|Ha]); [by do 2 eexists; vm_compute..|]. by apply elem_of_nil in Ha.
  - intros (p & l & Hv). by eapply sample_strings.
Defined.

Lemma object_layout_witness :
  wp (observe 1000) (start sample_mem)
    (fun o s' => s' = start sample_mem /\ lay_size o = 5 /\ lay_data o = 1000 /\ lay_text o = [97; 98; 99; 97; 98] ++ [0] /\
       5 <= lay_capacity o < address_space /\
       (lay_category o = isSmall /\ 1000 = 1000 /\ 5 <= maxSmallSize \/
        lay_category o = isMedium /\ 1000 <> 1000 \/ lay_category o = isLarge /\ 1000 <> 1000) /\
       (lay_shared o = true <-> exists y, y <> 1000 /\ view sample_ghost y = Some (VStr 1000 [97; 98; 99; 97; 98])) /\
       (lay_shared o = true -> lay_category o = isLarge))
    (fun _ _ => False).
Proof. apply (object_layout (start sample_mem) sample_ghost 1000 1000 [97; 98; 99; 97; 98]); [exact sample_inv|vm_compute; reflexivity]. Defined.

(** The needle [ab] in [abcab], inside the text itself. *)
Lemma searches_exact_witness :
  let s := start sample_mem in
  let exact (op : Run Z) (good : Z -> Prop) := wp op s (fun r s' => s' = s /\ good r) (fun _ _ => False) in
  let l := [97; 98; 99; 97; 98] in
  exact (str_find 1000 1003 1 2) (found_first (occurs l [97; 98]) 1 (5 - 2 + 1)) /\
  exact (str_rfind 1000 1003 1 2) (found_last (occurs l [97; 98]) (Z.min 1 (5 - 2))) /\
  exact (find_first_of 1000 1003 1 2) (found_first (fun i => char l i ∈ [97; 98]) 1 5) /\
  exact (find_first_not_of 1000 1003 1 2) (found_first (fun i => char l i ∉ [97; 98]) 1 5) /\
  exact (find_last_of 1000 1003 1 2) (found_last (fun i => char l i ∈ [97; 98]) (Z.min 1 (5 - 1))) /\
  exact (find_last_not_of 1000 1003 1 2) (found_last (fun i => char l i ∉ [97; 98]) (Z.min 1 (5 - 1))).
Proof.
  apply (searches_exact (start sample_mem) sample_ghost 1000 1000 [97; 98; 99; 97; 98] 1000 1003 [97; 98] 1);
    [exact sample_inv|vm_compute; reflexivity| |done|done].
  exists (VStr 1000 [97; 98; 99; 97; 98]), 3. split_and!; [vm_compute; reflexivity|reflexivity|done|done|reflexivity].
Defined.

Lemma comparisons_lexicographic_witness :
  let l := [97; 98; 99; 97; 98] in
  let m := [97; 98; 100] in
  wp (compare_all 1000 1100) (start sample_mem)
    (fun '(r, lt, gt, eq, ne, le, ge) s' => s' = start sample_mem /\ r = lex l m /\
       eq = bool_decide (l = m) /\ lt = bool_decide (lex l m < 0) /\ gt = bool_decide (lex m l < 0) /\
       ne = negb eq /\ le = negb gt /\ ge = negb lt /\
       (lt = true /\ gt = false /\ eq = false \/ lt = false /\ gt = true /\ eq = false \/ lt = false /\ gt = false /\ eq = true))
    (fun _ _ => False).
Proof.
  apply (comparisons_lexicographic (start sample_mem) sample_ghost 1000 1000 [97; 98; 99; 97; 98] 1100 1100 [97; 98; 100]);
    [exact sample_inv|vm_compute; reflexivity|vm_compute; reflexivity].
Defined.

(** ** Runs *)

Definition shows (run : Run unit) (a : Z) : res Machine (list Z) :=
  (run;; p ← str_data a; n ← str_size a; load_bytes p n) (start sample_mem).

Definition shown {A} (r : res Machine A) : option A := match r with Ok v _ => Some v | _ => None end.

(** [s.insert(0, s, 2, 2)]: the characters move before they are read, and the
    string gets the wrong ones: [ababcab] for [caabcab]. *)
Example insert_of_itself :
  shown (shows (insert_sub 1000 0 1000 2 2) 1000) = Some [97; 98; 97; 98; 99; 97; 98].
Proof. vm_compute. reflexivity. Qed.

(** [s.at(s.size())] of a constant string is the terminator; of another one it
    throws. *)
Example at_the_end :
  shown (at_const 1000 5 (start sample_mem)) = Some 0 /\
  exists s', set_at 1000 5 33 (start sample_mem) = Throw out_of_bounds s'.
Proof. split; [vm_compute; reflexivity|]. eexists. vm_compute. reflexivity. Qed.

(** [s.reserve(s.npos)]: the size of the allocation wraps around. *)
Example reserve_of_npos : exists why, str_reserve 1000 npos (start sample_mem) = Fault why.
Proof. eexists. vm_compute. reflexivity. Qed.

