(* ===== verification/StringCase.v ===== *)
(** * String: toLowerAscii

    The ASCII lower-casing of [String.cpp]: one byte, or four or eight packed
    in a word, at a time.  The string is a range of memory at a given address;
    the accesses by words fault when they are not aligned, or not within the
    string, as they would be undefined in C++. *)

From stdpp Require Import base list strings.
From S2P Require Import Prelude Bits.

Open Scope Z_scope.

(** A [char] is held as its bit pattern. *)
Definition toLowerAscii8 (c : Z) : Z :=
  let rotated := Z.land c 0x7f in
  let rotated := u8 (rotated + 0x25) in
  let rotated := Z.land rotated 0x7f in
  let rotated := u8 (rotated + 0x1a) in
  let rotated := Z.land rotated (Z.lnot c) in
  let rotated := Z.shiftr rotated 2 in
  let rotated := Z.land rotated 0x20 in
  u8 (c + rotated).

Definition toLowerAscii32 (c : Z) : Z :=
  let rotated := Z.land c 0x7f7f7f7f in
  let rotated := u32 (rotated + 0x25252525) in
  let rotated := Z.land rotated 0x7f7f7f7f in
  let rotated := u32 (rotated + 0x1a1a1a1a) in
  let rotated := Z.land rotated (u32 (Z.lnot c)) in
  let rotated := Z.shiftr rotated 2 in
  let rotated := Z.land rotated 0x20202020 in
  u32 (c + rotated).

Definition toLowerAscii64 (c : Z) : Z :=
  let rotated := Z.land c 0x7f7f7f7f7f7f7f7f in
  let rotated := u64 (rotated + 0x2525252525252525) in
  let rotated := Z.land rotated 0x7f7f7f7f7f7f7f7f in
  let rotated := u64 (rotated + 0x1a1a1a1a1a1a1a1a) in
  let rotated := Z.land rotated (u64 (Z.lnot c)) in
  let rotated := Z.shiftr rotated 2 in
  let rotated := Z.land rotated 0x2020202020202020 in
  u64 (c + rotated).

Abbreviation LowerM := (M (list Z)).

(** [f( *(T* )(str + offset))] for a [T] of [size] bytes. *)
Definition apply_at (size : Z) (f : Z -> Z) (str offset : Z) : LowerM unit :=
  mem ← get;
  assert (bool_decide ((str + offset) `mod` size = 0)) "misaligned access";;
  assert (bool_decide (0 <= offset /\ offset + size <= zlen mem)) "access outside of the string";;
  put (overwrite offset (to_bytes (Z.to_nat size) (f (of_bytes (slice offset size mem)))) mem).

(** [do { toLowerAscii8(str[offset]); offset++; } while (offset < n)] *)
Definition lower_bytes (str n : Z) (offset : Z) : LowerM (Z + Z) :=
  apply_at 1 toLowerAscii8 str offset;;
  let offset := u64 (offset + 1) in
  mret (if decide (offset < n) then inl offset else inr offset).

(** [while (offset + size <= length) { f(...); offset += size; }] *)
Definition lower_words (size : Z) (f : Z -> Z) (str length : Z) (offset : Z) : LowerM (Z + Z) :=
  if decide (u64 (offset + size) <= length)
  then apply_at size f str offset;; mret (inl (u64 (offset + size)))
  else mret (inr offset).

(** [while (offset < length) { toLowerAscii8(str[offset]); offset++; }] *)
Definition lower_rest (str length : Z) (offset : Z) : LowerM (Z + Z) :=
  if decide (offset < length)
  then apply_at 1 toLowerAscii8 str offset;; mret (inl (u64 (offset + 1)))
  else mret (inr offset).

Definition toLowerAscii (str length : Z) : LowerM unit :=
  let kAlignMask64 := 7 in
  let kAlignMask32 := 3 in
  let fuel := S (S (Z.to_nat length)) in
  let n := Z.min (Z.land str kAlignMask32) length in
  offset ← (if decide (n <> 0)
            then let n := Z.min (u64 (4 - n)) length in iter fuel (lower_bytes str n) 0
            else mret 0);
  let n := Z.land (u64 (str + offset)) kAlignMask64 in
  offset ← (if decide (n <> 0 /\ u64 (offset + 4) <= length)
            then apply_at 4 toLowerAscii32 str offset;; mret (u64 (offset + 4))
            else mret offset);
  offset ← iter fuel (lower_words 8 toLowerAscii64 str length) offset;
  offset ← iter fuel (lower_words 4 toLowerAscii32 str length) offset;
  iter fuel (lower_rest str length) offset;;
  mret tt.

(** ** The reference *)

Definition lower (c : Z) : Z := if decide (65 <= c <= 90) then c + 32 else c.

(** ** A word is converted byte by byte *)

Lemma testbit_byte b x i :
  0 <= b < 256 -> 0 <= i -> Z.testbit (b + 256 * x) i = if decide (i < 8) then Z.testbit b i else Z.testbit x (i - 8).
Proof.
  intros Hb Hi. replace (b + 256 * x) with (x * 2 ^ 8 + b) by lia. rewrite <- (lor_low x b 8) by lia.
  rewrite Z.lor_spec, Z.mul_pow2_bits by lia. case_decide.
  - rewrite (Z.testbit_neg_r x) by lia. done.
  - assert (Z.testbit b i = false) as ->; [|apply orb_false_r].
    apply Z.testbit_false; [done|]. rewrite Z.div_small; [done|]. split; [lia|].
    apply Z.lt_le_trans with (2 ^ 8); [lia|]. apply Z.pow_le_mono_r; lia.
Qed.

Lemma land_lt x y k : 0 <= x < 2 ^ k -> 0 <= k -> 0 <= Z.land x y < 2 ^ k.
Proof.
  intros Hx Hk. assert (Z.land x y = Z.land x y `mod` 2 ^ k) as ->.
  { rewrite <- Z.land_ones by done. rewrite <- Z.land_assoc, (Z.land_comm y), Z.land_assoc.
    rewrite Z.land_ones by done. by rewrite Z.mod_small. }
  apply Z.mod_pos_bound. apply Z.pow_pos_nonneg; lia.
Qed.

Lemma land_byte b m x y :
  0 <= b < 256 -> 0 <= m < 256 -> Z.land (b + 256 * x) (m + 256 * y) = Z.land b m + 256 * Z.land x y.
Proof.
  intros Hb Hm. pose proof (land_lt b m 8 Hb). apply Z.bits_inj'. intros i Hi.
  rewrite Z.land_spec, !testbit_byte by lia. case_decide; by rewrite Z.land_spec.
Qed.

Lemma land_lnot_byte r b v x :
  0 <= r < 256 -> 0 <= b < 256 ->
  Z.land (r + 256 * v) (Z.lnot (b + 256 * x)) = Z.land r (Z.lnot b) + 256 * Z.land v (Z.lnot x).
Proof.
  intros Hr Hb. pose proof (land_lt r (Z.lnot b) 8 Hr). apply Z.bits_inj'. intros i Hi.
  rewrite Z.land_spec, Z.lnot_spec, !testbit_byte by lia.
  case_decide; rewrite Z.land_spec, Z.lnot_spec by lia; done.
Qed.

Lemma shiftr_mask_byte b x y :
  0 <= b < 256 -> Z.land (Z.shiftr (b + 256 * x) 2) (32 + 256 * y) =
    Z.land (Z.shiftr b 2) 32 + 256 * Z.land (Z.shiftr x 2) y.
Proof.
  intros Hb. assert (0 <= Z.shiftr b 2 < 2 ^ 6) as Hs by (rewrite Z.shiftr_div_pow2 by lia; euclid).
  pose proof (land_lt _ 32 _ Hs). apply Z.bits_inj'. intros i Hi.
  rewrite Z.land_spec, Z.shiftr_spec, !testbit_byte by lia.
  destruct (decide (i < 8)) as [H8|H8].
  - rewrite Z.land_spec, Z.shiftr_spec by done. destruct (decide (i + 2 < 8)) as [H6|H6]; [done|].
    assert (Z.testbit 32 i = false) as -> by (assert (i = 6 \/ i = 7) as [->| ->] by lia; done).
    by rewrite !andb_false_r.
  - rewrite decide_False by lia. rewrite Z.land_spec, Z.shiftr_spec by lia. do 2 f_equal. lia.
Qed.

(** The conversion of any number of packed bytes, with its masks. *)
Definition swar (c m7f m25 m1a m20 : Z) : Z :=
  c + Z.land (Z.shiftr (Z.land (Z.land (Z.land c m7f + m25) m7f + m1a) (Z.lnot c)) 2) m20.

Lemma swar_byte b x a p q s :
  0 <= b < 256 ->
  swar (b + 256 * x) (127 + 256 * a) (37 + 256 * p) (26 + 256 * q) (32 + 256 * s) =
    swar b 127 37 26 32 + 256 * swar x a p q s.
Proof.
  intros Hb. unfold swar.
  assert (0 <= Z.land b 127 < 2 ^ 7) as H1 by (rewrite Z.land_comm; by apply land_lt).
  rewrite (land_byte b 127) by lia.
  replace (Z.land b 127 + 256 * Z.land x a + (37 + 256 * p)) with ((Z.land b 127 + 37) + 256 * (Z.land x a + p)) by lia.
  assert (0 <= Z.land (Z.land b 127 + 37) 127 < 2 ^ 7) as H2 by (rewrite Z.land_comm; by apply land_lt).
  rewrite (land_byte (Z.land b 127 + 37)) by lia.
  set (r := Z.land (Z.land b 127 + 37) 127) in *. set (v := Z.land (Z.land x a + p) a).
  replace (r + 256 * v + (26 + 256 * q)) with ((r + 26) + 256 * (v + q)) by lia.
  rewrite land_lnot_byte by lia. rewrite shiftr_mask_byte; [lia|]. apply (land_lt _ _ 8); lia.
Qed.

Definition repeated (k : nat) (m : Z) : Z := of_bytes (replicate k m).

Lemma lower_range b : 0 <= b < 256 -> 0 <= lower b < 256.
Proof. unfold lower. case_decide; lia. Qed.

Lemma swar_one b : 0 <= b < 256 -> swar b 127 37 26 32 = lower b.
Proof.
  intros Hb. assert (Forall (fun b => swar b 127 37 26 32 = lower b) (seqZ 0 256)) as Hall.
  { apply Forall_forall. intros x Hx. revert x Hx. apply Forall_forall.
    refine (bool_decide_unpack _ _). vm_compute. done. }
  rewrite Forall_forall in Hall. apply Hall. by apply elem_of_seqZ.
Qed.

Lemma swar_bytes bs :
  Forall (fun b => 0 <= b < 256) bs ->
  swar (of_bytes bs) (repeated (length bs) 127) (repeated (length bs) 37) (repeated (length bs) 26) (repeated (length bs) 32)
    = of_bytes (lower <$> bs).
Proof.
  induction 1 as [|b bs Hb Hbs IH]; [done|].
  change (of_bytes (b :: bs)) with (b + 256 * of_bytes bs). unfold repeated in *. cbn [length replicate].
  change (of_bytes (lower <$> b :: bs)) with (lower b + 256 * of_bytes (lower <$> bs)).
  rewrite <- IH, <- swar_one by done. by apply swar_byte.
Qed.

Lemma of_bytes_range bs : Forall (fun b => 0 <= b < 256) bs -> 0 <= of_bytes bs < 256 ^ Z.of_nat (length bs).
Proof.
  induction 1 as [|b bs Hb Hbs IH]; [done|]. change (of_bytes (b :: bs)) with (b + 256 * of_bytes bs).
  cbn [length]. rewrite Nat2Z.inj_succ, Z.pow_succ_r by lia. lia.
Qed.

Lemma wrap_land w r x : 0 <= w -> 0 <= r < 2 ^ w -> Z.land r (wrap w x) = Z.land r x.
Proof.
  intros Hw Hr. unfold wrap. rewrite <- Z.land_ones by done.
  rewrite (Z.land_comm x), Z.land_assoc, Z.land_ones by done. by rewrite Z.mod_small.
Qed.

(** What a conversion of [k] bytes at once does. *)
Definition lowers (k : nat) (f : Z -> Z) : Prop :=
  forall bs, length bs = k -> Forall (fun b => 0 <= b < 256) bs -> f (of_bytes bs) = of_bytes (lower <$> bs).

Lemma lowers_range bs : Forall (fun b => 0 <= b < 256) bs -> Forall (fun b => 0 <= b < 256) (lower <$> bs).
Proof. intros H. apply Forall_fmap. eapply Forall_impl; [exact H|]. apply lower_range. Qed.

(** The machine arithmetic does not overflow. *)
Lemma swar_wrapped w c m7f m25 m1a :
  1 <= w -> 0 <= c -> 0 <= m7f < 2 ^ (w - 1) -> 0 <= m25 < 2 ^ (w - 1) -> 0 <= m1a < 2 ^ (w - 1) ->
  wrap w (Z.land c m7f + m25) = Z.land c m7f + m25 /\
  wrap w (Z.land (Z.land c m7f + m25) m7f + m1a) = Z.land (Z.land c m7f + m25) m7f + m1a /\
  Z.land (Z.land (Z.land c m7f + m25) m7f + m1a) (wrap w (Z.lnot c)) =
    Z.land (Z.land (Z.land c m7f + m25) m7f + m1a) (Z.lnot c).
Proof.
  intros Hw Hc Hm H25 H1a. assert (2 ^ w = 2 * 2 ^ (w - 1)) as Hpow.
  { rewrite <- Z.pow_succ_r by lia. f_equal. lia. }
  assert (forall y, 0 <= Z.land y m7f < 2 ^ (w - 1)) as Hl.
  { intros y. rewrite Z.land_comm. apply land_lt; lia. }
  pose proof (Hl c). pose proof (Hl (Z.land c m7f + m25)). split_and!.
  - apply wrap_small. unfold fits. lia.
  - apply wrap_small. unfold fits. lia.
  - apply wrap_land; lia.
Qed.

Lemma lowers_8 : lowers 1 toLowerAscii8.
Proof.
  intros [|b [|]] Hl Hb; simplify_eq/=. apply Forall_cons in Hb as [Hb _].
  change (of_bytes [b]) with (b + 0). change (of_bytes [lower b]) with (lower b + 0). rewrite !Z.add_0_r.
  rewrite <- swar_one by done. unfold toLowerAscii8.
  destruct (swar_wrapped 8 b 127 37 26) as (-> & -> & _); [lia..|].
  apply wrap_small. unfold fits. change (0 <= swar b 127 37 26 32 < 256). rewrite swar_one by done. by apply lower_range.
Qed.

Lemma lowers_32 : lowers 4 toLowerAscii32.
Proof.
  intros bs Hl Hbs. pose proof (of_bytes_range bs Hbs) as Hr. rewrite Hl in Hr.
  rewrite <- swar_bytes by done. unfold toLowerAscii32.
  destruct (swar_wrapped 32 (of_bytes bs) 0x7f7f7f7f 0x25252525 0x1a1a1a1a) as (-> & -> & ->); [lia..|].
  rewrite Hl. apply wrap_small. unfold fits.
  change (0 <= swar (of_bytes bs) (repeated 4 127) (repeated 4 37) (repeated 4 26) (repeated 4 32) < 256 ^ Z.of_nat 4).
  rewrite <- Hl, swar_bytes by done. pose proof (of_bytes_range _ (lowers_range _ Hbs)) as Hr'. by rewrite length_fmap in Hr'.
Qed.

Lemma lowers_64 : lowers 8 toLowerAscii64.
Proof.
  intros bs Hl Hbs. pose proof (of_bytes_range bs Hbs) as Hr. rewrite Hl in Hr.
  rewrite <- swar_bytes by done. unfold toLowerAscii64.
  destruct (swar_wrapped 64 (of_bytes bs) 0x7f7f7f7f7f7f7f7f 0x2525252525252525 0x1a1a1a1a1a1a1a1a)
    as (-> & -> & ->); [lia..|].
  rewrite Hl. apply wrap_small. unfold fits.
  change (0 <= swar (of_bytes bs) (repeated 8 127) (repeated 8 37) (repeated 8 26) (repeated 8 32) < 256 ^ Z.of_nat 8).
  rewrite <- Hl, swar_bytes by done. pose proof (of_bytes_range _ (lowers_range _ Hbs)) as Hr'. by rewrite length_fmap in Hr'.
Qed.

(** ** The loops *)

Section Loops.
Context (l : list Z) (Hl : Forall (fun b => 0 <= b < 256) l).
Context (str : Z) (Hstr : 0 <= str) (Hmax : str + zlen l < 2 ^ 63).

Abbreviation len := (zlen l).

(** The memory when the first [o] bytes have been converted. *)
Definition part (o : Z) : list Z := (lower <$> take (Z.to_nat o) l) ++ drop (Z.to_nat o) l.

Lemma slice_part o k : 0 <= o -> 0 <= k -> o + k <= len -> slice o k (part o) = slice o k l.
Proof.
  intros Ho Hk Hle. unfold slice, part. rewrite drop_app_ge; rewrite length_fmap, length_take; [|unfold zlen in Hle; lia].
  replace (Z.to_nat o - Z.to_nat o `min` length l)%nat with 0%nat by (unfold zlen in Hle; lia). done.
Qed.

Lemma overwrite_part o k :
  0 <= o -> 0 <= k -> o + k <= len -> overwrite o (lower <$> slice o k l) (part o) = part (o + k).
Proof.
  intros Ho Hk Hle. unfold zlen in Hle. unfold overwrite, part.
  assert (length (lower <$> take (Z.to_nat o) l) = Z.to_nat o) as Hlen by (rewrite length_fmap, length_take; lia).
  rewrite take_app_length' by done. rewrite length_fmap. unfold slice. rewrite length_take, length_drop.
  rewrite drop_app_ge, Hlen by (rewrite Hlen; lia). rewrite drop_drop.
  rewrite (Z2Nat.inj_add o k), take_take_drop || rewrite (Z2Nat.inj_add o k) by lia.
  replace (Z.to_nat o + (Z.to_nat o + Z.to_nat k `min` (length l - Z.to_nat o) - Z.to_nat o))%nat
    with (Z.to_nat o + Z.to_nat k)%nat by lia.
  rewrite app_assoc. f_equal. rewrite <- fmap_app. f_equal. by rewrite take_take_drop.
Qed.

Lemma apply_at_run (k : nat) f o :
  lowers k f -> (0 < k)%nat -> 0 <= o -> o + Z.of_nat k <= len -> (str + o) `mod` Z.of_nat k = 0 ->
  apply_at (Z.of_nat k) f str o (part o) = Ok tt (part (o + Z.of_nat k)).
Proof.
  intros Hf Hk Ho Hle Hal. unfold apply_at. erewrite run_bind by done.
  rewrite (bool_decide_eq_true_2 (_ `mod` _ = 0)) by exact Hal. erewrite run_bind by done.
  assert (zlen (part o) = len) as Hpl.
  { unfold part, zlen in *. rewrite length_app, length_fmap, length_take, length_drop. lia. }
  rewrite bool_decide_eq_true_2 by lia. erewrite run_bind by done. unfold put. f_equal.
  rewrite slice_part by lia.
  assert (length (slice o (Z.of_nat k) l) = k) as Hsl.
  { pose proof (zlen_slice o (Z.of_nat k) l). unfold zlen in *. lia. }
  assert (Forall (fun b => 0 <= b < 256) (slice o (Z.of_nat k) l)) as Hsb.
  { unfold slice. by apply Forall_take, Forall_drop. }
  rewrite Hf by done. rewrite Nat2Z.id. rewrite <- Hsl at 1. rewrite <- (length_fmap lower).
  rewrite to_of_bytes by (by apply lowers_range). rewrite overwrite_part by lia. done.
Qed.

Lemma lower_words_run (k : nat) f fuel o :
  lowers k f -> (0 < k <= 8)%nat -> 0 <= o <= len -> len - o < Z.of_nat fuel ->
  (o + Z.of_nat k <= len -> (str + o) `mod` Z.of_nat k = 0) ->
  exists o', iter fuel (lower_words (Z.of_nat k) f str len) o (part o) = Ok o' (part o') /\
    o <= o' <= len /\ len < o' + Z.of_nat k /\ (exists j, o' = o + Z.of_nat k * j).
Proof.
  intros Hf Hk. revert o. induction fuel as [|fuel IH]; intros o Ho Hfuel Hal; [lia|].
  simpl. unfold bind at 1, lower_words at 1. rewrite u64_small by lia.
  destruct (decide (o + Z.of_nat k <= len)) as [Hle|Hgt].
  - erewrite run_bind by (apply apply_at_run; [done|lia|lia|done|by apply Hal]).
    destruct (IH (o + Z.of_nat k)) as (o' & Hrun & Hb & Hlt & j & Hj); [lia|lia|..].
    + intros _. rewrite Z.add_assoc, <- Z.add_mod_idemp_r, Z.mod_same, Z.add_0_r by lia. by apply Hal.
    + exists o'. split; [exact Hrun|]. split; [lia|]. split; [done|]. exists (j + 1). lia.
  - exists o. split; [done|]. split; [lia|]. split; [lia|]. exists 0. lia.
Qed.

Lemma lower_rest_run fuel o :
  0 <= o <= len -> len - o < Z.of_nat fuel -> iter fuel (lower_rest str len) o (part o) = Ok len (part len).
Proof.
  revert o. induction fuel as [|fuel IH]; intros o Ho Hfuel; [lia|].
  simpl. unfold bind at 1, lower_rest at 1. rewrite u64_small by lia. destruct (decide (o < len)) as [Hlt|Hge].
  - erewrite run_bind by (apply (apply_at_run 1); [apply lowers_8|lia|lia|lia|apply Z.mod_1_r]). apply IH; lia.
  - by replace o with len by lia.
Qed.

Lemma lower_bytes_run fuel n o :
  0 <= o < n -> n <= len -> n - o < Z.of_nat fuel -> iter fuel (lower_bytes str n) o (part o) = Ok n (part n).
Proof.
  revert o. induction fuel as [|fuel IH]; intros o Ho Hn Hfuel; [lia|].
  simpl. unfold bind at 1, lower_bytes at 1. rewrite u64_small by lia.
  erewrite run_bind by (apply (apply_at_run 1); [apply lowers_8|lia|lia|lia|apply Z.mod_1_r]). cbv zeta.
  destruct (decide (o + 1 < n)) as [Hlt|Hge]; [apply IH; lia|]. by replace (o + Z.of_nat 1) with n by lia; replace (o + 1) with n by lia.
Qed.

(** The first loop stops at the end or at a multiple of four, the single
    word that follows at a multiple of eight. *)
Lemma align_4 :
  exists o, (let n := Z.min (Z.land str 3) len in
    if decide (n <> 0)
    then let n := Z.min (u64 (4 - n)) len in iter (S (S (Z.to_nat len))) (lower_bytes str n) 0
    else mret 0) (part 0) = Ok o (part o) /\ 0 <= o <= len /\ (o = len \/ (str + o) `mod` 4 = 0).
Proof.
  pose proof (zlen_nonneg l). change 3 with (2 ^ 2 - 1). rewrite land_low by lia. change (2 ^ 2) with 4. cbv zeta.
  assert (0 <= str `mod` 4 < 4) by (apply Z.mod_pos_bound; lia).
  destruct (decide (Z.min (str `mod` 4) len <> 0)) as [Hn|Hn].
  - rewrite u64_small by lia. eexists. split; [apply lower_bytes_run; lia|]. split; [lia|].
    destruct (decide (str `mod` 4 <= len)) as [Hle|Hgt]; [|lia].
    destruct (decide (4 - str `mod` 4 <= len)) as [Hle'|]; [|lia]. right.
    replace (Z.min (4 - Z.min (str `mod` 4) len) len) with (4 - str `mod` 4) by lia. euclid.
  - exists 0. split; [done|]. split; [lia|]. destruct (decide (len = 0)); [by left|]. right. rewrite Z.add_0_r. lia.
Qed.

Lemma align_8 o :
  0 <= o <= len -> o = len \/ (str + o) `mod` 4 = 0 ->
  exists o', (let n := Z.land (u64 (str + o)) 7 in
    if decide (n <> 0 /\ u64 (o + 4) <= len)
    then apply_at 4 toLowerAscii32 str o;; mret (u64 (o + 4)) else mret o) (part o) = Ok o' (part o') /\
    o <= o' <= len /\ (o' = len \/ (str + o') `mod` 4 = 0) /\ (o' + 8 <= len -> (str + o') `mod` 8 = 0).
Proof.
  intros Ho Hal. rewrite !u64_small by lia. change 7 with (2 ^ 3 - 1). rewrite land_low by lia. change (2 ^ 3) with 8. cbv zeta.
  destruct (decide ((str + o) `mod` 8 <> 0 /\ o + 4 <= len)) as [[Hn Hle]|Hno].
  - assert ((str + o) `mod` 4 = 0) as H4 by (destruct Hal; [lia|done]).
    erewrite run_bind by (apply (apply_at_run 4); [apply lowers_32|lia|lia|lia|done]).
    exists (o + 4). split; [done|]. split; [lia|]. split; [right; euclid|]. intros _. euclid.
  - exists o. split; [done|]. split; [lia|]. split; [done|]. intros Hle.
    destruct (decide ((str + o) `mod` 8 = 0)); [done|]. exfalso. apply Hno. split; [done|lia].
Qed.

Lemma toLowerAscii_run : toLowerAscii str len l = Ok tt (lower <$> l).
Proof.
  pose proof (zlen_nonneg l) as Hlen0. assert (part 0 = l) as H0 by done.
  assert (part len = lower <$> l) as Hend.
  { unfold part, zlen. rewrite Nat2Z.id, firstn_all, drop_all. apply app_nil_r. }
  destruct align_4 as (o1 & Hrun1 & Ho1 & Hal1). destruct (align_8 o1 Ho1 Hal1) as (o2 & Hrun2 & Ho2 & Hal2 & Hal8).
  destruct (lower_words_run 8 toLowerAscii64 (S (S (Z.to_nat len))) o2) as (o3 & Hrun3 & Ho3 & Hlt3 & j3 & Hj3);
    [apply lowers_64|lia|lia|lia|done|].
  destruct (lower_words_run 4 toLowerAscii32 (S (S (Z.to_nat len))) o3) as (o4 & Hrun4 & Ho4 & _ & _);
    [apply lowers_32|lia|lia|lia| |].
  { intros Hle. destruct Hal2 as [->|Hal2]; [lia|]. euclid. }
  unfold toLowerAscii. cbv zeta in *. rewrite H0 in Hrun1.
  erewrite run_bind by exact Hrun1. erewrite run_bind by exact Hrun2.
  erewrite run_bind by exact Hrun3. erewrite run_bind by exact Hrun4.
  erewrite run_bind by (apply lower_rest_run; lia). by rewrite Hend.
Qed.
End Loops.

(** [toLowerAscii] at any address converts a string exactly as the
    conversion of each byte would, whatever bytes it holds: no carry passes
    from one packed byte to the next, every access by words is aligned and
    within the string, and the loops end. *)
Lemma toLowerAscii_correct l str :
  Forall (fun b => 0 <= b < 256) l -> 0 <= str -> str + zlen l < 2 ^ 63 ->
  toLowerAscii str (zlen l) l = Ok tt (lower <$> l).
Proof. intros. by apply toLowerAscii_run. Qed.

Lemma toLowerAscii_correct_witness :
  toLowerAscii 4099 12 [72; 69; 76; 76; 79; 32; 87; 79; 82; 193; 90; 91] =
    Ok tt [104; 101; 108; 108; 111; 32; 119; 111; 114; 193; 122; 91].
Proof.
  apply (toLowerAscii_correct [72; 69; 76; 76; 79; 32; 87; 79; 82; 193; 90; 91] 4099); [|lia|vm_compute; done].
  repeat constructor; lia.
Defined.
