(* ===== verification/StringHex.v ===== *)
(** * String: hexadecimal and URI escaping

    [hexlify] and [unhexlify] of [String-inl.h], [uriEscape] and [uriUnescape]
    of [String.cpp], and the tables of [EscapeTables.cpp].  Strings are lists of
    bytes; the escaping functions append to their output in runs, as in the
    code. *)

From stdpp Require Import base list strings.
From S2P Require Import Prelude Base64.

Open Scope Z_scope.

Abbreviation byte b := (0 <= b < 256).
Abbreviation bytes := (Forall (fun b => byte b)).

Definition hexTable : list Z :=
  [16; 16; 16; 16; 16; 16; 16; 16; 16; 16; 16; 16; 16; 16; 16; 16;
   16; 16; 16; 16; 16; 16; 16; 16; 16; 16; 16; 16; 16; 16; 16; 16;
   16; 16; 16; 16; 16; 16; 16; 16; 16; 16; 16; 16; 16; 16; 16; 16;
   0; 1; 2; 3; 4; 5; 6; 7; 8; 9; 16; 16; 16; 16; 16; 16;
   16; 10; 11; 12; 13; 14; 15; 16; 16; 16; 16; 16; 16; 16; 16; 16;
   16; 16; 16; 16; 16; 16; 16; 16; 16; 16; 16; 16; 16; 16; 16; 16;
   16; 10; 11; 12; 13; 14; 15; 16; 16; 16; 16; 16; 16; 16; 16; 16;
   16; 16; 16; 16; 16; 16; 16; 16; 16; 16; 16; 16; 16; 16; 16; 16;
   16; 16; 16; 16; 16; 16; 16; 16; 16; 16; 16; 16; 16; 16; 16; 16;
   16; 16; 16; 16; 16; 16; 16; 16; 16; 16; 16; 16; 16; 16; 16; 16;
   16; 16; 16; 16; 16; 16; 16; 16; 16; 16; 16; 16; 16; 16; 16; 16;
   16; 16; 16; 16; 16; 16; 16; 16; 16; 16; 16; 16; 16; 16; 16; 16;
   16; 16; 16; 16; 16; 16; 16; 16; 16; 16; 16; 16; 16; 16; 16; 16;
   16; 16; 16; 16; 16; 16; 16; 16; 16; 16; 16; 16; 16; 16; 16; 16;
   16; 16; 16; 16; 16; 16; 16; 16; 16; 16; 16; 16; 16; 16; 16; 16;
   16; 16; 16; 16; 16; 16; 16; 16; 16; 16; 16; 16; 16; 16; 16; 16].

Definition uriEscapeTable : list Z :=
  [4; 4; 4; 4; 4; 4; 4; 4; 4; 4; 4; 4; 4; 4; 4; 4;
   4; 4; 4; 4; 4; 4; 4; 4; 4; 4; 4; 4; 4; 4; 4; 4;
   3; 4; 4; 4; 4; 4; 4; 4; 4; 4; 4; 4; 4; 0; 0; 2;
   0; 0; 0; 0; 0; 0; 0; 0; 0; 0; 4; 4; 4; 4; 4; 4;
   4; 0; 0; 0; 0; 0; 0; 0; 0; 0; 0; 0; 0; 0; 0; 0;
   0; 0; 0; 0; 0; 0; 0; 0; 0; 0; 0; 4; 4; 4; 4; 0;
   4; 0; 0; 0; 0; 0; 0; 0; 0; 0; 0; 0; 0; 0; 0; 0;
   0; 0; 0; 0; 0; 0; 0; 0; 0; 0; 0; 4; 4; 4; 0; 4;
   4; 4; 4; 4; 4; 4; 4; 4; 4; 4; 4; 4; 4; 4; 4; 4;
   4; 4; 4; 4; 4; 4; 4; 4; 4; 4; 4; 4; 4; 4; 4; 4;
   4; 4; 4; 4; 4; 4; 4; 4; 4; 4; 4; 4; 4; 4; 4; 4;
   4; 4; 4; 4; 4; 4; 4; 4; 4; 4; 4; 4; 4; 4; 4; 4;
   4; 4; 4; 4; 4; 4; 4; 4; 4; 4; 4; 4; 4; 4; 4; 4;
   4; 4; 4; 4; 4; 4; 4; 4; 4; 4; 4; 4; 4; 4; 4; 4;
   4; 4; 4; 4; 4; 4; 4; 4; 4; 4; 4; 4; 4; 4; 4; 4;
   4; 4; 4; 4; 4; 4; 4; 4; 4; 4; 4; 4; 4; 4; 4; 4].

(** "0123456789abcdef" *)
Definition hexValues : list Z := seqZ 48 10 ++ seqZ 97 6.

(** ** hexlify *)

(** [int ch = input[i]] extends the sign of a [char]. *)
Fixpoint hexlify_loop (input : list Z) : Out unit :=
  match input with
  | [] => mret tt
  | c :: input =>
      let ch := sext 8 c in
      emit (hexValues !!! Z.to_nat (Z.land (Z.shiftr ch 4) 0xf));;
      emit (hexValues !!! Z.to_nat (Z.land ch 0xf));;
      hexlify_loop input
  end.

Definition hexlify (input output : list Z) (append_output : bool) : res (list Z) bool :=
  let output := if append_output then output else [] in
  match hexlify_loop input (output ++ replicate (Z.to_nat (2 * zlen input)) 0, zlen output) with
  | Ok _ (output, _) => Ok true output
  | Throw e (output, _) => Throw e output
  | Fault why => Fault why
  | OutOfFuel => OutOfFuel
  end.

(** [output[j++] = c] for an [int j]. *)
Definition emit_int (c : Z) : Out unit :=
  j ← gets snd;
  assert (bool_decide (j < 2 ^ 31 - 1)) "overflow of j";; emit c.

Fixpoint unhexlify_loop (input : list Z) : Out bool :=
  match input with
  | [] => mret true
  | [_] => fault "input[i + 1] past the end"
  | c1 :: c2 :: input =>
      let highBits := hexTable !!! Z.to_nat c1 in
      let lowBits := hexTable !!! Z.to_nat c2 in
      if decide (Z.land (Z.lor highBits lowBits) 0x10 <> 0) then mret false
      else emit_int (u8 (Z.shiftl highBits 4 + lowBits));; unhexlify_loop input
  end.

Definition resize (n : Z) (output : list Z) : list Z :=
  take (Z.to_nat n) output ++ replicate (Z.to_nat n - length output) 0.

Definition unhexlify (input output : list Z) : res (list Z) bool :=
  if decide (zlen input `mod` 2 <> 0) then Ok false output
  else match unhexlify_loop input (resize (zlen input / 2) output, 0) with
  | Ok b (output, _) => Ok b output
  | Throw e (output, _) => Throw e output
  | Fault why => Fault why
  | OutOfFuel => OutOfFuel
  end.

(** ** URI escaping *)

Inductive UriEscapeMode := ALL | QUERY | PATH.

#[global] Instance UriEscapeMode_eq_dec : EqDecision UriEscapeMode.
Proof. solve_decision. Defined.

Definition mode_value (mode : UriEscapeMode) : Z := match mode with ALL => 0 | QUERY => 1 | PATH => 2 end.

Abbreviation Text := (M (list Z)).

(** [out.append(&*last, size_t(p - last))] *)
Definition append_run (str : list Z) (last p : Z) : Text unit := modify (fun out => out ++ slice last (p - last) str).

Definition push_back (c : Z) : Text unit := modify (fun out => out ++ [c]).

(** One round of the loop, on [p] and [last]. *)
Definition escape_round (str : list Z) (mode : UriEscapeMode) (st : Z * Z) : Text (Z * Z + Z * Z) :=
  let '(p, last) := st in
  if decide (p = zlen str) then mret (inr (p, last)) else
  let v := str !!! Z.to_nat p in
  let discriminator := uriEscapeTable !!! Z.to_nat v in
  if decide (discriminator <= mode_value mode) then mret (inl (p + 1, last))
  else if decide (mode = QUERY /\ discriminator = 3) then
    append_run str last p;; push_back 43;; mret (inl (p + 1, p + 1))
  else
    append_run str last p;;
    push_back 37;; push_back (hexValues !!! Z.to_nat (Z.shiftr v 4));;
    push_back (hexValues !!! Z.to_nat (Z.land v 0x0f));;
    mret (inl (p + 1, p + 1)).

Definition uriEscape (str : list Z) (mode : UriEscapeMode) : Text unit :=
  st ← iter (S (length str)) (escape_round str mode) (0, 0);
  let '(p, last) := st in append_run str last p.

Definition unescape_round (str : list Z) (mode : UriEscapeMode) (st : Z * Z) : Text (Z * Z + Z * Z) :=
  let '(p, last) := st in
  if decide (p = zlen str) then mret (inr (p, last)) else
  let c := str !!! Z.to_nat p in
  if decide (c = 37) then
    if decide (zlen str - p < 3) then throw (invalid_argument "incomplete percent encode sequence") else
    let h1 := hexTable !!! Z.to_nat (str !!! Z.to_nat (p + 1)) in
    let h2 := hexTable !!! Z.to_nat (str !!! Z.to_nat (p + 2)) in
    if decide (h1 = 16 \/ h2 = 16) then throw (invalid_argument "invalid percent encode sequence") else
    append_run str last p;; push_back (u8 (Z.lor (Z.shiftl h1 4) h2));; mret (inl (p + 3, p + 3))
  else if decide (c = 43 /\ mode = QUERY) then
    append_run str last p;; push_back 32;; mret (inl (p + 1, p + 1))
  else mret (inl (p + 1, last)).

Definition uriUnescape (str : list Z) (mode : UriEscapeMode) : Text unit :=
  st ← iter (S (length str)) (unescape_round str mode) (0, 0);
  let '(p, last) := st in append_run str last p.

(** ** Facts about the tables *)

Definition digit_hi (v : Z) : Z := hexValues !!! Z.to_nat (Z.shiftr v 4).
Definition digit_lo (v : Z) : Z := hexValues !!! Z.to_nat (Z.land v 0x0f).

(** The text that stands for a byte. *)
Definition escaped (mode : UriEscapeMode) (v : Z) : list Z :=
  if decide (uriEscapeTable !!! Z.to_nat v <= mode_value mode) then [v]
  else if decide (mode = QUERY /\ uriEscapeTable !!! Z.to_nat v = 3) then [43]
  else [37; digit_hi v; digit_lo v].

(** ** What the texts are

    The texts of the documentation, written without the tables of the code. *)

(** Letters, digits and the marks "-_.~" (RFC 3986). *)
Definition unreserved (c : Z) : Prop :=
  48 <= c <= 57 \/ 65 <= c <= 90 \/ 97 <= c <= 122 \/ c = 45 \/ c = 46 \/ c = 95 \/ c = 126.

#[global] Instance unreserved_dec c : Decision (unreserved c).
Proof. unfold unreserved. apply _. Defined.

(** A digit of "0123456789abcdef", and the two digits of a byte. *)
Definition hex_char (d : Z) : Z := if decide (d < 10) then 48 + d else 87 + d.
Definition hex_pair (v : Z) : list Z := [hex_char (v / 16); hex_char (v `mod` 16)].

(** The value of a digit, in either case. *)
Definition hex_value (c : Z) : option Z :=
  if decide (48 <= c <= 57) then Some (c - 48)
  else if decide (65 <= c <= 70) then Some (c - 55)
  else if decide (97 <= c <= 102) then Some (c - 87)
  else None.

Definition uri_char (mode : UriEscapeMode) (v : Z) : list Z :=
  if decide (unreserved v \/ (mode = PATH /\ v = 47)) then [v]
  else if decide (mode = QUERY /\ v = 32) then [43]
  else 37 :: hex_pair v.

Definition uri_encode (mode : UriEscapeMode) (s : list Z) : list Z := s ≫= uri_char mode.

Definition hex_encode (s : list Z) : list Z := s ≫= hex_pair.

Fixpoint hex_decode (t : list Z) : option (list Z) :=
  match t with
  | [] => Some []
  | [_] => None
  | a :: b :: t => h ← hex_value a; l ← hex_value b; d ← hex_decode t; Some (16 * h + l :: d)
  end.

Definition cons_ok (c : Z) (r : string + list Z) : string + list Z :=
  match r with inl why => inl why | inr d => inr (c :: d) end.

(** The bytes a URI text stands for, or what is wrong with its first escape
    that is no escape. *)
Fixpoint uri_decode (mode : UriEscapeMode) (t : list Z) : string + list Z :=
  match t with
  | [] => inr []
  | c :: t =>
      if decide (c = 37) then
        match t with
        | a :: b :: t =>
            match hex_value a, hex_value b with
            | Some h, Some l => cons_ok (16 * h + l) (uri_decode mode t)
            | _, _ => inl "invalid percent encode sequence"%string
            end
        | _ => inl "incomplete percent encode sequence"%string
        end
      else cons_ok (if decide (c = 43 /\ mode = QUERY) then 32 else c) (uri_decode mode t)
  end.

(** The tables, byte by byte, against these. *)
Definition byte_facts (mode : UriEscapeMode) (v : Z) : Prop :=
  escaped mode v = uri_char mode v /\ [digit_hi v; digit_lo v] = hex_pair v /\
  hexTable !!! Z.to_nat v = default 16 (hex_value v) /\
  hex_value (hex_char (v / 16)) = Some (v / 16) /\ hex_value (hex_char (v `mod` 16)) = Some (v `mod` 16) /\
  Z.land (Z.shiftr (sext 8 v) 4) 0xf = Z.shiftr v 4 /\ Z.land (sext 8 v) 0xf = Z.land v 0xf /\
  (unreserved v -> v <> 37 /\ v <> 43).

#[global] Instance byte_facts_dec mode v : Decision (byte_facts mode v).
Proof. unfold byte_facts. apply _. Defined.

Lemma byte_facts_all mode v : byte v -> byte_facts mode v.
Proof.
  intros Hv. assert (Forall (byte_facts mode) (seqZ 0 256)) as H.
  { refine (bool_decide_unpack _ _). destruct mode; vm_compute; done. }
  rewrite Forall_forall in H. apply H. by apply elem_of_seqZ.
Qed.

Lemma hexTable_value v : byte v -> hexTable !!! Z.to_nat v = default 16 (hex_value v).
Proof. intros Hv. by destruct (byte_facts_all ALL v Hv) as (_ & _ & H & _). Qed.

Lemma hex_pair_value v :
  byte v -> hex_value (hex_char (v / 16)) = Some (v / 16) /\ hex_value (hex_char (v `mod` 16)) = Some (v `mod` 16).
Proof. intros Hv. by destruct (byte_facts_all ALL v Hv) as (_ & _ & _ & H1 & H2 & _). Qed.

Lemma hex_value_range c h : hex_value c = Some h -> 0 <= h < 16.
Proof. unfold hex_value. repeat case_decide; naive_solver lia. Qed.

(** Two digits put together, as [unhexlify] and as [uriUnescape] do it. *)
Definition digit_facts (h l : Z) : Prop :=
  u8 (Z.lor (Z.shiftl h 4) l) = 16 * h + l /\ u8 (Z.shiftl h 4 + l) = 16 * h + l /\ Z.land (Z.lor h l) 0x10 = 0.

#[global] Instance digit_facts_dec h l : Decision (digit_facts h l).
Proof. unfold digit_facts. apply _. Defined.

Lemma digit_facts_all h l : 0 <= h < 16 -> 0 <= l < 16 -> digit_facts h l.
Proof.
  intros Hh Hl. assert (Forall (fun h => Forall (digit_facts h) (seqZ 0 16)) (seqZ 0 16)) as H.
  { refine (bool_decide_unpack _ _). vm_compute. done. }
  rewrite Forall_forall in H. assert (h ∈ seqZ 0 16) as Hin by (apply elem_of_seqZ; lia).
  specialize (H h Hin). rewrite Forall_forall in H. apply H. apply elem_of_seqZ. lia.
Qed.

(** ** Runs of bytes *)

Lemma slice_snoc last p (s : list Z) :
  0 <= last <= p -> p < zlen s -> slice last (p + 1 - last) s = slice last (p - last) s ++ [s !!! Z.to_nat p].
Proof.
  intros Hl Hp. replace (p + 1 - last) with ((p - last) + 1) by lia. rewrite slice_split by lia. f_equal.
  replace (last + (p - last)) with p by lia. unfold slice, zlen in *.
  assert (is_Some (s !! Z.to_nat p)) as [x Hx] by (apply lookup_lt_is_Some; lia).
  rewrite (drop_S _ _ _ Hx), list_lookup_total_alt, Hx. done.
Qed.

Lemma slice_rest last (s : list Z) p : p = zlen s -> 0 <= last -> slice last (p - last) s = drop (Z.to_nat last) s.
Proof. intros -> Hl. unfold slice, zlen. rewrite take_ge; [done|]. rewrite length_drop. lia. Qed.

(** What has been written once the pending run is appended. *)
Definition written (s : list Z) (p last : Z) (out : list Z) : list Z := out ++ slice last (p - last) s.

Lemma written_pass s p last out :
  0 <= last <= p -> p < zlen s -> written s (p + 1) last out = written s p last out ++ [s !!! Z.to_nat p].
Proof. intros. unfold written. rewrite slice_snoc by done. apply app_assoc. Qed.

Lemma written_flush s p out : written s p p out = out.
Proof. unfold written. rewrite Z.sub_diag, slice_0. apply app_nil_r. Qed.

Section Escape.
Context (mode : UriEscapeMode).

Lemma drop_lookup {A} (s : list A) p v rest :
  drop p s = v :: rest -> s !! p = Some v /\ drop (S p) s = rest /\ (p < length s)%nat.
Proof.
  intros H. assert (s !! p = Some v) as Hp by (rewrite <- (Nat.add_0_r p), <- lookup_drop; by rewrite H).
  split; [done|]. split; [|by eapply lookup_lt_Some]. rewrite (drop_S _ _ _ Hp) in H. by injection H.
Qed.

Lemma drop_end (s : list Z) p : drop (Z.to_nat p) s = [] -> p <= zlen s -> 0 <= p -> p = zlen s.
Proof.
  intros Hd Hp H0. assert (length (drop (Z.to_nat p) s) = 0%nat) as Hz by (by rewrite Hd).
  rewrite length_drop in Hz. unfold zlen in *. lia.
Qed.

(** One round appends the text of one byte, or leaves the byte pending. *)
Lemma escape_one s v rest p last out :
  drop (Z.to_nat p) s = v :: rest -> 0 <= last <= p ->
  exists last' out', escape_round s mode (p, last) out = Ok (inl (p + 1, last')) out' /\
    p + 1 <= zlen s /\ 0 <= last' <= p + 1 /\ drop (Z.to_nat (p + 1)) s = rest /\
    written s (p + 1) last' out' = written s p last out ++ escaped mode v.
Proof.
  intros (Hv & Hd & Hlt)%drop_lookup Hl. assert (p < zlen s) as Hpl by (unfold zlen; lia).
  assert (s !!! Z.to_nat p = v) as Hsv by (by rewrite list_lookup_total_alt, Hv).
  assert (drop (Z.to_nat (p + 1)) s = rest) as Hd' by (rewrite <- Hd; f_equal; lia).
  unfold escape_round, escaped. rewrite decide_False, Hsv by lia.
  destruct (decide (uriEscapeTable !!! Z.to_nat v <= mode_value mode)).
  - eexists _, _. split; [done|]. rewrite written_pass, Hsv by lia. split_and!; [lia|lia|lia|done|done].
  - destruct (decide (mode = QUERY /\ _)); eexists _, _; (split; [done|]); rewrite written_flush.
    all: split_and!; [lia|lia|lia|done|]. all: unfold written; by rewrite <- !app_assoc.
Qed.

Lemma escape_loop_run s rest p last out fuel :
  drop (Z.to_nat p) s = rest -> 0 <= last <= p -> p <= zlen s -> zlen s - p < Z.of_nat fuel ->
  exists last' out', iter fuel (escape_round s mode) (p, last) out = Ok (zlen s, last') out' /\
    written s (zlen s) last' out' = written s p last out ++ concat (escaped mode <$> rest).
Proof.
  revert p last out fuel. induction rest as [|v rest IH]; intros p last out fuel Hd Hl Hp Hf.
  all: destruct fuel as [|fuel]; [lia|]; cbn [iter]; unfold bind at 1.
  - rewrite (drop_end _ _ Hd) by lia. exists last, out. split; [|symmetry; apply app_nil_r].
    unfold escape_round. by rewrite decide_True.
  - destruct (escape_one _ _ _ _ _ out Hd Hl) as (last1 & out1 & -> & Hp1 & Hl1 & Hd1 & Hw1).
    destruct (IH (p + 1) last1 out1 fuel) as (last' & out' & Hrun & Hw); [done|done|lia|lia|].
    exists last', out'. split; [exact Hrun|]. rewrite Hw, Hw1. by rewrite <- app_assoc.
Qed.

Lemma uriEscape_run s out : uriEscape s mode out = Ok tt (out ++ concat (escaped mode <$> s)).
Proof.
  destruct (escape_loop_run s s 0 0 out (S (length s))) as (last' & out' & Hrun & Hw);
    [done|lia|unfold zlen; lia|unfold zlen; lia|].
  unfold uriEscape. erewrite run_bind by exact Hrun. unfold append_run, modify. f_equal.
  change (out' ++ slice last' (zlen s - last') s) with (written s (zlen s) last' out'). rewrite Hw.
  unfold written. by rewrite slice_0, app_nil_r.
Qed.

Lemma lookup_at (s : list Z) p (i : nat) v l :
  0 <= p -> drop (Z.to_nat p) s = l -> l !! i = Some v -> s !!! Z.to_nat (p + Z.of_nat i) = v.
Proof.
  intros Hp <- Hi. rewrite lookup_drop in Hi. rewrite list_lookup_total_alt.
  replace (Z.to_nat (p + Z.of_nat i)) with (Z.to_nat p + i)%nat by lia. by rewrite Hi.
Qed.

Lemma drop_unit (t l rest : list Z) p :
  drop (Z.to_nat p) t = l ++ rest -> 0 <= p -> l <> [] ->
  p + zlen l <= zlen t /\ drop (Z.to_nat (p + zlen l)) t = rest /\ p < zlen t.
Proof.
  intros Hd Hp Hne. assert (length (drop (Z.to_nat p) t) = length (l ++ rest)) as Hlen by (by rewrite Hd).
  assert (0 < length l)%nat by (destruct l; [done|simpl; lia]).
  rewrite length_drop, length_app in Hlen. unfold zlen in *. split; [lia|]. split; [|lia].
  replace (Z.to_nat (p + Z.of_nat (length l))) with (Z.to_nat p + length l)%nat by lia.
  rewrite <- drop_drop, Hd. by rewrite drop_app_length.
Qed.

(** What one round does with the text [rest] from [p] on: it ends the loop, throws,
    or takes the text of one byte. *)
Definition round_spec (t : list Z) (p last : Z) (out : list Z) (rest : list Z) (r : res (list Z) (Z * Z + Z * Z)) : Prop :=
  (rest = [] /\ p = zlen t /\ r = Ok (inr (p, last)) out) \/
  (exists why, uri_decode mode rest = inl why /\ r = Throw (invalid_argument why) out) \/
  (exists c rest' p' last' out', uri_decode mode rest = cons_ok c (uri_decode mode rest') /\
    r = Ok (inl (p', last')) out' /\ p < p' <= zlen t /\ 0 <= last' <= p' /\
    drop (Z.to_nat p') t = rest' /\ written t p' last' out' = written t p last out ++ [c] /\ exists d, out' = out ++ d).

Lemma escape_values a b :
  byte a -> byte b ->
  (hexTable !!! Z.to_nat a = 16 \/ hexTable !!! Z.to_nat b = 16) <-> hex_value a = None \/ hex_value b = None.
Proof.
  intros Ha Hb. rewrite !hexTable_value by done.
  destruct (hex_value a) eqn:Ea, (hex_value b) eqn:Eb; simpl.
  all: repeat match goal with H : hex_value _ = Some _ |- _ => apply hex_value_range in H end.
  all: split; intros [H|H]; first [by left|by right|congruence|lia].
Qed.

Lemma unescape_one t rest p last out :
  bytes t -> drop (Z.to_nat p) t = rest -> 0 <= last <= p -> p <= zlen t ->
  round_spec t p last out rest (unescape_round t mode (p, last) out).
Proof.
  intros Hb Hd Hl Hp. assert (0 <= p) as Hp0 by lia. unfold unescape_round, round_spec.
  destruct rest as [|c rest].
  { left. pose proof (drop_end _ _ Hd Hp Hp0) as ->. by rewrite decide_True. }
  right. assert (bytes (c :: rest)) as Hbr by (rewrite <- Hd; by apply Forall_drop).
  destruct (drop_unit t [c] rest p Hd Hp0) as (Hle & Hd1 & Hlt); [done|]. change (zlen [c]) with 1 in *.
  pose proof (lookup_at t p 0 c _ Hp0 Hd eq_refl) as Hc. rewrite Z.add_0_r in Hc.
  rewrite (decide_False (P := p = zlen t)), Hc by lia. cbn [uri_decode].
  destruct (decide (c = 37)) as [->|H37].
  - assert (zlen t - p = zlen (37 :: rest)) as Hlen.
    { rewrite <- Hd. unfold zlen. rewrite length_drop. unfold zlen in *. lia. }
    destruct rest as [|a [|b rest]].
    + left. eexists. split; [done|]. by rewrite decide_True by (rewrite Hlen; unfold zlen; simpl; lia).
    + left. eexists. split; [done|]. by rewrite decide_True by (rewrite Hlen; unfold zlen; simpl; lia).
    + rewrite decide_False by (rewrite Hlen; unfold zlen; simpl; lia).
      pose proof (lookup_at t p 1 a _ Hp0 Hd eq_refl) as Ha. pose proof (lookup_at t p 2 b _ Hp0 Hd eq_refl) as Hb2.
      change (Z.of_nat 1) with 1 in Ha. change (Z.of_nat 2) with 2 in Hb2. rewrite Ha, Hb2. cbv zeta.
      apply Forall_cons in Hbr as [_ [Hba [Hbb _]%Forall_cons]%Forall_cons].
      destruct (decide (_ \/ _)) as [Hbad|Hgood].
      * left. eexists. split; [|done]. apply escape_values in Hbad; [|done..].
        destruct (hex_value a), (hex_value b); naive_solver.
      * right. rewrite escape_values in Hgood by done. rewrite !hexTable_value by done.
        destruct (hex_value a) as [h|] eqn:Eh, (hex_value b) as [l|] eqn:El; try tauto. simpl.
        apply hex_value_range in Eh, El. destruct (digit_facts_all h l Eh El) as (-> & _).
        destruct (drop_unit t [37; a; b] rest p Hd Hp0) as (Hle3 & Hd3 & _); [done|].
        change (zlen [37; a; b]) with 3 in *.
        eexists _, rest, _, _, _. split; [done|]. split; [done|]. rewrite written_flush.
        split_and!; [lia|lia|lia|lia|done|done|by eexists (_ ++ _); rewrite app_assoc].
  - destruct (decide (c = 43 /\ mode = QUERY)); right.
    all: eexists _, rest, _, _, _; (split; [done|]); (split; [done|]).
    + rewrite written_flush. split_and!; [lia|lia|lia|lia|done|done|by eexists (_ ++ _); rewrite app_assoc].
    + rewrite written_pass, Hc by lia. split_and!; [lia|lia|lia|lia|done|done|exists []; by rewrite app_nil_r].
Qed.

Lemma unescape_loop_run t fuel p last out :
  bytes t -> 0 <= last <= p -> p <= zlen t -> zlen t - p < Z.of_nat fuel ->
  match uri_decode mode (drop (Z.to_nat p) t) with
  | inl why => exists d, iter fuel (unescape_round t mode) (p, last) out = Throw (invalid_argument why) (out ++ d)
  | inr d => exists last' out', iter fuel (unescape_round t mode) (p, last) out = Ok (zlen t, last') out' /\
      written t (zlen t) last' out' = written t p last out ++ d
  end.
Proof.
  revert p last out. induction fuel as [|fuel IH]; intros p last out Hb Hl Hp Hf; [lia|].
  cbn [iter]; unfold bind at 1 2.
  destruct (unescape_one t _ p last out Hb eq_refl Hl Hp) as
    [(Hr & Hpe & ->)|[(why & -> & ->)|(c & rest' & p' & last' & out' & -> & -> & Hp' & Hl' & Hd' & Hw & d & ->)]].
  - rewrite Hr. simpl. exists last, out. rewrite app_nil_r, <- Hpe. done.
  - exists []. by rewrite app_nil_r.
  - specialize (IH p' last' (out ++ d) Hb). rewrite Hd' in IH.
    destruct (uri_decode mode rest') as [why|d']; simpl.
    + destruct IH as [d2 ->]; [lia|lia|lia|]. exists (d ++ d2). by rewrite app_assoc.
    + destruct IH as (last2 & out2 & Hrun & Hw2); [lia|lia|lia|]. exists last2, out2. split; [exact Hrun|].
      rewrite Hw2, Hw. by rewrite <- app_assoc.
Qed.

(** [uriUnescape] on every text. *)
Lemma uriUnescape_run t out :
  bytes t ->
  match uri_decode mode t with
  | inl why => exists d, uriUnescape t mode out = Throw (invalid_argument why) (out ++ d)
  | inr d => uriUnescape t mode out = Ok tt (out ++ d)
  end.
Proof.
  intros Hb. pose proof (unescape_loop_run t (S (length t)) 0 0 out Hb) as H.
  change (drop (Z.to_nat 0) t) with t in H. unfold uriUnescape. destruct (uri_decode mode t) as [why|d].
  - destruct H as [d H]; [lia|unfold zlen; lia|unfold zlen; lia|]. exists d.
    unfold mbind, M_bind, bind. by rewrite H.
  - destruct H as (last' & out' & Hrun & Hw); [lia|unfold zlen; lia|unfold zlen; lia|].
    erewrite run_bind by exact Hrun. unfold append_run, modify. f_equal.
    change (out' ++ slice last' (zlen t - last') t) with (written t (zlen t) last' out'). rewrite Hw.
    unfold written. by rewrite slice_0, app_nil_r.
Qed.

Lemma uri_encode_escaped s : bytes s -> concat (escaped mode <$> s) = uri_encode mode s.
Proof.
  unfold uri_encode. induction 1 as [|v s Hv _ IH]; [done|]. csimpl. rewrite IH. f_equal.
  by destruct (byte_facts_all mode v Hv) as (H & _).
Qed.

Lemma uri_decode_encode s : bytes s -> uri_decode mode (uri_encode mode s) = inr s.
Proof.
  unfold uri_encode. induction 1 as [|v s Hv _ IH]; [done|]. csimpl. unfold uri_char at 1.
  destruct (byte_facts_all mode v Hv) as (_ & _ & _ & H1 & H2 & _ & _ & Hres).
  destruct (decide (unreserved v \/ (mode = PATH /\ v = 47))) as [Hu|Hu]; [|destruct (decide (mode = QUERY /\ v = 32)) as [[Hm ->]|Hq]].
  - cbn [app uri_decode]. rewrite (decide_False (P := v = 37)), (decide_False (P := v = 43 /\ _)), IH;
      [done|naive_solver..].
  - cbn [app uri_decode]. rewrite (decide_False (P := 43 = 37)), (decide_True (P := 43 = 43 /\ _)), IH; done.
  - cbn [app hex_pair uri_decode]. rewrite (decide_True (P := 37 = 37)), H1, H2, IH by done. simpl. do 2 f_equal.
    pose proof (Z.div_mod v 16). lia.
Qed.

End Escape.

(** ** Hexadecimal text *)

Lemma length_hex_encode s : length (hex_encode s) = (2 * length s)%nat.
Proof. unfold hex_encode. induction s as [|v s IH]; [done|]. csimpl. lia. Qed.

Lemma hexlify_loop_run s w rest :
  bytes s -> length rest = (2 * length s)%nat ->
  hexlify_loop s (filled w rest) = Ok tt (filled (w ++ hex_encode s) []).
Proof.
  revert w rest. induction s as [|v s IH]; intros w rest Hb Hr.
  - destruct rest; [|done]. unfold hex_encode. simpl. by rewrite app_nil_r.
  - apply Forall_cons in Hb as [Hv Hb]. destruct rest as [|x [|y rest]]; simpl in Hr; [lia|lia|].
    destruct (byte_facts_all ALL v Hv) as (_ & Hpair & _ & _ & _ & Hhi & Hlo & _).
    cbn [hexlify_loop]. rewrite !emit_bind, Hhi, Hlo. rewrite IH by (done || lia). do 2 f_equal.
    change (hex_encode (v :: s)) with (hex_pair v ++ hex_encode s). by rewrite <- Hpair, <- !app_assoc.
Qed.

Lemma hexlify_run s out append :
  bytes s -> hexlify s out append = Ok true ((if append then out else []) ++ hex_encode s).
Proof.
  intros Hs. unfold hexlify. set (o := if append then out else []).
  change (o ++ _, zlen o) with (filled o (replicate (Z.to_nat (2 * zlen s)) 0)).
  rewrite hexlify_loop_run; [|done|rewrite length_replicate; unfold zlen; lia].
  unfold filled. by rewrite app_nil_r.
Qed.

Lemma emit_int_bind {A} c (k : Out A) w x rest :
  zlen w < 2 ^ 31 - 1 -> (emit_int c;; k) (filled w (x :: rest)) = k (filled (w ++ [c]) rest).
Proof.
  intros Hw. unfold emit_int, mbind, M_bind, bind at 1 2 3, gets.
  change (filled w (x :: rest)).2 with (zlen w). rewrite bool_decide_eq_true_2 by done.
  unfold assert, ret. by rewrite emit_run.
Qed.

(** The error bit of the table tells the characters that are no digits. *)
Lemma hex_error_bit h l :
  (forall x, h = Some x -> 0 <= x < 16) -> (forall x, l = Some x -> 0 <= x < 16) ->
  Z.land (Z.lor (default 16 h) (default 16 l)) 0x10 = 0 <-> is_Some h /\ is_Some l.
Proof.
  intros Hh Hl. destruct h as [h|], l as [l|]; simpl.
  - destruct (digit_facts_all h l) as (_ & _ & H); [by apply Hh|by apply Hl|]. rewrite H. by split.
  - split; [|by intros [_ []]]. rewrite Z.land_lor_distr_l. change (Z.land 16 16) with 16.
    intros [_ H]%Z.lor_eq_0_iff. done.
  - split; [|by intros [[] _]]. rewrite Z.land_lor_distr_l. change (Z.land 16 16) with 16.
    intros [H _]%Z.lor_eq_0_iff. done.
  - split; [done|by intros [[] _]].
Qed.

(** The loop of [unhexlify] decodes the digits, or stops at the first that is
    not one. *)
Lemma unhexlify_loop_run n s w rest :
  bytes s -> length s = (2 * n)%nat -> length rest = n -> zlen w + Z.of_nat n < 2 ^ 31 ->
  match hex_decode s with
  | Some d => unhexlify_loop s (filled w rest) = Ok true (filled (w ++ d) [])
  | None => exists w' rest', unhexlify_loop s (filled w rest) = Ok false (filled w' rest')
  end.
Proof.
  revert s w rest. induction n as [|n IH]; intros s w rest Hs Hn Hr Hmax.
  - destruct s; [|done]. destruct rest; [|done]. simpl. by rewrite app_nil_r.
  - destruct s as [|c1 [|c2 s]]; simpl in Hn; [lia|lia|]. destruct rest as [|x rest]; [done|]. simpl in Hr.
    apply Forall_cons in Hs as [Hc1 [Hc2 Hs]%Forall_cons]. cbn [unhexlify_loop hex_decode]. cbv zeta.
    rewrite !hexTable_value by done.
    pose proof (hex_error_bit (hex_value c1) (hex_value c2) (hex_value_range c1) (hex_value_range c2)) as Hbit.
    destruct (hex_value c1) as [h|] eqn:Eh, (hex_value c2) as [l|] eqn:El; simpl in Hbit |- *.
    2-4: exists w, (x :: rest); first [done|by rewrite decide_True by (rewrite Hbit; by intros [[] []])].
    rewrite decide_False by (rewrite Hbit; naive_solver).
    destruct (digit_facts_all h l) as (_ & -> & _); [by eapply hex_value_range..|].
    specialize (IH s (w ++ [16 * h + l]) rest Hs). destruct (hex_decode s) as [d|]; simpl.
    + rewrite emit_int_bind by lia. rewrite IH; [by rewrite <- app_assoc|lia|lia|].
      rewrite zlen_app. unfold zlen in *. simpl. lia.
    + destruct IH as (w' & rest' & IH); [lia|lia|rewrite zlen_app; unfold zlen in *; simpl; lia|].
      exists w', rest'. rewrite emit_int_bind by lia. exact IH.
Qed.

Lemma length_resize n out : 0 <= n -> length (resize n out) = Z.to_nat n.
Proof. intros Hn. unfold resize. rewrite length_app, length_take, length_replicate. lia. Qed.

Lemma hex_decode_odd n s : length s = S (2 * n) -> hex_decode s = None.
Proof.
  revert s. induction n as [|n IH]; intros s Hs.
  - by destruct s as [|a [|b s]].
  - destruct s as [|a [|b s]]; [done|simpl in Hs; lia|]. cbn [hex_decode]. rewrite (IH s) by (simpl in Hs; lia).
    by destruct (hex_value a), (hex_value b).
Qed.

Lemma unhexlify_run s out :
  bytes s -> zlen s < 2 ^ 32 ->
  match hex_decode s with
  | Some d => unhexlify s out = Ok true d
  | None => exists out', unhexlify s out = Ok false out'
  end.
Proof.
  intros Hb Hmax. unfold unhexlify. destruct (decide (zlen s `mod` 2 <> 0)) as [Hodd|Heven].
  - rewrite (hex_decode_odd (Z.to_nat (zlen s / 2))); [by exists out|]. unfold zlen in *. euclid.
  - assert (length s = 2 * Z.to_nat (zlen s / 2))%nat as Hl by (unfold zlen in *; euclid).
    change (resize (zlen s / 2) out, 0) with (filled [] (resize (zlen s / 2) out)).
    assert (0 <= zlen s / 2) as H0 by (pose proof (zlen_nonneg s); euclid).
    pose proof (unhexlify_loop_run _ s [] (resize (zlen s / 2) out) Hb Hl) as H.
    destruct (hex_decode s) as [d|].
    + rewrite H; [|by apply length_resize|change (zlen []) with 0; euclid]. simpl. by rewrite app_nil_r.
    + destruct H as (w' & rest' & ->); [by apply length_resize|change (zlen []) with 0; euclid|]. by eexists.
Qed.

Lemma hex_decode_encode s : bytes s -> hex_decode (hex_encode s) = Some s.
Proof.
  unfold hex_encode. induction 1 as [|v s Hv _ IH]; [done|]. csimpl. destruct (hex_pair_value v Hv) as [-> ->].
  simpl. rewrite IH. simpl. do 2 f_equal. pose proof (Z.div_mod v 16). lia.
Qed.

Lemma bytes_encoded f s : bytes s -> (forall v, byte v -> bytes (f v)) -> bytes (s ≫= f).
Proof. intros Hs Hf. induction Hs as [|v s Hv _ IH]; [constructor|]. csimpl. apply Forall_app. by split; [apply Hf|]. Qed.

Lemma hex_pair_bytes v : byte v -> bytes (hex_pair v).
Proof.
  unfold hex_pair, hex_char. intros Hv. assert (0 <= v / 16 < 16 /\ 0 <= v `mod` 16 < 16) by euclid.
  repeat constructor; case_decide; lia.
Qed.

Lemma uri_char_bytes mode v : byte v -> bytes (uri_char mode v).
Proof.
  intros Hv. unfold uri_char. repeat case_decide.
  - by apply Forall_singleton.
  - apply Forall_singleton. lia.
  - constructor; [lia|by apply hex_pair_bytes].
Qed.

(** C38: The textual codings of bytes, as the documentation of [String.h] gives
    them and not as the tables of the code do.  [uriEscape] appends exactly the
    text in which letters, digits and "-_.~" stand for themselves, so does '/'
    in PATH mode, a space is '+' in QUERY mode and every other byte is '%' and
    two lower-case hexadecimal digits.  On every text of bytes [uriUnescape]
    appends exactly what the text stands for, digits in either case, or throws
    [invalid_argument] with the message for the first escape that is cut short
    or has a character that is no digit.  [hexlify] appends exactly two digits
    per byte, also for bytes that are negative as a [char]; [unhexlify] returns
    true with exactly the bytes on the texts of an even number of digits, in
    either case, and false on every other text.  Each decoder inverts its
    encoder.  The input is shorter than 2^31 bytes. *)
Theorem text_codings_roundtrip s mode out out2 (append : bool) :
  bytes s -> zlen s < 2 ^ 31 ->
  uriEscape s mode out = Ok tt (out ++ uri_encode mode s) /\
  uriUnescape (uri_encode mode s) mode out2 = Ok tt (out2 ++ s) /\
  match uri_decode mode s with
  | inr d => uriUnescape s mode out = Ok tt (out ++ d)
  | inl why => exists d, uriUnescape s mode out = Throw (invalid_argument why) (out ++ d)
  end /\
  hexlify s out append = Ok true ((if append then out else []) ++ hex_encode s) /\
  unhexlify (hex_encode s) out2 = Ok true s /\
  match hex_decode s with
  | Some d => unhexlify s out = Ok true d
  | None => exists out', unhexlify s out = Ok false out'
  end.
Proof.
  intros Hs Hmax. split_and!.
  - by rewrite uriEscape_run, uri_encode_escaped.
  - pose proof (uriUnescape_run mode (uri_encode mode s) out2) as H. rewrite uri_decode_encode in H by done.
    apply H. apply bytes_encoded; [done|apply uri_char_bytes].
  - by apply uriUnescape_run.
  - by apply hexlify_run.
  - pose proof (unhexlify_run (hex_encode s) out2) as H. rewrite hex_decode_encode in H by done. apply H.
    + apply bytes_encoded; [done|apply hex_pair_bytes].
    + unfold zlen in *. rewrite length_hex_encode. lia.
  - apply unhexlify_run; [done|lia].
Qed.

Lemma text_codings_roundtrip_witness :
  uriEscape [47; 32; 200; 65] QUERY [] = Ok tt [37; 50; 102; 43; 37; 99; 56; 65] /\
  uriUnescape (uri_encode QUERY [47; 32; 200; 65]) QUERY [1] = Ok tt ([1] ++ [47; 32; 200; 65]).
Proof.
  split; [vm_compute; reflexivity|].
  apply (text_codings_roundtrip [47; 32; 200; 65] QUERY [] [1] true); [|vm_compute; reflexivity].
  repeat constructor; lia.
Defined.

(** Digits of either case are read; an escape cut short is refused. *)
Example texts_read :
  unhexlify [52; 97; 52; 65] [] = Ok true [74; 74] /\
  uriUnescape [37; 52; 97; 37; 52; 65; 43] ALL [] = Ok tt [74; 74; 43] /\
  uriUnescape [65; 37; 52] ALL [] = Throw (invalid_argument "incomplete percent encode sequence") [].
Proof. vm_compute. done. Qed.
