(* ===== verification/Range.v ===== *)
(** * Range: searching, comparing and editing ranges

    [Range<Iter>] of [Range.h] and [Range.cpp].  A range is modelled by its
    elements: moving [b_] or [e_] inwards drops elements at an end, and the
    mutable operations change elements in place.  Characters are bit
    patterns. *)

From stdpp Require Import base list strings.
From S2P Require Import Prelude.

Open Scope Z_scope.

(** A position, or [npos]. *)
Abbreviation size_type := (option Z).

(** ** Comparators *)

Definition asciiCaseSensitive (lhs rhs : Z) : bool := bool_decide (lhs = rhs).

Definition asciiCaseInsensitive (lhs rhs : Z) : bool :=
  let k := Z.lxor lhs rhs in
  if decide (k = 0) then true
  else if decide (k <> 32) then false
  else let k := Z.lor lhs rhs in bool_decide (97 <= k) && bool_decide (k <= 122).

(** ** Searching a range for another *)

Section Search.
Context (eq : Z -> Z -> bool).

(** The state of the searches is the local variable [skip]. *)
Abbreviation Find := (M Z).

Definition elem_at (l : list Z) (i : Z) : Find Z :=
  assert (bool_decide (0 <= i)) "before the range";;
  of_option (l !! Z.to_nat i) "past the range".

Section Loops.
Context (haystack needle : list Z).

Definition nsize : Z := zlen needle.
Definition nsize_1 : Z := nsize - 1.
Definition iEnd : Z := zlen haystack - nsize_1.
Definition search_fuel : nat := S (S (length haystack + length needle)).

(** [while (!eq(i[nsize_1], lastNeedle)) { if (++i == iEnd) return npos; }] *)
Definition last_round (lastNeedle i : Z) : Find (Z + option Z) :=
  x ← elem_at haystack (i + nsize_1);
  mret (if eq x lastNeedle then inr (Some i)
        else if decide (i + 1 = iEnd) then inr None else inl (i + 1)).

(** One round of the loop over [j]; [false] is a mismatch. *)
Definition match_round (i j : Z) : Find (Z + bool) :=
  assert (bool_decide (j < nsize)) "j < nsize";;
  x ← elem_at haystack (i + j); y ← elem_at needle j;
  mret (if eq x y then if decide (j + 1 = nsize) then inr true else inl (j + 1) else inr false).

(** [while (skip <= nsize_1 && !eq(needle[nsize_1 - skip], lastNeedle)) ++skip] *)
Definition skip_round (lastNeedle skip : Z) : Find (Z + Z) :=
  if decide (skip <= nsize_1) then
    x ← elem_at needle (nsize_1 - skip);
    mret (if eq x lastNeedle then inr skip else inl (skip + 1))
  else mret (inr skip).

(** The lazy computation of [skip]. *)
Definition lazy_skip (round : Z -> Find (Z + Z)) : Find Z :=
  skip ← get;
  if decide (skip = 0) then skip ← iter search_fuel round 1; put skip;; mret skip else mret skip.

Definition qfind_round (lastNeedle i : Z) : Find (Z + option Z) :=
  if decide (i < iEnd) then
    r ← iter search_fuel (last_round lastNeedle) i;
    match r with
    | None => mret (inr None)
    | Some i =>
        found ← iter search_fuel (match_round i) 0;
        if (found : bool) then mret (inr (Some i))
        else skip ← lazy_skip (skip_round lastNeedle); mret (inl (i + skip))
    end
  else mret (inr None).

Definition qfind_body : Find (option Z) :=
  if decide (zlen haystack < nsize) then mret None
  else if decide (nsize = 0) then mret (Some 0)
  else lastNeedle ← elem_at needle nsize_1; iter search_fuel (qfind_round lastNeedle) 0.

(** [rfind]: the same from the end, with the skip taken from the haystack. *)
Definition rlast_round (lastNeedle i : Z) : Find (Z + option Z) :=
  x ← elem_at haystack (i + nsize_1);
  mret (if eq x lastNeedle then inr (Some i)
        else if decide (i - 1 < 0) then inr None else inl (i - 1)).

Definition rskip_round (lastNeedle i skip : Z) : Find (Z + Z) :=
  if decide (skip <= nsize_1) then
    x ← elem_at haystack (i + (nsize_1 - skip));
    mret (if eq x lastNeedle then inr skip else inl (skip + 1))
  else mret (inr skip).

Definition rfind_round (lastNeedle i : Z) : Find (Z + option Z) :=
  if decide (0 <= i) then
    r ← iter search_fuel (rlast_round lastNeedle) i;
    match r with
    | None => mret (inr None)
    | Some i =>
        found ← iter search_fuel (match_round i) 0;
        if (found : bool) then mret (inr (Some i))
        else skip ← lazy_skip (rskip_round lastNeedle i); mret (inl (i - skip))
    end
  else mret (inr None).

Definition rfind_body : Find (option Z) :=
  if decide (zlen haystack < nsize) then mret None
  else if decide (nsize = 0) then mret (Some 0)
  else lastNeedle ← elem_at needle nsize_1;
    iter search_fuel (rfind_round lastNeedle) (zlen haystack - nsize).
End Loops.

Definition qfind (haystack needle : list Z) : res Z size_type := qfind_body haystack needle 0.

Definition rfind (haystack needle : list Z) : res Z size_type := rfind_body haystack needle 0.
End Search.

(** An occurrence of [needle] at [i]. *)
Definition occurs (eq : Z -> Z -> bool) (haystack needle : list Z) (i : Z) : Prop :=
  0 <= i /\ i + zlen needle <= zlen haystack /\
  forall j x y, 0 <= j -> haystack !! Z.to_nat (i + j) = Some x -> needle !! Z.to_nat j = Some y -> eq x y = true.

(** The comparators are equivalences. *)
Class CharEq (eq : Z -> Z -> bool) : Prop := {
  eq_refl_char : forall x, eq x x = true;
  eq_sym_char : forall x y, eq x y = true -> eq y x = true;
  eq_trans_char : forall x y z, eq x y = true -> eq y z = true -> eq x z = true;
}.

#[global] Instance sensitive_eq : CharEq asciiCaseSensitive.
Proof. split; unfold asciiCaseSensitive; intros *; rewrite ?bool_decide_eq_true; congruence. Qed.

Lemma insensitive_iff x y :
  asciiCaseInsensitive x y = true <->
  x = y \/ Z.lxor x y = 32 /\ 97 <= Z.lor x y <= 122.
Proof.
  unfold asciiCaseInsensitive. cbv zeta. rewrite <- (Z.lxor_eq_0_iff x y).
  destruct (decide (Z.lxor x y = 0)) as [H0|H0]; [tauto|].
  destruct (decide (Z.lxor x y <> 32)) as [H32|H32]; [split; [done|tauto]|].
  rewrite andb_true_iff, !bool_decide_eq_true. split; [|tauto]. intros ?. right. split; [|done]. by apply dec_stable.
Qed.

#[global] Instance insensitive_eq : CharEq asciiCaseInsensitive.
Proof.
  split; intros *; rewrite !insensitive_iff.
  - by left.
  - intros [->|H]; [by left|]. right. by rewrite Z.lxor_comm, Z.lor_comm.
  - intros [->|[Hx Ho]]; [done|]. intros [->|[Hy Ho']]; [by right|]. left.
    apply Z.lxor_eq. transitivity (Z.lxor (Z.lxor x y) (Z.lxor y z)); [|by rewrite Hx, Hy].
    by rewrite Z.lxor_assoc, <- (Z.lxor_assoc y y z), Z.lxor_nilpotent, Z.lxor_0_l.
Qed.

(** ** The searches find occurrences *)

Section Correct.
Context (eq : Z -> Z -> bool) `{!CharEq eq} (h n : list Z).
Abbreviation N1 := (nsize_1 n).

Lemma elem_at_wp l i s Q E x :
  0 <= i -> l !! Z.to_nat i = Some x -> Q x s -> wp (elem_at l i) s Q E.
Proof.
  intros Hi Hx HQ. unfold elem_at. apply wp_bind, wp_assert; [by apply bool_decide_eq_true|].
  by eapply wp_of_option.
Qed.

Lemma lookup_in (l : list Z) i : 0 <= i < zlen l -> exists x, l !! Z.to_nat i = Some x.
Proof. unfold zlen. intros Hi. apply lookup_lt_is_Some. lia. Qed.

(** The comparison of the needle at [i]. *)
Lemma match_wp i s (Q : bool -> Z -> Prop) E :
  0 <= i -> i + zlen n <= zlen h -> 0 < zlen n ->
  (occurs eq h n i -> Q true s) -> (~ occurs eq h n i -> Q false s) ->
  wp (iter (search_fuel h n) (match_round eq h n i) 0) s Q E.
Proof.
  intros Hi Hle Hn Htrue Hfalse.
  apply (wp_iter _ (fun m j s' => s' = s /\ 0 <= j < zlen n /\ Z.of_nat m = zlen n - j /\
    forall k x y, 0 <= k < j -> h !! Z.to_nat (i + k) = Some x -> n !! Z.to_nat k = Some y -> eq x y = true))
    with (n := Z.to_nat (zlen n)).
  - intros m j s' (-> & Hj & Hm & Hpre). unfold match_round.
    apply wp_bind, wp_assert; [apply bool_decide_eq_true; unfold nsize; lia|].
    destruct (lookup_in h (i + j)) as [x Hx]; [lia|]. destruct (lookup_in n j) as [y Hy]; [lia|].
    apply wp_bind. eapply elem_at_wp; [lia|done|]. apply wp_bind. eapply elem_at_wp; [lia|done|]. apply wp_ret.
    destruct (eq x y) eqn:Hxy.
    + assert (forall k x y, 0 <= k < j + 1 -> h !! Z.to_nat (i + k) = Some x -> n !! Z.to_nat k = Some y -> eq x y = true) as Hpre'.
      { intros k x' y' Hk Hx' Hy'. destruct (decide (k = j)) as [->|Hne]; [by simplify_eq|]. eapply Hpre; [|done..]. lia. }
      destruct (decide (j + 1 = nsize n)) as [Hend|Hend]; unfold nsize in Hend.
      * apply Htrue. split; [done|]. split; [done|]. intros k x' y' Hk Hx' Hy'. eapply Hpre'; [|done..].
        apply lookup_lt_Some in Hy'. unfold zlen in *. lia.
      * exists (m - 1)%nat. split; [lia|]. split; [done|]. split; [lia|]. split; [lia|done].
    + apply Hfalse. intros (_ & _ & Hocc). rewrite (Hocc j x y) in Hxy by (done || lia). done.
  - unfold search_fuel, zlen. lia.
  - split; [done|]. split; [lia|]. split; [lia|]. lia.
Qed.

Context (lastNeedle : Z) (Hlast : n !! Z.to_nat N1 = Some lastNeedle) (Hn : 0 < zlen n).

(** The last character of the needle at [i] is that of the haystack. *)
Definition last_at (i : Z) : Prop := exists x, h !! Z.to_nat (i + N1) = Some x /\ eq x lastNeedle = true.

Lemma occurs_last i : occurs eq h n i -> last_at i.
Proof.
  intros (Hi & Hle & Ho). unfold last_at, nsize_1, nsize in *. destruct (lookup_in h (i + (zlen n - 1))) as [x Hx]; [lia|].
  exists x. split; [done|]. eapply (Ho (zlen n - 1)); [lia|done|done].
Qed.

Lemma last_wp i s Q E :
  0 <= i < iEnd h n ->
  (forall i', i <= i' < iEnd h n -> last_at i' -> (forall k, i <= k < i' -> ~ last_at k) -> Q (Some i') s) ->
  ((forall k, i <= k < iEnd h n -> ~ last_at k) -> Q None s) ->
  wp (iter (search_fuel h n) (last_round eq h n lastNeedle) i) s Q E.
Proof.
  intros Hi Hsome Hnone. unfold iEnd, nsize_1, nsize in *.
  apply (wp_iter _ (fun m k s' => s' = s /\ i <= k < iEnd h n /\ Z.of_nat m = iEnd h n - k /\
    forall j, i <= j < k -> ~ last_at j)) with (n := Z.to_nat (iEnd h n - i)); unfold iEnd, nsize_1, nsize in *.
  - intros m k s' (-> & Hk & Hm & Hpre). unfold last_round.
    destruct (lookup_in h (k + (zlen n - 1))) as [x Hx]; [lia|].
    apply wp_bind. eapply elem_at_wp; [unfold nsize_1, nsize; lia|done|]. apply wp_ret.
    destruct (eq x lastNeedle) eqn:Hxy; [apply Hsome; [done|by exists x|done]|].
    assert (forall j, i <= j < k + 1 -> ~ last_at j) as Hpre'.
    { intros j Hj. destruct (decide (j = k)) as [->|Hne]; [|apply Hpre; lia]. intros (x' & Hx' & He).
      unfold nsize_1, nsize in Hx'. simplify_eq. congruence. }
    unfold iEnd, nsize_1, nsize. destruct (decide (k + 1 = zlen h - (zlen n - 1))) as [He|He].
    + apply Hnone. by rewrite <- He.
    + exists (m - 1)%nat. split; [lia|]. split; [done|]. split; [lia|]. split; [lia|done].
  - unfold search_fuel, zlen in *. lia.
  - split; [done|]. split; [lia|]. split; [lia|]. lia.
Qed.

(** A skip that passes no occurrence. *)
Definition skip_ok (skip : Z) : Prop :=
  1 <= skip <= zlen n /\ forall t x, 1 <= t < skip -> n !! Z.to_nat (N1 - t) = Some x -> eq x lastNeedle = false.

Lemma lazy_skip_wp s Q E :
  s = 0 \/ skip_ok s -> (forall skip, skip_ok skip -> Q skip skip) ->
  wp (lazy_skip h n (skip_round eq n lastNeedle)) s Q E.
Proof.
  intros Hs HQ. unfold lazy_skip. apply wp_bind, wp_get. destruct (decide (s = 0)) as [->|Hne].
  2: { destruct Hs as [?|Hs]; [done|]. apply wp_ret. by apply HQ. }
  apply wp_bind.
  apply (wp_iter _ (fun m sk s' => 1 <= sk <= zlen n /\ Z.of_nat m = zlen n - sk /\
    forall t x, 1 <= t < sk -> n !! Z.to_nat (N1 - t) = Some x -> eq x lastNeedle = false)) with (n := Z.to_nat (zlen n - 1)).
  - intros m sk s' (Hsk & Hm & Hpre). unfold skip_round. unfold nsize_1, nsize in *.
    destruct (decide (sk <= zlen n - 1)) as [Hle|Hgt].
    + destruct (lookup_in n (zlen n - 1 - sk)) as [x Hx]; [lia|].
      apply wp_bind. eapply elem_at_wp; [lia|done|]. apply wp_ret. destruct (eq x lastNeedle) eqn:He.
      * apply wp_bind, wp_put, wp_ret. apply HQ. by split.
      * exists (m - 1)%nat. split; [lia|]. split; [lia|]. split; [lia|]. intros t x' Ht Hx'.
        destruct (decide (t = sk)) as [->|]; [by simplify_eq|]. eapply Hpre; [|done]. lia.
    + apply wp_ret, wp_bind, wp_put, wp_ret. apply HQ. by split.
  - unfold search_fuel, zlen. lia.
  - split; [lia|]. split; [lia|]. lia.
Qed.

(** After a mismatch at [i] nothing occurs before [i + skip]. *)
Lemma skip_passes i skip : last_at i -> skip_ok skip -> forall k, i < k < i + skip -> ~ occurs eq h n k.
Proof.
  intros (x & Hx & He) [Hsk Hno] k Hk (Hk0 & Hle & Ho). unfold nsize_1, nsize in *.
  destruct (lookup_in n (zlen n - 1 - (k - i))) as [y Hy]; [lia|].
  assert (eq x y = true) as Hxy.
  { eapply (Ho (zlen n - 1 - (k - i))); [lia| |done]. rewrite <- Hx. f_equal. lia. }
  assert (eq y lastNeedle = false) as Hf by (eapply (Hno (k - i)); [lia|done]).
  rewrite (eq_trans_char y x lastNeedle) in Hf; [done|by apply eq_sym_char|done].
Qed.
End Correct.

(** The first occurrence, or none. *)
Definition first_occurrence (eq : Z -> Z -> bool) (h n : list Z) (r : size_type) : Prop :=
  match r with
  | Some i => occurs eq h n i /\ forall k, k < i -> ~ occurs eq h n k
  | None => forall k, ~ occurs eq h n k
  end.

Lemma occurs_bounds eq h n i : occurs eq h n i -> 0 <= i < iEnd h n.
Proof. intros (Hi & Hle & _). unfold iEnd, nsize_1, nsize. lia. Qed.

Lemma qfind_run (eq : Z -> Z -> bool) `{!CharEq eq} h n :
  exists r skip, qfind eq h n = Ok r skip /\ first_occurrence eq h n r.
Proof.
  assert (wp (qfind_body eq h n) 0 (fun r _ => first_occurrence eq h n r) nothrow) as Hwp;
    [|by apply wp_ok_inv in Hwp].
  unfold qfind_body. unfold nsize. destruct (decide (zlen h < zlen n)) as [Hlt|Hge].
  { apply wp_ret. intros k (? & ? & _). lia. }
  destruct (decide (zlen n = 0)) as [Hz|Hnz].
  { apply wp_ret. split; [|intros k ? (? & _); lia]. split; [lia|]. split; [lia|]. intros j x y Hj _ Hy.
    apply lookup_lt_Some in Hy. unfold zlen in *. lia. }
  pose proof (zlen_nonneg n). assert (0 < zlen n) as Hn by lia.
  destruct (lookup_in n (nsize_1 n)) as [lastNeedle Hlast]; [unfold nsize_1, nsize; lia|].
  apply wp_bind. eapply elem_at_wp; [unfold nsize_1, nsize; lia|done|].
  apply (wp_iter _ (fun m i skip => 0 <= i /\ Z.of_nat m = Z.max 0 (iEnd h n - i) /\
    (forall k, k < i -> ~ occurs eq h n k) /\ (skip = 0 \/ skip_ok eq n lastNeedle skip)))
    with (n := Z.to_nat (iEnd h n)).
  - intros m i skip (Hi & Hm & Hpre & Hskip). unfold qfind_round.
    destruct (decide (i < iEnd h n)) as [Hlt|Hend].
    2: { apply wp_ret. intros k Ho. pose proof (occurs_bounds _ _ _ _ Ho). apply (Hpre k); [lia|done]. }
    apply wp_bind, (last_wp eq h n lastNeedle Hn); [lia|..].
    + intros i' Hi' Hat Hno.
      assert (forall k, k < i' -> ~ occurs eq h n k) as Hpre'.
      { intros k Hk Ho. destruct (decide (k < i)); [by apply (Hpre k)|]. apply (Hno k); [lia|]. by apply (occurs_last eq h n lastNeedle). }
      apply wp_bind, match_wp; [lia|unfold iEnd, nsize_1, nsize in *; lia|done|..].
      * intros Ho. by apply wp_ret.
      * intros Hnot. apply wp_bind, lazy_skip_wp; [done|done|]. intros sk Hsk. apply wp_ret.
        exists (Z.to_nat (Z.max 0 (iEnd h n - (i' + sk)))). pose proof (proj1 Hsk).
        split; [lia|]. split; [lia|]. split; [lia|]. split; [|by right].
        intros k Hk. destruct (decide (k < i')); [by apply Hpre'|]. destruct (decide (k = i')) as [->|]; [done|].
        eapply (skip_passes eq h n lastNeedle); [done|done|]. lia.
    + intros Hno. apply wp_ret. intros k Ho. pose proof (occurs_bounds _ _ _ _ Ho).
      destruct (decide (k < i)); [by apply (Hpre k)|]. apply (Hno k); [lia|]. by apply (occurs_last eq h n lastNeedle).
  - unfold search_fuel, iEnd, nsize_1, nsize, zlen. lia.
  - unfold iEnd, nsize_1, nsize in *. split; [lia|]. split; [lia|]. split; [|by left]. intros k Hk (? & _). lia.
Qed.

Section Backward.
Context (eq : Z -> Z -> bool) (h n : list Z) (lastNeedle : Z) (Hn : 0 < zlen n).

Lemma rlast_wp i s Q E :
  0 <= i <= zlen h - zlen n -> (forall i', 0 <= i' <= i -> Q (Some i') s) -> Q None s ->
  wp (iter (search_fuel h n) (rlast_round eq h n lastNeedle) i) s Q E.
Proof.
  intros Hi Hsome Hnone.
  apply (wp_iter _ (fun m k s' => s' = s /\ 0 <= k <= i /\ Z.of_nat m = k)) with (n := Z.to_nat i).
  - intros m k s' (-> & Hk & Hm). unfold rlast_round, nsize_1, nsize.
    destruct (lookup_in h (k + (zlen n - 1))) as [x Hx]; [lia|].
    apply wp_bind. eapply elem_at_wp; [lia|done|]. apply wp_ret.
    destruct (eq x lastNeedle); [by apply Hsome|]. destruct (decide (k - 1 < 0)); [done|].
    exists (m - 1)%nat. split; [lia|]. split; [done|lia].
  - unfold search_fuel, zlen in *. lia.
  - split; [done|lia].
Qed.

Lemma rlazy_skip_wp i s Q E :
  0 <= i <= zlen h - zlen n -> s = 0 \/ 1 <= s <= zlen n -> (forall skip, 1 <= skip <= zlen n -> Q skip skip) ->
  wp (lazy_skip h n (rskip_round eq h n lastNeedle i)) s Q E.
Proof.
  intros Hi Hs HQ. unfold lazy_skip. apply wp_bind, wp_get. destruct (decide (s = 0)) as [->|Hne].
  2: { destruct Hs as [?|Hs]; [done|]. apply wp_ret. by apply HQ. }
  apply wp_bind.
  apply (wp_iter _ (fun m sk s' => 1 <= sk <= zlen n /\ Z.of_nat m = zlen n - sk)) with (n := Z.to_nat (zlen n - 1)).
  - intros m sk s' (Hsk & Hm). unfold rskip_round, nsize_1, nsize. destruct (decide (sk <= zlen n - 1)) as [Hle|Hgt].
    + destruct (lookup_in h (i + (zlen n - 1 - sk))) as [x Hx]; [lia|].
      apply wp_bind. eapply elem_at_wp; [lia|done|]. apply wp_ret. destruct (eq x lastNeedle).
      * apply wp_bind, wp_put, wp_ret. by apply HQ.
      * exists (m - 1)%nat. split; [lia|]. split; lia.
    + apply wp_ret, wp_bind, wp_put, wp_ret. by apply HQ.
  - unfold search_fuel, zlen. lia.
  - lia.
Qed.
End Backward.

Lemma rfind_run (eq : Z -> Z -> bool) h n :
  exists r skip, rfind eq h n = Ok r skip /\ forall i, r = Some i -> occurs eq h n i.
Proof.
  assert (wp (rfind_body eq h n) 0 (fun r _ => forall i, r = Some i -> occurs eq h n i) nothrow) as Hwp;
    [|by apply wp_ok_inv in Hwp].
  unfold rfind_body, nsize. destruct (decide (zlen h < zlen n)) as [Hlt|Hge]; [by apply wp_ret|].
  destruct (decide (zlen n = 0)) as [Hz|Hnz].
  { apply wp_ret. intros i [= <-]. split; [lia|]. split; [lia|]. intros j x y Hj _ Hy.
    apply lookup_lt_Some in Hy. unfold zlen in *. lia. }
  pose proof (zlen_nonneg n). assert (0 < zlen n) as Hn by lia.
  destruct (lookup_in n (nsize_1 n)) as [lastNeedle Hlast]; [unfold nsize_1, nsize; lia|].
  apply wp_bind. eapply elem_at_wp; [unfold nsize_1, nsize; lia|done|].
  apply (wp_iter _ (fun m i skip => i <= zlen h - zlen n /\ Z.of_nat m = Z.max 0 (i + 1) /\ (skip = 0 \/ 1 <= skip <= zlen n)))
    with (n := Z.to_nat (zlen h - zlen n + 1)).
  - intros m i skip (Hi & Hm & Hskip). unfold rfind_round. destruct (decide (0 <= i)) as [H0|H0]; [|by apply wp_ret].
    apply wp_bind, rlast_wp; [done|lia|..].
    + intros i' Hi'. apply wp_bind, match_wp; [lia|lia|done|..].
      * intros Ho. apply wp_ret. by intros ? [= <-].
      * intros _. apply wp_bind, rlazy_skip_wp; [done|lia|done|]. intros sk Hsk. apply wp_ret.
        exists (Z.to_nat (Z.max 0 (i' - sk + 1))). split; [lia|]. split; [lia|]. split; [lia|by right].
    + by apply wp_ret.
  - unfold search_fuel, zlen in *. lia.
  - split; [lia|]. split; [lia|by left].
Qed.

(** ** The characters of a set: FastByteSet

    [sparse_] and [dense_] are not initialised: they start with any bytes. *)

Record FastByteSet := mkByteSet { size_ : Z; sparse_ : list Z; dense_ : list Z }.

Abbreviation ByteSet := (M FastByteSet).

Definition byteset_contains (s : FastByteSet) (i : Z) : bool :=
  bool_decide (sparse_ s !!! Z.to_nat i < size_ s) &&
  bool_decide (dense_ s !!! Z.to_nat (sparse_ s !!! Z.to_nat i) = i).

Definition byteset_add (i : Z) (s : FastByteSet) : FastByteSet :=
  if byteset_contains s i then s
  else mkByteSet (wrap 16 (size_ s + 1)) (<[Z.to_nat i := u8 (size_ s)]> (sparse_ s)) (<[Z.to_nat (size_ s) := i]> (dense_ s)).

Fixpoint find_index (f : Z -> bool) (l : list Z) (index : Z) : size_type :=
  match l with
  | [] => None
  | x :: l => if f x then Some index else find_index f l (index + 1)
  end.

(** [garbage] is what the uninitialised arrays hold. *)
Definition qfind_first_byte_of_byteset (garbage : list Z * list Z) (haystack needles : list Z) : size_type :=
  let s := foldl (fun s i => byteset_add i s) (mkByteSet 0 garbage.1 garbage.2) needles in
  find_index (byteset_contains s) haystack 0.

(** [std::find_first_of] *)
Definition qfind_first_of (eq : Z -> Z -> bool) (haystack needles : list Z) : size_type :=
  find_index (fun x => existsb (eq x) needles) haystack 0.

Definition qfind_first_byte_of_nosse (garbage : list Z * list Z) (haystack needles : list Z) : size_type :=
  if decide (needles = [] \/ haystack = []) then None
  else if decide ((4 <= zlen needles /\ zlen haystack <= 10) \/ (16 <= zlen needles /\ zlen haystack <= 64) \/ 32 <= zlen needles)
  then qfind_first_byte_of_byteset garbage haystack needles
  else qfind_first_of asciiCaseSensitive haystack needles.

(** The byte set holds exactly what was added. *)
Record byteset_ok (added : list Z) (s : FastByteSet) : Prop := {
  bs_sparse : length (sparse_ s) = 256%nat;
  bs_dense : length (dense_ s) = 256%nat;
  bs_bytes : Forall (fun x => 0 <= x < 256) (sparse_ s);
  bs_size : size_ s = zlen added;
  bs_added : NoDup added;
  bs_range : Forall (fun x => 0 <= x < 256) added;
  bs_slot : forall (k : nat) x, added !! k = Some x ->
    dense_ s !! k = Some x /\ sparse_ s !! Z.to_nat x = Some (Z.of_nat k);
}.

Lemma byteset_contains_spec added s i : byteset_ok added s -> 0 <= i < 256 -> byteset_contains s i = true <-> i ∈ added.
Proof.
  intros Hok Hi. unfold byteset_contains. rewrite andb_true_iff, !bool_decide_eq_true.
  assert (is_Some (sparse_ s !! Z.to_nat i)) as [p Hp] by (apply lookup_lt_is_Some; rewrite (bs_sparse _ _ Hok); lia).
  pose proof (Forall_lookup_1 _ _ _ _ (bs_bytes _ _ Hok) Hp) as Hpb.
  rewrite !list_lookup_total_alt, Hp. cbn [default from_option id]. rewrite (bs_size _ _ Hok). unfold zlen. split.
  - intros [Hlt Hd]. cbn in Hpb, Hlt. assert (is_Some (added !! Z.to_nat p)) as [x Hx] by (apply lookup_lt_is_Some; lia).
    destruct (bs_slot _ _ Hok _ _ Hx) as [Hdx _]. rewrite Hdx in Hd. simpl in Hd. subst x. by eapply list_elem_of_lookup_2.
  - intros [k Hk]%list_elem_of_lookup. destruct (bs_slot _ _ Hok _ _ Hk) as [Hd Hs]. simplify_eq.
    rewrite Nat2Z.id, Hd. apply lookup_lt_Some in Hk. split; [lia|done].
Qed.

Lemma byteset_add_ok added s i :
  byteset_ok added s -> 0 <= i < 256 -> exists added', byteset_ok added' (byteset_add i s) /\ forall x, x ∈ added' <-> x ∈ added \/ x = i.
Proof.
  intros Hok Hi. unfold byteset_add. destruct (byteset_contains s i) eqn:Hc.
  - exists added. split; [done|]. apply (byteset_contains_spec added) in Hc; [|done..]. intros x. split; [by left|]. by intros [?| ->].
  - exists (added ++ [i]). split; [|intros x; rewrite elem_of_app, list_elem_of_singleton; done].
    assert (i ∉ added) as Hnin by (intros Hin; apply (byteset_contains_spec added s) in Hin; [congruence|done..]).
    destruct Hok as [Hs Hd Hb Hsz Hnd Hr Hslot].
    assert (length added < 256)%nat as Hlt.
    { assert (NoDup (added ++ [i])) as Hnd'.
      { apply NoDup_app. split; [done|]. split; [|apply NoDup_singleton]. intros x Hx ->%list_elem_of_singleton. done. }
      assert (added ++ [i] ⊆ seqZ 0 256) as Hsub.
      { intros x Hx. apply elem_of_seqZ. apply elem_of_app in Hx as [Hx|Hx%list_elem_of_singleton]; [|lia].
        rewrite Forall_forall in Hr. specialize (Hr x Hx). simpl in Hr. lia. }
      pose proof (submseteq_length _ _ (NoDup_submseteq _ _ Hnd' Hsub)) as Hl. rewrite length_app, length_seqZ in Hl. simpl in Hl. lia. }
    rewrite Hsz. unfold zlen. split; simpl.
    + by rewrite length_insert.
    + by rewrite length_insert.
    + rewrite u8_small by lia. apply Forall_insert; [done|lia].
    + rewrite wrap_small by (unfold fits; lia). unfold zlen. rewrite length_app. simpl. lia.
    + apply NoDup_app. split; [done|]. split; [|apply NoDup_singleton]. intros x Hx ->%list_elem_of_singleton. done.
    + apply Forall_app. split; [done|]. by constructor.
    + intros k x Hk. rewrite u8_small, Nat2Z.id by lia. apply lookup_app_Some in Hk as [Hk|[Hk Hx]].
      * pose proof (lookup_lt_Some _ _ _ Hk). destruct (Hslot k x Hk) as [Hdk Hsk].
        assert (i <> x) by (intros ->; apply Hnin; by eapply list_elem_of_lookup_2).
        rewrite Forall_forall in Hr. assert (0 <= x < 256) by (apply Hr; by eapply list_elem_of_lookup_2).
        rewrite !list_lookup_insert_ne by lia. done.
      * apply list_lookup_singleton_Some in Hx as [Hk0 <-]. replace k with (length added) by lia.
        rewrite !list_lookup_insert_eq by lia. done.
Qed.

Lemma find_index_ext f g l i : (forall x, x ∈ l -> f x = g x) -> find_index f l i = find_index g l i.
Proof.
  revert i. induction l as [|x l IH]; intros i H; [done|]. simpl. rewrite H by (by left).
  destruct (g x); [done|]. apply IH. intros y Hy. apply H. by right.
Qed.

Lemma byteset_search garbage h ns :
  length garbage.1 = 256%nat -> length garbage.2 = 256%nat -> Forall (fun x => 0 <= x < 256) garbage.1 ->
  Forall (fun x => 0 <= x < 256) h -> Forall (fun x => 0 <= x < 256) ns ->
  qfind_first_byte_of_byteset garbage h ns = qfind_first_of asciiCaseSensitive h ns.
Proof.
  intros Hg1 Hg2 Hg Hh Hns. unfold qfind_first_byte_of_byteset, qfind_first_of.
  assert (forall added s, byteset_ok added s -> exists added',
    byteset_ok added' (foldl (fun s i => byteset_add i s) s ns) /\ forall x, x ∈ added' <-> x ∈ added \/ x ∈ ns) as Hfold.
  { induction Hns as [|i ns Hi Hns IH]; intros added s Hok; simpl.
    - exists added. split; [done|]. intros x. rewrite elem_of_nil. tauto.
    - destruct (byteset_add_ok _ _ _ Hok Hi) as (added1 & Hok1 & Hin1). destruct (IH _ _ Hok1) as (added2 & Hok2 & Hin2).
      exists added2. split; [done|]. intros x. rewrite Hin2, Hin1, elem_of_cons. tauto. }
  destruct (Hfold [] (mkByteSet 0 garbage.1 garbage.2)) as (added & Hok & Hin).
  { split; simpl; try done; constructor. }
  apply find_index_ext. intros x Hx. rewrite Forall_forall in Hh. apply eq_true_iff_eq.
  rewrite (byteset_contains_spec _ _ _ Hok (Hh x Hx)), Hin, existsb_exists, elem_of_nil. split.
  - intros [[]|Hxn]. exists x. split; [by apply list_elem_of_In|]. by apply bool_decide_eq_true.
  - intros (y & Hy & He). right. apply bool_decide_eq_true in He as ->. by apply list_elem_of_In.
Qed.
