(* ===== verification/RangeOps.v ===== *)
(** * Range: the operations of the class

    The members of [Range<Iter>]: a member that moves an end or writes through
    a mutable range works on the state, the elements of the range. *)

From stdpp Require Import base list strings.
From S2P Require Import Prelude Range.

Open Scope Z_scope.

Abbreviation RangeM := (M (list Z)).

Definition index_error : exn := out_of_range "index out of range".

(** ** Access and narrowing *)

Definition range_at (i : Z) : RangeM Z :=
  r ← get; if decide (zlen r <= i) then throw index_error else of_option (r !! Z.to_nat i) "before the range".

Definition range_front : RangeM Z := r ← get; of_option (head r) "b_ < e_".
Definition range_back : RangeM Z := r ← get; of_option (last r) "b_ < e_".

Definition advance_ (n : Z) : RangeM unit :=
  r ← get; if decide (zlen r < n) then throw index_error else put (drop (Z.to_nat n) r).

Definition subtract (n : Z) : RangeM unit :=
  r ← get; if decide (zlen r < n) then throw index_error else put (take (length r - Z.to_nat n) r).

Definition pop_front : RangeM unit :=
  r ← get; assert (bool_decide (r <> [])) "b_ < e_";; put (tail r).

Definition pop_back : RangeM unit :=
  r ← get; assert (bool_decide (r <> [])) "b_ < e_";; put (removelast r).

(** [length] is [npos] by default. *)
Definition subpiece (first : Z) (length : size_type) : RangeM (list Z) :=
  r ← get;
  if decide (zlen r < first) then throw index_error
  else mret (slice first (match length with Some l => Z.min l (zlen r - first) | None => zlen r - first end) r).

(** ** Comparison *)

(** [char_traits::compare] on the first [n] characters: the sign. *)
Fixpoint traits_compare (n : nat) (a b : list Z) : Z :=
  match n, a, b with
  | S n, x :: a, y :: b => if decide (x < y) then -1 else if decide (y < x) then 1 else traits_compare n a b
  | _, _, _ => 0
  end.

Definition compare_ (a b : list Z) : Z :=
  let r := traits_compare (Nat.min (length a) (length b)) a b in
  if decide (r = 0 /\ zlen a <> zlen b)
  then Z.shiftl (Z.shiftr (u64 (zlen b - zlen a)) 63) 1 - 1
  else r.

Definition range_eqb (a b : list Z) : bool := bool_decide (zlen a = zlen b) && bool_decide (compare_ a b = 0).
Definition range_ltb (a b : list Z) : bool := bool_decide (compare_ a b < 0).

Definition caseInsensitiveEqual (s t : list Z) : bool :=
  bool_decide (zlen s = zlen t) && forallb (fun '(x, y) => asciiCaseInsensitive x y) (zip s t).

(** The Bernstein hash; a [char] is signed. *)
Definition hash_ (r : list Z) : Z :=
  foldl (fun h c => u32 (u32 (u32 (Z.shiftl h 5) + h) + sext 8 c)) 5381 r.

(** ** Searching *)

(** The searches return normally, see [qfind_run]. *)
Definition lift_find {S A} (r : res S A) : RangeM A :=
  match r with
  | Ok a _ => mret a
  | Throw e _ => throw e
  | Fault why => fault why
  | OutOfFuel => fun _ => OutOfFuel
  end.

Definition find_range (str : list Z) (pos : Z) : RangeM size_type :=
  r ← get;
  if decide (zlen r < pos) then mret None
  else
    sub ← subpiece pos None;
    ret ← lift_find (qfind asciiCaseSensitive sub str);
    mret (option_map (fun p => p + pos) ret).

Definition find_char (c : Z) (pos : Z) : RangeM size_type :=
  r ← get;
  if decide (zlen r < pos) then mret None
  else
    sub ← subpiece pos None;
    mret (option_map (fun p => p + pos) (find_index (asciiCaseSensitive c) sub 0)).

(** [rfind] of a character: the loop [for (i = size(); i-- > 0; )]. *)
Fixpoint rfind_char_loop (c : Z) (r : list Z) (i : nat) : size_type :=
  match i with
  | O => None
  | S i => if decide (r !! i = Some c) then Some (Z.of_nat i) else rfind_char_loop c r i
  end.

Definition rfind_char (c : Z) : RangeM size_type := gets (fun r => rfind_char_loop c r (length r)).

Definition contains_range (other : list Z) : RangeM bool :=
  p ← find_range other 0; mret (bool_decide (p <> None)).
Definition contains_char (other : Z) : RangeM bool :=
  p ← find_char other 0; mret (bool_decide (p <> None)).

(** ** Prefixes and suffixes *)

Definition startsWith (other : list Z) : RangeM bool :=
  r ← get;
  if decide (zlen other <= zlen r) then p ← subpiece 0 (Some (zlen other)); mret (range_eqb p other) else mret false.

Definition endsWith (other : list Z) : RangeM bool :=
  r ← get;
  if decide (zlen other <= zlen r) then p ← subpiece (zlen r - zlen other) None; mret (range_eqb p other) else mret false.

Definition startsWith_char (c : Z) : RangeM bool := gets (fun r => bool_decide (head r = Some c)).
Definition endsWith_char (c : Z) : RangeM bool := gets (fun r => bool_decide (last r = Some c)).

Definition removePrefix (prefix : list Z) : RangeM bool :=
  b ← startsWith prefix; if (b : bool) then modify (drop (length prefix));; mret true else mret false.
Definition removeSuffix (suffix : list Z) : RangeM bool :=
  b ← endsWith suffix;
  if (b : bool) then modify (fun r => take (length r - length suffix) r);; mret true else mret false.
Definition removePrefix_char (c : Z) : RangeM bool :=
  b ← startsWith_char c; if (b : bool) then modify tail;; mret true else mret false.
Definition removeSuffix_char (c : Z) : RangeM bool :=
  b ← endsWith_char c; if (b : bool) then modify (@removelast Z);; mret true else mret false.

(** ** Replacing *)

(** [size() < pos + replacement.size()] in [size_t]; the copy must stay
    within the range. *)
Definition replaceAt (pos : Z) (replacement : list Z) : RangeM bool :=
  r ← get;
  if decide (zlen r < u64 (pos + zlen replacement)) then mret false
  else
    assert (bool_decide (0 <= pos /\ pos + zlen replacement <= zlen r)) "copy outside of the range";;
    put (overwrite pos replacement r);; mret true.

(** One round of [while ((found = find(source, pos)) != npos)], on [pos] and
    [num_replaced]. *)
Definition replace_round (source dest : list Z) (st : Z * Z) : RangeM ((Z * Z) + Z) :=
  let '(pos, num) := st in
  found ← find_range source pos;
  match found with
  | None => mret (inr num)
  | Some found => replaceAt found dest;; mret (inl (u64 (pos + zlen source), num + 1))
  end.

Definition replaceAll (source dest : list Z) : RangeM Z :=
  if decide (zlen source <> zlen dest) then throw (invalid_argument "replacement must have the same size as source")
  else if decide (dest = []) then mret 0
  else r ← get; iter (S (S (length r))) (replace_round source dest) (0, 0).

(** ** split_step *)

Definition split_step_char (delimiter : Z) : RangeM (list Z) :=
  r ← get;
  match find_index (asciiCaseSensitive delimiter) r 0 with
  | None => put [];; mret r
  | Some i => put (drop (Z.to_nat (i + 1)) r);; mret (take (Z.to_nat i) r)
  end.

(** [std::next(result.end(), delimiter.size())] must not pass the end. *)
Definition split_step (delimiter : list Z) : RangeM (list Z) :=
  i ← find_range delimiter 0;
  r ← get;
  let result := match i with None => r | Some i => take (Z.to_nat i) r end in
  (if decide (zlen result = zlen r) then put []
   else assert (bool_decide (zlen result + zlen delimiter <= zlen r)) "past the end";;
        put (drop (length result + length delimiter) r));;
  mret result.

(** ** Comparison is equality of the elements *)

Lemma traits_compare_eq n a b : length a = n -> length b = n -> traits_compare n a b = 0 <-> a = b.
Proof.
  revert a b. induction n as [|n IH]; intros [|x a] [|y b] Ha Hb; try done. simpl.
  injection Ha as Ha. injection Hb as Hb. destruct (decide (x < y)); [split; [done|]; intros [= -> ->]; lia|].
  destruct (decide (y < x)); [split; [done|]; intros [= -> ->]; lia|].
  rewrite IH by done. split; [intros ->; f_equal; lia|]. by intros [= -> ->].
Qed.

Lemma range_eqb_spec a b : range_eqb a b = true <-> a = b.
Proof.
  unfold range_eqb. rewrite andb_true_iff, !bool_decide_eq_true. unfold compare_, zlen. split.
  - intros [Hl Hc]. rewrite decide_False in Hc by lia. rewrite (proj2 (Nat.min_r_iff _ _)) in Hc by lia.
    apply (traits_compare_eq (length b)); [lia|done|done].
  - intros ->. split; [done|]. rewrite decide_False by lia. rewrite Nat.min_id. by apply traits_compare_eq.
Qed.

(** The order is the lexicographic one. *)
Fixpoint lex_lt (a b : list Z) : Prop :=
  match a, b with
  | _, [] => False
  | [], _ :: _ => True
  | x :: a, y :: b => x < y \/ x = y /\ lex_lt a b
  end.

Lemma range_ltb_spec a b : zlen a < 2 ^ 63 -> zlen b < 2 ^ 63 -> range_ltb a b = true <-> lex_lt a b.
Proof.
  intros Ha Hb. unfold range_ltb, compare_. rewrite bool_decide_eq_true.
  assert (zlen a <> zlen b -> Z.shiftl (Z.shiftr (u64 (zlen b - zlen a)) 63) 1 - 1 = if decide (zlen a < zlen b) then -1 else 1) as Hsign.
  { intros Hne. pose proof (zlen_nonneg a). pose proof (zlen_nonneg b).
    rewrite Z.shiftl_mul_pow2, Z.shiftr_div_pow2 by lia. unfold wrap. case_decide; [rewrite Z.mod_small by lia; euclid|euclid]. }
  assert (forall a b, let r := traits_compare (Nat.min (length a) (length b)) a b in
    (r < 0 \/ r = 0 /\ zlen a < zlen b <-> lex_lt a b)) as Hlex.
  { clear. induction a as [|x a IH]; intros [|y b]; simpl; unfold zlen in *; simpl in *; [lia..|].
    destruct (decide (x < y)); [split; [by left|lia]|]. destruct (decide (y < x)); [split; [lia|lia]|].
    rewrite <- IH. lia. }
  specialize (Hlex a b). cbv zeta in Hlex. rewrite <- Hlex.
  destruct (decide (traits_compare _ a b = 0 /\ zlen a <> zlen b)) as [[Hz Hne]|Hno].
  - rewrite (Hsign Hne), Hz. case_decide; lia.
  - split; [by left|]. intros [|[Hz Hlt]]; [done|]. exfalso. apply Hno. split; [done|lia].
Qed.

(** ** Occurrences as slices *)

Lemma occurs_slice h n i :
  occurs asciiCaseSensitive h n i <-> 0 <= i /\ i + zlen n <= zlen h /\ slice i (zlen n) h = n.
Proof.
  unfold occurs, asciiCaseSensitive. split; intros (Hi & Hle & H); (split; [done|]); (split; [done|]); unfold zlen in *.
  - apply list_eq. intros k. unfold slice. rewrite Nat2Z.id. destruct (decide (k < length n)%nat) as [Hk|Hk].
    + rewrite lookup_take_lt by done. rewrite lookup_drop.
      apply lookup_lt_is_Some in Hk as [y Hy]. rewrite Hy.
      assert (is_Some (h !! (Z.to_nat i + k)%nat)) as [x Hx] by (apply lookup_lt_is_Some; apply lookup_lt_Some in Hy; lia).
      rewrite Hx. f_equal. eapply bool_decide_eq_true_1. apply (H (Z.of_nat k)); [lia| |by rewrite Nat2Z.id].
      by replace (Z.to_nat (i + Z.of_nat k)) with (Z.to_nat i + k)%nat by lia.
    + rewrite !lookup_ge_None_2; [done|lia|]. rewrite length_take. lia.
  - intros j x y Hj Hx Hy. apply bool_decide_eq_true. pose proof (lookup_lt_Some _ _ _ Hy) as Hlt.
    rewrite <- H in Hy. unfold slice in Hy. rewrite Nat2Z.id, lookup_take_lt, lookup_drop in Hy by done.
    replace (Z.to_nat i + Z.to_nat j)%nat with (Z.to_nat (i + j)) in Hy by lia. congruence.
Qed.

Lemma occurs_drop h n (p : nat) i : (p <= length h)%nat -> 0 <= i ->
  occurs asciiCaseSensitive (drop p h) n i <-> occurs asciiCaseSensitive h n (Z.of_nat p + i).
Proof.
  intros Hp Hi. rewrite !occurs_slice. unfold slice, zlen. rewrite length_drop, drop_drop.
  replace (Z.to_nat (Z.of_nat p + i)) with (p + Z.to_nat i)%nat by lia. split; intros (? & ? & ?); split_and!; try done; lia.
Qed.

(** [find] from a position: the first occurrence there or after. *)
Definition next_occurrence (h n : list Z) (pos : Z) (r : size_type) : Prop :=
  match r with
  | Some i => pos <= i /\ occurs asciiCaseSensitive h n i /\ forall k, pos <= k < i -> ~ occurs asciiCaseSensitive h n k
  | None => forall k, pos <= k -> ~ occurs asciiCaseSensitive h n k
  end.

Lemma find_range_run h n pos :
  0 <= pos -> exists r, find_range n pos h = Ok r h /\ next_occurrence h n pos r.
Proof.
  intros Hpos. unfold find_range. erewrite run_bind by done. destruct (decide (zlen h < pos)) as [Hlt|Hge].
  { exists None. split; [done|]. intros k Hk (_ & ? & _). pose proof (zlen_nonneg n). lia. }
  assert (subpiece pos None h = Ok (drop (Z.to_nat pos) h) h) as Hsub.
  { unfold subpiece. erewrite run_bind by done. rewrite decide_False by lia. unfold mret, M_ret, ret. f_equal.
    unfold slice. apply take_ge. rewrite length_drop. unfold zlen. lia. }
  erewrite run_bind by exact Hsub.
  destruct (qfind_run asciiCaseSensitive (drop (Z.to_nat pos) h) n) as (r & skip & -> & Hr).
  exists (option_map (fun p => p + pos) r). split; [done|].
  assert (forall i, 0 <= i -> occurs asciiCaseSensitive (drop (Z.to_nat pos) h) n i <-> occurs asciiCaseSensitive h n (i + pos)) as Hd.
  { intros i Hi. rewrite occurs_drop by (unfold zlen in *; lia). by replace (Z.of_nat (Z.to_nat pos) + i) with (i + pos) by lia. }
  destruct r as [i|]; simpl in *.
  - destruct Hr as [Ho Hno]. pose proof (proj1 Ho) as Hi. split; [lia|]. split; [by apply Hd|]. intros k Hk Hok.
    apply (Hno (k - pos)); [lia|]. apply Hd; [lia|]. by replace (k - pos + pos) with k by lia.
  - intros k Hk Hok. apply (Hr (k - pos)). apply Hd; [lia|]. by replace (k - pos + pos) with k by lia.
Qed.

Lemma contains_run h n :
  exists b, contains_range n h = Ok b h /\ (b = true <-> exists i, occurs asciiCaseSensitive h n i).
Proof.
  destruct (find_range_run h n 0) as (r & Hr & Hspec); [done|]. exists (bool_decide (r <> None)). split.
  - unfold contains_range. by erewrite run_bind by exact Hr.
  - rewrite bool_decide_eq_true. destruct r as [i|]; simpl in Hspec.
    + split; [|done]. intros _. exists i. apply Hspec.
    + split; [done|]. intros [i Ho]. exfalso. apply (Hspec i); [by destruct Ho|done].
Qed.

Lemma startsWith_run h n : exists b, startsWith n h = Ok b h /\ (b = true <-> occurs asciiCaseSensitive h n 0).
Proof.
  unfold startsWith. erewrite run_bind by done. destruct (decide (zlen n <= zlen h)) as [Hle|Hgt].
  - unfold subpiece. erewrite run_bind; [|unfold mbind, M_bind, bind, get; rewrite decide_False by (pose proof (zlen_nonneg h); lia); done].
    eexists. split; [done|]. rewrite range_eqb_spec, occurs_slice. rewrite Z.min_l by lia. intuition lia.
  - exists false. split; [done|]. split; [done|]. intros (_ & ? & _). lia.
Qed.

Lemma endsWith_run h n : exists b, endsWith n h = Ok b h /\ (b = true <-> occurs asciiCaseSensitive h n (zlen h - zlen n)).
Proof.
  unfold endsWith. erewrite run_bind by done. destruct (decide (zlen n <= zlen h)) as [Hle|Hgt].
  - unfold subpiece. erewrite run_bind; [|unfold mbind, M_bind, bind, get; rewrite decide_False by (pose proof (zlen_nonneg n); lia); done].
    eexists. split; [done|]. rewrite range_eqb_spec, occurs_slice.
    replace (zlen h - (zlen h - zlen n)) with (zlen n) by lia. intuition lia.
  - exists false. split; [done|]. split; [done|]. intros (? & _ & _). lia.
Qed.

(** ** Replacing *)

Lemma replaceAt_run h pos dest :
  0 <= pos -> pos + zlen dest <= zlen h -> zlen h < 2 ^ 63 -> replaceAt pos dest h = Ok true (overwrite pos dest h).
Proof.
  intros Hp Hle Hmax. unfold replaceAt. erewrite run_bind by done. rewrite u64_small by (pose proof (zlen_nonneg dest); lia).
  rewrite decide_False by lia. rewrite bool_decide_eq_true_2 by done. done.
Qed.

(** [replaceAll] ends, keeps the length, and replaces at most as often as the
    source fits. *)
Lemma replaceAll_run h source dest :
  zlen source = zlen dest -> dest <> [] -> zlen h < 2 ^ 62 ->
  exists num h', replaceAll source dest h = Ok num h' /\ zlen h' = zlen h /\ 0 <= num /\ (num - 1) * zlen source <= zlen h.
Proof.
  intros Hsz Hne Hmax. assert (0 < zlen source) as Hpos.
  { rewrite Hsz. unfold zlen. destruct dest; [done|simpl; lia]. }
  assert (wp (replaceAll source dest) h (fun num h' => zlen h' = zlen h /\ 0 <= num /\ (num - 1) * zlen source <= zlen h) nothrow) as Hwp;
    [|by apply wp_ok_inv in Hwp].
  unfold replaceAll. rewrite decide_False by lia. rewrite decide_False by done. apply wp_bind, wp_get.
  apply (wp_iter _ (fun m st h' => zlen h' = zlen h /\ 0 <= st.2 /\ st.1 = st.2 * zlen source /\
    (st.2 - 1) * zlen source <= zlen h /\ Z.of_nat m = Z.max 0 (zlen h + 1 - st.1)))
    with (n := S (length h)).
  - intros m [pos num] h' (Hl & Hnum & Hp & Hle & Hm). cbn [fst snd] in *. unfold replace_round.
    assert (0 <= pos) by nia. destruct (find_range_run h' source pos) as (r & Hr & Hspec); [done|].
    apply wp_bind. eapply wp_ok; [exact Hr|]. destruct r as [found|]; [|by apply wp_ret].
    destruct Hspec as (Hge & (Hf0 & Hfle & _) & _). apply wp_bind. eapply wp_ok; [apply replaceAt_run; lia|].
    apply wp_ret. rewrite u64_small by lia. exists (Z.to_nat (Z.max 0 (zlen h + 1 - (pos + zlen source)))). cbn [fst snd].
    split; [lia|]. rewrite zlen_overwrite by lia. split; [done|]. split; [lia|]. split; [lia|]. split; [lia|lia].
  - lia.
  - cbn [fst snd]. unfold zlen. split; [done|]. split; [lia|]. split; [lia|]. split; [lia|]. lia.
Qed.

(** Replacing the leftmost occurrences that do not overlap. *)
Fixpoint replace_ref (fuel : nat) (source dest h : list Z) : list Z :=
  match fuel, h with
  | S fuel, x :: t =>
      if decide (take (length source) h = source) then dest ++ replace_ref fuel source dest (drop (length source) h)
      else x :: replace_ref fuel source dest t
  | _, _ => h
  end.

(** ** The claims *)

(** C39: [qfind], by its Boyer-Moore loop, returns the first occurrence of
    the needle or [npos] when there is none, under any comparator that is an
    equivalence, without leaving the haystack; [find] from a position,
    [contains], [startsWith] and [endsWith] agree with the occurrences, and
    [operator<] is the lexicographic order. *)
Theorem range_search_exact eq `{!CharEq eq} h n pos :
  0 <= pos ->
  (exists r skip, qfind eq h n = Ok r skip /\ first_occurrence eq h n r) /\
  (exists r, find_range n pos h = Ok r h /\ next_occurrence h n pos r) /\
  (exists b, contains_range n h = Ok b h /\ (b = true <-> exists i, occurs asciiCaseSensitive h n i)) /\
  (exists b, startsWith n h = Ok b h /\ (b = true <-> occurs asciiCaseSensitive h n 0)) /\
  (exists b, endsWith n h = Ok b h /\ (b = true <-> occurs asciiCaseSensitive h n (zlen h - zlen n))) /\
  (zlen h < 2 ^ 63 -> zlen n < 2 ^ 63 -> range_ltb h n = true <-> lex_lt h n).
Proof.
  intros Hpos. split_and!; [by apply qfind_run|by apply find_range_run|apply contains_run|apply startsWith_run|apply endsWith_run|].
  intros. by apply range_ltb_spec.
Qed.

Lemma range_search_exact_witness :
  qfind asciiCaseInsensitive [97; 66; 65; 98; 67] [97; 66; 99] = Ok (Some 2) 0 /\
  exists r skip, qfind asciiCaseInsensitive [97; 66; 65; 98; 67] [97; 66; 99] = Ok r skip /\
    first_occurrence asciiCaseInsensitive [97; 66; 65; 98; 67] [97; 66; 99] r.
Proof.
  split; [vm_compute; reflexivity|].
  apply (range_search_exact asciiCaseInsensitive [97; 66; 65; 98; 67] [97; 66; 99] 0). lia.
Defined.

(** The search for the first byte of a set gives the same answer by the
    sparse byte set, whatever its uninitialised arrays hold, as by comparing
    with every byte of the set, so that the thresholds between the two do not
    matter. *)
Lemma first_byte_of_exact garbage h ns :
  length garbage.1 = 256%nat -> length garbage.2 = 256%nat -> Forall (fun x => 0 <= x < 256) garbage.1 ->
  Forall (fun x => 0 <= x < 256) h -> Forall (fun x => 0 <= x < 256) ns ->
  qfind_first_byte_of_byteset garbage h ns = qfind_first_of asciiCaseSensitive h ns /\
  qfind_first_byte_of_nosse garbage h ns = qfind_first_of asciiCaseSensitive h ns.
Proof.
  intros Hg1 Hg2 Hg Hh Hns. pose proof (byteset_search garbage h ns Hg1 Hg2 Hg Hh Hns) as Hset.
  split; [done|]. unfold qfind_first_byte_of_nosse. destruct (decide (ns = [] \/ h = [])) as [[->| ->]|Hne].
  - clear. unfold qfind_first_of. generalize 0. induction h as [|x h IH]; intros i; [done|]. apply IH.
  - done.
  - by destruct (decide _).
Qed.

Lemma first_byte_of_exact_witness :
  qfind_first_byte_of_nosse (replicate 256 7, replicate 256 0) [5; 0; 9] [7; 8; 9; 9] = Some 2 /\
  qfind_first_byte_of_nosse (replicate 256 7, replicate 256 0) [5; 0; 9] [7; 8; 9; 9] =
    qfind_first_of asciiCaseSensitive [5; 0; 9] [7; 8; 9; 9].
Proof.
  split; [vm_compute; reflexivity|].
  apply (first_byte_of_exact (replicate 256 7, replicate 256 0) [5; 0; 9] [7; 8; 9; 9]);
    [reflexivity|reflexivity|apply Forall_replicate; lia|repeat constructor; lia|repeat constructor; lia].
Defined.

(** [rfind] of a range always ends and what it returns is an occurrence,
    but it is not always the last one: [skip] is taken from the haystack at the
    first mismatch and then kept.  In "abbxb" it does not find "ab", in
    "ababbxb" it returns 0 where "ab" also occurs at 2, and an empty needle is
    found at 0 instead of at the end. *)
Lemma rfind_misses eq h n :
  (exists r skip, rfind eq h n = Ok r skip /\ forall i, r = Some i -> occurs eq h n i) /\
  (rfind asciiCaseSensitive [97; 98; 98; 120; 98] [97; 98] = Ok None 2 /\
   occurs asciiCaseSensitive [97; 98; 98; 120; 98] [97; 98] 0) /\
  (rfind asciiCaseSensitive [97; 98; 97; 98; 98; 120; 98] [97; 98] = Ok (Some 0) 2 /\
   occurs asciiCaseSensitive [97; 98; 97; 98; 98; 120; 98] [97; 98] 2) /\
  rfind eq h [] = Ok (Some 0) 0.
Proof.
  split_and!; [apply rfind_run|vm_compute; reflexivity| |vm_compute; reflexivity| |].
  - apply occurs_slice. split_and!; [lia|done|done].
  - apply occurs_slice. split_and!; [lia|done|done].
  - unfold rfind, rfind_body, nsize. rewrite decide_False by (pose proof (zlen_nonneg h); change (zlen []) with 0; lia). done.
Qed.

(** [replaceAll] throws, without a change, when the sizes differ, and
    otherwise ends after at most as many replacements as fit and keeps the
    length; but it searches on from the number of bytes replaced instead of
    from behind the last replacement, so that it can find the text that it has
    just written: in "xaaaa" the replacement of "aa" by "ba" gives "xbbaa" and
    not "xbaba". *)
Lemma replaceAll_rescans h source dest :
  zlen h < 2 ^ 62 ->
  (zlen source <> zlen dest ->
    replaceAll source dest h = Throw (invalid_argument "replacement must have the same size as source") h) /\
  (zlen source = zlen dest ->
    exists num h', replaceAll source dest h = Ok num h' /\ zlen h' = zlen h /\ 0 <= num /\ (num - 1) * zlen source <= zlen h) /\
  replaceAll [97; 97] [98; 97] [120; 97; 97; 97; 97] = Ok 2 [120; 98; 98; 97; 97] /\
  replace_ref 5 [97; 97] [98; 97] [120; 97; 97; 97; 97] = [120; 98; 97; 98; 97].
Proof.
  intros Hmax. split_and!; [..|vm_compute; reflexivity|vm_compute; reflexivity].
  - intros Hne. unfold replaceAll. by rewrite decide_True.
  - intros Hsz. destruct (decide (dest = [])) as [->|Hd]; [|by apply replaceAll_run].
    exists 0, h. split; [unfold replaceAll; by rewrite decide_False by lia|]. pose proof (zlen_nonneg h). rewrite Hsz. change (zlen []) with 0. lia.
Qed.
