(* ===== verification/StringSplit.v ===== *)
(** * String: splitting, joining and trimming

    [internalSplit], [internalSplitAny], [splitFixed] and [internalJoin] of
    [String-inl.h], [ltrimWhitespace] and [rtrimWhitespace] of [String.cpp].
    Strings are lists of bytes, and the output of a split is the list of its
    tokens. *)

From stdpp Require Import base list strings.
From S2P Require Import Prelude Range RangeOps.

Open Scope Z_scope.

(** A delimiter is a character or a string. *)
Inductive Delim := DChar (c : Z) | DPiece (s : list Z).

Definition delimSize (d : Delim) : Z := match d with DChar _ => 1 | DPiece s => zlen s end.

(** [s] is the text from the position on. *)
Definition atDelim (s : list Z) (d : Delim) : bool :=
  match d with
  | DChar c => bool_decide (head s = Some c)
  | DPiece p => bool_decide (take (length p) s = p)
  end.

Definition delimAnySize (d : Delim) : Z := match d with DChar _ => 1 | DPiece s => Z.min (zlen s) 1 end.

(** The characters of a [StringPiece] are searched by [contains]. *)
Definition atDelimAny (x : Z) (d : Delim) : bool :=
  match d with
  | DChar c => bool_decide (x = c)
  | DPiece p => bool_decide (find_index (asciiCaseSensitive x) p 0 <> None)
  end.

Abbreviation Tokens := (M (list (list Z))).

(** [if (!ignoreEmpty || tokenSize > 0) *out++ = conv(StringPiece(&s[start], size))] *)
Definition emit_token (s : list Z) (ignoreEmpty : bool) (start size : Z) : Tokens unit :=
  if negb ignoreEmpty || bool_decide (0 < size) then modify (fun out => out ++ [slice start size s]) else mret tt.

(** One round, on [i], [tokenStartPos] and [tokenSize]. *)
Definition internalSplit_round (d : Delim) (s : list Z) (ignoreEmpty : bool) (st : Z * Z * Z) : Tokens (Z * Z * Z + Z) :=
  let '(i, tokenStartPos, tokenSize) := st in
  if decide (i <= zlen s - delimSize d) then
    if atDelim (drop (Z.to_nat i) s) d then
      emit_token s ignoreEmpty tokenStartPos tokenSize;;
      mret (inl (i + (delimSize d - 1) + 1, i + delimSize d, 0))
    else mret (inl (i + 1, tokenStartPos, tokenSize + 1))
  else mret (inr tokenStartPos).

Definition internalSplit_loop (d : Delim) (s : list Z) (ignoreEmpty : bool) : Tokens unit :=
  start ← iter (S (S (length s))) (internalSplit_round d s ignoreEmpty) (0, 0, 0);
  emit_token s ignoreEmpty start (zlen s - start).

(** A string of one character is handed to the version for a character. *)
Definition internalSplit (d : Delim) (s : list Z) (ignoreEmpty : bool) : Tokens unit :=
  if decide (zlen s < delimSize d \/ delimSize d = 0) then emit_token s ignoreEmpty 0 (zlen s)
  else match d with
  | DPiece [c] => internalSplit_loop (DChar c) s ignoreEmpty
  | _ => internalSplit_loop d s ignoreEmpty
  end.

Definition splitAny_round (d : Delim) (s : list Z) (ignoreEmpty : bool) (st : Z * Z * Z) : Tokens (Z * Z * Z + Z) :=
  let '(i, tokenStartPos, tokenSize) := st in
  if decide (i < zlen s) then
    if atDelimAny (s !!! Z.to_nat i) d then
      emit_token s ignoreEmpty tokenStartPos tokenSize;; mret (inl (i + 1, i + 1, 0))
    else mret (inl (i + 1, tokenStartPos, tokenSize + 1))
  else mret (inr tokenStartPos).

Definition internalSplitAny (d : Delim) (s : list Z) (ignoreEmpty : bool) : Tokens unit :=
  if decide (zlen s = 0 \/ delimAnySize d = 0) then emit_token s ignoreEmpty 0 (zlen s)
  else
    start ← iter (S (S (length s))) (splitAny_round d s ignoreEmpty) (0, 0, 0);
    emit_token s ignoreEmpty start (zlen s - start).

(** [input.find(delimiter)] *)
Definition find_delim (d : Delim) : RangeM size_type :=
  match d with DChar c => find_char c 0 | DPiece p => find_range p 0 end.

(** [splitFixed<exact>] into [n] strings: the strings, or [false]. *)
Fixpoint splitFixed (exact : bool) (d : Delim) (n : nat) (input : list Z) : res unit (option (list (list Z))) :=
  match find_delim d input with
  | Ok cut _ =>
      match n with
      | O => Fault "no output"
      | S O => if exact && bool_decide (cut <> None) then Ok None tt else Ok (Some [input]) tt
      | S n =>
          match cut with
          | None => Ok None tt
          | Some cut =>
              match splitFixed exact d n (drop (Z.to_nat (cut + delimSize d)) input) with
              | Ok (Some outTail) _ => Ok (Some (take (Z.to_nat cut) input :: outTail)) tt
              | r => r
              end
          end
      end
  | Throw e _ => Throw e tt
  | Fault why => Fault why
  | OutOfFuel => OutOfFuel
  end.

(** ** Joining *)

Definition delim_text (d : Delim) : list Z := match d with DChar c => [c] | DPiece p => p end.

Fixpoint join_loop (d : Delim) (tokens : list (list Z)) (output : list Z) : list Z :=
  match tokens with
  | [] => output
  | t :: tokens => join_loop d tokens ((output ++ delim_text d) ++ t)
  end.

(** [internalJoin] with [internalJoinAppend]. *)
Definition internalJoin (d : Delim) (tokens : list (list Z)) (output : list Z) : list Z :=
  match tokens with
  | [] => []
  | t :: tokens => join_loop d tokens ([] ++ t)
  end.

(** ** Trimming *)

Definition is_oddspace (c : Z) : bool := bool_decide (c = 10) || bool_decide (c = 9) || bool_decide (c = 13).

(** The loops of both functions, for either end of the range: [peek] is
    [front] or [back], [pop] is [pop_front] or [pop_back]. *)
Section Trim.
Context (peek : list Z -> option Z) (pop : list Z -> list Z).

(** [for (; !sp.empty() && sp.front() == ' '; sp.pop_front())] *)
Fixpoint skip_spaces (fuel : nat) (sp : list Z) : option (list Z) :=
  match fuel with
  | O => None
  | S fuel => if decide (peek sp = Some 32) then skip_spaces fuel (pop sp) else Some sp
  end.

(** From the label [loop] on. *)
Fixpoint trim_loop (fuel : nat) (sp : list Z) : option (list Z) :=
  match fuel with
  | O => None
  | S fuel =>
      sp ← skip_spaces (S (length sp)) sp;
      match peek sp with
      | Some c => if is_oddspace c then trim_loop fuel (pop sp) else Some sp
      | None => Some sp
      end
  end.
End Trim.

Definition ltrimWhitespace (sp : list Z) : option (list Z) := trim_loop head tail (S (length sp)) sp.

Definition rtrimWhitespace (sp : list Z) : option (list Z) := trim_loop last (@removelast Z) (S (length sp)) sp.

(** ** The reference: splitting at the leftmost occurrences *)

Fixpoint first_match (p s : list Z) : option nat :=
  if decide (take (length p) s = p) then Some 0%nat
  else match s with [] => None | _ :: s => S <$> first_match p s end.

Fixpoint tokens_of (fuel : nat) (p s : list Z) : list (list Z) :=
  match fuel with
  | O => [s]
  | S fuel =>
      match first_match p s with
      | None => [s]
      | Some i => take i s :: tokens_of fuel p (drop (i + length p) s)
      end
  end.

Definition tokens (p s : list Z) : list (list Z) := if decide (p = []) then [s] else tokens_of (S (length s)) p s.

(** The text of the tokens with the delimiter between them. *)
Definition join_text (p : list Z) (ts : list (list Z)) : list Z :=
  match ts with [] => [] | t :: ts => t ++ concat ((fun t => p ++ t) <$> ts) end.

Definition non_empty (ignoreEmpty : bool) (ts : list (list Z)) : list (list Z) :=
  if ignoreEmpty then filter (fun t => t <> []) ts else ts.

(** ** Leftmost occurrences *)

Definition match_at (p s : list Z) (k : nat) : Prop := take (length p) (drop k s) = p.

Lemma first_match_some p s i : first_match p s = Some i -> match_at p s i /\ forall k, (k < i)%nat -> ~ match_at p s k.
Proof.
  revert i. induction s as [|x s IH]; intros i; simpl.
  - destruct (decide _) as [Hm|Hm]; [|done]. intros [= <-]. split; [done|intros k Hk; lia].
  - destruct (decide _) as [Hm|Hm]; [intros [= <-]; split; [done|intros k Hk; lia]|].
    destruct (first_match p s) as [j|] eqn:Hj; [|done]. intros [= <-]. destruct (IH j eq_refl) as [Hat Hno].
    split; [done|]. intros [|k] Hk; [done|]. apply Hno. lia.
Qed.

Lemma first_match_none p s : p <> [] -> first_match p s = None -> forall k, ~ match_at p s k.
Proof.
  intros Hp. induction s as [|x s IH]; simpl; destruct (decide _) as [Hm|Hm]; try done.
  - intros _ k. unfold match_at. rewrite drop_nil, take_nil. congruence.
  - destruct (first_match p s) as [j|]; [done|]. intros _ [|k]; [done|]. by apply IH.
Qed.

Lemma first_match_intro p s i :
  p <> [] -> match_at p s i -> (forall k, (k < i)%nat -> ~ match_at p s k) -> first_match p s = Some i.
Proof.
  intros Hp Hat Hno. destruct (first_match p s) as [j|] eqn:Hj.
  - apply first_match_some in Hj as [Hatj Hnoj]. f_equal.
    destruct (lt_eq_lt_dec j i) as [[Hlt|Heq]|Hlt]; [by destruct (Hno j)|done|by destruct (Hnoj i)].
  - by destruct (first_match_none p s Hp Hj i).
Qed.

Lemma match_at_drop p s t k : match_at p (drop t s) k <-> match_at p s (t + k).
Proof. unfold match_at. by rewrite drop_drop. Qed.

Lemma match_at_fits p s k : match_at p s k -> p <> [] -> (k + length p <= length s)%nat.
Proof.
  intros Hm Hp. assert (length (take (length p) (drop k s)) = length p) as Hl by (by rewrite Hm).
  rewrite length_take, length_drop in Hl. assert (0 < length p)%nat by (destruct p; [done|simpl; lia]). lia.
Qed.

Lemma tokens_of_fuel p s f f' :
  p <> [] -> (length s < f)%nat -> (length s < f')%nat -> tokens_of f p s = tokens_of f' p s.
Proof.
  intros Hp. revert s f'. induction f as [|f IH]; intros s [|f'] Hf Hf'; [lia|lia|lia|]. simpl.
  destruct (first_match p s) as [i|] eqn:Hi; [|done]. f_equal. apply first_match_some in Hi as [Hm _].
  apply match_at_fits in Hm; [|done]. assert (0 < length p)%nat by (destruct p; [done|simpl; lia]).
  apply IH; rewrite length_drop; lia.
Qed.

Lemma tokens_step p s :
  p <> [] -> tokens p s = match first_match p s with None => [s] | Some i => take i s :: tokens p (drop (i + length p) s) end.
Proof.
  intros Hp. unfold tokens at 1. rewrite decide_False by done. cbn [tokens_of].
  destruct (first_match p s) as [i|] eqn:Hi; [|done]. f_equal. unfold tokens. rewrite decide_False by done. apply first_match_some in Hi as [Hm _].
  apply match_at_fits in Hm; [|done]. assert (0 < length p)%nat by (destruct p; [done|simpl; lia]).
  apply tokens_of_fuel; [done|rewrite length_drop; lia|lia].
Qed.

(** Induction along the tokens. *)
Lemma tokens_ind (P : list Z -> list (list Z) -> Prop) p :
  p <> [] ->
  (forall s, first_match p s = None -> P s [s]) ->
  (forall s i, first_match p s = Some i -> P (drop (i + length p) s) (tokens p (drop (i + length p) s)) ->
    P s (take i s :: tokens p (drop (i + length p) s))) ->
  forall s, P s (tokens p s).
Proof.
  intros Hp Hnone Hsome s. remember (length s) as m eqn:Hm. revert s Hm.
  induction m as [m IH] using (well_founded_induction lt_wf). intros s ->. rewrite tokens_step by done.
  destruct (first_match p s) as [i|] eqn:Hi; [|by apply Hnone]. apply Hsome; [done|].
  eapply IH; [|done]. apply first_match_some in Hi as [Hmi _]. apply match_at_fits in Hmi; [|done].
  assert (0 < length p)%nat by (destruct p; [done|simpl; lia]). rewrite length_drop. lia.
Qed.

Lemma join_text_cons p t ts : ts <> [] -> join_text p (t :: ts) = t ++ p ++ join_text p ts.
Proof. destruct ts as [|u ts]; [done|]. intros _. simpl. by rewrite <- !app_assoc. Qed.

Lemma tokens_nonempty p s : tokens p s <> [].
Proof. unfold tokens. case_decide; [done|]. cbn [tokens_of]. by destruct (first_match p s). Qed.

Lemma join_tokens p s : p <> [] -> join_text p (tokens p s) = s.
Proof.
  intros Hp. revert s. apply (tokens_ind (fun s ts => join_text p ts = s)); [done|..].
  - intros s _. simpl. apply app_nil_r.
  - intros s i Hi IH. rewrite join_text_cons by apply tokens_nonempty. rewrite IH.
    apply first_match_some in Hi as [Hm _]. unfold match_at in Hm. rewrite <- Hm at 1.
    rewrite <- drop_drop. by rewrite take_drop, take_drop.
Qed.

Lemma tokens_clean p s : p <> [] -> Forall (fun t => forall k, ~ match_at p t k) (tokens p s).
Proof.
  intros Hp. revert s. apply (tokens_ind (fun s ts => Forall (fun t => forall k, ~ match_at p t k) ts)); [done|..].
  - intros s Hs. constructor; [by apply first_match_none|constructor].
  - intros s i Hi IH. constructor; [|done]. apply first_match_some in Hi as [_ Hno]. intros k Hk.
    pose proof (match_at_fits _ _ _ Hk Hp) as Hf. rewrite length_take in Hf.
    assert (0 < length p)%nat by (destruct p; [done|simpl; lia]). apply (Hno k); [lia|].
    unfold match_at in *. rewrite skipn_firstn_comm, take_take in Hk. by rewrite Nat.min_l in Hk by lia.
Qed.

(** ** The loop of internalSplit *)

Lemma delimSize_text d : delimSize d = zlen (delim_text d).
Proof. by destruct d. Qed.

Section Split.
Context (d : Delim) (s : list Z) (ign : bool) (Hd : delim_text d <> []).
Abbreviation p := (delim_text d).

Lemma delimSize_pos : 0 < zlen p.
Proof. unfold zlen. destruct p; [done|simpl; lia]. Qed.

Lemma atDelim_match i : atDelim (drop i s) d = true <-> match_at p s i.
Proof.
  unfold atDelim, match_at. destruct d as [c|q]; rewrite bool_decide_eq_true; [|done]. simpl.
  destruct (drop i s); [done|]. simpl. rewrite take_0. split; congruence.
Qed.

Lemma emit_token_run start size out :
  0 <= start -> 0 <= size -> start + size <= zlen s ->
  emit_token s ign start size out = Ok tt (out ++ non_empty ign [slice start size s]).
Proof.
  intros Hst Hsz Hle. pose proof (zlen_slice start size s Hst Hsz Hle) as Hl. unfold emit_token, non_empty.
  destruct ign; [|done]. simpl. case_bool_decide as Hpos.
  - rewrite filter_cons_True; [done|]. intros He. rewrite He in Hl. change (zlen []) with 0 in Hl. lia.
  - rewrite filter_cons_False.
    + unfold mret, M_ret, ret. by rewrite app_nil_r.
    + intros Hne. apply Hne. destruct (slice start size s); [done|]. unfold zlen in Hl. simpl in Hl. lia.
Qed.

Lemma non_empty_app ts ts' : non_empty ign (ts ++ ts') = non_empty ign ts ++ non_empty ign ts'.
Proof. unfold non_empty. destruct ign; [apply filter_app|done]. Qed.

(** From a token that starts at [t]: the loop emits all tokens but the last. *)
Lemma split_loop_run t z out fuel :
  0 <= t -> 0 <= z -> t <= zlen s -> t + z <= zlen s + 1 -> zlen s + 1 - (t + z) < Z.of_nat fuel ->
  (forall k, (Z.to_nat t <= k < Z.to_nat (t + z))%nat -> ~ match_at p s k) ->
  exists start ts, iter fuel (internalSplit_round d s ign) (t + z, t, z) out = Ok start (out ++ non_empty ign ts) /\
    0 <= start <= zlen s /\ tokens p (drop (Z.to_nat t) s) = ts ++ [drop (Z.to_nat start) s].
Proof.
  pose proof delimSize_pos as Hpos.
  revert t z out. induction fuel as [|fuel IH]; intros t z out Ht Hz Htl Hl Hf Hno; [lia|].
  cbn [iter]. unfold bind at 1, internalSplit_round at 1. rewrite delimSize_text.
  destruct (decide (t + z <= zlen s - zlen p)) as [Hle|Hgt].
  - destruct (atDelim (drop (Z.to_nat (t + z)) s) d) eqn:Hat.
    + apply atDelim_match in Hat.
      erewrite run_bind by (apply emit_token_run; lia).
      destruct (IH (t + z + zlen p) 0 (out ++ non_empty ign [slice t z s])) as (start & ts & Hrun & Hst & Htok);
        [lia|lia|lia|lia|lia|intros k Hk; lia|].
      exists start, (slice t z s :: ts). replace (t + z + (zlen p - 1) + 1) with (t + z + zlen p + 0) by lia.
      split; [|split; [done|]].
      * etransitivity; [exact Hrun|]. f_equal. change (slice t z s :: ts) with ([slice t z s] ++ ts).
        by rewrite non_empty_app, app_assoc.
      * rewrite tokens_step by done. rewrite (first_match_intro _ _ (Z.to_nat z)).
        -- simpl. f_equal. rewrite <- Htok. f_equal. rewrite drop_drop. f_equal. unfold zlen. lia.
        -- done.
        -- rewrite match_at_drop. by replace (Z.to_nat t + Z.to_nat z)%nat with (Z.to_nat (t + z)) by lia.
        -- intros k Hk. rewrite match_at_drop. apply Hno. lia.
    + destruct (IH t (z + 1) out) as (start & ts & Hrun & Hst & Htok); [lia|lia|lia|lia|lia|..].
      * intros k Hk. destruct (decide (k = Z.to_nat (t + z))) as [->|Hne]; [|apply Hno; lia].
        rewrite <- atDelim_match. by rewrite Hat.
      * exists start, ts. split; [|done]. rewrite <- Hrun. by replace (t + (z + 1)) with (t + z + 1) by lia.
  - exists t, []. split; [unfold non_empty; destruct ign; by rewrite app_nil_r|]. split; [lia|].
    rewrite tokens_step by done.
    destruct (first_match p (drop (Z.to_nat t) s)) as [i|] eqn:Hi; [|done]. exfalso.
    apply first_match_some in Hi as [Hm _]. rewrite match_at_drop in Hm.
    pose proof (match_at_fits _ _ _ Hm Hd) as Hfit. unfold zlen in *. apply (Hno (Z.to_nat t + i)%nat); [lia|done].
Qed.

Lemma internalSplit_loop_run out : internalSplit_loop d s ign out = Ok tt (out ++ non_empty ign (tokens p s)).
Proof.
  pose proof (zlen_nonneg s).
  destruct (split_loop_run 0 0 out (S (S (length s)))) as (start & ts & Hrun & Hst & Htok);
    [lia|lia|lia|lia|unfold zlen; lia|intros k Hk; lia|].
  unfold internalSplit_loop. erewrite run_bind by exact Hrun.
  rewrite emit_token_run by lia. change (drop (Z.to_nat 0) s) with s in Htok. rewrite Htok, non_empty_app, <- app_assoc.
  do 4 f_equal. unfold slice. rewrite take_ge; [done|]. rewrite length_drop. unfold zlen. lia.
Qed.
End Split.

Lemma internalSplit_run d s ign out :
  internalSplit d s ign out = Ok tt (out ++ non_empty ign (tokens (delim_text d) s)).
Proof.
  unfold internalSplit. pose proof (zlen_nonneg s).
  destruct (decide (zlen s < delimSize d \/ delimSize d = 0)) as [Hshort|Hlong].
  - rewrite emit_token_run by lia. rewrite slice_full. do 3 f_equal. unfold tokens.
    destruct (decide (delim_text d = [])) as [|Hne]; [done|]. cbn [tokens_of].
    destruct (first_match (delim_text d) s) as [i|] eqn:Hi; [|done]. exfalso.
    apply first_match_some in Hi as [Hm _]. pose proof (match_at_fits _ _ _ Hm Hne) as Hf.
    pose proof (delimSize_pos d Hne). rewrite delimSize_text in Hshort. unfold zlen in *. lia.
  - assert (delim_text d <> []) as Hne.
    { intros He. apply Hlong. right. rewrite delimSize_text, He. done. }
    destruct d as [c|[|c [|c' q]]]; [by apply internalSplit_loop_run|done| |by apply internalSplit_loop_run].
    by rewrite (internalSplit_loop_run (DChar c)).
Qed.

Lemma internalJoin_run d ts out : internalJoin d ts out = join_text (delim_text d) ts.
Proof.
  destruct ts as [|t ts]; [done|]. simpl. generalize t as acc. clear t.
  induction ts as [|u ts IH]; intros acc; simpl; [by rewrite app_nil_r|]. rewrite IH. by rewrite <- !app_assoc.
Qed.

(** Tokens without the character are found again. *)
Lemma split_joined c ts : ts <> [] -> Forall (fun t => c ∉ t) ts -> tokens [c] (join_text [c] ts) = ts.
Proof.
  assert (forall (t rest : list Z) k, c ∉ t -> match_at [c] (t ++ rest) k -> (length t <= k)%nat) as Hout.
  { intros t rest k Hc Hm. destruct (decide (length t <= k)%nat) as [|Hlt]; [done|]. exfalso.
    unfold match_at in Hm. apply Hc. assert (is_Some (t !! k)) as [x Hx] by (apply lookup_lt_is_Some; lia).
    rewrite (drop_S (t ++ rest) x) in Hm by (by apply lookup_app_l_Some). simpl in Hm. rewrite take_0 in Hm.
    injection Hm as ->. by eapply list_elem_of_lookup_2. }
  induction ts as [|t ts IH]; intros Hne Hall; [done|]. apply Forall_cons in Hall as [Ht Hall].
  rewrite tokens_step by done. destruct ts as [|u ts].
  - simpl. rewrite app_nil_r. destruct (first_match [c] t) as [i|] eqn:Hi; [|done]. exfalso.
    apply first_match_some in Hi as [Hm _]. pose proof (match_at_fits _ _ _ Hm ltac:(done)) as Hf.
    rewrite <- (app_nil_r t) in Hm. apply Hout in Hm; [|done]. simpl in Hf. lia.
  - rewrite join_text_cons by done. rewrite (first_match_intro _ _ (length t)); [|done|..].
    + rewrite take_app_length. f_equal. rewrite <- drop_drop, drop_app_length.
      change (drop (length [c]) ([c] ++ join_text [c] (u :: ts))) with (join_text [c] (u :: ts)). by apply IH.
    + unfold match_at. rewrite drop_app_length. done.
    + intros k Hk Hm. apply Hout in Hm; [lia|done].
Qed.

(** ** splitAny *)

Fixpoint tokens_if (f : Z -> bool) (s : list Z) : list (list Z) :=
  match s with
  | [] => [[]]
  | x :: s => if f x then [] :: tokens_if f s
              else match tokens_if f s with t :: ts => (x :: t) :: ts | [] => [[x]] end
  end.

Lemma tokens_if_app f a b :
  Forall (fun x => f x = false) a ->
  tokens_if f (a ++ b) = match tokens_if f b with t :: ts => (a ++ t) :: ts | [] => [a] end.
Proof.
  assert (tokens_if f b <> []) as Hb.
  { destruct b as [|x b]; [done|]. simpl. destruct (f x); [done|]. by destruct (tokens_if f b). }
  induction 1 as [|x a Hx Ha IH]; simpl; [by destruct (tokens_if f b)|]. rewrite Hx, IH. by destruct (tokens_if f b).
Qed.

Lemma tokens_if_clean f s : Forall (fun x => f x = false) s -> tokens_if f s = [s].
Proof. intros H. rewrite <- (app_nil_r s) at 1. rewrite tokens_if_app by done. simpl. by rewrite app_nil_r. Qed.

Section SplitAny.
Context (d : Delim) (s : list Z) (ign : bool).
Abbreviation f := (fun x => atDelimAny x d).

Lemma splitAny_loop_run t z out fuel :
  0 <= t -> 0 <= z -> t + z <= zlen s -> zlen s - (t + z) < Z.of_nat fuel ->
  Forall (fun x => f x = false) (slice t z s) ->
  exists start ts, iter fuel (splitAny_round d s ign) (t + z, t, z) out = Ok start (out ++ non_empty ign ts) /\
    0 <= start <= zlen s /\ tokens_if f (drop (Z.to_nat t) s) = ts ++ [drop (Z.to_nat start) s].
Proof.
  revert t z out. induction fuel as [|fuel IH]; intros t z out Ht Hz Hl Hf Hno; [lia|].
  assert (drop (Z.to_nat t) s = slice t z s ++ drop (Z.to_nat (t + z)) s) as Hsplit.
  { unfold slice. rewrite Z2Nat.inj_add, <- drop_drop, take_drop by lia. done. }
  cbn [iter]. unfold bind at 1, splitAny_round at 1. destruct (decide (t + z < zlen s)) as [Hlt|Hge].
  - destruct (lookup_in s (t + z)) as [x Hx]; [lia|]. rewrite list_lookup_total_alt, Hx. cbn [default from_option id].
    rewrite (drop_S _ _ _ Hx) in Hsplit.
    assert (drop (S (Z.to_nat (t + z))) s = drop (Z.to_nat (t + z + 1)) s) as Hnext by (f_equal; lia).
    destruct (atDelimAny x d) eqn:Hat.
    + erewrite run_bind by (apply emit_token_run; lia).
      destruct (IH (t + z + 1) 0 (out ++ non_empty ign [slice t z s])) as (start & ts & Hrun & Hst & Htok);
        [lia|lia|lia|lia|rewrite slice_0; constructor|].
      exists start, (slice t z s :: ts). rewrite Z.add_0_r in Hrun. split; [|split; [done|]].
      * etransitivity; [exact Hrun|]. f_equal. change (slice t z s :: ts) with ([slice t z s] ++ ts).
        by rewrite non_empty_app, app_assoc.
      * rewrite Hsplit, tokens_if_app by done. simpl. rewrite Hat, app_nil_r, Hnext, Htok. done.
    + destruct (IH t (z + 1) out) as (start & ts & Hrun & Hst & Htok); [lia|lia|lia|lia|..].
      * replace (z + 1) with (t + z + 1 - t) by lia. replace (t + z + 1 - t) with (z + 1) by lia.
        rewrite slice_split by lia. apply Forall_app. split; [done|]. unfold slice. rewrite (drop_S _ _ _ Hx). by constructor.
      * exists start, ts. split; [|done]. rewrite <- Hrun. by replace (t + (z + 1)) with (t + z + 1) by lia.
  - exists t, []. split; [unfold non_empty; destruct ign; by rewrite app_nil_r|]. split; [lia|].
    apply tokens_if_clean. rewrite Hsplit. apply Forall_app. split; [done|]. rewrite drop_ge by (unfold zlen in *; lia). constructor.
Qed.

Lemma internalSplitAny_run out : internalSplitAny d s ign out = Ok tt (out ++ non_empty ign (tokens_if f s)).
Proof.
  pose proof (zlen_nonneg s). unfold internalSplitAny. destruct (decide (zlen s = 0 \/ delimAnySize d = 0)) as [Hz|Hnz].
  - rewrite emit_token_run by lia. rewrite slice_full, tokens_if_clean; [done|]. destruct Hz as [Hz|Hz].
    + destruct s; [constructor|]. unfold zlen in Hz. simpl in Hz. lia.
    + destruct d as [c|[|c q]]; simpl in Hz; [done| |unfold zlen in Hz; simpl in Hz; lia].
      apply Forall_forall. by intros x _.
  - destruct (splitAny_loop_run 0 0 out (S (S (length s)))) as (start & ts & Hrun & Hst & Htok);
      [lia|lia|lia|unfold zlen; lia|rewrite slice_0; constructor|].
    erewrite run_bind by exact Hrun. rewrite emit_token_run by lia.
    change (drop (Z.to_nat 0) s) with s in Htok. rewrite Htok, non_empty_app, <- app_assoc.
    do 4 f_equal. unfold slice. rewrite take_ge; [done|]. rewrite length_drop. unfold zlen. lia.
Qed.
End SplitAny.

(** ** splitFixed *)

Lemma find_char_match c s i : find_index (asciiCaseSensitive c) s i = (fun k => i + Z.of_nat k) <$> first_match [c] s.
Proof.
  revert i. induction s as [|x s IH]; intros i; [done|]. simpl. rewrite take_0. unfold asciiCaseSensitive at 1.
  case_bool_decide as Hc.
  - subst. rewrite decide_True by done. simpl. f_equal. lia.
  - rewrite decide_False by congruence. rewrite IH. destruct (first_match [c] s); simpl; [|done]. f_equal. lia.
Qed.

Lemma occurs_match p s i : p <> [] -> occurs asciiCaseSensitive s p (Z.of_nat i) <-> match_at p s i.
Proof.
  intros Hp. rewrite occurs_slice. unfold match_at, slice. rewrite Nat2Z.id.
  unfold zlen. rewrite Nat2Z.id. split; [by intros (_ & _ & ?)|]. intros Hm.
  pose proof (match_at_fits _ _ _ Hm Hp). split; [lia|]. split; [lia|done].
Qed.

Lemma find_delim_run d s : delim_text d <> [] -> find_delim d s = Ok (Z.of_nat <$> first_match (delim_text d) s) s.
Proof.
  intros Hd. destruct d as [c|p]; simpl in *.
  - unfold find_char, subpiece. erewrite run_bind by done. pose proof (zlen_nonneg s). rewrite decide_False by lia.
    erewrite run_bind; [|unfold mbind, M_bind, bind, get; rewrite decide_False by lia; done].
    rewrite Z.sub_0_r, slice_full, find_char_match. unfold mret, M_ret, ret. f_equal.
    destruct (first_match [c] s); simpl; [f_equal; lia|done].
  - destruct (find_range_run s p 0) as (r & -> & Hr); [done|]. f_equal. destruct r as [i|]; simpl in Hr.
    + destruct Hr as (Hi & Ho & Hno). rewrite (first_match_intro _ _ (Z.to_nat i)); [simpl; f_equal; lia|done|..].
      * apply occurs_match; [done|]. by rewrite Z2Nat.id.
      * intros k Hk Hm. apply (Hno (Z.of_nat k)); [lia|]. by apply occurs_match.
    + destruct (first_match p s) as [i|] eqn:Hi; [|done]. exfalso. apply first_match_some in Hi as [Hm _].
      apply (Hr (Z.of_nat i)); [lia|]. by apply occurs_match.
Qed.

(** Exactly as many tokens as there are outputs. *)
Lemma splitFixed_run d n s :
  delim_text d <> [] ->
  splitFixed true d (S n) s =
    Ok (if decide (length (tokens (delim_text d) s) = S n) then Some (tokens (delim_text d) s) else None) tt.
Proof.
  intros Hd. revert s. induction n as [|n IH]; intros s; cbn [splitFixed]; rewrite find_delim_run by done;
    rewrite (tokens_step _ s) by done; destruct (first_match (delim_text d) s) as [i|] eqn:Hi; cbn [fmap option_fmap option_map].
  - rewrite bool_decide_eq_true_2 by done. simpl. rewrite decide_False; [done|]. cbn [length].
    pose proof (tokens_nonempty (delim_text d) (drop (i + length (delim_text d)) s)). destruct (tokens _ _); [done|simpl; lia].
  - rewrite bool_decide_eq_false_2 by (intros H; by apply H). simpl. done.
  - change (splitFixed true d (S n)) with (splitFixed true d (S n)). cbn [splitFixed] in IH.
    replace (Z.to_nat (Z.of_nat i + delimSize d)) with (i + length (delim_text d))%nat by (rewrite delimSize_text; unfold zlen; lia).
    rewrite IH. rewrite Nat2Z.id. cbn [length]. repeat case_decide; done || lia.
  - rewrite decide_False by (simpl; lia). done.
Qed.

(** ** Trimming *)

Definition is_space (c : Z) : Prop := c = 32 \/ is_oddspace c = true.

Section TrimCorrect.
Context (peek : list Z -> option Z) (pop : list Z -> list Z).
Context (Hpop : forall sp c, peek sp = Some c -> (length (pop sp) < length sp)%nat).

(** [r] is what is left of [sp] after white space has been taken. *)
Inductive strips : list Z -> list Z -> Prop :=
  | strips_refl sp : strips sp sp
  | strips_pop sp c r : peek sp = Some c -> is_space c -> strips (pop sp) r -> strips sp r.

Lemma strips_trans a b r : strips a b -> strips b r -> strips a r.
Proof. induction 1; [done|]. intros. econstructor; eauto. Qed.

Lemma skip_spaces_run fuel sp :
  (length sp < fuel)%nat ->
  exists r, skip_spaces peek pop fuel sp = Some r /\ strips sp r /\ peek r <> Some 32 /\ (length r <= length sp)%nat.
Proof.
  revert sp. induction fuel as [|fuel IH]; intros sp Hf; [lia|]. simpl. destruct (decide (peek sp = Some 32)) as [Hp|Hp].
  - pose proof (Hpop _ _ Hp). destruct (IH (pop sp)) as (r & -> & Hs & Hr & Hl); [lia|].
    exists r. split; [done|]. split; [|split; [done|lia]]. econstructor; [done|by left|done].
  - exists sp. split; [done|]. split; [constructor|]. split; [done|lia].
Qed.

Lemma trim_loop_run fuel sp :
  (length sp < fuel)%nat ->
  exists r, trim_loop peek pop fuel sp = Some r /\ strips sp r /\ forall c, peek r = Some c -> ~ is_space c.
Proof.
  revert sp. induction fuel as [|fuel IH]; intros sp Hf; [lia|]. cbn [trim_loop].
  destruct (skip_spaces_run (S (length sp)) sp) as (r & -> & Hs & Hr & Hl); [lia|]. cbn [mbind option_bind].
  destruct (peek r) as [c|] eqn:Hc; [|by exists r; rewrite Hc]. destruct (is_oddspace c) eqn:Ho.
  - pose proof (Hpop _ _ Hc). destruct (IH (pop r)) as (r' & -> & Hs' & Hr'); [lia|]. exists r'. split; [done|]. split; [|done].
    eapply strips_trans; [done|]. econstructor; [done|by right|done].
  - exists r. split; [done|]. split; [done|]. rewrite Hc. intros ? [= <-] [->|?]; congruence.
Qed.
End TrimCorrect.

Lemma strips_prefix a b : strips head tail a b -> exists ws, a = ws ++ b /\ Forall is_space ws.
Proof.
  induction 1 as [sp|sp c r Hp Hc _ (ws & Hws & Hall)]; [by exists []|].
  destruct sp as [|x sp]; [done|]. simpl in *. simplify_eq. exists (c :: ws). split; [done|]. by constructor.
Qed.

Lemma strips_suffix a b : strips last (@removelast Z) a b -> exists ws, a = b ++ ws /\ Forall is_space ws.
Proof.
  induction 1 as [sp|sp c r Hp Hc _ (ws & Hws & Hall)]; [exists []; by rewrite app_nil_r|].
  destruct sp as [|x sp _] using rev_ind; [done|]. rewrite last_snoc in Hp. rewrite removelast_last in Hws. simplify_eq.
  exists (ws ++ [c]). split; [by rewrite app_assoc|]. apply Forall_app. split; [done|]. by constructor.
Qed.

Lemma ltrim_run sp :
  exists r ws, ltrimWhitespace sp = Some r /\ sp = ws ++ r /\ Forall is_space ws /\ forall c, head r = Some c -> ~ is_space c.
Proof.
  destruct (trim_loop_run head tail) with (fuel := S (length sp)) (sp := sp) as (r & Hr & Hs & Hend); [|lia|].
  { intros [|x l] c; [done|]. simpl. lia. }
  apply strips_prefix in Hs as (ws & Hws & Hall). by exists r, ws.
Qed.

Lemma rtrim_run sp :
  exists r ws, rtrimWhitespace sp = Some r /\ sp = r ++ ws /\ Forall is_space ws /\ forall c, last r = Some c -> ~ is_space c.
Proof.
  destruct (trim_loop_run last (@removelast Z)) with (fuel := S (length sp)) (sp := sp) as (r & Hr & Hs & Hend); [|lia|].
  { intros l c Hc. destruct l as [|x l _] using rev_ind; [done|]. rewrite removelast_last, length_app. simpl. lia. }
  apply strips_suffix in Hs as (ws & Hws & Hall). by exists r, ws.
Qed.

(** [internalSplit] cuts a string at the leftmost occurrences of a
    delimiter: the tokens, joined again by [internalJoin], are the string, none
    of them holds the delimiter, [ignoreEmpty] drops the empty ones and no
    others, and [splitFixed<true>] succeeds exactly when their number is that
    of its outputs.  Strings without a character, joined by it, are split into
    themselves. *)
Lemma split_join_inverse d s n :
  delim_text d <> [] ->
  exists ts, internalSplit d s false [] = Ok tt ts /\ internalSplit d s true [] = Ok tt (filter (fun t => t <> []) ts) /\
    internalJoin d ts [] = s /\ Forall (fun t => forall k, ~ match_at (delim_text d) t k) ts /\
    splitFixed true d (S n) s = Ok (if decide (length ts = S n) then Some ts else None) tt /\
    (forall c us, us <> [] -> Forall (fun t => c ∉ t) us ->
      internalSplit (DChar c) (internalJoin (DChar c) us []) false [] = Ok tt us).
Proof.
  intros Hd. exists (tokens (delim_text d) s). rewrite !internalSplit_run, internalJoin_run. split_and!; try done.
  - by apply join_tokens.
  - by apply tokens_clean.
  - by apply splitFixed_run.
  - intros c us Hne Hus. rewrite internalJoin_run, internalSplit_run. simpl. by rewrite split_joined.
Qed.

Lemma split_join_inverse_witness :
  internalSplit (DPiece [44; 44]) [1; 44; 44; 44; 2; 44; 44] true [] = Ok tt [[1]; [44; 2]] /\
  exists ts, internalSplit (DPiece [44; 44]) [1; 44; 44; 44; 2; 44; 44] false [] = Ok tt ts /\
    internalJoin (DPiece [44; 44]) ts [] = [1; 44; 44; 44; 2; 44; 44].
Proof.
  split; [vm_compute; reflexivity|].
  destruct (split_join_inverse (DPiece [44; 44]) [1; 44; 44; 44; 2; 44; 44] 2) as (ts & H1 & _ & H2 & _); [discriminate|].
  exists ts. split; [exact H1|exact H2].
Defined.

(** [splitAny] cuts a string at every character of the delimiters and at
    no other, and trimming removes the longest run of spaces, tabs and line
    ends at its end of the string and nothing else; all loops end. *)
Lemma splitAny_trim_exact d s ign out :
  internalSplitAny d s ign out = Ok tt (out ++ non_empty ign (tokens_if (fun x => atDelimAny x d) s)) /\
  Forall (Forall (fun x => atDelimAny x d = false)) (tokens_if (fun x => atDelimAny x d) s) /\
  (exists r ws, ltrimWhitespace s = Some r /\ s = ws ++ r /\ Forall is_space ws /\ forall c, head r = Some c -> ~ is_space c) /\
  (exists r ws, rtrimWhitespace s = Some r /\ s = r ++ ws /\ Forall is_space ws /\ forall c, last r = Some c -> ~ is_space c).
Proof.
  split_and!; [apply internalSplitAny_run| |apply ltrim_run|apply rtrim_run].
  induction s as [|x s IH]; simpl; [by repeat constructor|]. destruct (atDelimAny x d) eqn:Hx.
  - by constructor.
  - destruct (tokens_if _ s) as [|t ts]; [by repeat constructor|]. apply Forall_cons in IH as [Ht Hts].
    constructor; [by constructor|done].
Qed.
