(* ===== verification/Dynamic.v ===== *)
(** * dynamic: values of a type known at run time

    [src/accelerator/dynamic.h], [dynamic-inl.h], [dynamic.cpp].  A [dynamic] is a
    tagged union; an object is an unordered map, here the list of its items, and
    the order in which a loop over the map sees them is a parameter ([Unordered]),
    as are the numbers of type [double] and their conversions ([Floating]).  Keys
    that are equal are taken to have the same hash, as the map requires.  A method
    that changes [*this] is a computation on it. *)

From stdpp Require Import base list sets strings pretty.
From S2P Require Import Prelude Conv Hash.

(** ** The parameters *)

(** [double], its operators, and the conversions of [Conv.h] from and to it,
    which end in the double-conversion library; a conversion gives the value or
    the exception.  [std::hash] is the library's. *)
Class Floating := {
  double : Type;
  double_dec :: EqDecision double;
  double_eqb : double -> double -> bool;
  double_ltb : double -> double -> bool;
  double_op : Z -> double -> double -> double;          (* by the character of the operator *)
  double_of : Z -> double;                              (* the implicit conversion *)
  is_nan : double -> bool;
  is_inf : double -> bool;
  infinity : double;
  double_neg : double -> double;
  quiet_NaN : double;
  int_to_double : Z -> double + exn;                    (* to<double>(int64_t) *)
  double_to_integral : Int -> double -> Z + exn;        (* to<T>(double) *)
  double_text : Z -> Z -> double -> list Z;             (* by mode and number of digits *)
  text_to_double : list Z -> double + exn;
  std_hash_int : Z -> Z;
  std_hash_double : double -> Z;
  std_hash_bool : bool -> Z }.

Definition of_sum {S A} (r : A + exn) : M S A := match r with inl a => mret a | inr e => throw e end.

Section Dynamic.
Context `{Floating}.

(** ** Values *)

#[warnings="-register-all"]
Inductive dynamic :=
  | DNull
  | DArray (l : list dynamic)
  | DBool (b : bool)
  | DDouble (d : double)
  | DInt (i : Z)
  | DObject (kvs : list (dynamic * dynamic))
  | DString (s : list Z).

(** The order of the items of a [std::unordered_map]. *)
Class Unordered := {
  iteration : list (dynamic * dynamic) -> list (dynamic * dynamic);
  iteration_items : forall kvs, iteration kvs ≡ₚ kvs }.

(** The enumeration [Type], in its order. *)
Definition type_ (v : dynamic) : Z :=
  match v with
  | DNull => 0 | DArray _ => 1 | DBool _ => 2 | DDouble _ => 3 | DInt _ => 4 | DObject _ => 5 | DString _ => 6
  end.

Definition typeName (v : dynamic) : string :=
  match v with
  | DNull => "null" | DArray _ => "array" | DBool _ => "boolean" | DDouble _ => "double" | DInt _ => "int64"
  | DObject _ => "object" | DString _ => "string"
  end.

Definition TypeError (expected : string) (actual : dynamic) : exn :=
  runtime_error ("TypeError: expected dynamic type `" +:+ expected +:+ "', but had type `" +:+ typeName actual +:+ "'").

Definition TypeError2 (expected : string) (a b : dynamic) : exn :=
  runtime_error ("TypeError: expected dynamic types `" +:+ expected +:+ "', but had types `" +:+ typeName a +:+
                 "' and `" +:+ typeName b +:+ "'").

Definition isString (v : dynamic) : bool := match v with DString _ => true | _ => false end.
Definition isObject (v : dynamic) : bool := match v with DObject _ => true | _ => false end.
Definition isInt (v : dynamic) : bool := match v with DInt _ => true | _ => false end.
Definition isDouble (v : dynamic) : bool := match v with DDouble _ => true | _ => false end.
Definition isNumber (v : dynamic) : bool := isInt v || isDouble v.

(** [get<Array>()] and [get<ObjectImpl>()]. *)
Definition get_array {S} (v : dynamic) : M S (list dynamic) :=
  match v with DArray l => mret l | _ => throw (TypeError "array" v) end.
Definition get_object {S} (v : dynamic) : M S (list (dynamic * dynamic)) :=
  match v with DObject kvs => mret kvs | _ => throw (TypeError "object" v) end.

(** ** Comparison *)

(** [operator==]: numbers of the two types are compared as doubles; two objects
    are equal when they have the same items. *)
Fixpoint dyn_eqb (a b : dynamic) {struct a} : bool :=
  match a, b with
  | DNull, DNull => true
  | DBool x, DBool y => eqb x y
  | DInt x, DInt y => bool_decide (x = y)
  | DDouble x, DDouble y => double_eqb x y
  | DInt x, DDouble y => double_eqb (double_of x) y
  | DDouble x, DInt y => double_eqb (double_of y) x
  | DString s, DString t => bool_decide (s = t)
  | DArray l, DArray m =>
      (fix all2 (l m : list dynamic) : bool :=
         match l, m with
         | [], [] => true
         | x :: l, y :: m => dyn_eqb x y && all2 l m
         | _, _ => false
         end) l m
  | DObject l, DObject m =>
      bool_decide (length l = length m) &&
      (fix all (l : list (dynamic * dynamic)) : bool :=
         match l with
         | [] => true
         | (k, v) :: l => existsb (fun kv => dyn_eqb k kv.1 && dyn_eqb v kv.2) m && all l
         end) l
  | _, _ => false
  end.

(** [std::string] and [std::vector] are compared lexicographically. *)
Fixpoint lex_ltb {A} (lt : A -> A -> bool) (l m : list A) : bool :=
  match l, m with
  | _, [] => false
  | [], _ => true
  | x :: l, y :: m => lt x y || (negb (lt y x) && lex_ltb lt l m)
  end.

(** [operator<]; the elements of two arrays are compared by it in turn, so that
    an object among them throws. *)
Fixpoint dyn_lt {S} (fuel : nat) (a b : dynamic) : M S bool :=
  match fuel with
  | O => fun _ => OutOfFuel
  | Datatypes.S fuel =>
      if isObject a || isObject b then throw (TypeError "object" a) else
      if decide (type_ a <> type_ b) then mret (bool_decide (type_ a < type_ b)) else
      match a, b with
      | DBool x, DBool y => mret (negb x && y)
      | DInt x, DInt y => mret (bool_decide (x < y))
      | DDouble x, DDouble y => mret (double_ltb x y)
      | DString s, DString t => mret (lex_ltb (fun x y => bool_decide (x < y)) s t)
      | DArray l, DArray m =>
          (fix go (l m : list dynamic) : M S bool :=
             match l, m with
             | _, [] => mret false
             | [], _ => mret true
             | x :: l, y :: m =>
                 c ← dyn_lt fuel x y;
                 if c : bool then mret true else c ← dyn_lt fuel y x; if c : bool then mret false else go l m
             end) l m
      | _, _ => mret false
      end
  end.

(** ** Conversions *)

(** [to<T>] of an integer, of bool and of a text to an integral type. *)
Definition local_text {S A} (r : res (list Z) A) : M S A :=
  match r with
  | Ok a _ => mret a
  | Throw e _ => throw e
  | Fault why => fault why
  | OutOfFuel => fun _ => OutOfFuel
  end.

Definition bool_type : Int := mkInt 1 false.
Definition int_of_bool (b : bool) : Z := if b then 1 else 0.

Definition as_error (v : dynamic) : exn := TypeError "int/double/bool/string" v.

Definition asInt {S} (v : dynamic) : M S Z :=
  match v with
  | DInt i => mret i
  | DDouble d => of_sum (double_to_integral int64 d)
  | DBool b => to_integral bool_type int64 (int_of_bool b)
  | DString s => local_text (to_int int64 s)
  | _ => throw (as_error v)
  end.

Definition asBool {S} (v : dynamic) : M S bool :=
  match v with
  | DInt i => r ← to_integral int64 bool_type i; mret (bool_decide (r <> 0))
  | DDouble d => r ← of_sum (double_to_integral bool_type d); mret (bool_decide (r <> 0))
  | DBool b => mret b
  | DString s => local_text (to_bool s)
  | _ => throw (as_error v)
  end.

Definition asDouble {S} (v : dynamic) : M S double :=
  match v with
  | DInt i => of_sum (int_to_double i)
  | DDouble d => mret d
  | DBool b => of_sum (int_to_double (int_of_bool b))
  | DString s => of_sum (text_to_double s)
  | _ => throw (as_error v)
  end.

(** [to<std::string>] of a number: [toAppend] to an empty string. *)
Definition text_of_int {S} (T : Int) (i : Z) : M S (list Z) := fun s =>
  match toAppend_int T i [] with
  | Ok _ t => Ok t s
  | Throw e _ => Throw e s
  | Fault why => Fault why
  | OutOfFuel => OutOfFuel
  end.

Definition asString {S} (v : dynamic) : M S (list Z) :=
  match v with
  | DInt i => text_of_int int64 i
  | DDouble d => mret (double_text 0 0 d)
  | DBool b => text_of_int bool_type (int_of_bool b)
  | DString s => mret s
  | _ => throw (as_error v)
  end.

(** ** Numbers *)

(** The operators are named by their characters. *)
Definition int_op (op x y : Z) : Z :=
  if decide (op = 43) then x + y else if decide (op = 45) then x - y else if decide (op = 42) then x * y else Z.quot x y.

(** [detail::numericOp]; signed arithmetic must not overflow, nor divide by 0.
    With one operand of each type the integer is the left operand, whichever it
    was. *)
Definition numericOp {S} (op : Z) (a b : dynamic) : M S dynamic :=
  if negb (isNumber a) || negb (isNumber b) then throw (TypeError2 "numeric" a b) else
  match a, b with
  | DInt x, DInt y =>
      assert (negb (bool_decide (op = 47 /\ y = 0))) "division by zero";;
      let r := int_op op x y in
      assert (bool_decide (- 2 ^ 63 <= r < 2 ^ 63)) "signed overflow";;
      mret (DInt r)
  | DDouble x, DDouble y => mret (DDouble (double_op op x y))
  | DInt x, DDouble y | DDouble y, DInt x => dx ← of_sum (int_to_double x); mret (DDouble (double_op op dx y))
  | _, _ => fault "not a number"
  end.

(** [*this op= o]. *)
Definition add_assign (o : dynamic) : M dynamic unit :=
  this ← get;
  match this, o with
  | DString s, DString t => put (DString (s ++ t))
  | _, _ => r ← numericOp 43 this o; put r
  end.
Definition op_assign (op : Z) (o : dynamic) : M dynamic unit :=
  this ← get; r ← numericOp op this o; put r.

(** [*this op= o] for the operators of integers: the remainder, and the operators on
    the bits. *)
Definition integer_op (op x y : Z) : Z :=
  if decide (op = 37) then Z.rem x y else if decide (op = 124) then Z.lor x y else if decide (op = 38) then Z.land x y else Z.lxor x y.
Definition integer_assign (op : Z) (o : dynamic) : M dynamic unit :=
  this ← get;
  match this, o with
  | DInt x, DInt y =>
      assert (negb (bool_decide (op = 37 /\ (y = 0 \/ y = -1 /\ x = - 2 ^ 63)))) "division by zero or overflow";;
      put (DInt (integer_op op x y))
  | _, _ => throw (TypeError2 "int64" this o)
  end.

(** [++] and [--], by [d]. *)
Definition step_by (d : Z) : M dynamic unit :=
  this ← get;
  match this with
  | DInt x => assert (bool_decide (- 2 ^ 63 <= x + d < 2 ^ 63)) "signed overflow";; put (DInt (x + d))
  | _ => throw (TypeError "int64" this)
  end.

(** A local [dynamic] that starts as [v] and is changed by a method. *)
Definition changed {S A} (method : M dynamic A) (v : dynamic) : M S dynamic := fun s =>
  match method v with
  | Ok _ v' => Ok v' s
  | Throw e _ => Throw e s
  | Fault why => Fault why
  | OutOfFuel => OutOfFuel
  end.

(** ** Arrays and objects *)

(** [hash()], which every access to an object computes first. *)
Definition dyn_hash {S} (v : dynamic) : M S Z :=
  match v with
  | DInt i => mret (std_hash_int i)
  | DDouble d => mret (std_hash_double d)
  | DBool b => mret (std_hash_bool b)
  | DString s => mret (fnv32_buf s FNV_32_HASH_START)
  | _ => throw (TypeError "not null/object/array" v)
  end.

(** The item with a key. *)
Definition item (kvs : list (dynamic * dynamic)) (k : dynamic) : option dynamic :=
  snd <$> List.find (fun kv => dyn_eqb kv.1 k) kvs.

Definition obj_find {S} (kvs : list (dynamic * dynamic)) (k : dynamic) : M S (option dynamic) :=
  dyn_hash k;; mret (item kvs k).

(** [it->second = v] for the item with key [k]. *)
Definition set_item (kvs : list (dynamic * dynamic)) (k v : dynamic) : list (dynamic * dynamic) :=
  (fun kv => if dyn_eqb kv.1 k then (kv.1, v) else kv) <$> kvs.

(** [obj.insert({k, v})]: nothing happens when the key is there. *)
Definition insert_new (kvs : list (dynamic * dynamic)) (k v : dynamic) : list (dynamic * dynamic) :=
  match item kvs k with Some _ => kvs | None => kvs ++ [(k, v)] end.

(** [insert(key, val)]: the last value wins. *)
Definition dyn_insert (key val : dynamic) : M dynamic unit :=
  this ← get; obj ← get_object this;
  dyn_hash key;;
  put (DObject (set_item (insert_new obj key DNull) key val)).

Definition setDefault (k v : dynamic) : M dynamic dynamic :=
  this ← get; obj ← get_object this;
  dyn_hash k;;
  put (DObject (insert_new obj k v));;
  mret (default v (item obj k)).

Definition getDefault {S} (this k v : dynamic) : M S dynamic :=
  obj ← get_object this; r ← obj_find obj k; mret (default v r).

Definition get_ptr {S} (this idx : dynamic) : M S (option dynamic) :=
  match this with
  | DArray l =>
      match idx with
      | DInt i => if decide (i < 0 \/ zlen l <= i) then mret None else mret (l !! Z.to_nat i)
      | _ => throw (TypeError "int64" idx)
      end
  | DObject kvs => obj_find kvs idx
  | _ => throw (TypeError "object/array" this)
  end.

(** The characters of a message. *)
Definition string_of (s : list Z) : string :=
  String.string_of_list_ascii ((fun c => Ascii.ascii_of_N (Z.to_N c)) <$> s).

Definition dyn_at {S} (this idx : dynamic) : M S dynamic :=
  match this with
  | DArray l =>
      match idx with
      | DInt i =>
          if decide (i < 0 \/ zlen l <= i) then throw (out_of_range "out of range in dynamic array")
          else of_option (l !! Z.to_nat i) "index out of bounds"
      | _ => throw (TypeError "int64" idx)
      end
  | DObject kvs =>
      r ← obj_find kvs idx;
      match r with
      | Some v => mret v
      | None => t ← asString idx; throw (out_of_range ("couldn't find key " +:+ string_of t +:+ " in dynamic object"))
      end
  | _ => throw (TypeError "object/array" this)
  end.

(** [operator[](k)] on the left of an assignment, for an object. *)
Definition assign_at (k v : dynamic) : M dynamic unit := dyn_insert k v.

(** [operator[](k)] for reading through a reference: an object gets the key. *)
Definition subscript (k : dynamic) : M dynamic dynamic :=
  this ← get;
  match this with
  | DArray _ => dyn_at this k
  | DObject obj => dyn_hash k;; put (DObject (insert_new obj k DNull));; mret (default DNull (item obj k))
  | _ => throw (TypeError "object/array" this)
  end.

Definition dyn_count {S} (this key : dynamic) : M S Z :=
  obj ← get_object this; r ← obj_find obj key; mret (match r with Some _ => 1 | None => 0 end).

Definition dyn_size {S} (this : dynamic) : M S Z :=
  match this with
  | DArray l => mret (zlen l)
  | DObject kvs => mret (zlen kvs)
  | DString s => mret (zlen s)
  | _ => throw (TypeError "array/object" this)
  end.

Definition dyn_empty {S} (this : dynamic) : M S bool :=
  match this with DNull => mret true | _ => n ← dyn_size this; mret (bool_decide (n = 0)) end.

Definition dyn_push_back (v : dynamic) : M dynamic unit :=
  this ← get; l ← get_array this; put (DArray (l ++ [v])).
Definition dyn_pop_back : M dynamic unit :=
  this ← get; l ← get_array this; assert (bool_decide (l <> [])) "pop_back of an empty vector";; put (DArray (removelast l)).
Definition dyn_resize (sz : Z) (c : dynamic) : M dynamic unit :=
  this ← get; l ← get_array this;
  put (DArray (take (Z.to_nat sz) l ++ replicate (Z.to_nat (sz - zlen l)) c)).

Definition dyn_erase (key : dynamic) : M dynamic Z :=
  this ← get; obj ← get_object this;
  dyn_hash key;;
  put (DObject (filter (fun kv => dyn_eqb kv.1 key = false) obj));;
  mret (match item obj key with Some _ => 1 | None => 0 end).

(** The loops over the items of an object. *)
Context `{!Unordered}.

Definition update (mergeObj : dynamic) : M dynamic unit :=
  this ← get;
  match this, mergeObj with
  | DObject _, DObject items => foldr (fun kv K => assign_at kv.1 kv.2;; K) (mret tt) (iteration items)
  | _, _ => throw (TypeError2 "object" this mergeObj)
  end.

Definition update_missing (mergeObj1 : dynamic) : M dynamic unit :=
  this ← get;
  match this, mergeObj1 with
  | DObject _, DObject items =>
      foldr (fun kv K =>
        this ← get; obj ← get_object this; r ← obj_find obj kv.1;
        (match r with None => assign_at kv.1 kv.2 | Some _ => mret tt end);; K) (mret tt) (iteration items)
  | _, _ => throw (TypeError2 "object" this mergeObj1)
  end.

Definition merge {S} (mergeObj1 mergeObj2 : dynamic) : M S dynamic := changed (update_missing mergeObj1) mergeObj2.

(** ** Objects with strings as keys *)

Definition string_keys (kvs : list (dynamic * dynamic)) : Prop := Forall (fun kv => exists s, kv.1 = DString s) kvs.

#[global] Instance string_keys_proper : Proper ((≡ₚ) ==> iff) string_keys.
Proof. intros kvs kvs' Hp. unfold string_keys. by rewrite Hp. Qed.

Lemma item_cons s v kvs k : item ((DString s, v) :: kvs) (DString k) = if decide (s = k) then Some v else item kvs (DString k).
Proof. unfold item. simpl. case_bool_decide; by case_decide. Qed.

Lemma item_string kvs s : string_keys kvs -> item kvs (DString s) = None <-> DString s ∉ kvs.*1.
Proof.
  induction 1 as [|[k v] kvs [s' Hk] Hks IH]; simpl; [set_solver|]. simpl in Hk. subst k. rewrite item_cons.
  case_decide as Hs; subst; simpl; [split; [done|set_solver]|]. rewrite IH. set_solver.
Qed.

Lemma item_app kvs kvs' k : item (kvs ++ kvs') k = match item kvs k with Some v => Some v | None => item kvs' k end.
Proof. unfold item. induction kvs as [|kv kvs IH]; simpl; [done|]. by destruct (dyn_eqb _ _). Qed.

Lemma insert_fresh kvs s v : string_keys kvs -> DString s ∉ kvs.*1 ->
  set_item (insert_new kvs (DString s) DNull) (DString s) v = kvs ++ [(DString s, v)].
Proof.
  intros Hks Hs. unfold insert_new. rewrite (proj2 (item_string kvs s Hks) Hs). unfold set_item. rewrite fmap_app. simpl.
  rewrite bool_decide_eq_true_2 by done. f_equal. clear - Hks Hs.
  induction Hks as [|[k x] kvs [s' Hk] Hks IH]; [done|]. simpl in *. subst k. simpl.
  rewrite bool_decide_eq_false_2 by set_solver. f_equal. apply IH. set_solver.
Qed.

Lemma item_set kvs s v k : string_keys kvs -> item kvs (DString s) <> None ->
  item (set_item kvs (DString s) v) (DString k) = if decide (s = k) then Some v else item kvs (DString k).
Proof.
  intros Hks Hs. induction Hks as [|[k' x] kvs [s' Hk] Hks IH]; [done|]. simpl in Hk. subst k'.
  unfold set_item in *. rewrite fmap_cons. simpl. rewrite item_cons in Hs |- *.
  destruct (decide (s' = s)) as [->|Hne].
  - rewrite bool_decide_eq_true_2, item_cons by done. destruct (decide (s = k)); [done|].
    clear IH. induction Hks as [|[k' y] kvs [s' Hk] Hks IH2]; [done|]. simpl in Hk. subst k'. rewrite fmap_cons. simpl.
    case_bool_decide; subst; rewrite !item_cons; [by rewrite !decide_False by done|]. by rewrite IH2.
  - rewrite bool_decide_eq_false_2, item_cons, IH by done. repeat case_decide; by subst.
Qed.

Lemma set_item_keys kvs k v : (set_item kvs k v).*1 = kvs.*1.
Proof. unfold set_item. rewrite <- list_fmap_compose. apply list_fmap_ext. intros i [k' x] _. simpl. by destruct (dyn_eqb k' k). Qed.

Lemma string_keys_fst kvs kvs' : kvs'.*1 = kvs.*1 -> string_keys kvs -> string_keys kvs'.
Proof.
  unfold string_keys. intros E Hks. revert kvs' E. induction Hks as [|kv kvs Hk Hks IH]; intros [|kv' kvs'] E; try done.
  rewrite !fmap_cons in E. injection E as E1 E2. constructor; [by rewrite E1|by apply IH].
Qed.

(** [insert] of a key that is a string. *)
Lemma assign_at_wp kvs s v : string_keys kvs ->
  wp (assign_at (DString s) v) (DObject kvs) (fun _ d => exists kvs', d = DObject kvs' /\ string_keys kvs' /\
    forall k, item kvs' (DString k) = if decide (s = k) then Some v else item kvs (DString k)) nothrow.
Proof.
  intros Hks. apply wp_bind, wp_get. apply wp_bind, wp_ret. apply wp_bind, wp_ret, wp_put. eexists. split; [done|].
  destruct (item kvs (DString s)) as [x|] eqn:E.
  - unfold insert_new. rewrite E. split; [eapply string_keys_fst; [apply set_item_keys|done]|]. intros k. apply item_set; [done|congruence].
  - rewrite insert_fresh; [|done|by apply item_string]. split; [apply Forall_app; split; [done|by repeat econstructor]|].
    intros k. rewrite item_app, item_cons. destruct (decide (s = k)) as [<-|]; [by rewrite E|]. by destruct (item kvs (DString k)).
Qed.

(** Among distinct keys the order does not matter. *)
Lemma item_permutation kvs kvs' k : kvs ≡ₚ kvs' -> string_keys kvs -> NoDup kvs.*1 -> item kvs (DString k) = item kvs' (DString k).
Proof.
  induction 1 as [|[k1 v1] l l' Hp IH|[k1 v1] [k2 v2] l|l l' l'' H1 IH1 H2 IH2]; intros Hks Hnd; [done|..].
  - apply Forall_cons in Hks as [[s Hs] Hks]. simpl in Hs. subst k1. apply NoDup_cons in Hnd as [_ Hnd]. rewrite !item_cons. by rewrite IH.
  - apply Forall_cons in Hks as [[s Hs] Hks]. apply Forall_cons in Hks as [[s' Hs'] _]. simpl in Hs, Hs'. subst. rewrite !item_cons.
    rewrite !fmap_cons in Hnd. apply NoDup_cons in Hnd as [Hnd _]. repeat case_decide; subst; [set_solver|done..].
  - rewrite IH1 by done. apply IH2; [by rewrite <- H1|by rewrite <- H1].
Qed.

(** [update] and [update_missing], item by item. *)
Lemma update_wp kvs items : string_keys kvs -> string_keys items -> NoDup items.*1 ->
  wp (update (DObject items)) (DObject kvs) (fun _ d => exists kvs', d = DObject kvs' /\ string_keys kvs' /\
    forall k, item kvs' (DString k) = match item items (DString k) with Some v => Some v | None => item kvs (DString k) end) nothrow.
Proof.
  intros Hks Hit Hnd. apply wp_bind, wp_get.
  assert (Hgo : forall l kvs, string_keys kvs -> string_keys l -> NoDup l.*1 ->
    wp (foldr (fun kv K => assign_at kv.1 kv.2;; K) (mret tt) l) (DObject kvs) (fun _ d => exists kvs', d = DObject kvs' /\ string_keys kvs' /\
    forall k, item kvs' (DString k) = match item l (DString k) with Some v => Some v | None => item kvs (DString k) end) nothrow).
  { clear. induction l as [|[k v] l IH]; intros kvs Hks Hl Hnd; [apply wp_ret; by exists kvs|].
    apply Forall_cons in Hl as [[s Hs] Hl]. simpl in Hs. subst k. rewrite fmap_cons in Hnd. apply NoDup_cons in Hnd as [Hs Hnd].
    apply wp_bind. eapply wp_wand; [by apply assign_at_wp|]. intros [] d (kvs' & -> & Hks' & Hk').
    eapply wp_wand; [by apply IH|]. intros [] d (kvs2 & -> & Hks2 & Hk2). exists kvs2. split_and!; [done|done|]. intros k.
    rewrite Hk2, Hk', item_cons. destruct (decide (s = k)) as [<-|]; [|done]. by rewrite (proj2 (item_string l s Hl) Hs). }
  eapply wp_wand; [apply Hgo; [done|by rewrite iteration_items|by rewrite iteration_items]|].
  intros [] d (kvs' & -> & Hks' & Hk). exists kvs'. split_and!; [done|done|]. intros k. rewrite Hk.
  by rewrite (item_permutation _ _ k (iteration_items items)) by by rewrite iteration_items.
Qed.

Lemma update_missing_wp kvs items : string_keys kvs -> string_keys items -> NoDup items.*1 ->
  wp (update_missing (DObject items)) (DObject kvs) (fun _ d => exists kvs', d = DObject kvs' /\ string_keys kvs' /\
    forall k, item kvs' (DString k) = match item kvs (DString k) with Some v => Some v | None => item items (DString k) end) nothrow.
Proof.
  intros Hks Hit Hnd. apply wp_bind, wp_get.
  assert (Hgo : forall l kvs, string_keys kvs -> string_keys l -> NoDup l.*1 ->
    wp (foldr (fun kv K => this ← get; obj ← get_object this; r ← obj_find obj kv.1;
        (match r with None => assign_at kv.1 kv.2 | Some _ => mret tt end);; K) (mret tt) l) (DObject kvs)
      (fun _ d => exists kvs', d = DObject kvs' /\ string_keys kvs' /\
    forall k, item kvs' (DString k) = match item kvs (DString k) with Some v => Some v | None => item l (DString k) end) nothrow).
  { clear. induction l as [|[k v] l IH]; intros kvs Hks Hl Hnd.
    { apply wp_ret. exists kvs. split_and!; [done|done|]. intros k. by destruct (item kvs (DString k)). }
    apply Forall_cons in Hl as [[s Hs] Hl]. simpl in Hs. subst k. rewrite fmap_cons in Hnd. apply NoDup_cons in Hnd as [Hs Hnd].
    apply wp_bind, wp_get. apply wp_bind, wp_ret. apply wp_bind, wp_ret. simpl. destruct (item kvs (DString s)) as [x|] eqn:E.
    - apply wp_bind, wp_ret. eapply wp_wand; [by apply IH|]. intros [] d (kvs2 & -> & Hks2 & Hk2). exists kvs2.
      split_and!; [done|done|]. intros k. rewrite Hk2, item_cons. destruct (item kvs (DString k)) eqn:E2; [done|].
      by rewrite decide_False by congruence.
    - apply wp_bind. eapply wp_wand; [by apply assign_at_wp|]. intros [] d (kvs' & -> & Hks' & Hk').
      eapply wp_wand; [by apply IH|]. intros [] d (kvs2 & -> & Hks2 & Hk2). exists kvs2. split_and!; [done|done|]. intros k.
      rewrite Hk2, Hk', item_cons. destruct (decide (s = k)) as [<-|]; [by rewrite E|done]. }
  eapply wp_wand; [apply Hgo; [done|by rewrite iteration_items|by rewrite iteration_items]|].
  intros [] d (kvs' & -> & Hks' & Hk). exists kvs'. split_and!; [done|done|]. intros k. rewrite Hk.
  by rewrite (item_permutation _ _ k (iteration_items items)) by by rewrite iteration_items.
Qed.

(** Objects are merged key by key. For objects whose keys are strings, [update]
    takes the items of its argument over its own, [update_missing] its own over those
    of its argument, and [merge(a, b)] gives the items of [b] and those of [a] whose
    keys [b] does not have, whatever order the maps are traversed in. *)
Lemma objects_merged {S} a b (st : S) : string_keys a -> NoDup a.*1 -> string_keys b -> NoDup b.*1 ->
  (exists r, merge (DObject a) (DObject b) st = Ok (DObject r) st /\
     forall k, item r (DString k) = match item b (DString k) with Some v => Some v | None => item a (DString k) end) /\
  wp (update (DObject b)) (DObject a) (fun _ d => exists r, d = DObject r /\
     forall k, item r (DString k) = match item b (DString k) with Some v => Some v | None => item a (DString k) end) nothrow.
Proof.
  intros Ha Hna Hb Hnb. split.
  - destruct (wp_ok_inv _ _ _ (update_missing_wp b a Hb Ha Hna)) as ([] & d & E & r & -> & _ & Hr).
    exists r. unfold merge, changed. by rewrite E.
  - eapply wp_wand; [by apply update_wp|]. intros [] d (r & -> & _ & Hr). by exists r.
Qed.
End Dynamic.

(** ** A platform

    [double] as the integers, and a map that is traversed backwards. *)
Definition sample_floating : Floating := {|
  double := Z; double_eqb := Z.eqb; double_ltb := Z.ltb; double_op := int_op; double_of := fun x => x;
  is_nan := fun _ => false; is_inf := fun _ => false; infinity := 2 ^ 1024; double_neg := Z.opp; quiet_NaN := 0;
  int_to_double := inl; double_to_integral := fun _ => inl; double_text := fun _ _ _ => [48; 46; 48];
  text_to_double := fun _ => inl 0; std_hash_int := fun x => x; std_hash_double := fun x => x; std_hash_bool := int_of_bool |}.

Lemma rev_items `{Floating} (kvs : list (dynamic * dynamic)) : rev kvs ≡ₚ kvs.
Proof. symmetry. apply Permutation_rev. Qed.

Definition sample_order : @Unordered sample_floating := {| iteration := @rev _; iteration_items := @rev_items sample_floating |}.

#[local] Existing Instances sample_floating sample_order.

(** [{"a":1,"b":2}] and [{"b":3}]. *)
Lemma objects_merged_witness :
  exists r, merge (S := unit) (DObject [(DString [97], DInt 1); (DString [98], DInt 2)]) (DObject [(DString [98], DInt 3)]) tt = Ok (DObject r) tt /\
    item r (DString [97]) = Some (DInt 1) /\ item r (DString [98]) = Some (DInt 3).
Proof.
  destruct (objects_merged (S := unit) [(DString [97], DInt 1); (DString [98], DInt 2)] [(DString [98], DInt 3)] tt) as [(r & E & Hr) _].
  - repeat constructor; by eexists.
  - repeat (apply NoDup_cons; split; [by rewrite ?list_elem_of_In; simpl; intuition congruence|]). apply NoDup_nil_2.
  - repeat constructor; by eexists.
  - repeat (apply NoDup_cons; split; [by rewrite ?list_elem_of_In; simpl; intuition congruence|]). apply NoDup_nil_2.
  - exists r. split; [exact E|]. split; rewrite Hr; reflexivity.
Defined.

(** The operands of a subtraction of an integer from a double are swapped: 7 - 2. *)
Example mixed_subtraction : numericOp (S := unit) 45 (DDouble (7 : double)) (DInt 2) tt = Ok (DDouble (-5 : double)) tt.
Proof. reflexivity. Qed.
