(* ===== verification/Json.v ===== *)
(** * json: the printer and the parser

    [src/accelerator/json.h] and [json.cpp]: [serialize] with the class [Printer] and
    [escapeString], [parseJson] with the class [Input] and the functions of the
    parser, and [stripComments].  Texts are lists of bytes; a [char] that the code
    compares is signed, and [EOF] is -1.  The recursive functions carry a bound on
    the depth, the loops one on the rounds. *)

From stdpp Require Import base list strings pretty sorting.
From S2P Require Import Prelude Conv Hash Range RangeOps Unicode StringSplit Dynamic.

(** ** Options *)

Record serialization_opts := mkOpts {
  allow_non_string_keys : bool;
  javascript_safe : bool;
  pretty_formatting : bool;
  encode_non_ascii : bool;
  validate_utf8 : bool;
  allow_trailing_comma : bool;
  sort_keys : bool;
  skip_invalid_utf8 : bool;
  allow_nan_inf : bool;
  double_mode : Z;
  double_num_digits : Z;
  double_fallback : bool;
  parse_numbers_as_strings : bool;
  recursion_limit : Z }.

(** The constructor; [SHORTEST] is 0. *)
Definition default_opts : serialization_opts := {|
  allow_non_string_keys := false; javascript_safe := false; pretty_formatting := false; encode_non_ascii := false;
  validate_utf8 := false; allow_trailing_comma := false; sort_keys := false; skip_invalid_utf8 := false;
  allow_nan_inf := false; double_mode := 0; double_num_digits := 0; double_fallback := false;
  parse_numbers_as_strings := false; recursion_limit := 100 |}.

(** The bytes of a literal. *)
Definition lit (s : string) : list Z := (fun c => Z.of_N (Ascii.N_of_ascii c)) <$> String.list_ascii_of_string s.

(** ** UTF-8 *)

Definition decode_error (what : string) : exn := runtime_error ("acc::decodeUtf8 " +:+ what).

Definition decode_skip (skipOnError : bool) (what : string) : M Z Z :=
  if skipOnError then p ← get; put (p + 1);; mret 0xfffd else throw (decode_error what).

Definition decode_round (s : list Z) (skipOnError : bool) (st : Z * Z * Z) : M Z ((Z * Z * Z) + Z) :=
  let '(i, fst, d) := st in
  p ← get;
  if decide (i <> 3 /\ p + i < zlen s) then
    tmp ← of_option (s !! Z.to_nat (p + i)) "read past the end";
    if decide (Z.land tmp 0xC0 <> 0x80) then
      r ← decode_skip skipOnError ("i=" +:+ number i +:+ " tmp=" +:+ number tmp); mret (inr r)
    else
      let d := Z.lor (u32 (Z.shiftl d 6)) (Z.land tmp 0x3F) in
      let fst := u8 (Z.shiftl fst 1) in
      if decide (Z.land fst 0x80 = 0) then
        let d := Z.land d (bitMask i) in
        if decide (Z.ldiff d (bitMask (i - 1)) = 0) then
          r ← decode_skip skipOnError ("i=" +:+ number i +:+ " d=" +:+ number d); mret (inr r)
        else if decide (i = 2 /\ (0xD800 <= d /\ d <= 0xDFFF \/ 0x10FFFF < d)) then
          r ← decode_skip skipOnError ("i=" +:+ number i +:+ " d=" +:+ number d); mret (inr r)
        else put (p + (i + 1));; mret (inr d)
      else mret (inl (i + 1, fst, d))
  else r ← decode_skip skipOnError "encoding length maxed out"; mret (inr r).

(** [decodeUtf8(p, e, skipOnError)]; the pointer [p] is the state, an offset. *)
Definition decodeUtf8 (s : list Z) (skipOnError : bool) : M Z Z :=
  p ← get;
  if decide (zlen s <= p) then decode_skip skipOnError "empty/invalid string" else
  fst ← of_option (s !! Z.to_nat p) "read past the end";
  if decide (Z.land fst 0x80 = 0) then put (p + 1);; mret fst
  else if decide (Z.land fst 0xC0 <> 0xC0) then decode_skip skipOnError ("i=0 d=" +:+ number fst)
  else iter 3 (decode_round s skipOnError) (1, u8 (Z.shiftl fst 1), fst).

(** ** Escaping *)

Definition hexDigit (c : Z) : Z := if decide (c < 10) then c + 48 else c - 10 + 97.

(** A function that moves a pointer, here [p] of the caller. *)
Definition at_pointer {S A} (m : M Z A) (p : Z) : M S (A * Z) := fun s =>
  match m p with
  | Ok v p' => Ok (v, p') s
  | Throw e _ => Throw e s
  | Fault why => Fault why
  | OutOfFuel => OutOfFuel
  end.

Definition push_text (l : list Z) : M (list Z) unit := modify (fun out => out ++ l).

(** A control character. *)
Definition escape_control (c : Z) : list Z :=
  if decide (c = 8) then lit "\b" else if decide (c = 12) then lit "\f" else if decide (c = 10) then lit "\n"
  else if decide (c = 13) then lit "\r" else if decide (c = 9) then lit "\t"
  else lit "\u00" ++ [hexDigit (Z.shiftr (Z.land c 0xf0) 4); hexDigit (Z.land c 0xf)].

(** One round of the loop on [p] and [q]: the validation, *)
Definition validate_step (input : list Z) (opts : serialization_opts) (p q : Z) : M (list Z) (Z * option Z) :=
  if (validate_utf8 opts || skip_invalid_utf8 opts) && negb (encode_non_ascii opts) then
    assert (bool_decide (q >= p)) "ACCCHECK_GE(q, p)";;
    if decide (q = p) then
      '(v, q) ← at_pointer (decodeUtf8 input (skip_invalid_utf8 opts)) q;
      if decide (skip_invalid_utf8 opts = true /\ v = 0xfffd) then push_text [0xef; 0xbf; 0xbd];; mret (q, Some q)
      else mret (q, None)
    else mret (q, None)
  else mret (q, None).

(** and the escape of the character at [p], which moves on. *)
Definition escape_step (input : list Z) (opts : serialization_opts) (p : Z) : M (list Z) Z :=
  c ← of_option (input !! Z.to_nat p) "read past the end";
  if encode_non_ascii opts && negb (bool_decide (Z.land c 0x80 = 0)) then
    '(v, p) ← at_pointer (decodeUtf8 input (skip_invalid_utf8 opts)) p;
    push_text (lit "\u" ++ [hexDigit (Z.shiftr v 12); hexDigit (Z.land (Z.shiftr v 8) 0x0f);
                            hexDigit (Z.land (Z.shiftr v 4) 0x0f); hexDigit (Z.land v 0x0f)]);;
    mret p
  else if decide (c = 92 \/ c = 34) then push_text [92; c];; mret (p + 1)
  else if decide (c <= 0x1f) then push_text (escape_control c);; mret (p + 1)
  else push_text [c];; mret (p + 1).

Definition escapeString_round (input : list Z) (opts : serialization_opts) (st : Z * Z) : M (list Z) ((Z * Z) + unit) :=
  let '(p, q) := st in
  if decide (p < zlen input) then
    '(q, skipped) ← validate_step input opts p q;
    match skipped with
    | Some p => mret (inl (p, q))
    | None => p ← escape_step input opts p; mret (inl (p, q))
    end
  else mret (inr tt).

Definition escapeString (input : list Z) (opts : serialization_opts) : M (list Z) unit :=
  push_text [34];;
  iter (S (length input)) (escapeString_round input opts) (0, 0);;
  push_text [34].

Section Json.
Context `{Floating} `{!Unordered}.

(** ** The printer *)

Record Printer := mkPrinter { out_ : list Z; indentLevel_ : option Z }.

Definition with_out {A} (m : M (list Z) A) : M Printer A := fun s =>
  match m (out_ s) with
  | Ok a o => Ok a (mkPrinter o (indentLevel_ s))
  | Throw e o => Throw e (mkPrinter o (indentLevel_ s))
  | Fault why => Fault why
  | OutOfFuel => OutOfFuel
  end.

Definition out_append (l : list Z) : M Printer unit := with_out (push_text l).

Definition indent : M Printer unit := modify (fun s => mkPrinter (out_ s) ((fun n => u32 (n + 1)) <$> indentLevel_ s)).
Definition outdent : M Printer unit := modify (fun s => mkPrinter (out_ s) ((fun n => u32 (n - 1)) <$> indentLevel_ s)).
Definition newline : M Printer unit :=
  s ← get;
  match indentLevel_ s with Some n => out_append (10 :: replicate (Z.to_nat (u32 (n * 2))) 32) | None => mret tt end.
Definition mapColon : M Printer unit :=
  s ← get; out_append (match indentLevel_ s with Some _ => lit " : " | None => lit ":" end).

(** [std::sort] of the items by [operator<] on pairs: as no two keys are equal,
    the values are never compared. *)
Definition key_leb (a b : dynamic * dynamic) : bool :=
  match dyn_lt 2 b.1 a.1 tt with Ok c _ => negb c | _ => true end.
Definition key_le (a b : dynamic * dynamic) : Prop := key_leb a b = true.
#[global] Instance key_le_dec a b : Decision (key_le a b).
Proof. unfold key_le. apply _. Defined.

(** [(first, then the others after a comma)]. *)
Fixpoint print_list {A} (print : A -> M Printer unit) (l : list A) : M Printer unit :=
  match l with
  | [] => mret tt
  | [x] => print x
  | x :: l => print x;; out_append [44];; newline;; print_list print l
  end.

Section Print.
Context (opts : serialization_opts).

Definition printKV (print : dynamic -> M Printer unit) (kv : dynamic * dynamic) : M Printer unit :=
  if negb (allow_non_string_keys opts) && negb (isString kv.1)
  then throw (runtime_error "acc::toJson: JSON object key was not a string")
  else print kv.1;; mapColon;; print kv.2.

Definition printObject (print : dynamic -> M Printer unit) (kvs : list (dynamic * dynamic)) : M Printer unit :=
  if decide (kvs = []) then out_append (lit "{}") else
  out_append [123];; indent;; newline;;
  print_list (printKV print) (if sort_keys opts then merge_sort key_le (iteration kvs) else iteration kvs);;
  outdent;; newline;; out_append [125].

Definition printArray (print : dynamic -> M Printer unit) (l : list dynamic) : M Printer unit :=
  if decide (l = []) then out_append (lit "[]") else
  out_append [91];; indent;; newline;;
  print_list print l;;
  outdent;; newline;; out_append [93].

(** [operator()(v)]. *)
Fixpoint print (fuel : nat) (v : dynamic) : M Printer unit :=
  match fuel with
  | O => fun _ => OutOfFuel
  | S fuel =>
      match v with
      | DDouble d =>
          if negb (allow_nan_inf opts) && (is_nan d || is_inf d)
          then throw (runtime_error "acc::toJson: JSON object value was a NaN or INF")
          else out_append (double_text (double_mode opts) (double_num_digits opts) d)
      | DInt i =>
          i ← (if javascript_safe opts then d ← of_sum (int_to_double i); of_sum (double_to_integral int64 d) else mret i);
          with_out (toAppend_int int64 i)
      | DBool b => out_append (if b then lit "true" else lit "false")
      | DNull => out_append (lit "null")
      | DString s => with_out (escapeString s opts)
      | DObject kvs => printObject (print fuel) kvs
      | DArray l => printArray (print fuel) l
      end
  end.

(** How deep a value is. *)
Fixpoint depth (v : dynamic) : nat :=
  match v with
  | DArray l => S ((fix go (l : list dynamic) : nat := match l with [] => O | x :: l => Nat.max (depth x) (go l) end) l)
  | DObject kvs =>
      S ((fix go (l : list (dynamic * dynamic)) : nat :=
            match l with [] => O | (k, x) :: l => Nat.max (Nat.max (depth k) (depth x)) (go l) end) kvs)
  | _ => 1%nat
  end.

Definition serialize {S} (dyn : dynamic) : M S (list Z) := fun s =>
  match print (depth dyn) dyn (mkPrinter [] (if pretty_formatting opts then Some 0 else None)) with
  | Ok _ p => Ok (out_ p) s
  | Throw e _ => Throw e s
  | Fault why => Fault why
  | OutOfFuel => OutOfFuel
  end.
End Print.

(** ** The input *)

Definition EOF : Z := -1.

Record Input := mkInput { range_ : list Z; lineNum_ : Z; current_ : Z; currentRecursionLevel_ : Z }.

Abbreviation Parse := (M Input).

Definition front_of (r : list Z) : Z := match r with [] => EOF | c :: _ => sext 8 c end.

Definition set_range (r : list Z) : Parse unit :=
  modify (fun i => mkInput r (lineNum_ i) (front_of r) (currentRecursionLevel_ i)).

Definition cur : Parse Z := gets current_.

(** The longest prefix of characters that satisfy [p], which may know whether it
    is called for the first time. *)
Fixpoint run_of (p : bool -> Z -> bool) (first : bool) (r : list Z) : list Z :=
  match r with
  | [] => []
  | c :: r => if p first (sext 8 c) then c :: run_of p false r else []
  end.

Definition skipWhile (p : bool -> Z -> bool) : Parse (list Z) :=
  i ← get;
  let ret := run_of p true (range_ i) in
  modify (fun i => mkInput (range_ i) (u32 (lineNum_ i + zlen (filter (eq 10) ret))) (current_ i) (currentRecursionLevel_ i));;
  set_range (drop (length ret) (range_ i));;
  mret ret.

Definition is_digit (c : Z) : bool := bool_decide (48 <= c <= 57).
Definition skipDigits : Parse (list Z) := skipWhile (fun _ c => is_digit c).
Definition skipMinusAndDigits : Parse (list Z) := skipWhile (fun first c => is_digit c || (first && bool_decide (c = 45))).

Definition skipWhitespace : Parse unit :=
  i ← get;
  match ltrimWhitespace (range_ i) with Some r => set_range r | None => fun _ => OutOfFuel end.

(** [operator++]. *)
Definition input_next : Parse unit :=
  i ← get;
  assert (bool_decide (range_ i <> [])) "pop_front of an empty range";;
  set_range (tail (range_ i)).

Definition context (i : Input) : list Z := take 16 (range_ i).

Definition ParseError (i : Input) (expected : string) : exn :=
  runtime_error ("json parse error on line " +:+ pretty (lineNum_ i) +:+
    (if decide (context i = []) then "" else " near `" +:+ string_of (context i) +:+ "'") +:+ ": " +:+ expected).

Definition error {A} (what : string) : Parse A := i ← get; throw (ParseError i what).

Definition expect (c : Z) : Parse unit :=
  x ← cur;
  if decide (x <> c) then error ("expected '" +:+ string_of [c] +:+ "'") else input_next.

Definition consume (str : list Z) : Parse bool :=
  i ← get;
  if decide (take (length str) (range_ i) = str) then set_range (drop (length str) (range_ i));; mret true else mret false.

Section Parse.
Context (opts : serialization_opts).

Definition incrementRecursionLevel : Parse unit :=
  i ← get;
  (if decide (currentRecursionLevel_ i > recursion_limit opts) then error "recursion limit exceeded" else mret tt);;
  modify (fun i => mkInput (range_ i) (lineNum_ i) (current_ i) (u32 (currentRecursionLevel_ i + 1))).
Definition decrementRecursionLevel : Parse unit :=
  modify (fun i => mkInput (range_ i) (lineNum_ i) (current_ i) (u32 (currentRecursionLevel_ i - 1))).

(** The scope of a [RecursionGuard]. *)
Definition guarded {A} (m : Parse A) : Parse A :=
  incrementRecursionLevel;;
  r ← try_catch m (fun e => decrementRecursionLevel;; throw e);
  decrementRecursionLevel;;
  mret r.

(** ** Strings *)

Definition hexVal (c : Z) : Parse Z :=
  if decide (48 <= c <= 57) then mret (c - 48)
  else if decide (97 <= c <= 102) then mret (c - 97 + 10)
  else if decide (65 <= c <= 70) then mret (c - 65 + 10)
  else error "invalid hex digit".

Definition readHex : Parse Z :=
  i ← get;
  (if decide (zlen (range_ i) < 4) then error "expected 4 hex digits" else mret tt);;
  c ← cur; h ← hexVal c; input_next;;
  let ret := u16 (h * 4096) in
  c ← cur; h ← hexVal c; input_next;;
  let ret := u16 (ret + h * 256) in
  c ← cur; h ← hexVal c; input_next;;
  let ret := u16 (ret + h * 16) in
  c ← cur; h ← hexVal c; input_next;;
  mret (u16 (ret + h)).

Definition decodeUnicodeEscape : Parse (list Z) :=
  codePoint ← readHex;
  codePoint ←
    (if decide (0xd800 <= codePoint <= 0xdbff) then
       b ← consume (lit "\u");
       (if b : bool then mret tt else error "expected another unicode escape for second half of surrogate pair");;
       second ← readHex;
       if decide (0xdc00 <= second <= 0xdfff) then
         mret (0x10000 + Z.shiftl (Z.land codePoint 0x3ff) 10 + Z.land second 0x3ff)
       else error "second character in surrogate pair is invalid"
     else if decide (0xdc00 <= codePoint <= 0xdfff) then
       error "invalid unicode code point (in range [0xdc00,0xdfff])"
     else mret codePoint);
  mret (codePointToUtf8 codePoint).

(** The character after a backslash. *)
Definition parse_escape : Parse (list Z) :=
  input_next;;
  c ← cur;
  if decide (c = 34 \/ c = 92 \/ c = 47) then input_next;; mret [c]
  else if decide (c = 98) then input_next;; mret [8]
  else if decide (c = 102) then input_next;; mret [12]
  else if decide (c = 110) then input_next;; mret [10]
  else if decide (c = 114) then input_next;; mret [13]
  else if decide (c = 116) then input_next;; mret [9]
  else if decide (c = 117) then input_next;; decodeUnicodeEscape
  else error ("unknown escape " +:+ pretty c +:+ " in string").

Definition string_round (ret : list Z) : Parse (list Z + list Z) :=
  range ← skipWhile (fun _ c => bool_decide (c <> 34 /\ c <> 92));
  let ret := ret ++ range in
  c ← cur;
  if decide (c = 34) then input_next;; mret (inr ret)
  else if decide (c = 92) then e ← parse_escape; mret (inl (ret ++ e))
  else
    (if decide (c = EOF) then error "unterminated string" else mret tt);;
    (if decide (c = 0) then error "null byte in string" else mret tt);;
    input_next;;
    mret (inl (ret ++ [u8 c])).

Definition parseString : Parse (list Z) :=
  c ← cur;
  assert (bool_decide (c = 34)) "assert( *in == quote)";;
  input_next;;
  i ← get;
  iter (S (length (range_ i))) string_round [].

(** ** Numbers *)

Definition maxInt : list Z := lit "9223372036854775807".
Definition minInt : list Z := lit "-9223372036854775808".

(** [StringPiece <= const char*]. *)
Definition piece_leb (a b : list Z) : bool := negb (range_ltb b a).

(** The branch of an integer. *)
Definition integer_number (negative : bool) (integral : list Z) : Parse dynamic :=
  if negb (double_fallback opts) || bool_decide (zlen integral < zlen maxInt) ||
     (negb negative && bool_decide (zlen integral = zlen maxInt) && piece_leb integral maxInt) ||
     (negative && bool_decide (zlen integral = zlen minInt) && piece_leb integral minInt)
  then val ← local_text (to_int int64 integral); skipWhitespace;; mret (DInt val)
  else val ← of_sum (text_to_double integral); skipWhitespace;; mret (DDouble val).

(** The branch of a fraction or an exponent; [start] is the input at the begin
    of the number. *)
Definition fraction_number (start : list Z) (wasE : bool) : Parse dynamic :=
  (if wasE then mret tt else input_next;; skipDigits;; mret tt);;
  c ← cur;
  (if decide (c = 101 \/ c = 69) then
     input_next;;
     c ← cur;
     (if decide (c = 43 \/ c = 45) then input_next else mret tt);;
     skipDigits;; mret tt
   else mret tt);;
  i ← get;
  let fullNum := take (length start - length (range_ i)) start in
  if parse_numbers_as_strings opts then mret (DString fullNum)
  else val ← of_sum (text_to_double fullNum); mret (DDouble val).

Definition parseNumber : Parse dynamic :=
  c ← cur;
  let negative := bool_decide (c = 45) in
  inf ← (if negative then consume (lit "-Infinity") else mret false);
  if inf : bool then
    mret (if parse_numbers_as_strings opts then DString (lit "-Infinity") else DDouble (double_neg infinity))
  else
  i ← get;
  let start := range_ i in
  integral ← skipMinusAndDigits;
  (if decide (negative = true /\ zlen integral < 2) then error "expected digits after `-'" else mret tt);;
  c ← cur;
  let wasE := bool_decide (c = 101 \/ c = 69) in
  if bool_decide (c <> 46) && negb wasE && parse_numbers_as_strings opts then mret (DString integral)
  else if bool_decide (c <> 46) && negb wasE then integer_number negative integral
  else fraction_number start wasE.

(** ** Values *)

(** What follows a key or an element, at the bottom of the loop: go on after a
    comma. *)
Definition after_item {A} (v : A) : Parse (A + A) :=
  skipWhitespace;;
  c ← cur;
  if decide (c <> 44) then mret (inr v) else input_next;; skipWhitespace;; mret (inl v).

Definition object_round (value : Parse dynamic) (ret : dynamic) : Parse (dynamic + dynamic) :=
  c ← cur;
  if decide (allow_trailing_comma opts = true /\ c = 125) then mret (inr ret) else
  key ←
    (if decide (c = 34) then k ← parseString; mret (DString k)
     else if negb (allow_non_string_keys opts) then error "expected string for object key name"
     else value);
  skipWhitespace;;
  expect 58;;
  skipWhitespace;;
  v ← value;
  ret ← changed (dyn_insert key v) ret;
  after_item ret.

Definition parseObject (value : Parse dynamic) : Parse dynamic :=
  c ← cur;
  assert (bool_decide (c = 123)) "assert( *in == '{')";;
  input_next;;
  skipWhitespace;;
  c ← cur;
  if decide (c = 125) then input_next;; mret (DObject []) else
  i ← get;
  ret ← iter (S (length (range_ i))) (object_round value) (DObject []);
  expect 125;;
  mret ret.

Definition array_round (value : Parse dynamic) (ret : dynamic) : Parse (dynamic + dynamic) :=
  c ← cur;
  if decide (allow_trailing_comma opts = true /\ c = 93) then mret (inr ret) else
  v ← value;
  ret ← changed (dyn_push_back v) ret;
  after_item ret.

Definition parseArray (value : Parse dynamic) : Parse dynamic :=
  c ← cur;
  assert (bool_decide (c = 91)) "assert( *in == '[')";;
  input_next;;
  skipWhitespace;;
  c ← cur;
  if decide (c = 93) then input_next;; mret (DArray []) else
  i ← get;
  ret ← iter (S (length (range_ i))) (array_round value) (DArray []);
  expect 93;;
  mret ret.

(** The literals, in the order in which they are tried. *)
Definition parse_literal : Parse dynamic :=
  b ← consume (lit "true"); if b : bool then mret (DBool true) else
  b ← consume (lit "false"); if b : bool then mret (DBool false) else
  b ← consume (lit "null"); if b : bool then mret DNull else
  b ← consume (lit "Infinity");
  if b : bool then mret (if parse_numbers_as_strings opts then DString (lit "Infinity") else DDouble infinity) else
  b ← consume (lit "NaN");
  if b : bool then mret (if parse_numbers_as_strings opts then DString (lit "NaN") else DDouble quiet_NaN) else
  error "expected json value".

Fixpoint parseValue (fuel : nat) : Parse dynamic :=
  match fuel with
  | O => fun _ => OutOfFuel
  | S fuel =>
      guarded (
        skipWhitespace;;
        c ← cur;
        if decide (c = 91) then parseArray (parseValue fuel)
        else if decide (c = 123) then parseObject (parseValue fuel)
        else if decide (c = 34) then s ← parseString; mret (DString s)
        else if decide (c = 45 \/ 48 <= c <= 57) then parseNumber
        else parse_literal)
  end.

(** [parseJson(range, opts)]. *)
Definition parse_all (fuel : nat) : Parse dynamic :=
  ret ← parseValue fuel;
  skipWhitespace;;
  i ← get;
  if decide (range_ i <> [] /\ current_ i <> 0) then error "parsing didn't consume all input" else mret ret.

Definition parseJson (range : list Z) : res Input dynamic :=
  parse_all (S (length range)) (mkInput range 0 (front_of range) 0).
End Parse.

Definition toJson {S} (dyn : dynamic) : M S (list Z) := serialize default_opts dyn.

Definition pretty_opts : serialization_opts := {|
  allow_non_string_keys := false; javascript_safe := false; pretty_formatting := true; encode_non_ascii := false;
  validate_utf8 := false; allow_trailing_comma := false; sort_keys := false; skip_invalid_utf8 := false;
  allow_nan_inf := false; double_mode := 0; double_num_digits := 0; double_fallback := false;
  parse_numbers_as_strings := false; recursion_limit := 100 |}.

Definition toPrettyJson {S} (dyn : dynamic) : M S (list Z) := serialize pretty_opts dyn.
End Json.

(** ** Comments *)

Inductive State := SNone | InString | InlineComment | LineComment.

(** One round of the loop of [stripComments] at [s], the rest of the text: the
    next state, what is pushed to [result], and whether [i] moves twice. *)
Definition strip_round (state : State) (s : list Z) : (State * list Z * bool) + exn :=
  match state, s with
  | SNone, 47 :: 42 :: _ => inl (InlineComment, [], true)
  | SNone, 47 :: 47 :: _ => inl (LineComment, [], true)
  | SNone, 34 :: _ => inl (InString, [34], false)
  | SNone, c :: _ => inl (SNone, [c], false)
  | InString, 92 :: c :: _ => inl (InString, [92; c], true)
  | InString, [92] => inr (logic_error "Invalid JSONC: string is not terminated")
  | InString, 34 :: _ => inl (SNone, [34], false)
  | InString, c :: _ => inl (InString, [c], false)
  | InlineComment, 42 :: 47 :: _ => inl (SNone, [], true)
  | LineComment, 10 :: _ => inl (SNone, [], false)
  | st, _ => inl (st, [], false)
  end.

Fixpoint strip_loop (fuel : nat) (state : State) (s : list Z) : M (list Z) unit :=
  match fuel, s with
  | _, [] => mret tt
  | O, _ => fun _ => OutOfFuel
  | S fuel, _ =>
      '(state, pushed, twice) ← of_sum (strip_round state s);
      push_text pushed;;
      strip_loop fuel state (drop (if twice : bool then 2 else 1) s)
  end.

Definition stripComments (jsonC : list Z) : res (list Z) unit := strip_loop (length jsonC) SNone jsonC [].
