(* ===== verification/JsonSpec.v ===== *)
(** * json: what is printed is parsed back

    The texts of a value ([denotes]), a text form with white space; the printer
    writes one of them and the parser reads every one of them. *)

From stdpp Require Import base list sets strings pretty sorting.
From S2P Require Import Prelude Conv ConvParse ConvPrint ConvSpec Hash Range RangeOps Unicode StringSplit Dynamic Json.

(** ** White space *)

Definition white (c : Z) : Prop := c = 32 \/ c = 10 \/ c = 9 \/ c = 13.
#[global] Instance white_dec c : Decision (white c).
Proof. unfold white. apply _. Defined.

Fixpoint trim (r : list Z) : list Z :=
  match r with
  | [] => []
  | c :: r' => if decide (white c) then trim r' else r
  end.

Lemma trim_app ws r : Forall white ws -> trim (ws ++ r) = trim r.
Proof. induction 1 as [|c ws Hc Hws IH]; [done|]. simpl. by rewrite decide_True. Qed.

Lemma trim_stop c r : ~ white c -> trim (c :: r) = c :: r.
Proof. intros Hc. simpl. by rewrite decide_False. Qed.

Lemma ltrimWhitespace_trim r : ltrimWhitespace r = Some (trim r).
Proof.
  destruct (ltrim_run r) as (r' & ws & -> & -> & Hws & Hr').
  assert (Hsp : forall c, is_space c <-> white c).
  { intros c. unfold is_space, is_oddspace, white. rewrite !orb_true_iff, !bool_decide_eq_true. tauto. }
  rewrite trim_app by (eapply Forall_impl; [exact Hws|]; intros c; apply Hsp). f_equal.
  destruct r' as [|c r']; [done|]. rewrite trim_stop; [done|]. intros Hw. by apply (Hr' c eq_refl), Hsp.
Qed.

Lemma trim_trim r : trim (trim r) = trim r.
Proof. induction r as [|c r IH]; [done|]. simpl. case_decide; [done|]. by apply trim_stop. Qed.

Lemma trim_length r : (length (trim r) <= length r)%nat.
Proof. induction r as [|c r IH]; [done|]. simpl. case_decide; simpl; lia. Qed.

Lemma trim_bytes (P : Z -> Prop) r : Forall P r -> Forall P (trim r).
Proof. induction 1 as [|c r Hc Hr IH]; [done|]. simpl. case_decide; [done|]. by constructor. Qed.

(** ** The input *)

Lemma sext_ascii c : 0 <= c < 128 -> sext 8 c = c.
Proof. intros Hc. unfold sext, wrap. rewrite Z.mod_small by lia. rewrite decide_True by lia. done. Qed.

(** The rest of the text is [r] and the depth is [lvl]. *)
Definition at_text (i : Input) (r : list Z) (lvl : Z) : Prop :=
  range_ i = r /\ current_ i = front_of r /\ currentRecursionLevel_ i = lvl.

Section Steps.
Implicit Types (i : Input) (r : list Z) (lvl : Z).

Lemma cur_wp i r lvl (Q : Z -> Input -> Prop) X : at_text i r lvl -> Q (front_of r) i -> wp cur i Q X.
Proof. by intros (_ & <- & _). Qed.

Lemma range_wp i r lvl (Q : Input -> Input -> Prop) X : at_text i r lvl -> (range_ i = r -> Q i i) -> wp get i Q X.
Proof. intros (E & _) HQ. by apply HQ. Qed.

Lemma set_range_wp i r lvl r' (Q : unit -> Input -> Prop) X :
  at_text i r lvl -> (forall i', at_text i' r' lvl -> Q tt i') -> wp (set_range r') i Q X.
Proof. intros (_ & _ & <-) HQ. by apply wp_modify, HQ. Qed.

Lemma next_wp i c r lvl (Q : unit -> Input -> Prop) X :
  at_text i (c :: r) lvl -> (forall i', at_text i' r lvl -> Q tt i') -> wp input_next i Q X.
Proof.
  intros Hi HQ. apply wp_bind. eapply range_wp; [exact Hi|]. intros ->.
  apply wp_bind, wp_assert; [by rewrite bool_decide_eq_true|]. by eapply set_range_wp.
Qed.

Lemma skipWhitespace_wp i r lvl (Q : unit -> Input -> Prop) X :
  at_text i r lvl -> (forall i', at_text i' (trim r) lvl -> Q tt i') -> wp skipWhitespace i Q X.
Proof.
  intros Hi HQ. apply wp_bind. eapply range_wp; [exact Hi|]. intros ->. rewrite ltrimWhitespace_trim. by eapply set_range_wp.
Qed.

Lemma skipWhile_wp p i r lvl (Q : list Z -> Input -> Prop) X : at_text i r lvl ->
  (forall i', at_text i' (drop (length (run_of p true r)) r) lvl -> Q (run_of p true r) i') -> wp (skipWhile p) i Q X.
Proof.
  intros Hi HQ. apply wp_bind. eapply range_wp; [exact Hi|]. intros E. rewrite E. apply wp_bind, wp_modify.
  apply wp_bind. eapply set_range_wp; [|intros i' Hi'; by apply wp_ret, HQ]. by destruct Hi as (? & ? & ?).
Qed.

Lemma consume_wp str i r lvl (Q : bool -> Input -> Prop) X : at_text i r lvl ->
  (take (length str) r = str -> forall i', at_text i' (drop (length str) r) lvl -> Q true i') ->
  (take (length str) r <> str -> Q false i) -> wp (consume str) i Q X.
Proof.
  intros Hi HT HF. apply wp_bind. eapply range_wp; [exact Hi|]. intros ->. case_decide as Hp.
  - apply wp_bind. eapply set_range_wp; [exact Hi|]. intros i' Hi'. apply wp_ret. by apply HT.
  - apply wp_ret. by apply HF.
Qed.

Lemma error_wp {A} what i (Q : A -> Input -> Prop) (X : exn -> Input -> Prop) : (forall e, X e i) -> wp (error what) i Q X.
Proof. intros HX. apply wp_bind, wp_get, wp_throw, HX. Qed.
End Steps.

Lemma expect_wp i c r lvl (Q : unit -> Input -> Prop) X :
  at_text i (c :: r) lvl -> 0 <= c < 128 -> (forall i', at_text i' r lvl -> Q tt i') -> wp (expect c) i Q X.
Proof.
  intros Hi Hc HQ. apply wp_bind. eapply cur_wp; [exact Hi|]. simpl. rewrite sext_ascii by lia.
  rewrite decide_False by (intros Hn; by apply Hn). by eapply next_wp.
Qed.

(** The first character does not satisfy [p]. *)
Definition stops (p : bool -> Z -> bool) (r : list Z) : Prop :=
  match r with [] => True | c :: _ => forall f, p f (sext 8 c) = false end.

Lemma run_of_run p f l r : Forall (fun c => forall f, p f (sext 8 c) = true) l -> stops p r -> run_of p f (l ++ r) = l.
Proof.
  intros Hl Hr. revert f. induction Hl as [|c l Hc Hl IH]; intros f; simpl.
  - destruct r as [|c r]; [done|]. simpl. by rewrite (Hr f).
  - by rewrite Hc, IH.
Qed.

(** ** Strings *)

(** The value of a hexadecimal digit. *)
Inductive hex_digit : Z -> Z -> Prop :=
  | hex_decimal c : 48 <= c <= 57 -> hex_digit c (c - 48)
  | hex_lower c : 97 <= c <= 102 -> hex_digit c (c - 97 + 10)
  | hex_upper c : 65 <= c <= 70 -> hex_digit c (c - 65 + 10).

(** Four of them. *)
Definition hex4 (t : list Z) (v : Z) : Prop :=
  exists c1 c2 c3 c4 h1 h2 h3 h4, t = [c1; c2; c3; c4] /\ hex_digit c1 h1 /\ hex_digit c2 h2 /\ hex_digit c3 h3 /\ hex_digit c4 h4 /\
    v = h1 * 4096 + h2 * 256 + h3 * 16 + h4.

(** What follows a backslash, and the bytes it stands for. *)
Inductive escape : list Z -> list Z -> Prop :=
  | escape_self c : c = 34 \/ c = 92 \/ c = 47 -> escape [c] [c]
  | escape_b : escape [98] [8]
  | escape_f : escape [102] [12]
  | escape_n : escape [110] [10]
  | escape_r : escape [114] [13]
  | escape_t : escape [116] [9]
  | escape_u t v : hex4 t v -> ~ 0xd800 <= v <= 0xdfff -> escape (117 :: t) (codePointToUtf8 v)
  | escape_uu t v t' v' : hex4 t v -> 0xd800 <= v <= 0xdbff -> hex4 t' v' -> 0xdc00 <= v' <= 0xdfff ->
      escape (117 :: t ++ 92 :: 117 :: t') (codePointToUtf8 (0x10000 + (v - 0xd800) * 1024 + (v' - 0xdc00))).

Definition unescaped (c : Z) : Prop := is_byte c /\ c <> 34 /\ c <> 92.

(** The text between the quotes, and the bytes of the string. *)
Inductive quoted : list Z -> list Z -> Prop :=
  | quoted_end : quoted [] []
  | quoted_plain c t s : unescaped c -> quoted t s -> quoted (c :: t) (c :: s)
  | quoted_escape e b t s : escape e b -> quoted t s -> quoted (92 :: e ++ t) (b ++ s).

Lemma hex_digit_range c h : hex_digit c h -> 0 <= h < 16 /\ 0 <= c < 128.
Proof. destruct 1; lia. Qed.

Lemma hexVal_wp c h i (Q : Z -> Input -> Prop) X : hex_digit c h -> Q h i -> wp (hexVal c) i Q X.
Proof.
  intros Hh HQ. unfold hexVal. destruct Hh.
  - rewrite decide_True by lia. by apply wp_ret.
  - rewrite decide_False, decide_True by lia. by apply wp_ret.
  - rewrite decide_False, decide_False, decide_True by lia. by apply wp_ret.
Qed.

Lemma hex_next_wp {A} i c h r lvl (k : Z -> unit -> M Input A) (Q : A -> Input -> Prop) X :
  at_text i (c :: r) lvl -> hex_digit c h -> (forall i', at_text i' r lvl -> wp (k h tt) i' Q X) ->
  wp (c ← cur; h ← hexVal c; x ← input_next; k h x) i Q X.
Proof.
  intros Hi Hh HQ. apply wp_bind. eapply cur_wp; [exact Hi|]. simpl. rewrite sext_ascii by by eapply hex_digit_range.
  apply wp_bind. eapply hexVal_wp; [exact Hh|]. apply wp_bind. eapply next_wp; [exact Hi|]. done.
Qed.

Lemma readHex_wp i t v r lvl (Q : Z -> Input -> Prop) X :
  at_text i (t ++ r) lvl -> hex4 t v -> (forall i', at_text i' r lvl -> Q v i') -> wp readHex i Q X.
Proof.
  intros Hi (c1 & c2 & c3 & c4 & h1 & h2 & h3 & h4 & -> & H1 & H2 & H3 & H4 & ->) HQ. unfold readHex.
  pose proof (hex_digit_range _ _ H1). pose proof (hex_digit_range _ _ H2).
  pose proof (hex_digit_range _ _ H3). pose proof (hex_digit_range _ _ H4).
  apply wp_bind. eapply range_wp; [exact Hi|]. intros ->. apply wp_bind.
  rewrite decide_False by (unfold zlen; simpl; lia). apply wp_ret.
  eapply hex_next_wp; [exact Hi|exact H1|]. clear i Hi. intros i Hi. cbv beta zeta.
  eapply hex_next_wp; [exact Hi|exact H2|]. clear i Hi. intros i Hi. cbv beta zeta.
  eapply hex_next_wp; [exact Hi|exact H3|]. clear i Hi. intros i Hi. cbv beta zeta.
  eapply hex_next_wp; [exact Hi|exact H4|]. clear i Hi. intros i Hi. apply wp_ret.
  rewrite (u16_small (h1 * 4096)), (u16_small (h1 * 4096 + h2 * 256)) by lia.
  rewrite (u16_small (_ + h3 * 16)), u16_small by lia. by apply HQ.
Qed.

Lemma surrogates_value v v' : 0xd800 <= v <= 0xdbff -> 0xdc00 <= v' <= 0xdfff ->
  0x10000 + Z.shiftl (Z.land v 0x3ff) 10 + Z.land v' 0x3ff = 0x10000 + (v - 0xd800) * 1024 + (v' - 0xdc00).
Proof.
  intros Hv Hv'. change 0x3ff with (Z.ones 10). rewrite !Z.land_ones, Z.shiftl_mul_pow2 by lia.
  replace (v `mod` 2 ^ 10) with (v - 0xd800) by euclid. replace (v' `mod` 2 ^ 10) with (v' - 0xdc00) by euclid. lia.
Qed.

Lemma escape_u_wp i e b r lvl (Q : list Z -> Input -> Prop) X :
  at_text i (e ++ r) lvl -> escape (117 :: e) b -> (forall i', at_text i' r lvl -> Q b i') -> wp decodeUnicodeEscape i Q X.
Proof.
  intros Hi He HQ. inversion He as [c [|[]]| | | | | |t v Ht Hv|t v t' v' Ht Hv Ht' Hv']; subst; try done; unfold decodeUnicodeEscape.
  - apply wp_bind. eapply readHex_wp; [exact Hi|exact Ht|]. intros i' Hi'. rewrite !decide_False by lia.
    apply wp_bind, wp_ret, wp_ret. by apply HQ.
  - apply wp_bind. rewrite <- (assoc_L (++)) in Hi. eapply readHex_wp; [exact Hi|exact Ht|]. intros i' Hi'.
    rewrite decide_True by lia. apply wp_bind, wp_bind. eapply (consume_wp (lit "\u")); [exact Hi'| |by intros []].
    intros _ i2 Hi2. apply wp_bind, wp_ret. apply wp_bind. eapply readHex_wp; [exact Hi2|exact Ht'|]. intros i3 Hi3.
    rewrite decide_True by lia. apply wp_ret. rewrite surrogates_value by lia. apply wp_ret. by apply HQ.
Qed.

Lemma parse_escape_wp i e b r lvl (Q : list Z -> Input -> Prop) X :
  at_text i (92 :: e ++ r) lvl -> escape e b -> (forall i', at_text i' r lvl -> Q b i') -> wp parse_escape i Q X.
Proof.
  intros Hi He HQ. apply wp_bind. eapply next_wp; [exact Hi|]. intros i1 Hi1. apply wp_bind. eapply cur_wp; [exact Hi1|].
  pose proof He as He'. destruct He as [c Hc| | | | | |t v Ht Hv|t v t' v' Ht Hv Ht' Hv'].
  1: { simpl. rewrite sext_ascii by lia. rewrite decide_True by lia. apply wp_bind. eapply next_wp; [exact Hi1|]. intros i2 Hi2.
       apply wp_ret. by apply HQ. }
  6,7: apply wp_bind; eapply next_wp; [exact Hi1|]; intros i2 Hi2; eapply escape_u_wp; [exact Hi2|exact He'|exact HQ].
  all: apply wp_bind; eapply next_wp; [exact Hi1|]; intros i2 Hi2; apply wp_ret; by apply HQ.
Qed.

(** The next run of characters without an escape. *)
Lemma quoted_run t s : quoted t s -> exists p t' s', t = p ++ t' /\ s = p ++ s' /\ Forall unescaped p /\
  (t' = [] /\ s' = [] \/ exists e b t'' s'', t' = 92 :: e ++ t'' /\ s' = b ++ s'' /\ escape e b /\ quoted t'' s'').
Proof.
  induction 1 as [|c t s Hc Hq (p & t' & s' & -> & -> & Hp & H)|e b t s He Hq _].
  - exists [], [], []. split_and!; try done. by left.
  - exists (c :: p), t', s'. split_and!; try done. by constructor.
  - exists [], (92 :: e ++ t), (b ++ s). split_and!; try done. right. by exists e, b, t, s.
Qed.

Lemma unescaped_sext c : unescaped c -> bool_decide (sext 8 c <> 34 /\ sext 8 c <> 92) = true.
Proof.
  intros (Hb & H1 & H2). apply bool_decide_eq_true. unfold sext, wrap. rewrite Z.mod_small by lia.
  case_decide; lia.
Qed.

Lemma string_round_wp i t s rest lvl ret : at_text i (t ++ 34 :: rest) lvl -> quoted t s ->
  wp (string_round ret) i (fun r i' =>
    match r with
    | inl ret' => exists t' s', (length t' < length t)%nat /\ at_text i' (t' ++ 34 :: rest) lvl /\ quoted t' s' /\ ret' ++ s' = ret ++ s
    | inr ret' => ret' = ret ++ s /\ at_text i' rest lvl
    end) nothrow.
Proof.
  intros Hi (p & t' & s' & -> & -> & Hp & Ht)%quoted_run. rewrite <- (assoc_L (++)) in Hi.
  apply wp_bind. eapply skipWhile_wp; [exact Hi|]. intros i' Hi'.
  rewrite run_of_run in Hi' |- *; first rewrite drop_app_length in Hi'.
  2,4: eapply Forall_impl; [exact Hp|]; intros c Hc _; by apply unescaped_sext.
  2,3: by destruct Ht as [[-> _]|(e & b & t'' & s'' & -> & _)].
  apply wp_bind. eapply cur_wp; [exact Hi'|]. destruct Ht as [[-> ->]|(e & b & t'' & s'' & -> & -> & He & Hq)].
  - apply wp_bind. eapply next_wp; [exact Hi'|]. intros i2 Hi2. apply wp_ret. by rewrite app_nil_r.
  - apply wp_bind. change ((92 :: e ++ t'') ++ 34 :: rest) with (92 :: (e ++ t'') ++ 34 :: rest) in Hi'.
    rewrite <- (assoc_L (++)) in Hi'. eapply parse_escape_wp; [exact Hi'|exact He|]. intros i2 Hi2. apply wp_ret.
    exists t'', s''. split_and!; [rewrite !length_app; simpl; rewrite length_app; lia|done|done|by rewrite !(assoc_L (++))].
Qed.

Lemma parseString_wp i t s rest lvl (Q : list Z -> Input -> Prop) :
  at_text i (34 :: t ++ 34 :: rest) lvl -> quoted t s -> (forall i', at_text i' rest lvl -> Q s i') -> wp parseString i Q nothrow.
Proof.
  intros Hi Hq HQ. apply wp_bind. eapply cur_wp; [exact Hi|]. apply wp_bind, wp_assert; [done|].
  apply wp_bind. eapply next_wp; [exact Hi|]. clear i Hi. intros i Hi. apply wp_bind. eapply range_wp; [exact Hi|]. intros ->.
  eapply (wp_iter _ (fun n ret i => exists t' s', length t' = n /\ at_text i (t' ++ 34 :: rest) lvl /\ quoted t' s' /\ ret ++ s' = s)).
  - intros n ret i' (t' & s' & <- & Hi' & Hq' & <-). eapply wp_wand; [by eapply string_round_wp|].
    intros [ret'|ret'] i2; [|by intros [-> ?]; apply HQ]. intros (t2 & s2 & Hl & Hi2 & Hq2 & E).
    exists (length t2). split; [done|]. by exists t2, s2.
  - apply (Nat.lt_succ_r (length t)). rewrite length_app. lia.
  - by exists t, s.
Qed.

(** ** The grammar

    [denotes n v t]: the text [t] is a JSON text of the value [v], whose depth is
    at most [n]. White space may stand around every element, key and value; the
    items of an object are in the order of the text and no key occurs twice.
    Numbers are the integers in their decimal form. *)

Inductive joined : list (list Z) -> list Z -> Prop :=
  | joined_one w1 t w2 : Forall white w1 -> Forall white w2 -> joined [t] (w1 ++ t ++ w2)
  | joined_more w1 t w2 ts r : Forall white w1 -> Forall white w2 -> joined ts r -> joined (t :: ts) (w1 ++ t ++ w2 ++ 44 :: r).

Definition bracketed (o c : Z) (ts : list (list Z)) (t : list Z) : Prop :=
  (ts = [] /\ exists w, Forall white w /\ t = o :: w ++ [c]) \/ (exists r, joined ts r /\ t = o :: r ++ [c]).

Section Grammar.
Context `{Floating}.

Fixpoint denotes (n : nat) (v : dynamic) (t : list Z) {struct n} : Prop :=
  match n with
  | O => False
  | S n =>
      match v with
      | DNull => t = lit "null"
      | DBool b => t = (if b then lit "true" else lit "false")
      | DInt i => in_range int64 i /\ printed i t
      | DDouble _ => False
      | DString s => exists q, quoted q s /\ t = 34 :: q ++ [34]
      | DArray l => exists ts, Forall2 (denotes n) l ts /\ bracketed 91 93 ts t
      | DObject kvs =>
          NoDup kvs.*1 /\ exists ts, bracketed 123 125 ts t /\
          Forall2 (fun kv t => exists s q w1 w2 u, kv.1 = DString s /\ quoted q s /\ Forall white w1 /\ Forall white w2 /\
                               denotes n kv.2 u /\ t = 34 :: q ++ 34 :: w1 ++ 58 :: w2 ++ u) kvs ts
      end
  end.

(** The text of an item: a key, a colon and a value. *)
Definition entry (n : nat) (kv : dynamic * dynamic) (t : list Z) : Prop :=
  exists s q w1 w2 u, kv.1 = DString s /\ quoted q s /\ Forall white w1 /\ Forall white w2 /\
    denotes n kv.2 u /\ t = 34 :: q ++ 34 :: w1 ++ 58 :: w2 ++ u.

(** The first character of a value or an item. *)
Definition starts (t : list Z) : Prop := exists c t', t = c :: t' /\ 0 <= c < 128 /\ ~ white c /\ c <> 93 /\ c <> 125.

Lemma printed_starts v t : printed v t -> starts t.
Proof.
  unfold printed, starts. case_decide.
  - intros (ds & -> & _). exists 45, ds. unfold white. split; [done|]. lia.
  - intros (Hd & Hne & _). destruct t as [|c t]; [done|]. apply Forall_cons in Hd as [Hc _]. exists c, t.
    split; [done|]. unfold white. lia.
Qed.

Lemma denotes_starts n v t : denotes n v t -> starts t.
Proof.
  assert (Hc : forall c t', c = 110 \/ c = 116 \/ c = 102 \/ c = 34 \/ c = 91 \/ c = 123 -> starts (c :: t')).
  { intros c t' Hc. exists c, t'. unfold white. split; [done|]. lia. }
  assert (Hb : forall o c ts, o = 91 \/ o = 123 -> bracketed o c ts t -> starts t).
  { intros o c ts Ho [(_ & w & _ & ->)|(r & _ & ->)]; apply Hc; lia. }
  destruct n as [|n], v; simpl; try done.
  - intros ->. apply Hc. auto.
  - intros (ts & _ & Hbr). eapply Hb; [|exact Hbr]. auto.
  - intros ->. destruct b; apply Hc; auto.
  - intros [_ Hp]. by eapply printed_starts.
  - intros (_ & ts & Hbr & _). eapply Hb; [|exact Hbr]. auto.
  - intros (q & _ & ->). apply Hc. auto 6.
Qed.

Lemma entry_starts n kv t : entry n kv t -> starts t.
Proof. intros (s & q & w1 & w2 & u & _ & _ & _ & _ & _ & ->). eexists _, _. split; [done|]. unfold white. lia. Qed.

Lemma starts_trim t r : starts t -> trim (t ++ r) = t ++ r.
Proof. intros (c & t' & -> & _ & Hw & _). simpl. by rewrite decide_False. Qed.

Lemma joined_length ts r u : Forall starts ts -> joined ts r -> (length ts <= length (trim (r ++ u)))%nat.
Proof.
  intros Hs Hj. assert (Hle : forall u', (length (trim u') <= length u')%nat) by apply trim_length.
  assert (Hpos : forall t r, starts t -> (1 <= length (trim (t ++ r)))%nat).
  { intros t u' Ht. rewrite starts_trim, length_app by done. destruct Ht as (c & t' & -> & _). simpl. lia. }
  induction Hj as [w1 t w2 H1 H2|w1 t w2 ts r H1 H2 Hj IH]; apply Forall_cons in Hs as [Ht Hs].
  - rewrite <- !(assoc_L (++)), trim_app by done. by apply Hpos.
  - rewrite <- !(assoc_L (++)), trim_app, starts_trim by done. rewrite !length_app. simpl.
    specialize (IH Hs). pose proof (Hle (r ++ u)). rewrite !length_app in *. destruct Ht as (c & t' & -> & _). simpl. lia.
Qed.

(** ** Numbers *)

Definition number_end (rest : list Z) : Prop :=
  stops (fun _ c => is_digit c || bool_decide (c = 45 \/ c = 46 \/ c = 101 \/ c = 69)) rest.

Lemma number_end_cons c r : c = 44 \/ c = 58 \/ c = 93 \/ c = 125 \/ white c -> number_end (c :: r).
Proof.
  intros Hc f. unfold white in Hc. rewrite sext_ascii by lia. unfold is_digit.
  rewrite orb_false_iff, !bool_decide_eq_false. lia.
Qed.

Lemma number_end_app w r : Forall white w -> number_end r -> number_end (w ++ r).
Proof. intros [|c w' Hc Hw] Hr; [done|]. apply number_end_cons. tauto. Qed.

Lemma digits_run f ds rest : Forall (fun c => digit c) ds -> number_end rest ->
  run_of (fun first c => is_digit c || (first && bool_decide (c = 45))) f (ds ++ rest) = ds.
Proof.
  intros Hd Hr. apply run_of_run.
  - eapply Forall_impl; [exact Hd|]. simpl. intros c Hc f'. rewrite sext_ascii by lia. unfold is_digit.
    by rewrite bool_decide_eq_true_2 by lia.
  - destruct rest as [|c r]; [done|]. intros f'. specialize (Hr f'). rewrite orb_false_iff, bool_decide_eq_false in Hr.
    destruct Hr as [-> Hc]. rewrite orb_false_l, andb_false_iff, bool_decide_eq_false. right. lia.
Qed.

Lemma printed_run v t rest : printed v t -> number_end rest ->
  run_of (fun first c => is_digit c || (first && bool_decide (c = 45))) true (t ++ rest) = t.
Proof.
  unfold printed. case_decide; [intros (ds & -> & Hd & _) Hr|intros (Hd & _) Hr]; [|by apply digits_run].
  simpl. by rewrite digits_run.
Qed.

Lemma printed_read v t : in_range int64 v -> printed v t -> to_int int64 t = Ok v [].
Proof.
  intros Hv Hp. apply to_int_text; [by right; right; right|by eapply printed_bytes|done| |done].
  pose proof (printed_text int64 v t [] [] Hp ltac:(done) ltac:(done) ltac:(done)) as Ht. by rewrite app_nil_r in Ht.
Qed.

Context (opts : serialization_opts).
Context (Hfb : double_fallback opts = false) (Hns : parse_numbers_as_strings opts = false).

Lemma parseNumber_wp i t v rest lvl : at_text i (t ++ rest) lvl -> in_range int64 v -> printed v t -> number_end rest ->
  wp (parseNumber opts) i (fun w i' => w = DInt v /\ at_text i' (trim rest) lvl) nothrow.
Proof.
  intros Hi Hv Hp Hr. apply wp_bind. eapply cur_wp; [exact Hi|]. apply wp_bind.
  assert (Hinf : take 9 (t ++ rest) <> lit "-Infinity").
  { unfold printed in Hp. case_decide; [destruct Hp as (ds & -> & Hp)|]; destruct Hp as (Hd & Hne & _).
    - destruct ds as [|c ds]; [done|]. apply Forall_cons in Hd as [Hc _]. intros [=]. lia.
    - destruct t as [|c t]; [done|]. apply Forall_cons in Hd as [Hc _]. intros [=]. lia. }
  apply (wp_wand _ _ (fun b i' => b = false /\ at_text i' (t ++ rest) lvl)).
  { case_bool_decide; [|by apply wp_ret]. eapply consume_wp; [exact Hi|by intros ?%Hinf|done]. }
  clear i Hi. intros b i [-> Hi]. apply wp_bind. eapply range_wp; [exact Hi|]. intros Er.
  apply wp_bind. eapply skipWhile_wp; [exact Hi|]. rewrite (printed_run v), drop_app_length by done. intros i2 Hi2.
  apply wp_bind. rewrite decide_False; [apply wp_ret|].
  2: { rewrite bool_decide_eq_true. intros [Hc Hl]. unfold printed in Hp. case_decide.
       - destruct Hp as (ds & -> & _ & Hne & _). destruct ds; [done|]. unfold zlen in Hl. simpl in Hl. lia.
       - destruct Hp as (Hd & Hne & _). destruct t as [|c t]; [done|]. apply Forall_cons in Hd as [Hc' _].
         simpl in Hc. rewrite sext_ascii in Hc by lia. lia. }
  apply wp_bind. eapply cur_wp; [exact Hi2|].
  assert (Hne : front_of rest <> 46 /\ front_of rest <> 101 /\ front_of rest <> 69).
  { destruct rest as [|c r]; [done|]. specialize (Hr true). rewrite orb_false_iff, bool_decide_eq_false in Hr. simpl. lia. }
  rewrite (bool_decide_eq_true_2 (_ <> 46)) by tauto. rewrite (bool_decide_eq_false_2 (_ \/ _)) by tauto. rewrite Hns. simpl.
  unfold integer_number. rewrite Hfb. simpl. rewrite (printed_read v t) by done. simpl. apply wp_bind, wp_ret.
  apply wp_bind. eapply skipWhitespace_wp; [exact Hi2|]. intros i' Hi'. by apply wp_ret.
Qed.

(** ** Arrays and objects *)

(** [m] reads the value [v] from the text [t], whatever follows. *)
Definition reads (m : M Input dynamic) (lvl : Z) (t : list Z) (v : dynamic) : Prop := forall i ws rest,
  at_text i (ws ++ t ++ rest) lvl -> Forall white ws -> number_end rest ->
  wp m i (fun w i' => w = v /\ exists r, at_text i' r lvl /\ trim r = trim rest) nothrow.

Lemma after_item_comma {A} (v : A) i r r' lvl : at_text i r lvl -> trim r = 44 :: r' ->
  wp (after_item v) i (fun res i' => res = inl v /\ at_text i' (trim r') lvl) nothrow.
Proof.
  intros Hi Hr. apply wp_bind. eapply skipWhitespace_wp; [exact Hi|]. rewrite Hr. clear i Hi. intros i Hi.
  apply wp_bind. eapply cur_wp; [exact Hi|]. rewrite decide_False by (intros Hn; by apply Hn).
  apply wp_bind. eapply next_wp; [exact Hi|]. clear i Hi. intros i Hi.
  apply wp_bind. eapply skipWhitespace_wp; [exact Hi|]. intros i' Hi'. by apply wp_ret.
Qed.

Lemma after_item_close {A} (v : A) i r c r' lvl : at_text i r lvl -> trim r = c :: r' -> c = 93 \/ c = 125 ->
  wp (after_item v) i (fun res i' => res = inr v /\ at_text i' (c :: r') lvl) nothrow.
Proof.
  intros Hi Hr Hc. apply wp_bind. eapply skipWhitespace_wp; [exact Hi|]. rewrite Hr. clear i Hi. intros i Hi.
  apply wp_bind. eapply cur_wp; [exact Hi|]. simpl. rewrite sext_ascii by lia. rewrite decide_True by lia. by apply wp_ret.
Qed.

(** The loop over the elements or items [all], whose values so far are [st done]. *)
Section Items.
Context {X : Type} (elem : X -> list Z -> Prop) (st : list X -> dynamic) (round : dynamic -> M Input (dynamic + dynamic)).
Context (lvl close : Z) (rest : list Z) (Hclose : close = 93 \/ close = 125).
Context (Hstarts : forall x t, elem x t -> starts t).

(** What a round does with the next element. *)
Definition takes (all : list X) : Prop := forall i done x todo t r, all = done ++ x :: todo -> elem x t ->
  at_text i (t ++ r) lvl -> number_end r ->
  wp (round (st done)) i (fun res i' => exists i2 r2, at_text i2 r2 lvl /\ trim r2 = trim r /\
    after_item (st (done ++ [x])) i2 = Ok res i') nothrow.

Lemma items_wp all ts r i : takes all -> Forall2 elem all ts -> joined ts r -> at_text i (trim (r ++ close :: rest)) lvl ->
  forall fuel, (length ts < fuel)%nat ->
  wp (iter fuel round (st [])) i (fun v i' => v = st all /\ at_text i' (close :: rest) lvl) nothrow.
Proof.
  intros Hround Hall Hj Hi fuel Hf.
  eapply (wp_iter _ (fun n ret i => exists done todo ts r, n = length ts /\ all = done ++ todo /\ ret = st done /\
    Forall2 elem todo ts /\ joined ts r /\ at_text i (trim (r ++ close :: rest)) lvl)); [|exact Hf|by exists [], all, ts, r].
  clear - Hround Hclose Hstarts. intros n ret i (done & todo & ts & r & -> & Hall & -> & Hts & Hj & Hi).
  destruct Hj as [w1 t w2 H1 H2|w1 t w2 ts r H1 H2 Hj]; inversion Hts as [|x ? xs ? Hx Hxs]; subst.
  - inversion Hxs; subst. rewrite <- !(assoc_L (++)), trim_app, starts_trim in Hi by eauto.
    assert (Hend : number_end (w2 ++ close :: rest)) by (apply number_end_app; [done|]; apply number_end_cons; tauto).
    eapply wp_wand; [by eapply Hround|]. intros res i' (i2 & r2 & Hi2 & Hr2 & E).
    rewrite trim_app, trim_stop in Hr2 by (unfold white; done || lia).
    pose proof (after_item_close (st (done ++ [x])) i2 r2 _ _ lvl Hi2 Hr2 Hclose) as Ha. unfold wp in Ha. rewrite E in Ha.
    by destruct Ha as [-> ?].
  - rewrite <- !(assoc_L (++)), trim_app, starts_trim in Hi by eauto.
    assert (Hend : number_end (w2 ++ (44 :: r) ++ close :: rest)) by (apply number_end_app; [done|]; apply number_end_cons; tauto).
    eapply wp_wand; [by eapply Hround|]. intros res i' (i2 & r2 & Hi2 & Hr2 & E).
    rewrite trim_app in Hr2 by done. simpl in Hr2.
    pose proof (after_item_comma (st (done ++ [x])) i2 r2 _ lvl Hi2 Hr2) as Ha. unfold wp in Ha. rewrite E in Ha.
    destruct Ha as [-> Hi']. exists (length ts). split; [simpl; lia|].
    exists (done ++ [x]), xs, ts, r. by rewrite <- (assoc_L (++)).
Qed.
End Items.

Lemma after_item_ok {A} (v : A) i r lvl : at_text i r lvl ->
  wp (after_item v) i (fun res i' => after_item v i = Ok res i') nothrow.
Proof.
  intros Hi. assert (Hw : wp (after_item v) i (fun _ _ => True) nothrow).
  { apply wp_bind. eapply skipWhitespace_wp; [exact Hi|]. clear i Hi. intros i Hi. apply wp_bind. eapply cur_wp; [exact Hi|].
    destruct (decide _) as [|Hc]; [by apply wp_ret|]. apply dec_stable in Hc. destruct (trim r) as [|c r']; [done|].
    apply wp_bind. eapply next_wp; [exact Hi|]. clear i Hi Hc. intros i Hi.
    apply wp_bind. eapply skipWhitespace_wp; [exact Hi|]. intros i' Hi'. by apply wp_ret. }
  unfold wp in *. by destruct (after_item v i).
Qed.

Lemma array_takes value lvl all :
  takes (fun x t => reads value lvl t x /\ starts t) DArray (array_round opts value) lvl all.
Proof.
  intros i done x todo t r _ [Hrd Hst] Hi Hr. apply wp_bind. eapply cur_wp; [exact Hi|].
  destruct (Hst) as (c & t' & Et & Hc & _ & Hn & _). rewrite decide_False.
  2: { subst t. simpl. rewrite sext_ascii by lia. tauto. }
  apply wp_bind. eapply wp_wand; [by eapply (Hrd i [] r)|]. intros v i2 (-> & r2 & Hi2 & Hr2).
  apply wp_bind, wp_ret. eapply wp_wand; [eapply after_item_ok; exact Hi2|]. intros res i' E. by exists i2, r2.
Qed.

(** ** Objects *)

(** The text of an item, for the parser [value]. *)
Definition item_text (value : M Input dynamic) (lvl : Z) (kv : dynamic * dynamic) (t : list Z) : Prop :=
  exists s q w1 w2 u, kv.1 = DString s /\ quoted q s /\ Forall white w1 /\ Forall white w2 /\
    reads value lvl u kv.2 /\ starts u /\ t = 34 :: q ++ 34 :: w1 ++ 58 :: w2 ++ u.

Lemma object_takes value lvl all : string_keys all -> NoDup all.*1 ->
  takes (item_text value lvl) DObject (object_round opts value) lvl all.
Proof.
  intros Hks Hnd i done [k x] todo t r -> (s & q & w1 & w2 & u & Hk & Hq & H1 & H2 & Hrd & Hst & ->) Hi Hr. simpl in *. subst k.
  apply wp_bind. eapply cur_wp; [exact Hi|]. rewrite decide_False by (intros [_ [=]]).
  apply wp_bind. rewrite decide_True by done. rewrite <- !(assoc_L (++)) in Hi. simpl in Hi. rewrite <- !(assoc_L (++)) in Hi. simpl in Hi.
  apply wp_bind. eapply parseString_wp; [exact Hi|exact Hq|]. clear i Hi. intros i Hi. apply wp_ret.
  apply wp_bind. eapply skipWhitespace_wp; [exact Hi|]. rewrite trim_app by done. clear i Hi. intros i Hi.
  apply wp_bind. eapply expect_wp; [exact Hi|done|]. clear i Hi. intros i Hi.
  apply wp_bind. eapply skipWhitespace_wp; [exact Hi|]. rewrite <- (assoc_L (++)), trim_app, starts_trim by done. clear i Hi. intros i Hi.
  apply wp_bind. eapply wp_wand; [by eapply (Hrd i [] r)|]. intros v i2 (-> & r2 & Hi2 & Hr2).
  apply Forall_app in Hks as [Hks _]. rewrite fmap_app, NoDup_app in Hnd. destruct Hnd as (_ & Hnd & _).
  apply wp_bind, wp_ret. simpl. rewrite insert_fresh; [|done|].
  - eapply wp_wand; [eapply after_item_ok; exact Hi2|]. intros res i' E. by exists i2, r2.
  - intros Hin. apply (Hnd _ Hin). simpl. by left.
Qed.

(** The two kinds of brackets. *)
Lemma joined_front ts r u : Forall starts ts -> joined ts r -> exists t r', starts t /\ trim (r ++ u) = t ++ r'.
Proof.
  intros Hs Hj. destruct Hj as [w1 t w2 H1 H2|w1 t w2 ts' r' H1 H2 Hj]; apply Forall_cons in Hs as [Ht _];
    rewrite <- !(assoc_L (++)), trim_app, starts_trim by done; eauto.
Qed.

Lemma bracket_wp {X} (elem : X -> list Z -> Prop) (st : list X -> dynamic) round why o close lvl i l ts t rest :
  (forall x t, elem x t -> starts t) -> takes elem st round lvl l -> Forall2 elem l ts -> bracketed o close ts t ->
  at_text i (t ++ rest) lvl -> 0 <= o < 128 -> close = 93 \/ close = 125 ->
  wp (c ← cur; assert (bool_decide (c = o)) why;; input_next;; skipWhitespace;; c ← cur;
      if decide (c = close) then input_next;; mret (st []) else
      i ← get; ret ← iter (S (length (range_ i))) round (st []); expect close;; mret ret) i
     (fun w i' => w = st l /\ at_text i' rest lvl) nothrow.
Proof.
  intros Hstarts Htakes Hl Hb Hi Ho Hclose.
  assert (Hs : Forall starts ts) by (clear - Hstarts Hl; induction Hl; eauto).
  assert (Ht : exists t', t ++ rest = o :: t' ++ close :: rest /\
    (ts = [] /\ Forall white t' \/ joined ts t')).
  { destruct Hb as [(-> & w & Hw & ->)|(r & Hj & ->)]; eexists; (split; [simpl; by rewrite <- (assoc_L (++))|]); eauto. }
  destruct Ht as (t' & E & Ht). rewrite E in Hi. apply wp_bind. eapply cur_wp; [exact Hi|]. cbn [front_of]. rewrite sext_ascii by done.
  apply wp_bind, wp_assert; [by rewrite bool_decide_eq_true|]. apply wp_bind. eapply next_wp; [exact Hi|]. clear i Hi. intros i Hi.
  apply wp_bind. eapply skipWhitespace_wp; [exact Hi|]. clear i Hi. intros i Hi. apply wp_bind. eapply cur_wp; [exact Hi|].
  destruct Ht as [[-> Hw]|Hj].
  - rewrite trim_app, trim_stop in Hi |- * by (unfold white; done || lia). simpl. rewrite sext_ascii, decide_True by lia.
    apply wp_bind. eapply next_wp; [exact Hi|]. intros i' Hi'. apply wp_ret. by inversion Hl; subst.
  - destruct (joined_front ts t' (close :: rest) Hs Hj) as (t2 & r2 & (c & t3 & -> & Hc & _ & Hn) & E2).
    rewrite decide_False; [|rewrite E2; simpl; rewrite sext_ascii by lia; lia].
    apply wp_bind. eapply range_wp; [exact Hi|]. intros ->. apply wp_bind.
    eapply wp_wand; [apply (items_wp elem st round lvl close rest Hclose Hstarts l ts t' i Htakes Hl Hj Hi)|].
    { apply Nat.lt_succ_r, joined_length; done. }
    intros w i' [-> Hi']. apply wp_bind. eapply expect_wp; [exact Hi'|lia|]. intros i2 Hi2. by apply wp_ret.
Qed.

Lemma parseArray_wp value lvl i l ts t rest : Forall2 (fun x t => reads value lvl t x /\ starts t) l ts -> bracketed 91 93 ts t ->
  at_text i (t ++ rest) lvl -> wp (parseArray opts value) i (fun w i' => w = DArray l /\ at_text i' rest lvl) nothrow.
Proof.
  intros Hl Hb Hi. eapply (bracket_wp _ DArray); [|apply array_takes|exact Hl|exact Hb|exact Hi|lia|lia]. by intros x u [_ ?].
Qed.

Lemma parseObject_wp value lvl i kvs ts t rest : string_keys kvs -> NoDup kvs.*1 -> Forall2 (item_text value lvl) kvs ts ->
  bracketed 123 125 ts t -> at_text i (t ++ rest) lvl ->
  wp (parseObject opts value) i (fun w i' => w = DObject kvs /\ at_text i' rest lvl) nothrow.
Proof.
  intros Hks Hnd Hl Hb Hi. eapply (bracket_wp _ DObject); [|by apply object_takes|exact Hl|exact Hb|exact Hi|lia|lia].
  intros [k v] u (s & q & w1 & w2 & u' & _ & _ & _ & _ & _ & _ & ->). eexists _, _. split; [done|]. unfold white. lia.
Qed.

(** ** Values *)

Lemma guarded_wp {A} (m : M Input A) i r lvl (Q : A -> Input -> Prop) :
  at_text i r lvl -> 0 <= lvl <= recursion_limit opts -> recursion_limit opts < 2 ^ 32 - 1 ->
  (forall i', at_text i' r (lvl + 1) ->
    wp m i' (fun v i2 => exists r2, at_text i2 r2 (lvl + 1) /\ forall i3, at_text i3 r2 lvl -> Q v i3) nothrow) ->
  wp (guarded opts m) i Q nothrow.
Proof.
  intros (E1 & E2 & E3) Hl Hlim Hm. apply wp_bind, wp_bind, wp_get. rewrite E3, decide_False by lia. apply wp_bind, wp_ret, wp_modify.
  rewrite E3, u32_small by lia. apply wp_bind, wp_try_catch. eapply wp_mono; [apply Hm; by split_and!| |done].
  intros v i2 (r2 & (F1 & F2 & F3) & HQ). apply wp_bind, wp_modify, wp_ret, HQ. split_and!; [done|done|]. simpl.
  rewrite F3, u32_small by lia. lia.
Qed.

Lemma parse_literal_wp i v t rest lvl : at_text i (t ++ rest) lvl ->
  v = DNull /\ t = lit "null" \/ v = DBool true /\ t = lit "true" \/ v = DBool false /\ t = lit "false" ->
  wp (parse_literal opts) i (fun w i' => w = v /\ at_text i' rest lvl) nothrow.
Proof.
  intros Hi Ht. unfold parse_literal.
  destruct Ht as [[-> ->]|[[-> ->]|[-> ->]]];
    repeat (apply wp_bind; eapply consume_wp; [exact Hi| |]; [intros Hp i' Hi'; first [discriminate Hp|by apply wp_ret]|intros Hp; cbv iota beta; first [by destruct Hp|clear Hp]]).
Qed.

Lemma parseValue_reads n v t fuel lvl : denotes n v t -> (n <= fuel)%nat -> 0 <= lvl -> lvl + Z.of_nat n <= recursion_limit opts + 1 ->
  recursion_limit opts < 2 ^ 32 - 1 -> reads (parseValue opts fuel) lvl t v.
Proof.
  intros Hd Hf Hl Hlim Hmax. revert v t fuel lvl Hd Hf Hl Hlim. induction n as [|n IH]; intros v t fuel lvl Hd Hf Hl Hlim; [done|].
  destruct fuel as [|fuel]; [lia|]. intros i ws rest Hi Hws Hr. pose proof (denotes_starts _ _ _ Hd) as Hst.
  eapply guarded_wp; [exact Hi|lia|done|]. clear i Hi. intros i Hi.
  apply (wp_wand _ _ (fun w i' => w = v /\ exists r, at_text i' r (lvl + 1) /\ trim r = trim rest)).
  2: { intros w i2 (-> & r2 & Hi2 & Hr2). exists r2. split; [done|]. intros i3 Hi3. split; [done|]. by exists r2. }
  assert (Hfin : forall w i', w = v /\ at_text i' rest (lvl + 1) -> w = v /\ exists r, at_text i' r (lvl + 1) /\ trim r = trim rest).
  { intros w i' [-> Hi']. eauto. }
  apply wp_bind. eapply skipWhitespace_wp; [exact Hi|]. rewrite trim_app, starts_trim by done. clear i Hi. intros i Hi.
  apply wp_bind. eapply cur_wp; [exact Hi|].
  assert (Hrd : forall x u, denotes n x u -> reads (parseValue opts fuel) (lvl + 1) u x /\ starts u).
  { intros x u Hx. split; [|by eapply denotes_starts]. apply IH; [done|lia..]. }
  destruct v as [|l|b|d|x|kvs|s]; simpl in Hd.
  - subst t. eapply wp_wand; [eapply (parse_literal_wp i DNull); [exact Hi|]; auto|exact Hfin].
  - destruct Hd as (ts & Hl2 & Hb).
    assert (Hfront : front_of (t ++ rest) = 91) by (by destruct Hb as [(-> & w & Hw & ->)|(r & Hj & ->)]).
    rewrite Hfront, decide_True by done. eapply wp_wand; [eapply parseArray_wp; [|exact Hb|exact Hi]|exact Hfin].
    eapply Forall2_impl; [exact Hl2|]. exact Hrd.
  - subst t. eapply wp_wand; [|exact Hfin]. destruct b; (eapply (parse_literal_wp i (DBool _)); [exact Hi|]; auto).
  - done.
  - destruct Hd as [Hx Hp]. pose proof (parseNumber_wp i t x rest _ Hi Hx Hp Hr) as Hn.
    assert (Hfront : front_of (t ++ rest) = 45 \/ 48 <= front_of (t ++ rest) <= 57).
    { unfold printed in Hp. case_decide; [destruct Hp as (ds & -> & _); by left|]. destruct Hp as (Hds & Hne & _).
      destruct t as [|c t]; [done|]. apply Forall_cons in Hds as [Hc _]. simpl. rewrite sext_ascii by lia. lia. }
    rewrite 3!decide_False by lia. rewrite decide_True by lia. eapply wp_wand; [exact Hn|]. intros w i' [-> Hi'].
    split; [done|]. eexists. split; [exact Hi'|apply trim_trim].
  - destruct Hd as (Hnd & ts & Hb & Hts).
    assert (Hfront : front_of (t ++ rest) = 123) by (by destruct Hb as [(-> & w & Hw & ->)|(r & Hj & ->)]).
    rewrite Hfront, decide_False, decide_True by done. eapply wp_wand; [eapply parseObject_wp; [|exact Hnd| |exact Hb|exact Hi]|exact Hfin].
    + clear - Hts. induction Hts as [|kv u kvs ts (s & ? & ? & ? & ? & Hk & _) _ IH]; constructor; eauto.
    + eapply Forall2_impl; [exact Hts|]. intros kv u (s & q & w1 & w2 & u' & Hk & Hq & H1 & H2 & Hu & ->).
      destruct (Hrd _ _ Hu). by exists s, q, w1, w2, u'.
  - destruct Hd as (q & Hq & ->). simpl in Hi. rewrite <- (assoc_L (++)) in Hi. simpl.
    apply wp_bind. eapply parseString_wp; [exact Hi|exact Hq|]. intros i' Hi'. apply wp_ret, Hfin. done.
Qed.
End Grammar.

(** ** The printer *)

Lemma quoted_app t1 s1 t2 s2 : quoted t1 s1 -> quoted t2 s2 -> quoted (t1 ++ t2) (s1 ++ s2).
Proof. intros H1 H2. induction H1; simpl; rewrite <- ?(assoc_L (++)); [done|by constructor..]. Qed.

Lemma hexDigit_digit h : 0 <= h < 16 -> hex_digit (hexDigit h) h.
Proof.
  intros Hh. unfold hexDigit. case_decide.
  - replace h with (h + 48 - 48) at 2 by lia. constructor. lia.
  - replace h with (h - 10 + 97 - 97 + 10) at 2 by lia. constructor. lia.
Qed.

Lemma escape_control_quoted c : 0 <= c <= 31 -> quoted (escape_control c) [c].
Proof.
  intros Hc. unfold escape_control.
  assert (He : forall e b, escape e b -> quoted (92 :: e) b).
  { intros e b He. pose proof (quoted_escape e b [] [] He quoted_end) as Hq. by rewrite !app_nil_r in Hq. }
  destruct (decide (c = 8)) as [->|]; [apply He; constructor|]. destruct (decide (c = 12)) as [->|]; [apply He; constructor|].
  destruct (decide (c = 10)) as [->|]; [apply He; constructor|]. destruct (decide (c = 13)) as [->|]; [apply He; constructor|].
  destruct (decide (c = 9)) as [->|]; [apply He; constructor|].
  assert (Hhi : Z.shiftr (Z.land c 0xf0) 4 = c / 16 /\ Z.land c 0xf = c mod 16).
  { split; [|by apply (Z.land_ones c 4)]. rewrite Z.shiftr_land, Z.shiftr_div_pow2 by lia. change (Z.shiftr 0xf0 4) with (Z.ones 4).
    rewrite Z.land_ones by lia. change (2 ^ 4) with 16. rewrite Z.mod_small; [done|]. split; [apply Z.div_pos; lia|].
    apply Z.div_lt_upper_bound; lia. }
  destruct Hhi as [-> ->]. replace [c] with (codePointToUtf8 c).
  2: { unfold codePointToUtf8. by rewrite decide_True, u8_small by lia. }
  apply (He (117 :: [48; 48; hexDigit (c / 16); hexDigit (c mod 16)])).
  apply escape_u; [|lia]. exists 48, 48, (hexDigit (c / 16)), (hexDigit (c mod 16)), 0, 0, (c / 16), (c mod 16).
  split; [done|]. split; [apply (hex_decimal 48); lia|]. split; [apply (hex_decimal 48); lia|].
  split_and!; [apply hexDigit_digit; euclid|apply hexDigit_digit; euclid|euclid].
Qed.

Section Escape.
Context (opts : serialization_opts).
Context (Hna : encode_non_ascii opts = false) (Hvu : validate_utf8 opts = false) (Hsk : skip_invalid_utf8 opts = false).

Lemma escape_step_wp s p c out : 0 <= p -> s !! Z.to_nat p = Some c -> is_byte c ->
  wp (escape_step s opts p) out (fun p' out' => p' = p + 1 /\ exists t, out' = out ++ t /\ quoted t [c]) nothrow.
Proof.
  intros Hp Hc Hb. unfold escape_step. apply wp_bind. eapply wp_of_option; [exact Hc|]. rewrite Hna. simpl.
  destruct (decide (c = 92 \/ c = 34)) as [He|He]; [|case_decide]; apply wp_bind, wp_modify, wp_ret; (split; [done|]); eexists; (split; [done|]).
  - pose proof (quoted_escape [c] [c] [] [] ltac:(constructor; tauto) quoted_end) as Hq. done.
  - apply escape_control_quoted; lia.
  - constructor; [|constructor]. unfold unescaped. lia.
Qed.

Lemma escapeString_wp s out : Forall (fun c => is_byte c) s ->
  wp (escapeString s opts) out (fun _ out' => exists q, out' = out ++ 34 :: q ++ [34] /\ quoted q s) nothrow.
Proof.
  intros Hs. apply wp_bind, wp_modify. apply wp_bind.
  eapply wp_wand; [eapply (wp_iter _ (fun n st out' => 0 <= st.1 <= zlen s /\ n = Z.to_nat (zlen s - st.1) /\
    exists q, out' = out ++ 34 :: q /\ quoted q (take (Z.to_nat st.1) s))
    (fun _ out' => exists q, out' = out ++ 34 :: q /\ quoted q s))|].
  - intros n [p q] out' (Hp & -> & t & -> & Hq). simpl in *. unfold escapeString_round. destruct (decide (p < zlen s)) as [Hlt|Hge].
    + apply wp_bind. unfold validate_step. rewrite Hvu, Hsk. apply wp_ret.
      destruct (lookup_lt_is_Some_2 s (Z.to_nat p)) as [c Hc]; [unfold zlen in *; lia|].
      apply wp_bind. eapply wp_wand; [apply (escape_step_wp s p c); [lia|done|exact (Forall_lookup_1 _ _ _ _ Hs Hc)]|].
      intros p' out' (-> & t' & -> & Hq'). apply wp_ret. exists (Z.to_nat (zlen s - (p + 1))). simpl. split; [lia|].
      split_and!; [lia|lia|lia|]. exists (t ++ t'). split; [by rewrite <- (assoc_L (++))|].
      rewrite Z2Nat.inj_add, Nat.add_1_r by lia. erewrite take_S_r by done. by apply quoted_app.
    + apply wp_ret. exists t. split; [done|]. rewrite take_ge in Hq by (unfold zlen in *; lia). done.
  - apply (Nat.lt_succ_diag_r (length s)).
  - simpl. pose proof (zlen_nonneg s). split_and!; [lia|lia|unfold zlen; lia|]. exists []. by split; [|constructor].
  - intros [] out' (q & -> & Hq). apply wp_modify. exists q. by rewrite <- (assoc_L (++)).
Qed.
End Escape.

Lemma white_32 n : Forall white (replicate n 32).
Proof. apply Forall_replicate. by left. Qed.

Lemma joined_pre w ts r : Forall white w -> joined ts r -> joined ts (w ++ r).
Proof. intros Hw Hj. destruct Hj; rewrite (assoc_L (++)); constructor; rewrite ?Forall_app; done. Qed.

Lemma joined_post w ts r : Forall white w -> joined ts r -> joined ts (r ++ w).
Proof.
  intros Hw Hj. induction Hj as [w1 t w2 H1 H2|w1 t w2 ts r H1 H2 Hj IH].
  - rewrite <- !(assoc_L (++)). constructor; [done|]. by apply Forall_app.
  - rewrite <- !(assoc_L (++)). simpl. by constructor.
Qed.

(** [m] appends a text that satisfies [R]. *)
Definition good (p : Printer) : Prop := match indentLevel_ p with Some n => 0 <= n < 2 ^ 32 | None => True end.

Definition writes (m : M Printer unit) (R : list Z -> Prop) : Prop := forall p, good p ->
  wp m p (fun _ p' => exists t, out_ p' = out_ p ++ t /\ indentLevel_ p' = indentLevel_ p /\ R t) nothrow.

Lemma writes_bind m1 m2 (R1 R2 R : list Z -> Prop) : writes m1 R1 -> writes m2 R2 ->
  (forall t1 t2, R1 t1 -> R2 t2 -> R (t1 ++ t2)) -> writes (m1;; m2) R.
Proof.
  intros H1 H2 HR p Hp. apply wp_bind. eapply wp_wand; [by apply H1|]. intros [] p' (t1 & E1 & F1 & HR1).
  assert (Hp' : good p') by (unfold good; by rewrite F1). eapply wp_wand; [by apply H2|].
  intros [] p2 (t2 & E2 & F2 & HR2). exists (t1 ++ t2). rewrite E2, E1, F2, F1, (assoc_L (++)). auto.
Qed.

Lemma writes_mono m (R R' : list Z -> Prop) : writes m R -> (forall t, R t -> R' t) -> writes m R'.
Proof. intros Hm HR p Hp. eapply wp_wand; [by apply Hm|]. intros [] p' (t & ? & ? & ?). exists t. auto. Qed.

Lemma writes_emit l (R : list Z -> Prop) : R l -> writes (out_append l) R.
Proof. intros HR p Hp. by exists l. Qed.

Lemma writes_out (m : M (list Z) unit) (R : list Z -> Prop) :
  (forall out, wp m out (fun _ out' => exists t, out' = out ++ t /\ R t) nothrow) -> writes (with_out m) R.
Proof.
  intros Hm p Hp. specialize (Hm (out_ p)). unfold wp, with_out in *. destruct (m (out_ p)) as [[] out'| | |]; try done.
  destruct Hm as (t & -> & Ht). by exists t.
Qed.

Lemma writes_newline : writes newline (Forall white).
Proof.
  intros p Hp. apply wp_bind, wp_get. destruct (indentLevel_ p) as [n|] eqn:E.
  - eexists. split; [done|]. split; [done|]. constructor; [by right; left|]. apply white_32.
  - apply wp_ret. exists []. by rewrite app_nil_r.
Qed.

(** The lines between the brackets are indented by one more. *)
Lemma writes_indented m (R : list Z -> Prop) : writes m R -> writes (indent;; m;; outdent) R.
Proof.
  intros Hm p Hp. apply wp_bind, wp_modify. apply wp_bind. eapply wp_wand; [apply Hm|].
  - unfold good in *. simpl. destruct (indentLevel_ p); [|done]. simpl. unfold wrap. apply Z.mod_pos_bound. lia.
  - intros [] p' (t & E & F & HR). apply wp_modify. exists t. simpl. rewrite F. split; [done|]. split; [|done].
    unfold good in Hp. destruct (indentLevel_ p) as [n|]; [|done]. simpl. f_equal. unfold wrap. euclid.
Qed.

Lemma writes_list {X} (pr : X -> M Printer unit) (R : X -> list Z -> Prop) l : l <> [] ->
  Forall (fun x => writes (pr x) (R x)) l -> writes (print_list pr l) (fun r => exists ts, Forall2 R l ts /\ joined ts r).
Proof.
  intros Hne Hl. induction Hl as [|x l Hx Hl IH]; [done|]. destruct l as [|y l].
  - eapply writes_mono; [exact Hx|]. intros t Ht. exists [t]. split; [by repeat constructor|].
    pose proof (joined_one [] t [] ltac:(done) ltac:(done)) as Hj. simpl in Hj. by rewrite app_nil_r in Hj.
  - change (print_list pr (x :: y :: l)) with (pr x;; out_append [44];; newline;; print_list pr (y :: l)).
    eapply (writes_bind _ _ _ (fun r => exists r', r = 44 :: r' /\ exists ts, Forall2 R (y :: l) ts /\ joined ts r')); [exact Hx| |].
    + eapply (writes_bind _ _ (fun t => t = [44])); [by apply writes_emit| |].
      * eapply (writes_bind _ _); [apply writes_newline|apply IH; done|]. intros w r Hw (ts & Hts & Hj).
        instantiate (1 := fun r => exists ts, Forall2 R (y :: l) ts /\ joined ts r). exists ts. split; [done|]. by apply joined_pre.
      * intros t1 t2 -> Hr. by exists t2.
    + intros t r Ht (r' & -> & ts & Hts & Hj). exists (t :: ts). split; [by constructor|].
      by apply (joined_more [] t [] ts r').
Qed.

Lemma writes_ext m1 m2 (R : list Z -> Prop) : (forall p, m1 p = m2 p) -> writes m2 R -> writes m1 R.
Proof. intros E Hm p Hp. unfold wp. rewrite E. by apply Hm. Qed.

Lemma writes_bracket o c {X} (pr : X -> M Printer unit) (R : X -> list Z -> Prop) l : l <> [] ->
  Forall (fun x => writes (pr x) (R x)) l ->
  writes (out_append [o];; indent;; newline;; print_list pr l;; outdent;; newline;; out_append [c])
    (fun t => exists ts, Forall2 R l ts /\ bracketed o c ts t).
Proof.
  intros Hne Hl.
  apply (writes_ext _ (out_append [o];; (indent;; (newline;; print_list pr l);; outdent);; newline;; out_append [c])).
  { intros p. unfold mbind, M_bind, bind. repeat (case_match; try done); by simplify_eq. }
  eapply (writes_bind _ _ (fun t => t = [o]) (fun t => exists ts r, Forall2 R l ts /\ joined ts r /\ t = r ++ [c])); [by apply writes_emit| |].
  2: { intros t1 t2 -> (ts & r & Hts & Hj & ->). exists ts. split; [done|]. right. by exists r. }
  eapply (writes_bind _ _ (fun r => exists ts, Forall2 R l ts /\ joined ts r) (fun t => exists w, Forall white w /\ t = w ++ [c])).
  - apply writes_indented. eapply writes_bind; [apply writes_newline|by apply writes_list|].
    intros w r Hw (ts & Hts & Hj). exists ts. split; [done|]. by apply joined_pre.
  - eapply writes_bind; [apply writes_newline|by apply (writes_emit [c] (fun t => t = [c]))|]. intros w t Hw ->. by exists w.
  - intros r t (ts & Hts & Hj) (w & Hw & ->). exists ts, (r ++ w). split_and!; [done|by apply joined_post|by rewrite (assoc_L (++))].
Qed.

(** ** Values that are printed without loss *)

Section Roundtrip.
Context `{Floating} `{!Unordered}.

(** No doubles, integers of 64 bits, strings of bytes, and objects with distinct
    strings as keys. *)
#[warnings="-register-all"]
Inductive json_value : dynamic -> Prop :=
  | json_null : json_value DNull
  | json_bool b : json_value (DBool b)
  | json_int i : in_range int64 i -> json_value (DInt i)
  | json_string s : Forall (fun c => is_byte c) s -> json_value (DString s)
  | json_array l : Forall json_value l -> json_value (DArray l)
  | json_object kvs : NoDup kvs.*1 -> Forall (fun kv => exists s, kv.1 = DString s /\ Forall (fun c => is_byte c) s) kvs ->
      Forall (fun kv => json_value kv.2) kvs -> json_value (DObject kvs).

(** A text of a value equal to [v]. *)
Definition text_of (n : nat) (v : dynamic) (t : list Z) : Prop := exists w, denotes n w t /\ dyn_eqb w v = true.

Lemma depth_array l n : (depth (DArray l) <= S n)%nat -> Forall (fun x => (depth x <= n)%nat) l.
Proof.
  simpl. intros Hd. apply le_S_n in Hd. revert Hd. induction l as [|x l IH]; intros Hd; constructor; [lia|]. apply IH. lia.
Qed.

Lemma depth_object kvs n : (depth (DObject kvs) <= S n)%nat -> Forall (fun kv => (depth kv.2 <= n)%nat) kvs.
Proof.
  simpl. intros Hd. apply le_S_n in Hd. revert Hd. induction kvs as [|[k x] l IH]; intros Hd; constructor; simpl; [lia|]. apply IH. lia.
Qed.

Lemma array_text n l ts t : Forall2 (text_of n) l ts -> bracketed 91 93 ts t -> text_of (S n) (DArray l) t.
Proof.
  intros Hl Hb. assert (Hws : exists ws, Forall2 (denotes n) ws ts /\ Forall2 (fun w v => dyn_eqb w v = true) ws l).
  { clear Hb. induction Hl as [|v u l ts (w & Hw & Hv) Hl (ws & H1 & H2)]; [by exists []|]. exists (w :: ws). by split; constructor. }
  destruct Hws as (ws & H1 & H2). exists (DArray ws). split; [by exists ts|]. clear - H2. simpl.
  induction H2 as [|w v ws l Hw Hl IH]; [done|]. by rewrite Hw.
Qed.

Definition key_text (n : nat) (kv : dynamic * dynamic) (t : list Z) : Prop :=
  exists w, entry n (kv.1, w) t /\ dyn_eqb w kv.2 = true.

Lemma object_text n kvs its ts t : its ≡ₚ kvs -> NoDup kvs.*1 -> Forall2 (key_text n) its ts -> bracketed 123 125 ts t ->
  text_of (S n) (DObject kvs) t.
Proof.
  intros Hp Hnd Hl Hb.
  assert (Hws : exists ws, Forall2 (entry n) ws ts /\ Forall2 (fun w kv => w.1 = kv.1 /\ dyn_eqb w.2 kv.2 = true) ws its).
  { clear - Hl. induction Hl as [|kv u l ts (w & Hw & Hv) Hl (ws & H1 & H2)]; [by exists []|].
    exists ((kv.1, w) :: ws). by split; constructor. }
  destruct Hws as (ws & H1 & H2).
  assert (Hk : ws.*1 = its.*1) by (clear - H2; induction H2 as [|? ? ? ? [E _] _ IH]; [done|]; by rewrite !fmap_cons, E, IH).
  assert (Hstr : string_keys ws).
  { clear - H1. induction H1 as [|kv u ws ts (s & ? & ? & ? & ? & Hs & _) _ IH]; constructor; eauto. }
  exists (DObject ws). split.
  - split; [rewrite Hk, Hp; done|]. exists ts. by split.
  - simpl. apply andb_true_iff. split.
    { apply bool_decide_eq_true. rewrite <- Hp. by apply Forall2_length in H2. }
    assert (Hsub : forall kv, kv ∈ its -> kv ∈ kvs) by (intros kv; by rewrite Hp).
    clear - H2 Hsub Hstr. induction H2 as [|[k w] kv ws its [Hk Hw] Hl IH]; [done|]. simpl in *. subst k.
    apply Forall_cons in Hstr as [[s Hs] Hstr]. apply andb_true_iff. split; [|apply IH; [done|set_solver]].
    apply existsb_exists. exists kv. split; [apply list_elem_of_In, Hsub; set_solver|]. simpl in Hs. rewrite Hs, Hw. simpl.
    by rewrite bool_decide_eq_true_2.
Qed.

Context (opts : serialization_opts).
Context (Hna : encode_non_ascii opts = false) (Hvu : validate_utf8 opts = false) (Hsk : skip_invalid_utf8 opts = false).
Context (Hjs : javascript_safe opts = false).

Lemma string_writes s : Forall (fun c => is_byte c) s ->
  writes (with_out (escapeString s opts)) (fun t => exists q, quoted q s /\ t = 34 :: q ++ [34]).
Proof.
  intros Hs. apply writes_out. intros out. eapply wp_wand; [by apply escapeString_wp|].
  intros [] out' (q & -> & Hq). eauto.
Qed.

Lemma colon_writes : writes mapColon (fun t => exists w1 w2, Forall white w1 /\ Forall white w2 /\ t = w1 ++ 58 :: w2).
Proof.
  intros p Hp. apply wp_bind, wp_get. destruct (indentLevel_ p) eqn:E; (eexists; split; [done|]; split; [done|]).
  - exists [32], [32]. split_and!; [by repeat constructor..|done].
  - by exists [], [].
Qed.

Lemma entry_writes n s x : Forall (fun c => is_byte c) s -> writes (print opts (S n) x) (text_of (S n) x) ->
  writes (printKV opts (print opts (S n)) (DString s, x)) (key_text (S n) (DString s, x)).
Proof.
  intros Hs Hx. unfold printKV. cbn [fst snd isString negb]. rewrite andb_false_r.
  eapply (writes_bind (with_out (escapeString s opts))); [by apply string_writes| |].
  { eapply (writes_bind _ _); [apply colon_writes|exact Hx|].
    instantiate (1 := fun t => exists w1 w2 u, Forall white w1 /\ Forall white w2 /\ text_of (S n) x u /\ t = w1 ++ 58 :: w2 ++ u).
    intros t u (w1 & w2 & H1 & H2 & ->) Hu. exists w1, w2, u. split_and!; [done..|]. by rewrite <- (assoc_L (++)). }
  intros t1 t2 (q & Hq & ->) (w1 & w2 & u & H1 & H2 & (w & Hw & He) & ->). exists w. split; [|done].
  exists s, q, w1, w2, u. split_and!; [done..|]. simpl. by rewrite <- (assoc_L (++)).
Qed.

Lemma int_writes n x : in_range int64 x -> writes (print opts (S n) (DInt x)) (text_of (S n) (DInt x)).
Proof.
  intros Hx. cbn [print]. rewrite Hjs. apply (writes_ext _ (with_out (toAppend_int int64 x))); [done|]. apply writes_out. intros out.
  eapply wp_wand; [apply toAppend_int_wp; [by right; right; right|done]|]. intros [] out' (t & -> & Ht). exists t. split; [done|].
  exists (DInt x). split; [done|]. simpl. by apply bool_decide_eq_true.
Qed.

Lemma print_writes n v : json_value v -> (depth v <= n)%nat -> writes (print opts n v) (text_of n v).
Proof.
  revert v. induction n as [|n IH]; intros v Hv Hd; [destruct v; simpl in Hd; lia|].
  destruct Hv as [|b|x Hx|s Hs|l Hl|kvs Hnd Hks Hl].
  - apply writes_emit. by exists DNull.
  - apply writes_emit. exists (DBool b). split; [done|]. by destruct b.
  - by apply int_writes.
  - eapply writes_mono; [by apply string_writes|]. intros t Ht. exists (DString s). split; [done|]. simpl. by apply bool_decide_eq_true.
  - apply depth_array in Hd. change (print opts (S n) (DArray l)) with (printArray (print opts n) l). unfold printArray. case_decide as Hne.
    + subst l. apply writes_emit. exists (DArray []). split; [|done]. exists []. split; [done|]. left. split; [done|]. by exists [].
    + eapply writes_mono; [apply (writes_bracket 91 93 _ (text_of n)); [done|]|intros t (ts & Hts & Hb); by eapply array_text].
      apply Forall_forall. intros x Hx. rewrite Forall_forall in Hl, Hd. apply IH; [by apply Hl|by apply Hd].
  - apply depth_object in Hd. change (print opts (S n) (DObject kvs)) with (printObject opts (print opts n) kvs). unfold printObject.
    case_decide as Hne.
    + subst kvs. apply writes_emit. exists (DObject []). split; [|done]. split; [done|]. exists []. split; [|done]. left. split; [done|]. by exists [].
    + set (its := if sort_keys opts then _ else _).
      assert (Hp : its ≡ₚ kvs).
      { subst its. destruct (sort_keys opts); [rewrite merge_sort_Permutation|]; apply iteration_items. }
      eapply writes_mono; [apply (writes_bracket 123 125 _ (key_text n))|intros t (ts & Hts & Hb); by eapply object_text].
      { intros E. apply Hne. apply Permutation_nil_r. by rewrite <- E. }
      apply Forall_forall. intros [k x] Hkx. rewrite Hp in Hkx. rewrite Forall_forall in Hl, Hd, Hks.
      specialize (Hl _ Hkx). specialize (Hd _ Hkx). destruct (Hks _ Hkx) as (s & Hk & Hs). simpl in *. subst k.
      destruct n as [|n]; [destruct x; simpl in Hd; lia|]. by apply entry_writes, IH.
Qed.
End Roundtrip.
