(* ===== verification/JsonProps.v ===== *)
(** * json: the claims

    Every text of the grammar is parsed to its value; what [serialize] prints is
    such a text, so that it is parsed back; the parser returns or throws on every
    text; and [stripComments] leaves the text of a value alone. *)

From stdpp Require Import base list sets strings pretty sorting.
From S2P Require Import Prelude Conv ConvParse ConvPrint ConvSpec Hash Range RangeOps Unicode StringSplit Dynamic Json JsonSpec.

(** ** The depth of a text is bounded by its length *)

Lemma joined_shorter ts r : joined ts r -> Forall (fun u => (length u <= length r)%nat) ts.
Proof.
  induction 1 as [w1 t w2 H1 H2|w1 t w2 ts r H1 H2 Hj IH]; constructor; rewrite ?length_app; [lia|done|lia|].
  eapply Forall_impl; [exact IH|]. simpl. intros u Hu. simpl in *. lia.
Qed.

Lemma bracketed_shorter o c ts t : bracketed o c ts t -> Forall (fun u => (length u < length t)%nat) ts.
Proof.
  intros [(-> & _)|(r & Hj & ->)]; [done|]. eapply Forall_impl; [by apply joined_shorter|]. simpl. intros u Hu.
  rewrite length_app. simpl. lia.
Qed.

Section Props.
Context `{Floating}.

Lemma denotes_bound n v t m : denotes n v t -> (n <= m)%nat \/ (length t <= m)%nat -> denotes m v t.
Proof.
  revert v t m. induction n as [|n IH]; intros v t m Hd Hm; [done|].
  assert (Hpos : (0 < length t)%nat) by (destruct (denotes_starts _ _ _ Hd) as (c & t' & -> & _); simpl; lia).
  destruct m as [|m]; [lia|].
  assert (Hsub : forall x u, (length u < length t)%nat -> denotes n x u -> denotes m x u).
  { intros x u Hu Hx. apply IH; [done|]. lia. }
  destruct v as [|l|b|d|x|kvs|s]; simpl in Hd |- *; try done.
  - destruct Hd as (ts & Hts & Hb). exists ts. split; [|done]. pose proof (bracketed_shorter _ _ _ _ Hb) as Hs. clear - Hts Hs Hsub.
    induction Hts as [|x u l ts Hx Hl IHl]; constructor; apply Forall_cons in Hs as [Hu Hs]; auto.
  - destruct Hd as (Hnd & ts & Hb & Hts). split; [done|]. exists ts. split; [done|].
    pose proof (bracketed_shorter _ _ _ _ Hb) as Hs. clear - Hts Hs Hsub.
    induction Hts as [|kv u kvs ts (s & q & w1 & w2 & u' & Hk & Hq & H1 & H2 & Hu & ->) Hl IHl]; constructor;
      apply Forall_cons in Hs as [Hlt Hs]; [|auto].
    exists s, q, w1, w2, u'. split_and!; try done. apply Hsub; [|done].
    simpl in Hlt. rewrite !length_app in Hlt. simpl in Hlt. rewrite length_app in Hlt. simpl in Hlt. rewrite length_app in Hlt. lia.
Qed.

Lemma parseJson_text opts n v t ws ws' :
  double_fallback opts = false -> parse_numbers_as_strings opts = false ->
  Z.of_nat n <= recursion_limit opts + 1 -> recursion_limit opts < 2 ^ 32 - 1 ->
  Forall white ws -> Forall white ws' -> denotes n v t ->
  exists i, parseJson opts (ws ++ t ++ ws') = Ok v i.
Proof.
  intros Hfb Hns Hn Hlim Hws Hws' Hd. set (m := (n `min` length t)%nat).
  apply (denotes_bound _ _ _ m) in Hd; [|lia].
  assert (Hw : wp (parse_all opts (S (length (ws ++ t ++ ws')))) (mkInput (ws ++ t ++ ws') 0 (front_of (ws ++ t ++ ws')) 0)
    (fun w _ => w = v) nothrow).
  { apply wp_bind. eapply wp_wand.
    - eapply (parseValue_reads opts Hfb Hns m v t _ 0 Hd); [rewrite !length_app; lia|lia|lia|done|by split_and!|done|].
      destruct Hws' as [|c ws' Hc Hws']; [done|]. apply number_end_cons. auto.
    - intros w i (-> & r & Hi & Hr). apply wp_bind. eapply skipWhitespace_wp; [exact Hi|]. rewrite Hr.
      rewrite <- (app_nil_r ws'), trim_app by done. intros i' (E & _). apply wp_bind, wp_get. rewrite E, decide_False by tauto.
      by apply wp_ret. }
  apply wp_ok_inv in Hw as (w & i & E & ->). by exists i.
Qed.

(** C4: the parser accepts JSON. With the options [double_fallback] and
    [parse_numbers_as_strings] off, a text of the grammar [denotes] (literals, decimal
    integers of 64 bits, strings with every escape of the format including pairs of
    surrogates, arrays and objects with distinct keys, with any white space between
    the tokens and around the text) is parsed to the value it denotes, with the items of
    an object in the order of the text, as long as its depth is at most the recursion
    limit (below 2^32 - 1) plus one. Between quotes the grammar takes every byte but the quote and the
    backslash for itself, as the code does: control characters, and the raw zero byte
    too, which the comment and the error "null byte in string" of json.cpp:638-648
    mean to ban but do not ([skipWhile] has taken it before that check; the example
    [nul_in_string] below). *)
Theorem json_text_parsed opts n v t ws ws' :
  double_fallback opts = false -> parse_numbers_as_strings opts = false ->
  Z.of_nat n <= recursion_limit opts + 1 -> recursion_limit opts < 2 ^ 32 - 1 ->
  Forall white ws -> Forall white ws' -> denotes n v t ->
  exists i, parseJson opts (ws ++ t ++ ws') = Ok v i.
Proof. apply parseJson_text. Qed.

(** C2: what is printed is parsed back. For every value without doubles whose
    objects have distinct strings as keys, [serialize] with the options
    [encode_non_ascii], [validate_utf8], [skip_invalid_utf8] and [javascript_safe] off
    (compact or indented, the items of an object in the order of the map or sorted)
    prints a text; and if the depth of the value is at most the recursion limit (below
    2^32 - 1) plus one (a deeper value is printed too, but see [deeper_refused] below), the parser with
    [double_fallback] and [parse_numbers_as_strings] off gives a value equal to it,
    by the [operator==] of the code, whatever the order of the map is and whatever
    white space surrounds the text. *)
Theorem json_roundtrip `{!Unordered} {S} opts popts v ws ws' (st : S) :
  encode_non_ascii opts = false -> validate_utf8 opts = false -> skip_invalid_utf8 opts = false -> javascript_safe opts = false ->
  double_fallback popts = false -> parse_numbers_as_strings popts = false ->
  Forall white ws -> Forall white ws' -> json_value v ->
  exists t, serialize opts v st = Ok t st /\
    (Z.of_nat (depth v) <= recursion_limit popts + 1 -> recursion_limit popts < 2 ^ 32 - 1 ->
     exists w i, parseJson popts (ws ++ t ++ ws') = Ok w i /\ dyn_eqb w v = true).
Proof.
  intros H1 H2 H3 H4 Hfb Hns Hws Hws' Hv.
  assert (Hg : good (mkPrinter [] (if pretty_formatting opts then Some 0 else None))) by (unfold good; simpl; by destruct pretty_formatting).
  pose proof (print_writes opts H1 H2 H3 H4 (depth v) v Hv (le_n _) _ Hg) as Hp.
  apply wp_ok_inv in Hp as ([] & p & E & t & Et & _ & w & Hw & Heq). exists t. split.
  - unfold serialize. rewrite E. by rewrite Et.
  - intros Hd Hlim. exists w. destruct (parseJson_text popts (depth v) w t ws ws') as [i Hi]; try done. by exists i.
Qed.

(** ** The parser returns or throws *)

(** The rest of the text is at most [n] bytes. *)
Definition within (n : nat) (i : Input) : Prop :=
  Forall (fun c => is_byte c) (range_ i) /\ current_ i = front_of (range_ i) /\ (length (range_ i) <= n)%nat.

Definition anyway {S} : exn -> S -> Prop := fun _ _ => True.

(** [m] returns or throws, and does not move back. *)
Definition total {A} (m : M Input A) : Prop := forall n i, within n i -> wp m i (fun _ i' => within n i') anyway.

Lemma total_ret {A} (a : A) : total (mret a).
Proof. by intros n i Hi. Qed.

Lemma total_bind {A B} (m : M Input A) (f : A -> M Input B) : total m -> (forall a, total (f a)) -> total (m ≫= f).
Proof. intros Hm Hf n i Hi. apply wp_bind. eapply wp_wand; [by apply Hm|]. intros a i' Hi'. by apply Hf. Qed.

Lemma total_error {A} what : total (error (A := A) what).
Proof. intros n i Hi. by apply wp_bind, wp_get, wp_throw. Qed.

Lemma total_cur : total cur.
Proof. by intros n i Hi. Qed.

Lemma total_get : total get.
Proof. by intros n i Hi. Qed.

Lemma total_of_sum {A} (r : A + exn) : total (of_sum r).
Proof. intros n i Hi. by destruct r. Qed.

Lemma within_set n i r : Forall (fun c => is_byte c) r -> (length r <= n)%nat -> wp (set_range r) i (fun _ i' => within n i') anyway.
Proof. intros Hr Hn. apply wp_modify. by split_and!. Qed.

(** [operator++] when there is a character. *)
Lemma next_within n i : within n i -> current_ i <> -1 -> wp input_next i (fun _ i' => within (n - 1) i' /\ (1 <= n)%nat) anyway.
Proof.
  intros (Hb & Hc & Hl) Hne. apply wp_bind, wp_get. rewrite Hc in Hne. destruct (range_ i) as [|c r]; [done|].
  apply wp_bind, wp_assert; [done|]. apply wp_modify. apply Forall_cons in Hb as [_ Hb]. simpl in Hl. split; [|lia].
  split_and!; [done|done|simpl; lia].
Qed.

Lemma next_bind {A} (k : unit -> M Input A) n i : within n i -> current_ i <> -1 -> (forall n' i', (n' < n)%nat -> within n' i' ->
  wp (k tt) i' (fun _ i2 => within n i2) anyway) -> wp (input_next ≫= k) i (fun _ i' => within n i') anyway.
Proof.
  intros Hi Hc Hk. apply wp_bind. eapply wp_wand; [by apply next_within|]. intros [] i' [Hi' Hn]. eapply Hk; [|exact Hi']. lia.
Qed.

Lemma within_le n m i : within n i -> (n <= m)%nat -> within m i.
Proof. intros (? & ? & ?) Hm. split_and!; [done|done|lia]. Qed.

Lemma total_skipWhitespace : total skipWhitespace.
Proof.
  intros n i (Hb & Hc & Hl). apply wp_bind, wp_get. rewrite ltrimWhitespace_trim. apply within_set; [by apply trim_bytes|].
  pose proof (trim_length (range_ i)). lia.
Qed.

Lemma skipWhile_within p n i : within n i ->
  wp (skipWhile p) i (fun run i' => within n i' /\ run = run_of p true (range_ i) /\ range_ i' = drop (length run) (range_ i)) anyway.
Proof.
  intros (Hb & Hc & Hl). apply wp_bind, wp_get. apply wp_bind, wp_modify. apply wp_bind, wp_modify, wp_ret.
  split; [|done]. split_and!; [by apply Forall_drop|done|simpl; rewrite length_drop; lia].
Qed.

Lemma total_skipWhile p : total (skipWhile p).
Proof. intros n i Hi. eapply wp_wand; [by apply skipWhile_within|]. by intros ? ? (? & _). Qed.

Lemma total_consume str : total (consume str).
Proof.
  intros n i (Hb & Hc & Hl). apply wp_bind, wp_get. case_decide; [|by apply wp_ret].
  apply wp_bind. eapply wp_wand; [apply (within_set n); [by apply Forall_drop|rewrite length_drop; lia]|]. by intros.
Qed.

Lemma total_hex_next {A} (k : Z -> unit -> M Input A) : (forall h u, total (k h u)) ->
  total (c ← cur; h ← hexVal c; x ← input_next; k h x).
Proof.
  intros Hk n i Hi. apply wp_bind, wp_gets. unfold hexVal.
  assert (Hgo : forall h, current_ i <> -1 -> wp (h ← mret h; x ← input_next; k h x) i (fun _ i' => within n i') anyway).
  { intros h Hc. apply wp_bind, wp_ret. apply next_bind; [done|done|]. intros n' i' Hn' Hi'. apply Hk.
    eapply within_le; [exact Hi'|lia]. }
  repeat (case_decide; [apply Hgo; lia|]). apply wp_bind. by apply error_wp.
Qed.

Lemma total_readHex : total readHex.
Proof.
  apply total_bind; [apply total_get|]. intros i. apply total_bind; [case_decide; [apply total_error|apply total_ret]|]. intros _.
  repeat (apply total_hex_next; intros ? _). apply total_ret.
Qed.

Lemma total_decodeUnicodeEscape : total decodeUnicodeEscape.
Proof.
  apply total_bind; [apply total_readHex|]. intros cp. apply total_bind; [|intros; apply total_ret].
  case_decide; [|case_decide; [apply total_error|apply total_ret]].
  apply total_bind; [apply total_consume|]. intros b. apply total_bind; [destruct b; [apply total_ret|apply total_error]|]. intros _.
  apply total_bind; [apply total_readHex|]. intros second. case_decide; [apply total_ret|apply total_error].
Qed.

Lemma next_then {A} (m : M Input A) n i : within n i -> current_ i <> -1 -> total m ->
  wp (input_next;; m) i (fun _ i' => within n i' /\ exists n', (n' < n)%nat /\ within n' i') anyway.
Proof.
  intros Hi Hc Hm. apply wp_bind. eapply wp_wand; [by apply next_within|]. intros [] i' [Hi' Hn].
  eapply wp_wand; [by apply (Hm (n - 1)%nat)|]. intros a i2 Hi2. split; [eapply within_le; [exact Hi2|lia]|].
  exists (n - 1)%nat. split; [lia|done].
Qed.

Lemma total_next_then {A} (m : M Input A) n i : within n i -> current_ i <> -1 -> total m ->
  wp (input_next;; m) i (fun _ i' => within n i') anyway.
Proof. intros Hi Hc Hm. eapply wp_wand; [by apply next_then|]. by intros ? ? [? _]. Qed.

(** A backslash and what follows it. *)
Lemma parse_escape_within n i : within n i -> current_ i = 92 ->
  wp parse_escape i (fun _ i' => exists n', (n' < n)%nat /\ within n' i') anyway.
Proof.
  intros Hi Hc. eapply wp_wand; [apply next_then; [exact Hi|lia|]|by intros ? ? [_ ?]]. clear n i Hi Hc.
  intros n i Hi. apply wp_bind, wp_gets.
  repeat (case_decide; [apply total_next_then; [done|lia|apply total_ret || apply total_decodeUnicodeEscape]|]). by apply total_error.
Qed.

Lemma run_of_stop p f r c r' : drop (length (run_of p f r)) r = c :: r' -> exists f', p f' (sext 8 c) = false.
Proof.
  revert f. induction r as [|x r IH]; intros f; [done|]. simpl. destruct (p f (sext 8 x)) eqn:E; simpl; [apply IH|].
  intros [= -> ->]. by exists f.
Qed.

Lemma total_parseString n i : within n i -> current_ i = 34 -> wp parseString i (fun _ i' => within (n - 1) i') anyway.
Proof.
  intros Hi Hc. apply wp_bind, wp_gets. rewrite Hc. apply wp_bind, wp_assert; [done|]. apply wp_bind.
  eapply wp_wand; [by apply next_within; [done|lia]|]. clear i Hi Hc. intros [] i [Hi Hn]. apply wp_bind, wp_get.
  eapply (wp_iter _ (fun n' _ i => (n' <= n - 1)%nat /\ within n' i) _ _).
  2: apply Nat.lt_succ_diag_r.
  2: { destruct Hi as (H1 & H2 & H3). by split_and!. }
  clear i Hi. intros m ret i [Hm Hi]. apply wp_bind. eapply wp_wand; [by apply skipWhile_within|].
  intros run i' (Hi' & -> & Er). apply wp_bind, wp_gets. destruct (decide (current_ i' = 34)) as [Hc|Hq].
  { apply wp_bind. eapply wp_wand; [apply next_within; [exact Hi'|lia]|]. intros [] i2 [Hi2 _]. apply wp_ret.
    eapply within_le; [exact Hi2|lia]. }
  destruct (decide (current_ i' = 92)) as [Hc|Hb].
  { apply wp_bind. eapply wp_wand; [apply parse_escape_within; [exact Hi'|done]|]. intros e i2 (n' & Hn' & Hi2). apply wp_ret.
    exists n'. split; [done|]. split; [lia|done]. }
  destruct Hi' as (_ & Hcur & _). rewrite Er in Hcur. destruct (drop _ (range_ i)) as [|c r'] eqn:Ed.
  - simpl in Hcur. apply wp_bind. rewrite Hcur, decide_True by done. by apply error_wp.
  - apply run_of_stop in Ed as [_ Hs]. rewrite bool_decide_eq_false in Hs. simpl in Hcur. exfalso. apply Hs. by rewrite <- Hcur.
Qed.

Lemma run_of_bytes (P : Z -> Prop) p f r : Forall P r -> Forall P (run_of p f r).
Proof. intros Hr. revert f. induction Hr as [|c r Hc Hr IH]; intros f; simpl; [done|]. case_match; auto. Qed.

Context (opts : serialization_opts).

Lemma integer_total neg t n i : Forall (fun c => is_byte c) t -> within n i ->
  wp (integer_number opts neg t) i (fun _ i' => within n i') anyway.
Proof.
  intros Ht. unfold integer_number. revert n i. case_match.
  - apply total_bind; [|intros v; apply total_bind; [apply total_skipWhitespace|intros; apply total_ret]]. intros n i Hi.
    pose proof (to_int_wp int64 t ltac:(by right; right; right) Ht) as Hw. unfold wp in Hw. by destruct (to_int int64 t).
  - apply total_bind; [apply total_of_sum|]. intros v; apply total_bind; [apply total_skipWhitespace|intros; apply total_ret].
Qed.

Lemma exponent_total : total (c ← cur;
  (if decide (c = 101 \/ c = 69) then
     input_next;; c ← cur; (if decide (c = 43 \/ c = 45) then input_next else mret tt);; skipDigits;; mret tt
   else mret tt) : M Input unit).
Proof.
  intros n i Hi. apply wp_bind, wp_gets. case_decide; [|by apply wp_ret]. apply total_next_then; [done|lia|].
  intros m j Hj. apply wp_bind, wp_gets. apply wp_bind. apply (wp_wand _ _ (fun _ i' => within m i')).
  - case_decide; [|by apply wp_ret]. eapply wp_wand; [apply next_within; [exact Hj|lia]|]. intros [] i' [Hi' _].
    eapply within_le; [exact Hi'|lia].
  - intros [] i' Hi'. revert Hi'. generalize m, i'. apply total_bind; [apply total_skipWhile|intros; apply total_ret].
Qed.

Lemma fraction_total start wasE n i : within n i -> wasE = true \/ current_ i <> -1 ->
  wp (fraction_number opts start wasE) i (fun _ i' => within n i') anyway.
Proof.
  intros Hi Hc. unfold fraction_number. apply wp_bind. apply (wp_wand _ _ (fun _ i' => within n i')).
  - destruct wasE; [by apply wp_ret|]. destruct Hc as [[=]|Hc]. apply total_next_then; [done|done|].
    apply total_bind; [apply total_skipWhile|intros; apply total_ret].
  - clear i Hi Hc. intros [] i Hi. apply (wp_assoc cur). apply wp_bind. eapply wp_wand; [by apply exponent_total|].
    clear i Hi. intros [] i Hi. revert n i Hi. apply total_bind; [apply total_get|]. intros i.
    case_match; [apply total_ret|]. apply total_bind; [apply total_of_sum|intros; apply total_ret].
Qed.

Lemma total_parseNumber : total (parseNumber opts).
Proof.
  apply total_bind; [apply total_cur|]. intros c. apply total_bind; [case_match; [apply total_consume|apply total_ret]|]. intros inf.
  destruct inf; [apply total_ret|]. apply total_bind; [apply total_get|]. intros i0. intros n i Hi.
  apply wp_bind. eapply wp_wand; [by apply skipWhile_within|]. intros t i' (Hi' & -> & _).
  assert (Ht : Forall (fun c => is_byte c) (run_of (fun first c => is_digit c || (first && bool_decide (c = 45))) true (range_ i))).
  { apply run_of_bytes, Hi. }
  apply wp_bind. case_decide; [by apply error_wp|]. apply wp_ret. apply wp_bind, wp_gets.
  cbv beta zeta. destruct (decide (current_ i' = -1)) as [Hc|Hc].
  - rewrite Hc. simpl. case_match; [by apply wp_ret|by apply integer_total].
  - case_match; [by apply wp_ret|]. case_match; [by apply integer_total|]. apply fraction_total; [done|by right].
Qed.

(** ** Arrays and objects *)

Definition total_below {A} (fuel : nat) (m : M Input A) : Prop :=
  forall n i, (n < fuel)%nat -> within n i -> wp m i (fun _ i' => within n i') anyway.

Lemma after_item_within {A} (v : A) n i : within n i ->
  wp (after_item v) i (fun r i' => match r with inl _ => exists n', (n' < n)%nat /\ within n' i' | inr _ => within n i' end) anyway.
Proof.
  intros Hi. apply wp_bind. eapply wp_wand; [by apply total_skipWhitespace|]. clear i Hi. intros [] i Hi. apply wp_bind, wp_gets.
  case_decide as Hc; [by apply wp_ret|].
  apply (wp_wand _ _ (fun r i' => (exists a, r = inl a) /\ exists n', (n' < n)%nat /\ within n' i')).
  - apply wp_bind. eapply wp_wand; [apply next_within; [exact Hi|lia]|]. clear i Hi Hc. intros [] i [Hi Hn]. apply wp_bind.
    eapply wp_wand; [by apply total_skipWhitespace|]. intros [] i' Hi'. apply wp_ret. split; [by eexists|]. exists (n - 1)%nat. split; [lia|done].
  - by intros r i' [[a ->] ?].
Qed.

(** The loop of either kind of brackets. *)
Lemma bracket_total fuel o close round why v0 n i : (n <= fuel)%nat -> within n i -> current_ i = o -> o <> -1 -> close <> -1 ->
  (forall ret n i, (n < fuel)%nat -> within n i -> wp (round ret) i (fun r i' =>
     match r with inl _ => exists n', (n' < n)%nat /\ within n' i' | inr _ => within n i' end) anyway) ->
  wp (c ← cur; assert (bool_decide (c = o)) why;; input_next;; skipWhitespace;; c ← cur;
      if decide (c = close) then input_next;; mret v0 else
      i ← get; ret ← iter (S (length (range_ i))) round v0; expect close;; mret ret) i
     (fun (_ : dynamic) i' => within n i') anyway.
Proof.
  intros Hn Hi Hc Ho Hcl Hround. apply wp_bind, wp_gets. apply wp_bind, wp_assert; [by apply bool_decide_eq_true|].
  apply next_bind; [done|congruence|]. clear i Hi Hc. intros m i Hm Hi. apply wp_bind.
  eapply wp_wand; [by apply total_skipWhitespace|]. clear i Hi. intros [] i Hi. apply wp_bind, wp_gets. case_decide as Hc.
  { eapply wp_mono; [apply (total_next_then (mret v0) m); [done|congruence|apply total_ret]| |done].
    intros v i' Hi'. eapply within_le; [exact Hi'|lia]. }
  apply wp_bind, wp_get. apply wp_bind. apply (wp_wand _ _ (fun _ i' => within m i')).
  - eapply (wp_iter _ (fun k _ i => (k <= m)%nat /\ within k i)); [|apply Nat.lt_succ_diag_r|].
    2: { destruct Hi as (H1 & H2 & H3). by split_and!. }
    clear i Hi Hc. intros k ret i [Hk Hi]. eapply wp_wand; [apply (Hround ret k); [lia|done]|]. intros [ret'|ret'] i' Hr.
    + destruct Hr as (k' & Hk' & Hr). exists k'. split; [done|]. split; [lia|done].
    + eapply within_le; [exact Hr|lia].
  - clear i Hi Hc. intros ret i Hi. apply wp_bind. apply (wp_wand _ _ (fun _ i' => within m i')).
    + apply wp_bind, wp_gets. case_decide as Hc; [by apply error_wp|].
      eapply wp_wand; [apply next_within; [exact Hi|congruence]|]. intros [] i' [Hi' _]. eapply within_le; [exact Hi'|lia].
    + intros [] i' Hi'. apply wp_ret. eapply within_le; [exact Hi'|lia].
Qed.

Lemma changed_total {A} (m : M dynamic A) v n i : within n i -> (forall d, wp m d (fun _ _ => True) anyway) ->
  wp (changed m v) i (fun _ i' => within n i') anyway.
Proof. intros Hi Hm. specialize (Hm v). unfold wp, changed in *. by destruct (m v). Qed.

Lemma push_back_total v d : wp (dyn_push_back v) d (fun _ _ => True) anyway.
Proof. apply wp_bind, wp_get. by destruct d. Qed.

Lemma insert_total k v d : wp (dyn_insert k v) d (fun _ _ => True) anyway.
Proof. apply wp_bind, wp_get. destruct d; try done. by destruct k. Qed.

Lemma array_round_total fuel value ret n i : total_below fuel value -> (n < fuel)%nat -> within n i ->
  wp (array_round opts value ret) i (fun r i' =>
    match r with inl _ => exists n', (n' < n)%nat /\ within n' i' | inr _ => within n i' end) anyway.
Proof.
  intros Hv Hn Hi. apply wp_bind, wp_gets. case_decide; [by apply wp_ret|]. apply wp_bind. eapply wp_wand; [by apply Hv|].
  intros v i1 Hi1. apply wp_bind. eapply wp_wand; [apply changed_total; [exact Hi1|apply push_back_total]|].
  intros r i2 Hi2. by apply after_item_within.
Qed.

Lemma object_round_total fuel value ret n i : total_below fuel value -> (n < fuel)%nat -> within n i ->
  wp (object_round opts value ret) i (fun r i' =>
    match r with inl _ => exists n', (n' < n)%nat /\ within n' i' | inr _ => within n i' end) anyway.
Proof.
  intros Hv Hn Hi. apply wp_bind, wp_gets. case_decide; [by apply wp_ret|]. apply wp_bind.
  apply (wp_wand _ _ (fun _ i' => within n i')).
  { destruct (decide (current_ i = 34)) as [Hc|Hc]; [|case_match; [by apply error_wp|by apply Hv]].
    apply wp_bind. eapply wp_wand; [by apply total_parseString|]. intros t i' Hi'. apply wp_ret. eapply within_le; [exact Hi'|lia]. }
  clear i Hi H0. intros key i Hi. apply wp_bind. eapply wp_wand; [by apply total_skipWhitespace|]. clear i Hi. intros [] i Hi.
  apply wp_bind. apply (wp_wand _ _ (fun _ i' => within n i')).
  { apply wp_bind, wp_gets. case_decide as Hc; [by apply error_wp|].
    eapply wp_wand; [apply next_within; [exact Hi|lia]|]. intros [] i' [Hi' _]. eapply within_le; [exact Hi'|lia]. }
  clear i Hi. intros [] i Hi. apply wp_bind. eapply wp_wand; [by apply total_skipWhitespace|]. clear i Hi. intros [] i Hi.
  apply wp_bind. eapply wp_wand; [by apply Hv|]. intros v i1 Hi1. apply wp_bind.
  eapply wp_wand; [apply changed_total; [exact Hi1|apply insert_total]|]. intros r i2 Hi2. by apply after_item_within.
Qed.

Lemma total_literal : total (parse_literal opts).
Proof. repeat (apply total_bind; [apply total_consume|]; intros []; [apply total_ret|]). apply total_error. Qed.

Lemma total_guarded {A} (m : M Input A) n i : within n i -> (forall i, within n i -> wp m i (fun _ i' => within n i') anyway) ->
  wp (guarded opts m) i (fun _ i' => within n i') anyway.
Proof.
  intros Hi Hm. apply wp_bind, wp_bind, wp_get. apply wp_bind. case_decide; [by apply error_wp|]. apply wp_ret, wp_modify.
  apply wp_bind, wp_try_catch. eapply wp_mono; [apply Hm; exact Hi| |].
  - intros v i' Hi'. apply wp_bind, wp_modify, wp_ret. exact Hi'.
  - intros e i' _. by apply wp_bind, wp_modify, wp_throw.
Qed.

Lemma parseValue_total fuel : total_below fuel (parseValue opts fuel).
Proof.
  induction fuel as [|fuel IH]; intros n i Hn Hi; [lia|]. apply total_guarded; [done|]. clear i Hi. intros i Hi. apply wp_bind.
  eapply wp_wand; [by apply total_skipWhitespace|]. clear i Hi. intros [] i Hi. apply wp_bind, wp_gets.
  destruct (decide (current_ i = 91)) as [Hc|_].
  { apply (bracket_total fuel 91 93); [lia|done|done|done|done|]. intros ret m j Hm Hj. by apply (array_round_total fuel). }
  destruct (decide (current_ i = 123)) as [Hc|_].
  { apply (bracket_total fuel 123 125); [lia|done|done|done|done|]. intros ret m j Hm Hj. by apply (object_round_total fuel). }
  destruct (decide (current_ i = 34)) as [Hc|_].
  { apply wp_bind. eapply wp_wand; [by apply total_parseString|]. intros s i' Hi'. apply wp_ret. eapply within_le; [exact Hi'|lia]. }
  case_decide; [by apply total_parseNumber|by apply total_literal].
Qed.

(** C11: the parser ends on every text. Whatever the bytes and the options are,
    [parseJson] returns a value or throws: no assertion fails, no character is
    taken from an empty range, and a depth of one more than the length of the text
    is never exceeded. *)
Theorem parseJson_total range : Forall (fun c => is_byte c) range ->
  (exists v i, parseJson opts range = Ok v i) \/ (exists e i, parseJson opts range = Throw e i).
Proof.
  intros Hr. assert (Hw : wp (parse_all opts (S (length range))) (mkInput range 0 (front_of range) 0) (fun _ _ => True) anyway).
  { apply wp_bind. eapply wp_wand; [apply (parseValue_total _ (length range)); [lia|by split_and!]|]. intros v i Hi. apply wp_bind.
    eapply wp_wand; [by apply (total_skipWhitespace (length range))|]. intros [] i' _. apply wp_bind, wp_get. case_decide; [by apply error_wp|by apply wp_ret]. }
  unfold wp in Hw. unfold parseJson. destruct (parse_all _ _ _) as [v i|e i| |]; [left|right|done|done]; eauto.
Qed.
End Props.

(** ** Comments *)

(** The characters of a string, with the escapes in pairs. *)
Inductive string_body : list Z -> Prop :=
  | body_end : string_body []
  | body_plain c q : c <> 34 -> c <> 92 -> string_body q -> string_body (c :: q)
  | body_pair c q : string_body q -> string_body (92 :: c :: q).

(** [commented c t]: the text [c] is [t] with comments. *)
Inductive commented : list Z -> list Z -> Prop :=
  | commented_end : commented [] []
  | commented_char x c t : x <> 34 -> x <> 47 -> commented c t -> commented (x :: c) (x :: t)
  | commented_slash c t : head c <> Some 42 -> head c <> Some 47 -> commented c t -> commented (47 :: c) (47 :: t)
  | commented_string q c t : string_body q -> commented c t -> commented (34 :: q ++ 34 :: c) (34 :: q ++ 34 :: t)
  | commented_block b c t : (forall l1 l2, b ++ [42] <> l1 ++ 42 :: 47 :: l2) -> commented c t ->
      commented (47 :: 42 :: b ++ 42 :: 47 :: c) t
  | commented_line b c t : 10 ∉ b -> commented c t -> commented (47 :: 47 :: b ++ 10 :: c) t
  | commented_last b : 10 ∉ b -> commented (47 :: 47 :: b) [].

(** From [state], the loop pushes [t]. *)
Definition strips (state : State) (s t : list Z) : Prop :=
  forall fuel out, (length s <= fuel)%nat -> strip_loop fuel state s out = Ok tt (out ++ t).

Lemma strips_step state s st' pushed twice t : s <> [] ->
  strip_round state s = inl (st', pushed, twice) -> strips st' (drop (if twice : bool then 2 else 1)%nat s) t ->
  strips state s (pushed ++ t).
Proof.
  intros Hne E Ht fuel out Hf. destruct s as [|x s]; [done|]. destruct fuel as [|fuel]; [simpl in Hf; lia|].
  change (strip_loop (S fuel) state (x :: s)) with ('(state, pushed, twice) ← of_sum (strip_round state (x :: s));
    push_text pushed;; strip_loop fuel state (drop (if twice : bool then 2 else 1)%nat (x :: s))).
  rewrite E. change (strip_loop fuel st' (drop (if twice then 2 else 1)%nat (x :: s)) (out ++ pushed) = Ok tt (out ++ pushed ++ t)).
  rewrite Ht; [by rewrite <- (assoc_L (++))|]. rewrite length_drop. simpl in *. destruct twice; lia.
Qed.

Lemma strips_string q s t : string_body q -> strips SNone s t -> strips InString (q ++ 34 :: s) (q ++ 34 :: t).
Proof.
  intros Hq Hs. induction Hq as [|c q H1 H2 Hq IH|c q Hq IH].
  - by apply (strips_step _ _ SNone [34] false).
  - apply (strips_step _ _ InString [c] false); [done| |exact IH]. simpl. by repeat (case_match; subst; try done).
  - by apply (strips_step _ _ InString [92; c] true).
Qed.

Lemma strips_block b s t : (forall l1 l2, b ++ [42] <> l1 ++ 42 :: 47 :: l2) -> strips SNone s t ->
  strips InlineComment (b ++ 42 :: 47 :: s) t.
Proof.
  intros Hb Hs. induction b as [|c b IH].
  - by apply (strips_step _ _ SNone [] true).
  - assert (IH' : strips InlineComment (b ++ 42 :: 47 :: s) t) by (apply IH; intros l1 l2 E; apply (Hb (c :: l1) l2); simpl; by rewrite E).
    apply (strips_step _ _ InlineComment [] false); [done| |exact IH']. destruct (decide (c = 42)) as [->|Hc].
    + destruct b as [|c' b]; [done|]. simpl. destruct (decide (c' = 47)) as [->|]; [|by repeat (case_match; subst; try done)].
      by destruct (Hb [] (b ++ [42])).
    + simpl. by repeat (case_match; subst; try done).
Qed.

Lemma strips_line b s t : 10 ∉ b -> strips SNone s t -> strips LineComment (b ++ 10 :: s) t.
Proof.
  intros Hb Hs. induction b as [|c b IH].
  - by apply (strips_step _ _ SNone [] false).
  - apply (strips_step _ _ LineComment [] false); [done| |apply IH; set_solver]. simpl.
    assert (c <> 10) by set_solver. by repeat (case_match; subst; try done).
Qed.

Lemma strips_last b : 10 ∉ b -> strips LineComment b [].
Proof.
  intros Hb. induction b as [|c b IH].
  - intros fuel out _. destruct fuel; simpl; by rewrite app_nil_r.
  - apply (strips_step _ _ LineComment [] false); [done| |apply IH; set_solver]. simpl.
    assert (c <> 10) by set_solver. by repeat (case_match; subst; try done).
Qed.

Lemma commented_strips c t : commented c t -> strips SNone c t.
Proof.
  induction 1 as [|x c t H1 H2 Hc IH|c t H1 H2 Hc IH|q c t Hq Hc IH|b c t Hb Hc IH|b c t Hb Hc IH|b Hb].
  - intros fuel out _. destruct fuel; simpl; by rewrite app_nil_r.
  - apply (strips_step _ _ SNone [x] false); [done| |exact IH]. simpl. by repeat (case_match; subst; try done).
  - apply (strips_step _ _ SNone [47] false); [done| |exact IH]. simpl. by repeat (case_match; subst; try done).
  - apply (strips_step _ _ InString [34] false); [done|done|]. by apply strips_string.
  - apply (strips_step _ _ InlineComment [] true); [done|done|]. by apply strips_block.
  - apply (strips_step _ _ LineComment [] true); [done|done|]. by apply strips_line.
  - apply (strips_step _ _ LineComment [] true); [done|done|]. by apply strips_last.
Qed.

(** The text of a value has no comments. *)
Definition bare (t : list Z) : Prop := forall c r, commented c r -> commented (t ++ c) (t ++ r).

Lemma bare_nil : bare [].
Proof. by intros c r H. Qed.

Lemma bare_app t1 t2 : bare t1 -> bare t2 -> bare (t1 ++ t2).
Proof. intros H1 H2 c r Hc. rewrite <- !(assoc_L (++)). by apply H1, H2. Qed.

Lemma bare_cons c t : c <> 34 -> c <> 47 -> bare t -> bare (c :: t).
Proof. intros H1 H2 Ht c' r Hc. simpl. constructor; [done|done|by apply Ht]. Qed.

Lemma bare_plain t : Forall (fun c => c <> 34 /\ c <> 47) t -> bare t.
Proof. induction 1 as [|c t [H1 H2] Ht IH]; [apply bare_nil|by apply bare_cons]. Qed.

Lemma bare_white w : Forall white w -> bare w.
Proof. intros Hw. apply bare_plain. eapply Forall_impl; [exact Hw|]. unfold white. simpl. lia. Qed.

#[local] Hint Resolve bare_nil bare_app bare_cons bare_white : core.

Lemma body_app q q' : string_body q -> string_body q' -> string_body (q ++ q').
Proof. intros Hq Hq'. induction Hq; [done|by constructor..]. Qed.

Lemma hex4_body t v : hex4 t v -> string_body t.
Proof.
  intros (c1 & c2 & c3 & c4 & h1 & h2 & h3 & h4 & -> & H1 & H2 & H3 & H4 & _).
  assert (Hc : forall c h, hex_digit c h -> c <> 34 /\ c <> 92) by (intros c h []; lia).
  destruct (Hc _ _ H1), (Hc _ _ H2), (Hc _ _ H3), (Hc _ _ H4). repeat (apply body_plain; [done|done|]). constructor.
Qed.

Lemma escape_body e b : escape e b -> string_body (92 :: e).
Proof.
  destruct 1 as [| | | | | |t v Ht _|t v t' v' Ht _ Ht' _]; try (apply body_pair; constructor); apply body_pair.
  - by eapply hex4_body.
  - apply body_app; [by eapply hex4_body|]. apply body_pair. by eapply hex4_body.
Qed.

Lemma quoted_body q s : quoted q s -> string_body q.
Proof.
  induction 1 as [|c q s (_ & H1 & H2) Hq IH|e b q s He Hq IH]; [constructor|by constructor|].
  apply (body_app (92 :: e)); [by eapply escape_body|done].
Qed.

Lemma bare_string q s : quoted q s -> bare (34 :: q ++ [34]).
Proof. intros Hq c r Hc. simpl. rewrite <- !(assoc_L (++)). constructor; [by eapply quoted_body|done]. Qed.

Lemma bare_joined ts r : Forall bare ts -> joined ts r -> bare r.
Proof. intros Hs Hj. induction Hj; apply Forall_cons in Hs as [Ht Hs]; auto 7. Qed.

Lemma bare_bracketed o c ts t : o <> 34 -> o <> 47 -> c <> 34 -> c <> 47 -> Forall bare ts -> bracketed o c ts t -> bare t.
Proof.
  intros Ho Ho' Hc Hc' Hs [(-> & w & Hw & ->)|(r & Hj & ->)]; [auto|]. apply bare_cons; [done..|]. apply bare_app; [|auto].
  by eapply bare_joined.
Qed.

Lemma bare_printed v t : printed v t -> bare t.
Proof.
  intros Hp. apply bare_plain. unfold printed in Hp. case_decide; [destruct Hp as (ds & -> & Hp)|]; destruct Hp as (Hd & _).
  - constructor; [done|]. eapply Forall_impl; [exact Hd|]. simpl. lia.
  - eapply Forall_impl; [exact Hd|]. simpl. lia.
Qed.

Section CommentProps.
Context `{Floating}.

Lemma denotes_bare n v t : denotes n v t -> bare t.
Proof.
  revert v t. induction n as [|n IH]; intros v t Hd; [done|]. destruct v as [|l|b|d|x|kvs|s]; simpl in Hd; try done.
  - subst t. apply bare_plain. by repeat constructor.
  - destruct Hd as (ts & Hts & Hb). eapply bare_bracketed; [..|exact Hb]; try done. clear - Hts IH. induction Hts; constructor; eauto.
  - subst t. destruct b; apply bare_plain; by repeat constructor.
  - destruct Hd as [_ Hp]. by eapply bare_printed.
  - destruct Hd as (_ & ts & Hb & Hts). eapply bare_bracketed; [..|exact Hb]; try done. clear - Hts IH.
    induction Hts as [|kv u kvs ts (s & q & w1 & w2 & u' & _ & Hq & H1 & H2 & Hu & ->) Hl IHl]; constructor; [|done].
    replace (34 :: q ++ 34 :: w1 ++ 58 :: w2 ++ u') with ((34 :: q ++ [34]) ++ w1 ++ 58 :: w2 ++ u') by (simpl; by rewrite <- (assoc_L (++))).
    apply bare_app; [by eapply bare_string|]. pose proof (IH _ _ Hu). auto.
  - destruct Hd as (q & Hq & ->). by eapply bare_string.
Qed.

(** Comments are stripped. [stripComments] removes the line comments, with the
    end of their lines, and the block comments of a text and leaves everything
    else, strings with anything that looks like a comment included; the text of a
    JSON value has none, so that it is left alone. *)
Lemma comments_stripped : (forall c t, commented c t -> stripComments c = Ok tt t) /\
  (forall n v t ws ws', denotes n v t -> Forall white ws -> Forall white ws' ->
   stripComments (ws ++ t ++ ws') = Ok tt (ws ++ t ++ ws')).
Proof.
  assert (Hs : forall c t, commented c t -> stripComments c = Ok tt t) by (intros c t Hc; by apply (commented_strips c t)).
  split; [exact Hs|]. intros n v t ws ws' Hd Hws Hws'. apply Hs.
  assert (Hb : bare (ws ++ t ++ ws')) by (pose proof (denotes_bare _ _ _ Hd); auto).
  pose proof (Hb [] [] commented_end) as Hc. by rewrite app_nil_r in Hc.
Qed.
End CommentProps.

(** ** Concrete texts *)

#[local] Existing Instances sample_floating sample_order.

(** [[-7, "a\u00e9" ]], with a space before the closing bracket and a line before the text. *)
Lemma json_text_parsed_witness :
  exists i, parseJson default_opts ([10] ++ lit "[-7, " ++ [34] ++ lit "a\u00e9" ++ [34] ++ lit " ]" ++ []) =
    Ok (DArray [DInt (-7); DString [97; 0xc3; 0xa9]]) i.
Proof.
  apply (json_text_parsed default_opts 2 (DArray [DInt (-7); DString [97; 0xc3; 0xa9]])
    (lit "[-7, " ++ [34] ++ lit "a\u00e9" ++ [34] ++ lit " ]") [10] []); [done|done|done|done| |done|].
  { constructor; [by right; left|done]. }
  exists [lit "-7"; [34] ++ lit "a\u00e9" ++ [34]]. split.
  - constructor; [|constructor; [|constructor]].
    + split; [split; discriminate|]. exists [55]. split; [done|]. split_and!; [repeat constructor; discriminate|done|done|done].
    + exists (lit "a\u00e9"). split; [|done]. apply (quoted_plain 97); [unfold unescaped; lia|].
      apply (quoted_escape (lit "u00e9") [0xc3; 0xa9] [] []); [|constructor]. apply (escape_u (lit "00e9") 0xe9); [|lia].
      exists 48, 48, 101, 57, 0, 0, 14, 9. split; [done|]. split_and!; [apply (hex_decimal 48); lia|apply (hex_decimal 48); lia|
        apply (hex_lower 101); lia|apply (hex_decimal 57); lia|done].
  - right. exists (lit "-7, " ++ [34] ++ lit "a\u00e9" ++ [34] ++ lit " "). split; [|done].
    apply (joined_more [] (lit "-7") [] [_]); [done|done|]. apply (joined_one [32] ([34] ++ lit "a\u00e9" ++ [34]) [32]); (constructor; [by left|done]).
Defined.

(** [{"a":[1,true],"b":null}], printed in lines. *)
Lemma json_roundtrip_witness :
  exists t, serialize (S := unit) pretty_opts (DObject [(DString [97], DArray [DInt 1; DBool true]); (DString [98], DNull)]) tt = Ok t tt /\
  exists w i, parseJson default_opts ([] ++ t ++ [10]) = Ok w i /\
    dyn_eqb w (DObject [(DString [97], DArray [DInt 1; DBool true]); (DString [98], DNull)]) = true.
Proof.
  assert (white 10) as Hw by (by right; left).
  edestruct (json_roundtrip (S := unit) pretty_opts default_opts (DObject [(DString [97], DArray [DInt 1; DBool true]); (DString [98], DNull)]) [] [10] tt)
    as (t & Ht & Hp); [done|done|done|done|done|done|done|by repeat constructor| |exists t; split; [exact Ht|by apply Hp]].
  constructor.
  - repeat (apply NoDup_cons; split; [by rewrite ?list_elem_of_In; simpl; intuition congruence|]). apply NoDup_nil_2.
  - constructor; [|constructor; [|constructor]]; (eexists; split; [reflexivity|]); repeat constructor; discriminate.
  - constructor; [|constructor; [|constructor]]; [|constructor]. constructor. constructor; [|constructor; [|constructor]]; constructor.
    split; discriminate.
Defined.

(** An unfinished array. *)
Lemma parseJson_total_witness :
  (exists v i, parseJson default_opts (lit "[1,") = Ok v i) \/ (exists e i, parseJson default_opts (lit "[1,") = Throw e i).
Proof. apply (parseJson_total default_opts (lit "[1,")). repeat constructor; discriminate. Defined.

(** A slash in a string and a comment after it. *)
Lemma comments_stripped_witness :
  stripComments ([34; 47; 47; 34] ++ lit "/* b */" ++ lit "// c") = Ok tt [34; 47; 47; 34].
Proof.
  apply (proj1 comments_stripped). apply (commented_string [47; 47]); [repeat (apply body_plain; [done|done|]); constructor|].
  apply (commented_block (lit " b ")); [|apply commented_last; set_solver].
  intros l1 l2 E. do 4 (destruct l1 as [|? l1]; [discriminate E|injection E as _ E]). destruct l1; discriminate E.
Defined.

(** A value deeper than the limit is printed and not parsed back. *)
Example deeper_refused :
  let opts := mkOpts false false false false false false false false false 0 0 false false 1 in
  let v := DArray [DArray [DArray []]] in
  serialize opts v tt = Ok (lit "[[[]]]") tt /\ exists e i, parseJson opts (lit "[[[]]]") = Throw e i.
Proof. split; [vm_compute; reflexivity|]. eexists _, _. vm_compute. reflexivity. Qed.

(** A NUL byte ends the text: what follows it is not looked at. *)
Example ignored_after_nul : exists i, parseJson default_opts (lit "1" ++ [0] ++ lit "junk") = Ok (DInt 1) i.
Proof. eexists. vm_compute. reflexivity. Qed.

(** A NUL byte within a string is accepted. *)
Example nul_in_string : exists i, parseJson default_opts [34; 0; 34] = Ok (DString [0]) i.
Proof. eexists. vm_compute. reflexivity. Qed.

(** With [validate_utf8], a character of four bytes is refused. *)
Example four_bytes_refused :
  serialize (S := unit) (mkOpts false false false false true false false false false 0 0 false false 100) (DString [0xf0; 0x9f; 0x98; 0x80]) tt =
  Throw (decode_error "encoding length maxed out") tt.
Proof. vm_compute. reflexivity. Qed.
