(* ===== verification/Gen.v ===== *)
(** * gen: generators, operators and sinks

    [src/accelerator/gen/Core-inl.h], [Base-inl.h], [Combine-inl.h].  A generator
    pushes its values into a handler until the handler returns false; here it is
    its two methods, for handlers on any state that may throw.  A variable that a
    lambda captures by reference is a part of the state ([local]).  The functions
    that a pipeline is given are pure.  Loops that need not end carry fuel. *)

From stdpp Require Import base list strings sorting.
From S2P Require Import Prelude Conv.

(** ** Captured variables *)

Section Local.
Context {S L : Type}.

(** [m] with a variable that starts as [l]; its last value is returned too. *)
Definition local {A} (l : L) (m : M (S * L) A) : M S (A * L) := fun s =>
  match m (s, l) with
  | Ok a (s', l') => Ok (a, l') s'
  | Throw e (s', _) => Throw e s'
  | Fault why => Fault why
  | OutOfFuel => OutOfFuel
  end.

(** What lies outside of the variable. *)
Definition outer {A} (m : M S A) : M (S * L) A := fun '(s, l) =>
  match m s with
  | Ok a s' => Ok a (s', l)
  | Throw e s' => Throw e (s', l)
  | Fault why => Fault why
  | OutOfFuel => OutOfFuel
  end.

Definition load : M (S * L) L := gets snd.
Definition store (l : L) : M (S * L) unit := modify (fun st => (st.1, l)).
End Local.

(** ** Generators *)

(** [for (auto& value : container) if (!handler(value)) return false; return true;] *)
Fixpoint apply_all {S A} (handler : A -> M S bool) (l : list A) : M S bool :=
  match l with
  | [] => mret true
  | x :: l => b ← handler x; if b : bool then apply_all handler l else mret false
  end.

(** [for (auto& value : container) body(value);] *)
Fixpoint foreach_all {S A} (body : A -> M S unit) (l : list A) : M S unit :=
  match l with
  | [] => mret tt
  | x :: l => body x;; foreach_all body l
  end.

Record Gen (A : Type) := mkGen {
  apply : forall S : Type, (A -> M S bool) -> M S bool;
  foreach : forall S : Type, (A -> M S unit) -> M S unit }.
Arguments mkGen {A}.
Arguments apply {A} _ {S}.
Arguments foreach {A} _ {S}.

(** A class that does not implement [foreach] inherits that of [GenImpl]. *)
Definition GenImpl {A} (apply : forall S : Type, (A -> M S bool) -> M S bool) : Gen A :=
  mkGen apply (fun S body => apply S (fun v => body v;; mret true);; mret tt).

(** ** Sources *)

Definition Group_gen {A} (values : list A) : Gen A := mkGen (fun S h => apply_all h values) (fun S body => foreach_all body values).
Definition ReferencedSource {A} (container : list A) : Gen A :=
  mkGen (fun S h => apply_all h container) (fun S body => foreach_all body container).
Definition CopiedSource {A} (copy : list A) : Gen A := mkGen (fun S h => apply_all h copy) (fun S body => foreach_all body copy).
Definition RangeSource {A} (range : list A) : Gen A := mkGen (fun S h => apply_all h range) (fun S body => foreach_all body range).
Definition Empty {A} : Gen A := mkGen (fun S h => mret true) (fun S body => mret tt).
Definition SingleCopy {A} (value : A) : Gen A := mkGen (fun S h => h value) (fun S body => body value).
Definition SingleReference {A} (value : A) : Gen A := mkGen (fun S h => h value) (fun S body => body value).

(** What a [Sequence] does with its current value; [None] is signed overflow. *)
Record SequenceImpl := mkImpl { test : Z -> bool; step : Z -> option Z }.

Definition plus (T : Int) (x d : Z) : option Z :=
  if is_signed T then if decide (int_min T <= x + d <= int_max T) then Some (x + d) else None else Some (wrap (width T) (x + d)).

Definition RangeImpl (T : Int) (end_ : Z) : SequenceImpl := mkImpl (fun x => bool_decide (x < end_)) (fun x => plus T x 1).
Definition RangeWithStepImpl (T : Int) (end_ step : Z) : SequenceImpl := mkImpl (fun x => bool_decide (x < end_)) (fun x => plus T x step).
Definition SeqImpl (T : Int) (end_ : Z) : SequenceImpl := mkImpl (fun x => bool_decide (x <= end_)) (fun x => plus T x 1).
Definition SeqWithStepImpl (T : Int) (end_ step : Z) : SequenceImpl := mkImpl (fun x => bool_decide (x <= end_)) (fun x => plus T x step).
Definition InfiniteImpl (T : Int) : SequenceImpl := mkImpl (fun _ => true) (fun x => plus T x 1).

Fixpoint sequence_apply {S} (fuel : nat) (impl : SequenceImpl) (handler : Z -> M S bool) (current : Z) : M S bool :=
  match fuel with
  | O => fun _ => OutOfFuel
  | Datatypes.S fuel =>
      if test impl current then
        b ← handler current;
        if b : bool then c ← of_option (step impl current) "signed overflow"; sequence_apply fuel impl handler c else mret false
      else mret true
  end.

Fixpoint sequence_foreach {S} (fuel : nat) (impl : SequenceImpl) (body : Z -> M S unit) (current : Z) : M S unit :=
  match fuel with
  | O => fun _ => OutOfFuel
  | Datatypes.S fuel =>
      if test impl current then
        body current;; c ← of_option (step impl current) "signed overflow"; sequence_foreach fuel impl body c
      else mret tt
  end.

Definition Sequence (fuel : nat) (start : Z) (impl : SequenceImpl) : Gen Z :=
  mkGen (fun S h => sequence_apply fuel impl h start) (fun S body => sequence_foreach fuel impl body start).

(** [Yield]: [source] is a function that calls the body it is given. The body
    leaves it by an exception of its own, [Break], here any exception together
    with a mark. *)
Definition Yield {A} (source : forall S : Type, (A -> M S unit) -> M S unit) : Gen A :=
  mkGen (fun S h =>
    '(r, _) ← local false (
      try_catch
        (source _ (fun v => b ← outer (h v); if b : bool then mret tt else store true;; throw (logic_error "Break"));; mret true)
        (fun e => broken ← load; if broken : bool then mret false else throw e));
    mret r)
    source.

(** ** Operators *)

Definition Chain {A} (first second : Gen A) : Gen A :=
  mkGen (fun S h => b ← apply first h; if b : bool then apply second h else mret false)
        (fun S body => foreach first body;; foreach second body).

Definition Map {A B} (pred : A -> B) (source : Gen A) : Gen B :=
  mkGen (fun S h => apply source (fun v => h (pred v))) (fun S body => foreach source (fun v => body (pred v))).

Definition Filter {A} (pred : A -> bool) (source : Gen A) : Gen A :=
  mkGen (fun S h => apply source (fun v => if pred v then h v else mret true))
        (fun S body => foreach source (fun v => if pred v then body v else mret tt)).

Definition Until {A} (pred : A -> bool) (source : Gen A) : Gen A :=
  GenImpl (fun S h =>
    '(_, cancelled) ← local false (apply source (fun v =>
      if pred v then mret false else
      b ← outer (h v);
      if negb b then store true;; mret false else mret true));
    mret (negb cancelled)).

Definition Take {A} (count : Z) (source : Gen A) : Gen A :=
  GenImpl (fun S h =>
    if decide (count = 0) then mret false else
    '(_, st) ← local (count, false) (apply source (fun v =>
      b ← outer (h v);
      '(n, cancelled) ← load;
      if negb b then store (n, true);; mret false
      else let n := u64 (n - 1) in store (n, cancelled);; mret (bool_decide (n <> 0))));
    mret (negb st.2)).

Definition Stride {A} (stride : Z) (source : Gen A) : Gen A :=
  mkGen
    (fun S h =>
      '(r, _) ← local stride (apply source (fun v =>
        distance ← load;
        let distance := u64 (distance + 1) in
        store distance;;
        if decide (distance >= stride) then b ← outer (h v); if negb b then mret false else store 0;; mret true
        else mret true));
      mret r)
    (fun S body =>
      local stride (foreach source (fun v =>
        distance ← load;
        let distance := u64 (distance + 1) in
        store distance;;
        if decide (distance >= stride) then outer (body v);; store 0 else mret tt));;
      mret tt).

(** The constructor of [Stride] and of [Batch]. *)
Definition nonzero {S} (n : Z) (what : string) : M S unit := if decide (n = 0) then throw (invalid_argument what) else mret tt.
Definition stride {S A} (n : Z) (source : Gen A) : M S (Gen A) := nonzero n "stride must not be 0";; mret (Stride n source).

(** [rng] gives the values of successive calls of the engine. *)
Definition Sample {A} (count : Z) (rng : nat -> Z) (source : Gen A) : Gen A :=
  GenImpl (fun S h =>
    if decide (count = 0) then mret false else
    '(_, st) ← local ([], 1, O) (foreach source (fun value =>
      '(v, n, k) ← load;
      if decide (zlen v < count) then store (v ++ [value], u64 (n + 1), k)
      else
        let index := rng k `mod` n in
        store (if decide (index < zlen v) then <[Z.to_nat index := value]> v else v, u64 (n + 1), Datatypes.S k)));
    apply_all h st.1.1).

Definition Skip {A} (count : Z) (source : Gen A) : Gen A :=
  mkGen
    (fun S h =>
      if decide (count = 0) then apply source h else
      '(r, _) ← local 0 (apply source (fun v =>
        n ← load;
        if decide (n < count) then store (u64 (n + 1));; mret true else outer (h v)));
      mret r)
    (fun S body =>
      if decide (count = 0) then foreach source body else
      local 0 (foreach source (fun v => n ← load; if decide (n < count) then store (u64 (n + 1)) else outer (body v)));;
      mret tt).

(** [keysSeen.insert(key).second], on the set of the keys seen. *)
Definition insert_key {S K} `{EqDecision K} (key : K) : M (S * list K) bool :=
  seen ← load; if decide (key ∈ seen) then mret false else store (key :: seen);; mret true.

Definition Distinct {A K} `{EqDecision K} (selector : A -> K) (source : Gen A) : Gen A :=
  mkGen
    (fun S h =>
      '(r, _) ← local [] (apply source (fun v => b ← insert_key (selector v); if b : bool then outer (h v) else mret true));
      mret r)
    (fun S body => local [] (foreach source (fun v => b ← insert_key (selector v); if b : bool then outer (body v) else mret tt));; mret tt).

Definition Batch {A} (batchSize : Z) (source : Gen A) : Gen (list A) :=
  GenImpl (fun S h =>
    '(shouldContinue, batch) ← local [] (apply source (fun v =>
      batch ← load;
      let batch := batch ++ [v] in
      store batch;;
      if decide (zlen batch = batchSize) then needMore ← outer (h batch); store [];; mret needMore else mret true));
    if shouldContinue && negb (bool_decide (batch = [])) then h batch else mret shouldContinue).
Definition batch {S A} (n : Z) (source : Gen A) : M S (Gen (list A)) :=
  nonzero n "Batch size must be non-zero!";; mret (Batch n source).

(** The values of the source are generators: [inner] is what they are. *)
Definition Concat {A B} (inner : A -> Gen B) (source : Gen A) : Gen B :=
  mkGen (fun S h => apply source (fun i => apply (inner i) h)) (fun S body => foreach source (fun i => foreach (inner i) body)).

Definition RangeConcat {A} (source : Gen (list A)) : Gen A :=
  mkGen (fun S h => apply source (fun range => apply_all h range)) (fun S body => foreach source (fun range => foreach_all body range)).

(** [Exception] is the type of the exceptions that are caught. The error handler
    may throw. *)
Definition GuardImpl {A} (Exception : exn -> bool) (handler_ : exn -> A -> bool + exn) (source : Gen A) : Gen A :=
  GenImpl (fun S h => apply source (fun v =>
    try_catch (h v;; mret true)
      (fun e => if Exception e then match handler_ e v with inl b => mret b | inr e' => throw e' end else throw e))).

(** Pointers that may be null. *)
Definition Dereference {A} (source : Gen (option A)) : Gen A :=
  mkGen (fun S h => apply source (fun v => match v with Some x => h x | None => mret true end))
        (fun S body => foreach source (fun v => match v with Some x => body x | None => mret tt end)).

(** [limit] is [None] for [Cycle<true>]; [count] is an [off_t]. *)
Fixpoint cycle_loop {S A} (fuel : nat) (source : Gen A) (h : A -> M S bool) (limit : option Z) (count : Z) : M S bool :=
  if decide (limit = Some count) then mret true else
  match fuel with
  | O => fun _ => OutOfFuel
  | Datatypes.S fuel =>
      '(_, cont) ← local false (apply source (fun v => c ← outer (h v); store c;; mret c));
      if negb cont then mret false else
      assert (bool_decide (count < 2 ^ 63 - 1)) "signed overflow";; cycle_loop fuel source h limit (count + 1)
  end.
Definition Cycle {A} (fuel : nat) (limit : option Z) (source : Gen A) : Gen A :=
  GenImpl (fun S h => cycle_loop fuel source h limit 0).

Definition Interleave {A} (container : list A) (source : Gen A) : Gen A :=
  GenImpl (fun S h =>
    '(r, _) ← local container (apply source (fun v =>
      iter ← load;
      match iter with
      | [] => mret false
      | x :: rest =>
          b ← outer (h v); if negb b then mret false else
          b ← outer (h x); if negb b then mret false else
          store rest;; mret true
      end));
    mret r).

Definition Zip {A B} (container : list B) (source : Gen A) : Gen (A * B) :=
  GenImpl (fun S h =>
    '(r, _) ← local container (apply source (fun v =>
      iter ← load;
      match iter with
      | [] => mret false
      | x :: rest => b ← outer (h (v, x)); if negb b then mret false else store rest;; mret true
      end));
    mret r).

(** A sorted permutation by [std::sort], and the greatest element by [std::make_heap]
    and [std::pop_heap], of which the standard says no more. *)
Definition weak_order {A} (lt : A -> A -> bool) : Prop :=
  (forall x, lt x x = false) /\ (forall x y z, lt x y = true -> lt y z = true -> lt x z = true) /\
  (forall x y z, lt x y = false -> lt y z = false -> lt x z = false).
Class Sorting := {
  sort : forall {A}, (A -> A -> bool) -> list A -> list A;
  sort_items : forall A (lt : A -> A -> bool) l, sort lt l ≡ₚ l;
  sort_ordered : forall A (lt : A -> A -> bool) l, weak_order lt -> StronglySorted (fun x y => lt y x = false) (sort lt l);
  pop_greatest : forall {A}, (A -> A -> bool) -> list A -> option (A * list A);
  pop_none : forall A (lt : A -> A -> bool) l, pop_greatest lt l = None <-> l = [];
  pop_items : forall A (lt : A -> A -> bool) l x r, pop_greatest lt l = Some (x, r) -> l ≡ₚ x :: r;
  pop_ordered : forall A (lt : A -> A -> bool) l x r, weak_order lt -> pop_greatest lt l = Some (x, r) -> Forall (fun y => lt x y = false) r }.

(** ** Sinks

    [source | lambda] calls [foreach] for a lambda without a result, and [apply] for
    one that returns a bool. *)

Definition FoldLeft {S A B} (seed : B) (fold : B -> A -> B) (source : Gen A) : M S B :=
  '(_, accum) ← local seed (foreach source (fun v => accum ← load; store (fold accum v))); mret accum.

Definition First {S A} (source : Gen A) : M S (option A) :=
  '(_, accum) ← local None (apply source (fun v => store (Some v);; mret false)); mret accum.

Definition IsEmpty {S A} (emptyResult : bool) (source : Gen A) : M S bool :=
  '(_, ans) ← local emptyResult (apply source (fun v => store (negb emptyResult);; mret false)); mret ans.

Definition Reduce {S A} (reducer : A -> A -> A) (source : Gen A) : M S (option A) :=
  '(_, accum) ← local None (foreach source (fun v =>
    accum ← load; store (Some (match accum with Some a => reducer a v | None => v end))));
  mret accum.

Definition Count {S A} (source : Gen A) : M S Z := FoldLeft 0 (fun accum _ => u64 (accum + 1)) source.

Definition Sum {S A} (zero : A) (add : A -> A -> A) (source : Gen A) : M S A := FoldLeft zero add source.

Definition Contains {S A} `{EqDecision A} (needle : A) (source : Gen A) : M S bool :=
  b ← apply source (fun v => mret (negb (bool_decide (needle = v)))); mret (negb b).

Definition Min {S A K} (selector : A -> K) (comparer : K -> K -> bool) (source : Gen A) : M S (option A) :=
  '(_, st) ← local (None, None) (foreach source (fun v =>
    '(min, minKey) ← load;
    let key := selector v in
    if match minKey with None => true | Some k => comparer key k end then store (Some v, Some key) else mret tt));
  mret st.1.

(** A sequence container, into which values are inserted at the end. *)
Definition Append {A} (source : Gen A) : M (list A) unit := foreach source (fun v => modify (fun c => c ++ [v])).
Definition Collect {S A} (source : Gen A) : M S (list A) :=
  '(_, c) ← local [] (foreach source (fun v => c ← load; store (c ++ [v]))); mret c.

Definition UnwrapOr {A} (opt : option A) (fallback : A) : A := match opt with Some x => x | None => fallback end.

Section Order.
Context `{Sorting} {A K : Type} (selector : A -> K) (comparer : K -> K -> bool).

Definition asVector {S} (source : Gen A) : M S (list A) :=
  vals ← Collect source; mret (sort (fun a b => comparer (selector a) (selector b)) vals).

(** [fuel] is the number of elements. *)
Fixpoint heap_loop {S} (fuel : nat) (h : A -> M S bool) (heap : list A) : M S bool :=
  match pop_greatest (fun a b => comparer (selector b) (selector a)) heap with
  | None => mret true
  | Some (x, heap) =>
      match fuel with
      | O => fun _ => OutOfFuel
      | Datatypes.S fuel => b ← h x; if negb b then mret false else heap_loop fuel h heap
      end
  end.

Definition Order (source : Gen A) : Gen A :=
  mkGen (fun S h => heap ← Collect source; heap_loop (length heap) h heap)
        (fun S body => vals ← asVector source; foreach_all body vals).
End Order.

(** [groups[key].push_back(value)] on an [unordered_map], whose order when it is
    traversed is [order]. *)
Fixpoint push_group {A K} `{EqDecision K} (key : K) (value : A) (groups : list (K * list A)) : list (K * list A) :=
  match groups with
  | [] => [(key, [value])]
  | (k, vs) :: rest => if decide (k = key) then (k, vs ++ [value]) :: rest else (k, vs) :: push_group key value rest
  end.
Definition GroupBy {A K} `{EqDecision K} (order : list (K * list A) -> list (K * list A)) (selector : A -> K) (source : Gen A) :
    Gen (K * list A) :=
  GenImpl (fun S h =>
    '(_, groups) ← local [] (foreach source (fun v => groups ← load; store (push_group (selector v) v groups)));
    apply_all h (order groups)).

(** [any], [all]: a filter and a test for emptiness. *)
Definition Any {S A} (pred : A -> bool) (source : Gen A) : M S bool := IsEmpty false (Filter pred source).
Definition All {S A} (pred : A -> bool) (source : Gen A) : M S bool := IsEmpty true (Filter (fun x => negb (pred x)) source).

(** A wrapper that hides the type. *)
Definition VirtualGen {A} (wrapped : Gen A) : Gen A := mkGen (fun S h => apply wrapped h) (fun S body => foreach wrapped body).
