(* ===== verification/GenSpec.v ===== *)
(** * gen: pipelines compute functions on lists

    A generator [yields] a list when its methods do exactly what a loop over the
    list would, for every handler, with its effects, exceptions and early exits.
    Every operator turns a list that its source yields into the list of its own. *)

From stdpp Require Import base list strings sorting.
From S2P Require Import Prelude Conv ConvParse Gen.

(** ** Specification *)

Definition yields {A} (g : Gen A) (l : list A) : Prop :=
  (forall S (h : A -> M S bool) s, apply g h s = apply_all h l s) /\
  (forall S (body : A -> M S unit) s, foreach g body s = foreach_all body l s).

(** The unfolding of the monad and of captured variables. *)
Ltac unfold_gen := unfold local, outer, load, store, mbind, M_bind, bind, mret, M_ret, ret, gets, modify, try_catch, throw; cbn [fst snd].

Lemma bind_run {S A B} (m : M S A) (f : A -> M S B) s : (m ≫= f) s =
  match m s with Ok a s' => f a s' | Throw e s' => Throw e s' | Fault w => Fault w | OutOfFuel => OutOfFuel end.
Proof. done. Qed.

Section Loops.
Context {S A : Type}.
Implicit Types (h : A -> M S bool) (l : list A) (s : S).

Lemma apply_all_cons h x l s : apply_all h (x :: l) s =
  match h x s with Ok true s' => apply_all h l s' | Ok false s' => Ok false s' | Throw e s' => Throw e s' | Fault w => Fault w | OutOfFuel => OutOfFuel end.
Proof. simpl. unfold_gen. by destruct (h x s) as [[]| | |]. Qed.

Lemma foreach_all_cons (body : A -> M S unit) x l s : foreach_all body (x :: l) s =
  match body x s with Ok _ s' => foreach_all body l s' | Throw e s' => Throw e s' | Fault w => Fault w | OutOfFuel => OutOfFuel end.
Proof. done. Qed.

Lemma apply_all_ext h h' l s : (forall x s, h x s = h' x s) -> apply_all h l s = apply_all h' l s.
Proof. intros E. revert s. induction l as [|x l IH]; intros s; [done|]. rewrite !apply_all_cons, E. by destruct (h' x s) as [[]| | |]. Qed.

Lemma foreach_all_ext (b b' : A -> M S unit) l s : (forall x s, b x s = b' x s) -> foreach_all b l s = foreach_all b' l s.
Proof. intros E. revert s. induction l as [|x l IH]; intros s; [done|]. rewrite !foreach_all_cons, E. by destruct (b' x s). Qed.

Lemma apply_all_app h l l' s : apply_all h (l ++ l') s =
  match apply_all h l s with Ok true s' => apply_all h l' s' | r => r end.
Proof. revert s. induction l as [|x l IH]; intros s; [done|]. rewrite <- app_comm_cons, !apply_all_cons. by destruct (h x s) as [[]| | |]. Qed.

Lemma foreach_all_app (b : A -> M S unit) l l' s : foreach_all b (l ++ l') s =
  match foreach_all b l s with Ok _ s' => foreach_all b l' s' | r => r end.
Proof. revert s. induction l as [|x l IH]; intros s; [done|]. rewrite <- app_comm_cons, !foreach_all_cons. by destruct (b x s) as [[]| | |]. Qed.

(** A handler that always goes on. *)
Lemma apply_all_on (b : A -> M S unit) l s :
  apply_all (fun v => b v;; mret true) l s = match foreach_all b l s with Ok _ s' => Ok true s' | Throw e s' => Throw e s' | Fault w => Fault w | OutOfFuel => OutOfFuel end.
Proof. unfold_gen. revert s. induction l as [|x l IH]; intros s; [done|]. rewrite apply_all_cons, foreach_all_cons. by destruct (b x s). Qed.

End Loops.

Lemma apply_all_map {S A B} (f : B -> A) (h : A -> M S bool) (l : list B) s : apply_all (fun v => h (f v)) l s = apply_all h (f <$> l) s.
Proof. revert s. induction l as [|x l IH]; intros s; [done|]. rewrite fmap_cons, !apply_all_cons. destruct (h (f x) s) as [[]| | |]; [apply IH|done..]. Qed.

Lemma foreach_all_map {S A B} (f : B -> A) (b : A -> M S unit) (l : list B) s : foreach_all (fun v => b (f v)) l s = foreach_all b (f <$> l) s.
Proof. revert s. induction l as [|x l IH]; intros s; [done|]. rewrite fmap_cons, !foreach_all_cons. destruct (b (f x) s); [apply IH|done..]. Qed.

(** The inherited [foreach] follows [apply]. *)
Lemma yields_impl {A} (ap : forall S : Type, (A -> M S bool) -> M S bool) l :
  (forall S (h : A -> M S bool) s, ap S h s = apply_all h l s) -> yields (GenImpl ap) l.
Proof.
  intros E. split; [exact E|]. intros S body s. simpl. unfold mbind, M_bind, bind. rewrite E.
  pose proof (apply_all_on body l s) as H. unfold mbind, M_bind, bind in H. rewrite H. by destruct (foreach_all body l s) as [[]| | |].
Qed.

(** ** Operators *)

Section Operators.
Context {A : Type} (g : Gen A) (xs : list A) (Hg : yields g xs).

Lemma Map_yields {B} (f : A -> B) : yields (Map f g) (f <$> xs).
Proof. split; intros S h s; simpl; [rewrite (proj1 Hg)|rewrite (proj2 Hg)]; [apply apply_all_map|apply foreach_all_map]. Qed.

Lemma Filter_yields (p : A -> bool) : yields (Filter p g) (filter (fun x => p x = true) xs).
Proof.
  split; intros S h s; simpl; [rewrite (proj1 Hg)|rewrite (proj2 Hg)]; clear; revert s; induction xs as [|x l IH]; intros s; try done.
  - rewrite apply_all_cons, filter_cons. destruct (p x); [|apply IH]. rewrite decide_True, apply_all_cons by done.
    destruct (h x s) as [[]| | |]; [apply IH|done..].
  - rewrite foreach_all_cons, filter_cons. destruct (p x); [|apply IH]. rewrite decide_True, foreach_all_cons by done.
    destruct (h x s); [apply IH|done..].
Qed.

(** The values before the first that satisfies [p]. *)
Fixpoint until_list (p : A -> bool) (l : list A) : list A :=
  match l with [] => [] | x :: l => if p x then [] else x :: until_list p l end.

Lemma Until_yields (p : A -> bool) : yields (Until p g) (until_list p xs).
Proof.
  apply yields_impl. intros S h s. unfold_gen. rewrite (proj1 Hg). clear. revert s. induction xs as [|x l IH]; intros s; [done|].
  rewrite apply_all_cons. simpl. destruct (p x); [done|]. rewrite apply_all_cons. unfold_gen. destruct (h x s) as [[]| | |]; try done. apply IH.
Qed.

Lemma Take_yields n : 0 < n < 2 ^ 64 -> yields (Take n g) (take (Z.to_nat n) xs).
Proof.
  intros Hn. apply yields_impl. intros S h s. rewrite decide_False by lia. unfold_gen. rewrite (proj1 Hg). clear Hg g. revert n Hn s.
  induction xs as [|x l IH]; intros n Hn s; [by rewrite take_nil|].
  destruct (Z.to_nat n) as [|k] eqn:Ek; [lia|]. rewrite firstn_cons, !apply_all_cons. unfold_gen.
  destruct (h x s) as [[] s'| | |]; try done. unfold negb at 1. unfold_gen. rewrite wrap_small by (unfold fits; lia).
  destruct (decide (n - 1 = 0)) as [E|E].
  - rewrite bool_decide_eq_false_2 by lia. replace k with O by lia. by rewrite take_0.
  - rewrite bool_decide_eq_true_2 by lia. replace k with (Z.to_nat (n - 1)) by lia. apply IH. lia.
Qed.

Lemma Skip_yields n : 0 <= n < 2 ^ 64 -> yields (Skip n g) (drop (Z.to_nat n) xs).
Proof.
  intros Hn. assert (H : forall k, 0 <= k <= n -> (forall S (h : A -> M S bool) s,
      (match apply_all (fun v => c ← load; if decide (c < n) then store (u64 (c + 1));; mret true else outer (h v)) xs (s, k) with
       | Ok r (s', _) => Ok r s' | Throw e (s', _) => Throw e s' | Fault w => Fault w | OutOfFuel => OutOfFuel end) = apply_all h (drop (Z.to_nat (n - k)) xs) s) /\
     (forall S (b : A -> M S unit) s,
      (match foreach_all (fun v => c ← load; if decide (c < n) then store (u64 (c + 1)) else outer (b v)) xs (s, k) with
       | Ok r (s', _) => Ok r s' | Throw e (s', _) => Throw e s' | Fault w => Fault w | OutOfFuel => OutOfFuel end) = foreach_all b (drop (Z.to_nat (n - k)) xs) s)).
  { clear Hg g. induction xs as [|x l IH]; intros k Hk; (split; intros S h s; [rewrite ?apply_all_cons|rewrite ?foreach_all_cons]); unfold_gen; [by rewrite drop_nil..| |];
      destruct (decide (k < n)) as [Hlt|Hge].
    - destruct (Z.to_nat (n - k)) as [|m] eqn:E; [lia|]. rewrite skipn_cons, wrap_small by (unfold fits; lia).
      replace m with (Z.to_nat (n - (k + 1))) by lia. apply IH. lia.
    - replace (n - k) with 0 by lia. rewrite drop_0. rewrite apply_all_cons. destruct (h x s) as [[]| | |]; try done.
      pose proof (proj1 (IH k ltac:(lia)) S h s0) as E. replace (n - k) with 0 in E by lia. rewrite drop_0 in E. exact E.
    - destruct (Z.to_nat (n - k)) as [|m] eqn:E; [lia|]. rewrite skipn_cons, wrap_small by (unfold fits; lia).
      replace m with (Z.to_nat (n - (k + 1))) by lia. apply IH. lia.
    - replace (n - k) with 0 by lia. rewrite drop_0. rewrite foreach_all_cons. destruct (h x s) as [[]| | |]; try done.
      pose proof (proj2 (IH k ltac:(lia)) S h s0) as E. replace (n - k) with 0 in E by lia. rewrite drop_0 in E. exact E. }
  destruct (H 0 ltac:(lia)) as [H1 H2]. rewrite Z.sub_0_r in H1, H2. split; intros S h s; simpl.
  - destruct (decide (n = 0)) as [->|]; [apply Hg|]. rewrite <- H1. unfold_gen. rewrite (proj1 Hg). by destruct (apply_all _ xs (s, 0)) as [? []|? []| |].
  - destruct (decide (n = 0)) as [->|]; [apply Hg|]. rewrite <- H2. unfold_gen. rewrite (proj2 Hg). by destruct (foreach_all _ xs (s, 0)) as [[] []|? []| |].
Qed.

(** Every [n]-th value, after [k] values. *)
Fixpoint every (n k : nat) (l : list A) : list A :=
  match l with
  | [] => []
  | x :: l => match k with O => x :: every n (n - 1) l | Datatypes.S k => every n k l end
  end.

Lemma Stride_yields n : 0 < n < 2 ^ 64 - 1 -> yields (Stride n g) (every (Z.to_nat n) 0 xs).
Proof.
  intros Hn.
  assert (H : forall d k, 0 <= d <= n -> Z.of_nat k = Z.max 0 (n - 1 - d) -> (forall S (h : A -> M S bool) s,
      (match apply_all (fun v => distance ← load; store (u64 (distance + 1));;
           if decide (u64 (distance + 1) >= n) then b ← outer (h v); if negb b then mret false else store 0;; mret true else mret true) xs (s, d) with
       | Ok r (s', _) => Ok r s' | Throw e (s', _) => Throw e s' | Fault w => Fault w | OutOfFuel => OutOfFuel end) = apply_all h (every (Z.to_nat n) k xs) s) /\
     (forall S (b : A -> M S unit) s,
      (match foreach_all (fun v => distance ← load; store (u64 (distance + 1));;
           if decide (u64 (distance + 1) >= n) then outer (b v);; store 0 else mret tt) xs (s, d) with
       | Ok r (s', _) => Ok r s' | Throw e (s', _) => Throw e s' | Fault w => Fault w | OutOfFuel => OutOfFuel end) = foreach_all b (every (Z.to_nat n) k xs) s)).
  { clear Hg g. induction xs as [|x l IH]; intros d k Hd Hk; (split; intros S h s; [rewrite ?apply_all_cons|rewrite ?foreach_all_cons]); [done..| |];
      unfold_gen; rewrite (wrap_small 64 (d + 1)) by (unfold fits; lia); destruct (decide (d + 1 >= n)) as [Hge|Hlt].
    - replace k with O by lia. cbn [every]. rewrite apply_all_cons. destruct (h x s) as [[] s'| | |]; try done. apply (IH 0); lia.
    - destruct k as [|k]; [lia|]. cbn [every]. apply (IH (d + 1)); lia.
    - replace k with O by lia. cbn [every]. rewrite foreach_all_cons. destruct (h x s) as [[] s'| | |]; try done. apply (IH 0); lia.
    - destruct k as [|k]; [lia|]. cbn [every]. apply (IH (d + 1)); lia. }
  destruct (H n O ltac:(lia) ltac:(lia)) as [H1 H2]. split; intros S h s; simpl.
  - rewrite <- H1. unfold_gen. rewrite (proj1 Hg). by destruct (apply_all _ xs (s, n)) as [? []|? []| |].
  - rewrite <- H2. unfold_gen. rewrite (proj2 Hg). by destruct (foreach_all _ xs (s, n)) as [[] []|? []| |].
Qed.

(** The values at the multiples of [n]. *)
Lemma every_lookup n l i : (0 < n)%nat -> every n 0 l !! i = l !! (i * n)%nat.
Proof.
  intros Hn. assert (H : forall l k i, every n k l !! i = l !! (k + i * n)%nat).
  { clear - Hn. induction l as [|x l IH]; intros k i; [done|]. cbn [every]. destruct k as [|k].
    - destruct i as [|i]; [done|]. simpl. rewrite IH. destruct n as [|n]; [lia|]. simpl. f_equal. lia.
    - by rewrite IH. }
  apply (H l O).
Qed.

(** The values whose key is not among the keys seen. *)
Fixpoint fresh {K} `{EqDecision K} (selector : A -> K) (seen : list K) (l : list A) : list A :=
  match l with
  | [] => []
  | x :: l => if decide (selector x ∈ seen) then fresh selector seen l else x :: fresh selector (selector x :: seen) l
  end.

Lemma Distinct_yields {K} `{EqDecision K} (selector : A -> K) : yields (Distinct selector g) (fresh selector [] xs).
Proof.
  assert (H : forall seen, (forall S (h : A -> M S bool) s,
      (match apply_all (fun v => b ← insert_key (selector v); if b : bool then outer (h v) else mret true) xs (s, seen) with
       | Ok r (s', _) => Ok r s' | Throw e (s', _) => Throw e s' | Fault w => Fault w | OutOfFuel => OutOfFuel end) = apply_all h (fresh selector seen xs) s) /\
     (forall S (b : A -> M S unit) s,
      (match foreach_all (fun v => c ← insert_key (selector v); if c : bool then outer (b v) else mret tt) xs (s, seen) with
       | Ok r (s', _) => Ok r s' | Throw e (s', _) => Throw e s' | Fault w => Fault w | OutOfFuel => OutOfFuel end) = foreach_all b (fresh selector seen xs) s)).
  { clear Hg g. unfold insert_key. induction xs as [|x l IH]; intros seen; (split; intros S h s; [rewrite ?apply_all_cons|rewrite ?foreach_all_cons]); [done..| |];
      cbn [fresh]; unfold_gen; destruct (decide (selector x ∈ seen)); unfold_gen; [apply IH| |apply IH|].
    - rewrite apply_all_cons. destruct (h x s) as [[] s'| | |]; try done. apply IH.
    - rewrite foreach_all_cons. destruct (h x s) as [[] s'| | |]; try done. apply IH. }
  destruct (H []) as [H1 H2]. split; intros S h s; simpl.
  - rewrite <- H1. unfold_gen. rewrite (proj1 Hg). by destruct (apply_all _ xs (s, [])) as [? []|? []| |].
  - rewrite <- H2. unfold_gen. rewrite (proj2 Hg). by destruct (foreach_all _ xs (s, [])) as [[] []|? []| |].
Qed.

(** Pieces of [n] values, after the [acc] that have come already. *)
Fixpoint chunks (n : nat) (acc : list A) (l : list A) : list (list A) :=
  match l with
  | [] => if decide (acc = []) then [] else [acc]
  | x :: l => if decide (length (acc ++ [x]) = n) then (acc ++ [x]) :: chunks n [] l else chunks n (acc ++ [x]) l
  end.

Lemma Batch_yields n : 0 < n -> yields (Batch n g) (chunks (Z.to_nat n) [] xs).
Proof.
  intros Hn. apply yields_impl. intros S h s.
  assert (H : forall acc s, ('(shouldContinue, batch) ← local acc (apply_all (fun v =>
      batch ← load; let batch := batch ++ [v] in store batch;;
      if decide (zlen batch = n) then needMore ← outer (h batch); store [];; mret needMore else mret true) xs);
    if shouldContinue && negb (bool_decide (batch = [])) then h batch else mret shouldContinue) s = apply_all h (chunks (Z.to_nat n) acc xs) s).
  { clear Hg g s. unfold_gen. induction xs as [|x l IH]; intros acc s.
    - simpl. unfold_gen. destruct (decide (acc = [])) as [->|Hne]; [done|]. rewrite bool_decide_eq_false_2 by done. simpl. unfold_gen.
      by destruct (h acc s) as [[]| | |].
    - rewrite apply_all_cons. cbn [chunks fst snd]. destruct (decide (zlen (acc ++ [x]) = n)) as [E|E].
      + destruct (decide (length (acc ++ [x]) = Z.to_nat n)); [|unfold zlen in E; lia]. rewrite apply_all_cons. by destruct (h (acc ++ [x]) s) as [[] s'| | |].
      + destruct (decide (length (acc ++ [x]) = Z.to_nat n)); [unfold zlen in E; lia|]. apply IH. }
  rewrite <- H. unfold_gen. by rewrite (proj1 Hg).
Qed.

Lemma chunks_concat n acc l : concat (chunks n acc l) = acc ++ l.
Proof.
  revert acc. induction l as [|x l IH]; intros acc; cbn [chunks].
  - case_decide; subst; simpl; [done|]. by rewrite app_nil_r.
  - case_decide; simpl; rewrite IH; by rewrite <- ?(assoc_L (++)).
Qed.

Lemma Concat_yields {B} (inner : A -> Gen B) (ys : A -> list B) : (forall x, x ∈ xs -> yields (inner x) (ys x)) ->
  yields (Concat inner g) (xs ≫= ys).
Proof.
  intros Hin. split; intros S h s; simpl; [rewrite (proj1 Hg)|rewrite (proj2 Hg)]; clear Hg g; revert s Hin; induction xs as [|x l IH]; intros s Hin; try done.
  - rewrite apply_all_cons, bind_cons, apply_all_app, (proj1 (Hin x ltac:(by left))).
    destruct (apply_all h (ys x) s) as [[]| | |]; try done. apply IH. intros y Hy. apply Hin. by right.
  - rewrite foreach_all_cons, bind_cons, foreach_all_app, (proj2 (Hin x ltac:(by left))).
    destruct (foreach_all h (ys x) s) as [[]| | |]; try done. apply IH. intros y Hy. apply Hin. by right.
Qed.

Lemma Chain_yields g' ys : yields g' ys -> yields (Chain g g') (xs ++ ys).
Proof.
  intros Hg'. split; intros S h s; simpl; unfold_gen; [rewrite apply_all_app, (proj1 Hg)|rewrite foreach_all_app, (proj2 Hg)].
  - destruct (apply_all h xs s) as [[]| | |]; try done. apply Hg'.
  - destruct (foreach_all h xs s) as [[]| | |]; try done. apply Hg'.
Qed.

Lemma VirtualGen_yields : yields (VirtualGen g) xs.
Proof. exact Hg. Qed.

Lemma Cycle_yields n fuel : (n = 0)%nat \/ xs <> [] -> Z.of_nat n < 2 ^ 63 -> (n <= fuel)%nat ->
  yields (Cycle fuel (Some (Z.of_nat n)) g) (concat (replicate n xs)).
Proof.
  intros Hne Hn Hf. apply yields_impl. intros S h s.
  assert (H : forall m fuel count s, (m <= fuel)%nat -> 0 <= count -> Z.of_nat n = count + Z.of_nat m ->
    cycle_loop fuel g h (Some (Z.of_nat n)) count s = apply_all h (concat (replicate m xs)) s).
  { clear fuel Hf s. intros m. induction m as [|m IH]; intros fuel count s Hf H0 Hc.
    - destruct fuel; simpl; by rewrite decide_True by (f_equal; lia).
    - destruct fuel as [|fuel]; [lia|]. cbn [cycle_loop]. rewrite decide_False by (intros [=]; lia).
      cbn [replicate]. rewrite concat_cons, apply_all_app.
      assert (Hr : forall (c : bool) l s, local c (apply_all (fun v => c ← outer (h v); store c;; mret c) l) s =
        match apply_all h l s with Ok a s' => Ok (a, match l with [] => c | _ => a end) s' | Throw e s' => Throw e s' | Fault w => Fault w | OutOfFuel => OutOfFuel end).
      { clear. unfold_gen. intros c l. revert c. induction l as [|x l IH]; intros c s; [done|]. rewrite !apply_all_cons.
        destruct (h x s) as [[] s'| | |]; [|done..]. rewrite IH. cbn [fst]. destruct (apply_all h l s') as [a s2| | |] eqn:E; [|done..].
        destruct l; [|done]. simpl in E. by injection E as <- <-. }
      rewrite bind_run. unfold local in Hr |- *. rewrite (proj1 Hg), Hr. destruct xs as [|x0 xs0] eqn:Exs; [destruct Hne; [lia|done]|]. rewrite <- Exs in *.
      destruct (apply_all h xs s) as [[] s'| | |]; [|done..]. cbn [negb]. rewrite bool_decide_eq_true_2 by lia. apply IH; lia. }
  simpl. apply H; lia.
Qed.

Lemma Zip_yields {B} (c : list B) : (length xs <= length c)%nat -> yields (Zip c g) (zip xs c).
Proof.
  intros Hl. apply yields_impl. intros S h s. unfold_gen. rewrite (proj1 Hg). clear Hg g. revert s c Hl. induction xs as [|x l IH]; intros s c Hl; [done|].
  destruct c as [|y c]; [simpl in Hl; lia|]. cbn [zip zip_with]. rewrite !apply_all_cons. unfold_gen.
  destruct (h (x, y) s) as [[] s'| | |]; try done. apply IH. simpl in Hl. lia.
Qed.

Fixpoint alternate (l c : list A) : list A :=
  match l, c with x :: l, y :: c => x :: y :: alternate l c | _, _ => [] end.

Lemma Interleave_yields (c : list A) : (length xs <= length c)%nat -> yields (Interleave c g) (alternate xs c).
Proof.
  intros Hl. apply yields_impl. intros S h s. unfold_gen. rewrite (proj1 Hg). clear Hg g. revert s c Hl. induction xs as [|x l IH]; intros s c Hl; [done|].
  destruct c as [|y c]; [simpl in Hl; lia|]. cbn [alternate]. rewrite !apply_all_cons. unfold_gen.
  destruct (h x s) as [[] s'| | |]; try done. unfold_gen. rewrite apply_all_cons. cbn [negb]. destruct (h y s') as [[] s2| | |]; try done. apply IH. simpl in Hl. lia.
Qed.
End Operators.

Lemma RangeConcat_yields {A} (g : Gen (list A)) xss : yields g xss -> yields (RangeConcat g) (concat xss).
Proof.
  intros Hg. split; intros S h s; simpl; [rewrite (proj1 Hg)|rewrite (proj2 Hg)]; clear; revert s; induction xss as [|x l IH]; intros s; try done.
  - rewrite apply_all_cons, concat_cons, apply_all_app. destruct (apply_all h x s) as [[]| | |]; try done; apply IH.
  - rewrite foreach_all_cons, concat_cons, foreach_all_app. destruct (foreach_all h x s) as [[]| | |]; try done; apply IH.
Qed.

Lemma Dereference_yields {A} (g : Gen (option A)) xs : yields g xs -> yields (Dereference g) (omap id xs).
Proof.
  intros Hg. split; intros S h s; simpl; [rewrite (proj1 Hg)|rewrite (proj2 Hg)]; clear; revert s; induction xs as [|[x|] l IH]; intros s; try done.
  - change (omap id (Some x :: l)) with (x :: omap id l). rewrite !apply_all_cons. destruct (h x s) as [[]| | |]; [apply IH|done..].
  - rewrite apply_all_cons. apply IH.
  - change (omap id (Some x :: l)) with (x :: omap id l). rewrite !foreach_all_cons. destruct (h x s); [apply IH|done..].
  - rewrite foreach_all_cons. apply IH.
Qed.

(** ** Sources *)

Lemma list_yields {A} (l : list A) : yields (ReferencedSource l) l /\ yields (CopiedSource l) l /\ yields (RangeSource l) l /\ yields (Group_gen l) l.
Proof. done. Qed.

Lemma Empty_yields {A} : yields (@Empty A) [].
Proof. done. Qed.

Lemma Single_yields {A} (x : A) : yields (SingleCopy x) [x] /\ yields (SingleReference x) [x].
Proof.
  assert (H : forall S (h : A -> M S bool) s, h x s = apply_all h [x] s) by (intros; rewrite apply_all_cons; by destruct (h x s) as [[]| | |]).
  assert (H' : forall S (h : A -> M S unit) s, h x s = foreach_all h [x] s) by (intros; rewrite foreach_all_cons; by destruct (h x s) as [[]| | |]).
  split; (split; [exact H|exact H']).
Qed.

(** A function that calls its body for each value of a list. *)
Lemma Yield_yields {A} (source : forall S : Type, (A -> M S unit) -> M S unit) l :
  (forall S (body : A -> M S unit) s, source S body s = foreach_all body l s) -> yields (Yield source) l.
Proof.
  intros Hs. split; [|exact Hs]. intros S h s. simpl. rewrite bind_run. unfold local, try_catch at 1.
  rewrite bind_run, Hs. clear Hs. revert s. unfold_gen. induction l as [|x l IH]; intros s; [done|].
  rewrite foreach_all_cons, apply_all_cons. destruct (h x s) as [[] s'| | |]; try done; apply IH.
Qed.

(** The values of a sequence that ends after [n] steps. *)
Lemma sequence_yields fuel impl start l : (length l < fuel)%nat ->
  (forall i x, l !! i = Some x -> test impl x = true) ->
  (forall x, last l = Some x -> exists e, step impl x = Some e /\ test impl e = false) ->
  (forall i x y, l !! i = Some x -> l !! S i = Some y -> step impl x = Some y) ->
  match l with [] => test impl start = false | x :: _ => x = start end -> yields (Sequence fuel start impl) l.
Proof.
  intros Hf Ht Hl Hs H0.
  assert (H : forall l fuel start, (length l < fuel)%nat -> (forall i x, l !! i = Some x -> test impl x = true) ->
    (forall x, last l = Some x -> exists e, step impl x = Some e /\ test impl e = false) ->
    (forall i x y, l !! i = Some x -> l !! S i = Some y -> step impl x = Some y) ->
    match l with [] => test impl start = false | x :: _ => x = start end ->
    (forall S (h : Z -> M S bool) s, sequence_apply fuel impl h start s = apply_all h l s) /\
    (forall S (h : Z -> M S unit) s, sequence_foreach fuel impl h start s = foreach_all h l s)).
  { clear. induction l as [|x l IH]; intros fuel start Hf Ht Hl Hs H0; (destruct fuel as [|fuel]; [simpl in Hf; lia|]).
    - split; intros S h s; simpl; by rewrite H0.
    - subst start. assert (Hx : exists e, step impl x = Some e /\ match l with [] => test impl e = false | y :: _ => y = e end).
      { destruct l as [|y l]; [by apply Hl|]. exists y. split; [by apply (Hs 0%nat)|done]. }
      destruct Hx as (e & Ee & He). destruct (IH fuel e) as [IH1 IH2]; [simpl in Hf; lia|intros i y Hi; by apply (Ht (S i))| | |done|].
      + intros y Hy. apply Hl. destruct l; [done|]. done.
      + intros i y z Hy Hz. by apply (Hs (S i)).
      + split; intros S h s; simpl; rewrite (Ht 0%nat) by done; unfold_gen; destruct (h x s) as [[] s'| | |]; try done; rewrite Ee; simpl; unfold_gen; first [apply IH1|apply IH2]. }
  by destruct (H l fuel start Hf Ht Hl Hs H0).
Qed.

(** [n] values from [start] in steps of [d]. *)
Definition arith (start d : Z) (n : nat) : list Z := (fun i => start + Z.of_nat i * d) <$> seq 0 n.

Lemma arith_lookup start d n i x : arith start d n !! i = Some x <-> (i < n)%nat /\ x = start + Z.of_nat i * d.
Proof.
  unfold arith. rewrite list_lookup_fmap, fmap_Some. split.
  - intros (j & Hj & ->). apply lookup_seq in Hj as [-> ?]. done.
  - intros [Hi ->]. exists i. split; [by apply lookup_seq|done].
Qed.

Lemma arith_length start d n : length (arith start d n) = n.
Proof. unfold arith. by rewrite length_fmap, length_seq. Qed.

Lemma plus_small T x d : 0 < width T -> in_range T (x + d) -> plus T x d = Some (x + d).
Proof.
  unfold plus, in_range, int_min, int_max. intros Hw Hx. destruct (is_signed T); [by rewrite decide_True|].
  rewrite wrap_small; [done|]. unfold fits. lia.
Qed.

Lemma counted_yields T impl start d lim n : 0 < width T -> 0 < d ->
  (forall x, test impl x = bool_decide (x < lim)) -> (forall x, step impl x = plus T x d) ->
  in_range T start -> start + Z.of_nat n * d <= int_max T ->
  (n = O /\ lim <= start \/ start + (Z.of_nat n - 1) * d < lim <= start + Z.of_nat n * d) ->
  yields (Sequence (S n) start impl) (arith start d n).
Proof.
  intros Hw Hd Htest Hstep Hstart Hmax Hn. unfold in_range in Hstart.
  assert (Hle : forall i, (i <= n)%nat -> start <= start + Z.of_nat i * d <= start + Z.of_nat n * d) by (intros i Hi; nia).
  assert (Hin : forall i, (i <= n)%nat -> in_range T (start + Z.of_nat i * d)) by (intros i Hi; specialize (Hle i Hi); unfold in_range; lia).
  apply sequence_yields.
  - rewrite arith_length. lia.
  - intros i x [Hi ->]%arith_lookup. rewrite Htest. apply bool_decide_eq_true. nia.
  - intros x Hx. rewrite last_lookup, arith_length in Hx. apply arith_lookup in Hx as [Hi ->].
    exists (start + Z.of_nat n * d). rewrite Hstep, Htest, plus_small; [|done|].
    + split; [f_equal; nia|]. apply bool_decide_eq_false. lia.
    + replace (start + Z.of_nat (pred n) * d + d) with (start + Z.of_nat n * d) by nia. apply Hin. lia.
  - intros i x y [Hi ->]%arith_lookup [Hi' ->]%arith_lookup. rewrite Hstep, plus_small; [f_equal; lia|done|].
    replace (start + Z.of_nat i * d + d) with (start + Z.of_nat (S i) * d) by lia. apply Hin. lia.
  - destruct n as [|n]; simpl; [|lia]. rewrite Htest. apply bool_decide_eq_false. lia.
Qed.

(** How many values there are below [lim]. *)
Definition steps (start lim d : Z) : nat := Z.to_nat ((lim - start + d - 1) / d).

Lemma steps_spec start lim d : 0 < d ->
  steps start lim d = O /\ lim <= start \/
  start + (Z.of_nat (steps start lim d) - 1) * d < lim <= start + Z.of_nat (steps start lim d) * d.
Proof.
  intros Hd. unfold steps. pose proof (Z.mul_div_le (lim - start + d - 1) d Hd). pose proof (Z.mul_succ_div_gt (lim - start + d - 1) d Hd).
  destruct (decide (lim <= start)); [left; split; [|done]|right].
  - assert ((lim - start + d - 1) / d <= 0) by (apply Z.lt_succ_r, Z.div_lt_upper_bound; lia). lia.
  - assert (0 <= (lim - start + d - 1) / d) by (apply Z.div_pos; lia). rewrite Z2Nat.id by lia. nia.
Qed.

Lemma range_yields T start lim d : 0 < width T -> 0 < d -> in_range T start -> lim + d - 1 <= int_max T ->
  yields (Sequence (S (steps start lim d)) start (RangeWithStepImpl T lim d)) (arith start d (steps start lim d)).
Proof.
  intros Hw Hd Hs Hl. destruct (steps_spec start lim d Hd) as [[E Hle]|Hn].
  - eapply counted_yields; [exact Hw|exact Hd|done|done|done|rewrite E; unfold in_range in Hs; lia|by left].
  - eapply counted_yields; [exact Hw|exact Hd|done|done|done|lia|by right].
Qed.

Lemma seq_yields T start last d : 0 < width T -> 0 < d -> in_range T start -> last + d <= int_max T ->
  yields (Sequence (S (steps start (last + 1) d)) start (SeqWithStepImpl T last d)) (arith start d (steps start (last + 1) d)).
Proof.
  intros Hw Hd Hs Hl.
  assert (Ht : forall x, test (SeqWithStepImpl T last d) x = bool_decide (x < last + 1)) by (intros x; simpl; apply bool_decide_ext; lia).
  destruct (steps_spec start (last + 1) d Hd) as [[E Hle]|Hn].
  - eapply counted_yields; [exact Hw|exact Hd|exact Ht|done|done|rewrite E; unfold in_range in Hs; lia|by left].
  - eapply counted_yields; [exact Hw|exact Hd|exact Ht|done|done|lia|by right].
Qed.

(** [take] ends an infinite sequence. *)
Lemma take_infinite T start n fuel : 0 < width T -> 0 < n < 2 ^ 64 -> n <= Z.of_nat fuel -> in_range T start -> start + n - 1 <= int_max T ->
  yields (Take n (Sequence fuel start (InfiniteImpl T))) (arith start 1 (Z.to_nat n)).
Proof.
  intros Hw Hn Hf Hs Hm. apply yields_impl. intros S h s. rewrite decide_False by lia. unfold_gen.
  cbn [apply Sequence]. revert start n Hn Hf Hs Hm s. induction fuel as [|fuel IH]; intros start n Hn Hf Hs Hm s; [lia|].
  destruct (Z.to_nat n) as [|k] eqn:Ek; [lia|]. cbn [sequence_apply InfiniteImpl test step]. unfold_gen.
  assert (Hc : arith start 1 (Datatypes.S k) = start :: arith (start + 1) 1 k).
  { unfold arith. rewrite <- cons_seq, fmap_cons. f_equal; [lia|]. rewrite <- fmap_S_seq, <- list_fmap_compose. apply list_fmap_ext. intros. simpl. lia. }
  rewrite Hc, apply_all_cons. destruct (h start s) as [[] s'| | |]; try done. unfold negb at 1. unfold_gen.
  rewrite wrap_small by (unfold fits; lia). destruct (decide (n - 1 = 0)) as [E|E].
  - rewrite bool_decide_eq_false_2 by lia. by replace k with O by lia.
  - rewrite bool_decide_eq_true_2 by lia. unfold in_range in Hs. rewrite plus_small by (done || (unfold in_range; lia)). cbn [of_option]. unfold_gen.
    replace k with (Z.to_nat (n - 1)) by lia. apply IH; [lia|lia|unfold in_range; lia|lia].
Qed.

(** ** Pipelines

    A pipeline as it is written, what the code builds from it, and the list it
    stands for. *)

Inductive pipe : Type -> Type :=
  | PFrom {A} (l : list A) : pipe A
  | PJust {A} (x : A) : pipe A
  | PEmpty {A} : pipe A
  | PYield {A} (l : list A) : pipe A
  | PRange (T : Int) (start lim d : Z) : pipe Z
  | PSeq (T : Int) (start last d : Z) : pipe Z
  | PFirstOf (T : Int) (start n : Z) : pipe Z
  | PChain {A} (p q : pipe A) : pipe A
  | PMap {A B} (f : A -> B) (p : pipe A) : pipe B
  | PFilter {A} (f : A -> bool) (p : pipe A) : pipe A
  | PUntil {A} (f : A -> bool) (p : pipe A) : pipe A
  | PTake {A} (n : Z) (p : pipe A) : pipe A
  | PSkip {A} (n : Z) (p : pipe A) : pipe A
  | PStride {A} (n : Z) (p : pipe A) : pipe A
  | PDistinct {A K} (dec : EqDecision K) (selector : A -> K) (p : pipe A) : pipe A
  | PBatch {A} (n : Z) (p : pipe A) : pipe (list A)
  | PConcat {A B} (inner : A -> pipe B) (p : pipe A) : pipe B
  | PRangeConcat {A} (p : pipe (list A)) : pipe A
  | PDereference {A} (p : pipe (option A)) : pipe A
  | PCycle {A} (n : nat) (p : pipe A) : pipe A
  | PZip {A B} (c : list B) (p : pipe A) : pipe (A * B)
  | PInterleave {A} (c : list A) (p : pipe A) : pipe A
  | PVirtual {A} (p : pipe A) : pipe A.

Fixpoint build {A} (p : pipe A) : Gen A :=
  match p with
  | PFrom l => ReferencedSource l
  | PJust x => SingleCopy x
  | PEmpty => Empty
  | PYield l => Yield (fun S body => foreach_all body l)
  | PRange T start lim d => Sequence (S (steps start lim d)) start (RangeWithStepImpl T lim d)
  | PSeq T start last d => Sequence (S (steps start (last + 1) d)) start (SeqWithStepImpl T last d)
  | PFirstOf T start n => Take n (Sequence (Z.to_nat n) start (InfiniteImpl T))
  | PChain p q => Chain (build p) (build q)
  | PMap f p => Map f (build p)
  | PFilter f p => Filter f (build p)
  | PUntil f p => Until f (build p)
  | PTake n p => Take n (build p)
  | PSkip n p => Skip n (build p)
  | PStride n p => Stride n (build p)
  | PDistinct dec selector p => Distinct selector (build p)
  | PBatch n p => Batch n (build p)
  | PConcat inner p => Concat (fun x => build (inner x)) (build p)
  | PRangeConcat p => RangeConcat (build p)
  | PDereference p => Dereference (build p)
  | PCycle n p => Cycle n (Some (Z.of_nat n)) (build p)
  | PZip c p => Zip c (build p)
  | PInterleave c p => Interleave c (build p)
  | PVirtual p => VirtualGen (build p)
  end.

Fixpoint values {A} (p : pipe A) : list A :=
  match p with
  | PFrom l => l
  | PJust x => [x]
  | PEmpty => []
  | PYield l => l
  | PRange T start lim d => arith start d (steps start lim d)
  | PSeq T start last d => arith start d (steps start (last + 1) d)
  | PFirstOf T start n => arith start 1 (Z.to_nat n)
  | PChain p q => values p ++ values q
  | PMap f p => f <$> values p
  | PFilter f p => filter (fun x => f x = true) (values p)
  | PUntil f p => until_list f (values p)
  | PTake n p => take (Z.to_nat n) (values p)
  | PSkip n p => drop (Z.to_nat n) (values p)
  | PStride n p => every (Z.to_nat n) 0 (values p)
  | PDistinct dec selector p => fresh selector [] (values p)
  | PBatch n p => chunks (Z.to_nat n) [] (values p)
  | PConcat inner p => values p ≫= (fun x => values (inner x))
  | PRangeConcat p => concat (values p)
  | PDereference p => omap id (values p)
  | PCycle n p => concat (replicate n (values p))
  | PZip c p => zip (values p) c
  | PInterleave c p => alternate (values p) c
  | PVirtual p => values p
  end.

(** Counts are of type [size_t] ([off_t] for [cycle]), a [take] takes something,
    what is repeated is not empty, a container that is zipped or interleaved is
    long enough, and sequences end before the greatest value of their type. *)
Fixpoint well_formed {A} (p : pipe A) : Prop :=
  match p with
  | PFrom _ | PJust _ | PEmpty | PYield _ => True
  | PRange T start lim d => 0 < width T /\ 0 < d /\ in_range T start /\ lim + d - 1 <= int_max T
  | PSeq T start last d => 0 < width T /\ 0 < d /\ in_range T start /\ last + d <= int_max T
  | PFirstOf T start n => 0 < width T /\ 0 < n < 2 ^ 64 /\ in_range T start /\ start + n - 1 <= int_max T
  | PChain p q => well_formed p /\ well_formed q
  | PMap _ p => well_formed p
  | PFilter _ p | PUntil _ p => well_formed p
  | PTake n p => 0 < n < 2 ^ 64 /\ well_formed p
  | PSkip n p => 0 <= n < 2 ^ 64 /\ well_formed p
  | PStride n p => 0 < n < 2 ^ 64 - 1 /\ well_formed p
  | PDistinct _ _ p => well_formed p
  | PBatch n p => 0 < n /\ well_formed p
  | PConcat inner p => well_formed p /\ forall x, x ∈ values p -> well_formed (inner x)
  | PRangeConcat p => well_formed p
  | PDereference p => well_formed p
  | PCycle n p => ((n = 0)%nat \/ values p <> []) /\ Z.of_nat n < 2 ^ 63 /\ well_formed p
  | PZip c p => (length (values p) <= length c)%nat /\ well_formed p
  | PInterleave c p => (length (values p) <= length c)%nat /\ well_formed p
  | PVirtual p => well_formed p
  end.

Lemma build_yields {A} (p : pipe A) : well_formed p -> yields (build p) (values p).
Proof.
  induction p; simpl; intros Hw; try done.
  - apply Single_yields.
  - by apply Yield_yields.
  - destruct Hw as (? & ? & ? & ?). by apply range_yields.
  - destruct Hw as (? & ? & ? & ?). by apply seq_yields.
  - destruct Hw as (? & ? & ? & ?). apply take_infinite; try done. lia.
  - destruct Hw. apply Chain_yields; auto.
  - apply Map_yields; auto.
  - apply Filter_yields; auto.
  - apply Until_yields; auto.
  - destruct Hw. apply Take_yields; auto.
  - destruct Hw. apply Skip_yields; auto.
  - destruct Hw. apply Stride_yields; auto.
  - apply Distinct_yields; auto.
  - destruct Hw. apply Batch_yields; auto.
  - destruct Hw as [Hw Hin]. apply Concat_yields; [auto|]. intros x Hx. auto.
  - apply RangeConcat_yields; auto.
  - apply Dereference_yields; auto.
  - destruct Hw as (? & ? & ?). apply Cycle_yields; auto.
  - destruct Hw. apply Zip_yields; auto.
  - destruct Hw. apply Interleave_yields; auto.
  - apply VirtualGen_yields; auto.
Qed.

(** ** Sinks *)

Lemma local_fold {S L A} (f : L -> A -> L) l (xs : list A) (s : S) :
  local l (foreach_all (fun v => x ← load; store (f x v)) xs) s = Ok (tt, fold_left f xs l) s.
Proof. unfold_gen. revert l. induction xs as [|x xs IH]; intros l; [done|]. rewrite foreach_all_cons. apply IH. Qed.

Section Sinks.
Context {A : Type} (g : Gen A) (xs : list A) (Hg : yields g xs) {S : Type} (s : S).

Lemma local_foreach {L B} (l : L) (body : A -> M (S * L) unit) (k : unit * L -> M S B) :
  (r ← local l (foreach g body); k r) s = (r ← local l (foreach_all body xs); k r) s.
Proof. unfold mbind, M_bind, bind, local. by rewrite (proj2 Hg). Qed.

Lemma local_apply {L B} (l : L) (h : A -> M (S * L) bool) (k : bool * L -> M S B) :
  (r ← local l (apply g h); k r) s = (r ← local l (apply_all h xs); k r) s.
Proof. unfold mbind, M_bind, bind, local. by rewrite (proj1 Hg). Qed.

Lemma FoldLeft_exact {B} seed (f : B -> A -> B) : FoldLeft seed f g s = Ok (fold_left f xs seed) s.
Proof. unfold FoldLeft. rewrite local_foreach, bind_run, local_fold. done. Qed.

Lemma Collect_exact : Collect g s = Ok xs s.
Proof.
  unfold Collect. rewrite local_foreach, bind_run, (local_fold (fun c v => c ++ [v])). unfold mret, M_ret, ret.
  assert (H : forall c, fold_left (fun c v => c ++ [v]) xs c = c ++ xs); [|by rewrite (H [])].
  clear. induction xs as [|x l IH]; intros c; simpl; [by rewrite app_nil_r|]. by rewrite IH, <- (assoc_L (++)).
Qed.

Lemma First_exact : First g s = Ok (head xs) s.
Proof. unfold First. rewrite local_apply, bind_run. by destruct xs. Qed.

Lemma IsEmpty_exact e : IsEmpty e g s = Ok (match xs with [] => e | _ => negb e end) s.
Proof. unfold IsEmpty. rewrite local_apply, bind_run. by destruct xs. Qed.

Lemma Count_exact : zlen xs < 2 ^ 64 -> Count g s = Ok (zlen xs) s.
Proof.
  intros Hl. unfold Count. rewrite FoldLeft_exact.
  assert (H : forall n, 0 <= n -> n + zlen xs < 2 ^ 64 -> fold_left (fun accum (_ : A) => u64 (accum + 1)) xs n = n + zlen xs).
  { clear. induction xs as [|x l IH]; intros n Hn Hl; [unfold zlen; simpl; lia|]. unfold zlen in *. simpl length in *. cbn [fold_left].
    rewrite u64_small by lia. rewrite IH by lia. lia. }
  rewrite H by lia. f_equal.
Qed.

Lemma Contains_exact `{EqDecision A} x : Contains x g s = Ok (bool_decide (x ∈ xs)) s.
Proof.
  unfold Contains. rewrite bind_run, (proj1 Hg). clear. induction xs as [|y l IH]; [done|]. rewrite apply_all_cons.
  change ((mret (negb (bool_decide (x = y))) : M S bool) s) with (Ok (S := S) (negb (bool_decide (x = y))) s). destruct (decide (x = y)) as [->|E].
  - rewrite bool_decide_eq_true_2 by done. simpl. unfold mret, M_ret, ret. f_equal. symmetry. apply bool_decide_eq_true. by left.
  - rewrite (bool_decide_eq_false_2 (x = y)) by done. simpl. rewrite IH. f_equal. apply bool_decide_ext. rewrite elem_of_cons. tauto.
Qed.

Lemma Append_exact c : Append g c = Ok tt (c ++ xs).
Proof.
  unfold Append. rewrite (proj2 Hg). clear. revert c. induction xs as [|x l IH]; intros c; [by rewrite app_nil_r|].
  rewrite foreach_all_cons. unfold modify at 1. rewrite IH. by rewrite <- (assoc_L (++)).
Qed.

Lemma Reduce_exact (f : A -> A -> A) : Reduce f g s = Ok (match xs with [] => None | x :: l => Some (fold_left f l x) end) s.
Proof.
  unfold Reduce. rewrite local_foreach, bind_run, (local_fold (fun (accum : option A) v => Some (match accum with Some a => f a v | None => v end))).
  unfold mret, M_ret, ret. f_equal. destruct xs as [|x l]; [done|]. simpl. clear. revert x. induction l as [|y l IH]; intros x; [done|]. apply IH.
Qed.

(** The first of the values with the least key. *)
Lemma Min_exact {K} (selector : A -> K) (comparer : K -> K -> bool) : weak_order comparer ->
  exists r, Min selector comparer g s = Ok r s /\
    match r with
    | None => xs = []
    | Some v => exists l1 l2, xs = l1 ++ v :: l2 /\ (forall x, x ∈ l1 -> comparer (selector v) (selector x) = true) /\
        (forall x, x ∈ xs -> comparer (selector x) (selector v) = false)
    end.
Proof.
  intros (Hirr & Htr & Hneg). unfold Min. rewrite local_foreach, bind_run.
  set (f := fun (st : option A * option K) v => if match st.2 with None => true | Some k => comparer (selector v) k end then (Some v, Some (selector v)) else st).
  pose proof (local_fold f (None, None) xs s) as E. unfold local in E |- *.
  rewrite (foreach_all_ext _ (fun v => x ← load; store (f x v))).
  2: { intros v [s' [m k]]. unfold_gen. unfold f. simpl. destruct k as [k|]; [by destruct (comparer (selector v) k)|done]. }
  rewrite E. eexists. split; [done|]. clear E.
  assert (H : forall l done m, (match m with None => done = [] | Some v => exists l1 l2, done = l1 ++ v :: l2 /\
        (forall x, x ∈ l1 -> comparer (selector v) (selector x) = true) /\ (forall x, x ∈ done -> comparer (selector x) (selector v) = false) end) ->
      match (fold_left f l (m, selector <$> m)).1 with None => done ++ l = [] | Some v => exists l1 l2, done ++ l = l1 ++ v :: l2 /\
        (forall x, x ∈ l1 -> comparer (selector v) (selector x) = true) /\ (forall x, x ∈ done ++ l -> comparer (selector x) (selector v) = false) end).
  { clear - Hirr Htr Hneg. intros l. induction l as [|y l IH]; intros done m Hm; simpl.
    - destruct m; rewrite ?app_nil_r; done.
    - replace (done ++ y :: l) with ((done ++ [y]) ++ l) by (by rewrite <- (assoc_L (++))).
      destruct m as [v|]; simpl in *.
      + destruct Hm as (l1 & l2 & -> & H1 & H2). unfold f at 2. simpl. destruct (comparer (selector y) (selector v)) eqn:Ec.
        * apply (IH _ (Some y)). exists (l1 ++ v :: l2), []. split; [done|]. split.
          -- intros x Hx. destruct (comparer (selector y) (selector x)) eqn:Ex; [done|]. rewrite (Hneg _ _ _ Ex (H2 x Hx)) in Ec. done.
          -- intros x [Hx| ->%list_elem_of_singleton]%elem_of_app; [|by apply Hirr]. destruct (comparer (selector x) (selector y)) eqn:Ex; [|done].
             pose proof (H2 x Hx) as Hv. by rewrite (Htr _ _ _ Ex Ec) in Hv.
        * apply (IH _ (Some v)). exists l1, (l2 ++ [y]). split; [by rewrite <- (assoc_L (++))|]. split; [done|].
          intros x [Hx| ->%list_elem_of_singleton]%elem_of_app; [by apply H2|done].
      + subst done. apply (IH _ (Some y)). exists [], []. split; [done|]. split; [intros x Hx; by apply not_elem_of_nil in Hx|].
        intros x ->%list_elem_of_singleton. apply Hirr. }
  apply (H xs [] None eq_refl).
Qed.
End Sinks.

(** ** Sorting and grouping *)

Section Sorted.
Context `{Sorting} {A K : Type} (selector : A -> K) (comparer : K -> K -> bool) (Hc : weak_order comparer).

(** No later value has a smaller key. *)
Definition ordered (l : list A) : Prop := StronglySorted (fun x y => comparer (selector y) (selector x) = false) l.

Lemma weak_order_key : weak_order (fun a b => comparer (selector a) (selector b)) /\ weak_order (fun a b => comparer (selector b) (selector a)).
Proof. destruct Hc as (H1 & H2 & H3). split; (split_and!; [intros x; apply H1|intros x y z Hx Hy; by eapply H2|intros x y z Hx Hy; by eapply H3]). Qed.

Lemma heap_loop_sorted heap : exists l, l ≡ₚ heap /\ ordered l /\
  forall S (h : A -> M S bool) s fuel, (length heap <= fuel)%nat -> heap_loop selector comparer fuel h heap s = apply_all h l s.
Proof.
  set (lt := fun a b => comparer (selector b) (selector a)).
  remember (length heap) as n eqn:En. revert heap En. induction n as [n IH] using lt_wf_ind. intros heap En. destruct (pop_greatest lt heap) as [[x r]|] eqn:E.
  - pose proof (pop_items _ _ _ _ _ E) as Hp. destruct (IH (length r)) with (heap := r) as (l & Hl & Ho & Hh); [rewrite En, Hp; simpl; lia|done|].
    exists (x :: l). split; [by rewrite Hl, Hp|]. split.
    + constructor; [done|]. rewrite Hl. apply (pop_ordered _ _ _ _ _ (proj2 weak_order_key) E).
    + intros S h s fuel Hf. rewrite Hp in En. simpl in En. destruct fuel as [|fuel]; [lia|]. cbn [heap_loop]. fold lt. rewrite E.
      rewrite apply_all_cons. unfold_gen. destruct (h x s) as [[] s'| | |]; try done. apply Hh. lia.
  - apply pop_none in E as ->. exists []. split; [done|]. split; [constructor|]. intros S h s fuel _.
    destruct fuel; cbn [heap_loop]; fold lt; by rewrite (proj2 (pop_none _ lt []) eq_refl).
Qed.

(** [order]: each of the two ways sorts. *)
Lemma Order_sorts g xs : yields g xs -> exists l l', l ≡ₚ xs /\ ordered l /\ l' ≡ₚ xs /\ ordered l' /\
  (forall S (h : A -> M S bool) s, apply (Order selector comparer g) h s = apply_all h l s) /\
  (forall S (body : A -> M S unit) s, foreach (Order selector comparer g) body s = foreach_all body l' s).
Proof.
  intros Hg. destruct (heap_loop_sorted xs) as (l & Hp & Ho & Hh). exists l, (sort (fun a b => comparer (selector a) (selector b)) xs).
  split_and!; [done|done|apply sort_items|apply sort_ordered, weak_order_key| |].
  - intros S h s. simpl. rewrite bind_run, (Collect_exact g xs Hg). by apply Hh.
  - intros S body s. simpl. unfold asVector. rewrite !bind_run, (Collect_exact g xs Hg). done.
Qed.
End Sorted.

Section Grouping.
Context {A K : Type} `{EqDecision K} (selector : A -> K).

(** The group of a key. *)
Fixpoint group_of (key : K) (groups : list (K * list A)) : list A :=
  match groups with [] => [] | (k, vs) :: rest => if decide (k = key) then vs else group_of key rest end.

Lemma push_group_of (k : K) (v : A) groups key : group_of key (push_group k v groups) = group_of key groups ++ (if decide (k = key) then [v] else []).
Proof.
  induction groups as [|[k' vs] groups IH]; simpl; [by case_decide|]. destruct (decide (k' = k)) as [->|]; simpl.
  - destruct (decide (k = key)); [done|]. by rewrite app_nil_r.
  - destruct (decide (k' = key)) as [->|]; [|done]. by rewrite decide_False, app_nil_r by done.
Qed.

Lemma push_group_keys (k : K) (v : A) groups : (push_group k v groups).*1 = if decide (k ∈ groups.*1) then groups.*1 else groups.*1 ++ [k].
Proof.
  induction groups as [|[k' vs] groups IH]; [done|]. cbn [push_group]. rewrite fmap_cons. cbn [fst].
  destruct (decide (k' = k)) as [->|Hne]; rewrite fmap_cons; cbn [fst].
  - rewrite decide_True by (by left). done.
  - rewrite IH. destruct (decide (k ∈ groups.*1)); [rewrite decide_True by (by right); done|].
    rewrite decide_False; [done|]. rewrite elem_of_cons. intros [?|?]; congruence.
Qed.

Lemma group_member (groups : list (K * list A)) k vs : NoDup groups.*1 -> (k, vs) ∈ groups -> group_of k groups = vs.
Proof.
  induction groups as [|[k' vs'] groups IH]; intros Hnd Hin; [by apply elem_of_nil in Hin|]. simpl in *. apply NoDup_cons in Hnd as [Hn Hnd].
  apply elem_of_cons in Hin as [[= -> ->]|Hin]; [by rewrite decide_True|]. rewrite decide_False; [by apply IH|].
  intros ->. apply Hn. by apply (list_elem_of_fmap_2 fst) in Hin.
Qed.

(** [groupBy]: each key of the values once, with all the values that have it in
    their order. *)
Lemma GroupBy_groups order g xs : (forall groups, order groups ≡ₚ groups) -> yields g xs ->
  exists groups, yields (GroupBy order selector g) groups /\ NoDup groups.*1 /\
    (forall k, k ∈ groups.*1 <-> exists x, x ∈ xs /\ selector x = k) /\
    (forall k vs, (k, vs) ∈ groups -> vs = filter (fun x => selector x = k) xs).
Proof.
  intros Hord Hg. set (groups := fold_left (fun gs v => push_group (selector v) v gs) xs []). exists (order groups).
  assert (H : NoDup groups.*1 /\ (forall k, k ∈ groups.*1 <-> exists x, x ∈ xs /\ selector x = k) /\
    (forall k, group_of k groups = filter (fun x => selector x = k) xs)).
  { subst groups. clear. induction xs as [|x l IH] using rev_ind; simpl.
    - split; [apply NoDup_nil_2|]. split; [|done]. intros k. split; [by intros ?%elem_of_nil|by intros (x & ?%elem_of_nil & _)].
    - rewrite fold_left_app. simpl. set (gs := fold_left _ l []) in *. destruct IH as (IH1 & IH2 & IH3). rewrite push_group_keys. split_and!.
      + case_decide; [done|]. apply NoDup_app. split_and!; [done| |apply NoDup_singleton].
        by intros k Hk ->%list_elem_of_singleton.
      + intros k. transitivity (k ∈ gs.*1 \/ k = selector x).
        * case_decide as Hd; [split; [by left|by intros [?| ->]]|]. by rewrite elem_of_app, list_elem_of_singleton.
        * rewrite IH2. split.
          -- intros [(y & Hy & <-)| ->]; [exists y|exists x]; (split; [|done]); apply elem_of_app; [by left|right; by apply list_elem_of_singleton].
          -- intros (y & [Hy| ->%list_elem_of_singleton]%elem_of_app & <-); [left; by exists y|by right].
      + intros k. rewrite push_group_of, IH3, filter_app. by f_equal. }
  destruct H as (Hnd & Hkeys & Hvals). split_and!.
  - apply yields_impl. intros S h s. rewrite (local_foreach g xs Hg), bind_run, (local_fold (fun gs v => push_group (selector v) v gs)). done.
  - by rewrite Hord.
  - intros k. rewrite Hord. apply Hkeys.
  - intros k vs Hin. rewrite Hord in Hin. rewrite <- Hvals. symmetry. by apply group_member.
Qed.
End Grouping.

(** ** Claims *)

(** C5: a well-formed pipeline is its function on lists. Passing the values of a
    pipeline (of containers, ranges and sequences of machine integers, an infinite
    sequence directly under [take], chain, map, filter, until, take, skip, stride,
    distinct, batch, concat, dereference, finite cycle, zip, interleave, yield) to a
    handler does what a loop over the list of its values does: the same calls in the
    same order up to the first that answers false or throws, with the handler's
    effects, and the same answer. Well-formed excludes, because [apply] then breaks
    its contract or overflows (the examples at the end of the file): take(0), first of 0
    values, a non-zero cycle of nothing, zip or interleave with a container shorter
    than the source, stride(0), stride(2^64-1), batch(0), steps that are not positive and
    sequences whose steps go past the greatest value of their type. Cycle without a limit or
    with a negative one, [guard] and other infinite sources are outside. *)
Theorem pipelines_exact {A} (p : pipe A) : well_formed p ->
  (forall S (h : A -> M S bool) s, apply (build p) h s = apply_all h (values p) s) /\
  (forall S (body : A -> M S unit) s, foreach (build p) body s = foreach_all body (values p) s).
Proof. apply build_yields. Qed.

(** The squares of the even numbers from 1 on, in pairs, up to the third pair. *)
Lemma pipelines_exact_witness :
  values (PTake 2 (PBatch 2 (PMap (fun x => x * x) (PFilter Z.even (PRange (mkInt 32 true) 1 12 1))))) = [[4; 16]; [36; 64]] /\
  foreach (build (PTake 2 (PBatch 2 (PMap (fun x => x * x) (PFilter Z.even (PRange (mkInt 32 true) 1 12 1))))))
    (fun v => modify (fun out => out ++ v)) [] = Ok tt [4; 16; 36; 64].
Proof.
  split; [reflexivity|]. destruct (pipelines_exact (PTake 2 (PBatch 2 (PMap (fun x => x * x) (PFilter Z.even (PRange (mkInt 32 true) 1 12 1)))))) as [_ H].
  - split; [lia|]. split; [lia|]. split_and!; [reflexivity|reflexivity|split; discriminate|discriminate].
  - rewrite H. reflexivity.
Defined.

(** C40: the sinks aggregate. On a well-formed pipeline (as in C5: no take(0), no
    cycle of nothing, no zip or interleave with a shorter container, sequences that
    end before the greatest value of their type; on the first ones [contains] would
    answer true, see the examples below), [foldl], [first], [isEmpty], [reduce], [count] of
    fewer than 2^64 values, [contains], [any], [all], [as] and [appendTo] return what
    their names say of the list of its values, without any other effect; [min], for
    a comparer that is a weak order, gives the first of the values with the least
    key; [order], in both of its methods, a sorted permutation, given a library
    that sorts; and [groupBy] each key once with its values in order, the groups in
    an order that is the hash map's. *)
Theorem sinks_exact `{Sorting} {A} (p : pipe A) {S} (s : S) : well_formed p ->
  (forall B seed (f : B -> A -> B), FoldLeft seed f (build p) s = Ok (fold_left f (values p) seed) s) /\
  First (build p) s = Ok (head (values p)) s /\
  (forall e, IsEmpty e (build p) s = Ok (match values p with [] => e | _ => negb e end) s) /\
  (forall f, Reduce f (build p) s = Ok (match values p with [] => None | x :: l => Some (fold_left f l x) end) s) /\
  (zlen (values p) < 2 ^ 64 -> Count (build p) s = Ok (zlen (values p)) s) /\
  (forall (dec : EqDecision A) x, Contains x (build p) s = Ok (bool_decide (x ∈ values p)) s) /\
  (forall f, Any f (build p) s = Ok (existsb f (values p)) s /\ All f (build p) s = Ok (forallb f (values p)) s) /\
  Collect (build p) s = Ok (values p) s /\ (forall c, Append (build p) c = Ok tt (c ++ values p)) /\
  (forall K (selector : A -> K) comparer, weak_order comparer ->
     (exists r, Min selector comparer (build p) s = Ok r s /\ match r with
        | None => values p = []
        | Some v => exists l1 l2, values p = l1 ++ v :: l2 /\ (forall x, x ∈ l1 -> comparer (selector v) (selector x) = true) /\
            (forall x, x ∈ values p -> comparer (selector x) (selector v) = false) end) /\
     exists l l', l ≡ₚ values p /\ ordered selector comparer l /\ l' ≡ₚ values p /\ ordered selector comparer l' /\
       (forall h, apply (Order selector comparer (build p)) h s = apply_all h l s) /\
       (forall body, foreach (Order selector comparer (build p)) body s = foreach_all body l' s)) /\
  (forall K (dec : EqDecision K) (selector : A -> K) order, (forall groups, order groups ≡ₚ groups) ->
     exists groups, yields (GroupBy order selector (build p)) groups /\ NoDup groups.*1 /\
       (forall k, k ∈ groups.*1 <-> exists x, x ∈ values p /\ selector x = k) /\
       (forall k vs, (k, vs) ∈ groups -> vs = filter (fun x => selector x = k) (values p))).
Proof.
  intros Hw. pose proof (build_yields p Hw) as Hg. split_and!.
  - intros. by apply FoldLeft_exact.
  - by apply First_exact.
  - intros. by apply IsEmpty_exact.
  - intros. by apply Reduce_exact.
  - by apply Count_exact.
  - intros. by apply Contains_exact.
  - intros f. unfold Any, All. rewrite !(IsEmpty_exact _ _ (Filter_yields _ _ Hg _)). clear. split; f_equal; induction (values p) as [|x l IH];
      simpl; try done; rewrite filter_cons; destruct (f x); simpl; done || apply IH.
  - by apply Collect_exact.
  - intros. by apply Append_exact.
  - intros K selector comparer Hc. split; [by apply Min_exact|].
    destruct (Order_sorts selector comparer Hc (build p) (values p) Hg) as (l & l' & H1 & H2 & H3 & H4 & H5 & H6). exists l, l'. split_and!; auto.
  - intros. by apply GroupBy_groups.
Qed.

(** ** A sorting library: merge sort, and a search for the greatest element *)

Section SampleSorting.
Context {A : Type} (lt : A -> A -> bool).

Definition not_after (x y : A) : Prop := lt y x = false.
#[local] Instance not_after_dec x y : Decision (not_after x y).
Proof. unfold not_after. apply _. Defined.

Definition sample_sort : list A -> list A := merge_sort not_after.

Fixpoint sample_pop (l : list A) : option (A * list A) :=
  match l with
  | [] => None
  | x :: l => match sample_pop l with None => Some (x, []) | Some (y, r) => if lt x y then Some (y, x :: r) else Some (x, y :: r) end
  end.

Lemma sample_sort_items l : sample_sort l ≡ₚ l.
Proof. apply merge_sort_Permutation. Qed.

Lemma sample_sort_ordered l : weak_order lt -> StronglySorted (fun x y => lt y x = false) (sample_sort l).
Proof.
  intros (H1 & H2 & H3).
  assert (Transitive not_after) by (intros x y z Hx Hy; unfold not_after in *; by eapply H3).
  assert (Total not_after).
  { intros x y. unfold not_after. destruct (lt y x) eqn:E1; [|by left]. destruct (lt x y) eqn:E2; [|by right].
    pose proof (H2 _ _ _ E1 E2) as E. by rewrite H1 in E. }
  apply (StronglySorted_merge_sort not_after).
Qed.

Lemma sample_pop_none l : sample_pop l = None <-> l = [].
Proof. destruct l as [|x l]; [done|]. simpl. split; [|done]. destruct (sample_pop l) as [[y r]|]; [by destruct (lt x y)|done]. Qed.

Lemma sample_pop_items l x r : sample_pop l = Some (x, r) -> l ≡ₚ x :: r.
Proof.
  revert x r. induction l as [|y l IH]; intros x r; [done|]. simpl. destruct (sample_pop l) as [[z r']|] eqn:E.
  - specialize (IH z r' eq_refl). destruct (lt y z); intros [= -> <-]; rewrite IH; [apply Permutation_swap|done].
  - apply sample_pop_none in E as ->. by intros [= -> <-].
Qed.

Lemma sample_pop_ordered l x r : weak_order lt -> sample_pop l = Some (x, r) -> Forall (fun y => lt x y = false) r.
Proof.
  intros (H1 & H2 & H3). revert x r. induction l as [|y l IH]; intros x r; [done|]. simpl. destruct (sample_pop l) as [[z r']|] eqn:E.
  - specialize (IH z r' eq_refl). destruct (lt y z) eqn:Ez; intros [= -> <-].
    + constructor; [|done]. destruct (lt x y) eqn:Ey; [|done]. pose proof (H2 _ _ _ Ez Ey) as Ex. by rewrite H1 in Ex.
    + constructor; [done|]. eapply Forall_impl; [exact IH|]. intros w Hw. by eapply H3.
  - by intros [= -> <-].
Qed.
End SampleSorting.

Definition sample_sorting : Sorting := {|
  sort := @sample_sort; sort_items := @sample_sort_items; sort_ordered := @sample_sort_ordered;
  pop_greatest := @sample_pop; pop_none := @sample_pop_none; pop_items := @sample_pop_items; pop_ordered := @sample_pop_ordered |}.

(** The numbers 3, 1, 2, 1. *)
Lemma sinks_exact_witness :
  First (build (PFrom [3; 1; 2; 1])) tt = Ok (Some 3) tt /\ Contains 2 (build (PFrom [3; 1; 2; 1])) tt = Ok true tt /\
  FoldLeft 0 Z.add (build (PFrom [3; 1; 2; 1])) tt = Ok 7 tt.
Proof.
  destruct (sinks_exact (H := sample_sorting) (PFrom [3; 1; 2; 1]) tt I) as (H1 & H2 & _ & _ & _ & H3 & _).
  split; [exact H2|]. split; [rewrite H3; reflexivity|]. rewrite H1. reflexivity.
Defined.

(** ** Where [apply] answers false although the handler did not

    [take(0)], a [zip] whose container is exhausted and a [cycle] of nothing answer
    false; [contains] and [+] take that for the answer of the handler. *)

Example contained_in_nothing : Contains 5 (Take 0 (ReferencedSource [1; 2])) tt = Ok true tt.
Proof. reflexivity. Qed.

Example chain_after_nothing : First (Chain (Take 0 (ReferencedSource [1; 2])) (ReferencedSource [3])) tt = Ok None tt.
Proof. reflexivity. Qed.

Example contained_in_zip : Contains (7, 7) (Zip [1] (ReferencedSource [1; 2])) tt = Ok true tt.
Proof. reflexivity. Qed.

Example chain_after_empty_cycle : First (Chain (Cycle 2 (Some 2) (ReferencedSource [])) (ReferencedSource [3])) tt = Ok None tt.
Proof. reflexivity. Qed.

(** [guard] goes on when the handler answers false: [first] gives the last value. *)
Example first_after_guard : First (GuardImpl (fun _ => true) (fun _ _ => inl true) (ReferencedSource [1; 2; 3])) tt = Ok (Some 3) tt.
Proof. reflexivity. Qed.

(** A sequence up to the greatest value of its type overflows, or does not end. *)
Example seq_to_the_greatest :
  Collect (Sequence 10 2147483646 (SeqImpl (mkInt 32 true) 2147483647)) tt = Fault "signed overflow" /\
  Collect (Sequence 1000 254 (SeqImpl (mkInt 8 false) 255)) tt = OutOfFuel.
Proof. split; vm_compute; reflexivity. Qed.
