(* ===== verification/GenString.v ===== *)
(** * gen: splitting streams of text

    [src/accelerator/gen/String-inl.h]: [splitPrefix], [StreamSplitter], [resplit],
    [split], [lines] and [unsplit].  Pieces of text are lists of characters; the
    buffer of a [StreamSplitter], an [IOBuf] that is only cleared, extended at its
    end and read, is its bytes, and lies beside the state of the callback; its
    allocations are taken to succeed ([reserve] may throw [bad_alloc]). *)

From stdpp Require Import base list strings.
From S2P Require Import Prelude Conv Gen GenSpec Range RangeOps StringSplit.

(** ** Prefixes *)

(** A character, a string, or [MixedNewlines]. *)
Inductive Separator := ByDelim (d : Delim) | MixedNewlines.

Definition CR : Z := 13.
Definition LF : Z := 10.

(** On [in]; the results are [prefix] and the length of the delimiter. *)
Definition splitPrefix (sep : Separator) : RangeM (list Z * Z) :=
  match sep with
  | ByDelim d =>
      found ← find_delim d;
      match found with
      | Some found =>
          let found := found + delimSize d in
          in_ ← get;
          advance_ found;;
          mret (take (Z.to_nat found) in_, delimSize d)
      | None => mret ([], 0)
      end
  | MixedNewlines =>
      in_ ← get;
      match qfind_first_of asciiCaseSensitive in_ [CR; LF] with
      | Some p =>
          advance_ p;;
          b ← removePrefix [CR; LF];
          delim_len ← (if b : bool then mret 2 else advance_ 1;; mret 1);
          rest ← get;
          mret (take (length in_ - length rest) in_, delim_len)
      | None => mret ([], 0)
      end
  end.

(** A method of a piece that is a variable: its result and the piece after it. *)
Definition on_piece {S A} (m : RangeM A) (piece : list Z) : M S (A * list Z) := fun s =>
  match m piece with
  | Ok a piece => Ok (a, piece) s
  | Throw e _ => Throw e s
  | Fault why => Fault why
  | OutOfFuel => OutOfFuel
  end.

(** ** StreamSplitter *)

Section Splitter.
Context {S : Type} (pieceCb : list Z -> M S bool) (delimiter maxLength : Z).

Definition consumeFixedSizeChunks (s : list Z) : M S bool :=
  iter (Datatypes.S (length s)) (fun s =>
    if decide (s = []) then mret (inr true) else
    let num_to_add := if decide (maxLength <> 0) then Z.min (zlen s) maxLength else zlen s in
    b ← pieceCb (take (Z.to_nat num_to_add) s);
    if negb b then mret (inr false) else
    '(_, s) ← on_piece (advance_ num_to_add) s; mret (inl s)) s.

(** The answer of the callback, and what is left of [s]. *)
Definition consumeBufferPlus (s : list Z) (n : Z) : M (S * list Z) (bool * list Z) :=
  assert (bool_decide (0 <= n <= zlen s)) "memcpy";;
  buf ← load;
  let buf := buf ++ take (Z.to_nat n) s in
  store buf;;
  '(_, s) ← on_piece (advance_ n) s;
  b ← outer (pieceCb buf);
  if negb b then mret (false, s) else store [];; mret (true, s).

Definition check_length : M (S * list Z) unit :=
  buffer ← load; assert (bool_decide (maxLength = 0 \/ zlen buffer < maxLength)) "ACCCHECK".

Definition splitter_flush : M (S * list Z) bool :=
  check_length;;
  buffer ← load;
  b ← outer (pieceCb buffer);
  if negb b then mret false else store [];; mret true.

Definition split_in (in_ : list Z) : M (S * list Z) (list Z * bool * list Z) :=
  '((prefix, found), in_) ← on_piece (splitPrefix (ByDelim (DChar delimiter))) in_;
  mret (prefix, bool_decide (found <> 0), in_).

(** What is done first when the buffer is not empty: [None] when the callback
    answered false, or else [prefix], [found] and [in]. *)
Definition splitter_buffered (prefix : list Z) (found : bool) (in_ : list Z) : M (S * list Z) (option (list Z * bool * list Z)) :=
  buffer ← load;
  if found then
    num_to_add ← (if decide (maxLength <> 0) then
        assert (bool_decide (zlen buffer < maxLength)) "ACCCHECK_LT";;
        mret (Z.min (maxLength - zlen buffer) (zlen prefix))
      else mret (zlen prefix));
    '(b, prefix) ← consumeBufferPlus prefix num_to_add;
    if negb b then mret None else
    b ← outer (consumeFixedSizeChunks prefix);
    if negb b then mret None else
    r ← split_in in_; mret (Some r)
  else if decide (maxLength <> 0 /\ u64 (zlen buffer + zlen in_) >= maxLength) then
    '(b, in_) ← consumeBufferPlus in_ (u64 (maxLength - zlen buffer));
    if negb b then mret None else mret (Some (prefix, false, in_))
  else mret (Some (prefix, false, in_)).

(** [while (found)] *)
Definition splitter_lines (prefix : list Z) (found : bool) (in_ : list Z) : M (S * list Z) (option (list Z)) :=
  iter (Datatypes.S (Datatypes.S (length in_))) (fun '(prefix, found, in_) =>
    if found : bool then
      b ← outer (consumeFixedSizeChunks prefix);
      if negb b then mret (inr None) else
      r ← split_in in_; mret (inl r)
    else mret (inr (Some in_))) (prefix, found, in_).

(** [while (in.size() >= maxLength_)] *)
Definition splitter_long (in_ : list Z) : M (S * list Z) (option (list Z)) :=
  iter (Datatypes.S (length in_)) (fun in_ =>
    if decide (zlen in_ >= maxLength) then
      b ← outer (pieceCb (take (Z.to_nat maxLength) in_));
      if negb b then mret (inr None) else
      '(_, in_) ← on_piece (advance_ maxLength) in_; mret (inl in_)
    else mret (inr (Some in_))) in_.

(** After the last delimiter. *)
Definition splitter_rest (in_ : list Z) : M (S * list Z) bool :=
  rest ← (if decide (maxLength <> 0) then splitter_long in_ else mret (Some in_));
  match rest with
  | None => mret false
  | Some in_ =>
      (if decide (in_ <> []) then buffer ← load; store (buffer ++ in_) else mret tt);;
      check_length;;
      mret true
  end.

(** The rest of the call: without the buffer, as far as there are pieces. *)
Definition splitter_direct (prefix : list Z) (found : bool) (in_ : list Z) : M (S * list Z) bool :=
  rest ← splitter_lines prefix found in_;
  match rest with
  | None => mret false
  | Some in_ => splitter_rest in_
  end.

Definition splitter_call (in_ : list Z) : M (S * list Z) bool :=
  '(prefix, found, in_) ← split_in in_;
  buffer ← load;
  first ← (if decide (buffer <> []) then splitter_buffered prefix found in_ else mret (Some (prefix, found, in_)));
  match first with
  | None => mret false
  | Some (prefix, found, in_) => splitter_direct prefix found in_
  end.
End Splitter.

(** ** Generators *)

(** The third argument of [streamSplitter] is 0 here. *)
Definition StringResplitter (delimiter : Z) (source : Gen (list Z)) : Gen (list Z) :=
  GenImpl (fun S body =>
    let pieceCb s :=
      match last s with
      | None => mret true
      | Some back => if decide (back <> delimiter) then body s else body (removelast s)
      end in
    '(r, _) ← local [] (
      b ← apply source (splitter_call pieceCb delimiter 0);
      if negb b then mret false else splitter_flush pieceCb 0);
    mret r).

Definition SplitStringSource (source : list Z) (sep : Separator) : Gen (list Z) :=
  GenImpl (fun S body =>
    r ← iter (Datatypes.S (length source)) (fun rest =>
      '((prefix, delim_len), rest) ← on_piece (splitPrefix sep) rest;
      if decide (delim_len = 0) then mret (inr (Some rest)) else
      '(_, prefix) ← on_piece (subtract delim_len) prefix;
      b ← body prefix;
      if negb b then mret (inr None) else mret (inl rest)) source;
    match r with
    | None => mret false
    | Some rest => if decide (rest <> []) then b ← body rest; if negb b then mret false else mret true else mret true
    end).

(** Into a string; the tokens are strings, which [toAppend] appends as they are. *)
Definition unsplit_body {S} (delimiter : Delim) (v : list Z) : M (S * (list Z * bool)) unit :=
  '(out, skipDelim) ← load;
  if skipDelim : bool then store (out ++ v, false) else store (out ++ delim_text delimiter ++ v, false).

Definition UnsplitBuffer {S} (delimiter : Delim) (source : Gen (list Z)) (outputBuffer : list Z) : M S (list Z) :=
  '(_, st) ← local (outputBuffer, bool_decide (outputBuffer = [])) (foreach source (unsplit_body delimiter)); mret st.1.

Definition Unsplit {S} (delimiter : Delim) (source : Gen (list Z)) : M S (list Z) := UnsplitBuffer delimiter source [].

(** ** The reference: cutting a text

    A piece ends after a delimiter, or when it has [max] characters; [acc] is the
    piece that has begun. The result is the complete pieces and the last one. *)

Section Cut.
Context (c max : Z).

Fixpoint cut (acc t : list Z) : list (list Z) * list Z :=
  match t with
  | [] => ([], acc)
  | x :: t =>
      let acc := acc ++ [x] in
      if decide (x = c \/ zlen acc = max) then (acc :: (cut [] t).1, (cut [] t).2) else cut acc t
  end.

(** Where a text is cut into parts does not matter. *)
Lemma cut_app acc t t' :
  cut acc (t ++ t') = ((cut acc t).1 ++ (cut (cut acc t).2 t').1, (cut (cut acc t).2 t').2).
Proof.
  revert acc. induction t as [|x t IH]; intros acc; simpl; [by destruct (cut acc t')|].
  destruct (decide _); [|apply IH]. by rewrite IH.
Qed.

(** Nothing is lost. *)
Lemma cut_all acc t : concat ((cut acc t).1) ++ ((cut acc t).2) = acc ++ t.
Proof.
  revert acc. induction t as [|x t IH]; intros acc; simpl; [by rewrite app_nil_r|].
  destruct (decide _); simpl; [|by rewrite IH, <- app_assoc]. rewrite <- app_assoc, IH. simpl. by rewrite <- app_assoc.
Qed.

Definition open_piece (acc : list Z) : Prop := (c ∉ acc) /\ (max = 0 \/ zlen acc < max).

Lemma open_nil : 0 <= max -> open_piece [].
Proof. intros. split; [apply not_elem_of_nil|]. change (zlen (@nil Z)) with 0. lia. Qed.

Lemma cut_open acc t : 0 <= max -> open_piece acc -> open_piece (cut acc t).2.
Proof.
  intros Hm. revert acc. induction t as [|x t IH]; intros acc Ha; simpl; [done|]. destruct (decide _) as [|Hx]; [apply IH, open_nil, Hm|].
  apply IH. destruct Ha as [Hc Hl]. split; [|destruct Hl as [?|Hl]; [by left|right; rewrite zlen_app in *; change (zlen [x]) with 1 in *; lia]].
  rewrite elem_of_app, list_elem_of_singleton. intros [?|?]; [done|]. apply Hx. by left.
Qed.

(** What becomes of a run without a delimiter. *)
Lemma cut_keep acc p : open_piece (acc ++ p) -> cut acc p = ([], acc ++ p).
Proof.
  revert acc. induction p as [|x p IH]; intros acc [Hc Hl]; simpl; [by rewrite app_nil_r|].
  pose proof (zlen_nonneg p). pose proof (zlen_nonneg acc). assert (E : zlen (x :: p) = 1 + zlen p) by (unfold zlen; simpl; lia).
  assert (E' : zlen (acc ++ [x]) = zlen acc + 1) by apply zlen_app. rewrite zlen_app in Hl.
  rewrite decide_False; [|intros [->| ?]; [apply Hc, elem_of_app; right; left|lia]]. rewrite IH, <- app_assoc; [done|].
  rewrite <- app_assoc. split; [done|]. simpl. rewrite zlen_app. lia.
Qed.

Lemma cut_emit acc p x t : open_piece (acc ++ p) -> x = c \/ zlen (acc ++ p ++ [x]) = max ->
  cut acc (p ++ x :: t) = ((acc ++ p ++ [x]) :: (cut [] t).1, (cut [] t).2).
Proof.
  intros Ho Hx. rewrite cut_app, (cut_keep _ _ Ho). simpl. by rewrite <- app_assoc, decide_True.
Qed.

(** A run that completes a piece of the greatest length. *)
Lemma cut_full acc p t : open_piece (acc ++ take (length p - 1) p) -> p <> [] -> zlen (acc ++ p) = max ->
  cut acc (p ++ t) = ((acc ++ p) :: (cut [] t).1, (cut [] t).2).
Proof.
  intros Ho Hp Hl. destruct p as [|x p _] using rev_ind; [done|]. rewrite <- app_assoc. simpl app. apply cut_emit; [|by right].
  rewrite length_app, take_app_le, take_ge in Ho by (simpl; lia). done.
Qed.

Lemma open_full acc p : (c ∉ acc) -> (c ∉ p) -> p <> [] -> zlen (acc ++ p) = max -> open_piece (acc ++ take (length p - 1) p).
Proof.
  intros Ha Hc Hp Hl. split.
  - rewrite elem_of_app. intros [?|Hin]; [done|]. apply Hc. rewrite <- (take_drop (length p - 1) p), elem_of_app. by left.
  - right. rewrite zlen_app in *. unfold zlen in *. rewrite length_take. destruct p; [done|]. simpl in *. lia.
Qed.
End Cut.

(** ** The splitter delivers the pieces of the reference *)

(** [r] is the run of something that gives pieces to the callback, [r'] the answer
    of the callback to all of them: when it accepts them the result is [go] and the
    buffer [rest]; the buffer is of no use after it refused one. *)
Definition agrees {S A} (stop : A -> Prop) (r : res (S * list Z) A) (r' : res S bool) (go : A) (rest : list Z) : Prop :=
  match r' with
  | Ok true s => r = Ok go (s, rest)
  | Ok false s => exists a b, stop a /\ r = Ok a (s, b)
  | Throw e s => exists b, r = Throw e (s, b)
  | Fault w => r = Fault w
  | OutOfFuel => r = OutOfFuel
  end.

Section Agrees.
Context {S : Type} (cb : list Z -> M S bool).

Lemma agrees_ret {A} (stop : A -> Prop) go (s : S) b : agrees stop (Ok go (s, b)) (apply_all cb [] s) go b.
Proof. done. Qed.

Lemma agrees_bind {A B} (stop : A -> Prop) (stop' : B -> Prop) (m : M (S * list Z) A) (f : A -> M (S * list Z) B) s b ps ps' go rest go' rest' :
  agrees stop (m (s, b)) (apply_all cb ps s) go rest ->
  (forall a st, stop a -> exists a', stop' a' /\ f a st = Ok a' st) ->
  (forall s, agrees stop' (f go (s, rest)) (apply_all cb ps' s) go' rest') ->
  agrees stop' ((m ≫= f) (s, b)) (apply_all cb (ps ++ ps') s) go' rest'.
Proof.
  intros Hm Hstop Hf. rewrite bind_run, apply_all_app. destruct (apply_all cb ps s) as [[] s1|e s1|w|]; simpl in Hm.
  - rewrite Hm. apply Hf.
  - destruct Hm as (a & b' & Ha & ->). destruct (Hstop a (s1, b') Ha) as (a' & ? & ->). by exists a', b'.
  - destruct Hm as (b' & ->). by exists b'.
  - by rewrite Hm.
  - by rewrite Hm.
Qed.

(** A computation without a call. *)
Lemma agrees_pure {A B} (stop : B -> Prop) (m : M (S * list Z) A) (f : A -> M (S * list Z) B) st a st' r' go rest :
  m st = Ok a st' -> agrees stop (f a st') r' go rest -> agrees stop ((m ≫= f) st) r' go rest.
Proof. intros Hm Hf. by rewrite bind_run, Hm. Qed.

Lemma agrees_outer (m : M S bool) s b ps : m s = apply_all cb ps s -> agrees (eq false) (outer m (s, b)) (apply_all cb ps s) true b.
Proof.
  intros E. unfold outer. rewrite <- E. destruct (m s) as [[]| | |]; simpl; try done; [|by exists b]. by exists false, b.
Qed.
End Agrees.

Lemma stop_false {S} (f : bool -> M (S * list Z) bool) : (forall st, f false st = Ok false st) ->
  forall a st, false = a -> exists a', false = a' /\ f a st = Ok a' st.
Proof. intros H a st <-. by exists false. Qed.

(** The first delimiter. *)
Lemma split_in_run {S} c (in_ : list Z) :
  ((c ∉ in_) /\ forall st : S * list Z, split_in c in_ st = Ok ([], false, in_) st) \/
  exists p t, in_ = p ++ c :: t /\ (c ∉ p) /\ forall st : S * list Z, split_in c in_ st = Ok (p ++ [c], true, t) st.
Proof.
  assert (E : find_delim (DChar c) in_ = Ok (Z.of_nat <$> first_match [c] in_) in_) by (apply find_delim_run; done).
  destruct (first_match [c] in_) as [i|] eqn:Hi.
  - right. destruct (first_match_some _ _ _ Hi) as [Hm Hno]. pose proof (match_at_fits _ _ _ Hm ltac:(done)) as Hl. simpl in Hl.
    exists (take i in_), (drop (i + 1) in_). assert (Hs : in_ = take i in_ ++ c :: drop (i + 1) in_).
    { rewrite <- (take_drop i in_) at 1. f_equal. rewrite <- (take_drop 1 (drop i in_)), drop_drop. unfold match_at in Hm. simpl in Hm. by rewrite Hm. }
    split; [done|]. split.
    + intros (k & Hk)%list_elem_of_lookup. pose proof (lookup_lt_Some _ _ _ Hk) as Hlt. rewrite length_take in Hlt.
      rewrite lookup_take_lt in Hk by lia. apply (Hno k ltac:(lia)). unfold match_at. simpl. by rewrite (drop_S _ _ _ Hk), firstn_cons, take_0.
    + intros st. unfold split_in, splitPrefix, on_piece. rewrite !bind_run, E. cbn [fmap option_fmap option_map delimSize]. rewrite bind_run. cbn. unfold advance_. rewrite !bind_run. cbn.
      rewrite decide_False by (unfold zlen; lia). cbn. replace (Z.to_nat (Z.of_nat i + 1)) with (i + 1)%nat by lia.
      f_equal. f_equal. f_equal. rewrite Hs at 1. rewrite take_app, length_take, take_ge by (rewrite length_take; lia).
      replace (i + 1 - i `min` length in_)%nat with 1%nat by lia. done.
  - left. split; [|intros st; unfold split_in, splitPrefix, on_piece; by rewrite !bind_run, E]. intros (k & Hk)%list_elem_of_lookup. apply (first_match_none [c] in_ ltac:(done) Hi k).
    unfold match_at. simpl. by rewrite (drop_S _ _ _ Hk), firstn_cons, take_0.
Qed.

Lemma advance_run {S} n (p : list Z) (st : S) : n <= zlen p -> on_piece (advance_ n) p st = Ok (tt, drop (Z.to_nat n) p) st.
Proof. intros Hn. unfold on_piece, advance_. rewrite bind_run. cbn. by rewrite decide_False by lia. Qed.

Lemma iter_run {S A B} fuel (body : A -> M S (A + B)) a s : iter (Datatypes.S fuel) body a s =
  match body a s with
  | Ok (inl a) s => iter fuel body a s | Ok (inr b) s => Ok b s | Throw e s => Throw e s | Fault w => Fault w | OutOfFuel => OutOfFuel
  end.
Proof. cbn [iter]. unfold bind. by destruct (body a s) as [[]| | |]. Qed.

Section Stages.
Context {S : Type} (cb : list Z -> M S bool) (c max : Z) (Hmax : 0 <= max).
Implicit Types (s : S) (p t : list Z).

(** A line is a run without a delimiter and a delimiter. *)
Lemma cut_line p : (c ∉ p) -> (cut c max [] (p ++ [c])).2 = [].
Proof. intros _. rewrite cut_app. simpl. by rewrite decide_True by auto. Qed.

Lemma open_short p : (c ∉ p) -> max = 0 \/ zlen p < max -> open_piece c max p.
Proof. done. Qed.

Lemma chunks_loop fuel p s : (c ∉ p) -> (length p + 1 < fuel)%nat ->
  iter fuel (fun p =>
    if decide (p = []) then mret (inr true) else
    let num_to_add := if decide (max <> 0) then Z.min (zlen p) max else zlen p in
    b ← cb (take (Z.to_nat num_to_add) p);
    if negb b then mret (inr false) else
    '(_, p) ← on_piece (advance_ num_to_add) p; mret (inl p)) (p ++ [c]) s = apply_all cb (cut c max [] (p ++ [c])).1 s.
Proof.
  revert p s. induction fuel as [|fuel IH]; intros p s Hc Hf; [lia|]. rewrite iter_run, decide_False by (by destruct p). cbv zeta.
  assert (Hl : zlen (p ++ [c]) = zlen p + 1) by apply zlen_app. rewrite bind_run. destruct (decide (max = 0 \/ zlen p < max)) as [Hshort|Hlong].
  - replace (if decide (max <> 0) then Z.min (zlen (p ++ [c])) max else zlen (p ++ [c])) with (zlen (p ++ [c])) by (case_decide; lia).
    rewrite (cut_emit c max [] p c []) by (auto; by apply open_short). cbn [fst app cut].
    rewrite apply_all_cons. replace (Z.to_nat (zlen (p ++ [c]))) with (length (p ++ [c])) by (unfold zlen; lia). rewrite take_ge by lia.
    destruct (cb (p ++ [c]) s) as [[] s'| | |]; try done. cbn [negb]. rewrite bind_run, advance_run by lia.
    replace (Z.to_nat (zlen (p ++ [c]))) with (length (p ++ [c])) by (unfold zlen; lia). rewrite drop_ge by lia. destruct fuel; [lia|]. done.
  - rewrite decide_True by lia. rewrite Z.min_r by lia. pose proof (zlen_nonneg p). unfold zlen in *.
    rewrite take_app_le by lia. rewrite <- (take_drop (Z.to_nat max) p) at 2. rewrite <- app_assoc.
    assert (Hq : exists q x, take (Z.to_nat max) p = q ++ [x]).
    { destruct (take (Z.to_nat max) p) as [|y l] eqn:E using rev_ind; [|by exists l, y]. apply (f_equal length) in E. rewrite length_take in E. simpl in E. lia. }
    destruct Hq as (q & x & Eq). rewrite Eq.
    assert (Hlen : length (q ++ [x]) = Z.to_nat max) by (rewrite <- Eq, length_take; lia).
    assert (Hin : forall y, y ∈ q ++ [x] -> y ∈ p) by (intros y; rewrite <- Eq; apply elem_of_take_drop_fst || (intros Hy; rewrite <- (take_drop (Z.to_nat max) p), elem_of_app; by left)).
    rewrite <- app_assoc. simpl app. rewrite (cut_emit c max [] q x).
    + cbn [fst app]. rewrite apply_all_cons. destruct (cb (q ++ [x]) s) as [[] s'| | |]; try done. cbn [negb].
      rewrite bind_run, advance_run by (rewrite zlen_app; unfold zlen; lia). rewrite drop_app_le by lia. apply IH.
      * intros Hd. apply Hc. rewrite <- (take_drop (Z.to_nat max) p), elem_of_app. by right.
      * rewrite length_drop. lia.
    + simpl. rewrite length_app in Hlen. simpl in Hlen. apply open_short; [|right; unfold zlen; lia]. intros Hq. apply Hc, Hin, elem_of_app. by left.
    + right. simpl. unfold zlen. lia.
Qed.

Lemma chunks_run p s : (c ∉ p) -> consumeFixedSizeChunks cb max (p ++ [c]) s = apply_all cb (cut c max [] (p ++ [c])).1 s.
Proof. intros Hc. apply chunks_loop; [done|]. rewrite length_app. simpl. lia. Qed.

Lemma chunks_none s : consumeFixedSizeChunks cb max [] s = apply_all cb [] s.
Proof. done. Qed.

Lemma buffer_plus_run s buf p n : 0 <= n <= zlen p ->
  agrees (fun a => a.1 = false) (consumeBufferPlus cb p n (s, buf)) (apply_all cb [buf ++ take (Z.to_nat n) p] s) (true, drop (Z.to_nat n) p) [].
Proof.
  intros Hn. unfold consumeBufferPlus. rewrite bool_decide_eq_true_2 by done.
  eapply agrees_pure; [done|]. eapply agrees_pure; [done|]. cbv zeta. eapply agrees_pure; [done|].
  eapply agrees_pure; [apply advance_run; lia|]. cbn [fst snd]. rewrite <- (app_nil_r [_]).
  eapply (agrees_bind cb (eq false)).
  - apply agrees_outer. rewrite apply_all_cons. by destruct (cb _ s) as [[]| | |].
  - intros a st <-. by exists (false, drop (Z.to_nat n) p).
  - intros s'. done.
Qed.

(** What [split_in] found: a line and the text after it, or no delimiter. *)
Definition found_in (text prefix : list Z) (found : bool) (in_ : list Z) : Prop :=
  if found then text = prefix ++ in_ /\ exists p, prefix = p ++ [c] /\ (c ∉ p) else text = in_ /\ (c ∉ in_).

Lemma split_in_found t : exists r, found_in t r.1.1 r.1.2 r.2 /\ forall st : S * list Z, split_in c t st = Ok r st.
Proof.
  destruct (split_in_run (S := S) c t) as [[Hc E]|(p & t' & -> & Hc & E)]; eexists; (split; [|exact E]); simpl; [done|].
  split; [by rewrite <- app_assoc|eauto].
Qed.

(** The lines, up to a text without a delimiter. *)
Lemma lines_run text prefix found in_ : found_in text prefix found in_ ->
  exists pre t, text = pre ++ t /\ (c ∉ t) /\ (cut c max [] pre).2 = [] /\ (found = false -> pre = []) /\
    forall s b, agrees (eq None) (splitter_lines cb c max prefix found in_ (s, b)) (apply_all cb (cut c max [] pre).1 s) (Some t) b.
Proof.
  unfold splitter_lines. intros H.
  assert (Hf : if found then (length in_ + 1 < Datatypes.S (Datatypes.S (length in_)))%nat else (0 < Datatypes.S (Datatypes.S (length in_)))%nat) by (destruct found; lia).
  revert H Hf. generalize (Datatypes.S (Datatypes.S (length in_))). intros fuel.
  revert text prefix found in_. induction fuel as [|fuel IH]; intros text prefix found in_ H Hf; [destruct found; lia|]. destruct found; simpl in H.
  - destruct H as (-> & p & -> & Hp). destruct (split_in_found in_) as ([[prefix found] in'] & Hr & E). cbn [fst snd] in Hr.
    destruct (IH _ _ _ _ Hr) as (pre & t & Ht & Hc & Hpre & _ & Hrun).
    { destruct found; [|lia]. destruct Hr as (-> & q & -> & _). rewrite !length_app in Hf. simpl in Hf. lia. }
    exists ((p ++ [c]) ++ pre), t. rewrite cut_app, (cut_line p Hp). cbn [fst snd]. split_and!; [rewrite Ht; apply app_assoc|done|done|done|].
    intros s b. cbn [iter]. eapply (agrees_bind cb (eq (inr None))).
    + rewrite <- (app_nil_r (cut c max [] (p ++ [c])).1). eapply (agrees_bind cb (eq false)); [by apply agrees_outer, chunks_run|..].
      * intros a st <-. by exists (inr None).
      * intros s'. cbn [negb]. rewrite bind_run, E. apply agrees_ret.
    + intros a st <-. by exists None.
    + intros s'. apply Hrun.
  - destruct H as [-> Hc]. exists [], in_. split_and!; done.
Qed.
(** Pieces of the greatest length, up to a shorter one. *)
Lemma long_run t : (c ∉ t) -> 0 < max ->
  exists pre t', t = pre ++ t' /\ zlen t' < max /\ (cut c max [] pre).2 = [] /\ (zlen t < max -> pre = []) /\
    forall s b, agrees (eq None) (splitter_long cb max t (s, b)) (apply_all cb (cut c max [] pre).1 s) (Some t') b.
Proof.
  unfold splitter_long. intros Hc Hm. assert (Hf : (length t < Datatypes.S (length t))%nat) by lia. revert Hf. generalize (Datatypes.S (length t)). intros fuel.
  revert t Hc. induction fuel as [|fuel IH]; intros t Hc Hf; [lia|]. destruct (decide (zlen t >= max)) as [Hl|Hl].
  - pose proof (take_drop (Z.to_nat max) t) as Et. set (q := take (Z.to_nat max) t) in *. set (t1 := drop (Z.to_nat max) t) in *.
    assert (Hq : zlen q = max) by (unfold q, zlen in *; rewrite length_take; lia). 
    assert (Hlt : (length t1 < length t)%nat) by (unfold t1, zlen in *; rewrite length_drop; lia).
    destruct (IH t1) as (pre & t' & E & Hs & Hcut & _ & Hrun); [intros Hin; apply Hc; rewrite <- Et, elem_of_app; by right|lia|].
    assert (Hpiece : cut c max [] q = ([q], [])).
    { destruct q as [|x q' _] using rev_ind; [change (zlen (@nil Z)) with 0 in Hq; lia|]. rewrite (cut_emit c max [] q' x []); [done| |by right].
      split; [|right; rewrite zlen_app in Hq; change (zlen [x]) with 1 in Hq; simpl; lia]. intros Hin. apply Hc. rewrite <- Et, !elem_of_app. auto. }
    exists (q ++ pre), t'. rewrite cut_app, Hpiece. cbn [fst snd]. split_and!; [by rewrite <- app_assoc, <- E|done|done|lia|].
    intros s b. cbn [iter]. rewrite decide_True by done. eapply (agrees_bind cb (eq (inr None))).
    + rewrite <- (app_nil_r [q]). eapply (agrees_bind cb (eq false)).
      * apply agrees_outer. rewrite apply_all_cons. fold q. by destruct (cb q s) as [[]| | |].
      * intros a st <-. by exists (inr None).
      * intros s'. cbn [negb]. rewrite bind_run, advance_run by lia. fold t1. apply agrees_ret.
    + intros a st <-. by exists None.
    + intros s'. apply Hrun.
  - exists [], t. split_and!; [done|lia|done|done|]. intros s b. cbn [iter]. by rewrite decide_False by done.
Qed.

Lemma rest_keep t b s : open_piece c max (b ++ t) ->
  ((if decide (t <> []) then buffer ← load; store (buffer ++ t) else mret tt);; check_length max;; mret true) (s, b) = Ok true (s, b ++ t).
Proof.
  intros [_ Hl]. rewrite bind_run. assert (E : (if decide (t <> []) then buffer ← load; store (buffer ++ t) else mret tt) (s, b) = Ok tt (s, b ++ t)).
  { destruct (decide (t <> [])) as [|Ht]; [done|]. destruct t; [by rewrite app_nil_r|]. by destruct Ht. }
  rewrite E. unfold check_length. rewrite bind_run. unfold load, gets, mbind, M_bind, bind, assert. cbn [snd].
  by rewrite bool_decide_eq_true_2 by lia.
Qed.

Lemma rest_run t b s : (c ∉ t) -> b = [] \/ open_piece c max (b ++ t) ->
  agrees (eq false) (splitter_rest cb max t (s, b)) (apply_all cb (cut c max b t).1 s) true (cut c max b t).2.
Proof.
  intros Hc Hb. unfold splitter_rest. destruct (decide (max = 0)) as [H0|H0].
  - rewrite decide_False by auto. assert (Ho : open_piece c max (b ++ t)) by (destruct Hb as [->|]; [split; [done|by left]|done]).
    rewrite (cut_keep _ _ _ _ Ho). eapply agrees_pure; [done|]. cbv beta iota. rewrite rest_keep by done. apply agrees_ret.
  - rewrite decide_True by done. destruct (long_run t Hc ltac:(lia)) as (pre & t' & -> & Hl & Hcut & Hshort & Hrun).
    assert (Ho : open_piece c max (b ++ t') /\ cut c max b pre = cut c max [] pre /\ b = []
               \/ pre = [] /\ open_piece c max (b ++ t')).
    { destruct Hb as [->|Ho]; [left|right].
      - split; [|done]. split; [|by right]. intros Hin. apply Hc, elem_of_app. by right.
      - assert (pre = []) as -> by (apply Hshort; destruct Ho as [_ [?|Hz]]; [done|]; rewrite zlen_app in Hz; pose proof (zlen_nonneg b); lia).
        done. }
    destruct Ho as [(Ho & Ecut & ->)|[-> Ho]].
    + rewrite cut_app, Hcut, (cut_keep _ _ _ _ Ho), app_nil_r. cbn [fst snd]. rewrite <- (app_nil_r (cut c max [] pre).1).
      eapply (agrees_bind cb (eq None)); [apply Hrun|..].
      * intros a st <-. by exists false.
      * intros s'. cbv beta iota. rewrite rest_keep by done. apply agrees_ret.
    + cbn [app]. rewrite (cut_keep _ _ _ _ Ho). assert (H : splitter_long cb max t' (s, b) = Ok (Some t') (s, b)) by exact (Hrun s b). rewrite bind_run, H.
      rewrite rest_keep by done. apply agrees_ret.
Qed.

Lemma direct_run text prefix found in_ b s : found_in text prefix found in_ ->
  b = [] \/ (found = false /\ open_piece c max (b ++ text)) ->
  agrees (eq false) (splitter_direct cb c max prefix found in_ (s, b)) (apply_all cb (cut c max b text).1 s) true (cut c max b text).2.
Proof.
  intros Hin Hb. unfold splitter_direct. destruct (lines_run _ _ _ _ Hin) as (pre & t & -> & Hc & Hcut & Hpre & Hrun).
  assert (E : cut c max b (pre ++ t) = ((cut c max [] pre).1 ++ (cut c max b t).1, (cut c max b t).2)).
  { destruct Hb as [->|[Hf _]]; [by rewrite cut_app, Hcut|]. rewrite (Hpre Hf). cbn [app cut fst]. by destruct (cut c max b t). }
  rewrite E. eapply (agrees_bind cb (eq None)); [apply Hrun|..].
  - intros a st <-. by exists false.
  - intros s'. apply rest_run; [done|]. destruct Hb as [?|[Hf Ho]]; [by left|right]. by rewrite (Hpre Hf) in Ho.
Qed.

(** A delimiter ends the buffered piece. *)
Lemma buffered_found p t buf s r : (c ∉ p) -> open_piece c max buf -> (forall st : S * list Z, split_in c t st = Ok r st) ->
  agrees (eq None) (splitter_buffered cb c max (p ++ [c]) true t (s, buf)) (apply_all cb (cut c max buf (p ++ [c])).1 s) (Some r) [] /\
  (cut c max buf (p ++ [c])).2 = [].
Proof.
  intros Hp [Hb Hl] Hr. split; [|rewrite cut_app; simpl; by rewrite decide_True by auto].
  unfold splitter_buffered. eapply agrees_pure; [done|]. cbv beta iota. cbn [snd].
  assert (Hlen : zlen (p ++ [c]) = zlen p + 1) by apply zlen_app. pose proof (zlen_nonneg p).
  set (n := if decide (max <> 0) then Z.min (max - zlen buf) (zlen (p ++ [c])) else zlen (p ++ [c])).
  eapply (agrees_pure _ _ _ _ n (s, buf)).
  { unfold n. destruct (decide (max <> 0)); [|done]. rewrite bool_decide_eq_true_2 by lia. done. }
  assert (Hn : 0 < n <= zlen (p ++ [c])) by (unfold n; case_decide; lia).
  assert (Hcut : exists q, drop (Z.to_nat n) (p ++ [c]) = q /\ (q = [] \/ exists p', q = p' ++ [c] /\ (c ∉ p')) /\
            cut c max buf (p ++ [c]) = ([buf ++ take (Z.to_nat n) (p ++ [c])] ++ (cut c max [] q).1, (cut c max [] q).2)).
  { destruct (decide (n = zlen (p ++ [c]))) as [E|E].
    - exists []. rewrite E. unfold zlen. rewrite Nat2Z.id, drop_ge, take_ge by lia. split; [done|]. split; [by left|].
      apply (cut_emit c max buf p c []); [|by left]. split; [rewrite elem_of_app; tauto|]. rewrite zlen_app. unfold n in E. case_decide; lia.
    - assert (Hmx : max <> 0 /\ n = max - zlen buf) by (unfold n in *; case_decide; lia). destruct Hmx as [Hpos Hmx].
      assert (Hnp : (Z.to_nat n <= length p)%nat) by (unfold zlen in *; lia).
      exists (drop (Z.to_nat n) p ++ [c]). rewrite drop_app_le, take_app_le by lia. split; [done|].
      assert (Hsub : forall y, y ∈ take (Z.to_nat n) p \/ y ∈ drop (Z.to_nat n) p -> y ∈ p) by (intros y; rewrite <- elem_of_app, take_drop; done).
      split; [right; eexists; split; [done|]; intros Hin; apply Hp, Hsub; by right|].
      rewrite <- (take_drop (Z.to_nat n) p) at 1. rewrite <- app_assoc. assert (zlen (take (Z.to_nat n) p) = n) as Hz by (unfold zlen; rewrite length_take; lia).
      assert (take (Z.to_nat n) p <> []) by (intros E'; rewrite E' in Hz; change (zlen (@nil Z)) with 0 in Hz; lia).
      assert (zlen (buf ++ take (Z.to_nat n) p) = max) by (rewrite zlen_app; lia).
      apply cut_full; [apply open_full|..]; auto. }
  destruct Hcut as (q & Hq & Hform & ->). cbn [fst].
  eapply (agrees_bind cb (fun a => a.1 = false)); [apply buffer_plus_run; lia|..].
  - intros [a st'] st Ha. simpl in Ha. subst a. by exists None.
  - intros s'. rewrite Hq. cbn [negb]. rewrite <- (app_nil_r (cut c max [] q).1). eapply (agrees_bind cb (eq false)).
    + apply agrees_outer. destruct Hform as [->|(p' & -> & Hp')]; [apply chunks_none|by apply chunks_run].
    + intros a st <-. by exists None.
    + intros s2. cbn [negb]. rewrite bind_run, Hr. apply agrees_ret.
Qed.

(** What the buffer does not hold any more. *)
Lemma buffered_long prefix t buf s : (c ∉ t) -> open_piece c max buf -> max = 0 \/ zlen buf + zlen t < 2 ^ 64 ->
  exists pre t' b, t = pre ++ t' /\ (b = [] \/ open_piece c max (b ++ t')) /\ (cut c max buf pre).2 = b /\
    agrees (eq None) (splitter_buffered cb c max prefix false t (s, buf)) (apply_all cb (cut c max buf pre).1 s) (Some (prefix, false, t')) b.
Proof.
  intros Hc [Hb Hl] Hsize. unfold splitter_buffered. pose proof (zlen_nonneg buf). pose proof (zlen_nonneg t).
  rewrite bind_run. unfold load, gets. cbn [snd]. destruct (decide (max <> 0 /\ u64 (zlen buf + zlen t) >= max)) as [[Hpos Hge]|Hshort].
  - rewrite u64_small in Hge by lia. assert (Hn : 0 < max - zlen buf <= zlen t) by lia. rewrite u64_small by lia. set (n := Z.to_nat (max - zlen buf)).
    exists (take n t), (drop n t), []. split; [by rewrite take_drop|]. split; [by left|].
    assert (Hcut : cut c max buf (take n t) = ([buf ++ take n t], [])).
    { assert (Hz : zlen (take n t) = max - zlen buf) by (unfold n, zlen in *; rewrite length_take; lia).
      assert (take n t <> []) by (intros E'; rewrite E' in Hz; change (zlen (@nil Z)) with 0 in Hz; lia).
      assert (zlen (buf ++ take n t) = max) by (rewrite zlen_app; lia).
      rewrite <- (app_nil_r (take n t)) at 1. apply (cut_full c max buf (take n t) []); auto. apply open_full; auto.
      intros Hin. apply Hc. rewrite <- (take_drop n t), elem_of_app. by left. }
    rewrite Hcut. split; [done|]. cbn [fst]. rewrite <- (app_nil_r [_]). eapply (agrees_bind cb (fun a => a.1 = false)); [apply buffer_plus_run; lia|..].
    + intros [a st'] st Ha. simpl in Ha. subst a. by exists None.
    + intros s'. apply agrees_ret.
  - exists [], t, buf. split_and!; [done| |done|apply agrees_ret]. right. split; [rewrite elem_of_app; tauto|]. rewrite zlen_app.
    destruct Hsize as [?|Hsize]; [by left|]. rewrite u64_small in Hshort by lia. lia.
Qed.

Lemma call_run buf in_ s : open_piece c max buf -> max = 0 \/ zlen buf + zlen in_ < 2 ^ 64 ->
  agrees (eq false) (splitter_call cb c max in_ (s, buf)) (apply_all cb (cut c max buf in_).1 s) true (cut c max buf in_).2.
Proof.
  intros Ho Hsize. unfold splitter_call. destruct (split_in_found in_) as ([[prefix found] t] & Hin & E). cbn [fst snd] in Hin.
  rewrite bind_run, E. eapply agrees_pure; [done|]. cbn [snd]. destruct (decide (buf <> [])) as [Hne|He].
  - destruct found.
    + destruct Hin as (-> & p & -> & Hp). destruct (split_in_found t) as ([[prefix' found'] t'] & Hin' & E'). cbn [fst snd] in Hin'.
      destruct (buffered_found p t buf s _ Hp Ho E') as [Hrun Hend]. rewrite cut_app, Hend. cbn [fst snd].
      eapply (agrees_bind cb (eq None)); [exact Hrun|..].
      * intros a st <-. by exists false.
      * intros s'. apply direct_run; [done|by left].
    + destruct Hin as [-> Hc]. destruct (buffered_long prefix t buf s Hc Ho Hsize) as (pre & t' & b & -> & Hb & Hend & Hrun).
      rewrite cut_app, Hend. cbn [fst snd]. eapply (agrees_bind cb (eq None)); [exact Hrun|..].
      * intros a st <-. by exists false.
      * intros s'. apply direct_run; [|by destruct Hb; auto]. split; [done|]. intros Hx. apply Hc, elem_of_app. by right.
  - assert (buf = []) as -> by (destruct buf; [done|by destruct He]). eapply agrees_pure; [done|]. apply direct_run; [done|by left].
Qed.

Definition chunk_fits (t : list Z) : Prop := max = 0 \/ max + zlen t <= 2 ^ 64.

Lemma calls_run chunks buf s : open_piece c max buf -> Forall chunk_fits chunks ->
  agrees (eq false) (apply_all (splitter_call cb c max) chunks (s, buf)) (apply_all cb (cut c max buf (concat chunks)).1 s) true (cut c max buf (concat chunks)).2.
Proof.
  intros Ho Hf. revert buf s Ho. induction Hf as [|t chunks Ht _ IH]; intros buf s Ho; [apply agrees_ret|]. cbn [concat apply_all]. rewrite cut_app. cbn [fst snd].
  eapply (agrees_bind cb (eq false)).
  - apply call_run; [done|]. destruct Ho as [_ [?|?]]; [by left|]. destruct Ht; [by left|right; lia].
  - by apply stop_false.
  - intros s'. apply IH. by apply cut_open.
Qed.

Lemma flush_run buf s : open_piece c max buf ->
  agrees (eq false) (splitter_flush cb max (s, buf)) (apply_all cb [buf] s) true [].
Proof.
  intros [_ Hl]. unfold splitter_flush. eapply (agrees_pure _ _ _ _ tt (s, buf)).
  { unfold check_length. rewrite bind_run. unfold load, gets. cbn [snd]. unfold assert. by rewrite bool_decide_eq_true_2 by lia. }
  eapply agrees_pure; [done|]. cbn [snd]. rewrite <- (app_nil_r [buf]). eapply (agrees_bind cb (eq false)).
  - apply agrees_outer. rewrite apply_all_cons. by destruct (cb buf s) as [[]| | |].
  - by apply stop_false.
  - intros s'. apply agrees_ret.
Qed.
End Stages.

(** The pieces of a stream, the last one included. *)
Definition stream_pieces (c max : Z) (text : list Z) : list (list Z) := (cut c max [] text).1 ++ [(cut c max [] text).2].

(** A whole stream: the chunks, then [flush]. *)
Definition stream {S} (cb : list Z -> M S bool) (c max : Z) (chunks : list (list Z)) : M S bool :=
  '(r, _) ← local [] (b ← apply_all (splitter_call cb c max) chunks; if negb b then mret false else splitter_flush cb max); mret r.

Lemma stream_run {S} (cb : list Z -> M S bool) c max chunks s : 0 <= max -> Forall (chunk_fits max) chunks ->
  stream cb c max chunks s = apply_all cb (stream_pieces c max (concat chunks)) s.
Proof.
  intros Hm Hf. unfold stream, stream_pieces, local. rewrite bind_run.
  assert (H : agrees (eq false) ((b ← apply_all (splitter_call cb c max) chunks; if negb b then mret false else splitter_flush cb max) (s, []))
    (apply_all cb ((cut c max [] (concat chunks)).1 ++ [(cut c max [] (concat chunks)).2]) s) true []).
  { eapply (agrees_bind cb (eq false)); [apply calls_run; [done|by apply open_nil|done]|by apply stop_false|].
    intros s'. apply (flush_run cb c max Hm). apply cut_open; [done|by apply open_nil]. }
  destruct (apply_all cb _ s) as [[] s'|e s'|w|]; simpl in H.
  - by rewrite H.
  - by destruct H as (a & b & <- & ->).
  - by destruct H as (b & ->).
  - by rewrite H.
  - by rewrite H.
Qed.

(** The pieces: nothing is lost, none is too long, and each but the last one ends
    with its only delimiter or has the greatest length. *)
Lemma cut_pieces c max acc t : 0 <= max -> open_piece c max acc ->
  Forall (fun p => exists q x, p = q ++ [x] /\ (c ∉ q) /\ (max = 0 \/ zlen p <= max) /\ (x = c \/ zlen p = max)) (cut c max acc t).1.
Proof.
  intros Hm. revert acc. induction t as [|x t IH]; intros acc [Hc Hl]; simpl; [constructor|].
  assert (E : zlen (acc ++ [x]) = zlen acc + 1) by apply zlen_app. destruct (decide _) as [Hx|Hx].
  - simpl. constructor; [|by apply IH, open_nil]. exists acc, x. split_and!; auto. lia.
  - apply IH. split; [|lia]. rewrite elem_of_app, list_elem_of_singleton. intros [?|?]; [done|]. apply Hx. by left.
Qed.

(** ** Splitting and joining *)

(** The tokens of a text, without an empty last one. *)
Definition split_list (p s : list Z) : list (list Z) :=
  match last (tokens p s) with Some [] => removelast (tokens p s) | _ => tokens p s end.

Lemma split_list_step p s : p <> [] -> split_list p s =
  match first_match p s with
  | None => if decide (s = []) then [] else [s]
  | Some i => take i s :: split_list p (drop (i + length p) s)
  end.
Proof.
  intros Hp. unfold split_list. rewrite (tokens_step p s Hp). destruct (first_match p s) as [i|]; [|by destruct s].
  pose proof (tokens_nonempty p (drop (i + length p) s)) as Hne. destruct (tokens p (drop (i + length p) s)) as [|t ts] eqn:E; [done|].
  rewrite last_cons_cons. by destruct (last (t :: ts)) as [[]|].
Qed.

Lemma first_match_char c p t : (c ∉ p) -> first_match [c] (p ++ c :: t) = Some (length p).
Proof.
  intros Hc. induction p as [|x p IH]; simpl.
  - by rewrite take_0, decide_True.
  - rewrite take_0, decide_False by (intros [= ->]; apply Hc; left). rewrite IH; [done|]. intros ?. apply Hc. by right.
Qed.

Lemma first_match_absent c p : (c ∉ p) -> first_match [c] p = None.
Proof.
  intros Hc. induction p as [|x p IH]; [done|]. simpl. rewrite take_0, decide_False by (intros [= ->]; apply Hc; left).
  rewrite IH; [done|]. intros ?. apply Hc. by right.
Qed.

(** What the callback of [resplit] makes of a piece. *)
Definition line_of (c : Z) (s : list Z) : option (list Z) :=
  match last s with None => None | Some back => Some (if decide (back <> c) then s else removelast s) end.

Lemma apply_all_omap {S A B} (f : A -> option B) (h : B -> M S bool) (h' : A -> M S bool) l s :
  (forall x s, h' x s = match f x with Some y => h y s | None => Ok true s end) -> apply_all h' l s = apply_all h (omap f l) s.
Proof.
  intros E. revert s. induction l as [|x l IH]; intros s; [done|]. rewrite apply_all_cons, E. simpl. destruct (f x) as [y|]; [|apply IH].
  rewrite apply_all_cons. destruct (h y s) as [[]| | |]; done || apply IH.
Qed.

Lemma pieces_lines c text : omap (line_of c) (stream_pieces c 0 text) = split_list [c] text.
Proof.
  unfold stream_pieces. remember (length text) as n eqn:En. revert text En. induction (lt_wf n) as [n _ IH]. intros text ->.
  rewrite split_list_step by done. destruct (decide (c ∈ text)) as [(p & t & -> & Hc)%list_elem_of_split_l|Hc].
  - assert (Ho : open_piece c 0 p) by (split; [done|by left]). rewrite first_match_char, (cut_emit c 0 [] p c t) by auto. cbn [fst snd]. simpl. unfold line_of at 1.
    rewrite last_snoc, decide_False by tauto. rewrite removelast_last, take_app_length. f_equal.
    rewrite (IH (length t)); [|rewrite length_app; simpl; lia|done]. f_equal. rewrite drop_app, drop_ge by lia.
    replace (length p + 1 - length p)%nat with 1%nat by lia. done.
  - assert (Ho : open_piece c 0 text) by (split; [done|by left]). rewrite first_match_absent, cut_keep by done. simpl. unfold line_of. destruct (decide (text = [])) as [->|Hne]; [done|].
    destruct (last text) as [x|] eqn:E; [|by apply last_None in E]. rewrite decide_True; [done|]. intros ->. apply Hc. by apply last_Some_elem_of.
Qed.

Lemma resplit_yields c source chunks : yields source chunks -> yields (StringResplitter c source) (split_list [c] (concat chunks)).
Proof.
  intros Hg. apply yields_impl. intros S body s. cbv zeta.
  set (cb := fun p => match last p with None => mret true | Some back => if decide (back <> c) then body p else body (removelast p) end).
  assert (E : apply_all cb (stream_pieces c 0 (concat chunks)) s = apply_all body (split_list [c] (concat chunks)) s).
  { rewrite <- pieces_lines. apply apply_all_omap. intros p s'. unfold cb, line_of. destruct (last p); [|done]. by destruct (decide _). }
  rewrite <- E, <- (stream_run cb c 0 chunks s ltac:(done) ltac:(apply Forall_true; by left)). unfold stream, local.
  rewrite !bind_run. by rewrite (proj1 Hg).
Qed.

(** [split] by a delimiter. *)
Lemma splitPrefix_delim d s : delim_text d <> [] -> splitPrefix (ByDelim d) s =
  match first_match (delim_text d) s with
  | Some i => Ok (take (i + length (delim_text d)) s, delimSize d) (drop (i + length (delim_text d)) s)
  | None => Ok ([], 0) s
  end.
Proof.
  intros Hd. unfold splitPrefix. rewrite bind_run, find_delim_run by done. destruct (first_match _ s) as [i|] eqn:Hi; [|done].
  destruct (first_match_some _ _ _ Hi) as [Hm _]. pose proof (match_at_fits _ _ _ Hm Hd) as Hl.
  cbn [fmap option_fmap option_map]. unfold advance_. rewrite !bind_run. cbn [get]. rewrite !bind_run. cbn.
  rewrite delimSize_text. rewrite decide_False by (unfold zlen; lia). cbn.
  by replace (Z.to_nat (Z.of_nat i + zlen (delim_text d))) with (i + length (delim_text d))%nat by (unfold zlen; lia).
Qed.

Section Split.
Context {S : Type} (body : list Z -> M S bool) (sep : Separator) (lines : list Z -> list (list Z)).

(** One round of the loop of [split], then the rest of the text. *)
Definition piece_round (rest : list Z) : M S (list Z + option (list Z)) :=
  '((prefix, delim_len), rest) ← on_piece (splitPrefix sep) rest;
  if decide (delim_len = 0) then mret (inr (Some rest)) else
  '(_, prefix) ← on_piece (subtract delim_len) prefix;
  b ← body prefix;
  if negb b then mret (inr None) else mret (inl rest).

Definition split_end (r : option (list Z)) : M S bool :=
  match r with
  | None => mret false
  | Some rest => if decide (rest <> []) then b ← body rest; if negb b then mret false else mret true else mret true
  end.

(** [lines] is what the splitting of the separator amounts to. *)
Context (Hlines : forall s,
  (splitPrefix sep s = Ok ([], 0) s /\ lines s = if decide (s = []) then [] else [s]) \/
  (exists line delim rest, s = line ++ delim ++ rest /\ delim <> [] /\ splitPrefix sep s = Ok (line ++ delim, zlen delim) rest /\ lines s = line :: lines rest)).

Lemma split_loop_yields fuel rest s : (length rest < fuel)%nat -> (iter fuel piece_round rest ≫= split_end) s = apply_all body (lines rest) s.
Proof.
  revert rest s. induction fuel as [|fuel IH]; intros rest s Hf; [lia|]. rewrite bind_run, iter_run.
  assert (Hp : forall a t, splitPrefix sep rest = Ok a t -> on_piece (splitPrefix sep) rest s = Ok (a, t) s) by (intros a t E; unfold on_piece; by rewrite E).
  unfold piece_round at 1. rewrite bind_run. destruct (Hlines rest) as [[E ->]|(line & delim & rest' & -> & Hd & E & ->)]; rewrite (Hp _ _ E).
  - simpl. destruct (decide (rest = [])) as [->|Hne]; [done|]. rewrite decide_True by done. rewrite apply_all_cons. unfold mbind, M_bind, bind.
    by destruct (body rest s) as [[]| | |].
  - assert (0 < zlen delim) by (destruct delim; [done|]; unfold zlen; simpl; lia). rewrite decide_False by lia. rewrite bind_run.
    assert (E' : on_piece (subtract (zlen delim)) (line ++ delim) s = Ok (tt, line) s).
    { unfold on_piece, subtract. rewrite bind_run. cbn. rewrite decide_False by (rewrite zlen_app; pose proof (zlen_nonneg line); lia). cbn.
      unfold zlen. rewrite Nat2Z.id, length_app, Nat.add_sub. by rewrite take_app_length. }
    rewrite E', bind_run, apply_all_cons. destruct (body line s) as [[] s'| | |]; try done. rewrite <- (IH rest' s'); [done|].
    rewrite !length_app in Hf. destruct delim; [done|]. simpl in Hf. lia.
Qed.
End Split.

Lemma SplitStringSource_yields s sep lines : (forall s,
  (splitPrefix sep s = Ok ([], 0) s /\ lines s = if decide (s = []) then [] else [s]) \/
  (exists line delim rest, s = line ++ delim ++ rest /\ delim <> [] /\ splitPrefix sep s = Ok (line ++ delim, zlen delim) rest /\ lines s = line :: lines rest)) ->
  yields (SplitStringSource s sep) (lines s).
Proof. intros H. apply yields_impl. intros S body st. apply split_loop_yields; [done|lia]. Qed.

Lemma split_yields s d : delim_text d <> [] -> yields (SplitStringSource s (ByDelim d)) (split_list (delim_text d) s).
Proof.
  intros Hd. apply SplitStringSource_yields. clear s. intros s. rewrite splitPrefix_delim, split_list_step by done.
  destruct (first_match _ s) as [i|] eqn:Hi; [right|by left]. destruct (first_match_some _ _ _ Hi) as [Hm _]. unfold match_at in Hm.
  pose proof (match_at_fits _ _ _ Hm Hd) as Hl. exists (take i s), (delim_text d), (drop (i + length (delim_text d)) s).
  assert (E : take (i + length (delim_text d)) s = take i s ++ delim_text d) by (rewrite <- take_take_drop; by rewrite Hm).
  split_and!; [|done|by rewrite E, delimSize_text|done].
  rewrite app_assoc, <- E. by rewrite take_drop.
Qed.

(** [lines]: a line ends at a line feed, at a carriage return, or at both. *)
Fixpoint newlines (acc s : list Z) : list (list Z) :=
  match s with
  | [] => if decide (acc = []) then [] else [acc]
  | x :: t =>
      if decide (x = LF) then acc :: newlines [] t
      else if decide (x = CR) then
        acc :: match t with y :: t' => if decide (y = LF) then newlines [] t' else newlines [] t | [] => [] end
      else newlines (acc ++ [x]) t
  end.

Definition plain (l : list Z) : Prop := Forall (fun x => x <> LF /\ x <> CR) l.

Lemma newlines_plain acc l t : plain l -> newlines acc (l ++ t) = newlines (acc ++ l) t.
Proof.
  intros Hl. revert acc. induction Hl as [|x l [H1 H2] _ IH]; intros acc; simpl; [by rewrite app_nil_r|].
  rewrite !decide_False by done. by rewrite IH, <- app_assoc.
Qed.

Lemma first_newline s i :
  let f := fun x => existsb (asciiCaseSensitive x) [CR; LF] in
  (plain s /\ find_index f s i = None) \/
  exists l x t, s = l ++ x :: t /\ plain l /\ (x = CR \/ x = LF) /\ find_index f s i = Some (i + zlen l).
Proof.
  intros f. revert i. induction s as [|x s IH]; intros i; [left; split; [constructor|done]|]. cbn [find_index]. destruct (f x) eqn:E.
  - right. exists [], x, s. split; [done|]. split; [constructor|]. split.
    + unfold f, asciiCaseSensitive in E. simpl in E. rewrite !orb_true_iff, !bool_decide_eq_true in E. naive_solver.
    + change (zlen (@nil Z)) with 0. f_equal. lia.
  - assert (Hx : x <> LF /\ x <> CR) by (unfold f, asciiCaseSensitive in E; simpl in E; rewrite !orb_false_iff, !bool_decide_eq_false in E; tauto).
    destruct (IH (i + 1)) as [[Hs ->]|(l & y & t & -> & Hl & Hy & ->)]; [left; split; [by constructor|done]|right].
    exists (x :: l), y, t. split; [done|]. split; [by constructor|]. split; [done|]. f_equal. unfold zlen. simpl. lia.
Qed.

Lemma removePrefix_crlf x t : removePrefix [CR; LF] (x :: t) =
  if decide (x = CR /\ head t = Some LF) then Ok true (tail t) else Ok false (x :: t).
Proof.
  unfold removePrefix. rewrite bind_run. destruct (startsWith_run (x :: t) [CR; LF]) as (b & -> & Hiff). rewrite occurs_slice in Hiff.
  destruct (decide _) as [[-> Ht]|Hno].
  - destruct t as [|y t]; [done|]. injection Ht as ->. assert (b = true) as -> by (apply Hiff; unfold zlen; simpl; split_and!; [lia|lia|done]). done.
  - destruct b; [|done]. exfalso. destruct Hiff as [[_ [_ Hs]] _]; [done|]. apply Hno. unfold slice in Hs. simpl in Hs. destruct t as [|y t]; [done|]. simpl in Hs.
    by injection Hs as -> ->.
Qed.

Lemma lines_yield s : yields (SplitStringSource s MixedNewlines) (newlines [] s).
Proof.
  apply (SplitStringSource_yields s MixedNewlines (newlines [])). clear s. intros s. unfold splitPrefix. rewrite bind_run. unfold get, qfind_first_of.
  destruct (first_newline s 0) as [[Hs ->]|(l & x & t & -> & Hl & Hx & ->)].
  - left. split; [done|]. rewrite <- (app_nil_r s) at 1. by rewrite newlines_plain.
  - right. rewrite newlines_plain by done. cbn [app].
    assert (Ha : advance_ (0 + zlen l) (l ++ x :: t) = Ok tt (x :: t)).
    { unfold advance_. rewrite bind_run. cbn. rewrite zlen_app, decide_False by (pose proof (zlen_nonneg (x :: t)); lia). replace (Z.to_nat (0 + zlen l)) with (length l) by (unfold zlen; lia). cbn.
      by rewrite drop_app_length. }
    assert (Hz : forall d r, d ++ r = x :: t -> take (length (l ++ x :: t) - length r) (l ++ x :: t) = l ++ d).
    { intros d r <-. rewrite app_assoc, !length_app, Nat.add_sub, <- length_app. by rewrite take_app_length. }
    rewrite bind_run, Ha, bind_run, removePrefix_crlf. cbn [newlines]. destruct (decide (x = CR /\ head t = Some LF)) as [[-> Ht]|Hno].
    + destruct t as [|y t]; [done|]. injection Ht as ->. exists l, [CR; LF], t. split; [done|]. split; [done|]. split; [|done].
      rewrite !bind_run. cbn [tail]. unfold get, mret, M_ret, ret. cbv beta iota. rewrite bind_run. by rewrite (Hz [CR; LF] t) by done.
    + exists l, [x], t. split; [done|]. split; [done|]. split.
      * assert (E1 : advance_ 1 (x :: t) = Ok tt t).
        { unfold advance_. rewrite bind_run. cbn. rewrite decide_False by (unfold zlen; simpl; lia). done. }
        rewrite !bind_run, E1. unfold get, mret, M_ret, ret. cbv beta iota. rewrite bind_run. by rewrite (Hz [x] t) by done.
      * destruct Hx as [-> | ->]; [|done]. rewrite decide_False, decide_True by done. destruct t as [|y t]; [done|].
        rewrite (decide_False (P := y = LF)); [done|]. naive_solver.
Qed.

(** [unsplit] *)
Lemma unsplit_more {S} d ts out (s : S) :
  foreach_all (unsplit_body d) ts (s, (out, false)) = Ok tt (s, (out ++ concat ((fun t => delim_text d ++ t) <$> ts), false)).
Proof.
  revert out. induction ts as [|t ts IH]; intros out; [by rewrite app_nil_r|]. rewrite foreach_all_cons.
  assert (E : unsplit_body d t (s, (out, false)) = Ok tt (s, (out ++ delim_text d ++ t, false))) by done. rewrite E, IH.
  rewrite fmap_cons. simpl concat. by rewrite <- !app_assoc.
Qed.

Lemma unsplit_run {S} d source ts out (s : S) : yields source ts -> UnsplitBuffer d source out s =
  Ok (match out with [] => join_text (delim_text d) ts | _ => out ++ concat ((fun t => delim_text d ++ t) <$> ts) end) s.
Proof.
  intros Hg. unfold UnsplitBuffer. rewrite bind_run. unfold local. rewrite (proj2 Hg). destruct out as [|x out].
  - rewrite bool_decide_eq_true_2 by done. destruct ts as [|t ts]; [done|]. rewrite foreach_all_cons.
    assert (E : unsplit_body d t (s, ([], true)) = Ok tt (s, (t, false))) by done. by rewrite E, unsplit_more.
  - rewrite bool_decide_eq_false_2 by done. by rewrite unsplit_more.
Qed.

(** An empty last token is lost, and with it the last delimiter. *)
Lemma join_split p s : p <> [] -> join_text p (split_list p s) = s \/ s = join_text p (split_list p s) ++ p.
Proof.
  intros Hp. unfold split_list. pose proof (join_tokens p s Hp) as Hj. destruct (last (tokens p s)) as [[|x l]|] eqn:E; [|by left|by left].
  apply last_Some in E as [ts E]. rewrite E in *. rewrite removelast_last. destruct ts as [|t ts]; [left; done|right].
  rewrite <- Hj. simpl. rewrite fmap_app, concat_app. simpl. rewrite !app_nil_r. by rewrite app_assoc.
Qed.

(** C6: a [StreamSplitter] is independent of how its stream is cut into chunks. For
    every callback, with its effects, exceptions and refusals, feeding it the chunks
    and then flushing gives the callback exactly the pieces of the concatenated text: together they are the text, each but the
    last ends with its only delimiter or has the greatest length, the last has no
    delimiter, and none is too long. *)
Theorem stream_split_exact {S} (cb : list Z -> M S bool) c max chunks s : 0 <= max -> Forall (chunk_fits max) chunks ->
  exists pieces rest,
    stream cb c max chunks s = apply_all cb (pieces ++ [rest]) s /\
    concat (pieces ++ [rest]) = concat chunks /\
    Forall (fun p => exists q x, p = q ++ [x] /\ (c ∉ q) /\ (max = 0 \/ zlen p <= max) /\ (x = c \/ zlen p = max)) pieces /\
    (c ∉ rest) /\ (max = 0 \/ zlen rest < max).
Proof.
  intros Hm Hf. exists (cut c max [] (concat chunks)).1, (cut c max [] (concat chunks)).2. split; [by apply stream_run|].
  split; [rewrite concat_app; simpl; rewrite app_nil_r; apply cut_all|]. split; [by apply cut_pieces, open_nil|]. by apply cut_open, open_nil.
Qed.
Lemma stream_split_exact_witness :
  (exists pieces rest, concat (pieces ++ [rest]) = [97; 98; 10; 99] /\
    stream (fun p => modify (fun out => out ++ [p]);; mret true) 10 2 [[97]; [98; 10; 99]] [] =
    apply_all (fun p => modify (fun out => out ++ [p]);; mret true) (pieces ++ [rest]) []) /\
  stream (fun p => modify (fun out => out ++ [p]);; mret true) 10 2 [[97]; [98; 10; 99]] [] = Ok true [[97; 98]; [10]; [99]].
Proof.
  split; [|vm_compute; reflexivity].
  destruct (stream_split_exact (fun p => modify (fun out => out ++ [p]);; mret true) 10 2 [[97]; [98; 10; 99]] []) as (ps & r & H1 & H2 & _).
  - lia.
  - constructor; [right; vm_compute; discriminate|]. constructor; [right; vm_compute; discriminate|constructor].
  - by exists ps, r.
Defined.

(** [resplit] of a sequence of texts gives the lines of their concatenation,
    as [split] of the concatenation does, both without an empty last line; [unsplit]
    of the tokens of [split] gives the text back, but for a delimiter at its end; and
    [lines] ends lines at each of the three kinds of line breaks. *)
Lemma resplit_exact {S} (source : Gen (list Z)) chunks c d text (s : S) : yields source chunks -> delim_text d <> [] ->
  yields (StringResplitter c source) (split_list [c] (concat chunks)) /\
  yields (SplitStringSource (concat chunks) (ByDelim (DChar c))) (split_list [c] (concat chunks)) /\
  (exists joined, Unsplit d (SplitStringSource text (ByDelim d)) s = Ok joined s /\ (joined = text \/ text = joined ++ delim_text d)) /\
  yields (SplitStringSource text MixedNewlines) (newlines [] text).
Proof.
  intros Hg Hd. split_and!; [by apply resplit_yields|by apply split_yields| |apply lines_yield].
  exists (join_text (delim_text d) (split_list (delim_text d) text)). split; [|by apply join_split].
  apply (unsplit_run d _ _ []). by apply split_yields.
Qed.
Lemma resplit_exact_witness :
  Collect (StringResplitter 44 (ReferencedSource [[97; 44; 98]; [99; 44]])) tt = Ok [[97]; [98; 99]] tt /\
  exists joined, Unsplit (DPiece [44; 32]) (SplitStringSource [97; 44; 32; 98] (ByDelim (DPiece [44; 32]))) tt = Ok joined tt /\
    (joined = [97; 44; 32; 98] \/ [97; 44; 32; 98] = joined ++ [44; 32]).
Proof.
  split; [vm_compute; reflexivity|].
  destruct (resplit_exact (ReferencedSource [[97; 44; 98]; [99; 44]]) [[97; 44; 98]; [99; 44]] 44 (DPiece [44; 32]) [97; 44; 32; 98] tt)
    as (_ & _ & H & _); [split; reflexivity|discriminate|exact H].
Defined.

(** [unsplit] does not give back a delimiter at the end of the text. *)
Example trailing_delimiter_lost : Unsplit (DChar 44) (SplitStringSource [97; 44] (ByDelim (DChar 44))) tt = Ok [97] tt.
Proof. vm_compute. reflexivity. Qed.
