(* ===== verification/Checksum.v ===== *)
(** * Checksum: CRC-32C and CRC-32

    [src/accelerator/Checksum.cpp].  A buffer is the list of its bytes; [addr] is its
    address, on which the alignment depends, and a pointer into it is an offset.  A
    read outside of the buffer makes the result [None].  The instructions [crc32] and
    [pclmulqdq] are defined as the processor's manual does; [crc_optimal] is Boost's. *)

From stdpp Require Import base list.
From S2P Require Import Prelude Bits.

Open Scope Z_scope.

(** ** Instructions *)

(** One bit of a division of polynomials over GF(2), with the bits reflected: the
    lowest bit is the coefficient of the highest power. *)
Definition crc_bit (poly x : Z) : Z := Z.lxor (Z.div2 x) (if Z.odd x then poly else 0).

Fixpoint crc_steps (poly : Z) (n : nat) (x : Z) : Z :=
  match n with O => x | S n => crc_steps poly n (crc_bit poly x) end.

(** [CRC32C_POLYNOMIAL] and [CRC32_POLYNOMIAL]. *)
Definition CRC32C_POLYNOMIAL : Z := 0x1EDC6F41.
Definition CRC32_POLYNOMIAL : Z := 0x04C11DB7.

(** The [n] low bits of a word in the other order. *)
Fixpoint reflect (n : nat) (x : Z) : Z :=
  match n with O => 0 | S n => Z.lxor (if Z.odd x then Z.shiftl 1 (Z.of_nat n) else 0) (reflect n (Z.div2 x)) end.
Definition reflect32 (x : Z) : Z := reflect 32 x.

(** [_mm_crc32_u8], [_mm_crc32_u16], [_mm_crc32_u32], [_mm_crc32_u64]: only the low 32
    bits of the first operand are used. *)
Definition mm_crc32 (bits : nat) (crc v : Z) : Z := crc_steps (reflect32 CRC32C_POLYNOMIAL) bits (Z.lxor (u32 crc) v).

(** The product of [b] and of the [n] low bits of [a] without carries. *)
Fixpoint clmul (n : nat) (a b : Z) : Z :=
  match n with
  | O => 0
  | S n => Z.lxor (if Z.testbit a (Z.of_nat n) then Z.shiftl b (Z.of_nat n) else 0) (clmul n a b)
  end.

Definition low64 (x : Z) : Z := Z.land x (Z.ones 64).
Definition high64 (x : Z) : Z := Z.shiftr x 64.

(** [_mm_clmulepi64_si128]: the immediate selects the halves. *)
Definition mm_clmul (a b : Z) (imm : Z) : Z :=
  clmul 64 (if Z.testbit imm 0 then high64 a else low64 a) (if Z.testbit imm 4 then high64 b else low64 b).

(** [_mm_set_epi32], [_mm_srli_si128] (in bytes). *)
Definition mm_set_epi32 (e3 e2 e1 e0 : Z) : Z := e0 + Z.shiftl e1 32 + Z.shiftl e2 64 + Z.shiftl e3 96.
Definition mm_srli (x n : Z) : Z := Z.shiftr x (8 * n).

(** ** Buffers *)

(** The value at an offset, of [n] bytes. *)
Definition read (data : list Z) (off n : Z) : option Z :=
  if decide (0 <= off /\ off + n <= zlen data) then Some (of_bytes (slice off n data)) else None.

(** ** crc32c_hw *)

Definition clmul_constants : list (Z * Z) :=
  [
   (0x14cd00bd6, 0x105ec76f0); (0x0ba4fc28e, 0x14cd00bd6); (0x1d82c63da, 0x0f20c0dfe); (0x09e4addf8, 0x0ba4fc28e);
   (0x039d3b296, 0x1384aa63a); (0x102f9b8a2, 0x1d82c63da); (0x14237f5e6, 0x01c291d04); (0x00d3b6092, 0x09e4addf8);
   (0x0c96cfdc0, 0x0740eef02); (0x18266e456, 0x039d3b296); (0x0daece73e, 0x0083a6eec); (0x0ab7aff2a, 0x102f9b8a2);
   (0x1248ea574, 0x1c1733996); (0x083348832, 0x14237f5e6); (0x12c743124, 0x02ad91c30); (0x0b9e02b86, 0x00d3b6092);
   (0x018b33a4e, 0x06992cea2); (0x1b331e26a, 0x0c96cfdc0); (0x17d35ba46, 0x07e908048); (0x1bf2e8b8a, 0x18266e456);
   (0x1a3e0968a, 0x11ed1f9d8); (0x0ce7f39f4, 0x0daece73e); (0x061d82e56, 0x0f1d0f55e); (0x0d270f1a2, 0x0ab7aff2a);
   (0x1c3f5f66c, 0x0a87ab8a8); (0x12ed0daac, 0x1248ea574); (0x065863b64, 0x08462d800); (0x11eef4f8e, 0x083348832);
   (0x1ee54f54c, 0x071d111a8); (0x0b3e32c28, 0x12c743124); (0x0064f7f26, 0x0ffd852c6); (0x0dd7e3b0c, 0x0b9e02b86);
   (0x0f285651c, 0x0dcb17aa4); (0x010746f3c, 0x018b33a4e); (0x1c24afea4, 0x0f37c5aee); (0x0271d9844, 0x1b331e26a);
   (0x08e766a0c, 0x06051d5a2); (0x093a5f730, 0x17d35ba46); (0x06cb08e5c, 0x11d5ca20e); (0x06b749fb2, 0x1bf2e8b8a);
   (0x1167f94f2, 0x021f3d99c); (0x0cec3662e, 0x1a3e0968a); (0x19329634a, 0x08f158014); (0x0e6fc4e6a, 0x0ce7f39f4);
   (0x08227bb8a, 0x1a5e82106); (0x0b0cd4768, 0x061d82e56); (0x13c2b89c4, 0x188815ab2); (0x0d7a4825c, 0x0d270f1a2);
   (0x10f5ff2ba, 0x105405f3e); (0x00167d312, 0x1c3f5f66c); (0x0f6076544, 0x0e9adf796); (0x026f6a60a, 0x12ed0daac);
   (0x1a2adb74e, 0x096638b34); (0x19d34af3a, 0x065863b64); (0x049c3cc9c, 0x1e50585a0); (0x068bce87a, 0x11eef4f8e);
   (0x1524fa6c6, 0x19f1c69dc); (0x16cba8aca, 0x1ee54f54c); (0x042d98888, 0x12913343e); (0x1329d9f7e, 0x0b3e32c28);
   (0x1b1c69528, 0x088f25a3a); (0x02178513a, 0x0064f7f26); (0x0e0ac139e, 0x04e36f0b0); (0x0170076fa, 0x0dd7e3b0c);
   (0x141a1a2e2, 0x0bd6f81f8); (0x16ad828b4, 0x0f285651c); (0x041d17b64, 0x19425cbba); (0x1fae1cc66, 0x010746f3c);
   (0x1a75b4b00, 0x18db37e8a); (0x0f872e54c, 0x1c24afea4); (0x01e41e9fc, 0x04c144932); (0x086d8e4d2, 0x0271d9844);
   (0x160f7af7a, 0x052148f02); (0x05bb8f1bc, 0x08e766a0c); (0x0a90fd27a, 0x0a3c6f37a); (0x0b3af077a, 0x093a5f730);
   (0x04984d782, 0x1d22c238e); (0x0ca6ef3ac, 0x06cb08e5c); (0x0234e0b26, 0x063ded06a); (0x1d88abd4a, 0x06b749fb2);
   (0x04597456a, 0x04d56973c); (0x0e9e28eb4, 0x1167f94f2); (0x07b3ff57a, 0x19385bf2e); (0x0c9c8b782, 0x0cec3662e);
   (0x13a9cba9e, 0x0e417f38a); (0x093e106a4, 0x19329634a); (0x167001a9c, 0x14e727980); (0x1ddffc5d4, 0x0e6fc4e6a);
   (0x00df04680, 0x0d104b8fc); (0x02342001e, 0x08227bb8a); (0x00a2a8d7e, 0x05b397730); (0x168763fa6, 0x0b0cd4768);
   (0x1ed5a407a, 0x0e78eb416); (0x0d2c3ed1a, 0x13c2b89c4); (0x0995a5724, 0x1641378f0); (0x19b1afbc4, 0x0d7a4825c);
   (0x109ffedc0, 0x08d96551c); (0x0f2271e60, 0x10f5ff2ba); (0x00b0bf8ca, 0x00bf80dd2); (0x123888b7a, 0x00167d312);
   (0x1e888f7dc, 0x18dcddd1c); (0x002ee03b2, 0x0f6076544); (0x183e8d8fe, 0x06a45d2b2); (0x133d7a042, 0x026f6a60a);
   (0x116b0f50c, 0x1dd3e10e8); (0x05fabe670, 0x1a2adb74e); (0x130004488, 0x0de87806c); (0x000bcf5f6, 0x19d34af3a);
   (0x18f0c7078, 0x014338754); (0x017f27698, 0x049c3cc9c); (0x058ca5f00, 0x15e3e77ee); (0x1af900c24, 0x068bce87a);
   (0x0b5cfca28, 0x0dd07448e); (0x0ded288f8, 0x1524fa6c6); (0x059f229bc, 0x1d8048348); (0x06d390dec, 0x16cba8aca);
   (0x037170390, 0x0a3e3e02c); (0x06353c1cc, 0x042d98888); (0x0c4584f5c, 0x0d73c7bea); (0x1f16a3418, 0x1329d9f7e);
   (0x0531377e2, 0x185137662); (0x1d8d9ca7c, 0x1b1c69528); (0x0b25b29f2, 0x18a08b5bc); (0x19fb2a8b0, 0x02178513a);
   (0x1a08fe6ac, 0x1da758ae0); (0x045cddf4e, 0x0e0ac139e); (0x1a91647f2, 0x169cf9eb0); (0x1a0f717c4, 0x0170076fa)].

Definition CombineCRC (data : list Z) (block_size crc0 crc1 crc2 next2 : Z) : option Z :=
  '(lo, hi) ← clmul_constants !! Z.to_nat (block_size - 1);
  let res0 := clmul 64 crc0 lo in
  let res1 := clmul 64 crc1 hi in
  let crc0 := low64 (Z.lxor res0 res1) in
  w ← read data (next2 - 8) 8;
  let crc0 := Z.lxor crc0 w in
  mret (mm_crc32 64 crc2 crc0).

(** [if (align & n) { crc = _mm_crc32(crc, the next n bytes); next += n; }] *)
Definition crc_if (data : list Z) (align : Z) (n : nat) (crc next : Z) : option (Z * Z) :=
  if bool_decide (Z.land align (Z.of_nat n) <> 0) then
    w ← read data next (Z.of_nat n); mret (mm_crc32 (8 * n) crc w, next + Z.of_nat n)
  else mret (crc, next).

(** [crc0] and [next] after it. *)
Definition align_to_8 (data : list Z) (align crc0 next : Z) : option (Z * Z) :=
  let crc32bit := u32 crc0 in
  '(crc32bit, next) ← crc_if data align 4 crc32bit next;
  '(crc32bit, next) ← crc_if data align 2 crc32bit next;
  crc_if data align 1 crc32bit next.

(** The cases [k], ..., 2 of the switch: [CRCtriplet] each. *)
Fixpoint CRCtriplets (data : list Z) (k : nat) (next0 next1 next2 crc0 crc1 crc2 : Z) : option (Z * Z * Z) :=
  match k with
  | S (S _ as k') =>
      w0 ← read data (next0 - 8 * Z.of_nat k) 8;
      w1 ← read data (next1 - 8 * Z.of_nat k) 8;
      w2 ← read data (next2 - 8 * Z.of_nat k) 8;
      CRCtriplets data k' next0 next1 next2 (mm_crc32 64 crc0 w0) (mm_crc32 64 crc1 w1) (mm_crc32 64 crc2 w2)
  | _ => Some (crc0, crc1, crc2)
  end.

(** The jump into the loop is to the case [block_size], which is one of 1, ..., 128; [n] is
    positive. Later rounds are those of whole blocks. *)
Fixpoint triplet_loop (data : list Z) (n : nat) (block_size crc0 next : Z) : option (Z * Z) :=
  match n with
  | O => None
  | S n =>
      let next0 := next + 8 * block_size in
      let next1 := next0 + 8 * block_size in
      let next2 := next1 + 8 * block_size in
      '(crc0, crc1, crc2) ← CRCtriplets data (Z.to_nat block_size) next0 next1 next2 crc0 0 0;
      w0 ← read data (next0 - 8) 8;
      w1 ← read data (next1 - 8) 8;
      let crc0 := mm_crc32 64 crc0 w0 in
      let crc1 := mm_crc32 64 crc1 w1 in
      crc0 ← CombineCRC data block_size crc0 crc1 crc2 next2;
      match n with O => Some (crc0, next2) | S _ => triplet_loop data n 128 crc0 next2 end
  end.

(** The cases [k], ..., 1: [CRCsinglet] each. *)
Fixpoint CRCsinglets (data : list Z) (k : nat) (crc0 next : Z) : option Z :=
  match k with
  | O => Some crc0
  | S k' => w ← read data (next - 8 * Z.of_nat k) 8; CRCsinglets data k' (mm_crc32 64 crc0 w) next
  end.

Definition crc32c_hw (addr : Z) (buf : list Z) (crc : Z) : option Z :=
  let len := zlen buf in
  '(crc0, next, len) ← (
    if decide (len >= 8) then
      '(crc0, next, len) ← (
        if decide (len > 216) then
          let align := Z.land (u64 (8 - addr)) 7 in
          '(crc0, next) ← align_to_8 buf align crc 0;
          let len := len - align in
          let count := len / 24 in
          let len := len `mod` 24 in
          let n := Z.shiftr count 7 in
          let block_size := Z.land count 127 in
          let '(block_size, n) := if decide (block_size = 0) then (128, n) else (block_size, n + 1) in
          '(crc0, next) ← triplet_loop buf (Z.to_nat n) block_size crc0 next;
          mret (crc0, next, len)
        else mret (crc, 0, len));
      let count2 := Z.shiftr len 3 in
      let len := Z.land len 7 in
      let next := next + count2 * 8 in
      crc0 ← CRCsinglets buf (Z.to_nat count2) crc0 next;
      mret (crc0, next, len)
    else mret (crc, 0, len));
  '(crc0, next) ← align_to_8 buf len crc0 next;
  mret (u32 crc0).

(** ** Boost's engine *)

(** [crc_optimal<32, poly, ~0, 0, true, true>]: the checksum of some bytes, from an
    initial remainder. *)
Definition crc_byte (poly crc b : Z) : Z := crc_steps poly 8 (Z.lxor crc b).
Definition crc_bytes (poly : Z) (data : list Z) (crc : Z) : Z := foldl (crc_byte poly) crc data.
Class Boost := {
  crc_optimal : forall (poly rem : Z) (data : list Z), Z;
  crc_optimal_checksum : forall poly rem data, 0 <= rem < 2 ^ 32 -> Forall (fun b => 0 <= b < 256) data ->
    crc_optimal poly rem data = crc_bytes (reflect32 poly) data (reflect32 rem) }.

Section Software.
Context `{Boost}.

Definition crc_sw (CRC_POLYNOMIAL : Z) (data : list Z) (startingChecksum : Z) : Z :=
  let x := startingChecksum in
  let x := Z.lor (Z.land (Z.shiftr x 1) 0x55555555) (Z.shiftl (Z.land x 0x55555555) 1) in
  let x := Z.lor (Z.land (Z.shiftr x 2) 0x33333333) (Z.shiftl (Z.land x 0x33333333) 2) in
  let x := Z.lor (Z.land (Z.shiftr x 4) 0x0f0f0f0f) (Z.shiftl (Z.land x 0x0f0f0f0f) 4) in
  let x := Z.lor (Z.land (Z.shiftr x 8) 0x00ff00ff) (Z.shiftl (Z.land x 0x00ff00ff) 8) in
  let x := Z.lor (Z.shiftr x 16) (u32 (Z.shiftl x 16)) in
  crc_optimal CRC_POLYNOMIAL x data.

Definition crc32c_sw (data : list Z) (startingChecksum : Z) : Z := crc_sw CRC32C_POLYNOMIAL data startingChecksum.
Definition crc32_sw (data : list Z) (startingChecksum : Z) : Z := crc_sw CRC32_POLYNOMIAL data startingChecksum.

(** ** crc32_hw *)

Definition multipliers_4 : Z := mm_set_epi32 0 0x1D9513D7 0 0x8F352D95.
Definition multipliers_2 : Z := mm_set_epi32 0 0x81256527 0 0xF1DA05AA.
Definition multipliers_1 : Z := mm_set_epi32 0 0xCCAA009E 0 0xAE689191.
Definition final_multiplier : Z := mm_set_epi32 0 0 0 0xB8BC6765.
Definition mask32 : Z := mm_set_epi32 0 0 0 0xFFFFFFFF.
Definition barrett_reduction_constants : Z := mm_set_epi32 0x1 0xDB710641 0x1 0xF7011641.

(** [y = _mm_xor_si128(y, _mm_clmulepi64_si128(x, m, 0x00)); y = _mm_xor_si128(y, _mm_clmulepi64_si128(x, m, 0x11));] *)
Definition fold_into (m x y : Z) : Z := Z.lxor (Z.lxor y (mm_clmul x m 0x00)) (mm_clmul x m 0x11).

(** [for (; p != end512; p += 4)], [n] times. *)
Fixpoint fold512 (data : list Z) (n : nat) (x0 x1 x2 x3 p : Z) : option (Z * Z * Z * Z * Z) :=
  match n with
  | O => Some (x0, x1, x2, x3, p)
  | S n =>
      y0 ← read data p 16;
      y1 ← read data (p + 16) 16;
      y2 ← read data (p + 32) 16;
      y3 ← read data (p + 48) 16;
      fold512 data n (fold_into multipliers_4 x0 y0) (fold_into multipliers_4 x1 y1)
        (fold_into multipliers_4 x2 y2) (fold_into multipliers_4 x3 y3) (p + 64)
  end.

(** [while (p != end)], [n] times. *)
Fixpoint fold128 (data : list Z) (n : nat) (x0 p : Z) : option Z :=
  match n with
  | O => Some x0
  | S n => x1 ← read data p 16; fold128 data n (fold_into multipliers_1 x0 x1) (p + 16)
  end.

(** From 128 bits to 32. *)
Definition reduce128 (x0 : Z) : Z :=
  let x0 := Z.lxor (mm_srli x0 8) (mm_clmul x0 multipliers_1 0x10) in
  let x0 := Z.lxor (mm_srli x0 4) (mm_clmul (Z.land x0 mask32) final_multiplier 0x00) in
  let x1 := x0 in
  let x0 := mm_clmul (Z.land x0 mask32) barrett_reduction_constants 0x00 in
  let x0 := mm_clmul (Z.land x0 mask32) barrett_reduction_constants 0x10 in
  u32 (mm_srli (Z.lxor x0 x1) 4).

(** [vec_count] vectors of 16 bytes at [p]. *)
Definition crc32_hw_aligned (remainder : Z) (data : list Z) (p : Z) (vec_count : Z) : option Z :=
  x0 ← read data p 16;
  let x0 := Z.lxor x0 (mm_set_epi32 0 0 0 remainder) in
  let end_ := p + 16 * vec_count in
  let end512 := p + 16 * (4 * (vec_count / 4)) in
  let p := p + 16 in
  '(x0, p) ← (
    if decide (p > end512) then mret (x0, p) else
    x1 ← read data p 16;
    x2 ← read data (p + 16) 16;
    x3 ← read data (p + 32) 16;
    let p := p + 48 in
    '(x0, x1, x2, x3, p) ← fold512 data (Z.to_nat ((end512 - p) / 64)) x0 x1 x2 x3 p;
    let x2 := fold_into multipliers_2 x0 x2 in
    let x3 := fold_into multipliers_2 x1 x3 in
    let x3 := fold_into multipliers_1 x2 x3 in
    mret (x3, p));
  x0 ← fold128 data (Z.to_nat ((end_ - p) / 16)) x0 p;
  mret (reduce128 x0).

Definition crc32_hw (addr : Z) (data : list Z) (startingChecksum : Z) : option Z :=
  let nbytes := zlen data in
  let '(sum, offset, nbytes) :=
    if decide (Z.land addr 15 <> 0) then
      let limit := Z.min nbytes (Z.land (u64 (- addr)) 15) in
      (crc32_sw (slice 0 limit data) startingChecksum, limit, nbytes - limit)
    else (startingChecksum, 0, nbytes) in
  '(sum, offset, nbytes) ← (
    if decide (nbytes >= 16) then
      sum ← crc32_hw_aligned sum data offset (nbytes / 16);
      mret (sum, offset + 16 * (nbytes / 16), Z.land nbytes 15)
    else mret (sum, offset, nbytes));
  mret (crc32_sw (slice offset nbytes data) sum).

(** ** The entry points *)

Definition crc32c (addr : Z) (data : list Z) (startingChecksum : Z) : option Z := crc32c_hw addr data startingChecksum.
Definition crc32 (addr : Z) (data : list Z) (startingChecksum : Z) : option Z := crc32_hw addr data startingChecksum.
Definition crc32_type (addr : Z) (data : list Z) (startingChecksum : Z) : option Z :=
  c ← crc32 addr data startingChecksum; mret (Z.lxor c (Z.ones 32)).
End Software.
