(* ===== verification/ChecksumSpec.v ===== *)
(** * Checksum: the fast routines compute the checksum

    The reference is the shift register [crc_bytes].  Everything the fast routines
    do is linear over exclusive or, so that a constant is right when it is right on
    the powers of two, and these follow from one power each: [fold_ok] and
    [constants_ok] reduce the tables to that. *)

From stdpp Require Import base list.
From S2P Require Import Prelude Bits Checksum.

Open Scope Z_scope.

(** ** Linear functions *)

Class Linear (f : Z -> Z) : Prop := linear : forall x y, f (Z.lxor x y) = Z.lxor (f x) (f y).

Ltac bits := apply Z.bits_inj; intros ?i; repeat first [rewrite Z.lxor_spec | rewrite Z.land_spec | rewrite Z.lor_spec | rewrite Z.bits_0].

(** Equations of sums of the same terms. *)
Ltac lxor_eq := bits; repeat match goal with |- context [Z.testbit ?x ?j] => destruct (Z.testbit x j) end; reflexivity.

Lemma lxor_swap a b c d : Z.lxor (Z.lxor a b) (Z.lxor c d) = Z.lxor (Z.lxor a c) (Z.lxor b d).
Proof. lxor_eq. Qed.

#[export] Instance lin_id : Linear (fun x => x).
Proof. done. Qed.
#[export] Instance lin_zero : Linear (fun _ => 0).
Proof. done. Qed.
#[export] Instance lin_xor f g : Linear f -> Linear g -> Linear (fun x => Z.lxor (f x) (g x)).
Proof. intros Hf Hg x y. rewrite (Hf x y), (Hg x y). apply lxor_swap. Qed.
#[export] Instance lin_land f m : Linear f -> Linear (fun x => Z.land (f x) m).
Proof. intros Hf x y. rewrite (Hf x y). lxor_eq. Qed.
#[export] Instance lin_shiftr f n : Linear f -> Linear (fun x => Z.shiftr (f x) n).
Proof. intros Hf x y. by rewrite (Hf x y), Z.shiftr_lxor. Qed.
#[export] Instance lin_shiftl f n : Linear f -> Linear (fun x => Z.shiftl (f x) n).
Proof. intros Hf x y. by rewrite (Hf x y), Z.shiftl_lxor. Qed.
#[export] Instance lin_low64 f : Linear f -> Linear (fun x => low64 (f x)).
Proof. apply lin_land. Qed.
#[export] Instance lin_high64 f : Linear f -> Linear (fun x => high64 (f x)).
Proof. apply lin_shiftr. Qed.
#[export] Instance lin_srli f n : Linear f -> Linear (fun x => mm_srli (f x) n).
Proof. apply lin_shiftr. Qed.
#[export] Instance lin_u32 f : Linear f -> Linear (fun x => u32 (f x)).
Proof. intros Hf x y. unfold wrap. rewrite <- !Z.land_ones by lia. by apply lin_land. Qed.

(** A bit that selects a constant. *)
Lemma odd_lxor x y : Z.odd (Z.lxor x y) = xorb (Z.odd x) (Z.odd y).
Proof. by rewrite <- !Z.bit0_odd, Z.lxor_spec. Qed.

Lemma div2_lxor x y : Z.div2 (Z.lxor x y) = Z.lxor (Z.div2 x) (Z.div2 y).
Proof. by rewrite !Z.div2_spec, Z.shiftr_lxor. Qed.

Lemma select_lxor (b c : bool) k : (if xorb b c then k else 0) = Z.lxor (if b then k else 0) (if c then k else 0).
Proof. by destruct b, c; rewrite ?Z.lxor_nilpotent, ?Z.lxor_0_r, ?Z.lxor_0_l. Qed.

#[export] Instance lin_bit poly f : Linear f -> Linear (fun x => crc_bit poly (f x)).
Proof. intros Hf x y. unfold crc_bit. rewrite (Hf x y), div2_lxor, odd_lxor, select_lxor. apply lxor_swap. Qed.

#[export] Instance lin_steps poly n f : Linear f -> Linear (fun x => crc_steps poly n (f x)).
Proof.
  revert f. induction n as [|n IH]; intros f Hf; [done|]. simpl. apply (IH (fun x => crc_bit poly (f x))). by apply lin_bit.
Qed.

#[export] Instance lin_clmul n f b : Linear f -> Linear (fun x => clmul n (f x) b).
Proof.
  intros Hf x y. induction n as [|n IH]; [done|]. simpl. rewrite IH, (Hf x y), Z.lxor_spec, select_lxor. apply lxor_swap.
Qed.

#[export] Instance lin_reflect n f : Linear f -> Linear (fun x => reflect n (f x)).
Proof.
  revert f. induction n as [|n IH]; intros f Hf; [done|]. intros x y. simpl. rewrite (Hf x y), odd_lxor, div2_lxor, select_lxor.
  rewrite (IH (fun x => x) lin_id (Z.div2 (f x)) (Z.div2 (f y))). apply lxor_swap.
Qed.

#[export] Instance lin_mm_clmul f b imm : Linear f -> Linear (fun x => mm_clmul (f x) b imm).
Proof. intros Hf. unfold mm_clmul. destruct (Z.testbit imm 0); apply _. Qed.

Lemma linear_0 f : Linear f -> f 0 = 0.
Proof. intros Hf. pose proof (Hf 0 0) as E. rewrite Z.lxor_nilpotent in E. rewrite E. apply Z.lxor_nilpotent. Qed.

(** Two linear functions that agree on the powers of two agree. *)
Lemma linear_ext (w : nat) f g : Linear f -> Linear g -> (forall i : nat, (i < w)%nat -> f (2 ^ Z.of_nat i) = g (2 ^ Z.of_nat i)) ->
  forall x, 0 <= x < 2 ^ Z.of_nat w -> f x = g x.
Proof.
  intros Hf Hg. induction w as [|w IH]; intros Hb x Hx.
  - replace x with 0 by (simpl in Hx; lia). by rewrite !linear_0.
  - assert (IHw : forall y, 0 <= y < 2 ^ Z.of_nat w -> f y = g y) by (apply IH; intros i Hi; apply Hb; lia).
    rewrite Nat2Z.inj_succ, Z.pow_succ_r in Hx by lia. destruct (decide (x < 2 ^ Z.of_nat w)) as [|Hge]; [apply IHw; lia|].
    assert (E : x = Z.lxor (2 ^ Z.of_nat w) (x - 2 ^ Z.of_nat w)).
    { rewrite <- Z.add_nocarry_lxor; [lia|]. bits. rewrite Z.pow2_bits_eqb by lia. destruct (Z.eqb_spec (Z.of_nat w) i) as [<-|]; [|done]. simpl.
      apply (testbit_high (Z.of_nat w)); [unfold fits; lia|lia]. }
    rewrite E, Hf, Hg, (Hb w), (IHw (x - 2 ^ Z.of_nat w)) by lia. done.
Qed.

(** ** The shift register *)

Section Register.
Context (poly : Z) (Hpoly : 0 <= poly < 2 ^ 32).

Lemma steps_add a b x : crc_steps poly (a + b) x = crc_steps poly b (crc_steps poly a x).
Proof. revert x. induction a as [|a IH]; intros x; [done|]. apply IH. Qed.

Lemma steps_comm a b x : crc_steps poly a (crc_steps poly b x) = crc_steps poly b (crc_steps poly a x).
Proof. by rewrite <- !steps_add, Nat.add_comm. Qed.

Lemma steps_lxor n x y : crc_steps poly n (Z.lxor x y) = Z.lxor (crc_steps poly n x) (crc_steps poly n y).
Proof. apply (lin_steps poly n (fun x => x)). apply _. Qed.

(** Low bits that are 0 are shifted out. *)
Lemma steps_shiftl n x : crc_steps poly n (Z.shiftl x (Z.of_nat n)) = x.
Proof.
  revert x. induction n as [|n IH]; intros x; [by rewrite Z.shiftl_0_r|]. simpl crc_steps.
  assert (E : crc_bit poly (Z.shiftl x (Z.of_nat (S n))) = Z.shiftl x (Z.of_nat n)).
  { unfold crc_bit. rewrite Nat2Z.inj_succ, <- Z.add_1_r, <- Z.shiftl_shiftl by lia. set (y := Z.shiftl x (Z.of_nat n)).
    rewrite Z.shiftl_mul_pow2, Z.mul_comm by lia. change (2 ^ 1) with 2. rewrite Z.odd_mul. simpl.
    rewrite Z.lxor_0_r, Z.div2_div, Z.mul_comm. by rewrite Z.div_mul. }
  by rewrite E.
Qed.

Lemma steps_pow2 n i : (i <= n)%nat -> crc_steps poly n (2 ^ Z.of_nat i) = crc_steps poly (n - i) 1.
Proof.
  intros Hi. replace n with (i + (n - i))%nat at 1 by lia. rewrite steps_add. rewrite <- Z.shiftl_1_l. by rewrite steps_shiftl.
Qed.

Lemma lxor_range w x y : 0 <= w -> 0 <= x < 2 ^ w -> 0 <= y < 2 ^ w -> 0 <= Z.lxor x y < 2 ^ w.
Proof. intros. by apply lxor_fits. Qed.

Lemma crc_bit_range w x : 32 <= w -> 0 <= x < 2 ^ (w + 1) -> 0 <= crc_bit poly x < 2 ^ w.
Proof.
  intros Hw Hx. rewrite Z.pow_add_r in Hx by lia. assert (2 ^ 32 <= 2 ^ w) by (apply Z.pow_le_mono_r; lia).
  apply lxor_range; [lia| |destruct (Z.odd x); lia]. rewrite Z.div2_div. change (2 ^ 1) with 2 in Hx.
  split; [apply Z.div_pos; lia|apply Z.div_lt_upper_bound; lia].
Qed.

Lemma crc_steps_range n (k : nat) x : (k <= n)%nat -> 0 <= x < 2 ^ (32 + Z.of_nat k) -> 0 <= crc_steps poly n x < 2 ^ 32.
Proof.
  revert k x. induction n as [|n IH]; intros k x Hk Hx.
  - replace k with O in Hx by lia. done.
  - simpl. destruct k as [|k].
    + apply (IH O); [lia|]. simpl. apply crc_bit_range; [lia|]. simpl in Hx. lia.
    + apply (IH k); [lia|]. apply crc_bit_range; [lia|]. by replace (32 + Z.of_nat k + 1) with (32 + Z.of_nat (S k)) by lia.
Qed.

(** *** Bytes *)

#[local] Opaque crc_steps.

Lemma foldl_step {A B} (f : A -> B -> A) a x l : foldl f a (x :: l) = foldl f (f a x) l.
Proof. reflexivity. Qed.

Lemma crc_bytes_cons b l crc : crc_bytes poly (b :: l) crc = crc_bytes poly l (crc_byte poly crc b).
Proof. unfold crc_bytes. rewrite foldl_step. reflexivity. Qed.

Definition bytes (l : list Z) : Prop := Forall (fun b => 0 <= b < 256) l.

Lemma of_bytes_cons b l : 0 <= b < 256 -> of_bytes (b :: l) = Z.lxor b (Z.shiftl (of_bytes l) 8).
Proof.
  intros Hb. change (of_bytes (b :: l)) with (b + 256 * of_bytes l). rewrite Z.shiftl_mul_pow2 by lia.
  rewrite <- Z.add_nocarry_lxor; [change (2 ^ 8) with 256; lia|].
  bits. destruct (decide (i < 8)) as [Hi|Hi].
  - destruct (decide (i < 0)); [by rewrite Z.testbit_neg_r by lia|]. rewrite Z.mul_pow2_bits_low by lia. by rewrite andb_false_r.
  - by rewrite (testbit_high 8 b) by (unfold fits; lia).
Qed.

(** A word is its bytes, the lowest one first. *)
Lemma word_steps l crc : bytes l -> crc_steps poly (8 * length l) (Z.lxor crc (of_bytes l)) = crc_bytes poly l crc.
Proof.
  intros Hl. revert crc. induction Hl as [|b l Hb _ IH]; intros crc; [change (Z.lxor crc 0 = crc); apply Z.lxor_0_r|].
  rewrite of_bytes_cons by done. replace (8 * length (b :: l))%nat with (8 + 8 * length l)%nat by (simpl; lia).
  rewrite steps_add, <- Z.lxor_assoc, steps_lxor. change (Z.shiftl (of_bytes l) 8) with (Z.shiftl (of_bytes l) (Z.of_nat 8)). rewrite steps_shiftl.
  rewrite crc_bytes_cons, <- IH. reflexivity.
Qed.

Lemma crc_bytes_app a b crc : crc_bytes poly (a ++ b) crc = crc_bytes poly b (crc_bytes poly a crc).
Proof. apply foldl_app. Qed.

Lemma crc_bytes_lxor l x y : bytes l -> crc_bytes poly l (Z.lxor x y) = Z.lxor (crc_steps poly (8 * length l) x) (crc_bytes poly l y).
Proof. intros Hl. rewrite <- !word_steps by done. by rewrite Z.lxor_assoc, steps_lxor. Qed.

Lemma crc_bytes_0 l x : bytes l -> crc_bytes poly l x = Z.lxor (crc_steps poly (8 * length l) x) (crc_bytes poly l 0).
Proof. intros Hl. rewrite <- crc_bytes_lxor by done. by rewrite Z.lxor_0_r. Qed.

Lemma crc_bytes_range l crc : bytes l -> 0 <= crc < 2 ^ 32 -> 0 <= crc_bytes poly l crc < 2 ^ 32.
Proof.
  intros Hl. revert crc. induction Hl as [|b l Hb _ IH]; intros crc Hc; [done|].
  rewrite crc_bytes_cons. apply IH. unfold crc_byte.
  apply (crc_steps_range 8 0 (Z.lxor crc b)); [lia|]. rewrite Z.add_0_r. apply lxor_range; lia.
Qed.

(** *** Multiplication by a constant *)

Lemma clmul_pow2 n i b : (i < n)%nat -> clmul n (2 ^ Z.of_nat i) b = Z.shiftl b (Z.of_nat i).
Proof.
  assert (Hz : forall m, (m <= i)%nat -> clmul m (2 ^ Z.of_nat i) b = 0).
  { induction m as [|m IH]; intros Hm; [done|]. simpl. rewrite IH by lia. rewrite Z.pow2_bits_false by lia. done. }
  induction n as [|n IH]; intros Hi; [lia|]. simpl. rewrite Z.pow2_bits_eqb by lia. destruct (Z.eqb_spec (Z.of_nat i) (Z.of_nat n)).
  - replace n with i by lia. by rewrite Hz, Z.lxor_0_r.
  - rewrite IH by lia. apply Z.lxor_0_l.
Qed.

(** A constant that is right on the greatest power is right. *)
Lemma constant_ok (w m N : nat) k : (w <= 64)%nat -> (w <= m + 1)%nat -> (w <= N + 1)%nat ->
  crc_steps poly (m - (w - 1)) k = crc_steps poly (N - (w - 1)) 1 ->
  forall x, 0 <= x < 2 ^ Z.of_nat w -> crc_steps poly m (clmul 64 x k) = crc_steps poly N x.
Proof.
  intros Hw Hm HN Hk. apply (linear_ext w (fun x => crc_steps poly m (clmul 64 x k)) (fun x => crc_steps poly N x)); [apply _..|].
  intros i Hi. rewrite clmul_pow2 by lia. rewrite steps_pow2 by lia. replace m with (i + (m - (w - 1) + (w - 1 - i)))%nat by lia.
  rewrite steps_add, steps_shiftl, steps_add, Hk, <- steps_add. f_equal. lia.
Qed.
End Register.

(** ** Reading *)

Section Buffer.
Context (data : list Z) (Hdata : bytes data).

Lemma slice_bytes off n : bytes (slice off n data).
Proof. unfold slice. by apply Forall_take, Forall_drop. Qed.

Lemma slice_length off n : 0 <= off -> 0 <= n -> off + n <= zlen data -> length (slice off n data) = Z.to_nat n.
Proof. intros. pose proof (zlen_slice off n data ltac:(lia) ltac:(lia) ltac:(lia)) as E. unfold zlen in E. lia. Qed.

Lemma read_run off n : 0 <= off -> off + n <= zlen data -> read data off n = Some (of_bytes (slice off n data)).
Proof. intros. unfold read. by rewrite decide_True by lia. Qed.

(** The checksum of a part of the buffer. *)
Definition crc_of (poly off n crc : Z) : Z := crc_bytes poly (slice off n data) crc.

Lemma part_range poly off n crc : 0 <= poly < 2 ^ 32 -> 0 <= crc < 2 ^ 32 -> 0 <= crc_of poly off n crc < 2 ^ 32.
Proof. intros. apply crc_bytes_range; [done|apply slice_bytes|done]. Qed.

Lemma part_add poly off a b crc : 0 <= off -> 0 <= a -> 0 <= b -> crc_of poly (off + a) b (crc_of poly off a crc) = crc_of poly off (a + b) crc.
Proof. intros. unfold crc_of. rewrite <- crc_bytes_app. f_equal. symmetry. apply slice_split; lia. Qed.

Lemma part_0 poly off crc : crc_of poly off 0 crc = crc.
Proof. unfold crc_of. by rewrite slice_0. Qed.

Lemma part_all poly crc : crc_of poly 0 (zlen data) crc = crc_bytes poly data crc.
Proof. unfold crc_of. by rewrite slice_full. Qed.
End Buffer.

Definition poly_c : Z := reflect32 CRC32C_POLYNOMIAL.
Lemma poly_c_range : 0 <= poly_c < 2 ^ 32.
Proof. vm_compute. split; [discriminate|reflexivity]. Qed.

Section Words.
Context (data : list Z) (Hdata : bytes data).
Abbreviation crc_part := (crc_of data poly_c).

Lemma range_c off n crc : 0 <= crc < 2 ^ 32 -> 0 <= crc_part off n crc < 2 ^ 32.
Proof. apply part_range; [done|apply poly_c_range]. Qed.

(** An instruction takes the next bytes. *)
Lemma mm_crc32_part (k : nat) off n crc : 0 <= off -> off + n <= zlen data -> n = Z.of_nat k -> 0 <= crc < 2 ^ 32 ->
  mm_crc32 (8 * k) crc (of_bytes (slice off n data)) = crc_part off n crc.
Proof.
  intros Ho Hn -> Hc. unfold mm_crc32. rewrite wrap_small by done. unfold crc_of, poly_c.
  rewrite <- word_steps by (by apply slice_bytes). by rewrite slice_length, Nat2Z.id by lia.
Qed.

Lemma crc_if_run align (n : nat) crc next : let k := if bool_decide (Z.land align (Z.of_nat n) <> 0) then Z.of_nat n else 0 in
  0 <= next -> next + k <= zlen data -> 0 <= crc < 2 ^ 32 -> crc_if data align n crc next = Some (crc_part next k crc, next + k).
Proof.
  intros k Hn Hk Hc. unfold crc_if. subst k. case_bool_decide.
  - rewrite read_run by lia. cbn [mbind option_bind]. by rewrite mm_crc32_part by lia.
  - by rewrite part_0, Z.add_0_r.
Qed.

Lemma align_bits align : 0 <= align < 8 ->
  align = (if bool_decide (Z.land align (Z.of_nat 4) <> 0) then Z.of_nat 4 else 0) + (if bool_decide (Z.land align (Z.of_nat 2) <> 0) then Z.of_nat 2 else 0)
    + (if bool_decide (Z.land align (Z.of_nat 1) <> 0) then Z.of_nat 1 else 0).
Proof.
  intros Ha. assert (H : align = 0 \/ align = 1 \/ align = 2 \/ align = 3 \/ align = 4 \/ align = 5 \/ align = 6 \/ align = 7) by lia.
  by destruct H as [->|[->|[->|[->|[->|[->|[->| ->]]]]]]].
Qed.

Lemma align_to_8_run align crc next : 0 <= align < 8 -> 0 <= next -> next + align <= zlen data -> 0 <= crc < 2 ^ 32 ->
  align_to_8 data align crc next = Some (crc_part next align crc, next + align).
Proof.
  intros Ha Hn Hl Hc. unfold align_to_8. rewrite wrap_small by done. pose proof (align_bits align Ha) as E.
  set (k4 := if bool_decide (Z.land align (Z.of_nat 4) <> 0) then Z.of_nat 4 else 0) in *.
  set (k2 := if bool_decide (Z.land align (Z.of_nat 2) <> 0) then Z.of_nat 2 else 0) in *.
  set (k1 := if bool_decide (Z.land align (Z.of_nat 1) <> 0) then Z.of_nat 1 else 0) in *.
  assert (0 <= k4 /\ 0 <= k2 /\ 0 <= k1) as (? & ? & ?) by (subst k4 k2 k1; repeat case_bool_decide; lia).
  rewrite crc_if_run by (fold k4; lia || done). fold k4. simpl. rewrite crc_if_run by (fold k2; try apply range_c; lia || done). fold k2. simpl.
  rewrite crc_if_run by (fold k1; try apply range_c; try apply range_c; lia || done). fold k1.
  rewrite part_add by lia. rewrite <- Z.add_assoc, part_add by lia. do 2 f_equal; [f_equal|]; lia.
Qed.
Lemma word_run off crc : 0 <= off -> off + 8 <= zlen data -> 0 <= crc < 2 ^ 32 ->
  exists w, read data off 8 = Some w /\ mm_crc32 64 crc w = crc_part off 8 crc.
Proof. intros. eexists. split; [apply read_run; lia|]. by apply (mm_crc32_part 8). Qed.

Lemma singlets_run (k : nat) crc next : 0 <= next - 8 * Z.of_nat k -> next <= zlen data -> 0 <= crc < 2 ^ 32 ->
  CRCsinglets data k crc next = Some (crc_part (next - 8 * Z.of_nat k) (8 * Z.of_nat k) crc).
Proof.
  revert crc. induction k as [|k IH]; intros crc Hn Hl Hc; [by rewrite part_0|]. cbn [CRCsinglets].
  destruct (word_run (next - 8 * Z.of_nat (S k)) crc) as (w & -> & E); [lia..|]. cbn [mbind option_bind]. rewrite E, IH by (try apply range_c; lia).
  replace (next - 8 * Z.of_nat k) with (next - 8 * Z.of_nat (S k) + 8) by lia. rewrite part_add by lia. do 2 f_equal. lia.
Qed.

(** The words [k], ..., 2 before the ends of three blocks. *)
Lemma triplets_run (k : nat) n0 n1 n2 c0 c1 c2 : (1 <= k)%nat -> 0 <= n0 - 8 * Z.of_nat k -> 0 <= n1 - 8 * Z.of_nat k -> 0 <= n2 - 8 * Z.of_nat k ->
  n0 <= zlen data -> n1 <= zlen data -> n2 <= zlen data -> 0 <= c0 < 2 ^ 32 -> 0 <= c1 < 2 ^ 32 -> 0 <= c2 < 2 ^ 32 ->
  CRCtriplets data k n0 n1 n2 c0 c1 c2 = Some (crc_part (n0 - 8 * Z.of_nat k) (8 * Z.of_nat k - 8) c0,
    crc_part (n1 - 8 * Z.of_nat k) (8 * Z.of_nat k - 8) c1, crc_part (n2 - 8 * Z.of_nat k) (8 * Z.of_nat k - 8) c2).
Proof.
  revert c0 c1 c2. induction k as [|k IH]; intros c0 c1 c2 Hk H0 H1 H2 L0 L1 L2 R0 R1 R2; [lia|]. destruct k as [|k].
  - replace (8 * Z.of_nat 1 - 8) with 0 by lia. by rewrite !part_0.
  - change (CRCtriplets data (S (S k)) n0 n1 n2 c0 c1 c2) with (
      w0 ← read data (n0 - 8 * Z.of_nat (S (S k))) 8; w1 ← read data (n1 - 8 * Z.of_nat (S (S k))) 8; w2 ← read data (n2 - 8 * Z.of_nat (S (S k))) 8;
      CRCtriplets data (S k) n0 n1 n2 (mm_crc32 64 c0 w0) (mm_crc32 64 c1 w1) (mm_crc32 64 c2 w2)).
    destruct (word_run (n0 - 8 * Z.of_nat (S (S k))) c0) as (w0 & -> & E0); [lia..|].
    destruct (word_run (n1 - 8 * Z.of_nat (S (S k))) c1) as (w1 & -> & E1); [lia..|].
    destruct (word_run (n2 - 8 * Z.of_nat (S (S k))) c2) as (w2 & -> & E2); [lia..|]. cbn [mbind option_bind].
    rewrite E0, E1, E2, IH by (try apply range_c; lia).
    replace (n0 - 8 * Z.of_nat (S k)) with (n0 - 8 * Z.of_nat (S (S k)) + 8) by lia.
    replace (n1 - 8 * Z.of_nat (S k)) with (n1 - 8 * Z.of_nat (S (S k)) + 8) by lia.
    replace (n2 - 8 * Z.of_nat (S k)) with (n2 - 8 * Z.of_nat (S (S k)) + 8) by lia.
    rewrite !part_add by lia. by replace (8 + (8 * Z.of_nat (S k) - 8)) with (8 * Z.of_nat (S (S k)) - 8) by lia.
Qed.
End Words.

(** ** The constants of CombineCRC *)

(** For any iteration [st]; [s1] and [s2] are what the constants of the first entry
    should give. *)
Section Check.
Context (st : nat -> Z -> Z) (st_add : forall a b x, st (a + b)%nat x = st b (st a x)).

Fixpoint check_constants (tbl : list (Z * Z)) (s1 s2 : Z) : bool :=
  match tbl with
  | [] => true
  | (lo, hi) :: tbl =>
      Z.eqb (st 33%nat lo) s2 && Z.eqb (st 33%nat hi) s1 &&
      Z.leb 0 lo && Z.ltb lo (2 ^ 33) && Z.leb 0 hi && Z.ltb hi (2 ^ 33) &&
      check_constants tbl (st 64%nat s1) (st 128%nat s2)
  end.

Lemma check_constants_lookup tbl (b j : nat) lo hi : (1 <= b)%nat ->
  check_constants tbl (st (64 * b - 31)%nat 1) (st (128 * b - 31)%nat 1) = true -> tbl !! j = Some (lo, hi) ->
  (0 <= lo < 2 ^ 33 /\ st 33%nat lo = st (128 * (b + j) - 31)%nat 1) /\
  (0 <= hi < 2 ^ 33 /\ st 33%nat hi = st (64 * (b + j) - 31)%nat 1).
Proof.
  revert b j. induction tbl as [|[lo' hi'] tbl IH]; intros b j Hb Hc Hj; [done|]. cbn [check_constants] in Hc.
  rewrite !andb_true_iff, !Z.eqb_eq, !Z.leb_le, !Z.ltb_lt in Hc. destruct Hc as ((((((E2 & E1) & ?) & ?) & ?) & ?) & Hc). destruct j as [|j].
  - injection Hj as -> ->. rewrite Nat.add_0_r. auto.
  - replace (b + S j)%nat with (S b + j)%nat by lia. apply (IH (S b) j); [lia| |done]. rewrite <- !st_add in Hc.
    replace (64 * S b - 31)%nat with (64 * b - 31 + 64)%nat by lia. by replace (128 * S b - 31)%nat with (128 * b - 31 + 128)%nat by lia.
Qed.
End Check.

Lemma constants_ok : check_constants (crc_steps poly_c) clmul_constants (crc_steps poly_c 33 1) (crc_steps poly_c 97 1) = true.
Proof. vm_compute. reflexivity. Qed.

Lemma clmul_range (n : nat) a b (k : Z) : 0 <= k -> 0 <= b < 2 ^ k -> 0 <= clmul n a b < 2 ^ (Z.of_nat n + k).
Proof.
  intros Hk Hb. induction n as [|n IH]; [simpl; lia|]. cbn [clmul]. replace (Z.of_nat (S n) + k) with (Z.of_nat n + k + 1) by lia.
  assert (Hp : 2 ^ (Z.of_nat n + k + 1) = 2 * 2 ^ (Z.of_nat n + k)) by (rewrite Z.pow_add_r by lia; lia).
  apply lxor_range; [lia| |lia]. destruct (Z.testbit a (Z.of_nat n)); [|lia]. rewrite Z.shiftl_mul_pow2 by lia.
  rewrite Hp, Z.pow_add_r by lia. pose proof (Z.pow_pos_nonneg 2 (Z.of_nat n) ltac:(lia) ltac:(lia)). nia.
Qed.

Lemma low64_small x : 0 <= x < 2 ^ 64 -> low64 x = x.
Proof. intros. unfold low64. rewrite Z.land_ones by lia. by apply Z.mod_small. Qed.

(** The entry for blocks of [b] words shifts a checksum past one or two blocks. *)
Lemma constants_shift (b : nat) : (1 <= b <= 128)%nat -> exists lo hi, clmul_constants !! (b - 1)%nat = Some (lo, hi) /\
  (forall x, 0 <= x < 2 ^ 32 -> crc_steps poly_c 64 (clmul 64 x lo) = crc_steps poly_c (128 * b) x) /\
  (forall x, 0 <= x < 2 ^ 32 -> crc_steps poly_c 64 (clmul 64 x hi) = crc_steps poly_c (64 * b) x) /\ 0 <= lo < 2 ^ 33 /\ 0 <= hi < 2 ^ 33.
Proof.
  intros Hb. destruct (clmul_constants !! (b - 1)%nat) as [[lo hi]|] eqn:E.
  2: { apply lookup_ge_None in E. change (length clmul_constants) with 128%nat in E. lia. }
  destruct (check_constants_lookup (crc_steps poly_c) (steps_add poly_c) clmul_constants 1 (b - 1) lo hi ltac:(lia) constants_ok E) as [[Rlo Elo] [Rhi Ehi]].
  replace (1 + (b - 1))%nat with b in Elo, Ehi by lia. exists lo, hi. split_and!; try done || lia.
  - apply (constant_ok poly_c 32 64 (128 * b)); [lia..|exact Elo].
  - apply (constant_ok poly_c 32 64 (64 * b)); [lia..|exact Ehi].
Qed.

(** Products of a checksum and a constant have 64 bits. *)
Lemma clmul_product x k : 0 <= x < 2 ^ 32 -> 0 <= k < 2 ^ 33 -> low64 (clmul 64 x k) = clmul 64 x k.
Proof.
  intros Hx Hk. apply (linear_ext 32 (fun x => low64 (clmul 64 x k)) (fun x => clmul 64 x k)); [apply _..| |done].
  intros i Hi. rewrite clmul_pow2 by lia. apply low64_small. rewrite Z.shiftl_mul_pow2 by lia.
  assert (0 < 2 ^ Z.of_nat i <= 2 ^ 31) by (split; [lia|apply Z.pow_le_mono_r; lia]). change (2 ^ 64) with (2 ^ 33 * 2 ^ 31). nia.
Qed.

Section Triplets.
Context (data : list Z) (Hdata : bytes data).

(** The combination of three blocks of [b] words that end at [next2]. *)
Lemma CombineCRC_run (b : nat) c0 c1 c2 next2 : (1 <= b <= 128)%nat -> 0 <= c0 < 2 ^ 32 -> 0 <= c1 < 2 ^ 32 -> 0 <= c2 < 2 ^ 32 -> 8 <= next2 <= zlen data ->
  CombineCRC data (Z.of_nat b) c0 c1 c2 next2 =
    Some (Z.lxor (Z.lxor (crc_steps poly_c (128 * b) c0) (crc_steps poly_c (64 * b) c1)) (crc_of data poly_c (next2 - 8) 8 c2)).
Proof.
  intros Hb H0 H1 H2 Hn. unfold CombineCRC. destruct (constants_shift b Hb) as (lo & hi & E & Elo & Ehi & Rlo & Rhi).
  replace (Z.to_nat (Z.of_nat b - 1)) with (b - 1)%nat by lia. rewrite E. cbn [mbind option_bind]. rewrite read_run by lia. cbn [mbind option_bind].
  rewrite (lin_low64 (fun x => x) _ : forall x y, low64 (Z.lxor x y) = _). rewrite !clmul_product by done.
  rewrite <- Elo, <- Ehi, <- (mm_crc32_part data Hdata 8 (next2 - 8) 8 c2) by lia. unfold mret, option_ret, mm_crc32. rewrite wrap_small by done.
  fold poly_c. change (8 * 8)%nat with 64%nat. rewrite !steps_lxor. f_equal. lxor_eq.
Qed.

(** A block of [3 * b] words and then [n - 1] blocks of 384. *)
Lemma triplet_loop_run (n b : nat) crc next : (1 <= n)%nat -> (1 <= b <= 128)%nat -> 0 <= crc < 2 ^ 32 -> 0 <= next ->
  let total := 24 * (Z.of_nat b + 128 * (Z.of_nat n - 1)) in next + total <= zlen data ->
  triplet_loop data n (Z.of_nat b) crc next = Some (crc_of data poly_c next total crc, next + total).
Proof.
  revert b crc next. induction n as [|n IH]; intros b crc next Hn Hb Hc Hx total Hl; [lia|]. subst total. cbn [triplet_loop]. rewrite Nat2Z.id.
  set (B := 8 * Z.of_nat b). assert (HB : 8 <= B) by lia. assert (Hend : next + 3 * B <= zlen data) by lia.
  rewrite triplets_run by (done || lia). fold B. cbn [mbind option_bind].
  destruct (word_run data Hdata (next + B - 8) (crc_of data poly_c (next + B - B) (B - 8) crc)) as (w0 & -> & E0); [lia|lia|by apply range_c|].
  destruct (word_run data Hdata (next + B + B - 8) (crc_of data poly_c (next + B + B - B) (B - 8) 0)) as (w1 & -> & E1); [lia|lia|by apply range_c|].
  cbn [mbind option_bind]. rewrite E0, E1.
  assert (Hpart : forall off c, 0 <= off -> crc_of data poly_c (off + B - 8) 8 (crc_of data poly_c (off + B - B) (B - 8) c) = crc_of data poly_c off B c).
  { intros off c Ho. replace (off + B - B) with off by lia. replace (off + B - 8) with (off + (B - 8)) by lia. rewrite part_add by lia. f_equal. lia. }
  rewrite !Hpart by lia. rewrite CombineCRC_run by (try apply range_c; done || lia). cbn [mbind option_bind]. rewrite Hpart by lia.
  assert (Hsum : Z.lxor (Z.lxor (crc_steps poly_c (128 * b) (crc_of data poly_c next B crc)) (crc_steps poly_c (64 * b) (crc_of data poly_c (next + B) B 0)))
      (crc_of data poly_c (next + B + B) B 0) = crc_of data poly_c next (3 * B) crc).
  { replace (3 * B) with (B + (B + B)) by lia. rewrite <- part_add by lia. rewrite <- (part_add data poly_c (next + B) B B) by lia.
    set (x := crc_of data poly_c next B crc). unfold crc_of.
    rewrite (crc_bytes_0 poly_c (slice (next + B) B data) x) by (apply slice_bytes; done).
    rewrite (crc_bytes_0 poly_c (slice (next + B + B) B data) (Z.lxor _ _)) by (apply slice_bytes; done).
    rewrite !slice_length by lia. replace (8 * Z.to_nat B)%nat with (64 * b)%nat by (subst B; lia).
    rewrite steps_lxor, <- steps_add. by replace (64 * b + 64 * b)%nat with (128 * b)%nat by lia. }
  rewrite Hsum. destruct n as [|n].
  - do 2 f_equal; [f_equal|]; lia.
  - rewrite (IH 128%nat) by (try apply range_c; done || lia). replace (next + B + B + B) with (next + 3 * B) by lia. rewrite part_add by lia. do 2 f_equal; [f_equal|]; lia.
Qed.
End Triplets.

(** ** CRC-32C *)

Lemma land_7 x : Z.land x 7 = x `mod` 8.
Proof. apply (Z.land_ones x 3). lia. Qed.
Lemma land_127 x : Z.land x 127 = x `mod` 128.
Proof. apply (Z.land_ones x 7). lia. Qed.
Lemma land_15 x : Z.land x 15 = x `mod` 16.
Proof. apply (Z.land_ones x 4). lia. Qed.

Section Crc32c.
Context (data : list Z) (Hdata : bytes data) (crc : Z) (Hcrc : 0 <= crc < 2 ^ 32).

(** Up to seven bytes at the end. *)
Lemma tail_bytes pos : 0 <= pos <= zlen data -> zlen data - pos < 8 ->
  ('(crc0, next) ← align_to_8 data (zlen data - pos) (crc_of data poly_c 0 pos crc) pos; mret (u32 crc0)) = Some (crc_bytes poly_c data crc).
Proof.
  intros Hp Hl. rewrite align_to_8_run by (try apply range_c; done || lia). cbn [mbind option_bind].
  pose proof (part_add data poly_c 0 pos (zlen data - pos) crc ltac:(lia) ltac:(lia) ltac:(lia)) as E. rewrite Z.add_0_l in E. rewrite E.
  replace (pos + (zlen data - pos)) with (zlen data) by lia. rewrite part_all. unfold mret, option_ret. f_equal. apply wrap_small. rewrite <- part_all. by apply range_c.
Qed.

(** Words, and then these. *)
Lemma tail_words pos len : 0 <= pos -> len = zlen data - pos -> 0 <= len ->
  ('(crc0, next, len) ← (crc0 ← CRCsinglets data (Z.to_nat (Z.shiftr len 3)) (crc_of data poly_c 0 pos crc) (pos + Z.shiftr len 3 * 8);
     mret (crc0, pos + Z.shiftr len 3 * 8, Z.land len 7));
   '(crc0, next) ← align_to_8 data len crc0 next; mret (u32 crc0)) = Some (crc_bytes poly_c data crc).
Proof.
  intros Hp Hlen H0. rewrite Z.shiftr_div_pow2 by lia. change (2 ^ 3) with 8. rewrite land_7.
  pose proof (Z.div_mod len 8 ltac:(lia)) as Hdm. pose proof (Z.mod_pos_bound len 8 ltac:(lia)) as Hm. pose proof (Z.div_pos len 8 ltac:(lia) ltac:(lia)) as Hq.
  set (q := len / 8) in *. set (r := len `mod` 8) in *. rewrite singlets_run by (try apply range_c; rewrite ?Z2Nat.id; done || lia). rewrite Z2Nat.id by lia.
  cbn [mbind option_bind mret option_ret]. replace (pos + q * 8 - 8 * q) with (0 + pos) by lia. rewrite part_add by lia.
  replace (pos + 8 * q) with (pos + q * 8) by lia. replace r with (zlen data - (pos + q * 8)) by lia. apply tail_bytes; lia.
Qed.

Lemma crc32c_hw_run addr : 0 <= addr < 2 ^ 64 -> crc32c_hw addr data crc = Some (crc_bytes poly_c data crc).
Proof.
  intros Ha. unfold crc32c_hw. pose proof (zlen_nonneg data) as Hlen. destruct (decide (zlen data >= 8)) as [H8|H8].
  2: { cbn [mbind option_bind mret option_ret]. pose proof (tail_bytes 0 ltac:(lia) ltac:(lia)) as E. by rewrite part_0, Z.sub_0_r in E. }
  destruct (decide (zlen data > 216)) as [Hbig|Hsmall].
  2: { cbn [mbind option_bind mret option_ret]. cbv zeta. pose proof (tail_words 0 (zlen data) ltac:(lia) ltac:(lia) ltac:(lia)) as E. by rewrite part_0 in E. }
  rewrite (land_7 (u64 (8 - addr))). set (align := u64 (8 - addr) `mod` 8).
  assert (Hal : 0 <= align < 8) by (apply Z.mod_pos_bound; lia). rewrite align_to_8_run by (done || lia). cbn [mbind option_bind]. cbv zeta.
  set (len := zlen data - align). rewrite Z.shiftr_div_pow2 by lia. rewrite land_127. change (2 ^ 7) with 128.
  pose proof (Z.div_mod len 24 ltac:(lia)) as Hdm. pose proof (Z.mod_pos_bound len 24 ltac:(lia)) as Hm.
  set (count := len / 24) in *. set (r := len `mod` 24) in *. assert (Hcount : 8 <= count) by lia.
  pose proof (Z.div_mod count 128 ltac:(lia)) as Hdm'. pose proof (Z.mod_pos_bound count 128 ltac:(lia)) as Hm'. pose proof (Z.div_pos count 128 ltac:(lia) ltac:(lia)).
  set (q := count / 128) in *. set (b := count `mod` 128) in *.
  assert (Hloop : exists n b', (if decide (b = 0) then (128, q) else (b, q + 1)) = (Z.of_nat b', Z.of_nat n) /\ (1 <= n)%nat /\ (1 <= b' <= 128)%nat /\
            Z.of_nat b' + 128 * (Z.of_nat n - 1) = count).
  { destruct (decide (b = 0)); [exists (Z.to_nat q), 128%nat|exists (Z.to_nat (q + 1)), (Z.to_nat b)]; split_and!; try lia; f_equal; lia. }
  destruct Hloop as (n & b' & -> & Hn & Hb & Hsum). rewrite Nat2Z.id, triplet_loop_run by (try apply range_c; rewrite ?Hsum; done || lia).
  rewrite Hsum. cbn [mbind option_bind mret option_ret]. rewrite part_add by lia. rewrite Z.add_0_l. apply (tail_words (align + 24 * count) r); lia.
Qed.
End Crc32c.

(** ** CRC-32 by folding *)

Definition poly_n : Z := reflect32 CRC32_POLYNOMIAL.
Lemma poly_n_range : 0 <= poly_n < 2 ^ 32.
Proof. vm_compute. split; [discriminate|reflexivity]. Qed.
Abbreviation steps := (crc_steps poly_n).

Lemma halves x : 0 <= x < 2 ^ 128 -> x = Z.lxor (low64 x) (Z.shiftl (high64 x) 64) /\ 0 <= low64 x < 2 ^ 64 /\ 0 <= high64 x < 2 ^ 64.
Proof.
  intros Hx. unfold low64, high64. rewrite Z.land_ones, Z.shiftr_div_pow2 by lia. split_and!.
  - rewrite <- Z.add_nocarry_lxor.
    + rewrite Z.shiftl_mul_pow2 by lia. pose proof (Z.div_mod x (2 ^ 64) ltac:(lia)). lia.
    + bits. destruct (decide (i < 64)) as [Hi|Hi].
      * destruct (decide (i < 0)); [by rewrite Z.testbit_neg_r by lia|]. rewrite Z.shiftl_spec_low by lia. by rewrite andb_false_r.
      * rewrite (testbit_high 64 (x `mod` 2 ^ 64)); [done|apply Z.mod_pos_bound; lia|lia].
  - apply Z.mod_pos_bound. lia.
  - apply Z.mod_pos_bound. lia.
  - apply Z.div_pos; lia.
  - apply Z.div_lt_upper_bound; lia.
Qed.

(** The multipliers move 128 bits by [D] bits. *)
Lemma fold_ok m (D : nat) x y : steps 65 (low64 m) = steps (65 + D) 1 -> steps 65 (high64 m) = steps (1 + D) 1 -> 0 <= x < 2 ^ 128 ->
  steps 128 (fold_into m x y) = Z.lxor (steps 128 y) (steps (128 + D) x).
Proof.
  intros Hlo Hhi Hx. destruct (halves x Hx) as (E & Rlo & Rhi). unfold fold_into. rewrite !steps_lxor, Z.lxor_assoc. f_equal.
  change (mm_clmul x m 0) with (clmul 64 (low64 x) (low64 m)). change (mm_clmul x m 17) with (clmul 64 (high64 x) (high64 m)).
  rewrite (constant_ok poly_n 64 128 (128 + D) (low64 m)) by (done || lia || (rewrite Hlo; f_equal; lia)).
  rewrite (constant_ok poly_n 64 128 (64 + D) (high64 m)) by (done || lia || (rewrite Hhi; f_equal; lia)).
  rewrite E at 3. rewrite steps_lxor. f_equal. replace (128 + D)%nat with (64 + (64 + D))%nat by lia. rewrite (steps_add poly_n 64 (64 + D)).
  change (Z.shiftl (high64 x) 64) with (Z.shiftl (high64 x) (Z.of_nat 64)). by rewrite steps_shiftl.
Qed.

Lemma mm_clmul_range x m imm : 0 <= m < 2 ^ 128 -> low64 m < 2 ^ 33 -> high64 m < 2 ^ 33 -> 0 <= mm_clmul x m imm < 2 ^ 128.
Proof.
  intros Hm Hl Hh. destruct (halves m Hm) as (_ & ? & ?). unfold mm_clmul.
  assert (0 <= clmul 64 (if Z.testbit imm 0 then high64 x else low64 x) (if Z.testbit imm 4 then high64 m else low64 m) < 2 ^ (Z.of_nat 64 + 33)).
  { apply clmul_range; [lia|]. destruct (Z.testbit imm 4); lia. }
  change (2 ^ (Z.of_nat 64 + 33)) with (2 ^ 97) in *. assert (2 ^ 97 < 2 ^ 128) by (apply Z.pow_lt_mono_r; lia). lia.
Qed.

Lemma fold_range m x y : 0 <= m < 2 ^ 128 -> low64 m < 2 ^ 33 -> high64 m < 2 ^ 33 -> 0 <= y < 2 ^ 128 -> 0 <= fold_into m x y < 2 ^ 128.
Proof. intros. unfold fold_into. apply lxor_range; [lia| |by apply mm_clmul_range]. apply lxor_range; [lia|done|by apply mm_clmul_range]. Qed.

Definition multiplier (m : Z) (D : nat) : Prop :=
  (steps 65 (low64 m) = steps (65 + D) 1 /\ steps 65 (high64 m) = steps (1 + D) 1) /\ (0 <= m < 2 ^ 128 /\ low64 m < 2 ^ 33 /\ high64 m < 2 ^ 33).

Lemma multiplier_4 : multiplier multipliers_4 512.
Proof. split; [split; vm_compute; reflexivity|]. repeat split; vm_compute; done. Qed.
Lemma multiplier_2 : multiplier multipliers_2 256.
Proof. split; [split; vm_compute; reflexivity|]. repeat split; vm_compute; done. Qed.
Lemma multiplier_1 : multiplier multipliers_1 128.
Proof. split; [split; vm_compute; reflexivity|]. repeat split; vm_compute; done. Qed.

Lemma fold_run m D x y : multiplier m D -> 0 <= x < 2 ^ 128 -> 0 <= y < 2 ^ 128 ->
  steps 128 (fold_into m x y) = Z.lxor (steps 128 y) (steps (128 + D) x) /\ 0 <= fold_into m x y < 2 ^ 128.
Proof. intros [[? ?] (? & ? & ?)] Hx Hy. split; [by apply fold_ok|by apply fold_range]. Qed.

(** The last reduction, on the powers of two. *)
Lemma lin_comp f g : Linear f -> Linear g -> Linear (fun x => g (f x)).
Proof. intros Hf Hg x y. by rewrite (Hf x y), (Hg (f x) (f y)). Qed.

Lemma lin_reduce128 : Linear reduce128.
Proof.
  apply (lin_comp (fun x => Z.lxor (mm_srli x 8) (mm_clmul x multipliers_1 0x10))
    (fun x0 => let x0 := Z.lxor (mm_srli x0 4) (mm_clmul (Z.land x0 mask32) final_multiplier 0x00) in
       u32 (mm_srli (Z.lxor (mm_clmul (Z.land (mm_clmul (Z.land x0 mask32) barrett_reduction_constants 0x00) mask32) barrett_reduction_constants 0x10) x0) 4))).
  { apply lin_xor; [apply lin_srli|apply lin_mm_clmul]; apply lin_id. }
  apply (lin_comp (fun x0 => Z.lxor (mm_srli x0 4) (mm_clmul (Z.land x0 mask32) final_multiplier 0x00))
    (fun x0 => u32 (mm_srli (Z.lxor (mm_clmul (Z.land (mm_clmul (Z.land x0 mask32) barrett_reduction_constants 0x00) mask32) barrett_reduction_constants 0x10) x0) 4))).
  { apply lin_xor; [apply lin_srli, lin_id|apply lin_mm_clmul, lin_land, lin_id]. }
  apply lin_u32, lin_srli, lin_xor; [|apply lin_id]. apply lin_mm_clmul, lin_land, lin_mm_clmul, lin_land, lin_id.
Qed.

Lemma reduce128_powers : forallb (fun i => Z.eqb (reduce128 (2 ^ Z.of_nat i)) (steps 128 (2 ^ Z.of_nat i))) (seq 0 128) = true.
Proof. vm_compute. reflexivity. Qed.

Lemma reduce128_run x : 0 <= x < 2 ^ 128 -> reduce128 x = steps 128 x.
Proof.
  apply (linear_ext 128 reduce128 (fun x => steps 128 x)); [apply lin_reduce128|apply lin_steps, lin_id|]. intros i Hi.
  pose proof (proj1 (forallb_forall _ _) reduce128_powers i) as H. apply Z.eqb_eq, H, in_seq. lia.
Qed.

Lemma of_bytes_bits l : bytes l -> 0 <= of_bytes l < 2 ^ (8 * zlen l).
Proof.
  induction 1 as [|b l Hb _ IH]; [done|]. change (of_bytes (b :: l)) with (b + 256 * of_bytes l).
  replace (8 * zlen (b :: l)) with (8 + 8 * zlen l) by (unfold zlen; simpl; lia). rewrite Z.pow_add_r by (unfold zlen; lia). lia.
Qed.

(** Steps after steps, with the numbers computed. *)
Ltac norm_steps := rewrite ?steps_lxor, <- ?steps_add; repeat match goal with
  |- context [crc_steps ?q (?a + ?b)%nat ?x] => let c := eval vm_compute in (a + b)%nat in change (crc_steps q (a + b)%nat x) with (crc_steps q c x) end.

Lemma steps_more (k D : nat) f w x : steps 128 f = Z.lxor (steps 128 w) (steps (128 + D) x) ->
  steps (128 + k) f = Z.lxor (steps (128 + k) w) (steps (128 + D + k) x).
Proof. intros E. by rewrite steps_add, E, steps_lxor, <- !steps_add. Qed.

Section Fold.
Context (data : list Z) (Hdata : bytes data) (start rem : Z) (Hstart : 0 <= start) (Hrem : 0 <= rem < 2 ^ 32).

(** The checksum up to [p]. *)
Definition upto (p : Z) : Z := crc_of data poly_n start (p - start) rem.

Lemma vec_run p : start <= p -> p + 16 <= zlen data -> exists w, read data p 16 = Some w /\ 0 <= w < 2 ^ 128 /\
  upto (p + 16) = Z.lxor (steps 128 (upto p)) (steps 128 w).
Proof.
  intros Hp Hl. exists (of_bytes (slice p 16 data)). split; [apply read_run; lia|].
  pose proof (slice_length data p 16 ltac:(lia) ltac:(lia) ltac:(lia)) as E. split.
  - pose proof (of_bytes_bits _ (slice_bytes data Hdata p 16)) as H. unfold zlen in H. by rewrite E in H.
  - unfold upto. replace (p + 16 - start) with ((p - start) + 16) by lia. rewrite <- part_add by lia. replace (start + (p - start)) with p by lia.
    unfold crc_of at 1. rewrite <- word_steps by (by apply slice_bytes). rewrite E. by rewrite steps_lxor.
Qed.

Definition holds1 (x0 p : Z) : Prop := start <= p /\ 0 <= x0 < 2 ^ 128 /\ upto p = steps 128 x0.

Lemma fold128_run (n : nat) x0 p : holds1 x0 p -> p + 16 * Z.of_nat n <= zlen data ->
  exists x, fold128 data n x0 p = Some x /\ holds1 x (p + 16 * Z.of_nat n).
Proof.
  revert x0 p. induction n as [|n IH]; intros x0 p Hx Hl; [exists x0; split; [done|]; by rewrite Z.add_0_r|].
  destruct Hx as (Hp & Rx & E). destruct (vec_run p Hp ltac:(lia)) as (w & Hw & Rw & Ew). cbn [fold128]. rewrite Hw. cbn [mbind option_bind].
  destruct (fold_run multipliers_1 128 x0 w multiplier_1 Rx Rw) as [Ef Rf]. destruct (IH (fold_into multipliers_1 x0 w) (p + 16)) as (x & -> & H).
  - split; [lia|]. split; [done|]. rewrite Ew, E, Ef. rewrite <- steps_add. apply Z.lxor_comm.
  - lia.
  - exists x. split; [done|]. by replace (p + 16 * Z.of_nat (S n)) with (p + 16 + 16 * Z.of_nat n) by lia.
Qed.

Definition holds4 (x0 x1 x2 x3 p : Z) : Prop := start <= p /\ 0 <= x0 < 2 ^ 128 /\ 0 <= x1 < 2 ^ 128 /\ 0 <= x2 < 2 ^ 128 /\ 0 <= x3 < 2 ^ 128 /\
  upto p = Z.lxor (Z.lxor (steps 512 x0) (steps 384 x1)) (Z.lxor (steps 256 x2) (steps 128 x3)).

Lemma four_vecs p : start <= p -> p + 64 <= zlen data -> exists w0 w1 w2 w3,
  read data p 16 = Some w0 /\ read data (p + 16) 16 = Some w1 /\ read data (p + 32) 16 = Some w2 /\ read data (p + 48) 16 = Some w3 /\
  0 <= w0 < 2 ^ 128 /\ 0 <= w1 < 2 ^ 128 /\ 0 <= w2 < 2 ^ 128 /\ 0 <= w3 < 2 ^ 128 /\
  upto (p + 64) = Z.lxor (steps 512 (upto p)) (Z.lxor (Z.lxor (steps 512 w0) (steps 384 w1)) (Z.lxor (steps 256 w2) (steps 128 w3))).
Proof.
  intros Hp Hl. destruct (vec_run p Hp ltac:(lia)) as (w0 & H0 & R0 & E0).
  destruct (vec_run (p + 16) ltac:(lia) ltac:(lia)) as (w1 & H1 & R1 & E1). destruct (vec_run (p + 16 + 16) ltac:(lia) ltac:(lia)) as (w2 & H2 & R2 & E2).
  destruct (vec_run (p + 16 + 16 + 16) ltac:(lia) ltac:(lia)) as (w3 & H3 & R3 & E3). exists w0, w1, w2, w3.
  replace (p + 16 + 16) with (p + 32) in * by lia. replace (p + 32 + 16) with (p + 48) in * by lia. replace (p + 48 + 16) with (p + 64) in * by lia.
  refine (conj H0 (conj H1 (conj H2 (conj H3 (conj R0 (conj R1 (conj R2 (conj R3 _)))))))). rewrite E3, E2, E1, E0. norm_steps. lxor_eq.
Qed.

Lemma fold512_run (n : nat) x0 x1 x2 x3 p : holds4 x0 x1 x2 x3 p -> p + 64 * Z.of_nat n <= zlen data ->
  exists y0 y1 y2 y3, fold512 data n x0 x1 x2 x3 p = Some (y0, y1, y2, y3, p + 64 * Z.of_nat n) /\ holds4 y0 y1 y2 y3 (p + 64 * Z.of_nat n).
Proof.
  revert x0 x1 x2 x3 p. induction n as [|n IH]; intros x0 x1 x2 x3 p Hx Hl; [exists x0, x1, x2, x3; by rewrite Z.mul_0_r, Z.add_0_r|].
  destruct Hx as (Hp & R0 & R1 & R2 & R3 & E). destruct (four_vecs p Hp ltac:(lia)) as (w0 & w1 & w2 & w3 & H0 & H1 & H2 & H3 & Q0 & Q1 & Q2 & Q3 & Ew).
  cbn [fold512]. rewrite H0, H1, H2, H3. cbn [mbind option_bind].
  destruct (fold_run _ _ x0 w0 multiplier_4 R0 Q0) as [F0 G0]. destruct (fold_run _ _ x1 w1 multiplier_4 R1 Q1) as [F1 G1].
  destruct (fold_run _ _ x2 w2 multiplier_4 R2 Q2) as [F2 G2]. destruct (fold_run _ _ x3 w3 multiplier_4 R3 Q3) as [F3 G3].
  assert (Hn : holds4 (fold_into multipliers_4 x0 w0) (fold_into multipliers_4 x1 w1) (fold_into multipliers_4 x2 w2) (fold_into multipliers_4 x3 w3) (p + 64)).
  { split; [lia|]. refine (conj G0 (conj G1 (conj G2 (conj G3 _)))). rewrite Ew, E.
    pose proof (steps_more 384 _ _ _ _ F0) as K0. pose proof (steps_more 256 _ _ _ _ F1) as K1. pose proof (steps_more 128 _ _ _ _ F2) as K2.
    change (128 + 384)%nat with 512%nat in K0. change (128 + 256)%nat with 384%nat in K1. change (128 + 128)%nat with 256%nat in K2.
    rewrite K0, K1, K2, F3. norm_steps. lxor_eq. }
  destruct (IH _ _ _ _ _ Hn) as (y0 & y1 & y2 & y3 & -> & H); [lia|]. exists y0, y1, y2, y3.
  by replace (p + 64 * Z.of_nat (S n)) with (p + 64 + 64 * Z.of_nat n) by lia.
Qed.

(** Four vectors into one. *)
Lemma fold_four x0 x1 x2 x3 p : holds4 x0 x1 x2 x3 p ->
  holds1 (fold_into multipliers_1 (fold_into multipliers_2 x0 x2) (fold_into multipliers_2 x1 x3)) p.
Proof.
  intros (Hp & R0 & R1 & R2 & R3 & E). destruct (fold_run _ _ x0 x2 multiplier_2 R0 R2) as [F0 G0]. destruct (fold_run _ _ x1 x3 multiplier_2 R1 R3) as [F1 G1].
  destruct (fold_run _ _ (fold_into multipliers_2 x0 x2) (fold_into multipliers_2 x1 x3) multiplier_1 G0 G1) as [F G]. split; [done|]. split; [done|].
  pose proof (steps_more 128 _ _ _ _ F0) as K0. rewrite F, F1, K0, E. norm_steps. lxor_eq.
Qed.

Lemma crc32_hw_aligned_run (n : nat) : (1 <= n)%nat -> start + 16 * Z.of_nat n <= zlen data ->
  crc32_hw_aligned rem data start (Z.of_nat n) = Some (crc_of data poly_n start (16 * Z.of_nat n) rem).
Proof.
  intros Hn Hl. unfold crc32_hw_aligned. pose proof (Z.div_mod (Z.of_nat n) 4 ltac:(lia)) as Hdm. pose proof (Z.mod_pos_bound (Z.of_nat n) 4 ltac:(lia)) as Hm.
  set (q := Z.of_nat n / 4) in *. assert (Hset : mm_set_epi32 0 0 0 rem = rem) by (unfold mm_set_epi32; rewrite !Z.shiftl_0_l; lia). rewrite Hset.
  assert (Hup : upto start = rem) by (unfold upto; rewrite Z.sub_diag; apply part_0).
  assert (Rrem : 0 <= rem < 2 ^ 128) by (assert (2 ^ 32 < 2 ^ 128) by (apply Z.pow_lt_mono_r; lia); lia).
  assert (Hlast : forall x p, holds1 x p -> p + 16 * ((start + 16 * Z.of_nat n - p) / 16) = start + 16 * Z.of_nat n -> p <= start + 16 * Z.of_nat n ->
    (x0 ← fold128 data (Z.to_nat ((start + 16 * Z.of_nat n - p) / 16)) x p; mret (reduce128 x0)) = Some (crc_of data poly_n start (16 * Z.of_nat n) rem)).
  { intros x p Hx Hp Hle. destruct (fold128_run (Z.to_nat ((start + 16 * Z.of_nat n - p) / 16)) x p Hx) as (y & -> & (_ & Ry & E)); [lia|].
    cbn [mbind option_bind mret option_ret]. rewrite reduce128_run by done. rewrite <- E. unfold upto. f_equal. f_equal. lia. }
  destruct (decide (start + 16 > start + 16 * (4 * q))) as [Hshort|Hlong].
  - destruct (vec_run start ltac:(lia) ltac:(lia)) as (w & -> & Rw & Ew). cbn [mbind option_bind mret option_ret]. cbv zeta.
    apply Hlast; [|replace (start + 16 * Z.of_nat n - (start + 16)) with ((Z.of_nat n - 1) * 16) by lia; rewrite Z.div_mul by lia; lia|lia].
    split; [lia|]. split; [by apply lxor_range|]. rewrite Ew, Hup, steps_lxor. apply Z.lxor_comm.
  - destruct (four_vecs start ltac:(lia) ltac:(lia)) as (w0 & w1 & w2 & w3 & -> & H1 & H2 & H3 & Q0 & Q1 & Q2 & Q3 & Ew).
    cbn [mbind option_bind mret option_ret]. cbv zeta. rewrite H1. cbn [mbind option_bind].
    replace (start + 16 + 16) with (start + 32) by lia. rewrite H2. cbn [mbind option_bind]. replace (start + 16 + 32) with (start + 48) by lia. rewrite H3. cbn [mbind option_bind].
    replace (start + 16 + 48) with (start + 64) by lia.
    assert (H4 : holds4 (Z.lxor w0 rem) w1 w2 w3 (start + 64)).
    { split; [lia|]. split; [by apply lxor_range|]. refine (conj Q1 (conj Q2 (conj Q3 _))). rewrite Ew, Hup. norm_steps. lxor_eq. }
    replace ((start + 16 * (4 * q) - (start + 64)) / 64) with (q - 1) by (replace (start + 16 * (4 * q) - (start + 64)) with ((q - 1) * 64) by lia; by rewrite Z.div_mul).
    destruct (fold512_run (Z.to_nat (q - 1)) _ _ _ _ _ H4) as (y0 & y1 & y2 & y3 & -> & Hy); [lia|]. cbn [mbind option_bind mret option_ret].
    rewrite Z2Nat.id in * by lia. apply Hlast; [by apply fold_four| |lia].
    replace (start + 16 * Z.of_nat n - (start + 64 + 64 * (q - 1))) with ((Z.of_nat n - 4 * q) * 16) by lia. rewrite Z.div_mul by lia. lia.
Qed.
End Fold.

(** ** Bit reversal *)

Lemma lor_lxor x y : Z.land x y = 0 -> Z.lor x y = Z.lxor x y.
Proof. intros E. symmetry. by apply Z.lxor_lor. Qed.

Lemma masks_disjoint x y m k : Z.land m (Z.shiftl m k) = 0 -> Z.land (Z.land x m) (Z.shiftl (Z.land y m) k) = 0.
Proof.
  intros E. rewrite Z.shiftl_land, <- Z.land_assoc, (Z.land_assoc m). rewrite (Z.land_comm m (Z.shiftl y k)), <- (Z.land_assoc _ m), E.
  by rewrite !Z.land_0_r.
Qed.

Definition swap_bits (m k x : Z) : Z := Z.lxor (Z.land (Z.shiftr x k) m) (Z.shiftl (Z.land x m) k).
Lemma lin_swap m k f : Linear f -> Linear (fun x => swap_bits m k (f x)).
Proof. intros Hf. unfold swap_bits. apply lin_xor; [apply lin_land, lin_shiftr, Hf|apply lin_shiftl, lin_land, Hf]. Qed.

Lemma swap_bits_lor m k x : Z.land m (Z.shiftl m k) = 0 -> Z.lor (Z.land (Z.shiftr x k) m) (Z.shiftl (Z.land x m) k) = swap_bits m k x.
Proof. intros E. by apply lor_lxor, masks_disjoint. Qed.

Definition reverse_bits (x : Z) : Z :=
  let x := swap_bits 0x00ff00ff 8 (swap_bits 0x0f0f0f0f 4 (swap_bits 0x33333333 2 (swap_bits 0x55555555 1 x))) in
  Z.lxor (Z.shiftr x 16) (u32 (Z.shiftl x 16)).

Lemma lin_reverse : Linear reverse_bits.
Proof.
  unfold reverse_bits. apply (lin_comp (fun x => swap_bits 0x00ff00ff 8 (swap_bits 0x0f0f0f0f 4 (swap_bits 0x33333333 2 (swap_bits 0x55555555 1 x))))
    (fun x => Z.lxor (Z.shiftr x 16) (u32 (Z.shiftl x 16)))).
  - do 4 apply lin_swap. apply lin_id.
  - apply lin_xor; [apply lin_shiftr, lin_id|apply lin_u32, lin_shiftl, lin_id].
Qed.

Lemma reverse_powers : forallb (fun i => Z.eqb (reflect32 (reverse_bits (2 ^ Z.of_nat i))) (2 ^ Z.of_nat i)) (seq 0 32) = true.
Proof. vm_compute. reflexivity. Qed.

Lemma reflect_reverse x : 0 <= x < 2 ^ 32 -> reflect32 (reverse_bits x) = x.
Proof.
  apply (linear_ext 32 (fun x => reflect32 (reverse_bits x)) (fun x => x)); [apply (lin_reflect 32), lin_reverse|apply lin_id|].
  intros i Hi. pose proof (proj1 (forallb_forall _ _) reverse_powers i) as H. apply Z.eqb_eq, H, in_seq. lia.
Qed.

Lemma swap_bits_range m k x : 0 <= k -> 0 <= m -> 0 <= Z.shiftl m k < 2 ^ 32 -> m < 2 ^ 32 -> 0 <= swap_bits m k x < 2 ^ 32.
Proof.
  intros Hk Hm Hs Hw. unfold swap_bits. rewrite Z.shiftl_land.
  assert (H : forall a b, 0 <= b < 2 ^ 32 -> 0 <= Z.land a b < 2 ^ 32).
  { intros a b Hb. rewrite <- (Z.mod_small b (2 ^ 32)) by done. rewrite <- Z.land_ones by lia. rewrite Z.land_assoc, Z.land_ones by lia. apply Z.mod_pos_bound. lia. }
  apply lxor_range; [lia|by apply H; lia|by apply H].
Qed.

Lemma halfword_lor y : 0 <= y < 2 ^ 32 -> Z.lor (Z.shiftr y 16) (u32 (Z.shiftl y 16)) = Z.lxor (Z.shiftr y 16) (u32 (Z.shiftl y 16)).
Proof.
  intros Hy. apply lor_lxor. unfold wrap. rewrite <- Z.land_ones by lia. bits. destruct (decide (i < 16)) as [Hi|Hi].
  - destruct (decide (i < 0)); [by rewrite Z.testbit_neg_r by lia|]. rewrite Z.shiftl_spec_low by lia. by rewrite andb_false_r.
  - rewrite Z.shiftr_spec by lia. by rewrite (testbit_high 32) by (unfold fits; lia).
Qed.

Lemma reverse_range x : 0 <= reverse_bits x < 2 ^ 32.
Proof.
  unfold reverse_bits. set (y := swap_bits 0x00ff00ff 8 _). assert (0 <= y < 2 ^ 32) by (apply swap_bits_range; vm_compute; done).
  apply lxor_range; [lia| |apply Z.mod_pos_bound; lia]. rewrite Z.shiftr_div_pow2 by lia. split; [apply Z.div_pos; lia|]. apply Z.div_lt_upper_bound; lia.
Qed.

Lemma complement32 v : 0 <= v < 2 ^ 32 -> Z.lxor v (Z.ones 32) = Z.ones 32 - v.
Proof.
  intros Hv. assert (Hb : forall i, Z.testbit v i = true -> Z.testbit (Z.ones 32) i = true).
  { intros i Hi. destruct (decide (0 <= i < 32)) as [|Hn]; [apply Z.ones_spec_low; lia|]. exfalso. destruct (decide (i < 0)); [by rewrite Z.testbit_neg_r in Hi by lia|].
    rewrite (testbit_high 32) in Hi by (unfold fits; lia). done. }
  rewrite Z.sub_nocarry_ldiff; apply Z.bits_inj; intros i; rewrite ?Z.lxor_spec, ?Z.ldiff_spec, ?Z.bits_0; specialize (Hb i); destruct (Z.testbit v i); rewrite ?Hb by done; try done;
    by destruct (Z.testbit (Z.ones 32) i).
Qed.

Section Exact.
Context `{Boost}.

Lemma crc_sw_run P data crc : bytes data -> 0 <= crc < 2 ^ 32 -> crc_sw P data crc = crc_bytes (reflect32 P) data crc.
Proof.
  intros Hd Hc. unfold crc_sw. rewrite !swap_bits_lor by reflexivity.
  rewrite halfword_lor by (apply swap_bits_range; vm_compute; done). fold (reverse_bits crc).
  rewrite crc_optimal_checksum by (done || apply reverse_range). by rewrite reflect_reverse.
Qed.

Lemma crc32_sw_part data off n crc : bytes data -> 0 <= crc < 2 ^ 32 -> crc32_sw (slice off n data) crc = crc_of data poly_n off n crc.
Proof. intros Hd Hc. by apply crc_sw_run; [apply slice_bytes|]. Qed.

Lemma crc32_hw_run addr data crc : 0 <= addr < 2 ^ 64 -> bytes data -> 0 <= crc < 2 ^ 32 -> crc32_hw addr data crc = Some (crc_bytes poly_n data crc).
Proof.
  intros Ha Hd Hc. unfold crc32_hw. pose proof (zlen_nonneg data) as Hl.
  assert (Hrange : forall n, 0 <= crc_of data poly_n 0 n crc < 2 ^ 32) by (intros; apply part_range; [done|apply poly_n_range|done]).
  (* the bytes before the first vector *)
  assert (Hfirst : exists k, 0 <= k <= zlen data /\
    (if decide (Z.land addr 15 <> 0) then
       let limit := Z.min (zlen data) (Z.land (u64 (- addr)) 15) in (crc32_sw (slice 0 limit data) crc, limit, zlen data - limit)
     else (crc, 0, zlen data)) = (crc_of data poly_n 0 k crc, k, zlen data - k)).
  { destruct (decide (Z.land addr 15 <> 0)).
    - exists (Z.min (zlen data) (Z.land (u64 (- addr)) 15)). cbv zeta. rewrite crc32_sw_part by done. split; [|done].
      rewrite land_15. pose proof (Z.mod_pos_bound (u64 (- addr)) 16 ltac:(lia)). lia.
    - exists 0. rewrite part_0, Z.sub_0_r. split; [lia|done]. }
  destruct Hfirst as (k & Hk & Ek). cbv zeta in Ek |- *. rewrite Ek. destruct (decide (zlen data - k >= 16)) as [Hv|Hv].
  - pose proof (Z.div_mod (zlen data - k) 16 ltac:(lia)) as Hdm. pose proof (Z.mod_pos_bound (zlen data - k) 16 ltac:(lia)) as Hm. rewrite land_15.
    set (q := (zlen data - k) / 16) in *. replace q with (Z.of_nat (Z.to_nat q)) at 1 by lia.
    rewrite (crc32_hw_aligned_run data Hd k _ ltac:(lia) (Hrange k)) by lia. rewrite Z2Nat.id by lia. cbn [mbind option_bind mret option_ret].
    pose proof (part_add data poly_n 0 k (16 * q) crc ltac:(lia) ltac:(lia) ltac:(lia)) as E. rewrite Z.add_0_l in E. rewrite E.
    rewrite crc32_sw_part by done. replace (k + 16 * q) with (0 + (k + 16 * q)) at 1 by lia. rewrite part_add by lia.
    rewrite <- part_all. do 2 f_equal. lia.
  - cbn [mbind option_bind mret option_ret]. rewrite crc32_sw_part by done. replace k with (0 + k) at 1 by lia. rewrite part_add by lia.
    rewrite <- part_all. do 2 f_equal. lia.
Qed.
End Exact.

(** C7: the checksums are right. For every address, length and starting value,
    the routines that use the [crc32] and [pclmulqdq] instructions on three streams
    and by folding compute the same value as the shift register of the polynomial
    does bit by bit, never read outside of the buffer, and agree with the
    software routines; [crc32_type] is the complement; and a checksum can be continued
    from that of the first part of the data. *)
Theorem checksums_exact `{Boost} (addr : Z) (data : list Z) (crc : Z) :
  0 <= addr < 2 ^ 64 -> Forall (fun b => 0 <= b < 256) data -> 0 <= crc < 2 ^ 32 ->
  crc32c addr data crc = Some (crc_bytes (reflect32 CRC32C_POLYNOMIAL) data crc) /\
  crc32c_sw data crc = crc_bytes (reflect32 CRC32C_POLYNOMIAL) data crc /\
  crc32 addr data crc = Some (crc_bytes (reflect32 CRC32_POLYNOMIAL) data crc) /\
  crc32_sw data crc = crc_bytes (reflect32 CRC32_POLYNOMIAL) data crc /\
  crc32_type addr data crc = Some (2 ^ 32 - 1 - crc_bytes (reflect32 CRC32_POLYNOMIAL) data crc) /\
  (forall a b addr', data = a ++ b -> 0 <= addr' < 2 ^ 64 ->
     (c ← crc32c addr a crc; crc32c addr' b c) = crc32c addr data crc /\ (c ← crc32 addr a crc; crc32 addr' b c) = crc32 addr data crc).
Proof.
  intros Ha Hd Hc. pose proof (crc_bytes_range poly_n poly_n_range data crc Hd Hc) as Hr.
  split; [by apply crc32c_hw_run|]. split; [by apply crc_sw_run|]. split; [by apply crc32_hw_run|]. split; [by apply crc_sw_run|]. split.
  - unfold crc32_type, crc32. rewrite crc32_hw_run by done. cbn [mbind option_bind mret option_ret]. f_equal. fold poly_n.
    set (v := crc_bytes poly_n data crc) in *. change (2 ^ 32 - 1) with (Z.ones 32).
    by apply complement32.
  - intros a b addr' -> Ha'. apply Forall_app in Hd as [Hda Hdb]. unfold crc32c, crc32. rewrite !crc32c_hw_run, !crc32_hw_run by (done || by apply Forall_app).
    cbn [mbind option_bind]. rewrite !crc_bytes_app. split; [apply crc32c_hw_run|apply crc32_hw_run]; try done; apply crc_bytes_range; done || apply poly_c_range || apply poly_n_range.
Qed.

(** The engine of the documentation. *)
#[local] Instance reference_engine : Boost.
Proof. refine {| crc_optimal poly rem data := crc_bytes (reflect32 poly) data (reflect32 rem) |}. reflexivity. Defined.

Lemma checksums_exact_witness :
  crc32c 3 [49; 50; 51; 52; 53; 54; 55; 56; 57] (2 ^ 32 - 1) = Some (2 ^ 32 - 1 - 0xE3069283) /\
  crc32_type 3 [49; 50; 51; 52; 53; 54; 55; 56; 57] (2 ^ 32 - 1) = Some 0xCBF43926.
Proof.
  destruct (checksums_exact 3 [49; 50; 51; 52; 53; 54; 55; 56; 57] (2 ^ 32 - 1)) as (E1 & _ & _ & _ & E2 & _).
  - lia.
  - repeat constructor; discriminate || reflexivity.
  - lia.
  - split; [rewrite E1|rewrite E2]; vm_compute; reflexivity.
Defined.
