(* ===== verification/FileUtil.v ===== *)
(** * io/FileUtil: system calls that are repeated until they are done

    [io/FileUtil.h] and [io/FileUtil.cpp].  The system calls are arguments of the
    wrappers, as they are in the source; the class [Transfers] states what the
    wrappers rely on, and the theorems are proved against it. *)

From stdpp Require Import base list strings relations.
From S2P Require Import Prelude.

Open Scope Z_scope.

Definition EINTR : Z := 4.
Definition IOV_MAX : Z := 1024.

(** A system call returns a value, and [errno] when that is -1. *)
Abbreviation sysret := (Z * Z)%type.

(** ** The system calls

    What a program sees of the kernel [K], for one file.  Bytes written past the
    end leave zeroes before them. *)
Definition file_write (off : nat) (bs f : list Z) : list Z :=
  match bs with
  | [] => f
  | _ => take off (f ++ replicate (off - length f) 0) ++ bs ++ drop (off + length bs) f
  end.

(** A call that has failed did nothing; only a limited number of calls are
    interrupted by a signal.  [pwritev] and [write] get the bytes that they are
    to write, [read] returns those that it read; on success they move at least
    one byte, unless none was asked for or the file has ended. *)
Class FileKernel (K : Type) := {
  contents : K -> list Z;
  position : K -> Z;
  signals : K -> nat;
  try_lock : K -> bool;       (* flock(LOCK_EX | LOCK_NB) *)
  fstat_size : K -> option Z; (* st_size, or a failure *)
  pwritev : list (list Z) -> Z -> K -> Z * Z * K;
  read : Z -> K -> Z * Z * list Z * K;
  write : list Z -> K -> Z * Z * K;
  open_trunc : K -> Z * K;    (* open(O_WRONLY | O_CREAT | O_TRUNC) *)
  close : K -> Z * Z * K;
  position_nonneg : forall k, 0 <= position k;
  pwritev_spec : forall vs off k, 0 <= off ->
    let '(r, errno, k') := pwritev vs off k in
    (r = -1 /\ contents k' = contents k /\ (errno = EINTR -> signals k' < signals k)%nat) \/
    (0 <= r <= zlen (concat vs) /\ (r = 0 -> concat vs = []) /\ (signals k' <= signals k)%nat /\
     contents k' = file_write (Z.to_nat off) (take (Z.to_nat r) (concat vs)) (contents k));
  read_spec : forall count k, 0 <= count ->
    let '(r, errno, bs, k') := read count k in contents k' = contents k /\
    ((r = -1 /\ position k' = position k /\ (errno = EINTR -> signals k' < signals k)%nat) \/
     (0 <= r <= count /\ zlen bs = r /\ bs = take (Z.to_nat r) (drop (Z.to_nat (position k)) (contents k)) /\
      position k' = position k + r /\ (signals k' <= signals k)%nat /\
      (r = 0 -> count = 0 \/ zlen (contents k) <= position k)));
  write_spec : forall bs k,
    let '(r, errno, k') := write bs k in
    (r = -1 /\ contents k' = contents k /\ position k' = position k /\ (errno = EINTR -> signals k' < signals k)%nat) \/
    (0 <= r <= zlen bs /\ (r = 0 -> bs = []) /\ (signals k' <= signals k)%nat /\ position k' = position k + r /\
     contents k' = file_write (Z.to_nat (position k)) (take (Z.to_nat r) bs) (contents k));
  open_spec : forall k, let '(fd, k') := open_trunc k in
    fd = -1 /\ contents k' = contents k \/ 0 <= fd /\ contents k' = [] /\ position k' = 0;
  close_spec : forall k, let '(r, errno, k') := close k in contents k' = contents k
}.

(** A computation that satisfies [Q] and the equation of its result. *)
Lemma wp_equation {S A} (m : M S A) s Q : wp m s Q nothrow -> wp m s (fun a s' => Q a s' /\ m s = Ok a s') nothrow.
Proof. unfold wp. by destruct (m s). Qed.

Section Wrappers.
Context {S P : Type} (ptr_add : P -> Z -> P).

(** An [iovec]: [iov_base] and [iov_len]. *)
Abbreviation iovec := (P * Z)%type.

(** The loops have no bound of their own: [fuel] is the number of calls. *)
Definition wrapNoInt (fuel : nat) (f : M S sysret) : M S sysret :=
  iter fuel (fun _ : unit =>
    '(r, errno) ← f;
    mret (if decide (r = -1 /\ errno = EINTR) then inl tt else inr (r, errno))) tt.

(** [close] is not repeated. *)
Definition closeNoInt (close : M S sysret) : M S Z :=
  '(r, errno) ← close;
  mret (if decide (r = -1 /\ errno = EINTR) then 0 else r).

(** [f] gets the offset of the calls that have one. *)
Definition full_round (f : P -> Z -> Z -> M S sysret) (st : P * Z * Z * Z) : M S ((P * Z * Z * Z) + sysret) :=
  let '(b, count, offset, totalBytes) := st in
  '(r, errno) ← f b count offset;
  if decide (r = -1) then
    if decide (errno = EINTR) then
      mret (if decide (count <> 0) then inl (b, count, offset, totalBytes) else inr (totalBytes, 0))
    else mret (inr (r, errno))
  else
    let totalBytes := totalBytes + r in
    let b := ptr_add b r in
    let count := u64 (count - r) in
    let offset := offset + r in
    mret (if decide (r <> 0 /\ count <> 0) then inl (b, count, offset, totalBytes) else inr (totalBytes, 0)).

Definition wrapFull (fuel : nat) (f : P -> Z -> Z -> M S sysret) (buf : P) (count offset : Z) : M S sysret :=
  iter fuel (full_round f) (buf, count, offset, 0).

(** The loop that moves [iov] past [r] bytes. *)
Fixpoint advance_iov (r : Z) (iov : list iovec) : list iovec :=
  match iov with
  | [] => []
  | (base, len) :: rest =>
      if decide (r = 0) then iov
      else if decide (len <= r) then advance_iov (r - len) rest
      else (ptr_add base r, len - r) :: rest
  end.

(** [count] is the length of [iov]. *)
Definition fullv_round (f : list iovec -> Z -> M S sysret) (st : list iovec * Z * Z) :
    M S ((list iovec * Z * Z) + sysret) :=
  let '(iov, offset, totalBytes) := st in
  '(r, errno) ← f (take (Z.to_nat (Z.min (zlen iov) IOV_MAX)) iov) offset;
  if decide (r = -1) then
    if decide (errno = EINTR) then
      mret (if decide (iov <> []) then inl (iov, offset, totalBytes) else inr (totalBytes, 0))
    else mret (inr (r, errno))
  else if decide (r = 0) then mret (inr (totalBytes, 0))
  else
    let totalBytes := totalBytes + r in
    let offset := offset + r in
    let iov := advance_iov r iov in
    mret (if decide (iov <> []) then inl (iov, offset, totalBytes) else inr (totalBytes, 0)).

Definition wrapvFull (fuel : nat) (f : list iovec -> Z -> M S sysret) (iov : list iovec) (offset : Z) : M S sysret :=
  iter fuel (fullv_round f) (iov, offset, 0).

(** ** What the wrappers rely on *)

(** The addresses that a buffer covers, and those that an array of iovecs covers. *)
Definition block_cells (v : iovec) : list P := ptr_add v.1 <$> seqZ 0 v.2.
Definition block_sized (v : iovec) : Prop := 0 <= v.2.
Definition cells (iov : list iovec) : list P := concat (block_cells <$> iov).
Definition iov_sized (iov : list iovec) : Prop := Forall block_sized iov.

(** A system call that moves bytes between memory and a file: [moved cs off s s']
    says that the bytes at the addresses [cs] were moved to or from the offset
    [off] on.  A call fails, having done nothing, or moves a prefix of what was
    asked for, an empty one only at the end of the file; it is interrupted a
    limited number of times.  [A] is what is passed to the call, a buffer or an
    array, [sized] says that its lengths are not negative (they are unsigned) and
    [cells_of] gives the addresses in it. *)
Class Transfers {A} (sized : A -> Prop) (cells_of : A -> list P) (f : A -> Z -> M S sysret) := {
  valid : list P -> S -> Prop;
  moved : list P -> Z -> S -> S -> Prop;
  at_eof : S -> Prop;
  interrupts : S -> nat;
  valid_app : forall a b s, valid (a ++ b) s -> valid a s /\ valid b s;
  moved_nil : forall off s, moved [] off s s;
  moved_app : forall a b off s1 s2 s3, 0 <= off ->
    moved a off s1 s2 -> moved b (off + zlen a) s2 s3 -> moved (a ++ b) off s1 s3;
  moved_valid : forall a b off s s', moved a off s s' -> valid b s -> valid b s';
  f_spec : forall v off s, sized v -> 0 <= off -> valid (cells_of v) s ->
    wp (f v off) s (fun '(r, errno) s' =>
      (r = -1 /\ moved [] off s s' /\ (errno = EINTR -> interrupts s' < interrupts s)%nat) \/
      (0 <= r <= zlen (cells_of v) /\ moved (take (Z.to_nat r) (cells_of v)) off s s' /\
       (interrupts s' <= interrupts s)%nat /\ (r = 0 -> cells_of v = [] \/ at_eof s'))) nothrow
}.

(** One call of [f], and a call of [f] at [off], after some others, that ended in
    [s'] with [r]. *)
Definition called {A} (f : A -> Z -> M S sysret) (s s' : S) : Prop := exists v off r, f v off s = Ok r s'.
Definition ended_in {A} (f : A -> Z -> M S sysret) (off : Z) (s : S) (r : sysret) (s' : S) : Prop :=
  exists v s1, rtc (called f) s s1 /\ f v off s1 = Ok r s'.

(** A call that was repeated: the last one failed, after the first [n] bytes, or
    it moved everything up to the end of the file. *)
Definition transferred {A} {sized : A -> Prop} {cells_of : A -> list P} {f} `{!Transfers sized cells_of f} (cs : list P) (off : Z) (s : S) (r : sysret) (s' : S) : Prop :=
  exists n, (n <= length cs)%nat /\ moved (take n cs) off s s' /\
    (r.1 = -1 /\ r.2 <> EINTR /\ ended_in f (off + Z.of_nat n) s r s' \/
     r.1 = Z.of_nat n /\ (n = length cs \/ at_eof s')).

Context (ptr_add_0 : forall p, ptr_add p 0 = p) (ptr_add_add : forall p i j, ptr_add (ptr_add p i) j = ptr_add p (i + j)).

Definition positive_iov (iov : list iovec) : Prop := Forall (fun v => 0 < v.2) iov.

Lemma cells_cons base len iov : cells ((base, len) :: iov) = block_cells (base, len) ++ cells iov.
Proof. done. Qed.

Lemma cells_app iov iov' : cells (iov ++ iov') = cells iov ++ cells iov'.
Proof. unfold cells. by rewrite fmap_app, concat_app. Qed.

Lemma zlen_block base len : 0 <= len -> zlen (block_cells (base, len)) = len.
Proof. intros. unfold zlen, block_cells. simpl. rewrite length_fmap, length_seqZ. lia. Qed.

(** The rest of a block. *)
Lemma drop_block base len r : 0 <= r <= len ->
  drop (Z.to_nat r) (block_cells (base, len)) = block_cells (ptr_add base r, len - r).
Proof.
  intros Hr. unfold block_cells. simpl. replace len with (r + (len - r)) at 1 by lia. rewrite seqZ_app, fmap_app by lia.
  rewrite drop_app_length' by (rewrite length_fmap, length_seqZ; lia).
  apply list_eq. intros i. rewrite !list_lookup_fmap. destruct (decide (Z.of_nat i < len - r)).
  - rewrite !lookup_seqZ_lt by lia. simpl. rewrite ptr_add_add. do 2 f_equal; lia.
  - by rewrite !lookup_seqZ_ge by lia.
Qed.

Lemma cells_advance r iov : positive_iov iov -> 0 <= r <= zlen (cells iov) ->
  cells (advance_iov r iov) = drop (Z.to_nat r) (cells iov) /\ positive_iov (advance_iov r iov).
Proof.
  intros Hp. revert r. induction Hp as [|[base len] iov Hl Hp IH]; intros r Hr.
  { split; [|by constructor]. change (cells []) with (@nil P). by rewrite drop_nil. }
  simpl in Hl. rewrite cells_cons, zlen_app, zlen_block in Hr by lia. cbn [advance_iov].
  destruct (decide (r = 0)) as [->|]; [split; [done|by constructor]|]. case_decide as Hle.
  - destruct (IH (r - len)) as [-> Hp']; [lia|]. split; [|done]. rewrite cells_cons.
    rewrite drop_app_ge by (unfold block_cells; rewrite length_fmap, length_seqZ; simpl; lia). f_equal.
    unfold block_cells. rewrite length_fmap, length_seqZ. simpl. lia.
  - split; [|constructor; [simpl; lia|done]]. rewrite !cells_cons.
    rewrite drop_app_le by (unfold block_cells; rewrite length_fmap, length_seqZ; simpl; lia). by rewrite drop_block by lia.
Qed.

Lemma cells_positive iov : positive_iov iov -> cells iov = [] -> iov = [].
Proof.
  intros Hp H. destruct Hp as [|[base len] iov Hl _]; [done|]. simpl in Hl. apply (f_equal zlen) in H.
  rewrite cells_cons, zlen_app, zlen_block in H by lia. pose proof (zlen_nonneg (cells iov)). change (zlen []) with 0 in H. lia.
Qed.

Section Full.
Context {A} {sized : A -> Prop} {cells_of : A -> list P} (f : A -> Z -> M S sysret) `{!Transfers sized cells_of f}.

(** One more call after the first [n] bytes were moved. *)
Lemma moved_further (cs : list P) n r off s s1 s2 : 0 <= off ->
  moved (take n cs) off s s1 -> (n <= length cs)%nat ->
  moved (take r (drop n cs)) (off + Z.of_nat n) s1 s2 -> moved (take (n + r) cs) off s s2.
Proof.
  intros Ho H1 Hn H2. rewrite <- (take_take_drop cs n r). eapply moved_app; [done|exact H1|].
  unfold zlen. rewrite length_take. by replace (n `min` length cs)%nat with n by lia.
Qed.

(** Nothing is left after the first [n] bytes. *)
Lemma transferred_all (cs : list P) n off s s' e : (n <= length cs)%nat -> moved (take n cs) off s s' ->
  drop n cs = [] \/ at_eof s' -> transferred (f := f) cs off s (Z.of_nat n, e) s'.
Proof.
  intros Hn Hm Hend. exists n. split_and!; [done|done|]. right. split; [done|]. destruct Hend as [Hend|]; [left|by right].
  apply (f_equal length) in Hend. rewrite length_drop in Hend. simpl in Hend. lia.
Qed.

End Full.

(** [wrapNoInt] ends when interruptions do, with a result that is not one. *)
Lemma wrapNoInt_wp fuel (f : M S sysret) (I : nat -> S -> Prop) (Q : sysret -> S -> Prop) n s :
  (forall n s, I n s -> wp f s (fun r s' =>
     if decide (r.1 = -1 /\ r.2 = EINTR) then exists n', (n' < n)%nat /\ I n' s' else Q r s') nothrow) ->
  (n < fuel)%nat -> I n s ->
  wp (wrapNoInt fuel f) s (fun r s' => Q r s' /\ ~ (r.1 = -1 /\ r.2 = EINTR)) nothrow.
Proof.
  intros Hf Hn HI. unfold wrapNoInt. apply (wp_iter _ (fun n _ s => I n s)) with (n := n); [|done|done].
  intros m [] s1 HI1. apply wp_bind. eapply wp_wand; [by apply Hf|]. intros [r e] s2 H. cbn [fst snd] in H.
  apply wp_ret. case_decide; [done|]. by split.
Qed.

(** *** Arrays *)

Section Vectors.
Context (f : list iovec -> Z -> M S sysret) `{!Transfers iov_sized cells f}.

(** What the first [n] bytes leave to do. *)
Definition progress (iov : list iovec) (off : Z) (s : S) (m : nat) (st : list iovec * Z * Z) (s1 : S) : Prop :=
  let '(v, o, t) := st in exists n, t = Z.of_nat n /\ (n <= length (cells iov))%nat /\
    positive_iov v /\ cells v = drop n (cells iov) /\ o = off + t /\ moved (take n (cells iov)) off s s1 /\
    m = (length (cells v) + interrupts s1)%nat /\ rtc (called f) s s1.

(** The calls see the first entries only; they are not empty when any is left. *)
Lemma window_split v : let w := take (Z.to_nat (Z.min (zlen v) IOV_MAX)) v in
  (exists rest, cells v = cells w ++ rest) /\ (positive_iov v -> cells w = [] -> v = []).
Proof.
  intros w. split.
  - eexists. unfold w. by rewrite <- cells_app, take_drop.
  - intros Hp Hnil. apply cells_positive in Hnil; [|by apply Forall_take]. destruct v as [|x v]; [done|]. exfalso.
    apply (f_equal length) in Hnil. unfold w, IOV_MAX, zlen in Hnil. rewrite length_take in Hnil. simpl in Hnil. lia.
Qed.

Lemma fullv_round_wp iov off s m st s1 : 0 <= off -> valid (cells iov) s -> progress iov off s m st s1 ->
  wp (fullv_round f st) s1 (fun r s2 => match r with
    | inl st' => exists m', (m' < m)%nat /\ progress iov off s m' st' s2
    | inr r => transferred (f := f) (cells iov) off s r s2
    end) nothrow.
Proof.
  destruct st as [[v o] t]. intros Ho Hv (n & -> & Hn & Hpv & Hcv & -> & Hmv & -> & Hcalls). unfold fullv_round.
  destruct (window_split v) as [[rest Hvw] Hempty]. set (w := take (Z.to_nat (Z.min (zlen v) IOV_MAX)) v) in *.
  assert (Hval : valid (cells w) s1).
  { eapply moved_valid; [exact Hmv|]. rewrite <- (take_drop n (cells iov)), <- Hcv, Hvw in Hv. apply valid_app in Hv as [_ Hv].
    by apply valid_app in Hv as [? _]. }
  apply wp_bind. eapply wp_wand; [apply wp_equation, f_spec; [|lia|done]|].
  { apply Forall_take. eapply Forall_impl; [exact Hpv|]. unfold block_sized. lia. }
  intros [r e] s2 [Hspec Hrun]. assert (Hcalls2 : rtc (called f) s s2) by (eapply rtc_r; [exact Hcalls|by eexists _, _, _]).
  destruct Hspec as [(-> & Hm0 & Hint)|(Hr & Hmr & Hint & Heof)].
  - rewrite decide_True by done.
    assert (Hm2 : moved (take n (cells iov)) off s s2).
    { replace n with (n + 0)%nat by lia. by eapply moved_further. }
    case_decide as He; [case_decide as Hve|]; apply wp_ret.
    + exists (length (cells v) + interrupts s2)%nat. split; [specialize (Hint He); lia|]. by exists n.
    + apply transferred_all; [done|done|]. left. by rewrite <- Hcv, Hve.
    + exists n. split_and!; [done|done|]. left. split_and!; [done|done|]. by exists w, s1.
  - rewrite decide_False by lia.
    assert (Hmore : moved (take (n + Z.to_nat r) (cells iov)) off s s2).
    { eapply moved_further; [done|done|done|]. rewrite <- Hcv, Hvw. rewrite take_app_le by (unfold zlen in Hr; lia). done. }
    assert (Hlv : zlen (cells w) + zlen rest = zlen (cells iov) - Z.of_nat n).
    { rewrite <- zlen_app, <- Hvw, Hcv. unfold zlen. rewrite length_drop. lia. }
    pose proof (zlen_nonneg rest). case_decide as Hr0.
    + subst r. apply wp_ret. rewrite Nat.add_0_r in Hmore. apply transferred_all; [done|done|].
      destruct (Heof eq_refl) as [Hnil|]; [left|by right]. rewrite <- Hcv. by rewrite (Hempty Hpv Hnil).
    + destruct (cells_advance r v Hpv) as [Hca Hpa]; [rewrite Hvw, zlen_app; lia|]. rewrite Hcv, drop_drop in Hca.
      case_decide as Hne; apply wp_ret.
      * exists (length (cells (advance_iov r v)) + interrupts s2)%nat. rewrite Hca, Hcv, !length_drop. unfold zlen in *. split; [lia|].
        exists (n + Z.to_nat r)%nat. split_and!; try done; lia || by rewrite Hca, length_drop.
      * replace (Z.of_nat n + r) with (Z.of_nat (n + Z.to_nat r)) by lia. rewrite Hne in Hca. unfold zlen in *.
        apply transferred_all; [lia|done|by left].
Qed.

(** [wrapvFull], for the calls on arrays of iovecs, ends, and it has failed with
    an error that is not an interruption, after a part of the bytes, or it has
    moved every byte in order, unless the file ended. *)
Lemma wrapvFull_wp fuel iov off s : positive_iov iov -> 0 <= off -> valid (cells iov) s ->
  (length (cells iov) + interrupts s < fuel)%nat ->
  wp (wrapvFull fuel f iov off) s (fun r s' => transferred (f := f) (cells iov) off s r s') nothrow.
Proof.
  intros Hp Ho Hv Hfuel. unfold wrapvFull.
  apply (wp_iter _ (progress iov off s)) with (n := (length (cells iov) + interrupts s)%nat); [|done|].
  - intros. by apply fullv_round_wp.
  - exists 0%nat. split_and!; try done; [lia|lia|apply moved_nil].
Qed.
End Vectors.

(** *** Buffers *)

Section Buffers.
Context (f : P -> Z -> Z -> M S sysret) `{!Transfers block_sized block_cells (fun v => f v.1 v.2)}.

Definition buffer_progress (b0 : P) (count0 off : Z) (s : S) (m : nat) (st : P * Z * Z * Z) (s1 : S) : Prop :=
  let '(b, count, o, t) := st in 0 <= t <= count0 /\ b = ptr_add b0 t /\ count = count0 - t /\ o = off + t /\
    moved (take (Z.to_nat t) (block_cells (b0, count0))) off s s1 /\ m = (Z.to_nat count + interrupts s1)%nat /\
    rtc (called (fun v => f v.1 v.2)) s s1.

Lemma full_round_wp b0 count0 off s m st s1 :
  0 <= off -> 0 <= count0 < 2 ^ 64 -> valid (block_cells (b0, count0)) s -> buffer_progress b0 count0 off s m st s1 ->
  wp (full_round f st) s1 (fun r s2 => match r with
    | inl st' => exists m', (m' < m)%nat /\ buffer_progress b0 count0 off s m' st' s2
    | inr r => transferred (f := fun v => f v.1 v.2) (block_cells (b0, count0)) off s r s2
    end) nothrow.
Proof.
  destruct st as [[[b count] o] t]. intros Ho Hc Hv (Ht & -> & -> & -> & Hm & -> & Hcalls). unfold full_round.
  set (cs := block_cells (b0, count0)) in *.
  assert (Hlen : length cs = Z.to_nat count0) by (unfold cs, block_cells; by rewrite length_fmap, length_seqZ).
  assert (Hrest : block_cells (ptr_add b0 t, count0 - t) = drop (Z.to_nat t) cs) by (symmetry; by apply drop_block).
  assert (Hval : valid (block_cells (ptr_add b0 t, count0 - t)) s1).
  { eapply moved_valid; [exact Hm|]. rewrite <- (take_drop (Z.to_nat t) cs), <- Hrest in Hv. by apply valid_app in Hv as [_ Hv]. }
  assert (Hsz : block_sized (ptr_add b0 t, count0 - t)) by (unfold block_sized; simpl; lia).
  pose proof (f_spec (ptr_add b0 t, count0 - t) (off + t) s1 Hsz ltac:(lia) Hval) as Hf. cbn [fst snd] in Hf.
  apply wp_bind. eapply wp_wand; [apply wp_equation, Hf|]. clear Hf. rewrite Hrest.
  assert (Hzr : zlen (drop (Z.to_nat t) cs) = count0 - t) by (unfold zlen; rewrite length_drop; lia). rewrite Hzr.
  assert (Hoff : off + t = off + Z.of_nat (Z.to_nat t)) by lia.
  intros [r e] s2 [Hspec Hrun].
  assert (Hcalls2 : rtc (called (fun v => f v.1 v.2)) s s2)
    by (eapply rtc_r; [exact Hcalls|by exists (ptr_add b0 t, count0 - t), (off + t), (r, e)]).
  destruct Hspec as [(-> & Hm0 & Hint)|(Hr & Hmr & Hint & Heof)].
  - rewrite decide_True by done.
    assert (Hm2 : moved (take (Z.to_nat t) cs) off s s2).
    { replace (Z.to_nat t) with (Z.to_nat t + 0)%nat by lia. rewrite Hoff in Hm0. eapply moved_further; [done|done|lia|exact Hm0]. }
    case_decide as He; [case_decide as Hve|]; apply wp_ret.
    + exists (Z.to_nat (count0 - t) + interrupts s2)%nat. split; [specialize (Hint He); lia|]. by split_and!; try lia.
    + replace t with (Z.of_nat (Z.to_nat t)) by lia. apply transferred_all; [lia|done|]. left. apply drop_ge. lia.
    + exists (Z.to_nat t). split_and!; [lia|done|]. left. split_and!; [done|done|]. rewrite <- Hoff.
      by exists (ptr_add b0 t, count0 - t), s1.
  - rewrite decide_False by lia. rewrite u64_small by lia. rewrite ptr_add_add.
    assert (Hmore : moved (take (Z.to_nat (t + r)) cs) off s s2).
    { replace (Z.to_nat (t + r)) with (Z.to_nat t + Z.to_nat r)%nat by lia. rewrite Hoff in Hmr. eapply moved_further; [done|done|lia|exact Hmr]. }
    case_decide as Hgo; apply wp_ret.
    + exists (Z.to_nat (count0 - t - r) + interrupts s2)%nat. split; [lia|]. split_and!; try done; try lia.
    + replace (t + r) with (Z.of_nat (Z.to_nat (t + r))) by lia. apply transferred_all; [lia|done|].
      destruct (decide (r = 0)) as [->|].
      * destruct (Heof eq_refl) as [Hnil|]; [left|by right]. by rewrite Z.add_0_r.
      * left. apply drop_ge. lia.
Qed.

(** [wrapFull] likewise, for the calls on one buffer. *)
Lemma wrapFull_wp fuel b count off s : 0 <= off -> 0 <= count < 2 ^ 64 -> valid (block_cells (b, count)) s ->
  (Z.to_nat count + interrupts s < fuel)%nat ->
  wp (wrapFull fuel f b count off) s
    (fun r s' => transferred (f := fun v => f v.1 v.2) (block_cells (b, count)) off s r s') nothrow.
Proof.
  intros Ho Hc Hv Hfuel. unfold wrapFull.
  apply (wp_iter _ (buffer_progress b count off s)) with (n := (Z.to_nat count + interrupts s)%nat); [|done|].
  - intros. by apply full_round_wp.
  - split_and!; try done; try lia. apply moved_nil.
Qed.
End Buffers.
End Wrappers.

(** ** Whole files *)

Section Files.
Context {K : Type} `{!FileKernel K}.

(** A container and the kernel. *)
Abbreviation File := (list Z * K)%type.

Definition on_kernel {A} (f : K -> A * K) : M File A :=
  fun '(out, k) => let '(a, k') := f k in Ok a (out, k').

(** [read(fd, &out[b], count)] and [write(fd, &out[b], count)]. *)
Definition sys_read (b count offset : Z) : M File sysret :=
  '(r, errno, bs) ← on_kernel (read count);
  if decide (r = -1) then mret (r, errno) else
  '(out, k) ← get;
  assert (bool_decide (bs = [] \/ 0 <= b /\ b + zlen bs <= zlen out)) "read past the container";;
  put (overwrite b bs out, k);; mret (r, errno).

Definition sys_write (b count offset : Z) : M File sysret :=
  '(out, k) ← get;
  assert (bool_decide (count = 0 \/ 0 <= b /\ b + count <= zlen out)) "write past the container";;
  on_kernel (write (slice b count out)).

(** The number of calls is bounded by that of the bytes and of the signals. *)
Definition readFull (b n : Z) : M File sysret :=
  s ← get; wrapFull Z.add (S (Z.to_nat n + signals s.2)) sys_read b n 0.
Definition writeFull (b n : Z) : M File sysret :=
  s ← get; wrapFull Z.add (S (Z.to_nat n + signals s.2)) sys_write b n 0.

Definition out_size : M File Z := gets (fun s => zlen s.1).
Definition out_resize (n : Z) : M File unit :=
  modify (fun '(out, k) => (take (Z.to_nat n) out ++ replicate (Z.to_nat n - length out) 0, k)).

Definition initialAlloc : Z := 1024 * 4.

Definition readFile_round (num_bytes soFar : Z) : M File (Z + Z * bool) :=
  size ← out_size;
  if decide (soFar < size) then
    '(actual, errno) ← readFull soFar (size - soFar);
    if decide (actual = -1) then mret (inr (soFar, false)) else
    let soFar := u64 (soFar + actual) in
    if decide (soFar < size) then mret (inr (soFar, true)) else
    out_resize (Z.min (u64 (size * 3) / 2) num_bytes);;
    mret (inl soFar)
  else mret (inr (soFar, true)).

Definition readFile (num_bytes : Z) : M File bool :=
  s ← get;
  match fstat_size s.2 with
  | None => out_resize 0;; mret false
  | Some st_size =>
      out_resize (Z.min (if decide (0 < st_size) then u64 (st_size + 1) else initialAlloc) num_bytes);;
      '(soFar, ok) ← iter (S (S (length (contents s.2)))) (readFile_round num_bytes) 0;
      size ← out_size;
      assert (bool_decide (soFar <= size)) "out.size() >= soFar";;
      out_resize soFar;;
      mret ok
  end.

Definition writeFile : M File bool :=
  fd ← on_kernel open_trunc;
  if decide (fd = -1) then mret false else
  '(data, _) ← get;
  ok ← (if decide (data = []) then mret true
        else '(r, errno) ← writeFull 0 (zlen data); mret (bool_decide (r = zlen data)));
  c ← closeNoInt (on_kernel close);
  mret (bool_decide (c = 0) && ok).
End Files.

(** ** Writing to a file *)

Lemma file_write_end f bs : file_write (length f) bs f = f ++ bs.
Proof.
  unfold file_write. destruct bs as [|x bs]; [by rewrite app_nil_r|]. rewrite Nat.sub_diag. simpl. rewrite app_nil_r, firstn_all.
  by rewrite drop_ge, app_nil_r by lia.
Qed.

Lemma file_write_app o a b f : file_write (o + length a) b (file_write o a f) = file_write o (a ++ b) f.
Proof.
  destruct b as [|y b]; [by rewrite app_nil_r|]. destruct a as [|x a]; [simpl; by rewrite Nat.add_0_r|].
  unfold file_write at 1 2. set (pre := take o (f ++ replicate (o - length f) 0)).
  assert (Hpre : length pre = o) by (unfold pre; rewrite length_take, length_app, length_replicate; lia).
  set (rest := drop (o + length (x :: a)) f). rewrite (app_assoc pre). set (w := pre ++ x :: a).
  assert (Hw : (o + length (x :: a))%nat = length w) by (unfold w; rewrite length_app; lia). rewrite Hw.
  rewrite <- (app_assoc w), take_app_length. rewrite drop_app_ge by lia.
  change (file_write o ((x :: a) ++ y :: b) f) with (pre ++ ((x :: a) ++ y :: b) ++ drop (o + length ((x :: a) ++ y :: b)) f).
  unfold w at 1. rewrite <- !app_assoc. do 3 f_equal. unfold rest. rewrite drop_drop, length_app. f_equal. lia.
Qed.

Lemma lookup_file_write o bs f j : bs <> [] ->
  file_write o bs f !! j =
    if decide (o <= j < o + length bs)%nat then bs !! (j - o)%nat
    else if decide (j < length f)%nat then f !! j else if decide (j < o)%nat then Some 0 else None.
Proof.
  intros Hne. unfold file_write. destruct bs as [|x bs']; [done|]. set (bs := x :: bs') in *.
  set (pre := take o (f ++ replicate (o - length f) 0)).
  assert (Hpre : length pre = o) by (unfold pre; rewrite length_take, length_app, length_replicate; lia).
  destruct (decide (j < o)%nat) as [Hj|Hj].
  - rewrite decide_False by lia. rewrite lookup_app_l by lia. unfold pre. rewrite lookup_take_lt by lia. case_decide.
    + by rewrite lookup_app_l by lia.
    + rewrite lookup_app_r by lia. rewrite lookup_replicate_2 by lia. done.
  - rewrite lookup_app_r, Hpre by lia. case_decide as Hin; [by rewrite lookup_app_l by lia|].
    rewrite lookup_app_r, lookup_drop by lia. case_decide.
    + f_equal. lia.
    + apply lookup_ge_None_2. lia.
Qed.


(** ** Whole files, verified *)

(** Stores at some indices of a container. *)
Fixpoint put_cells (cs bs out : list Z) : list Z :=
  match cs, bs with
  | c :: cs, x :: bs => put_cells cs bs (<[Z.to_nat c := x]> out)
  | _, _ => out
  end.

Lemma length_put_cells cs bs out : length (put_cells cs bs out) = length out.
Proof. revert bs out. induction cs as [|c cs IH]; intros [|x bs] out; try done. simpl. by rewrite IH, length_insert. Qed.

Lemma put_cells_nil cs out : put_cells cs [] out = out.
Proof. by destruct cs. Qed.

Lemma put_cells_app a b bs bs' out : length bs = length a ->
  put_cells (a ++ b) (bs ++ bs') out = put_cells b bs' (put_cells a bs out).
Proof. revert bs out. induction a as [|c a IH]; intros [|x bs] out Hl; try done. simpl. apply IH. simpl in Hl. lia. Qed.

Lemma block_cells_cons b n : 0 <= n -> block_cells Z.add (b, n + 1) = b :: block_cells Z.add (b + 1, n).
Proof.
  intros Hn. unfold block_cells. cbn [fst snd]. rewrite !fmap_add_seqZ, !Z.add_0_r, seqZ_cons by lia.
  unfold Z.succ. by replace (Z.pred (n + 1)) with n by lia.
Qed.

Lemma put_cells_block bs : forall b out, 0 <= b -> b + zlen bs <= zlen out ->
  put_cells (block_cells Z.add (b, zlen bs)) bs out = overwrite b bs out.
Proof.
  induction bs as [|x bs IH]; intros b out Hb Hle; [by rewrite overwrite_nil|].
  assert (Hz : zlen (x :: bs) = zlen bs + 1) by (unfold zlen; simpl; lia). rewrite Hz in Hle |- *.
  pose proof (zlen_nonneg bs). rewrite block_cells_cons by lia. simpl. rewrite IH by (unfold zlen in *; rewrite ?length_insert; lia).
  unfold overwrite, zlen in *. replace (Z.to_nat (b + 1)) with (S (Z.to_nat b)) by lia.
  rewrite (take_S_r _ _ x) by (apply list_lookup_insert_eq; lia). rewrite take_insert_ge, drop_insert_lt by lia.
  rewrite <- app_assoc. simpl. by rewrite Nat.add_succ_r.
Qed.

Section FilesCorrect.
Context {K : Type} `{!FileKernel K}.
Abbreviation File := (list Z * K)%type.

(** What [read] may still deliver. *)
Definition remaining (k : K) : list Z := drop (Z.to_nat (position k)) (contents k).

Definition inside (cs : list Z) (s : File) : Prop := Forall (fun c => 0 <= c < zlen s.1) cs.

Definition read_into (cs : list Z) (s s' : File) : Prop :=
  contents s'.2 = contents s.2 /\ position s'.2 = position s.2 + zlen cs /\ (length cs <= length (remaining s.2))%nat /\
  s'.1 = put_cells cs (take (length cs) (remaining s.2)) s.1.

Lemma inside_block b n (s : File) : 0 <= b -> b + n <= zlen s.1 -> inside (block_cells Z.add (b, n)) s.
Proof.
  intros Hb Hn. unfold inside, block_cells. cbn [fst snd]. rewrite fmap_add_seqZ, Z.add_0_r. apply Forall_seqZ. lia.
Qed.

Lemma block_inside b n (s : File) : 0 < n -> inside (block_cells Z.add (b, n)) s -> 0 <= b /\ b + n <= zlen s.1.
Proof.
  intros Hn. unfold inside, block_cells. cbn [fst snd]. rewrite fmap_add_seqZ, Z.add_0_r, Forall_seqZ. intros H.
  pose proof (H b ltac:(lia)). pose proof (H (b + n - 1) ltac:(lia)). lia.
Qed.

Lemma take_block b n r : 0 <= r <= n -> take (Z.to_nat r) (block_cells Z.add (b, n)) = block_cells Z.add (b, r).
Proof.
  intros Hr. unfold block_cells. cbn [fst snd]. rewrite !fmap_add_seqZ.
  replace n with (r + (n - r)) by lia. rewrite seqZ_app by lia. apply take_app_length'. rewrite length_seqZ. lia.
Qed.

Lemma length_block b n : length (block_cells Z.add (b, n)) = Z.to_nat n.
Proof. unfold block_cells. by rewrite length_fmap, length_seqZ. Qed.

#[export, refine] Instance read_transfers :
  Transfers block_sized (block_cells Z.add) (fun v : Z * Z => sys_read (K := K) v.1 v.2) := {
  valid cs s := inside cs s;
  moved cs off s s' := read_into cs s s';
  at_eof s := remaining s.2 = [];
  interrupts s := signals s.2
}.
Proof.
  - intros a b s H. by apply Forall_app in H.
  - intros off s. split_and!; try done; [by rewrite Z.add_0_r|simpl; lia].
  - intros a b off s1 s2 s3 _ (C1 & P1 & L1 & O1) (C2 & P2 & L2 & O2).
    pose proof (position_nonneg s1.2) as Hp.
    assert (Hrem : remaining s2.2 = drop (length a) (remaining s1.2)).
    { unfold remaining. rewrite C1, P1, drop_drop. f_equal. unfold zlen. lia. }
    rewrite Hrem, length_drop in L2. split_and!; [congruence|rewrite zlen_app; lia|rewrite length_app; lia|].
    rewrite O2, O1, Hrem, length_app, <- take_take_drop. symmetry. apply put_cells_app. rewrite length_take. lia.
  - intros a b off s s' (_ & _ & _ & O) Hv. unfold inside, zlen in *. by rewrite O, length_put_cells.
  - intros [b count] off [out k] Hsz _ Hv. unfold block_sized in Hsz. cbn [fst snd] in *. unfold sys_read.
    pose proof (read_spec count k Hsz) as Hr. apply wp_bind. unfold on_kernel, wp at 1.
    destruct (read count k) as [[[r e] bs] k']. cbn [fst snd] in *. destruct Hr as [Hc [(-> & Hp & Hs)|(Hr & Hz & Hb & Hp & Hs & H0)]].
    + apply wp_ret. left. split; [done|]. split; [|done]. split_and!; cbn [fst snd]; try done; change (zlen []) with 0; simpl; lia.
    + rewrite decide_False by lia. apply wp_bind, wp_get.
      assert (Hin : bs = [] \/ 0 <= b /\ b + zlen bs <= zlen out).
      { destruct (decide (count = 0)) as [->|]; [left; apply nil_length_inv; unfold zlen in Hz; lia|right].
        apply block_inside in Hv; [|lia]. simpl in Hv. lia. }
      apply wp_bind, wp_assert; [by apply bool_decide_eq_true|]. apply wp_bind, wp_put, wp_ret. right.
      assert (Hlen : length (block_cells Z.add (b, count)) = Z.to_nat count) by apply length_block.
      assert (Hbr : (Z.to_nat r <= length (remaining k))%nat).
      { unfold remaining. pose proof (f_equal length Hb) as Hl. rewrite length_take in Hl. unfold zlen in Hz. lia. }
      unfold zlen at 1. rewrite Hlen. split_and!; try done; try lia.
      * split_and!; simpl; [done| | |]; rewrite ?take_block by lia; unfold zlen; rewrite ?length_block; try lia.
        fold (remaining k) in Hb. rewrite <- Hb. destruct Hin as [->|Hin]; [by rewrite overwrite_nil, put_cells_nil|].
        rewrite <- Hz. symmetry. apply put_cells_block; lia.
      * intros Hr0. destruct (H0 Hr0) as [->|Hend]; [by left|right]. unfold remaining. simpl. rewrite Hp, Hc. apply drop_ge.
        unfold zlen in Hend. lia.
Defined.

(** [readFull]: all of the bytes, unless the file ends, or a failure. *)
Lemma readFull_wp b n out k : 0 <= b -> 0 <= n < 2 ^ 64 -> b + n <= zlen out ->
  wp (readFull (K := K) b n) (out, k)
    (fun r s => exists j, (j <= Z.to_nat n)%nat /\ (j <= length (remaining k))%nat /\
       contents s.2 = contents k /\ position s.2 = position k + Z.of_nat j /\
       s.1 = overwrite b (take j (remaining k)) out /\
       (r.1 = -1 \/ r.1 = Z.of_nat j /\ (j = Z.to_nat n \/ remaining s.2 = []))) nothrow.
Proof.
  intros Hb Hn Hle. unfold readFull. apply wp_bind, wp_get.
  eapply wp_wand; [apply (wrapFull_wp Z.add)|].
  - intros p. lia.
  - intros p i j. lia.
  - done.
  - lia.
  - by apply inside_block.
  - simpl. lia.
  - intros [r e] [out' k'] (j & Hj & (C & P & L & O) & Hr). rewrite length_block in Hj. exists j. cbn [fst snd] in *.
    assert (Htk : take j (block_cells Z.add (b, n)) = block_cells Z.add (b, Z.of_nat j)).
    { rewrite <- (Nat2Z.id j) at 1. apply take_block. lia. }
    rewrite Htk in P, L, O. unfold zlen in P. rewrite length_block, Nat2Z.id in P, L, O. split_and!; try done.
    + rewrite O. assert (Hz : zlen (take j (remaining k)) = Z.of_nat j) by (unfold zlen; rewrite length_take; lia).
      rewrite <- Hz. apply put_cells_block; lia.
    + destruct Hr as [[? _]|[Hr He]]; [by left|right]. split; [done|]. rewrite length_block in He. done.
Qed.

Lemma take_overwritten (out bs : list Z) n : 0 <= n <= zlen out ->
  take (Z.to_nat n + length bs) (overwrite n bs out) = take (Z.to_nat n) out ++ bs.
Proof.
  intros Hn. unfold overwrite, zlen in *. rewrite app_assoc. apply take_app_length'. rewrite length_app, length_take. lia.
Qed.

(** The state of the loop: the first [soFar] bytes of the container are those that
    the file had at the start. *)
Definition reading (k0 : K) (num_bytes : Z) (n : nat) (soFar : Z) (s : File) : Prop :=
  contents s.2 = contents k0 /\ 0 <= soFar <= zlen s.1 /\ soFar <= zlen (remaining k0) /\
  position s.2 = position k0 + soFar /\ take (Z.to_nat soFar) s.1 = take (Z.to_nat soFar) (remaining k0) /\
  zlen s.1 <= num_bytes /\ (zlen s.1 = num_bytes \/ soFar < zlen s.1 /\ 2 <= zlen s.1) /\ zlen s.1 < 2 ^ 62 /\
  Z.of_nat n = zlen (remaining k0) - soFar.

Lemma remaining_moved (k k' : K) j : contents k' = contents k -> position k' = position k + j -> 0 <= j ->
  remaining k' = drop (Z.to_nat j) (remaining k).
Proof.
  intros Hc Hp Hj. unfold remaining. rewrite Hc, Hp, drop_drop. pose proof (position_nonneg k). f_equal. lia.
Qed.

(** What [readFile] has when the loop ends. *)
Definition was_read (k0 : K) (num_bytes : Z) (res : Z * bool) (s : File) : Prop :=
  0 <= res.1 <= zlen s.1 /\ take (Z.to_nat res.1) s.1 = take (Z.to_nat res.1) (remaining k0) /\
  res.1 <= zlen (remaining k0) /\ (res.2 = true -> res.1 = Z.min num_bytes (zlen (remaining k0))).

Lemma wp_resize n (s : File) (Q : unit -> File -> Prop) E :
  Q tt (take (Z.to_nat n) s.1 ++ replicate (Z.to_nat n - length s.1) 0, s.2) -> wp (out_resize n) s Q E.
Proof. intros HQ. destruct s. by apply wp_modify. Qed.

Lemma zlen_resize n (out : list Z) : 0 <= n -> zlen (take (Z.to_nat n) out ++ replicate (Z.to_nat n - length out) 0) = n.
Proof. intros. unfold zlen. rewrite length_app, length_take, length_replicate. lia. Qed.

Lemma readFile_round_wp k0 num_bytes n soFar s : zlen (contents k0) < 2 ^ 61 -> reading k0 num_bytes n soFar s ->
  wp (readFile_round num_bytes soFar) s (fun r s' => match r with
    | inl soFar' => exists n', (n' < n)%nat /\ reading k0 num_bytes n' soFar' s'
    | inr res => was_read k0 num_bytes res s'
    end) nothrow.
Proof.
  intros Hmax (Hc & Hs & Hrem & Hp & Hby & Hnum & Hsz & Hbig & Hn). unfold readFile_round, out_size. destruct s as [out k]. cbn [fst snd] in *.
  assert (Hrk : remaining k = drop (Z.to_nat soFar) (remaining k0)) by (apply remaining_moved; done || lia).
  assert (Hr0 : zlen (remaining k0) < 2 ^ 61).
  { unfold remaining, zlen in *. rewrite length_drop. lia. }
  apply wp_bind, wp_gets. cbn [fst]. case_decide as Hlt.
  2: { apply wp_ret. split_and!; simpl; try done; lia. }
  apply wp_bind. eapply wp_wand; [apply readFull_wp; lia|].
  intros [r e] [out' k'] (j & Hj & Hjr & Hc' & Hp' & Ho' & Hr). cbn [fst snd] in *. rewrite Hrk, length_drop in Hjr.
  assert (Hzo : zlen out' = zlen out).
  { rewrite Ho'. apply zlen_overwrite; [lia|]. unfold zlen in *. rewrite length_take. lia. }
  assert (Hby' : take (Z.to_nat soFar + j) out' = take (Z.to_nat soFar + j) (remaining k0)).
  { rewrite <- (take_take_drop (remaining k0)), <- Hby, <- Hrk, Ho'. pose proof (take_overwritten out (take j (remaining k)) soFar) as Ht.
    rewrite length_take, Hrk, length_drop, Nat.min_l in Ht by lia. rewrite <- Hrk in Ht. apply Ht. lia. }
  case_decide as Hm1.
  { apply wp_ret. split_and!; simpl; try done; [lia|lia|]. apply (f_equal (take (Z.to_nat soFar))) in Hby'.
    rewrite !take_take in Hby'. by rewrite !Nat.min_l in Hby' by lia. }
  destruct Hr as [?|[-> Hend]]; [done|]. unfold zlen in Hrem, Hn. rewrite u64_small by (unfold zlen in *; lia).
  assert (Hnat : Z.to_nat (soFar + Z.of_nat j) = (Z.to_nat soFar + j)%nat) by lia. case_decide as Hless.
  - apply wp_ret. destruct Hend as [->|Hend]; [lia|]. split_and!; cbn [fst snd]; [lia|lia|by rewrite Hnat|unfold zlen; lia|]. intros _.
    rewrite (remaining_moved k k' (Z.of_nat j)), Hrk, drop_drop in Hend by (done || congruence || lia).
    apply (f_equal length) in Hend. rewrite length_drop in Hend. simpl in Hend. unfold zlen in *. lia.
  - apply wp_bind, wp_resize, wp_ret. cbn [fst snd]. rewrite u64_small by lia.
    assert (Hfull : soFar + Z.of_nat j = zlen out) by lia.
    pose proof (Z.div_mod (zlen out * 3) 2 ltac:(lia)). pose proof (Z.mod_pos_bound (zlen out * 3) 2 ltac:(lia)).
    assert (Hz' : 0 <= Z.min (zlen out * 3 / 2) num_bytes) by lia.
    exists (length (remaining k0) - Z.to_nat soFar - j)%nat. split; [lia|]. split_and!; cbn [fst snd]; rewrite ?zlen_resize by done;
      unfold zlen in *; try lia; [congruence|].
    rewrite take_app_le by (rewrite length_take; lia). rewrite take_take, Nat.min_l, Hnat by lia. done.
Qed.

Lemma readFile_wp num_bytes out (k : K) : 0 <= num_bytes -> zlen (contents k) < 2 ^ 61 ->
  (forall n, fstat_size k = Some n -> n < 2 ^ 61) ->
  wp (readFile num_bytes) (out, k)
    (fun ok s => exists n, s.1 = take n (remaining k) /\
       (ok = true -> fstat_size k <> None /\ s.1 = take (Z.to_nat num_bytes) (remaining k))) nothrow.
Proof.
  intros Hnum Hmax Hstat. unfold readFile. apply wp_bind, wp_get. cbn [snd]. destruct (fstat_size k) as [st|] eqn:Hst.
  2: { apply wp_bind, wp_resize, wp_ret. by exists 0%nat. }
  specialize (Hstat st eq_refl). set (init := if decide (0 < st) then u64 (st + 1) else initialAlloc).
  assert (Hinit : 2 <= init < 2 ^ 62).
  { unfold init, initialAlloc. case_decide; [rewrite u64_small by lia|]; lia. }
  apply wp_bind, wp_resize. apply wp_bind. cbn [fst snd].
  assert (Hl : (length (remaining k) <= length (contents k))%nat) by (unfold remaining; rewrite length_drop; lia).
  eapply wp_wand; [apply (wp_iter _ (reading k num_bytes)) with (n := length (remaining k)); [|lia|]|].
  - intros n soFar s Hs. by apply readFile_round_wp.
  - pose proof (zlen_nonneg (remaining k)). split_and!; cbn [fst snd]; rewrite ?zlen_resize by lia; try done; try lia.
    unfold zlen. lia.
  - intros [soFar ok] [out' k'] (Hs & Hby & Hr & Hok). cbn [fst snd] in *. unfold out_size. apply wp_bind, wp_gets.
    apply wp_bind, wp_assert; [apply bool_decide_eq_true; simpl; lia|]. apply wp_bind, wp_resize, wp_ret. cbn [fst snd].
    assert (Heq : take (Z.to_nat soFar) out' ++ replicate (Z.to_nat soFar - length out') 0 = take (Z.to_nat soFar) (remaining k)).
    { unfold zlen in Hs. replace (Z.to_nat soFar - length out')%nat with 0%nat by lia. simpl. by rewrite app_nil_r. }
    exists (Z.to_nat soFar). split; [done|]. intros Htrue. split; [done|]. rewrite Heq, (Hok Htrue). unfold zlen.
    destruct (decide (num_bytes <= Z.of_nat (length (remaining k)))); [by rewrite Z.min_l by lia|].
    rewrite Z.min_r by lia. by rewrite !take_ge by lia.
Qed.

(** *** Writing *)

Definition picked (out : list Z) : list Z -> list Z -> Prop := Forall2 (fun c x => 0 <= c /\ out !! Z.to_nat c = Some x).

Lemma picked_block (out : list Z) b n : 0 <= b -> 0 <= n -> b + n <= zlen out ->
  picked out (block_cells Z.add (b, n)) (slice b n out).
Proof.
  intros Hb Hn Hle. unfold picked, block_cells. cbn [fst snd]. rewrite fmap_add_seqZ, Z.add_0_r.
  apply Forall2_same_length_lookup. split.
  - rewrite length_seqZ. pose proof (zlen_slice b n out Hb Hn Hle). unfold zlen in *. lia.
  - intros i c x Hc Hx. apply lookup_seqZ in Hc as [-> Hi]. split; [lia|]. unfold slice in Hx.
    rewrite lookup_take_lt, lookup_drop in Hx by lia. rewrite <- Hx. f_equal. lia.
Qed.

Lemma picked_det (out : list Z) cs bs bs' : picked out cs bs -> picked out cs bs' -> bs = bs'.
Proof.
  intros H. revert bs'. induction H as [|c x cs bs [_ Hc] _ IH]; intros bs' H'; inversion H' as [|? ? ? ? [_ Hc'] Hr]; simplify_eq; [done|].
  f_equal. by apply IH.
Qed.

#[export, refine] Instance write_transfers :
  Transfers block_sized (block_cells Z.add) (fun v : Z * Z => sys_write (K := K) v.1 v.2) := {
  valid cs s := exists bs, picked s.1 cs bs;
  moved cs off s s' := s'.1 = s.1 /\ position s'.2 = position s.2 + zlen cs /\ exists bs, picked s.1 cs bs /\
    contents s'.2 = file_write (Z.to_nat (position s.2)) bs (contents s.2);
  at_eof _ := False;
  interrupts s := signals s.2
}.
Proof.
  - intros a b s [bs H]. apply Forall2_app_inv_l in H as (b1 & b2 & H1 & H2 & ->). eauto.
  - intros off s. split_and!; [done|by rewrite Z.add_0_r|]. exists []. by split; [constructor|].
  - intros a b off s1 s2 s3 _ (O1 & P1 & ba & Ha & C1) (O2 & P2 & bb & Hb & C2). rewrite O1 in Hb.
    split_and!; [congruence|rewrite zlen_app; lia|]. exists (ba ++ bb). split; [by apply Forall2_app|].
    rewrite C2, C1, P1, <- file_write_app. do 2 f_equal. apply Forall2_length in Ha. pose proof (position_nonneg s1.2). unfold zlen. lia.
  - intros a b off s s' (O & _) [bs H]. exists bs. by rewrite O.
  - intros [b count] off [out k] Hsz _ [bs Hbs]. unfold block_sized in Hsz. cbn [fst snd] in *. unfold sys_write.
    apply wp_bind, wp_get. assert (Hin : count = 0 \/ 0 <= b /\ b + count <= zlen out).
    { destruct (decide (count = 0)); [by left|right]. apply (block_inside b count (out, k)); [lia|].
      unfold inside. simpl. eapply Forall2_Forall_l; [exact Hbs|]. apply Forall_true. intros x c [? Hc]. apply lookup_lt_Some in Hc.
      unfold zlen. lia. }
    apply wp_bind, wp_assert; [by apply bool_decide_eq_true|].
    assert (bs = slice b count out) as ->.
    { destruct Hin as [->|Hin]; [by inversion Hbs; rewrite slice_0|]. by eapply picked_det; [|apply picked_block; lia]. }
    unfold on_kernel, wp. pose proof (write_spec (slice b count out) k) as Hw. destruct (write (slice b count out) k) as [[r e] k'].
    cbn [fst snd]. pose proof (Forall2_length _ _ _ Hbs) as Hlen.
    destruct Hw as [(-> & Hc & Hp & Hi)|(Hr & H0 & Hi & Hp & Hc)]; [left|right].
    + split_and!; try done; [simpl; by rewrite Z.add_0_r|]. exists []. by split; [constructor|].
    + unfold zlen in *. split_and!; try done; try lia.
      * rewrite length_take. lia.
      * exists (take (Z.to_nat r) (slice b count out)). split; [by apply Forall2_take|done].
      * intros Hr0. left. rewrite (H0 Hr0) in Hlen. by apply nil_length_inv.
Defined.

Lemma writeFull_wp (data : list Z) (k : K) : zlen data < 2 ^ 64 -> position k = 0 -> contents k = [] ->
  wp (writeFull 0 (zlen data)) (data, k)
    (fun r s => s.1 = data /\ exists n, contents s.2 = take n data /\
       (r.1 = -1 \/ r.1 = zlen data /\ contents s.2 = data)) nothrow.
Proof.
  intros Hz Hp Hc. pose proof (zlen_nonneg data). unfold writeFull. apply wp_bind, wp_get.
  assert (Hpick : picked data (block_cells Z.add (0, zlen data)) data).
  { pose proof (picked_block data 0 (zlen data)) as Hpb. rewrite slice_full in Hpb. apply Hpb; lia. }
  eapply wp_wand; [apply (wrapFull_wp Z.add)|].
  - intros p. lia.
  - intros p i j. lia.
  - done.
  - lia.
  - by exists data.
  - simpl. lia.
  - intros [r e] [out' k'] (n & Hn & (O & P & bs & Hbs & C) & Hr). cbn [fst snd] in *. subst out'. rewrite length_block in *.
    assert (bs = take n data) as -> by (eapply picked_det; [exact Hbs|by apply Forall2_take]).
    assert (Hcont : contents k' = take n data).
    { rewrite C, Hp, Hc. exact (file_write_end [] (take n data)). }
    split; [done|]. exists n. split; [done|]. destruct Hr as [[? _]|[-> [->|[]]]]; [by left|right].
    rewrite Hcont. unfold zlen. rewrite Nat2Z.id, firstn_all. done.
Qed.

Lemma writeFile_wp (data : list Z) (k : K) : zlen data < 2 ^ 64 ->
  wp writeFile (data, k)
    (fun ok s => s.1 = data /\ (ok = true -> contents s.2 = data) /\
       (contents s.2 = contents k \/ exists n, contents s.2 = take n data)) nothrow.
Proof.
  intros Hz. unfold writeFile. apply wp_bind. unfold on_kernel at 1, wp at 1. pose proof (open_spec k) as Ho.
  destruct (open_trunc k) as [fd k1]. case_decide as Hfd.
  { apply wp_ret. split_and!; try done. left. destruct Ho as [[_ ?]|[? _]]; [done|lia]. }
  destruct Ho as [[? _]|(_ & Hc1 & Hp1)]; [done|]. apply wp_bind, wp_get. apply wp_bind.
  eapply wp_wand with (Q := fun ok s => s.1 = data /\ (ok = true -> contents s.2 = data) /\ exists n, contents s.2 = take n data).
  { case_decide as Hd; [apply wp_ret; subst data; split_and!; try done; by exists 0%nat|].
    apply wp_bind. eapply wp_wand; [by apply writeFull_wp|]. intros [r e] s (Hs & n & Hn & Hr). apply wp_ret.
    split_and!; [done| |by exists n]. intros Hok%bool_decide_eq_true. cbn [fst] in Hr. pose proof (zlen_nonneg data).
    destruct Hr as [->|[_ ?]]; [lia|done]. }
  intros ok [data' k2] (Hs & Hok & n & Hn). cbn [fst snd] in *. subst data'. unfold closeNoInt. apply wp_bind, wp_bind.
  unfold on_kernel, wp at 1. pose proof (close_spec k2) as Hcl. destruct (close k2) as [[r e] k3].
  apply wp_ret, wp_ret. cbn [fst snd]. split_and!; [done| |right; exists n; congruence].
  intros [_ Htrue]%andb_true_iff. rewrite Hcl. by apply Hok.
Qed.
End FilesCorrect.

(** ** A kernel

    Each call does what the next number of a schedule says: 0 is an
    interruption, and [n] moves at most [n] bytes; after the schedule the calls
    move everything. *)
Record DemoKernel := mkKernel { dfile : list Z; dpos : Z; dsched : list nat }.

Definition next_move (k : DemoKernel) (n : nat) : option nat :=
  match dsched k with
  | [] => Some n
  | O :: _ => None
  | S m :: _ => Some (S m `min` n)%nat
  end.

Definition demo_pwritev (vs : list (list Z)) (off : Z) (k : DemoKernel) : Z * Z * DemoKernel :=
  match next_move k (length (concat vs)) with
  | None => (-1, EINTR, mkKernel (dfile k) (dpos k) (tail (dsched k)))
  | Some n => (Z.of_nat n, 0, mkKernel (file_write (Z.to_nat off) (take n (concat vs)) (dfile k)) (dpos k) (tail (dsched k)))
  end.

Definition demo_read (count : Z) (k : DemoKernel) : Z * Z * list Z * DemoKernel :=
  match next_move k (Z.to_nat count `min` (length (dfile k) - Z.to_nat (dpos k)))%nat with
  | None => (-1, EINTR, [], mkKernel (dfile k) (dpos k) (tail (dsched k)))
  | Some n => (Z.of_nat n, 0, take n (drop (Z.to_nat (dpos k)) (dfile k)), mkKernel (dfile k) (Z.max 0 (dpos k) + Z.of_nat n) (tail (dsched k)))
  end.

Definition demo_write (bs : list Z) (k : DemoKernel) : Z * Z * DemoKernel :=
  match next_move k (length bs) with
  | None => (-1, EINTR, mkKernel (dfile k) (dpos k) (tail (dsched k)))
  | Some n => (Z.of_nat n, 0, mkKernel (file_write (Z.to_nat (dpos k)) (take n bs) (dfile k)) (Z.max 0 (dpos k) + Z.of_nat n) (tail (dsched k)))
  end.

Lemma next_move_ok k n : match next_move k n with
  | None => (length (tail (dsched k)) < length (dsched k))%nat
  | Some m => (m <= n)%nat /\ (m = 0 -> n = 0)%nat /\ (length (tail (dsched k)) <= length (dsched k))%nat
  end.
Proof. unfold next_move. destruct (dsched k) as [|[|m] l]; cbn [tail length]; lia. Qed.

#[export, refine] Instance demo_kernel : FileKernel DemoKernel := {
  contents k := dfile k;
  position k := Z.max 0 (dpos k);
  signals k := length (dsched k);
  try_lock _ := true;
  fstat_size k := Some (zlen (dfile k));
  pwritev := demo_pwritev;
  read := demo_read;
  write := demo_write;
  open_trunc k := (3, mkKernel [] 0 (dsched k));
  close k := (0, 0, k)
}.
Proof.
  - intros k. lia.
  - intros vs off k Ho. unfold demo_pwritev. pose proof (next_move_ok k (length (concat vs))) as Hn.
    destruct (next_move k _) as [n|]; [right|by left]. simpl. unfold zlen. rewrite Nat2Z.id. split_and!; try done; try lia.
    intros H0. apply nil_length_inv. lia.
  - intros count k Hc. unfold demo_read. replace (Z.to_nat (Z.max 0 (dpos k))) with (Z.to_nat (dpos k)) by lia.
    set (av := (Z.to_nat count `min` (length (dfile k) - Z.to_nat (dpos k)))%nat).
    pose proof (next_move_ok k av) as Hn. destruct (next_move k av) as [n|]; (split; [done|]); [right|by left]. simpl. unfold zlen, av in *.
    rewrite Nat2Z.id, length_take, length_drop. split_and!; try done; try lia.
  - intros bs k. unfold demo_write. replace (Z.to_nat (Z.max 0 (dpos k))) with (Z.to_nat (dpos k)) by lia.
    pose proof (next_move_ok k (length bs)) as Hn. destruct (next_move k _) as [n|]; [right|by left]. simpl. unfold zlen. rewrite Nat2Z.id.
    split_and!; try done; try lia. intros H0. apply nil_length_inv. lia.
  - intros k. by right.
  - done.
Defined.

(** ** The claims *)

(** C13: for every kernel that keeps to the documentation of the system calls, which
    may move fewer bytes than asked for and be interrupted by signals, [readFile]
    ends, leaves in the container a prefix of what the file has from its position
    on, and when it returns true exactly that, or its first [num_bytes] bytes,
    whatever size [fstat] reported; [writeFile] ends, and when it returns true the
    file holds the container, and a prefix of it or its old contents otherwise. *)
Theorem files_whole {K} `{!FileKernel K} num_bytes out data (k : K) :
  0 <= num_bytes -> zlen (contents k) < 2 ^ 61 -> (forall n, fstat_size k = Some n -> n < 2 ^ 61) -> zlen data < 2 ^ 64 ->
  wp (readFile num_bytes) (out, k)
    (fun ok s => exists n, s.1 = take n (remaining k) /\
       (ok = true -> fstat_size k <> None /\ s.1 = take (Z.to_nat num_bytes) (remaining k))) nothrow /\
  wp writeFile (data, k)
    (fun ok s => s.1 = data /\ (ok = true -> contents s.2 = data) /\
       (contents s.2 = contents k \/ exists n, contents s.2 = take n data)) nothrow.
Proof. intros. split; [by apply readFile_wp|by apply writeFile_wp]. Qed.

Definition demo_file : DemoKernel := mkKernel [1; 2; 3; 4; 5; 6; 7] 1 [2; 0; 0; 1]%nat.

Lemma files_whole_witness :
  (exists k', readFile 5 ([9; 9], demo_file) = Ok true ([2; 3; 4; 5; 6], k')) /\
  wp (readFile 5) ([9; 9], demo_file) (fun ok s => ok = true -> s.1 = [2; 3; 4; 5; 6]) nothrow /\
  (exists k', writeFile ([8; 8; 8], demo_file) = Ok true ([8; 8; 8], k') /\ contents k' = [8; 8; 8]) /\
  wp writeFile ([8; 8; 8], demo_file) (fun ok s => ok = true -> contents s.2 = [8; 8; 8]) nothrow.
Proof.
  destruct (files_whole 5 [9; 9] [8; 8; 8] demo_file) as [Hr Hw];
    [lia|vm_compute; reflexivity|intros n [= <-]; vm_compute; reflexivity|vm_compute; reflexivity|].
  split_and!.
  - eexists. vm_compute. reflexivity.
  - eapply wp_wand; [exact Hr|]. intros ok s (n & _ & Hok) Ht. apply (Hok Ht).
  - eexists. split; vm_compute; reflexivity.
  - eapply wp_wand; [exact Hw|]. intros ok s (_ & Hok & _). exact Hok.
Defined.

(** A call that sees only empty entries returns 0, which [wrapvFull] takes for the
    end of the file: after [IOV_MAX] empty entries it returns 0 with bytes left to
    move. *)
Example empty_entries_stop :
  wrapvFull Z.add 5 (fun iov _ => mret (zlen (cells Z.add iov), 0)) (replicate 1024 (0, 0) ++ [(0, 3)]) 0 tt = Ok (0, 0) tt.
Proof. vm_compute. reflexivity. Qed.
