(* ===== verification/RecordIO.v ===== *)
(** * io/RecordIO: a stream of records that resynchronizes

    [io/RecordIO.h] and [io/RecordIO.cpp].  A record is a packed header of 28
    bytes, with hashes of the header and of the data, and the data.  The
    functions that write work on the heap of IOBufs; those that read work on
    the bytes of a mapped file, at the addresses of the mapping. *)

From stdpp Require Import base list gmap strings.
From S2P Require Import Prelude Bits Range RangeOps SpookyHashV2 IOBufMem IOBuf FileUtil.

Open Scope Z_scope.

(** ** The header *)

(** The fields of the packed structure, read from its bytes. *)
Record Header := mkHeader {
  magic : Z; version : Z; hashFunction : Z; hflags : Z;
  fileId : Z; dataLength : Z; hdataHash : Z; hheaderHash : Z }.

Definition kMagic : Z := 0x9379e54d.
Definition headerSize : Z := 28.
Definition sizeof_magic : Z := 4.

Definition field (off len : Z) (bs : list Z) : Z := of_bytes (slice off len bs).

Definition header_at (bs : list Z) : Header :=
  mkHeader (field 0 4 bs) (field 4 1 bs) (field 5 1 bs) (field 6 2 bs)
    (field 8 4 bs) (field 12 4 bs) (field 16 8 bs) (field 24 4 bs).

Definition kHashSeed : Z := 0xdeadbeef.

(** The hash of the bytes before [headerHash], which is the last member. *)
Definition headerHash (header : list Z) : Z := Hash32 (slice 0 24 header) kHashSeed.

Definition dataHash (range : list Z) : Z := Hash64 range kHashSeed.

(** ** Writing a header *)

(** One round of [for (auto br : *buf)]. *)
Definition hash_round (st : option Iterator * Z * SpookyHashV2) :
    Mem ((option Iterator * Z * SpookyHashV2) + (Z * SpookyHashV2)) :=
  let '(it, len, hasher) := st in
  match it with
  | None => mret (inr (len, hasher))
  | Some it =>
      let len := u64 (len + (val_ it).2) in
      br ← load_bytes (val_ it).1 (val_ it).2;
      let hasher := Update hasher br in
      it ← increment it;
      mret (inl (it, len, hasher))
  end.

(** [hasher] is the object on the stack, before [Init]. *)
Definition dataLengthAndHash (hasher : SpookyHashV2) (buf : positive) : Mem (Z * Z) :=
  it ← cbegin buf;
  h ← get;
  '(len, hasher) ← iter (S (size (bufs h))) hash_round (it, 0, Init hasher kHashSeed kHashSeed);
  let '(hash1, hash2, _) := Final hasher in
  if decide (2 ^ 32 - 1 <= u64 (len + headerSize)) then
    throw (invalid_argument "Record length must fit in 32 bits")
  else mret (len, hash1).

(** The members are stored one by one over zeroes. *)
Definition fill_header (header : addr) (fileId len hash : Z) : Mem unit :=
  store_bytes header (replicate 28 0);;
  store_bytes (padd header 0) (to_bytes 4 kMagic);;
  store_bytes (padd header 8) (to_bytes 4 fileId);;
  store_bytes (padd header 12) (to_bytes 4 (u32 len));;
  store_bytes (padd header 16) (to_bytes 8 hash);;
  bs ← load_bytes header 28;
  store_bytes (padd header 24) (to_bytes 4 (headerHash bs)).

(** Returns the new value of [buf] with the result. *)
Definition prependHeader (hasher : SpookyHashV2) (buf : positive) (fileId : Z) : Mem (positive * Z) :=
  if decide (fileId = 0) then throw (invalid_argument "invalid file id") else
  '(len, hash) ← dataLengthAndHash hasher buf;
  if decide (len = 0) then mret (buf, 0) else
  b ← load buf;
  buf ← (if decide (headerSize <= headroom b) then
           unshareOne buf;; prepend buf headerSize;; mret buf
         else
           nb ← create headerSize;
           append nb headerSize;;
           appendChain nb buf;;
           mret nb);
  b ← load buf;
  fill_header (data_ b) fileId len hash;;
  mret (buf, u64 (len + headerSize)).

(** ** Writing a record *)

Module Writer.
Section Writer.
Context {K : Type} `{!FileKernel K}.

(** The IOBufs, the kernel and [filePos_]. *)
Abbreviation World := (Heap * (K * Z))%type.

Fixpoint read_iov (iov : list (addr * Z)) : Mem (list (list Z)) :=
  match iov with
  | [] => mret []
  | (base, len) :: iov => bs ← load_bytes base len; vs ← read_iov iov; mret (bs :: vs)
  end.

Definition on_kernel {A} (f : K -> A * K) : M World A :=
  fun '(h, (k, pos)) => let '(a, k') := f k in Ok a (h, (k', pos)).

Definition sys_pwritev (iov : list (addr * Z)) (off : Z) : M World (Z * Z) :=
  vs ← lift (read_iov iov); on_kernel (pwritev vs off).

Definition pwritevFull (iov : list (addr * Z)) (offset : Z) : M World (Z * Z) :=
  w ← get;
  wrapvFull padd (S (length (cells padd iov) + signals w.2.1)) sys_pwritev iov offset.

(** The constructor appends to what the file holds. *)
Definition ctor : M World unit := fun '(h, (k, pos)) =>
  if try_lock k then
    match fstat_size k with
    | Some st_size => Ok tt (h, (k, st_size))
    | None => Throw (runtime_error "fstat() failed") (h, (k, 0))
    end
  else Throw (runtime_error "RecordIOWriter: file locked by another process") (h, (k, 0)).

Definition filePos : M World Z := gets (fun w => w.2.2).

Definition fetch_add (n : Z) : M World Z :=
  fun '(h, (k, pos)) => Ok pos (h, (k, pos + n)).

(** The parameter [buf] is destroyed on every way out. *)
Definition write (hasher : SpookyHashV2) (fileId_ : Z) (buf : positive) : M World unit :=
  '(buf, totalLength) ← try_catch (lift (prependHeader hasher buf fileId_))
                          (fun e => lift (delete_ buf);; throw e);
  if decide (totalLength = 0) then lift (delete_ buf) else
  n ← lift (computeChainDataLength buf);
  assert (bool_decide (n = totalLength)) "DCHECK_EQ(buf->computeChainDataLength(), totalLength)";;
  pos ← fetch_add totalLength;
  iov ← lift (getIov buf);
  '(bytes, errno) ← pwritevFull iov pos;
  if decide (bytes = -1) then lift (delete_ buf);; throw (runtime_error "pwrite() failed") else
  assert (bool_decide (u64 bytes = totalLength)) "DCHECK_EQ(size_t(bytes), totalLength)";;
  lift (delete_ buf).
End Writer.
End Writer.

(** *** Several threads

    The accesses of [write] to what the threads share: [filePos_.fetch_add], and
    calls of [pwritev] that write some bytes each.  A thread has the bytes of
    its record, or the position and the rest of what it has to write.  A step is
    labelled with the thread that reserves its place in it, if any. *)
Inductive job := Waiting (bs : list Z) | Writing (pos : nat) (rest : list Z) | Done.

Record shared := mkShared { sfile : list Z; sfilePos : nat; jobs : list job }.

Inductive wstep : list nat -> shared -> shared -> Prop :=
  | step_reserve f pos js i bs :
      js !! i = Some (Waiting bs) ->
      wstep [i] (mkShared f pos js) (mkShared f (pos + length bs) (<[i := Writing pos bs]> js))
  | step_pwritev f pos js i p rest n :
      js !! i = Some (Writing p rest) -> (n <= length rest)%nat ->
      wstep [] (mkShared f pos js)
        (mkShared (file_write p (take n rest) f) pos (<[i := Writing (p + n) (drop n rest)]> js))
  | step_return f pos js i p :
      js !! i = Some (Writing p []) -> wstep [] (mkShared f pos js) (mkShared f pos (<[i := Done]> js)).

(** An interleaving, with the threads in the order in which they reserved. *)
Inductive wrun : list nat -> shared -> shared -> Prop :=
  | wrun_refl s : wrun [] s s
  | wrun_step r rs s s1 s2 : wstep r s s1 -> wrun rs s1 s2 -> wrun (r ++ rs) s s2.

(** ** Reading a mapped file *)

(** The mapping: where it is and what it holds. *)
Record Mapping := mkMapping { mbase : Z; mbytes : list Z }.

Abbreviation Map := (M Mapping).

(** Dereferences of [n] bytes at the address [p]. *)
Definition peek (p n : Z) : Map (list Z) :=
  m ← get;
  assert (bool_decide (mbase m <= p /\ 0 <= n /\ p + n <= mbase m + zlen (mbytes m))) "outside of the mapping";;
  mret (slice (p - mbase m) n (mbytes m)).

(** A search of [Range], which has a state of its own. *)
Definition from_res {S A} (r : res S A) : Map A :=
  match r with
  | Ok a _ => mret a
  | Throw e _ => throw e
  | Fault why => fault why
  | OutOfFuel => fun _ => OutOfFuel
  end.

(** A [ByteRange] as its two pointers; none that is made here ends before it begins,
    which [size] asserts. *)
Record ByteRange := mkRange { rb : Z; re : Z }.

#[global] Instance ByteRange_eq_dec : EqDecision ByteRange.
Proof. solve_decision. Defined.

Definition null_range : ByteRange := mkRange 0 0.
Definition range_size (r : ByteRange) : Z := u64 (re r - rb r).
Definition range_empty (r : ByteRange) : bool := bool_decide (rb r = re r).

Definition range_advance (r : ByteRange) (n : Z) : Map ByteRange :=
  if decide (range_size r < n) then throw index_error else mret (mkRange (rb r + n) (re r)).

(** The elements. *)
Definition elements (r : ByteRange) : Map (list Z) :=
  if range_empty r then mret [] else peek (rb r) (range_size r).

Record RecordInfo := mkInfo { info_fileId : Z; info_record : ByteRange }.

Definition no_record : RecordInfo := mkInfo 0 null_range.

Definition validateRecord (range : ByteRange) (fid : Z) : Map RecordInfo :=
  if decide (range_size range <= headerSize) then mret no_record else
  bs ← peek (rb range) headerSize;
  let header := header_at bs in
  range ← range_advance range headerSize;
  if decide (magic header <> kMagic \/ version header <> 0 \/ hashFunction header <> 0 \/
             hflags header <> 0 \/ (fid <> 0 /\ fileId header <> fid) \/
             range_size range < dataLength header)
  then mret no_record else
  if decide (headerHash bs <> hheaderHash header) then mret no_record else
  let range := mkRange (rb range) (rb range + dataLength header) in
  data ← elements range;
  if decide (dataHash data <> hdataHash header) then mret no_record
  else mret (mkInfo (fileId header) range).

Definition magicRange : list Z := to_bytes 4 kMagic.

Definition find_round (wholeRange : ByteRange) (fid end_ start : Z) : Map (Z + RecordInfo) :=
  if decide (start < end_) then
    bs ← peek start (end_ + sizeof_magic - start);
    p ← from_res (qfind asciiCaseSensitive bs magicRange);
    match p with
    | None => mret (inr no_record)
    | Some p =>
        let start := start + p in
        r ← validateRecord (mkRange start (re wholeRange)) fid;
        if range_empty (info_record r) then mret (inl (start + sizeof_magic)) else mret (inr r)
    end
  else mret (inr no_record).

Definition findRecord (searchRange wholeRange : ByteRange) (fid : Z) : Map RecordInfo :=
  assert (bool_decide (rb wholeRange <= rb searchRange)) "DCHECK_GE(searchRange.begin(), wholeRange.begin())";;
  assert (bool_decide (re searchRange <= re wholeRange)) "DCHECK_LE(searchRange.end(), wholeRange.end())";;
  m ← get;
  let end_ := Z.min (re searchRange) (u64 (re wholeRange - headerSize)) in
  iter (S (length (mbytes m))) (find_round wholeRange fid end_) (rb searchRange).

(** *** RecordIOReader *)

Module Reader.

Record Iterator := mkIterator {
  range_ : ByteRange; fileId_ : Z; recordAndPos_ : ByteRange * Z }.

Definition advanceToValid (it : Iterator) : Map Iterator :=
  r ← findRecord (range_ it) (range_ it) (fileId_ it);
  let record := info_record r in
  if range_empty record then mret (mkIterator null_range (fileId_ it) (null_range, -1)) else
  let skipped := u64 (rb record - rb (range_ it)) in
  assert (bool_decide (headerSize <= skipped)) "DCHECK_GE(skipped, headerSize())";;
  let skipped := u64 (skipped - headerSize) in
  range ← range_advance (range_ it) skipped;
  mret (mkIterator range (fileId_ it) (record, (recordAndPos_ it).2 + skipped)).

Definition ctor (range : ByteRange) (fid pos : Z) : Map Iterator :=
  if decide (range_size range <= u64 pos) then
    mret (mkIterator null_range fid (null_range, -1))
  else
    range ← range_advance range (u64 pos);
    advanceToValid (mkIterator range fid (null_range, pos)).

Definition increment (it : Iterator) : Map Iterator :=
  let skip := u64 (headerSize + range_size (recordAndPos_ it).1) in
  range ← range_advance (range_ it) skip;
  advanceToValid (mkIterator range (fileId_ it) ((recordAndPos_ it).1, (recordAndPos_ it).2 + skip)).

Definition dereference (it : Iterator) : ByteRange * Z := recordAndPos_ it.

Definition equal (it other : Iterator) : Map bool :=
  x ← elements (range_ it); y ← elements (range_ other); mret (range_eqb x y).

(** [map_.range()] *)
Definition map_range (m : Mapping) : ByteRange := mkRange (mbase m) (mbase m + zlen (mbytes m)).

Definition seek (fid pos : Z) : Map Iterator := m ← get; ctor (map_range m) fid pos.
Definition cbegin (fid : Z) : Map Iterator := seek fid 0.
Definition cend (fid : Z) : Map Iterator := seek fid (-1).

(** A loop [for (it = first; it != reader.end(); ++it)] that copies the records
    and their positions. *)
Definition collect_round (last : Iterator) (st : Iterator * list (list Z * Z)) :
    Map ((Iterator * list (list Z * Z)) + list (list Z * Z)) :=
  let '(it, out) := st in
  stop ← equal it last;
  if (stop : bool) then mret (inr out) else
  data ← elements (dereference it).1;
  it' ← increment it;
  mret (inl (it', out ++ [(data, (dereference it).2)])).

Definition collect (fid pos : Z) : Map (list (list Z * Z)) :=
  first ← seek fid pos;
  last ← cend fid;
  m ← get;
  iter (S (length (mbytes m))) (collect_round last) (first, []).
End Reader.
