(* ===== verification/RecordIOSpec.v ===== *)
(** * io/RecordIO: what is read from a stream

    The bytes of a record ([record]), the reference scan of a stream ([scan]) and
    the proofs that [validateRecord] accepts exactly the records, that
    [findRecord] returns the first one and that the reader performs the scan. *)

From stdpp Require Import base list gmap strings.
From S2P Require Import Prelude Bits Range RangeOps SpookyHashV2 IOBufMem IOBuf RecordIO.

Open Scope Z_scope.

(** ** The hashes are words *)

Section HashWords.
Implicit Types (u v : list Z).

Lemma words4_add v i w : words 4 v -> (i < 4)%nat -> words 4 (add_word i w v).
Proof. intros Hv Hi. by apply (add_word_reversible 4 i w Hi). Qed.

Lemma words_add_all n (ps : list (nat * Z)) v :
  words n v -> Forall (fun p => p.1 < n)%nat ps -> words n (run ((fun p => add_word p.1 p.2) <$> ps) v).
Proof.
  intros Hv Hps. revert v Hv. induction Hps as [|[i w] ps Hi _ IH]; intros v Hv; [done|].
  apply IH. by apply (add_word_reversible n i w Hi).
Qed.

Lemma words_each_block n sz body k : (forall u v, words n v -> words n (body u v)) ->
  forall u v, words n v -> words n (each_block sz body k u v).
Proof. intros Hb. induction k as [|k IH]; intros u v Hv; [done|]. simpl. by apply IH, Hb. Qed.

Lemma words_short_set u v : words 4 v -> words 4 (short_set u v).
Proof.
  intros Hv. destruct (spooky_mixing_reversible []) as (_ & _ & _ & [Hm _] & _). unfold short_set.
  apply (words_add_all 4 [(0%nat, _); (1%nat, _)]); [|repeat constructor; simpl; lia].
  apply Hm. apply (words_add_all 4 [(2%nat, _); (3%nat, _)]); [done|repeat constructor; simpl; lia].
Qed.

Lemma words_short_tail u r v : words 4 v -> words 4 (short_tail u r v).
Proof.
  intros Hv. unfold short_tail.
  repeat case_decide; unfold run; simpl; repeat apply words4_add; done || lia.
Qed.

Lemma words_Short m n s1 s2 : fits 64 s1 -> fits 64 s2 -> fits 64 (Short m n s1 s2).1.
Proof.
  intros H1 H2. destruct (spooky_mixing_reversible []) as (_ & _ & _ & [Hm _] & [He _]).
  assert (Hv : words 4 [s1; s2; sc_const; sc_const]) by (split; [done|by repeat apply List.Forall_cons]).
  assert (Hend : forall u r v, words 4 v ->
    fits 64 (ShortEnd (short_tail u r (add_word 3 (u64 (Z.shiftl (Z.of_nat n) 56)) v)) !!! 0%nat)).
  { intros u r v Hw. apply (words_at 4); [|lia]. apply He, words_short_tail, words4_add; [done|lia]. }
  unfold Short. repeat case_decide; apply Hend; try done; try apply Hm.
  - apply (words_add_all 4 [(2%nat, _); (3%nat, _)]); [|repeat constructor; simpl; lia].
    by apply words_each_block; [apply words_short_set|].
  - by apply words_each_block; [apply words_short_set|].
Qed.

Lemma Hash64_fits m seed : fits 64 seed -> fits 64 (Hash64 m seed).
Proof.
  intros Hs. unfold Hash64, Hash128. case_decide; [by apply words_Short|].
  destruct (spooky_mixing_reversible (padded (drop (96 * (length m / 96)) m) (length m - 96 * (length m / 96))))
    as (_ & _ & [He _] & _).
  apply (words_at 12); [|lia]. apply He. apply words_each_block.
  - intros u v Hv. by apply (spooky_mixing_reversible u).
  - split; [done|by repeat apply List.Forall_cons].
Qed.
End HashWords.

(** ** Records *)

(** The members before [headerHash], and a whole record. *)
Definition record_fields (fid : Z) (data : list Z) : list Z :=
  to_bytes 4 kMagic ++ [0; 0; 0; 0] ++ to_bytes 4 fid ++ to_bytes 4 (zlen data) ++ to_bytes 8 (dataHash data).

Definition record_header (fid : Z) (data : list Z) : list Z :=
  record_fields fid data ++ to_bytes 4 (Hash32 (record_fields fid data) kHashSeed).

Definition record (fid : Z) (data : list Z) : list Z := record_header fid data ++ data.

(** [bs] begins with a record that a reader for [id] accepts. *)
Definition starts (id : Z) (bs : list Z) (fid : Z) (data : list Z) : Prop :=
  fits 32 fid /\ (id = 0 \/ fid = id) /\ 0 < zlen data < 2 ^ 32 /\ exists rest, bs = record fid data ++ rest.

Definition isbytes (bs : list Z) : Prop := Forall (fun b => 0 <= b < 256) bs.

Lemma zlen_to_bytes n x : zlen (to_bytes n x) = Z.of_nat n.
Proof. unfold zlen. by rewrite length_to_bytes. Qed.

Lemma zlen_record_header fid data : zlen (record_header fid data) = 28.
Proof. unfold record_header, record_fields. rewrite !zlen_app, !zlen_to_bytes. done. Qed.

Lemma zlen_record fid data : zlen (record fid data) = 28 + zlen data.
Proof. unfold record. by rewrite zlen_app, zlen_record_header. Qed.

Lemma slice_app_at {A} (a b c : list A) : slice (zlen a) (zlen b) (a ++ b ++ c) = b.
Proof.
  unfold slice, zlen. rewrite !Nat2Z.id, drop_app_length. by rewrite take_app_length.
Qed.

Lemma slice_app_front {A} (b c : list A) : slice 0 (zlen b) (b ++ c) = b.
Proof. exact (slice_app_at [] b c). Qed.

Lemma slice_slice {A} (l : list A) a b c n : 0 <= a -> 0 <= c -> 0 <= n -> c + n <= b ->
  slice c n (slice a b l) = slice (a + c) n l.
Proof.
  intros. unfold slice. rewrite skipn_firstn_comm, take_take, drop_drop. f_equal; [lia|]. f_equal. lia.
Qed.

(** A member of a packed structure. *)
Lemma field_app a n x c off len :
  off = zlen a -> len = Z.of_nat n -> 0 <= x < 256 ^ Z.of_nat n ->
  field off len (a ++ to_bytes n x ++ c) = x.
Proof.
  intros -> -> Hx. unfold field. rewrite <- (zlen_to_bytes n x), slice_app_at. by apply of_to_bytes.
Qed.

Lemma of_bytes_bound bs : isbytes bs -> 0 <= of_bytes bs < 256 ^ zlen bs.
Proof.
  induction 1 as [|x bs Hx _ IH]; [done|]. change (of_bytes (x :: bs)) with (x + 256 * of_bytes bs).
  unfold zlen in *. rewrite length_cons, Nat2Z.inj_succ, Z.pow_succ_r by lia. lia.
Qed.

Lemma field_fits off bs : isbytes bs -> 0 <= off -> 0 <= field off 4 bs < 2 ^ 32.
Proof.
  intros Hb Ho. assert (Hs : isbytes (slice off 4 bs)) by by apply Forall_take, Forall_drop.
  pose proof (of_bytes_bound _ Hs) as Hbd. assert (zlen (slice off 4 bs) <= 4).
  { unfold slice, zlen. rewrite length_take. lia. }
  assert (256 ^ zlen (slice off 4 bs) <= 256 ^ 4) by (apply Z.pow_le_mono_r; lia). unfold field. lia.
Qed.

Lemma to_bytes_field off len bs : isbytes bs -> 0 <= off -> 0 <= len -> off + len <= zlen bs ->
  to_bytes (Z.to_nat len) (field off len bs) = slice off len bs.
Proof.
  intros Hb Ho Hl Hle. unfold field.
  replace (Z.to_nat len) with (length (slice off len bs)).
  - apply to_of_bytes. unfold slice. by apply Forall_take, Forall_drop.
  - pose proof (zlen_slice off len bs Ho Hl Hle). unfold zlen in *. lia.
Qed.

(** What the members of the header of a record are. *)
Lemma header_at_record fid data : fits 32 fid -> zlen data < 2 ^ 32 ->
  header_at (record_header fid data) =
  mkHeader kMagic 0 0 0 fid (zlen data) (dataHash data) (Hash32 (record_fields fid data) kHashSeed).
Proof.
  intros Hf Hd. pose proof (zlen_nonneg data). unfold header_at.
  assert (E : forall A n x c off len, record_header fid data = A ++ to_bytes n x ++ c ->
    off = zlen A -> len = Z.of_nat n -> 0 <= x < 256 ^ Z.of_nat n -> field off len (record_header fid data) = x).
  { intros A n x c off len ->. apply field_app. }
  unfold fits in *. pose proof (Hash64_fits data kHashSeed ltac:(done)) as Hh. unfold fits in Hh.
  pose proof (wrap_fits 32 (fst (Hash128 (record_fields fid data) kHashSeed kHashSeed)) ltac:(lia)) as Hh32. unfold fits in Hh32.
  unfold record_header, record_fields in *. f_equal.
  - eapply (E (to_bytes 4 kMagic ++ [0; 0; 0; 0]) 4%nat); [rewrite <- !app_assoc; reflexivity|done|done|done].
  - eapply (E (to_bytes 4 kMagic ++ [0; 0; 0; 0] ++ to_bytes 4 fid) 4%nat); [rewrite <- !app_assoc; reflexivity|done|done|].
    change (256 ^ Z.of_nat 4) with (2 ^ 32). lia.
  - eapply (E (to_bytes 4 kMagic ++ [0; 0; 0; 0] ++ to_bytes 4 fid ++ to_bytes 4 (zlen data)) 8%nat);
      [rewrite <- !app_assoc; reflexivity|done|done|done].
  - eapply (E (record_fields fid data) 4%nat _ []); [by rewrite app_nil_r|done|done|done].
Qed.

Lemma headerHash_record fid data : headerHash (record_header fid data) = Hash32 (record_fields fid data) kHashSeed.
Proof.
  unfold headerHash. replace (slice 0 24 (record_header fid data)) with (record_fields fid data); [done|].
  symmetry. apply (slice_app_front (record_fields fid data)).
Qed.

(** A header with these members is the header of the record. *)
Lemma record_of_header hd fid data : isbytes hd -> zlen hd = 28 ->
  header_at hd = mkHeader kMagic 0 0 0 fid (zlen data) (dataHash data) (headerHash hd) -> hd = record_header fid data.
Proof.
  intros Hb Hl H. injection H as H1 H2 H3 H4 H5 H6 H7 H8.
  assert (Ef : slice 0 24 hd = record_fields fid data).
  { change 24 with (4 + (1 + (1 + (2 + (4 + (4 + 8)))))). rewrite !slice_split by lia.
    unfold record_fields. rewrite <- !(to_bytes_field _ _ hd) by (done || lia).
    change (0 + 4) with 4. change (4 + 1) with 5. change (5 + 1) with 6. change (6 + 2) with 8.
    change (8 + 4) with 12. change (12 + 4) with 16. by rewrite H1, H2, H3, H4, H5, H6, H7. }
  unfold record_header. rewrite <- Ef. change (Hash32 (slice 0 24 hd) kHashSeed) with (headerHash hd). rewrite <- H8.
  change 4%nat with (Z.to_nat 4). rewrite (to_bytes_field 24 4 hd) by (done || lia).
  rewrite <- (slice_split 0 24 4) by lia. change (24 + 4) with 28. rewrite <- Hl. by rewrite slice_full.
Qed.

(** ** One record *)

(** The mapped file: not at the null pointer unless it is empty, below the
    middle of the address space. *)
Definition mapped (m : Mapping) : Prop :=
  isbytes (mbytes m) /\ (mbytes m = [] \/ headerSize <= mbase m) /\ 0 <= mbase m /\ mbase m + zlen (mbytes m) < 2 ^ 63.

(** The bytes from the offset [i] to the end of the file. *)
Definition suffix_at (m : Mapping) (i : Z) : list Z := drop (Z.to_nat i) (mbytes m).

Section Reading.
Context (m : Mapping) (Hm : mapped m).
Abbreviation base := (mbase m).
Abbreviation len := (zlen (mbytes m)).

Lemma peek_wp i n Q E : 0 <= i -> 0 <= n -> i + n <= len -> Q (slice i n (mbytes m)) m -> wp (peek (base + i) n) m Q E.
Proof.
  intros Hi Hn Hle HQ. unfold peek. apply wp_bind, wp_get. apply wp_bind, wp_assert; [apply bool_decide_eq_true; lia|].
  apply wp_ret. by replace (base + i - base) with i by lia.
Qed.

Lemma zlen_suffix i : 0 <= i <= len -> zlen (suffix_at m i) = len - i.
Proof. intros Hi. unfold suffix_at, zlen in *. rewrite length_drop. lia. Qed.

Lemma slice_suffix i off n : 0 <= i -> 0 <= off -> slice off n (suffix_at m i) = slice (i + off) n (mbytes m).
Proof. intros. unfold slice, suffix_at. rewrite drop_drop. do 2 f_equal. lia. Qed.

Lemma range_size_ok i j : 0 <= i <= j -> j <= len -> range_size (mkRange (base + i) (base + j)) = j - i.
Proof. intros Hi Hj. destruct Hm as (_ & _ & Hb & Hl). unfold range_size. simpl. rewrite u64_small; lia. Qed.

Lemma elements_wp i j Q E : 0 <= i <= j -> j <= len -> Q (slice i (j - i) (mbytes m)) m ->
  wp (elements (mkRange (base + i) (base + j))) m Q E.
Proof.
  intros Hi Hj HQ. unfold elements, range_empty. simpl. case_bool_decide.
  - apply wp_ret. replace (j - i) with 0 in HQ by lia. by rewrite slice_0 in HQ.
  - rewrite range_size_ok by done. apply peek_wp; [lia..|done].
Qed.

Lemma advance_wp i j n Q E : 0 <= i <= j -> j <= len -> 0 <= n <= j - i ->
  Q (mkRange (base + (i + n)) (base + j)) m -> wp (range_advance (mkRange (base + i) (base + j)) n) m Q E.
Proof.
  intros Hi Hj Hn HQ. unfold range_advance. rewrite range_size_ok by done. rewrite decide_False by lia.
  apply wp_ret. by rewrite Z.add_assoc in HQ.
Qed.

Lemma isbytes_slice i n : isbytes (slice i n (mbytes m)).
Proof. destruct Hm as [Hb _]. by apply Forall_take, Forall_drop. Qed.

(** The conditions that [validateRecord] checks are those of a record. *)
Lemma starts_checks id i fid data : 0 <= i <= len ->
  starts id (suffix_at m i) fid data <->
  fits 32 fid /\ (id = 0 \/ fid = id) /\ 0 < zlen data < 2 ^ 32 /\ i + 28 + zlen data <= len /\
  slice (i + 28) (zlen data) (mbytes m) = data /\
  header_at (slice i 28 (mbytes m)) =
    mkHeader kMagic 0 0 0 fid (zlen data) (dataHash data) (headerHash (slice i 28 (mbytes m))).
Proof.
  intros Hi. pose proof (zlen_suffix i Hi) as Hz. pose proof (zlen_nonneg data) as Hd. split.
  - intros (Hf & Hid & Hl & rest & Hs). split; [done|]. split; [done|]. split; [done|].
    assert (Hh : slice i 28 (mbytes m) = record_header fid data).
    { replace i with (i + 0) by lia. rewrite <- slice_suffix by lia. rewrite Hs, <- (zlen_record_header fid data).
      unfold record. rewrite <- app_assoc. apply (slice_app_at []). }
    pose proof (f_equal zlen Hs) as Hzs. rewrite Hz, zlen_app, zlen_record in Hzs. pose proof (zlen_nonneg rest).
    split; [lia|]. split.
    + rewrite <- slice_suffix, Hs by lia. unfold record. rewrite <- app_assoc, <- (zlen_record_header fid data). apply slice_app_at.
    + rewrite Hh, header_at_record, headerHash_record by (done || lia). reflexivity.
  - intros (Hf & Hid & Hl & Hle & Hdata & Hh). split; [done|]. split; [done|]. split; [done|].
    apply record_of_header in Hh; [|apply isbytes_slice|apply zlen_slice; lia].
    assert (Hs : suffix_at m i = slice 0 28 (suffix_at m i) ++ slice (0 + 28) (zlen data) (suffix_at m i) ++
      slice (0 + 28 + zlen data) (len - i - 28 - zlen data) (suffix_at m i)).
    { rewrite <- !slice_split by lia. replace (28 + _) with (zlen (suffix_at m i)) by lia. by rewrite slice_full. }
    rewrite !slice_suffix in Hs by lia. rewrite Z.add_0_r, Z.add_0_l, Hdata, Hh, app_assoc in Hs. by eexists.
Qed.

(** No record begins at [i]. *)
Definition no_start (id i : Z) : Prop := forall fid data, ~ starts id (suffix_at m i) fid data.

Lemma no_start_by id i : 0 <= i <= len ->
  (forall fid data, (id = 0 \/ fid = id) -> 0 < zlen data -> i + 28 + zlen data <= len ->
     slice (i + 28) (zlen data) (mbytes m) = data ->
     header_at (slice i 28 (mbytes m)) =
       mkHeader kMagic 0 0 0 fid (zlen data) (dataHash data) (headerHash (slice i 28 (mbytes m))) -> False) ->
  no_start id i.
Proof.
  intros Hi H fid data Hs. apply starts_checks in Hs as (Hf & Hid & Hl & Hle & Hd & Hh); [|done].
  by apply (H fid data); try lia.
Qed.

(** [validateRecord] accepts exactly the records. *)
Lemma validate_wp id i Q E : 0 <= i <= len ->
  (forall fid data, starts id (suffix_at m i) fid data ->
     Q (mkInfo fid (mkRange (base + (i + 28)) (base + (i + 28 + zlen data)))) m) ->
  (forall r, range_empty (info_record r) = true -> no_start id i -> Q r m) ->
  wp (validateRecord (mkRange (base + i) (base + len)) id) m Q E.
Proof.
  intros Hi Hyes Hno. unfold validateRecord. rewrite range_size_ok by lia. unfold headerSize.
  case_decide as Hsz. { apply wp_ret, Hno; [done|]. apply no_start_by; [done|]. lia. }
  apply wp_bind, peek_wp; [lia..|]. apply wp_bind, advance_wp; [lia..|]. rewrite range_size_ok by lia.
  set (bs := slice i 28 (mbytes m)) in *. set (hd := header_at bs) in *.
  case_decide as Hc. { apply wp_ret, Hno; [done|]. apply no_start_by; [done|]. fold bs hd. intros fid data Hid Hp Hle Hd Hh.
    rewrite Hh in Hc. simpl in Hc. lia. }
  case_decide as Hh. { apply wp_ret, Hno; [done|]. apply no_start_by; [done|]. fold bs hd. intros fid data _ _ _ _ E'.
    by rewrite E' in Hh. }
  cbv zeta. cbn [rb].
  assert (Hn : 0 <= dataLength hd < 2 ^ 32) by (apply field_fits; [apply isbytes_slice|done]).
  replace (base + (i + 28) + dataLength hd) with (base + (i + 28 + dataLength hd)) by lia.
  apply wp_bind, elements_wp; [lia..|]. set (data := slice (i + 28) _ _).
  assert (Hz : zlen data = dataLength hd) by (unfold data; rewrite zlen_slice; lia).
  case_decide as Hdh. { apply wp_ret, Hno; [done|]. apply no_start_by; [done|]. fold bs hd. intros fid data' _ _ _ Hd E'.
    apply Hdh. unfold data. rewrite E'. simpl. replace (i + 28 + zlen data' - (i + 28)) with (zlen data') by lia. by rewrite Hd. }
  apply wp_ret. destruct (decide (dataLength hd = 0)) as [H0|H0].
  { apply Hno; [unfold range_empty; cbn [info_record rb re]; apply bool_decide_eq_true; lia|]. apply no_start_by; [done|]. fold bs hd.
    intros fid data' _ Hp _ _ E'. rewrite E' in H0. simpl in H0. lia. }
  rewrite <- Hz. apply Hyes. apply starts_checks; [done|]. fold bs hd.
  assert (fits 32 (fileId hd)) by (apply field_fits; [apply isbytes_slice|done]).
  split_and!; [done|lia|lia|lia|lia| |].
  - unfold data at 2. rewrite Hz. f_equal. lia.
  - rewrite Hz, Hdh, Hh. destruct hd; simpl in *. f_equal; lia.
Qed.

(** *** The search for the magic number *)

Definition magic_at (i : Z) : Prop := slice i 4 (mbytes m) = magicRange.

Lemma starts_magic id i fid data : 0 <= i <= len -> starts id (suffix_at m i) fid data -> magic_at i.
Proof.
  intros Hi (_ & _ & _ & rest & Hs). unfold magic_at. replace i with (i + 0) by lia. rewrite <- slice_suffix by lia.
  rewrite Hs. unfold record, record_header, record_fields. rewrite <- !app_assoc. apply (slice_app_at [] magicRange).
Qed.

(** The magic number has no repeated prefix. *)
Lemma magic_apart i j : 0 <= i < j -> magic_at i -> magic_at j -> i + 4 <= j.
Proof.
  unfold magic_at. intros Hij Hi Hj. destruct (decide (i + 4 <= j)) as [|Hlt]; [done|]. exfalso.
  assert (Hx : forall k, 0 <= k < 4 -> mbytes m !! Z.to_nat (i + k) = magicRange !! Z.to_nat k /\
                                      mbytes m !! Z.to_nat (j + k) = magicRange !! Z.to_nat k).
  { intros k Hk. rewrite <- Hi at 1. rewrite <- Hj at 1. unfold slice. rewrite !lookup_take_lt, !lookup_drop by lia.
    split; f_equal; lia. }
  destruct (Hx (j - i)) as [H1 _]; [lia|]. destruct (Hx 0) as [_ H0]; [lia|].
  replace (i + (j - i)) with (j + 0) in H1 by lia. rewrite H0 in H1.
  assert (j - i = 1 \/ j - i = 2 \/ j - i = 3) as [E|[E|E]] by lia; rewrite E in H1; discriminate H1.
Qed.

(** [find] from [k] in the bytes where a magic number may begin up to [eo]. *)
Lemma find_magic k eo : 0 <= k <= eo -> eo + 4 <= len ->
  exists r skip, qfind asciiCaseSensitive (slice k (eo + 4 - k) (mbytes m)) magicRange = Ok r skip /\
    match r with
    | Some p => 0 <= p <= eo - k /\ magic_at (k + p) /\ forall j, k <= j < k + p -> ~ magic_at j
    | None => forall j, k <= j <= eo -> ~ magic_at j
    end.
Proof.
  intros Hk He. destruct (qfind_run asciiCaseSensitive (slice k (eo + 4 - k) (mbytes m)) magicRange) as (r & skip & Hr & Hf).
  exists r, skip. split; [done|].
  assert (Hocc : forall p, occurs asciiCaseSensitive (slice k (eo + 4 - k) (mbytes m)) magicRange p <->
                  0 <= p <= eo - k /\ magic_at (k + p)).
  { intros p. rewrite occurs_slice, zlen_slice by lia. change (zlen magicRange) with 4. unfold magic_at. split.
    - intros (? & ? & H). split; [lia|]. by rewrite slice_slice in H by lia.
    - intros (? & H). split; [lia|]. split; [lia|]. by rewrite slice_slice by lia. }
  destruct r as [p|]; simpl in Hf.
  - destruct Hf as [Hp Hbefore]. apply Hocc in Hp as [Hp Hm4]. split; [done|]. split; [done|]. intros j Hj Hmj.
    apply (Hbefore (j - k)); [lia|]. apply Hocc. split; [lia|]. by replace (k + (j - k)) with j by lia.
  - intros j Hj Hmj. apply (Hf (j - k)). apply Hocc. split; [lia|]. by replace (k + (j - k)) with j by lia.
Qed.

(** [findRecord] returns the first record that begins in the range; one that
    begins where the range ends may also be returned. *)
Lemma find_wp id w s e Q E : 0 <= w <= s -> s <= e <= len ->
  (forall i fid data, s <= i <= e -> starts id (suffix_at m i) fid data -> (forall j, s <= j < i -> no_start id j) ->
     Q (mkInfo fid (mkRange (base + (i + 28)) (base + (i + 28 + zlen data)))) m) ->
  ((forall j, s <= j < e -> no_start id j) -> Q no_record m) ->
  wp (findRecord (mkRange (base + s) (base + e)) (mkRange (base + w) (base + len)) id) m Q E.
Proof.
  intros Hw Hse Hyes Hno. unfold findRecord. cbn [rb re].
  apply wp_bind, wp_assert; [apply bool_decide_eq_true; lia|].
  apply wp_bind, wp_assert; [apply bool_decide_eq_true; lia|]. apply wp_bind, wp_get.
  pose proof Hm as (_ & Hbase & Hb0 & Hbl). unfold headerSize in *.
  destruct (decide (s = e)) as [->|Hne].
  { simpl. apply wp_bind. unfold find_round. rewrite decide_False by lia. apply wp_ret, wp_ret. apply Hno. lia. }
  assert (28 <= base) as Hb28. { destruct Hbase as [Hnil|]; [|done]. rewrite Hnil in Hse. change (zlen []) with 0 in Hse. lia. }
  rewrite u64_small by lia. set (eo := Z.min e (len - 28)).
  replace (Z.min (base + e) (base + len - 28)) with (base + eo) by lia.
  assert (Hlate : forall j, s <= j < e -> eo <= j -> no_start id j).
  { intros j Hj Hej. apply no_start_by; lia. }
  apply (wp_iter _ (fun n st m' => m' = m /\ exists k, st = base + k /\ s <= k <= len /\ Z.of_nat n = len - k /\
    (forall j, s <= j < k -> no_start id j))) with (n := Z.to_nat (len - s)); [|unfold zlen; lia|].
  2: { split; [done|]. exists s. split_and!; [done|lia|lia|lia|lia]. }
  intros n st m' (-> & k & -> & Hk & Hn & Hpre). unfold find_round. case_decide as Hlt.
  2: { apply wp_ret, Hno. intros j Hj. destruct (decide (j < k)); [apply Hpre; lia|apply Hlate; lia]. }
  unfold sizeof_magic. replace (base + eo + 4 - (base + k)) with (eo + 4 - k) by lia.
  apply wp_bind, peek_wp; [lia..|].
  destruct (find_magic k eo) as (r & skip & Hr & Hspec); [lia..|]. rewrite Hr. apply wp_bind, wp_ret.
  destruct r as [p|].
  2: { apply wp_ret, Hno. intros j Hj. destruct (decide (j < k)); [apply Hpre; lia|]. destruct (decide (eo <= j)); [apply Hlate; lia|].
       intros fid data Hs. apply (Hspec j); [lia|]. eapply starts_magic; [lia|done]. }
  destruct Hspec as (Hp & Hmp & Hbefore).
  assert (Hpre' : forall j, s <= j < k + p -> no_start id j).
  { intros j Hj. destruct (decide (j < k)); [apply Hpre; lia|]. intros fid data Hs. apply (Hbefore j); [lia|].
    eapply starts_magic; [lia|done]. }
  replace (base + k + p) with (base + (k + p)) by lia. cbn [re]. apply wp_bind, validate_wp; [lia| |].
  - intros fid data Hs. unfold range_empty. cbn [info_record rb re]. pose proof Hs as (_ & _ & Hz & _).
    rewrite bool_decide_eq_false_2 by lia. apply wp_ret. apply Hyes; [lia|done|done].
  - intros r Hr0 Hns. rewrite Hr0. apply wp_ret. exists (n - 4 - Z.to_nat p)%nat. split; [lia|]. split; [done|].
    exists (k + p + 4). split; [lia|]. split; [lia|]. split; [lia|]. intros j Hj.
    destruct (decide (j < k + p)); [apply Hpre'; lia|]. destruct (decide (j = k + p)) as [->|]; [done|].
    intros fid data Hs. apply starts_magic in Hs; [|lia]. apply (magic_apart (k + p) j) in Hs; [lia|lia|done].
Qed.
End Reading.

(** ** A stream *)

(** The records of the bytes [bs] at the position [pos] of the file, with their
    positions: a record that begins at the current byte is taken, and
    otherwise the byte is skipped. *)
Inductive scan (id : Z) : Z -> list Z -> list (list Z * Z) -> Prop :=
  | scan_end pos : scan id pos [] []
  | scan_record pos fid data rest out :
      fits 32 fid -> (id = 0 \/ fid = id) -> 0 < zlen data < 2 ^ 32 ->
      scan id (pos + zlen (record fid data)) rest out ->
      scan id pos (record fid data ++ rest) ((data, pos) :: out)
  | scan_skip pos x bs out :
      (forall fid data, ~ starts id (x :: bs) fid data) ->
      scan id (pos + 1) bs out -> scan id pos (x :: bs) out.

Section Scan.
Context (m : Mapping) (Hm : mapped m).
Abbreviation base := (mbase m).
Abbreviation len := (zlen (mbytes m)).

Lemma suffix_end : suffix_at m len = [].
Proof. unfold suffix_at, zlen. rewrite Nat2Z.id. apply drop_all. Qed.

Lemma suffix_cons i : 0 <= i < len -> exists x, suffix_at m i = x :: suffix_at m (i + 1).
Proof.
  intros Hi. unfold suffix_at, zlen in *. destruct (lookup_lt_is_Some_2 (mbytes m) (Z.to_nat i)) as [x Hx]; [lia|].
  exists x. rewrite (drop_S _ _ _ Hx). by replace (Z.to_nat (i + 1)) with (S (Z.to_nat i)) by lia.
Qed.

Lemma suffix_record i fid data rest : 0 <= i <= len -> suffix_at m i = record fid data ++ rest ->
  suffix_at m (i + 28 + zlen data) = rest.
Proof.
  intros Hi Hs. unfold suffix_at in *. pose proof (zlen_record fid data) as Hz. unfold zlen in *.
  replace (Z.to_nat (i + 28 + _)) with (Z.to_nat i + length (record fid data))%nat by lia.
  rewrite <- drop_drop, Hs. apply drop_app_length.
Qed.

(** Skipping to the next record. *)
Lemma scan_skip_to id i k out : 0 <= i -> i <= k <= len -> (forall j, i <= j < k -> no_start m id j) ->
  scan id k (suffix_at m k) out -> scan id i (suffix_at m i) out.
Proof.
  intros Hi Hk Hns Hscan. remember (Z.to_nat (k - i)) as n eqn:Hn. revert i Hi Hk Hns Hn.
  induction n as [|n IH]; intros i Hi Hk Hns Hn.
  - by replace i with k by lia.
  - destruct (suffix_cons i) as [x Hx]; [lia|]. rewrite Hx. apply scan_skip; [rewrite <- Hx; apply Hns; lia|].
    apply IH; try lia. intros j Hj. apply Hns. lia.
Qed.

(** What an iterator points at: the end or a record. *)
Definition at_end (id : Z) (it : Reader.Iterator) : Prop := it = Reader.mkIterator null_range id (null_range, -1).

Definition at_record (id : Z) (it : Reader.Iterator) (i : Z) (data : list Z) : Prop :=
  0 <= i /\ (exists fid, starts id (suffix_at m i) fid data) /\ i + 28 + zlen data <= len /\
  it = Reader.mkIterator (mkRange (base + i) (base + len)) id
         (mkRange (base + (i + 28)) (base + (i + 28 + zlen data)), i).

(** The iterator moved on from [i] to the first record there or after. *)
Definition moved_to (id i : Z) (it : Reader.Iterator) : Prop :=
  (at_end id it /\ scan id i (suffix_at m i) []) \/
  exists k data, i <= k /\ at_record id it k data /\
    (forall out, scan id k (suffix_at m k) out -> scan id i (suffix_at m i) out).

Lemma advanceToValid_wp id i r0 : 0 <= i <= len ->
  wp (Reader.advanceToValid (Reader.mkIterator (mkRange (base + i) (base + len)) id (r0, i))) m
    (fun it m' => m' = m /\ moved_to id i it) nothrow.
Proof.
  intros Hi. unfold Reader.advanceToValid. cbn [Reader.range_ Reader.fileId_ Reader.recordAndPos_ snd].
  pose proof Hm as (_ & _ & Hb0 & Hbl).
  apply wp_bind, find_wp; [done|lia|lia| |].
  - intros k fid data Hk Hs Hpre. cbn [info_record rb re]. pose proof Hs as Hc.
    apply starts_checks in Hc as (_ & _ & Hz & Hle & _); [|done|lia].
    unfold range_empty. cbn [rb re]. rewrite bool_decide_eq_false_2 by lia. unfold headerSize.
    rewrite !u64_small by (rewrite ?u64_small by lia; lia).
    apply wp_bind, wp_assert; [apply bool_decide_eq_true; lia|].
    apply wp_bind, advance_wp; [done|lia..|]. apply wp_ret. split; [done|]. right. exists k, data. split; [lia|]. split.
    + split; [lia|]. split; [by exists fid|]. split; [lia|]. f_equal; [f_equal; lia|]. f_equal; lia.
    + intros out. apply scan_skip_to; try done; lia.
  - intros Hpre. apply wp_ret. split; [done|]. left. split; [done|].
    apply (scan_skip_to id i len); [lia|lia|done|]. rewrite suffix_end. constructor.
Qed.

Lemma seek_wp id pos : 0 <= pos < 2 ^ 63 ->
  wp (Reader.seek id pos) m (fun it m' => m' = m /\ moved_to id pos it) nothrow.
Proof.
  intros Hp. pose proof Hm as (_ & _ & Hb0 & Hbl). unfold Reader.seek. apply wp_bind, wp_get. unfold Reader.ctor, Reader.map_range.
  rewrite u64_small by lia. replace (mkRange base _) with (mkRange (base + 0) (base + len)) by (f_equal; lia).
  rewrite range_size_ok by (done || (pose proof (zlen_nonneg (mbytes m)); lia)). case_decide as Hge.
  - apply wp_ret. split; [done|]. left. split; [done|]. unfold suffix_at.
    rewrite drop_ge by (unfold zlen in *; lia). constructor.
  - apply wp_bind, advance_wp; [done|lia..|]. apply advanceToValid_wp. lia.
Qed.

Lemma cend_run id : Reader.cend id m = Ok (Reader.mkIterator null_range id (null_range, -1)) m.
Proof.
  pose proof Hm as (_ & _ & Hb0 & Hbl). unfold Reader.cend, Reader.seek. erewrite run_bind by done.
  unfold Reader.ctor. rewrite decide_True; [done|]. unfold Reader.map_range, range_size. cbn [rb re].
  pose proof (zlen_nonneg (mbytes m)). rewrite u64_small by lia. change (u64 (-1)) with (2 ^ 64 - 1). lia.
Qed.

(** Past the record at [i]. *)
Lemma increment_wp id it i data : at_record id it i data ->
  wp (Reader.increment it) m
    (fun it' m' => m' = m /\ moved_to id (i + 28 + zlen data) it') nothrow.
Proof.
  intros (Hi & _ & Hle & ->). pose proof Hm as (_ & _ & Hb0 & Hbl). pose proof (zlen_nonneg data) as Hz.
  unfold Reader.increment. cbn [Reader.range_ Reader.fileId_ Reader.recordAndPos_ fst snd].
  rewrite range_size_ok by (done || lia). unfold headerSize. rewrite u64_small by lia.
  apply wp_bind, advance_wp; [done|lia..|].
  replace (i + (28 + (i + 28 + zlen data - (i + 28)))) with (i + 28 + zlen data) by lia.
  apply advanceToValid_wp. lia.
Qed.

(** Iterators into a file are equal when they are at the same position. *)
Lemma equal_end_wp id it i data Q E : at_record id it i data -> Q false m ->
  wp (Reader.equal it (Reader.mkIterator null_range id (null_range, -1))) m Q E.
Proof.
  intros (Hi & (fid & Hs) & Hle & ->) HQ. unfold Reader.equal. cbn [Reader.range_].
  pose proof (zlen_nonneg data).
  apply wp_bind, elements_wp; [done|lia..|]. apply wp_bind, wp_ret, wp_ret.
  replace (range_eqb _ _) with false; [done|]. symmetry. apply not_true_is_false. rewrite range_eqb_spec. intros Hnil.
  apply (f_equal zlen) in Hnil. rewrite zlen_slice in Hnil by lia. change (zlen []) with 0 in Hnil. lia.
Qed.

Lemma scan_step id it i data out : at_record id it i data ->
  scan id (i + 28 + zlen data) (suffix_at m (i + 28 + zlen data)) out -> scan id i (suffix_at m i) ((data, i) :: out).
Proof.
  intros (Hi & (fid & Hf & Hid & Hz & rest & Hs) & Hle & _) Hout. rewrite Hs.
  rewrite (suffix_record i fid data rest) in Hout by (done || lia).
  apply scan_record; try done. by rewrite zlen_record, Z.add_assoc.
Qed.

(** The loop over a reader performs the scan. *)
Lemma collect_wp id pos : 0 <= pos < 2 ^ 63 ->
  wp (Reader.collect id pos) m (fun out m' => m' = m /\ scan id pos (suffix_at m pos) out) nothrow.
Proof.
  intros Hp. unfold Reader.collect. apply wp_bind. eapply wp_wand; [by apply seek_wp|]. intros first m' [-> Hfirst].
  apply wp_bind. unfold wp at 1. rewrite cend_run. apply wp_bind, wp_get.
  set (I := fun (n : nat) (st : Reader.Iterator * list (list Z * Z)) (m' : Mapping) => let '(it, out) := st in m' = m /\
    ((at_end id it /\ scan id pos (suffix_at m pos) out) \/
     exists i data, at_record id it i data /\ Z.of_nat n = len - i /\
       forall out', scan id i (suffix_at m i) out' -> scan id pos (suffix_at m pos) (out ++ out'))).
  assert (exists n, (n <= length (mbytes m))%nat /\ I n (first, []) m) as (n0 & Hn0 & Hinit).
  { destruct Hfirst as [[Hend Hs]|(k & data & Hk & Hat & Hs)]; [exists 0%nat; split; [lia|]; by split; [|left]|].
    exists (Z.to_nat (len - k)). pose proof Hat as (Hk0 & _ & Hle & _). pose proof (zlen_nonneg data). unfold zlen in *.
    split; [lia|]. split; [done|]. right. exists k, data. split; [done|]. unfold zlen. split; [lia|done]. }
  apply (wp_iter _ I) with (n := n0); [|lia|done].
  intros n [it out] m' [-> [[-> Hscan]|(i & data & Hat & Hn & Hscan)]]; unfold Reader.collect_round.
    { apply wp_bind. unfold Reader.equal. apply wp_bind, wp_ret, wp_bind, wp_ret, wp_ret. by apply wp_ret. }
    apply wp_bind. eapply equal_end_wp; [done|].
    pose proof Hat as (Hi & (fid & Hs) & Hle & E). pose proof (zlen_nonneg data) as Hz.
    assert (Hdr : Reader.dereference it = (mkRange (base + (i + 28)) (base + (i + 28 + zlen data)), i)) by by rewrite E.
    rewrite Hdr. cbn [fst snd].
    apply wp_bind, elements_wp; [done|lia..|].
    replace (slice (i + 28) (i + 28 + zlen data - (i + 28)) (mbytes m)) with data.
    2: { apply starts_checks in Hs as (_ & _ & _ & _ & Hd & _); [|done|lia]. rewrite <- Hd at 1. f_equal. lia. }
    apply wp_bind. eapply wp_wand; [by eapply increment_wp|]. intros it' m' [-> Hit']. apply wp_ret.
    destruct Hit' as [[Hend Hrest]|(k & data' & Hk & Hat' & Hrest)].
    + exists 0%nat. split; [lia|]. split; [done|]. left. split; [done|]. apply Hscan. by eapply scan_step.
    + exists (Z.to_nat (len - k)). pose proof Hat' as (Hk0 & _ & Hle' & _). pose proof (zlen_nonneg data').
      split; [lia|]. split; [done|]. right. exists k, data'. split; [done|]. split; [lia|]. intros out' Hout'.
      rewrite <- app_assoc. apply Hscan. eapply scan_step; [done|]. by apply Hrest.
Qed.
End Scan.

(** The bytes determine the record. *)
Lemma record_inj fid data rest fid' data' rest' :
  fits 32 fid -> fits 32 fid' -> zlen data < 2 ^ 32 -> zlen data' < 2 ^ 32 ->
  record fid data ++ rest = record fid' data' ++ rest' -> fid = fid' /\ data = data' /\ rest = rest'.
Proof.
  intros Hf Hf' Hd Hd' H. unfold record in H. rewrite <- !app_assoc in H.
  apply app_inj_1 in H as [Hh H].
  2: { pose proof (zlen_record_header fid data). pose proof (zlen_record_header fid' data'). unfold zlen in *. lia. }
  apply (f_equal header_at) in Hh. rewrite !header_at_record in Hh by done.
  pose proof (f_equal fileId Hh) as E1. apply (f_equal dataLength) in Hh. cbn [fileId dataLength] in E1, Hh.
  apply app_inj_1 in H; [|unfold zlen in *; lia]. tauto.
Qed.

Lemma starts_record id fid data rest : fits 32 fid -> (id = 0 \/ fid = id) -> 0 < zlen data < 2 ^ 32 ->
  starts id (record fid data ++ rest) fid data.
Proof. intros. split; [done|]. split; [done|]. split; [done|]. by exists rest. Qed.

(** A stream has one scan. *)
Lemma scan_det id pos bs out : scan id pos bs out -> forall out', scan id pos bs out' -> out' = out.
Proof.
  induction 1 as [pos|pos fid data rest out Hf Hid Hz _ IH|pos x bs out Hno _ IH]; intros out' Hout'.
  - by inversion Hout'.
  - remember (record fid data ++ rest) as bs eqn:Hbs.
    destruct Hout' as [pos|pos fid' data' rest' out'' Hf' Hid' Hz' Hs|pos x bs out'' Hno Hs].
    + apply (f_equal zlen) in Hbs. rewrite zlen_app, zlen_record in Hbs. pose proof (zlen_nonneg rest).
      change (zlen []) with 0 in Hbs. lia.
    + apply record_inj in Hbs as (-> & -> & ->); [|done|done|lia|lia]. by rewrite (IH out'').
    + exfalso. apply (Hno fid data). rewrite Hbs. by apply starts_record.
  - remember (x :: bs) as l eqn:Hl. destruct Hout' as [pos|pos fid' data' rest' out'' Hf' Hid' Hz' Hs|pos y bs' out'' _ Hs].
    + done.
    + exfalso. apply (Hno fid' data'). by apply starts_record.
    + injection Hl as -> ->. by apply IH.
Qed.

(** ** Streams with damage *)

(** A stream in pieces: records, and bytes between them. *)
Inductive piece := Rec (fid : Z) (data : list Z) | Junk (bs : list Z).

Definition piece_bytes (p : piece) : list Z := match p with Rec fid data => record fid data | Junk bs => bs end.
Definition stream (ps : list piece) : list Z := concat (piece_bytes <$> ps).

(** The records are such as a reader for [id] accepts, and none seems to begin
    in the bytes between them. *)
Fixpoint readable (id : Z) (ps : list piece) : Prop :=
  match ps with
  | [] => True
  | Rec fid data :: ps => fits 32 fid /\ (id = 0 \/ fid = id) /\ 0 < zlen data < 2 ^ 32 /\ readable id ps
  | Junk bs :: ps =>
      (forall j, (j < length bs)%nat -> forall fid data, ~ starts id (drop j bs ++ stream ps) fid data) /\ readable id ps
  end.

Fixpoint records_at (pos : Z) (ps : list piece) : list (list Z * Z) :=
  match ps with
  | [] => []
  | Rec fid data :: ps => (data, pos) :: records_at (pos + zlen (record fid data)) ps
  | Junk bs :: ps => records_at (pos + zlen bs) ps
  end.

Lemma scan_junk id pos bs rest out :
  (forall j, (j < length bs)%nat -> forall fid data, ~ starts id (drop j bs ++ rest) fid data) ->
  scan id (pos + zlen bs) rest out -> scan id pos (bs ++ rest) out.
Proof.
  revert pos. induction bs as [|x bs IH]; intros pos Hno Hscan; simpl.
  - change (zlen []) with 0 in Hscan. by rewrite Z.add_0_r in Hscan.
  - apply scan_skip; [apply (Hno 0%nat); simpl; lia|]. apply IH.
    + intros j Hj. apply (Hno (S j)). simpl. lia.
    + replace (pos + 1 + zlen bs) with (pos + zlen (x :: bs)) by (unfold zlen; simpl; lia). done.
Qed.

Lemma scan_pieces id ps : readable id ps -> forall pos, scan id pos (stream ps) (records_at pos ps).
Proof.
  unfold stream. induction ps as [|[fid data|bs] ps IH]; simpl; intros Hr pos; [constructor| |].
  - destruct Hr as (Hf & Hid & Hz & Hr). apply scan_record; try done. by apply IH.
  - destruct Hr as (Hno & Hr). apply scan_junk; [done|]. by apply IH.
Qed.

(** ** The claims *)

(** [findRecord] returns the first record that begins in the search range, if any.
    A record that begins where the range ends may be returned as well. *)
Lemma findRecord_first m id w s e : mapped m -> 0 <= w <= s -> s <= e <= zlen (mbytes m) ->
  exists r, findRecord (mkRange (mbase m + s) (mbase m + e)) (mkRange (mbase m + w) (mbase m + zlen (mbytes m))) id m = Ok r m /\
    (r = no_record /\ (forall j, s <= j < e -> no_start m id j) \/
     exists i fid data, s <= i <= e /\ starts id (suffix_at m i) fid data /\ (forall j, s <= j < i -> no_start m id j) /\
       r = mkInfo fid (mkRange (mbase m + (i + 28)) (mbase m + (i + 28 + zlen data)))).
Proof.
  intros Hm Hw Hse.
  assert (Hwp : wp (findRecord (mkRange (mbase m + s) (mbase m + e)) (mkRange (mbase m + w) (mbase m + zlen (mbytes m))) id) m
    (fun r m' => m' = m /\ (r = no_record /\ (forall j, s <= j < e -> no_start m id j) \/
     exists i fid data, s <= i <= e /\ starts id (suffix_at m i) fid data /\ (forall j, s <= j < i -> no_start m id j) /\
       r = mkInfo fid (mkRange (mbase m + (i + 28)) (mbase m + (i + 28 + zlen data))))) nothrow).
  { apply find_wp; [done|done|done| |].
    - intros i fid data Hi Hs Hpre. split; [done|]. right. by exists i, fid, data.
    - intros Hno. split; [done|]. by left. }
  apply wp_ok_inv in Hwp as (r & m' & Hr & -> & Hspec). by exists r.
Qed.

Lemma collect_run m id pos : mapped m -> 0 <= pos < 2 ^ 63 ->
  exists out, Reader.collect id pos m = Ok out m /\ scan id pos (suffix_at m pos) out.
Proof.
  intros Hm Hp. pose proof (collect_wp m Hm id pos Hp) as Hwp. apply wp_ok_inv in Hwp as (out & m' & Hc & -> & Hscan). by exists out.
Qed.

Lemma collect_stream m id pos ps : mapped m -> 0 <= pos < 2 ^ 63 -> suffix_at m pos = stream ps -> readable id ps ->
  Reader.collect id pos m = Ok (records_at pos ps) m.
Proof.
  intros Hm Hp Hps Hr. destruct (collect_run m id pos Hm Hp) as (out & Hc & Hscan). rewrite Hc. f_equal. symmetry.
  eapply scan_det; [exact Hscan|]. rewrite Hps. by apply scan_pieces.
Qed.

(** C10: the reader of a mapped file, whatever its bytes are, ends without leaving the
    mapping and returns, in order and with their positions, exactly the records
    that a scan byte by byte finds, although it searches for the magic number and
    skips it when the record is not valid; in particular all of the records that
    were written to the file, if no record happens to begin in the damaged bytes
    between them. *)
Theorem reader_resynchronizes m id pos : mapped m -> 0 <= pos < 2 ^ 63 ->
  (exists out, Reader.collect id pos m = Ok out m /\ scan id pos (suffix_at m pos) out) /\
  (forall ps, suffix_at m pos = stream ps -> readable id ps -> Reader.collect id pos m = Ok (records_at pos ps) m).
Proof.
  intros Hm Hp. split; [by apply collect_run|]. intros ps Hps Hr. by apply collect_stream.
Qed.

(** A record begins with the magic number and four zeroes. *)
Lemma starts_head id bs fid data : starts id bs fid data -> take 8 bs = magicRange ++ [0; 0; 0; 0].
Proof. intros (_ & _ & _ & rest & ->). unfold record, record_header, record_fields. by rewrite <- !app_assoc. Qed.

Lemma junk_readable id bs ps :
  Forall (fun j => take 8 (drop j bs ++ stream ps) <> magicRange ++ [0; 0; 0; 0]) (seq 0 (length bs)) -> readable id ps ->
  readable id (Junk bs :: ps).
Proof.
  intros Hj Hps. split; [|done]. intros j Hlt fid data Hs%starts_head. rewrite Forall_forall in Hj. apply (Hj j); [|done].
  apply elem_of_seq. lia.
Qed.

(** Two records, and before the second a header with a wrong version. *)
Definition demo_pieces : list piece := [Junk [1; 77; 3]; Rec 5 [65; 66]; Junk [0x4d; 0xe5; 0x79; 0x93; 1; 0; 0; 0]; Rec 6 [7]].

Definition demo_map : Mapping := mkMapping 4096 (stream demo_pieces).

Lemma demo_mapped : mapped demo_map.
Proof.
  split_and!; [|right; done|done|vm_compute; reflexivity].
  apply (bool_decide_unpack (Forall (fun b => 0 <= b < 256) (stream demo_pieces))). vm_compute. exact Logic.I.
Qed.

Lemma demo_readable : readable 0 demo_pieces.
Proof.
  assert (Hlast : readable 0 [Rec 6 [7]]) by (split; [done|]; split; [by left|]; by split).
  apply junk_readable; [apply (bool_decide_unpack _); vm_compute; exact Logic.I|].
  split; [done|]. split; [by left|]. split; [done|].
  apply junk_readable; [apply (bool_decide_unpack _); vm_compute; exact Logic.I|done].
Qed.

Lemma reader_resynchronizes_witness :
  Reader.collect 0 0 demo_map = Ok [([65; 66], 3); ([7], 41)] demo_map /\
  exists out, Reader.collect 5 4 demo_map = Ok out demo_map /\ scan 5 4 (suffix_at demo_map 4) out.
Proof.
  split.
  - apply (proj2 (reader_resynchronizes demo_map 0 0 demo_mapped ltac:(lia)) demo_pieces eq_refl demo_readable).
  - apply (proj1 (reader_resynchronizes demo_map 5 4 demo_mapped ltac:(lia))).
Defined.

(** The search range ends where the record begins, and the record is returned. *)
Example find_past_end :
  findRecord (mkRange 4096 4099) (mkRange 4096 (4096 + zlen (stream demo_pieces))) 0 demo_map =
    Ok (mkInfo 5 (mkRange 4127 4129)) demo_map.
Proof. vm_compute. reflexivity. Qed.
