(* ===== verification/RecordIOWrite.v ===== *)
(** * io/RecordIO: what is written

    [prependHeader] turns a chain of IOBufs with the bytes [bs] into one with the
    bytes of the record of [bs], and leaves every other object alone. *)

From stdpp Require Import base list gmap strings.
From S2P Require Import Prelude Bits SpookyHashV2 IOBufMem IOBuf IOBufChain IOBufInv IOBufWf IOBufPrim IOBufRelease IOBufLife IOBufWindow IOBufShare IOBufPiece IOBufRead IOBufSpec IOBufQueueRep CursorInspect CursorEdit CursorAppend FileUtil RecordIO RecordIOSpec.

#[local] Opaque chain.

Section Write.
Implicit Types (h : Heap) (x p q : positive) (l : list positive) (b : Payload).

(** ** The length and the hash of a chain *)

(** The iterator at the first element of [todo]. *)
Definition iterator_at (h : Heap) (x : positive) (todo : list positive) (it : option Iterator) : Prop :=
  match todo with
  | [] => it = None
  | p :: _ => exists b, payloads h !! p = Some b /\ it = Some (mkIterator p x (data_ b, length_ b))
  end.

Lemma setVal_wp h x p todo : (exists b, payloads h !! p = Some b) ->
  wp (setVal p x) h (fun it h' => h' = h /\ iterator_at h x (p :: todo) (Some it)) nothrow.
Proof.
  intros [b Hb]. unfold setVal. apply wp_bind. eapply wp_load; [done|]. apply wp_ret. split; [done|]. by exists b.
Qed.

Lemma increment_chain_wp h x l dn p todo b : chain h (x :: l) -> x :: l = dn ++ p :: todo ->
  wp (IOBuf.increment (mkIterator p x (data_ b, length_ b))) h
    (fun it h' => h' = h /\ iterator_at h x todo it) nothrow.
Proof.
  intros Hc Hl. unfold IOBuf.increment. cbn [pos_ end_]. apply wp_bind. eapply wp_next.
  { eapply (chain_succ h x l dn p todo); done. }
  destruct todo as [|q todo]; simpl.
  - rewrite decide_True by done. by apply wp_ret.
  - rewrite decide_False.
    2: { intros ->. apply chain_NoDup in Hc. rewrite Hl in Hc. destruct dn as [|y dn]; simpl in Hl; injection Hl as -> Hl.
         - apply NoDup_cons in Hc as [Hn _]. apply Hn. by left.
         - simpl in Hc. apply NoDup_cons in Hc as [Hn _]. apply Hn. apply elem_of_app. right. right. by left. }
    apply wp_bind. eapply wp_wand; [apply (setVal_wp h x q todo)|].
    + eapply chain_payload; [done|]. rewrite Hl. apply elem_of_app. right. right. by left.
    + intros it h' [-> Hit]. by apply wp_ret.
Qed.

Definition too_long : exn := invalid_argument "Record length must fit in 32 bits".

Lemma dataLengthAndHash_wp h x l hasher :
  wf h -> chain h (x :: l) -> length (m_data hasher) = 192%nat -> length (m_state hasher) = 12%nat ->
  zlen (chain_bytes h (x :: l)) + 28 < 2 ^ 64 ->
  wp (dataLengthAndHash hasher x) h
    (fun r h' => h' = h /\ zlen (chain_bytes h (x :: l)) + 28 < 2 ^ 32 - 1 /\
       r = (zlen (chain_bytes h (x :: l)), dataHash (chain_bytes h (x :: l))))
    (fun e h' => h' = h /\ e = too_long /\ 2 ^ 32 - 1 <= zlen (chain_bytes h (x :: l)) + 28).
Proof.
  intros Hw Hc Hd Hs Hmax. set (bs := chain_bytes h (x :: l)) in *. unfold dataLengthAndHash, cbegin.
  apply wp_bind, wp_bind. eapply wp_nothrow; [apply (setVal_wp h x x l); by eapply chain_payload; [done|left]|].
  intros it h' [-> Hit]. apply wp_ret, wp_bind, wp_get. apply wp_bind.
  pose proof (chain_size _ _ Hc) as Hsz.
  eapply (wp_iter _ (fun n '(it, len, hs) h' => h' = h /\ exists dn todo, x :: l = dn ++ todo /\ n = length todo /\
    iterator_at h x todo it /\ len = zlen (chain_bytes h dn) /\ absorbed kHashSeed kHashSeed (chain_bytes h dn) hs))
    with (n := length (x :: l)); [|lia|].
  2: { split; [done|]. exists [], (x :: l). split_and!; try done. by apply Init_absorbed. }
  intros n [[it' len] hs] h' (-> & dn & todo & Hl & -> & Hit' & -> & Habs). unfold hash_round.
  destruct todo as [|p todo]; simpl in Hit'.
  - subst it'. apply wp_ret. rewrite app_nil_r in Hl. subst dn. fold bs. fold bs in Habs.
    destruct (Final_absorbed _ _ _ _ Habs) as (hs' & -> & _). unfold headerSize.
    pose proof (zlen_nonneg bs). rewrite u64_small by lia. destruct (Hash128 bs kHashSeed kHashSeed) as [h1 h2] eqn:HH.
    case_decide; [by apply wp_throw|]. apply wp_ret. split_and!; [done|lia|]. f_equal. unfold dataHash, Hash64. by rewrite HH.
  - destruct Hit' as (b & Hb & ->). cbn [val_ fst snd].
    apply wp_bind, wp_load_window; [by eapply wf_window|]. rewrite <- (node_bytes_pay _ _ _ Hb).
    apply wp_bind. eapply wp_nothrow; [by eapply increment_chain_wp|]. intros it'' h' [-> Hit'']. apply wp_ret.
    assert (Hle : zlen (chain_bytes h (dn ++ [p])) <= zlen bs).
    { unfold bs. rewrite Hl, (app_assoc dn [p] todo : dn ++ p :: todo = (dn ++ [p]) ++ todo), (chain_bytes_app h (dn ++ [p])), zlen_app.
      pose proof (zlen_nonneg (chain_bytes h todo)). lia. }
    rewrite chain_bytes_snoc in Hle.
    exists (length todo). split; [simpl; lia|]. split; [done|]. exists (dn ++ [p]), todo. rewrite <- app_assoc, chain_bytes_snoc.
    split_and!; try done.
    + rewrite zlen_app, (length_bytes _ _ _ Hw Hb). rewrite zlen_app, (length_bytes _ _ _ Hw Hb) in Hle.
      pose proof (zlen_nonneg (chain_bytes h dn)). pose proof (length_bound _ _ _ Hw Hb). apply u64_small. lia.
    + apply Update_absorbed; [done|]. lia.
Qed.

(** ** Filling in the header *)

Lemma overwrite_front {A} off (bs l r : list A) : 0 <= off -> off + zlen bs <= zlen l ->
  overwrite off bs (l ++ r) = overwrite off bs l ++ r.
Proof.
  intros Ho Hl. unfold overwrite, zlen in *. rewrite take_app_le by lia. rewrite drop_app_le by lia. by rewrite <- !app_assoc.
Qed.

Lemma load_data_wp h p b n Q E : wf h -> payloads h !! p = Some b -> 0 < n <= length_ b ->
  Q (slice 0 n (node_bytes h p)) h -> wp (load_bytes (data_ b) n) h Q E.
Proof.
  intros Hw Hp Hn HQ. rewrite (node_bytes_pay _ _ _ Hp) in HQ. unfold bytes in HQ.
  destruct (wf_window _ _ _ Hw Hp) as (Hk & ? & ? & Hm). rewrite Hk in HQ. destruct (ablk (buf_ b)) as [k|] eqn:Hb.
  - destruct Hm as (bs & Hbs & ?). rewrite Hbs in HQ. rewrite slice_slice in HQ by lia. rewrite Z.add_0_r in HQ.
    eapply wp_load_bytes; eauto; lia.
  - destruct Hm as [Hl _]. lia.
Qed.

(** Stores leave the storage flags alone. *)
Lemma store_storages a bs h Q :
  wp (store_bytes a bs) h Q nothrow -> wp (store_bytes a bs) h (fun r h' => Q r h' /\ storages h' = storages h) nothrow.
Proof.
  unfold store_bytes. case_decide; [done|]. unfold wp, mbind, M_bind, bind, of_option, get.
  destruct (ablk a) as [k|]; [|done]. simpl. destruct (blocks h !! k) as [old|]; [|done]. simpl.
  unfold assert. by case_bool_decide.
Qed.

(** Some stores into the header at the front of the data of [p], which other
    members of the structure follow. *)
Definition filled (h : Heap) (p : positive) (hd rest : list Z) (h' : Heap) : Prop :=
  wf h' /\ bufs h' = bufs h /\ keeps [p] [] h h' /\ own_data h' p /\ node_bytes h' p = hd ++ rest /\ storages h' = storages h.

Lemma filled_store h h1 p b hd rest off bs :
  payloads h !! p = Some b -> filled h p hd rest h1 -> 0 <= off -> off + zlen bs <= zlen hd ->
  wp (store_bytes (padd (data_ b) off) bs) h1 (fun _ h2 => filled h p (overwrite off bs hd) rest h2) nothrow.
Proof.
  intros Hp (Hw & Hb & Hk & Hown & Hnb & Hst) Ho Hle. assert (Hp1 : payloads h1 !! p = Some b) by by rewrite (payloads_of_bufs _ _ Hb).
  eapply wp_wand; [apply store_storages; eapply (store_data_wp h1 p b off bs); try done|].
  { rewrite <- (length_bytes _ _ _ Hw Hp1), Hnb, zlen_app. pose proof (zlen_nonneg rest). lia. }
  intros [] h2 ((Hw2 & Hb2 & Hk2 & Hnb2) & Hst2). split_and!; [done|congruence| | | |congruence].
  - by eapply keeps_trans.
  - unfold own_data, sole. by rewrite (payloads_of_bufs _ _ Hb2).
  - rewrite Hnb2, Hnb. by apply overwrite_front.
Qed.

Lemma fill_header_wp h p b pre rest fid data :
  wf h -> payloads h !! p = Some b -> own_data h p -> node_bytes h p = pre ++ rest -> zlen pre = 28 -> zlen data < 2 ^ 32 ->
  wp (fill_header (data_ b) fid (zlen data) (dataHash data)) h
    (fun _ h' => filled h p (record_header fid data) rest h') nothrow.
Proof.
  intros Hw Hp Hown Hnb Hpre Hd. pose proof (zlen_nonneg data). unfold fill_header.
  assert (Hf0 : filled h p pre rest h) by (split_and!; try done; apply keeps_refl).
  rewrite <- (padd_0 (data_ b)) at 1. rewrite u32_small by lia.
  apply wp_bind. eapply wp_wand; [eapply filled_store; [done|exact Hf0|lia|by rewrite Hpre]|]. intros [] h1 Hf1.
  assert (E1 : overwrite 0 (replicate 28 0) pre = replicate 28 0).
  { unfold overwrite. rewrite drop_ge by (rewrite length_replicate; unfold zlen in Hpre; lia). by rewrite app_nil_r. }
  rewrite E1 in Hf1.
  apply wp_bind. eapply wp_wand; [eapply filled_store; [done|exact Hf1|lia|done]|]. intros [] h2 Hf2.
  apply wp_bind. eapply wp_wand; [eapply filled_store; [done|exact Hf2|lia|done]|]. intros [] h3 Hf3.
  apply wp_bind. eapply wp_wand; [eapply filled_store; [done|exact Hf3|lia|done]|]. intros [] h4 Hf4.
  apply wp_bind. eapply wp_wand; [eapply filled_store; [done|exact Hf4|lia|done]|]. intros [] h5 Hf5.
  assert (Hf6 : filled h p (record_fields fid data ++ [0; 0; 0; 0]) rest h5) by exact Hf5. clear Hf5.
  pose proof Hf6 as (Hw5 & Hb5 & _ & _ & Hnb5 & _).
  assert (Hp5 : payloads h5 !! p = Some b) by by rewrite (payloads_of_bufs _ _ Hb5).
  assert (Hz : zlen (record_fields fid data ++ [0; 0; 0; 0]) = 28) by done.
  apply wp_bind. apply (load_data_wp h5 p b 28); [done|done| |].
  { rewrite <- (length_bytes _ _ _ Hw5 Hp5), Hnb5, zlen_app, Hz. pose proof (zlen_nonneg rest). lia. }
  assert (Hsl : slice 0 28 ((record_fields fid data ++ [0; 0; 0; 0]) ++ rest) = record_fields fid data ++ [0; 0; 0; 0])
    by (rewrite <- Hz; apply slice_app_front).
  rewrite Hnb5, Hsl.
  assert (Hh : headerHash (record_fields fid data ++ [0; 0; 0; 0]) = Hash32 (record_fields fid data) kHashSeed).
  { unfold headerHash. by f_equal. }
  rewrite Hh. eapply wp_wand; [by eapply (filled_store h h5 p b _ rest 24)|]. intros [] h6 Hf7.
  assert (E6 : forall w, overwrite 24 (to_bytes 4 w) (record_fields fid data ++ [0; 0; 0; 0]) = record_fields fid data ++ to_bytes 4 w)
    by reflexivity.
  by rewrite E6 in Hf7.
Qed.

(** ** Room for the header *)

(** [prepend] on a buffer that nobody else uses: 28 bytes in front. *)
Lemma prepended_wp h x b : wf h -> payloads h !! x = Some b -> ~ one_shared h b -> headerSize <= headroom b ->
  wp (prepend x headerSize) h
    (fun _ h' => exists b' pre, wf h' /\ keeps [x] [] h h' /\ payloads h' !! x = Some b' /\ own_data h' x /\
       zlen pre = 28 /\ node_bytes h' x = pre ++ node_bytes h x /\ storages h' = storages h) nothrow.
Proof.
  intros Hw Hx Hn Hr. unfold headerSize in *. pose proof (own_unshared _ _ _ Hw Hx Hn) as Hown.
  pose proof (wf_window _ _ _ Hw Hx) as Hwin. rewrite (window_headroom _ _ Hwin) in Hr.
  destruct (ablk (buf_ b)) as [k|] eqn:Hk.
  2: { destruct Hwin as (_ & _ & _ & Hm). rewrite Hk in Hm. lia. }
  eapply wp_wand; [eapply prepend_wp; [done|done|done|by rewrite (window_headroom _ _ Hwin)]|].
  intros [] h' Hre. pose proof (rewindowed_pay _ _ _ _ Hre) as Hx'. destruct Hre as (Hw' & Hk' & Hpay & Hbl & _ & Hst).
  destruct Hwin as (Hd & H1 & H2 & Hm). rewrite Hk in Hm. destruct Hm as (bs & Hbs & ? & ? & ? & ? & ?).
  eexists _, (slice (aoff (data_ b) - 28) 28 bs). split_and!; [done|done|exact Hx'| | | |done].
  - intros b' k' Hb' Hkb. rewrite Hx' in Hb'. injection Hb' as <-. eapply sole_insert; [exact Hx|exact Hpay|]. by apply (Hown b).
  - apply zlen_slice; lia.
  - rewrite (node_bytes_pay _ _ _ Hx'), (node_bytes_pay _ _ _ Hx). unfold bytes. simpl. rewrite Hd, Hk, Hbl, Hbs.
    replace (length_ b + 28) with (28 + length_ b) by lia. rewrite slice_split by lia. f_equal; f_equal; lia.
Qed.

(** A new buffer for the header in front of the chain. *)
Lemma header_buffer_wp h x l : wf h -> chain h (x :: l) -> alloc_ok h ->
  wp (nb ← create headerSize; append nb headerSize;; appendChain nb x;; mret nb) h
    (fun nb h' => payloads h !! nb = None /\ on_heap h' nb /\ wf h' /\ chain h' (nb :: x :: l) /\ keeps [] (x :: l) h h' /\ own_data h' nb /\
       (exists b, payloads h' !! nb = Some b) /\ zlen (node_bytes h' nb) = 28) nothrow.
Proof.
  intros Hw Hc Ha. unfold headerSize. apply wp_bind.
  eapply wp_wand; [apply create_wp; [done|done|lia|unfold offsetof_align, max_alloc; lia]|].
  intros nb h1 (Hoh & a & cap & Hcap & (Hw1 & Hk1 & Hnb & Hcn & Hpay) & Hbl).
  assert (Hnb1 : payloads h1 !! nb = Some (fresh_payload a cap)) by (rewrite Hpay; apply lookup_insert_eq).
  apply wp_bind. eapply wp_wand; [eapply (append_wp h1 nb _ 28 a); [done|done|done|]|].
  { rewrite (window_tailroom _ _ a (wf_window _ _ _ Hw1 Hnb1)) by done. simpl. lia. }
  intros [] h2 Hre. pose proof (rewindowed_pay _ _ _ _ Hre) as Hnb2. destruct Hre as (Hw2 & Hk2 & Hpay2 & Hbl2 & Hin2 & Hst2).
  assert (Hc2 : chain h2 [nb]) by (eapply keeps_chain; [exact Hk2|set_solver|done]).
  assert (Hd : [nb] ## x :: l).
  { intros p ->%list_elem_of_singleton Hp. destruct (chain_payload _ _ _ Hc Hp). congruence. }
  assert (Hcx : chain h2 (x :: l)).
  { eapply keeps_chain; [exact Hk2|set_solver|]. eapply keeps_chain; [exact Hk1|set_solver|done]. }
  apply wp_bind. unfold appendChain. apply wp_bind. eapply wp_next; [by apply (chain_succ h2 nb [] [] nb [])|]. simpl.
  eapply wp_wand; [by apply (prependChain_wp h2 nb [] x l)|]. intros [] h3 (Hc3 & Hrl). apply wp_ret.
  assert (Hnb3 : payloads h3 !! nb = Some (with_length (length_ (fresh_payload a cap) + 28) (fresh_payload a cap)))
    by by rewrite (rl_body _ _ _ Hrl).
  assert (Hw3 : wf h3) by by eapply wf_relinked.
  split_and!; try done.
  - apply (k_heap _ _ _ _ (keeps_relinked _ _ _ Hrl)); [set_solver|by rewrite Hnb2|].
    unfold on_heap. rewrite Hst2. exact Hoh.
  - eapply keeps_grow; [eapply keeps_grow; [eapply keeps_weaken; [| |exact Hk1]; set_solver|exact Hk2|..]|by apply keeps_relinked|..].
    + intros p ->%list_elem_of_singleton. by right.
    + by intros p ?%elem_of_nil.
    + by intros p ?%elem_of_nil.
    + intros p [Hp|Hp]%elem_of_app; [|by left]. apply list_elem_of_singleton in Hp as ->. by right.
  - intros b' k Hb' Hk. rewrite Hnb3 in Hb'. injection Hb' as <-. eapply sole_unflagged; [done|done| | |done].
    + rewrite (sharedInfo_word (fresh_payload a cap)) by done. apply sharedInfo_fresh.
    + rewrite (has_flag_word _ (fresh_payload a cap)) by done. apply has_flag_fresh.
  - by eexists.
  - by rewrite (length_bytes _ _ _ Hw3 Hnb3).
Qed.

(** The chain of [x] became the chain of [y], which holds the record: [y] is [x] or
    a new buffer in front of it, and nothing happened to any other object. *)
Definition headed (h : Heap) (x : positive) (l : list positive) (fid : Z) (y : positive) (h' : Heap) : Prop :=
  wf h' /\ keeps [x] (x :: l) h h' /\ (forall q, q ∈ x :: l -> on_heap h q -> on_heap h' q) /\ exists l',
    chain h' (y :: l') /\ chain_bytes h' (y :: l') = record fid (chain_bytes h (x :: l)) /\
    ((y = x /\ l' = l) \/ (payloads h !! y = None /\ on_heap h' y /\ l' = x :: l)).

(** The header is filled in at the front of [y]. *)
Lemma headed_fill h h1 x l y l' b pre rest fid :
  wf h1 -> keeps [x] (x :: l) h h1 -> chain h1 (y :: l') -> own_data h1 y -> payloads h1 !! y = Some b ->
  node_bytes h1 y = pre ++ rest -> zlen pre = 28 -> rest ++ chain_bytes h1 l' = chain_bytes h (x :: l) ->
  (y = x /\ l' = l) \/ (payloads h !! y = None /\ on_heap h1 y /\ l' = x :: l) ->
  (forall q, q ∈ x :: l -> on_heap h q -> on_heap h1 q) ->
  zlen (chain_bytes h (x :: l)) < 2 ^ 32 ->
  wp (fill_header (data_ b) fid (zlen (chain_bytes h (x :: l))) (dataHash (chain_bytes h (x :: l)))) h1
    (fun _ h' => headed h x l fid y h') nothrow.
Proof.
  intros Hw Hk Hc Hown Hb Hnb Hpre Hrest Hcase Hoh Hmax.
  eapply wp_wand; [by eapply fill_header_wp|]. intros [] h' (Hw' & Hbufs & Hk' & _ & Hnb' & Hst).
  assert (Hy : y ∉ l') by (apply chain_NoDup, NoDup_cons in Hc; tauto).
  assert (Htail : chain_bytes h' l' = chain_bytes h1 l').
  { apply chain_bytes_ext. intros p Hp. apply (k_bytes _ _ _ _ Hk').
    - intros ->%list_elem_of_singleton. done.
    - apply (chain_payload _ _ p Hc). by right. }
  split; [done|]. split; [|split].
  - eapply keeps_grow; [exact Hk|exact Hk'| |by intros ? ?%elem_of_nil].
    intros p ->%list_elem_of_singleton. destruct Hcase as [[-> _]|[Hn _]]; [left; by left|by right].
  - intros q Hq Ho. unfold on_heap. rewrite Hst. by apply Hoh.
  - exists l'. split_and!.
    + eapply keeps_chain; [exact Hk'|set_solver|done].
    + rewrite chain_bytes_cons, Hnb', Htail, <- app_assoc, Hrest. done.
    + destruct Hcase as [?|(Hn & Ho & ->)]; [by left|]. right. split; [done|]. split; [|done].
      unfold on_heap. by rewrite Hst.
Qed.

Definition no_file_id : exn := invalid_argument "invalid file id".

Lemma prependHeader_wp h x l b fid hasher :
  wf h -> chain h (x :: l) -> payloads h !! x = Some b -> (headroom b < headerSize -> alloc_ok h) -> capacity_ b + 31 <= max_alloc ->
  length (m_data hasher) = 192%nat -> length (m_state hasher) = 12%nat ->
  zlen (chain_bytes h (x :: l)) + 28 < 2 ^ 64 ->
  wp (prependHeader hasher x fid) h
    (fun '(y, n) h' => fid <> 0 /\
       (chain_bytes h (x :: l) = [] /\ y = x /\ n = 0 /\ h' = h \/
        chain_bytes h (x :: l) <> [] /\ n = zlen (record fid (chain_bytes h (x :: l))) /\
          n < 2 ^ 32 - 1 /\ headed h x l fid y h'))
    (fun e h' => unchanged h h' /\
       (fid = 0 /\ e = no_file_id \/
        fid <> 0 /\ e = too_long /\ 2 ^ 32 - 1 <= zlen (chain_bytes h (x :: l)) + 28 \/
        fid <> 0 /\ e = bad_alloc /\ refused h)).
Proof.
  intros Hw Hc Hx Ha Hcap Hd Hs Hmax. unfold prependHeader.
  assert (Hu : unchanged h h) by (split_and!; [done|apply keeps_refl|done|by intros X C]).
  case_decide as Hf. { apply wp_throw. split; [done|]. by left. }
  apply wp_bind. eapply wp_mono; [by eapply dataLengthAndHash_wp| |].
  2: { intros e h' (-> & -> & ?). split; [done|]. right. by left. }
  intros [n w] h' (-> & Hlt & [= -> ->]). pose proof (zlen_nonneg (chain_bytes h (x :: l))) as Hz.
  case_decide as H0. { apply wp_ret. split; [done|]. left. apply nil_zlen in H0. by split_and!. }
  assert (Hne : chain_bytes h (x :: l) <> []) by (intros E; by rewrite E in H0).
  apply wp_bind. eapply wp_load; [exact Hx|]. apply wp_bind.
  (* what remains once there is room for the header in front of [y] *)
  assert (Hrest : forall y h1 l' b' pre rest, wf h1 -> keeps [x] (x :: l) h h1 -> chain h1 (y :: l') -> own_data h1 y ->
    payloads h1 !! y = Some b' -> node_bytes h1 y = pre ++ rest -> zlen pre = 28 ->
    rest ++ chain_bytes h1 l' = chain_bytes h (x :: l) ->
    (y = x /\ l' = l) \/ (payloads h !! y = None /\ on_heap h1 y /\ l' = x :: l) ->
    (forall q, q ∈ x :: l -> on_heap h q -> on_heap h1 q) ->
    wp (b ← load y; fill_header (data_ b) fid (zlen (chain_bytes h (x :: l))) (dataHash (chain_bytes h (x :: l)));;
        mret (y, u64 (zlen (chain_bytes h (x :: l)) + headerSize))) h1
     (fun '(y, n) h' => fid <> 0 /\
       (chain_bytes h (x :: l) = [] /\ y = x /\ n = 0 /\ h' = h \/
        chain_bytes h (x :: l) <> [] /\ n = zlen (record fid (chain_bytes h (x :: l))) /\
          n < 2 ^ 32 - 1 /\ headed h x l fid y h')) nothrow).
  { intros y h1 l' b' pre rest Hw1 Hk1 Hc1 Ho1 Hp1 Hnb1 Hpre1 Hr1 Hcase Hoh. apply wp_bind. eapply wp_load; [exact Hp1|].
    apply wp_bind. eapply wp_wand; [eapply (headed_fill h h1 x l y l' b' pre rest fid); try done; lia|].
    intros [] h2 Hh. apply wp_ret. split; [done|]. right. rewrite zlen_record. unfold headerSize. rewrite u64_small by lia.
    split_and!; [done|lia|lia|done]. }
  case_decide as Hr.
  - apply wp_bind. eapply wp_mono; [by eapply unshareOne_wp| |].
    2: { intros e h' (-> & Href & Hun). split; [done|]. right. by right. }
    intros [] h1 (b1 & (Hw1 & Hk1 & Hp1 & Ho1) & Hby & (Hl1 & Hc1 & Hh1) & Hn).
    assert (Hx1 : payloads h1 !! x = Some b1) by (rewrite Hp1; apply lookup_insert_eq).
    apply wp_bind. eapply wp_nothrow; [eapply prepended_wp; [done|exact Hx1|done|by rewrite Hh1]|].
    intros [] h2 (b2 & pre & Hw2 & Hk2 & Hx2 & Hown2 & Hpre & Hnb2 & Hst2). apply wp_ret.
    assert (Hk : keeps [x] [] h h2) by by eapply keeps_trans.
    eapply wp_nothrow; [eapply (Hrest x h2 l b2 pre); try done|by intros a s'].
    + eapply keeps_weaken; [| |exact Hk]; set_solver.
    + eapply keeps_chain; [exact Hk|set_solver|done].
    + rewrite Hby, chain_bytes_cons. f_equal. apply chain_bytes_ext. intros p Hp. apply (k_bytes _ _ _ _ Hk).
      * intros ->%list_elem_of_singleton. apply chain_NoDup, NoDup_cons in Hc. tauto.
      * apply (chain_payload _ _ p Hc). by right.
    + by left.
    + intros q _ Hq. unfold on_heap. rewrite Hst2. by apply Ho1.
  - eapply wp_nothrow; [eapply header_buffer_wp; [done|done|apply Ha; lia]|].
    intros nb h1 (Hnb & Hoh & Hw1 & Hc1 & Hk1 & Hown & [b1 Hb1] & Hz1).
    eapply wp_nothrow; [eapply (Hrest nb h1 (x :: l) b1 _ []); try done|by intros a s'].
    + eapply keeps_weaken; [| |exact Hk1]; set_solver.
    + by rewrite app_nil_r.
    + by eapply keeps_chain_bytes; [exact Hk1|set_solver|].
    + by right.
    + intros q Hq. apply (k_heap _ _ _ _ Hk1); [set_solver|]. by apply (chain_payload _ _ q Hc).
Qed.
End Write.

(** ** The system call on the iovecs of a chain *)

(** The bytes at some addresses. *)
Definition readcell (h : Heap) (a : addr) : option Z :=
  k ← ablk a; bs ← blocks h !! k; if decide (0 <= aoff a) then bs !! Z.to_nat (aoff a) else None.

Definition holds (h : Heap) : list addr -> list Z -> Prop := Forall2 (fun a x => readcell h a = Some x).

Lemma holds_det h cs bs bs' : holds h cs bs -> holds h cs bs' -> bs = bs'.
Proof.
  intros H. revert bs'. induction H as [|a x cs bs Ha _ IH]; intros bs' H'; inversion H' as [|? ? ? ? Hb Hr]; simplify_eq; [done|].
  f_equal. by apply IH.
Qed.

(** A block of memory and its addresses. *)
Lemma holds_slice h k bs o n : blocks h !! k = Some bs -> 0 <= o -> 0 <= n -> o + n <= zlen bs ->
  holds h (block_cells padd (Addr (Some k) o, n)) (slice o n bs).
Proof.
  intros Hk Ho Hn Hle. unfold holds, block_cells. cbn [fst snd]. apply Forall2_same_length_lookup. split.
  - rewrite length_fmap, length_seqZ. pose proof (zlen_slice o n bs Ho Hn Hle). unfold zlen in *. lia.
  - intros i a x Ha Hx. apply list_lookup_fmap_Some in Ha as (j & -> & Hj). apply lookup_seqZ in Hj as [-> Hi].
    unfold readcell, padd. simpl. rewrite Hk. simpl. rewrite decide_True by lia.
    unfold slice in Hx. rewrite lookup_take_lt, lookup_drop in Hx by lia. rewrite <- Hx. f_equal. lia.
Qed.

Lemma load_cells h base n bs : 0 <= n -> holds h (block_cells padd (base, n)) bs -> load_bytes base n h = Ok bs h.
Proof.
  intros Hn Hh. unfold load_bytes. destruct (decide (n = 0)) as [->|Hne].
  { unfold block_cells in Hh. simpl in Hh. by inversion Hh. }
  unfold holds in Hh. pose proof (Forall2_length _ _ _ Hh) as Hlen. unfold block_cells in Hlen. rewrite length_fmap, length_seqZ in Hlen.
  assert (Hcell : forall i, 0 <= i < n -> exists x, readcell h (padd base i) = Some x /\ bs !! Z.to_nat i = Some x).
  { intros i Hi. destruct (lookup_lt_is_Some_2 bs (Z.to_nat i)) as [x Hx]; [simpl in Hlen; lia|]. exists x. split; [|done].
    eapply (Forall2_lookup_lr _ _ _ (Z.to_nat i) _ _ Hh); [|done]. unfold block_cells. simpl. rewrite list_lookup_fmap.
    rewrite lookup_seqZ_lt by lia. simpl. do 2 f_equal. lia. }
  destruct (Hcell 0) as (x0 & H0 & _); [lia|]. destruct (Hcell (n - 1)) as (x1 & H1 & _); [lia|].
  unfold readcell, padd in H0, H1. cbn [ablk aoff] in H0, H1. destruct (ablk base) as [k|] eqn:Hk; [|done]. simpl in H0, H1.
  destruct (blocks h !! k) as [old|] eqn:Hb; [|done]. simpl in H0, H1.
  destruct (decide (0 <= aoff base + 0)); [|done]. destruct (decide (0 <= aoff base + (n - 1))); [|lia].
  apply lookup_lt_Some in H1.
  unfold mbind, M_bind, bind, get, of_option, ret. simpl. rewrite Hb.
  unfold assert. rewrite bool_decide_eq_true_2 by (unfold zlen; lia). unfold mret, M_ret, ret. f_equal.
  apply (holds_det h (block_cells padd (base, n))); [|done].
  destruct base as [bk o]. simpl in *. subst bk. apply holds_slice; [done|lia|lia|unfold zlen; lia].
Qed.

Lemma read_iov_run h iov bs : iov_sized iov -> holds h (cells padd iov) bs ->
  exists vs, Writer.read_iov iov h = Ok vs h /\ concat vs = bs.
Proof.
  intros Hp. revert bs. induction Hp as [|[base n] iov Hn _ IH]; intros bs Hh.
  - inversion Hh; subst. by exists [].
  - apply Forall2_app_inv_l in Hh as (b1 & b2 & H1 & H2 & ->). destruct (IH b2 H2) as (vs & Hvs & Hc). exists (b1 :: vs). split.
    + cbn [Writer.read_iov]. erewrite run_bind by by apply load_cells. by erewrite run_bind.
    + simpl. by rewrite Hc.
Qed.

(** The iovecs of a chain hold its bytes. *)
Lemma chain_iov_holds h l : wf h -> holds h (cells padd (chain_iov h l)) (chain_bytes h l) /\ positive_iov (chain_iov h l).
Proof.
  intros Hw. induction l as [|p l [IH IHp]]; [split; constructor|].
  change (chain_iov h (p :: l)) with (node_iov h p ++ chain_iov h l). rewrite cells_app, chain_bytes_cons.
  unfold node_iov, node_bytes. destruct (payloads h !! p) as [b|] eqn:Hp; [|done].
  pose proof (wf_window _ _ _ Hw Hp) as Hwin. pose proof (window_bytes_len _ _ Hwin) as Hl. case_decide as Hpos.
  - split; [|by apply Forall_app; split; [repeat constructor|]]. apply Forall2_app; [|done].
    rewrite cells_cons. change (cells padd []) with (@nil addr). rewrite app_nil_r.
    destruct Hwin as (Hd & ? & ? & Hm). unfold bytes. rewrite Hd. destruct (ablk (buf_ b)) as [k|] eqn:Hk; [|lia].
    destruct Hm as (bs & Hbs & ?). rewrite Hbs. simpl. destruct (data_ b) as [dk o]. simpl in *. subst dk. apply holds_slice; [done|lia..].
  - destruct Hwin as (_ & Hge & _). assert (bytes (blocks h) b = []) as -> by (apply nil_zlen; lia). by split.
Qed.

Section Kernel.
Context {K : Type} `{!FileKernel K}.
Abbreviation World := (Heap * (K * Z))%type.

(** [pwritev] moves bytes to the file. *)
#[export, refine] Instance pwritev_transfers : Transfers iov_sized (cells padd) (Writer.sys_pwritev (K := K)) := {
  valid cs w := exists bs, holds w.1 cs bs;
  moved cs off w w' := w'.1 = w.1 /\ w'.2.2 = w.2.2 /\ exists bs, holds w.1 cs bs /\
    contents w'.2.1 = file_write (Z.to_nat off) bs (contents w.2.1);
  at_eof _ := False;
  interrupts w := signals w.2.1
}.
Proof.
  - intros a b w [bs H]. apply Forall2_app_inv_l in H as (b1 & b2 & H1 & H2 & ->). eauto.
  - intros off w. split_and!; [done|done|]. exists []. by split; [constructor|].
  - intros a b off w1 w2 w3 Ho (E1 & F1 & ba & Ha & C1) (E2 & F2 & bb & Hb & C2). rewrite E1 in Hb. split_and!; [congruence|congruence|].
    exists (ba ++ bb). split; [by apply Forall2_app|]. rewrite C2, C1, <- file_write_app. do 2 f_equal.
    apply Forall2_length in Ha. unfold zlen. lia.
  - intros a b off w w' (E & _) [bs H]. exists bs. by rewrite E.
  - intros iov off [h [k pos]] Hsz Ho [bs Hh]. simpl in Hh. destruct (read_iov_run _ _ _ Hsz Hh) as (vs & Hvs & <-).
    unfold Writer.sys_pwritev. apply wp_bind, wp_lift. unfold wp at 1. rewrite Hvs. unfold Writer.on_kernel, wp.
    pose proof (pwritev_spec vs off k Ho) as Hs. destruct (pwritev vs off k) as [[r e] k'] eqn:Hpw. cbn [fst snd].
    destruct Hs as [(-> & Hc & Hi)|(Hr & H0 & Hi & Hc)]; [left|right].
    + split_and!; try done. exists []. by split; [constructor|].
    + pose proof (Forall2_length _ _ _ Hh) as Hlen. unfold zlen in *. split_and!; try done; try lia.
      * exists (take (Z.to_nat r) (concat vs)). split; [by apply Forall2_take|done].
      * intros Hr0. left. specialize (H0 Hr0). rewrite H0 in Hlen. by apply nil_length_inv.
Defined.

Definition write_failed : exn := runtime_error "pwrite() failed".

(** A call of [pwritev], and one at [off] that failed, after some others, with an
    error that is not an interruption. *)
Definition pwritev_called (k k' : K) : Prop := exists vs off r errno, pwritev vs off k = (r, errno, k').
Definition pwritev_failed (off : Z) (k k' : K) : Prop :=
  exists k1 vs errno, rtc pwritev_called k k1 /\ pwritev vs off k1 = (-1, errno, k') /\ errno <> EINTR.

Lemma sys_pwritev_inv iov off (w w' : World) r : Writer.sys_pwritev iov off w = Ok r w' ->
  exists vs, pwritev vs off w.2.1 = (r, w'.2.1).
Proof.
  destruct w as [h [k pos]]. unfold Writer.sys_pwritev, mbind, M_bind, bind, lift. simpl.
  destruct (Writer.read_iov iov h) as [vs h'| | |]; [|done..]. unfold Writer.on_kernel.
  destruct (pwritev vs off k) as [a k'] eqn:E. intros [= <- <-]. by exists vs.
Qed.

Lemma sys_pwritev_calls (w w' : World) : rtc (called Writer.sys_pwritev) w w' -> rtc pwritev_called w.2.1 w'.2.1.
Proof.
  induction 1 as [|w1 w2 w3 (iov & off & [r e] & Hrun) _ IH]; [apply rtc_refl|]. apply sys_pwritev_inv in Hrun as [vs E].
  eapply rtc_l; [|exact IH]. by exists vs, off, r, e.
Qed.

(** The elements of the chain of [x] were deleted, and no other object was affected. *)
Definition gone (h : Heap) (x : positive) (l : list positive) (h' : Heap) : Prop :=
  wf h' /\ keeps (x :: l) (x :: l) h h' /\ forall q, q ∈ x :: l -> payloads h' !! q = None.

(** What is written for the bytes [bs]. *)
Definition record_or_nothing (fid : Z) (bs : list Z) : list Z := if decide (bs = []) then [] else record fid bs.

Lemma delete_headed h x l fid y h1 : chain h (x :: l) -> (forall q, q ∈ x :: l -> on_heap h q) -> headed h x l fid y h1 ->
  wp (delete_ y) h1 (fun _ h' => gone h x l h') nothrow.
Proof.
  intros Hc Ho (Hw & Hk & Hoh & l' & Hc' & _ & Hcase).
  assert (Hsub : forall q, q ∈ y :: l' -> q ∈ x :: l \/ payloads h !! q = None).
  { intros q Hq. destruct Hcase as [[-> ->]|(Hn & _ & ->)]; [by left|]. apply elem_of_cons in Hq as [->|Hq]; [by right|by left]. }
  eapply wp_wand; [apply (delete_wp h1 y l'); [done|done|]|].
  - intros q Hq. destruct Hcase as [[-> ->]|(_ & Hy & ->)]; [by apply Hoh, Ho|].
    apply elem_of_cons in Hq as [->|Hq]; [done|]. by apply Hoh, Ho.
  - intros [] h' (Hw' & Hk' & Hp & _). split_and!; [done| |].
    + eapply keeps_grow; [eapply keeps_weaken; [| |exact Hk]; [|done]|exact Hk'|done|done]. intros q ->%list_elem_of_singleton. by left.
    + intros q Hq. rewrite Hp, decide_True; [done|]. destruct Hcase as [[-> ->]|(_ & _ & ->)]; [done|by right].
Qed.

(** [pwritevFull] on the iovecs of a chain: the file gets its bytes, or a part of
    them and the call fails. *)
Lemma pwritevFull_chain_wp h k pos l : wf h -> 0 <= pos ->
  wp (Writer.pwritevFull (chain_iov h l) pos) (h, (k, pos + zlen (chain_bytes h l)))
    (fun r w => exists k' n, w = (h, (k', pos + zlen (chain_bytes h l))) /\
       contents k' = file_write (Z.to_nat pos) (take n (chain_bytes h l)) (contents k) /\
       (r.1 = -1 /\ pwritev_failed (pos + Z.of_nat n) k k' \/ r.1 = zlen (chain_bytes h l) /\ n = length (chain_bytes h l))) nothrow.
Proof.
  intros Hw Hpos. destruct (chain_iov_holds h l Hw) as [Hh Hp]. pose proof (Forall2_length _ _ _ Hh) as Hlen.
  unfold Writer.pwritevFull. apply wp_bind, wp_get. eapply wp_wand; [apply (wrapvFull_wp padd)|].
  - intros p i j. unfold padd. simpl. f_equal. lia.
  - done.
  - done.
  - by exists (chain_bytes h l).
  - simpl. lia.
  - intros [r e] [h' [k' pos']] (n & Hn & (E1 & E2 & bs & Hbs & Hc) & Hr). simpl in *. subst h' pos'.
    assert (bs = take n (chain_bytes h l)) as ->.
    { eapply holds_det; [exact Hbs|]. by apply Forall2_take. }
    exists k', n. split_and!; [done|done|]. destruct Hr as [(-> & He & v & [h1 [k1 pos1]] & Hcalls & Hrun)|[-> [->|[]]]]; [left|right].
    { split; [done|]. apply sys_pwritev_calls in Hcalls. apply sys_pwritev_inv in Hrun as [vs Hvs]. by exists k1, vs, e. }
    unfold zlen. rewrite Hlen. done.
Qed.

Lemma write_wp hasher fid h k pos x l b :
  wf h -> chain h (x :: l) -> (forall q, q ∈ x :: l -> on_heap h q) ->
  payloads h !! x = Some b -> (headroom b < headerSize -> alloc_ok h) -> capacity_ b + 31 <= max_alloc ->
  length (m_data hasher) = 192%nat -> length (m_state hasher) = 12%nat ->
  zlen (chain_bytes h (x :: l)) + 28 < 2 ^ 64 -> 0 <= pos ->
  let bs := chain_bytes h (x :: l) in
  wp (Writer.write hasher fid x) (h, (k, pos))
    (fun _ '(h', (k', pos')) => fid <> 0 /\ gone h x l h' /\ pos' = pos + zlen (record_or_nothing fid bs) /\
       contents k' = file_write (Z.to_nat pos) (record_or_nothing fid bs) (contents k))
    (fun e '(h', (k', pos')) => gone h x l h' /\
       (fid = 0 /\ e = no_file_id /\ k' = k /\ pos' = pos \/
        2 ^ 32 - 1 <= zlen bs + 28 /\ e = too_long /\ k' = k /\ pos' = pos \/
        refused h /\ e = bad_alloc /\ k' = k /\ pos' = pos \/
        e = write_failed /\ pos' = pos + zlen (record fid bs) /\
          exists n, contents k' = file_write (Z.to_nat pos) (take n (record fid bs)) (contents k) /\
            pwritev_failed (pos + Z.of_nat n) k k')).
Proof.
  intros Hw Hc Ho Hx Ha Hcap Hd Hs Hmax Hpos bs. unfold Writer.write. apply wp_bind, wp_try_catch, wp_lift.
  assert (Hdel : forall h1, unchanged h h1 -> wp (delete_ x) h1 (fun _ h' => gone h x l h') nothrow).
  { intros h1 (Hw1 & Hk1 & Hp1 & _). eapply wp_wand; [apply (delete_wp h1 x l); [done| |]|].
    - eapply keeps_chain; [exact Hk1|set_solver|done].
    - intros q Hq. apply (k_heap _ _ _ _ Hk1); [set_solver|by apply (chain_payload _ _ q Hc)|by apply Ho].
    - intros [] h' (? & Hk & Hp & _). split_and!; [done| |].
      + eapply keeps_trans; [|exact Hk]. eapply keeps_weaken; [| |exact Hk1]; set_solver.
      + intros q Hq. by rewrite Hp, decide_True. }
  eapply wp_mono; [by eapply (prependHeader_wp h x l b fid hasher)| |]; fold bs.
  2: { intros e h1 (Hun & He). apply wp_bind, wp_lift. eapply wp_nothrow; [by apply Hdel|]. intros [] h' Hg. apply wp_throw.
       split; [done|]. destruct He as [[? ->]|[(_ & -> & ?)|(_ & -> & ?)]]; [left|right; left|right; right; left]; by split_and!. }
  intros [y n] h1 (Hfid & [(Hbs & -> & -> & ->)|(Hbs & -> & Hlt & Hhd)]).
  { rewrite decide_True by done. apply wp_lift. eapply wp_nothrow.
    { apply Hdel. split_and!; [done|apply keeps_refl|done|by intros X C]. }
    intros [] h' Hg. unfold record_or_nothing.
    rewrite decide_True by done. by rewrite Z.add_0_r. }
  pose proof (zlen_record fid bs) as Hz. pose proof (zlen_nonneg bs). rewrite decide_False by lia.
  pose proof (delete_headed h x l fid y h1 Hc Ho Hhd) as Hdel1.
  destruct Hhd as (Hw1 & _ & _ & l' & Hc1 & Hby & _). fold bs in Hby.
  apply wp_bind, wp_lift. eapply wp_nothrow; [by eapply computeChainDataLength_wp|]. intros n h' (-> & ->).
  rewrite Hby, u64_small by lia. apply wp_bind, wp_assert; [by apply bool_decide_eq_true|].
  apply wp_bind. unfold Writer.fetch_add, wp at 1.
  apply wp_bind, wp_lift. eapply wp_nothrow; [by eapply getIov_wp|]. intros iov h' (-> & ->). rewrite <- Hby.
  apply wp_bind. eapply wp_nothrow; [apply (pwritevFull_chain_wp h1 k pos (y :: l')); done|].
  intros [r e] w (k' & n & -> & Hcont & Hr). rewrite Hby in Hcont, Hr |- *. cbn [fst] in Hr.
  case_decide as Hm1.
  - apply wp_bind, wp_lift. eapply wp_nothrow; [exact Hdel1|]. intros [] h' Hg. apply wp_throw. split; [done|]. right. right. right.
    destruct Hr as [[_ Hfail]|[-> _]]; [|lia]. split_and!; try done. by exists n.
  - destruct Hr as [[? _]|[-> ->]]; [done|]. apply wp_bind, wp_assert; [apply bool_decide_eq_true, u64_small; lia|].
    apply wp_lift. eapply wp_nothrow; [exact Hdel1|]. intros [] h' Hg. unfold record_or_nothing. rewrite decide_False by done.
    split_and!; try done. by rewrite Hcont, firstn_all.
Qed.
End Kernel.

(** ** Several threads *)

Section Threads.
Context (f0 : list Z) (datas : list (list Z)) (Hdatas : Forall (fun bs => bs <> []) datas).

(** The file, when the threads of [order] have reserved their places. *)
Definition target (order : list nat) : list Z := f0 ++ concat ((fun i => default [] (datas !! i)) <$> order).

Definition waiting (s : shared) (i : nat) : Prop := exists bs, jobs s !! i = Some (Waiting bs).

(** Each byte is in its place already, or a thread has it still to write. *)
Record winv (order : list nat) (s : shared) : Prop := {
  wi_len : length (jobs s) = length datas;
  wi_pos : sfilePos s = length (target order);
  wi_order : NoDup order /\ forall i, i ∈ order <-> (i < length datas)%nat /\ ~ waiting s i;
  wi_waiting : forall i bs, jobs s !! i = Some (Waiting bs) -> datas !! i = Some bs;
  wi_rest : forall i p rest, jobs s !! i = Some (Writing p rest) ->
    (p + length rest <= length (target order))%nat /\ take (length rest) (drop p (target order)) = rest;
  wi_file : (length (sfile s) <= length (target order))%nat;
  wi_bytes : forall j, (j < length (target order))%nat -> sfile s !! j = target order !! j \/
    exists i p rest, jobs s !! i = Some (Writing p rest) /\ (p <= j < p + length rest)%nat }.

Lemma winv_init : winv [] (mkShared f0 (length f0) (Waiting <$> datas)).
Proof.
  assert (Ht : target [] = f0) by (unfold target; simpl; apply app_nil_r). split; simpl; rewrite ?Ht; try done.
  - by rewrite length_fmap.
  - split; [constructor|]. intros i. split; [by intros ?%elem_of_nil|]. intros [Hi Hn]. exfalso. apply Hn.
    destruct (lookup_lt_is_Some_2 datas i Hi) as [bs Hbs]. exists bs. simpl. by rewrite list_lookup_fmap, Hbs.
  - intros i bs H. rewrite list_lookup_fmap in H. destruct (datas !! i); [|done]. simpl in H. congruence.
  - intros i p rest H. rewrite list_lookup_fmap in H. by destruct (datas !! i).
  - by left.
Qed.

(** A thread that has reserved its place does not wait again. *)
Lemma insert_waiting js i j k bs : (i < length js)%nat -> (forall bs, j <> Waiting bs) ->
  <[i := j]> js !! k = Some (Waiting bs) -> js !! k = Some (Waiting bs).
Proof.
  intros Hi Hj Hk. destruct (decide (k = i)) as [->|Hne].
  - rewrite list_lookup_insert_eq in Hk by done. injection Hk as Hk. by apply Hj in Hk.
  - by rewrite list_lookup_insert_ne in Hk.
Qed.

Lemma waiting_insert f pos f' pos' js i j p rest k : js !! i = Some (Writing p rest) -> (forall bs, j <> Waiting bs) ->
  waiting (mkShared f' pos' (<[i := j]> js)) k <-> waiting (mkShared f pos js) k.
Proof.
  intros Hi Hj. unfold waiting. simpl. pose proof (lookup_lt_Some _ _ _ Hi). split; intros [bs Hk]; exists bs.
  - by eapply insert_waiting; [| |exact Hk].
  - rewrite list_lookup_insert_ne; [done|]. intros ->. congruence.
Qed.

Lemma winv_reserve order f pos js i bs : winv order (mkShared f pos js) -> js !! i = Some (Waiting bs) ->
  winv (order ++ [i]) (mkShared f (pos + length bs) (<[i := Writing pos bs]> js)).
Proof.
  intros [Hl Hp [Hnd Hord] Hwt Hrest Hf Hby] Hi. simpl in *.
  assert (Ht : target (order ++ [i]) = target order ++ bs).
  { unfold target. rewrite fmap_app, concat_app. simpl. rewrite (Hwt i bs Hi). simpl. by rewrite app_nil_r, app_assoc. }
  pose proof (lookup_lt_Some _ _ _ Hi) as Hlt.
  split; simpl; rewrite ?Ht, ?length_app.
  - by rewrite length_insert.
  - lia.
  - split.
    + apply NoDup_app. split; [done|]. split; [|apply NoDup_singleton]. intros j Hj ->%list_elem_of_singleton.
      apply Hord in Hj as [_ Hj]. apply Hj. by exists bs.
    + intros j. rewrite elem_of_app, Hord, list_elem_of_singleton. unfold waiting. simpl. destruct (decide (j = i)) as [->|Hne].
      * rewrite list_lookup_insert_eq by done. split; [|tauto]. intros _. split; [lia|]. by intros [? [=]].
      * rewrite list_lookup_insert_ne by done. tauto.
  - intros j bs' Hj. apply Hwt. by eapply insert_waiting; [| |exact Hj].
  - intros j p rest Hj. destruct (decide (j = i)) as [->|Hne].
    + rewrite list_lookup_insert_eq in Hj by done. injection Hj as <- <-. split; [lia|]. rewrite Hp, drop_app_length. apply firstn_all.
    + rewrite list_lookup_insert_ne in Hj by done. destruct (Hrest j p rest Hj) as [Hle Hr]. split; [lia|].
      rewrite drop_app_le by lia. rewrite take_app_le by (rewrite length_drop; lia). done.
  - lia.
  - intros j Hj. destruct (decide (j < length (target order))%nat) as [Hlt'|Hge].
    + rewrite lookup_app_l by done. destruct (Hby j Hlt') as [?|(i' & p & rest & Hi' & Hb)]; [by left|right].
      exists i', p, rest. rewrite list_lookup_insert_ne by congruence. done.
    + right. exists i, pos, bs. rewrite list_lookup_insert_eq by done. split; [done|]. lia.
Qed.

Lemma winv_pwritev order f pos js i p rest n : winv order (mkShared f pos js) ->
  js !! i = Some (Writing p rest) -> (n <= length rest)%nat ->
  winv order (mkShared (file_write p (take n rest) f) pos (<[i := Writing (p + n) (drop n rest)]> js)).
Proof.
  intros [Hl Hp [Hnd Hord] Hwt Hrest Hf Hby] Hi Hn. simpl in *. pose proof (lookup_lt_Some _ _ _ Hi) as Hlt.
  destruct (Hrest i p rest Hi) as [Hle Hr].
  assert (Hw : forall j, (p <= j < p + n)%nat -> file_write p (take n rest) f !! j = target order !! j).
  { intros j Hj. rewrite lookup_file_write.
    - rewrite decide_True by (rewrite length_take; lia). rewrite <- Hr, !lookup_take_lt, lookup_drop by lia. f_equal. lia.
    - intros H. apply (f_equal length) in H. rewrite length_take in H. simpl in H. lia. }
  split; simpl; try done.
  - by rewrite length_insert.
  - split; [done|]. intros j. by rewrite Hord, (waiting_insert f pos).
  - intros j bs Hj. apply Hwt. by eapply insert_waiting; [| |exact Hj].
  - intros j q r Hj. destruct (decide (j = i)) as [->|Hne]; [|rewrite list_lookup_insert_ne in Hj by done; by apply (Hrest j)].
    rewrite list_lookup_insert_eq in Hj by done. injection Hj as <- <-. rewrite length_drop. split; [lia|].
    rewrite <- drop_drop, <- skipn_firstn_comm. by replace (n + (length rest - n))%nat with (length rest) by lia; rewrite Hr.
  - apply Nat.nlt_ge. intros Hgt. apply lookup_lt_is_Some_2 in Hgt as [y Hy]. rename y into y'. destruct (decide (take n rest = [])) as [Hnil|Hne].
    + rewrite Hnil in Hy. simpl in Hy. apply lookup_lt_Some in Hy. lia.
    + rewrite lookup_file_write, length_take in Hy by done. repeat case_decide; lia || done.
  - intros j Hj. destruct (decide (p <= j < p + n)%nat) as [Hin|Hout]; [left; by apply Hw|].
    destruct (Hby j Hj) as [Heq|(i' & q & r & Hi' & Hb)].
    + left. destruct (decide (take n rest = [])) as [Hnil|Hne]; [by rewrite Hnil|].
      rewrite lookup_file_write, length_take by done. rewrite decide_False by lia.
      rewrite decide_True; [done|]. apply lookup_lt_is_Some_1. rewrite Heq. by apply lookup_lt_is_Some_2.
    + right. destruct (decide (i' = i)) as [->|Hne].
      * simplify_eq. exists i, (p + n)%nat, (drop n rest). rewrite list_lookup_insert_eq by done. split; [done|].
        rewrite length_drop. lia.
      * exists i', q, r. by rewrite list_lookup_insert_ne.
Qed.

Lemma winv_return order f pos js i p : winv order (mkShared f pos js) -> js !! i = Some (Writing p []) ->
  winv order (mkShared f pos (<[i := Done]> js)).
Proof.
  intros [Hl Hp [Hnd Hord] Hwt Hrest Hf Hby] Hi. simpl in *. pose proof (lookup_lt_Some _ _ _ Hi) as Hlt.
  split; simpl; try done.
  - by rewrite length_insert.
  - split; [done|]. intros j. by rewrite Hord, (waiting_insert f pos).
  - intros j bs Hj. apply Hwt. by eapply insert_waiting; [| |exact Hj].
  - intros j q r Hj. destruct (decide (j = i)) as [->|Hne]; [by rewrite list_lookup_insert_eq in Hj by done|].
    rewrite list_lookup_insert_ne in Hj by done. by apply (Hrest j).
  - intros j Hj. destruct (Hby j Hj) as [?|(i' & q & r & Hi' & Hb)]; [by left|right]. exists i', q, r.
    rewrite list_lookup_insert_ne; [done|]. intros ->. simplify_eq. simpl in Hb. lia.
Qed.

Lemma winv_step order r s s' : winv order s -> wstep r s s' -> winv (order ++ r) s'.
Proof. intros Hinv Hstep. destruct Hstep; rewrite ?app_nil_r; eauto using winv_reserve, winv_pwritev, winv_return. Qed.

Lemma winv_run order0 order s0 s : winv order0 s0 -> wrun order s0 s -> winv (order0 ++ order) s.
Proof.
  intros Hinv H. revert order0 Hinv. induction H as [s|r rs s s1 s2 Hstep _ IH]; intros order0 Hinv; [by rewrite app_nil_r|].
  rewrite app_assoc. apply IH. by eapply winv_step.
Qed.

(** When all threads have returned, the file is what one of them after the other
    would have written, in the order of the reservations. *)
Lemma threads_done order s : wrun order (mkShared f0 (length f0) (Waiting <$> datas)) s -> Forall (fun j => j = Done) (jobs s) ->
  order ≡ₚ seq 0 (length datas) /\ sfile s = target order /\ sfilePos s = length (sfile s).
Proof.
  intros Hr Hdone. destruct (winv_run [] order _ s winv_init Hr) as [Hl Hp [Hnd Hord] _ _ Hf Hby]. simpl in *.
  assert (Hno : forall i j, jobs s !! i = Some j -> j = Done) by (intros i j Hj; by apply (Forall_lookup_1 _ _ _ _ Hdone Hj)).
  assert (Heq : sfile s = target order).
  { apply list_eq. intros j. destruct (decide (j < length (target order))%nat) as [Hj|Hj].
    - destruct (Hby j Hj) as [?|(i & p & r & Hi & _)]; [done|]. by apply Hno in Hi.
    - by rewrite !lookup_ge_None_2 by lia. }
  split; [|split; [done|congruence]].
  apply NoDup_Permutation; [done|apply NoDup_seq|]. intros i. rewrite Hord, elem_of_seq. split; [lia|]. intros Hi. split; [lia|].
  intros [bs Hbs]. by apply Hno in Hbs.
Qed.
End Threads.

(** ** The claims *)

(** C9: [RecordIOWriter]: on a file that it could lock and open at its end, [write] appends
    exactly the record of the bytes of the chain, nothing for an empty chain, for
    every kernel that keeps to the documentation of [pwritev], and advances the
    position to the new end; the chain (of IOBufs on the heap) is deleted and no other
    object is affected, although the header is written into the headroom of a buffer
    that may be shared.  It throws only for a zero file id, for a record that is too
    long or when an allocation was refused, with the file unchanged, and when a call
    of [pwritev] by this [write] has failed with an error other than EINTR; then the
    file has got the prefix of the record up to the offset of that call.  If the first
    buffer has no room for the header, allocations are to be granted:
    [createCombined] does not check what malloc returns; a copy of the first buffer
    fits the largest allocation. *)
Theorem record_written {K} `{!FileKernel K} hasher fid h (k : K) pos0 x l b :
  wf h -> chain h (x :: l) -> (forall q, q ∈ x :: l -> on_heap h q) ->
  payloads h !! x = Some b -> (headroom b < headerSize -> alloc_ok h) -> capacity_ b + 31 <= max_alloc ->
  length (m_data hasher) = 192%nat -> length (m_state hasher) = 12%nat ->
  zlen (chain_bytes h (x :: l)) + 28 < 2 ^ 64 -> try_lock k = true -> fstat_size k = Some (zlen (contents k)) ->
  let bs := chain_bytes h (x :: l) in
  wp (Writer.ctor;; Writer.write hasher fid x) (h, (k, pos0))
    (fun _ '(h', (k', pos')) => fid <> 0 /\ gone h x l h' /\
       contents k' = contents k ++ (if decide (bs = []) then [] else record fid bs) /\ pos' = zlen (contents k'))
    (fun e '(h', (k', pos')) => gone h x l h' /\
       (fid = 0 /\ e = no_file_id /\ k' = k \/
        2 ^ 32 - 1 <= zlen bs + 28 /\ e = too_long /\ k' = k \/
        refused h /\ e = bad_alloc /\ k' = k \/
        e = write_failed /\ exists n, contents k' = contents k ++ take n (record fid bs) /\
          pwritev_failed (zlen (contents k) + Z.of_nat n) k k')).
Proof.
  intros Hw Hc Ho Hx Ha Hcap Hd Hs Hmax Hlock Hstat bs. pose proof (zlen_nonneg (contents k)) as Hk.
  apply wp_bind. unfold Writer.ctor, wp at 1. rewrite Hlock, Hstat.
  assert (Hend : forall t, file_write (Z.to_nat (zlen (contents k))) t (contents k) = contents k ++ t).
  { intros t. unfold zlen. rewrite Nat2Z.id. apply file_write_end. }
  eapply wp_mono; [by eapply (write_wp hasher fid h k (zlen (contents k)) x l b)| |].
  - intros [] [h' [k' pos']] (Hfid & Hg & -> & Hcont). rewrite Hend in Hcont. split_and!; [done|done|done|]. rewrite Hcont, zlen_app. done.
  - intros e [h' [k' pos']] (Hg & He). split; [done|].
    destruct He as [(? & ? & ? & _)|[(? & ? & ? & _)|[(? & ? & ? & _)|(? & _ & n & Hn & Hfail)]]];
      [by left|right; by left|right; right; by left|right; right; right].
    split; [done|]. exists n. by rewrite <- Hend.
Qed.

Lemma record_written_witness :
  wp (Writer.ctor;; Writer.write uninitialised 9 demo_a) (demo_heap, (demo_file, 0))
    (fun _ '(h', (k', pos')) => contents k' = [1; 2; 3; 4; 5; 6; 7] ++ record 9 [1; 2; 3; 4; 5] /\ pos' = 40 /\
       payloads h' !! demo_b = None)
    nothrow.
Proof.
  eapply wp_mono.
  - apply (record_written uninitialised 9 demo_heap demo_file 0 demo_a [demo_b; demo_c] (demo_payload demo_a));
      [exact demo_wf|exact demo_chain| |demo_lookup|intros _; exact demo_alloc_ok|vm_compute; discriminate|reflexivity|reflexivity
      |rewrite demo_bytes; reflexivity|reflexivity|reflexivity].
    intros q Hq. apply demo_on_heap. revert Hq. rewrite !elem_of_cons. tauto.
  - intros [] [h' [k' pos']] (_ & (_ & _ & Hg) & Hc & Hp). rewrite demo_bytes in Hc. split_and!; [done| |apply Hg; by right; left].
    rewrite Hp, Hc, zlen_app. reflexivity.
  - intros e [h' [k' pos']] (_ & He). destruct He as [(? & _)|[(Hl & _)|[(Hr & _)|(_ & n)]]]; [done| |by destruct (alloc_ok_refused _ demo_alloc_ok)|].
    2: { destruct n as (n & _ & k1 & vs & errno & _ & Hf & He). revert Hf. cbn. unfold demo_pwritev. destruct (next_move _ _); [|congruence].
         intros Hf. injection Hf as Hf _ _. lia. }
    rewrite demo_bytes in Hl. unfold zlen in Hl. simpl in Hl. lia.
Defined.

(** C8: several threads that write to one file: whatever the interleaving of
    their reservations ([filePos_.fetch_add]) and of their calls of [pwritev], which may
    each write a part, once all have returned a reader of the file gets the records
    that were there before and then the record of every thread, once, in the order
    of the reservations: that order, the labels of the interleaving, has every thread
    once.  The threads write records (28 bytes of header and a non-empty text below
    2^32 bytes) of a file id that the reader accepts; none of their calls fails. *)
Theorem concurrent_records_read_back id fid (old : list (Z * list Z)) ds order s m :
  fits 32 fid -> (id = 0 \/ fid = id) -> Forall (fun d => 0 < zlen d < 2 ^ 32) ds ->
  Forall (fun gd => fits 32 gd.1 /\ (id = 0 \/ gd.1 = id) /\ 0 < zlen gd.2 < 2 ^ 32) old ->
  let f0 := stream (uncurry Rec <$> old) in
  wrun order (mkShared f0 (length f0) (Waiting <$> (record fid <$> ds))) s -> Forall (fun j => j = Done) (jobs s) ->
  mapped m -> mbytes m = sfile s ->
  order ≡ₚ seq 0 (length ds) /\
  Reader.collect id 0 m = Ok (records_at 0 ((uncurry Rec <$> old) ++ ((fun i => Rec fid (default [] (ds !! i))) <$> order))) m.
Proof.
  intros Hf Hid Hds Hold f0 Hr Hdone Hm Hmb. destruct (threads_done f0 (record fid <$> ds) order s Hr Hdone) as (Hperm & Hfile & _).
  rewrite length_fmap in Hperm. set (pick := fun i => default [] (ds !! i)). split; [done|].
  change ((fun i => Rec fid (default [] (ds !! i))) <$> order) with ((fun i => Rec fid (pick i)) <$> order).
  rewrite (list_fmap_compose pick (Rec fid)).
  - assert (Hlt : Forall (fun i => i < length ds)%nat order).
    { rewrite Hperm. apply Forall_forall. intros i Hi%elem_of_seq. lia. }
    apply collect_stream; [done|lia| |].
    + unfold suffix_at. rewrite Z2Nat.inj_0, drop_0, Hmb, Hfile. unfold target, stream. rewrite fmap_app, concat_app. f_equal.
      f_equal. rewrite <- !list_fmap_compose. apply Forall_fmap_ext. eapply Forall_impl; [exact Hlt|]. intros i Hi. simpl. unfold pick.
      rewrite list_lookup_fmap. destruct (lookup_lt_is_Some_2 ds i Hi) as [d ->]. done.
    + assert (Hnew : forall ds', Forall (fun d => 0 < zlen d < 2 ^ 32) ds' -> readable id (Rec fid <$> ds')).
      { induction 1 as [|d ds' Hd _ IH]; [done|]. split; [done|]. split; [done|]. by split. }
      clear -Hold Hnew Hds Hlt. induction Hold as [|[g d] old (? & ? & ?) _ IH]; simpl; [|split; [done|]; split; [done|]; by split].
      apply Hnew. apply Forall_fmap. eapply Forall_impl; [exact Hlt|]. intros i Hi. simpl. unfold pick.
      destruct (lookup_lt_is_Some_2 ds i Hi) as [d Hd]. rewrite Hd. by apply (Forall_lookup_1 _ _ _ _ Hds Hd).
Qed.

(** Two threads: the second reserves first, and the first writes in two parts. *)
Definition demo_old : list Z := stream [Rec 3 [9]].
Definition demo_jobs : list (list Z) := record 3 <$> [[65]; [66; 67]].
Definition demo_final : shared :=
  mkShared (stream [Rec 3 [9]; Rec 3 [66; 67]; Rec 3 [65]]) 88 [Done; Done].

Lemma demo_interleaving : wrun [1; 0]%nat (mkShared demo_old (length demo_old) (Waiting <$> demo_jobs)) demo_final.
Proof.
  eapply (wrun_step [1%nat]); [apply (step_reserve _ _ _ 1%nat (record 3 [66; 67])); reflexivity|].
  eapply (wrun_step [0%nat]); [apply (step_reserve _ _ _ 0%nat (record 3 [65])); reflexivity|].
  eapply (wrun_step []); [apply (step_pwritev _ _ _ 0%nat 59%nat (record 3 [65]) 10%nat); [reflexivity|apply (bool_decide_unpack _); vm_compute; exact Logic.I]|].
  eapply (wrun_step []); [apply (step_pwritev _ _ _ 1%nat 29%nat (record 3 [66; 67]) 30%nat); [reflexivity|apply (bool_decide_unpack _); vm_compute; exact Logic.I]|].
  eapply (wrun_step []); [apply (step_pwritev _ _ _ 0%nat 69%nat (drop 10 (record 3 [65])) 19%nat); [reflexivity|apply (bool_decide_unpack _); vm_compute; exact Logic.I]|].
  eapply (wrun_step []); [apply (step_return _ _ _ 1%nat 59%nat); vm_compute; reflexivity|].
  eapply (wrun_step []); [apply (step_return _ _ _ 0%nat 88%nat); vm_compute; reflexivity|].
  match goal with |- wrun _ ?x _ => replace demo_final with x by (vm_compute; reflexivity) end. apply wrun_refl.
Qed.

Lemma concurrent_records_read_back_witness :
  Reader.collect 3 0 (mkMapping 8192 (sfile demo_final)) =
    Ok (records_at 0 [Rec 3 [9]; Rec 3 [66; 67]; Rec 3 [65]]) (mkMapping 8192 (sfile demo_final)).
Proof.
  destruct (concurrent_records_read_back 3 3 [(3, [9])] [[65]; [66; 67]] [1; 0]%nat demo_final (mkMapping 8192 (sfile demo_final)))
    as [_ H]; [done|by right|by repeat apply List.Forall_cons| |exact demo_interleaving|by repeat apply List.Forall_cons| |reflexivity|exact H].
  - apply List.Forall_cons; [|done]. split; [done|]. by split; [right|].
  - split_and!; [|by right|done|vm_compute; reflexivity].
    apply (bool_decide_unpack (Forall (fun b => 0 <= b < 256) (sfile demo_final))). vm_compute. exact Logic.I.
Defined.
